(* ===== verification/_CoqProject ===== *)
-Q . S2P
Prelude.v
Enums.v
Bitvector.v
GlobalConf.v
Forwarder.v
InfoGraph.v
GraphInv.v
LocalRV.v
RVInv.v
RVGraft.v
RVLedger.v
RVCollect.v
RVSafety.v
RVRequests.v
RVProps.v
RVRendezvous.v
RVLimits.v
RVPaths.v
LocalProxy.v
ProxyInv.v
ProxyLeave.v
ProxyProps.v
ProxyData.v
ProxyNet.v
ProxySafety.v
ProxyDelivery.v
ProxyNotify.v
ProxyRecovery.v
ProxyLimits.v
Netlink.v
UserLib.v
UserProps.v
NBLib.v
NBProps.v
Containers.v
ByteArray.v
QoSPackets.v
QoSProps.v
Igraph.v
LibBitvector.v
TMGraph.v
TMPaths.v
TMLinks.v
TMProps.v
TMNetwork.v
TMCache.v
Blocks.v
TMHandlers.v
TMAnswers.v
TMFailure.v
TMReturn.v
Resilience.v
RMProps.v
RMFailure.v
RMSafety.v
NapTypes.v
NapUTP.v
NapUTPProps.v
NapIP.v
NapIPProps.v
NapLtp.v
NapHttp.v
NapLtpPackets.v
NapLtpData.v
NapLtpWire.v
NapLtpRequest.v
NapLtpRequestProps.v
NapHttpProps.v
NapLtpResponse.v
NapLtpResponseProps.v
