(* ===== verification/Prelude.v ===== *)
(** * Blackadder: a verification library for the POINT information-centric node

    Blackadder (directory src/ of the repository) is the node of the POINT
    network: a set of Click elements that publish, match and forward
    information by name.  This library models the elements as functions on
    explicit states and proves what they promise each other.

    ** The parts of the node

    An application talks to the LocalProxy element of its node.  LocalProxy
    keeps who publishes and subscribes to which identifier and tells the
    rendezvous point (LocalRV, in this or another node) about the node as a
    whole.  LocalRV owns the information graph, matches publishers with
    subscribers, and asks the topology manager for a forwarding identifier
    (FID): the bitwise or of the identifiers of the links of a delivery tree.
    The Forwarder of every node sends a packet on each link whose identifier
    its FID contains.  GlobalConf holds the configuration that all share.
    The topology manager (TopologyManager/) is an application: it gets the
    requests of the rendezvous point as events of the user library
    (lib/blackadder), calculates FIDs on the graph of the network, answers the
    proxies of the publishers, and mends its tables when links fail.

    ** Files

    - Prelude: bytes, machine integers, a state monad whose faults are the
      kinds of undefined behaviour of the C++ code, weakest preconditions,
      the unspecified iteration order of Click's hash tables (class
      [HashOrder]), and packets under construction.
    - Enums: the constants of lib/blackadder_enums.hpp.
    - Bitvector: src/ba_bitvector; every operation on the 32-bit words, with
      the asserts of the source.
    - GlobalConf: src/globalconf, [configure].
    - Forwarder: src/forwarder; links and the push handler, on packets as lists
      of bytes with a trace of clone, uniqueify, kill and push.
    - InfoGraph: src/scope, src/informationitem, src/remotehost: the objects of
      the information graph on a heap and their operations.
    - LocalRV: src/localrv: the requests, the packets, initialisation, cleanup.
    - GraphInv, RVInv, RVGraft, RVLedger, RVCollect, RVSafety, RVRequests: the
      invariant of the graph ([inv]) and the effect of every operation on it.
      [ledger] is the abstract state of a rendezvous point: who published and
      subscribed to what.
    - RVProps, RVRendezvous, RVLimits, RVPaths: the properties of LocalRV.
    - LocalProxy: src/localproxy, src/localhost, src/activepub.
    - ProxyInv, ProxyLeave, ProxyProps: the invariant of its control plane,
      disconnection, and its properties, with the packets that LocalRV reads.
    - ProxyData: the whole of LocalProxy::push, with the data plane
      (src/activenode, notifications, implicit subscriptions, management).
    - ProxyNet, ProxySafety, ProxyDelivery, ProxyNotify, ProxyRecovery: its
      invariant ([node_inv]), who gets data, what the notifications of the
      rendezvous point and of failed links do.  ProxyLimits: where it fails.
    - Netlink: src/fromnetlink, src/tonetlink, src/netlink as machines whose
      steps interleave (class [Machine]).
    - UserLib, UserProps: lib/blackadder, the library of applications.
    - NBLib, NBProps: lib/nb_blackadder, its non-blocking variant with the
      threads that send requests and deliver events.
    - Containers: std::map as a [gmap] with its order.
    - ByteArray, QoSPackets, QoSProps: lib/qos and src/tm_ext/lsmpacket: byte
      arrays with bit fields, metadata packets, reports on links.
    - Igraph: the functions of igraph that are used, as a class of operations
      ([Igraph]) and of laws ([IgraphLaws]), with lists as an instance.
    - LibBitvector: what lib/bitvector has and the vectors of the node do not.
    - TMGraph, TMCache, TMHandlers: TopologyManager/tm_graph, tm_igraph, tm_qos
      and tm: the graph with its tables, the cache of metadata, the handlers.
    - TMPaths, TMLinks, TMProps: consistent tables ([tm_wf]), which links make
      up a FID ([carries]), the calculation of FIDs, links that come and go.
    - TMNetwork: a network of forwarders wired as the graph is.
    - TMAnswers: requests of the rendezvous point and the answers to them.
    - TMFailure, TMReturn: reports on links; the invariant [manager_ok].
    - Blocks: reading and writing blocks of memory, shared by the managers.
    - Resilience: TopologyManager/rm, the resilience manager, a process that is
      told the paths in use and asks for new ones when a link fails.
    - RMProps, RMFailure, RMSafety: what it records, what it asks for
      ([rm_ok]), and the invariant of its tables ([rm_inv]).
    - NapTypes, NapUTP, NapIP: apps/nap, the network attachment point, an
      application that carries IP packets: identifiers and prefixes (types/),
      the unreliable transport (transport/unreliable), the IP namespace with
      the cleaner of its buffer (namespaces/ip) and the listener (icn).
    - NapUTPProps, NapIPProps: which packets arrive; the flows ([Flow]) that
      the IP namespace implements.
    - NapLtp, NapHttp: HTTP over ICN: the lightweight transport
      (transport/lightweight), whose publishing threads are machines with one
      step for each look at a table and each end of a timer ([publisher_step],
      [request_wait]); the HTTP namespace (namespaces/http) with its groups of
      nodes and the cleaner of its buffer, the announcements of hosts and the
      listener ([http_event]).
    - NapLtpPackets, NapLtpData, NapLtpWire, NapLtpRequest, NapLtpResponse: the
      messages, fragments and missing fragments, and what each of them does at
      the other end.
    - NapLtpRequestProps, NapLtpResponseProps, NapHttpProps: requests,
      responses, groups of nodes and the cleaner.

    ** What the theorems show

    - Pointer safety and consistency: for all packets but those that the
      theorems name, LocalRV and LocalProxy follow no NULL or dangling pointer
      and keep their invariants as long as they run; they can run past the end
      of a packet that is too short or too small, and LocalRV can also recurse
      without end or walk on from an erased element.  The exceptions found in
      the source are theorems of their own
      (RVLimits, ProxyLimits, [ProxyProps.empty_scope_dangles],
      [UserProps.event_copy_overreads]).
    - Function: every answer of LocalRV tells what it did to the ledger; the
      index of names is the set of paths of the graph after any requests; a
      match involves exactly the publishers and subscribers of an item; the
      proxy forwards first publishers, last leavers and subscribers;
      disconnection withdraws exactly what nobody else has, in the right order.
    - Data: a publication reaches exactly the subscribers of its node and of
      the nodes that the network takes it to; a notification of the rendezvous
      point starts or stops exactly the publishers; a failed link removes
      exactly the FIDs that use it and makes the publishers publish again.
    - Applications: what a call of the library asks for is what the proxy does
      ([UserProps.api_request_served]), and data crosses the node from the
      call of one application to the event of another.
    - Concurrency: in every interleaving the queues between socket, element
      and application keep order and lose nothing
      ([Netlink.netlink_queues_deliver], [NBProps.nb_output_delivers]); the
      interleavings in which they wait for ever are theorems of their own.
    - Topology manager: every subscriber is served from a nearest publisher by
      a shortest way ([TMProps.nearest_publishers_serve]); a packet with that
      FID reaches it over the forwarders ([TMNetwork.data_reaches_subscribers]);
      requests of the rendezvous point are answered to the proxies of the
      publishers ([TMAnswers.rendezvous_answered]); through any sequence of
      failing and returning links the tables describe walks of the graph as
      it is and the nodes are told ([TMFailure.link_failure_repaired],
      [TMReturn.link_return_reconnects], [TMReturn.reports_keep_order]).  Where
      it fails, as these theorems say too: on reports about one direction, on
      requests and reports with nothing readable behind them, and where
      igraph_es_destroy is not harmless; [TMProps.unreachable_subscriber_breaks],
      [TMAnswers.match_request_overreads], [TMReturn.one_way_report_throws].
    - Resilience manager: it records what the topology manager reports
      ([RMProps.delivery_recorded]) and asks for new paths for exactly what a
      failed link cuts ([RMFailure.failure_rerequested]); it never uses the end
      of a table ([RMSafety.alternatives_always_found]).  Where it fails:
      on long messages ([RMProps.long_delivery_faults]), and when two native
      items are cut ([RMFailure.failure_rerequested]).
    - Attachment point: the IP namespace implements one valve for each
      destination ([NapIPProps.ip_flows_refined]), it finds a longest prefix
      ([NapIPProps.longest_prefix_found]), and packets of one or two fragments
      cross two attachment points ([NapIPProps.ip_packet_delivered]).  Longer
      ones do not ([NapUTPProps.utp_third_fragment_garbles],
      [NapUTPProps.utp_multiple_never_arrives]); addresses whose identifiers
      have the same hash are confused.
    - HTTP: a request crosses two attachment points in any order of its
      fragments ([NapLtpRequestProps.ltp_request_delivered]); a response that
      fits in the initial credit, to one client, is repaired within three
      rounds, whatever fragments are missing
      ([NapLtpResponseProps.ltp_response_repaired]); the group of a response is
      formed of the nodes that are ready ([NapHttpProps.cmc_group_formed]).
      Where it fails: lost requests are confirmed and not repaired
      ([NapLtpRequestProps.ltp_lost_request_confirmed],
      [NapLtpRequestProps.ltp_request_repair_misdirected]), sessions that ask
      for the same resource disturb each other
      ([NapLtpRequestProps.ltp_second_session_fails],
      [NapLtpRequestProps.ltp_other_requests_erased]), the cleaner uses an
      erased entry ([NapHttpProps.http_cleaner_rounds]).
    - Forwarding: no false negatives, payload untouched, a frame is read at the
      next hop as it was sent, and no packet is leaked but those of the proxy
      for links with an unknown protocol.
    - Round trips of packets between proxy, rendezvous point and forwarders;
      equivalence of the optimised bit operations with their documentation;
      bounds of packets; termination of the recursion over the graph.

    ** Modelling choices

    A pointer is a positive number, a heap a [gmap] of live objects; following
    a pointer to a deleted object is the fault [Dangling].  Integers are [Z]
    with the conversions of the source ([u8], [u16], [u32]) written out.  A
    packet is the list of its bytes; packets that the code allocates are
    buffers whose bytes are uninitialised until they are written, and writing
    past the end is the fault [BufferOverflow]; reading a byte that nobody has
    written is the fault [Uninitialised].  The depth of the recursive
    update of identifiers is bounded by fuel: one more than the number of
    scopes, which suffices wherever LocalRV calls it unless a scope was linked
    below itself, and then no fuel suffices ([RVPaths.recursion_bounded]); runs
    that exceed it are [StackOverflow].  A
    loop of lib/qos/bytearray whose counter is a byte has as much fuel as the
    counter has values; when it is used up the loop never ends ([Endless]).
    Dereferencing the end of a std::map is the fault [EndDeref], an exception
    that nobody catches [Thrown].  igraph, the clock, SHA-1, the results of
    sendmsg, uninitialised memory that is sent, the memory behind a message,
    and whether igraph_es_destroy does nothing with a selector that was never
    set or ends the program are parameters (the theorems on reports of links
    state both); so is
    boost::split, which the theorems take to be [RMFailure.tokens], and in the
    attachment point rand(), the order of a hash table, the numbers that atoi
    gives for texts out of range, boost's time_duration::seconds and the
    results of write().  The fuel of the loops of the lightweight transport is
    the number of bytes or of packets, which they never exceed unless a counter
    of 16 bits wraps; that of the loops over sessions is the square of their
    number.  Logging and statistics are left out.

    ** Not modelled

    Opening and closing the netlink sockets and creating and cancelling the
    threads of the libraries (system calls), the timers of the link monitor,
    the reports of the topology manager to the monitoring agent, its random
    link identifiers (never used) and its traffic engineering,
    the TCP proxies, the capture of packets and the configuration of the
    attachment point, its thread LightweightTimeout, which reads a table under
    a type that it does not have, the methods of its HTTP namespace that are
    never called, the other applications, the deployment tool and the physical
    layer. *)
From stdpp Require Import base list gmap.
From Stdlib Require Import ZArith Lia.

(** ** Bytes and machine integers

    A Click [String], a packet payload and a C byte buffer are lists of
    bytes; a byte is an integer of [Z] in [0, 256).  [u8], [u16] and [u32]
    are the conversions the source performs implicitly when it stores an
    [int] in an [unsigned char], an [unsigned short] or a [uint32_t]. *)
Notation bytes := (list Z).

Definition u8 (z : Z) : Z := (z mod 256)%Z.
Definition u16 (z : Z) : Z := (z mod 65536)%Z.
Definition u32 (z : Z) : Z := (z mod 4294967296)%Z.

Definition is_byte (z : Z) : Prop := (0 ≤ z < 256)%Z.

(** Big-endian (network order) and little-endian two-byte representations. *)
Definition be16 (z : Z) : bytes := [u8 (Z.shiftr z 8); u8 z].
Definition le16 (z : Z) : bytes := [u8 z; u8 (Z.shiftr z 8)].
Definition le32 (z : Z) : bytes :=
  [u8 z; u8 (Z.shiftr z 8); u8 (Z.shiftr z 16); u8 (Z.shiftr z 24)].

(** [substr s pos len] is Click's [String::substring(pos, len)] at a
    non-negative position. *)
Definition substr (s : bytes) (pos len : nat) : bytes := take len (drop pos s).

Lemma Forall_substr (P : Z → Prop) s pos len : Forall P s → Forall P (substr s pos len).
Proof. intros Hs. unfold substr. by apply Forall_take, Forall_drop. Qed.

Lemma is_byte_u8 z : is_byte (u8 z).
Proof. unfold is_byte, u8. apply Z.mod_pos_bound. lia. Qed.

(** ** Faults

    What the C++ code does outside the language's guarantees is a value of
    the model: each constructor names one kind of undefined behaviour. *)
Inductive fault : Type :=
| NullDeref        (** a member access through a NULL pointer *)
| Dangling         (** a member access through a pointer to freed memory *)
| BeginOfEmpty     (** reading the element of [begin()] of an empty table *)
| EndDeref         (** reading the element of [end()], where [find] found nothing *)
| IterInvalidated  (** advancing an iterator whose element was erased, or
                       iterating over a table that the loop inserts into *)
| BufferOverflow   (** an access past the end of a packet or an array *)
| AssertFailed     (** a failing [assert] *)
| Uninitialised    (** using a variable or a byte that was never written *)
| StackOverflow    (** recursion that exceeds every given depth *)
| Endless          (** a loop that runs longer than every given bound *)
| Thrown           (** a C++ exception that nobody catches *)
| DivisionByZero.  (** a remainder or a quotient by zero *)

#[export] Instance fault_eq_dec : EqDecision fault.
Proof. solve_decision. Defined.

Inductive res (A : Type) : Type :=
| Ok (a : A)
| Fault (e : fault).
Arguments Ok {A} a.
Arguments Fault {A} e.

(** ** A state monad with faults *)
Definition M (S A : Type) : Type := S → res (A * S).

#[export] Instance M_ret {S} : MRet (M S) := λ A a s, Ok (a, s).
#[export] Instance M_bind {S} : MBind (M S) := λ A B k m s,
  match m s with
  | Ok (a, s') => k a s'
  | Fault e => Fault e
  end.

Definition get {S} : M S S := λ s, Ok (s, s).
Definition modify {S} (f : S → S) : M S unit := λ s, Ok (tt, f s).
Definition throw {S A} (e : fault) : M S A := λ _, Fault e.

(** [deref o] follows a pointer-like value that may be NULL. *)
Definition deref {S A} (o : option A) : M S A :=
  match o with Some a => mret a | None => throw NullDeref end.

(** A [for] loop over the elements of a container that the body does not
    change. *)
Fixpoint for_each {S A} (l : list A) (body : A → M S unit) : M S unit :=
  match l with
  | [] => mret tt
  | a :: l => _ ← body a; for_each l body
  end.

(** A [for] loop that changes local variables [acc]. *)
Fixpoint fold_each {S A B} (l : list A) (body : A → B → M S B) (acc : B) : M S B :=
  match l with
  | [] => mret acc
  | a :: l => acc ← body a acc; fold_each l body acc
  end.

(** Running the first part of a sequence *)
Lemma run_bind {S A B : Type} (m : M S A) (k : A → M S B) s a s' :
  m s = Ok (a, s') → (m ≫= k) s = k a s'.
Proof. unfold mbind, M_bind. by intros ->. Qed.

(** A loop whose body keeps the state: [I done acc] holds of what it did. *)
Lemma fold_each_run {S A B} (l : list A) (body : A → B → M S B) (s : S) (I : list A → B → Prop) acc :
  (∀ pre a post acc, l = pre ++ a :: post → I pre acc →
     ∃ acc', body a acc s = Ok (acc', s) ∧ I (pre ++ [a]) acc') →
  I [] acc → ∃ acc', fold_each l body acc s = Ok (acc', s) ∧ I l acc'.
Proof.
  intros Hbody HI. assert (∀ l' pre acc, l = pre ++ l' → I pre acc →
    ∃ acc', fold_each l' body acc s = Ok (acc', s) ∧ I (pre ++ l') acc') as Hgen; [|by apply (Hgen l [])].
  clear acc HI. intros l'.
  induction l' as [|a l' IH]; intros pre acc Hl HI; cbn [fold_each].
  - exists acc. by rewrite app_nil_r.
  - destruct (Hbody pre a l' acc Hl HI) as (acc' & Hr & HI').
    rewrite (run_bind _ _ _ _ _ Hr). destruct (IH (pre ++ [a]) acc') as (r & Hr' & HIr).
    + by rewrite <-app_assoc.
    + done.
    + exists r. split; [done|]. by rewrite <-app_assoc in HIr.
Qed.

(** ** Weakest preconditions

    [wp F m Q s]: run from [s], [m] either returns a value and a state in
    [Q], or faults with a fault that [F] tolerates.  With [F] empty this is
    total correctness. *)
Definition wp {S A} (F : fault → Prop) (m : M S A) (Q : A → S → Prop) (s : S) : Prop :=
  match m s with
  | Ok (a, s') => Q a s'
  | Fault e => F e
  end.

Definition no_fault : fault → Prop := λ _, False.

Section wp_rules.
Context {S : Type} (F : fault → Prop).

Lemma wp_ret {A} (a : A) (Q : A → S → Prop) s : Q a s → wp F (mret a) Q s.
Proof. done. Qed.

Lemma wp_bind {A B} (m : M S A) (k : A → M S B) (Q : B → S → Prop) s :
  wp F m (λ a s', wp F (k a) Q s') s → wp F (m ≫= k) Q s.
Proof. unfold wp, mbind, M_bind. by destruct (m s) as [[a s']|e]. Qed.

Lemma wp_get (Q : S → S → Prop) s : Q s s → wp F get Q s.
Proof. done. Qed.

Lemma wp_modify (f : S → S) (Q : unit → S → Prop) s : Q tt (f s) → wp F (modify f) Q s.
Proof. done. Qed.

Lemma wp_throw {A} e (Q : A → S → Prop) s : F e → wp F (throw e) Q s.
Proof. done. Qed.

Lemma wp_deref {A} (o : option A) a (Q : A → S → Prop) s :
  o = Some a → Q a s → wp F (deref o) Q s.
Proof. by intros ->. Qed.

Lemma wp_mono {A} (m : M S A) (Q Q' : A → S → Prop) s :
  wp F m Q s → (∀ a s', Q a s' → Q' a s') → wp F m Q' s.
Proof. unfold wp. destruct (m s) as [[a s']|e]; eauto. Qed.

(** The loop rule: [I l s] holds when the elements [l] are still to come. *)
Lemma wp_for_each {A} (l : list A) (body : A → M S unit) (I : list A → S → Prop) s :
  I l s →
  (∀ a l' s', I (a :: l') s' → wp F (body a) (λ _ s'', I l' s'') s') →
  wp F (for_each l body) (λ _ s', I [] s') s.
Proof.
  intros HI Hb. revert s HI. induction l as [|a l IH]; intros s HI; simpl; [done|].
  apply wp_bind. eapply wp_mono; [by apply Hb|]. simpl. eauto.
Qed.

Lemma wp_for_each_inv {A} (l : list A) (body : A → M S unit) (I : S → Prop) s :
  I s →
  (∀ a s', a ∈ l → I s' → wp F (body a) (λ _ s'', I s'') s') →
  wp F (for_each l body) (λ _ s', I s') s.
Proof.
  intros HI Hb. revert s HI. induction l as [|a l IH]; intros s HI; simpl; [done|].
  apply wp_bind. eapply wp_mono; [apply Hb; [left|done]|].
  intros [] s' HI'. apply IH; [|done]. intros b s'' Hin. apply Hb. by right.
Qed.
(** A loop with an accumulator: [I l acc] holds when [l] is still to do. *)
Lemma wp_fold_each {A B} (l : list A) (body : A → B → M S B) (I : list A → B → S → Prop) acc s :
  I l acc s →
  (∀ a l' acc s', I (a :: l') acc s' → wp F (body a acc) (λ acc' s'', I l' acc' s'') s') →
  wp F (fold_each l body acc) (λ acc' s', I [] acc' s') s.
Proof.
  intros HI Hb. revert acc s HI. induction l as [|a l IH]; intros acc s HI; simpl; [by apply wp_ret|].
  apply wp_bind. eapply wp_mono; [by apply Hb|]. simpl. eauto.
Qed.

(** A part whose run is known *)
Lemma wp_of_run {A} (m : M S A) a s s' (Q : A → S → Prop) : m s = Ok (a, s') → Q a s' → wp F m Q s.
Proof. unfold wp. by intros ->. Qed.
End wp_rules.

Lemma wp_fault_mono {S A} (F F' : fault → Prop) (m : M S A) Q s :
  wp F m Q s → (∀ e, F e → F' e) → wp F' m Q s.
Proof. unfold wp. destruct (m s) as [[a s']|e]; eauto. Qed.

(** Equivalent postconditions can be rewritten under [wp]. *)
#[export] Instance wp_proper {S A} (F : fault → Prop) (m : M S A) :
  Proper (pointwise_relation A (pointwise_relation S iff) ==> eq ==> iff) (wp F m).
Proof.
  intros Q Q' HQ s _ <-. unfold wp. destruct (m s) as [[a s']|e]; [apply HQ|done].
Qed.

(** Reading the result of a run off a [wp]. *)
Lemma wp_total {S A} (m : M S A) Q s :
  wp no_fault m Q s → ∃ a s', m s = Ok (a, s') ∧ Q a s'.
Proof. unfold wp. destruct (m s) as [[a s']|e]; [eauto|done]. Qed.

Lemma wp_run {S A} F (m : M S A) Q s a s' :
  wp F m Q s → m s = Ok (a, s') → Q a s'.
Proof. unfold wp. intros H Hr. by rewrite Hr in H. Qed.

(** ** Iteration order of hash tables

    Click's [HashTable] promises no iteration order.  The order in which a
    loop meets the keys of a table, and hence the element that [begin()]
    refers to, is a parameter: any enumeration of the key set.  Nor does it
    promise that an iterator can be advanced after its element was erased:
    [erased_keeps_link] says whether the allocator happens to leave the link
    to the next element readable. *)
Class HashOrder := {
  erased_keeps_link : bool;
  str_order : gset bytes → list bytes;
  ptr_order : gset positive → list positive;
  str_order_perm : ∀ X, str_order X ≡ₚ elements X;
  ptr_order_perm : ∀ X, ptr_order X ≡ₚ elements X;
}.

(** One such order, used to evaluate the definitions on concrete inputs. *)
Definition canonical_order (keeps : bool) : HashOrder := {|
  erased_keeps_link := keeps;
  str_order := elements;
  ptr_order := elements;
  str_order_perm := λ X, reflexivity (elements X);
  ptr_order_perm := λ X, reflexivity (elements X);
|}.

Section order.
Context `{HO : HashOrder}.

Lemma elem_of_str_order id X : id ∈ str_order X ↔ id ∈ X.
Proof. by rewrite str_order_perm, elem_of_elements. Qed.

Lemma elem_of_ptr_order p X : p ∈ ptr_order X ↔ p ∈ X.
Proof. by rewrite ptr_order_perm, elem_of_elements. Qed.

Lemma str_order_nil X : str_order X = [] ↔ X = ∅.
Proof.
  split.
  - intros HX. apply set_eq. intros id. rewrite <-elem_of_str_order, HX. set_solver.
  - intros ->. apply Permutation_nil_r. rewrite str_order_perm, elements_empty. done.
Qed.

Lemma head_ptr_order X : X ≠ ∅ → is_Some (head (ptr_order X)).
Proof.
  intros HX. destruct (ptr_order X) as [|h l] eqn:E; [|by eexists]. destruct HX.
  apply set_eq. intros x. rewrite <-elem_of_ptr_order, E. set_solver.
Qed.

(** A loop over a table, first met with the elements [l], whose body may
    erase elements: [now] reads the keys that the table has.  Elements that
    were erased before they are met are skipped; advancing after the current
    one was erased is only possible if its link is kept. *)
Fixpoint for_live {S K : Type} `{EqDecision K, Countable K} (now : M S (gset K)) (l : list K)
    (body : K → M S unit) : M S unit :=
  match l with
  | [] => mret tt
  | a :: l =>
      X ← now;
      if decide (a ∈ X) then
        _ ← body a;
        X' ← now;
        if decide (a ∈ X') then for_live now l body
        else if erased_keeps_link then for_live now l body
        else throw IterInvalidated
      else for_live now l body
  end.

(** [begin()] of a table with keys [X]. *)
Definition begin_of {S : Type} (X : gset bytes) : M S bytes :=
  match str_order X with
  | id :: _ => mret id
  | [] => throw BeginOfEmpty
  end.

Lemma wp_begin_of {S : Type} F X (Q : bytes → S → Prop) s :
  X ≠ ∅ → (∀ id, id ∈ X → Q id s) → wp F (begin_of X) Q s.
Proof.
  intros HX HQ. unfold begin_of. destruct (str_order X) as [|id l] eqn:E.
  - by apply str_order_nil in E.
  - apply wp_ret, HQ. apply elem_of_str_order. rewrite E. left.
Qed.
End order.

(** ** Packets under construction

    [Packet::make(headroom, NULL, len, tailroom)] gives [len] uninitialised
    bytes ([None]); [memcpy] at an offset writes inside them or overflows. *)
Notation buffer := (list (option Z)).

Definition make_packet (len : nat) : buffer := replicate len None.

Definition memcpy (p : buffer) (off : nat) (src : bytes) : res buffer :=
  if decide (off + length src ≤ length p)
  then Ok (take off p ++ (Some <$> src) ++ drop (off + length src) p)
  else Fault BufferOverflow.

(** Successive [memcpy]s, each behind the previous one. *)
Fixpoint memcpys (p : buffer) (off : nat) (srcs : list bytes) : res buffer :=
  match srcs with
  | [] => Ok p
  | src :: srcs =>
      match memcpy p off src with
      | Ok p' => memcpys p' (off + length src) srcs
      | Fault e => Fault e
      end
  end.

Lemma length_memcpy p off src p' : memcpy p off src = Ok p' → length p' = length p.
Proof.
  unfold memcpy. case_decide; [|done]. intros [= <-].
  rewrite !length_app, length_fmap, length_take, length_drop. lia.
Qed.

Lemma memcpys_fits p off srcs :
  off + length (concat srcs) ≤ length p →
  memcpys p off srcs
    = Ok (take off p ++ (Some <$> concat srcs) ++ drop (off + length (concat srcs)) p).
Proof.
  revert p off. induction srcs as [|src srcs IH]; intros p off Hlen; simpl in *.
  { rewrite Nat.add_0_r, take_drop. done. }
  rewrite length_app in Hlen. unfold memcpy. rewrite decide_True by lia.
  rewrite IH; [|rewrite !length_app, length_fmap, length_take, length_drop; lia].
  f_equal. rewrite fmap_app, length_app.
  assert (length (take off p ++ (Some <$> src)) = off + length src) as Hpre
    by (rewrite length_app, length_take, length_fmap; lia).
  rewrite (app_assoc (take off p) (Some <$> src) (drop (off + length src) p)).
  rewrite take_app_length', drop_app_ge by lia. rewrite Hpre, drop_drop, <-app_assoc.
  rewrite <-!app_assoc. do 4 f_equal. lia.
Qed.

Lemma memcpys_overflow p off srcs :
  off ≤ length p → length p < off + length (concat srcs) →
  memcpys p off srcs = Fault BufferOverflow.
Proof.
  revert p off. induction srcs as [|src srcs IH]; intros p off Hoff Hlen; simpl in *; [lia|].
  rewrite length_app in Hlen. destruct (memcpy p off src) as [p'|e] eqn:E.
  - assert (off + length src ≤ length p) by (unfold memcpy in E; by case_decide).
    apply length_memcpy in E. apply IH; lia.
  - unfold memcpy in E. by case_decide; simplify_eq.
Qed.

(** A packet that is exactly filled carries the concatenated fields and no
    uninitialised byte. *)
Lemma memcpys_exact srcs :
  memcpys (make_packet (length (concat srcs))) 0 srcs = Ok (Some <$> concat srcs).
Proof.
  rewrite memcpys_fits by (unfold make_packet; rewrite length_replicate; lia).
  simpl. rewrite drop_ge, app_nil_r; [done|].
  unfold make_packet. rewrite length_replicate. lia.
Qed.
