(* ===== verification/Enums.v ===== *)
(** * Protocol constants (lib/blackadder_enums.hpp)

    The enumerations shared by every component: identifier lengths, the
    dissemination strategies, the message types of the Click API and the
    return codes of the rendezvous functions. *)
From S2P Require Import Prelude.
From Stdlib Require Import ZArith.

Local Open Scope Z_scope.

Module IDLengths.
Definition PURSUIT_ID_LEN : nat := 8.
Definition FID_LEN : nat := 32.
Definition NODEID_LEN : nat := 8.
End IDLengths.

Module RootNamespaces.
Definition NAMESPACE_IP : Z := 0.
Definition NAMESPACE_HTTP : Z := 1.
End RootNamespaces.

Module Strategies.
Definition LINK_LOCAL : Z := 1.
Definition DOMAIN_LOCAL : Z := 2.
Definition IMPLICIT_RENDEZVOUS : Z := 3.
Definition BROADCAST_IF : Z := 4.
Definition NODE_LOCAL : Z := 5.
End Strategies.

Module ClickMessageTypes.
Definition PUBLISH_SCOPE : Z := 0.
Definition PUBLISH_INFO : Z := 1.
Definition UNPUBLISH_SCOPE : Z := 2.
Definition UNPUBLISH_INFO : Z := 3.
Definition SUBSCRIBE_SCOPE : Z := 4.
Definition SUBSCRIBE_INFO : Z := 5.
Definition UNSUBSCRIBE_SCOPE : Z := 6.
Definition UNSUBSCRIBE_INFO : Z := 7.
Definition PUBLISH_DATA : Z := 8.
Definition PUBLISH_DATA_iSUB : Z := 9.
Definition CONNECT : Z := 12.
Definition DISCONNECT : Z := 13.
Definition ADD_LINK : Z := 14.
Definition REMOVE_LINK : Z := 15.
Definition DISCONNECTED : Z := 16.
Definition RECONNECTED : Z := 17.
Definition CONNECTED : Z := 18.
Definition UPDATE_RVFID : Z := 55.
Definition UPDATE_TMFID : Z := 56.
Definition UPDATE_DELIVERY : Z := 57.
Definition DISCOVER_FAILURE : Z := 58.
Definition UPDATE_UNICAST_DELIVERY : Z := 59.
Definition START_PUBLISH : Z := 100.
Definition STOP_PUBLISH : Z := 101.
Definition SCOPE_PUBLISHED : Z := 102.
Definition SCOPE_UNPUBLISHED : Z := 103.
Definition PUBLISHED_DATA : Z := 104.
Definition MATCH_PUB_SUBS : Z := 105.
Definition RV_RESPONSE : Z := 106.
Definition UPDATE_FID : Z := 107.
Definition UPDATE_PUBLISH : Z := 108.
Definition PUBLISHED_DATA_iSUB : Z := 109.
Definition MATCH_PUB_iSUBS : Z := 110.
Definition PUBLISH_DATA_iMULTICAST : Z := 111.
Definition UPDATE_FID_iSUB : Z := 112.
Definition RE_PUBLISH : Z := 113.
Definition PAUSE_PUBLISH : Z := 114.
Definition RESUME_PUBLISH : Z := 115.
Definition START_PUBLISH_iSUB : Z := 116.
Definition STOP_PUBLISH_iSUB : Z := 117.
End ClickMessageTypes.

Module MapiMessageTypes.
Definition GET_NODEID : Z := 0.
Definition GET_RVTMFID : Z := 1.
Definition SET_CONNECTION_STATUS : Z := 2.
Definition NODEID_IS : Z := 0.
Definition RVTMFID_IS : Z := 1.
End MapiMessageTypes.

(** [enum RvReturnCodes]: what the rendezvous functions answer. *)
Inductive RvReturnCode : Type :=
| SUCCESS
| WRONG_IDS
| STRATEGY_MISMATCH
| EXISTS
| FATHER_DOES_NOT_EXIST
| INFO_ITEM_WITH_SAME_ID
| SCOPE_DOES_NOT_EXIST
| SCOPE_WITH_SAME_ID
| INFO_DOES_NOT_EXIST
| DOES_NOT_EXIST
| UNKNOWN_REQUEST_TYPE.

Export IDLengths RootNamespaces Strategies ClickMessageTypes MapiMessageTypes.
