(* ===== verification/Bitvector.v ===== *)
(** * Bit vectors (src/ba_bitvector.hh, src/ba_bitvector.cc)

    [BABitvector] keeps a maximal valid index [_max] and an array [_data] of
    32-bit words: two words stored inline up to 64 bits, a heap array above.
    [bv_data] is the array that [_data] points to, with its real length, so
    that the two words beyond a short vector and the words left behind by a
    shrinking [resize] are visible.  An [assert] of the source that fails,
    and a read past the end of an array, is [None].

    [wbit]/[bv_bit] read single bits; [bv_wf] is the representation
    invariant (word range, array length, no bit set above [_max] in the
    compared words).  The theorems relate the word loops to the bits. *)
From stdpp Require Import base list.
From Stdlib Require Import ZArith Lia Bool.
From S2P Require Import Prelude.

Local Open Scope Z_scope.

Definition MAX_INLINE_BIT : Z := 63.
Definition MAX_INLINE_WORD : Z := 1.

Record BABitvector := mkBV { bv_max : Z; bv_data : list Z }.

Definition bv_size (b : BABitvector) : Z := bv_max b + 1.

Definition max_word (b : BABitvector) : Z :=
  if bv_max b <? 0 then -1 else Z.shiftr (bv_max b) 5.

(** The number of words the loops [for (i = 0; i <= max_word(); i++)] visit. *)
Definition used_words (b : BABitvector) : nat := Z.to_nat (max_word b + 1).

(** [words[i] = f(words[i])] for the first [n] words. *)
Definition map_words (n : nat) (f : Z → Z) (ws : list Z) : list Z :=
  (f <$> take n ws) ++ drop n ws.

(** [words[i] = f(words[i], others[i])] for the first [n] words. *)
Definition zip_words (n : nat) (f : Z → Z → Z) (ws os : list Z) : option (list Z) :=
  if decide (n ≤ length os)%nat
  then Some (zip_with f (take n ws) (take n os) ++ drop n ws)
  else None.

(** BABitvector::resize_to_max *)
Definition resize_to_max (b : BABitvector) (new_max : Z) (valid_n : bool) : BABitvector :=
  let want_u := Z.shiftr new_max 5 + 1 in
  let have_u := (if valid_n then max_word b else MAX_INLINE_WORD) + 1 in
  let have_u := if have_u <? MAX_INLINE_WORD + 1 then MAX_INLINE_WORD + 1 else have_u in
  if want_u <=? have_u then b
  else mkBV (bv_max b)
         (take (Z.to_nat have_u) (bv_data b) ++ replicate (Z.to_nat (want_u - have_u)) 0).

(** BABitvector::BABitvector(int n) *)
Definition bv_make (n : Z) : option BABitvector :=
  if n <? 0 then None
  else
    let b := mkBV (n - 1) [0; 0] in
    Some (if bv_max b >? MAX_INLINE_BIT then resize_to_max b (bv_max b) false else b).

(** BABitvector::resize *)
Definition resize (b : BABitvector) (n : Z) : option BABitvector :=
  if n <? 0 then None
  else
    let b := if n - 1 >? MAX_INLINE_BIT then resize_to_max b (n - 1) true else b in
    Some (mkBV (n - 1) (bv_data b)).

(** BABitvector::BABitvector(const BABitvector &) and finish_copy_constructor *)
Definition bv_copy (o : BABitvector) : BABitvector :=
  mkBV (bv_max o)
    (if bv_max o >? MAX_INLINE_BIT then take (used_words o) (bv_data o) else take 2 (bv_data o)).

(** BABitvector::clear *)
Definition clear (b : BABitvector) : BABitvector :=
  mkBV (bv_max b) (map_words (used_words b) (λ _, 0) (bv_data b)).

(** BABitvector::zero *)
Definition zero (b : BABitvector) : bool :=
  forallb (λ w, w =? 0) (take (used_words b) (bv_data b)).

(** BABitvector::clear_last *)
Definition clear_last (b : BABitvector) : BABitvector :=
  if bv_max b <? 0 then mkBV (bv_max b) (<[0%nat := 0]> (bv_data b))
  else if negb (Z.land (bv_max b) 31 =? 31) then
    let mask := u32 (Z.shiftl 1 (Z.land (bv_max b) 31 + 1) - 1) in
    mkBV (bv_max b)
      (alter (λ w, Z.land w mask) (Z.to_nat (Z.shiftr (bv_max b) 5)) (bv_data b))
  else b.

(** BABitvector::operator=: the array is kept when the source is short. *)
Definition bv_assign_from (b o : BABitvector) : BABitvector :=
  mkBV (bv_max o)
    (if max_word o <=? MAX_INLINE_WORD
     then take 2 (bv_data o) ++ drop 2 (bv_data b)
     else take (used_words o) (bv_data o)).

(** BABitvector::assign *)
Definition assign (b : BABitvector) (n : Z) (value : bool) : option BABitvector :=
  match resize b n with
  | None => None
  | Some b =>
      let bits := if value then 4294967295 else 0 in
      let copy := if n >? 32 then max_word b else 0 in
      let b := mkBV (bv_max b) (map_words (Z.to_nat (copy + 1)) (λ _, bits) (bv_data b)) in
      Some (if value then clear_last b else b)
  end.

(** BABitvector::BABitvector(int n, bool bit) and BABitvector(bool bit) *)
Definition bv_filled (n : Z) (value : bool) : option BABitvector :=
  match bv_make n with
  | Some b => if value then assign b n value else Some b
  | None => None
  end.

Definition bv_single (value : bool) : BABitvector := mkBV 0 [Z.b2z value; 0].


(** BABitvector::negate *)
Definition negate (b : BABitvector) : BABitvector :=
  clear_last (mkBV (bv_max b)
    (map_words (used_words b) (λ w, u32 (Z.lnot w)) (bv_data b))).

(** BABitvector::operator&= and operator^= assert equal sizes. *)
Definition and_assign (b o : BABitvector) : option BABitvector :=
  if bv_max o =? bv_max b
  then mkBV (bv_max b) <$> zip_words (used_words b) Z.land (bv_data b) (bv_data o)
  else None.

Definition xor_assign (b o : BABitvector) : option BABitvector :=
  if bv_max o =? bv_max b
  then mkBV (bv_max b) <$> zip_words (used_words b) Z.lxor (bv_data b) (bv_data o)
  else None.

(** BABitvector::operator|= grows the vector when the operand is longer. *)
Definition or_assign (b o : BABitvector) : option BABitvector :=
  match (if bv_max o >? bv_max b then resize b (bv_max o + 1) else Some b) with
  | None => None
  | Some b => mkBV (bv_max b) <$> zip_words (used_words b) Z.lor (bv_data b) (bv_data o)
  end.

(** The operators that copy: [&], [|], [^], [~] and [-]. *)
Definition bv_and (b o : BABitvector) : option BABitvector := and_assign (bv_copy b) o.
Definition bv_or (b o : BABitvector) : option BABitvector := or_assign (bv_copy b) o.
Definition bv_xor (b o : BABitvector) : option BABitvector := xor_assign (bv_copy b) o.
Definition bv_not (b : BABitvector) : BABitvector := negate (bv_copy b).
Definition bv_sub (b o : BABitvector) : option BABitvector := bv_and b (bv_not o).

(** BABitvector::operator==: [memcmp] over both inline words, or over the
    words in use of a long vector. *)
Definition bv_eqb (b o : BABitvector) : bool :=
  if negb (bv_max b =? bv_max o) then false
  else
    let n := if bv_max b <=? MAX_INLINE_BIT then 2%nat else used_words b in
    bool_decide (take n (bv_data b) = take n (bv_data o)).

(** BABitvector::operator[](int) const *)
Definition bv_get (b : BABitvector) (i : Z) : option bool :=
  if (0 <=? i) && (i <=? bv_max b)
  then Some (negb (Z.land (nth (Z.to_nat (Z.shiftr i 5)) (bv_data b) 0)
                     (u32 (Z.shiftl 1 (Z.land i 31))) =? 0))
  else None.

(** BABitvector::operator[](int) followed by Bit::operator=(bool) *)
Definition bv_set (b : BABitvector) (i : Z) (x : bool) : option BABitvector :=
  if (0 <=? i) && (i <=? bv_max b)
  then
    let mask := u32 (Z.shiftl 1 (Z.land i 31)) in
    Some (mkBV (bv_max b)
      (alter (λ w, if x then Z.lor w mask else Z.land w (u32 (Z.lnot mask)))
         (Z.to_nat (Z.shiftr i 5)) (bv_data b)))
  else None.

(** BABitvector::operator[](int) followed by one of the compound assignments of
    class Bit: &=, |=, ^= and -= *)
Definition mod_bit (b : BABitvector) (i : Z) (f : Z → Z → Z) : option BABitvector :=
  if (0 <=? i) && (i <=? bv_max b)
  then Some (mkBV (bv_max b)
    (alter (f (u32 (Z.shiftl 1 (Z.land i 31)))) (Z.to_nat (Z.shiftr i 5)) (bv_data b)))
  else None.

Definition bit_and (b : BABitvector) (i : Z) (x : bool) : option BABitvector :=
  mod_bit b i (λ mask w, if x then w else Z.land w (u32 (Z.lnot mask))).

Definition bit_or (b : BABitvector) (i : Z) (x : bool) : option BABitvector :=
  mod_bit b i (λ mask w, if x then Z.lor w mask else w).

Definition bit_xor (b : BABitvector) (i : Z) (x : bool) : option BABitvector :=
  mod_bit b i (λ mask w, if x then Z.lxor w mask else w).

Definition bit_sub (b : BABitvector) (i : Z) (x : bool) : option BABitvector :=
  mod_bit b i (λ mask w, if x then Z.land w (u32 (Z.lnot mask)) else w).

(** BABitvector::force_bit followed by Bit::operator=(bool): the vector grows
    to the bit. *)
Definition force_bit (b : BABitvector) (i : Z) (x : bool) : option BABitvector :=
  if i <? 0 then None
  else match (if i >? bv_max b then resize b (i + 1) else Some b) with
       | Some b => bv_set b i x
       | None => None
       end.

(** BABitvector::swap exchanges sizes, inline words and arrays; a pointer to
    the other's inline words is redirected to the own ones. *)
Definition swap (b x : BABitvector) : BABitvector * BABitvector :=
  (mkBV (bv_max x) (bv_data x), mkBV (bv_max b) (bv_data b)).

(** BABitvector::offset_or: the words of the operand are shifted by
    [offset] bits, each contributing to one or two words of the target. *)
Fixpoint offset_or_loop (ws : list Z) (bits_1st : Z) (my_pos my_words : nat)
    (data : list Z) : list Z :=
  match ws with
  | [] => data
  | val :: ws =>
      let data := alter (λ w, Z.lor w (u32 (Z.shiftl val bits_1st))) my_pos data in
      let my_pos := S my_pos in
      if (my_words <=? my_pos)%nat then data
      else
        let data := if bits_1st =? 0 then data
                    else alter (λ w, Z.lor w (Z.shiftr val (32 - bits_1st))) my_pos data in
        offset_or_loop ws bits_1st my_pos my_words data
  end.

(** The second assert of offset_or: no bit of the last word of the operand is
    set above its size.  For a size that is a multiple of 32 the mask is
    [1U << 32], which is undefined; an empty operand whose first word is not
    zero reads the word before the array. *)
Definition offset_or_assert (o : BABitvector) : bool :=
  let last := nth (Z.to_nat (max_word o)) (bv_data o) 0 in
  if (bv_max o <? 0) && (nth 0 (bv_data o) 0 =? 0) then true
  else if Z.land (bv_max o) 31 =? 0 then true
  else if (Z.land (bv_max o) 31 =? 31) || (bv_max o <? 0) then false
  else Z.land last (u32 (Z.shiftl 1 (Z.land (bv_max o) 31 + 1) - 1)) =? last.

Definition offset_or (b o : BABitvector) (offset : Z) : option BABitvector :=
  let my_pos := Z.to_nat (Z.shiftr offset 5) in
  if (0 <=? offset) && (offset + bv_max o <=? bv_max b) && offset_or_assert o
     && (my_pos <? length (bv_data b))%nat
  then
    Some (mkBV (bv_max b)
      (offset_or_loop (take (Nat.max 1 (used_words o)) (bv_data o))
         (Z.land offset 31) my_pos (used_words b) (bv_data b)))
  else None.

(** BABitvector::or_with_difference *)
Definition or_with_difference (b o : BABitvector) (diff : BABitvector)
    : option (BABitvector * BABitvector) :=
  if bv_max o =? bv_max b then
    match (if bv_max diff =? bv_max b then Some diff else resize diff (bv_max b + 1)) with
    | None => None
    | Some diff =>
        let n := used_words b in
        d ← zip_words n (λ ow w, Z.land ow (u32 (Z.lnot w))) (bv_data o) (bv_data b);
        w ← zip_words n Z.lor (bv_data b) (bv_data o);
        Some (mkBV (bv_max b) w,
              mkBV (bv_max diff) (take n d ++ drop n (bv_data diff)))
    end
  else None.

(** BABitvector::nonzero_intersection *)
Definition nonzero_intersection (b o : BABitvector) : bool :=
  let nn := Nat.min (used_words o) (used_words b) in
  existsb (λ p, negb (Z.land p.1 p.2 =? 0)) (zip (take nn (bv_data b)) (take nn (bv_data o))).

(** BABitvector::to_string: the highest bit first.  ['0'] is 48, ['1'] 49. *)
Definition to_string (b : BABitvector) : bytes :=
  (λ i, match bv_get b (bv_size b - Z.of_nat i - 1) with Some true => 49 | _ => 48 end)
    <$> seq 0 (Z.to_nat (bv_size b)).

(** ** Bits of word arrays *)

Fixpoint wbit (ws : list Z) (i : Z) : bool :=
  match ws with
  | [] => false
  | w :: ws => if i <? 32 then Z.testbit w i else wbit ws (i - 32)
  end.

Definition bv_bit (b : BABitvector) (i : Z) : bool := wbit (bv_data b) i.

Definition word_ok (w : Z) : Prop := 0 ≤ w < 2 ^ 32.

(** The representation invariant. *)
Record bv_wf (b : BABitvector) : Prop := {
  wf_max : -1 ≤ bv_max b;
  wf_words : Forall word_ok (bv_data b);
  wf_two : (2 ≤ length (bv_data b))%nat;
  wf_used : (used_words b ≤ length (bv_data b))%nat;
  wf_clean : ∀ i, bv_max b < i < 32 * Z.of_nat (Nat.max 2 (used_words b)) → bv_bit b i = false;
}.

Lemma wbit_neg ws i : i < 0 → wbit ws i = false.
Proof.
  intros Hi. destruct ws as [|w ws]; simpl; [done|].
  destruct (Z.ltb_spec i 32); [|lia]. by apply Z.testbit_neg_r.
Qed.

Lemma wbit_above ws i : 32 * Z.of_nat (length ws) ≤ i → wbit ws i = false.
Proof.
  revert i. induction ws as [|w ws IH]; intros i Hi; simpl; [done|].
  cbn [length] in Hi. destruct (Z.ltb_spec i 32); [lia|]. apply IH. lia.
Qed.

Lemma wbit_nth ws i : 0 ≤ i →
  wbit ws i = Z.testbit (nth (Z.to_nat (Z.shiftr i 5)) ws 0) (Z.land i 31).
Proof.
  rewrite Z.shiftr_div_pow2 by lia. change (Z.land i 31) with (Z.land i (Z.ones 5)).
  rewrite Z.land_ones by lia. change (2 ^ 5) with 32.
  revert i. induction ws as [|w ws IH]; intros i Hi; simpl.
  { destruct (Z.to_nat (i / 32)); by rewrite Z.testbit_0_l. }
  destruct (Z.ltb_spec i 32).
  - rewrite Z.div_small, Z.mod_small by lia. done.
  - rewrite IH by lia.
    assert (i / 32 = (i - 32) / 32 + 1) as ->
      by (rewrite <-(Z_div_plus (i - 32) 1 32) by lia; f_equal; lia).
    replace (i mod 32) with ((i - 32) mod 32)
      by (rewrite <-(Z_mod_plus_full i (-1) 32); f_equal; lia).
    assert (0 ≤ (i - 32) / 32) by (apply Z.div_pos; lia).
    replace (Z.to_nat ((i - 32) / 32 + 1)) with (S (Z.to_nat ((i - 32) / 32))) by lia.
    done.
Qed.

Lemma wbit_app_l ws os i : i < 32 * Z.of_nat (length ws) → wbit (ws ++ os) i = wbit ws i.
Proof.
  revert i. induction ws as [|w ws IH]; intros i Hi; simpl in *.
  - destruct os; simpl; [done|]. destruct (Z.ltb_spec i 32); [|lia].
    by rewrite Z.testbit_neg_r by lia.
  - destruct (Z.ltb_spec i 32); [done|]. apply IH. lia.
Qed.

Lemma wbit_app_r ws os i : 32 * Z.of_nat (length ws) ≤ i →
  wbit (ws ++ os) i = wbit os (i - 32 * Z.of_nat (length ws)).
Proof.
  revert i. induction ws as [|w ws IH]; intros i Hi.
  - simpl. f_equal. lia.
  - cbn [length app wbit] in *. destruct (Z.ltb_spec i 32); [lia|].
    rewrite IH by lia. f_equal. lia.
Qed.

Lemma wbit_take n ws i : i < 32 * Z.of_nat n → wbit (take n ws) i = wbit ws i.
Proof.
  intros Hi. destruct (decide (n ≤ length ws)%nat) as [Hn|Hn].
  - rewrite <-(take_drop n ws) at 2. rewrite wbit_app_l; [done|]. rewrite length_take. lia.
  - by rewrite take_ge by lia.
Qed.

(** Two arrays of words with the same bits are the same array. *)
Lemma wbit_ext ws os :
  length ws = length os → Forall word_ok ws → Forall word_ok os →
  (∀ i, 0 ≤ i < 32 * Z.of_nat (length ws) → wbit ws i = wbit os i) → ws = os.
Proof.
  revert os. induction ws as [|w ws IH]; intros [|o os] Hlen Hw Ho Hb; try done.
  inversion Hw as [|?? Hw1 Hw2]; inversion Ho as [|?? Ho1 Ho2]; subst.
  cbn [length] in *. f_equal.
  - apply Z.bits_inj'. intros i Hi. destruct (Z.ltb_spec i 32) as [Hlt|Hge].
    + specialize (Hb i). simpl in Hb. rewrite (proj2 (Z.ltb_lt i 32) Hlt) in Hb.
      apply Hb. lia.
    + rewrite !Z.bits_above_log2; [done|unfold word_ok in *..]; try lia.
      all: destruct (Z.eq_dec o 0) as [->|], (Z.eq_dec w 0) as [->|]; simpl; try lia;
        apply Z.log2_lt_pow2; try lia;
        apply Z.lt_le_trans with (2 ^ 32); try lia; by apply Z.pow_le_mono_r.
  - apply IH; auto. intros i Hi. specialize (Hb (i + 32)). simpl in Hb.
    destruct (Z.ltb_spec (i + 32) 32); [lia|].
    replace (i + 32 - 32) with i in Hb by lia. apply Hb. lia.
Qed.

(** A word operation that acts bit by bit acts bit by bit on the array. *)
Lemma wbit_map_words n f g ws i :
  (∀ w k, 0 ≤ k < 32 → Z.testbit (f w) k = g (Z.testbit w k)) →
  0 ≤ i < 32 * Z.of_nat (length ws) →
  wbit (map_words n f ws) i = if i <? 32 * Z.of_nat n then g (wbit ws i) else wbit ws i.
Proof.
  intros Hf. unfold map_words. revert n i. induction ws as [|w ws IH]; intros n i Hi.
  { simpl in Hi. lia. }
  cbn [length] in Hi. destruct n as [|n].
  - simpl take. simpl drop. cbn [fmap list_fmap app]. destruct (Z.ltb_spec i (32 * Z.of_nat 0)); [lia|done].
  - cbn [take drop fmap list_fmap app wbit].
    destruct (Z.ltb_spec i 32).
    + destruct (Z.ltb_spec i (32 * Z.of_nat (S n))); [|lia]. apply Hf. lia.
    + rewrite IH by lia.
      destruct (Z.ltb_spec (i - 32) (32 * Z.of_nat n)), (Z.ltb_spec i (32 * Z.of_nat (S n)));
        lia || done.
Qed.

Lemma length_map_words n f ws : length (map_words n f ws) = length ws.
Proof. unfold map_words. rewrite length_app, length_fmap, length_take, length_drop. lia. Qed.

Lemma wbit_zip_words n f g ws os ws' i :
  (∀ w o k, 0 ≤ k < 32 → Z.testbit (f w o) k = g (Z.testbit w k) (Z.testbit o k)) →
  zip_words n f ws os = Some ws' → 0 ≤ i < 32 * Z.of_nat (length ws) →
  wbit ws' i = if i <? 32 * Z.of_nat n then g (wbit ws i) (wbit os i) else wbit ws i.
Proof.
  intros Hf. unfold zip_words. case_decide as Hn; [|done]. intros [= <-].
  revert n os i Hn. induction ws as [|w ws IH]; intros n os i Hn Hi.
  { simpl in Hi. lia. }
  cbn [length] in Hi. destruct n as [|n].
  - cbn [take drop zip_with app]. destruct (Z.ltb_spec i (32 * Z.of_nat 0)); [lia|done].
  - destruct os as [|o os]; [simpl in Hn; lia|]. cbn [length] in Hn.
    cbn [take drop zip_with app wbit]. destruct (Z.ltb_spec i 32).
    + destruct (Z.ltb_spec i (32 * Z.of_nat (S n))); [|lia]. apply Hf. lia.
    + rewrite IH by lia.
      destruct (Z.ltb_spec (i - 32) (32 * Z.of_nat n)), (Z.ltb_spec i (32 * Z.of_nat (S n)));
        lia || done.
Qed.

Lemma length_zip_words n f ws os ws' :
  zip_words n f ws os = Some ws' → (n ≤ length ws)%nat → length ws' = length ws.
Proof.
  unfold zip_words. case_decide; [|done]. intros [= <-] Hn.
  rewrite length_app, length_zip_with, !length_take, length_drop. lia.
Qed.

Lemma wbit_alter f pos ws i : 0 ≤ i →
  wbit (alter f pos ws) i =
    if (Z.to_nat (i / 32) =? pos)%nat && (pos <? length ws)%nat
    then Z.testbit (f (nth pos ws 0)) (i mod 32) else wbit ws i.
Proof.
  revert pos i. induction ws as [|w ws IH]; intros pos i Hi.
  { simpl. by rewrite andb_false_r. }
  assert (i < 32 ∨ ∃ j, 0 ≤ j ∧ i = j + 32) as [Hlt|(j & Hj & ->)].
  { destruct (Z.lt_ge_cases i 32); [by left|]. right. exists (i - 32). lia. }
  - rewrite Z.div_small, Z.mod_small by lia.
    destruct pos as [|pos]; simpl; rewrite (proj2 (Z.ltb_lt i 32) Hlt); done.
  - replace (j + 32) with (j + 1 * 32) by lia.
    rewrite Z_div_plus, Z_mod_plus_full by lia.
    assert (0 ≤ j / 32) by (apply Z.div_pos; lia).
    replace (Z.to_nat (j / 32 + 1)) with (S (Z.to_nat (j / 32))) by lia.
    destruct pos as [|pos].
    + cbn [alter list_alter wbit]. destruct (Z.ltb_spec (j + 1 * 32) 32); [lia|]. done.
    + cbn [alter list_alter wbit length nth]. destruct (Z.ltb_spec (j + 1 * 32) 32); [lia|].
      replace (j + 1 * 32 - 32) with j by lia. rewrite IH by done. done.
Qed.

(** ** The word range is kept by the word operations *)
Lemma word_ok_bits w : 0 ≤ w → (∀ k, 32 ≤ k → Z.testbit w k = false) → word_ok w.
Proof.
  intros Hw Hb. split; [done|].
  destruct (Z.lt_ge_cases w (2 ^ 32)) as [|Hge]; [done|]. exfalso.
  assert (32 ≤ Z.log2 w) by (apply Z.log2_le_pow2; lia).
  specialize (Hb (Z.log2 w) ltac:(done)). by rewrite Z.bit_log2 in Hb by lia.
Qed.

Lemma word_ok_high w k : word_ok w → 32 ≤ k → Z.testbit w k = false.
Proof.
  intros [H0 H1] Hk. rewrite <-(Z.mod_small w (2 ^ 32)) by done.
  apply Z.mod_pow2_bits_high. lia.
Qed.

Lemma word_ok_land w o : word_ok w → 0 ≤ o → word_ok (Z.land w o).
Proof.
  intros Hw Ho. apply word_ok_bits; [apply Z.land_nonneg; left; apply Hw|].
  intros k Hk. by rewrite Z.land_spec, word_ok_high.
Qed.

Lemma word_ok_lor w o : word_ok w → word_ok o → word_ok (Z.lor w o).
Proof.
  intros Hw Ho. apply word_ok_bits; [apply Z.lor_nonneg; split; [apply Hw|apply Ho]|].
  intros k Hk. by rewrite Z.lor_spec, !word_ok_high.
Qed.

Lemma word_ok_lxor w o : word_ok w → word_ok o → word_ok (Z.lxor w o).
Proof.
  intros Hw Ho. apply word_ok_bits.
  - apply Z.lxor_nonneg. split; intros; [apply Ho|apply Hw].
  - intros k Hk. by rewrite Z.lxor_spec, !word_ok_high.
Qed.

Lemma word_ok_u32 z : word_ok (u32 z).
Proof. unfold u32, word_ok. apply Z.mod_pos_bound. lia. Qed.

Lemma testbit_u32 z k : 0 ≤ k < 32 → Z.testbit (u32 z) k = Z.testbit z k.
Proof. intros Hk. unfold u32. change 4294967296 with (2 ^ 32). apply Z.mod_pow2_bits_low. lia. Qed.

Lemma word_ok_shiftr w n : word_ok w → 0 ≤ n → word_ok (Z.shiftr w n).
Proof.
  intros Hw Hn. apply word_ok_bits; [apply Z.shiftr_nonneg, Hw|].
  intros k Hk. rewrite Z.shiftr_spec, word_ok_high by (done || lia). done.
Qed.

Create HintDb words.
#[export] Hint Resolve word_ok_land word_ok_lor word_ok_lxor word_ok_u32 word_ok_shiftr : words.

Lemma words_map_words n f ws :
  (∀ w, word_ok w → word_ok (f w)) → Forall word_ok ws → Forall word_ok (map_words n f ws).
Proof.
  intros Hf Hw. apply Forall_app. split; [|by apply Forall_drop].
  apply Forall_fmap. apply Forall_take with (n := n) in Hw.
  eapply Forall_impl; [exact Hw|]. intros w. apply Hf.
Qed.

Lemma words_zip_words n f ws os ws' :
  (∀ w o, word_ok w → word_ok o → word_ok (f w o)) →
  Forall word_ok ws → Forall word_ok os → zip_words n f ws os = Some ws' → Forall word_ok ws'.
Proof.
  intros Hf Hw Ho. unfold zip_words. case_decide; [|done]. intros [= <-].
  apply Forall_app. split; [|by apply Forall_drop].
  apply Forall_take with (n := n) in Hw. apply Forall_take with (n := n) in Ho.
  revert Hw Ho. generalize (take n os) as os'. generalize (take n ws) as ws'.
  induction ws' as [|w ws' IH]; intros [|o os'] Hw Ho; simpl; try constructor;
    inversion Hw; inversion Ho; subst; auto.
Qed.

Lemma words_alter f pos ws :
  (∀ w, word_ok w → word_ok (f w)) → Forall word_ok ws → Forall word_ok (alter f pos ws).
Proof.
  intros Hf Hw. revert pos. induction Hw as [|w ws Hw1 Hw2 IH]; intros [|pos]; simpl;
    constructor; auto; exact (IH pos).
Qed.

(** ** Specifications of the operations *)

Lemma used_words_spec b : -1 ≤ bv_max b →
  bv_max b < 32 * Z.of_nat (used_words b) ≤ bv_max b + 32 ∧
  (0 ≤ bv_max b → 1 ≤ Z.of_nat (used_words b) ∧ 32 * Z.of_nat (used_words b) - 32 ≤ bv_max b).
Proof.
  intros Hm. unfold used_words, max_word. destruct (Z.ltb_spec (bv_max b) 0); [simpl; lia|].
  rewrite Z.shiftr_div_pow2 by lia. change (2 ^ 5) with 32.
  pose proof (Z.div_mod (bv_max b) 32 ltac:(lia)).
  pose proof (Z.mod_pos_bound (bv_max b) 32 ltac:(lia)).
  assert (0 ≤ bv_max b / 32) by (apply Z.div_pos; lia).
  rewrite Z2Nat.id by lia. lia.
Qed.

(** The words in use depend on [_max] only. *)
Lemma used_words_max b o : bv_max b = bv_max o → used_words b = used_words o.
Proof. unfold used_words, max_word. by intros ->. Qed.

Lemma mask_bit k j : 0 ≤ k < 31 → 0 ≤ j < 32 →
  Z.testbit (u32 (Z.shiftl 1 (k + 1) - 1)) j = (j <=? k).
Proof.
  intros Hk Hj. rewrite testbit_u32 by done. rewrite Z.shiftl_1_l.
  replace (2 ^ (k + 1) - 1) with (Z.ones (k + 1)) by (rewrite Z.ones_equiv; lia).
  destruct (Z.leb_spec j k).
  - apply Z.ones_spec_low. lia.
  - apply Z.ones_spec_high. lia.
Qed.

Lemma clear_last_bit b i :
  -1 ≤ bv_max b → (1 ≤ length (bv_data b))%nat → (used_words b ≤ length (bv_data b))%nat → 0 ≤ i →
  bv_bit (clear_last b) i =
    bv_bit b i && negb ((bv_max b <? i) && (i <? 32 * Z.of_nat (Nat.max 1 (used_words b)))).
Proof.
  intros Hm Hl Hu Hi. pose proof (used_words_spec b Hm) as [Hs1 Hs2].
  unfold clear_last, bv_bit. destruct (Z.ltb_spec (bv_max b) 0) as [Hneg|Hpos]; cbn [bv_data].
  - destruct (bv_data b) as [|w ws]; [simpl in Hl; lia|].
    replace (used_words b) with 0%nat by lia. cbn [insert list_insert wbit].
    destruct (Z.ltb_spec i 32), (Z.ltb_spec (bv_max b) i), (Z.ltb_spec i (32 * Z.of_nat (Nat.max 1 0)));
      simpl; rewrite ?andb_true_r, ?andb_false_r, ?Z.testbit_0_l; lia || done.
  - specialize (Hs2 Hpos).
    assert (Z.land (bv_max b) 31 = bv_max b mod 32) as Hland
      by (change 31 with (Z.ones 5); by rewrite Z.land_ones by lia).
    rewrite Hland. pose proof (Z.mod_pos_bound (bv_max b) 32 ltac:(lia)).
    pose proof (Z.div_mod (bv_max b) 32 ltac:(lia)).
    assert (0 ≤ bv_max b / 32) by (apply Z.div_pos; lia).
    pose proof (Z.div_mod i 32 ltac:(lia)). pose proof (Z.mod_pos_bound i 32 ltac:(lia)).
    assert (0 ≤ i / 32) by (apply Z.div_pos; lia).
    destruct (Z.eqb_spec (bv_max b mod 32) 31) as [E|E]; cbn [negb bv_data].
    + destruct (Z.ltb_spec (bv_max b) i), (Z.ltb_spec i (32 * Z.of_nat (Nat.max 1 (used_words b))));
        simpl; rewrite ?andb_true_r; lia || done.
    + rewrite wbit_alter by done. rewrite Z.shiftr_div_pow2 by lia. change (2 ^ 5) with 32.
      destruct (Nat.eqb_spec (Z.to_nat (i / 32)) (Z.to_nat (bv_max b / 32))) as [Eq|Eq].
      * assert (i / 32 = bv_max b / 32) as Eq' by lia.
        destruct (Nat.ltb_spec (Z.to_nat (bv_max b / 32)) (length (bv_data b))); [|lia].
        cbn [andb]. rewrite Z.land_spec, mask_bit by lia.
        rewrite (wbit_nth _ i) by done. rewrite Z.shiftr_div_pow2 by lia.
        change (2 ^ 5) with 32. change (Z.land i 31) with (Z.land i (Z.ones 5)).
        rewrite Z.land_ones by lia. change (2 ^ 5) with 32. rewrite Eq'. f_equal.
        destruct (Z.leb_spec (i mod 32) (bv_max b mod 32)), (Z.ltb_spec (bv_max b) i),
          (Z.ltb_spec i (32 * Z.of_nat (Nat.max 1 (used_words b)))); simpl; lia || done.
      * cbn [andb]. destruct (Z.ltb_spec (bv_max b) i),
          (Z.ltb_spec i (32 * Z.of_nat (Nat.max 1 (used_words b)))); simpl;
          rewrite ?andb_true_r; try done. exfalso. nia.
Qed.

Lemma clear_last_frame b :
  bv_max (clear_last b) = bv_max b ∧ length (bv_data (clear_last b)) = length (bv_data b) ∧
  (Forall word_ok (bv_data b) → Forall word_ok (bv_data (clear_last b))).
Proof.
  unfold clear_last. destruct (bv_max b <? 0); [|destruct (negb _)]; cbn [bv_max bv_data].
  - split_and!; [done|apply length_insert|]. intros H.
    apply Forall_insert; [done|]. by unfold word_ok.
  - split_and!; [done|apply length_alter|]. intros H. apply words_alter; [|done].
    intros w Hw. apply word_ok_land; [done|]. apply word_ok_u32.
  - done.
Qed.

Lemma map_words_clean b f g :
  bv_wf b → (∀ w k, 0 ≤ k < 32 → Z.testbit (f w) k = g (Z.testbit w k)) →
  ∀ i, 0 ≤ i ≤ bv_max b → wbit (map_words (used_words b) f (bv_data b)) i = g (bv_bit b i).
Proof.
  intros [Hm Hw H2 Hu Hc] Hf i Hi. pose proof (used_words_spec b Hm) as [Hs1 Hs2].
  rewrite wbit_map_words with (g := g); [|done|lia].
  destruct (Z.ltb_spec i (32 * Z.of_nat (used_words b))); [done|lia].
Qed.

(** Negation flips the bits of the vector and keeps the invariant. *)
Lemma negate_spec b : bv_wf b →
  bv_wf (negate b) ∧ bv_max (negate b) = bv_max b ∧
  ∀ i, 0 ≤ i ≤ bv_max b → bv_bit (negate b) i = negb (bv_bit b i).
Proof.
  intros Hwf. pose proof Hwf as [Hm Hw H2 Hu Hc].
  pose proof (used_words_spec b Hm) as [Hs1 Hs2].
  unfold negate. set (d := mkBV (bv_max b) _).
  assert (used_words d = used_words b) as Hud by (by apply used_words_max).
  assert (length (bv_data d) = length (bv_data b)) as Hld by (apply length_map_words).
  assert (∀ w k, 0 ≤ k < 32 → Z.testbit (u32 (Z.lnot w)) k = negb (Z.testbit w k)) as Hf.
  { intros w k Hk. rewrite testbit_u32, Z.lnot_spec by lia. done. }
  pose proof (clear_last_frame d) as (Hf1 & Hf2 & Hf3).
  assert (used_words (clear_last d) = used_words b) as Hucl
    by (apply used_words_max; exact Hf1).
  assert (∀ i, 0 ≤ i → bv_bit (clear_last d) i = bv_bit d i &&
    negb ((bv_max b <? i) && (i <? 32 * Z.of_nat (Nat.max 1 (used_words b))))) as Hb.
  { intros i Hi. rewrite clear_last_bit;
      [by rewrite Hud|exact Hm|rewrite Hld; lia|by rewrite Hud, Hld|done]. }
  split; [constructor|split; [done|]].
  - by rewrite Hf1.
  - apply Hf3. apply words_map_words; [|done]. intros; apply word_ok_u32.
  - by rewrite Hf2, Hld.
  - by rewrite Hucl, Hf2, Hld.
  - rewrite Hf1, Hucl. intros i Hi. simpl in Hi. destruct (Z.lt_ge_cases i 0).
    { by apply wbit_neg. }
    rewrite Hb by done. destruct (Z.ltb_spec (bv_max b) i); [|lia].
    destruct (Z.ltb_spec i (32 * Z.of_nat (Nat.max 1 (used_words b)))); simpl;
      [apply andb_false_r|]. rewrite andb_true_r. unfold d, bv_bit; cbn [bv_data].
    rewrite wbit_map_words with (g := negb); [|done|lia].
    destruct (Z.ltb_spec i (32 * Z.of_nat (used_words b))); [lia|].
    apply Hc. lia.
  - intros i Hi. rewrite Hb by lia. destruct (Z.ltb_spec (bv_max b) i); [lia|].
    simpl. rewrite andb_true_r. by apply map_words_clean.
Qed.

Lemma bv_copy_spec b : bv_wf b →
  bv_wf (bv_copy b) ∧ bv_max (bv_copy b) = bv_max b ∧
  ∀ i, 0 ≤ i ≤ bv_max b → bv_bit (bv_copy b) i = bv_bit b i.
Proof.
  intros [Hm Hw H2 Hu Hc]. pose proof (used_words_spec b Hm) as [Hs1 Hs2].
  assert (used_words (bv_copy b) = used_words b) as Huc by (by apply used_words_max).
  assert (bv_data (bv_copy b) = take (Nat.max 2 (used_words b)) (bv_data b)) as Hd.
  { unfold bv_copy; cbn [bv_data]. unfold MAX_INLINE_BIT.
    destruct (Z.gtb_spec (bv_max b) 63); f_equal; lia. }
  assert (∀ i, 0 ≤ i < 32 * Z.of_nat (Nat.max 2 (used_words b)) →
    bv_bit (bv_copy b) i = bv_bit b i) as Hb.
  { intros i Hi. unfold bv_bit. rewrite Hd. apply wbit_take. lia. }
  split; [constructor|split; [done|]].
  - done.
  - rewrite Hd. by apply Forall_take.
  - rewrite Hd, length_take. lia.
  - rewrite Hd, length_take. lia.
  - rewrite Huc. simpl. intros i Hi. destruct (Z.lt_ge_cases i 0); [by apply wbit_neg|].
    rewrite Hb by lia. apply Hc. lia.
  - intros i Hi. apply Hb. lia.
Qed.

(** The word loop of a bitwise operator over two vectors of one size. *)
Lemma zip_assign_spec f g b o :
  bv_wf b → bv_wf o → bv_max o = bv_max b →
  (∀ w o k, 0 ≤ k < 32 → Z.testbit (f w o) k = g (Z.testbit w k) (Z.testbit o k)) →
  (∀ w o, word_ok w → word_ok o → word_ok (f w o)) → g false false = false →
  ∃ r, mkBV (bv_max b) <$> zip_words (used_words b) f (bv_data b) (bv_data o) = Some r ∧
    bv_wf r ∧ bv_max r = bv_max b ∧
    ∀ i, 0 ≤ i ≤ bv_max b → bv_bit r i = g (bv_bit b i) (bv_bit o i).
Proof.
  intros [Hm Hw H2 Hu Hc] [Hmo Hwo H2o Huo Hco] Hmax Hf Hok Hff.
  pose proof (used_words_spec b Hm) as [Hs1 Hs2].
  pose proof (used_words_max o b Hmax) as Huse.
  destruct (zip_words (used_words b) f (bv_data b) (bv_data o)) as [ws|] eqn:E;
    [|unfold zip_words in E; by rewrite decide_True in E by lia].
  assert (∀ i, 0 ≤ i < 32 * Z.of_nat (Nat.max 2 (used_words b)) → wbit ws i =
    if i <? 32 * Z.of_nat (used_words b) then g (bv_bit b i) (bv_bit o i) else bv_bit b i) as Hb.
  { intros i Hi. eapply wbit_zip_words; [done|done|lia]. }
  pose proof (length_zip_words _ _ _ _ _ E Hu) as Hlen.
  exists (mkBV (bv_max b) ws). split; [done|].
  assert (used_words (mkBV (bv_max b) ws) = used_words b) as Hur by (by apply used_words_max).
  split; [constructor|split; [done|]]; rewrite ?Hur; cbn [bv_max bv_data]; try lia.
  - eapply words_zip_words; [exact Hok|exact Hw|exact Hwo|exact E].
  - intros i Hi. unfold bv_bit; cbn [bv_data].
    destruct (Z.lt_ge_cases i 0); [by apply wbit_neg|]. rewrite Hb by lia.
    destruct (Z.ltb_spec i (32 * Z.of_nat (used_words b))); [|by apply Hc; lia].
    by rewrite Hc, Hco by (rewrite ?Huse, ?Hmax; lia).
  - intros i Hi. unfold bv_bit at 1; cbn [bv_data]. rewrite Hb by lia.
    destruct (Z.ltb_spec i (32 * Z.of_nat (used_words b))); [done|lia].
Qed.

Section binary_operators.
Context (b o : BABitvector) (Hb : bv_wf b) (Ho : bv_wf o) (Hmax : bv_max o = bv_max b).

Lemma bv_and_spec : ∃ r, bv_and b o = Some r ∧ bv_wf r ∧ bv_max r = bv_max b ∧
  ∀ i, 0 ≤ i ≤ bv_max b → bv_bit r i = bv_bit b i && bv_bit o i.
Proof.
  destruct (bv_copy_spec b Hb) as (Hc1 & Hc2 & Hc3).
  unfold bv_and, and_assign. rewrite Hc2, Hmax, Z.eqb_refl.
  destruct (zip_assign_spec Z.land andb (bv_copy b) o) as (r & Hr & H1 & H2 & H3);
    rewrite ?Hc2; auto using Z.land_spec with words.
  { intros w o' Hw' Ho'. apply word_ok_land; [done|apply Ho']. }
  rewrite Hc2 in Hr. exists r. split_and!; [done|done|congruence|].
  intros i Hi. by rewrite H3, Hc3 by (rewrite ?Hc2; lia).
Qed.

Lemma bv_or_spec : ∃ r, bv_or b o = Some r ∧ bv_wf r ∧ bv_max r = bv_max b ∧
  ∀ i, 0 ≤ i ≤ bv_max b → bv_bit r i = bv_bit b i || bv_bit o i.
Proof.
  destruct (bv_copy_spec b Hb) as (Hc1 & Hc2 & Hc3).
  unfold bv_or, or_assign. rewrite Hc2, Hmax, Z.gtb_ltb, Z.ltb_irrefl.
  destruct (zip_assign_spec Z.lor orb (bv_copy b) o) as (r & Hr & H1 & H2 & H3);
    rewrite ?Hc2; auto using Z.lor_spec with words.
  exists r. split_and!; [done|done|congruence|].
  intros i Hi. by rewrite H3, Hc3 by (rewrite ?Hc2; lia).
Qed.

Lemma bv_xor_spec : ∃ r, bv_xor b o = Some r ∧ bv_wf r ∧ bv_max r = bv_max b ∧
  ∀ i, 0 ≤ i ≤ bv_max b → bv_bit r i = xorb (bv_bit b i) (bv_bit o i).
Proof.
  destruct (bv_copy_spec b Hb) as (Hc1 & Hc2 & Hc3).
  unfold bv_xor, xor_assign. rewrite Hc2, Hmax, Z.eqb_refl.
  destruct (zip_assign_spec Z.lxor xorb (bv_copy b) o) as (r & Hr & H1 & H2 & H3);
    rewrite ?Hc2; auto using Z.lxor_spec with words.
  rewrite Hc2 in Hr. exists r. split_and!; [done|done|congruence|].
  intros i Hi. by rewrite H3, Hc3 by (rewrite ?Hc2; lia).
Qed.
End binary_operators.

(** Equality of vectors is equality of their bits. *)
Lemma bv_eqb_spec b o : bv_wf b → bv_wf o →
  bv_eqb b o = true ↔
  bv_max b = bv_max o ∧ ∀ i, 0 ≤ i ≤ bv_max b → bv_bit b i = bv_bit o i.
Proof.
  intros [Hm Hw H2 Hu Hc] [Hmo Hwo H2o Huo Hco]. unfold bv_eqb.
  destruct (Z.eqb_spec (bv_max b) (bv_max o)) as [E|E]; cbn [negb]; [|split; [done|by intros []]].
  pose proof (used_words_spec b Hm) as [Hs1 Hs2]. pose proof (used_words_max b o E) as Huse.
  assert ((if bv_max b <=? MAX_INLINE_BIT then 2%nat else used_words b)
          = Nat.max 2 (used_words b)) as ->.
  { unfold MAX_INLINE_BIT. destruct (Z.leb_spec (bv_max b) 63); lia. }
  set (n := Nat.max 2 (used_words b)) in *. rewrite bool_decide_eq_true. split.
  - intros Ht. split; [done|]. intros i Hi. unfold bv_bit.
    rewrite <-(wbit_take n (bv_data b)), <-(wbit_take n (bv_data o)) by lia. by rewrite Ht.
  - intros [_ Hbits]. apply wbit_ext.
    + rewrite !length_take. lia.
    + by apply Forall_take.
    + by apply Forall_take.
    + rewrite length_take. intros i Hi. rewrite !wbit_take by lia.
      destruct (Z.le_gt_cases i (bv_max b)); [apply Hbits; lia|].
      transitivity false; [|symmetry]; [apply Hc|apply Hco]; rewrite <-?Huse; fold n; lia.
Qed.

(** [zero()] tells whether every bit is false. *)
Lemma zero_spec b : bv_wf b →
  zero b = true ↔ ∀ i, 0 ≤ i ≤ bv_max b → bv_bit b i = false.
Proof.
  intros [Hm Hw H2 Hu Hc]. pose proof (used_words_spec b Hm) as [Hs1 Hs2].
  unfold zero. split.
  - intros Hz i Hi. unfold bv_bit. rewrite <-(wbit_take (used_words b)) by lia.
    revert Hz. generalize (take (used_words b) (bv_data b)) as ws. clear.
    intros ws. revert i. induction ws as [|w ws IH]; intros i; simpl; [done|].
    intros [Hw0 Hz]%andb_true_iff. apply Z.eqb_eq in Hw0 as ->.
    rewrite Z.testbit_0_l. destruct (i <? 32); auto.
  - intros Hz. assert (take (used_words b) (bv_data b) = replicate (used_words b) 0) as ->.
    { apply wbit_ext.
      - rewrite length_take, length_replicate. lia.
      - by apply Forall_take.
      - apply Forall_replicate. by unfold word_ok.
      - rewrite length_take. intros i Hi. rewrite wbit_take by lia.
        assert (∀ n j, wbit (replicate n 0) j = false) as ->.
        { induction n as [|n IH]; intros j; simpl; [done|].
          rewrite Z.testbit_0_l. by destruct (j <? 32). }
        destruct (Z.le_gt_cases i (bv_max b)); [apply Hz; lia|apply Hc; lia]. }
    generalize (used_words b). clear. intros n. by induction n.
Qed.

(** ** Single bits *)

Lemma bv_make_spec n : 0 ≤ n →
  ∃ b, bv_make n = Some b ∧ bv_wf b ∧ bv_max b = n - 1 ∧ ∀ i, bv_bit b i = false.
Proof.
  intros Hn. unfold bv_make. destruct (Z.ltb_spec n 0); [lia|]. eexists. split; [done|].
  set (b0 := mkBV (n - 1) [0; 0]).
  set (b := if bv_max b0 >? _ then _ else _).
  assert (bv_max b = n - 1) as Hm by (unfold b, b0, resize_to_max; by repeat case_match).
  assert (used_words b = used_words b0) as Hub by (by apply used_words_max).
  pose proof (used_words_spec b0 ltac:(simpl; lia)) as [Hs1 Hs2]. cbn [bv_max b0] in Hs1, Hs2.
  assert (bv_data b = replicate (Nat.max 2 (used_words b)) 0) as Hd.
  { rewrite Hub. revert Hs1 Hs2. generalize (used_words b0) as U. intros U Hs1 Hs2.
    clear Hub Hm. unfold b, b0, MAX_INLINE_BIT. cbn [bv_max].
    destruct (Z.gtb_spec (n - 1) 63) as [Hg|Hg];
      [|cbn [bv_data]; change [0; 0] with (replicate 2 0); f_equal; lia].
    unfold resize_to_max, MAX_INLINE_WORD. change (1 + 1 <? 1 + 1) with false. cbv iota zeta.
    pose proof (Z.div_mod (n - 1) 32 ltac:(lia)).
    pose proof (Z.mod_pos_bound (n - 1) 32 ltac:(lia)).
    rewrite Z.shiftr_div_pow2 by lia. change (2 ^ 5) with 32.
    destruct (Z.leb_spec ((n - 1) / 32 + 1) (1 + 1)); [lia|].
    cbn [bv_data bv_max]. change (Z.to_nat (1 + 1)) with 2%nat.
    cbn [take]. change [0; 0] with (replicate 2 0). rewrite <-replicate_add.
    f_equal. lia. }
  assert (∀ k i, wbit (replicate k 0) i = false) as Hrep.
  { induction k as [|k IH]; intros i; simpl; [done|].
    rewrite Z.testbit_0_l. by destruct (i <? 32). }
  split; [constructor|split; [done|]]; rewrite ?Hd, ?length_replicate; try lia.
  - apply Forall_replicate. by unfold word_ok.
  - intros i _. unfold bv_bit. by rewrite Hd.
  - intros i. unfold bv_bit. by rewrite Hd.
Qed.

Lemma land_bit_mask w k : 0 ≤ k < 32 →
  negb (Z.land w (u32 (Z.shiftl 1 k)) =? 0) = Z.testbit w k.
Proof.
  intros Hk. assert (u32 (Z.shiftl 1 k) = 2 ^ k) as ->.
  { unfold u32. rewrite Z.shiftl_1_l. apply Z.mod_small. split; [by apply Z.pow_nonneg|].
    change 4294967296 with (2 ^ 32). apply Z.pow_lt_mono_r; lia. }
  assert (∀ j, Z.testbit (Z.land w (2 ^ k)) j = Z.testbit w j && (k =? j)) as Hj.
  { intros j. by rewrite Z.land_spec, Z.pow2_bits_eqb by lia. }
  destruct (Z.eqb_spec (Z.land w (2 ^ k)) 0) as [E|E]; simpl.
  - specialize (Hj k). rewrite E, Z.testbit_0_l, Z.eqb_refl, andb_true_r in Hj. done.
  - destruct (Z.testbit w k) eqn:Ew; [done|]. exfalso. apply E. apply Z.bits_inj'.
    intros j _. rewrite Hj, Z.testbit_0_l. destruct (Z.eqb_spec k j) as [<-|];
      [by rewrite Ew|apply andb_false_r].
Qed.

Lemma land31 i : 0 ≤ i → 0 ≤ Z.land i 31 < 32.
Proof.
  intros Hi. change 31 with (Z.ones 5). rewrite Z.land_ones by lia. apply Z.mod_pos_bound. lia.
Qed.

Lemma bv_get_spec b i : 0 ≤ i ≤ bv_max b → bv_get b i = Some (bv_bit b i).
Proof.
  intros Hi. unfold bv_get. destruct (Z.leb_spec 0 i), (Z.leb_spec i (bv_max b)); try lia.
  simpl. f_equal. rewrite land_bit_mask by (apply land31; lia).
  unfold bv_bit. by rewrite wbit_nth by lia.
Qed.

Lemma alter_bit_lor v P data i : 0 ≤ i → (P < length data)%nat →
  wbit (alter (λ w, Z.lor w v) P data) i =
  wbit data i || ((32 * Z.of_nat P <=? i) && (i <? 32 * Z.of_nat P + 32)
                  && Z.testbit v (i - 32 * Z.of_nat P)).
Proof.
  intros Hi HP. rewrite wbit_alter by done.
  pose proof (Z.div_mod i 32 ltac:(lia)). pose proof (Z.mod_pos_bound i 32 ltac:(lia)).
  assert (0 ≤ i / 32) by (apply Z.div_pos; lia).
  destruct (Nat.ltb_spec P (length data)); [|lia].
  destruct (Nat.eqb_spec (Z.to_nat (i / 32)) P) as [E|E]; cbn [andb].
  - destruct (Z.leb_spec (32 * Z.of_nat P) i), (Z.ltb_spec i (32 * Z.of_nat P + 32)); try lia.
    rewrite Z.lor_spec, (wbit_nth _ i) by done. rewrite Z.shiftr_div_pow2 by lia.
    change (Z.land i 31) with (Z.land i (Z.ones 5)). rewrite Z.land_ones by lia.
    change (2 ^ 5) with 32. rewrite E. simpl. do 2 f_equal. lia.
  - destruct (Z.leb_spec (32 * Z.of_nat P) i), (Z.ltb_spec i (32 * Z.of_nat P + 32)); simpl;
      rewrite ?orb_false_r; done || nia.
Qed.

(** A change of one bit, [g], that [f] makes in a word under a mask *)
Definition changes_bit (f : Z → Z → Z) (g : bool → bool) : Prop :=
  (∀ mask w, word_ok mask → word_ok w → word_ok (f mask w)) ∧
  ∀ mask w k, 0 ≤ k < 32 → Z.testbit (f mask w) k = if Z.testbit mask k then g (Z.testbit w k) else Z.testbit w k.

Lemma mod_bit_spec f g b i : changes_bit f g → bv_wf b → 0 ≤ i ≤ bv_max b →
  ∃ r, mod_bit b i f = Some r ∧ bv_wf r ∧ bv_max r = bv_max b ∧
  ∀ j, 0 ≤ j → bv_bit r j = if j =? i then g (bv_bit b j) else bv_bit b j.
Proof.
  intros [Hfw Hfb] [Hm Hw H2 Hu Hc] Hi. pose proof (used_words_spec b Hm) as [Hs1 Hs2].
  unfold mod_bit. destruct (Z.leb_spec 0 i), (Z.leb_spec i (bv_max b)); try lia. simpl.
  eexists. split; [done|]. set (F := f _). set (r := mkBV _ _).
  assert (Z.land i 31 = i mod 32) as Hl by (change 31 with (Z.ones 5); by rewrite Z.land_ones by lia).
  pose proof (Z.div_mod i 32 ltac:(lia)). pose proof (Z.mod_pos_bound i 32 ltac:(lia)).
  assert (0 ≤ i / 32) by (apply Z.div_pos; lia).
  assert (∀ w k, 0 ≤ k < 32 →
    Z.testbit (F w) k = if k =? i mod 32 then g (Z.testbit w k) else Z.testbit w k) as Hf.
  { intros w k Hk. unfold F. rewrite Hfb, Hl by done.
    by rewrite testbit_u32, Z.shiftl_1_l, Z.pow2_bits_eqb, (Z.eqb_sym k) by lia. }
  assert (∀ j, 0 ≤ j → bv_bit r j = if j =? i then g (bv_bit b j) else bv_bit b j) as Hb.
  { intros j Hj. unfold bv_bit, r; cbn [bv_data]. rewrite wbit_alter by done.
    rewrite Z.shiftr_div_pow2 by lia. change (2 ^ 5) with 32.
    pose proof (Z.div_mod j 32 ltac:(lia)). pose proof (Z.mod_pos_bound j 32 ltac:(lia)).
    assert (0 ≤ j / 32) by (apply Z.div_pos; lia).
    destruct (Nat.ltb_spec (Z.to_nat (i / 32)) (length (bv_data b))); [|lia].
    destruct (Nat.eqb_spec (Z.to_nat (j / 32)) (Z.to_nat (i / 32))) as [E|E]; cbn [andb].
    - rewrite Hf, (wbit_nth _ j) by lia. rewrite Z.shiftr_div_pow2 by lia.
      change (Z.land j 31) with (Z.land j (Z.ones 5)). rewrite Z.land_ones by lia.
      change (2 ^ 5) with 32. rewrite E.
      destruct (Z.eqb_spec (j mod 32) (i mod 32)), (Z.eqb_spec j i); done || lia.
    - destruct (Z.eqb_spec j i); [subst; lia|done]. }
  assert (used_words r = used_words b) as Hur by (by apply used_words_max).
  split; [constructor|split; [done|exact Hb]]; rewrite ?Hur; unfold r; cbn [bv_max bv_data].
  - done.
  - apply words_alter; [|done]. intros w Hw'. apply Hfw; [apply word_ok_u32|done].
  - by rewrite length_alter.
  - by rewrite length_alter.
  - intros j Hj. destruct (Z.lt_ge_cases j 0); [by apply wbit_neg|].
    fold r. rewrite Hb by done. destruct (Z.eqb_spec j i); [lia|]. by apply Hc.
Qed.

Lemma changes_set (x : bool) :
  changes_bit (λ mask w, if x then Z.lor w mask else Z.land w (u32 (Z.lnot mask))) (λ _, x).
Proof.
  split; [intros; destruct x; [apply word_ok_lor|apply word_ok_land]; auto with words; apply word_ok_u32|].
  intros mask w k Hk. destruct x.
  - rewrite Z.lor_spec. destruct (Z.testbit mask k); by rewrite ?orb_true_r, ?orb_false_r.
  - rewrite Z.land_spec, testbit_u32, Z.lnot_spec by lia.
    destruct (Z.testbit mask k); by rewrite ?andb_true_r, ?andb_false_r.
Qed.

Lemma changes_none : changes_bit (λ _ w, w) id.
Proof. split; [done|]. intros mask w k Hk. by destruct (Z.testbit mask k). Qed.

Lemma changes_xor : changes_bit (λ mask w, Z.lxor w mask) negb.
Proof.
  split.
  - intros mask w Hm Hw. apply word_ok_bits; [by apply Z.lxor_nonneg; split; intros; [apply Hm|apply Hw]|].
    intros k Hk. by rewrite Z.lxor_spec, !word_ok_high.
  - intros mask w k Hk. rewrite Z.lxor_spec. destruct (Z.testbit mask k), (Z.testbit w k); done.
Qed.

Lemma bv_set_spec b i x : bv_wf b → 0 ≤ i ≤ bv_max b →
  ∃ r, bv_set b i x = Some r ∧ bv_wf r ∧ bv_max r = bv_max b ∧
  ∀ j, 0 ≤ j → bv_bit r j = if j =? i then x else bv_bit b j.
Proof. apply (mod_bit_spec _ _ _ _ (changes_set x)). Qed.

(** The compound assignments of one bit combine it with [x] and leave the
    other bits. *)
Lemma bit_ops_spec b i x : bv_wf b → 0 ≤ i ≤ bv_max b →
  Forall (λ '(op, g), ∃ r, op b i x = Some r ∧ bv_wf r ∧ bv_max r = bv_max b ∧
    ∀ j, 0 ≤ j → bv_bit r j = if j =? i then g (bv_bit b j) x else bv_bit b j)
    [(bit_and, andb); (bit_or, orb); (bit_xor, xorb); (bit_sub, λ a y, a && negb y)].
Proof.
  intros Hwf Hi. assert (∀ op f g g', op b i x = mod_bit b i f → changes_bit f g → (∀ a, g a = g' a x) →
    ∃ r, op b i x = Some r ∧ bv_wf r ∧ bv_max r = bv_max b ∧
      ∀ j, 0 ≤ j → bv_bit r j = if j =? i then g' (bv_bit b j) x else bv_bit b j) as H.
  { intros op f g g' -> Hf Hg. destruct (mod_bit_spec f g b i Hf Hwf Hi) as (r & Hr & Hw & Hm & Hb).
    exists r. split_and!; [done..|]. intros j Hj. rewrite Hb, Hg by done. done. }
  repeat constructor.
  - destruct x; eapply H; [reflexivity|apply changes_none|by intros []|reflexivity|apply (changes_set false)|by intros []].
  - destruct x; eapply H; [reflexivity|apply (changes_set true)|by intros []|reflexivity|apply changes_none|by intros []].
  - destruct x; eapply H; [reflexivity|apply changes_xor|by intros []|reflexivity|apply changes_none|by intros []].
  - apply (λ f g, H bit_sub f g (λ a y, a && negb y)) with (f := (if x then λ mask w, Z.land w (u32 (Z.lnot mask)) else λ _ w, w))
      (g := if x then λ _, false else id); destruct x; [reflexivity..|apply (changes_set false)|apply changes_none|by intros []|by intros []].
Qed.

(** ** Reading a vector from its textual form

    The loop that GlobalConf::configure and Forwarder::configure run over a
    link identifier given as a string of ['0'] and ['1'], highest bit
    first: [if (s.at(j) == '1') v[s.length() - j - 1] = true; else ...]. *)
Fixpoint parse_bits_from (b : BABitvector) (s : bytes) : option BABitvector :=
  match s with
  | [] => Some b
  | c :: s =>
      match bv_set b (Z.of_nat (length s)) (c =? 49) with
      | Some b => parse_bits_from b s
      | None => None
      end
  end.

Definition parse_bits (n : Z) (s : bytes) : option BABitvector :=
  match bv_make n with Some b => parse_bits_from b s | None => None end.

Lemma parse_bits_from_spec b s : bv_wf b → Z.of_nat (length s) ≤ bv_max b + 1 →
  ∃ r, parse_bits_from b s = Some r ∧ bv_wf r ∧ bv_max r = bv_max b ∧
  ∀ j, 0 ≤ j → bv_bit r j =
    if j <? Z.of_nat (length s)
    then nth (length s - Z.to_nat j - 1) s 0 =? 49 else bv_bit b j.
Proof.
  revert b. induction s as [|c s IH]; intros b Hwf Hlen; cbn [length parse_bits_from] in *.
  { exists b. split_and!; try done. intros j Hj. destruct (Z.ltb_spec j (Z.of_nat 0)); [lia|done]. }
  destruct (bv_set_spec b (Z.of_nat (length s)) (c =? 49) Hwf ltac:(lia))
    as (b1 & -> & Hwf1 & Hm1 & Hb1).
  destruct (IH b1 Hwf1 ltac:(lia)) as (r & -> & Hwfr & Hmr & Hbr).
  exists r. split_and!; try done; [congruence|]. intros j Hj. rewrite Hbr, Hb1 by done.
  destruct (Z.ltb_spec j (Z.of_nat (length s))), (Z.ltb_spec j (Z.of_nat (S (length s)))); try lia.
  - replace (S (length s) - Z.to_nat j - 1)%nat with (S (length s - Z.to_nat j - 1)) by lia. done.
  - replace (S (length s) - Z.to_nat j - 1)%nat with 0%nat by lia.
    destruct (Z.eqb_spec j (Z.of_nat (length s))); [done|lia].
  - destruct (Z.eqb_spec j (Z.of_nat (length s))); [lia|done].
Qed.

Lemma to_string_bits b : -1 ≤ bv_max b →
  to_string b = (λ i, if bv_bit b (bv_max b - Z.of_nat i) then 49 else 48)
                  <$> seq 0 (Z.to_nat (bv_max b + 1)).
Proof.
  intros Hm. unfold to_string, bv_size. apply list_fmap_ext. intros k i Hi.
  apply lookup_seq in Hi as [-> Hk]. rewrite bv_get_spec by lia.
  replace (bv_max b + 1 - Z.of_nat (0 + k) - 1) with (bv_max b - Z.of_nat (0 + k)) by lia. done.
Qed.

(** ** The shifted union *)

Lemma max_word_used b : -1 ≤ bv_max b → max_word b + 1 = Z.of_nat (used_words b).
Proof.
  intros Hm. unfold used_words. rewrite Z2Nat.id; [done|]. unfold max_word.
  destruct (Z.ltb_spec (bv_max b) 0); [lia|]. pose proof (proj2 (Z.shiftr_nonneg (bv_max b) 5)). lia.
Qed.

Lemma wbit_zeros n i : wbit (replicate n 0) i = false.
Proof.
  revert i. induction n as [|n IH]; intros i; cbn [replicate wbit]; [done|].
  destruct (i <? 32); [apply Z.testbit_0_l|apply IH].
Qed.

(** Growing a well-formed vector adds false bits: the words up to the larger
    of two and the words in use are clean above the old size. *)
Lemma resize_grow b n : bv_wf b → bv_max b < n - 1 →
  ∃ r, resize b n = Some r ∧ bv_wf r ∧ bv_max r = n - 1 ∧
  ∀ i, 0 ≤ i ≤ n - 1 → bv_bit r i = (i <=? bv_max b) && bv_bit b i.
Proof.
  intros [Hm Hw H2 Hu Hc] Hn. pose proof (used_words_spec b Hm) as [Hs1 Hs2].
  set (H := Nat.max 2 (used_words b)).
  assert (2 ≤ H ≤ length (bv_data b))%nat as HH by (unfold H; lia).
  assert (∀ i, bv_max b < i < 32 * Z.of_nat H → bv_bit b i = false) as Hc' by done.
  pose proof (used_words_spec (mkBV (n - 1) []) ltac:(cbn; lia)) as [Hn1 Hn2]. cbn [bv_max] in Hn1, Hn2.
  set (N := used_words (mkBV (n - 1) [])) in *. unfold resize. destruct (Z.ltb_spec n 0); [lia|].
  assert (∃ data, (if n - 1 >? MAX_INLINE_BIT then resize_to_max b (n - 1) true else b) = mkBV (bv_max b) data ∧
    ((N ≤ H)%nat ∧ data = bv_data b ∨ (H < N)%nat ∧ data = take H (bv_data b) ++ replicate (N - H) 0))
    as (data & -> & Hdata).
  { destruct (Z.gtb_spec (n - 1) MAX_INLINE_BIT) as [Hg|Hg]; unfold MAX_INLINE_BIT in Hg.
    - assert (Z.shiftr (n - 1) 5 + 1 = Z.of_nat N) as Hwant.
      { pose proof (max_word_used (mkBV (n - 1) []) ltac:(cbn; lia)) as Hmw. unfold max_word in Hmw. cbn [bv_max] in Hmw.
        destruct (Z.ltb_spec (n - 1) 0); [lia|done]. }
      assert (max_word b + 1 = Z.of_nat (used_words b)) as Hhave by (by apply max_word_used).
      unfold resize_to_max. rewrite Hwant, Hhave. unfold MAX_INLINE_WORD.
      replace (if Z.of_nat (used_words b) <? 1 + 1 then 1 + 1 else Z.of_nat (used_words b)) with (Z.of_nat H)
        by (destruct (Z.ltb_spec (Z.of_nat (used_words b)) (1 + 1)); lia).
      destruct (Z.leb_spec (Z.of_nat N) (Z.of_nat H)).
      + exists (bv_data b). destruct b; split; [done|]. left. split; [lia|done].
      + eexists. split; [done|]. right. split; [lia|]. rewrite Nat2Z.id. do 2 f_equal. lia.
    - exists (bv_data b). destruct b; split; [done|]. left. split; [lia|done]. }
  cbn [bv_data]. eexists. split; [done|].
  assert (Forall word_ok data ∧ (2 ≤ length data)%nat ∧ (N ≤ length data)%nat ∧
    ∀ i, 0 ≤ i → i < 32 * Z.of_nat (Nat.max 2 N) → wbit data i = (i <=? bv_max b) && bv_bit b i) as (Hd1 & Hd2 & Hd3 & Hd4).
  { destruct Hdata as [[HN ->]|[HN ->]].
    - split_and!; [done|lia|lia|]. intros i Hi Hi'. destruct (Z.leb_spec i (bv_max b)); [done|]. apply Hc'. lia.
    - assert (length (take H (bv_data b)) = H) as HL by (rewrite length_take; lia).
      rewrite length_app, length_replicate, HL. split_and!; [|lia|lia|].
      + apply Forall_app. split; [by apply Forall_take|]. apply Forall_replicate. by unfold word_ok.
      + intros i Hi Hi'. destruct (Z.lt_ge_cases i (32 * Z.of_nat H)).
        * rewrite wbit_app_l, wbit_take by (rewrite ?HL; lia). fold (bv_bit b i).
          destruct (Z.leb_spec i (bv_max b)); [done|]. apply Hc'. lia.
        * rewrite wbit_app_r, wbit_zeros by (rewrite HL; lia). destruct (Z.leb_spec i (bv_max b)); [lia|done]. }
  assert (∀ i, 0 ≤ i → i < 32 * Z.of_nat (Nat.max 2 N) →
    bv_bit (mkBV (n - 1) data) i = (i <=? bv_max b) && bv_bit b i) as Hbits by done.
  assert (used_words (mkBV (n - 1) data) = N) as HN by by apply used_words_max.
  split; [constructor|split; [done|intros; apply Hbits; lia]]; rewrite ?HN; cbn [bv_max bv_data]; try done; [lia|].
  intros i Hi. destruct (Z.lt_ge_cases i 0); [by apply wbit_neg|]. rewrite Hbits by lia.
  destruct (Z.leb_spec i (bv_max b)); [lia|done].
Qed.

(** Setting a bit of a well-formed vector by [force_bit] sets that bit and no
    other, at any position. *)
Lemma force_bit_spec b i x : bv_wf b → 0 ≤ i →
  ∃ r, force_bit b i x = Some r ∧ bv_wf r ∧ bv_max r = Z.max i (bv_max b) ∧
  ∀ j, 0 ≤ j ≤ bv_max r → bv_bit r j = if j =? i then x else (j <=? bv_max b) && bv_bit b j.
Proof.
  intros Hwf Hi. unfold force_bit. destruct (Z.ltb_spec i 0); [lia|].
  destruct (Z.gtb_spec i (bv_max b)).
  - destruct (resize_grow b (i + 1) Hwf ltac:(lia)) as (g & -> & Hwg & Hmg & Hbg).
    destruct (bv_set_spec g i x Hwg ltac:(lia)) as (r & -> & Hwr & Hmr & Hbr).
    exists r. split_and!; [done..|lia|]. intros j Hj. rewrite Hbr by lia.
    destruct (j =? i); [done|]. apply Hbg. lia.
  - destruct (bv_set_spec b i x Hwf ltac:(lia)) as (r & -> & Hwr & Hmr & Hbr).
    exists r. split_and!; [done..|lia|]. intros j Hj. rewrite Hbr by lia.
    destruct (j =? i); [done|]. destruct (Z.leb_spec j (bv_max b)); [done|lia].
Qed.

Lemma offset_or_loop_bit ws k P N data :
  0 ≤ k < 32 → Forall word_ok ws → (P < N ≤ length data)%nat →
  ∀ i, 0 ≤ i < 32 * Z.of_nat N →
    wbit (offset_or_loop ws k P N data) i =
    wbit data i || wbit ws (i - 32 * Z.of_nat P - k).
Proof.
  intros Hk Hws. revert P data. induction Hws as [|v ws Hv Hws IH]; intros P data HP i Hi.
  { simpl. by rewrite orb_false_r. }
  cbn [offset_or_loop wbit]. set (j := i - 32 * Z.of_nat P - k).
  assert (∀ m, 0 ≤ m < 32 → Z.testbit (u32 (Z.shiftl v k)) m = Z.testbit v (m - k)) as Hsh.
  { intros m Hm. by rewrite testbit_u32, Z.shiftl_spec by lia. }
  assert (32 ≤ j → Z.testbit v j = false) as Hhigh by (intros; by apply word_ok_high).
  assert (j < 0 → Z.testbit v j = false) as Hlow by (intros; by apply Z.testbit_neg_r).
  set (d1 := alter _ P data).
  assert (wbit d1 i = wbit data i || ((32 * Z.of_nat P <=? i) && (i <? 32 * Z.of_nat P + 32)
            && Z.testbit v j)) as Hd1.
  { unfold d1. rewrite alter_bit_lor by lia.
    destruct (Z.leb_spec (32 * Z.of_nat P) i), (Z.ltb_spec i (32 * Z.of_nat P + 32)); try done.
    rewrite Hsh by lia. done. }
  assert (length d1 = length data) as Hl1 by (apply length_alter).
  destruct (Nat.leb_spec N (S P)) as [Hstop|Hgo].
  - rewrite Hd1. destruct (Z.ltb_spec j 32); [|lia].
    destruct (Z.leb_spec (32 * Z.of_nat P) i), (Z.ltb_spec i (32 * Z.of_nat P + 32)); simpl;
      try lia; try done. rewrite Hlow by lia. done.
  - set (d2 := if k =? 0 then d1 else _).
    assert (length d2 = length data) as Hl2.
    { unfold d2. destruct (k =? 0); [done|]. by rewrite length_alter. }
    assert (wbit d2 i = wbit d1 i || ((32 * Z.of_nat (S P) <=? i) && (i <? 32 * Z.of_nat (S P) + 32)
              && Z.testbit v j)) as Hd2.
    { unfold d2. destruct (Z.eqb_spec k 0) as [->|Hk0].
      - destruct (Z.leb_spec (32 * Z.of_nat (S P)) i); simpl; [|by rewrite orb_false_r].
        rewrite Hhigh, andb_false_r, orb_false_r by lia. done.
      - rewrite alter_bit_lor by lia.
        destruct (Z.leb_spec (32 * Z.of_nat (S P)) i), (Z.ltb_spec i (32 * Z.of_nat (S P) + 32));
          try done. rewrite Z.shiftr_spec by lia. simpl. do 2 f_equal. lia. }
    rewrite (IH (S P) d2) by lia. rewrite Hd2, Hd1.
    replace (i - 32 * Z.of_nat (S P) - k) with (j - 32) by lia.
    destruct (Z.ltb_spec j 32) as [Hj|Hj].
    + rewrite (wbit_neg ws (j - 32)) by lia. rewrite orb_false_r.
      destruct (Z.lt_ge_cases j 0) as [Hneg|Hpos].
      { rewrite Hlow by done. by rewrite !andb_false_r, !orb_false_r. }
      destruct (Z.leb_spec (32 * Z.of_nat P) i), (Z.ltb_spec i (32 * Z.of_nat P + 32)),
        (Z.leb_spec (32 * Z.of_nat (S P)) i), (Z.ltb_spec i (32 * Z.of_nat (S P) + 32));
        simpl; rewrite ?orb_false_r; lia || done.
    + rewrite Hhigh by done. by rewrite !andb_false_r, !orb_false_r.
Qed.

Lemma offset_or_loop_frame ws k P N data : 0 ≤ k < 32 → Forall word_ok ws →
  length (offset_or_loop ws k P N data) = length data ∧
  (Forall word_ok data → Forall word_ok (offset_or_loop ws k P N data)) ∧
  ∀ i, 0 ≤ i → (P < N)%nat → 32 * Z.of_nat N ≤ i →
    wbit (offset_or_loop ws k P N data) i = wbit data i.
Proof.
  intros Hk Hws. revert P data. induction Hws as [|v ws Hv Hws IH]; intros P data; [done|].
  cbn [offset_or_loop]. set (d1 := alter _ P data).
  assert (length d1 = length data) as Hl1 by (apply length_alter).
  assert (Forall word_ok data → Forall word_ok d1) as Hw1.
  { intros. apply words_alter; auto with words. }
  assert (∀ i, 0 ≤ i → (P < N)%nat → 32 * Z.of_nat N ≤ i → wbit d1 i = wbit data i) as Hb1.
  { intros i Hi HP HN. unfold d1. rewrite wbit_alter by done.
    pose proof (Z.div_mod i 32 ltac:(lia)). pose proof (Z.mod_pos_bound i 32 ltac:(lia)).
    destruct (Nat.eqb_spec (Z.to_nat (i / 32)) P); [nia|done]. }
  destruct (Nat.leb_spec N (S P)); [done|].
  set (d2 := if k =? 0 then d1 else _).
  assert (length d2 = length data) as Hl2
    by (unfold d2; destruct (k =? 0); [done|by rewrite length_alter]).
  assert (Forall word_ok data → Forall word_ok d2) as Hw2.
  { intros Hw. unfold d2. destruct (k =? 0); [auto|]. apply words_alter; [|auto].
    intros w Hww. apply word_ok_lor; [done|]. apply word_ok_shiftr; [done|lia]. }
  destruct (IH (S P) d2) as (H1 & H2 & H3). split_and!; [congruence|auto|].
  intros i Hi HP HN. rewrite H3 by lia. unfold d2. destruct (k =? 0); [by apply Hb1|].
  rewrite wbit_alter by done.
  pose proof (Z.div_mod i 32 ltac:(lia)). pose proof (Z.mod_pos_bound i 32 ltac:(lia)).
  destruct (Nat.eqb_spec (Z.to_nat (i / 32)) (S P)); [nia|]. by apply Hb1.
Qed.

(** A well-formed operand passes the assert unless its size is a multiple of
    the word size. *)
Lemma offset_or_assert_wf o : bv_wf o → 0 ≤ bv_max o →
  offset_or_assert o = negb (bv_max o mod 32 =? 31).
Proof.
  intros [Hm Hw H2 Hu Hc] Hne. pose proof (used_words_spec o Hm) as [Hs1 Hs2]. specialize (Hs2 Hne).
  assert (Z.land (bv_max o) 31 = bv_max o mod 32) as Hl
    by (change 31 with (Z.ones 5); by rewrite Z.land_ones by lia).
  unfold offset_or_assert. rewrite Hl. destruct (Z.ltb_spec (bv_max o) 0); [lia|]. cbn [andb].
  destruct (Z.eqb_spec (bv_max o mod 32) 0) as [->|Hk]; [done|].
  destruct (Z.eqb_spec (bv_max o mod 32) 31) as [|Hk']; [done|]. cbn [orb negb].
  pose proof (Z.div_mod (bv_max o) 32 ltac:(lia)). pose proof (Z.mod_pos_bound (bv_max o) 32 ltac:(lia)).
  apply Z.eqb_eq, Z.bits_inj'. intros k Hk0. rewrite Z.land_spec.
  assert (max_word o = bv_max o / 32) as ->.
  { unfold max_word. destruct (Z.ltb_spec (bv_max o) 0); [lia|]. by rewrite Z.shiftr_div_pow2 by lia. }
  assert (0 ≤ bv_max o / 32) by (apply Z.div_pos; lia).
  destruct (Z.lt_ge_cases k 32) as [Hk32|Hk32].
  - rewrite testbit_u32 by lia.
    replace (Z.shiftl 1 (bv_max o mod 32 + 1) - 1) with (Z.ones (bv_max o mod 32 + 1)) by (unfold Z.ones; lia).
    destruct (Z.lt_ge_cases k (bv_max o mod 32 + 1)).
    + rewrite Z.ones_spec_low by lia. by rewrite andb_true_r.
    + rewrite Z.ones_spec_high, andb_false_r by lia. symmetry.
      specialize (Hc (32 * (bv_max o / 32) + k) ltac:(lia)). unfold bv_bit in Hc.
      rewrite wbit_nth, Z.shiftr_div_pow2 in Hc by lia. change (2 ^ 5) with 32 in Hc.
      rewrite (Z.mul_comm 32), Z.div_add_l, (Z.div_small k), Z.add_0_r in Hc by lia.
      change 31 with (Z.ones 5) in Hc. rewrite Z.land_ones in Hc by lia. change (2 ^ 5) with 32 in Hc.
      by rewrite Z.add_comm, Z_mod_plus_full, Z.mod_small in Hc by lia.
  - rewrite (word_ok_high (u32 _)) by (done || apply word_ok_u32). rewrite andb_false_r. symmetry.
    apply word_ok_high; [|done]. rewrite Forall_forall in Hw. apply Hw, list_elem_of_In, nth_In. lia.
Qed.

Lemma offset_or_spec b o offset :
  bv_wf b → bv_wf o → 0 ≤ bv_max o → bv_max o mod 32 ≠ 31 → 0 ≤ offset → offset + bv_max o ≤ bv_max b →
  ∃ r, offset_or b o offset = Some r ∧ bv_wf r ∧ bv_max r = bv_max b ∧
  ∀ i, 0 ≤ i ≤ bv_max b →
    bv_bit r i = bv_bit b i ||
      ((offset <=? i) && (i <=? offset + bv_max o) && bv_bit o (i - offset)).
Proof.
  intros Hwb Hwfo Hne Hmod Hoff Hfit. pose proof (offset_or_assert_wf o Hwfo Hne) as Hassert.
  rewrite (proj2 (Z.eqb_neq _ _) Hmod) in Hassert.
  destruct Hwb as [Hm Hw H2 Hu Hc], Hwfo as [Hmo Hwo H2o Huo Hco].
  pose proof (used_words_spec b Hm) as [Hs1 Hs2].
  pose proof (used_words_spec o Hmo) as [Hso1 Hso2]. specialize (Hso2 Hne).
  unfold offset_or. rewrite Hassert.
  destruct (Z.leb_spec 0 offset), (Z.leb_spec (offset + bv_max o) (bv_max b)); try lia.
  destruct (Nat.ltb_spec (Z.to_nat (Z.shiftr offset 5)) (length (bv_data b))) as [_|Hlong]; cycle 1.
  { rewrite Z.shiftr_div_pow2 in Hlong by lia. change (2 ^ 5) with 32 in Hlong.
    pose proof (Z.div_mod offset 32 ltac:(lia)). pose proof (Z.mod_pos_bound offset 32 ltac:(lia)). lia. }
  cbn [andb]. eexists. split; [done|]. set (ws := take _ (bv_data o)).
  pose proof (land31 offset Hoff) as Hk. rewrite Z.shiftr_div_pow2 by lia. change (2 ^ 5) with 32.
  pose proof (Z.div_mod offset 32 ltac:(lia)). pose proof (Z.mod_pos_bound offset 32 ltac:(lia)).
  assert (0 ≤ offset / 32) by (apply Z.div_pos; lia).
  assert (Z.land offset 31 = offset mod 32) as Hl
    by (change 31 with (Z.ones 5); by rewrite Z.land_ones by lia).
  set (P := Z.to_nat (offset / 32)).
  assert (P < used_words b ≤ length (bv_data b))%nat as HP by (unfold P; lia).
  assert (Forall word_ok ws) as Hws by (by apply Forall_take).
  set (data := offset_or_loop _ _ _ _ _). set (r := mkBV (bv_max b) data).
  assert (used_words r = used_words b) as Hur by (by apply used_words_max).
  destruct (offset_or_loop_frame ws (Z.land offset 31) P (used_words b) (bv_data b) Hk Hws)
    as (Hf1 & Hf2 & Hf3).
  assert (∀ i, 0 ≤ i < 32 * Z.of_nat (used_words b) → bv_bit r i = bv_bit b i ||
    ((offset <=? i) && (i <=? offset + bv_max o) && bv_bit o (i - offset))) as Hb.
  { intros i Hi. unfold bv_bit at 1, r, data; cbn [bv_data].
    rewrite offset_or_loop_bit by done. fold (bv_bit b i).
    replace (i - 32 * Z.of_nat P - Z.land offset 31) with (i - offset) by (unfold P; lia).
    f_equal. unfold ws. destruct (Z.leb_spec offset i); simpl; [|by apply wbit_neg; lia].
    assert (Nat.max 1 (used_words o) = used_words o) as -> by lia.
    destruct (Z.leb_spec i (offset + bv_max o)); simpl; [apply wbit_take; lia|].
    destruct (Z.lt_ge_cases (i - offset) (32 * Z.of_nat (used_words o))).
    - rewrite wbit_take by lia. apply Hco. lia.
    - apply wbit_above. rewrite length_take. lia. }
  split; [constructor|split; [done|intros; apply Hb; lia]]; rewrite ?Hur; unfold r, data;
    cbn [bv_max bv_data]; rewrite ?Hf1; auto.
  intros i Hi. destruct (Z.lt_ge_cases i 0); [by apply wbit_neg|].
  destruct (Z.lt_ge_cases i (32 * Z.of_nat (used_words b))).
  - fold data. fold r. rewrite Hb by lia. rewrite Hc by lia.
    destruct (Z.leb_spec i (offset + bv_max o)); [lia|]. by rewrite andb_false_r.
  - unfold bv_bit; cbn [bv_data]. rewrite Hf3 by lia. apply Hc. lia.
Qed.

(** The loop that the documentation of [offset_or] gives as its meaning:
    [for (int i = 0; i < b.size(); ++i) a[offset+i] |= b[i];] *)
Fixpoint offset_or_doc_loop (b o : BABitvector) (offset : Z) (idxs : list nat) : option BABitvector :=
  match idxs with
  | [] => Some b
  | i :: idxs =>
      match bv_get o (Z.of_nat i) with
      | Some true =>
          match bv_set b (offset + Z.of_nat i) true with
          | Some b => offset_or_doc_loop b o offset idxs
          | None => None
          end
      | Some false => offset_or_doc_loop b o offset idxs
      | None => None
      end
  end.

Definition offset_or_doc (b o : BABitvector) (offset : Z) : option BABitvector :=
  offset_or_doc_loop b o offset (seq 0 (Z.to_nat (bv_size o))).

Lemma offset_or_doc_loop_spec b o offset k n :
  bv_wf b → 0 ≤ offset → offset + bv_max o ≤ bv_max b → Z.of_nat (k + n) ≤ bv_max o + 1 →
  ∃ r, offset_or_doc_loop b o offset (seq k n) = Some r ∧ bv_wf r ∧ bv_max r = bv_max b ∧
  ∀ i, 0 ≤ i → bv_bit r i = bv_bit b i ||
    ((offset + Z.of_nat k <=? i) && (i <? offset + Z.of_nat (k + n)) && bv_bit o (i - offset)).
Proof.
  revert b k. induction n as [|n IH]; intros b k Hwf Hoff Hfit Hn; cbn [seq offset_or_doc_loop].
  { exists b. split_and!; try done. intros i Hi.
    destruct (Z.leb_spec (offset + Z.of_nat k) i), (Z.ltb_spec i (offset + Z.of_nat (k + 0)));
      simpl; rewrite ?orb_false_r; lia || done. }
  rewrite bv_get_spec by lia.
  assert (∀ i, bv_bit b i || ((offset + Z.of_nat (S k) <=? i) && (i <? offset + Z.of_nat (S k + n))
      && bv_bit o (i - offset)) || ((i =? offset + Z.of_nat k) && bv_bit o (Z.of_nat k)) =
    bv_bit b i || ((offset + Z.of_nat k <=? i) && (i <? offset + Z.of_nat (k + S n))
      && bv_bit o (i - offset))) as Hsplit.
  { intros i. rewrite <-orb_assoc. f_equal.
    destruct (Z.eqb_spec i (offset + Z.of_nat k)) as [->|].
    - replace (offset + Z.of_nat k - offset) with (Z.of_nat k) by lia.
      destruct (Z.leb_spec (offset + Z.of_nat (S k)) (offset + Z.of_nat k)),
        (Z.leb_spec (offset + Z.of_nat k) (offset + Z.of_nat k)),
        (Z.ltb_spec (offset + Z.of_nat k) (offset + Z.of_nat (k + S n))); simpl; lia || done.
    - cbn [andb]. rewrite orb_false_r.
      destruct (Z.leb_spec (offset + Z.of_nat (S k)) i), (Z.ltb_spec i (offset + Z.of_nat (S k + n))),
        (Z.leb_spec (offset + Z.of_nat k) i), (Z.ltb_spec i (offset + Z.of_nat (k + S n)));
        simpl; lia || done. }
  destruct (bv_bit o (Z.of_nat k)) eqn:Ek.
  - destruct (bv_set_spec b (offset + Z.of_nat k) true Hwf ltac:(lia)) as (b1 & -> & Hw1 & Hm1 & Hb1).
    destruct (IH b1 (S k) Hw1 Hoff ltac:(lia) ltac:(lia)) as (r & -> & Hwr & Hmr & Hbr).
    exists r. split_and!; try done; [congruence|]. intros i Hi. rewrite Hbr by done.
    rewrite <-Hsplit, Hb1 by done. destruct (i =? offset + Z.of_nat k); simpl.
    + by rewrite orb_true_r.
    + by rewrite orb_false_r.
  - destruct (IH b (S k) Hwf Hoff ltac:(lia) ltac:(lia)) as (r & -> & Hwr & Hmr & Hbr).
    exists r. split_and!; try done. intros i Hi. rewrite Hbr by done. rewrite <-Hsplit.
    by rewrite andb_false_r, orb_false_r.
Qed.

(** C28. offset_or against its documentation, for a non-empty operand that
    fits.  If the size of the operand is a multiple of 32, the assert that
    guards its last word shifts 1 by 32 bits, which is undefined, and there is
    no result.  Otherwise the word-shifting loop succeeds and its result is
    equal (in the sense of [operator==]) to that of the documented bit-by-bit
    loop. *)
Theorem offset_or_reference b o offset :
  bv_wf b → bv_wf o → 0 ≤ bv_max o → 0 ≤ offset → offset + bv_max o ≤ bv_max b →
  if bv_size o mod 32 =? 0 then offset_or b o offset = None
  else ∃ r r', offset_or b o offset = Some r ∧ offset_or_doc b o offset = Some r' ∧
    bv_wf r ∧ bv_eqb r r' = true.
Proof.
  intros Hb Ho Hne Hoff Hfit.
  assert (bv_size o mod 32 = 0 ↔ bv_max o mod 32 = 31) as Hsize.
  { unfold bv_size. pose proof (Z.div_mod (bv_max o) 32 ltac:(lia)).
    pose proof (Z.mod_pos_bound (bv_max o) 32 ltac:(lia)).
    pose proof (Z.div_mod (bv_max o + 1) 32 ltac:(lia)).
    pose proof (Z.mod_pos_bound (bv_max o + 1) 32 ltac:(lia)). split; nia. }
  destruct (Z.eqb_spec (bv_size o mod 32) 0) as [Hz|Hz].
  { apply Hsize in Hz. unfold offset_or. rewrite offset_or_assert_wf, Hz by done. cbn [Z.eqb Pos.eqb negb].
    by rewrite andb_false_r. }
  assert (bv_max o mod 32 ≠ 31) as Hmod by tauto.
  destruct (offset_or_spec b o offset Hb Ho Hne Hmod Hoff Hfit) as (r & Hr & Hwr & Hmr & Hbr).
  destruct (offset_or_doc_loop_spec b o offset 0 (Z.to_nat (bv_size o)) Hb Hoff Hfit)
    as (r' & Hr' & Hwr' & Hmr' & Hbr').
  { unfold bv_size. lia. }
  exists r, r'. split_and!; try done. apply bv_eqb_spec; [done..|]. split; [congruence|].
  intros i Hi. rewrite Hbr, Hbr' by lia. f_equal. unfold bv_size.
  destruct (Z.leb_spec offset i), (Z.leb_spec i (offset + bv_max o)),
    (Z.leb_spec (offset + Z.of_nat 0) i),
    (Z.ltb_spec i (offset + Z.of_nat (0 + Z.to_nat (bv_max o + 1)))); simpl; lia || done.
Qed.

(** A decision procedure for the representation invariant, used to evaluate
    the theorems on concrete vectors. *)
Definition bv_wfb (b : BABitvector) : bool :=
  (-1 <=? bv_max b) && forallb (λ w, (0 <=? w) && (w <? 2 ^ 32)) (bv_data b) &&
  (2 <=? length (bv_data b))%nat && (used_words b <=? length (bv_data b))%nat &&
  forallb (λ i, (Z.of_nat i <=? bv_max b) || negb (bv_bit b (Z.of_nat i)))
    (seq 0 (32 * Nat.max 2 (used_words b))).

Lemma bv_wfb_sound b : bv_wfb b = true → bv_wf b.
Proof.
  unfold bv_wfb. intros [[[[Hm Hw]%andb_true_iff H2]%andb_true_iff Hu]%andb_true_iff Hc]%andb_true_iff.
  constructor.
  - by apply Z.leb_le.
  - apply Forall_forall. intros w Hin. rewrite forallb_forall in Hw.
    specialize (Hw w ltac:(by apply list_elem_of_In)). unfold word_ok. lia.
  - by apply Nat.leb_le.
  - by apply Nat.leb_le.
  - intros i Hi. destruct (Z.lt_ge_cases i 0); [by apply wbit_neg|].
    rewrite forallb_forall in Hc. specialize (Hc (Z.to_nat i)).
    rewrite in_seq, Z2Nat.id in Hc by done. specialize (Hc ltac:(lia)).
    destruct (Z.leb_spec i (bv_max b)); [lia|]. by apply negb_true_iff in Hc.
Qed.

Lemma offset_or_reference_witness :
  (∃ r r', offset_or (mkBV 69 [3; 0; 5]) (mkBV 39 [4026531841; 200]) 29 = Some r ∧
    offset_or_doc (mkBV 69 [3; 0; 5]) (mkBV 39 [4026531841; 200]) 29 = Some r' ∧
    bv_wf r ∧ bv_eqb r r' = true) ∧
  offset_or (mkBV 69 [3; 0; 5]) (mkBV 31 [4026531841; 0]) 29 = None.
Proof.
  split.
  - apply (offset_or_reference (mkBV 69 [3; 0; 5]) (mkBV 39 [4026531841; 200]) 29);
      [apply bv_wfb_sound; reflexivity..|simpl; lia|lia|simpl; lia].
  - apply (offset_or_reference (mkBV 69 [3; 0; 5]) (mkBV 31 [4026531841; 0]) 29);
      [apply bv_wfb_sound; reflexivity..|simpl; lia|lia|simpl; lia].
Defined.

(** Writing and reading a link identifier are inverse: the text of a vector
    parses back to an equal vector, and a text of [n] binary digits is the
    text of the vector it parses to. *)
Theorem to_string_parse_bits b s :
  bv_wf b → Forall (λ c, c = 48 ∨ c = 49) s →
  (∃ r, parse_bits (bv_size b) (to_string b) = Some r ∧ bv_eqb r b = true) ∧
  (∃ r, parse_bits (Z.of_nat (length s)) s = Some r ∧ to_string r = s).
Proof.
  intros Hwf Hs. split.
  - assert (-1 ≤ bv_max b) as Hm by apply Hwf. unfold parse_bits, bv_size.
    destruct (bv_make_spec (bv_max b + 1)) as (b0 & -> & Hw0 & Hm0 & Hb0); [lia|].
    assert (length (to_string b) = Z.to_nat (bv_max b + 1)) as Hlen
      by (unfold to_string, bv_size; by rewrite length_fmap, length_seq).
    destruct (parse_bits_from_spec b0 (to_string b) Hw0) as (r & -> & Hwr & Hmr & Hbr); [lia|].
    exists r. split; [done|]. apply bv_eqb_spec; [done..|]. split; [lia|].
    intros i Hi. rewrite Hbr by lia. rewrite Hlen.
    destruct (Z.ltb_spec i (Z.of_nat (Z.to_nat (bv_max b + 1)))); [|lia].
    rewrite (nth_lookup_Some _ _ 0 (if bv_bit b i then 49 else 48)).
    { by destruct (bv_bit b i). }
    rewrite to_string_bits by done. rewrite list_lookup_fmap.
    rewrite lookup_seq_lt by lia. cbn [fmap option_fmap option_map]. f_equal.
    replace (bv_max b - _) with i by lia. done.
  - unfold parse_bits.
    destruct (bv_make_spec (Z.of_nat (length s))) as (b0 & -> & Hw0 & Hm0 & Hb0); [lia|].
    destruct (parse_bits_from_spec b0 s Hw0) as (r & -> & Hwr & Hmr & Hbr); [lia|].
    exists r. split; [done|]. rewrite to_string_bits by (apply Hwr).
    replace (Z.to_nat (bv_max r + 1)) with (length s) by lia.
    apply list_eq. intros k. rewrite list_lookup_fmap.
    destruct (decide (k < length s)%nat) as [Hk|Hk].
    + rewrite lookup_seq_lt by lia. destruct (lookup_lt_is_Some_2 s k Hk) as [c Hc].
      rewrite Hc. cbn [fmap option_fmap option_map]. f_equal. rewrite Hbr by lia.
      destruct (Z.ltb_spec (bv_max r - Z.of_nat (0 + k)) (Z.of_nat (length s))); [|lia].
      replace (length s - Z.to_nat (bv_max r - Z.of_nat (0 + k)) - 1)%nat with k by lia.
      rewrite (nth_lookup_Some _ _ _ _ Hc).
      destruct (proj1 (Forall_lookup _ s) Hs k c Hc) as [-> | ->]; done.
    + rewrite (lookup_ge_None_2 s) by lia.
      rewrite (lookup_ge_None_2 (seq 0 _)) by (rewrite length_seq; lia). done.
Qed.

Lemma to_string_parse_bits_witness :
  (∃ r, parse_bits (bv_size (mkBV 5 [37; 0])) (to_string (mkBV 5 [37; 0])) = Some r ∧
     bv_eqb r (mkBV 5 [37; 0]) = true) ∧
  (∃ r, parse_bits (Z.of_nat (length [49; 48; 49])) [49; 48; 49] = Some r ∧
     to_string r = [49; 48; 49]).
Proof.
  apply to_string_parse_bits; [apply bv_wfb_sound; reflexivity|].
  repeat (constructor; [auto|]). constructor.
Defined.

(** The bitwise operators act bit by bit: on two vectors of one size [&],
    [|] and [^] succeed, keep the size and the representation invariant, and
    compute conjunction, disjunction and exclusive disjunction of each bit;
    [~] complements each bit. *)
Theorem bitwise_operators b o : bv_wf b → bv_wf o → bv_max o = bv_max b →
  ∃ ra ro rx,
    bv_and b o = Some ra ∧ bv_or b o = Some ro ∧ bv_xor b o = Some rx ∧
    (bv_wf ra ∧ bv_wf ro ∧ bv_wf rx ∧ bv_wf (bv_not b)) ∧
    (bv_max ra = bv_max b ∧ bv_max ro = bv_max b ∧ bv_max rx = bv_max b ∧
     bv_max (bv_not b) = bv_max b) ∧
    ∀ i, 0 ≤ i ≤ bv_max b →
      bv_bit ra i = bv_bit b i && bv_bit o i ∧
      bv_bit ro i = bv_bit b i || bv_bit o i ∧
      bv_bit rx i = xorb (bv_bit b i) (bv_bit o i) ∧
      bv_bit (bv_not b) i = negb (bv_bit b i).
Proof.
  intros Hb Ho Hmax.
  destruct (bv_and_spec b o Hb Ho Hmax) as (ra & Ha & Ha1 & Ha2 & Ha3).
  destruct (bv_or_spec b o Hb Ho Hmax) as (ro & Hr & Hr1 & Hr2 & Hr3).
  destruct (bv_xor_spec b o Hb Ho Hmax) as (rx & Hx & Hx1 & Hx2 & Hx3).
  destruct (bv_copy_spec b Hb) as (Hc1 & Hc2 & Hc3).
  destruct (negate_spec (bv_copy b) Hc1) as (Hn1 & Hn2 & Hn3).
  exists ra, ro, rx. unfold bv_not. split_and!; try done; try congruence.
  intros i Hi. rewrite Ha3, Hr3, Hx3, Hn3, Hc3 by (rewrite ?Hc2; lia). done.
Qed.

Lemma bitwise_operators_witness :
  ∃ ra ro rx,
    bv_and (mkBV 9 [5; 0]) (mkBV 9 [516; 0]) = Some ra ∧
    bv_or (mkBV 9 [5; 0]) (mkBV 9 [516; 0]) = Some ro ∧
    bv_xor (mkBV 9 [5; 0]) (mkBV 9 [516; 0]) = Some rx ∧
    bv_data ra = [4; 0] ∧ bv_data ro = [517; 0] ∧ bv_data rx = [513; 0].
Proof.
  destruct (bitwise_operators (mkBV 9 [5; 0]) (mkBV 9 [516; 0])) as (ra & ro & rx & Ha & Hr & Hx & _);
    [apply bv_wfb_sound; reflexivity..|reflexivity|].
  exists ra, ro, rx. split_and!; try done.
  - by injection Ha as <-.
  - by injection Hr as <-.
  - by injection Hx as <-.
Defined.

(** Against the documentation of [resize] ("Any bits added to the
    BABitvector are false"): shrinking keeps the old words, so growing again
    brings back the bits that were cut off. *)
Theorem resize_restores_old_bits :
  ∃ b short long, bv_wf b ∧ resize b 8 = Some short ∧ resize short 64 = Some long ∧
    bv_size short = 8 ∧ bv_get long 40 = Some true.
Proof.
  exists (mkBV 63 [0; 256]), (mkBV 7 [0; 256]), (mkBV 63 [0; 256]).
  split_and!; try reflexivity. by apply bv_wfb_sound.
Qed.
