(* ===== verification/GlobalConf.v ===== *)
(** * Node configuration (src/globalconf.hh, src/globalconf.cc)

    The GlobalConf element checks the configuration strings of a node and
    derives from them the identifiers that LocalProxy, LocalRV and Forwarder
    share: forwarding identifiers as 256-bit vectors and the well-known
    scopes under which requests to the rendezvous point and the topology
    manager are published.  [configure] starts after the keyword parser
    (Click's [cp_va_kparse]) has produced the strings; the members that the
    source leaves uninitialised ([type]) are an argument. *)
From stdpp Require Import base list.
From Stdlib Require Import ZArith Lia.
From S2P Require Import Prelude Enums Bitvector.

Local Open Scope Z_scope.

Record GlobalConf := mkGC {
  type_FW : bool; type_RV : bool; type_TM : bool;
  nodeID : bytes;
  defaultRV_dl : BABitvector;
  iLID : BABitvector;
  TMFID : BABitvector;
  use_mac : bool;
  RVScope : bytes; RVScopeUC : bytes;
  TMScope : bytes; TMScopeUC : bytes;
  nodeRVScope : bytes; nodeTMScope : bytes; nodeTMScopeUC : bytes;
  notificationIID : bytes;
  pathMgmtScope : bytes; pathMgmtIID : bytes;
  IP_ROOTSCOPE : bytes; HTTP_ROOTSCOPE : bytes;
  status : Z;
}.

(** The position of the first [c] in [s] ([String::find_left]). *)
Fixpoint find_left (c : Z) (s : bytes) : option nat :=
  match s with
  | [] => None
  | x :: s => if x =? c then Some O else S <$> find_left c s
  end.

(** ["FW"], ["RV"] and ["TM"]. *)
Definition str_FW : bytes := [70; 87].
Definition str_RV : bytes := [82; 86].
Definition str_TM : bytes := [84; 77].

(** The loop over the [TYPE] argument.  Every turn reads [delim_pos]
    characters at [offset], where [delim_pos] is the position of the first
    ':' of the whole string. *)
Fixpoint parse_types (fuel : nat) (types : bytes) (offset : nat) (ty : bool * bool * bool)
    : bool * bool * bool :=
  match fuel with
  | O => ty
  | S fuel =>
      if (offset <? length types)%nat then
        let delim_pos := default (length types) (find_left 58 types) in
        let node_type := substr types offset delim_pos in
        let '(fw, rv, tm) := ty in
        let fw := if bool_decide (node_type = str_FW) then true else fw in
        let rv := if bool_decide (node_type = str_RV) then true else rv in
        let tm := if bool_decide (node_type = str_TM) then true else tm in
        parse_types fuel types (offset + delim_pos + 1) (fw, rv, tm)
      else ty
  end.

(** ["mac"], ["mac_ml"], ["mac_qos"] and ["ip"]. *)
Definition mac_modes : list bytes :=
  [[109; 97; 99]; [109; 97; 99; 95; 109; 108]; [109; 97; 99; 95; 113; 111; 115]].
Definition ip_mode : bytes := [105; 112].

Definition fid_bits : Z := Z.of_nat FID_LEN * 8.

(** ** Forwarding identifiers as bytes *)

(** The bytes of the words of a vector, as they lie in memory. *)
Definition bytes_of_word (w : Z) : bytes :=
  [u8 w; u8 (Z.shiftr w 8); u8 (Z.shiftr w 16); u8 (Z.shiftr w 24)].
Definition bytes_of_words (ws : list Z) : bytes := concat (bytes_of_word <$> ws).

Fixpoint words_of_bytes (bs : bytes) : list Z :=
  match bs with
  | a :: b :: c :: d :: bs => (a + 256 * b + 65536 * c + 16777216 * d) :: words_of_bytes bs
  | _ => []
  end.

(** [BABitvector FID(FID_LEN * 8); memcpy(FID._data, data, FID_LEN);] *)
Definition fid_of_bytes (bs : bytes) : BABitvector := mkBV (fid_bits - 1) (words_of_bytes bs).

(** A vector of FID_LEN bytes. *)
Definition fid_ok (b : BABitvector) : Prop := bv_wf b ∧ bv_max b = fid_bits - 1.

Lemma fid_ok_size b : bv_wf b → bv_size b = fid_bits → fid_ok b.
Proof. intros Hb Hs. split; [done|]. unfold bv_size in Hs. lia. Qed.

Lemma words_of_bytes_ok n bs : length bs = (4 * n)%nat → Forall is_byte bs →
  length (words_of_bytes bs) = n ∧ Forall word_ok (words_of_bytes bs).
Proof.
  revert bs. induction n as [|n IH]; intros bs Hlen Hb.
  { destruct bs; [done|simpl in Hlen; lia]. }
  destruct bs as [|a [|b [|c [|d bs]]]]; simpl in Hlen; try lia.
  repeat match goal with H : Forall _ (_ :: _) |- _ => inversion_clear H end.
  destruct (IH bs) as [IH1 IH2]; [lia|done|]. simpl. split; [lia|]. constructor; [|done].
  unfold word_ok, is_byte in *. lia.
Qed.

Lemma fid_of_bytes_ok bs : length bs = FID_LEN → Forall is_byte bs → fid_ok (fid_of_bytes bs).
Proof.
  intros Hlen Hb. destruct (words_of_bytes_ok 8 bs Hlen Hb) as [Hl Hw].
  split; [|done]. unfold fid_of_bytes.
  constructor; cbn [bv_max bv_data]; rewrite ?Hl; [done|done|lia| |].
  - change (8 ≤ 8)%nat. lia.
  - intros i Hi. change (255 < i < 256) in Hi. lia.
Qed.

(** A well-known scope: 0xFF in all bytes but the last. *)
Definition ff_scope (last : Z) : bytes := replicate (PURSUIT_ID_LEN - 1) 255 ++ [last].

(** GlobalConf::configure.  [None] is the error return. *)
Definition configure (type0 : bool * bool * bool)
    (types mode node defRVFID internalLID TMFID_str : bytes) : option GlobalConf :=
  let '(fw, rv, tm) := parse_types (S (length types)) types 0 type0 in
  mac ← (if bool_decide (mode ∈ mac_modes) then Some true
         else if bool_decide (mode = ip_mode) then Some false else None);
  if negb (length node =? NODEID_LEN)%nat then None else
  if negb (Z.of_nat (length defRVFID) =? fid_bits) then None else
  drv ← parse_bits fid_bits defRVFID;
  if negb (Z.of_nat (length internalLID) =? fid_bits) then None else
  lid ← parse_bits fid_bits internalLID;
  tmfid ← (if (length TMFID_str =? 0)%nat then bv_make 0
           else if negb (Z.of_nat (length TMFID_str) =? fid_bits) then None
           else parse_bits fid_bits TMFID_str);
  let rvs := replicate PURSUIT_ID_LEN 255 in
  let tms := ff_scope 254 in
  Some {| type_FW := fw; type_RV := rv; type_TM := tm;
     nodeID := node; defaultRV_dl := drv; iLID := lid; TMFID := tmfid; use_mac := mac;
     RVScope := rvs; RVScopeUC := ff_scope 253;
     TMScope := tms; TMScopeUC := ff_scope 253;
     nodeRVScope := rvs ++ node; nodeTMScope := tms ++ node;
     nodeTMScopeUC := tms ++ ff_scope 253 ++ node;
     notificationIID := ff_scope 253 ++ node;
     pathMgmtScope := ff_scope 249; pathMgmtIID := ff_scope 249 ++ ff_scope 249;
     IP_ROOTSCOPE := replicate (PURSUIT_ID_LEN - 1) 0 ++ [NAMESPACE_IP];
     HTTP_ROOTSCOPE := replicate (PURSUIT_ID_LEN - 1) 0 ++ [NAMESPACE_HTTP];
     status := CONNECTED |}.

(** What the other elements rely on: the vectors are well-formed 256-bit
    vectors and the identifiers have their lengths. *)
Record gc_wf (gc : GlobalConf) : Prop := {
  gc_node : length (nodeID gc) = NODEID_LEN;
  gc_rv_wf : bv_wf (defaultRV_dl gc); gc_rv_size : bv_size (defaultRV_dl gc) = fid_bits;
  gc_ilid_wf : bv_wf (iLID gc); gc_ilid_size : bv_size (iLID gc) = fid_bits;
  gc_tm_wf : bv_wf (TMFID gc);
  gc_tm_size : bv_size (TMFID gc) = 0 ∨ bv_size (TMFID gc) = fid_bits;
  gc_rvscope : length (RVScope gc) = PURSUIT_ID_LEN;
  gc_noderv : nodeRVScope gc = RVScope gc ++ nodeID gc;
  gc_rvscopeuc : length (RVScopeUC gc) = PURSUIT_ID_LEN;
  gc_tmscope : length (nodeTMScope gc) = (2 * PURSUIT_ID_LEN)%nat;
  gc_tmscopeuc : length (nodeTMScopeUC gc) = (3 * PURSUIT_ID_LEN)%nat;
  gc_notification : length (notificationIID gc) = (2 * PURSUIT_ID_LEN)%nat;
}.

Lemma parse_bits_ok n s b : 0 ≤ n → Z.of_nat (length s) ≤ n → parse_bits n s = Some b →
  bv_wf b ∧ bv_size b = n.
Proof.
  intros Hn Hs. unfold parse_bits.
  destruct (bv_make_spec n Hn) as (b0 & -> & Hw0 & Hm0 & _).
  destruct (parse_bits_from_spec b0 s Hw0) as (r & -> & Hwr & Hmr & _); [lia|].
  intros [= <-]. split; [done|]. unfold bv_size. lia.
Qed.

(** C27. A configuration that GlobalConf accepts satisfies what the other
    elements rely on: the forwarding identifiers are well-formed vectors of
    FID_LEN * 8 bits (the FID to the topology manager may be absent), the
    node label has NODEID_LEN bytes and the derived scopes have two or three
    identifier fragments. *)
Theorem configure_wf type0 types mode node rvfid lid tmfid gc :
  configure type0 types mode node rvfid lid tmfid = Some gc → gc_wf gc.
Proof.
  unfold configure. destruct (parse_types _ _ _ _) as [[fw rv] tm].
  set (om := if bool_decide (mode ∈ mac_modes) then _ else _). clearbody om.
  destruct om as [m|]; [|done]. cbn [mbind option_bind].
  destruct (Nat.eqb_spec (length node) NODEID_LEN) as [Hnode|]; [|done]. cbn [negb].
  destruct (Z.eqb_spec (Z.of_nat (length rvfid)) fid_bits) as [Hrv|]; [|done]. cbn [negb].
  destruct (parse_bits fid_bits rvfid) as [drv|] eqn:Edrv; [|done].
  destruct (Z.eqb_spec (Z.of_nat (length lid)) fid_bits) as [Hlid|]; [|done]. cbn [negb].
  destruct (parse_bits fid_bits lid) as [l|] eqn:Elid; [|done].
  set (ot := if (length tmfid =? 0)%nat then _ else _).
  assert (∀ t, ot = Some t → bv_wf t ∧ (bv_size t = 0 ∨ bv_size t = fid_bits)) as Hot.
  { intros t. unfold ot. destruct (Nat.eqb_spec (length tmfid) 0).
    - intros [= <-]. split; [by apply bv_wfb_sound|by left].
    - destruct (Z.eqb_spec (Z.of_nat (length tmfid)) fid_bits); [|done]. cbn [negb].
      intros [??]%parse_bits_ok; [auto|done|lia]. }
  clearbody ot. destruct ot as [t|]; [|done]. destruct (Hot t eq_refl) as [Ht1 Ht2].
  apply parse_bits_ok in Edrv as [??]; [|done|lia].
  apply parse_bits_ok in Elid as [??]; [|done|lia].
  intros [= <-]. constructor; cbn [nodeID defaultRV_dl iLID TMFID RVScope RVScopeUC
    nodeRVScope nodeTMScope nodeTMScopeUC notificationIID]; try done; simpl; by rewrite Hnode.
Qed.

(** A node labelled "00000001" in MAC mode that is rendezvous point and
    forwarder. *)
Definition example_lid (k : nat) : bytes := replicate (255 - k) 48 ++ [49] ++ replicate k 48.

Lemma configure_wf_witness :
  ∃ gc, configure (false, false, false) [70; 87; 58; 82; 86] [109; 97; 99]
      [48; 48; 48; 48; 48; 48; 48; 49] (example_lid 3) (example_lid 3) [] = Some gc ∧
    type_FW gc = true ∧ type_RV gc = true ∧ type_TM gc = false ∧ gc_wf gc.
Proof.
  eexists. split; [vm_compute; reflexivity|]. split_and!; [reflexivity..|].
  eapply configure_wf with (type0 := (false, false, false)) (types := [70; 87; 58; 82; 86])
    (mode := [109; 97; 99]) (rvfid := example_lid 3) (lid := example_lid 3) (tmfid := [])
    (node := [48; 48; 48; 48; 48; 48; 48; 49]).
  vm_compute. reflexivity.
Defined.
