(* ===== verification/Forwarder.v ===== *)
(** * The forwarder (src/forwarder.hh, src/forwarder.cc)

    A packet carries a LIPSIN forwarding identifier (FID), a 256-bit Bloom
    filter over link identifiers (LIDs); the Forwarder sends it to every link
    whose LID is contained in the FID.  [push_from_proxy] models
    Forwarder::push on port 0 (a packet of the LocalProxy, FID first) and
    [push_from_network] on the other ports (a frame of the network: Ethernet
    header, IPv6-like header of an SDN switch, or IP/UDP header, then the
    FID).

    The effects on packets are a trace: [Clone] and [Uniqueify] are the
    copies that the source takes of the incoming packet, [Kill] frees it,
    [Push port data] hands a copy to an output, [Deliver data] hands the
    incoming packet itself to the local proxy (output 0).  The Internet checksums
    ([click_in_cksum], [click_in_cksum_pseudohdr]) and the configuration
    parsers of Click are parameters.  [push_mac_header] is taken to find the
    headroom it needs, so that it extends the packet in place. *)
From stdpp Require Import base list sets.
From Stdlib Require Import ZArith Lia Bool.
From S2P Require Import Prelude Enums Bitvector GlobalConf.

Local Open Scope Z_scope.

Definition MAC_LEN : nat := 6.

Record ForwardingEntry := mkFE {
  fe_src : bytes; fe_dst : bytes;        (** Ethernet addresses (MAC mode) *)
  fe_src_ip : bytes; fe_dst_ip : bytes;  (** IPv4 addresses (IP mode) *)
  fe_port : Z;
  fe_LID : BABitvector;
  fe_proto : Z;                          (** Ethernet type, host order *)
}.

Inductive fw_event : Type :=
| Kill
| Clone
| Uniqueify
| Push (port : Z) (data : buffer)
| Deliver (data : buffer).

Record FwState := mkFw { fw_id : Z; fw_trace : list fw_event }.

Definition emit (e : fw_event) : M FwState unit :=
  modify (λ s, mkFw (fw_id s) (fw_trace s ++ [e])).

(** [_id.fetch_and_add(1)] *)
Definition next_id : M FwState Z :=
  λ s, Ok (fw_id s, mkFw (u32 (fw_id s + 1)) (fw_trace s)).

(** ** Reading packets *)

(** [len] bytes at offset [off]; a read past the end of the packet faults. *)
Definition read (p : bytes) (off len : nat) : M FwState bytes :=
  if decide (off + len ≤ length p)%nat then mret (substr p off len) else throw BufferOverflow.

(** [andVector = FID & LID; andVector == LID] *)
Definition lid_match (FID LID : BABitvector) : M FwState bool :=
  match bv_and FID LID with
  | Some andVector => mret (bv_eqb andVector LID)
  | None => throw AssertFailed
  end.

(** ** Writing packets

    [push_hdr n p] prepends [n] uninitialised bytes, [write off src p]
    overwrites bytes of the packet. *)
Definition push_hdr (n : nat) (p : buffer) : buffer := replicate n None ++ p.
Definition pull (n : nat) (p : buffer) : buffer := drop n p.

Definition write (off : nat) (src : bytes) (p : buffer) : M FwState buffer :=
  match memcpy p off src with Ok p' => mret p' | Fault e => throw e end.

Fixpoint writes (l : list (nat * bytes)) (p : buffer) : M FwState buffer :=
  match l with
  | [] => mret p
  | (off, src) :: l => p' ← write off src p; writes l p'
  end.

Definition BA_PROTO : Z := 2058.    (** 0x080a *)
Definition SDN_PROTO : Z := 34525.  (** 0x86dd *)

Section forwarder.
Context (gc : GlobalConf) (fwTable : list ForwardingEntry).
Context (in_cksum : bytes → Z) (in_cksum_pseudohdr : Z → bytes → Z → Z).

(** The addresses and the protocol type of an Ethernet header. *)
Definition mac_addresses (fe : ForwardingEntry) : list (nat * bytes) :=
  [(0%nat, fe_dst fe); (MAC_LEN, fe_src fe)].
Definition mac_header (fe : ForwardingEntry) : list (nat * bytes) :=
  mac_addresses fe ++ [((MAC_LEN + MAC_LEN)%nat, be16 (fe_proto fe))].

(** The eight bytes that complete an IPv6 header for SDN switching.  The
    length is copied from an [unsigned short] in host (little-endian)
    order. *)
Definition sdn_header (fe : ForwardingEntry) (payload_len : Z) : list (nat * bytes) :=
  mac_header fe ++
  [((MAC_LEN + MAC_LEN + 2)%nat, [96]); ((MAC_LEN + MAC_LEN + 3)%nat, [0; 0; 0]);
   ((MAC_LEN + MAC_LEN + 6)%nat, le16 payload_len); ((MAC_LEN + MAC_LEN + 8)%nat, [59]);
   ((MAC_LEN + MAC_LEN + 9)%nat, [255])].

(** The bytes of a fully written packet, as the checksums read them. *)
Definition contents (p : buffer) : bytes := (λ o, default 0 o) <$> p.

(** The IP and UDP headers for one link in IP mode; [hdr] holds the fields
    that differ between a new packet and a forwarded one. *)
Definition finish_checksums (p : buffer) : M FwState buffer :=
  p ← write 10 [0; 0] p;
  p ← write 10 (le16 (in_cksum (substr (contents p) 0 20))) p;
  let len := u16 (Z.of_nat (length p) - 20) in
  p ← write 26 [0; 0] p;
  let csum := in_cksum (substr (contents p) 20 (Z.to_nat len)) in
  write 26 (le16 (in_cksum_pseudohdr csum (substr (contents p) 0 20) len)) p.

Definition new_ip_packet (fe : ForwardingEntry) (payload : buffer) : M FwState buffer :=
  let p := push_hdr 28 payload in
  id ← next_id;
  p ← writes
    [(0%nat, [69]); (1%nat, [0]); (2%nat, be16 (Z.of_nat (length p))); (4%nat, be16 id);
     (6%nat, [0; 0]); (8%nat, [250]); (9%nat, [17]);
     (12%nat, fe_src_ip fe); (16%nat, fe_dst_ip fe);
     (20%nat, be16 55555); (22%nat, be16 55555);
     (24%nat, be16 (u16 (Z.of_nat (length p) - 20)))] p;
  finish_checksums p.

Definition forwarded_ip_packet (fe : ForwardingEntry) (p : buffer) : M FwState buffer :=
  p ← writes [(12%nat, fe_src_ip fe); (16%nat, fe_dst_ip fe); (1%nat, [0]);
              (6%nat, [0; 0]); (8%nat, [250])] p;
  finish_checksums p.

(** ** Port 0: a packet of the local proxy *)

(** The entries whose LID is contained in the FID, in table order. *)
Fixpoint matching_links (FID : BABitvector) (table : list ForwardingEntry)
    : M FwState (list ForwardingEntry) :=
  match table with
  | [] => mret []
  | fe :: table =>
      m ← lid_match FID (fe_LID fe);
      rest ← matching_links FID table;
      mret (if (m : bool) then fe :: rest else rest)
  end.

(** [if (counter == out_links.size()) p->uniqueify() else p->clone()->uniqueify()] *)
Definition take_copy (last : bool) : M FwState unit :=
  emit (if last then Uniqueify else Clone).

Definition send_from_proxy (p : bytes) (fe : ForwardingEntry) : M FwState unit :=
  let payload_len := u16 (Z.of_nat (length p) - 14 - 32) in
  let payload := Some <$> p in
  if use_mac gc then
    if fe_proto fe =? BA_PROTO then
      newPacket ← writes (mac_header fe) (push_hdr 14 payload);
      emit (Push (fe_port fe) newPacket)
    else if fe_proto fe =? SDN_PROTO then
      newPacket ← writes (sdn_header fe payload_len) (push_hdr (14 + 8) payload);
      emit (Push (fe_port fe) newPacket)
    else mret tt
  else
    newPacket ← new_ip_packet fe payload;
    emit (Push (fe_port fe) newPacket).

Fixpoint send_all (send : ForwardingEntry → M FwState unit) (keep : bool)
    (links : list ForwardingEntry) : M FwState unit :=
  match links with
  | [] => mret tt
  | fe :: links =>
      _ ← take_copy (bool_decide (links = []) && negb keep);
      _ ← send fe;
      send_all send keep links
  end.

Definition push_from_proxy (p : bytes) : M FwState unit :=
  fid ← read p 0 FID_LEN;
  out_links ← matching_links (fid_of_bytes fid) fwTable;
  _ ← (if bool_decide (out_links = []) then emit Kill else mret tt);
  send_all (send_from_proxy p) false out_links.

(** ** Other ports: a frame of the network *)

(** Where the FID starts, and the Ethernet type (0 in IP mode). *)
Definition frame_layout (p : bytes) : M FwState (nat * Z) :=
  if use_mac gc then
    ty ← read p 12 2;
    let proto := match ty with [a; b] => 256 * a + b | _ => 0 end in
    mret (if proto =? SDN_PROTO then (14 + 8)%nat else 14%nat, proto)
  else mret (28%nat, 0).

(** The link a frame came from must not get it back. *)
Definition loops_back (p : bytes) (fe : ForwardingEntry) : M FwState bool :=
  if use_mac gc then
    src ← read p MAC_LEN MAC_LEN;
    dst ← read p 0 MAC_LEN;
    mret ((bool_decide (src = fe_dst fe) && bool_decide (dst = fe_src fe)) ||
          (bool_decide (src = fe_src fe) || bool_decide (dst = fe_dst fe)))
  else
    src ← read p 12 4;
    dst ← read p 16 4;
    mret (bool_decide (src = fe_dst_ip fe) && bool_decide (dst = fe_src_ip fe)).

Fixpoint forward_links (FID : BABitvector) (p : bytes) (table : list ForwardingEntry)
    : M FwState (list ForwardingEntry) :=
  match table with
  | [] => mret []
  | fe :: table =>
      m ← lid_match FID (fe_LID fe);
      keep ← (if (m : bool) then b ← loops_back p fe; mret (negb b) else mret false);
      rest ← forward_links FID p table;
      mret (if (keep : bool) then fe :: rest else rest)
  end.

Definition send_from_network (p : bytes) (proto : Z) (fe : ForwardingEntry) : M FwState unit :=
  let payload_len := u16 (Z.of_nat (length p) - 14 - 32) in
  let payload := Some <$> p in
  if use_mac gc then
    if proto =? fe_proto fe then
      q ← writes (mac_addresses fe) payload;
      emit (Push (fe_port fe) q)
    else if (proto =? BA_PROTO) && (fe_proto fe =? SDN_PROTO) then
      q ← writes (sdn_header fe payload_len) (push_hdr 8 payload);
      emit (Push (fe_port fe) q)
    else if (proto =? SDN_PROTO) && (fe_proto fe =? BA_PROTO) then
      q ← writes (mac_header fe) (push_hdr 14 (pull (14 + 8) payload));
      emit (Push (fe_port fe) q)
    else
      q ← writes (mac_addresses fe) payload;
      emit (Push (fe_port fe) q)
  else
    q ← forwarded_ip_packet fe payload;
    emit (Push (fe_port fe) q).

(** The header of a frame that is delivered to the local proxy. *)
Definition local_pull (proto : Z) : nat :=
  if use_mac gc then
    if proto =? BA_PROTO then (14 + FID_LEN)%nat
    else if proto =? SDN_PROTO then (14 + 8 + FID_LEN)%nat
    else (14 + FID_LEN)%nat
  else (20 + 8 + FID_LEN)%nat.

Definition push_from_network (p : bytes) : M FwState unit :=
  '(off, proto) ← frame_layout p;
  fid ← read p off FID_LEN;
  let FID := fid_of_bytes fid in
  let testFID := negate (bv_copy FID) in
  out_links ← (if zero testFID then mret [] else forward_links FID p fwTable);
  pushLocally ← lid_match FID (iLID gc);
  _ ← (if zero testFID then mret tt
       else send_all (send_from_network p proto) pushLocally out_links);
  _ ← (if (pushLocally : bool) then emit (Deliver (pull (local_pull proto) (Some <$> p)))
       else mret tt);
  if bool_decide (out_links = []) && negb pushLocally then emit Kill else mret tt.

(** Forwarder::push *)
Definition push (in_port : Z) (p : bytes) : M FwState unit :=
  if in_port =? 0 then push_from_proxy p
  else if in_port >=? 1 then push_from_network p
  else mret tt.
End forwarder.

(** ** Configuration

    The Click argument parsers are parameters; [conf] is the argument
    vector.  [None]: an argument is missing or an LID has more than 256
    digits (a failing assertion of [BABitvector]). *)
Section configuration.
Context (cp_integer : bytes → Z) (cp_hex_integer : bytes → Z).
Context (cp_ethernet_address cp_ip_address : bytes → bytes).

Definition configure_mac_link (conf : list bytes) (i : nat) : option ForwardingEntry :=
  port ← conf !! (2 + 5 * i)%nat;
  src ← conf !! (3 + 5 * i)%nat;
  dst ← conf !! (4 + 5 * i)%nat;
  proto ← conf !! (5 + 5 * i)%nat;
  lid ← conf !! (6 + 5 * i)%nat;
  LID ← parse_bits fid_bits lid;
  Some (mkFE (cp_ethernet_address src) (cp_ethernet_address dst) [] []
          (cp_integer port) LID (u16 (cp_hex_integer proto))).

Definition configure_ip_link (conf : list bytes) (i : nat) : option ForwardingEntry :=
  port ← conf !! (2 + 4 * i)%nat;
  src ← conf !! (3 + 4 * i)%nat;
  dst ← conf !! (4 + 4 * i)%nat;
  lid ← conf !! (5 + 4 * i)%nat;
  LID ← parse_bits fid_bits lid;
  Some (mkFE [] [] (cp_ip_address src) (cp_ip_address dst) (cp_integer port) LID 0).

Definition configure (gc : GlobalConf) (conf : list bytes) : option (list ForwardingEntry) :=
  n ← conf !! 1%nat;
  mapM (if use_mac gc then configure_mac_link conf else configure_ip_link conf)
    (seq 0 (Z.to_nat (cp_integer n))).
End configuration.

(** ** Containment of link identifiers *)

(** The bits of the LID are among those of the FID. *)
Definition lid_in (FID LID : BABitvector) : bool :=
  forallb (λ i, implb (bv_bit LID (Z.of_nat i)) (bv_bit FID (Z.of_nat i)))
    (seq 0 (Z.to_nat fid_bits)).


Lemma lid_in_spec FID LID : lid_in FID LID = true ↔
  ∀ i, 0 ≤ i < fid_bits → bv_bit LID i = true → bv_bit FID i = true.
Proof.
  unfold lid_in. rewrite forallb_forall. split.
  - intros H i Hi HL. specialize (H (Z.to_nat i)). rewrite in_seq, Z2Nat.id in H by lia.
    specialize (H ltac:(unfold fid_bits in *; lia)). rewrite HL in H. done.
  - intros H k Hk%in_seq. specialize (H (Z.of_nat k) ltac:(unfold fid_bits in *; lia)).
    destruct (bv_bit LID (Z.of_nat k)); [by rewrite H|done].
Qed.

Lemma lid_match_run FID LID s : fid_ok FID → fid_ok LID →
  lid_match FID LID s = Ok (lid_in FID LID, s).
Proof.
  intros [HF HFm] [HL HLm]. unfold lid_match.
  destruct (bv_and_spec FID LID HF HL ltac:(congruence)) as (r & -> & Hr & Hrm & Hrb).
  unfold mret, M_ret. do 2 f_equal. apply eq_true_iff_eq.
  rewrite bv_eqb_spec, lid_in_spec by done. rewrite Hrm, HFm, HLm. split.
  - intros [_ H] i Hi HLi. specialize (H i ltac:(lia)). rewrite Hrb, HLi in H by lia.
    by apply andb_true_iff in H as [??].
  - intros H. split; [done|]. intros i Hi. rewrite Hrb by lia.
    destruct (bv_bit LID i) eqn:E; [|by rewrite andb_false_r].
    by rewrite H by (done || lia).
Qed.

Section links.
Context (FID : BABitvector) (HFID : fid_ok FID).

Lemma matching_links_run table s : Forall (λ fe, fid_ok (fe_LID fe)) table →
  matching_links FID table s = Ok (filter (λ fe, lid_in FID (fe_LID fe) = true) table, s).
Proof.
  induction table as [|fe table IH]; intros Hall; [done|].
  inversion Hall as [|?? Hfe Hrest]; subst. cbn [matching_links].
  unfold mbind, M_bind. rewrite lid_match_run by done. rewrite IH by done.
  rewrite filter_cons. unfold mret, M_ret. do 2 f_equal.
  by destruct (lid_in FID (fe_LID fe)).
Qed.

Lemma forward_links_run gc p table s (loop : ForwardingEntry → bool) :
  Forall (λ fe, fid_ok (fe_LID fe)) table →
  (∀ fe s, loops_back gc p fe s = Ok (loop fe, s)) →
  forward_links gc FID p table s =
    Ok (filter (λ fe, lid_in FID (fe_LID fe) = true ∧ loop fe = false) table, s).
Proof.
  intros Hall Hloop. induction table as [|fe table IH]; [done|].
  inversion Hall as [|?? Hfe Hrest]; subst. cbn [forward_links].
  unfold mbind, M_bind. rewrite lid_match_run by done. rewrite filter_cons.
  destruct (lid_in FID (fe_LID fe)) eqn:El; cbn.
  - rewrite Hloop. cbn. rewrite IH by done. unfold mret, M_ret. do 2 f_equal.
    destruct (loop fe); [rewrite decide_False by naive_solver|rewrite decide_True by done]; done.
  - rewrite IH by done. unfold mret, M_ret. do 2 f_equal.
Qed.
End links.

(** ** Headers

    [writes] on a packet that is long enough always succeeds; its effect is
    the pure [overwrite]. *)
Definition overwrite (off : nat) (src : bytes) (p : buffer) : buffer :=
  take off p ++ (Some <$> src) ++ drop (off + length src) p.

Fixpoint overwrites (l : list (nat * bytes)) (p : buffer) : buffer :=
  match l with
  | [] => p
  | (off, src) :: l => overwrites l (overwrite off src p)
  end.

Lemma length_overwrite off src p : (off + length src ≤ length p)%nat →
  length (overwrite off src p) = length p.
Proof.
  intros H. unfold overwrite. rewrite !length_app, length_fmap, length_take, length_drop. lia.
Qed.

Lemma writes_run l p s : Forall (λ w, fst w + length (snd w) ≤ length p)%nat l →
  writes l p s = Ok (overwrites l p, s).
Proof.
  revert p. induction l as [|[off src] l IH]; intros p Hall; [done|].
  inversion Hall as [|?? Hw Hrest]; subst. cbn [writes overwrites fst snd] in *.
  unfold write, memcpy, mbind, M_bind. rewrite decide_True by done. cbn.
  apply IH. eapply Forall_impl; [done|]. intros w ?.
  fold (overwrite off src p). by rewrite length_overwrite.
Qed.

Lemma overwrite_app_l off src p q : (off + length src ≤ length p)%nat →
  overwrite off src (p ++ q) = overwrite off src p ++ q.
Proof.
  intros H. unfold overwrite. rewrite take_app_le, drop_app_le by lia. by rewrite <-!app_assoc.
Qed.

Lemma overwrites_app_l l p q : Forall (λ w, fst w + length (snd w) ≤ length p)%nat l →
  overwrites l (p ++ q) = overwrites l p ++ q.
Proof.
  revert p. induction l as [|[off src] l IH]; intros p Hall; [done|].
  inversion Hall as [|?? Hw Hrest]; subst. cbn [overwrites fst snd] in *.
  rewrite overwrite_app_l by done. apply IH.
  eapply Forall_impl; [done|]. intros w ?. by rewrite length_overwrite.
Qed.

(** A list of known length is spelled out, so that headers compute. *)
Ltac spell l :=
  match goal with
  | H : length l = ?n |- _ => repeat (destruct l as [|? l]; try (cbn in H; lia))
  end.

(** A link whose addresses have their machine widths. *)
Definition entry_wf (fe : ForwardingEntry) : Prop :=
  fid_ok (fe_LID fe) ∧ length (fe_src fe) = MAC_LEN ∧ length (fe_dst fe) = MAC_LEN.

Definition ip_entry_wf (fe : ForwardingEntry) : Prop :=
  fid_ok (fe_LID fe) ∧ length (fe_src_ip fe) = 4%nat ∧ length (fe_dst_ip fe) = 4%nat.

(** The headers that the specification expects on the wire. *)
Definition ether_bytes (fe : ForwardingEntry) : bytes :=
  fe_dst fe ++ fe_src fe ++ be16 (fe_proto fe).
Definition sdn_bytes (fe : ForwardingEntry) (payload_len : Z) : bytes :=
  ether_bytes fe ++ [96; 0; 0; 0] ++ le16 payload_len ++ [59; 255].

Lemma fits_app (l : list (nat * bytes)) (h q : buffer) :
  Forall (λ w, fst w + length (snd w) ≤ length h)%nat l →
  Forall (λ w, fst w + length (snd w) ≤ length (h ++ q))%nat l.
Proof. intros H. eapply Forall_impl; [done|]. intros w Hw. cbn beta in *. rewrite length_app. lia. Qed.

Section headers.
Context (fe : ForwardingEntry) (Hfe : entry_wf fe).

Lemma mac_header_fits (h : buffer) : length h = 14%nat →
  Forall (λ w, fst w + length (snd w) ≤ length h)%nat (mac_header fe).
Proof.
  destruct Hfe as (_ & Hs & Hd). intros ->. unfold mac_header, mac_addresses, MAC_LEN in *.
  repeat (apply Forall_cons; split; [cbn in *; lia|]); by apply Forall_nil.
Qed.

Lemma mac_header_run h q s : length h = 14%nat →
  writes (mac_header fe) (h ++ q) s = Ok ((Some <$> ether_bytes fe) ++ q, s).
Proof.
  intros Hh. rewrite writes_run by (apply fits_app, mac_header_fits; done).
  rewrite overwrites_app_l by (apply mac_header_fits; done).
  destruct Hfe as (_ & Hs & Hd). do 3 f_equal.
  destruct fe as [src dst ? ? ? ? ?]. unfold MAC_LEN in *. cbn in Hs, Hd.
  spell src. spell dst. spell h. reflexivity.
Qed.

Lemma sdn_header_run n h q s : length h = 22%nat →
  writes (sdn_header fe n) (h ++ q) s = Ok ((Some <$> sdn_bytes fe n) ++ q, s).
Proof.
  intros Hh.
  assert (Forall (λ w, fst w + length (snd w) ≤ length h)%nat (sdn_header fe n)) as Hfit.
  { destruct Hfe as (_ & Hs & Hd). unfold sdn_header, mac_header, mac_addresses, MAC_LEN in *.
    rewrite Hh. repeat (apply Forall_cons; split; [cbn in *; lia|]); by apply Forall_nil. }
  rewrite writes_run by (by apply fits_app). rewrite overwrites_app_l by done.
  destruct Hfe as (_ & Hs & Hd). do 3 f_equal.
  destruct fe as [src dst ? ? ? ? ?]. unfold MAC_LEN in *. cbn in Hs, Hd.
  spell src. spell dst. spell h. reflexivity.
Qed.

Lemma mac_addresses_run h q s : length h = 12%nat →
  writes (mac_addresses fe) (h ++ q) s = Ok ((Some <$> (fe_dst fe ++ fe_src fe)) ++ q, s).
Proof.
  intros Hh.
  assert (Forall (λ w, fst w + length (snd w) ≤ length h)%nat (mac_addresses fe)) as Hfit.
  { destruct Hfe as (_ & Hs & Hd). unfold mac_addresses, MAC_LEN in *.
    rewrite Hh. repeat (apply Forall_cons; split; [cbn in *; lia|]); by apply Forall_nil. }
  rewrite writes_run by (by apply fits_app). rewrite overwrites_app_l by done.
  destruct Hfe as (_ & Hs & Hd). do 3 f_equal.
  destruct fe as [src dst ? ? ? ? ?]. unfold MAC_LEN in *. cbn in Hs, Hd.
  spell src. spell dst. spell h. reflexivity.
Qed.
End headers.

(** ** What is sent *)

(** The trace of [send_all] when sending to [fe] emits [out fe]. *)
Fixpoint sends (out : ForwardingEntry → fw_event) (keep : bool)
    (links : list ForwardingEntry) : list fw_event :=
  match links with
  | [] => []
  | fe :: links =>
      (if bool_decide (links = []) && negb keep then Uniqueify else Clone)
        :: out fe :: sends out keep links
  end.

Definition log (l : list fw_event) (s : FwState) : FwState := mkFw (fw_id s) (fw_trace s ++ l).

Lemma log_nil s : log [] s = s.
Proof. destruct s. unfold log. cbn. by rewrite app_nil_r. Qed.
Lemma log_log l l' s : log l' (log l s) = log (l ++ l') s.
Proof. unfold log. cbn. by rewrite app_assoc. Qed.
Lemma emit_run e s : emit e s = Ok (tt, log [e] s).
Proof. done. Qed.

Lemma send_all_run send out keep links s :
  (∀ fe s, fe ∈ links → send fe s = Ok (tt, log [out fe] s)) →
  send_all send keep links s = Ok (tt, log (sends out keep links) s).
Proof.
  revert s. induction links as [|fe links IH]; intros s Hsend; cbn [send_all sends].
  { by rewrite log_nil. }
  unfold mbind, M_bind, take_copy. rewrite emit_run, Hsend by left.
  rewrite IH by (intros; apply Hsend; by right). by rewrite !log_log.
Qed.

Lemma elem_of_sends out keep links fe : fe ∈ links → out fe ∈ sends out keep links.
Proof.
  induction links as [|fe' links IH]; intros Hin; [by apply elem_of_nil in Hin|].
  apply elem_of_cons in Hin as [->|Hin]; cbn [sends]; do 2 constructor. by apply IH.
Qed.

Definition known_proto (fe : ForwardingEntry) : Prop :=
  fe_proto fe = BA_PROTO ∨ fe_proto fe = SDN_PROTO.

(** The frame for the packet [p] of the local proxy on the link [fe]. *)
Definition proxy_frame (fe : ForwardingEntry) (p : bytes) : bytes :=
  (if fe_proto fe =? BA_PROTO then ether_bytes fe
   else sdn_bytes fe (u16 (Z.of_nat (length p) - 14 - 32))) ++ p.

Lemma read_run p off n s : (off + n ≤ length p)%nat → read p off n s = Ok (substr p off n, s).
Proof. intros H. unfold read. by rewrite decide_True. Qed.

Lemma length_substr p off n : (off + n ≤ length p)%nat → length (substr p off n) = n.
Proof. intros H. unfold substr. rewrite length_take, length_drop. lia. Qed.

Lemma fid_at_ok p off : (off + FID_LEN ≤ length p)%nat → Forall is_byte p →
  fid_ok (fid_of_bytes (substr p off FID_LEN)).
Proof. intros Hlen Hb. apply fid_of_bytes_ok; [by apply length_substr|by apply Forall_substr]. Qed.

Section mac_mode.
Context (gc : GlobalConf) (fwTable : list ForwardingEntry).
Context (in_cksum : bytes → Z) (in_cksum_pseudohdr : Z → bytes → Z → Z).
Context (Hmac : use_mac gc = true) (Htable : Forall entry_wf fwTable).

Lemma table_lids : Forall (λ fe, fid_ok (fe_LID fe)) fwTable.
Proof. eapply Forall_impl; [done|]. by intros fe [? _]. Qed.

Lemma send_from_proxy_run p fe s : entry_wf fe → known_proto fe →
  send_from_proxy gc in_cksum in_cksum_pseudohdr p fe s
    = Ok (tt, log [Push (fe_port fe) (Some <$> proxy_frame fe p)] s).
Proof.
  intros Hfe Hproto. unfold send_from_proxy, proxy_frame. rewrite Hmac.
  destruct Hproto as [-> | ->]; cbn [Z.eqb BA_PROTO SDN_PROTO Pos.eqb].
  - unfold mbind, M_bind, push_hdr. rewrite mac_header_run by done.
    by rewrite emit_run, fmap_app.
  - unfold mbind, M_bind, push_hdr. rewrite sdn_header_run by done.
    by rewrite emit_run, fmap_app.
Qed.

Lemma push_from_proxy_run p s :
  Forall known_proto fwTable → (FID_LEN ≤ length p)%nat → Forall is_byte p →
  let links := filter (λ fe, lid_in (fid_of_bytes (take FID_LEN p)) (fe_LID fe) = true) fwTable in
  push_from_proxy gc fwTable in_cksum in_cksum_pseudohdr p s =
    Ok (tt, log (match links with [] => [Kill] | _ => [] end ++
                 sends (λ fe, Push (fe_port fe) (Some <$> proxy_frame fe p)) false links) s).
Proof.
  intros Hproto Hlen Hb links. unfold push_from_proxy. unfold mbind at 1, M_bind at 1.
  rewrite read_run by done. unfold mbind at 1, M_bind at 1.
  rewrite matching_links_run; [|by apply fid_at_ok|by apply table_lids].
  fold (take FID_LEN p). change (substr p 0 FID_LEN) with (take FID_LEN p). fold links.
  unfold mbind, M_bind.
  replace ((if bool_decide (links = []) then emit Kill else mret tt) s)
    with (Ok (tt, log (match links with [] => [Kill] | _ => [] end) s))
    by (destruct links; cbn; by rewrite ?log_nil, ?emit_run).
  rewrite (send_all_run _ (λ fe, Push (fe_port fe) (Some <$> proxy_frame fe p))).
  { by rewrite log_log. }
  intros fe s' Hin. apply list_elem_of_filter in Hin as [_ Hin].
  rewrite Forall_forall in Htable, Hproto. apply send_from_proxy_run; auto.
Qed.

(** *** Frames of the network *)

Definition proto_of (p : bytes) : Z :=
  match substr p 12 2 with [a; b] => 256 * a + b | _ => 0 end.
Definition fid_off (proto : Z) : nat := if proto =? SDN_PROTO then 22%nat else 14%nat.

(** The link [fe] is the one the frame came from (or an SDN loop). *)
Definition from_link (p : bytes) (fe : ForwardingEntry) : bool :=
  let src := substr p MAC_LEN MAC_LEN in
  let dst := substr p 0 MAC_LEN in
  (bool_decide (src = fe_dst fe) && bool_decide (dst = fe_src fe)) ||
  (bool_decide (src = fe_src fe) || bool_decide (dst = fe_dst fe)).

(** The frame that goes out on the link [fe] for the received frame [p]. *)
Definition network_frame (fe : ForwardingEntry) (p : bytes) : bytes :=
  let proto := proto_of p in
  if (proto =? BA_PROTO) && (fe_proto fe =? SDN_PROTO)
  then sdn_bytes fe (u16 (Z.of_nat (length p) - 14 - 32)) ++ drop 14 p
  else if (proto =? SDN_PROTO) && (fe_proto fe =? BA_PROTO)
  then ether_bytes fe ++ drop 22 p
  else (fe_dst fe ++ fe_src fe) ++ drop 12 p.

Lemma frame_layout_run p s : (14 ≤ length p)%nat →
  frame_layout gc p s = Ok ((fid_off (proto_of p), proto_of p), s).
Proof.
  intros H. unfold frame_layout. rewrite Hmac. unfold mbind, M_bind.
  rewrite read_run by lia. unfold mret, M_ret, fid_off, proto_of. do 3 f_equal.
Qed.

Lemma loops_back_run p fe s : (12 ≤ length p)%nat →
  loops_back gc p fe s = Ok (from_link p fe, s).
Proof.
  intros H. unfold loops_back. rewrite Hmac. unfold mbind, M_bind, MAC_LEN.
  by rewrite !read_run by lia.
Qed.

Lemma split_frame n (p : bytes) : (n ≤ length p)%nat →
  Some <$> p = (Some <$> take n p) ++ (Some <$> drop n p) ∧ length (Some <$> take n p) = n.
Proof.
  intros H. rewrite <-fmap_app, take_drop, length_fmap, length_take. split; [done|lia].
Qed.

Lemma send_from_network_run p fe s : entry_wf fe → (22 ≤ length p)%nat →
  send_from_network gc in_cksum in_cksum_pseudohdr p (proto_of p) fe s
    = Ok (tt, log [Push (fe_port fe) (Some <$> network_frame fe p)] s).
Proof.
  intros Hfe Hlen.
  assert (∀ s, (q ← writes (mac_addresses fe) (Some <$> p); emit (Push (fe_port fe) q)) s =
    Ok (tt, log [Push (fe_port fe) (Some <$> (fe_dst fe ++ fe_src fe) ++ drop 12 p)] s)) as Hsame.
  { intros s'. destruct (split_frame 12 p) as [-> Hl]; [lia|]. unfold mbind, M_bind.
    rewrite mac_addresses_run by done. by rewrite emit_run, (fmap_app Some (_ ++ _)). }
  unfold send_from_network, network_frame. rewrite Hmac.
  destruct (Z.eqb_spec (proto_of p) (fe_proto fe)) as [Heq|Hne].
  { rewrite Hsame. rewrite <-Heq.
    destruct (Z.eqb_spec (proto_of p) BA_PROTO) as [->|]; [done|].
    by destruct (Z.eqb_spec (proto_of p) SDN_PROTO). }
  destruct ((proto_of p =? BA_PROTO) && (fe_proto fe =? SDN_PROTO)).
  { destruct (split_frame 14 p) as [-> Hl]; [lia|]. unfold push_hdr.
    rewrite app_assoc. unfold mbind, M_bind.
    rewrite sdn_header_run by (rewrite ?length_app, ?length_replicate, ?Hl; done).
    by rewrite emit_run, fmap_app. }
  destruct ((proto_of p =? SDN_PROTO) && (fe_proto fe =? BA_PROTO)); [|done].
  unfold push_hdr, pull. rewrite <-fmap_drop. unfold mbind, M_bind.
  rewrite mac_header_run by done. by rewrite emit_run, fmap_app.
Qed.

Definition network_fid (p : bytes) : BABitvector :=
  fid_of_bytes (substr p (fid_off (proto_of p)) FID_LEN).

(** The links on which the frame leaves the node. *)
Definition network_links (p : bytes) : list ForwardingEntry :=
  if zero (negate (bv_copy (network_fid p))) then []
  else filter (λ fe, lid_in (network_fid p) (fe_LID fe) = true ∧ from_link p fe = false) fwTable.

Definition delivered (p : bytes) : bytes := drop (fid_off (proto_of p) + FID_LEN) p.

Lemma push_from_network_run p s : fid_ok (iLID gc) →
  (fid_off (proto_of p) + FID_LEN ≤ length p)%nat → Forall is_byte p →
  let here := lid_in (network_fid p) (iLID gc) in
  push_from_network gc fwTable in_cksum in_cksum_pseudohdr p s =
    Ok (tt, log (sends (λ fe, Push (fe_port fe) (Some <$> network_frame fe p)) here
                   (network_links p) ++
                 (if here then [Deliver (Some <$> delivered p)] else []) ++
                 (if bool_decide (network_links p = []) && negb here then [Kill] else [])) s).
Proof.
  intros HiLID Hlen Hb here.
  assert (22 ≤ length p)%nat as H22
    by (unfold fid_off, FID_LEN in Hlen; destruct (proto_of p =? SDN_PROTO); lia).
  assert (fid_ok (network_fid p)) as Hfid by by apply fid_at_ok.
  unfold push_from_network. unfold mbind at 1, M_bind at 1.
  rewrite frame_layout_run by lia. unfold mbind at 1, M_bind at 1. rewrite read_run by done.
  fold (network_fid p). unfold mbind at 1, M_bind at 1.
  replace ((if zero (negate (bv_copy (network_fid p))) then mret []
            else forward_links gc (network_fid p) p fwTable) s)
    with (Ok (network_links p, s)).
  2:{ unfold network_links. destruct (zero _); [done|].
      rewrite (forward_links_run _ Hfid gc p _ s (from_link p)); [done|by apply table_lids|].
      intros. apply loops_back_run. lia. }
  unfold mbind at 1, M_bind at 1. rewrite lid_match_run by done. fold here.
  unfold mbind at 1, M_bind at 1.
  replace (if zero _ then mret tt else send_all _ _ (network_links p))
    with (send_all (send_from_network gc in_cksum in_cksum_pseudohdr p (proto_of p)) here
            (network_links p))
    by (unfold network_links; by destruct (zero _)).
  rewrite (send_all_run _ (λ fe, Push (fe_port fe) (Some <$> network_frame fe p))).
  2:{ intros fe s' Hin. apply send_from_network_run; [|done].
      unfold network_links in Hin. destruct (zero _); [by apply elem_of_nil in Hin|].
      apply list_elem_of_filter in Hin as [_ Hin]. rewrite Forall_forall in Htable. auto. }
  assert (local_pull gc (proto_of p) = fid_off (proto_of p) + FID_LEN)%nat as Hpull.
  { unfold local_pull, fid_off. rewrite Hmac.
    destruct (Z.eqb_spec (proto_of p) BA_PROTO) as [->|]; [done|].
    by destruct (proto_of p =? SDN_PROTO). }
  rewrite Hpull. unfold mbind, M_bind, pull. rewrite <-fmap_drop. fold (delivered p).
  destruct here; cbn [negb].
  - rewrite emit_run, andb_false_r. cbn. by rewrite log_log, ?app_nil_r.
  - rewrite andb_true_r. destruct (bool_decide _); cbn; by rewrite ?emit_run, ?log_log, ?app_nil_r.
Qed.
End mac_mode.

(** ** IP mode *)
Section ip_mode.
Context (gc : GlobalConf) (fwTable : list ForwardingEntry).
Context (in_cksum : bytes → Z) (in_cksum_pseudohdr : Z → bytes → Z → Z).
Context (Hip : use_mac gc = false).

Lemma write_run off src h q s : (off + length src ≤ length h)%nat →
  write off src (h ++ q) s = Ok (overwrite off src h ++ q, s).
Proof.
  intros H. unfold write, memcpy. rewrite decide_True by (rewrite length_app; lia).
  fold (overwrite off src (h ++ q)). by rewrite overwrite_app_l.
Qed.

(** Only the two checksum fields change. *)
Lemma finish_checksums_run h q s : length h = 28%nat →
  ∃ c1 c2, finish_checksums in_cksum in_cksum_pseudohdr (h ++ q) s
    = Ok (overwrites [(10%nat, le16 c1); (26%nat, le16 c2)] h ++ q, s).
Proof.
  intros Hh. unfold finish_checksums, mbind, M_bind.
  spell h. do 4 (rewrite write_run by (cbn; lia); cbn zeta beta iota).
  eexists _, _. reflexivity.
Qed.

(** The IP and UDP headers of a new packet are completely written, name the
    addresses of the link, and leave the payload alone. *)
Lemma new_ip_packet_run fe payload s : ip_entry_wf fe →
  ∃ hdr s', new_ip_packet in_cksum in_cksum_pseudohdr fe (Some <$> payload) s
    = Ok (Some <$> (hdr ++ payload), s') ∧ length hdr = 28%nat ∧
    substr hdr 12 4 = fe_src_ip fe ∧ substr hdr 16 4 = fe_dst_ip fe ∧
    s' = mkFw (u32 (fw_id s + 1)) (fw_trace s).
Proof.
  intros (_ & Hs & Hd). unfold new_ip_packet, push_hdr. unfold mbind at 1, M_bind at 1.
  cbn [next_id]. unfold mbind at 1, M_bind at 1. rewrite writes_run; cycle 1.
  { repeat (apply Forall_cons; split; [cbn; rewrite ?Hs, ?Hd; lia|]); by apply Forall_nil. }
  rewrite overwrites_app_l; cycle 1.
  { repeat (apply Forall_cons; split; [cbn; rewrite ?Hs, ?Hd; lia|]); by apply Forall_nil. }
  destruct fe as [? ? src dst ? ? ?]. cbn [fe_src_ip fe_dst_ip] in *.
  spell src. spell dst. set (n := Z.of_nat _). cbn -[n Z.sub u16].
  match goal with |- context [finish_checksums _ _ ?b ?st] =>
    destruct (finish_checksums_run (take 28 b) (Some <$> payload) st) as (c1 & c2 & Hrun);
      [done|]; change b with (take 28 b ++ (Some <$> payload)); rewrite Hrun
  end.
  match goal with |- context [overwrites ?l ?b] =>
    exists (contents (overwrites l b)), (mkFw (u32 (fw_id s + 1)) (fw_trace s)) end.
  rewrite fmap_app. split_and!; reflexivity.
Qed.

Lemma send_from_proxy_ip_run p fe s : ip_entry_wf fe →
  ∃ hdr, send_from_proxy gc in_cksum in_cksum_pseudohdr p fe s
    = Ok (tt, mkFw (u32 (fw_id s + 1))
                (fw_trace s ++ [Push (fe_port fe) (Some <$> (hdr ++ p))])) ∧
    length hdr = 28%nat ∧ substr hdr 12 4 = fe_src_ip fe ∧ substr hdr 16 4 = fe_dst_ip fe.
Proof.
  intros Hfe. unfold send_from_proxy. rewrite Hip.
  destruct (new_ip_packet_run fe p s Hfe) as (hdr & s' & Hrun & Hl & H1 & H2 & ->).
  exists hdr. unfold mbind, M_bind. rewrite Hrun. done.
Qed.

Lemma forwarded_ip_packet_run fe p s : ip_entry_wf fe → (28 ≤ length p)%nat →
  ∃ hdr, forwarded_ip_packet in_cksum in_cksum_pseudohdr fe (Some <$> p) s
    = Ok (Some <$> (hdr ++ drop 28 p), s) ∧ length hdr = 28%nat ∧
    substr hdr 12 4 = fe_src_ip fe ∧ substr hdr 16 4 = fe_dst_ip fe.
Proof.
  intros (_ & Hs & Hd) Hlen. destruct (split_frame 28 p Hlen) as [-> Hh].
  rewrite length_fmap in Hh. set (h := take 28 p) in *. set (q := Some <$> drop 28 p).
  unfold forwarded_ip_packet. unfold mbind at 1, M_bind at 1.
  destruct fe as [? ? src dst ? ? ?]. cbn [fe_src_ip fe_dst_ip] in *.
  spell src. spell dst. clearbody h. spell h.
  rewrite writes_run; cycle 1.
  { repeat (apply Forall_cons; split; [cbn; lia|]); by apply Forall_nil. }
  rewrite overwrites_app_l; cycle 1.
  { repeat (apply Forall_cons; split; [cbn; lia|]); by apply Forall_nil. }
  match goal with |- context [finish_checksums _ _ (?b ++ _) ?st] =>
    destruct (finish_checksums_run b q st) as (c1 & c2 & Hrun); [done|]; rewrite Hrun;
    exists (contents (overwrites [(10%nat, le16 c1); (26%nat, le16 c2)] b)) end.
  rewrite fmap_app. split_and!; reflexivity.
Qed.
End ip_mode.

(** ** Packet accounting

    Click packets are linear resources: a push method must free, hand on or
    deliver the packet it is given, and every copy it takes.  [owned] follows
    a trace: whether the element still has the incoming packet, and how many
    copies it has taken and not yet handed on.  It is [None] when the packet
    is used after it was given away, or a copy is pushed that was not taken. *)
Definition own_step (o : bool * nat) (e : fw_event) : option (bool * nat) :=
  match e, o with
  | Kill, (true, n) | Deliver _, (true, n) => Some (false, n)
  | Clone, (true, n) => Some (true, S n)
  | Uniqueify, (true, n) => Some (false, S n)
  | Push _ _, (here, S n) => Some (here, n)
  | _, _ => None
  end.

Fixpoint owned (l : list fw_event) (o : bool * nat) : option (bool * nat) :=
  match l with
  | [] => Some o
  | e :: l => match own_step o e with Some o => owned l o | None => None end
  end.

Lemma owned_app l l' o : owned (l ++ l') o = match owned l o with Some o' => owned l' o' | None => None end.
Proof. revert o. induction l as [|e l IH]; intros o; [done|]. cbn. by destruct (own_step o e). Qed.

(** The trace was extended by [l]. *)
Definition grows (s s' : FwState) (l : list fw_event) : Prop := fw_trace s' = fw_trace s ++ l.

(** Whatever faults may happen: runs that return append a list in [Q]. *)
Definition appends {A} (m : M FwState A) (Q : A → list fw_event → Prop) : Prop :=
  ∀ s a s', m s = Ok (a, s') → ∃ l, grows s s' l ∧ Q a l.

Section appends_rules.
Lemma appends_ret {A} (a : A) Q : Q a [] → appends (mret a) Q.
Proof. intros HQ s b s' [= <- <-]. exists []. unfold grows. by rewrite app_nil_r. Qed.

Lemma appends_throw {A} e Q : appends (throw (A := A) e) Q.
Proof. by intros s b s' [=]. Qed.

Lemma appends_emit e Q : Q tt [e] → appends (emit e) Q.
Proof. intros HQ s [] s' [= <-]. by exists [e]. Qed.

Lemma appends_bind {A B} (m : M FwState A) (k : A → M FwState B) Q :
  appends m (λ a l, appends (k a) (λ b l', Q b (l ++ l'))) → appends (m ≫= k) Q.
Proof.
  intros Hm s b s' Hrun. unfold mbind, M_bind in Hrun.
  destruct (m s) as [[a s1]|] eqn:E; [|done].
  destruct (Hm _ _ _ E) as (l & Hl & Hk). destruct (Hk _ _ _ Hrun) as (l' & Hl' & HQ).
  exists (l ++ l'). unfold grows in *. by rewrite Hl', Hl, app_assoc.
Qed.

Lemma appends_mono {A} (m : M FwState A) Q Q' :
  appends m Q → (∀ a l, Q a l → Q' a l) → appends m Q'.
Proof. intros Hm HQ s a s' Hrun. destruct (Hm _ _ _ Hrun) as (l & ? & ?). eauto. Qed.

Definition silent {A} (m : M FwState A) : Prop := appends m (λ _ l, l = []).

Lemma silent_bind {A B} (m : M FwState A) (k : A → M FwState B) :
  silent m → (∀ a, silent (k a)) → silent (m ≫= k).
Proof.
  intros Hm Hk. apply appends_bind. eapply appends_mono; [done|].
  intros a l ->. apply Hk.
Qed.

Lemma bind_silent {A B} (m : M FwState A) (k : A → M FwState B) Q :
  silent m → (∀ a, appends (k a) Q) → appends (m ≫= k) Q.
Proof.
  intros Hm Hk. apply appends_bind. eapply appends_mono; [done|]. intros a l ->. apply Hk.
Qed.

Lemma silent_next_id : silent next_id.
Proof. intros s a s' [= <- <-]. exists []. unfold grows. by rewrite app_nil_r. Qed.
Lemma silent_read p off n : silent (read p off n).
Proof. unfold read. case_decide; [by apply appends_ret|apply appends_throw]. Qed.
Lemma silent_write off src p : silent (write off src p).
Proof. unfold write. destruct (memcpy _ _ _); [by apply appends_ret|apply appends_throw]. Qed.
Lemma silent_writes l p : silent (writes l p).
Proof.
  revert p. induction l as [|[off src] l IH]; intros p; cbn; [by apply appends_ret|].
  apply silent_bind; [apply silent_write|done].
Qed.
Lemma silent_lid_match F L : silent (lid_match F L).
Proof. unfold lid_match. destruct (bv_and F L); [by apply appends_ret|apply appends_throw]. Qed.
End appends_rules.

Create HintDb silent.
#[export] Hint Resolve silent_bind silent_next_id silent_read silent_write silent_writes
  silent_lid_match appends_throw : silent.
#[export] Hint Extern 1 (silent (mret _)) => (apply appends_ret; reflexivity) : silent.

Section accounting.
Context (gc : GlobalConf) (fwTable : list ForwardingEntry).
Context (in_cksum : bytes → Z) (in_cksum_pseudohdr : Z → bytes → Z → Z).

Lemma silent_finish_checksums p : silent (finish_checksums in_cksum in_cksum_pseudohdr p).
Proof. unfold finish_checksums. auto 10 with silent. Qed.
Hint Resolve silent_finish_checksums : silent.

Lemma silent_matching_links FID table : silent (matching_links FID table).
Proof. induction table; cbn; auto 10 with silent. Qed.

Lemma silent_loops_back p fe : silent (loops_back gc p fe).
Proof. unfold loops_back. destruct (use_mac gc); auto 10 with silent. Qed.
Hint Resolve silent_matching_links silent_loops_back : silent.

Lemma silent_forward_links FID p table : silent (forward_links gc FID p table).
Proof.
  induction table; cbn; [auto with silent|].
  apply silent_bind; [auto with silent|]. intros m.
  apply silent_bind; [destruct m; auto with silent|auto with silent].
Qed.

Lemma silent_frame_layout p : silent (frame_layout gc p).
Proof. unfold frame_layout. destruct (use_mac gc); auto 10 with silent. Qed.
Hint Resolve silent_forward_links silent_frame_layout : silent.

(** A copy for a link with an unknown protocol is not sent in MAC mode. *)
Definition leaked (fe : ForwardingEntry) : nat :=
  if use_mac gc && negb (fe_proto fe =? BA_PROTO) && negb (fe_proto fe =? SDN_PROTO) then 1%nat else 0%nat.

(** Sending on one link pushes the copy that was taken for it. *)
Lemma send_from_proxy_owned p fe :
  appends (send_from_proxy gc in_cksum in_cksum_pseudohdr p fe) (λ _ l,
    ∀ here n, owned l (here, S n) = Some (here, n + leaked fe)%nat).
Proof.
  unfold send_from_proxy, new_ip_packet, leaked. destruct (use_mac gc).
  - destruct (Z.eqb_spec (fe_proto fe) BA_PROTO); [|destruct (Z.eqb_spec (fe_proto fe) SDN_PROTO)]; cbn [negb andb].
    + apply bind_silent; [auto with silent|]. intros q. apply appends_emit. intros here k. cbn. by rewrite Nat.add_0_r.
    + apply bind_silent; [auto with silent|]. intros q. apply appends_emit. intros here k. cbn. by rewrite Nat.add_0_r.
    + apply appends_ret. intros here k. cbn. by rewrite Nat.add_1_r.
  - apply bind_silent; [auto 10 with silent|]. intros q. apply appends_emit. intros here k. cbn. by rewrite Nat.add_0_r.
Qed.

Lemma send_from_network_owned p proto fe :
  appends (send_from_network gc in_cksum in_cksum_pseudohdr p proto fe) (λ _ l,
    ∀ here n, owned l (here, S n) = Some (here, n + 0)%nat).
Proof.
  unfold send_from_network, forwarded_ip_packet.
  repeat case_match; (apply bind_silent; [auto 10 with silent|]);
    intros q; apply appends_emit; intros here n; cbn; by rewrite Nat.add_0_r.
Qed.

(** [send_all] gives the packet away with its last copy, unless it is kept. *)
Lemma send_all_owned send keep links (leak : ForwardingEntry → nat) :
  (∀ fe, fe ∈ links → appends (send fe) (λ _ l, ∀ here n, owned l (here, S n) = Some (here, n + leak fe)%nat)) →
  appends (send_all send keep links) (λ _ l, (links = [] → l = []) ∧
    ∀ n, owned l (true, n) = Some (bool_decide (links = []) || keep, n + sum_list (leak <$> links))%nat).
Proof.
  induction links as [|fe links IH]; intros Hsend; cbn [send_all].
  { apply appends_ret. split; [done|]. intros n. cbn. by rewrite Nat.add_0_r. }
  apply appends_bind. apply appends_emit. apply appends_bind.
  eapply appends_mono; [apply Hsend; left|]. intros [] l Hl.
  eapply appends_mono; [apply IH; intros; apply Hsend; by right|].
  intros [] l' [Hnil Hl']. split; [done|]. intros n. rewrite (bool_decide_false (fe :: links = [])) by done.
  rewrite fmap_cons. change (sum_list (leak fe :: (leak <$> links))) with (leak fe + sum_list (leak <$> links))%nat.
  destruct (decide (links = [])) as [->|Hne].
  - rewrite (Hnil eq_refl), app_nil_r, bool_decide_true by done. destruct keep; cbn [negb andb app owned own_step];
      rewrite Hl; cbn; do 2 f_equal; lia.
  - rewrite bool_decide_false by done. cbn [negb andb app owned own_step].
    rewrite owned_app, Hl, Hl', bool_decide_false by done. cbn [orb]. do 2 f_equal. lia.
Qed.

(** Looking for links changes nothing. *)
Lemma matching_links_pure FID table s links s' : matching_links FID table s = Ok (links, s') → s' = s.
Proof.
  revert links s'. induction table as [|fe table IH]; intros links s'; cbn [matching_links]; [by intros [= _ <-]|].
  unfold mbind, M_bind, lid_match. destruct (bv_and _ _); [|done]. cbn.
  destruct (matching_links FID table s) as [[rest s1]|] eqn:E; [|done]. intros [= _ <-]. by eapply IH.
Qed.

Lemma push_from_proxy_owned p s s' :
  push_from_proxy gc fwTable in_cksum in_cksum_pseudohdr p s = Ok (tt, s') →
  ∃ l links, grows s s' l ∧ matching_links (fid_of_bytes (take FID_LEN p)) fwTable s = Ok (links, s) ∧
    owned l (true, 0%nat) = Some (false, sum_list (leaked <$> links)).
Proof.
  unfold push_from_proxy, mbind at 1, M_bind at 1, read. case_decide; [|done]. cbn beta iota delta [mret M_ret].
  unfold mbind at 1, M_bind at 1. change (substr p 0 FID_LEN) with (take FID_LEN p).
  destruct (matching_links _ _ s) as [[links s1]|] eqn:E; [|done]. pose proof (matching_links_pure _ _ _ _ _ E) as ->.
  intros Hrun. cut (appends (_ ← (if bool_decide (links = []) then emit Kill else mret tt);
    send_all (send_from_proxy gc in_cksum in_cksum_pseudohdr p) false links)
    (λ _ l, owned l (true, 0%nat) = Some (false, sum_list (leaked <$> links)))).
  { intros Happ. destruct (Happ _ _ _ Hrun) as (l & Hl & Ho). by exists l, links. }
  apply appends_bind. apply (appends_mono _ (λ _ l, l = if bool_decide (links = []) then [Kill] else [])).
  { destruct (bool_decide _); [by apply appends_emit|by apply appends_ret]. }
  intros [] lk ->. eapply appends_mono; [apply (send_all_owned _ _ _ leaked); intros; apply send_from_proxy_owned|].
  intros [] l [Hnil Hl]. destruct (decide (links = [])) as [->|Hne].
  - by rewrite (Hnil eq_refl).
  - rewrite bool_decide_false by done. cbn [app]. by rewrite Hl, bool_decide_false.
Qed.

Lemma no_leaks (links : list ForwardingEntry) : sum_list ((λ _, 0%nat) <$> links) = 0%nat.
Proof. by induction links. Qed.

Lemma push_from_network_owned p :
  appends (push_from_network gc fwTable in_cksum in_cksum_pseudohdr p) (λ _ l, owned l (true, 0%nat) = Some (false, 0%nat)).
Proof.
  unfold push_from_network. apply bind_silent; [auto with silent|]. intros [off proto].
  apply bind_silent; [auto with silent|]. intros fid.
  set (z := zero _). apply appends_bind.
  apply (appends_mono _ (λ links l, l = [] ∧ (z = true → links = []))).
  { destruct z; [by apply appends_ret|].
    eapply appends_mono; [apply silent_forward_links|]. by intros ? ? ->. }
  intros links l [-> Hz]. apply bind_silent; [auto with silent|]. intros here.
  apply appends_bind. eapply (appends_mono _ (λ _ l, owned l (true, 0%nat) = Some (bool_decide (links = []) || here, 0%nat))).
  { destruct z; [apply appends_ret; by rewrite Hz|].
    eapply appends_mono; [apply (send_all_owned _ _ _ (λ _, 0%nat)); intros; apply send_from_network_owned|].
    intros [] l [_ Hl]. by rewrite Hl, no_leaks. }
  intros [] l Hl. destruct here.
  - apply appends_bind, appends_emit. rewrite andb_false_r. apply appends_ret.
    rewrite app_nil_r. cbn [app]. by rewrite owned_app, Hl, orb_true_r.
  - apply appends_bind, appends_ret. rewrite andb_true_r. rewrite orb_false_r in Hl.
    destruct (bool_decide _); [apply appends_emit|apply appends_ret]; cbn [app]; by rewrite owned_app, Hl.
Qed.
End accounting.

(** ** Frames between nodes *)

(** The addresses of a link are byte strings. *)
Definition entry_bytes (fe : ForwardingEntry) : Prop :=
  Forall is_byte (fe_src fe) ∧ Forall is_byte (fe_dst fe).

Lemma proto_of_ether fe q : entry_wf fe → known_proto fe →
  proto_of (ether_bytes fe ++ q) = fe_proto fe.
Proof.
  intros (_ & Hs & Hd) Hk. unfold proto_of, ether_bytes.
  destruct fe as [src dst ? ? ? ? proto]. cbn [fe_src fe_dst fe_proto] in *.
  unfold MAC_LEN in *. spell src. spell dst. by destruct Hk as [Hk|Hk]; cbn in Hk; subst proto.
Qed.

Lemma length_ether fe : entry_wf fe → length (ether_bytes fe) = 14%nat.
Proof. intros (_ & Hs & Hd). unfold ether_bytes. rewrite !length_app, Hs, Hd. done. Qed.

Lemma length_sdn fe n : entry_wf fe → length (sdn_bytes fe n) = 22%nat.
Proof. intros H. unfold sdn_bytes. by rewrite length_app, length_ether. Qed.

(** Both header formats, followed by [q], are parsed back to [q]. *)
Lemma parse_ether fe q : entry_wf fe → fe_proto fe = BA_PROTO →
  drop (fid_off (proto_of (ether_bytes fe ++ q))) (ether_bytes fe ++ q) = q.
Proof.
  intros Hfe Hp. rewrite proto_of_ether by (try left; done). rewrite Hp.
  by rewrite drop_app_length' by (by rewrite length_ether).
Qed.

Lemma parse_sdn fe n q : entry_wf fe → fe_proto fe = SDN_PROTO →
  drop (fid_off (proto_of (sdn_bytes fe n ++ q))) (sdn_bytes fe n ++ q) = q.
Proof.
  intros Hfe Hp. unfold sdn_bytes at 1. rewrite <-!app_assoc.
  rewrite proto_of_ether by (try right; done). rewrite Hp.
  by rewrite drop_app_length' by (by rewrite length_sdn).
Qed.

Lemma proxy_frame_parse fe p : entry_wf fe → known_proto fe →
  drop (fid_off (proto_of (proxy_frame fe p))) (proxy_frame fe p) = p.
Proof.
  intros Hfe Hk. unfold proxy_frame. destruct (Z.eqb_spec (fe_proto fe) BA_PROTO).
  - by apply parse_ether.
  - apply parse_sdn; [done|]. by destruct Hk.
Qed.

Lemma ether_bytes_ok fe : entry_bytes fe → Forall is_byte (ether_bytes fe).
Proof.
  intros [??]. unfold ether_bytes, be16. rewrite !Forall_app. split_and!; [done..|].
  repeat constructor; apply is_byte_u8.
Qed.

Lemma sdn_bytes_ok fe n : entry_bytes fe → Forall is_byte (sdn_bytes fe n).
Proof.
  intros H. unfold sdn_bytes, le16. rewrite !Forall_app.
  split_and!; [by apply ether_bytes_ok|..];
    repeat (apply Forall_cons; split; [apply is_byte_u8 || (unfold is_byte; lia)|]); by apply Forall_nil.
Qed.

Lemma proxy_frame_ok fe p : entry_bytes fe → Forall is_byte p → Forall is_byte (proxy_frame fe p).
Proof.
  intros He Hp. unfold proxy_frame. destruct (_ =? _); apply Forall_app; split;
    auto using ether_bytes_ok, sdn_bytes_ok.
Qed.

(** The FID is found where the parsed frame starts. *)
Lemma network_fid_body p :
  network_fid p = fid_of_bytes (take FID_LEN (drop (fid_off (proto_of p)) p)).
Proof. done. Qed.

Lemma delivered_body p : delivered p = drop FID_LEN (drop (fid_off (proto_of p)) p).
Proof. unfold delivered. by rewrite drop_drop. Qed.

(** The FID of a delivery tree is the union of the LIDs of its links. *)
Fixpoint union_lids (acc : BABitvector) (links : list ForwardingEntry) : option BABitvector :=
  match links with
  | [] => Some acc
  | fe :: links => match bv_or acc (fe_LID fe) with
                   | Some acc' => union_lids acc' links
                   | None => None
                   end
  end.

Lemma union_lids_spec acc links FID : fid_ok acc → Forall (λ fe, fid_ok (fe_LID fe)) links →
  union_lids acc links = Some FID →
  (∀ i, 0 ≤ i < fid_bits → bv_bit acc i = true → bv_bit FID i = true) ∧
  (∀ fe, fe ∈ links → lid_in FID (fe_LID fe) = true).
Proof.
  revert acc. induction links as [|fe links IH]; intros acc Hacc Hall; cbn [union_lids].
  { intros [= ->]. split; [done|]. intros fe Hin. by apply elem_of_nil in Hin. }
  inversion Hall as [|?? Hfe Hrest]; subst. destruct Hacc as [Hw Hm], Hfe as [Hw' Hm'].
  destruct (bv_or_spec acc (fe_LID fe) Hw Hw' ltac:(congruence)) as (r & -> & Hr & Hrm & Hrb).
  intros HFID. destruct (IH r) as [Hacc' Hin']; [by split; [|congruence]|done..|].
  assert (∀ i, 0 ≤ i < fid_bits → bv_bit acc i || bv_bit (fe_LID fe) i = true →
    bv_bit FID i = true) as Hboth.
  { intros i Hi Hb. apply Hacc'; [done|]. by rewrite Hrb by lia. }
  split.
  - intros i Hi Hb. apply Hboth; [done|]. by rewrite Hb.
  - intros fe' [->|Hin]%elem_of_cons; [|by apply Hin'].
    apply lid_in_spec. intros i Hi Hb. apply Hboth; [done|]. by rewrite Hb, orb_true_r.
Qed.

(** ** Properties *)

(** C23. Every packet is accounted for.  Whatever the mode, the table, the
    frame and the port, if Forwarder::push returns then the incoming packet is
    given away exactly once (freed, turned into the last copy, or delivered to
    the local proxy) and never used afterwards, and only copies that were
    taken of it are pushed.  Every copy is pushed, except on port 0 in MAC
    mode, where one copy is leaked for each link of the FID that has an
    unknown protocol. *)
Theorem packet_accounting gc fwTable in_cksum in_cksum_pseudohdr in_port p s s' :
  0 ≤ in_port →
  push gc fwTable in_cksum in_cksum_pseudohdr in_port p s = Ok (tt, s') →
  ∃ l leaks, fw_trace s' = fw_trace s ++ l ∧ owned l (true, 0%nat) = Some (false, leaks) ∧
    (in_port ≠ 0 ∨ use_mac gc = false → leaks = 0%nat) ∧
    (in_port = 0 → ∃ links, matching_links (fid_of_bytes (take FID_LEN p)) fwTable s = Ok (links, s) ∧
       leaks = sum_list (leaked gc <$> links)).
Proof.
  intros Hport. unfold push. destruct (Z.eqb_spec in_port 0) as [->|Hp0]; intros Hrun.
  - destruct (push_from_proxy_owned _ _ _ _ _ _ _ Hrun) as (l & links & Hl & Hm & Ho).
    exists l, (sum_list (leaked gc <$> links)). split_and!; [done..| |by eauto].
    intros [?|Hip]; [done|]. rewrite <-(no_leaks links). do 2 f_equal. unfold leaked. by rewrite Hip.
  - destruct (Z.geb_spec in_port 1); [|lia].
    destruct (push_from_network_owned _ _ _ _ _ _ _ _ Hrun) as (l & Hl & Ho).
    exists l, 0%nat. by split_and!.
Qed.

(** C21. No false negatives, in MAC mode.  Let a FID hold the union of the
    LIDs of a delivery tree.  A packet of the local proxy with that FID (port
    0, every link of the table having a known protocol) is pushed on each link
    of the tree that the node has, behind that link's header.  A frame of the
    network with that FID, not all ones (any other port, any protocols), is
    pushed on each link of the tree that the node has and that the frame did
    not come from, with the addresses of that link.  Neither faults. *)
Theorem no_false_negatives gc fwTable in_cksum in_cksum_pseudohdr tree acc :
  use_mac gc = true → Forall entry_wf fwTable → fid_ok (iLID gc) →
  Forall (λ fe, fid_ok (fe_LID fe)) tree → fid_ok acc →
  (∀ fid payload s, Forall known_proto fwTable →
     length fid = FID_LEN → Forall is_byte (fid ++ payload) →
     union_lids acc tree = Some (fid_of_bytes fid) →
     ∃ s', push gc fwTable in_cksum in_cksum_pseudohdr 0 (fid ++ payload) s = Ok (tt, s') ∧
       ∀ fe, fe ∈ tree → fe ∈ fwTable →
         Push (fe_port fe) (Some <$> proxy_frame fe (fid ++ payload)) ∈ fw_trace s') ∧
  (∀ in_port p s, 1 ≤ in_port → (fid_off (proto_of p) + FID_LEN ≤ length p)%nat → Forall is_byte p →
     union_lids acc tree = Some (network_fid p) → zero (negate (bv_copy (network_fid p))) = false →
     ∃ s', push gc fwTable in_cksum in_cksum_pseudohdr in_port p s = Ok (tt, s') ∧
       ∀ fe, fe ∈ tree → fe ∈ fwTable → from_link p fe = false →
         Push (fe_port fe) (Some <$> network_frame fe p) ∈ fw_trace s').
Proof.
  intros Hmac Htable HiLID Htree Hacc. split.
  - intros fid payload s Hproto Hfid Hb Hunion. unfold push. rewrite Z.eqb_refl.
    rewrite push_from_proxy_run; [|done..|rewrite length_app; lia|done].
    rewrite take_app_length' by done. eexists. split; [done|]. intros fe Hin Hin'.
    apply elem_of_app. right. apply elem_of_app. right.
    apply (elem_of_sends (λ fe, Push (fe_port fe) (Some <$> proxy_frame fe (fid ++ payload)))).
    apply list_elem_of_filter. split; [|done].
    eapply union_lids_spec; [apply Hacc|apply Htree|done|done].
  - intros in_port p s Hport Hlen Hb Hunion Hones. unfold push.
    destruct (Z.eqb_spec in_port 0); [lia|]. destruct (Z.geb_spec in_port 1); [|lia].
    rewrite push_from_network_run by done. eexists. split; [done|]. intros fe Hin Hin' Hfrom.
    apply elem_of_app. right. apply elem_of_app. left.
    apply (elem_of_sends (λ fe, Push (fe_port fe) (Some <$> network_frame fe p))).
    unfold network_links. rewrite Hones. apply list_elem_of_filter. split_and!; [|done|done].
    eapply union_lids_spec; [apply Hacc|apply Htree|done|done].
Qed.

(** One hop.  A packet of node A's proxy leaves on each matching link
    inside a frame that node B's forwarder, whatever its links, accepts: if
    the FID contains B's internal LID, B delivers to its local proxy exactly
    the bytes that follow the FID.  Both header formats are covered. *)
Theorem hop_roundtrip gcA tableA gcB tableB ck1 ck2 p fe sA sB :
  use_mac gcA = true → use_mac gcB = true →
  Forall entry_wf tableA → Forall known_proto tableA → Forall entry_bytes tableA →
  Forall entry_wf tableB → fid_ok (iLID gcB) →
  (FID_LEN ≤ length p)%nat → Forall is_byte p → fe ∈ tableA →
  lid_in (fid_of_bytes (take FID_LEN p)) (fe_LID fe) = true →
  lid_in (fid_of_bytes (take FID_LEN p)) (iLID gcB) = true →
  ∃ frame sA' sB',
    push gcA tableA ck1 ck2 0 p sA = Ok (tt, sA') ∧
    Push (fe_port fe) (Some <$> frame) ∈ fw_trace sA' ∧
    push gcB tableB ck1 ck2 1 frame sB = Ok (tt, sB') ∧
    Deliver (Some <$> drop FID_LEN p) ∈ fw_trace sB'.
Proof.
  intros HmA HmB HtA HpA HbA HtB HiB Hlen Hb Hfe Hmatch Hhere.
  rewrite !Forall_forall in HpA, HbA.
  assert (entry_wf fe) as Hwf by (rewrite Forall_forall in HtA; auto).
  pose proof (proxy_frame_parse fe p Hwf (HpA _ Hfe)) as Hparse.
  exists (proxy_frame fe p). unfold push. cbn [Z.eqb Z.geb Z.compare Pos.compare Pos.compare_cont].
  rewrite push_from_proxy_run; [|done|done|by rewrite Forall_forall|done|done].
  rewrite push_from_network_run; [|done..| |apply proxy_frame_ok; auto].
  2:{ apply (f_equal length) in Hparse. rewrite length_drop in Hparse. unfold FID_LEN in *. lia. }
  do 2 eexists. split; [done|]. split_and!; [|done|].
  - apply elem_of_app. right. apply elem_of_app. right.
    apply (elem_of_sends (λ fe, Push (fe_port fe) (Some <$> proxy_frame fe p))). by apply list_elem_of_filter.
  - apply elem_of_app. right. apply elem_of_app. right. apply elem_of_app. left.
    rewrite network_fid_body, Hparse, Hhere, delivered_body, Hparse. by left.
Qed.

(** C20. What a node does with a frame of the network, completely: the frame
    leaves, with the addresses of the link and converted between the two
    header formats where they differ, on exactly the links that are in the FID
    and that it did not come from, in table order (on none when the FID is
    all ones); it is delivered locally, without its headers and FID, exactly
    when the FID contains the internal LID, and it is freed otherwise if it
    was not sent.  No frame that holds a complete FID makes the code fault. *)
Theorem network_push_spec gc fwTable in_cksum in_cksum_pseudohdr in_port p s :
  use_mac gc = true → Forall entry_wf fwTable → fid_ok (iLID gc) → 1 ≤ in_port →
  (fid_off (proto_of p) + FID_LEN ≤ length p)%nat → Forall is_byte p →
  let here := lid_in (network_fid p) (iLID gc) in
  let links := if zero (negate (bv_copy (network_fid p))) then []
    else filter (λ fe, lid_in (network_fid p) (fe_LID fe) = true ∧ from_link p fe = false)
           fwTable in
  push gc fwTable in_cksum in_cksum_pseudohdr in_port p s = Ok (tt, mkFw (fw_id s) (fw_trace s ++
    sends (λ fe, Push (fe_port fe) (Some <$> network_frame fe p)) here links ++
    (if here then [Deliver (Some <$> delivered p)] else []) ++
    (if bool_decide (links = []) && negb here then [Kill] else []))).
Proof.
  intros Hmac Htable HiLID Hport Hlen Hb. unfold push.
  destruct (Z.eqb_spec in_port 0); [lia|]. destruct (Z.geb_spec in_port 1); [|lia].
  cbn zeta. by rewrite push_from_network_run.
Qed.

(** The frame for the next node holds what this node received. *)
Lemma network_frame_parse fe p : entry_wf fe → known_proto fe →
  proto_of p = BA_PROTO ∨ proto_of p = SDN_PROTO →
  (fid_off (proto_of p) + FID_LEN ≤ length p)%nat →
  proto_of (network_frame fe p) = fe_proto fe ∧
  drop (fid_off (proto_of (network_frame fe p))) (network_frame fe p)
    = drop (fid_off (proto_of p)) p.
Proof.
  intros Hfe Hk Hp Hlen.
  assert (fe_proto fe = proto_of p →
    proto_of ((fe_dst fe ++ fe_src fe) ++ drop 12 p) = fe_proto fe ∧
    drop (fid_off (proto_of p)) ((fe_dst fe ++ fe_src fe) ++ drop 12 p)
      = drop (fid_off (proto_of p)) p) as Hsame.
  { intros Heq. destruct Hfe as (_ & Hs & Hd).
    assert (length (fe_dst fe ++ fe_src fe) = 12%nat) as Hl by (rewrite length_app, Hs, Hd; done).
    split.
    - rewrite Heq. unfold proto_of, substr. rewrite drop_app_length' by done. done.
    - rewrite drop_app_ge by (rewrite Hl; unfold fid_off; case_match; lia).
      rewrite Hl, drop_drop. f_equal. unfold fid_off; case_match; lia. }
  unfold network_frame. destruct Hk as [Hk|Hk], Hp as [Hp|Hp]; rewrite Hk, Hp in *;
    cbn [Z.eqb BA_PROTO SDN_PROTO Pos.eqb andb].
  - destruct (Hsame eq_refl) as [-> ->]. done.
  - split; [rewrite proto_of_ether by (try left; done); done|]. by rewrite parse_ether.
  - split; [|by rewrite parse_sdn]. unfold sdn_bytes. rewrite <-!app_assoc.
    by rewrite proto_of_ether by (try right; done).
  - destruct (Hsame eq_refl) as [-> ->]. done.
Qed.

(** Forwarding is transparent: whatever the formats of the incoming frame
    and of the outgoing link (Blackadder or SDN), the next node finds in the
    frame the same FID and payload that this node received. *)
Theorem forwarding_transparent fe p : entry_wf fe → known_proto fe →
  proto_of p = BA_PROTO ∨ proto_of p = SDN_PROTO →
  (fid_off (proto_of p) + FID_LEN ≤ length p)%nat →
  proto_of (network_frame fe p) = fe_proto fe ∧
  drop (fid_off (proto_of (network_frame fe p))) (network_frame fe p)
    = drop (fid_off (proto_of p)) p.
Proof. apply network_frame_parse. Qed.

(** The length field of the IPv6-like header that Forwarder::push writes
    for a packet of the local proxy is 14 less than the number of payload
    bytes that follow the FID: the source subtracts the length of an Ethernet
    header that the packet does not have yet. *)
Theorem sdn_length_field_short fe p : entry_wf fe → fe_proto fe = SDN_PROTO →
  46 ≤ Z.of_nat (length p) < 65536 →
  substr (proxy_frame fe p) 18 2 = le16 (Z.of_nat (length (drop FID_LEN p)) - 14).
Proof.
  intros (_ & Hs & Hd) Hproto Hlen. unfold proxy_frame. rewrite Hproto. cbn [Z.eqb].
  rewrite length_drop. unfold FID_LEN.
  replace (Z.of_nat (length p - 32) - 14) with (u16 (Z.of_nat (length p) - 14 - 32))
    by (unfold u16; rewrite Z.mod_small by lia; lia).
  destruct fe as [src dst ? ? ? ? proto]. cbn [fe_src fe_dst fe_proto] in *. subst proto.
  unfold MAC_LEN in *. spell src. spell dst. reflexivity.
Qed.

(** ** Witnesses *)

Definition one_hot_bytes (k : nat) : bytes :=
  <[(k / 8)%nat := 2 ^ Z.of_nat (k mod 8)]> (replicate 32 0).
Definition one_hot (k : nat) : BABitvector := fid_of_bytes (one_hot_bytes k).

Definition example_gc (mac : bool) (k : nat) : GlobalConf :=
  mkGC true false false [] (one_hot 0) (one_hot k) (one_hot 0) mac
    [] [] [] [] [] [] [] [] [] [] [] [] 0.

(** A Blackadder link with LID bit 3 and an SDN link with LID bit 100. *)
Definition example_table : list ForwardingEntry :=
  [mkFE [0; 0; 0; 0; 0; 1] [0; 0; 0; 0; 0; 2] [] [] 1 (one_hot 3) BA_PROTO;
   mkFE [0; 0; 0; 0; 0; 3] [0; 0; 0; 0; 0; 4] [] [] 2 (one_hot 100) SDN_PROTO].

(** The FID with bits 3, 9 and 100, and a payload. *)
Definition example_fid : bytes := <[12%nat := 16]> (<[1%nat := 2]> (one_hot_bytes 3)).
Definition example_payload : bytes := Z.of_nat <$> seq 7 20.

Definition zero_cksum (_ : bytes) : Z := 0.
Definition zero_cksum_pseudo (_ : Z) (_ : bytes) (_ : Z) : Z := 0.

Ltac fid_ok_compute := split; [apply bv_wfb_sound; vm_compute; reflexivity|reflexivity].
Ltac bytes_compute :=
  vm_compute; repeat (apply Forall_cons; split; [split; [discriminate|reflexivity]|]);
  apply Forall_nil; exact I.
Ltac entries_compute tac :=
  repeat (apply Forall_cons; split; [tac|]); apply Forall_nil; exact I.

Lemma packet_accounting_witness :
  ∃ s' l, push (example_gc true 9) example_table zero_cksum zero_cksum_pseudo 0
      (example_fid ++ example_payload) (mkFw 0 []) = Ok (tt, s') ∧
    fw_trace s' = l ∧ length l = 4%nat ∧ owned l (true, 0%nat) = Some (false, 0%nat).
Proof.
  eexists _, _. split; [vm_compute; reflexivity|]. split; [reflexivity|]. split; [vm_compute; reflexivity|].
  edestruct (packet_accounting (example_gc true 9) example_table zero_cksum zero_cksum_pseudo 0
    (example_fid ++ example_payload) (mkFw 0 [])) as (l & leaks & Hl & Ho & _ & Hp);
    [discriminate|vm_compute; reflexivity|].
  destruct (Hp eq_refl) as (links & Hlinks & Hleaks). vm_compute in Hlinks. injection Hlinks as <-.
  vm_compute in Hleaks. subst leaks. cbn [fw_trace app] in Hl. subst l. exact Ho.
Defined.

Lemma no_false_negatives_witness :
  let p := [0; 0; 0; 0; 0; 9] ++ [0; 0; 0; 0; 0; 8] ++ be16 BA_PROTO ++ example_fid ++ example_payload in
  (∃ s', push (example_gc true 9) example_table zero_cksum zero_cksum_pseudo 0
      (example_fid ++ example_payload) (mkFw 0 []) = Ok (tt, s') ∧
    ∀ fe, fe ∈ example_table → fe ∈ example_table →
      Push (fe_port fe) (Some <$> proxy_frame fe (example_fid ++ example_payload)) ∈ fw_trace s') ∧
  (∃ s', push (example_gc true 9) example_table zero_cksum zero_cksum_pseudo 1 p (mkFw 0 []) = Ok (tt, s') ∧
    ∀ fe, fe ∈ example_table → fe ∈ example_table → from_link p fe = false →
      Push (fe_port fe) (Some <$> network_frame fe p) ∈ fw_trace s').
Proof.
  intros p.
  destruct (no_false_negatives (example_gc true 9) example_table zero_cksum zero_cksum_pseudo
    example_table (one_hot 9)) as [Hproxy Hnet].
  - reflexivity.
  - entries_compute ltac:(split_and!; [fid_ok_compute|reflexivity..]).
  - fid_ok_compute.
  - entries_compute ltac:(fid_ok_compute).
  - fid_ok_compute.
  - split; [apply Hproxy|apply Hnet].
    + entries_compute ltac:(first [left; reflexivity|right; reflexivity]).
    + reflexivity.
    + bytes_compute.
    + vm_compute. reflexivity.
    + lia.
    + vm_compute. lia.
    + bytes_compute.
    + vm_compute. reflexivity.
    + vm_compute. reflexivity.
Defined.

Lemma hop_roundtrip_witness :
  ∃ frame sA' sB',
    push (example_gc true 0) example_table zero_cksum zero_cksum_pseudo 0
      (example_fid ++ example_payload) (mkFw 0 []) = Ok (tt, sA') ∧
    Push 2 (Some <$> frame) ∈ fw_trace sA' ∧
    push (example_gc true 9) [] zero_cksum zero_cksum_pseudo 1 frame (mkFw 0 []) = Ok (tt, sB') ∧
    Deliver (Some <$> example_payload) ∈ fw_trace sB'.
Proof.
  apply (hop_roundtrip (example_gc true 0) example_table (example_gc true 9) [] zero_cksum
    zero_cksum_pseudo (example_fid ++ example_payload)
    (mkFE [0; 0; 0; 0; 0; 3] [0; 0; 0; 0; 0; 4] [] [] 2 (one_hot 100) SDN_PROTO)).
  - reflexivity.
  - reflexivity.
  - entries_compute ltac:(split_and!; [fid_ok_compute|reflexivity..]).
  - entries_compute ltac:(first [left; reflexivity|right; reflexivity]).
  - entries_compute ltac:(split; bytes_compute).
  - by apply Forall_nil.
  - fid_ok_compute.
  - vm_compute. lia.
  - bytes_compute.
  - right. left.
  - vm_compute. reflexivity.
  - vm_compute. reflexivity.
Defined.

Lemma network_push_spec_witness :
  let p := [0; 0; 0; 0; 0; 9] ++ [0; 0; 0; 0; 0; 8] ++ be16 BA_PROTO ++ example_fid ++
           example_payload in
  ∃ s', push (example_gc true 9) example_table zero_cksum zero_cksum_pseudo 1 p (mkFw 0 [])
      = Ok (tt, s') ∧ length (fw_trace s') = 5%nat ∧
    Deliver (Some <$> example_payload) ∈ fw_trace s'.
Proof.
  intros p. eexists. split.
  - apply (network_push_spec (example_gc true 9) example_table zero_cksum zero_cksum_pseudo 1 p).
    + reflexivity.
    + entries_compute ltac:(split_and!; [fid_ok_compute|reflexivity..]).
    + fid_ok_compute.
    + lia.
    + vm_compute. lia.
    + bytes_compute.
  - split; [vm_compute; reflexivity|]. vm_compute. do 4 right. left.
Defined.

Lemma forwarding_transparent_witness :
  let fe := mkFE [0; 0; 0; 0; 0; 3] [0; 0; 0; 0; 0; 4] [] [] 2 (one_hot 100) SDN_PROTO in
  let p := [0; 0; 0; 0; 0; 9] ++ [0; 0; 0; 0; 0; 8] ++ be16 BA_PROTO ++ example_fid ++
           example_payload in
  proto_of (network_frame fe p) = SDN_PROTO ∧
  drop 22 (network_frame fe p) = example_fid ++ example_payload.
Proof.
  intros fe p. apply (forwarding_transparent fe p).
  - split_and!; [fid_ok_compute|reflexivity..].
  - right. reflexivity.
  - left. reflexivity.
  - vm_compute. lia.
Defined.

Lemma sdn_length_field_short_witness :
  let fe := mkFE [0; 0; 0; 0; 0; 3] [0; 0; 0; 0; 0; 4] [] [] 2 (one_hot 100) SDN_PROTO in
  substr (proxy_frame fe (example_fid ++ example_payload)) 18 2 = [6; 0] ∧
  length example_payload = 20%nat.
Proof.
  intros fe. split; [|reflexivity].
  refine (eq_trans (sdn_length_field_short fe (example_fid ++ example_payload) _ _ _) _).
  - split_and!; [fid_ok_compute|reflexivity..].
  - reflexivity.
  - vm_compute. split; [discriminate|reflexivity].
  - vm_compute. reflexivity.
Defined.
