(* ===== verification/InfoGraph.v ===== *)
(** * The information graph (src: scope, informationitem, remotehost)

    The rendezvous point keeps scopes and information items as heap objects
    that point to each other: a scope knows its father scopes, its children
    and its items, an item its fathers, and both a table from their full
    identifiers (one for each path from a root) to the hosts that publish and
    subscribe under that identifier.  Here the heap is a [Store]: a [gmap]
    from pointers to objects for each class, next to the index tables of the
    LocalRV element.  A method is a computation in the monad of
    [Prelude] on the store and the trace of packets; following a pointer to a
    freed object faults with [Dangling].

    First the objects and the methods of Scope and InformationItem; then the
    well-formedness of a store and what each method does to it. *)
From stdpp Require Import base list gmap sets.
From Stdlib Require Import ZArith Lia.
From S2P Require Import Prelude Enums.

(** ** Objects *)

(** The publishers and the subscribers under one identifier. *)
Record RemoteHostPair := mkPair { first : gset positive; second : gset positive }.
Notation IdsHashMap := (gmap bytes RemoteHostPair).

Record Scope := mkScope {
  sc_ids : IdsHashMap;
  isRoot : bool;
  sc_fathers : gset positive;
  childrenScopes : gset positive;
  informationitems : gset positive;
  sc_strategy : Z;
}.

Record InformationItem := mkItem {
  it_ids : IdsHashMap;
  it_fathers : gset positive;
  it_strategy : Z;
}.

Record RemoteHost := mkHost {
  remoteHostID : bytes;
  publishedScopes : gset bytes;
  publishedInformationItems : gset bytes;
  subscribedScopes : gset bytes;
  subscribedInformationItems : gset bytes;
}.

(** The heap and the tables of LocalRV. *)
Record Store := mkStore {
  scopes : gmap positive Scope;
  items : gmap positive InformationItem;
  hosts : gmap positive RemoteHost;
  scopeIndex : gmap bytes positive;
  pubIndex : gmap bytes positive;
  pub_sub_Index : gmap bytes positive;
  known_rootscopes : gset bytes;
  localProxy : option positive;
}.

Definition empty_store : Store := mkStore ∅ ∅ ∅ ∅ ∅ ∅ ∅ None.

(** A packet is pushed to output 0, or the incoming packet is freed. *)
Inductive rv_event := Send (p : buffer) | Killed.

Record rv := mkRv { st : Store; out : list rv_event }.

(** *** Updates of one table *)
Definition set_scopes (f : gmap positive Scope → gmap positive Scope) (s : Store) : Store :=
  mkStore (f (scopes s)) (items s) (hosts s) (scopeIndex s) (pubIndex s) (pub_sub_Index s)
    (known_rootscopes s) (localProxy s).
Definition set_items (f : gmap positive InformationItem → gmap positive InformationItem)
    (s : Store) : Store :=
  mkStore (scopes s) (f (items s)) (hosts s) (scopeIndex s) (pubIndex s) (pub_sub_Index s)
    (known_rootscopes s) (localProxy s).
Definition set_hosts (f : gmap positive RemoteHost → gmap positive RemoteHost) (s : Store) : Store :=
  mkStore (scopes s) (items s) (f (hosts s)) (scopeIndex s) (pubIndex s) (pub_sub_Index s)
    (known_rootscopes s) (localProxy s).
Definition set_scopeIndex (f : gmap bytes positive → gmap bytes positive) (s : Store) : Store :=
  mkStore (scopes s) (items s) (hosts s) (f (scopeIndex s)) (pubIndex s) (pub_sub_Index s)
    (known_rootscopes s) (localProxy s).
Definition set_pubIndex (f : gmap bytes positive → gmap bytes positive) (s : Store) : Store :=
  mkStore (scopes s) (items s) (hosts s) (scopeIndex s) (f (pubIndex s)) (pub_sub_Index s)
    (known_rootscopes s) (localProxy s).
Definition set_pub_sub_Index (f : gmap bytes positive → gmap bytes positive) (s : Store) : Store :=
  mkStore (scopes s) (items s) (hosts s) (scopeIndex s) (pubIndex s) (f (pub_sub_Index s))
    (known_rootscopes s) (localProxy s).
Definition set_known (f : gset bytes → gset bytes) (s : Store) : Store :=
  mkStore (scopes s) (items s) (hosts s) (scopeIndex s) (pubIndex s) (pub_sub_Index s)
    (f (known_rootscopes s)) (localProxy s).
Definition set_localProxy (o : option positive) (s : Store) : Store :=
  mkStore (scopes s) (items s) (hosts s) (scopeIndex s) (pubIndex s) (pub_sub_Index s)
    (known_rootscopes s) o.

Definition with_ids (f : IdsHashMap → IdsHashMap) (sc : Scope) : Scope :=
  mkScope (f (sc_ids sc)) (isRoot sc) (sc_fathers sc) (childrenScopes sc) (informationitems sc)
    (sc_strategy sc).
Definition with_fathers (f : gset positive → gset positive) (sc : Scope) : Scope :=
  mkScope (sc_ids sc) (isRoot sc) (f (sc_fathers sc)) (childrenScopes sc) (informationitems sc)
    (sc_strategy sc).
Definition with_children (f : gset positive → gset positive) (sc : Scope) : Scope :=
  mkScope (sc_ids sc) (isRoot sc) (sc_fathers sc) (f (childrenScopes sc)) (informationitems sc)
    (sc_strategy sc).
Definition with_items (f : gset positive → gset positive) (sc : Scope) : Scope :=
  mkScope (sc_ids sc) (isRoot sc) (sc_fathers sc) (childrenScopes sc) (f (informationitems sc))
    (sc_strategy sc).
Definition it_with_ids (f : IdsHashMap → IdsHashMap) (it : InformationItem) : InformationItem :=
  mkItem (f (it_ids it)) (it_fathers it) (it_strategy it).
Definition it_with_fathers (f : gset positive → gset positive) (it : InformationItem)
    : InformationItem :=
  mkItem (it_ids it) (f (it_fathers it)) (it_strategy it).

(** *** The heap *)
Definition get_st : M rv Store := s ← get; mret (st s).
Definition mod_st (f : Store → Store) : M rv unit := modify (λ s, mkRv (f (st s)) (out s)).
Definition push_event (e : rv_event) : M rv unit := modify (λ s, mkRv (st s) (out s ++ [e])).

Definition live {A} (o : option A) : M rv A :=
  match o with Some a => mret a | None => throw Dangling end.

Definition get_scope (p : positive) : M rv Scope := s ← get_st; live (scopes s !! p).
Definition get_item (p : positive) : M rv InformationItem := s ← get_st; live (items s !! p).
Definition get_host (p : positive) : M rv RemoteHost := s ← get_st; live (hosts s !! p).

Definition mod_scope (p : positive) (f : Scope → Scope) : M rv unit :=
  sc ← get_scope p; mod_st (set_scopes (insert p (f sc))).
Definition mod_item (p : positive) (f : InformationItem → InformationItem) : M rv unit :=
  it ← get_item p; mod_st (set_items (insert p (f it))).
Definition mod_host (p : positive) (f : RemoteHost → RemoteHost) : M rv unit :=
  h ← get_host p; mod_st (set_hosts (insert p (f h))).

(** [new Scope(strategy, NULL)] and [new Scope(strategy, father)] *)
Definition new_root_scope (strategy : Z) : M rv positive :=
  s ← get_st;
  let p := fresh (dom (scopes s)) in
  _ ← mod_st (set_scopes (insert p (mkScope ∅ true ∅ ∅ ∅ strategy)));
  mret p.

Definition new_scope (strategy : Z) (father : positive) : M rv positive :=
  s ← get_st;
  let p := fresh (dom (scopes s)) in
  _ ← mod_st (set_scopes (insert p (mkScope ∅ false {[father]} ∅ ∅ strategy)));
  _ ← mod_scope father (with_children (λ X, {[p]} ∪ X));
  mret p.

(** [new InformationItem(strategy, father)] *)
Definition new_item (strategy : Z) (father : positive) : M rv positive :=
  s ← get_st;
  let p := fresh (dom (items s)) in
  _ ← mod_st (set_items (insert p (mkItem ∅ {[father]} strategy)));
  _ ← mod_scope father (with_items (λ X, {[p]} ∪ X));
  mret p.

(** [new RemoteHost(nodeID)] *)
Definition new_host (nodeID : bytes) : M rv positive :=
  s ← get_st;
  let p := fresh (dom (hosts s)) in
  _ ← mod_st (set_hosts (insert p (mkHost nodeID ∅ ∅ ∅ ∅)));
  mret p.

(** ** Identifiers *)

(** The last fragment of an identifier. *)
Definition suffix (id : bytes) : bytes :=
  substr id (length id - PURSUIT_ID_LEN) PURSUIT_ID_LEN.

(** Everything but the last fragment. *)
Definition prefix (id : bytes) : bytes := take (length id - PURSUIT_ID_LEN) id.

(** ** Tables of identifiers *)

(** updatePublishers of both classes: the new table, and whether the
    publisher was new. *)
Definition update_first (fullID : bytes) (h : positive) (ids : IdsHashMap)
    : bool * IdsHashMap :=
  match ids !! fullID with
  | Some pr =>
      if decide (h ∈ first pr) then (false, ids)
      else (true, <[fullID := mkPair ({[h]} ∪ first pr) (second pr)]> ids)
  | None => (true, <[fullID := mkPair {[h]} ∅]> ids)
  end.

(** InformationItem::updateSubscribers *)
Definition update_second (fullID : bytes) (h : positive) (ids : IdsHashMap)
    : bool * IdsHashMap :=
  match ids !! fullID with
  | Some pr =>
      if decide (h ∈ second pr) then (false, ids)
      else (true, <[fullID := mkPair (first pr) ({[h]} ∪ second pr)]> ids)
  | None => (true, <[fullID := mkPair ∅ {[h]}]> ids)
  end.

(** Scope::updateSubscribers answers [true] also for a known subscriber. *)
Definition update_second_always (fullID : bytes) (h : positive) (ids : IdsHashMap)
    : bool * IdsHashMap := (true, snd (update_second fullID h ids)).

(** The union over all identifiers of the subscribers, of the publishers. *)
Definition all_second (ids : IdsHashMap) : gset positive :=
  ⋃ (second <$> (map_to_list ids).*2).
Definition all_first (ids : IdsHashMap) : gset positive :=
  ⋃ (first <$> (map_to_list ids).*2).

Definition pair_empty (pr : RemoteHostPair) : bool :=
  bool_decide (first pr = ∅) && bool_decide (second pr = ∅).

Section methods.
Context `{HO : HashOrder}.

Definition Scope_update (upd : bytes → positive → IdsHashMap → bool * IdsHashMap)
    (p : positive) (fullID : bytes) (h : positive) : M rv bool :=
  sc ← get_scope p;
  let '(new, ids) := upd fullID h (sc_ids sc) in
  _ ← mod_scope p (with_ids (λ _, ids));
  mret new.

Definition Scope_updatePublishers := Scope_update update_first.
Definition Scope_updateSubscribers := Scope_update update_second_always.

Definition InformationItem_update (upd : bytes → positive → IdsHashMap → bool * IdsHashMap)
    (p : positive) (fullID : bytes) (h : positive) : M rv bool :=
  it ← get_item p;
  let '(new, ids) := upd fullID h (it_ids it) in
  _ ← mod_item p (it_with_ids (λ _, ids));
  mret new.

Definition InformationItem_updatePublishers := InformationItem_update update_first.
Definition InformationItem_updateSubscribers := InformationItem_update update_second.

Definition getIDs (sc : Scope) : gset bytes := dom (sc_ids sc).
Definition Scope_getSubscribers (sc : Scope) : gset positive := all_second (sc_ids sc).
Definition InformationItem_getSubscribers (it : InformationItem) : gset positive :=
  all_second (it_ids it).
Definition getPublishers (it : InformationItem) : gset positive := all_first (it_ids it).
Definition getRootScopes (it : InformationItem) : gset bytes :=
  set_map (take PURSUIT_ID_LEN) (dom (it_ids it)).

(** The last fragment of the identifier at [ids.begin()]. *)
Definition first_suffix (ids : IdsHashMap) : M rv bytes :=
  id ← begin_of (dom ids); mret (suffix id).

(** One father of InformationItem::updateIDs and of
    Scope::recursivelyUpdateIDs: the identifiers below that father. *)
Definition add_item_id (p : positive) (fullID : bytes) : M rv unit :=
  it ← get_item p;
  match it_ids it !! fullID with
  | Some _ => mret tt
  | None =>
      _ ← mod_st (set_pubIndex (insert fullID p));
      mod_item p (it_with_ids (insert fullID (mkPair ∅ ∅)))
  end.

Definition updateIDs (p : positive) (suffixID : bytes) : M rv unit :=
  it ← get_item p;
  for_each (ptr_order (it_fathers it)) (λ f,
    fa ← get_scope f;
    for_each (str_order (dom (sc_ids fa))) (λ id, add_item_id p (id ++ suffixID))).

(** An insertion into the table that the loop runs over ([p] is its own
    father) invalidates the iterator. *)
Definition add_scope_id (p f : positive) (fullID : bytes) : M rv unit :=
  sc ← get_scope p;
  match sc_ids sc !! fullID with
  | Some _ => mret tt
  | None =>
      if decide (f = p) then throw IterInvalidated else
      _ ← mod_st (set_scopeIndex (insert fullID p));
      mod_scope p (with_ids (insert fullID (mkPair ∅ ∅)))
  end.

Definition updateScopeIDs (p : positive) (suffixID : bytes) : M rv unit :=
  sc ← get_scope p;
  for_each (ptr_order (sc_fathers sc)) (λ f,
    fa ← get_scope f;
    for_each (str_order (dom (sc_ids fa))) (λ id, add_scope_id p f (id ++ suffixID))).

(** Scope::recursivelyUpdateIDs; [fuel] bounds the depth of the recursion. *)
Fixpoint recursivelyUpdateIDs (fuel : nat) (p : positive) (suffixID : bytes) : M rv unit :=
  match fuel with
  | O => throw StackOverflow
  | S fuel =>
      _ ← updateScopeIDs p suffixID;
      sc ← get_scope p;
      _ ← for_each (ptr_order (childrenScopes sc)) (λ c,
            ch ← get_scope c;
            sfx ← first_suffix (sc_ids ch);
            recursivelyUpdateIDs fuel c sfx);
      for_each (ptr_order (informationitems sc)) (λ i,
        it ← get_item i;
        sfx ← first_suffix (it_ids it);
        updateIDs i sfx)
  end.

(** checkForOtherPubSub below a father, of both classes *)
Fixpoint other_below (ids : IdsHashMap) (sfx : bytes) (fids : list bytes) : M rv bool :=
  match fids with
  | [] => mret false
  | id :: fids =>
      pr ← deref (ids !! (id ++ sfx));
      if pair_empty pr then other_below ids sfx fids else mret true
  end.

Definition checkForOtherPubSub (ids : IdsHashMap) (father : positive) : M rv bool :=
  sfx ← first_suffix ids;
  fa ← get_scope father;
  other_below ids sfx (str_order (dom (sc_ids fa))).

(** checkForOtherPubSub(NULL): a root scope *)
Definition checkForOtherPubSub_root (ids : IdsHashMap) : bool :=
  negb (forallb pair_empty (map_to_list ids).*2).
End methods.
