(* ===== verification/GraphInv.v ===== *)
(** * Well-formedness of the information graph

    Scopes and items are seen uniformly as nodes of a graph whose edges are
    the father pointers.  A store is well formed when the index tables, the
    identifier tables of the nodes and the pointers in both directions agree:
    every node has a last fragment of its own among its siblings ([sf]), and
    its identifiers are exactly the identifiers of its fathers extended by
    that fragment (or that fragment alone, for a root).  The nodes in [D] may
    lack identifiers, and the one in [E] may have none: that is the state in
    which Scope::recursivelyUpdateIDs works.

    The changes that the methods make to the graph are relations between
    stores ([added], [linked], [deleted], ...), each with the lemma that it
    preserves well-formedness. *)
From stdpp Require Import base list gmap sets.
From Stdlib Require Import ZArith Lia.
From S2P Require Import Prelude Enums InfoGraph.

(** ** Nodes *)
Inductive node := NS (p : positive) | NI (p : positive).

#[export] Instance node_eq_dec : EqDecision node.
Proof. solve_decision. Defined.

Definition nids (s : Store) (n : node) : option IdsHashMap :=
  match n with
  | NS p => sc_ids <$> scopes s !! p
  | NI p => it_ids <$> items s !! p
  end.

Definition pair_at (s : Store) (n : node) (id : bytes) : option RemoteHostPair :=
  ids ← nids s n; ids !! id.

Definition has (s : Store) (n : node) (id : bytes) : Prop := is_Some (pair_at s n id).

Definition nfathers (s : Store) (n : node) : option (gset positive) :=
  match n with
  | NS p => sc_fathers <$> scopes s !! p
  | NI p => it_fathers <$> items s !! p
  end.

Definition alive (s : Store) (n : node) : Prop := is_Some (nfathers s n).

Definition father (s : Store) (n : node) (f : positive) : Prop :=
  ∃ F, nfathers s n = Some F ∧ f ∈ F.

(** The scope [f] lists the node [n] among its children or items. *)
Definition kid (s : Store) (f : positive) (n : node) : Prop :=
  ∃ fa, scopes s !! f = Some fa ∧
    match n with
    | NS p => p ∈ childrenScopes fa
    | NI p => p ∈ informationitems fa
    end.

Definition idx (s : Store) (n : node) (id : bytes) : Prop :=
  match n with
  | NS p => scopeIndex s !! id = Some p
  | NI p => pubIndex s !! id = Some p
  end.

Definition root (s : Store) (n : node) : Prop :=
  match n with
  | NS p => ∃ sc, scopes s !! p = Some sc ∧ isRoot sc = true
  | NI _ => False
  end.

Lemma alive_nids s n : alive s n ↔ is_Some (nids s n).
Proof. unfold alive. destruct n; simpl; by rewrite !fmap_is_Some. Qed.

Lemma has_alive s n id : has s n id → alive s n.
Proof.
  intros [pr Hpr]. apply alive_nids. unfold pair_at in Hpr.
  destruct (nids s n); [eauto|done].
Qed.

Lemma father_alive s n f : father s n f → alive s n.
Proof. intros (F & HF & _). by exists F. Qed.

(** ** Well-formed stores *)
Record wf (D : node → Prop) (E : option node) (sf : node → bytes) (s : Store) : Prop := {
  wf_idx n id : has s n id ↔ idx s n id;
  wf_disj n m id : has s n id → has s m id → n = m;
  wf_kid f n : kid s f n ↔ father s n f;
  wf_father n f : father s n f → alive s (NS f);
  wf_root n : alive s n → (root s n ↔ ∀ f, ¬ father s n f);
  wf_root_ids n id : root s n → has s n id ↔ id = sf n;
  wf_len n : alive s n → length (sf n) = PURSUIT_ID_LEN;
  wf_sound n id : has s n id → root s n ∨
    ∃ f fid, father s n f ∧ has s (NS f) fid ∧ id = fid ++ sf n;
  wf_complete n f fid : father s n f → has s (NS f) fid → ¬ D n → has s n (fid ++ sf n);
  wf_uniq n m f : father s n f → father s m f → sf n = sf m → n = m;
  wf_ne n : alive s n → E ≠ Some n → ∃ id, has s n id;
}.

Section wf_facts.
Context (D : node → Prop) (E : option node) (sf : node → bytes) (s : Store) (Hwf : wf D E sf s).

Lemma wf_long n id : has s n id → PURSUIT_ID_LEN ≤ length id.
Proof.
  intros H. destruct (wf_sound _ _ _ _ Hwf _ _ H) as [Hr|(f & fid & Hf & Hfid & ->)].
  - pose proof (proj1 (wf_root_ids _ _ _ _ Hwf _ _ Hr) H) as ->.
    by rewrite (wf_len _ _ _ _ Hwf) by (eapply has_alive, H).
  - rewrite length_app, (wf_len _ _ _ _ Hwf n) by eauto using has_alive. lia.
Qed.

(** An identifier determines the last fragment. *)
Lemma wf_suffix n id : has s n id → suffix id = sf n.
Proof.
  intros H. pose proof (wf_len _ _ _ _ Hwf n (has_alive _ _ _ H)) as Hlen.
  unfold suffix, substr. destruct (wf_sound _ _ _ _ Hwf _ _ H) as [Hr|(f & fid & Hf & Hfid & ->)].
  - pose proof (proj1 (wf_root_ids _ _ _ _ Hwf _ _ Hr) H) as ->.
    rewrite Hlen. simpl. by rewrite drop_0, <-Hlen, firstn_all.
  - rewrite length_app, Hlen, Nat.add_sub, drop_app_length. by rewrite <-Hlen, firstn_all.
Qed.

(** The identifier below a father belongs to at most the one child. *)
Lemma wf_below n f fid m : father s n f → has s (NS f) fid → has s m (fid ++ sf n) → m = n.
Proof.
  intros Hn Hfid Hm. pose proof (wf_len _ _ _ _ Hwf n (father_alive _ _ _ Hn)) as Hlen.
  destruct (wf_sound _ _ _ _ Hwf _ _ Hm) as [Hr|(g & gid & Hg & Hgid & Heq)].
  - pose proof (proj1 (wf_root_ids _ _ _ _ Hwf _ _ Hr) Hm) as Heq.
    pose proof (wf_len _ _ _ _ Hwf m (has_alive _ _ _ Hm)) as Hlenm.
    pose proof (wf_long _ _ Hfid). rewrite <-Heq, length_app, Hlen in Hlenm.
    unfold PURSUIT_ID_LEN in *. lia.
  - apply app_inj_2 in Heq as [<- Hsf];
      [|by rewrite Hlen, (wf_len _ _ _ _ Hwf m (has_alive _ _ _ Hm))].
    pose proof (wf_disj _ _ _ _ Hwf _ _ _ Hfid Hgid) as [= ->].
    symmetry. by eapply (wf_uniq _ _ _ _ Hwf).
Qed.
End wf_facts.

(** [wf] is monotone in the set of incomplete nodes. *)
Lemma wf_mono (D D' : node → Prop) E sf s :
  wf D E sf s → (∀ n, D n → D' n) → wf D' E sf s.
Proof.
  intros [] HD. constructor; try done.
  intros n f fid Hf Hfid HD'. apply wf_complete0 with f; auto.
Qed.

(** Only the last fragments of live nodes matter. *)
Lemma wf_sf_ext D E sf sf' s : wf D E sf s → (∀ n, alive s n → sf' n = sf n) → wf D E sf' s.
Proof.
  intros Hwf Hsf. destruct Hwf. constructor; try done.
  - intros n id Hr. rewrite Hsf; [auto|].
    destruct n; simpl in *; [|done]. destruct Hr as (sc & Hsc & _). unfold alive. simpl.
    rewrite Hsc. done.
  - intros n Hn. rewrite Hsf; auto.
  - intros n id Hid. rewrite Hsf by (eapply has_alive, Hid). auto.
  - intros n f fid Hf Hfid HD. rewrite Hsf by (eapply father_alive, Hf). eauto.
  - intros n m f Hn Hm. rewrite !Hsf by (eapply father_alive; eassumption). eauto.
Qed.

(** ** Changes of a store *)

Definition nstrategy (s : Store) (n : node) : option Z :=
  match n with
  | NS p => sc_strategy <$> scopes s !! p
  | NI p => it_strategy <$> items s !! p
  end.

(** Nothing but identifier tables and the index changed. *)
Record frame (s s' : Store) : Prop := {
  fr_fathers m : nfathers s' m = nfathers s m;
  fr_kid f m : kid s' f m ↔ kid s f m;
  fr_root m : root s' m ↔ root s m;
  fr_strategy m : nstrategy s' m = nstrategy s m;
  fr_hosts : hosts s' = hosts s;
  fr_psi : pub_sub_Index s' = pub_sub_Index s;
  fr_known : known_rootscopes s' = known_rootscopes s;
  fr_lp : localProxy s' = localProxy s;
}.

#[export] Instance frame_preorder : PreOrder frame.
Proof.
  split.
  - intros s. by constructor.
  - intros s1 s2 s3 [] []. constructor; intros; etrans; eauto.
Qed.

Lemma frame_father s s' m f : frame s s' → father s' m f ↔ father s m f.
Proof. intros Hfr. unfold father. by rewrite (fr_fathers _ _ Hfr). Qed.
Lemma frame_alive s s' m : frame s s' → alive s' m ↔ alive s m.
Proof. intros Hfr. unfold alive. by rewrite (fr_fathers _ _ Hfr). Qed.

(** The node [n] got the identifier [id], without publishers or subscribers. *)
Record added (n : node) (id : bytes) (s s' : Store) : Prop := {
  ad_frame : frame s s';
  ad_pair m x : pair_at s' m x = if decide (m = n ∧ x = id) then Some (mkPair ∅ ∅) else pair_at s m x;
  ad_idx m x : idx s' m x ↔ idx s m x ∨ (m = n ∧ x = id);
}.

Lemma added_has n id s s' m x : added n id s s' → has s' m x ↔ has s m x ∨ (m = n ∧ x = id).
Proof.
  intros Had. unfold has. rewrite (ad_pair _ _ _ _ Had). case_decide as Hc; [|naive_solver].
  split; [by right|]. intros _. by eexists.
Qed.

(** The identifiers of the other nodes below [n] are now missing. *)
Definition below (s : Store) (n m : node) : Prop := ∃ p, n = NS p ∧ father s m p.

Lemma wf_added D E sf s s' n f fid : wf D E sf s →
  father s n f → has s (NS f) fid → ¬ has s n (fid ++ sf n) → added n (fid ++ sf n) s s' →
  wf (λ m, D m ∨ below s n m) E sf s'.
Proof.
  intros Hwf Hn Hfid Hnew Had. pose proof (ad_frame _ _ _ _ Had) as Hfr.
  pose proof (λ m x, added_has n _ s s' m x Had) as Hhas.
  constructor.
  - intros m x. rewrite Hhas, (ad_idx _ _ _ _ Had), (wf_idx _ _ _ _ Hwf). done.
  - intros m m' x [H|[-> ->]]%Hhas [H'|[-> ?]]%Hhas; subst.
    + by eapply (wf_disj _ _ _ _ Hwf).
    + by eapply (wf_below _ _ _ _ Hwf).
    + symmetry. by eapply (wf_below _ _ _ _ Hwf).
    + done.
  - intros g m. rewrite (fr_kid _ _ Hfr), (frame_father _ _ _ _ Hfr). apply (wf_kid _ _ _ _ Hwf).
  - intros m g. rewrite (frame_father _ _ _ _ Hfr), (frame_alive _ _ _ Hfr). apply (wf_father _ _ _ _ Hwf).
  - intros m. rewrite (frame_alive _ _ _ Hfr), (fr_root _ _ Hfr). intros Hm.
    rewrite (wf_root _ _ _ _ Hwf m Hm). by setoid_rewrite (frame_father _ _ _ _ Hfr).
  - intros m x. rewrite (fr_root _ _ Hfr). intros Hr. rewrite Hhas, (wf_root_ids _ _ _ _ Hwf _ _ Hr).
    split; [|by left]. intros [?|[-> ->]]; [done|].
    exfalso. by apply (proj1 (wf_root _ _ _ _ Hwf n (father_alive _ _ _ Hn)) Hr f).
  - intros m. rewrite (frame_alive _ _ _ Hfr). apply (wf_len _ _ _ _ Hwf).
  - intros m x Hx%Hhas. rewrite (fr_root _ _ Hfr). destruct Hx as [Hx|[-> ->]].
    + destruct (wf_sound _ _ _ _ Hwf _ _ Hx) as [?|(g & gid & Hg & Hgid & ->)]; [by left|right].
      exists g, gid. rewrite (frame_father _ _ _ _ Hfr), Hhas. naive_solver.
    + right. exists f, fid. rewrite (frame_father _ _ _ _ Hfr), Hhas. naive_solver.
  - intros m g gid Hg Hgid%Hhas HD. rewrite (frame_father _ _ _ _ Hfr) in Hg.
    apply Hhas. left. destruct Hgid as [Hgid|[<- ->]].
    + apply (wf_complete _ _ _ _ Hwf _ _ _ Hg Hgid). naive_solver.
    + exfalso. apply HD. right. by exists g.
  - intros m m' g. rewrite !(frame_father _ _ _ _ Hfr). apply (wf_uniq _ _ _ _ Hwf).
  - intros m. rewrite (frame_alive _ _ _ Hfr). intros Hm HD.
    destruct (wf_ne _ _ _ _ Hwf m Hm) as [x Hx]; [done|]. exists x. apply Hhas. by left.
Qed.

(** ** Symbolic execution *)
Section exec.
Context (F : fault → Prop).

Lemma wp_get_st (Q : Store → rv → Prop) s : Q (st s) s → wp F get_st Q s.
Proof. done. Qed.
Lemma wp_mod_st f (Q : unit → rv → Prop) s : Q tt (mkRv (f (st s)) (out s)) → wp F (mod_st f) Q s.
Proof. done. Qed.
Lemma wp_push_event e (Q : unit → rv → Prop) s :
  Q tt (mkRv (st s) (out s ++ [e])) → wp F (push_event e) Q s.
Proof. done. Qed.
Lemma wp_get_scope p sc (Q : Scope → rv → Prop) s :
  scopes (st s) !! p = Some sc → Q sc s → wp F (get_scope p) Q s.
Proof. intros H HQ. unfold get_scope, wp, mbind, M_bind, get_st, mbind. simpl. by rewrite H. Qed.
Lemma wp_get_item p it (Q : InformationItem → rv → Prop) s :
  items (st s) !! p = Some it → Q it s → wp F (get_item p) Q s.
Proof. intros H HQ. unfold get_item, wp, mbind, M_bind, get_st, mbind. simpl. by rewrite H. Qed.
Lemma wp_get_host p h (Q : RemoteHost → rv → Prop) s :
  hosts (st s) !! p = Some h → Q h s → wp F (get_host p) Q s.
Proof. intros H HQ. unfold get_host, wp, mbind, M_bind, get_st, mbind. simpl. by rewrite H. Qed.
Lemma wp_mod_scope p f sc (Q : unit → rv → Prop) s :
  scopes (st s) !! p = Some sc →
  Q tt (mkRv (set_scopes (insert p (f sc)) (st s)) (out s)) → wp F (mod_scope p f) Q s.
Proof. intros H HQ. apply wp_bind. eapply wp_get_scope; [done|]. by apply wp_mod_st. Qed.
Lemma wp_mod_item p f it (Q : unit → rv → Prop) s :
  items (st s) !! p = Some it →
  Q tt (mkRv (set_items (insert p (f it)) (st s)) (out s)) → wp F (mod_item p f) Q s.
Proof. intros H HQ. apply wp_bind. eapply wp_get_item; [done|]. by apply wp_mod_st. Qed.
Lemma wp_mod_host p f h (Q : unit → rv → Prop) s :
  hosts (st s) !! p = Some h →
  Q tt (mkRv (set_hosts (insert p (f h)) (st s)) (out s)) → wp F (mod_host p f) Q s.
Proof. intros H HQ. apply wp_bind. eapply wp_get_host; [done|]. by apply wp_mod_st. Qed.
End exec.

(** One step of symbolic execution; the pointers that are followed must be
    known to be live in the context. *)
Ltac wp_step :=
  lazymatch goal with
  | |- wp _ (mbind _ _) _ _ => apply wp_bind
  | |- wp _ (mret _) _ _ => apply wp_ret
  | |- wp _ get_st _ _ => apply wp_get_st
  | |- wp _ (get_scope _) _ _ => eapply wp_get_scope; [eassumption|]
  | |- wp _ (get_item _) _ _ => eapply wp_get_item; [eassumption|]
  | |- wp _ (get_host _) _ _ => eapply wp_get_host; [eassumption|]
  | |- wp _ (mod_scope _ _) _ _ => eapply wp_mod_scope; [eassumption|]
  | |- wp _ (mod_item _ _) _ _ => eapply wp_mod_item; [eassumption|]
  | |- wp _ (mod_host _ _) _ _ => eapply wp_mod_host; [eassumption|]
  | |- wp _ (mod_st _) _ _ => apply wp_mod_st
  | |- wp _ (push_event _) _ _ => apply wp_push_event
  end.
Ltac wp_steps := repeat (wp_step; cbn beta iota).

Lemma alive_scope s p : alive s (NS p) ↔ ∃ sc, scopes s !! p = Some sc.
Proof. unfold alive. simpl. by rewrite fmap_is_Some. Qed.
Lemma alive_item s p : alive s (NI p) ↔ ∃ it, items s !! p = Some it.
Proof. unfold alive. simpl. by rewrite fmap_is_Some. Qed.

(** ** What one assignment changes *)
Ltac view :=
  unfold has, pair_at, nids, nfathers, nstrategy, kid, root, idx in *; simpl in *;
  rewrite ?lookup_insert, ?lookup_delete in *;
  repeat case_decide; simplify_eq; simpl in *; simplify_option_eq; try done.

Section assignments.
Context (s : Store) (p : positive).

Lemma scope_ids_frame f sc : scopes s !! p = Some sc →
  frame s (set_scopes (insert p (with_ids f sc)) s).
Proof.
  intros Hp. constructor; try done.
  - intros []; view.
  - intros g m. unfold kid. simpl. rewrite lookup_insert. case_decide; [|done].
    subst g. rewrite Hp. destruct m; naive_solver.
  - intros [q|q]; simpl; [|done]. rewrite lookup_insert. case_decide; [|done].
    subst q. rewrite Hp. naive_solver.
  - intros []; view.
Qed.

Lemma item_ids_frame f it : items s !! p = Some it →
  frame s (set_items (insert p (it_with_ids f it)) s).
Proof. intros Hp. constructor; try done; intros []; view. Qed.

Lemma scope_ids_pair f sc m x : scopes s !! p = Some sc →
  pair_at (set_scopes (insert p (with_ids f sc)) s) m x
    = if decide (m = NS p) then f (sc_ids sc) !! x else pair_at s m x.
Proof. intros Hp. destruct m; view. Qed.

Lemma item_ids_pair f it m x : items s !! p = Some it →
  pair_at (set_items (insert p (it_with_ids f it)) s) m x
    = if decide (m = NI p) then f (it_ids it) !! x else pair_at s m x.
Proof. intros Hp. destruct m; view. Qed.

Lemma scopeIndex_frame f : frame s (set_scopeIndex f s).
Proof. by constructor. Qed.
Lemma pubIndex_frame f : frame s (set_pubIndex f s).
Proof. by constructor. Qed.
End assignments.

(** Identifiers were only added, all without publishers and subscribers. *)
Record grow (s s' : Store) : Prop := {
  gr_frame : frame s s';
  gr_pair m x : pair_at s' m x = pair_at s m x ∨
    (pair_at s m x = None ∧ pair_at s' m x = Some (mkPair ∅ ∅));
}.

#[export] Instance grow_preorder : PreOrder grow.
Proof.
  split.
  - intros s. split; [done|]. by left.
  - intros s1 s2 s3 [Hf1 Hp1] [Hf2 Hp2]. split; [by etrans|]. intros m x.
    destruct (Hp1 m x) as [<-|[H1 H2]]; [by apply Hp2|]. right. split; [done|].
    destruct (Hp2 m x) as [->|[? _]]; congruence.
Qed.

Lemma grow_has s s' m x : grow s s' → has s m x → has s' m x.
Proof.
  intros [_ Hp] Hh. unfold has in *. destruct (Hp m x) as [->|[H _]]; [done|].
  rewrite H in Hh. by apply is_Some_None in Hh.
Qed.

Lemma grow_father s s' m f : grow s s' → father s' m f ↔ father s m f.
Proof. intros [Hf _]. by apply frame_father. Qed.

Lemma grow_below s s' n m : grow s s' → below s' n m ↔ below s n m.
Proof. intros Hg. unfold below. by setoid_rewrite (grow_father _ _ _ _ Hg). Qed.

Lemma added_grow n id s s' : ¬ has s n id → added n id s s' → grow s s'.
Proof.
  intros Hno Had. split; [apply Had|]. intros m x. rewrite (ad_pair _ _ _ _ Had).
  case_decide as Hc; [|by left]. destruct Hc as [-> ->]. right. split; [|done].
  apply eq_None_not_Some. done.
Qed.

Section methods.
Context `{HO : HashOrder} (F : fault → Prop) (sf : node → bytes).

(** [add_scope_id] either finds the identifier or adds it. *)
Lemma add_scope_id_spec D E p f fid s :
  wf D E sf (st s) → father (st s) (NS p) f → has (st s) (NS f) fid →
  (f = p → F IterInvalidated) →
  wp F (add_scope_id p f (fid ++ sf (NS p)))
    (λ _ s', out s' = out s ∧ has (st s') (NS p) (fid ++ sf (NS p)) ∧
       (s' = s ∨ (¬ has (st s) (NS p) (fid ++ sf (NS p)) ∧
                  added (NS p) (fid ++ sf (NS p)) (st s) (st s')))) s.
Proof.
  intros Hwf Hf Hfid Hself. set (id := fid ++ sf (NS p)).
  destruct (proj1 (alive_scope _ _) (father_alive _ _ _ Hf)) as [sc Hsc].
  assert (pair_at (st s) (NS p) id = sc_ids sc !! id) as Hpair by (unfold pair_at; simpl; by rewrite Hsc).
  unfold add_scope_id. wp_steps. destruct (sc_ids sc !! id) as [pr|] eqn:Eid.
  { wp_steps. split_and!; [done|by exists pr|by left]. }
  case_decide as Hfp; [by apply wp_throw, Hself|].
  apply wp_bind, wp_mod_st. eapply wp_mod_scope; [done|]. simpl.
  assert (added (NS p) id (st s) (set_scopes (insert p (with_ids (insert id (mkPair ∅ ∅)) sc))
    (set_scopeIndex (insert id p) (st s)))) as Had.
  { constructor.
    - etrans; [apply scopeIndex_frame|]. by apply scope_ids_frame.
    - intros m x. rewrite scope_ids_pair by done. destruct m; view; naive_solver.
    - assert (∀ m, ¬ idx (st s) m id) as Hno.
      { intros m Hm. apply (wf_idx _ _ _ _ Hwf) in Hm as Hh.
        pose proof (wf_below _ _ _ _ Hwf _ _ _ _ Hf Hfid Hh) as ->.
        unfold has in Hh. rewrite Hpair in Hh. by apply is_Some_None in Hh. }
      intros m x. pose proof (Hno m). destruct m; view; naive_solver. }
  split_and!; [done| |].
  - apply (added_has _ _ _ _ _ _ Had). by right.
  - right. split; [|done]. unfold has. rewrite Hpair. by intros []%is_Some_None.
Qed.

Lemma add_item_id_spec D E i f fid s :
  wf D E sf (st s) → father (st s) (NI i) f → has (st s) (NS f) fid →
  wp F (add_item_id i (fid ++ sf (NI i)))
    (λ _ s', out s' = out s ∧ has (st s') (NI i) (fid ++ sf (NI i)) ∧
       (s' = s ∨ (¬ has (st s) (NI i) (fid ++ sf (NI i)) ∧
                  added (NI i) (fid ++ sf (NI i)) (st s) (st s')))) s.
Proof.
  intros Hwf Hf Hfid. set (id := fid ++ sf (NI i)).
  destruct (proj1 (alive_item _ _) (father_alive _ _ _ Hf)) as [it Hit].
  assert (pair_at (st s) (NI i) id = it_ids it !! id) as Hpair by (unfold pair_at; simpl; by rewrite Hit).
  unfold add_item_id. wp_steps. destruct (it_ids it !! id) as [pr|] eqn:Eid.
  { wp_steps. split_and!; [done|by exists pr|by left]. }
  apply wp_bind, wp_mod_st. eapply wp_mod_item; [done|]. simpl.
  assert (added (NI i) id (st s) (set_items (insert i (it_with_ids (insert id (mkPair ∅ ∅)) it))
    (set_pubIndex (insert id i) (st s)))) as Had.
  { constructor.
    - etrans; [apply pubIndex_frame|]. by apply item_ids_frame.
    - intros m x. rewrite item_ids_pair by done. destruct m; view; naive_solver.
    - assert (∀ m, ¬ idx (st s) m id) as Hno.
      { intros m Hm. apply (wf_idx _ _ _ _ Hwf) in Hm as Hh.
        pose proof (wf_below _ _ _ _ Hwf _ _ _ _ Hf Hfid Hh) as ->.
        unfold has in Hh. rewrite Hpair in Hh. by apply is_Some_None in Hh. }
      intros m x. pose proof (Hno m). destruct m; view; naive_solver. }
  split_and!; [done| |].
  - apply (added_has _ _ _ _ _ _ Had). by right.
  - right. split; [|done]. unfold has. rewrite Hpair. by intros []%is_Some_None.
Qed.

(** *** Completing one node *)
Section completing.
Context (n : node) (add : positive → bytes → M rv unit).
Context (Hadd : ∀ D E f fid s,
  wf D E sf (st s) → father (st s) n f → has (st s) (NS f) fid →
  (NS f = n → F IterInvalidated) →
  wp F (add f (fid ++ sf n))
    (λ _ s', out s' = out s ∧ has (st s') n (fid ++ sf n) ∧
       (s' = s ∨ (¬ has (st s) n (fid ++ sf n) ∧ added n (fid ++ sf n) (st s) (st s')))) s).
Context (D : node → Prop) (E : option node) (s0 : rv) (Hwf : wf D E sf (st s0)).
Context (Hself : ∀ f, father (st s0) n f → NS f = n → F IterInvalidated).

(** What holds while the loops run. *)
Definition completing (s : rv) : Prop :=
  out s = out s0 ∧ grow (st s0) (st s) ∧
  (∀ m x, m ≠ n → pair_at (st s) m x = pair_at (st s0) m x) ∧
  wf (λ m, D m ∨ m = n ∨ below (st s0) n m) E sf (st s).

Lemma complete_father f l s : completing s → father (st s0) n f →
  (∀ id, id ∈ l → has (st s) (NS f) id) →
  wp F (for_each l (λ id, add f (id ++ sf n)))
    (λ _ s', completing s' ∧ grow (st s) (st s') ∧
       ∀ id, id ∈ l → has (st s') n (id ++ sf n)) s.
Proof.
  revert s. induction l as [|id l IH]; intros s Hs Hf Hl; simpl.
  { apply wp_ret. split_and!; [done|done|]. by intros id ?%elem_of_nil. }
  destruct Hs as (Hout & Hgrow & Hother & Hwfs). apply wp_bind.
  eapply wp_mono; [apply (Hadd _ _ f id _ Hwfs)|].
  - by apply (grow_father _ _ _ _ Hgrow).
  - apply Hl. left.
  - by apply Hself.
  - intros [] s1 (Hout1 & Hnew & Hs1).
    assert (completing s1 ∧ grow (st s) (st s1)) as [Hs1c Hg1].
    { destruct Hs1 as [->|[Hno Had]]; [done|]. pose proof (added_grow _ _ _ _ Hno Had) as Hg.
      split; [|done]. split_and!; [congruence|by etrans| |].
      - intros m x Hm. rewrite (ad_pair _ _ _ _ Had), decide_False by naive_solver. auto.
      - eapply wf_mono; [eapply wf_added; [exact Hwfs|..|exact Had]|].
        + by apply (grow_father _ _ _ _ Hgrow).
        + apply Hl. left.
        + done.
        + intros m [?|Hb]; [done|]. right; right. by apply (grow_below _ _ _ _ Hgrow). }
    eapply wp_mono; [apply IH; [done|done|]|].
    + intros x Hx. eapply grow_has; [done|]. apply Hl. by right.
    + intros [] s2 (Hc2 & Hg2 & Hin2). split_and!; [done|by etrans|].
      intros x [->|Hx]%elem_of_cons; [by eapply grow_has|auto].
Qed.

Lemma complete_fathers lf s : completing s → (∀ f, f ∈ lf → father (st s0) n f) →
  wp F (for_each lf (λ f, fa ← get_scope f;
          for_each (str_order (dom (sc_ids fa))) (λ id, add f (id ++ sf n))))
    (λ _ s', completing s' ∧ grow (st s) (st s') ∧
       ∀ f fid, f ∈ lf → has (st s0) (NS f) fid → has (st s') n (fid ++ sf n)) s.
Proof.
  revert s. induction lf as [|f lf IH]; intros s Hs Hlf; simpl.
  { apply wp_ret. split_and!; [done|done|]. by intros f fid ?%elem_of_nil. }
  assert (father (st s0) n f) as Hf by (apply Hlf; left).
  pose proof Hs as (_ & Hgrow & _ & Hwfs).
  assert (alive (st s) (NS f)) as [fa Hfa]%alive_scope.
  { eapply (wf_father _ _ _ _ Hwfs). by apply (grow_father _ _ _ _ Hgrow). }
  apply wp_bind, wp_bind. eapply wp_get_scope; [done|].
  assert (∀ id, id ∈ str_order (dom (sc_ids fa)) ↔ has (st s) (NS f) id) as Hids.
  { intros id. rewrite elem_of_str_order, elem_of_dom. unfold has, pair_at. simpl.
    by rewrite Hfa. }
  eapply wp_mono; [apply (complete_father f); [done|done|]|].
  { intros id. by apply Hids. }
  intros [] s1 (Hs1 & Hg1 & Hin1).
  eapply wp_mono; [apply IH; [done|]|].
  { intros g Hg. apply Hlf. by right. }
  intros [] s2 (Hs2 & Hg2 & Hin2). split_and!; [done|by etrans|].
  intros g fid [->|Hg]%elem_of_cons Hfid; [|by eapply Hin2].
  eapply grow_has; [done|]. apply Hin1, Hids. by eapply grow_has.
Qed.

Lemma complete_node X : nfathers (st s0) n = Some X →
  E = None ∨ (E = Some n ∧ ∃ f, father (st s0) n f ∧ NS f ≠ n) →
  wp F (for_each (ptr_order X) (λ f, fa ← get_scope f;
          for_each (str_order (dom (sc_ids fa))) (λ id, add f (id ++ sf n))))
    (λ _ s', out s' = out s0 ∧ grow (st s0) (st s') ∧
       (∀ m x, m ≠ n → pair_at (st s') m x = pair_at (st s0) m x) ∧
       (∀ f fid, father (st s0) n f → has (st s0) (NS f) fid → has (st s') n (fid ++ sf n)) ∧
       wf (λ m, (D m ∧ m ≠ n) ∨ below (st s0) n m) None sf (st s')) s0.
Proof.
  intros HX Hne. eapply wp_mono; [apply complete_fathers|].
  - split_and!; [done|done|done|]. eapply wf_mono; [done|]. by left.
  - intros f Hf%elem_of_ptr_order. by exists X.
  - intros [] s1 ((Hout & Hgrow & Hother & Hwf1) & _ & Hall).
    assert (∀ f fid, father (st s0) n f → has (st s0) (NS f) fid →
      has (st s1) n (fid ++ sf n)) as Hdone.
    { intros f fid (X' & HX' & Hf). simplify_eq. apply Hall. by apply elem_of_ptr_order. }
    split_and!; [done..|]. destruct Hwf1. constructor; try done.
    + intros m f fid Hf Hfid HD. destruct (decide (m = n)) as [->|Hm].
      * rewrite (grow_father _ _ _ _ Hgrow) in Hf. apply (Hdone f); [done|].
        unfold has. rewrite <-Hother; [done|]. intros <-. apply HD. right. by exists f.
      * eapply wf_complete0; [done..|]. intros [?|[?|?]]; [|done|]; apply HD; auto.
    + intros m Hm _. destruct Hne as [->|[-> (f & Hf & Hfn)]]; [by apply wf_ne0|].
      destruct (decide (m = n)) as [->|]; [|apply wf_ne0; [done|congruence]].
      destruct (wf_ne _ _ _ _ Hwf (NS f)) as [fid Hfid]; [|congruence|].
      { by eapply (wf_father _ _ _ _ Hwf). }
      exists (fid ++ sf n). by apply (Hdone f).
Qed.
End completing.

Lemma updateIDs_spec D E i s : wf D E sf (st s) → alive (st s) (NI i) →
  E = None ∨ (E = Some (NI i) ∧ ∃ f, father (st s) (NI i) f) →
  wp F (updateIDs i (sf (NI i)))
    (λ _ s', out s' = out s ∧ grow (st s) (st s') ∧
       (∀ f fid, father (st s) (NI i) f → has (st s) (NS f) fid →
          has (st s') (NI i) (fid ++ sf (NI i))) ∧
       wf (λ m, D m ∧ m ≠ NI i) None sf (st s')) s.
Proof.
  intros Hwf [it Hit]%alive_item HE. unfold updateIDs. wp_steps.
  eapply wp_mono.
  - apply (complete_node (NI i) (λ _ id, add_item_id i id)) with (D := D) (E := E).
    + intros D' E' f fid s' Hwf' Hf Hfid _. by eapply add_item_id_spec.
    + done.
    + done.
    + simpl. by rewrite Hit.
    + destruct HE as [->|[-> (f & Hf)]]; [by left|right]. eauto.
  - intros [] s' (Hout & Hg & _ & Hdone & Hwf'). split_and!; [done..|].
    eapply wf_mono; [exact Hwf'|]. intros m [?|(p & [=] & _)]. done.
Qed.

Lemma updateScopeIDs_spec D E p s : wf D E sf (st s) → alive (st s) (NS p) →
  E = None ∨ (E = Some (NS p) ∧ ∃ f, father (st s) (NS p) f ∧ f ≠ p) →
  (father (st s) (NS p) p → F IterInvalidated) →
  wp F (updateScopeIDs p (sf (NS p)))
    (λ _ s', out s' = out s ∧ grow (st s) (st s') ∧
       (∀ f fid, father (st s) (NS p) f → has (st s) (NS f) fid →
          has (st s') (NS p) (fid ++ sf (NS p))) ∧
       wf (λ m, (D m ∧ m ≠ NS p) ∨ father (st s) m p) None sf (st s')) s.
Proof.
  intros Hwf [sc Hsc]%alive_scope HE Hself. unfold updateScopeIDs. wp_steps.
  eapply wp_mono.
  - apply (complete_node (NS p) (add_scope_id p)) with (D := D) (E := E).
    + intros D' E' f fid s' Hwf' Hf Hfid Hi. eapply add_scope_id_spec; [done..|].
      intros ->. by apply Hi.
    + done.
    + intros f Hf [= ->]. by apply Hself.
    + simpl. by rewrite Hsc.
    + destruct HE as [->|[-> (f & Hf & Hn)]]; [by left|right]. split; [done|].
      exists f. split; [done|]. congruence.
  - intros [] s' (Hout & Hg & _ & Hdone & Hwf'). split_and!; [done..|].
    eapply wf_mono; [exact Hwf'|]. intros m [?|(q & [= <-] & ?)]; auto.
Qed.

(** [*ids.begin()] of a node that has identifiers. *)
Lemma first_suffix_spec D sf' n ids s0 s (Q : bytes → rv → Prop) :
  wf D None sf' s0 → nids s0 n = Some ids → Q (sf' n) s →
  wp F (first_suffix ids) Q s.
Proof.
  intros Hwf Hids HQ. unfold first_suffix. apply wp_bind, wp_begin_of.
  - destruct (wf_ne _ _ _ _ Hwf n) as [id Hid]; [apply alive_nids; eauto|done|].
    intros Hempty. apply (not_elem_of_empty (C := gset bytes) id). rewrite <-Hempty.
    apply elem_of_dom. unfold has, pair_at in Hid. by rewrite Hids in Hid.
  - intros id Hid%elem_of_dom. apply wp_ret.
    rewrite (wf_suffix _ _ _ _ Hwf n id); [done|]. unfold has, pair_at. by rewrite Hids.
Qed.

(** The recursion from [p] needs less than [k] nested calls. *)
Fixpoint deep (s : Store) (k : nat) (p : positive) : Prop :=
  match k with
  | O => False
  | S k => ¬ father s (NS p) p ∧ ∀ c, father s (NS c) p → deep s k c
  end.

Lemma deep_frame s s' k p : frame s s' → deep s k p → deep s' k p.
Proof.
  intros Hfr. revert p. induction k as [|k IH]; intros p; simpl; [done|].
  intros [H1 H2]. split; [by rewrite (frame_father _ _ _ _ Hfr)|].
  intros c Hc%(frame_father _ _ _ _ Hfr). auto.
Qed.

Lemma deep_mono s k k' p : deep s k p → k ≤ k' → deep s k' p.
Proof.
  revert k' p. induction k as [|k IH]; intros [|k'] p; simpl; [done|done|lia|].
  intros [H1 H2] Hle. split; [done|]. intros c Hc. apply IH; [auto|lia].
Qed.

Definition may_recurse (s : Store) (k : nat) (p : positive) : Prop :=
  (F StackOverflow ∧ F IterInvalidated) ∨ deep s k p.

(** Scope::recursivelyUpdateIDs gives [p] its missing identifiers and leaves
    no other node incomplete that was complete before. *)
Lemma recursivelyUpdateIDs_spec k : ∀ D E p s,
  wf D E sf (st s) → alive (st s) (NS p) →
  E = None ∨ (E = Some (NS p) ∧ ∃ f, father (st s) (NS p) f ∧ f ≠ p) →
  may_recurse (st s) k p →
  wp F (recursivelyUpdateIDs k p (sf (NS p)))
    (λ _ s', out s' = out s ∧ grow (st s) (st s') ∧
       (∀ f fid, father (st s) (NS p) f → has (st s) (NS f) fid →
          has (st s') (NS p) (fid ++ sf (NS p))) ∧
       wf (λ m, D m ∧ m ≠ NS p) None sf (st s')) s.
Proof.
  induction k as [|k IH]; intros D E p s Hwf Hp HE Hk; simpl.
  { apply wp_throw. by destruct Hk as [[? _]|?]. }
  apply wp_bind. eapply wp_mono; [apply (updateScopeIDs_spec D E); [done..|]|].
  { intros Hself. destruct Hk as [[_ ?]|[Hno _]]; done. }
  intros [] s1 (Hout1 & Hg1 & Hd1 & Hwf1).
  assert (alive (st s1) (NS p)) as [sc Hsc]%alive_scope
    by (by apply (frame_alive _ _ _ (gr_frame _ _ Hg1))).
  apply wp_bind. eapply wp_get_scope; [done|]. apply wp_bind.
  (* the children *)
  eapply wp_mono.
  { apply (wp_for_each F _ _ (λ l s', (∀ c, c ∈ l → father (st s) (NS c) p) ∧
      out s' = out s ∧ grow (st s1) (st s') ∧
      wf (λ m, (D m ∧ m ≠ NS p) ∨ (father (st s) m p ∧ ∀ c, m = NS c → c ∈ l)) None sf (st s'))).
    - split_and!; [|done|done|].
      + intros c Hc%elem_of_ptr_order. apply (grow_father _ _ _ _ Hg1), (wf_kid _ _ _ _ Hwf1).
        by exists sc.
      + eapply wf_mono; [done|]. intros m [?|Hm]; [by left|right]. split; [done|].
        intros c ->. apply elem_of_ptr_order.
        apply (grow_father _ _ _ _ Hg1), (wf_kid _ _ _ _ Hwf1) in Hm as (sc' & ? & ?).
        by simplify_eq.
    - intros c l s2 (Hl & Hout2 & Hg2 & Hwf2).
      assert (grow (st s) (st s2)) as Hg02 by by etrans.
      assert (father (st s) (NS c) p) as Hc by (apply Hl; left).
      assert (father (st s2) (NS c) p) as Hc2 by by apply (grow_father _ _ _ _ Hg02).
      destruct (proj1 (alive_scope _ _) (father_alive _ _ _ Hc2)) as [ch Hch].
      apply wp_bind. eapply wp_get_scope; [done|]. apply wp_bind.
      eapply (first_suffix_spec _ _ (NS c)); [done|simpl; by rewrite Hch|].
      eapply wp_mono; [eapply (IH _ None); [done|by eapply father_alive|by left|]|].
      + destruct Hk as [?|[_ Hk]]; [by left|right].
        eapply deep_frame; [apply Hg02|]. by apply Hk.
      + intros [] s3 (Hout3 & Hg3 & _ & Hwf3). split_and!; [|congruence|by etrans|].
        { intros c' Hc'. apply Hl. by right. }
        eapply wf_mono; [done|]. intros m [[?|[Hm Hin]] Hmc]; [by left|right].
        split; [done|]. intros c' ->. specialize (Hin c' eq_refl).
        apply elem_of_cons in Hin as [->|?]; done. }
  (* the items *)
  intros [] s2 (_ & Hout2 & Hg2 & Hwf2).
  assert (grow (st s) (st s2)) as Hg02 by by etrans.
  eapply wp_mono.
  { apply (wp_for_each F _ _ (λ l s', (∀ i, i ∈ l → father (st s) (NI i) p) ∧
      out s' = out s ∧ grow (st s2) (st s') ∧
      wf (λ m, (D m ∧ m ≠ NS p) ∨
               (father (st s) m p ∧ ∃ i, m = NI i ∧ i ∈ l)) None sf (st s'))).
    - split_and!; [|done|done|].
      + intros c Hc%elem_of_ptr_order. apply (grow_father _ _ _ _ Hg1), (wf_kid _ _ _ _ Hwf1).
        by exists sc.
      + eapply wf_mono; [done|]. intros m [?|[Hm Hin]]; [by left|right]. split; [done|].
        destruct m as [c|i]; [by specialize (Hin c eq_refl) as ?%elem_of_nil|].
        exists i. split; [done|]. apply elem_of_ptr_order.
        apply (grow_father _ _ _ _ Hg1), (wf_kid _ _ _ _ Hwf1) in Hm as (sc' & ? & ?).
        by simplify_eq.
    - intros i l s3 (Hl & Hout3 & Hg3 & Hwf3).
      assert (father (st s3) (NI i) p) as Hi3.
      { apply (grow_father (st s)); [by etrans|]. apply Hl. left. }
      destruct (proj1 (alive_item _ _) (father_alive _ _ _ Hi3)) as [it Hit].
      apply wp_bind. eapply wp_get_item; [done|]. apply wp_bind.
      eapply (first_suffix_spec _ _ (NI i)); [done|simpl; by rewrite Hit|].
      eapply wp_mono; [eapply (updateIDs_spec _ None); [done|by eapply father_alive|by left]|].
      intros [] s4 (Hout4 & Hg4 & _ & Hwf4). split_and!; [|congruence|by etrans|].
      { intros c' Hc'. apply Hl. by right. }
      eapply wf_mono; [done|]. intros m [[?|[Hm (i' & -> & Hi')]] Hmc]; [by left|right].
      split; [done|]. exists i'. split; [done|]. apply elem_of_cons in Hi' as [->|?]; done. }
  intros [] s3 (_ & Hout3 & Hg3 & Hwf3). split_and!; [done|by etrans| |].
  - intros f fid Hf Hfid. eapply grow_has; [|by eapply Hd1]. by etrans.
  - eapply wf_mono; [done|]. intros m [?|[_ (i & _ & ?%elem_of_nil)]]; done.
Qed.
End methods.

(** ** Preservation *)

(** No node is incomplete. *)
Notation clean := (λ _ : node, False).
Notation wf_clean sf s := (wf clean None sf s).

Lemma clean_complete sf s n f fid : wf_clean sf s →
  father s n f → has s (NS f) fid → has s n (fid ++ sf n).
Proof. intros Hwf Hf Hfid. eapply (wf_complete _ _ _ _ Hwf); [done..|]. by intros []. Qed.

(** Publishers and subscribers changed, identifiers did not. *)
Record repaired (s s' : Store) : Prop := {
  rp_fathers m : nfathers s' m = nfathers s m;
  rp_kid f m : kid s' f m ↔ kid s f m;
  rp_root m : root s' m ↔ root s m;
  rp_has m x : has s' m x ↔ has s m x;
  rp_idx m x : idx s' m x ↔ idx s m x;
}.

Lemma wf_repaired D E sf s s' : wf D E sf s → repaired s s' → wf D E sf s'.
Proof.
  intros Hwf [Hfa Hkid Hroot Hhas Hidx].
  assert (∀ m f, father s' m f ↔ father s m f) as Hf by (intros; unfold father; by rewrite Hfa).
  assert (∀ m, alive s' m ↔ alive s m) as Ha by (intros; unfold alive; by rewrite Hfa).
  destruct Hwf. constructor.
  - intros m x. rewrite Hhas, Hidx. auto.
  - intros m m' x. rewrite !Hhas. apply wf_disj0.
  - intros g m. rewrite Hkid, Hf. auto.
  - intros m g. rewrite Hf, Ha. apply wf_father0.
  - intros m. rewrite Ha, Hroot. setoid_rewrite Hf. auto.
  - intros m x. rewrite Hroot, Hhas. auto.
  - intros m. rewrite Ha. auto.
  - intros m x. rewrite Hhas, Hroot. setoid_rewrite Hf. setoid_rewrite Hhas. auto.
  - intros m g x. rewrite Hf, !Hhas. apply wf_complete0.
  - intros m m' g. rewrite !Hf. apply wf_uniq0.
  - intros m. rewrite Ha. setoid_rewrite Hhas. auto.
Qed.

(** The node [n], new or not, became a child of the scope [f]. *)
Record attached (n : node) (f : positive) (s s' : Store) : Prop := {
  at_pair m x : pair_at s' m x = pair_at s m x;
  at_alive m : alive s' m ↔ alive s m ∨ m = n;
  at_father m g : father s' m g ↔ father s m g ∨ (m = n ∧ g = f);
  at_kid g m : kid s' g m ↔ kid s g m ∨ (m = n ∧ g = f);
  at_root m : root s' m ↔ root s m;
  at_idx m x : idx s' m x ↔ idx s m x;
}.

Lemma wf_attached sf s s' n f E : wf_clean sf s → attached n f s s' →
  alive s (NS f) → ¬ root s n → length (sf n) = PURSUIT_ID_LEN →
  (∀ m, father s m f → sf m ≠ sf n) → (E = Some n ∨ (E = None ∧ alive s n)) →
  wf (λ m, m = n) E sf s'.
Proof.
  intros Hwf [Hpair Ha Hf Hkid Hroot Hidx] Hfa Hnr Hlen Huniq HE.
  assert (∀ m x, has s' m x ↔ has s m x) as Hhas by (intros; unfold has; by rewrite Hpair).
  constructor.
  - intros m x. rewrite Hhas, Hidx. apply (wf_idx _ _ _ _ Hwf).
  - intros m m' x. rewrite !Hhas. apply (wf_disj _ _ _ _ Hwf).
  - intros g m. rewrite Hkid, Hf, (wf_kid _ _ _ _ Hwf). done.
  - intros m g. rewrite Hf, Ha. intros [Hg|[-> ->]]; left; [by eapply (wf_father _ _ _ _ Hwf), Hg|done].
  - intros m Hm. rewrite Hroot. split.
    + intros Hr g [Hg|[-> ->]]%Hf; [|done].
      by eapply (proj1 (wf_root _ _ _ _ Hwf m (father_alive _ _ _ Hg))).
    + intros Hno. destruct (proj1 (Ha m) Hm) as [Hm'| ->].
      * apply (wf_root _ _ _ _ Hwf m Hm'). intros g Hg. apply (Hno g), Hf. by left.
      * exfalso. apply (Hno f), Hf. by right.
  - intros m x. rewrite Hroot, Hhas. apply (wf_root_ids _ _ _ _ Hwf).
  - intros m [Hm| ->]%Ha; [by apply (wf_len _ _ _ _ Hwf)|done].
  - intros m x Hx%Hhas. rewrite Hroot.
    destruct (wf_sound _ _ _ _ Hwf _ _ Hx) as [?|(g & gid & Hg & Hgid & ->)]; [by left|right].
    exists g, gid. rewrite Hf, Hhas. auto.
  - intros m g gid [Hg|[-> ->]]%Hf Hgid%Hhas Hmn; [|done].
    apply Hhas. by eapply clean_complete.
  - intros m m' g [Hm|[-> ->]]%Hf [Hm'|[-> ?]]%Hf Heq; subst.
    + by eapply (wf_uniq _ _ _ _ Hwf).
    + by destruct (Huniq _ Hm).
    + by destruct (Huniq _ Hm').
    + done.
  - intros m Hm HEm. setoid_rewrite Hhas. apply (wf_ne _ _ _ _ Hwf); [|done].
    apply Ha in Hm as [?| ->]; [done|]. by destruct HE as [->|[_ ?]].
Qed.

(** The childless node [n] was deleted. *)
Record deleted (n : node) (s s' : Store) : Prop := {
  de_pair m x : pair_at s' m x = if decide (m = n) then None else pair_at s m x;
  de_fathers m : nfathers s' m = if decide (m = n) then None else nfathers s m;
  de_kid g m : NS g ≠ n → kid s' g m ↔ kid s g m ∧ m ≠ n;
  de_kid_n g m : NS g = n → ¬ kid s' g m;
  de_root m : root s' m ↔ root s m ∧ m ≠ n;
  de_idx m x : idx s' m x ↔ idx s m x ∧ m ≠ n;
}.

Lemma wf_deleted sf s s' n : wf_clean sf s → deleted n s s' →
  (∀ p m, n = NS p → ¬ father s m p) → wf_clean sf s'.
Proof.
  intros Hwf [Hpair Hfa Hkid Hkidn Hroot Hidx] Hleaf.
  assert (∀ m x, has s' m x ↔ has s m x ∧ m ≠ n) as Hhas.
  { intros m x. unfold has. rewrite Hpair. case_decide; [|naive_solver].
    split; [by intros []%is_Some_None|naive_solver]. }
  assert (∀ m f, father s' m f ↔ father s m f ∧ m ≠ n) as Hf.
  { intros m f. unfold father. rewrite Hfa. case_decide; naive_solver. }
  assert (∀ m, alive s' m ↔ alive s m ∧ m ≠ n) as Ha.
  { intros m. unfold alive. rewrite Hfa. case_decide; [|naive_solver].
    split; [by intros []%is_Some_None|naive_solver]. }
  constructor.
  - intros m x. rewrite Hhas, Hidx, (wf_idx _ _ _ _ Hwf). done.
  - intros m m' x [? _]%Hhas [? _]%Hhas. by eapply (wf_disj _ _ _ _ Hwf).
  - intros g m. rewrite Hf, <-(wf_kid _ _ _ _ Hwf). destruct (decide (NS g = n)) as [<-|Hg].
    + split; [by intros ?%Hkidn|]. intros [Hk _]. exfalso.
      apply (wf_kid _ _ _ _ Hwf) in Hk. by eapply Hleaf.
    + by apply Hkid.
  - intros m g [Hg Hm]%Hf. apply Ha. split; [by eapply (wf_father _ _ _ _ Hwf)|].
    intros Heq. by eapply Hleaf.
  - intros m [Hm Hmn]%Ha. rewrite Hroot, (wf_root _ _ _ _ Hwf m Hm). setoid_rewrite Hf.
    naive_solver.
  - intros m x [Hr Hmn]%Hroot. rewrite Hhas, (wf_root_ids _ _ _ _ Hwf _ _ Hr). naive_solver.
  - intros m [Hm _]%Ha. by apply (wf_len _ _ _ _ Hwf).
  - intros m x [Hx Hmn]%Hhas. rewrite Hroot.
    destruct (wf_sound _ _ _ _ Hwf _ _ Hx) as [?|(g & gid & Hg & Hgid & ->)]; [by left|right].
    exists g, gid. rewrite Hf, Hhas. split_and!; try done. intros Heq. by eapply Hleaf.
  - intros m g gid [Hg Hm]%Hf [Hgid _]%Hhas _. apply Hhas. split; [|done].
    by eapply clean_complete.
  - intros m m' g [? _]%Hf [? _]%Hf. by eapply (wf_uniq _ _ _ _ Hwf).
  - intros m [Hm Hmn]%Ha _. destruct (wf_ne _ _ _ _ Hwf m Hm) as [x Hx]; [done|].
    exists x. by apply Hhas.
Qed.

(** The childless node [n] lost its father [f] and the identifiers below. *)
Definition under (s : Store) (sf : node → bytes) (n : node) (f : positive) (x : bytes) : Prop :=
  ∃ fid, has s (NS f) fid ∧ x = fid ++ sf n.

Record unbranched (sf : node → bytes) (n : node) (f : positive) (s s' : Store) : Prop := {
  ub_pair m x : ¬ (m = n ∧ under s sf n f x) → pair_at s' m x = pair_at s m x;
  ub_none x : under s sf n f x → pair_at s' n x = None;
  ub_alive m : alive s' m ↔ alive s m;
  ub_father m g : father s' m g ↔ father s m g ∧ ¬ (m = n ∧ g = f);
  ub_kid g m : kid s' g m ↔ kid s g m ∧ ¬ (m = n ∧ g = f);
  ub_root m : root s' m ↔ root s m;
  ub_idx m x : idx s' m x ↔ idx s m x ∧ ¬ (m = n ∧ under s sf n f x);
}.

Lemma unbranched_has sf n f s s' m x : unbranched sf n f s s' →
  has s' m x ↔ has s m x ∧ ¬ (m = n ∧ under s sf n f x).
Proof.
  intros Hub. split.
  - intros Hx. assert (¬ (m = n ∧ under s sf n f x)) as Hno.
    { intros [-> Hu]. apply (ub_none _ _ _ _ _ Hub) in Hu. unfold has in Hx. rewrite Hu in Hx.
      by apply is_Some_None in Hx. }
    split; [|done]. unfold has in *. by rewrite <-(ub_pair _ _ _ _ _ Hub).
  - intros [Hx Hno]. unfold has. by rewrite (ub_pair _ _ _ _ _ Hub).
Qed.

Lemma wf_unbranched sf s s' n f g : wf_clean sf s → unbranched sf n f s s' →
  (∀ p m, n = NS p → ¬ father s m p) → father s n f → father s n g → g ≠ f → wf_clean sf s'.
Proof.
  intros Hwf Hub Hleaf Hnf Hng Hgf.
  pose proof (λ m x, unbranched_has _ _ _ _ _ m x Hub) as Hhas.
  destruct Hub as [_ _ Ha Hf Hkid Hroot Hidx].
  assert (∀ h x, father s n h → has s (NS h) x ↔ has s' (NS h) x) as Hup.
  { intros h x Hh. rewrite Hhas. split; [|naive_solver]. intros Hx. split; [done|].
    intros [Heq _]. by eapply Hleaf. }
  assert (∀ h hid, father s n h → h ≠ f → has s (NS h) hid → ¬ under s sf n f (hid ++ sf n)) as Hother.
  { intros h hid Hh Hhf Hhid (fid & Hfid & Heq). apply app_inj_2 in Heq as [-> _]; [|done].
    pose proof (wf_disj _ _ _ _ Hwf _ _ _ Hhid Hfid) as [= ->]. done. }
  constructor.
  - intros m x. by rewrite Hhas, Hidx, (wf_idx _ _ _ _ Hwf).
  - intros m m' x [? _]%Hhas [? _]%Hhas. by eapply (wf_disj _ _ _ _ Hwf).
  - intros h m. by rewrite Hkid, Hf, (wf_kid _ _ _ _ Hwf).
  - intros m h [Hh _]%Hf. apply Ha. by eapply (wf_father _ _ _ _ Hwf).
  - intros m Hm%Ha. rewrite Hroot, (wf_root _ _ _ _ Hwf m Hm). setoid_rewrite Hf. split; [naive_solver|].
    intros Hno h Hh. destruct (decide (m = n ∧ h = f)) as [[-> ->]|]; [|by apply (Hno h)].
    apply (Hno g). naive_solver.
  - intros m x Hr%Hroot. rewrite Hhas, (wf_root_ids _ _ _ _ Hwf _ _ Hr). split; [naive_solver|].
    intros ->. split; [done|]. intros [-> _].
    by apply (proj1 (wf_root _ _ _ _ Hwf n (father_alive _ _ _ Hnf)) Hr f).
  - intros m Hm%Ha. by apply (wf_len _ _ _ _ Hwf).
  - intros m x [Hx Hno]%Hhas. rewrite Hroot.
    destruct (wf_sound _ _ _ _ Hwf _ _ Hx) as [?|(h & hid & Hh & Hhid & ->)]; [by left|right].
    exists h, hid. rewrite Hf, Hhas. split_and!; try done.
    + intros [-> ->]. apply Hno. split; [done|]. by exists hid.
    + intros [Heq _]. by eapply Hleaf.
  - intros m h hid [Hh Hno]%Hf [Hhid _]%Hhas _. apply Hhas.
    split; [by eapply clean_complete|].
    intros [-> Hu]. apply (Hother h hid); [done| |done..]. naive_solver.
  - intros m m' h [? _]%Hf [? _]%Hf. by eapply (wf_uniq _ _ _ _ Hwf).
  - intros m Hm%Ha _. destruct (decide (m = n)) as [->|Hmn].
    + destruct (wf_ne _ _ _ _ Hwf (NS g)) as [gid Hgid]; [by eapply (wf_father _ _ _ _ Hwf)|done|].
      exists (gid ++ sf n). apply Hhas. split; [by eapply clean_complete|].
      intros [_ ?]. by apply (Hother g gid).
    + destruct (wf_ne _ _ _ _ Hwf m Hm) as [x Hx]; [done|]. exists x. apply Hhas. naive_solver.
Qed.

(** A new root scope. *)
Record new_root (n : node) (ID : bytes) (s s' : Store) : Prop := {
  nr_pair m x : m ≠ n → pair_at s' m x = pair_at s m x;
  nr_ids x : has s' n x ↔ x = ID;
  nr_fathers m : nfathers s' m = if decide (m = n) then Some ∅ else nfathers s m;
  nr_kid g m : kid s' g m ↔ kid s g m;
  nr_root m : root s' m ↔ root s m ∨ m = n;
  nr_idx m x : idx s' m x ↔ idx s m x ∨ (m = n ∧ x = ID);
}.

Lemma wf_new_root sf s s' n ID : wf_clean sf s → new_root n ID s s' →
  ¬ alive s n → (∀ m, ¬ has s m ID) → sf n = ID → length ID = PURSUIT_ID_LEN →
  wf_clean sf s'.
Proof.
  intros Hwf [Hpair Hids Hfa Hkid Hroot Hidx] Hnew Hno Hsf Hlen.
  assert (∀ m x, has s' m x ↔ has s m x ∨ (m = n ∧ x = ID)) as Hhas.
  { intros m x. destruct (decide (m = n)) as [->|Hm].
    - rewrite Hids. split; [auto|]. intros [?%has_alive|[_ ?]]; done.
    - unfold has. rewrite Hpair by done. naive_solver. }
  assert (∀ m f, father s' m f ↔ father s m f) as Hf.
  { intros m f. unfold father. rewrite Hfa. case_decide as Hm; [|done]. subst m.
    split; [by intros (X & [= <-] & ?%not_elem_of_empty)|].
    intros (X & HX & _). exfalso. apply Hnew. by exists X. }
  assert (∀ m, alive s' m ↔ alive s m ∨ m = n) as Ha.
  { intros m. unfold alive. rewrite Hfa. case_decide; naive_solver. }
  constructor.
  - intros m x. rewrite Hhas, Hidx, (wf_idx _ _ _ _ Hwf). done.
  - intros m m' x [H|[-> ->]]%Hhas [H'|[-> ?]]%Hhas; subst; try done.
    + by eapply (wf_disj _ _ _ _ Hwf).
    + by apply Hno in H.
    + by apply Hno in H'.
  - intros g m. rewrite Hkid, Hf. apply (wf_kid _ _ _ _ Hwf).
  - intros m g Hg%Hf. apply Ha. left. by eapply (wf_father _ _ _ _ Hwf).
  - intros m [Hm| ->]%Ha; rewrite Hroot; setoid_rewrite Hf.
    + rewrite (wf_root _ _ _ _ Hwf m Hm). split; [|by left]. intros [?| ->]; done.
    + split; [|by right]. intros _ g Hg%father_alive. done.
  - intros m x [Hr| ->]%Hroot; rewrite Hhas.
    + rewrite (wf_root_ids _ _ _ _ Hwf _ _ Hr). split; [|by left]. intros [?|[-> ->]]; done.
    + split; [|naive_solver]. intros [?%has_alive|[_ ->]]; done.
  - intros m [Hm| ->]%Ha; [by apply (wf_len _ _ _ _ Hwf)|congruence].
  - intros m x [Hx|[-> ->]]%Hhas; rewrite Hroot; [|by left; right].
    destruct (wf_sound _ _ _ _ Hwf _ _ Hx) as [?|(g & gid & Hg & Hgid & ->)]; [by left; left|right].
    exists g, gid. rewrite Hf, Hhas. auto.
  - intros m g gid Hg%Hf Hgid _. apply Hhas. left. eapply clean_complete; [done..|].
    apply Hhas in Hgid as [?|[<- ->]]; [done|].
    exfalso. apply Hnew. by eapply (wf_father _ _ _ _ Hwf).
  - intros m m' g Hm%Hf Hm'%Hf. by eapply (wf_uniq _ _ _ _ Hwf).
  - intros m [Hm| ->]%Ha _; setoid_rewrite Hhas; [|by eauto].
    destruct (wf_ne _ _ _ _ Hwf m Hm) as [x Hx]; [done|]. eauto.
Qed.

(** ** Depth of the graph *)

(** The length of the longest identifier of a scope grows along the edges, so
    that a well-formed graph has no cycle and the number of scopes bounds the
    depth of the recursion. *)
Definition rank (s : Store) (p : positive) : nat :=
  max_list (length <$> elements (dom (default ∅ (nids s (NS p))))).

Lemma rank_ge s p id : has s (NS p) id → length id ≤ rank s p.
Proof.
  intros Hid. unfold rank. apply max_list_elem_of_le, list_elem_of_fmap. exists id. split; [done|].
  unfold has, pair_at in Hid. destruct (nids s (NS p)) as [ids|]; [|by apply is_Some_None in Hid].
  by apply elem_of_elements, elem_of_dom.
Qed.

Lemma rank_attained s p : (∃ id, has s (NS p) id) → ∃ id, has s (NS p) id ∧ length id = rank s p.
Proof.
  intros [id Hid]. unfold rank.
  assert (∀ x, x ∈ elements (dom (default ∅ (nids s (NS p)))) ↔ has s (NS p) x) as Hin.
  { intros x. rewrite elem_of_elements, elem_of_dom. unfold has, pair_at.
    destruct (nids s (NS p)); simpl; [done|]. rewrite lookup_empty. done. }
  apply Hin in Hid. setoid_rewrite <-Hin. revert Hid.
  generalize (elements (dom (default ∅ (nids s (NS p))))). intros l. revert id.
  induction l as [|x l IH]; intros id Hid; [by apply elem_of_nil in Hid|].
  change (max_list (length <$> x :: l)) with (length x `max` max_list (length <$> l)).
  destruct (Nat.max_spec (length x) (max_list (length <$> l))) as [[Hlt ->]|[Hle ->]].
  - destruct l as [|y l]; [simpl in Hlt; lia|]. destruct (IH y) as (z & Hz & Hlz); [left|].
    exists z. split; [by right|done].
  - exists x. split; [left|done].
Qed.

Lemma rank_child sf s c p : wf_clean sf s → father s (NS c) p → rank s p < rank s c.
Proof.
  intros Hwf Hc. destruct (rank_attained s p) as (id & Hid & <-).
  { apply (wf_ne _ _ _ _ Hwf); [|done]. by eapply (wf_father _ _ _ _ Hwf). }
  pose proof (rank_ge s c _ (clean_complete _ _ _ _ _ Hwf Hc Hid)) as Hge.
  rewrite length_app, (wf_len _ _ _ _ Hwf (NS c)) in Hge by by eapply father_alive.
  unfold PURSUIT_ID_LEN in Hge. lia.
Qed.

Lemma deep_rank sf s k p l : wf_clean sf s → alive s (NS p) → NoDup l →
  (∀ q, q ∈ l → alive s (NS q) ∧ rank s q < rank s p) →
  size (scopes s) < k + length l → deep s k p.
Proof.
  intros Hwf. revert p l. induction k as [|k IH]; intros p l Hp Hnd Hl Hsz; simpl.
  - assert (length l ≤ size (scopes s)); [|lia].
    rewrite <-size_dom, <-(size_list_to_set (C := gset positive) l) by done.
    apply subseteq_size. intros q Hq%elem_of_list_to_set. apply Hl in Hq as [Hq _].
    apply alive_scope in Hq as [sc Hq]. by apply elem_of_dom_2 in Hq.
  - split; [intros Hself; pose proof (rank_child _ _ _ _ Hwf Hself); lia|].
    intros c Hc. pose proof (rank_child _ _ _ _ Hwf Hc). apply (IH c (p :: l)).
    + by eapply father_alive.
    + constructor; [|done]. intros Hin. apply Hl in Hin as [_ ?]. lia.
    + intros q [->|Hq]%elem_of_cons; [done|]. apply Hl in Hq as [??]. split; [done|lia].
    + simpl. lia.
Qed.

Lemma deep_clean sf s p : wf_clean sf s → alive s (NS p) → deep s (S (size (scopes s))) p.
Proof.
  intros Hwf Hp. apply (deep_rank _ _ _ _ [] Hwf); [done|constructor| |simpl; lia].
  by intros q ?%elem_of_nil.
Qed.

(** [q] is [p] or below it. *)
Definition reach (s : Store) : positive → positive → Prop := rtc (λ a b, father s (NS b) a).

(** A new father outside of what is below [p] does not deepen the recursion. *)
Lemma deep_attached n f s s' k p : attached n f s s' → deep s k p → ¬ reach s p f →
  deep s' k p.
Proof.
  intros Hat. revert p. induction k as [|k IH]; intros p; simpl; [done|].
  intros [Hself Hrec] Hno. split.
  - intros [?|[_ <-]]%(at_father _ _ _ _ Hat); [done|]. apply Hno. apply rtc_refl.
  - intros c [Hc|[_ ->]]%(at_father _ _ _ _ Hat).
    + apply IH; [by apply Hrec|]. intros Hr. apply Hno. by eapply rtc_l.
    + exfalso. apply Hno. apply rtc_refl.
Qed.

(** A store whose graph has a cycle is not well formed. *)
Lemma reach_rank sf s p q : wf_clean sf s → reach s p q → p = q ∨ rank s p < rank s q.
Proof.
  intros Hwf Hr. induction Hr as [|p r q Hpr _ [->|IH]]; [by left|right..].
  - by eapply rank_child.
  - pose proof (rank_child _ _ _ _ Hwf Hpr). lia.
Qed.

Lemma wf_acyclic sf s p f : wf_clean sf s → reach s p f → ¬ father s (NS p) f.
Proof.
  intros Hwf Hr Hf. pose proof (rank_child _ _ _ _ Hwf Hf).
  destruct (reach_rank _ _ _ _ Hwf Hr) as [->|]; lia.
Qed.
