(* ===== verification/LocalRV.v ===== *)
(** * The rendezvous element (src/localrv.hh, src/localrv.cc)

    LocalRV owns the information graph of a rendezvous point.  It receives
    publications, advertisements and subscriptions of hosts as packets of the
    LocalProxy ([push]), updates the graph, and sends packets back to the
    proxy (output 0): requests to the topology manager for the delivery of a
    matched information item, and notifications of new and removed scopes.

    Every function of the element is a computation on the store of
    [InfoGraph]; the packets it builds are laid out with [memcpys] in a packet
    of the computed length, so that a length that is too small shows as
    [BufferOverflow].  What the source only logs is left out. *)
From stdpp Require Import base list gmap sets.
From Stdlib Require Import ZArith Lia.
From S2P Require Import Prelude Enums Bitvector GlobalConf InfoGraph.

Section localrv.
Context `{HO : HashOrder} (gc : GlobalConf).

(** [memcpy(dst, v._data, FID_LEN)]: the source operand. *)
Definition fid_data {S : Type} (v : BABitvector) : M S bytes :=
  let bs := bytes_of_words (bv_data v) in
  if decide (FID_LEN ≤ length bs) then mret (take FID_LEN bs) else throw BufferOverflow.

(** [Packet::make] of [len] bytes, the fields one behind the other, and
    [output(0).push(p)]. *)
Definition send_fields (len : nat) (fields : list bytes) : M rv unit :=
  match memcpys (make_packet len) 0 fields with
  | Ok p => push_event (Send p)
  | Fault e => throw e
  end.

(** The labels of hosts, in the order of iteration. *)
Fixpoint host_ids (hs : list positive) : M rv (list bytes) :=
  match hs with
  | [] => mret []
  | h :: hs => rh ← get_host h; rest ← host_ids hs; mret (remoteHostID rh :: rest)
  end.

(** [(unsigned char) id.length() / PURSUIT_ID_LEN] *)
Definition IDLength (id : bytes) : Z := (u8 (Z.of_nat (length id)) / 8)%Z.

Definition id_fields (ids : list bytes) : list bytes :=
  concat ((λ id, [[IDLength id]; id]) <$> ids).

(** [IDs_total_bytes], an [unsigned char]. *)
Definition IDs_total_bytes (ids : list bytes) : nat :=
  Z.to_nat (u8 (Z.of_nat (sum_list (length <$> ids)))).

Definition count_byte (n : nat) : bytes := [u8 (Z.of_nat n)].

(** ** Requests to the topology manager *)

Definition match_type (update_only : bool) : Z :=
  if update_only then UPDATE_FID else MATCH_PUB_SUBS.

(** requestTMAssistanceForRendezvous, all publishers in one request *)
Definition requestTMAssistanceForRendezvous (pub : InformationItem)
    (publishers subscribers : gset positive) (update_only : bool) : M rv unit :=
  let ids := str_order (dom (it_ids pub)) in
  let packet_len := 1 + 1 + 2 * PURSUIT_ID_LEN + 1 + FID_LEN
    + 1 + 1 + 1 + size publishers * NODEID_LEN + 1 + size subscribers * NODEID_LEN
    + 1 + size (it_ids pub) * 1 + IDs_total_bytes ids in
  tmfid ← fid_data (TMFID gc);
  pubs ← host_ids (ptr_order publishers);
  subs ← host_ids (ptr_order subscribers);
  send_fields packet_len
    ([[PUBLISH_DATA]; [2%Z]; nodeTMScope gc; [IMPLICIT_RENDEZVOUS]; tmfid;
      [match_type update_only]; [it_strategy pub]; count_byte (size publishers)] ++ pubs ++
     [count_byte (size subscribers)] ++ subs ++
     [count_byte (size (it_ids pub))] ++ id_fields ids).

(** requestTMAssistanceForRendezvous, a request of one publisher *)
Definition requestTMAssistanceForRendezvous_one (pub : InformationItem) (publisher : positive)
    (subscribers : gset positive) (update_only : bool) : M rv unit :=
  let ids := str_order (dom (it_ids pub)) in
  let packet_len := 1 + 1 + 3 * PURSUIT_ID_LEN + 1 + FID_LEN
    + 1 + 1 + 1 + NODEID_LEN + 1 + size subscribers * NODEID_LEN
    + 1 + size (it_ids pub) * 1 + IDs_total_bytes ids in
  tmfid ← fid_data (TMFID gc);
  rh ← get_host publisher;
  subs ← host_ids (ptr_order subscribers);
  send_fields packet_len
    ([[PUBLISH_DATA]; [3%Z]; nodeTMScopeUC gc; [IMPLICIT_RENDEZVOUS]; tmfid;
      [match_type update_only]; [it_strategy pub]; [1%Z]; remoteHostID rh;
      count_byte (size subscribers)] ++ subs ++
     [count_byte (size (it_ids pub))] ++ id_fields ids).

(** requestTMAssistanceForiSubscription; [memcpy] takes NODEID_LEN bytes of
    each label. *)
Definition requestTMAssistanceForiSubscription (isubscribers : gset bytes)
    (update_only : bool) : M rv unit :=
  let no_subscribers := count_byte (size isubscribers) in
  let packet_len := 1 + 1 + 3 * PURSUIT_ID_LEN + 1 + FID_LEN
    + 1 + 1 + NODEID_LEN + 1 + Z.to_nat (u8 (Z.of_nat (size isubscribers))) * NODEID_LEN in
  tmfid ← fid_data (TMFID gc);
  send_fields packet_len
    ([[PUBLISH_DATA]; [3%Z]; nodeTMScopeUC gc; [IMPLICIT_RENDEZVOUS]; tmfid;
      [if update_only then UPDATE_FID else MATCH_PUB_iSUBS]; [1%Z]; nodeID gc;
      no_subscribers] ++ (take NODEID_LEN <$> str_order isubscribers)).

Definition requestTMAssistanceForNotifyingSubscribers (request_type : Z) (IDs : gset bytes)
    (subscribers : gset positive) (strategy : Z) : M rv unit :=
  let ids := str_order IDs in
  let packet_len := 1 + 1 + length (nodeTMScope gc) + 1 + FID_LEN
    + 1 + 1 + 1 + size subscribers * NODEID_LEN + 1 + size IDs * 1 + IDs_total_bytes ids in
  tmfid ← fid_data (TMFID gc);
  subs ← host_ids (ptr_order subscribers);
  send_fields packet_len
    ([[PUBLISH_DATA]; [2%Z]; nodeTMScope gc; [IMPLICIT_RENDEZVOUS]; tmfid;
      [request_type]; [strategy]; count_byte (size subscribers)] ++ subs ++
     [count_byte (size IDs)] ++ id_fields ids).

(** ** Local notifications *)

(** The first [numberOfIDs] identifiers, each cut to [IDLength] fragments. *)
Definition local_id_fields (numberOfIDs : Z) (ids : list bytes) : list bytes :=
  concat ((λ id, [[IDLength id]; take (Z.to_nat (IDLength id) * PURSUIT_ID_LEN) id])
            <$> take (Z.to_nat numberOfIDs) ids).

Definition notification_header : M rv (list bytes) :=
  ilid ← fid_data (iLID gc);
  mret [[PUBLISH_DATA]; [u8 (Z.of_nat (length (notificationIID gc) / PURSUIT_ID_LEN))];
        notificationIID gc; [IMPLICIT_RENDEZVOUS]; ilid].

Definition header_len : nat := 1 + 1 + length (notificationIID gc) + 1 + FID_LEN.

Definition notifyLocalPublisher (pub : InformationItem) (FID : option BABitvector)
    (update_only : bool) : M rv unit :=
  let ids := str_order (dom (it_ids pub)) in
  let numberOfIDs := u8 (Z.of_nat (size (it_ids pub))) in
  let len := header_len + 1 + 1 + Z.to_nat numberOfIDs * 1 + sum_list (length <$> ids) in
  hdr ← notification_header;
  match FID with
  | Some v =>
      fid ← fid_data v;
      send_fields (len + FID_LEN)
        (hdr ++ [[if update_only then UPDATE_FID else START_PUBLISH]; [numberOfIDs]] ++
         local_id_fields numberOfIDs ids ++ [fid])
  | None =>
      send_fields len
        (hdr ++ [[STOP_PUBLISH]; [numberOfIDs]] ++ local_id_fields numberOfIDs ids)
  end.

Definition notifyLocalSubscriber (type : Z) (IDs : gset bytes) : M rv unit :=
  let ids := str_order IDs in
  let numberOfIDs := u8 (Z.of_nat (size IDs)) in
  hdr ← notification_header;
  send_fields (header_len + 1 + 1 + Z.to_nat numberOfIDs * 1 + sum_list (length <$> ids))
    (hdr ++ [[type]; [numberOfIDs]] ++ local_id_fields numberOfIDs ids).

Definition notifySubscribers (type : Z) (IDs : gset bytes) (strategy : Z)
    (subscribers : gset positive) : M rv unit :=
  if (strategy =? NODE_LOCAL)%Z then
    s ← get_st;
    match localProxy s with
    | Some lp => if decide (lp ∈ subscribers) then notifyLocalSubscriber type IDs else mret tt
    | None => mret tt
    end
  else if decide (0 < size subscribers)
  then requestTMAssistanceForNotifyingSubscribers type IDs subscribers strategy
  else mret tt.

(** ** Rendezvous *)

(** Whether the first of the root scopes is a reserved one (IP or HTTP). *)
Definition first_root_known (roots : gset bytes) : M rv bool :=
  r ← begin_of roots;
  s ← get_st;
  mret (bool_decide (r ∈ known_rootscopes s)).

Definition rendezvous (pub : positive) (subscribers : gset positive) (update_only : bool)
    : M rv unit :=
  it ← get_item pub;
  let publishers := getPublishers it in
  if decide (0 < size publishers) then
    if (it_strategy it =? NODE_LOCAL)%Z then
      notifyLocalPublisher it
        (if decide (0 < size subscribers) then Some (iLID gc) else None) update_only
    else if (it_strategy it =? DOMAIN_LOCAL)%Z then
      known ← first_root_known (getRootScopes it);
      if (known : bool) then
        for_each (ptr_order publishers) (λ h,
          requestTMAssistanceForRendezvous_one it h subscribers update_only)
      else requestTMAssistanceForRendezvous it publishers subscribers update_only
    else mret tt
  else mret tt.

(** The subscribers of an item and of all its father scopes. *)
Fixpoint fathers_subscribers (fs : list positive) (acc : gset positive)
    : M rv (gset positive) :=
  match fs with
  | [] => mret acc
  | f :: fs => fa ← get_scope f; fathers_subscribers fs (acc ∪ Scope_getSubscribers fa)
  end.

Definition item_subscribers (pub : positive) : M rv (gset positive) :=
  it ← get_item pub;
  fathers_subscribers (ptr_order (it_fathers it)) (InformationItem_getSubscribers it).

Definition rendezvous_again (pub : positive) (update_only : bool) : M rv unit :=
  subscribers ← item_subscribers pub;
  rendezvous pub subscribers update_only.

(** *** Hosts *)
Definition getRemoteHost (nodeID : bytes) : M rv positive :=
  s ← get_st;
  match pub_sub_Index s !! nodeID with
  | Some h => mret h
  | None =>
      h ← new_host nodeID;
      _ ← mod_st (set_pub_sub_Index (insert nodeID h));
      mret h
  end.

Definition published_scope (h : positive) (f : gset bytes → gset bytes) : M rv unit :=
  mod_host h (λ r, mkHost (remoteHostID r) (f (publishedScopes r))
    (publishedInformationItems r) (subscribedScopes r) (subscribedInformationItems r)).
Definition published_info (h : positive) (f : gset bytes → gset bytes) : M rv unit :=
  mod_host h (λ r, mkHost (remoteHostID r) (publishedScopes r)
    (f (publishedInformationItems r)) (subscribedScopes r) (subscribedInformationItems r)).
Definition subscribed_scope (h : positive) (f : gset bytes → gset bytes) : M rv unit :=
  mod_host h (λ r, mkHost (remoteHostID r) (publishedScopes r)
    (publishedInformationItems r) (f (subscribedScopes r)) (subscribedInformationItems r)).
Definition subscribed_info (h : positive) (f : gset bytes → gset bytes) : M rv unit :=
  mod_host h (λ r, mkHost (remoteHostID r) (publishedScopes r)
    (publishedInformationItems r) (subscribedScopes r) (f (subscribedInformationItems r))).

Definition set_add (id : bytes) (X : gset bytes) : gset bytes := {[id]} ∪ X.
Definition set_del (id : bytes) (X : gset bytes) : gset bytes := X ∖ {[id]}.

(** A publisher or subscriber leaves the pair of an identifier, and the
    identifier leaves its set. *)
Definition drop_scope_publisher (sc h : positive) (fullID : bytes) (pr : RemoteHostPair)
    : M rv unit :=
  _ ← mod_scope sc (with_ids (insert fullID (mkPair (first pr ∖ {[h]}) (second pr))));
  published_scope h (set_del fullID).
Definition drop_item_publisher (pub h : positive) (fullID : bytes) (pr : RemoteHostPair)
    : M rv unit :=
  _ ← mod_item pub (it_with_ids (insert fullID (mkPair (first pr ∖ {[h]}) (second pr))));
  published_info h (set_del fullID).
Definition drop_scope_subscriber (sc h : positive) (fullID : bytes) (pr : RemoteHostPair)
    : M rv unit :=
  _ ← mod_scope sc (with_ids (insert fullID (mkPair (first pr) (second pr ∖ {[h]}))));
  subscribed_scope h (set_del fullID).
Definition drop_item_subscriber (pub h : positive) (fullID : bytes) (pr : RemoteHostPair)
    : M rv unit :=
  _ ← mod_item pub (it_with_ids (insert fullID (mkPair (first pr) (second pr ∖ {[h]}))));
  subscribed_info h (set_del fullID).

(** ** Unpublication *)

(** [delete pub] after all its identifiers left the index *)
Definition delete_item (pub : positive) : M rv unit :=
  it ← get_item pub;
  _ ← for_each (str_order (dom (it_ids it))) (λ id, mod_st (set_pubIndex (delete id)));
  mod_st (set_items (delete pub)).

Definition delete_scope (sc : positive) : M rv unit :=
  o ← get_scope sc;
  _ ← for_each (str_order (dom (sc_ids o))) (λ id, mod_st (set_scopeIndex (delete id)));
  mod_st (set_scopes (delete sc)).

(** The item loses one of its fathers, and the identifiers below it. *)
Definition remove_item_branch (pub father : positive) : M rv unit :=
  _ ← mod_scope father (with_items (λ X, X ∖ {[pub]}));
  _ ← mod_item pub (it_with_fathers (λ X, X ∖ {[father]}));
  it ← get_item pub;
  sfx ← first_suffix (it_ids it);
  fa ← get_scope father;
  for_each (str_order (dom (sc_ids fa))) (λ id,
    _ ← mod_item pub (it_with_ids (delete (id ++ sfx)));
    mod_st (set_pubIndex (delete (id ++ sfx)))).

Definition remove_scope_branch (sc father : positive) : M rv unit :=
  _ ← mod_scope father (with_children (λ X, X ∖ {[sc]}));
  _ ← mod_scope sc (with_fathers (λ X, X ∖ {[father]}));
  o ← get_scope sc;
  sfx ← first_suffix (sc_ids o);
  fa ← get_scope father;
  for_each (str_order (dom (sc_ids fa))) (λ id,
    _ ← mod_scope sc (with_ids (delete (id ++ sfx)));
    mod_st (set_scopeIndex (delete (id ++ sfx)))).

(** The rendezvous is repeated unless the first root scope is reserved. *)
Definition rendezvous_unless_known (roots : gset bytes) (pub : positive) (update_only : bool)
    : M rv unit :=
  known ← first_root_known roots;
  if (known : bool) then mret tt else rendezvous_again pub update_only.

(** An item without publishers and subscribers below its only father is
    deleted; with several fathers the branch is. *)
Definition collect_item (pub father : positive) : M rv bool :=
  it ← get_item pub;
  other ← checkForOtherPubSub (it_ids it) father;
  if (other : bool) then mret false
  else if decide (size (it_fathers it) = 1) then
    _ ← mod_scope father (with_items (λ X, X ∖ {[pub]}));
    _ ← delete_item pub;
    mret true
  else
    _ ← remove_item_branch pub father;
    mret false.

Definition unpublish_info (publisher : positive) (ID prefixID : bytes) (strategy : Z)
    (update_only : bool) : M rv RvReturnCode :=
  let fullID := prefixID ++ ID in
  s ← get_st;
  match pubIndex s !! fullID with
  | None => mret INFO_DOES_NOT_EXIST
  | Some pub =>
      fatherScope ← deref (scopeIndex s !! prefixID);
      fa ← get_scope fatherScope;
      if (sc_strategy fa =? strategy)%Z then
        it ← get_item pub;
        pr ← deref (it_ids it !! fullID);
        if decide (publisher ∈ first pr) then
          _ ← drop_item_publisher pub publisher fullID pr;
          deleted ← collect_item pub fatherScope;
          _ ← (if (deleted : bool) then mret tt
               else rendezvous_unless_known (getRootScopes it) pub update_only);
          mret SUCCESS
        else mret DOES_NOT_EXIST
      else mret STRATEGY_MISMATCH
  end.

(** unpublish_info for all items of a scope, under all its identifiers *)
Definition unpublish_items (publisher sc : positive) (strategy : Z) (update_only : bool)
    : M rv unit :=
  o ← get_scope sc;
  for_live (o ← get_scope sc; mret (informationitems o)) (ptr_order (informationitems o)) (λ pub,
    it ← get_item pub;
    pubSuffixID ← first_suffix (it_ids it);
    o ← get_scope sc;
    for_each (str_order (dom (sc_ids o))) (λ scPrefixID,
      _ ← unpublish_info publisher pubSuffixID scPrefixID strategy update_only;
      mret tt)).

(** The loop that erases, from the set it runs over, every identifier but
    [fullID]. *)
Fixpoint erase_others (fullID : bytes) (l : list bytes) (X : gset bytes) : M rv (gset bytes) :=
  match l with
  | [] => mret X
  | id :: l =>
      if decide (id = fullID) then erase_others fullID l X
      else if erased_keeps_link then erase_others fullID l (X ∖ {[id]})
      else throw IterInvalidated
  end.

(** A scope without children, items, publishers and subscribers is deleted
    (or its branch, when it has several fathers); the subscribers of the
    father scope are notified before. *)
Definition collect_scope (sc father : positive) (fullID : bytes) : M rv unit :=
  o ← get_scope sc;
  if decide (size (childrenScopes o) = 0 ∧ size (informationitems o) = 0) then
    other ← checkForOtherPubSub (sc_ids o) father;
    if (other : bool) then mret tt
    else
      fa ← get_scope father;
      let subscribers := Scope_getSubscribers fa in
      if decide (size (sc_fathers o) = 1) then
        _ ← notifySubscribers SCOPE_UNPUBLISHED (getIDs o) (sc_strategy o) subscribers;
        _ ← mod_scope father (with_children (λ X, X ∖ {[sc]}));
        delete_scope sc
      else
        ids ← erase_others fullID (str_order (getIDs o)) (getIDs o);
        _ ← notifySubscribers SCOPE_UNPUBLISHED ids (sc_strategy o) subscribers;
        remove_scope_branch sc father
  else mret tt.

Definition collect_root_scope (sc : positive) : M rv unit :=
  o ← get_scope sc;
  if decide (size (childrenScopes o) = 0 ∧ size (informationitems o) = 0) then
    if checkForOtherPubSub_root (sc_ids o) then mret tt else delete_scope sc
  else mret tt.

Definition unpublish_scope (publisher : positive) (ID prefixID : bytes) (strategy : Z)
    (update_only : bool) : M rv RvReturnCode :=
  let fullID := prefixID ++ ID in
  s ← get_st;
  match scopeIndex s !! fullID with
  | None => mret SCOPE_DOES_NOT_EXIST
  | Some sc =>
      o ← get_scope sc;
      if (sc_strategy o =? strategy)%Z then
        _ ← unpublish_items publisher sc strategy update_only;
        o ← get_scope sc;
        pr ← deref (sc_ids o !! fullID);
        if decide (publisher ∈ first pr) then
          _ ← drop_scope_publisher sc publisher fullID pr;
          _ ← match scopeIndex s !! prefixID with
              | Some fatherScope => collect_scope sc fatherScope fullID
              | None => collect_root_scope sc
              end;
          mret SUCCESS
        else mret DOES_NOT_EXIST
      else mret STRATEGY_MISMATCH
  end.

(** ** Publication of scopes *)

(** Enough for the deepest graph of the scopes that exist. *)
Definition depth (s : Store) : nat := S (size (scopes s)).

Definition update_graph (sc : positive) (suffixID : bytes) : M rv unit :=
  s ← get_st; recursivelyUpdateIDs (depth s) sc suffixID.

(** [sc->updatePublishers] and the set of the publisher *)
Definition add_scope_publisher (sc publisher : positive) (fullID : bytes) : M rv bool :=
  new ← Scope_updatePublishers sc fullID publisher;
  _ ← (if (new : bool) then published_scope publisher (set_add fullID) else mret tt);
  mret new.

Definition publish_root_scope (publisher : positive) (ID : bytes) (strategy : Z)
    : M rv RvReturnCode :=
  s ← get_st;
  match scopeIndex s !! ID with
  | None =>
      sc ← new_root_scope strategy;
      _ ← mod_st (set_scopeIndex (insert ID sc));
      new ← add_scope_publisher sc publisher ID;
      mret (if (new : bool) then SUCCESS else EXISTS)
  | Some sc =>
      o ← get_scope sc;
      if (sc_strategy o =? strategy)%Z then
        new ← add_scope_publisher sc publisher ID;
        mret (if (new : bool) then SUCCESS else EXISTS)
      else mret STRATEGY_MISMATCH
  end.

Definition publish_inner_scope (publisher : positive) (ID prefixID : bytes) (strategy : Z)
    : M rv RvReturnCode :=
  let fullID := prefixID ++ ID in
  s ← get_st;
  match pubIndex s !! fullID with
  | Some _ => mret INFO_ITEM_WITH_SAME_ID
  | None =>
    match scopeIndex s !! prefixID with
    | None => mret FATHER_DOES_NOT_EXIST
    | Some fatherScope =>
      match scopeIndex s !! fullID with
      | None =>
          fa ← get_scope fatherScope;
          if (sc_strategy fa =? strategy)%Z then
            sc ← new_scope strategy fatherScope;
            _ ← update_graph sc (suffix fullID);
            new ← add_scope_publisher sc publisher fullID;
            if (new : bool) then
              fa ← get_scope fatherScope;
              o ← get_scope sc;
              _ ← notifySubscribers SCOPE_PUBLISHED (getIDs o) (sc_strategy o)
                    (Scope_getSubscribers fa);
              mret SUCCESS
            else mret EXISTS
          else mret STRATEGY_MISMATCH
      | Some sc =>
          o ← get_scope sc;
          if (sc_strategy o =? strategy)%Z then
            new ← add_scope_publisher sc publisher fullID;
            mret (if (new : bool) then SUCCESS else EXISTS)
          else mret STRATEGY_MISMATCH
      end
    end
  end.

Definition republish_inner_scope (publisher : positive) (ID prefixID : bytes) (strategy : Z)
    : M rv RvReturnCode :=
  let suffixID := suffix ID in
  let fullID := prefixID ++ suffixID in
  let existingPrefixID := prefix ID in
  s ← get_st;
  match pubIndex s !! fullID with
  | Some _ => mret INFO_ITEM_WITH_SAME_ID
  | None =>
    match scopeIndex s !! prefixID with
    | None => mret FATHER_DOES_NOT_EXIST
    | Some fatherScope =>
      match scopeIndex s !! ID with
      | None => mret SCOPE_DOES_NOT_EXIST
      | Some existingScope =>
        match scopeIndex s !! fullID with
        | None =>
            fa ← get_scope fatherScope;
            if (sc_strategy fa =? strategy)%Z then
              _ ← mod_scope existingScope (with_fathers (λ X, {[fatherScope]} ∪ X));
              _ ← mod_scope fatherScope (with_children (λ X, {[existingScope]} ∪ X));
              _ ← update_graph existingScope suffixID;
              new ← add_scope_publisher existingScope publisher fullID;
              if (new : bool) then
                fa ← get_scope fatherScope;
                o ← get_scope existingScope;
                _ ← notifySubscribers SCOPE_PUBLISHED
                      (getIDs o ∖ {[existingPrefixID ++ suffixID]}) (sc_strategy o)
                      (Scope_getSubscribers fa);
                mret SUCCESS
              else mret EXISTS
            else mret STRATEGY_MISMATCH
        | Some equivalentScope =>
            o ← get_scope equivalentScope;
            if (sc_strategy o =? strategy)%Z then
              new ← add_scope_publisher equivalentScope publisher fullID;
              mret (if (new : bool) then SUCCESS else EXISTS)
            else mret STRATEGY_MISMATCH
        end
      end
    end
  end.

Definition publish_scope (publisher : positive) (ID prefixID : bytes) (strategy : Z)
    : M rv RvReturnCode :=
  if decide (length prefixID = 0 ∧ length ID = PURSUIT_ID_LEN) then
    publish_root_scope publisher ID strategy
  else if decide (0 < length prefixID ∧ length ID = PURSUIT_ID_LEN) then
    publish_inner_scope publisher ID prefixID strategy
  else if decide (0 < length prefixID ∧ PURSUIT_ID_LEN < length ID) then
    republish_inner_scope publisher ID prefixID strategy
  else mret WRONG_IDS.

(** ** Advertisement of information items *)

Definition add_item_publisher (pub publisher : positive) (fullID : bytes) : M rv bool :=
  new ← InformationItem_updatePublishers pub fullID publisher;
  _ ← (if (new : bool) then published_info publisher (set_add fullID) else mret tt);
  mret new.

(** The publications under a reserved root scope are one-shot: the
    publishers are removed. *)
Definition unpublish_all (pub : positive) (ID prefixID : bytes) (strategy : Z)
    (update_only : bool) : M rv unit :=
  it ← get_item pub;
  for_each (ptr_order (getPublishers it)) (λ h,
    _ ← unpublish_info h ID prefixID strategy update_only; mret tt).

(** The rendezvous after an advertisement. *)
Definition match_publication (pub : positive) (subscribers : gset positive)
    (ID prefixID : bytes) (strategy : Z) (update_only : bool) : M rv unit :=
  it ← get_item pub;
  known ← first_root_known (getRootScopes it);
  _ ← rendezvous pub subscribers update_only;
  if (known : bool) then
    if decide (0 < size subscribers)
    then unpublish_all pub ID prefixID strategy update_only
    else mret tt
  else mret tt.

Definition advertise_info (publisher : positive) (ID prefixID : bytes) (strategy : Z)
    (update_only : bool) : M rv RvReturnCode :=
  let fullID := prefixID ++ ID in
  s ← get_st;
  match scopeIndex s !! prefixID with
  | None => mret FATHER_DOES_NOT_EXIST
  | Some fatherScope =>
    fa ← get_scope fatherScope;
    match pubIndex s !! fullID with
    | None =>
      match scopeIndex s !! fullID with
      | Some _ => mret SCOPE_WITH_SAME_ID
      | None =>
          if (sc_strategy fa =? strategy)%Z then
            pub ← new_item (sc_strategy fa) fatherScope;
            _ ← updateIDs pub (suffix fullID);
            new ← add_item_publisher pub publisher fullID;
            if (new : bool) then
              it ← get_item pub;
              fa ← get_scope fatherScope;
              _ ← match_publication pub
                    (InformationItem_getSubscribers it ∪ Scope_getSubscribers fa)
                    ID prefixID strategy update_only;
              mret SUCCESS
            else mret EXISTS
          else mret STRATEGY_MISMATCH
      end
    | Some pub =>
        if (sc_strategy fa =? strategy)%Z then
          new ← add_item_publisher pub publisher fullID;
          if (new : bool) then
            subscribers ← item_subscribers pub;
            _ ← match_publication pub subscribers ID prefixID strategy update_only;
            mret SUCCESS
          else mret EXISTS
        else mret STRATEGY_MISMATCH
    end
  end.

Definition readvertise_info (publisher : positive) (ID prefixID : bytes) (strategy : Z)
    (update_only : bool) : M rv RvReturnCode :=
  let suffixID := suffix ID in
  let fullID := prefixID ++ suffixID in
  s ← get_st;
  match scopeIndex s !! fullID with
  | Some _ => mret SCOPE_WITH_SAME_ID
  | None =>
    match scopeIndex s !! prefixID with
    | None => mret FATHER_DOES_NOT_EXIST
    | Some fatherScope =>
      match pubIndex s !! ID with
      | None => mret INFO_DOES_NOT_EXIST
      | Some existingPub =>
        fa ← get_scope fatherScope;
        match pubIndex s !! fullID with
        | None =>
            if (sc_strategy fa =? strategy)%Z then
              _ ← mod_item existingPub (it_with_fathers (λ X, {[fatherScope]} ∪ X));
              _ ← mod_scope fatherScope (with_items (λ X, {[existingPub]} ∪ X));
              _ ← updateIDs existingPub suffixID;
              new ← add_item_publisher existingPub publisher fullID;
              if (new : bool) then
                subscribers ← item_subscribers existingPub;
                _ ← match_publication existingPub subscribers suffixID prefixID strategy
                      update_only;
                mret SUCCESS
              else mret EXISTS
            else mret STRATEGY_MISMATCH
        | Some equivalentPub =>
            if (sc_strategy fa =? strategy)%Z then
              new ← add_item_publisher equivalentPub publisher fullID;
              if (new : bool) then
                subscribers ← item_subscribers equivalentPub;
                _ ← match_publication equivalentPub subscribers suffixID prefixID strategy
                      update_only;
                mret SUCCESS
              else mret EXISTS
            else mret STRATEGY_MISMATCH
        end
      end
    end
  end.

Definition publish_info (publisher : positive) (ID prefixID : bytes) (strategy : Z)
    (update_only : bool) : M rv RvReturnCode :=
  if decide (0 < length prefixID ∧ length ID = PURSUIT_ID_LEN) then
    advertise_info publisher ID prefixID strategy update_only
  else if decide (0 < length prefixID ∧ PURSUIT_ID_LEN < length ID) then
    readvertise_info publisher ID prefixID strategy update_only
  else mret WRONG_IDS.

(** ** Subscription *)

Definition add_scope_subscriber (sc subscriber : positive) (fullID : bytes) : M rv bool :=
  new ← Scope_updateSubscribers sc fullID subscriber;
  _ ← (if (new : bool) then subscribed_scope subscriber (set_add fullID) else mret tt);
  mret new.

Definition add_item_subscriber (pub subscriber : positive) (fullID : bytes) : M rv bool :=
  new ← InformationItem_updateSubscribers pub fullID subscriber;
  _ ← (if (new : bool) then subscribed_info subscriber (set_add fullID) else mret tt);
  mret new.

(** A new subscriber learns the subscopes that exist. *)
Definition announce_subscopes (sc subscriber : positive) : M rv unit :=
  o ← get_scope sc;
  for_each (ptr_order (childrenScopes o)) (λ c,
    ch ← get_scope c;
    notifySubscribers SCOPE_PUBLISHED (getIDs ch) (sc_strategy ch) {[subscriber]}).

(** The one-shot unpublication in a subscription: the identifier of the
    item is read again for each publisher. *)
Definition unpublish_matched (pub : positive) (prefixID : bytes) (strategy : Z)
    (update_only : bool) : M rv unit :=
  it ← get_item pub;
  for_each (ptr_order (getPublishers it)) (λ h,
    it ← get_item pub;
    sfx ← first_suffix (it_ids it);
    _ ← unpublish_info h sfx prefixID strategy update_only; mret tt).

Definition match_root_item (pub : positive) (ID : bytes) (strategy : Z) (update_only : bool)
    : M rv unit :=
  subscribers ← item_subscribers pub;
  s ← get_st;
  _ ← rendezvous pub subscribers update_only;
  if decide (ID ∈ known_rootscopes s)
  then unpublish_matched pub ID strategy update_only
  else mret tt.

Definition subscribe_root_scope (subscriber : positive) (ID : bytes) (strategy : Z)
    (update_only : bool) : M rv RvReturnCode :=
  s ← get_st;
  match scopeIndex s !! ID with
  | None =>
      sc ← new_root_scope strategy;
      _ ← mod_st (set_scopeIndex (insert ID sc));
      new ← add_scope_subscriber sc subscriber ID;
      mret (if (new : bool) then SUCCESS else EXISTS)
  | Some sc =>
      o ← get_scope sc;
      if (sc_strategy o =? strategy)%Z then
        new ← add_scope_subscriber sc subscriber ID;
        if (new : bool) then
          _ ← announce_subscopes sc subscriber;
          o ← get_scope sc;
          _ ← for_each (ptr_order (informationitems o)) (λ pub,
                match_root_item pub ID strategy update_only);
          mret SUCCESS
        else mret EXISTS
      else mret STRATEGY_MISMATCH
  end.

(** The loop of subscribe_inner_scope; [roots] ([_RootScopeids]) grows from
    item to item. *)
Fixpoint match_inner_items (fullID : bytes) (strategy : Z) (update_only : bool)
    (roots : gset bytes) (pubs : list positive) : M rv unit :=
  match pubs with
  | [] => mret tt
  | pub :: pubs =>
      subscribers ← item_subscribers pub;
      it ← get_item pub;
      let roots := roots ∪ getRootScopes it in
      known ← first_root_known roots;
      _ ← rendezvous pub subscribers update_only;
      _ ← (if (known : bool) then unpublish_matched pub fullID strategy update_only
           else mret tt);
      match_inner_items fullID strategy update_only roots pubs
  end.

Definition subscribe_inner_scope (subscriber : positive) (ID prefixID : bytes) (strategy : Z)
    (update_only : bool) : M rv RvReturnCode :=
  let fullID := prefixID ++ ID in
  s ← get_st;
  match pubIndex s !! fullID with
  | Some _ => mret INFO_ITEM_WITH_SAME_ID
  | None =>
    match scopeIndex s !! prefixID with
    | None => mret FATHER_DOES_NOT_EXIST
    | Some fatherScope =>
      match scopeIndex s !! fullID with
      | None =>
          fa ← get_scope fatherScope;
          if (sc_strategy fa =? strategy)%Z then
            sc ← new_scope strategy fatherScope;
            _ ← update_graph sc (suffix fullID);
            new ← add_scope_subscriber sc subscriber fullID;
            if (new : bool) then
              fa ← get_scope fatherScope;
              o ← get_scope sc;
              _ ← notifySubscribers SCOPE_PUBLISHED (getIDs o) (sc_strategy o)
                    (Scope_getSubscribers fa);
              mret SUCCESS
            else mret EXISTS
          else mret STRATEGY_MISMATCH
      | Some sc =>
          o ← get_scope sc;
          if (sc_strategy o =? strategy)%Z then
            new ← add_scope_subscriber sc subscriber fullID;
            if (new : bool) then
              _ ← announce_subscopes sc subscriber;
              o ← get_scope sc;
              _ ← match_inner_items fullID strategy update_only ∅
                    (ptr_order (informationitems o));
              mret SUCCESS
            else mret EXISTS
          else mret STRATEGY_MISMATCH
      end
    end
  end.

Definition subscribe_scope (subscriber : positive) (ID prefixID : bytes) (strategy : Z)
    (update_only : bool) : M rv RvReturnCode :=
  if decide (length prefixID = 0 ∧ length ID = PURSUIT_ID_LEN) then
    subscribe_root_scope subscriber ID strategy update_only
  else if decide (0 < length prefixID ∧ length ID = PURSUIT_ID_LEN) then
    subscribe_inner_scope subscriber ID prefixID strategy update_only
  else mret WRONG_IDS.

Definition subscribe_info (subscriber : positive) (ID prefixID : bytes) (strategy : Z)
    (update_only : bool) : M rv RvReturnCode :=
  if decide (0 < length prefixID ∧ length ID = PURSUIT_ID_LEN) then
    let fullID := prefixID ++ ID in
    s ← get_st;
    match scopeIndex s !! prefixID with
    | None => mret FATHER_DOES_NOT_EXIST
    | Some fatherScope =>
      fa ← get_scope fatherScope;
      match pubIndex s !! fullID with
      | None =>
        match scopeIndex s !! fullID with
        | Some _ => mret SCOPE_WITH_SAME_ID
        | None =>
            if (sc_strategy fa =? strategy)%Z then
              pub ← new_item (sc_strategy fa) fatherScope;
              _ ← updateIDs pub (suffix fullID);
              new ← add_item_subscriber pub subscriber fullID;
              mret (if (new : bool) then SUCCESS else EXISTS)
            else mret STRATEGY_MISMATCH
        end
      | Some pub =>
          if (sc_strategy fa =? strategy)%Z then
            new ← add_item_subscriber pub subscriber fullID;
            if (new : bool) then
              subscribers ← item_subscribers pub;
              it ← get_item pub;
              known ← first_root_known (getRootScopes it);
              _ ← rendezvous pub subscribers update_only;
              _ ← (if (known : bool) then unpublish_all pub ID prefixID strategy update_only
                   else mret tt);
              mret SUCCESS
            else mret EXISTS
          else mret STRATEGY_MISMATCH
      end
    end
  else mret WRONG_IDS.

(** ** Unsubscription *)

Definition rendezvous_items (sc : positive) (update_only : bool) : M rv unit :=
  o ← get_scope sc;
  for_each (ptr_order (informationitems o)) (λ pub, rendezvous_again pub update_only).

Definition unsubscribe_scope (subscriber : positive) (ID prefixID : bytes) (strategy : Z)
    (update_only : bool) : M rv RvReturnCode :=
  let RootScopeid := take PURSUIT_ID_LEN prefixID in
  let fullID := prefixID ++ ID in
  s ← get_st;
  match scopeIndex s !! fullID with
  | None => mret SCOPE_DOES_NOT_EXIST
  | Some sc =>
      o ← get_scope sc;
      if (sc_strategy o =? strategy)%Z then
        pr ← deref (sc_ids o !! fullID);
        if decide (subscriber ∈ second pr) then
          _ ← drop_scope_subscriber sc subscriber fullID pr;
          match scopeIndex s !! prefixID with
          | Some fatherScope =>
              _ ← (if decide (RootScopeid ∈ known_rootscopes s) then mret tt
                   else rendezvous_items sc update_only);
              _ ← collect_scope sc fatherScope fullID;
              mret SUCCESS
          | None =>
              _ ← (if decide (fullID ∈ known_rootscopes s) then mret tt
                   else rendezvous_items sc update_only);
              _ ← collect_root_scope sc;
              mret SUCCESS
          end
        else mret DOES_NOT_EXIST
      else mret STRATEGY_MISMATCH
  end.

Definition unsubscribe_info (subscriber : positive) (ID prefixID : bytes) (strategy : Z)
    (update_only : bool) : M rv RvReturnCode :=
  let fullID := prefixID ++ ID in
  s ← get_st;
  match pubIndex s !! fullID with
  | None => mret INFO_DOES_NOT_EXIST
  | Some pub =>
      fatherScope ← deref (scopeIndex s !! prefixID);
      fa ← get_scope fatherScope;
      if (sc_strategy fa =? strategy)%Z then
        it ← get_item pub;
        pr ← deref (it_ids it !! fullID);
        if decide (subscriber ∈ second pr) then
          _ ← drop_item_subscriber pub subscriber fullID pr;
          _ ← rendezvous_unless_known (getRootScopes it) pub update_only;
          _ ← collect_item pub fatherScope;
          mret SUCCESS
        else mret DOES_NOT_EXIST
      else mret STRATEGY_MISMATCH
  end.

(** ** The element *)

(** LocalRV::initialize *)
Definition initialize : M rv unit :=
  lp ← getRemoteHost (nodeID gc);
  _ ← mod_st (set_localProxy (Some lp));
  _ ← send_fields 100 [[SUBSCRIBE_SCOPE]; [1%Z]; RVScope gc; [0%Z]; [IMPLICIT_RENDEZVOUS]];
  _ ← send_fields 100 [[SUBSCRIBE_SCOPE]; [1%Z]; RVScopeUC gc; [1%Z]; RVScope gc;
                       [IMPLICIT_RENDEZVOUS]];
  _ ← mod_st (set_known (set_add (IP_ROOTSCOPE gc)));
  mod_st (set_known (set_add (HTTP_ROOTSCOPE gc))).

(** LocalRV::cleanup.  Freeing an object twice faults. *)
Definition free_host (id : bytes) : M rv unit :=
  s ← get_st;
  h ← live (pub_sub_Index s !! id);
  _ ← get_host h;
  _ ← mod_st (set_hosts (delete h));
  mod_st (set_pub_sub_Index (delete id)).

Fixpoint free_scopes (ids : list bytes) (deleted : gset positive) : M rv unit :=
  match ids with
  | [] => mret tt
  | id :: ids =>
      s ← get_st;
      sc ← live (scopeIndex s !! id);
      _ ← (if decide (sc ∈ deleted) then mret tt
           else _ ← get_scope sc; mod_st (set_scopes (delete sc)));
      _ ← mod_st (set_scopeIndex (delete id));
      free_scopes ids ({[sc]} ∪ deleted)
  end.

Fixpoint free_items (ids : list bytes) (deleted : gset positive) : M rv unit :=
  match ids with
  | [] => mret tt
  | id :: ids =>
      s ← get_st;
      ii ← live (pubIndex s !! id);
      _ ← (if decide (ii ∈ deleted) then mret tt
           else _ ← get_item ii; mod_st (set_items (delete ii)));
      _ ← mod_st (set_pubIndex (delete id));
      free_items ids ({[ii]} ∪ deleted)
  end.

Definition cleanup : M rv unit :=
  s ← get_st;
  _ ← for_each (str_order (dom (pub_sub_Index s))) free_host;
  _ ← free_scopes (str_order (dom (scopeIndex s))) ∅;
  free_items (str_order (dom (pubIndex s))) ∅.

(** Reading the packet: an access past its end faults. *)
Definition read_bytes {S : Type} (p : bytes) (off len : nat) : M S bytes :=
  if decide (off + len ≤ length p) then mret (substr p off len) else throw BufferOverflow.
Definition read_byte {S : Type} (p : bytes) (off : nat) : M S Z :=
  match p !! off with Some b => mret b | None => throw BufferOverflow end.

Record request := mkRequest {
  rq_node : bytes; rq_type : Z; rq_ID : bytes; rq_prefixID : bytes; rq_strategy : Z;
}.

(** The fields of a PUBLISHED_DATA event: its identifier ends in the label
    of the node that made the request. *)
Definition parse_request (p : bytes) (IDOfAPIEvent : bytes) : M rv request :=
  let off := 1 + 1 + length IDOfAPIEvent in
  type ← read_byte p off;
  idlen ← read_byte p (off + 1);
  ID ← read_bytes p (off + 1 + 1) (Z.to_nat idlen * PURSUIT_ID_LEN);
  plen ← read_byte p (off + 1 + 1 + length ID);
  prefixID ← read_bytes p (off + 1 + 1 + length ID + 1) (Z.to_nat plen * PURSUIT_ID_LEN);
  strategy ← read_byte p (off + 1 + 1 + length ID + 1 + length prefixID);
  mret (mkRequest (drop PURSUIT_ID_LEN IDOfAPIEvent) type ID prefixID strategy).

(** The switch of LocalRV::push: unsubscriptions only update identifiers. *)
Definition dispatch (h : positive) (r : request) : M rv RvReturnCode :=
  let ID := rq_ID r in
  let prefixID := rq_prefixID r in
  let strategy := rq_strategy r in
  if (rq_type r =? PUBLISH_SCOPE)%Z then publish_scope h ID prefixID strategy
  else if (rq_type r =? PUBLISH_INFO)%Z then publish_info h ID prefixID strategy false
  else if (rq_type r =? UNPUBLISH_SCOPE)%Z then unpublish_scope h ID prefixID strategy false
  else if (rq_type r =? UNPUBLISH_INFO)%Z then unpublish_info h ID prefixID strategy false
  else if (rq_type r =? SUBSCRIBE_SCOPE)%Z then subscribe_scope h ID prefixID strategy false
  else if (rq_type r =? SUBSCRIBE_INFO)%Z then subscribe_info h ID prefixID strategy false
  else if (rq_type r =? UNSUBSCRIBE_SCOPE)%Z then unsubscribe_scope h ID prefixID strategy true
  else if (rq_type r =? UNSUBSCRIBE_INFO)%Z then unsubscribe_info h ID prefixID strategy true
  else mret UNKNOWN_REQUEST_TYPE.

Definition handle_request (r : request) : M rv RvReturnCode :=
  h ← getRemoteHost (rq_node r); dispatch h r.

Fixpoint read_isubscribers (p : bytes) (off : nat) (n : nat) (acc : gset bytes)
    : M rv (gset bytes) :=
  match n with
  | O => mret acc
  | S n =>
      id ← read_bytes p off NODEID_LEN;
      read_isubscribers p (off + NODEID_LEN) n ({[id]} ∪ acc)
  end.

(** LocalRV::push; the result is the code of a request. *)
Definition push (in_port : Z) (p : bytes) : M rv (option RvReturnCode) :=
  if (in_port =? 0)%Z then
    typeOfAPIEvent ← read_byte p 0;
    IDLengthOfAPIEvent ← read_byte p 1;
    IDOfAPIEvent ← read_bytes p 2 (Z.to_nat IDLengthOfAPIEvent * PURSUIT_ID_LEN);
    if (typeOfAPIEvent =? PUBLISHED_DATA)%Z then
      r ← parse_request p IDOfAPIEvent;
      code ← handle_request r;
      _ ← push_event Killed;
      mret (Some code)
    else if (typeOfAPIEvent =? PUBLISHED_DATA_iSUB)%Z then
      n ← read_byte p (1 + 1 + length IDOfAPIEvent);
      isubscribers ← read_isubscribers p (1 + 1 + length IDOfAPIEvent + 1) (Z.to_nat n) ∅;
      _ ← requestTMAssistanceForiSubscription isubscribers false;
      mret None
    else mret None
  else mret None.
End localrv.
