(* ===== verification/RVInv.v ===== *)
(** * The invariant of the rendezvous element

    The graph is well formed ([GraphInv]), and the records of the hosts agree
    with the tables of the nodes: a host is a publisher (subscriber) under an
    identifier of a scope or an item exactly when that identifier is in its
    set of published (subscribed) scopes or items, and hosts are found in the
    index under their labels.

    This file states the invariant [inv] and proves what the helper functions
    of LocalRV do to it; [RVSafety] treats the request handlers. *)
From stdpp Require Import base list gmap sets.
From Stdlib Require Import ZArith Lia.
From S2P Require Import Prelude Enums Bitvector GlobalConf InfoGraph GraphInv LocalRV.

(** ** Publishers and subscribers *)
Inductive role := Pub | Sub.

#[export] Instance role_eq_dec : EqDecision role.
Proof. solve_decision. Defined.

Definition side (r : role) (pr : RemoteHostPair) : gset positive :=
  match r with Pub => first pr | Sub => second pr end.

(** [h] publishes, or subscribes to, the node [n] under [id]. *)
Definition rel (s : Store) (r : role) (n : node) (id : bytes) (h : positive) : Prop :=
  ∃ pr, pair_at s n id = Some pr ∧ h ∈ side r pr.

Lemma rel_has s r n id h : rel s r n id h → has s n id.
Proof. intros (pr & Hpr & _). by exists pr. Qed.

(** The set of a host for a role and a kind of node. *)
Definition hset (r : role) (n : node) (rh : RemoteHost) : gset bytes :=
  match r, n with
  | Pub, NS _ => publishedScopes rh
  | Pub, NI _ => publishedInformationItems rh
  | Sub, NS _ => subscribedScopes rh
  | Sub, NI _ => subscribedInformationItems rh
  end.

Definition hset_upd (r : role) (n : node) (f : gset bytes → gset bytes) (rh : RemoteHost)
    : RemoteHost :=
  match r, n with
  | Pub, NS _ => mkHost (remoteHostID rh) (f (publishedScopes rh))
      (publishedInformationItems rh) (subscribedScopes rh) (subscribedInformationItems rh)
  | Pub, NI _ => mkHost (remoteHostID rh) (publishedScopes rh)
      (f (publishedInformationItems rh)) (subscribedScopes rh) (subscribedInformationItems rh)
  | Sub, NS _ => mkHost (remoteHostID rh) (publishedScopes rh)
      (publishedInformationItems rh) (f (subscribedScopes rh)) (subscribedInformationItems rh)
  | Sub, NI _ => mkHost (remoteHostID rh) (publishedScopes rh)
      (publishedInformationItems rh) (subscribedScopes rh) (f (subscribedInformationItems rh))
  end.

(** Both are scopes, or both are items. *)
Definition same_kind (n m : node) : Prop :=
  match n, m with NS _, NS _ | NI _, NI _ => True | _, _ => False end.

#[export] Instance same_kind_dec n m : Decision (same_kind n m).
Proof. destruct n, m; simpl; apply _. Defined.

Lemma hset_upd_eq r r' n m f rh :
  hset r' m (hset_upd r n f rh)
    = if decide (r' = r ∧ same_kind n m) then f (hset r n rh) else hset r' m rh.
Proof. case_decide as Hc; destruct r, r', n, m; simpl in *; naive_solver. Qed.

Lemma hset_kind r n m rh : same_kind n m → hset r n rh = hset r m rh.
Proof. by destruct r, n, m. Qed.

Record hosts_ok (s : Store) : Prop := {
  ho_idx id h : pub_sub_Index s !! id = Some h ↔
    ∃ rh, hosts s !! h = Some rh ∧ remoteHostID rh = id;
  ho_rel r n id h : rel s r n id h → ∃ rh, hosts s !! h = Some rh ∧ id ∈ hset r n rh;
  ho_set r n id h rh : hosts s !! h = Some rh → id ∈ hset r n rh →
    ∃ m, same_kind n m ∧ rel s r m id h;
  ho_lp h : localProxy s = Some h → is_Some (hosts s !! h);
}.

(** The tables of the hosts are untouched. *)
Record same_hosts (s s' : Store) : Prop := {
  sh_hosts : hosts s' = hosts s;
  sh_psi : pub_sub_Index s' = pub_sub_Index s;
  sh_lp : localProxy s' = localProxy s;
}.

Lemma hosts_ok_quiet s s' : hosts_ok s → same_hosts s s' →
  (∀ r n id h, rel s' r n id h ↔ rel s r n id h) → hosts_ok s'.
Proof.
  intros [] [Hh Hp Hl] Hrel. constructor.
  - intros id h. by rewrite Hp, Hh.
  - intros r n id h. rewrite Hrel, Hh. apply ho_rel0.
  - intros r n id h rh. rewrite Hh. setoid_rewrite Hrel. apply ho_set0.
  - intros h. rewrite Hl, Hh. apply ho_lp0.
Qed.

(** [h] gained the role [r] at [n] under [id]. *)
Lemma hosts_ok_join s s' r n id h rh : hosts_ok s → hosts s !! h = Some rh →
  (∀ r' m x g, rel s' r' m x g ↔ rel s r' m x g ∨ (r' = r ∧ m = n ∧ x = id ∧ g = h)) →
  hosts s' = <[h := hset_upd r n (set_add id) rh]> (hosts s) →
  pub_sub_Index s' = pub_sub_Index s → localProxy s' = localProxy s → hosts_ok s'.
Proof.
  intros [] Hh Hrel Hhosts Hpsi Hlp.
  assert (remoteHostID (hset_upd r n (set_add id) rh) = remoteHostID rh) as Hid
    by by destruct r, n.
  constructor.
  - intros x g. rewrite Hpsi, Hhosts, ho_idx0, lookup_insert. case_decide; [|done].
    subst g. naive_solver.
  - intros r' m x g Hr%Hrel. rewrite Hhosts, lookup_insert. destruct Hr as [Hr|(-> & -> & -> & ->)].
    + destruct (ho_rel0 _ _ _ _ Hr) as (rg & Hg & Hin). case_decide; [|eauto].
      subst g. simplify_eq. eexists. split; [done|]. rewrite hset_upd_eq. unfold set_add.
      case_decide as Hc; [|done]. destruct Hc as [-> Hk]. rewrite (hset_kind r n m) by done. set_solver.
    + rewrite decide_True by done. eexists. split; [done|]. rewrite hset_upd_eq.
      rewrite decide_True by (by destruct n). unfold set_add. set_solver.
  - intros r' m x g rg. rewrite Hhosts, lookup_insert. setoid_rewrite Hrel. case_decide as Hgh.
    + subst g. intros [= <-]. rewrite hset_upd_eq. case_decide as Hc.
      * destruct Hc as [-> Hk]. unfold set_add. intros [->%elem_of_singleton|Hx]%elem_of_union.
        -- exists n. split; [by destruct n, m|]. right. done.
        -- destruct (ho_set0 r n x h rh Hh Hx) as (m' & Hk' & Hr).
           exists m'. split; [by destruct n, m, m'|by left].
      * intros Hx. destruct (ho_set0 r' m x h rh Hh Hx) as (m' & Hk' & Hr). eauto.
    + intros Hg Hx. destruct (ho_set0 r' m x g rg Hg Hx) as (m' & Hk' & Hr). eauto.
  - intros g. rewrite Hlp, Hhosts, lookup_insert. case_decide; [|auto]. intros _. by eexists.
Qed.

(** [h] lost the role [r] at [n] under [id]; nobody else owns [id]. *)
Lemma hosts_ok_leave s s' r n id h rh : hosts_ok s → hosts s !! h = Some rh →
  (∀ m, has s m id → m = n) →
  (∀ r' m x g, rel s' r' m x g ↔ rel s r' m x g ∧ ¬ (r' = r ∧ m = n ∧ x = id ∧ g = h)) →
  hosts s' = <[h := hset_upd r n (set_del id) rh]> (hosts s) →
  pub_sub_Index s' = pub_sub_Index s → localProxy s' = localProxy s → hosts_ok s'.
Proof.
  intros [] Hh Hown Hrel Hhosts Hpsi Hlp.
  assert (remoteHostID (hset_upd r n (set_del id) rh) = remoteHostID rh) as Hid
    by by destruct r, n.
  constructor.
  - intros x g. rewrite Hpsi, Hhosts, ho_idx0, lookup_insert. case_decide; [|done].
    subst g. naive_solver.
  - intros r' m x g [Hr Hno]%Hrel. rewrite Hhosts, lookup_insert.
    destruct (ho_rel0 _ _ _ _ Hr) as (rg & Hg & Hin). case_decide; [|eauto].
    subst g. simplify_eq. eexists. split; [done|]. rewrite hset_upd_eq. unfold set_del.
    case_decide as Hc; [|done]. destruct Hc as [-> Hk]. rewrite (hset_kind r n m) by done.
    apply elem_of_difference. split; [done|]. intros ->%elem_of_singleton. apply Hno.
    split_and!; try done. apply Hown. by eapply rel_has.
  - intros r' m x g rg. rewrite Hhosts, lookup_insert. setoid_rewrite Hrel. case_decide as Hgh.
    + subst g. intros [= <-]. rewrite hset_upd_eq. case_decide as Hc.
      * destruct Hc as [-> Hk]. unfold set_del. intros [Hx Hxid]%elem_of_difference.
        destruct (ho_set0 r n x h rh Hh Hx) as (m' & Hk' & Hr).
        exists m'. split; [by destruct n, m, m'|]. split; [done|]. set_solver.
      * intros Hx. destruct (ho_set0 r' m x h rh Hh Hx) as (m' & Hk' & Hr).
        exists m'. split_and!; [done..|]. intros (-> & -> & _ & _). apply Hc. by destruct n, m.
    + intros Hg Hx. destruct (ho_set0 r' m x g rg Hg Hx) as (m' & Hk' & Hr).
      exists m'. split_and!; [done..|]. naive_solver.
  - intros g. rewrite Hlp, Hhosts, lookup_insert. case_decide; [|auto]. intros _. by eexists.
Qed.

(** ** The invariant *)
Definition inv (s : Store) : Prop := (∃ sf, wf_clean sf s) ∧ hosts_ok s.

Definition host_alive (s : Store) (h : positive) : Prop := is_Some (hosts s !! h).

Lemma elem_of_all_side r ids h :
  h ∈ (match r with Pub => all_first ids | Sub => all_second ids end) ↔
  ∃ id pr, ids !! id = Some pr ∧ h ∈ side r pr.
Proof.
  assert (∀ f : RemoteHostPair → gset positive,
    h ∈ ⋃ (f <$> (map_to_list ids).*2) ↔ ∃ id pr, ids !! id = Some pr ∧ h ∈ f pr) as H.
  { intros f. rewrite elem_of_union_list. split.
    - intros (X & (pr & -> & Hin)%list_elem_of_fmap & Hh).
      apply list_elem_of_fmap in Hin as ([id pr'] & -> & Hin). apply elem_of_map_to_list in Hin. eauto.
    - intros (id & pr & Hid & Hh). exists (f pr). split; [|done].
      apply list_elem_of_fmap. exists pr. split; [done|].
      apply list_elem_of_fmap. exists (id, pr). split; [done|]. by apply elem_of_map_to_list. }
  destruct r; apply H.
Qed.

Lemma getPublishers_rel s i it h : items s !! i = Some it →
  h ∈ getPublishers it ↔ ∃ id, rel s Pub (NI i) id h.
Proof.
  intros Hit. unfold getPublishers. rewrite (elem_of_all_side Pub). unfold rel, pair_at. simpl.
  rewrite Hit. done.
Qed.

Lemma item_getSubscribers_rel s i it h : items s !! i = Some it →
  h ∈ InformationItem_getSubscribers it ↔ ∃ id, rel s Sub (NI i) id h.
Proof.
  intros Hit. unfold InformationItem_getSubscribers. rewrite (elem_of_all_side Sub).
  unfold rel, pair_at. simpl. by rewrite Hit.
Qed.

Lemma scope_getSubscribers_rel s p sc h : scopes s !! p = Some sc →
  h ∈ Scope_getSubscribers sc ↔ ∃ id, rel s Sub (NS p) id h.
Proof.
  intros Hsc. unfold Scope_getSubscribers. rewrite (elem_of_all_side Sub).
  unfold rel, pair_at. simpl. by rewrite Hsc.
Qed.

Lemma rel_host_alive s r n id h : hosts_ok s → rel s r n id h → host_alive s h.
Proof. intros Hok Hr. destruct (ho_rel _ Hok _ _ _ _ Hr) as (rh & ? & _). by exists rh. Qed.

(** ** Functions that only send packets *)
Section quiet.
Context `{HO : HashOrder} (gc : GlobalConf) (F : fault → Prop) (HF : F BufferOverflow).

Definition quiet {A} (m : M rv A) (s : rv) : Prop := wp F m (λ _ s', st s' = st s) s.

Lemma quiet_ret {A} (a : A) s : quiet (mret a) s.
Proof. done. Qed.

(** Quiet steps compose when the next one is quiet on every state with the
    same store. *)
Lemma quiet_bind {A B} (m : M rv A) (k : A → M rv B) s :
  quiet m s → (∀ a s', st s' = st s → quiet (k a) s') → quiet (m ≫= k) s.
Proof.
  intros Hm Hk. apply wp_bind. eapply wp_mono; [done|]. intros a s' Hs'.
  eapply wp_mono; [by apply Hk|]. simpl. congruence.
Qed.

Lemma quiet_wp {A} (m : M rv A) (R : A → Prop) s :
  wp F m (λ a s', st s' = st s ∧ R a) s → quiet m s.
Proof. intros H. eapply wp_mono; [done|]. by intros a s' [? _]. Qed.

Lemma quiet_for_each {A} (l : list A) (body : A → M rv unit) s :
  (∀ a s', a ∈ l → st s' = st s → quiet (body a) s') → quiet (for_each l body) s.
Proof.
  intros Hb. apply (wp_for_each_inv F l body (λ s', st s' = st s)); [done|].
  intros a s' Ha Hs'. eapply wp_mono; [by apply Hb|]. simpl. congruence.
Qed.

Lemma quiet_send len fields s : quiet (send_fields len fields) s.
Proof.
  unfold quiet, send_fields. destruct (memcpys _ _ _) as [p|e] eqn:E; [done|].
  apply wp_throw. revert E. generalize (make_packet len) 0.
  induction fields as [|src fields IH]; intros b off; simpl; [done|].
  destruct (memcpy b off src) as [b'|e'] eqn:E'; [apply IH|].
  intros [= ->]. unfold memcpy in E'. by case_decide; simplify_eq.
Qed.

Lemma quiet_fid_data v s : quiet (fid_data v) s.
Proof. unfold quiet, fid_data. case_decide; [done|by apply wp_throw]. Qed.

Lemma quiet_host_ids l s : (∀ h, h ∈ l → host_alive (st s) h) → quiet (host_ids l) s.
Proof.
  revert s. induction l as [|h l IH]; intros s Hl; simpl; [done|].
  destruct (Hl h) as [rh Hrh]; [left|]. apply quiet_bind.
  { unfold quiet. by eapply wp_get_host. }
  intros a s' Hs'. apply quiet_bind; [|done]. apply IH. rewrite Hs'. intros g Hg. apply Hl. by right.
Qed.

Lemma quiet_request pub pubs subs upd s :
  (∀ h, h ∈ pubs → host_alive (st s) h) → (∀ h, h ∈ subs → host_alive (st s) h) →
  quiet (requestTMAssistanceForRendezvous gc pub pubs subs upd) s.
Proof.
  intros Hp Hs. unfold requestTMAssistanceForRendezvous.
  apply quiet_bind; [apply quiet_fid_data|]. intros fid s1 Hs1.
  apply quiet_bind; [apply quiet_host_ids; intros h ?%elem_of_ptr_order; rewrite Hs1; auto|].
  intros ps s2 Hs2.
  apply quiet_bind; [apply quiet_host_ids; intros h ?%elem_of_ptr_order; rewrite Hs2, Hs1; auto|].
  intros. apply quiet_send.
Qed.

Lemma quiet_request_one pub h subs upd s : host_alive (st s) h →
  (∀ h, h ∈ subs → host_alive (st s) h) →
  quiet (requestTMAssistanceForRendezvous_one gc pub h subs upd) s.
Proof.
  intros [rh Hrh] Hs. unfold requestTMAssistanceForRendezvous_one.
  apply quiet_bind; [apply quiet_fid_data|]. intros fid s1 Hs1.
  apply quiet_bind; [unfold quiet; eapply wp_get_host; [by rewrite Hs1|done]|].
  intros r s2 Hs2.
  apply quiet_bind; [apply quiet_host_ids; intros g ?%elem_of_ptr_order; rewrite Hs2, Hs1; auto|].
  intros. apply quiet_send.
Qed.

Lemma quiet_notify type ids strategy subs s : (∀ h, h ∈ subs → host_alive (st s) h) →
  quiet (notifySubscribers gc type ids strategy subs) s.
Proof.
  intros Hs. unfold notifySubscribers. destruct (_ =? _)%Z.
  - apply quiet_bind; [done|]. intros a s1 Hs1. destruct (localProxy a); [|done].
    case_decide; [|done]. unfold notifyLocalSubscriber, notification_header.
    apply quiet_bind; [|intros; apply quiet_send].
    apply quiet_bind; [apply quiet_fid_data|done].
  - case_decide; [|done]. unfold requestTMAssistanceForNotifyingSubscribers.
    apply quiet_bind; [apply quiet_fid_data|]. intros fid s1 Hs1.
    apply quiet_bind; [apply quiet_host_ids; intros g ?%elem_of_ptr_order; rewrite Hs1; auto|].
    intros. apply quiet_send.
Qed.

(** The root scopes of an item with identifiers are known. *)
Lemma getRootScopes_ne s i it : inv s → items s !! i = Some it → getRootScopes it ≠ ∅.
Proof.
  intros [[sf Hwf] _] Hit. destruct (wf_ne _ _ _ _ Hwf (NI i)) as [id Hid]; [|done|].
  { apply alive_item. eauto. }
  unfold has, pair_at in Hid. simpl in Hid. rewrite Hit in Hid.
  unfold getRootScopes. intros Hempty.
  apply (not_elem_of_empty (C := gset bytes) (take PURSUIT_ID_LEN id)). rewrite <-Hempty.
  apply elem_of_map. exists id. split; [done|]. by apply elem_of_dom.
Qed.

Lemma quiet_first_root roots s : roots ≠ ∅ → quiet (first_root_known roots) s.
Proof. intros Hne. unfold quiet, first_root_known. apply wp_bind, wp_begin_of; [done|]. done. Qed.

Lemma quiet_rendezvous pub subs upd s : inv (st s) → alive (st s) (NI pub) →
  (∀ h, h ∈ subs → host_alive (st s) h) → quiet (rendezvous gc pub subs upd) s.
Proof.
  intros Hinv [it Hit]%alive_item Hs. unfold rendezvous, quiet.
  apply wp_bind. eapply wp_get_item; [done|]. fold (quiet (A := unit)).
  assert (∀ h, h ∈ getPublishers it → host_alive (st s) h) as Hp.
  { intros h Hh. apply (getPublishers_rel (st s) pub) in Hh as [id Hr]; [|done].
    eapply rel_host_alive; [apply Hinv|done]. }
  case_decide; [|done]. destruct (_ =? _)%Z; [|destruct (_ =? _)%Z; [|done]].
  - unfold notifyLocalPublisher, notification_header.
    apply quiet_bind; [apply quiet_bind; [apply quiet_fid_data|done]|].
    intros hdr s1 Hs1. destruct (if decide _ then _ else _); [|apply quiet_send].
    apply quiet_bind; [apply quiet_fid_data|]. intros. apply quiet_send.
  - apply quiet_bind; [by eapply quiet_first_root, getRootScopes_ne|]. intros [] s1 Hs1.
    + apply quiet_for_each. intros h s2 Hh%elem_of_ptr_order Hs2.
      apply quiet_request_one; rewrite Hs2, Hs1; auto.
    + apply quiet_request; rewrite Hs1; auto.
Qed.

Lemma item_subscribers_spec pub s : inv (st s) → alive (st s) (NI pub) →
  wp F (item_subscribers pub) (λ X s', s' = s ∧ ∀ h, h ∈ X → host_alive (st s) h) s.
Proof.
  intros [[sf Hwf] Hok] [it Hit]%alive_item. unfold item_subscribers.
  apply wp_bind. eapply wp_get_item; [done|].
  assert (∀ f, f ∈ ptr_order (it_fathers it) → alive (st s) (NS f)) as Hfs.
  { intros f Hf%elem_of_ptr_order. apply (wf_father _ _ _ _ Hwf (NI pub)).
    exists (it_fathers it). simpl. by rewrite Hit. }
  assert (∀ h, h ∈ InformationItem_getSubscribers it → host_alive (st s) h) as Hacc.
  { intros h Hh. apply (item_getSubscribers_rel (st s) pub) in Hh as [id Hr]; [|done].
    by eapply rel_host_alive. }
  revert Hfs Hacc. generalize (ptr_order (it_fathers it)), (InformationItem_getSubscribers it).
  intros l. induction l as [|f l IH]; intros acc Hfs Hacc; simpl; [by apply wp_ret|].
  destruct (proj1 (alive_scope _ _) (Hfs f ltac:(left))) as [fa Hfa].
  apply wp_bind. eapply wp_get_scope; [done|]. apply IH.
  - intros g Hg. apply Hfs. by right.
  - intros h [?|Hh]%elem_of_union; [auto|].
    apply (scope_getSubscribers_rel (st s) f) in Hh as [id Hr]; [|done].
    by eapply rel_host_alive.
Qed.

Lemma quiet_rendezvous_again pub upd s : inv (st s) → alive (st s) (NI pub) →
  quiet (rendezvous_again gc pub upd) s.
Proof.
  intros Hinv Hpub. unfold rendezvous_again, quiet. apply wp_bind.
  eapply wp_mono; [by apply item_subscribers_spec|]. intros X s' [-> HX].
  by apply quiet_rendezvous.
Qed.

Lemma quiet_unless_known roots pub upd s : roots ≠ ∅ → inv (st s) → alive (st s) (NI pub) →
  quiet (rendezvous_unless_known gc roots pub upd) s.
Proof.
  intros Hne Hinv Hpub. unfold rendezvous_unless_known.
  apply quiet_bind; [by apply quiet_first_root|]. intros [] s1 Hs1; [done|].
  apply quiet_rendezvous_again; by rewrite Hs1.
Qed.
End quiet.

(** ** Joining and leaving *)

(** Everything but who publishes and subscribes is as before. *)
Record calm (s s' : Store) : Prop := {
  ca_rep : repaired s s';
  ca_strategy m : nstrategy s' m = nstrategy s m;
  ca_host h : host_alive s' h ↔ host_alive s h;
  ca_known : known_rootscopes s' = known_rootscopes s;
}.

Definition joined (r : role) (n : node) (id : bytes) (h : positive) (s s' : Store) : Prop :=
  calm s s' ∧
  ∀ r' m x g, rel s' r' m x g ↔ rel s r' m x g ∨ (r' = r ∧ m = n ∧ x = id ∧ g = h).

Definition quitted (r : role) (n : node) (id : bytes) (h : positive) (s s' : Store) : Prop :=
  calm s s' ∧
  ∀ r' m x g, rel s' r' m x g ↔ rel s r' m x g ∧ ¬ (r' = r ∧ m = n ∧ x = id ∧ g = h).

Lemma calm_alive s s' n : calm s s' → alive s' n ↔ alive s n.
Proof. intros Hc. unfold alive. by rewrite (rp_fathers _ _ (ca_rep _ _ Hc)). Qed.
Lemma calm_father s s' n f : calm s s' → father s' n f ↔ father s n f.
Proof. intros Hc. unfold father. by rewrite (rp_fathers _ _ (ca_rep _ _ Hc)). Qed.

(** One pair was replaced and the record of one host. *)
Record touched (n : node) (id : bytes) (pr : RemoteHostPair) (h : positive) (rh : RemoteHost)
    (s s' : Store) : Prop := {
  to_frame : frame s (set_hosts (λ _, hosts s) s');
  to_pair m x : pair_at s' m x = if decide (m = n ∧ x = id) then Some pr else pair_at s m x;
  to_idx m x : idx s' m x ↔ idx s m x;
  to_hosts : hosts s' = <[h := rh]> (hosts s);
}.

Lemma touched_calm n id pr h rh s s' : touched n id pr h rh s s' → has s n id →
  host_alive s h → calm s s'.
Proof.
  intros [[] Hpair Hidx Hh] Hid Hal. constructor; [|done| |done].
  - constructor; try done. intros m x. unfold has. rewrite Hpair. case_decide as Hc; [|done].
    destruct Hc as [-> ->]. split; [done|by eexists].
  - intros g. unfold host_alive. rewrite Hh, lookup_insert. case_decide; [subst|done].
    split; [done|by eexists].
Qed.

Lemma touched_join r n id pr pr0 h rh s s' :
  touched n id pr h (hset_upd r n (set_add id) rh) s s' →
  pair_at s n id = Some pr0 → hosts s !! h = Some rh →
  (∀ r' g, g ∈ side r' pr ↔ g ∈ side r' pr0 ∨ (r' = r ∧ g = h)) →
  inv s → joined r n id h s s' ∧ inv s'.
Proof.
  intros Hto Hp Hh Hside [[sf Hwf] Hok].
  assert (calm s s') as Hcalm by (eapply touched_calm; [done|by eexists..]).
  assert (∀ r' m x g, rel s' r' m x g ↔ rel s r' m x g ∨ (r' = r ∧ m = n ∧ x = id ∧ g = h)) as Hrel.
  { intros r' m x g. unfold rel. rewrite (to_pair _ _ _ _ _ _ _ Hto). case_decide as Hc.
    - destruct Hc as [-> ->]. rewrite Hp. split; intros H; naive_solver.
    - naive_solver. }
  split; [done|]. split; [exists sf; eapply wf_repaired; [done|apply Hcalm]|].
  destruct Hto as [[] _ _ Hhosts]. by eapply hosts_ok_join.
Qed.

Lemma touched_leave r n id pr pr0 h rh s s' :
  touched n id pr h (hset_upd r n (set_del id) rh) s s' →
  pair_at s n id = Some pr0 → hosts s !! h = Some rh →
  (∀ r' g, g ∈ side r' pr ↔ g ∈ side r' pr0 ∧ ¬ (r' = r ∧ g = h)) →
  inv s → quitted r n id h s s' ∧ inv s'.
Proof.
  intros Hto Hp Hh Hside [[sf Hwf] Hok].
  assert (calm s s') as Hcalm by (eapply touched_calm; [done|by eexists..]).
  assert (∀ r' m x g, rel s' r' m x g ↔ rel s r' m x g ∧ ¬ (r' = r ∧ m = n ∧ x = id ∧ g = h)) as Hrel.
  { intros r' m x g. unfold rel. rewrite (to_pair _ _ _ _ _ _ _ Hto). case_decide as Hc.
    - destruct Hc as [-> ->]. rewrite Hp. split; intros H; naive_solver.
    - naive_solver. }
  split; [done|]. split; [exists sf; eapply wf_repaired; [done|apply Hcalm]|].
  destruct Hto as [[] _ _ Hhosts]. eapply hosts_ok_leave; try done.
  intros m Hm. eapply (wf_disj _ _ _ _ Hwf); [done|by eexists].
Qed.

Lemma touched_scope s p sc id pr h rh : scopes s !! p = Some sc →
  touched (NS p) id pr h rh s
    (set_hosts (insert h rh) (set_scopes (insert p (with_ids (insert id pr) sc)) s)).
Proof.
  intros Hsc. constructor.
  - destruct (scope_ids_frame s p (insert id pr) sc Hsc). by constructor.
  - intros m x. change (pair_at (set_hosts _ ?t) m x) with (pair_at t m x).
    rewrite scope_ids_pair by done. destruct m; view; naive_solver.
  - by intros [] x.
  - done.
Qed.

Lemma touched_item s i it id pr h rh : items s !! i = Some it →
  touched (NI i) id pr h rh s
    (set_hosts (insert h rh) (set_items (insert i (it_with_ids (insert id pr) it)) s)).
Proof.
  intros Hit. constructor.
  - destruct (item_ids_frame s i (insert id pr) it Hit). by constructor.
  - intros m x. change (pair_at (set_hosts _ ?t) m x) with (pair_at t m x).
    rewrite item_ids_pair by done. destruct m; view; naive_solver.
  - by intros [] x.
  - done.
Qed.

(** What the update functions do with an identifier that is there. *)
Definition add_side (r : role) (h : positive) (pr : RemoteHostPair) : RemoteHostPair :=
  match r with
  | Pub => mkPair ({[h]} ∪ first pr) (second pr)
  | Sub => mkPair (first pr) ({[h]} ∪ second pr)
  end.

Lemma side_add r r' h g pr : g ∈ side r' (add_side r h pr) ↔ g ∈ side r' pr ∨ (r' = r ∧ g = h).
Proof. destruct r, r'; simpl; set_solver. Qed.

Lemma update_first_run id h ids pr : ids !! id = Some pr →
  update_first id h ids = (bool_decide (h ∉ first pr), <[id := add_side Pub h pr]> ids).
Proof.
  intros Hid. unfold update_first. rewrite Hid. case_decide as Hin.
  - rewrite bool_decide_false by naive_solver. f_equal. symmetry. apply insert_id.
    rewrite Hid. f_equal. destruct pr as [X Y]; simpl in *. f_equal. set_solver.
  - by rewrite bool_decide_true.
Qed.

Lemma update_second_run id h ids pr : ids !! id = Some pr →
  update_second id h ids = (bool_decide (h ∉ second pr), <[id := add_side Sub h pr]> ids).
Proof.
  intros Hid. unfold update_second. rewrite Hid. case_decide as Hin.
  - rewrite bool_decide_false by naive_solver. f_equal. symmetry. apply insert_id.
    rewrite Hid. f_equal. destruct pr as [X Y]; simpl in *. f_equal. set_solver.
  - by rewrite bool_decide_true.
Qed.

Lemma pair_scope s p id pr : pair_at s (NS p) id = Some pr →
  ∃ sc, scopes s !! p = Some sc ∧ sc_ids sc !! id = Some pr.
Proof. unfold pair_at. simpl. destruct (scopes s !! p); [eauto|done]. Qed.
Lemma pair_item s i id pr : pair_at s (NI i) id = Some pr →
  ∃ it, items s !! i = Some it ∧ it_ids it !! id = Some pr.
Proof. unfold pair_at. simpl. destruct (items s !! i); [eauto|done]. Qed.

(** The record of [h] already has what it would be given. *)
Lemma hset_member s r n id h rh : hosts_ok s → hosts s !! h = Some rh → rel s r n id h →
  hset_upd r n (set_add id) rh = rh.
Proof.
  intros Hok Hh Hr. destruct (ho_rel _ Hok _ _ _ _ Hr) as (rh' & Hh' & Hin). simplify_eq.
  assert (set_add id (hset r n rh) = hset r n rh) as Heq by (unfold set_add; set_solver).
  destruct rh, r, n; simpl in *; by rewrite Heq.
Qed.

Section members.
Context (F : fault → Prop).

(** The second half of the four functions below: the set of the host. *)
Lemma join_tail (b : bool) r n id h pr rh s s1 :
  inv (st s) → pair_at (st s) n id = Some pr → hosts (st s) !! h = Some rh →
  out s1 = out s → hosts (st s1) = hosts (st s) →
  touched n id (add_side r h pr) h (hset_upd r n (set_add id) rh) (st s)
    (set_hosts (insert h (hset_upd r n (set_add id) rh)) (st s1)) →
  (b = false → h ∈ side r pr) →
  wp F (_ ← (if b then mod_host h (hset_upd r n (set_add id)) else mret tt); mret b)
    (λ c s', inv (st s') ∧ out s' = out s ∧ joined r n id h (st s) (st s') ∧ c = b) s1.
Proof.
  intros Hinv Hpr Hrh Hout Hhosts Hto Hb.
  destruct (touched_join r n id _ _ h rh _ _ Hto Hpr Hrh) as [Hj Hi];
    [intros; apply side_add|done|].
  apply wp_bind. destruct b.
  - eapply wp_mod_host; [by rewrite Hhosts|]. by apply wp_ret.
  - assert (set_hosts (insert h (hset_upd r n (set_add id) rh)) (st s1) = st s1) as Heq.
    { rewrite (hset_member (st s) _ _ _ h); [|apply Hinv|done|exists pr; auto].
      unfold set_hosts. rewrite insert_id by by rewrite Hhosts. by destruct (st s1). }
    rewrite Heq in Hj, Hi. apply wp_ret, wp_ret. done.
Qed.

Lemma rel_side s r n id h pr : pair_at s n id = Some pr → rel s r n id h ↔ h ∈ side r pr.
Proof. intros Hpr. unfold rel. rewrite Hpr. naive_solver. Qed.

(** Each of the four functions makes [h] a member and tells whether it was
    new, except that Scope::updateSubscribers always answers [true]. *)
Lemma add_scope_publisher_spec sc h id s : inv (st s) → has (st s) (NS sc) id →
  host_alive (st s) h →
  wp F (add_scope_publisher sc h id) (λ b s', inv (st s') ∧ out s' = out s ∧
    joined Pub (NS sc) id h (st s) (st s') ∧ (b = true ↔ ¬ rel (st s) Pub (NS sc) id h)) s.
Proof.
  intros Hinv [pr Hpr] [rh Hrh]. pose proof (pair_scope _ _ _ _ Hpr) as (o & Ho & Hid).
  unfold add_scope_publisher, Scope_updatePublishers, Scope_update.
  apply wp_bind, wp_bind. eapply wp_get_scope; [done|].
  rewrite (update_first_run _ _ _ _ Hid). apply wp_bind. eapply wp_mod_scope; [done|]. apply wp_ret.
  eapply wp_mono; [eapply (join_tail _ Pub (NS sc) _ _ _ _ s); try done|].
  - by apply touched_scope.
  - intros Hb%bool_decide_eq_false. by apply dec_stable.
  - intros b s' (? & ? & ? & ->). split_and!; try done. rewrite (rel_side _ _ _ _ _ _ Hpr). by rewrite bool_decide_eq_true.
Qed.

Lemma add_item_publisher_spec pub h id s : inv (st s) → has (st s) (NI pub) id →
  host_alive (st s) h →
  wp F (add_item_publisher pub h id) (λ b s', inv (st s') ∧ out s' = out s ∧
    joined Pub (NI pub) id h (st s) (st s') ∧ (b = true ↔ ¬ rel (st s) Pub (NI pub) id h)) s.
Proof.
  intros Hinv [pr Hpr] [rh Hrh]. pose proof (pair_item _ _ _ _ Hpr) as (o & Ho & Hid).
  unfold add_item_publisher, InformationItem_updatePublishers, InformationItem_update.
  apply wp_bind, wp_bind. eapply wp_get_item; [done|].
  rewrite (update_first_run _ _ _ _ Hid). apply wp_bind. eapply wp_mod_item; [done|]. apply wp_ret.
  eapply wp_mono; [eapply (join_tail _ Pub (NI pub) _ _ _ _ s); try done|].
  - by apply touched_item.
  - intros Hb%bool_decide_eq_false. by apply dec_stable.
  - intros b s' (? & ? & ? & ->). split_and!; try done. rewrite (rel_side _ _ _ _ _ _ Hpr). by rewrite bool_decide_eq_true.
Qed.

Lemma add_item_subscriber_spec pub h id s : inv (st s) → has (st s) (NI pub) id →
  host_alive (st s) h →
  wp F (add_item_subscriber pub h id) (λ b s', inv (st s') ∧ out s' = out s ∧
    joined Sub (NI pub) id h (st s) (st s') ∧ (b = true ↔ ¬ rel (st s) Sub (NI pub) id h)) s.
Proof.
  intros Hinv [pr Hpr] [rh Hrh]. pose proof (pair_item _ _ _ _ Hpr) as (o & Ho & Hid).
  unfold add_item_subscriber, InformationItem_updateSubscribers, InformationItem_update.
  apply wp_bind, wp_bind. eapply wp_get_item; [done|].
  rewrite (update_second_run _ _ _ _ Hid). apply wp_bind. eapply wp_mod_item; [done|]. apply wp_ret.
  eapply wp_mono; [eapply (join_tail _ Sub (NI pub) _ _ _ _ s); try done|].
  - by apply touched_item.
  - intros Hb%bool_decide_eq_false. by apply dec_stable.
  - intros b s' (? & ? & ? & ->). split_and!; try done. rewrite (rel_side _ _ _ _ _ _ Hpr). by rewrite bool_decide_eq_true.
Qed.

Lemma add_scope_subscriber_spec sc h id s : inv (st s) → has (st s) (NS sc) id →
  host_alive (st s) h →
  wp F (add_scope_subscriber sc h id) (λ b s', inv (st s') ∧ out s' = out s ∧
    joined Sub (NS sc) id h (st s) (st s') ∧ b = true) s.
Proof.
  intros Hinv [pr Hpr] [rh Hrh]. pose proof (pair_scope _ _ _ _ Hpr) as (o & Ho & Hid).
  unfold add_scope_subscriber, Scope_updateSubscribers, Scope_update, update_second_always.
  apply wp_bind, wp_bind. eapply wp_get_scope; [done|].
  rewrite (update_second_run _ _ _ _ Hid). apply wp_bind. eapply wp_mod_scope; [done|]. apply wp_ret.
  eapply wp_mono; [eapply (join_tail true Sub (NS sc) _ _ _ _ s); try done|].
  - by apply touched_scope.
  - by intros b s' (? & ? & ? & ->).
Qed.


(** Leaving: the pair without the host. *)
Definition del_side (r : role) (h : positive) (pr : RemoteHostPair) : RemoteHostPair :=
  match r with
  | Pub => mkPair (first pr ∖ {[h]}) (second pr)
  | Sub => mkPair (first pr) (second pr ∖ {[h]})
  end.

Lemma side_del r r' h g pr :
  g ∈ side r' (del_side r h pr) ↔ g ∈ side r' pr ∧ ¬ (r' = r ∧ g = h).
Proof. destruct r, r'; simpl; set_solver. Qed.

Lemma leave_scope r sc h id pr s : inv (st s) → pair_at (st s) (NS sc) id = Some pr →
  host_alive (st s) h →
  wp F (_ ← mod_scope sc (with_ids (insert id (del_side r h pr)));
        mod_host h (hset_upd r (NS sc) (set_del id)))
    (λ _ s', inv (st s') ∧ out s' = out s ∧ quitted r (NS sc) id h (st s) (st s')) s.
Proof.
  intros Hinv Hpr [rh Hrh]. pose proof (pair_scope _ _ _ _ Hpr) as (o & Ho & Hid).
  apply wp_bind. eapply wp_mod_scope; [done|]. eapply wp_mod_host; [done|]. simpl.
  edestruct (touched_leave r (NS sc) id) as [Hq Hi]; [by apply touched_scope|done|done| |done|].
  { intros. apply side_del. }
  done.
Qed.

Lemma leave_item r pub h id pr s : inv (st s) → pair_at (st s) (NI pub) id = Some pr →
  host_alive (st s) h →
  wp F (_ ← mod_item pub (it_with_ids (insert id (del_side r h pr)));
        mod_host h (hset_upd r (NI pub) (set_del id)))
    (λ _ s', inv (st s') ∧ out s' = out s ∧ quitted r (NI pub) id h (st s) (st s')) s.
Proof.
  intros Hinv Hpr [rh Hrh]. pose proof (pair_item _ _ _ _ Hpr) as (o & Ho & Hid).
  apply wp_bind. eapply wp_mod_item; [done|]. eapply wp_mod_host; [done|]. simpl.
  edestruct (touched_leave r (NI pub) id) as [Hq Hi]; [by apply touched_item|done|done| |done|].
  { intros. apply side_del. }
  done.
Qed.
End members.
