(* ===== verification/RVGraft.v ===== *)
(** * Growing the information graph

    How new scopes and items, and new fathers of existing ones, enter the
    graph: the pointers are linked first ([attached]), then
    Scope::recursivelyUpdateIDs or InformationItem::updateIDs completes the
    identifiers. *)
From stdpp Require Import base list gmap sets.
From Stdlib Require Import ZArith Lia.
From S2P Require Import Prelude Enums Bitvector GlobalConf InfoGraph GraphInv LocalRV RVInv.

(** ** Membership is not touched by growth *)
Lemma grow_rel s s' r n id h : grow s s' → rel s' r n id h ↔ rel s r n id h.
Proof.
  intros [_ Hp]. unfold rel. destruct (Hp n id) as [->|[-> ->]]; [done|].
  split; [intros (pr & [= <-] & Hh); destruct r; set_solver|naive_solver].
Qed.

Lemma grow_inv sf s s' : hosts_ok s → grow s s' → wf_clean sf s' → inv s'.
Proof.
  intros Hok Hg Hwf. split; [by exists sf|]. eapply hosts_ok_quiet; [done| |].
  - destruct Hg as [[] _]. by constructor.
  - intros. by apply grow_rel.
Qed.

(** ** Linking *)
Definition linked_scope (s : Store) (p f : positive) (sc : Scope) (fa : Scope) : Store :=
  set_scopes (insert f (with_children (λ X, {[p]} ∪ X) fa)) (set_scopes (insert p sc) s).

Definition linked_item (s : Store) (i f : positive) (it : InformationItem) (fa : Scope) : Store :=
  set_scopes (insert f (with_items (λ X, {[i]} ∪ X) fa)) (set_items (insert i it) s).

Lemma fresh_scope s : ¬ alive s (NS (fresh (dom (scopes s)))).
Proof.
  intros [sc Hsc]%alive_scope. apply elem_of_dom_2 in Hsc. by apply is_fresh in Hsc.
Qed.
Lemma fresh_item s : ¬ alive s (NI (fresh (dom (items s)))).
Proof.
  intros [it Hit]%alive_item. apply elem_of_dom_2 in Hit. by apply is_fresh in Hit.
Qed.
Lemma dead_scope s p : ¬ alive s (NS p) → scopes s !! p = None.
Proof. intros H. apply eq_None_not_Some. rewrite alive_scope in H. naive_solver. Qed.
Lemma dead_item s i : ¬ alive s (NI i) → items s !! i = None.
Proof. intros H. apply eq_None_not_Some. rewrite alive_item in H. naive_solver. Qed.

(** A new scope below [f]. *)
Lemma attached_new_scope s p f fa strategy : ¬ alive s (NS p) → scopes s !! f = Some fa →
  attached (NS p) f s (linked_scope s p f (mkScope ∅ false {[f]} ∅ ∅ strategy) fa).
Proof.
  intros Hp%dead_scope Hfa. assert (f ≠ p) as Hfp by (intros ->; congruence). constructor.
  - intros [q|q] x; unfold pair_at; simpl; [|done]. rewrite !lookup_insert.
    repeat case_decide; simplify_eq; rewrite ?Hfa, ?Hp; try done.
  - intros [q|q]; unfold alive; simpl; [|naive_solver]. rewrite !fmap_is_Some, !lookup_insert.
    repeat case_decide; simplify_eq; rewrite ?Hfa, ?Hp; naive_solver.
  - intros [q|q] g; unfold father; simpl; [|naive_solver]. rewrite !lookup_insert.
    repeat case_decide; simplify_eq; rewrite ?Hfa, ?Hp; simpl; naive_solver set_solver.
  - intros g m. unfold kid. simpl. rewrite !lookup_insert. repeat case_decide; simplify_eq.
    + rewrite Hfa. destruct m; simpl; naive_solver set_solver.
    + rewrite Hp. destruct m; simpl; naive_solver set_solver.
    + naive_solver.
  - intros [q|q]; simpl; [|done]. rewrite !lookup_insert.
    repeat case_decide; simplify_eq; rewrite ?Hfa, ?Hp; naive_solver.
  - by intros [q|q].
Qed.

(** An existing scope gets the father [f]; [f] may be the scope itself. *)
Lemma attached_scope s p f sc fa : scopes s !! p = Some sc →
  <[p := with_fathers (λ X, {[f]} ∪ X) sc]> (scopes s) !! f = Some fa →
  attached (NS p) f s (linked_scope s p f (with_fathers (λ X, {[f]} ∪ X) sc) fa).
Proof.
  intros Hsc Hfa. rewrite lookup_insert in Hfa. constructor.
  - intros [q|q] x; unfold pair_at; simpl; [|done]. rewrite !lookup_insert.
    repeat case_decide; simplify_eq; rewrite ?Hfa, ?Hsc; done.
  - intros [q|q]; unfold alive; simpl; [|naive_solver]. rewrite !fmap_is_Some, !lookup_insert.
    repeat case_decide; simplify_eq; rewrite ?Hfa, ?Hsc; naive_solver.
  - intros [q|q] g; unfold father; simpl; [|naive_solver]. rewrite !lookup_insert.
    repeat case_decide; simplify_eq; rewrite ?Hfa, ?Hsc; simpl; naive_solver set_solver.
  - intros g m. unfold kid. simpl. rewrite !lookup_insert.
    repeat case_decide; simplify_eq; rewrite ?Hfa, ?Hsc; destruct m; simpl; naive_solver set_solver.
  - intros [q|q]; simpl; [|done]. rewrite !lookup_insert.
    repeat case_decide; simplify_eq; rewrite ?Hfa, ?Hsc; naive_solver.
  - by intros [q|q].
Qed.

(** A new item, or an existing one, below [f]. *)
Lemma attached_item s i f it fa : scopes s !! f = Some fa →
  (match items s !! i with
   | Some it0 => it = it_with_fathers (λ X, {[f]} ∪ X) it0
   | None => it_ids it = ∅ ∧ it_fathers it = {[f]}
   end) →
  attached (NI i) f s (linked_item s i f it fa).
Proof.
  intros Hfa Hit. constructor.
  - intros [q|q] x; unfold pair_at; simpl; rewrite lookup_insert; case_decide; simplify_eq;
      rewrite ?Hfa; try done. destruct (items s !! q); simpl; [by subst|].
    destruct Hit as [-> _]. by rewrite lookup_empty.
  - intros [q|q]; unfold alive; simpl; rewrite !fmap_is_Some, lookup_insert; case_decide;
      simplify_eq; rewrite ?Hfa; naive_solver.
  - intros [q|q] g; unfold father; simpl; rewrite lookup_insert; case_decide; simplify_eq;
      rewrite ?Hfa; simpl; [naive_solver..| |naive_solver].
    destruct (items s !! q); simpl; [subst; simpl; naive_solver set_solver|].
    destruct Hit as [_ ->]. naive_solver set_solver.
  - intros g m. unfold kid. simpl. rewrite lookup_insert. case_decide; simplify_eq.
    + rewrite Hfa. destruct m; simpl; naive_solver set_solver.
    + naive_solver.
  - intros [q|q]; simpl; [|done]. rewrite lookup_insert. case_decide; simplify_eq; [|done].
    rewrite Hfa. naive_solver.
  - by intros [q|q].
Qed.

(** No sibling has the last fragment of an identifier that is not in use. *)
Lemma fresh_fragment sf s f prefixID sfx : wf_clean sf s → scopeIndex s !! prefixID = Some f →
  scopeIndex s !! (prefixID ++ sfx) = None → pubIndex s !! (prefixID ++ sfx) = None →
  ∀ m, father s m f → sf m ≠ sfx.
Proof.
  intros Hwf Hf Hs Hp m Hm <-.
  assert (has s (NS f) prefixID) as Hpre by by apply (wf_idx _ _ _ _ Hwf (NS f)).
  pose proof (clean_complete _ _ _ _ _ Hwf Hm Hpre) as Hid%(wf_idx _ _ _ _ Hwf).
  destruct m; simpl in Hid; congruence.
Qed.

Section graft.
Context `{HO : HashOrder} (F : fault → Prop).

(** Completing a scope that was just linked, with any fuel. *)
Lemma graft_scope_fuel k sf s s1 p f E : wf_clean sf (st s) → hosts_ok (st s) →
  attached (NS p) f (st s) (st s1) → same_hosts (st s) (st s1) →
  alive (st s) (NS f) → ¬ root (st s) (NS p) → length (sf (NS p)) = PURSUIT_ID_LEN →
  (∀ m, father (st s) m f → sf m ≠ sf (NS p)) →
  (E = Some (NS p) ∧ f ≠ p ∨ E = None ∧ alive (st s) (NS p)) →
  may_recurse F (st s1) k p →
  wp F (recursivelyUpdateIDs k p (sf (NS p)))
    (λ _ s', inv (st s') ∧ out s' = out s1 ∧ grow (st s1) (st s') ∧ wf_clean sf (st s') ∧
       ∀ fid, has (st s) (NS f) fid → has (st s') (NS p) (fid ++ sf (NS p))) s1.
Proof.
  intros Hwf Hok Hat Hsh Hf Hnr Hlen Hfrag HE Hrec.
  assert (father (st s1) (NS p) f) as Hpf by (apply (at_father _ _ _ _ Hat); by right).
  assert (wf (λ m, m = NS p) E sf (st s1)) as Hwf1.
  { eapply wf_attached; [done..|]. naive_solver. }
  eapply wp_mono; [apply (recursivelyUpdateIDs_spec F sf _ (λ m, m = NS p) E); [done| | |done]|].
  - by eapply father_alive.
  - destruct HE as [[-> ?]|[-> _]]; [right|by left]. split; [done|]. eauto.
  - intros [] s2 (Hout & Hg & Hdone & Hwf2).
    assert (wf_clean sf (st s2)) as Hc by (eapply wf_mono; [done|]; naive_solver).
    split_and!; try done.
    + eapply grow_inv; [|done..]. eapply hosts_ok_quiet; [done..|].
      intros r n id h. unfold rel. by rewrite (at_pair _ _ _ _ Hat).
    + intros fid Hfid. apply (Hdone f); [done|]. unfold has. by rewrite (at_pair _ _ _ _ Hat).
Qed.

Lemma graft_scope sf s s1 p f E : wf_clean sf (st s) → hosts_ok (st s) →
  attached (NS p) f (st s) (st s1) → same_hosts (st s) (st s1) →
  alive (st s) (NS f) → ¬ root (st s) (NS p) → length (sf (NS p)) = PURSUIT_ID_LEN →
  (∀ m, father (st s) m f → sf m ≠ sf (NS p)) →
  (E = Some (NS p) ∧ f ≠ p ∨ E = None ∧ alive (st s) (NS p)) →
  may_recurse F (st s1) (depth (st s1)) p →
  wp F (update_graph p (sf (NS p)))
    (λ _ s', inv (st s') ∧ out s' = out s1 ∧ grow (st s1) (st s') ∧ wf_clean sf (st s') ∧
       ∀ fid, has (st s) (NS f) fid → has (st s') (NS p) (fid ++ sf (NS p))) s1.
Proof. intros. unfold update_graph. apply wp_bind, wp_get_st. by eapply graft_scope_fuel. Qed.

(** Completing an item that was just linked. *)
Lemma graft_item sf s s1 i f E : wf_clean sf (st s) → hosts_ok (st s) →
  attached (NI i) f (st s) (st s1) → same_hosts (st s) (st s1) →
  alive (st s) (NS f) → length (sf (NI i)) = PURSUIT_ID_LEN →
  (∀ m, father (st s) m f → sf m ≠ sf (NI i)) →
  (E = Some (NI i) ∨ E = None ∧ alive (st s) (NI i)) →
  wp F (updateIDs i (sf (NI i)))
    (λ _ s', inv (st s') ∧ out s' = out s1 ∧ grow (st s1) (st s') ∧ wf_clean sf (st s') ∧
       ∀ fid, has (st s) (NS f) fid → has (st s') (NI i) (fid ++ sf (NI i))) s1.
Proof.
  intros Hwf Hok Hat Hsh Hf Hlen Hfrag HE.
  assert (father (st s1) (NI i) f) as Hpf by (apply (at_father _ _ _ _ Hat); by right).
  assert (wf (λ m, m = NI i) E sf (st s1)) as Hwf1.
  { eapply wf_attached; [done..| | | | |]; try done. by intros []. }
  eapply wp_mono; [apply (updateIDs_spec F sf (λ m, m = NI i) E); [done| |]|].
  - by eapply father_alive.
  - destruct HE as [->|[-> _]]; [right|by left]. eauto.
  - intros [] s2 (Hout & Hg & Hdone & Hwf2).
    assert (wf_clean sf (st s2)) as Hc by (eapply wf_mono; [done|]; naive_solver).
    split_and!; try done.
    + eapply grow_inv; [|done..]. eapply hosts_ok_quiet; [done..|].
      intros r n id h. unfold rel. by rewrite (at_pair _ _ _ _ Hat).
    + intros fid Hfid. apply (Hdone f); [done|]. unfold has. by rewrite (at_pair _ _ _ _ Hat).
Qed.
End graft.
