(* ===== verification/RVLedger.v ===== *)
(** * The contract of LocalRV: a ledger of publications and subscriptions

    Seen from outside, a rendezvous point is a ledger: who publishes, and who
    subscribes to, which scope or information item under which identifier.
    [ledger] reads it off a store, without pointers, fathers and children.
    The handlers are specified against it: a request that succeeds enters or
    strikes one line, one that does not leaves the ledger as it is.

    The publications below a reserved root scope are one-shot: they are struck
    when they were matched.  [unreserved] says that there are none. *)
From stdpp Require Import base list gmap sets.
From Stdlib Require Import ZArith Lia.
From S2P Require Import Prelude Enums InfoGraph GraphInv LocalRV RVInv RVGraft.

#[export] Instance rel_dec s r n id h : Decision (rel s r n id h).
Proof.
  refine (match pair_at s n id as o return pair_at s n id = o → _ with
          | Some pr => λ H, cast_if (decide (h ∈ side r pr))
          | None => λ H, right _
          end eq_refl); abstract (unfold rel; rewrite H; naive_solver).
Defined.

Inductive kind := KScope | KItem.

Definition kind_of (n : node) : kind := match n with NS _ => KScope | NI _ => KItem end.

Definition ledger (s : Store) (r : role) (k : kind) (id : bytes) (h : positive) : Prop :=
  ∃ n, kind_of n = k ∧ rel s r n id h.

Definition same_ledger (s s' : Store) : Prop :=
  ∀ r k x g, ledger s' r k x g ↔ ledger s r k x g.

Definition booked (r : role) (k : kind) (id : bytes) (h : positive) (s s' : Store) : Prop :=
  ∀ r' k' x g, ledger s' r' k' x g ↔
    ledger s r' k' x g ∨ (r' = r ∧ k' = k ∧ x = id ∧ g = h).

Definition struck (r : role) (k : kind) (id : bytes) (h : positive) (s s' : Store) : Prop :=
  ∀ r' k' x g, ledger s' r' k' x g ↔
    ledger s r' k' x g ∧ ¬ (r' = r ∧ k' = k ∧ x = id ∧ g = h).

(** Publishers under the identifiers [P] may be struck; every other line
    stays. *)
Definition ebbed (P : bytes → Prop) (s s' : Store) : Prop :=
  (∀ r m x g, rel s' r m x g → rel s r m x g) ∧
  (∀ r m x g, rel s r m x g → ¬ (r = Pub ∧ P x) → rel s' r m x g).

(** A line is entered, and publishers under [P] may be struck. *)
Definition booked_but (P : bytes → Prop) (r : role) (k : kind) (id : bytes) (h : positive)
    (s s' : Store) : Prop :=
  ∀ r' k' x g,
    (ledger s' r' k' x g →
     ledger s r' k' x g ∨ (r' = r ∧ k' = k ∧ x = id ∧ g = h)) ∧
    (ledger s r' k' x g ∨ (r' = r ∧ k' = k ∧ x = id ∧ g = h) →
     ¬ (r' = Pub ∧ P x) → ledger s' r' k' x g).

#[export] Instance same_ledger_equiv : Equivalence same_ledger.
Proof.
  split.
  - by intros s r k x g.
  - intros s s' H r k x g. symmetry. apply H.
  - intros s1 s2 s3 H1 H2 r k x g. etrans; [apply H2|apply H1].
Qed.

(** The ledger is all that the contract sees of a store. *)
#[export] Instance booked_proper r k id h :
  Proper (same_ledger ==> same_ledger ==> iff) (booked r k id h).
Proof.
  intros s1 s2 H s1' s2' H'. unfold booked.
  split; intros Hb r' k' x g; [rewrite (H' r' k' x g), (H r' k' x g)|
                               rewrite <-(H' r' k' x g), <-(H r' k' x g)]; apply Hb.
Qed.
#[export] Instance struck_proper r k id h :
  Proper (same_ledger ==> same_ledger ==> iff) (struck r k id h).
Proof.
  intros s1 s2 H s1' s2' H'. unfold struck.
  split; intros Hb r' k' x g; [rewrite (H' r' k' x g), (H r' k' x g)|
                               rewrite <-(H' r' k' x g), <-(H r' k' x g)]; apply Hb.
Qed.

#[export] Instance ebbed_preorder P : PreOrder (ebbed P).
Proof. split; [by split|]. intros s1 s2 s3 [A B] [A' B']. split; eauto. Qed.

Lemma rel_same_ledger s s' : (∀ r n x g, rel s' r n x g ↔ rel s r n x g) → same_ledger s s'.
Proof. intros H r k x g. unfold ledger. split; intros (n & Hk & Hr); exists n; (split; [done|]); by apply H. Qed.

Lemma grow_ledger s s' : grow s s' → same_ledger s s'.
Proof. intros Hg. apply rel_same_ledger. intros. by apply grow_rel. Qed.

Lemma attached_ledger n f s s' : attached n f s s' → same_ledger s s'.
Proof.
  intros Hat. apply rel_same_ledger. intros. unfold rel. by rewrite (at_pair _ _ _ _ Hat).
Qed.

Lemma ebbed_mono (P P' : bytes → Prop) s s' : ebbed P s s' → (∀ x, P x → P' x) → ebbed P' s s'.
Proof. intros [A B] HP. split; [done|]. intros. apply B; naive_solver. Qed.

Lemma booked_ebbed P r k id h s s1 s2 : booked r k id h s s1 → ebbed P s1 s2 →
  booked_but P r k id h s s2.
Proof.
  intros Hb [Hback Hkeep] r' k' x g. rewrite <-(Hb r' k' x g). split.
  - intros (n & Hk & Hr). exists n. auto.
  - intros (n & Hk & Hr) Hno. exists n. auto.
Qed.

(** An identifier belongs to one node. *)
Lemma ledger_rel sf s r n id h : wf_clean sf s → has s n id →
  ledger s r (kind_of n) id h ↔ rel s r n id h.
Proof.
  intros Hwf Hid. split; [|by eexists]. intros (m & _ & Hr).
  by rewrite (wf_disj _ _ _ _ Hwf n m id Hid (rel_has _ _ _ _ _ Hr)).
Qed.

Lemma joined_booked r n id h s s' : joined r n id h s s' → booked r (kind_of n) id h s s'.
Proof.
  intros [_ H] r' k x g. unfold ledger. setoid_rewrite H. split.
  - intros (m & Hk & [Hr|(-> & -> & -> & ->)]); [left; eauto|by right].
  - intros [(m & Hk & Hr)|(-> & -> & -> & ->)]; [exists m; auto|].
    exists n. split; [done|by right].
Qed.

Lemma quitted_struck sf r n id h s s' : wf_clean sf s → has s n id → quitted r n id h s s' →
  struck r (kind_of n) id h s s'.
Proof.
  intros Hwf Hid [_ H] r' k x g. unfold ledger. setoid_rewrite H. split.
  - intros (m & Hk & Hr & Hno). split; [eauto|]. intros (-> & -> & -> & ->). apply Hno.
    by rewrite (wf_disj _ _ _ _ Hwf m n id (rel_has _ _ _ _ _ Hr) Hid).
  - intros [(m & Hk & Hr) Hno]. exists m. split_and!; [done|done|].
    intros (-> & -> & -> & ->). by apply Hno.
Qed.

(** *** Results of requests *)

(** A publication: [SUCCESS] enters the line, which was not there; [EXISTS]
    says that it was; any other code leaves the store as it is. *)
Definition registers (r : role) (k : kind) (id : bytes) (h : positive) (c : RvReturnCode)
    (s s' : Store) : Prop :=
  match c with
  | SUCCESS => booked r k id h s s' ∧ ¬ ledger s r k id h
  | EXISTS => same_ledger s s' ∧ ledger s r k id h
  | _ => s' = s
  end.

(** The same, if publishers under [P] may be struck below reserved roots. *)
Definition registers_but (P : bytes → Prop) (unres : Prop) (r : role) (k : kind) (id : bytes)
    (h : positive) (c : RvReturnCode) (s s' : Store) : Prop :=
  match c with
  | SUCCESS => booked_but P r k id h s s' ∧ (unres → booked r k id h s s') ∧
      ¬ ledger s r k id h
  | EXISTS => same_ledger s s' ∧ ledger s r k id h
  | _ => s' = s
  end.

(** A subscription of a scope succeeds again for a subscriber. *)
Definition subscribes_scope (P : bytes → Prop) (unres : Prop) (id : bytes) (h : positive)
    (c : RvReturnCode) (s s' : Store) : Prop :=
  match c with
  | SUCCESS => booked_but P Sub KScope id h s s' ∧ (unres → booked Sub KScope id h s s')
  | EXISTS => False
  | _ => s' = s
  end.

(** An unpublication or unsubscription: [SUCCESS] strikes a line; unless the
    strategies differ, any other code says that there was no such line. *)
Definition revokes (r : role) (k : kind) (id : bytes) (h : positive) (c : RvReturnCode)
    (s s' : Store) : Prop :=
  match c with
  | SUCCESS => struck r k id h s s' ∧ ledger s r k id h
  | STRATEGY_MISMATCH => s' = s
  | _ => s' = s ∧ ¬ ledger s r k id h
  end.

Lemma revokes_gone r k id h c s s' : revokes r k id h c s s' → c ≠ STRATEGY_MISMATCH →
  ¬ ledger s' r k id h.
Proof.
  destruct c; simpl; try (intros [-> ?]; done); [|done].
  intros [H _] _ Hl%H. naive_solver.
Qed.

Lemma ledger_has sf s r k id h : wf_clean sf s → ledger s r k id h →
  match k with KScope => is_Some (scopeIndex s !! id) | KItem => is_Some (pubIndex s !! id) end.
Proof.
  intros Hwf (n & <- & Hr). apply rel_has, (wf_idx _ _ _ _ Hwf) in Hr. destruct n; by eexists.
Qed.

Lemma revokes_settled sf r n id h s s1 s2 : wf_clean sf s → rel s r n id h →
  quitted r n id h s s1 → (∀ r m x g, rel s2 r m x g ↔ rel s1 r m x g) →
  revokes r (kind_of n) id h SUCCESS s s2.
Proof.
  intros Hwf Hr Hq Hsame. split; [|by exists n].
  rewrite <-(rel_same_ledger _ _ Hsame). eapply quitted_struck; [done| |done].
  by eapply rel_has.
Qed.

Lemma revokes_absent sf r n id h c s : wf_clean sf s → has s n id → ¬ rel s r n id h →
  c ≠ SUCCESS → revokes r (kind_of n) id h c s s.
Proof.
  intros Hwf Hid Hno Hc. rewrite <-(ledger_rel _ _ _ _ _ _ Hwf Hid) in Hno.
  by destruct c; simpl.
Qed.

Lemma revokes_unindexed sf r (k : kind) id h c s : wf_clean sf s →
  match k with KScope => scopeIndex s | KItem => pubIndex s end !! id = None →
  c ≠ SUCCESS → revokes r k id h c s s.
Proof.
  intros Hwf Hno Hc. assert (¬ ledger s r k id h) as Hl.
  { intros Hl%(ledger_has _ _ _ _ _ _ Hwf). destruct k; rewrite Hno in Hl; by destruct Hl. }
  by destruct c; simpl.
Qed.

Lemma registers_join sf r n id h b s s1 s2 : wf_clean sf s1 → has s1 n id →
  same_ledger s s1 → joined r n id h s1 s2 → (b = true ↔ ¬ rel s1 r n id h) →
  registers r (kind_of n) id h (if b then SUCCESS else EXISTS) s s2.
Proof.
  intros Hwf Hid Hsame Hj Hb. pose proof (joined_booked _ _ _ _ _ _ Hj) as Hbk.
  rewrite <-(ledger_rel _ _ _ _ _ _ Hwf Hid), (Hsame _ _ _ _) in Hb.
  destruct b; simpl.
  - split; [|by apply Hb]. by rewrite Hsame.
  - assert (ledger s r (kind_of n) id h) as Hl.
    { destruct Hj as [_ Hj]. apply (Hsame _ _ _ _), (ledger_rel _ _ _ _ _ _ Hwf Hid).
      apply dec_stable. rewrite <-(ledger_rel _ _ _ _ _ _ Hwf Hid), (Hsame _ _ _ _). naive_solver. }
    split; [|done]. intros r' k x g. rewrite (Hbk r' k x g), (Hsame _ _ _ _).
    split; [intros [?|(-> & -> & -> & ->)]; done|by left].
Qed.

(** A line is entered, and then publishers under [P] may be struck. *)
Lemma registers_ebbed P (unres : Prop) r k id h s s1 s2 : registers r k id h SUCCESS s s1 →
  ebbed P s1 s2 → (unres → s2 = s1) → registers_but P unres r k id h SUCCESS s s2.
Proof.
  intros [Hb Hno] He Hu. split_and!; [by eapply booked_ebbed| |done]. by intros ->%Hu.
Qed.

(** ** Reserved root scopes *)

Definition unreserved (s : Store) : Prop :=
  ∀ p x, root s (NS p) → has s (NS p) x → x ∉ known_rootscopes s.

(** The first fragment of an identifier is that of a root scope. *)
Lemma root_of sf s n x : wf_clean sf s → has s n x →
  ∃ p, root s (NS p) ∧ has s (NS p) (take PURSUIT_ID_LEN x).
Proof.
  intros Hwf. remember (length x) as l eqn:Hl. revert n x Hl.
  induction l as [l IH] using lt_wf_ind. intros n x -> Hx.
  destruct (wf_sound _ _ _ _ Hwf _ _ Hx) as [Hr|(f & fid & Hf & Hfid & ->)].
  - destruct n as [p|]; [|done]. exists p. split; [done|].
    pose proof (proj1 (wf_root_ids _ _ _ _ Hwf _ _ Hr) Hx) as Heq. rewrite take_ge; [done|].
    rewrite Heq, (wf_len _ _ _ _ Hwf); [done|]. by eapply has_alive.
  - pose proof (wf_len _ _ _ _ Hwf n ltac:(by eapply father_alive)) as Hn.
    pose proof (wf_long _ _ _ _ Hwf _ _ Hfid) as Hlong.
    rewrite take_app_le by done. eapply (IH (length fid)); [|done|done].
    rewrite length_app, Hn. unfold PURSUIT_ID_LEN. lia.
Qed.

Lemma unreserved_has sf s n x : wf_clean sf s → unreserved s → has s n x →
  take PURSUIT_ID_LEN x ∉ known_rootscopes s.
Proof. intros Hwf Hu Hx. destruct (root_of _ _ _ _ Hwf Hx) as (p & Hr & Hp). eauto. Qed.

(** Growth makes no new root scopes and gives root scopes no identifiers. *)
Lemma unreserved_grow sf sf' s s' : wf_clean sf s → wf_clean sf' s' →
  (∀ m, root s' m → root s m) → (∀ m x, has s m x → has s' m x) →
  known_rootscopes s' = known_rootscopes s → unreserved s → unreserved s'.
Proof.
  intros Hwf Hwf' Hroot Hhas Hk Hu p x Hr Hx. rewrite Hk. apply (Hu p); [auto|].
  destruct (wf_ne _ _ _ _ Hwf (NS p)) as [y Hy]; [|done|].
  { destruct (Hroot _ Hr) as (sc & Hsc & _). apply alive_scope. eauto. }
  rewrite (proj1 (wf_root_ids _ _ _ _ Hwf' _ _ Hr) Hx).
  by rewrite <-(proj1 (wf_root_ids _ _ _ _ Hwf' _ _ Hr) (Hhas _ _ Hy)).
Qed.

Section reserved.
Context `{HO : HashOrder} (F : fault → Prop).

Lemma first_root_spec roots s : roots ≠ ∅ →
  wp F (first_root_known roots)
    (λ b s', s' = s ∧ (b = true → ∃ r, r ∈ roots ∧ r ∈ known_rootscopes (st s))) s.
Proof.
  intros Hne. unfold first_root_known. apply wp_bind, wp_begin_of; [done|].
  intros r Hr. apply wp_bind, wp_get_st, wp_ret. split; [done|].
  intros ?%bool_decide_eq_true. eauto.
Qed.

(** The root scopes of an item are no reserved ones. *)
Lemma getRootScopes_known s i it r : inv s → items s !! i = Some it → unreserved s →
  r ∈ getRootScopes it → r ∉ known_rootscopes s.
Proof.
  intros [[sf Hwf] _] Hit Hu Hr. unfold getRootScopes in Hr.
  apply elem_of_map in Hr as (x & -> & Hx). eapply (unreserved_has _ _ (NI i)); [done..|].
  unfold has, pair_at. simpl. rewrite Hit. by apply elem_of_dom.
Qed.

Lemma item_root_spec i it s : inv (st s) → items (st s) !! i = Some it →
  wp F (first_root_known (getRootScopes it))
    (λ b s', s' = s ∧ (unreserved (st s) → b = false)) s.
Proof.
  intros Hinv Hit. eapply wp_mono; [apply first_root_spec; by eapply getRootScopes_ne|].
  intros b s' [-> Hb]. split; [done|]. intros Hu. destruct b; [|done].
  destruct (Hb eq_refl) as (r & Hr & Hk). exfalso. by eapply getRootScopes_known.
Qed.
End reserved.
