(* ===== verification/RVCollect.v ===== *)
(** * Garbage collection in the information graph

    A scope or item that lost its last publisher and subscriber is deleted, or
    cut from one of its fathers when it has several (the last parts of
    LocalRV::unpublish_scope, unpublish_info, unsubscribe_scope and
    unsubscribe_info).  Collection keeps the invariant, frees nothing that is
    still referred to, and changes no membership ([settled]). *)
From stdpp Require Import base list gmap sets.
From Stdlib Require Import ZArith Lia.
From S2P Require Import Prelude Enums Bitvector GlobalConf InfoGraph GraphInv LocalRV RVInv.

Definition erase_keys {A} (l : list bytes) (m : gmap bytes A) : gmap bytes A :=
  foldr delete m l.

Lemma lookup_erase_keys {A} (l : list bytes) (m : gmap bytes A) k :
  erase_keys l m !! k = if decide (k ∈ l) then None else m !! k.
Proof.
  induction l as [|x l IH].
  { rewrite decide_False by (by intros ?%elem_of_nil). done. }
  change (delete x (erase_keys l m) !! k = if decide (k ∈ x :: l) then None else m !! k).
  rewrite lookup_delete, IH. repeat case_decide; set_solver.
Qed.

Lemma erase_keys_snoc {A} (x : bytes) (l : list bytes) (m : gmap bytes A) :
  erase_keys l (delete x m) = erase_keys (x :: l) m.
Proof.
  apply map_eq. intros k. rewrite !lookup_erase_keys, lookup_delete.
  repeat case_decide; set_solver.
Qed.

(** The collection of [n] changes no other node and no membership. *)
Record settled (n : node) (s s' : Store) : Prop := {
  se_rel r m x g : rel s' r m x g ↔ rel s r m x g;
  se_pair m x : m ≠ n → pair_at s' m x = pair_at s m x;
  se_back x : has s' n x → has s n x;
  se_alive m : alive s' m → alive s m;
  se_fathers m : m ≠ n → nfathers s' m = nfathers s m;
  se_strategy m : alive s' m → nstrategy s' m = nstrategy s m;
  se_hosts : same_hosts s s';
  se_known : known_rootscopes s' = known_rootscopes s;
}.

Lemma settled_refl n s : settled n s s.
Proof. by constructor. Qed.

Section collect.
Context `{HO : HashOrder} (gc : GlobalConf) (F : fault → Prop) (HF : F BufferOverflow).

Lemma wp_erase_pub l s (Q : unit → rv → Prop) :
  Q tt (mkRv (set_pubIndex (erase_keys l) (st s)) (out s)) →
  wp F (for_each l (λ id, mod_st (set_pubIndex (delete id)))) Q s.
Proof.
  revert s. induction l as [|x l IH]; intros s HQ; simpl.
  { apply wp_ret. by destruct s as [[] ?]. }
  apply wp_bind, wp_mod_st, IH. simpl in *. unfold set_pubIndex in *. simpl in *.
  by rewrite erase_keys_snoc.
Qed.

Lemma wp_erase_scope l s (Q : unit → rv → Prop) :
  Q tt (mkRv (set_scopeIndex (erase_keys l) (st s)) (out s)) →
  wp F (for_each l (λ id, mod_st (set_scopeIndex (delete id)))) Q s.
Proof.
  revert s. induction l as [|x l IH]; intros s HQ; simpl.
  { apply wp_ret. by destruct s as [[] ?]. }
  apply wp_bind, wp_mod_st, IH. simpl in *. unfold set_scopeIndex in *. simpl in *.
  by rewrite erase_keys_snoc.
Qed.

(** Looking for members below one father does not fault, and finds none only
    when there is none. *)
Lemma checkForOtherPubSub_spec sf n f ids s : wf_clean sf (st s) →
  nids (st s) n = Some ids → father (st s) n f →
  wp F (checkForOtherPubSub ids f) (λ b s', s' = s ∧
    (b = false → ∀ fid r h, has (st s) (NS f) fid → ¬ rel (st s) r n (fid ++ sf n) h)) s.
Proof.
  intros Hwf Hids Hf. unfold checkForOtherPubSub. apply wp_bind.
  eapply (first_suffix_spec F _ _ n); [done..|].
  assert (alive (st s) (NS f)) as [fa Hfa]%alive_scope by by eapply (wf_father _ _ _ _ Hwf).
  apply wp_bind. eapply wp_get_scope; [done|].
  assert (∀ id, id ∈ str_order (dom (sc_ids fa)) ↔ has (st s) (NS f) id) as Hin.
  { intros id. rewrite elem_of_str_order, elem_of_dom. unfold has, pair_at. simpl. by rewrite Hfa. }
  setoid_rewrite <-Hin. assert (∀ id, id ∈ str_order (dom (sc_ids fa)) →
    ∃ pr, ids !! (id ++ sf n) = Some pr ∧ pair_at (st s) n (id ++ sf n) = Some pr) as Hall.
  { intros id Hid%Hin. destruct (clean_complete _ _ _ _ _ Hwf Hf Hid) as [pr Hpr].
    exists pr. split; [|done]. unfold pair_at in Hpr. by rewrite Hids in Hpr. }
  clear Hin. induction (str_order (dom (sc_ids fa))) as [|id l IH]; simpl.
  { apply wp_ret. split; [done|]. by intros _ fid r h ?%elem_of_nil. }
  destruct (Hall id) as (pr & Hpr & Hat); [left|]. apply wp_bind.
  eapply wp_deref; [done|]. destruct (pair_empty pr) eqn:Hemp; [|by apply wp_ret].
  eapply wp_mono; [apply IH; intros; apply Hall; by right|].
  intros b s' [-> Hrest]. split; [done|]. intros Hb fid r h [->|Hl]%elem_of_cons; [|by apply Hrest].
  rewrite (rel_side _ _ _ _ _ _ Hat). unfold pair_empty in Hemp.
  apply andb_true_iff in Hemp as [H1%bool_decide_eq_true H2%bool_decide_eq_true].
  destruct r; simpl; set_solver.
Qed.

Lemma only_father s n f X : nfathers s n = Some X → size X = 1 → father s n f →
  ∀ g, father s n g → g = f.
Proof.
  intros HX Hsz (X1 & HX1 & Hf) g (X2 & HX2 & Hg). simplify_eq.
  apply size_1_elem_of in Hsz as [y Hy]. set_solver.
Qed.

Lemma other_father s n f X : nfathers s n = Some X → size X ≠ 1 → father s n f →
  ∃ g, father s n g ∧ g ≠ f.
Proof.
  intros HX Hsz (X1 & HX1 & Hf). simplify_eq.
  destruct (set_choose_or_empty (X ∖ {[f]})) as [[g Hg]|Hemp].
  - exists g. split; [exists X; set_solver|set_solver].
  - exfalso. apply Hsz. replace X with ({[f]} : gset positive); [by rewrite size_singleton|].
    apply leibniz_equiv. intros y. destruct (decide (y = f)); set_solver.
Qed.

(** Deleting an item whose only father is [f]. *)
Definition without_item (s : Store) (i f : positive) (it : InformationItem) (fa : Scope) : Store :=
  set_items (delete i) (set_pubIndex (erase_keys (str_order (dom (it_ids it))))
    (set_scopes (insert f (with_items (λ X, X ∖ {[i]}) fa)) s)).

Lemma deleted_item sf s i f it fa : wf_clean sf s → items s !! i = Some it →
  scopes s !! f = Some fa → (∀ g, father s (NI i) g → g = f) →
  deleted (NI i) s (without_item s i f it fa).
Proof.
  intros Hwf Hit Hfa Honly.
  constructor.
  - intros [q|q] x; unfold pair_at; simpl; rewrite ?lookup_insert, ?lookup_delete;
      repeat case_decide; simplify_eq; rewrite ?Hfa; naive_solver.
  - intros [q|q]; simpl; rewrite ?lookup_insert, ?lookup_delete;
      repeat case_decide; simplify_eq; rewrite ?Hfa; naive_solver.
  - intros g m _. unfold kid at 1. simpl. rewrite lookup_insert. case_decide as Hgf.
    + subst g. unfold kid. rewrite Hfa. destruct m; simpl; [naive_solver|].
      naive_solver set_solver.
    + split; [|by intros [? _]]. intros Hk. split; [done|]. intros ->. apply Hgf. symmetry.
      by apply Honly, (wf_kid _ _ _ _ Hwf).
  - done.
  - intros [q|q]; simpl; [|naive_solver]. rewrite lookup_insert. case_decide; [subst|naive_solver].
    rewrite Hfa. naive_solver.
  - intros [q|q] x; simpl; [naive_solver|]. rewrite lookup_erase_keys.
    assert (x ∈ str_order (dom (it_ids it)) ↔ idx s (NI i) x) as Hx.
    { rewrite elem_of_str_order, elem_of_dom, <-(wf_idx _ _ _ _ Hwf). unfold has, pair_at.
      simpl. by rewrite Hit. }
    simpl in Hx. case_decide as Hin; naive_solver.
Qed.

(** A deletion of a node without members settles it. *)
Lemma deleted_settled n s s' : deleted n s s' → (∀ r x h, ¬ rel s r n x h) → same_hosts s s' →
  known_rootscopes s' = known_rootscopes s →
  (∀ m, alive s' m → nstrategy s' m = nstrategy s m) → settled n s s'.
Proof.
  intros [Hpair Hfa _ _ _ _] Hno Hsh Hk Hst. constructor; try done.
  - intros r m x h. unfold rel at 1. rewrite Hpair. case_decide; [subst|done].
    split; [naive_solver|]. by intros ?%Hno.
  - intros m x Hm. by rewrite Hpair, decide_False.
  - intros x. unfold has. rewrite Hpair, decide_True by done. by intros []%is_Some_None.
  - intros m. unfold alive. rewrite Hfa. case_decide; [by intros []%is_Some_None|done].
  - intros m Hm. by rewrite Hfa, decide_False.
Qed.

Lemma deleted_inv n s s' : inv s → deleted n s s' → (∀ p m, n = NS p → ¬ father s m p) →
  settled n s s' → inv s'.
Proof.
  intros [[sf Hwf] Hok] Hde Hleaf Hse. split; [exists sf; by eapply wf_deleted|].
  eapply hosts_ok_quiet; [done|apply Hse|apply Hse].
Qed.

(** Cutting the branch below [f] from an item. *)
Lemma wp_cut_item l i it sfx s (Q : unit → rv → Prop) : items (st s) !! i = Some it →
  (let ks := (λ id, id ++ sfx) <$> l in
   Q tt (mkRv (set_pubIndex (erase_keys ks)
           (set_items (insert i (it_with_ids (erase_keys ks) it)) (st s))) (out s))) →
  wp F (for_each l (λ id, _ ← mod_item i (it_with_ids (delete (id ++ sfx)));
                          mod_st (set_pubIndex (delete (id ++ sfx))))) Q s.
Proof.
  revert it s. induction l as [|x l IH]; intros it s Hit HQ; simpl.
  { apply wp_ret. destruct s as [[] o], it. unfold set_pubIndex, set_items in HQ. simpl in *.
    by rewrite insert_id in HQ. }
  apply wp_bind, wp_bind. eapply wp_mod_item; [done|]. apply wp_mod_st. simpl.
  eapply IH; [simpl; by rewrite lookup_insert, decide_True|]. simpl in *.
  unfold set_pubIndex, set_items, it_with_ids in *. simpl in *.
  by rewrite insert_insert, decide_True, !erase_keys_snoc.
Qed.

Definition cut_item (s : Store) (i f : positive) (it : InformationItem) (fa : Scope)
    (sfx : bytes) : Store :=
  let ks := (λ id, id ++ sfx) <$> str_order (dom (sc_ids fa)) in
  set_pubIndex (erase_keys ks)
    (set_items (insert i (it_with_ids (erase_keys ks) (it_with_fathers (λ X, X ∖ {[f]}) it)))
      (set_scopes (insert f (with_items (λ X, X ∖ {[i]}) fa)) s)).

(** The keys that are cut are the identifiers below [f]. *)
Lemma cut_keys sf s f fa n x : scopes s !! f = Some fa →
  x ∈ (λ id, id ++ sf n) <$> str_order (dom (sc_ids fa)) ↔ under s sf n f x.
Proof.
  intros Hfa. rewrite list_elem_of_fmap. unfold under, has, pair_at. simpl. rewrite Hfa.
  setoid_rewrite elem_of_str_order. setoid_rewrite elem_of_dom. naive_solver.
Qed.

Lemma unbranched_item sf s i f it fa : wf_clean sf s → items s !! i = Some it →
  scopes s !! f = Some fa → father s (NI i) f →
  unbranched sf (NI i) f s (cut_item s i f it fa (sf (NI i))).
Proof.
  intros Hwf Hit Hfa Hf. pose proof (λ x, cut_keys sf s f fa (NI i) x Hfa) as Hks.
  constructor; unfold cut_item.
  - intros [q|q] x Hno; unfold pair_at; simpl; rewrite ?lookup_insert;
      case_decide; simplify_eq; rewrite ?Hfa, ?Hit; try done. simpl.
    rewrite lookup_erase_keys, decide_False; [done|]. rewrite Hks. naive_solver.
  - intros x Hx. unfold pair_at. simpl. rewrite lookup_insert, decide_True by done. simpl.
    rewrite lookup_erase_keys, decide_True; [done|]. by apply Hks.
  - intros [q|q]; unfold alive; simpl; rewrite !fmap_is_Some, lookup_insert;
      case_decide; simplify_eq; rewrite ?Hfa, ?Hit; done.
  - intros [q|q] g; unfold father; simpl; rewrite lookup_insert; case_decide; simplify_eq;
      rewrite ?Hfa, ?Hit; simpl; naive_solver set_solver.
  - intros g m. unfold kid. simpl. rewrite lookup_insert. case_decide; simplify_eq.
    + rewrite Hfa. destruct m; simpl; naive_solver set_solver.
    + naive_solver.
  - intros [q|q]; simpl; [|done]. rewrite lookup_insert. case_decide; simplify_eq; [|done].
    rewrite Hfa. naive_solver.
  - intros [q|q] x; simpl; [naive_solver|]. rewrite lookup_erase_keys.
    pose proof (Hks x) as Hx. case_decide as Hin.
    + split; [done|]. intros [Hidx Hno]. exfalso. apply Hno. apply Hx in Hin. split; [|done].
      destruct Hin as (fid & Hfid & ->).
      pose proof (clean_complete _ _ _ _ _ Hwf Hf Hfid) as Hh.
      eapply (wf_disj _ _ _ _ Hwf); [|exact Hh]. by apply (wf_idx _ _ _ _ Hwf (NI q)).
    + naive_solver.
Qed.

(** Cutting a branch without members settles the node. *)
Lemma unbranched_settled sf n f s s' : unbranched sf n f s s' →
  (∀ r x h, under s sf n f x → ¬ rel s r n x h) → same_hosts s s' →
  known_rootscopes s' = known_rootscopes s →
  (∀ m, m ≠ n → nfathers s' m = nfathers s m) →
  (∀ m, nstrategy s' m = nstrategy s m) → settled n s s'.
Proof.
  intros Hub Hno Hsh Hk Hfa Hst. constructor; try done.
  - intros r m x h. split.
    + intros Hr. pose proof (rel_has _ _ _ _ _ Hr) as [_ Hu]%(unbranched_has _ _ _ _ _ _ _ Hub).
      unfold rel in *. by rewrite (ub_pair _ _ _ _ _ Hub) in Hr.
    + intros Hr. assert (¬ (m = n ∧ under s sf n f x)) as Hu by (intros [-> ?]; by eapply Hno).
      unfold rel in *. by rewrite (ub_pair _ _ _ _ _ Hub).
  - intros m x Hm. apply (ub_pair _ _ _ _ _ Hub). naive_solver.
  - by intros x [? _]%(unbranched_has _ _ _ _ _ _ _ Hub).
  - intros m. apply (ub_alive _ _ _ _ _ Hub).
Qed.

Lemma unbranched_inv sf n f s s' : inv s → wf_clean sf s → unbranched sf n f s s' →
  (∀ p m, n = NS p → ¬ father s m p) → father s n f → (∃ g, father s n g ∧ g ≠ f) →
  settled n s s' → inv s'.
Proof.
  intros [_ Hok] Hwf Hub Hleaf Hf (g & Hg & Hgf) Hse.
  split; [exists sf; by eapply wf_unbranched|].
  eapply hosts_ok_quiet; [done|apply Hse|apply Hse].
Qed.

Lemma collect_item_spec i f s : inv (st s) → father (st s) (NI i) f →
  wp F (collect_item i f) (λ b s', inv (st s') ∧ out s' = out s ∧
    settled (NI i) (st s) (st s') ∧ (b = false → alive (st s') (NI i))) s.
Proof.
  intros Hinv Hf. pose proof Hinv as [[sf Hwf] Hok].
  destruct (proj1 (alive_item _ _) (father_alive _ _ _ Hf)) as [it Hit].
  assert (alive (st s) (NS f)) as [fa Hfa]%alive_scope by by eapply (wf_father _ _ _ _ Hwf).
  assert (nids (st s) (NI i) = Some (it_ids it)) as Hids by (simpl; by rewrite Hit).
  assert (nfathers (st s) (NI i) = Some (it_fathers it)) as Hfs by (simpl; by rewrite Hit).
  unfold collect_item. apply wp_bind. eapply wp_get_item; [done|]. apply wp_bind.
  eapply wp_mono; [by eapply checkForOtherPubSub_spec|]. intros other s1 [-> Hother].
  destruct other.
  { apply wp_ret. split_and!; [done|done|apply settled_refl|]. intros _. by eapply father_alive. }
  specialize (Hother eq_refl). case_decide as Hsz.
  - apply wp_bind. eapply wp_mod_scope; [done|]. apply wp_bind. unfold delete_item.
    apply wp_bind. eapply wp_get_item; [done|]. apply wp_bind, wp_erase_pub, wp_mod_st, wp_ret.
    simpl. pose proof (only_father _ _ _ _ Hfs Hsz Hf) as Honly.
    pose proof (deleted_item _ _ _ _ _ _ Hwf Hit Hfa Honly) as Hde.
    assert (settled (NI i) (st s) (without_item (st s) i f it fa)) as Hse.
    { eapply deleted_settled; [done| |done|done|].
      - intros r x h Hr. destruct (wf_sound _ _ _ _ Hwf _ _ (rel_has _ _ _ _ _ Hr))
          as [[]|(g & gid & Hg & Hgid & ->)]. rewrite (Honly _ Hg) in Hgid. by eapply Hother.
      - intros [q|q]; unfold alive; simpl; rewrite ?lookup_insert, ?lookup_delete;
          case_decide; simplify_eq; rewrite ?Hfa; try done. by intros []%is_Some_None. }
    split_and!; [by eapply deleted_inv|done|done|done].
  - pose proof (other_father _ _ _ _ Hfs Hsz Hf) as Hex.
    apply wp_bind. unfold remove_item_branch. apply wp_bind. eapply wp_mod_scope; [done|].
    apply wp_bind. eapply wp_mod_item; [done|]. apply wp_bind. simpl.
    eapply wp_get_item; [simpl; by rewrite lookup_insert, decide_True|]. apply wp_bind. simpl.
    eapply (first_suffix_spec F _ _ (NI i)); [done..|]. apply wp_bind.
    eapply wp_get_scope; [simpl; by rewrite lookup_insert, decide_True|].
    eapply wp_cut_item; [simpl; by rewrite lookup_insert, decide_True|]. cbv zeta.
    match goal with |- context [mkRv ?t _] => replace t
      with (cut_item (st s) i f it fa (sf (NI i)))
      by (unfold cut_item, set_items; simpl; by rewrite insert_insert, decide_True) end.
    apply wp_ret. cbn [st out].
    pose proof (unbranched_item _ _ _ _ _ _ Hwf Hit Hfa Hf) as Hub.
    assert (settled (NI i) (st s) (cut_item (st s) i f it fa (sf (NI i)))) as Hse.
    { eapply unbranched_settled; [done| |done|done|..].
      - intros r x h (fid & Hfid & ->). by apply Hother.
      - intros [q|q] Hq; simpl; rewrite lookup_insert; case_decide; simplify_eq; by rewrite ?Hfa.
      - intros [q|q]; simpl; rewrite lookup_insert; case_decide; simplify_eq;
          by rewrite ?Hfa, ?Hit. }
    split_and!; [by eapply unbranched_inv|done|done|].
    intros _. apply (ub_alive _ _ _ _ _ Hub). by eapply father_alive.
Qed.

(** *** Scopes *)
Lemma leaf_scope sf s p sc : wf_clean sf s → scopes s !! p = Some sc →
  size (childrenScopes sc) = 0 ∧ size (informationitems sc) = 0 → ∀ q m, NS p = NS q → ¬ father s m q.
Proof.
  intros Hwf Hsc [Hc%size_empty_inv Hi%size_empty_inv] q m [= <-] Hm.
  apply (wf_kid _ _ _ _ Hwf) in Hm as (sc' & ? & Hm). simplify_eq. destruct m; set_solver.
Qed.

Lemma scope_idx_keys sf s p sc x : wf_clean sf s → scopes s !! p = Some sc →
  x ∈ str_order (dom (sc_ids sc)) ↔ idx s (NS p) x.
Proof.
  intros Hwf Hsc. rewrite elem_of_str_order, elem_of_dom, <-(wf_idx _ _ _ _ Hwf).
  unfold has, pair_at. simpl. by rewrite Hsc.
Qed.

Definition without_scope (s : Store) (p f : positive) (sc fa : Scope) : Store :=
  set_scopes (delete p) (set_scopeIndex (erase_keys (str_order (dom (sc_ids sc))))
    (set_scopes (insert f (with_children (λ X, X ∖ {[p]}) fa)) s)).

Lemma deleted_scope sf s p f sc fa : wf_clean sf s → scopes s !! p = Some sc →
  scopes s !! f = Some fa → f ≠ p → (∀ g, father s (NS p) g → g = f) →
  deleted (NS p) s (without_scope s p f sc fa).
Proof.
  intros Hwf Hsc Hfa Hfp Honly. constructor.
  - intros [q|q] x; unfold pair_at; simpl; rewrite ?lookup_delete, ?lookup_insert;
      repeat case_decide; simplify_eq; rewrite ?Hfa; naive_solver.
  - intros [q|q]; simpl; rewrite ?lookup_delete, ?lookup_insert;
      repeat case_decide; simplify_eq; rewrite ?Hfa; naive_solver.
  - intros g m Hg. unfold kid at 1. simpl. rewrite lookup_delete, decide_False by congruence.
    rewrite lookup_insert. case_decide as Hgf.
    + subst g. unfold kid. rewrite Hfa. destruct m; simpl; naive_solver set_solver.
    + split; [|by intros [? _]]. intros Hk. split; [done|]. intros ->. apply Hgf. symmetry.
      by apply Honly, (wf_kid _ _ _ _ Hwf).
  - intros g m [= ->] (fa' & Hfa' & _). simpl in Hfa'. by rewrite lookup_delete_eq in Hfa'.
  - intros [q|q]; simpl; [|naive_solver]. rewrite lookup_delete, lookup_insert.
    repeat case_decide; simplify_eq; rewrite ?Hfa; naive_solver.
  - intros [q|q] x; simpl; [|naive_solver]. rewrite lookup_erase_keys.
    pose proof (scope_idx_keys _ _ _ _ x Hwf Hsc) as Hx. simpl in Hx.
    case_decide as Hin; naive_solver.
Qed.

Definition without_root (s : Store) (p : positive) (sc : Scope) : Store :=
  set_scopes (delete p) (set_scopeIndex (erase_keys (str_order (dom (sc_ids sc)))) s).

Lemma deleted_root sf s p sc : wf_clean sf s → scopes s !! p = Some sc →
  (∀ g, ¬ father s (NS p) g) → deleted (NS p) s (without_root s p sc).
Proof.
  intros Hwf Hsc Honly. constructor.
  - intros [q|q] x; unfold pair_at; simpl; rewrite ?lookup_delete;
      repeat case_decide; simplify_eq; naive_solver.
  - intros [q|q]; simpl; rewrite ?lookup_delete; repeat case_decide; simplify_eq; naive_solver.
  - intros g m Hg. unfold kid at 1. simpl. rewrite lookup_delete, decide_False by congruence.
    split; [|by intros [? _]]. intros Hk. split; [done|]. intros ->.
    by apply (Honly g), (wf_kid _ _ _ _ Hwf).
  - intros g m [= ->] (fa' & Hfa' & _). simpl in Hfa'. by rewrite lookup_delete_eq in Hfa'.
  - intros [q|q]; simpl; [|naive_solver]. rewrite lookup_delete. case_decide; naive_solver.
  - intros [q|q] x; simpl; [|naive_solver]. rewrite lookup_erase_keys.
    pose proof (scope_idx_keys _ _ _ _ x Hwf Hsc) as Hx. simpl in Hx.
    case_decide as Hin; naive_solver.
Qed.

Lemma wp_cut_scope l p sc sfx s (Q : unit → rv → Prop) : scopes (st s) !! p = Some sc →
  (let ks := (λ id, id ++ sfx) <$> l in
   Q tt (mkRv (set_scopeIndex (erase_keys ks)
           (set_scopes (insert p (with_ids (erase_keys ks) sc)) (st s))) (out s))) →
  wp F (for_each l (λ id, _ ← mod_scope p (with_ids (delete (id ++ sfx)));
                          mod_st (set_scopeIndex (delete (id ++ sfx))))) Q s.
Proof.
  revert sc s. induction l as [|x l IH]; intros sc s Hsc HQ; simpl.
  { apply wp_ret. destruct s as [[] o], sc. unfold set_scopeIndex, set_scopes in HQ. simpl in *.
    by rewrite insert_id in HQ. }
  apply wp_bind, wp_bind. eapply wp_mod_scope; [done|]. apply wp_mod_st. simpl.
  eapply IH; [simpl; by rewrite lookup_insert, decide_True|]. simpl in *.
  unfold set_scopeIndex, set_scopes, with_ids in *. simpl in *.
  by rewrite insert_insert, decide_True, !erase_keys_snoc.
Qed.

Definition cut_scope (s : Store) (p f : positive) (sc fa : Scope) (sfx : bytes) : Store :=
  let ks := (λ id, id ++ sfx) <$> str_order (dom (sc_ids fa)) in
  set_scopeIndex (erase_keys ks)
    (set_scopes (insert p (with_ids (erase_keys ks) (with_fathers (λ X, X ∖ {[f]}) sc)))
      (set_scopes (insert f (with_children (λ X, X ∖ {[p]}) fa)) s)).

Lemma unbranched_scope sf s p f sc fa : wf_clean sf s → scopes s !! p = Some sc →
  scopes s !! f = Some fa → father s (NS p) f → f ≠ p →
  unbranched sf (NS p) f s (cut_scope s p f sc fa (sf (NS p))).
Proof.
  intros Hwf Hsc Hfa Hf Hfp. pose proof (λ x, cut_keys sf s f fa (NS p) x Hfa) as Hks.
  constructor; unfold cut_scope.
  - intros [q|q] x Hno; unfold pair_at; simpl; [|done]. rewrite !lookup_insert.
    repeat case_decide; simplify_eq; rewrite ?Hfa, ?Hsc; try done. simpl.
    rewrite lookup_erase_keys, decide_False; [done|]. rewrite Hks. naive_solver.
  - intros x Hx. unfold pair_at. simpl. rewrite lookup_insert, decide_True by done. simpl.
    rewrite lookup_erase_keys, decide_True; [done|]. by apply Hks.
  - intros [q|q]; unfold alive; simpl; [|done]. rewrite !fmap_is_Some, !lookup_insert.
    repeat case_decide; simplify_eq; rewrite ?Hfa, ?Hsc; done.
  - intros [q|q] g; unfold father; simpl; [|naive_solver]. rewrite !lookup_insert.
    repeat case_decide; simplify_eq; rewrite ?Hfa, ?Hsc; simpl; naive_solver set_solver.
  - intros g m. unfold kid. simpl. rewrite !lookup_insert. repeat case_decide; simplify_eq.
    + rewrite Hsc. destruct m; simpl; naive_solver set_solver.
    + rewrite Hfa. destruct m; simpl; naive_solver set_solver.
    + naive_solver.
  - intros [q|q]; simpl; [|done]. rewrite !lookup_insert. repeat case_decide; simplify_eq; [..|done].
    + rewrite Hsc. naive_solver.
    + rewrite Hfa. naive_solver.
  - intros [q|q] x; simpl; [|naive_solver]. rewrite lookup_erase_keys.
    pose proof (Hks x) as Hx. case_decide as Hin.
    + split; [done|]. intros [Hidx Hno]. exfalso. apply Hno. apply Hx in Hin. split; [|done].
      destruct Hin as (fid & Hfid & ->).
      pose proof (clean_complete _ _ _ _ _ Hwf Hf Hfid) as Hh.
      eapply (wf_disj _ _ _ _ Hwf); [|exact Hh]. by apply (wf_idx _ _ _ _ Hwf (NS q)).
    + naive_solver.
Qed.

Lemma quiet_erase_others id l X s : (erased_keeps_link = false → F IterInvalidated) →
  quiet F (erase_others id l X) s.
Proof.
  intros HI. revert X. induction l as [|x l IH]; intros X; simpl; [done|].
  case_decide; [apply IH|]. destruct erased_keeps_link; [apply IH|by apply wp_throw, HI].
Qed.

Lemma scope_subscribers_alive s f fa : inv s → scopes s !! f = Some fa →
  ∀ h, h ∈ Scope_getSubscribers fa → host_alive s h.
Proof.
  intros [_ Hok] Hfa h Hh. apply (scope_getSubscribers_rel s f) in Hh as [id Hr]; [|done].
  by eapply rel_host_alive.
Qed.

Lemma collect_scope_spec p f id s : inv (st s) → father (st s) (NS p) f →
  (erased_keeps_link = false → F IterInvalidated) →
  wp F (collect_scope gc p f id) (λ _ s', inv (st s') ∧ settled (NS p) (st s) (st s')) s.
Proof.
  intros Hinv Hf HI. pose proof Hinv as [[sf Hwf] Hok].
  destruct (proj1 (alive_scope _ _) (father_alive _ _ _ Hf)) as [sc Hsc].
  assert (alive (st s) (NS f)) as [fa Hfa]%alive_scope by by eapply (wf_father _ _ _ _ Hwf).
  assert (nids (st s) (NS p) = Some (sc_ids sc)) as Hids by (simpl; by rewrite Hsc).
  assert (nfathers (st s) (NS p) = Some (sc_fathers sc)) as Hfs by (simpl; by rewrite Hsc).
  assert (f ≠ p) as Hfp.
  { intros ->. by eapply (wf_acyclic _ _ p p Hwf); [apply rtc_refl|]. }
  unfold collect_scope. apply wp_bind. eapply wp_get_scope; [done|].
  case_decide as Hleaf; [|apply wp_ret; split; [done|apply settled_refl]].
  pose proof (leaf_scope _ _ _ _ Hwf Hsc Hleaf) as Hl.
  apply wp_bind. eapply wp_mono; [by eapply checkForOtherPubSub_spec|]. intros other s1 [-> Hother].
  destruct other; [apply wp_ret; split; [done|apply settled_refl]|].
  specialize (Hother eq_refl). apply wp_bind. eapply wp_get_scope; [done|].
  pose proof (scope_subscribers_alive _ _ _ Hinv Hfa) as Hsubs. case_decide as Hsz.
  - apply wp_bind. eapply wp_mono; [by apply quiet_notify|]. intros [] s1 Hs1.
    rewrite <-Hs1 in Hinv, Hwf, Hsc, Hfa, Hf, Hfs, Hl, Hother |- *. clear Hok Hsubs Hids Hs1 s.
    apply wp_bind. eapply wp_mod_scope; [done|]. unfold delete_scope. apply wp_bind.
    eapply wp_get_scope; [simpl; by rewrite lookup_insert, decide_False|].
    apply wp_bind, wp_erase_scope, wp_mod_st. simpl.
    pose proof (only_father _ _ _ _ Hfs Hsz Hf) as Honly.
    pose proof (deleted_scope _ _ _ _ _ _ Hwf Hsc Hfa Hfp Honly) as Hde.
    assert (settled (NS p) (st s1) (without_scope (st s1) p f sc fa)) as Hse.
    { eapply deleted_settled; [done| |done|done|].
      - intros r x h Hr. destruct (wf_sound _ _ _ _ Hwf _ _ (rel_has _ _ _ _ _ Hr))
          as [Hroot|(g & gid & Hg & Hgid & ->)].
        + by apply (proj1 (wf_root _ _ _ _ Hwf _ (father_alive _ _ _ Hf)) Hroot f).
        + rewrite (Honly _ Hg) in Hgid. by eapply Hother.
      - intros [q|q]; unfold alive; simpl; rewrite ?lookup_delete, ?lookup_insert;
          repeat case_decide; simplify_eq; rewrite ?Hfa; try done. by intros []%is_Some_None. }
    split; [by eapply deleted_inv|done].
  - pose proof (other_father _ _ _ _ Hfs Hsz Hf) as Hex.
    apply wp_bind. eapply wp_mono; [by apply quiet_erase_others|]. intros ids s0 Hs0.
    apply wp_bind. eapply wp_mono; [apply quiet_notify; [done|by rewrite Hs0]|]. intros [] s1 Hs1.
    rewrite Hs0 in Hs1. clear Hs0.
    rewrite <-Hs1 in Hinv, Hwf, Hsc, Hfa, Hf, Hfs, Hl, Hother, Hex, Hids |- *. clear Hok Hsubs Hs1 s.
    unfold remove_scope_branch. apply wp_bind. eapply wp_mod_scope; [done|].
    apply wp_bind. eapply wp_mod_scope; [simpl; by rewrite lookup_insert, decide_False|].
    apply wp_bind. eapply wp_get_scope; [simpl; by rewrite lookup_insert, decide_True|].
    apply wp_bind. eapply (first_suffix_spec F _ _ (NS p)); [done..|]. apply wp_bind.
    eapply wp_get_scope; [simpl; by rewrite lookup_insert_ne, lookup_insert, decide_True|].
    eapply wp_cut_scope; [simpl; by rewrite lookup_insert, decide_True|]. cbv zeta.
    match goal with |- context [mkRv ?t _] => replace t
      with (cut_scope (st s1) p f sc fa (sf (NS p)))
      by (unfold cut_scope, set_scopes; simpl; by rewrite (insert_insert _ p p), decide_True) end.
    cbn [st]. pose proof (unbranched_scope _ _ _ _ _ _ Hwf Hsc Hfa Hf Hfp) as Hub.
    assert (settled (NS p) (st s1) (cut_scope (st s1) p f sc fa (sf (NS p)))) as Hse.
    { eapply unbranched_settled; [done| |done|done|..].
      - intros r x h (fid & Hfid & ->). by apply Hother.
      - intros [q|q] Hq; simpl; rewrite ?lookup_insert; repeat case_decide; simplify_eq;
          by rewrite ?Hfa.
      - intros [q|q]; simpl; rewrite ?lookup_insert; repeat case_decide; simplify_eq;
          by rewrite ?Hfa, ?Hsc. }
    split; [by eapply unbranched_inv|done].
Qed.

Lemma collect_root_scope_spec p s : inv (st s) → root (st s) (NS p) →
  wp F (collect_root_scope p) (λ _ s', inv (st s') ∧ settled (NS p) (st s) (st s')) s.
Proof.
  intros Hinv (sc & Hsc & Hr). pose proof Hinv as [[sf Hwf] Hok].
  unfold collect_root_scope. apply wp_bind. eapply wp_get_scope; [done|].
  case_decide as Hleaf; [|apply wp_ret; split; [done|apply settled_refl]].
  pose proof (leaf_scope _ _ _ _ Hwf Hsc Hleaf) as Hl.
  destruct (checkForOtherPubSub_root (sc_ids sc)) eqn:Hchk;
    [apply wp_ret; split; [done|apply settled_refl]|].
  unfold delete_scope. apply wp_bind. eapply wp_get_scope; [done|].
  apply wp_bind, wp_erase_scope, wp_mod_st. simpl.
  assert (∀ g, ¬ father (st s) (NS p) g) as Hno.
  { apply (wf_root _ _ _ _ Hwf); [|by exists sc]. apply alive_scope. eauto. }
  pose proof (deleted_root _ _ _ _ Hwf Hsc Hno) as Hde.
  assert (settled (NS p) (st s) (without_root (st s) p sc)) as Hse.
  { eapply deleted_settled; [done| |done|done|].
    - intros r x h (pr & Hpr & Hh). unfold pair_at in Hpr. simpl in Hpr. rewrite Hsc in Hpr.
      simpl in Hpr. unfold checkForOtherPubSub_root in Hchk. apply negb_false_iff in Hchk.
      rewrite forallb_forall in Hchk. specialize (Hchk pr).
      assert (pair_empty pr = true) as [H1 H2]%andb_true_iff.
      { apply Hchk. apply list_elem_of_In, list_elem_of_fmap. exists (x, pr).
        split; [done|]. by apply elem_of_map_to_list. }
      apply bool_decide_eq_true in H1, H2. destruct r; simpl in Hh; set_solver.
    - intros [q|q]; unfold alive; simpl; rewrite ?lookup_delete;
        repeat case_decide; simplify_eq; try done. by intros []%is_Some_None. }
  split; [by eapply deleted_inv|done].
Qed.
End collect.
