(* ===== verification/RVSafety.v ===== *)
(** * Safety of the request handlers of LocalRV

    Each handler, called by a live host, keeps the invariant of [RVInv] and
    never follows a NULL or dangling pointer, nor reads an element of an empty
    table.  The faults that remain possible are named by the fault predicate
    [F]: packets that are too small for their contents ([BufferOverflow]), an
    iterator advanced after its element was erased ([IterInvalidated], when
    the allocator does not keep the link) and the unbounded recursion of a
    scope that is published below itself. *)
From stdpp Require Import base list gmap sets.
From Stdlib Require Import ZArith Lia.
From S2P Require Import Prelude Enums Bitvector GlobalConf InfoGraph GraphInv LocalRV RVInv RVGraft RVLedger RVCollect.

(** ** What an unpublication leaves alone *)

(** Scopes, hosts and subscriptions stay, publishers and items may go. *)
Record shrunk (s s' : Store) : Prop := {
  sk_sub m x g : rel s' Sub m x g ↔ rel s Sub m x g;
  sk_pub m x g : rel s' Pub m x g → rel s Pub m x g;
  sk_scope_pub p x g : rel s' Pub (NS p) x g ↔ rel s Pub (NS p) x g;
  sk_has m x : has s' m x → has s m x;
  sk_scope p x : has s' (NS p) x ↔ has s (NS p) x;
  sk_fathers p : nfathers s' (NS p) = nfathers s (NS p);
  sk_alive m : alive s' m → alive s m;
  sk_strategy m : alive s' m → nstrategy s' m = nstrategy s m;
  sk_host h : host_alive s' h ↔ host_alive s h;
  sk_known : known_rootscopes s' = known_rootscopes s;
}.

#[export] Instance shrunk_preorder : PreOrder shrunk.
Proof.
  split.
  - intros s. by constructor.
  - intros s1 s2 s3 [] []. constructor; try (intros; etrans; eauto; done); eauto.
    intros m Hm. rewrite sk_strategy1 by done. auto.
Qed.

(** Moreover the unpublication by [h] under [id] only touches the node that
    has [id], and no other publisher. *)
Record trimmed (id : bytes) (h : positive) (s s' : Store) : Prop := {
  tm_shrunk : shrunk s s';
  tm_keep m x g : rel s Pub m x g → ¬ (x = id ∧ g = h) → rel s' Pub m x g;
  tm_has m x : ¬ has s m id → has s' m x ↔ has s m x;
  tm_fathers m : ¬ has s m id → nfathers s' m = nfathers s m;
}.

Lemma trimmed_refl id h s : trimmed id h s s.
Proof. by constructor. Qed.

Lemma trimmed_ebbed id h s s' : trimmed id h s s' → ebbed (λ x, x = id) s s'.
Proof.
  intros [[] Hkeep _ _]. split; intros [] m x g; naive_solver.
Qed.

(** The publishers other than [h] stay. *)
Definition spared (h : positive) (s s' : Store) : Prop :=
  ∀ m x g, rel s Pub m x g → g ≠ h → rel s' Pub m x g.

#[export] Instance spared_preorder h : PreOrder (spared h).
Proof. split; [by intros s m x g|]. intros s1 s2 s3 H1 H2 m x g Hr Hg. auto. Qed.

Lemma trimmed_spared id h s s' : trimmed id h s s' → spared h s s'.
Proof. intros [_ Hkeep _ _] m x g Hr Hg. apply Hkeep; naive_solver. Qed.

Lemma shrunk_scope_alive s s' p : shrunk s s' → alive s' (NS p) ↔ alive s (NS p).
Proof. intros Hsk. unfold alive. by rewrite (sk_fathers _ _ Hsk). Qed.
Lemma shrunk_scope_father s s' p f : shrunk s s' → father s' (NS p) f ↔ father s (NS p) f.
Proof. intros Hsk. unfold father. by rewrite (sk_fathers _ _ Hsk). Qed.

(** Leaving a pair and then being collected is such a change. *)
Lemma quitted_settled_trimmed i id h s s1 s2 : has s (NI i) id →
  quitted Pub (NI i) id h s s1 → settled (NI i) s1 s2 → trimmed id h s s2.
Proof.
  intros Hid [[[Hfa _ _ Hhas _] Hst Hho Hkn] Hrel] [Hrel2 Hp2 Hb2 Ha2 Hfa2 Hst2 [Hh2 _ _] Hk2].
  assert (∀ m x, m ≠ NI i → has s2 m x ↔ has s m x) as Hother.
  { intros m x Hm. rewrite <-Hhas. unfold has. by rewrite Hp2. }
  assert (∀ m x, has s2 m x → has s m x) as Hback.
  { intros m x Hx. destruct (decide (m = NI i)) as [->|]; [apply Hhas; by apply Hb2|].
    by apply Hother. }
  constructor; [constructor|..].
  - intros m x g. rewrite Hrel2, Hrel. naive_solver.
  - intros m x g. rewrite Hrel2, Hrel. naive_solver.
  - intros p x g. rewrite Hrel2, Hrel. naive_solver.
  - done.
  - intros p x. by apply Hother.
  - intros p. by rewrite Hfa2, Hfa.
  - intros m Hm%Ha2. unfold alive in *. by rewrite <-Hfa.
  - intros m Hm. rewrite Hst2 by done. apply Hst.
  - intros g. unfold host_alive in *. rewrite Hh2. apply Hho.
  - congruence.
  - intros m x g Hr Hno. apply Hrel2, Hrel. naive_solver.
  - intros m x Hm. apply Hother. by intros ->.
  - intros m Hm. rewrite Hfa2 by (by intros ->). apply Hfa.
Qed.

Lemma suffix_app prefixID ID : length ID = PURSUIT_ID_LEN → suffix (prefixID ++ ID) = ID.
Proof.
  intros Hlen. unfold suffix, substr. rewrite length_app, Hlen, Nat.add_sub, drop_app_length.
  by rewrite <-Hlen, firstn_all.
Qed.

Lemma inv_root s p : inv s → root s (NS p) ↔ nfathers s (NS p) = Some ∅.
Proof.
  intros [[sf Hwf] _]. split.
  - intros Hr. assert (alive s (NS p)) as Hp by (destruct Hr as (sc & ? & _); apply alive_scope; eauto).
    pose proof (proj1 (wf_root _ _ _ _ Hwf _ Hp) Hr) as Hno. destruct Hp as [X HX]. rewrite HX.
    f_equal. apply leibniz_equiv. intros f. split; [|set_solver]. intros Hf.
    exfalso. apply (Hno f). by exists X.
  - intros HX. apply (wf_root _ _ _ _ Hwf); [by eexists|]. intros f (X & HX' & Hf). set_solver.
Qed.

Section safety.
Context `{HO : HashOrder} (gc : GlobalConf) (F : fault → Prop) (HF : F BufferOverflow).
Context (HI : erased_keeps_link = false → F IterInvalidated).

(** An identifier of an item ends in one fragment below a father. *)
Lemma item_father sf s i prefixID ID : wf_clean sf s → has s (NI i) (prefixID ++ ID) →
  length ID = PURSUIT_ID_LEN →
  ∃ f, father s (NI i) f ∧ scopeIndex s !! prefixID = Some f ∧ ID = sf (NI i).
Proof.
  intros Hwf Hid Hlen. destruct (wf_sound _ _ _ _ Hwf _ _ Hid) as [[]|(f & fid & Hf & Hfid & Heq)].
  apply app_inj_2 in Heq as [-> ->]; [|by rewrite Hlen, (wf_len _ _ _ _ Hwf) by eauto using has_alive].
  exists f. split_and!; try done. by apply (wf_idx _ _ _ _ Hwf (NS f)).
Qed.

Lemma unpublish_info_spec h ID prefixID strategy upd s : inv (st s) → host_alive (st s) h →
  length ID = PURSUIT_ID_LEN →
  wp F (unpublish_info gc h ID prefixID strategy upd)
    (λ c s', inv (st s') ∧ trimmed (prefixID ++ ID) h (st s) (st s') ∧
       revokes Pub KItem (prefixID ++ ID) h c (st s) (st s') ∧
       (c = STRATEGY_MISMATCH → ∃ f, scopeIndex (st s) !! prefixID = Some f ∧
          nstrategy (st s) (NS f) ≠ Some strategy)) s.
Proof.
  intros Hinv Hh Hlen. pose proof Hinv as [[sf Hwf] Hok]. unfold unpublish_info.
  apply wp_bind, wp_get_st. destruct (pubIndex (st s) !! (prefixID ++ ID)) as [i|] eqn:Hi.
  2:{ apply wp_ret. split_and!; [done|apply trimmed_refl| |done].
      by eapply revokes_unindexed. }
  assert (has (st s) (NI i) (prefixID ++ ID)) as Hid by by apply (wf_idx _ _ _ _ Hwf (NI i)).
  destruct (item_father _ _ _ _ _ Hwf Hid Hlen) as (f & Hf & Hidx & _).
  assert (alive (st s) (NS f)) as [fa Hfa]%alive_scope by by eapply (wf_father _ _ _ _ Hwf).
  apply wp_bind. eapply wp_deref; [done|]. apply wp_bind. eapply wp_get_scope; [done|].
  destruct (_ =? _)%Z eqn:Hstr; [|apply wp_ret; split_and!; [done|apply trimmed_refl|done|]].
  2:{ intros _. exists f. split; [done|]. simpl. rewrite Hfa. simpl. intros [= Heq].
      by apply Z.eqb_neq in Hstr. }
  pose proof Hid as [pr Hpr]. pose proof (pair_item _ _ _ _ Hpr) as (it & Hit & Hpr').
  apply wp_bind. eapply wp_get_item; [done|]. apply wp_bind. eapply wp_deref; [done|].
  case_decide as Hin; [|apply wp_ret; split_and!; [done|apply trimmed_refl| |done]].
  2:{ apply (revokes_absent sf _ (NI i)); [done|done| |done].
      by rewrite (rel_side _ _ _ _ _ _ Hpr). }
  apply wp_bind. eapply wp_mono; [by apply (leave_item F Pub)|].
  intros [] s1 (Hinv1 & Hout1 & Hq1). apply wp_bind.
  eapply wp_mono; [apply (collect_item_spec F HF); [done|by apply (calm_father _ _ _ _ (proj1 Hq1))]|].
  intros b s2 (Hinv2 & Hout2 & Hse & Hal).
  assert (trimmed (prefixID ++ ID) h (st s) (st s2)) as Htm.
  { by eapply quitted_settled_trimmed. }
  assert (revokes Pub KItem (prefixID ++ ID) h SUCCESS (st s) (st s2)) as Hrv.
  { eapply (revokes_settled sf Pub (NI i)); [done|by exists pr|done|apply Hse]. }
  apply wp_bind. destruct b; [by apply wp_ret, wp_ret|].
  eapply wp_mono; [apply (quiet_unless_known gc F HF); [by apply (getRootScopes_ne (st s) i)|done|by apply Hal]|].
  intros [] s3 Hs3. apply wp_ret. by rewrite Hs3.
Qed.

(** ** Loops of unpublications *)

Lemma unpublish_all_spec i ID prefixID strategy upd s : inv (st s) → alive (st s) (NI i) →
  length ID = PURSUIT_ID_LEN →
  wp F (unpublish_all gc i ID prefixID strategy upd)
    (λ _ s', inv (st s') ∧ shrunk (st s) (st s') ∧ ebbed (λ x, x = prefixID ++ ID) (st s) (st s')) s.
Proof.
  intros Hinv [it Hit]%alive_item Hlen. unfold unpublish_all.
  apply wp_bind. eapply wp_get_item; [done|].
  apply (wp_for_each_inv F _ _ (λ s', inv (st s') ∧ shrunk (st s) (st s') ∧
    ebbed (λ x, x = prefixID ++ ID) (st s) (st s'))); [done|].
  intros h s' Hh%elem_of_ptr_order (Hinv' & Hsk & Heb). apply wp_bind.
  eapply wp_mono; [apply unpublish_info_spec; [done| |done]|].
  - apply (sk_host _ _ Hsk). apply (getPublishers_rel (st s) i) in Hh as [id Hr]; [|done].
    eapply rel_host_alive; [apply Hinv|done].
  - intros _ s2 (Hinv2 & Htm & _). apply wp_ret. split_and!; [done|..].
    + etrans; [done|apply Htm].
    + etrans; [done|by eapply trimmed_ebbed].
Qed.

(** The last fragment of the identifiers of a node. *)
Definition ends_in (s : Store) (n : node) (sfx : bytes) : Prop :=
  length sfx = PURSUIT_ID_LEN ∧ ∀ id, has s n id → suffix id = sfx.

Lemma inv_ends_in sf s n : wf_clean sf s → alive s n → ends_in s n (sf n).
Proof.
  intros Hwf Hn. split; [by apply (wf_len _ _ _ _ Hwf)|].
  intros id. apply (wf_suffix _ _ _ _ Hwf).
Qed.

Lemma first_suffix_ends n ids sfx s (Q : bytes → rv → Prop) : inv (st s) →
  nids (st s) n = Some ids → ends_in (st s) n sfx → Q sfx s → wp F (first_suffix ids) Q s.
Proof.
  intros [[sf Hwf] _] Hids [_ Hends] HQ. eapply (first_suffix_spec F _ _ n); [done..|].
  destruct (wf_ne _ _ _ _ Hwf n) as [id Hid]; [apply alive_nids; eauto|done|].
  by rewrite <-(wf_suffix _ _ _ _ Hwf n id Hid), (Hends id Hid).
Qed.

(** Other nodes keep their identifiers and fathers. *)
Definition others_kept (n : node) (s s' : Store) : Prop :=
  ∀ m, m ≠ n → (∀ x, has s' m x ↔ has s m x) ∧ nfathers s' m = nfathers s m.

(** The one-shot unpublication of a subscription: as long as publishers are
    left, the item is. *)
Lemma unpublish_matched_spec i sfx prefixID strategy upd s : inv (st s) →
  alive (st s) (NI i) → ends_in (st s) (NI i) sfx →
  (∀ m, m ≠ NI i → ¬ has (st s) m (prefixID ++ sfx)) →
  wp F (unpublish_matched gc i prefixID strategy upd)
    (λ _ s', inv (st s') ∧ shrunk (st s) (st s') ∧ others_kept (NI i) (st s) (st s') ∧
       ebbed (λ x, x = prefixID ++ sfx) (st s) (st s')) s.
Proof.
  intros Hinv [it Hit]%alive_item [Hlen Hends] Hown. unfold unpublish_matched.
  apply wp_bind. eapply wp_get_item; [done|].
  eapply wp_mono; [apply (wp_for_each F _ _ (λ l s', NoDup l ∧
    (∀ g, g ∈ l → ∃ x, rel (st s') Pub (NI i) x g) ∧ inv (st s') ∧ shrunk (st s) (st s') ∧
    others_kept (NI i) (st s) (st s') ∧ ebbed (λ x, x = prefixID ++ sfx) (st s) (st s')))|].
  - split_and!; [|..|done|done|by intros m _|done].
    + rewrite (ptr_order_perm (getPublishers it)). apply NoDup_elements.
    + intros g Hg%elem_of_ptr_order. by apply (getPublishers_rel (st s) i) in Hg.
  - intros h l s1 (Hnd & Hl & Hinv1 & Hsk1 & Hoth1 & Heb1). apply NoDup_cons in Hnd as [Hhl Hnd].
    destruct (Hl h) as [x Hx]; [left|].
    destruct (proj1 (alive_item _ _) (has_alive _ _ _ (rel_has _ _ _ _ _ Hx))) as [it1 Hit1].
    apply wp_bind. eapply wp_get_item; [done|]. apply wp_bind.
    eapply (first_suffix_ends (NI i) _ sfx); [done|simpl; by rewrite Hit1| |].
    { split; [done|]. intros id Hid. by apply Hends, (sk_has _ _ Hsk1). }
    apply wp_bind. eapply wp_mono; [apply unpublish_info_spec; [done| |done]|].
    { eapply rel_host_alive; [apply Hinv1|done]. }
    intros _ s2 (Hinv2 & Htm & _). apply wp_ret. pose proof Htm as [Hsk2 Hkeep Hhas2 Hfa2].
    split_and!; [done| |done|by etrans| |etrans; [done|by eapply trimmed_ebbed]].
    + intros g Hg. destruct (Hl g) as [y Hy]; [by right|]. exists y. apply Hkeep; [done|].
      intros [_ ->]. done.
    + intros m Hm. destruct (Hoth1 m Hm) as [Hh1 Hf1].
      assert (¬ has (st s1) m (prefixID ++ sfx)) as Hno by (rewrite Hh1; by apply Hown).
      split; [intros y; by rewrite Hhas2|by rewrite Hfa2].
  - by intros [] s' (_ & _ & ? & ? & ? & ?).
Qed.

(** [h] publishes the item [i] under no identifier of the scope [p]. *)
Definition withdrawn (h p i : positive) (s : Store) : Prop :=
  ∀ x e, has s (NS p) x → length e = PURSUIT_ID_LEN → ¬ rel s Pub (NI i) (x ++ e) h.

Lemma withdrawn_shrunk h p i s s' : shrunk s s' → withdrawn h p i s → withdrawn h p i s'.
Proof.
  intros Hsk Hw x e Hx He Hr. apply (Hw x e); [by apply (sk_scope _ _ Hsk)|done|].
  by apply (sk_pub _ _ Hsk).
Qed.

(** Only items below [p] have identifiers below those of [p]. *)
Lemma withdrawn_not_kid h p i s : inv s → ¬ father s (NI i) p → withdrawn h p i s.
Proof.
  intros [[sf Hwf] _] Hno x e Hx He Hr. apply rel_has in Hr.
  destruct (item_father _ _ _ _ _ Hwf Hr He) as (f & Hf & Hidx & _).
  apply (wf_idx _ _ _ _ Hwf (NS p)) in Hx. simpl in Hx. congruence.
Qed.

(** One item, under all identifiers of the scope. *)
Lemma unpublish_item_spec h p i sfx ids strategy upd s : inv (st s) →
  nstrategy (st s) (NS p) = Some strategy → host_alive (st s) h → ends_in (st s) (NI i) sfx →
  (∀ x, x ∈ ids ↔ has (st s) (NS p) x) →
  wp F (for_each ids (λ x, _ ← unpublish_info gc h sfx x strategy upd; mret tt))
    (λ _ s', inv (st s') ∧ shrunk (st s) (st s') ∧ spared h (st s) (st s') ∧
       withdrawn h p i (st s')) s.
Proof.
  intros Hinv Hstr Hh [Hlen Hends] Hids.
  eapply wp_mono; [apply (wp_for_each F _ _ (λ l s', (∀ x, x ∈ l → has (st s) (NS p) x) ∧
    inv (st s') ∧ shrunk (st s) (st s') ∧ spared h (st s) (st s') ∧
    ∀ x, has (st s) (NS p) x → x ∉ l → ¬ rel (st s') Pub (NI i) (x ++ sfx) h))|].
  - split_and!; [by intros x ?%Hids|done|done|done|]. by intros x ?%Hids ?.
  - intros x l s1 (Hl & Hinv1 & Hsk1 & Hsp1 & Hgone). assert (has (st s) (NS p) x) as Hx by (apply Hl; left).
    apply wp_bind. eapply wp_mono; [apply unpublish_info_spec; [done|by apply (sk_host _ _ Hsk1)|done]|].
    intros c s2 (Hinv2 & Htm & Hrv & Hmis). apply wp_ret.
    assert (shrunk (st s1) (st s2)) as Hsk2 by apply Htm.
    split_and!; [|done|by etrans|etrans; [done|by eapply trimmed_spared]|].
    { intros y Hy. apply Hl. by right. }
    intros y Hy Hyl Hr. destruct (decide (y = x)) as [->|Hne].
    + eapply revokes_gone; [done| |by exists (NI i)]. intros (f & Hf & Hf')%Hmis.
      apply (sk_scope _ _ Hsk1) in Hx as Hx1. destruct Hinv1 as [[sf1 Hwf1] _].
      pose proof (has_alive _ _ _ Hx1) as Hp1.
      apply (wf_idx _ _ _ _ Hwf1 (NS p)) in Hx1. simpl in Hx1. simplify_eq.
      by rewrite (sk_strategy _ _ Hsk1) in Hf'.
    + apply (Hgone y); [done|set_solver|]. by apply (sk_pub _ _ Hsk2).
  - intros [] s' (_ & Hinv' & Hsk & Hsp & Hgone). split_and!; try done.
    intros x e Hx He Hr. assert (e = sfx) as ->.
    { rewrite <-(suffix_app x e He). apply Hends. apply (sk_has _ _ Hsk). by eapply rel_has. }
    eapply Hgone; [by apply (sk_scope _ _ Hsk)|apply not_elem_of_nil|done].
Qed.

(** All items of a scope, under all its identifiers; the loop may advance
    past erased items. *)
Lemma unpublish_items_spec h p strategy upd s : inv (st s) →
  nstrategy (st s) (NS p) = Some strategy → host_alive (st s) h →
  wp F (unpublish_items gc h p strategy upd)
    (λ _ s', inv (st s') ∧ shrunk (st s) (st s') ∧ spared h (st s) (st s') ∧
       ∀ i, withdrawn h p i (st s')) s.
Proof.
  intros Hinv Hstr Hh. assert (∃ sc, scopes (st s) !! p = Some sc) as [sc Hsc].
  { simpl in Hstr. destruct (scopes (st s) !! p); [eauto|done]. }
  unfold unpublish_items. apply wp_bind. eapply wp_get_scope; [done|].
  assert (∀ i, i ∉ ptr_order (informationitems sc) → withdrawn h p i (st s)) as HJ.
  { intros i Hi. apply withdrawn_not_kid; [done|]. destruct Hinv as [[sf Hwf] _].
    intros (sc' & ? & ?)%(wf_kid _ _ _ _ Hwf). simplify_eq. apply Hi. by apply elem_of_ptr_order. }
  revert HJ. generalize (ptr_order (informationitems sc)). intros l HJ.
  enough (∀ s1, inv (st s1) ∧ shrunk (st s) (st s1) ∧ spared h (st s) (st s1) ∧
      (∀ i, i ∉ l → withdrawn h p i (st s1)) →
    wp F (for_live (o ← get_scope p; mret (informationitems o)) l _)
      (λ _ s', inv (st s') ∧ shrunk (st s) (st s') ∧ spared h (st s) (st s') ∧
         ∀ i, withdrawn h p i (st s')) s1) as Hloop by by apply Hloop.
  clear HJ. induction l as [|i l IH]; intros s1 (Hinv1 & Hsk1 & Hsp1 & Hw1); simpl.
  { apply wp_ret. split_and!; try done. intros i. apply Hw1, not_elem_of_nil. }
  assert (alive (st s) (NS p)) as Hp by (apply alive_scope; eauto).
  assert (alive (st s1) (NS p)) as Hp1 by by apply (shrunk_scope_alive _ _ _ Hsk1).
  destruct (proj1 (alive_scope _ _) Hp1) as [sc1 Hsc1].
  apply wp_bind, wp_bind. eapply wp_get_scope; [done|]. apply wp_ret.
  pose proof Hinv1 as [[sf Hwf1] _]. case_decide as Hin.
  2:{ apply IH. split_and!; try done. intros j Hj. destruct (decide (j = i)) as [->|].
      - apply withdrawn_not_kid; [done|]. intros (sc' & ? & ?)%(wf_kid _ _ _ _ Hwf1).
        by simplify_eq.
      - apply Hw1. set_solver. }
  assert (alive (st s1) (NI i)) as Hi.
  { eapply father_alive, (wf_kid _ _ _ _ Hwf1). by exists sc1. }
  destruct (proj1 (alive_item _ _) Hi) as [it Hit].
  apply wp_bind, wp_bind. eapply wp_get_item; [done|]. apply wp_bind.
  eapply (first_suffix_ends (NI i)); [done|simpl; by rewrite Hit|by apply inv_ends_in|].
  apply wp_bind. eapply wp_get_scope; [done|].
  eapply wp_mono; [apply (unpublish_item_spec h p i); [done| |by apply (sk_host _ _ Hsk1)|by apply inv_ends_in|]|].
  { by rewrite (sk_strategy _ _ Hsk1). }
  { intros x. rewrite elem_of_str_order, elem_of_dom. unfold has, pair_at. simpl. by rewrite Hsc1. }
  intros [] s2 (Hinv2 & Hsk2 & Hsp2 & Hw2).
  assert (shrunk (st s) (st s2)) as Hsk02 by by etrans.
  assert (alive (st s2) (NS p)) as [sc2 Hsc2]%alive_scope by by apply (shrunk_scope_alive _ _ _ Hsk02).
  apply wp_bind, wp_bind. eapply wp_get_scope; [done|]. apply wp_ret.
  assert (∀ j, j ∉ l → withdrawn h p j (st s2)) as Hw3.
  { intros j Hj. destruct (decide (j = i)) as [->|]; [done|].
    apply (withdrawn_shrunk _ _ _ _ _ Hsk2), Hw1. set_solver. }
  assert (spared h (st s) (st s2)) as Hsp02 by by etrans.
  case_decide; [by apply IH|].
  destruct erased_keeps_link; [by apply IH|by apply wp_throw, HI].
Qed.

(** ** Unpublication and unsubscription *)

(** The prefix of an identifier with one more fragment is that of a father,
    or the scope is a root. *)
Lemma scope_father sf s p prefixID ID : wf_clean sf s → has s (NS p) (prefixID ++ ID) →
  length ID = PURSUIT_ID_LEN →
  match scopeIndex s !! prefixID with
  | Some f => father s (NS p) f
  | None => root s (NS p)
  end.
Proof.
  intros Hwf Hid Hlen. destruct (wf_sound _ _ _ _ Hwf _ _ Hid) as [Hr|(f & fid & Hf & Hfid & Heq)].
  - destruct (scopeIndex s !! prefixID) as [f|] eqn:Hf; [|done]. exfalso.
    assert (has s (NS f) prefixID) as Hpre by by apply (wf_idx _ _ _ _ Hwf (NS f)).
    apply (wf_long _ _ _ _ Hwf) in Hpre.
    apply (wf_root_ids _ _ _ _ Hwf _ _ Hr) in Hid as Heq.
    apply (f_equal length) in Heq. rewrite length_app, Hlen, (wf_len _ _ _ _ Hwf) in Heq
      by eauto using has_alive. unfold PURSUIT_ID_LEN in *. lia.
  - apply app_inj_2 in Heq as [-> _]; [|by rewrite Hlen, (wf_len _ _ _ _ Hwf) by eauto using has_alive].
    apply (wf_idx _ _ _ _ Hwf (NS f)) in Hfid. simpl in Hfid. by rewrite Hfid.
Qed.

(** The contract of unpublish_scope: the publisher leaves the items of the
    scope before it is known whether it publishes the scope itself. *)
Record withdraws (id : bytes) (h : positive) (c : RvReturnCode) (s s' : Store) : Prop := {
  wd_sub k x g : ledger s' Sub k x g ↔ ledger s Sub k x g;
  wd_others k x g : g ≠ h → ledger s' Pub k x g ↔ ledger s Pub k x g;
  wd_scopes x : ledger s' Pub KScope x h ↔
    ledger s Pub KScope x h ∧ ¬ (c = SUCCESS ∧ x = id);
  wd_items x : ledger s' Pub KItem x h → ledger s Pub KItem x h;
  wd_gone x e : c = SUCCESS ∨ c = DOES_NOT_EXIST → scopeIndex s !! x = scopeIndex s !! id →
    length e = PURSUIT_ID_LEN → ¬ ledger s' Pub KItem (x ++ e) h;
  wd_was : c ≠ STRATEGY_MISMATCH → (c = SUCCESS ↔ ledger s Pub KScope id h);
  wd_same : c = STRATEGY_MISMATCH ∨ c = SCOPE_DOES_NOT_EXIST → s' = s;
}.

Lemma withdraws_intro sf p id h (c : RvReturnCode) s s1 s' : wf_clean sf s →
  has s (NS p) id → shrunk s s1 → spared h s s1 → (∀ i, withdrawn h p i s1) →
  (∀ r m x g, rel s' r m x g ↔
     rel s1 r m x g ∧ ¬ (c = SUCCESS ∧ r = Pub ∧ m = NS p ∧ x = id ∧ g = h)) →
  (c = SUCCESS ↔ rel s Pub (NS p) id h) → c ≠ SCOPE_DOES_NOT_EXIST → c ≠ STRATEGY_MISMATCH →
  withdraws id h c s s'.
Proof.
  intros Hwf Hid Hsk Hsp Hw Hrel Hc Hc1 Hc2. constructor; [..|naive_solver].
  - intros k x g. unfold ledger. setoid_rewrite Hrel. setoid_rewrite (sk_sub _ _ Hsk).
    naive_solver.
  - intros k x g Hg. unfold ledger. setoid_rewrite Hrel.
    split; intros (n & Hk & Hr); exists n; (split; [done|]).
    + by apply (sk_pub _ _ Hsk), Hr.
    + split; [by apply Hsp|naive_solver].
  - intros x. unfold ledger. setoid_rewrite Hrel. split.
    + intros ([q|] & Hk & Hr & Hno); [|done]. apply (sk_scope_pub _ _ Hsk) in Hr.
      split; [by exists (NS q)|]. intros [-> ->]. apply Hno. split_and!; try done.
      eapply (wf_disj _ _ _ _ Hwf); [by eapply rel_has|done].
    + intros [([q|] & Hk & Hr) Hno]; [|done]. exists (NS q).
      split_and!; [done|by apply (sk_scope_pub _ _ Hsk)|naive_solver].
  - intros x ([|i] & Hk & Hr%Hrel); [done|]. exists (NI i). split; [done|].
    by apply (sk_pub _ _ Hsk), Hr.
  - intros x e _ Hx He ([|i] & Hk & Hr%Hrel); [done|]. apply (Hw i x e); [|done|apply Hr].
    apply (sk_scope _ _ Hsk), (wf_idx _ _ _ _ Hwf). simpl. rewrite Hx.
    by apply (wf_idx _ _ _ _ Hwf (NS p)).
  - intros _. by rewrite Hc, (ledger_rel _ _ _ (NS p) _ _ Hwf Hid).
Qed.

Lemma withdraws_refl sf id h c s : wf_clean sf s →
  c = STRATEGY_MISMATCH ∨ (c = SCOPE_DOES_NOT_EXIST ∧ scopeIndex s !! id = None) →
  withdraws id h c s s.
Proof.
  intros Hwf [->|[-> Hno]]; constructor; try done; try naive_solver. intros _.
  split; [done|]. intros Hl%(ledger_has _ _ _ _ _ _ Hwf). rewrite Hno in Hl. by destruct Hl.
Qed.

Lemma unpublish_scope_spec h ID prefixID strategy upd s : inv (st s) → host_alive (st s) h →
  length ID = PURSUIT_ID_LEN →
  wp F (unpublish_scope gc h ID prefixID strategy upd)
    (λ c s', inv (st s') ∧ withdraws (prefixID ++ ID) h c (st s) (st s')) s.
Proof.
  intros Hinv Hh Hlen. pose proof Hinv as [[sf Hwf] Hok]. unfold unpublish_scope.
  apply wp_bind, wp_get_st. destruct (scopeIndex (st s) !! (prefixID ++ ID)) as [p|] eqn:Hp.
  2:{ apply wp_ret. split; [done|]. eapply withdraws_refl; [done|]. by right. }
  assert (has (st s) (NS p) (prefixID ++ ID)) as Hid by by apply (wf_idx _ _ _ _ Hwf (NS p)).
  pose proof (scope_father _ _ _ _ _ Hwf Hid Hlen) as Hf.
  destruct (proj1 (alive_scope _ _) (has_alive _ _ _ Hid)) as [sc Hsc].
  apply wp_bind. eapply wp_get_scope; [done|]. destruct (_ =? _)%Z eqn:Hstr.
  2:{ apply wp_ret. split; [done|]. eapply withdraws_refl; [done|]. by left. }
  apply Z.eqb_eq in Hstr. apply wp_bind. eapply wp_mono; [apply unpublish_items_spec; [done| |done]|].
  { simpl. rewrite Hsc. simpl. by rewrite Hstr. }
  intros [] s1 (Hinv1 & Hsk1 & Hsp1 & Hw1).
  assert (has (st s1) (NS p) (prefixID ++ ID)) as [pr Hpr] by by apply (sk_scope _ _ Hsk1).
  pose proof (pair_scope _ _ _ _ Hpr) as (sc1 & Hsc1 & Hpr').
  pose proof (sk_scope_pub _ _ Hsk1 p (prefixID ++ ID) h) as Hsp.
  rewrite (rel_side _ _ _ _ _ _ Hpr) in Hsp.
  apply wp_bind. eapply wp_get_scope; [done|]. apply wp_bind. eapply wp_deref; [done|].
  case_decide as Hin; [|apply wp_ret; split; [done|]].
  2:{ eapply withdraws_intro; try done; naive_solver. }
  apply wp_bind.
  eapply wp_mono; [apply (leave_scope F Pub); [done..|by apply (sk_host _ _ Hsk1)]|].
  intros [] s2 (Hinv2 & _ & [Hcalm Hrel2]).
  assert (nfathers (st s2) (NS p) = nfathers (st s) (NS p)) as Hfs
    by by rewrite (rp_fathers _ _ (ca_rep _ _ Hcalm)), (sk_fathers _ _ Hsk1).
  apply wp_bind. eapply (wp_mono _ _ (λ _ s3, inv (st s3) ∧ settled (NS p) (st s2) (st s3))).
  - destruct (scopeIndex (st s) !! prefixID) as [f|].
    + apply (collect_scope_spec gc F HF); [done| |done]. unfold father in *. by rewrite Hfs.
    + apply (collect_root_scope_spec F HF); [done|]. apply inv_root; [done|]. rewrite Hfs.
      by apply inv_root.
  - intros [] s3 [Hinv3 Hse]. apply wp_ret. split; [done|].
    eapply withdraws_intro; try done; [|naive_solver].
    intros r m x g. rewrite (se_rel _ _ _ Hse), Hrel2. naive_solver.
Qed.

Lemma quiet_rendezvous_items p upd s : inv (st s) → alive (st s) (NS p) →
  quiet F (rendezvous_items gc p upd) s.
Proof.
  intros Hinv [sc Hsc]%alive_scope. unfold rendezvous_items, quiet.
  apply wp_bind. eapply wp_get_scope; [done|]. apply quiet_for_each.
  intros i s' Hi%elem_of_ptr_order Hs'. apply (quiet_rendezvous_again gc F HF); rewrite Hs'; [done|].
  destruct Hinv as [[sf Hwf] _]. eapply father_alive, (wf_kid _ _ _ _ Hwf). by exists sc.
Qed.

Lemma unsubscribe_scope_spec h ID prefixID strategy upd s : inv (st s) → host_alive (st s) h →
  length ID = PURSUIT_ID_LEN →
  wp F (unsubscribe_scope gc h ID prefixID strategy upd)
    (λ c s', inv (st s') ∧ revokes Sub KScope (prefixID ++ ID) h c (st s) (st s')) s.
Proof.
  intros Hinv Hh Hlen. pose proof Hinv as [[sf Hwf] Hok]. unfold unsubscribe_scope.
  apply wp_bind, wp_get_st. destruct (scopeIndex (st s) !! (prefixID ++ ID)) as [p|] eqn:Hp.
  2:{ apply wp_ret. split; [done|by eapply revokes_unindexed]. }
  assert (has (st s) (NS p) (prefixID ++ ID)) as Hid by by apply (wf_idx _ _ _ _ Hwf (NS p)).
  pose proof (scope_father _ _ _ _ _ Hwf Hid Hlen) as Hf.
  pose proof Hid as [pr Hpr]. pose proof (pair_scope _ _ _ _ Hpr) as (sc & Hsc & Hpr').
  apply wp_bind. eapply wp_get_scope; [done|]. destruct (_ =? _)%Z; [|by apply wp_ret].
  apply wp_bind. eapply wp_deref; [done|]. case_decide as Hin.
  2:{ apply wp_ret. split; [done|]. apply (revokes_absent sf _ (NS p)); [done|done| |done].
      by rewrite (rel_side _ _ _ _ _ _ Hpr). }
  apply wp_bind.
  eapply wp_mono; [by apply (leave_scope F Sub)|]. intros [] s2 (Hinv2 & _ & Hq2).
  pose proof (proj1 Hq2) as Hcalm.
  assert (nfathers (st s2) (NS p) = nfathers (st s) (NS p)) as Hfs
    by apply (rp_fathers _ _ (ca_rep _ _ Hcalm)).
  assert (alive (st s2) (NS p)) as Hp2
    by (apply (calm_alive _ _ _ Hcalm); by eapply has_alive).
  assert (∀ known : Prop, ∀ dec : Decision known,
    quiet F (if decide known then mret tt else rendezvous_items gc p upd) s2) as Hq.
  { intros known dec. case_decide; [done|by apply quiet_rendezvous_items]. }
  assert (∀ s4, settled (NS p) (st s2) (st s4) →
    revokes Sub KScope (prefixID ++ ID) h SUCCESS (st s) (st s4)) as Hrv.
  { intros s4 Hse. eapply (revokes_settled sf Sub (NS p)); [done|by exists pr|done|apply Hse]. }
  destruct (scopeIndex (st s) !! prefixID) as [f|]; apply wp_bind;
    (eapply wp_mono; [apply Hq|]); intros [] s3 Hs3; apply wp_bind.
  - eapply wp_mono; [apply (collect_scope_spec gc F HF); [by rewrite Hs3| |done]|].
    + rewrite Hs3. unfold father in *. by rewrite Hfs.
    + intros [] s4 [? Hse]. rewrite Hs3 in Hse. apply wp_ret. auto.
  - eapply wp_mono; [apply (collect_root_scope_spec F HF); [by rewrite Hs3|]|].
    + rewrite Hs3. apply inv_root; [done|]. rewrite Hfs. by apply inv_root.
    + intros [] s4 [? Hse]. rewrite Hs3 in Hse. apply wp_ret. auto.
Qed.

Lemma unsubscribe_info_spec h ID prefixID strategy upd s : inv (st s) → host_alive (st s) h →
  length ID = PURSUIT_ID_LEN →
  wp F (unsubscribe_info gc h ID prefixID strategy upd)
    (λ c s', inv (st s') ∧ revokes Sub KItem (prefixID ++ ID) h c (st s) (st s')) s.
Proof.
  intros Hinv Hh Hlen. pose proof Hinv as [[sf Hwf] Hok]. unfold unsubscribe_info.
  apply wp_bind, wp_get_st. destruct (pubIndex (st s) !! (prefixID ++ ID)) as [i|] eqn:Hi.
  2:{ apply wp_ret. split; [done|by eapply revokes_unindexed]. }
  assert (has (st s) (NI i) (prefixID ++ ID)) as Hid by by apply (wf_idx _ _ _ _ Hwf (NI i)).
  destruct (item_father _ _ _ _ _ Hwf Hid Hlen) as (f & Hf & Hidx & _).
  assert (alive (st s) (NS f)) as [fa Hfa]%alive_scope by by eapply (wf_father _ _ _ _ Hwf).
  apply wp_bind. eapply wp_deref; [done|]. apply wp_bind. eapply wp_get_scope; [done|].
  destruct (_ =? _)%Z; [|by apply wp_ret].
  pose proof Hid as [pr Hpr]. pose proof (pair_item _ _ _ _ Hpr) as (it & Hit & Hpr').
  apply wp_bind. eapply wp_get_item; [done|]. apply wp_bind. eapply wp_deref; [done|].
  case_decide as Hin.
  2:{ apply wp_ret. split; [done|]. apply (revokes_absent sf _ (NI i)); [done|done| |done].
      by rewrite (rel_side _ _ _ _ _ _ Hpr). }
  apply wp_bind. eapply wp_mono; [by apply (leave_item F Sub)|].
  intros [] s1 (Hinv1 & _ & Hq1). pose proof (proj1 Hq1) as Hcalm. apply wp_bind.
  eapply wp_mono; [apply (quiet_unless_known gc F HF); [by apply (getRootScopes_ne (st s) i)|done|]|].
  { apply (calm_alive _ _ _ Hcalm). apply alive_item. eauto. }
  intros [] s2 Hs2. apply wp_bind.
  eapply wp_mono; [apply (collect_item_spec F HF); rewrite Hs2; [done|]|].
  { by apply (calm_father _ _ _ _ Hcalm). }
  intros b s3 (? & _ & Hse & _). rewrite Hs2 in Hse. apply wp_ret. split; [done|].
  eapply (revokes_settled sf Sub (NI i)); [done|by exists pr|done|apply Hse].
Qed.
End safety.
