(* ===== verification/RVRequests.v ===== *)
(** * Publications and subscriptions of LocalRV

    The handlers that make the graph grow: publish_scope, publish_info,
    subscribe_scope and subscribe_info keep the invariant, whatever the
    identifiers and strategies of the request are. *)
From stdpp Require Import base list gmap sets.
From Stdlib Require Import ZArith Lia.
From S2P Require Import Prelude Enums Bitvector GlobalConf InfoGraph GraphInv LocalRV RVInv RVGraft RVLedger RVCollect RVSafety.

(** ** Root scopes *)

(** A scope with an identifier of one fragment only collides with a scope. *)
Lemma root_id_fresh sf s ID : wf_clean sf s → length ID = PURSUIT_ID_LEN →
  scopeIndex s !! ID = None → ∀ m, ¬ has s m ID.
Proof.
  intros Hwf Hlen Hno [p|i] Hid.
  - apply (wf_idx _ _ _ _ Hwf) in Hid. simpl in Hid. congruence.
  - destruct (wf_sound _ _ _ _ Hwf _ _ Hid) as [[]|(f & fid & Hf & Hfid & ->)].
    apply (wf_long _ _ _ _ Hwf) in Hfid.
    rewrite length_app, (wf_len _ _ _ _ Hwf) in Hlen by eauto using has_alive.
    unfold PURSUIT_ID_LEN in *. lia.
Qed.

Definition with_root (s : Store) (p : positive) (ID : bytes) (pr : RemoteHostPair) (strategy : Z)
    : Store :=
  set_scopes (insert p (mkScope {[ID := pr]} true ∅ ∅ ∅ strategy))
    (set_scopeIndex (insert ID p) s).

Lemma new_root_with_root s p ID pr strategy : ¬ alive s (NS p) → scopeIndex s !! ID = None →
  new_root (NS p) ID s (with_root s p ID pr strategy).
Proof.
  intros Hp%dead_scope Hno. constructor.
  - intros [q|q] x Hq; unfold pair_at; simpl; [|done]. rewrite lookup_insert. by case_decide; simplify_eq.
  - intros x. unfold has, pair_at. simpl. rewrite lookup_insert, decide_True by done. simpl.
    rewrite lookup_singleton_is_Some. naive_solver.
  - intros [q|q]; simpl; rewrite ?lookup_insert; repeat case_decide; naive_solver.
  - intros g m. unfold kid. simpl. rewrite lookup_insert. case_decide; [|done]. subst g.
    rewrite Hp. destruct m; simpl; naive_solver set_solver.
  - intros [q|q]; simpl; [|naive_solver]. rewrite lookup_insert. case_decide; [|naive_solver].
    subst q. rewrite Hp. naive_solver.
  - intros [q|q] x; simpl; [|naive_solver]. rewrite lookup_insert. case_decide; naive_solver.
Qed.

(** A root scope comes into being with its first publisher or subscriber. *)
Lemma with_root_inv r s p ID strategy h rh : inv s → ¬ alive s (NS p) →
  length ID = PURSUIT_ID_LEN → scopeIndex s !! ID = None → hosts s !! h = Some rh →
  let s' := set_hosts (insert h (hset_upd r (NS p) (set_add ID) rh))
              (with_root s p ID (add_side r h (mkPair ∅ ∅)) strategy) in
  inv s' ∧ registers r KScope ID h SUCCESS s s'.
Proof.
  intros [[sf Hwf] Hok] Hp Hlen Hno Hh.
  pose proof (new_root_with_root s p ID (mkPair ∅ ∅) strategy Hp Hno) as Hnr.
  set (s1 := with_root s p ID (mkPair ∅ ∅) strategy) in *.
  assert (∀ r' m x g, rel s1 r' m x g ↔ rel s r' m x g) as Hrel.
  { intros r' m x g. unfold rel.
    destruct (decide (m = NS p)) as [->|Hm]; [|by rewrite (nr_pair _ _ _ _ Hnr)].
    assert (pair_at s (NS p) x = None) as ->.
    { unfold pair_at. simpl. by rewrite dead_scope. }
    split; [|naive_solver]. intros (pr & Hpr & Hg). exfalso. unfold s1, pair_at in Hpr.
    simpl in Hpr. rewrite lookup_insert, decide_True in Hpr by done. simpl in Hpr.
    apply lookup_singleton_Some in Hpr as [_ <-]. destruct r'; simpl in Hg; set_solver. }
  assert (inv s1) as Hinv1.
  { split; [|by eapply hosts_ok_quiet].
    exists (λ m, if decide (m = NS p) then ID else sf m).
    eapply wf_new_root; [|done|done| | |done].
    - eapply wf_sf_ext; [done|]. intros m Hm. rewrite decide_False; [done|]. by intros ->.
    - by eapply root_id_fresh.
    - by rewrite decide_True. }
  assert (scopes s1 !! p = Some (mkScope {[ID := mkPair ∅ ∅]} true ∅ ∅ ∅ strategy)) as Hsc
    by (unfold s1, with_root; simpl; by rewrite lookup_insert, decide_True).
  assert (pair_at s1 (NS p) ID = Some (mkPair ∅ ∅)) as Hpr.
  { unfold pair_at, nids. rewrite Hsc. cbn. by rewrite lookup_singleton, decide_True. }
  intros s'. edestruct (touched_join r (NS p) ID (add_side r h (mkPair ∅ ∅)) (mkPair ∅ ∅) h rh s1 s')
    as [Hj Hinv']; [| | | | |split; [exact Hinv'|]].
  - unfold s'. replace (with_root s p ID (add_side r h (mkPair ∅ ∅)) strategy) with
      (set_scopes (insert p (with_ids (insert ID (add_side r h (mkPair ∅ ∅)))
         (mkScope {[ID := mkPair ∅ ∅]} true ∅ ∅ ∅ strategy))) s1); [by apply touched_scope|].
    unfold s1, with_root, set_scopes, with_ids. simpl. rewrite insert_insert, decide_True by done.
    by rewrite insert_singleton, decide_True.
  - done.
  - done.
  - intros r' g. apply side_add.
  - done.
  - destruct Hinv1 as [[sf1 Hwf1] _].
    apply (registers_join sf1 r (NS p) ID h true s s1); [done|by eexists| |done|].
    + by apply rel_same_ledger.
    + rewrite (rel_side _ _ _ _ _ _ Hpr). split; [|done]. intros _. destruct r; simpl; set_solver.
Qed.

Lemma suffix_id ID : length ID = PURSUIT_ID_LEN → suffix ID = ID.
Proof. intros Hl. exact (suffix_app [] ID Hl). Qed.

Lemma prefix_suffix id : PURSUIT_ID_LEN ≤ length id → prefix id ++ suffix id = id.
Proof.
  intros Hlen. unfold prefix, suffix, substr. rewrite (take_ge (drop _ _)).
  - apply take_drop.
  - rewrite length_drop. lia.
Qed.

Lemma length_suffix id : PURSUIT_ID_LEN ≤ length id → length (suffix id) = PURSUIT_ID_LEN.
Proof. intros Hlen. unfold suffix, substr. rewrite length_take, length_drop. lia. Qed.

Lemma grow_host_alive s s' h : grow s s' → host_alive s' h ↔ host_alive s h.
Proof. intros [[] _]. unfold host_alive. by rewrite fr_hosts. Qed.

Lemma unreserved_graft sf n f s s1 s2 : wf_clean sf s → attached n f s s1 →
  known_rootscopes s1 = known_rootscopes s → grow s1 s2 → wf_clean sf s2 →
  unreserved s → unreserved s2.
Proof.
  intros Hwf Hat Hk Hg Hwf2. eapply unreserved_grow; [done|done|..].
  - intros m Hr. by apply (at_root _ _ _ _ Hat), (fr_root _ _ (gr_frame _ _ Hg)).
  - intros m x Hx. eapply grow_has; [done|]. unfold has. by rewrite (at_pair _ _ _ _ Hat).
  - by rewrite (fr_known _ _ (gr_frame _ _ Hg)).
Qed.

(** The store after the creation of a root scope is that of [with_root]. *)
Ltac by_root H :=
  let Hfin := fresh "Hfin" in
  pose proof H as Hfin; cbv zeta in Hfin;
  unfold with_root, add_side in Hfin; cbn [first second] in Hfin;
  rewrite union_empty_r_L in Hfin;
  match type of Hfin with
  | inv ?Y ∧ _ => match goal with |- context [inv ?X] => replace X with Y; [|
      unfold set_hosts, set_scopes, set_scopeIndex; simpl; by rewrite insert_insert, decide_True] end
  end; exact Hfin.

Lemma unreserved_calm s s' : inv s → inv s' → calm s s' → unreserved s → unreserved s'.
Proof.
  intros [[sf Hwf] _] [[sf' Hwf'] _] [Hrep _ _ Hk]. eapply unreserved_grow; [done|done|..|done].
  - intros m. apply (rp_root _ _ Hrep).
  - intros m x. apply (rp_has _ _ Hrep).
Qed.

Section requests.
Context `{HO : HashOrder} (gc : GlobalConf) (F : fault → Prop) (HF : F BufferOverflow).
Context (HI : erased_keeps_link = false → F IterInvalidated).

(** ** New scopes and items *)

(** [new Scope(strategy, father)] and recursivelyUpdateIDs; a scope without
    children cannot recurse too deeply. *)
Lemma create_scope_spec f prefixID ID strategy s (Q : positive → rv → Prop) : inv (st s) →
  scopeIndex (st s) !! prefixID = Some f → scopeIndex (st s) !! (prefixID ++ ID) = None →
  pubIndex (st s) !! (prefixID ++ ID) = None → length ID = PURSUIT_ID_LEN →
  (∀ p s2, inv (st s2) → has (st s2) (NS p) (prefixID ++ ID) → alive (st s2) (NS f) →
     (∀ h, host_alive (st s) h → host_alive (st s2) h) → same_ledger (st s) (st s2) →
     Q p s2) →
  wp F (new_scope strategy f)
    (λ p s1, wp F (update_graph p (suffix (prefixID ++ ID))) (λ _ s2, Q p s2) s1) s.
Proof.
  intros Hinv Hf Hns Hni Hlen HQ. pose proof Hinv as [[sf0 Hwf0] Hok].
  assert (has (st s) (NS f) prefixID) as Hpre by by apply (wf_idx _ _ _ _ Hwf0 (NS f)).
  destruct (proj1 (alive_scope _ _) (has_alive _ _ _ Hpre)) as [fa Hfa].
  unfold new_scope. apply wp_bind, wp_get_st, wp_bind, wp_mod_st.
  set (p := fresh (dom (scopes (st s)))).
  pose proof (fresh_scope (st s)) as Hp. fold p in Hp.
  assert (p ≠ f) as Hpf by (intros Heq; apply Hp; rewrite Heq; apply alive_scope; eauto).
  apply wp_bind. eapply wp_mod_scope; [simpl; by rewrite lookup_insert, decide_False|].
  apply wp_ret. rewrite suffix_app by done.
  set (sf := λ m, if decide (m = NS p) then ID else sf0 m).
  assert (wf_clean sf (st s)) as Hwf.
  { eapply wf_sf_ext; [done|]. intros m Hm. unfold sf. rewrite decide_False; [done|]. by intros ->. }
  assert (sf (NS p) = ID) as Hsf by (unfold sf; by rewrite decide_True).
  pose proof (attached_new_scope _ _ _ _ strategy Hp Hfa) as Hat.
  rewrite <-Hsf at 1.
  eapply wp_mono; [eapply (graft_scope F sf s _ p f (Some (NS p)))|]; try done.
  - by eapply has_alive.
  - intros (sc & Hsc & _). apply Hp, alive_scope. eauto.
  - by rewrite Hsf.
  - rewrite Hsf. by eapply fresh_fragment.
  - by left.
  - right. simpl. split.
    + intros [Hs|[_ ?]]%(at_father _ _ _ _ Hat); [|congruence]. by apply Hp, (father_alive _ _ _ Hs).
    + intros c [Hs|[_ ?]]%(at_father _ _ _ _ Hat); [|congruence].
      exfalso. by apply Hp, (wf_father _ _ _ _ Hwf _ _ Hs).
  - intros [] s2 (Hinv2 & Hout2 & Hg2 & Hwf2 & Hhas2). apply HQ; [done|..].
    + rewrite <-Hsf. by apply Hhas2.
    + eapply has_alive. eapply grow_has; [done|]. unfold has.
      rewrite (at_pair _ _ _ _ Hat). exact Hpre.
    + intros h Hh. by apply (grow_host_alive _ _ _ Hg2).
    + etrans; [by eapply attached_ledger|by eapply grow_ledger].
Qed.

Lemma create_item_spec f prefixID ID strategy s (Q : positive → rv → Prop) : inv (st s) →
  scopeIndex (st s) !! prefixID = Some f → scopeIndex (st s) !! (prefixID ++ ID) = None →
  pubIndex (st s) !! (prefixID ++ ID) = None → length ID = PURSUIT_ID_LEN →
  (∀ i s2, inv (st s2) → has (st s2) (NI i) (prefixID ++ ID) → alive (st s2) (NS f) →
     (∀ h, host_alive (st s) h → host_alive (st s2) h) → same_ledger (st s) (st s2) →
     (unreserved (st s) → unreserved (st s2)) → Q i s2) →
  wp F (new_item strategy f)
    (λ i s1, wp F (updateIDs i (suffix (prefixID ++ ID))) (λ _ s2, Q i s2) s1) s.
Proof.
  intros Hinv Hf Hns Hni Hlen HQ. pose proof Hinv as [[sf0 Hwf0] Hok].
  assert (has (st s) (NS f) prefixID) as Hpre by by apply (wf_idx _ _ _ _ Hwf0 (NS f)).
  destruct (proj1 (alive_scope _ _) (has_alive _ _ _ Hpre)) as [fa Hfa].
  unfold new_item. apply wp_bind, wp_get_st, wp_bind, wp_mod_st.
  set (i := fresh (dom (items (st s)))).
  pose proof (fresh_item (st s)) as Hi. fold i in Hi.
  apply wp_bind. eapply wp_mod_scope; [done|]. apply wp_ret. rewrite suffix_app by done.
  set (sf := λ m, if decide (m = NI i) then ID else sf0 m).
  assert (wf_clean sf (st s)) as Hwf.
  { eapply wf_sf_ext; [done|]. intros m Hm. unfold sf. rewrite decide_False; [done|]. by intros ->. }
  assert (sf (NI i) = ID) as Hsf by (unfold sf; by rewrite decide_True).
  assert (attached (NI i) f (st s) (linked_item (st s) i f (mkItem ∅ {[f]} strategy) fa)) as Hat.
  { apply attached_item; [done|]. by rewrite dead_item. }
  rewrite <-Hsf at 1.
  eapply wp_mono; [eapply (graft_item F sf s _ i f (Some (NI i)))|]; try done.
  - by eapply has_alive.
  - by rewrite Hsf.
  - rewrite Hsf. by eapply fresh_fragment.
  - by left.
  - intros [] s2 (Hinv2 & Hout2 & Hg2 & Hwf2 & Hhas2). apply HQ; [done|..].
    + rewrite <-Hsf. by apply Hhas2.
    + eapply has_alive. eapply grow_has; [done|]. unfold has.
      rewrite (at_pair _ _ _ _ Hat). exact Hpre.
    + intros h Hh. by apply (grow_host_alive _ _ _ Hg2).
    + etrans; [by eapply attached_ledger|by eapply grow_ledger].
    + by eapply unreserved_graft.
Qed.

(** ** Publication of scopes *)

(** The subscribers of the father [f] learn about the scope [p]. *)
Lemma announce_spec (type : Z) (f p : positive) (ids : Scope → gset bytes) s : inv (st s) →
  alive (st s) (NS f) → alive (st s) (NS p) →
  wp F (fa ← get_scope f; o ← get_scope p;
        _ ← notifySubscribers gc type (ids o) (sc_strategy o) (Scope_getSubscribers fa);
        mret SUCCESS) (λ c s', c = SUCCESS ∧ st s' = st s) s.
Proof.
  intros Hinv [fa Hfa]%alive_scope [sc Hsc]%alive_scope.
  apply wp_bind. eapply wp_get_scope; [done|]. apply wp_bind. eapply wp_get_scope; [done|].
  apply wp_bind. eapply wp_mono; [apply (quiet_notify gc F HF)|].
  - by apply (scope_subscribers_alive _ f).
  - intros [] s' Hs'. by apply wp_ret.
Qed.

(** A new publisher of an existing scope, and the answer. *)
Lemma add_publisher_answer p h id s : inv (st s) → has (st s) (NS p) id →
  host_alive (st s) h →
  wp F (new ← add_scope_publisher p h id; mret (if (new : bool) then SUCCESS else EXISTS))
    (λ c s', inv (st s') ∧ registers Pub KScope id h c (st s) (st s')) s.
Proof.
  intros Hinv Hid Hh. pose proof Hinv as [[sf Hwf] _].
  apply wp_bind. eapply wp_mono; [by apply add_scope_publisher_spec|].
  intros b s1 (Hinv1 & _ & Hj & Hb). apply wp_ret. split; [done|].
  by eapply (registers_join sf Pub (NS p)).
Qed.

Lemma publish_root_scope_spec h ID strategy s : inv (st s) → host_alive (st s) h →
  length ID = PURSUIT_ID_LEN →
  wp F (publish_root_scope h ID strategy)
    (λ c s', inv (st s') ∧ registers Pub KScope ID h c (st s) (st s')) s.
Proof.
  intros Hinv Hh Hlen. pose proof Hinv as [[sf Hwf] _]. unfold publish_root_scope.
  apply wp_bind, wp_get_st. destruct (scopeIndex (st s) !! ID) as [p|] eqn:Hp.
  - assert (has (st s) (NS p) ID) as Hid by by apply (wf_idx _ _ _ _ Hwf (NS p)).
    destruct (proj1 (alive_scope _ _) (has_alive _ _ _ Hid)) as [sc Hsc].
    apply wp_bind. eapply wp_get_scope; [done|]. destruct (_ =? _)%Z; [|by apply wp_ret].
    by apply add_publisher_answer.
  - destruct Hh as [rh Hrh]. unfold new_root_scope.
    apply wp_bind, wp_bind, wp_get_st, wp_bind, wp_mod_st, wp_ret, wp_bind, wp_mod_st.
    set (p := fresh _). pose proof (fresh_scope (st s)) as Hfr. fold p in Hfr.
    unfold add_scope_publisher, Scope_updatePublishers, Scope_update.
    apply wp_bind, wp_bind, wp_bind.
    eapply wp_get_scope; [simpl; by rewrite lookup_insert, decide_True|].
    cbn [sc_ids]. change (update_first ID h ∅) with (true, {[ID := mkPair {[h]} ∅]} : IdsHashMap).
    apply wp_bind. eapply wp_mod_scope; [simpl; by rewrite lookup_insert, decide_True|].
    apply wp_ret, wp_bind. eapply wp_mod_host; [done|]. apply wp_ret, wp_ret. cbn [st].
    by_root (with_root_inv Pub (st s) p ID strategy h rh Hinv Hfr Hlen Hp Hrh).
Qed.

(** The publisher of a scope that just came into being, or came below [f]. *)
Lemma publish_new_scope (f p : positive) (id : bytes) (h : positive)
    (ids : Scope → gset bytes) (s s2 : rv) : inv (st s2) →
  has (st s2) (NS p) id → alive (st s2) (NS f) → host_alive (st s2) h →
  same_ledger (st s) (st s2) →
  wp F (new ← add_scope_publisher p h id;
        if (new : bool) then
          fa ← get_scope f;
          o ← get_scope p;
          _ ← notifySubscribers gc SCOPE_PUBLISHED (ids o) (sc_strategy o) (Scope_getSubscribers fa);
          mret SUCCESS
        else mret EXISTS)
    (λ c s', inv (st s') ∧ registers Pub KScope id h c (st s) (st s')) s2.
Proof.
  intros Hinv2 Hid2 Hf2 Hh Hled. pose proof Hinv2 as [[sf2 Hwf2] _].
  apply wp_bind. eapply wp_mono; [by apply add_scope_publisher_spec|].
  intros b s3 (Hinv3 & _ & Hj & Hb).
  pose proof (registers_join sf2 Pub (NS p) id h b (st s) (st s2) (st s3) Hwf2 Hid2 Hled Hj Hb) as Hreg.
  destruct b; [|by apply wp_ret]. destruct Hj as [Hcalm _].
  eapply wp_mono; [apply (announce_spec SCOPE_PUBLISHED f p ids); [done|..]|].
  - by apply (calm_alive _ _ _ Hcalm).
  - apply (calm_alive _ _ _ Hcalm). by eapply has_alive.
  - intros c s4 [-> Hs4]. by rewrite Hs4.
Qed.

Lemma publish_inner_scope_spec h ID prefixID strategy s : inv (st s) → host_alive (st s) h →
  length ID = PURSUIT_ID_LEN →
  wp F (publish_inner_scope gc h ID prefixID strategy)
    (λ c s', inv (st s') ∧ registers Pub KScope (prefixID ++ ID) h c (st s) (st s')) s.
Proof.
  intros Hinv Hh Hlen. pose proof Hinv as [[sf Hwf] _]. unfold publish_inner_scope.
  apply wp_bind, wp_get_st. destruct (pubIndex (st s) !! (prefixID ++ ID)) eqn:Hi; [by apply wp_ret|].
  destruct (scopeIndex (st s) !! prefixID) as [f|] eqn:Hf; [|by apply wp_ret].
  assert (has (st s) (NS f) prefixID) as Hpre by by apply (wf_idx _ _ _ _ Hwf (NS f)).
  destruct (proj1 (alive_scope _ _) (has_alive _ _ _ Hpre)) as [fa Hfa].
  destruct (scopeIndex (st s) !! (prefixID ++ ID)) as [p|] eqn:Hp.
  - assert (has (st s) (NS p) (prefixID ++ ID)) as Hid by by apply (wf_idx _ _ _ _ Hwf (NS p)).
    destruct (proj1 (alive_scope _ _) (has_alive _ _ _ Hid)) as [sc Hsc].
    apply wp_bind. eapply wp_get_scope; [done|]. destruct (_ =? _)%Z; [|by apply wp_ret].
    by apply add_publisher_answer.
  - apply wp_bind. eapply wp_get_scope; [done|]. destruct (_ =? _)%Z; [|by apply wp_ret].
    apply wp_bind. eapply wp_mono; [|intros p s1 H; apply wp_bind, H].
    apply (create_scope_spec f); try done. intros p s2 Hinv2 Hid2 Hf2 Hho2 Hled2.
    eapply publish_new_scope; [done|done|done|auto|done].
Qed.

(** A scope gets another father.  Without the licence to recurse forever,
    the new father must not be below the scope. *)
Lemma republish_inner_scope_spec h ID prefixID strategy s : inv (st s) → host_alive (st s) h →
  PURSUIT_ID_LEN < length ID →
  ((F StackOverflow ∧ F IterInvalidated) ∨
   (∀ e f, scopeIndex (st s) !! ID = Some e → scopeIndex (st s) !! prefixID = Some f →
      ¬ reach (st s) e f)) →
  wp F (republish_inner_scope gc h ID prefixID strategy)
    (λ c s', inv (st s') ∧ registers Pub KScope (prefixID ++ suffix ID) h c (st s) (st s')) s.
Proof.
  intros Hinv Hh Hlen Hcyc. pose proof Hinv as [[sf Hwf] Hok]. unfold republish_inner_scope.
  apply wp_bind, wp_get_st.
  destruct (pubIndex (st s) !! (prefixID ++ suffix ID)) eqn:Hi; [by apply wp_ret|].
  destruct (scopeIndex (st s) !! prefixID) as [f|] eqn:Hf; [|by apply wp_ret].
  assert (has (st s) (NS f) prefixID) as Hpre by by apply (wf_idx _ _ _ _ Hwf (NS f)).
  destruct (proj1 (alive_scope _ _) (has_alive _ _ _ Hpre)) as [fa Hfa].
  destruct (scopeIndex (st s) !! ID) as [e|] eqn:He; [|by apply wp_ret].
  assert (has (st s) (NS e) ID) as Hid by by apply (wf_idx _ _ _ _ Hwf (NS e)).
  pose proof (wf_suffix _ _ _ _ Hwf _ _ Hid) as Hsfx.
  destruct (proj1 (alive_scope _ _) (has_alive _ _ _ Hid)) as [sc Hsc].
  destruct (scopeIndex (st s) !! (prefixID ++ suffix ID)) as [q|] eqn:Hq.
  { assert (has (st s) (NS q) (prefixID ++ suffix ID)) as Hidq by by apply (wf_idx _ _ _ _ Hwf (NS q)).
    destruct (proj1 (alive_scope _ _) (has_alive _ _ _ Hidq)) as [scq Hscq].
    apply wp_bind. eapply wp_get_scope; [done|]. destruct (_ =? _)%Z; [|by apply wp_ret].
    by apply add_publisher_answer. }
  apply wp_bind. eapply wp_get_scope; [done|]. destruct (_ =? _)%Z; [|by apply wp_ret].
  apply wp_bind. eapply wp_mod_scope; [done|]. apply wp_bind.
  assert (∃ fa1, <[e := with_fathers (λ X, {[f]} ∪ X) sc]> (scopes (st s)) !! f = Some fa1)
    as [fa2 Hfa2] by (rewrite lookup_insert; case_decide; eauto).
  eapply wp_mod_scope; [done|]. apply wp_bind.
  pose proof (attached_scope _ _ _ _ _ Hsc Hfa2) as Hat. rewrite Hsfx.
  eapply wp_mono; [eapply (graft_scope F sf s _ e f None)|]; try done.
  - by eapply has_alive.
  - intros Hr. apply (wf_root_ids _ _ _ _ Hwf _ _ Hr) in Hid as Heq.
    apply (f_equal length) in Heq. rewrite (wf_len _ _ _ _ Hwf) in Heq by by eapply has_alive.
    lia.
  - apply (wf_len _ _ _ _ Hwf). by eapply has_alive.
  - rewrite <-Hsfx. by eapply fresh_fragment.
  - right. split; [done|by eapply has_alive].
  - destruct Hcyc as [?|Hno]; [by left|right].
    eapply deep_attached; [done| |by apply Hno].
    apply (deep_mono _ (S (size (scopes (st s))))); [by eapply deep_clean, has_alive|].
    unfold depth. simpl. rewrite !map_size_insert_Some by eauto. done.
  - intros [] s2 (Hinv2 & _ & Hg2 & _ & Hhas2).
    eapply (publish_new_scope f e _ h (λ o, getIDs o ∖ {[prefix ID ++ sf (NS e)]}));
      [done|by apply Hhas2| |by apply (grow_host_alive _ _ _ Hg2)|].
    + eapply has_alive, grow_has; [done|]. unfold has. rewrite (at_pair _ _ _ _ Hat). exact Hpre.
    + etrans; [by eapply attached_ledger|by eapply grow_ledger].
Qed.

Lemma publish_scope_spec h ID prefixID strategy s : inv (st s) → host_alive (st s) h →
  ((F StackOverflow ∧ F IterInvalidated) ∨
   (∀ e f, scopeIndex (st s) !! ID = Some e → scopeIndex (st s) !! prefixID = Some f →
      ¬ reach (st s) e f)) →
  wp F (publish_scope gc h ID prefixID strategy)
    (λ c s', inv (st s') ∧ registers Pub KScope (prefixID ++ suffix ID) h c (st s) (st s')) s.
Proof.
  intros Hinv Hh Hcyc. unfold publish_scope.
  case_decide as H1.
  { destruct H1 as [->%nil_length_inv Hl]. rewrite (suffix_id ID Hl).
    by apply publish_root_scope_spec. }
  case_decide as H2.
  { destruct H2 as [_ Hl]. rewrite (suffix_id ID Hl). by apply publish_inner_scope_spec. }
  case_decide as H3; [destruct H3; by apply republish_inner_scope_spec|by apply wp_ret].
Qed.

(** ** Advertisement *)

Lemma match_publication_spec i subs ID prefixID strategy upd s : inv (st s) →
  alive (st s) (NI i) → (∀ h, h ∈ subs → host_alive (st s) h) → length ID = PURSUIT_ID_LEN →
  wp F (match_publication gc i subs ID prefixID strategy upd)
    (λ _ s', inv (st s') ∧ ebbed (λ x, x = prefixID ++ ID) (st s) (st s') ∧
       (unreserved (st s) → st s' = st s)) s.
Proof.
  intros Hinv Hi Hs Hlen. destruct (proj1 (alive_item _ _) Hi) as [it Hit].
  unfold match_publication. apply wp_bind. eapply wp_get_item; [done|]. apply wp_bind.
  eapply wp_mono; [by apply (item_root_spec F i)|]. intros known s1 [-> Hu].
  apply wp_bind. eapply wp_mono; [by apply (quiet_rendezvous gc F HF)|].
  intros [] s2 Hs2. destruct known; [|apply wp_ret; rewrite Hs2; by split_and!].
  case_decide; [|apply wp_ret; rewrite Hs2; by split_and!].
  eapply wp_mono; [apply (unpublish_all_spec gc F HF); [by rewrite Hs2..|done]|].
  rewrite Hs2. intros [] s3 (? & _ & ?). split_and!; [done|done|]. intros Hres. by specialize (Hu Hres).
Qed.

(** A new publisher of an item, and the rendezvous that follows.  The graph
    before the request is that of [s0]. *)
Lemma publish_match_spec i h ID prefixID strategy upd (s0 s : rv) : inv (st s) →
  has (st s) (NI i) (prefixID ++ ID) → host_alive (st s) h → length ID = PURSUIT_ID_LEN →
  same_ledger (st s0) (st s) → (unreserved (st s0) → unreserved (st s)) →
  wp F (new ← add_item_publisher i h (prefixID ++ ID);
        if (new : bool) then
          subscribers ← item_subscribers i;
          _ ← match_publication gc i subscribers ID prefixID strategy upd; mret SUCCESS
        else mret EXISTS)
    (λ c s', inv (st s') ∧ registers_but (λ x, x = prefixID ++ ID) (unreserved (st s0))
       Pub KItem (prefixID ++ ID) h c (st s0) (st s')) s.
Proof.
  intros Hinv Hid Hh Hlen Hled Hun. pose proof Hinv as [[sf Hwf] _].
  apply wp_bind. eapply wp_mono; [by apply add_item_publisher_spec|].
  intros b s1 (Hinv1 & _ & Hj & Hb). pose proof (proj1 Hj) as Hcalm.
  pose proof (registers_join sf Pub (NI i) _ h b _ _ _ Hwf Hid Hled Hj Hb) as Hreg.
  destruct b; [|by apply wp_ret].
  assert (alive (st s1) (NI i)) as Hi1 by (apply (calm_alive _ _ _ Hcalm); by eapply has_alive).
  apply wp_bind. eapply wp_mono; [by apply item_subscribers_spec|]. intros X s2 [-> HX].
  apply wp_bind. eapply wp_mono; [by apply match_publication_spec|].
  intros [] s3 (Hinv3 & Heb & Hsame). apply wp_ret. split; [done|].
  eapply registers_ebbed; [done|done|]. intros Hu%Hun. apply Hsame.
  by apply (unreserved_calm (st s)).
Qed.

Lemma advertise_info_spec h ID prefixID strategy upd s : inv (st s) → host_alive (st s) h →
  length ID = PURSUIT_ID_LEN →
  wp F (advertise_info gc h ID prefixID strategy upd)
    (λ c s', inv (st s') ∧ registers_but (λ x, x = prefixID ++ ID) (unreserved (st s))
       Pub KItem (prefixID ++ ID) h c (st s) (st s')) s.
Proof.
  intros Hinv Hh Hlen. pose proof Hinv as [[sf Hwf] _]. unfold advertise_info.
  apply wp_bind, wp_get_st.
  destruct (scopeIndex (st s) !! prefixID) as [f|] eqn:Hf; [|by apply wp_ret].
  assert (has (st s) (NS f) prefixID) as Hpre by by apply (wf_idx _ _ _ _ Hwf (NS f)).
  destruct (proj1 (alive_scope _ _) (has_alive _ _ _ Hpre)) as [fa Hfa].
  apply wp_bind. eapply wp_get_scope; [done|].
  destruct (pubIndex (st s) !! (prefixID ++ ID)) as [i|] eqn:Hi.
  { assert (has (st s) (NI i) (prefixID ++ ID)) as Hid by by apply (wf_idx _ _ _ _ Hwf (NI i)).
    destruct (_ =? _)%Z; [|by apply wp_ret]. by apply publish_match_spec. }
  destruct (scopeIndex (st s) !! (prefixID ++ ID)) as [p|] eqn:Hp; [by apply wp_ret|].
  destruct (_ =? _)%Z; [|by apply wp_ret].
  apply wp_bind. eapply wp_mono; [|intros i s1 H; apply wp_bind, H].
  apply (create_item_spec f); try done. intros i s2 Hinv2 Hid2 Hf2 Hho2 Hled2 Hun2.
  pose proof Hinv2 as [[sf2 Hwf2] _].
  apply wp_bind. eapply wp_mono; [apply add_item_publisher_spec; auto|].
  intros b s3 (Hinv3 & _ & Hj & Hb). pose proof (proj1 Hj) as Hcalm.
  pose proof (registers_join sf2 Pub (NI i) _ h b _ _ _ Hwf2 Hid2 Hled2 Hj Hb) as Hreg.
  destruct b; [|by apply wp_ret].
  assert (alive (st s3) (NI i)) as Hi3 by (apply (calm_alive _ _ _ Hcalm); by eapply has_alive).
  destruct (proj1 (alive_item _ _) Hi3) as [it3 Hit3].
  destruct (proj1 (alive_scope _ _) (proj2 (calm_alive _ _ (NS f) Hcalm) Hf2)) as [fa3 Hfa3].
  apply wp_bind. eapply wp_get_item; [done|]. apply wp_bind. eapply wp_get_scope; [done|].
  apply wp_bind. eapply wp_mono; [apply match_publication_spec; [done|done| |done]|].
  - intros g [Hg|Hg]%elem_of_union; [|by eapply (scope_subscribers_alive (st s3) f)].
    apply (item_getSubscribers_rel (st s3) i) in Hg as [x Hx]; [|done].
    eapply rel_host_alive; [apply Hinv3|done].
  - intros [] s4 (Hinv4 & Heb & Hsame). apply wp_ret. split; [done|].
    eapply registers_ebbed; [done|done|]. intros Hu%Hun2. apply Hsame.
    by apply (unreserved_calm (st s2)).
Qed.

Lemma readvertise_info_spec h ID prefixID strategy upd s : inv (st s) → host_alive (st s) h →
  PURSUIT_ID_LEN < length ID →
  wp F (readvertise_info gc h ID prefixID strategy upd)
    (λ c s', inv (st s') ∧ registers_but (λ x, x = prefixID ++ suffix ID) (unreserved (st s))
       Pub KItem (prefixID ++ suffix ID) h c (st s) (st s')) s.
Proof.
  intros Hinv Hh Hlen. pose proof Hinv as [[sf Hwf] Hok]. unfold readvertise_info.
  apply wp_bind, wp_get_st.
  assert (length (suffix ID) = PURSUIT_ID_LEN) as Hsl by (apply length_suffix; lia).
  destruct (scopeIndex (st s) !! (prefixID ++ suffix ID)) as [p|] eqn:Hp; [by apply wp_ret|].
  destruct (scopeIndex (st s) !! prefixID) as [f|] eqn:Hf; [|by apply wp_ret].
  assert (has (st s) (NS f) prefixID) as Hpre by by apply (wf_idx _ _ _ _ Hwf (NS f)).
  destruct (proj1 (alive_scope _ _) (has_alive _ _ _ Hpre)) as [fa Hfa].
  destruct (pubIndex (st s) !! ID) as [e|] eqn:He; [|by apply wp_ret].
  assert (has (st s) (NI e) ID) as Hid by by apply (wf_idx _ _ _ _ Hwf (NI e)).
  pose proof (wf_suffix _ _ _ _ Hwf _ _ Hid) as Hsfx.
  destruct (proj1 (alive_item _ _) (has_alive _ _ _ Hid)) as [it Hit].
  apply wp_bind. eapply wp_get_scope; [done|].
  destruct (pubIndex (st s) !! (prefixID ++ suffix ID)) as [q|] eqn:Hq.
  { assert (has (st s) (NI q) (prefixID ++ suffix ID)) by by apply (wf_idx _ _ _ _ Hwf (NI q)).
    destruct (_ =? _)%Z; [|by apply wp_ret]. by apply publish_match_spec. }
  destruct (_ =? _)%Z; [|by apply wp_ret].
  apply wp_bind. eapply wp_mod_item; [done|]. apply wp_bind. eapply wp_mod_scope; [done|].
  apply wp_bind. rewrite Hsfx.
  assert (attached (NI e) f (st s)
    (linked_item (st s) e f (it_with_fathers (λ X, {[f]} ∪ X) it) fa)) as Hat.
  { apply attached_item; [done|]. by rewrite Hit. }
  eapply wp_mono; [eapply (graft_item F sf s _ e f None)|]; try done.
  - by eapply has_alive.
  - by rewrite <-Hsfx.
  - rewrite <-Hsfx. by eapply fresh_fragment.
  - right. split; [done|by eapply has_alive].
  - intros [] s2 (Hinv2 & _ & Hg2 & Hwf2 & Hhas2). apply publish_match_spec.
    + done.
    + by apply Hhas2.
    + by apply (grow_host_alive _ _ _ Hg2).
    + by rewrite <-Hsfx.
    + etrans; [by eapply attached_ledger|by eapply grow_ledger].
    + by eapply unreserved_graft.
Qed.

Lemma publish_info_spec h ID prefixID strategy upd s : inv (st s) → host_alive (st s) h →
  wp F (publish_info gc h ID prefixID strategy upd)
    (λ c s', inv (st s') ∧ registers_but (λ x, x = prefixID ++ suffix ID) (unreserved (st s))
       Pub KItem (prefixID ++ suffix ID) h c (st s) (st s')) s.
Proof.
  intros Hinv Hh. unfold publish_info.
  case_decide as H1.
  { destruct H1 as [_ Hl]. rewrite (suffix_id ID Hl). by apply advertise_info_spec. }
  case_decide as H2; [destruct H2; by apply readvertise_info_spec|by apply wp_ret].
Qed.

(** ** Subscription *)

Lemma quiet_announce_subscopes p h s : inv (st s) → alive (st s) (NS p) →
  host_alive (st s) h → quiet F (announce_subscopes gc p h) s.
Proof.
  intros Hinv [sc Hsc]%alive_scope Hh. unfold announce_subscopes, quiet.
  apply wp_bind. eapply wp_get_scope; [done|]. apply quiet_for_each.
  intros c s1 Hc%elem_of_ptr_order Hs1. pose proof Hinv as [[sf Hwf] _].
  assert (alive (st s) (NS c)) as [ch Hch]%alive_scope.
  { eapply father_alive, (wf_kid _ _ _ _ Hwf). by exists sc. }
  unfold quiet. apply wp_bind. eapply wp_get_scope; [by rewrite Hs1|].
  apply (quiet_notify gc F HF). intros g ->%elem_of_singleton. by rewrite Hs1.
Qed.

(** The item [i] below the scope [p], which has the identifier [id]. *)
Definition below_id (s : Store) (p i : positive) (id : bytes) : Prop :=
  has s (NS p) id ∧ father s (NI i) p.

(** The unpublications under [id] that a match with a subscriber makes:
    identifiers one fragment longer than [id]. *)
Definition child_id (id x : bytes) : Prop := ∃ e, length e = PURSUIT_ID_LEN ∧ x = id ++ e.

Lemma unpublish_below_spec p i id strategy upd s : inv (st s) → below_id (st s) p i id →
  wp F (unpublish_matched gc i id strategy upd)
    (λ _ s', inv (st s') ∧ shrunk (st s) (st s') ∧ others_kept (NI i) (st s) (st s') ∧
       ebbed (child_id id) (st s) (st s')) s.
Proof.
  intros Hinv [Hid Hf]. pose proof Hinv as [[sf Hwf] _].
  assert (alive (st s) (NI i)) as Hi by by eapply father_alive.
  eapply wp_mono; [apply (unpublish_matched_spec gc F HF i (sf (NI i))); [done|done|by apply inv_ends_in|]|].
  - intros m Hm Hh. apply Hm. eapply (wf_disj _ _ _ _ Hwf); [done|].
    by eapply clean_complete.
  - intros [] s' (? & ? & ? & Heb). split_and!; try done. eapply ebbed_mono; [done|].
    intros x ->. exists (sf (NI i)). split; [|done]. by apply (wf_len _ _ _ _ Hwf).
Qed.

(** Unpublications below [p] keep the remaining items below [p]. *)
Lemma below_id_kept p i j id s s' : shrunk s s' → others_kept (NI i) s s' → j ≠ i →
  below_id s p j id → below_id s' p j id.
Proof.
  intros Hsk Hoth Hji [Hid Hf]. split; [by apply (sk_scope _ _ Hsk)|].
  unfold father in *. destruct (Hoth (NI j)) as [_ ->]; [congruence|done].
Qed.

Lemma match_root_item_spec p i ID strategy upd s : inv (st s) → below_id (st s) p i ID →
  root (st s) (NS p) →
  wp F (match_root_item gc i ID strategy upd)
    (λ _ s', inv (st s') ∧ shrunk (st s) (st s') ∧ others_kept (NI i) (st s) (st s') ∧
       ebbed (child_id ID) (st s) (st s') ∧ (unreserved (st s) → st s' = st s)) s.
Proof.
  intros Hinv Hb Hr. assert (alive (st s) (NI i)) as Hi by (eapply father_alive, Hb).
  unfold match_root_item. apply wp_bind.
  eapply wp_mono; [by apply item_subscribers_spec|]. intros X s1 [-> HX].
  apply wp_bind, wp_get_st, wp_bind. eapply wp_mono; [by apply (quiet_rendezvous gc F HF)|].
  intros [] s2 Hs2. case_decide as Hk.
  - rewrite <-Hs2 in *. eapply wp_mono; [by apply (unpublish_below_spec p)|].
    intros [] s3 (? & ? & ? & ?). split_and!; try done.
    intros Hu. exfalso. exact (Hu p ID Hr (proj1 Hb) Hk).
  - apply wp_ret. rewrite Hs2. by split_and!.
Qed.

(** The scope has the same identifiers after unpublications. *)
Lemma unreserved_shrunk s s' : inv s → inv s' → shrunk s s' → unreserved s' → unreserved s.
Proof.
  intros Hinv Hinv' Hsk Hu p x Hr Hx. rewrite <-(sk_known _ _ Hsk). apply (Hu p).
  - apply (inv_root s'); [done|]. rewrite (sk_fathers _ _ Hsk). by apply (inv_root s).
  - by apply (sk_scope _ _ Hsk).
Qed.

Lemma match_inner_items_spec p id strategy upd roots l s : inv (st s) → NoDup l →
  (∀ i, i ∈ l → below_id (st s) p i id) →
  (unreserved (st s) → ∀ r, r ∈ roots → r ∉ known_rootscopes (st s)) →
  wp F (match_inner_items gc id strategy upd roots l)
    (λ _ s', inv (st s') ∧ ebbed (child_id id) (st s) (st s') ∧
       (unreserved (st s) → st s' = st s)) s.
Proof.
  revert roots s. induction l as [|i l IH]; intros roots s Hinv Hnd Hl Hroots; simpl.
  { apply wp_ret. by split_and!. }
  apply NoDup_cons in Hnd as [Hil Hnd]. assert (below_id (st s) p i id) as Hb by (apply Hl; left).
  assert (alive (st s) (NI i)) as Hi by (eapply father_alive, Hb).
  destruct (proj1 (alive_item _ _) Hi) as [it Hit]. apply wp_bind.
  eapply wp_mono; [by apply item_subscribers_spec|]. intros X s1 [-> HX].
  apply wp_bind. eapply wp_get_item; [done|]. apply wp_bind.
  eapply wp_mono; [apply first_root_spec|].
  { pose proof (getRootScopes_ne _ _ _ Hinv Hit). set_solver. }
  intros known s1 [-> Hknown].
  assert (unreserved (st s) → ∀ r, r ∈ roots ∪ getRootScopes it → r ∉ known_rootscopes (st s)) as Hr'.
  { intros Hu r [Hr|Hr]%elem_of_union; [auto|by eapply getRootScopes_known]. }
  assert (unreserved (st s) → known = false) as Hkf.
  { intros Hu. destruct known; [|done]. destruct (Hknown eq_refl) as (r & ? & ?).
    exfalso. by eapply Hr'. }
  apply wp_bind. eapply wp_mono; [by apply (quiet_rendezvous gc F HF)|]. intros [] s2 Hs2.
  apply wp_bind. eapply (wp_mono _ _ (λ _ s', inv (st s') ∧
    shrunk (st s) (st s') ∧ others_kept (NI i) (st s) (st s') ∧ ebbed (child_id id) (st s) (st s') ∧
    (unreserved (st s) → st s' = st s))).
  - destruct known.
    + rewrite <-Hs2 in *. eapply wp_mono; [by apply (unpublish_below_spec p)|].
      intros [] s3 (? & ? & ? & ?). split_and!; try done. intros Hu. by specialize (Hkf Hu).
    + apply wp_ret. rewrite Hs2. by split_and!.
  - intros [] s3 (Hinv3 & Hsk3 & Hoth3 & Heb3 & Hu3).
    eapply wp_mono; [apply IH; [done|done|..]|].
    + intros j Hj. eapply below_id_kept; [done|done| |apply Hl; by right]. by intros ->.
    + intros Hu. rewrite (sk_known _ _ Hsk3). apply Hr'. by eapply unreserved_shrunk.
    + intros [] s4 (Hinv4 & Heb4 & Hu4). split_and!; [done|by etrans|].
      intros Hu. rewrite Hu4; [auto|]. by rewrite Hu3.
Qed.

(** An identifier of one fragment is that of a root scope. *)
Lemma short_root sf s p x : wf_clean sf s → has s (NS p) x → length x = PURSUIT_ID_LEN →
  root s (NS p).
Proof.
  intros Hwf Hx Hlen. destruct (wf_sound _ _ _ _ Hwf _ _ Hx) as [|(f & fid & Hf & Hfid & ->)]; [done|].
  apply (wf_long _ _ _ _ Hwf) in Hfid.
  rewrite length_app, (wf_len _ _ _ _ Hwf) in Hlen by by eapply father_alive.
  unfold PURSUIT_ID_LEN in *. lia.
Qed.

(** A new subscriber of an existing scope: what [joined] and the following
    unpublications mean for the ledger. *)
Lemma subscribe_scope_intro p id h s s1 s2 : inv (st s) → inv (st s1) →
  joined Sub (NS p) id h (st s) (st s1) → ebbed (child_id id) (st s1) (st s2) →
  (unreserved (st s1) → st s2 = st s1) →
  subscribes_scope (child_id id) (unreserved (st s)) id h SUCCESS (st s) (st s2).
Proof.
  intros Hinv Hinv1 Hj Heb Hu. pose proof (joined_booked _ _ _ _ _ _ Hj) as Hb.
  split; [by eapply booked_ebbed|]. intros Hun. rewrite Hu; [done|].
  apply (unreserved_calm (st s)); [done|done|apply Hj|done].
Qed.

Lemma subscribes_registers P (unres : Prop) id h c s s' : registers Sub KScope id h c s s' →
  c ≠ EXISTS → subscribes_scope P unres id h c s s'.
Proof.
  intros H Hc. destruct c; simpl in *; try done. destruct H as [Hb _]. split; [|done].
  eapply booked_ebbed; [done|]. reflexivity.
Qed.

Lemma subscribe_root_scope_spec h ID strategy upd s : inv (st s) → host_alive (st s) h →
  length ID = PURSUIT_ID_LEN →
  wp F (subscribe_root_scope gc h ID strategy upd)
    (λ c s', inv (st s') ∧ subscribes_scope (child_id ID) (unreserved (st s)) ID h c (st s) (st s')) s.
Proof.
  intros Hinv Hh Hlen. pose proof Hinv as [[sf Hwf] _]. unfold subscribe_root_scope.
  apply wp_bind, wp_get_st. destruct (scopeIndex (st s) !! ID) as [p|] eqn:Hp.
  - assert (has (st s) (NS p) ID) as Hid by by apply (wf_idx _ _ _ _ Hwf (NS p)).
    destruct (proj1 (alive_scope _ _) (has_alive _ _ _ Hid)) as [sc Hsc].
    apply wp_bind. eapply wp_get_scope; [done|]. destruct (_ =? _)%Z; [|by apply wp_ret].
    apply wp_bind. eapply wp_mono; [by apply add_scope_subscriber_spec|].
    intros b s1 (Hinv1 & _ & Hj & ->). pose proof (proj1 Hj) as Hcalm.
    apply (rp_has _ _ (ca_rep _ _ Hcalm)) in Hid as Hid1.
    apply wp_bind. eapply wp_mono; [apply quiet_announce_subscopes; [done|by eapply has_alive|]|].
    { by apply (ca_host _ _ Hcalm). }
    intros [] s2 Hs2. rewrite <-Hs2 in Hinv1, Hid1, Hj. clear Hs2 Hcalm.
    destruct (proj1 (alive_scope _ _) (has_alive _ _ _ Hid1)) as [sc2 Hsc2].
    apply wp_bind. eapply wp_get_scope; [done|]. apply wp_bind.
    pose proof Hinv1 as [[sf1 Hwf1] _]. eapply wp_mono.
    + apply (wp_for_each F _ _ (λ l s', NoDup l ∧ inv (st s') ∧ root (st s') (NS p) ∧
        (∀ i, i ∈ l → below_id (st s') p i ID) ∧ ebbed (child_id ID) (st s2) (st s') ∧
        (unreserved (st s2) → st s' = st s2))).
      * split_and!; [|done|by eapply short_root| |done|done].
        { rewrite (ptr_order_perm (informationitems sc2)). apply NoDup_elements. }
        intros i Hi%elem_of_ptr_order. split; [done|].
        apply (wf_kid _ _ _ _ Hwf1). by exists sc2.
      * intros i l s3 (Hnd & Hinv3 & Hr3 & Hl & Heb3 & Hu3). apply NoDup_cons in Hnd as [Hil Hnd].
        eapply wp_mono; [apply (match_root_item_spec p); [done|apply Hl; left|done]|].
        intros [] s4 (Hinv4 & Hsk4 & Hoth4 & Heb4 & Hu4). split_and!; [done|done| | |by etrans|].
        { apply (inv_root (st s4)); [done|]. rewrite (sk_fathers _ _ Hsk4). by apply (inv_root (st s3)). }
        { intros j Hj'. eapply below_id_kept; [done|done| |apply Hl; by right]. by intros ->. }
        intros Hu. rewrite Hu4; [auto|]. by rewrite Hu3.
    + intros [] s3 (_ & Hinv3 & _ & _ & Heb3 & Hu3). apply wp_ret. split; [done|].
      by apply (subscribe_scope_intro p ID h s s2).
  - destruct Hh as [rh Hrh]. unfold new_root_scope.
    apply wp_bind, wp_bind, wp_get_st, wp_bind, wp_mod_st, wp_ret, wp_bind, wp_mod_st.
    set (p := fresh _). pose proof (fresh_scope (st s)) as Hfr. fold p in Hfr.
    unfold add_scope_subscriber, Scope_updateSubscribers, Scope_update.
    apply wp_bind, wp_bind, wp_bind.
    eapply wp_get_scope; [simpl; by rewrite lookup_insert, decide_True|].
    cbn [sc_ids]. change (update_second_always ID h ∅) with (true, {[ID := mkPair ∅ {[h]}]} : IdsHashMap).
    apply wp_bind. eapply wp_mod_scope; [simpl; by rewrite lookup_insert, decide_True|].
    apply wp_ret, wp_bind. eapply wp_mod_host; [done|]. apply wp_ret, wp_ret. cbn [st].
    match goal with |- inv ?X ∧ _ =>
      enough (inv X ∧ registers Sub KScope ID h SUCCESS (st s) X) as [? ?]
        by (split; [done|by apply subscribes_registers]) end.
    by_root (with_root_inv Sub (st s) p ID strategy h rh Hinv Hfr Hlen Hp Hrh).
Qed.

Lemma subscribe_inner_scope_spec h ID prefixID strategy upd s : inv (st s) →
  host_alive (st s) h → length ID = PURSUIT_ID_LEN →
  wp F (subscribe_inner_scope gc h ID prefixID strategy upd)
    (λ c s', inv (st s') ∧ subscribes_scope (child_id (prefixID ++ ID)) (unreserved (st s))
       (prefixID ++ ID) h c (st s) (st s')) s.
Proof.
  intros Hinv Hh Hlen. pose proof Hinv as [[sf Hwf] _]. unfold subscribe_inner_scope.
  apply wp_bind, wp_get_st. destruct (pubIndex (st s) !! (prefixID ++ ID)) eqn:Hi; [by apply wp_ret|].
  destruct (scopeIndex (st s) !! prefixID) as [f|] eqn:Hf; [|by apply wp_ret].
  assert (has (st s) (NS f) prefixID) as Hpre by by apply (wf_idx _ _ _ _ Hwf (NS f)).
  destruct (proj1 (alive_scope _ _) (has_alive _ _ _ Hpre)) as [fa Hfa].
  destruct (scopeIndex (st s) !! (prefixID ++ ID)) as [p|] eqn:Hp.
  - assert (has (st s) (NS p) (prefixID ++ ID)) as Hid by by apply (wf_idx _ _ _ _ Hwf (NS p)).
    destruct (proj1 (alive_scope _ _) (has_alive _ _ _ Hid)) as [sc Hsc].
    apply wp_bind. eapply wp_get_scope; [done|]. destruct (_ =? _)%Z; [|by apply wp_ret].
    apply wp_bind. eapply wp_mono; [by apply add_scope_subscriber_spec|].
    intros b s1 (Hinv1 & _ & Hj & ->). pose proof (proj1 Hj) as Hcalm.
    apply (rp_has _ _ (ca_rep _ _ Hcalm)) in Hid as Hid1.
    apply wp_bind. eapply wp_mono; [apply quiet_announce_subscopes; [done|by eapply has_alive|]|].
    { by apply (ca_host _ _ Hcalm). }
    intros [] s2 Hs2. rewrite <-Hs2 in Hinv1, Hid1, Hj. clear Hs2 Hcalm.
    destruct (proj1 (alive_scope _ _) (has_alive _ _ _ Hid1)) as [sc2 Hsc2].
    apply wp_bind. eapply wp_get_scope; [done|]. apply wp_bind.
    eapply wp_mono; [apply (match_inner_items_spec p); [done|..]|].
    + rewrite (ptr_order_perm (informationitems sc2)). apply NoDup_elements.
    + intros i Hi'%elem_of_ptr_order. split; [done|]. destruct Hinv1 as [[sf1 Hwf1] _].
      apply (wf_kid _ _ _ _ Hwf1). by exists sc2.
    + set_solver.
    + intros [] s3 (Hinv3 & Heb3 & Hu3). apply wp_ret. split; [done|].
      by apply (subscribe_scope_intro p _ h s s2).
  - apply wp_bind. eapply wp_get_scope; [done|]. destruct (_ =? _)%Z; [|by apply wp_ret].
    apply wp_bind. eapply wp_mono; [|intros p s1 H; apply wp_bind, H].
    apply (create_scope_spec f); try done. intros p s2 Hinv2 Hid2 Hf2 Hho2 Hled2.
    apply wp_bind. eapply wp_mono; [apply add_scope_subscriber_spec; auto|].
    intros b s3 (Hinv3 & _ & Hj & ->). pose proof (proj1 Hj) as Hcalm.
    eapply wp_mono; [apply (announce_spec SCOPE_PUBLISHED f p getIDs); [done|..]|].
    + by apply (calm_alive _ _ _ Hcalm).
    + apply (calm_alive _ _ _ Hcalm). by eapply has_alive.
    + intros c s4 [-> Hs4]. rewrite Hs4. split; [done|].
      assert (booked Sub KScope (prefixID ++ ID) h (st s) (st s3)) as Hb.
      { rewrite Hled2. by apply joined_booked in Hj. }
      split; [|done]. eapply booked_ebbed; [done|]. reflexivity.
Qed.

Lemma subscribe_scope_spec h ID prefixID strategy upd s : inv (st s) → host_alive (st s) h →
  wp F (subscribe_scope gc h ID prefixID strategy upd)
    (λ c s', inv (st s') ∧ subscribes_scope (child_id (prefixID ++ ID)) (unreserved (st s))
       (prefixID ++ ID) h c (st s) (st s')) s.
Proof.
  intros Hinv Hh. unfold subscribe_scope. case_decide as H1.
  { destruct H1 as [->%nil_length_inv Hl]. by apply subscribe_root_scope_spec. }
  case_decide as H2; [destruct H2; by apply subscribe_inner_scope_spec|by apply wp_ret].
Qed.

Lemma subscribe_info_spec h ID prefixID strategy upd s : inv (st s) → host_alive (st s) h →
  wp F (subscribe_info gc h ID prefixID strategy upd)
    (λ c s', inv (st s') ∧ registers_but (λ x, x = prefixID ++ ID) (unreserved (st s))
       Sub KItem (prefixID ++ ID) h c (st s) (st s')) s.
Proof.
  intros Hinv Hh. pose proof Hinv as [[sf Hwf] _]. unfold subscribe_info.
  case_decide as H1; [destruct H1 as [_ Hlen]|by apply wp_ret]. cbv zeta.
  apply wp_bind, wp_get_st.
  destruct (scopeIndex (st s) !! prefixID) as [f|] eqn:Hf; [|by apply wp_ret].
  assert (has (st s) (NS f) prefixID) as Hpre by by apply (wf_idx _ _ _ _ Hwf (NS f)).
  destruct (proj1 (alive_scope _ _) (has_alive _ _ _ Hpre)) as [fa Hfa].
  apply wp_bind. eapply wp_get_scope; [done|].
  destruct (pubIndex (st s) !! (prefixID ++ ID)) as [i|] eqn:Hi.
  - assert (has (st s) (NI i) (prefixID ++ ID)) as Hid by by apply (wf_idx _ _ _ _ Hwf (NI i)).
    destruct (_ =? _)%Z; [|by apply wp_ret].
    apply wp_bind. eapply wp_mono; [by apply add_item_subscriber_spec|].
    intros b s1 (Hinv1 & _ & Hj & Hb). pose proof (proj1 Hj) as Hcalm.
    pose proof (registers_join sf Sub (NI i) _ h b _ _ _ Hwf Hid (reflexivity (st s)) Hj Hb) as Hreg.
    destruct b; [|by apply wp_ret].
    assert (alive (st s1) (NI i)) as Hi1 by (apply (calm_alive _ _ _ Hcalm); by eapply has_alive).
    destruct (proj1 (alive_item _ _) Hi1) as [it1 Hit1].
    apply wp_bind. eapply wp_mono; [by apply item_subscribers_spec|]. intros X s2 [-> HX].
    apply wp_bind. eapply wp_get_item; [done|]. apply wp_bind.
    eapply wp_mono; [by apply (item_root_spec F i)|]. intros known s2 [-> Hk].
    apply wp_bind. eapply wp_mono; [by apply (quiet_rendezvous gc F HF)|].
    intros [] s3 Hs3. apply wp_bind.
    assert (unreserved (st s) → unreserved (st s1)) as Hun by by apply unreserved_calm.
    destruct known.
    + eapply wp_mono; [apply (unpublish_all_spec gc F HF); [by rewrite Hs3..|done]|].
      rewrite Hs3. intros [] s4 (? & _ & Heb). apply wp_ret. split; [done|].
      eapply registers_ebbed; [done|done|]. intros Hu%Hun%Hk. done.
    + apply wp_ret, wp_ret. rewrite Hs3. split; [done|].
      eapply registers_ebbed; [done|reflexivity|done].
  - destruct (scopeIndex (st s) !! (prefixID ++ ID)) as [p|] eqn:Hp; [by apply wp_ret|].
    destruct (_ =? _)%Z; [|by apply wp_ret].
    apply wp_bind. eapply wp_mono; [|intros i s1 H; apply wp_bind, H].
    apply (create_item_spec f); try done. intros i s2 Hinv2 Hid2 Hf2 Hho2 Hled2 _.
    pose proof Hinv2 as [[sf2 Hwf2] _].
    apply wp_bind. eapply wp_mono; [apply add_item_subscriber_spec; auto|].
    intros b s3 (Hinv3 & _ & Hj & Hb). apply wp_ret. split; [done|].
    pose proof (registers_join sf2 Sub (NI i) _ h b _ _ _ Hwf2 Hid2 Hled2 Hj Hb) as Hreg.
    destruct b; [|done]. eapply registers_ebbed; [done|reflexivity|done].
Qed.
End requests.
