(* ===== verification/RVProps.v ===== *)
(** * The rendezvous element as a whole

    The theorems about LocalRV: the invariant of [RVInv] holds after
    [initialize] and is kept by every packet of the LocalProxy, which faults
    only in the ways that are named here; what can go wrong is shown on the
    requests that make it go wrong. *)
From stdpp Require Import base list gmap sets.
From Stdlib Require Import ZArith Lia.
From S2P Require Import Prelude Enums Bitvector GlobalConf InfoGraph GraphInv LocalRV RVInv RVGraft RVLedger RVCollect RVSafety RVRequests.

(** ** Hosts *)

Lemma hosts_ok_new s id p : hosts_ok s → hosts s !! p = None → pub_sub_Index s !! id = None →
  hosts_ok (set_pub_sub_Index (insert id p) (set_hosts (insert p (mkHost id ∅ ∅ ∅ ∅)) s)).
Proof.
  intros Hok Hp Hid. constructor; simpl.
  - intros x h. rewrite !lookup_insert. repeat case_decide; simplify_eq.
    + split; [intros _; by eexists|done].
    + split; [by intros [= ->]|]. intros (rh & Hrh & <-).
      assert (pub_sub_Index s !! remoteHostID rh = Some h) by (apply (ho_idx _ Hok); eauto).
      congruence.
    + split; [intros Hx%(ho_idx _ Hok); naive_solver|naive_solver].
    + apply (ho_idx _ Hok).
  - intros r n x h Hr. change (rel s r n x h) in Hr.
    destruct (ho_rel _ Hok _ _ _ _ Hr) as (rh & Hrh & Hin). exists rh. split; [|done].
    rewrite lookup_insert_ne; [done|]. intros ->. congruence.
  - intros r n x h rh. rewrite lookup_insert. case_decide; simplify_eq.
    + intros [= <-] Hin. destruct r, n; simpl in Hin; set_solver.
    + apply (ho_set _ Hok).
  - intros h Hh%(ho_lp _ Hok). rewrite lookup_insert. case_decide; [by eexists|done].
Qed.

(** What a new host leaves alone. *)
Record welcomed (s s' : Store) : Prop := {
  wl_scopes : scopes s' = scopes s;
  wl_items : items s' = items s;
  wl_scopeIndex : scopeIndex s' = scopeIndex s;
  wl_pubIndex : pubIndex s' = pubIndex s;
  wl_known : known_rootscopes s' = known_rootscopes s;
}.

Lemma welcomed_wf sf s s' : wf_clean sf s → welcomed s s' → wf_clean sf s'.
Proof.
  intros Hwf [Hsc Hit Hsi Hpi _]. eapply wf_repaired; [done|]. constructor.
  - intros []; simpl; congruence.
  - intros f m. unfold kid. by rewrite Hsc.
  - intros []; simpl; by rewrite ?Hsc.
  - intros m x. unfold has, pair_at, nids. destruct m; by rewrite ?Hsc, ?Hit.
  - intros [] x; simpl; by rewrite ?Hsi, ?Hpi.
Qed.

Section props.
Context `{HO : HashOrder} (gc : GlobalConf).

Lemma getRemoteHost_spec F id s : inv (st s) →
  wp F (getRemoteHost id) (λ h s', inv (st s') ∧ out s' = out s ∧ welcomed (st s) (st s') ∧
    ∃ rh, hosts (st s') !! h = Some rh ∧ remoteHostID rh = id) s.
Proof.
  intros [[sf Hwf] Hok]. unfold getRemoteHost. apply wp_bind, wp_get_st.
  destruct (pub_sub_Index (st s) !! id) as [h|] eqn:Hid.
  - apply wp_ret. split_and!; [by split; [eexists|]|done|done|]. by apply (ho_idx _ Hok).
  - unfold new_host. apply wp_bind, wp_bind, wp_get_st, wp_bind, wp_mod_st, wp_ret.
    set (p := fresh _). apply wp_bind, wp_mod_st, wp_ret. simpl.
    assert (hosts (st s) !! p = None) as Hp.
    { apply not_elem_of_dom. apply is_fresh. }
    split_and!; [|done|done|].
    + split; [exists sf; by eapply welcomed_wf|by apply hosts_ok_new].
    + rewrite lookup_insert, decide_True by done. by eexists.
Qed.

(** ** The contract of a request *)

Definition is_type (r : request) (t : Z) : bool := (rq_type r =? t)%Z.

(** An unpublication or unsubscription names one fragment below its prefix. *)
Definition sized (r : request) : bool :=
  (negb (is_type r UNPUBLISH_SCOPE || is_type r UNPUBLISH_INFO ||
         is_type r UNSUBSCRIBE_SCOPE || is_type r UNSUBSCRIBE_INFO) ||
   bool_decide (length (rq_ID r) = PURSUIT_ID_LEN)).

(** A scope is not published below itself. *)
Definition acyclic (s : Store) (r : request) : Prop :=
  ∀ e f, scopeIndex s !! rq_ID r = Some e → scopeIndex s !! rq_prefixID r = Some f →
    ¬ reach s e f.

Definition contract (h : positive) (r : request) (c : RvReturnCode) (s s' : Store) : Prop :=
  let id := rq_prefixID r ++ rq_ID r in
  let new_id := rq_prefixID r ++ suffix (rq_ID r) in
  if is_type r PUBLISH_SCOPE then registers Pub KScope new_id h c s s'
  else if is_type r PUBLISH_INFO then
    registers_but (λ x, x = new_id) (unreserved s) Pub KItem new_id h c s s'
  else if is_type r UNPUBLISH_SCOPE then withdraws id h c s s'
  else if is_type r UNPUBLISH_INFO then revokes Pub KItem id h c s s'
  else if is_type r SUBSCRIBE_SCOPE then
    subscribes_scope (child_id id) (unreserved s) id h c s s'
  else if is_type r SUBSCRIBE_INFO then
    registers_but (λ x, x = id) (unreserved s) Sub KItem id h c s s'
  else if is_type r UNSUBSCRIBE_SCOPE then revokes Sub KScope id h c s s'
  else if is_type r UNSUBSCRIBE_INFO then revokes Sub KItem id h c s s'
  else c = UNKNOWN_REQUEST_TYPE ∧ s' = s.

Lemma dispatch_spec F h r s : F BufferOverflow →
  (erased_keeps_link = false → F IterInvalidated) →
  ((F StackOverflow ∧ F IterInvalidated) ∨ acyclic (st s) r) →
  inv (st s) → host_alive (st s) h → sized r = true →
  wp F (dispatch gc h r) (λ c s', inv (st s') ∧ contract h r c (st s) (st s')) s.
Proof.
  intros HF HI Hcyc Hinv Hh Hsz. unfold dispatch, contract.
  unfold sized, is_type in *.
  destruct (_ =? PUBLISH_SCOPE)%Z; [by apply publish_scope_spec|].
  destruct (_ =? PUBLISH_INFO)%Z; [by apply publish_info_spec|].
  destruct (_ =? UNPUBLISH_SCOPE)%Z; simpl in Hsz.
  { apply bool_decide_eq_true in Hsz. by apply unpublish_scope_spec. }
  destruct (_ =? UNPUBLISH_INFO)%Z; simpl in Hsz.
  { apply bool_decide_eq_true in Hsz.
    eapply wp_mono; [by apply unpublish_info_spec|]. by intros c s' (? & _ & ? & _). }
  destruct (_ =? SUBSCRIBE_SCOPE)%Z; [by apply subscribe_scope_spec|].
  destruct (_ =? SUBSCRIBE_INFO)%Z; [by apply subscribe_info_spec|].
  destruct (_ =? UNSUBSCRIBE_SCOPE)%Z; simpl in Hsz.
  { apply bool_decide_eq_true in Hsz. by apply unsubscribe_scope_spec. }
  destruct (_ =? UNSUBSCRIBE_INFO)%Z; simpl in Hsz; [|by apply wp_ret].
  apply bool_decide_eq_true in Hsz. by apply unsubscribe_info_spec.
Qed.

(** A new host changes neither the graph nor the ledger. *)
Lemma welcomed_rel s s' r n x g : welcomed s s' → rel s' r n x g ↔ rel s r n x g.
Proof.
  intros [Hsc Hit _ _ _]. unfold rel, pair_at, nids. destruct n; by rewrite ?Hsc, ?Hit.
Qed.

Lemma welcomed_father s s' n f : welcomed s s' → father s' n f ↔ father s n f.
Proof.
  intros [Hsc Hit _ _ _]. unfold father, nfathers. destruct n; by rewrite ?Hsc, ?Hit.
Qed.

Lemma welcomed_acyclic s s' r : welcomed s s' → acyclic s r → acyclic s' r.
Proof.
  intros Hw Hac e f. rewrite (wl_scopeIndex _ _ Hw). intros He Hf Hr. apply (Hac e f He Hf).
  eapply rtc_subrel; [|done]. intros x y Hxy.
  exact (proj1 (welcomed_father _ _ _ _ Hw) Hxy).
Qed.

Lemma handle_request_spec F r s : F BufferOverflow →
  (erased_keeps_link = false → F IterInvalidated) →
  ((F StackOverflow ∧ F IterInvalidated) ∨ acyclic (st s) r) →
  inv (st s) → sized r = true →
  wp F (handle_request gc r) (λ c s', inv (st s') ∧ ∃ h rh s1,
    welcomed (st s) s1 ∧ hosts s1 !! h = Some rh ∧ remoteHostID rh = rq_node r ∧
    contract h r c s1 (st s')) s.
Proof.
  intros HF HI Hcyc Hinv Hsz. unfold handle_request. apply wp_bind.
  eapply wp_mono; [by apply getRemoteHost_spec|].
  intros h s1 (Hinv1 & _ & Hw & rh & Hrh & Hid).
  eapply wp_mono; [apply dispatch_spec; [done|done| |done|by exists rh|done]|].
  - destruct Hcyc as [?|Hac]; [by left|right]. by eapply welcomed_acyclic.
  - intros c s2 [Hinv2 Hc]. split; [done|]. exists h, rh, (st s1). done.
Qed.

(** ** Packets *)

(** The request in a packet, read without a state. *)
Definition requested (p : bytes) : option request :=
  match (n ← read_byte p 1; id ← read_bytes p 2 (Z.to_nat n * PURSUIT_ID_LEN);
         parse_request p id) (mkRv empty_store []) with
  | Ok (r, _) => Some r
  | Fault _ => None
  end.

Definition well_sized (p : bytes) : bool :=
  match requested p with Some r => sized r | None => true end.

Lemma read_byte_spec F p off (Q : Z → rv → Prop) s : F BufferOverflow →
  (∀ b, (∀ s' : rv, read_byte p off s' = Ok (b, s')) → Q b s) → wp F (read_byte p off) Q s.
Proof.
  intros HF HQ. unfold read_byte in *. destruct (p !! off); [by apply wp_ret, HQ|by apply wp_throw].
Qed.

Lemma read_bytes_spec F p off len (Q : bytes → rv → Prop) s : F BufferOverflow →
  (∀ x, (∀ s' : rv, read_bytes p off len s' = Ok (x, s')) → Q x s) → wp F (read_bytes p off len) Q s.
Proof.
  intros HF HQ. unfold read_bytes in *. case_decide; [by apply wp_ret, HQ|by apply wp_throw].
Qed.

(** Reading does not change the state and does not depend on it. *)
Lemma parse_request_spec F p id s : F BufferOverflow →
  wp F (parse_request p id)
    (λ r s', s' = s ∧ ∀ s0, parse_request p id s0 = Ok (r, s0)) s.
Proof.
  intros HF. unfold parse_request.
  apply wp_bind, (read_byte_spec F); [done|]. intros t Ht.
  apply wp_bind, (read_byte_spec F); [done|]. intros n Hn.
  apply wp_bind, (read_bytes_spec F); [done|]. intros ID HID.
  apply wp_bind, (read_byte_spec F); [done|]. intros m Hm.
  apply wp_bind, (read_bytes_spec F); [done|]. intros pre Hpre.
  apply wp_bind, (read_byte_spec F); [done|]. intros str Hstr.
  apply wp_ret. split; [done|]. intros s0. unfold mbind, M_bind.
  by rewrite Ht, Hn, HID, Hm, Hpre, Hstr.
Qed.

Lemma quiet_isubscription F iss upd s : F BufferOverflow →
  quiet F (requestTMAssistanceForiSubscription gc iss upd) s.
Proof.
  intros HF. unfold requestTMAssistanceForiSubscription.
  apply quiet_bind; [by apply quiet_fid_data|]. intros. by apply quiet_send.
Qed.

Lemma quiet_read_isubscribers F p n : ∀ off acc s, F BufferOverflow →
  quiet F (read_isubscribers p off n acc) s.
Proof.
  induction n as [|n IH]; intros off acc s HF; simpl; [done|].
  apply quiet_bind; [unfold quiet; by apply read_bytes_spec|]. intros x s1 _. by apply IH.
Qed.

Lemma push_spec F port p s : F BufferOverflow →
  (erased_keeps_link = false → F IterInvalidated) →
  ((F StackOverflow ∧ F IterInvalidated) ∨ ∀ r, requested p = Some r → acyclic (st s) r) →
  inv (st s) → well_sized p = true →
  wp F (push gc port p) (λ _ s', inv (st s')) s.
Proof.
  intros HF HI Hcyc Hinv Hsz. unfold push. destruct (_ =? _)%Z; [|by apply wp_ret].
  apply wp_bind, (read_byte_spec F); [done|]. intros t _.
  apply wp_bind, (read_byte_spec F); [done|]. intros n Hn.
  apply wp_bind, (read_bytes_spec F); [done|]. intros id Hid.
  destruct (_ =? _)%Z; [|destruct (_ =? _)%Z; [|by apply wp_ret]].
  - apply wp_bind. eapply wp_mono; [by apply parse_request_spec|]. intros r s1 [-> Hr].
    assert (requested p = Some r) as Hreq.
    { unfold requested, mbind, M_bind. by rewrite Hn, Hid, Hr. }
    apply wp_bind. eapply wp_mono; [apply handle_request_spec; [done|done| |done|]|].
    + destruct Hcyc as [?|Hac]; [by left|right; by apply Hac].
    + unfold well_sized in Hsz. by rewrite Hreq in Hsz.
    + intros c s2 [Hinv2 _]. apply wp_bind, wp_modify, wp_ret. done.
  - apply wp_bind, (read_byte_spec F); [done|]. intros m _.
    apply wp_bind. eapply wp_mono; [by apply quiet_read_isubscribers|]. intros iss s1 Hs1.
    apply wp_bind. eapply wp_mono; [by apply quiet_isubscription|]. intros [] s2 Hs2.
    apply wp_ret. by rewrite Hs2, Hs1.
Qed.

(** ** The element *)

Lemma empty_inv : inv empty_store.
Proof.
  split; [exists (λ _, []); constructor|constructor].
  all: unfold has, father, kid, alive, root, rel, pair_at, nids, nfathers, idx; simpl.
  all: try (intros []; simpl; intros; rewrite ?lookup_empty in *; naive_solver).
  all: try (intros; repeat match goal with n : node |- _ => destruct n end; simpl in *;
            rewrite ?lookup_empty in *; simpl in *; naive_solver).
Qed.

Lemma set_localProxy_inv s h : inv s → host_alive s h → inv (set_localProxy (Some h) s).
Proof.
  intros [[sf Hwf] Hok] Hh. split; [exists sf; eapply wf_repaired; [done|by constructor]|].
  destruct Hok. constructor; [exact ho_idx|exact ho_rel|exact ho_set|].
  by intros g [= ->].
Qed.

Lemma set_known_inv s f : inv s → inv (set_known f s).
Proof.
  intros [[sf Hwf] Hok]. split; [exists sf; eapply wf_repaired; [done|by constructor]|].
  destruct Hok. constructor; [exact ho_idx|exact ho_rel|exact ho_set|exact ho_lp].
Qed.

Lemma initialize_spec F s : F BufferOverflow → inv (st s) →
  wp F (initialize gc) (λ _ s', inv (st s') ∧
    IP_ROOTSCOPE gc ∈ known_rootscopes (st s') ∧ HTTP_ROOTSCOPE gc ∈ known_rootscopes (st s') ∧
    ∃ lp rh, localProxy (st s') = Some lp ∧ hosts (st s') !! lp = Some rh ∧
      remoteHostID rh = nodeID gc) s.
Proof.
  intros HF Hinv. unfold initialize. apply wp_bind.
  eapply wp_mono; [by apply getRemoteHost_spec|]. intros lp s1 (Hinv1 & _ & _ & rh & Hrh & Hid).
  apply wp_bind, wp_mod_st.
  apply wp_bind. eapply wp_mono; [by apply quiet_send|]. intros [] s2 Hs2.
  apply wp_bind. eapply wp_mono; [by apply quiet_send|]. intros [] s3 Hs3.
  apply wp_bind, wp_mod_st, wp_mod_st. rewrite Hs2 in Hs3. simpl in *. rewrite Hs3.
  unfold set_add. split_and!; [|set_solver|set_solver|by exists lp, rh].
  apply set_known_inv, set_known_inv, set_localProxy_inv; [done|by exists rh].
Qed.

(** The packets that the element gets after it was initialised. *)
Definition serve (ps : list bytes) : M rv unit :=
  _ ← initialize gc;
  for_each ps (λ p, _ ← push gc 0 p; mret tt).

(** The ways in which a rendezvous point can fail. *)
Definition rv_fault (e : fault) : Prop :=
  e = BufferOverflow ∨ e = StackOverflow ∨ e = IterInvalidated.

Lemma serve_spec (ps : list bytes) : forallb well_sized ps = true →
  wp rv_fault (serve ps) (λ _ s, inv (st s)) (mkRv empty_store []).
Proof.
  intros Hps. unfold serve, rv_fault. apply wp_bind.
  eapply wp_mono; [apply initialize_spec; [by left|apply empty_inv]|].
  intros [] s (Hinv & _). apply wp_for_each_inv; [done|].
  intros p s' Hp Hinv'. apply wp_bind.
  eapply wp_mono; [apply push_spec; [by left|by right; right|left; auto|done|]|].
  - rewrite forallb_forall in Hps. apply Hps. by apply list_elem_of_In.
  - intros c s2 Hinv2. by apply wp_ret.
Qed.

(** C2. Take any packets for a LocalRV element after its initialisation, of
    which every unpublication and unsubscription names one fragment below its
    prefix.  The element may read or write past the end of a packet
    (BufferOverflow), recurse without end when a scope is published below
    itself (StackOverflow), or walk on from an erased element of a table
    (IterInvalidated); but it never follows a NULL or dangling pointer, never
    reads the first element of an empty table, and while none of the three
    happens its graph, index tables and host records stay consistent. *)
Theorem element_safe (ps : list bytes) : forallb well_sized ps = true →
  wp rv_fault (serve ps) (λ _ s, inv (st s)) (mkRv empty_store []).
Proof. apply serve_spec. Qed.

(** C1. Take a consistent graph, and a request of which an unpublication or
    unsubscription names one fragment and that publishes no scope below
    itself.  It can fail to be answered in two ways only: a packet is too
    small for what is written to it or read from it, or, if erased elements
    lose their link, a loop walks on from one.  Otherwise the graph is
    consistent again and the return code tells exactly which lines were
    entered in or struck from the ledger of publications and subscriptions,
    for the host whose label the packet carries.  If the graph has a reserved
    root scope (IP or HTTP), the advertisement of an item and a subscription
    may in addition strike publishers of that item, or of the items in the
    scope, and nothing else. *)
Theorem request_contract (r : request) (s : rv) :
  inv (st s) → sized r = true → acyclic (st s) r →
  wp (λ e, e = BufferOverflow ∨ (erased_keeps_link = false ∧ e = IterInvalidated))
    (handle_request gc r)
    (λ c s', inv (st s') ∧ ∃ h rh s1,
       welcomed (st s) s1 ∧ hosts s1 !! h = Some rh ∧ remoteHostID rh = rq_node r ∧
       contract h r c s1 (st s')) s.
Proof.
  intros Hinv Hsz Hac. apply handle_request_spec; auto.
Qed.
End props.

(** ** A sample rendezvous point *)

Definition sample_node : bytes := [48; 48; 48; 48; 48; 48; 48; 49]%Z.
Definition sample_node2 : bytes := [48; 48; 48; 48; 48; 48; 48; 50]%Z.

Definition no_gc : GlobalConf :=
  mkGC false false false [] (mkBV 0 []) (mkBV 0 []) (mkBV 0 []) false
    [] [] [] [] [] [] [] [] [] [] [] [] 0%Z.

Definition sample_gc : GlobalConf :=
  default no_gc (configure (false, false, false) [70; 87; 58; 82; 86]%Z [109; 97; 99]%Z
    sample_node (example_lid 3) (example_lid 3) (example_lid 5)).

(** A PUBLISHED_DATA event that carries a request of [node]. *)
Definition request_packet (node : bytes) (type : Z) (ID prefixID : bytes) (strategy : Z) : bytes :=
  ([PUBLISHED_DATA; 2] ++ RVScope sample_gc ++ node ++ [type] ++
   [Z.of_nat (length ID / PURSUIT_ID_LEN)] ++ ID ++
   [Z.of_nat (length prefixID / PURSUIT_ID_LEN)] ++ prefixID ++ [strategy])%Z.

Definition frag (k : Z) : bytes := replicate 7 0%Z ++ [k].

(** Node 1 publishes the scopes /65 and /65/66 and the item /65/66/67; node 2
    subscribes to the scope /65/66 and to the item. *)
Definition sample_packets : list bytes :=
  [request_packet sample_node PUBLISH_SCOPE (frag 65) [] DOMAIN_LOCAL;
   request_packet sample_node PUBLISH_SCOPE (frag 66) (frag 65) DOMAIN_LOCAL;
   request_packet sample_node PUBLISH_INFO (frag 67) (frag 65 ++ frag 66) DOMAIN_LOCAL;
   request_packet sample_node2 SUBSCRIBE_SCOPE (frag 66) (frag 65) DOMAIN_LOCAL;
   request_packet sample_node2 SUBSCRIBE_INFO (frag 67) (frag 65 ++ frag 66) DOMAIN_LOCAL].

Lemma element_safe_witness :
  forallb well_sized sample_packets = true ∧
  wp rv_fault (serve (HO := canonical_order true) sample_gc sample_packets)
    (λ _ s, inv (st s)) (mkRv empty_store []).
Proof.
  split; [vm_compute; reflexivity|].
  apply (element_safe (HO := canonical_order true) sample_gc sample_packets).
  vm_compute. reflexivity.
Defined.

(** The state after a computation, the initial one if it faults. *)
Definition after {S A : Type} (m : M S A) (s : S) : S :=
  match m s with Ok (_, s') => s' | Fault _ => s end.

Lemma after_spec {S A : Type} F (m : M S A) (I : S → Prop) s :
  wp F m (λ _ s', I s') s → I s → I (after m s).
Proof. unfold wp, after. by destruct (m s) as [[a s']|e]. Qed.

Definition sample_state : rv :=
  after (serve (HO := canonical_order true) sample_gc sample_packets) (mkRv empty_store []).

Lemma sample_inv : inv (st sample_state).
Proof.
  apply (after_spec rv_fault _ (λ s, inv (st s))); [|apply empty_inv].
  apply serve_spec. vm_compute. reflexivity.
Qed.

Definition sample_request (type : Z) : request :=
  mkRequest sample_node type (frag 67) (frag 65 ++ frag 66) DOMAIN_LOCAL.

Lemma request_contract_witness :
  let r := sample_request UNPUBLISH_INFO in
  sized r = true ∧
  wp (λ e, e = BufferOverflow ∨ (true = false ∧ e = IterInvalidated))
    (handle_request (HO := canonical_order true) sample_gc r)
    (λ c s', inv (st s') ∧ ∃ h rh s1, welcomed (st sample_state) s1 ∧ hosts s1 !! h = Some rh ∧
       remoteHostID rh = sample_node ∧ contract h r c s1 (st s')) sample_state.
Proof.
  split; [vm_compute; reflexivity|].
  apply (request_contract (HO := canonical_order true) sample_gc
    (sample_request UNPUBLISH_INFO) sample_state).
  - apply sample_inv.
  - vm_compute. reflexivity.
  - intros e f He. vm_compute in He. discriminate He.
Defined.
