(* ===== verification/RVRendezvous.v ===== *)
(** * Rendezvous: who is matched, and the packet that tells so

    The set of subscribers that a rendezvous collects, and the exact bytes of
    the requests to the topology manager. *)
From stdpp Require Import base list gmap sets.
From Stdlib Require Import ZArith Lia.
From S2P Require Import Prelude Enums Bitvector GlobalConf InfoGraph GraphInv LocalRV RVInv RVGraft RVLedger RVCollect RVSafety RVRequests RVProps.

Lemma get_item_run i it s : items (st s) !! i = Some it → get_item i s = Ok (it, s).
Proof. intros Hit. unfold get_item, get_st, live, mbind, M_bind, get, mret, M_ret. cbn. by rewrite Hit. Qed.

(** ** Packets of the computed length *)
Section packets.
Context `{HO : HashOrder}.

Lemma send_exact len fields s : len = length (concat fields) →
  send_fields len fields s = Ok (tt, mkRv (st s) (out s ++ [Send (Some <$> concat fields)])).
Proof. intros ->. unfold send_fields. by rewrite memcpys_exact. Qed.

Lemma send_overflow len fields s : len < length (concat fields) →
  send_fields len fields s = Fault BufferOverflow.
Proof.
  intros Hlen. unfold send_fields. rewrite memcpys_overflow; [done|lia|].
  unfold make_packet. rewrite length_replicate. done.
Qed.

Lemma length_bytes_of_words ws : length (bytes_of_words ws) = 4 * length ws.
Proof.
  unfold bytes_of_words. induction ws as [|w ws IH]; [done|].
  cbn [fmap list_fmap concat length]. rewrite length_app, IH. simpl. lia.
Qed.

(** A vector of 256 bits fills a FID. *)
Lemma fid_data_run v : bv_wf v → bv_size v = fid_bits →
  ∃ bs, length bs = FID_LEN ∧ ∀ s : rv, fid_data v s = Ok (bs, s).
Proof.
  intros Hwf Hsz. assert (8 ≤ length (bv_data v)) as Hlen.
  { etrans; [|apply (wf_used _ Hwf)]. unfold used_words, max_word. unfold bv_size in Hsz.
    replace (bv_max v) with 255%Z; [done|]. change fid_bits with 256%Z in Hsz. lia. }
  exists (take FID_LEN (bytes_of_words (bv_data v))). split.
  - rewrite length_take, length_bytes_of_words. unfold FID_LEN. lia.
  - intros s. unfold fid_data. rewrite decide_True; [done|].
    rewrite length_bytes_of_words. unfold FID_LEN. lia.
Qed.

(** The labels of live hosts. *)
Definition labels (s : Store) (hs : list positive) : list bytes :=
  (λ h, default [] (remoteHostID <$> hosts s !! h)) <$> hs.

Lemma host_ids_run hs s : (∀ h, h ∈ hs → host_alive (st s) h) →
  host_ids hs s = Ok (labels (st s) hs, s).
Proof.
  induction hs as [|h hs IH]; intros Hal; [done|].
  destruct (Hal h) as [rh Hrh]; [left|]. simpl.
  unfold get_host, get_st, live, mbind, M_bind, get, mret, M_ret. cbn.
  rewrite Hrh. cbn. rewrite IH; [done|]. intros g Hg. apply Hal. by right.
Qed.

Lemma length_labels s hs : (∀ h rh, h ∈ hs → hosts s !! h = Some rh →
    length (remoteHostID rh) = NODEID_LEN) →
  (∀ h, h ∈ hs → host_alive s h) → length (concat (labels s hs)) = length hs * NODEID_LEN.
Proof.
  induction hs as [|h hs IH]; intros Hl Hal; [done|].
  destruct (Hal h) as [rh Hrh]; [left|]. cbn. rewrite length_app, Hrh. cbn.
  rewrite (Hl h rh) by (done || left). unfold labels in IH. rewrite IH; [done|..].
  - intros g rg Hg. apply Hl. by right.
  - intros g Hg. apply Hal. by right.
Qed.

Lemma length_id_fields ids :
  length (concat (id_fields ids)) = length ids + sum_list (length <$> ids).
Proof.
  unfold id_fields. induction ids as [|id ids IH]; [done|]. cbn.
  rewrite length_app, IH. lia.
Qed.

Lemma length_ptr_order X : length (ptr_order X) = size X.
Proof. by rewrite (ptr_order_perm X). Qed.
Lemma length_str_order X : length (str_order X) = size X.
Proof. by rewrite (str_order_perm X). Qed.

Lemma IDs_total_small ids : sum_list (length <$> ids) < 256 →
  IDs_total_bytes ids = sum_list (length <$> ids).
Proof. intros H. unfold IDs_total_bytes, u8. rewrite Z.mod_small by lia. lia. Qed.
Lemma IDs_total_large ids : 256 ≤ sum_list (length <$> ids) →
  IDs_total_bytes ids < sum_list (length <$> ids).
Proof.
  intros H. unfold IDs_total_bytes, u8.
  pose proof (Z.mod_pos_bound (Z.of_nat (sum_list (length <$> ids))) 256). lia.
Qed.
End packets.

(** ** Requests to the topology manager *)
Section requests.
Context `{HO : HashOrder} (gc : GlobalConf).

Definition labelled (s : Store) : Prop :=
  ∀ h rh, hosts s !! h = Some rh → length (remoteHostID rh) = NODEID_LEN.

(** The fields of a request that matches [publishers] and [subscribers] of
    the item, as the topology manager reads them. *)
Definition tm_request (tmfid : bytes) (s : Store) (it : InformationItem)
    (publishers subscribers : gset positive) (type : Z) : list bytes :=
  let ids := str_order (dom (it_ids it)) in
  [[PUBLISH_DATA]; [2%Z]; nodeTMScope gc; [IMPLICIT_RENDEZVOUS]; tmfid; [type]; [it_strategy it];
   count_byte (size publishers)] ++ labels s (ptr_order publishers) ++
  [count_byte (size subscribers)] ++ labels s (ptr_order subscribers) ++
  [count_byte (length ids)] ++ id_fields ids.

Lemma length_tm_request tmfid s it pubs subs type : gc_wf gc → length tmfid = FID_LEN →
  labelled s → (∀ h, h ∈ pubs ∪ subs → host_alive s h) →
  length (concat (tm_request tmfid s it pubs subs type)) =
    1 + 1 + 2 * PURSUIT_ID_LEN + 1 + FID_LEN + 1 + 1 + 1 + size pubs * NODEID_LEN
    + 1 + size subs * NODEID_LEN + 1 + size (it_ids it) * 1
    + sum_list (length <$> str_order (dom (it_ids it))).
Proof.
  intros Hgc Ht Hlab Hal. unfold tm_request. rewrite !concat_app, !length_app.
  rewrite !length_labels, length_id_fields, !length_ptr_order, length_str_order, size_dom;
    try (intros h Hh%elem_of_ptr_order; apply Hal; set_solver); try (intros h rh _; apply Hlab).
  cbn [concat app length]. rewrite length_app. cbn [length app]. rewrite length_app.
  rewrite (gc_tmscope _ Hgc), Ht. cbn. lia.
Qed.

Lemma tm_request_run tmfid (it : InformationItem) (pubs subs : gset positive) (upd : bool)
    (s : rv) : gc_wf gc → (∀ s : rv, fid_data (TMFID gc) s = Ok (tmfid, s)) → length tmfid = FID_LEN →
  labelled (st s) → (∀ h, h ∈ pubs ∪ subs → host_alive (st s) h) →
  requestTMAssistanceForRendezvous gc it pubs subs upd s =
    if decide (sum_list (length <$> str_order (dom (it_ids it))) < 256)
    then Ok (tt, mkRv (st s) (out s ++
           [Send (Some <$> concat (tm_request tmfid (st s) it pubs subs (match_type upd)))]))
    else Fault BufferOverflow.
Proof.
  intros Hgc Hrun Hlen Hlab Hal.
  pose proof (length_tm_request tmfid (st s) it pubs subs (match_type upd) Hgc Hlen Hlab Hal) as Hreq.
  unfold requestTMAssistanceForRendezvous, mbind, M_bind. rewrite Hrun, !host_ids_run
    by (intros h Hh%elem_of_ptr_order; apply Hal; set_solver).
  fold (tm_request tmfid (st s) it pubs subs (match_type upd)).
  assert (length (str_order (dom (it_ids it))) = size (it_ids it)) as Hsz
    by (by rewrite length_str_order, size_dom).
  unfold tm_request in *. rewrite Hsz in *. case_decide as Hsum.
  - rewrite IDs_total_small by done. by apply send_exact.
  - apply send_overflow. rewrite Hreq.
    pose proof (IDs_total_large (str_order (dom (it_ids it)))). lia.
Qed.

(** The request for one publisher, below a reserved root scope. *)
Definition tm_request_one (tmfid : bytes) (s : Store) (it : InformationItem)
    (publisher : positive) (subscribers : gset positive) (type : Z) : list bytes :=
  let ids := str_order (dom (it_ids it)) in
  [[PUBLISH_DATA]; [3%Z]; nodeTMScopeUC gc; [IMPLICIT_RENDEZVOUS]; tmfid; [type]; [it_strategy it];
   [1%Z]] ++ labels s [publisher] ++
  [count_byte (size subscribers)] ++ labels s (ptr_order subscribers) ++
  [count_byte (length ids)] ++ id_fields ids.

Lemma length_tm_request_one tmfid s it p subs type : gc_wf gc → length tmfid = FID_LEN →
  labelled s → (∀ h, h ∈ {[p]} ∪ subs → host_alive s h) →
  length (concat (tm_request_one tmfid s it p subs type)) =
    1 + 1 + 3 * PURSUIT_ID_LEN + 1 + FID_LEN + 1 + 1 + 1 + NODEID_LEN
    + 1 + size subs * NODEID_LEN + 1 + size (it_ids it) * 1
    + sum_list (length <$> str_order (dom (it_ids it))).
Proof.
  intros Hgc Ht Hlab Hal. unfold tm_request_one. rewrite !concat_app, !length_app.
  rewrite !length_labels, length_id_fields, !length_ptr_order, length_str_order, size_dom;
    try (intros h Hh%elem_of_ptr_order; apply Hal; set_solver); try (intros h rh _; apply Hlab);
    try (intros h ->%list_elem_of_singleton; apply Hal; set_solver).
  cbn [concat app length]. rewrite length_app. cbn [length app]. rewrite length_app.
  rewrite (gc_tmscopeuc _ Hgc), Ht. cbn. lia.
Qed.

Lemma tm_request_one_run tmfid (it : InformationItem) (p : positive) (subs : gset positive) (upd : bool)
    (s : rv) : gc_wf gc → (∀ s : rv, fid_data (TMFID gc) s = Ok (tmfid, s)) → length tmfid = FID_LEN →
  labelled (st s) → (∀ h, h ∈ {[p]} ∪ subs → host_alive (st s) h) →
  requestTMAssistanceForRendezvous_one gc it p subs upd s =
    if decide (sum_list (length <$> str_order (dom (it_ids it))) < 256)
    then Ok (tt, mkRv (st s) (out s ++
           [Send (Some <$> concat (tm_request_one tmfid (st s) it p subs (match_type upd)))]))
    else Fault BufferOverflow.
Proof.
  intros Hgc Hrun Hlen Hlab Hal.
  pose proof (length_tm_request_one tmfid (st s) it p subs (match_type upd) Hgc Hlen Hlab Hal) as Hreq.
  destruct (Hal p) as [rh Hrh]; [set_solver|].
  unfold requestTMAssistanceForRendezvous_one, mbind, M_bind, get_host, get_st, live, mbind, M_bind, get, mret, M_ret.
  rewrite Hrun. cbn beta iota. rewrite Hrh. cbn beta iota.
  rewrite host_ids_run by (intros h Hh%elem_of_ptr_order; apply Hal; set_solver).
  assert (length (str_order (dom (it_ids it))) = size (it_ids it)) as Hsz
    by (by rewrite length_str_order, size_dom).
  unfold tm_request_one in *. cbn [labels fmap list_fmap] in *. rewrite Hrh in *. cbn [fmap option_fmap option_map default] in *.
  rewrite Hsz in *. case_decide as Hsum.
  - rewrite IDs_total_small by done. apply send_exact. symmetry. exact Hreq.
  - apply send_overflow. eapply Nat.lt_le_trans; [|apply Nat.eq_le_incl; symmetry; exact Hreq].
    pose proof (IDs_total_large (str_order (dom (it_ids it)))). lia.
Qed.

(** The request to the topology manager after a match: with identifiers
    of less than 256 bytes in all, one packet goes to the LocalProxy, which
    carries the type, the strategy, the labels of all publishers and of all
    subscribers and all identifiers of the item, and every byte of it is
    initialised.  With more, IDs_total_bytes (an unsigned char) wraps, the
    packet is too short and its fields are written past its end. *)
Theorem tm_request_packet (it : InformationItem) (pubs subs : gset positive) (upd : bool)
    (s : rv) :
  gc_wf gc → bv_size (TMFID gc) = fid_bits → labelled (st s) →
  (∀ h, h ∈ pubs ∪ subs → host_alive (st s) h) →
  ∃ tmfid, length tmfid = FID_LEN ∧
  requestTMAssistanceForRendezvous gc it pubs subs upd s =
    if decide (sum_list (length <$> str_order (dom (it_ids it))) < 256)
    then Ok (tt, mkRv (st s) (out s ++
           [Send (Some <$> concat (tm_request tmfid (st s) it pubs subs (match_type upd)))]))
    else Fault BufferOverflow.
Proof.
  intros Hgc Htm Hlab Hal. destruct (fid_data_run (TMFID gc)) as (tmfid & Hlen & Hrun);
    [apply (gc_tm_wf _ Hgc)|done|].
  exists tmfid. split; [done|]. by apply tm_request_run.
Qed.
End requests.

(** ** Matches *)
Section matches.
Context `{HO : HashOrder} (gc : GlobalConf).

(** [h] wants the item: it subscribes to the item or to a father scope. *)
Definition wants (s : Store) (i h : positive) : Prop :=
  (∃ x, rel s Sub (NI i) x h) ∨ (∃ f x, father s (NI i) f ∧ rel s Sub (NS f) x h).

Lemma fathers_subscribers_run fs acc s : (∀ f, f ∈ fs → alive (st s) (NS f)) →
  ∃ X, fathers_subscribers fs acc s = Ok (X, s) ∧
    ∀ h, h ∈ X ↔ h ∈ acc ∨ ∃ f x, f ∈ fs ∧ rel (st s) Sub (NS f) x h.
Proof.
  revert acc. induction fs as [|f fs IH]; intros acc Hal.
  { exists acc. split; [done|]. set_solver. }
  destruct (proj1 (alive_scope _ _) (Hal f ltac:(left))) as [fa Hfa].
  destruct (IH (acc ∪ Scope_getSubscribers fa)) as (X & Hrun & HX).
  { intros g Hg. apply Hal. by right. }
  exists X. split.
  - cbn. unfold get_scope, get_st, live, mbind, M_bind, get, mret, M_ret. cbn. by rewrite Hfa.
  - intros h. rewrite HX, elem_of_union, (scope_getSubscribers_rel (st s) f fa) by done.
    setoid_rewrite elem_of_cons. naive_solver.
Qed.

Lemma item_subscribers_run i s : inv (st s) → alive (st s) (NI i) →
  ∃ X, item_subscribers i s = Ok (X, s) ∧ ∀ h, h ∈ X ↔ wants (st s) i h.
Proof.
  intros [[sf Hwf] _] [it Hit]%alive_item.
  destruct (fathers_subscribers_run (ptr_order (it_fathers it))
    (InformationItem_getSubscribers it) s) as (X & Hrun & HX).
  { intros f Hf%elem_of_ptr_order. apply (wf_father _ _ _ _ Hwf (NI i)).
    exists (it_fathers it). simpl. by rewrite Hit. }
  exists X. split.
  - unfold item_subscribers, get_item, get_st, live, mbind, M_bind, get, mret, M_ret. cbn.
    by rewrite Hit.
  - intros h. rewrite HX, (item_getSubscribers_rel (st s) i it) by done. unfold wants, father.
    simpl. rewrite Hit. setoid_rewrite elem_of_ptr_order. cbn. naive_solver.
Qed.

(** The root scope that decides which request is made: the first one. *)
Lemma first_root_run i it s : inv (st s) → items (st s) !! i = Some it →
  ∃ r, head (str_order (getRootScopes it)) = Some r ∧
    first_root_known (getRootScopes it) s = Ok (bool_decide (r ∈ known_rootscopes (st s)), s).
Proof.
  intros Hinv Hit. pose proof (getRootScopes_ne _ _ _ Hinv Hit) as Hne.
  unfold first_root_known, begin_of. destruct (str_order (getRootScopes it)) as [|r l] eqn:E; [|by exists r].
  exfalso. apply Hne. apply elem_of_equiv_empty_L. intros x Hx.
  rewrite <-elem_of_str_order, E in Hx. by apply elem_of_nil in Hx.
Qed.

Lemma wants_alive s i h : inv s → wants s i h → host_alive s h.
Proof. intros [_ Hok] [(x & Hr)|(f & x & _ & Hr)]; by eapply rel_host_alive. Qed.

(** Requests for one publisher after the other. *)
Lemma requests_run tmfid it subs upd : gc_wf gc →
  (∀ s : rv, fid_data (TMFID gc) s = Ok (tmfid, s)) → length tmfid = FID_LEN → ∀ hs s,
  labelled (st s) → (∀ h p, p ∈ hs → h ∈ {[p]} ∪ subs → host_alive (st s) h) →
  sum_list (length <$> str_order (dom (it_ids it))) < 256 →
  for_each hs (λ h, requestTMAssistanceForRendezvous_one gc it h subs upd) s =
    Ok (tt, mkRv (st s) (out s ++
      ((λ h, Send (Some <$> concat (tm_request_one gc tmfid (st s) it h subs (match_type upd)))) <$> hs))).
Proof.
  intros Hgc Hrun Hlen. induction hs as [|h hs IH]; intros s Hlab Hal Hsum; cbn [for_each fmap list_fmap].
  { rewrite app_nil_r. by destruct s. }
  pose proof (tm_request_one_run gc tmfid it h subs upd s Hgc Hrun Hlen Hlab) as Hone.
  rewrite decide_True in Hone by done. rewrite (run_bind _ _ _ _ _ (Hone ltac:(intros g; apply Hal; left))).
  rewrite IH; [cbn [st out]; by rewrite <-app_assoc|done| |done].
  intros g p Hp. apply Hal. by right.
Qed.

(** C19. A rendezvous matches exactly the right hosts.  Take an item of
    strategy DOMAIN_LOCAL in a consistent graph; the publishers are the hosts
    that publish it and the subscribers those that subscribe to the item or
    to one of its scopes, under whichever identifier they do.  Without
    publishers nothing happens.  If its identifiers make 256 bytes or more,
    the request is written past the end of its packet.  Otherwise the graph
    stays as it is and, if the first of its root scopes is not a reserved one
    (IP or HTTP), one request goes to the topology manager, which names all
    publishers and all subscribers; below a reserved root there is one such
    request for each publisher. *)
Theorem rendezvous_match (i : positive) (it : InformationItem) (upd : bool) (s : rv) :
  inv (st s) → items (st s) !! i = Some it → it_strategy it = DOMAIN_LOCAL →
  gc_wf gc → bv_size (TMFID gc) = fid_bits → labelled (st s) →
  ∃ tmfid pubs subs root, length tmfid = FID_LEN ∧
    (∀ h, h ∈ pubs ↔ ∃ x, rel (st s) Pub (NI i) x h) ∧
    (∀ h, h ∈ subs ↔ wants (st s) i h) ∧
    head (str_order (getRootScopes it)) = Some root ∧
    rendezvous_again gc i upd s =
      if decide (pubs = ∅) then Ok (tt, s)
      else if decide (sum_list (length <$> str_order (dom (it_ids it))) < 256) then
        Ok (tt, mkRv (st s) (out s ++
          if decide (root ∈ known_rootscopes (st s))
          then (λ h, Send (Some <$> concat (tm_request_one gc tmfid (st s) it h subs (match_type upd))))
                 <$> ptr_order pubs
          else [Send (Some <$> concat (tm_request gc tmfid (st s) it pubs subs (match_type upd)))]))
      else Fault BufferOverflow.
Proof.
  intros Hinv Hit Hstr Hgc Htm Hlab.
  destruct (item_subscribers_run i s Hinv) as (subs & Hrun & Hsubs); [apply alive_item; eauto|].
  assert (∀ h, h ∈ getPublishers it ↔ ∃ x, rel (st s) Pub (NI i) x h) as Hpubs
    by (intros h; by apply getPublishers_rel).
  destruct (fid_data_run (TMFID gc)) as (tmfid & Hlen & Hfid); [apply (gc_tm_wf _ Hgc)|done|].
  destruct (first_root_run i it s Hinv Hit) as (root & Hroot & Hknown).
  assert (∀ h, h ∈ getPublishers it ∪ subs → host_alive (st s) h) as Hal.
  { intros h [[y Hy]%Hpubs|Hh%Hsubs]%elem_of_union.
    - eapply rel_host_alive; [apply Hinv|done].
    - by eapply wants_alive. }
  exists tmfid, (getPublishers it), subs, root. split_and!; try done.
  unfold rendezvous_again. rewrite (run_bind _ _ _ _ _ Hrun). unfold rendezvous.
  rewrite (run_bind _ _ _ _ _ (get_item_run _ _ _ Hit)).
  destruct (decide (getPublishers it = ∅)) as [He|Hne].
  { rewrite He, size_empty. by rewrite decide_False by lia. }
  assert (size (getPublishers it) ≠ 0) by (intros ?%size_empty_inv; set_solver).
  rewrite decide_True, Hstr by lia.
  change (DOMAIN_LOCAL =? NODE_LOCAL)%Z with false. change (DOMAIN_LOCAL =? DOMAIN_LOCAL)%Z with true.
  cbn iota. rewrite (run_bind _ _ _ _ _ Hknown).
  destruct (decide (root ∈ known_rootscopes (st s))) as [Hk|Hk].
  - rewrite bool_decide_true by done.
    assert (∀ h p, p ∈ ptr_order (getPublishers it) → h ∈ {[p]} ∪ subs → host_alive (st s) h) as Hal'.
    { intros h p Hp%elem_of_ptr_order Hh. apply Hal. set_solver. }
    destruct (decide (sum_list (length <$> str_order (dom (it_ids it))) < 256)) as [Hsum|Hsum];
      [by apply requests_run|].
    destruct (ptr_order (getPublishers it)) as [|p ps] eqn:E.
    { exfalso. rewrite <-(length_ptr_order (getPublishers it)), E in *. done. }
    cbn [for_each]. unfold mbind, M_bind.
    rewrite (tm_request_one_run gc tmfid) by (done || (intros h; apply Hal'; left)).
    by rewrite decide_False.
  - rewrite bool_decide_false by done. by apply tm_request_run.
Qed.
End matches.

(** ** Witnesses *)
Section sample.
#[local] Instance sample_order : HashOrder := canonical_order true.

(** The item /65/66/67 of the sample. *)
Definition sample_item : InformationItem :=
  default (mkItem ∅ ∅ 0%Z) (items (st sample_state) !! 1%positive).

Lemma sample_gc_wf : gc_wf sample_gc ∧ bv_size (TMFID sample_gc) = fid_bits.
Proof.
  split; [|vm_compute; reflexivity].
  constructor; try (vm_compute; reflexivity); try (apply bv_wfb_sound; vm_compute; reflexivity).
  right. vm_compute. reflexivity.
Qed.

Lemma sample_labelled : labelled (st sample_state).
Proof.
  assert (map_Forall (λ _ rh, length (remoteHostID rh) = NODEID_LEN) (hosts (st sample_state)))
    as H by (apply (bool_decide_unpack _); vm_compute; exact I).
  intros h rh. apply H.
Qed.

Lemma sample_hosts (h : positive) : h ∈ ({[1]} ∪ {[2]} : gset positive)%positive →
  host_alive (st sample_state) h.
Proof.
  assert (set_Forall (host_alive (st sample_state)) ({[1]} ∪ {[2]} : gset positive)%positive) as H.
  { unfold host_alive. apply (bool_decide_unpack _). vm_compute. exact I. }
  apply H.
Qed.

Lemma tm_request_packet_witness : ∃ tmfid, length tmfid = FID_LEN ∧
  requestTMAssistanceForRendezvous sample_gc sample_item {[1%positive]} {[2%positive]} false
    sample_state =
  Ok (tt, mkRv (st sample_state) (out sample_state ++
    [Send (Some <$> concat (tm_request sample_gc tmfid (st sample_state) sample_item
       {[1%positive]} {[2%positive]} MATCH_PUB_SUBS))])).
Proof.
  destruct (tm_request_packet sample_gc sample_item {[1%positive]} {[2%positive]} false
    sample_state) as (tmfid & Hlen & Hrun).
  - apply sample_gc_wf.
  - apply sample_gc_wf.
  - apply sample_labelled.
  - apply sample_hosts.
  - exists tmfid. split; [exact Hlen|]. rewrite Hrun. rewrite decide_True; [reflexivity|].
    vm_compute. lia.
Defined.

Lemma rendezvous_match_witness : ∃ tmfid pubs subs root, length tmfid = FID_LEN ∧
    (∀ h, h ∈ pubs ↔ ∃ x, rel (st sample_state) Pub (NI 1) x h) ∧
    (∀ h, h ∈ subs ↔ wants (st sample_state) 1 h) ∧
    head (str_order (getRootScopes sample_item)) = Some root ∧
    rendezvous_again sample_gc 1 false sample_state =
      if decide (pubs = ∅) then Ok (tt, sample_state)
      else if decide (sum_list (length <$> str_order (dom (it_ids sample_item))) < 256) then
        Ok (tt, mkRv (st sample_state) (out sample_state ++
          if decide (root ∈ known_rootscopes (st sample_state))
          then (λ h, Send (Some <$> concat (tm_request_one sample_gc tmfid (st sample_state) sample_item h subs
                  MATCH_PUB_SUBS))) <$> ptr_order pubs
          else [Send (Some <$> concat (tm_request sample_gc tmfid (st sample_state) sample_item pubs subs
                  MATCH_PUB_SUBS))]))
      else Fault BufferOverflow.
Proof.
  apply (rendezvous_match sample_gc 1 sample_item false sample_state).
  - apply sample_inv.
  - vm_compute. reflexivity.
  - vm_compute. reflexivity.
  - apply sample_gc_wf.
  - apply sample_gc_wf.
  - apply sample_labelled.
Defined.
End sample.
