(* ===== verification/RVLimits.v ===== *)
(** * What the rendezvous element does not survive

    The hypotheses of the safety theorems of [RVProps] are needed: the
    requests here make LocalRV recurse forever, follow a NULL or a dangling
    pointer, or advance an erased iterator. *)
From stdpp Require Import base list gmap sets.
From Stdlib Require Import ZArith Lia.
From S2P Require Import Prelude Enums Bitvector GlobalConf InfoGraph GraphInv LocalRV RVInv RVGraft RVLedger RVCollect RVSafety RVRequests RVProps RVRendezvous.

Lemma get_scope_run p sc s : scopes (st s) !! p = Some sc → get_scope p s = Ok (sc, s).
Proof.
  intros H. unfold get_scope, get_st, live, mbind, M_bind, get, mret, M_ret. cbn. by rewrite H.
Qed.
Lemma mod_scope_run p sc g s : scopes (st s) !! p = Some sc →
  mod_scope p g s = Ok (tt, mkRv (set_scopes (insert p (g sc)) (st s)) (out s)).
Proof. intros H. unfold mod_scope. by rewrite (run_bind _ _ _ _ _ (get_scope_run _ _ _ H)). Qed.

Lemma fault_bind {S A B : Type} (m : M S A) (k : A → M S B) s e :
  m s = Fault e → (m ≫= k) s = Fault e.
Proof. unfold mbind, M_bind. by intros ->. Qed.

Section limits.
Context `{HO : HashOrder} (gc : GlobalConf).

Definition endless (e : fault) : Prop := e = StackOverflow ∨ e = IterInvalidated.

(** The store in which [e] became a child of [f]. *)
Definition relinked (s : Store) (e f : positive) : Store :=
  set_scopes (alter (with_children (λ X, {[e]} ∪ X)) f)
    (set_scopes (alter (with_fathers (λ X, {[f]} ∪ X)) e) s).

Lemma alter_some {A} (g : A → A) (m : gmap positive A) k x : m !! k = Some x →
  alter g k m = <[k := g x]> m.
Proof.
  intros Hx. apply map_eq. intros j. rewrite lookup_alter, lookup_insert.
  case_decide; [subst; by rewrite Hx|done].
Qed.

Lemma relinked_eq s e f sc fa : scopes s !! e = Some sc →
  <[e := with_fathers (λ X, {[f]} ∪ X) sc]> (scopes s) !! f = Some fa →
  relinked s e f = linked_scope s e f (with_fathers (λ X, {[f]} ∪ X) sc) fa.
Proof.
  intros Hsc Hfa. unfold relinked, linked_scope, set_scopes. simpl.
  by rewrite (alter_some _ _ _ _ Hsc), (alter_some _ _ _ _ Hfa).
Qed.

Lemma reach_attached n f s s' p q : attached n f s s' → reach s p q → reach s' p q.
Proof.
  intros Hat. apply rtc_subrel. intros x y Hxy. apply (at_father _ _ _ _ Hat). by left.
Qed.

Lemma reach_frame s s' p q : frame s s' → reach s p q → reach s' p q.
Proof.
  intros Hfr. apply rtc_subrel. intros x y Hxy. exact (proj2 (frame_father _ _ _ _ Hfr) Hxy).
Qed.

(** Whatever the depth of the stack, recursivelyUpdateIDs does not return
    once the scope is below itself. *)
Lemma cycle_endless k s sf e f ID prefixID sc fa : inv (st s) → wf_clean sf (st s) →
  PURSUIT_ID_LEN < length ID → has (st s) (NS e) ID → scopeIndex (st s) !! prefixID = Some f →
  scopeIndex (st s) !! (prefixID ++ suffix ID) = None →
  pubIndex (st s) !! (prefixID ++ suffix ID) = None → reach (st s) e f →
  scopes (st s) !! e = Some sc →
  <[e := with_fathers (λ X, {[f]} ∪ X) sc]> (scopes (st s)) !! f = Some fa →
  ∃ err, endless err ∧
    recursivelyUpdateIDs k e (suffix ID) (mkRv (relinked (st s) e f) (out s)) = Fault err.
Proof.
  intros [_ Hok] Hwf Hlen Hid Hf Hns Hni Hreach Hsc Hfa.
  pose proof (attached_scope _ _ _ _ _ Hsc Hfa) as Hat.
  rewrite (relinked_eq _ _ _ _ _ Hsc Hfa).
  pose proof (wf_suffix _ _ _ _ Hwf _ _ Hid) as Hsfx.
  assert (has (st s) (NS f) prefixID) as Hpre by by apply (wf_idx _ _ _ _ Hwf (NS f)).
  assert (wp endless (recursivelyUpdateIDs k e (sf (NS e))) (λ _ _, False)
    (mkRv (linked_scope (st s) e f (with_fathers (λ X, {[f]} ∪ X) sc) fa) (out s))) as Hwp.
  { eapply wp_mono; [eapply (graft_scope_fuel endless k sf s _ e f None)|]; try done.
    - by eapply has_alive.
    - intros Hr. apply (wf_root_ids _ _ _ _ Hwf _ _ Hr) in Hid as Heq.
      apply (f_equal length) in Heq. rewrite (wf_len _ _ _ _ Hwf) in Heq by by eapply has_alive.
      lia.
    - apply (wf_len _ _ _ _ Hwf). by eapply has_alive.
    - rewrite <-Hsfx. by eapply fresh_fragment.
    - right. split; [done|by eapply has_alive].
    - left. split; [by left|by right].
    - intros [] s2 (_ & _ & Hg & Hwf2 & _). eapply (wf_acyclic _ _ e f Hwf2).
      + eapply reach_frame; [apply Hg|]. by eapply reach_attached.
      + apply (frame_father _ _ _ _ (gr_frame _ _ Hg)), (at_father _ _ _ _ Hat). by right. }
  rewrite <-Hsfx in Hwp. unfold wp in Hwp.
  destruct (recursivelyUpdateIDs k e (suffix ID) _) as [[]|err]; [done|]. by exists err.
Qed.

(** Publishing a scope below itself or below one of its descendants
    never returns: however deep the stack is, recursivelyUpdateIDs exhausts
    it (or walks over a table that it is inserting into, when the scope is
    its own father). *)
Theorem republish_cycle (h e f : positive) (ID prefixID : bytes) (strategy : Z) (fa : Scope)
    (s : rv) :
  inv (st s) → PURSUIT_ID_LEN < length ID →
  scopeIndex (st s) !! ID = Some e → scopeIndex (st s) !! prefixID = Some f →
  scopeIndex (st s) !! (prefixID ++ suffix ID) = None →
  pubIndex (st s) !! (prefixID ++ suffix ID) = None →
  scopes (st s) !! f = Some fa → sc_strategy fa = strategy → reach (st s) e f →
  (∃ err, endless err ∧ publish_scope gc h ID prefixID strategy s = Fault err) ∧
  ∀ k, ∃ err, endless err ∧
    recursivelyUpdateIDs k e (suffix ID) (mkRv (relinked (st s) e f) (out s)) = Fault err.
Proof.
  intros Hinv Hlen He Hf Hns Hni Hfa Hstr Hreach. pose proof Hinv as [[sf Hwf] Hok].
  assert (has (st s) (NS e) ID) as Hid by by apply (wf_idx _ _ _ _ Hwf (NS e)).
  assert (has (st s) (NS f) prefixID) as Hpre by by apply (wf_idx _ _ _ _ Hwf (NS f)).
  destruct (proj1 (alive_scope _ _) (has_alive _ _ _ Hid)) as [sc Hsc].
  assert (∃ fa1, <[e := with_fathers (λ X, {[f]} ∪ X) sc]> (scopes (st s)) !! f = Some fa1)
    as [fa1 Hfa1] by (rewrite lookup_insert; case_decide; eauto).
  pose proof (λ k, cycle_endless k s sf e f ID prefixID sc fa1 Hinv Hwf Hlen Hid Hf Hns Hni
    Hreach Hsc Hfa1) as Hk.
  split; [|done].
  { destruct (Hk (depth (relinked (st s) e f))) as (err & Herr & Hrun).
    exists err. split; [done|].
    pose proof (wf_long _ _ _ _ Hwf _ _ Hpre) as Hpl. unfold PURSUIT_ID_LEN in Hpl, Hlen.
    unfold publish_scope. rewrite !decide_False by (unfold PURSUIT_ID_LEN; lia).
    rewrite decide_True by (unfold PURSUIT_ID_LEN; lia). unfold republish_inner_scope.
    rewrite (run_bind get_st _ s (st s) s eq_refl). rewrite Hni, Hf, He, Hns.
    rewrite (run_bind _ _ _ _ _ (get_scope_run _ _ _ Hfa)), Hstr, Z.eqb_refl.
    rewrite (run_bind _ _ _ _ _ (mod_scope_run _ _ _ _ Hsc)).
    rewrite (run_bind _ _ _ _ _ (mod_scope_run f fa1 _ (mkRv (set_scopes
      (insert e (with_fathers (λ X, {[f]} ∪ X) sc)) (st s)) (out s)) Hfa1)).
    apply fault_bind. unfold update_graph. rewrite (run_bind get_st _ _ _ _ eq_refl).
    by rewrite (relinked_eq _ _ _ _ _ Hsc Hfa1) in Hrun. }
Qed.

(** unpublish_info and unsubscribe_info do not check that the prefix of
    an item that they found is a scope: a request that carries the whole
    identifier of an existing item and no prefix makes them read the
    strategy of a NULL scope. *)
Theorem whole_id_null_deref (h i : positive) (ID : bytes) (strategy : Z) (upd : bool) (s : rv) :
  inv (st s) → pubIndex (st s) !! ID = Some i →
  unpublish_info gc h ID [] strategy upd s = Fault NullDeref ∧
  unsubscribe_info gc h ID [] strategy upd s = Fault NullDeref.
Proof.
  intros [[sf Hwf] _] Hi. assert (scopeIndex (st s) !! [] = None) as Hno.
  { destruct (scopeIndex (st s) !! []) as [p|] eqn:Hp; [|done].
    apply (wf_idx _ _ _ _ Hwf (NS p)), (wf_long _ _ _ _ Hwf) in Hp.
    unfold PURSUIT_ID_LEN in Hp. simpl in Hp. lia. }
  unfold unpublish_info, unsubscribe_info.
  rewrite !(run_bind get_st _ s (st s) s eq_refl). cbn [app]. rewrite Hi, Hno.
  split; by apply fault_bind.
Qed.
End limits.

(** ** On the sample graph *)
Section sample.
#[local] Instance limits_order : HashOrder := canonical_order true.

Lemma republish_cycle_witness :
  let id := frag 65 ++ frag 66 in
  (∃ err, endless err ∧ publish_scope sample_gc 1 id id DOMAIN_LOCAL sample_state = Fault err) ∧
  ∀ k, ∃ err, endless err ∧
    recursivelyUpdateIDs k 2 (suffix id)
      (mkRv (relinked (st sample_state) 2 2) (out sample_state)) = Fault err.
Proof.
  apply (republish_cycle sample_gc 1 2 2 _ _ _
    (default (mkScope ∅ false ∅ ∅ ∅ 0%Z) (scopes (st sample_state) !! 2%positive))).
  - apply sample_inv.
  - apply Nat.ltb_lt. vm_compute. reflexivity.
  - vm_compute. reflexivity.
  - vm_compute. reflexivity.
  - vm_compute. reflexivity.
  - vm_compute. reflexivity.
  - vm_compute. reflexivity.
  - vm_compute. reflexivity.
  - apply rtc_refl.
Defined.

Lemma whole_id_null_deref_witness :
  let id := frag 65 ++ frag 66 ++ frag 67 in
  unpublish_info sample_gc 1 id [] DOMAIN_LOCAL false sample_state = Fault NullDeref ∧
  unsubscribe_info sample_gc 1 id [] DOMAIN_LOCAL true sample_state = Fault NullDeref.
Proof.
  intros id. assert (pubIndex (st sample_state) !! id = Some 1%positive) as Hi
    by (vm_compute; reflexivity).
  split.
  - exact (proj1 (whole_id_null_deref sample_gc 1 1 id DOMAIN_LOCAL false sample_state sample_inv Hi)).
  - exact (proj2 (whole_id_null_deref sample_gc 1 1 id DOMAIN_LOCAL true sample_state sample_inv Hi)).
Defined.

(** unpublish_scope takes an inner scope for a root scope when the
    request carries its whole identifier and no prefix: the scope is freed,
    its father keeps the pointer, and the next subscriber of the father
    makes the element follow it. *)
Theorem whole_id_dangling :
  serve sample_gc
    [request_packet sample_node PUBLISH_SCOPE (frag 65) [] DOMAIN_LOCAL;
     request_packet sample_node PUBLISH_SCOPE (frag 66) (frag 65) DOMAIN_LOCAL;
     request_packet sample_node UNPUBLISH_SCOPE (frag 65 ++ frag 66) [] DOMAIN_LOCAL;
     request_packet sample_node2 SUBSCRIBE_SCOPE (frag 65) [] DOMAIN_LOCAL]
    (mkRv empty_store []) = Fault Dangling.
Proof. vm_compute. reflexivity. Qed.

(** The loop of unpublish_scope over the items of the scope erases the
    item that its iterator stands on: when the publisher of a scope is the
    only publisher of an item in it and nobody subscribes, unpublishing the
    scope advances an erased iterator, and comes out right only if the
    allocator leaves the link of the freed element readable. *)
Theorem unpublish_scope_erases_under_iterator (keeps : bool) :
  let result := serve (HO := canonical_order keeps) sample_gc
    (take 3 sample_packets ++
     [request_packet sample_node UNPUBLISH_SCOPE (frag 66) (frag 65) DOMAIN_LOCAL])
    (mkRv empty_store []) in
  if keeps
  then ∃ s, result = Ok (tt, s) ∧ pubIndex (st s) = ∅ ∧ dom (scopeIndex (st s)) = {[frag 65]}
  else result = Fault IterInvalidated.
Proof.
  destruct keeps.
  - eexists. split; [vm_compute; reflexivity|]. split; vm_compute; reflexivity.
  - vm_compute. reflexivity.
Qed.
End sample.
