(* ===== verification/RVPaths.v ===== *)
(** * Identifiers are paths

    In a consistent store the identifiers of a scope or an item are exactly
    the paths from a root scope to it, and the index finds the node of each
    path.  The graph has no cycles, so that the recursion over it ends, and
    everything in it can be freed through the index. *)
From stdpp Require Import base list gmap sets.
From Stdlib Require Import ZArith Lia.
From S2P Require Import Prelude Enums Bitvector GlobalConf InfoGraph GraphInv LocalRV RVInv RVGraft RVLedger RVCollect RVSafety RVRequests RVProps RVRendezvous RVLimits.

(** The last fragment of the identifiers of a node. *)
Definition fragment (s : Store) (n : node) (e : bytes) : Prop := ∃ id, has s n id ∧ suffix id = e.

Inductive path (s : Store) : node → bytes → Prop :=
| path_root p id : root s (NS p) → has s (NS p) id → path s (NS p) id
| path_step n f fid e : father s n f → path s (NS f) fid → fragment s n e → path s n (fid ++ e).

(** The index tables of [s] hold the paths, and nothing else: an identifier
    is in them for a scope or an item if and only if it is the path of
    fragments from a root scope to that node, through whichever fathers; each
    identifier belongs to one node, and every node has one. *)
Definition indexed_by_paths (s : Store) : Prop :=
  ∀ n id, (idx s n id ↔ path s n id) ∧ (∀ m, path s n id → path s m id → m = n) ∧
    (alive s n → ∃ x, path s n x).

Lemma inv_paths (s : Store) : inv s → indexed_by_paths s.
Proof.
  intros Hinv n id. revert Hinv.
  intros [[sf Hwf] _].
  assert (∀ m x, has s m x → path s m x) as Hto.
  { intros m x. remember (length x) as l eqn:Hl. revert m x Hl.
    induction l as [l IH] using lt_wf_ind. intros m x -> Hx.
    destruct (wf_sound _ _ _ _ Hwf _ _ Hx) as [Hr|(f & fid & Hf & Hfid & ->)].
    - destruct m; [by apply path_root|done].
    - eapply path_step; [done| |].
      + apply (IH (length fid)); [|done|done]. rewrite length_app, (wf_len _ _ _ _ Hwf);
          [unfold PURSUIT_ID_LEN; lia|by eapply father_alive].
      + eexists. split; [done|]. by apply (wf_suffix _ _ _ _ Hwf). }
  assert (∀ m x, path s m x → has s m x) as Hfrom.
  { intros m x. induction 1 as [|m f fid e Hf _ IH (y & Hy & <-)]; [done|].
    rewrite (wf_suffix _ _ _ _ Hwf _ _ Hy). by eapply clean_complete. }
  split_and!.
  - rewrite <-(wf_idx _ _ _ _ Hwf). split; [apply Hto|apply Hfrom].
  - intros m H1%Hfrom H2%Hfrom. by eapply (wf_disj _ _ _ _ Hwf).
  - intros Hn. destruct (wf_ne _ _ _ _ Hwf n Hn) as [x Hx]; [done|]. eauto.
Qed.

(** C22. Whatever packets a LocalRV element gets after its initialisation,
    whose unpublications and unsubscriptions name one fragment, it either ends
    in one of the faults of C2 or its index tables are exact: they map an
    identifier to a scope or an item if and only if it is the path of
    fragments from a root scope to that node, through whichever fathers, each
    identifier belongs to one node, and every node has one. *)
Theorem index_is_paths `{HO : HashOrder} (gc : GlobalConf) (ps : list bytes) :
  forallb well_sized ps = true →
  wp rv_fault (serve gc ps) (λ _ s, indexed_by_paths (st s)) (mkRv empty_store []).
Proof.
  intros Hps. eapply wp_mono; [by apply serve_spec|]. intros [] s Hinv. by apply inv_paths.
Qed.

(** ** The recursion over the graph *)
Section recursion.
Context `{HO : HashOrder}.

(** The recursion below a scope that was linked to a father that is not
    below it. *)
Lemma relinked_run sf s e f ID prefixID sc fa : inv (st s) → wf_clean sf (st s) →
  PURSUIT_ID_LEN < length ID → has (st s) (NS e) ID → has (st s) (NS f) prefixID →
  scopeIndex (st s) !! (prefixID ++ suffix ID) = None →
  pubIndex (st s) !! (prefixID ++ suffix ID) = None → ¬ reach (st s) e f →
  scopes (st s) !! e = Some sc →
  <[e := with_fathers (λ X, {[f]} ∪ X) sc]> (scopes (st s)) !! f = Some fa →
  wp no_fault (recursivelyUpdateIDs (S (size (scopes (st s)))) e (suffix ID))
    (λ _ s', inv (st s') ∧ out s' = out s ∧ has (st s') (NS e) (prefixID ++ suffix ID) ∧
       ∀ n g, father (st s') n g ↔ father (st s) n g ∨ n = NS e ∧ g = f)
    (mkRv (linked_scope (st s) e f (with_fathers (λ X, {[f]} ∪ X) sc) fa) (out s)).
Proof.
  intros [_ Hok] Hwf Hlen Hid Hpre Hns Hni Hno Hsc Hfa.
  pose proof (wf_suffix _ _ _ _ Hwf _ _ Hid) as Hsfx.
  pose proof (attached_scope _ _ _ _ _ Hsc Hfa) as Hat. rewrite Hsfx.
  eapply wp_mono; [eapply (graft_scope_fuel no_fault _ sf s _ e f None)|]; try done.
  - by eapply has_alive.
  - intros Hr. apply (wf_root_ids _ _ _ _ Hwf _ _ Hr) in Hid as Heq.
    apply (f_equal length) in Heq. rewrite (wf_len _ _ _ _ Hwf) in Heq by by eapply has_alive. lia.
  - apply (wf_len _ _ _ _ Hwf). by eapply has_alive.
  - rewrite <-Hsfx. by eapply fresh_fragment; [..|apply (wf_idx _ _ _ _ Hwf (NS f))| |].
  - right. split; [done|by eapply has_alive].
  - right. eapply deep_attached; [done| |done]. by eapply deep_clean, has_alive.
  - intros [] s2 (Hinv2 & Hout2 & Hg2 & _ & Hhas2). split_and!; [done|done|by apply Hhas2|].
    intros n g. rewrite <-(at_father _ _ _ _ Hat). apply (frame_father _ _ _ _ (gr_frame _ _ Hg2)).
Qed.

(** C25. Scope::recursivelyUpdateIDs as LocalRV calls it, on a consistent
    graph to which one scope was just linked.  After the creation of a scope
    below [f] it returns.  After an inner scope [e] was linked below another
    scope [f] it returns if [f] is not [e] or below [e], with at most one
    stack frame more than there are scopes, having changed no links, and the
    index tables are the paths of the new graph; otherwise it does not
    return, whatever the depth of the stack. *)
Theorem recursion_bounded (s : rv) (f : positive) (prefixID : bytes) :
  inv (st s) → scopeIndex (st s) !! prefixID = Some f →
  (∀ ID strategy, length ID = PURSUIT_ID_LEN →
     scopeIndex (st s) !! (prefixID ++ ID) = None → pubIndex (st s) !! (prefixID ++ ID) = None →
     wp no_fault (p ← new_scope strategy f; _ ← update_graph p (suffix (prefixID ++ ID)); mret p)
       (λ p s', idx (st s') (NS p) (prefixID ++ ID) ∧ indexed_by_paths (st s')) s) ∧
  (∀ ID e, PURSUIT_ID_LEN < length ID → scopeIndex (st s) !! ID = Some e →
     scopeIndex (st s) !! (prefixID ++ suffix ID) = None →
     pubIndex (st s) !! (prefixID ++ suffix ID) = None →
     let s1 := mkRv (relinked (st s) e f) (out s) in
     (¬ reach (st s) e f →
      wp no_fault (recursivelyUpdateIDs (S (size (scopes (st s)))) e (suffix ID))
        (λ _ s', out s' = out s ∧ idx (st s') (NS e) (prefixID ++ suffix ID) ∧
           indexed_by_paths (st s') ∧
           ∀ n g, father (st s') n g ↔ father (st s) n g ∨ n = NS e ∧ g = f) s1) ∧
     (reach (st s) e f → ∀ k, ∃ err, endless err ∧ recursivelyUpdateIDs k e (suffix ID) s1 = Fault err)).
Proof.
  intros Hinv Hf. split.
  - intros ID strategy Hlen Hns Hni. apply wp_bind.
    eapply wp_mono; [apply (create_scope_spec no_fault f prefixID ID strategy s
      (λ p s', idx (st s') (NS p) (prefixID ++ ID) ∧ indexed_by_paths (st s'))); try done|].
    + intros p s2 Hinv2 Hp _ _ _. split; [|by apply inv_paths].
      destruct Hinv2 as [[sf2 Hwf2] _]. by apply (wf_idx _ _ _ _ Hwf2).
    + intros p s1 H1. apply wp_bind. eapply wp_mono; [apply H1|]. intros [] s2 H2. by apply wp_ret.
  - intros ID e Hlen He Hns Hni s1. pose proof Hinv as [[sf Hwf] Hok].
    assert (has (st s) (NS e) ID) as Hid by by apply (wf_idx _ _ _ _ Hwf (NS e)).
    assert (has (st s) (NS f) prefixID) as Hpre by by apply (wf_idx _ _ _ _ Hwf (NS f)).
    destruct (proj1 (alive_scope _ _) (has_alive _ _ _ Hid)) as [sc Hsc].
    destruct (proj1 (alive_scope _ _) (has_alive _ _ _ Hpre)) as [fa0 Hfa0].
    assert (∃ fa, <[e := with_fathers (λ X, {[f]} ∪ X) sc]> (scopes (st s)) !! f = Some fa)
      as [fa Hfa] by (rewrite lookup_insert; case_decide; eauto).
    split; [|intros Hr k; by eapply cycle_endless].
    intros Hno. unfold s1. rewrite (relinked_eq _ _ _ _ _ Hsc Hfa).
    eapply wp_mono; [by apply (relinked_run sf s e f ID prefixID sc fa)|].
    intros [] s2 (Hinv2 & Hout & Hhas & Hfath). split_and!; [done| |by apply inv_paths|done].
    destruct Hinv2 as [[sf2 Hwf2] _]. by apply (wf_idx _ _ _ _ Hwf2).
Qed.
End recursion.

(** ** Cleaning up *)
Section cleanup.
Context `{HO : HashOrder}.

Lemma NoDup_str_order X : NoDup (str_order X).
Proof. rewrite str_order_perm. apply NoDup_elements. Qed.

(** The hosts that are left are those of the labels that are left. *)
Definition hosts_left (l : list bytes) (s0 s : Store) : Prop :=
  scopes s = scopes s0 ∧ items s = items s0 ∧ scopeIndex s = scopeIndex s0 ∧
  pubIndex s = pubIndex s0 ∧ NoDup l ∧
  (∀ id, is_Some (pub_sub_Index s !! id) ↔ id ∈ l) ∧
  (∀ id h, pub_sub_Index s !! id = Some h ↔
     ∃ rh, hosts s !! h = Some rh ∧ remoteHostID rh = id).

Lemma free_host_spec s0 id l s : hosts_left (id :: l) s0 (st s) →
  wp no_fault (free_host id) (λ _ s', hosts_left l s0 (st s')) s.
Proof.
  intros (Hsc & Hit & Hsi & Hpi & Hnd & Hl & Hho). apply NoDup_cons in Hnd as [Hid Hnd].
  destruct (proj2 (Hl id)) as [h Hh]; [left|]. pose proof (proj1 (Hho id h) Hh) as (rh & Hrh & Hrid).
  unfold free_host. apply wp_bind, wp_get_st. rewrite Hh. apply wp_bind. unfold live. apply wp_ret.
  apply wp_bind. eapply wp_get_host; [done|]. apply wp_bind, wp_mod_st, wp_mod_st. simpl.
  split_and!; try done.
  - intros x. simpl. rewrite lookup_delete. case_decide.
    + subst. split; [by intros []%is_Some_None|done].
    + rewrite Hl, elem_of_cons. naive_solver.
  - intros x g. simpl. rewrite !lookup_delete.
    destruct (decide (id = x)) as [->|Hx], (decide (h = g)) as [->|Hg].
    + naive_solver.
    + split; [done|]. intros (rh' & Hg' & Hx).
      assert (pub_sub_Index (st s) !! x = Some g) by (apply Hho; eauto). congruence.
    + split; [|naive_solver]. intros (rh' & Hg & Hx')%Hho. congruence.
    + apply Hho.
Qed.

(** What a loop over the rest [ids] of an index frees: the pointers there,
    but for those in [freed] already. *)
Definition freed_by (idx : gmap bytes positive) (ids : list bytes) (freed : gset positive)
    (q : positive) : Prop := q ∉ freed ∧ ∃ x, x ∈ ids ∧ idx !! x = Some q.

Lemma free_scopes_run ids : ∀ freed s, NoDup ids →
  (∀ id, id ∈ ids → ∃ p, scopeIndex (st s) !! id = Some p ∧
     (p ∈ freed ∨ is_Some (scopes (st s) !! p))) →
  wp no_fault (free_scopes ids freed) (λ _ s',
    items (st s') = items (st s) ∧ hosts (st s') = hosts (st s) ∧
    pubIndex (st s') = pubIndex (st s) ∧ pub_sub_Index (st s') = pub_sub_Index (st s) ∧
    (∀ id, is_Some (scopeIndex (st s') !! id) → is_Some (scopeIndex (st s) !! id) ∧ id ∉ ids) ∧
    (∀ q, is_Some (scopes (st s') !! q) →
       is_Some (scopes (st s) !! q) ∧ ¬ freed_by (scopeIndex (st s)) ids freed q)) s.
Proof.
  induction ids as [|id ids IH]; intros freed s Hnd Hids; simpl.
  { apply wp_ret. split_and!; try done; [set_solver|]. intros q Hq. split; [done|].
    intros (_ & x & ?%elem_of_nil & _). done. }
  apply NoDup_cons in Hnd as [Hid Hnd]. destruct (Hids id) as (p & Hp & Hal); [left|].
  apply wp_bind, wp_get_st. rewrite Hp. apply wp_bind. unfold live. apply wp_ret, wp_bind.
  set (sc' := if decide (p ∈ freed) then scopes (st s) else delete p (scopes (st s))).
  eapply (wp_mono _ _ (λ _ s1, st s1 = set_scopes (λ _, sc') (st s))).
  { unfold sc'. case_decide as Hf.
    - apply wp_ret. by destruct (st s).
    - destruct Hal as [?|[o Ho]]; [done|]. apply wp_bind. eapply wp_get_scope; [done|].
      by apply wp_mod_st. }
  intros [] s1 Hs1. apply wp_bind, wp_mod_st.
  assert (∀ q, is_Some (sc' !! q) → is_Some (scopes (st s) !! q) ∧ (q = p → p ∈ freed)) as Hsc'.
  { intros q. unfold sc'. case_decide; [done|]. rewrite lookup_delete.
    case_decide; [by intros []%is_Some_None|naive_solver]. }
  eapply wp_mono; [apply IH|].
  - done.
  - intros x Hx. destruct (Hids x) as (q & Hq & Hqal); [by right|]. exists q.
    rewrite Hs1. simpl. rewrite lookup_delete_ne by (by intros ->). split; [done|].
    destruct (decide (q = p)) as [->|Hqp]; [left; set_solver|].
    destruct Hqal as [?|Hq']; [left; set_solver|right]. unfold sc'. case_decide; [done|].
    by rewrite lookup_delete_ne.
  - intros [] s2. rewrite Hs1. simpl. intros (Hit & Hho & Hpi & Hps & Hsi & Hscs).
    split_and!; try done.
    + intros x Hx. destruct (Hsi x Hx) as [Hx' Hxi]. rewrite lookup_delete in Hx'.
      case_decide; [by apply is_Some_None in Hx'|]. set_solver.
    + intros q Hq. destruct (Hscs q Hq) as [[Hq1 Hq2]%Hsc' Hno]. split; [done|].
      intros (Hf & x & Hx & Hxq). apply elem_of_cons in Hx as [->|Hx]; [naive_solver|].
      apply Hno. destruct (decide (q = p)) as [->|]; [naive_solver|].
      split; [set_solver|]. exists x. split; [done|]. rewrite lookup_delete_ne; [done|].
      by intros ->.
Qed.
Lemma free_items_run ids : ∀ freed s, NoDup ids →
  (∀ id, id ∈ ids → ∃ p, pubIndex (st s) !! id = Some p ∧
     (p ∈ freed ∨ is_Some (items (st s) !! p))) →
  wp no_fault (free_items ids freed) (λ _ s',
    scopes (st s') = scopes (st s) ∧ hosts (st s') = hosts (st s) ∧
    scopeIndex (st s') = scopeIndex (st s) ∧ pub_sub_Index (st s') = pub_sub_Index (st s) ∧
    (∀ id, is_Some (pubIndex (st s') !! id) → is_Some (pubIndex (st s) !! id) ∧ id ∉ ids) ∧
    (∀ q, is_Some (items (st s') !! q) →
       is_Some (items (st s) !! q) ∧ ¬ freed_by (pubIndex (st s)) ids freed q)) s.
Proof.
  induction ids as [|id ids IH]; intros freed s Hnd Hids; simpl.
  { apply wp_ret. split_and!; try done; [set_solver|]. intros q Hq. split; [done|].
    intros (_ & x & ?%elem_of_nil & _). done. }
  apply NoDup_cons in Hnd as [Hid Hnd]. destruct (Hids id) as (p & Hp & Hal); [left|].
  apply wp_bind, wp_get_st. rewrite Hp. apply wp_bind. unfold live. apply wp_ret, wp_bind.
  set (sc' := if decide (p ∈ freed) then items (st s) else delete p (items (st s))).
  eapply (wp_mono _ _ (λ _ s1, st s1 = set_items (λ _, sc') (st s))).
  { unfold sc'. case_decide as Hf.
    - apply wp_ret. by destruct (st s).
    - destruct Hal as [?|[o Ho]]; [done|]. apply wp_bind. eapply wp_get_item; [done|].
      by apply wp_mod_st. }
  intros [] s1 Hs1. apply wp_bind, wp_mod_st.
  assert (∀ q, is_Some (sc' !! q) → is_Some (items (st s) !! q) ∧ (q = p → p ∈ freed)) as Hsc'.
  { intros q. unfold sc'. case_decide; [done|]. rewrite lookup_delete.
    case_decide; [by intros []%is_Some_None|naive_solver]. }
  eapply wp_mono; [apply IH|].
  - done.
  - intros x Hx. destruct (Hids x) as (q & Hq & Hqal); [by right|]. exists q.
    rewrite Hs1. simpl. rewrite lookup_delete_ne by (by intros ->). split; [done|].
    destruct (decide (q = p)) as [->|Hqp]; [left; set_solver|].
    destruct Hqal as [?|Hq']; [left; set_solver|right]. unfold sc'. case_decide; [done|].
    by rewrite lookup_delete_ne.
  - intros [] s2. rewrite Hs1. simpl. intros (Hit & Hho & Hpi & Hps & Hsi & Hscs).
    split_and!; try done.
    + intros x Hx. destruct (Hsi x Hx) as [Hx' Hxi]. rewrite lookup_delete in Hx'.
      case_decide; [by apply is_Some_None in Hx'|]. set_solver.
    + intros q Hq. destruct (Hscs q Hq) as [[Hq1 Hq2]%Hsc' Hno]. split; [done|].
      intros (Hf & x & Hx & Hxq). apply elem_of_cons in Hx as [->|Hx]; [naive_solver|].
      apply Hno. destruct (decide (q = p)) as [->|]; [naive_solver|].
      split; [set_solver|]. exists x. split; [done|]. rewrite lookup_delete_ne; [done|].
      by intros ->.
Qed.

(** C26. LocalRV::cleanup frees every host, scope and information item of a
    consistent store exactly once: no object is freed twice although scopes
    and items stand in the index under all their identifiers, and none is
    left. *)
Theorem cleanup_frees_all (s : rv) : inv (st s) →
  ∃ s', cleanup s = Ok (tt, s') ∧ hosts (st s') = ∅ ∧ scopes (st s') = ∅ ∧ items (st s') = ∅ ∧
    pub_sub_Index (st s') = ∅ ∧ scopeIndex (st s') = ∅ ∧ pubIndex (st s') = ∅.
Proof.
  intros [[sf Hwf] Hok].
  enough (wp no_fault cleanup (λ _ s', hosts (st s') = ∅ ∧ scopes (st s') = ∅ ∧ items (st s') = ∅ ∧
    pub_sub_Index (st s') = ∅ ∧ scopeIndex (st s') = ∅ ∧ pubIndex (st s') = ∅) s) as Hwp.
  { destruct (wp_total _ _ _ Hwp) as ([] & s' & ? & ?). eauto. }
  unfold cleanup. apply wp_bind, wp_get_st, wp_bind. eapply wp_mono.
  { apply (wp_for_each no_fault _ free_host (λ l s', hosts_left l (st s) (st s'))).
    - split_and!; try done; [apply NoDup_str_order| |apply (ho_idx _ Hok)].
      intros id. by rewrite elem_of_str_order, elem_of_dom.
    - intros id l s1. apply free_host_spec. }
  intros [] s1 (Hsc & Hit & Hsi & Hpi & _ & Hl & Hho).
  assert (∀ n id, has (st s) n id → match n with
      NS p => scopeIndex (st s1) !! id = Some p ∧ is_Some (scopes (st s1) !! p)
    | NI i => pubIndex (st s1) !! id = Some i ∧ is_Some (items (st s1) !! i) end) as Hidx.
  { intros n id Hid. pose proof (proj1 (wf_idx _ _ _ _ Hwf _ _) Hid) as Hx.
    apply has_alive in Hid. rewrite Hsc, Hit, Hsi, Hpi.
    destruct n; (split; [done|]); [by apply alive_scope|by apply alive_item]. }
  apply wp_bind. eapply wp_mono; [apply free_scopes_run; [apply NoDup_str_order|]|].
  { intros id [p Hp]%elem_of_str_order%elem_of_dom.
    apply (wf_idx _ _ _ _ Hwf (NS p)), Hidx in Hp as [??]. eauto. }
  intros [] s2 (Hit2 & Hho2 & Hpi2 & Hps2 & Hsi2 & Hsc2).
  eapply wp_mono; [apply free_items_run; [apply NoDup_str_order|]|].
  { intros id [i Hi]%elem_of_str_order%elem_of_dom.
    apply (wf_idx _ _ _ _ Hwf (NI i)), Hidx in Hi as [??]. rewrite Hpi2, Hit2. eauto. }
  intros [] s3 (Hsc3 & Hho3 & Hsi3 & Hps3 & Hpi3 & Hit3).
  assert (pub_sub_Index (st s1) = ∅) as Hps1.
  { apply map_empty. intros id. apply eq_None_not_Some. intros ?%Hl%elem_of_nil. done. }
  split_and!; [rewrite Hho3, Hho2|rewrite Hsc3| |congruence|rewrite Hsi3|];
    apply map_empty; intros x; apply eq_None_not_Some; intros Hx.
  - destruct Hx as [rh Hrh].
    assert (pub_sub_Index (st s1) !! remoteHostID rh = Some x) as Hy by (apply Hho; eauto).
    by rewrite Hps1 in Hy.
  - apply Hsc2 in Hx as [Hx Hno]. apply Hno. split; [set_solver|].
    destruct (wf_ne _ _ _ _ Hwf (NS x)) as [id Hid]; [|done|].
    { apply alive_scope. by rewrite <-Hsc. }
    exists id. apply Hidx in Hid as [Hi _]. split; [|done].
    apply elem_of_str_order, elem_of_dom. rewrite <-Hsi. by eexists.
  - apply Hit3 in Hx as [Hx Hno]. apply Hno. split; [set_solver|].
    destruct (wf_ne _ _ _ _ Hwf (NI x)) as [id Hid]; [|done|].
    { apply alive_item. by rewrite <-Hit, <-Hit2. }
    exists id. apply Hidx in Hid as [Hi _]. rewrite Hpi2. split; [|done].
    apply elem_of_str_order, elem_of_dom. rewrite <-Hpi. by eexists.
  - apply Hsi2 in Hx as [Hx Hno]. apply Hno, elem_of_str_order, elem_of_dom. by rewrite <-Hsi.
  - apply Hpi3 in Hx as [Hx Hno]. apply Hno, elem_of_str_order, elem_of_dom.
    by rewrite <-Hpi, <-Hpi2.
Qed.
End cleanup.

(** ** Witnesses *)
Lemma index_is_paths_witness :
  forallb well_sized sample_packets = true ∧
  wp rv_fault (serve (HO := canonical_order true) sample_gc sample_packets)
    (λ _ s, indexed_by_paths (st s)) (mkRv empty_store []).
Proof.
  split; [vm_compute; reflexivity|].
  apply (index_is_paths (HO := canonical_order true) sample_gc sample_packets).
  vm_compute. reflexivity.
Defined.

(** The scope /65/66 below a second root scope /70. *)
Definition two_roots : rv :=
  after (serve (HO := canonical_order true) sample_gc
    (sample_packets ++ [request_packet sample_node PUBLISH_SCOPE (frag 70) [] DOMAIN_LOCAL]))
    (mkRv empty_store []).

Lemma two_roots_inv : inv (st two_roots).
Proof.
  apply (after_spec rv_fault _ (λ s, inv (st s))); [|apply empty_inv].
  apply serve_spec. vm_compute. reflexivity.
Qed.

Lemma recursion_bounded_witness :
  wp no_fault (recursivelyUpdateIDs (HO := canonical_order true) (S (size (scopes (st two_roots)))) 2
      (suffix (frag 65 ++ frag 66)))
    (λ _ s', out s' = out two_roots ∧ idx (st s') (NS 2) (frag 70 ++ suffix (frag 65 ++ frag 66)) ∧
       indexed_by_paths (st s') ∧
       ∀ n g, father (st s') n g ↔ father (st two_roots) n g ∨ n = NS 2 ∧ g = 3%positive)
    (mkRv (relinked (st two_roots) 2 3) (out two_roots)).
Proof.
  assert (¬ reach (st two_roots) 2 3) as Hno.
  { intros Hr. apply rtc_inv_r in Hr as [Heq|(y & _ & X & HX & Hy)]; [discriminate Heq|].
    assert (nfathers (st two_roots) (NS 3) = Some ∅) as H0 by (vm_compute; reflexivity).
    rewrite H0 in HX. injection HX as <-. by apply elem_of_empty in Hy. }
  assert (scopeIndex (st two_roots) !! frag 70 = Some 3%positive) as Hf by (vm_compute; reflexivity).
  assert (PURSUIT_ID_LEN < length (frag 65 ++ frag 66)) as Hlen
    by (apply Nat.ltb_lt; vm_compute; reflexivity).
  assert (scopeIndex (st two_roots) !! (frag 65 ++ frag 66) = Some 2%positive) as He
    by (vm_compute; reflexivity).
  assert (scopeIndex (st two_roots) !! (frag 70 ++ suffix (frag 65 ++ frag 66)) = None) as Hs
    by (vm_compute; reflexivity).
  assert (pubIndex (st two_roots) !! (frag 70 ++ suffix (frag 65 ++ frag 66)) = None) as Hi
    by (vm_compute; reflexivity).
  exact (proj1 (proj2 (recursion_bounded (HO := canonical_order true) two_roots 3 (frag 70)
    two_roots_inv Hf) (frag 65 ++ frag 66) 2%positive Hlen He Hs Hi) Hno).
Defined.

Lemma cleanup_frees_all_witness :
  ∃ s', cleanup (HO := canonical_order true) sample_state = Ok (tt, s') ∧
    hosts (st s') = ∅ ∧ scopes (st s') = ∅ ∧ items (st s') = ∅ ∧
    pub_sub_Index (st s') = ∅ ∧ scopeIndex (st s') = ∅ ∧ pubIndex (st s') = ∅.
Proof.
  apply (cleanup_frees_all (HO := canonical_order true) sample_state). apply sample_inv.
Defined.
