(* ===== verification/LocalProxy.v ===== *)
(** * The local proxy (src/localproxy.cc, localhost, activepub)

    LocalProxy stands between the software entities of a node (applications
    and Click elements, its [LocalHost]s) and the rendezvous point.  It keeps
    who publishes and who subscribes to which full identifier, and tells the
    rendezvous point, which knows only nodes, about the first publisher and
    the last one that leaves.  When an entity disconnects it withdraws
    everything that the entity had.

    This file models the control plane of the element: requests of local
    entities, disconnection, and the packets to the rendezvous point.  The
    publications of data and the notifications that steer them, and
    LocalProxy::push as a whole, are in [ProxyData].

    ActivePublication and ActiveSubscription objects are only ever reached
    through their index under their own identifier, so the index holds them by
    value; LocalHosts are pointed to from the tables of publications and
    subscriptions, so they live in a heap, and following a pointer to a
    disconnected one faults. *)
From stdpp Require Import base list gmap sets.
From Stdlib Require Import ZArith Lia.
From S2P Require Import Prelude Enums Bitvector GlobalConf InfoGraph LocalRV.

Inductive ELEMENTtype := LOCAL_PROCESS | CLICK_ELEMENT.

#[export] Instance ELEMENTtype_eq_dec : EqDecision ELEMENTtype.
Proof. solve_decision. Defined.

Record LocalHost := mkLH {
  lh_type : ELEMENTtype;
  lh_id : Z;
  activePublications : gset bytes;
  activeSubscriptions : gset bytes;
}.

(** [publishers] maps each local publisher to the last notification it got
    ([STOP_PUBLISH] before the first). *)
Record ActivePublication := mkAP {
  ap_strategy : Z;
  publishers : gmap positive Z;
  ap_allKnownIDs : list bytes;
  FID_to_subscribers : BABitvector;
  ap_RVFID : BABitvector;
  ap_isScope : bool;
}.

Record ActiveSubscription := mkAS {
  as_strategy : Z;
  subscribers : gset positive;
  as_allKnownIDs : list bytes;
  as_RVFID : BABitvector;
  as_isScope : bool;
}.

(** [BABitvector()] *)
Definition no_FID : BABitvector := mkBV (-1) [0; 0]%Z.

(** The constructors, followed by [RVFID] being set. *)
Definition new_ActivePublication (strategy : Z) (RVFID : BABitvector) (isScope : bool)
    : ActivePublication := mkAP strategy ∅ [] no_FID RVFID isScope.
Definition new_ActiveSubscription (strategy : Z) (RVFID : BABitvector) (isScope : bool)
    : ActiveSubscription := mkAS strategy ∅ [] RVFID isScope.

Record Proxy := mkProxy {
  localhosts : gmap positive LocalHost;
  local_pub_sub_Index : gmap Z positive;
  activePublicationIndex : gmap bytes ActivePublication;
  activeSubscriptionIndex : gmap bytes ActiveSubscription;
}.

Definition empty_proxy : Proxy := mkProxy ∅ ∅ ∅ ∅.

(** A packet is pushed to an output (for an application with its descriptor as
    annotation), or freed. *)
Inductive px_event :=
| Output (port : Z) (anno : option Z) (p : buffer)
| Freed.

Record px := mkPx { pst : Proxy; pout : list px_event }.

Definition set_localhosts (f : gmap positive LocalHost → gmap positive LocalHost) (s : Proxy) : Proxy :=
  mkProxy (f (localhosts s)) (local_pub_sub_Index s) (activePublicationIndex s)
    (activeSubscriptionIndex s).
Definition set_local_Index (f : gmap Z positive → gmap Z positive) (s : Proxy) : Proxy :=
  mkProxy (localhosts s) (f (local_pub_sub_Index s)) (activePublicationIndex s)
    (activeSubscriptionIndex s).
Definition set_pubs (f : gmap bytes ActivePublication → gmap bytes ActivePublication) (s : Proxy)
    : Proxy :=
  mkProxy (localhosts s) (local_pub_sub_Index s) (f (activePublicationIndex s))
    (activeSubscriptionIndex s).
Definition set_subs (f : gmap bytes ActiveSubscription → gmap bytes ActiveSubscription) (s : Proxy)
    : Proxy :=
  mkProxy (localhosts s) (local_pub_sub_Index s) (activePublicationIndex s)
    (f (activeSubscriptionIndex s)).

Definition with_publishers (f : gmap positive Z → gmap positive Z) (ap : ActivePublication)
    : ActivePublication :=
  mkAP (ap_strategy ap) (f (publishers ap)) (ap_allKnownIDs ap) (FID_to_subscribers ap)
    (ap_RVFID ap) (ap_isScope ap).
Definition with_subscribers (f : gset positive → gset positive) (a : ActiveSubscription)
    : ActiveSubscription :=
  mkAS (as_strategy a) (f (subscribers a)) (as_allKnownIDs a) (as_RVFID a) (as_isScope a).

Definition get_px : M px Proxy := s ← get; mret (pst s).
Definition mod_px (f : Proxy → Proxy) : M px unit := modify (λ s, mkPx (f (pst s)) (pout s)).
Definition px_emit (e : px_event) : M px unit := modify (λ s, mkPx (pst s) (pout s ++ [e])).

Definition get_lh (h : positive) : M px LocalHost :=
  s ← get_px;
  match localhosts s !! h with Some l => mret l | None => throw Dangling end.
Definition mod_lh (h : positive) (f : LocalHost → LocalHost) : M px unit :=
  l ← get_lh h; mod_px (set_localhosts (insert h (f l))).

Definition with_pubs (f : gset bytes → gset bytes) (l : LocalHost) : LocalHost :=
  mkLH (lh_type l) (lh_id l) (f (activePublications l)) (activeSubscriptions l).
Definition with_subs (f : gset bytes → gset bytes) (l : LocalHost) : LocalHost :=
  mkLH (lh_type l) (lh_id l) (activePublications l) (f (activeSubscriptions l)).

(** [publishers.find_insert(h, v)] keeps the value of a known publisher. *)
Definition find_insert (h : positive) (v : Z) (m : gmap positive Z) : gmap positive Z :=
  match m !! h with Some _ => m | None => <[h := v]> m end.

(** [publishers.get(h)]: 0 for an unknown publisher. *)
Definition state_of (h : positive) (m : gmap positive Z) : Z := default 0%Z (m !! h).

Section localproxy.
Context `{HO : HashOrder} (gc : GlobalConf).

(** LocalProxy::getLocalHost; the index is by descriptor only. *)
Definition getLocalHost (type : ELEMENTtype) (id : Z) : M px positive :=
  s ← get_px;
  match local_pub_sub_Index s !! id with
  | Some h => mret h
  | None =>
      let h := fresh (dom (localhosts s)) in
      _ ← mod_px (set_localhosts (insert h (mkLH type id ∅ ∅)));
      _ ← mod_px (set_local_Index (insert id h));
      mret h
  end.

(** ** Active publications and subscriptions *)

Definition storeActivePublication (publisher : positive) (fullID : bytes) (strategy : Z)
    (RVFID : BABitvector) (isScope : bool) : M px bool :=
  if ((strategy =? NODE_LOCAL) || (strategy =? DOMAIN_LOCAL))%Z then
    s ← get_px;
    match activePublicationIndex s !! fullID with
    | None =>
        _ ← mod_px (set_pubs (insert fullID
              (with_publishers (find_insert publisher STOP_PUBLISH)
                 (new_ActivePublication strategy RVFID isScope))));
        _ ← mod_lh publisher (with_pubs (set_add fullID));
        mret true
    | Some ap =>
        let state := state_of publisher (publishers ap) in
        if ((state =? RE_PUBLISH) || (state =? RESUME_PUBLISH))%Z then mret true
        else if (ap_strategy ap =? strategy)%Z then
          _ ← mod_px (set_pubs (insert fullID
                (with_publishers (find_insert publisher STOP_PUBLISH) ap)));
          _ ← mod_lh publisher (with_pubs (set_add fullID));
          mret false
        else mret false
    end
  else mret false.

Definition removeActivePublication (publisher : positive) (fullID : bytes) (strategy : Z)
    : M px bool :=
  if ((strategy =? NODE_LOCAL) || (strategy =? DOMAIN_LOCAL))%Z then
    s ← get_px;
    match activePublicationIndex s !! fullID with
    | Some ap =>
        if (ap_strategy ap =? strategy)%Z then
          _ ← mod_lh publisher (with_pubs (set_del fullID));
          let ap' := with_publishers (delete publisher) ap in
          if decide (size (publishers ap') = 0) then
            _ ← mod_px (set_pubs (delete fullID));
            mret true
          else
            _ ← mod_px (set_pubs (insert fullID ap'));
            mret false
        else mret false
    | None => mret false
    end
  else mret false.

(** The strategies whose subscriptions stay in the node. *)
Definition kept_local (strategy : Z) : bool :=
  ((strategy =? IMPLICIT_RENDEZVOUS) || (strategy =? LINK_LOCAL) || (strategy =? BROADCAST_IF))%Z.

Definition storeActiveSubscription (subscriber : positive) (fullID : bytes) (strategy : Z)
    (RVFID : BABitvector) (isScope : bool) : M px bool :=
  s ← get_px;
  match activeSubscriptionIndex s !! fullID with
  | None =>
      _ ← mod_px (set_subs (insert fullID (with_subscribers (λ X, {[subscriber]} ∪ X)
            (new_ActiveSubscription strategy RVFID isScope))));
      _ ← mod_lh subscriber (with_subs (set_add fullID));
      mret (negb (kept_local strategy))
  | Some a =>
      if (as_strategy a =? strategy)%Z then
        _ ← mod_px (set_subs (insert fullID (with_subscribers (λ X, {[subscriber]} ∪ X) a)));
        _ ← mod_lh subscriber (with_subs (set_add fullID));
        mret true
      else mret false
  end.

Definition removeActiveSubscription (subscriber : positive) (fullID : bytes) (strategy : Z)
    : M px bool :=
  s ← get_px;
  match activeSubscriptionIndex s !! fullID with
  | Some a =>
      if (as_strategy a =? strategy)%Z then
        _ ← mod_lh subscriber (with_subs (set_del fullID));
        let a' := with_subscribers (λ X, X ∖ {[subscriber]}) a in
        if decide (size (subscribers a') = 0) then
          _ ← mod_px (set_subs (delete fullID));
          mret (negb (kept_local strategy))
        else
          _ ← mod_px (set_subs (insert fullID a'));
          mret false
      else mret false
  | None => mret false
  end.

Definition handleLocalRequest (type : Z) (localhost : positive) (ID prefixID : bytes)
    (strategy : Z) (RVFID : BABitvector) : M px bool :=
  let fullID := if decide (length ID = PURSUIT_ID_LEN) then prefixID ++ ID
                else prefixID ++ suffix ID in
  if (type =? PUBLISH_SCOPE)%Z then storeActivePublication localhost fullID strategy RVFID true
  else if (type =? PUBLISH_INFO)%Z then
    storeActivePublication localhost fullID strategy RVFID false
  else if (type =? UNPUBLISH_SCOPE)%Z then removeActivePublication localhost fullID strategy
  else if (type =? UNPUBLISH_INFO)%Z then removeActivePublication localhost fullID strategy
  else if (type =? SUBSCRIBE_SCOPE)%Z then
    storeActiveSubscription localhost fullID strategy RVFID true
  else if (type =? SUBSCRIBE_INFO)%Z then
    storeActiveSubscription localhost fullID strategy RVFID false
  else if (type =? UNSUBSCRIBE_SCOPE)%Z then removeActiveSubscription localhost fullID strategy
  else if (type =? UNSUBSCRIBE_INFO)%Z then removeActiveSubscription localhost fullID strategy
  else if (type =? PUBLISH_DATA_iSUB)%Z then
    storeActiveSubscription localhost fullID strategy RVFID false
  else mret false.

(** ** Packets to the rendezvous point *)

(** A packet of [len] bytes in front of [rest], filled with fields. *)
Definition px_send (port : Z) (len : nat) (fields : list bytes) (rest : bytes) : M px unit :=
  match memcpys (make_packet len ++ (Some <$> rest)) 0 fields with
  | Ok p => px_emit (Output port None p)
  | Fault e => throw e
  end.

(** The rendezvous point is in this node. *)
Definition rv_is_local (RVFID : BABitvector) : bool := zero RVFID || type_RV gc.

Definition IDLengthOfAPIEvent : Z := u8 (Z.of_nat (length (nodeRVScope gc) / PURSUIT_ID_LEN)).

Definition publishReqToRV (p : bytes) (RVFID : BABitvector) : M px unit :=
  if rv_is_local RVFID then
    px_send 1 (1 + 1 + length (nodeRVScope gc))
      [[PUBLISHED_DATA]; [IDLengthOfAPIEvent]; nodeRVScope gc] p
  else
    fid ← fid_data RVFID;
    match memcpys (make_packet (1 + 1 + 2 * PURSUIT_ID_LEN) ++ (Some <$> p)) 0
            [[1%Z]; [2%Z]; nodeRVScope gc] with
    | Ok p1 => px_emit (Output 2 None ((Some <$> fid) ++ p1))
    | Fault e => throw e
    end.

Definition createAndSendPacketToRV (type idlen : Z) (ID : bytes) (prefixIDLength : Z)
    (prefixID : bytes) (RVFID : BABitvector) (strategy : Z) : M px unit :=
  let payload := 1 + 1 + Z.to_nat idlen * PURSUIT_ID_LEN + 1
    + Z.to_nat prefixIDLength * PURSUIT_ID_LEN + 1 in
  let body := [[type]; [idlen]; ID; [prefixIDLength]; prefixID; [strategy]] in
  if rv_is_local RVFID then
    px_send 1 (1 + 1 + 2 * PURSUIT_ID_LEN + payload)
      ([[PUBLISHED_DATA]; [IDLengthOfAPIEvent]; nodeRVScope gc] ++ body) []
  else
    fid ← fid_data RVFID;
    scope ← read_bytes (nodeRVScope gc) 0 (2 * PURSUIT_ID_LEN);
    px_send 2 (FID_LEN + 1 + 1 + 2 * PURSUIT_ID_LEN + payload)
      ([fid; [1%Z]; [2%Z]; scope] ++ body) [].

(** [(fullID.length() - PURSUIT_ID_LEN) / PURSUIT_ID_LEN], as a byte *)
Definition prefixIDLength (fullID : bytes) : Z :=
  u8 (Z.quot (Z.of_nat (length fullID) - Z.of_nat PURSUIT_ID_LEN) (Z.of_nat PURSUIT_ID_LEN)).

(** The withdrawal of a full identifier from the rendezvous point. *)
Definition withdraw (type : Z) (fullID : bytes) (RVFID : BABitvector) (strategy : Z)
    : M px unit :=
  createAndSendPacketToRV type 1 (suffix fullID) (prefixIDLength fullID) (prefix fullID)
    RVFID strategy.

(** ** Notifications of local entities *)

(** A packet for a local entity: a Click element has its own output. *)
Definition push_to_host (localhost : positive) (p : buffer) : M px unit :=
  l ← get_lh localhost;
  match lh_type l with
  | CLICK_ELEMENT => px_emit (Output (lh_id l) None p)
  | LOCAL_PROCESS => px_emit (Output 0 (Some (lh_id l)) p)
  end.

(** [ID.length() / PURSUIT_ID_LEN], as a byte *)
Definition fragments (ID : bytes) : Z := u8 (Z.of_nat (length ID / PURSUIT_ID_LEN)).

Definition sendNotificationLocally (type : Z) (localhost : positive) (ID : bytes) : M px unit :=
  match memcpys (make_packet (1 + 1 + length ID)) 0
          [[type]; [fragments ID]; take (Z.to_nat (fragments ID) * PURSUIT_ID_LEN) ID] with
  | Ok p => push_to_host localhost p
  | Fault e => throw e
  end.

(** The notification that deleteAllActiveInformationItemPublications builds
    itself. *)
Definition notify_start (localhost : positive) (fullID : bytes) : M px unit :=
  match memcpys (make_packet (1 + 1 + length fullID)) 0
          [[START_PUBLISH]; [fragments fullID]; fullID] with
  | Ok p => push_to_host localhost p
  | Fault e => throw e
  end.

(** The subscribers of the scope that [ID] is directly below. *)
Definition findActiveSubscriptions (ID : bytes) (s : Proxy) : gset positive :=
  match activeSubscriptionIndex s !! prefix ID with
  | Some a => if as_isScope a then subscribers a else ∅
  | None => ∅
  end.

(** [_localSubscribers.set(h, knownID)] for the subscribers under [key]. *)
Definition subscribed_under (key knownID : bytes) (s : Proxy) (acc : gmap positive bytes)
    : gmap positive bytes :=
  match activeSubscriptionIndex s !! key with
  | Some a => gset_to_gmap knownID (subscribers a) ∪ acc
  | None => acc
  end.

Definition findLocalSubscribers (IDs : list bytes) (s : Proxy) : bool * gmap positive bytes :=
  let found := foldl (λ acc knownID,
    subscribed_under (prefix knownID) knownID s (subscribed_under knownID knownID s acc)) ∅ IDs in
  (negb (bool_decide (found = ∅)), found).

(** ** Disconnection *)

(** [begin()] of a table of hosts. *)
Definition first_host (X : gset positive) : M px positive :=
  match ptr_order X with h :: _ => mret h | [] => throw BeginOfEmpty end.

(** One turn of the loop of deleteAllActiveInformationItemPublications. *)
Definition deleteItemPublication (publisher : positive) (fullID : bytes) : M px unit :=
  s ← get_px;
  ap ← deref (activePublicationIndex s !! fullID);
  if ap_isScope ap then mret tt
  else
    _ ← mod_lh publisher (with_pubs (set_del fullID));
    let shouldNotify := negb (state_of publisher (publishers ap) =? STOP_PUBLISH)%Z in
    let ap := with_publishers (delete publisher) ap in
    _ ← mod_px (set_pubs (insert fullID ap));
    if decide (size (publishers ap) = 0) then
      _ ← mod_px (set_pubs (delete fullID));
      withdraw UNPUBLISH_INFO fullID (ap_RVFID ap) (ap_strategy ap)
    else if shouldNotify then
      h ← first_host (dom (publishers ap));
      _ ← mod_px (set_pubs (insert fullID (with_publishers (insert h START_PUBLISH) ap)));
      notify_start h fullID
    else mret tt.

Definition deleteAllActiveInformationItemPublications (publisher : positive) : M px unit :=
  l ← get_lh publisher;
  for_each (str_order (activePublications l)) (deleteItemPublication publisher).

Definition deleteSubscription (type : Z) (subscriber : positive) (fullID : bytes)
    (a : ActiveSubscription) : M px unit :=
  _ ← mod_lh subscriber (with_subs (set_del fullID));
  let a := with_subscribers (λ X, X ∖ {[subscriber]}) a in
  _ ← mod_px (set_subs (insert fullID a));
  if decide (size (subscribers a) = 0) then
    _ ← mod_px (set_subs (delete fullID));
    if kept_local (as_strategy a) then mret tt
    else withdraw type fullID (as_RVFID a) (as_strategy a)
  else mret tt.

Definition deleteAllActiveInformationItemSubscriptions (subscriber : positive) : M px unit :=
  l ← get_lh subscriber;
  for_each (str_order (activeSubscriptions l)) (λ fullID,
    s ← get_px;
    a ← deref (activeSubscriptionIndex s !! fullID);
    if as_isScope a then mret tt
    else deleteSubscription UNSUBSCRIBE_INFO subscriber fullID a).

(** [fullID.length() / PURSUIT_ID_LEN] *)
Definition level (fullID : bytes) : nat := length fullID / PURSUIT_ID_LEN.

(** The loop that computes [max_level] over the identifiers of a host. *)
Fixpoint max_level (isScope : bytes → M px bool) (ids : list bytes) (m : nat) : M px nat :=
  match ids with
  | [] => mret m
  | id :: ids =>
      b ← isScope id;
      max_level isScope ids (if b && (m <? level id) then level id else m)
  end.

(** [for (int i = max_level; i > 0; i--)] *)
Fixpoint for_levels (i : nat) (body : nat → M px unit) : M px unit :=
  match i with
  | O => mret tt
  | S j => _ ← body i; for_levels j body
  end.

Definition published_is_scope (fullID : bytes) : M px bool :=
  s ← get_px; ap ← deref (activePublicationIndex s !! fullID); mret (ap_isScope ap).
Definition subscribed_is_scope (fullID : bytes) : M px bool :=
  s ← get_px; a ← deref (activeSubscriptionIndex s !! fullID); mret (as_isScope a).

Definition deleteScopePublication (publisher : positive) (fullID : bytes) : M px unit :=
  s ← get_px;
  ap ← deref (activePublicationIndex s !! fullID);
  if ap_isScope ap then
    _ ← mod_lh publisher (with_pubs (set_del fullID));
    let ap := with_publishers (delete publisher) ap in
    _ ← mod_px (set_pubs (insert fullID ap));
    if decide (size (publishers ap) = 0) then
      _ ← mod_px (set_pubs (delete fullID));
      withdraw UNPUBLISH_SCOPE fullID (ap_RVFID ap) (ap_strategy ap)
    else mret tt
  else mret tt.

Definition deleteAllActiveScopePublications (publisher : positive) : M px unit :=
  l ← get_lh publisher;
  top ← max_level published_is_scope (str_order (activePublications l)) 0;
  for_levels top (λ i,
    l ← get_lh publisher;
    for_each (str_order (activePublications l)) (λ fullID,
      if decide (level fullID = i) then deleteScopePublication publisher fullID else mret tt)).

Definition deleteScopeSubscription (subscriber : positive) (fullID : bytes) : M px unit :=
  s ← get_px;
  a ← deref (activeSubscriptionIndex s !! fullID);
  if as_isScope a then deleteSubscription UNSUBSCRIBE_SCOPE subscriber fullID a else mret tt.

Definition deleteAllActiveScopeSubscriptions (subscriber : positive) : M px unit :=
  l ← get_lh subscriber;
  top ← max_level subscribed_is_scope (str_order (activeSubscriptions l)) 0;
  for_levels top (λ i,
    l ← get_lh subscriber;
    for_each (str_order (activeSubscriptions l)) (λ fullID,
      if decide (level fullID = i) then deleteScopeSubscription subscriber fullID else mret tt)).

(** LocalProxy::disconnect *)
Definition disconnect (localhost : positive) : M px unit :=
  _ ← deleteAllActiveInformationItemPublications localhost;
  _ ← deleteAllActiveInformationItemSubscriptions localhost;
  _ ← deleteAllActiveScopePublications localhost;
  _ ← deleteAllActiveScopeSubscriptions localhost;
  l ← get_lh localhost;
  _ ← mod_px (set_local_Index (delete (lh_id l)));
  mod_px (set_localhosts (delete localhost)).

(** ** The element *)

(** The FID to the rendezvous point of a strategy. *)
Definition rv_of_strategy (strategy : Z) : M px BABitvector :=
  match bv_make (Z.of_nat FID_LEN * 8) with
  | Some v => mret (if (strategy =? DOMAIN_LOCAL)%Z then defaultRV_dl gc else v)
  | None => throw AssertFailed
  end.

(** A pub/sub request: the default case of the switch of LocalProxy::push. *)
Definition push_request (localhost : positive) (type : Z) (p : bytes) : M px unit :=
  idlen ← read_byte p 1;
  ID ← read_bytes p (1 + 1) (Z.to_nat idlen * PURSUIT_ID_LEN);
  plen ← read_byte p (1 + 1 + length ID);
  prefixID ← read_bytes p (1 + 1 + length ID + 1) (Z.to_nat plen * PURSUIT_ID_LEN);
  strategy ← read_byte p (1 + 1 + length ID + 1 + length prefixID);
  RVFID ← rv_of_strategy strategy;
  forward ← handleLocalRequest type localhost ID prefixID strategy RVFID;
  if (forward : bool) then publishReqToRV p RVFID else px_emit Freed.

(** Who sent a packet: an application, with its descriptor as annotation, or
    the Click element behind an input. *)
Definition sender (in_port anno : Z) : ELEMENTtype * Z :=
  if (in_port =? 0)%Z then (LOCAL_PROCESS, anno) else (CLICK_ELEMENT, in_port).

(** The packets of LocalProxy::push that carry data. *)
Definition carries_data (type : Z) : bool :=
  ((type =? PUBLISH_DATA) || (type =? PUBLISH_DATA_iSUB) || (type =? PUBLISH_DATA_iMULTICAST))%Z.

(** LocalProxy::push for a control packet of a local entity.  The result tells
    whether it was one: a packet with data is left where the switch meets it
    ([ProxyData] has the handlers of data). *)
Definition push_local (in_port anno : Z) (p : bytes) : M px bool :=
  let '(type_of_publisher, descriptor) := sender in_port anno in
  localhost ← getLocalHost type_of_publisher descriptor;
  type ← read_byte p 0;
  if (type =? DISCONNECT)%Z then
    _ ← disconnect localhost;
    _ ← px_emit Freed;
    mret true
  else if carries_data type then mret false
  else
    _ ← push_request localhost type p;
    mret true.

(** LocalProxy::cleanup.  Freeing a host twice faults; the index of implicit
    subscribers is not freed by the source either. *)
Definition free_localhost (entry : Z * positive) : M px unit :=
  _ ← get_lh (snd entry);
  _ ← mod_px (set_localhosts (delete (snd entry)));
  mod_px (set_local_Index (delete (fst entry))).

Definition px_cleanup : M px unit :=
  s ← get_px;
  _ ← for_each (map_to_list (local_pub_sub_Index s)) free_localhost;
  _ ← mod_px (set_pubs (λ _, ∅));
  mod_px (set_subs (λ _, ∅)).
End localproxy.
