(* ===== verification/ProxyInv.v ===== *)
(** * The tables of the local proxy

    The invariant of LocalProxy's state (the sets of a host agree with the
    tables of publications and subscriptions, no table entry is left without a
    host, no host is dangling), and what a request of a local entity does to
    it on every branch. *)
From stdpp Require Import base list gmap sets.
From Stdlib Require Import ZArith Lia.
From S2P Require Import Prelude Enums Bitvector GlobalConf InfoGraph LocalRV RVSafety RVRequests LocalProxy.

(** ** Who publishes and who subscribes *)

Definition publishes (s : Proxy) (h : positive) (id : bytes) : Prop :=
  ∃ ap, activePublicationIndex s !! id = Some ap ∧ is_Some (publishers ap !! h).

Definition subscribes (s : Proxy) (h : positive) (id : bytes) : Prop :=
  ∃ a, activeSubscriptionIndex s !! id = Some a ∧ h ∈ subscribers a.

(** Full identifiers: between one fragment and the 255 of a prefix and one. *)
Definition id_ok (id : bytes) : Prop := ∃ k, length id = k * PURSUIT_ID_LEN ∧ 1 ≤ k ≤ 256.

(** A FID towards a rendezvous point: without a set bit (the rendezvous point
    is local, or the node is disconnected), or of full length. *)
Definition route_ok (v : BABitvector) : Prop := zero v = true ∨ fid_ok v.

(** What the proxy relies on of the configuration, which it changes itself. *)
Record gc_ok (gc : GlobalConf) : Prop := {
  go_node : length (nodeID gc) = NODEID_LEN;
  go_rvscope : length (RVScope gc) = PURSUIT_ID_LEN;
  go_noderv : nodeRVScope gc = RVScope gc ++ nodeID gc;
  go_route : route_ok (defaultRV_dl gc);
}.

Lemma gc_wf_ok gc : gc_wf gc → gc_ok gc.
Proof. intros H. split; try apply H. right. apply fid_ok_size; apply H. Qed.

(** An entry of the table of publications: identifier, routes, and a name to
    give to every publisher that was told something. *)
Definition pub_ok (id : bytes) (ap : ActivePublication) : Prop :=
  id_ok id ∧ route_ok (ap_RVFID ap) ∧ route_ok (FID_to_subscribers ap) ∧
  ∀ h v, publishers ap !! h = Some v → v ≠ STOP_PUBLISH → ap_allKnownIDs ap ≠ [].

Record px_inv (s : Proxy) : Prop := {
  pi_pub h l id : localhosts s !! h = Some l → id ∈ activePublications l ↔ publishes s h id;
  pi_pub_alive h id : publishes s h id → is_Some (localhosts s !! h);
  pi_pub_entry id ap : activePublicationIndex s !! id = Some ap →
    publishers ap ≠ ∅ ∧ pub_ok id ap;
  pi_sub h l id : localhosts s !! h = Some l → id ∈ activeSubscriptions l ↔ subscribes s h id;
  pi_sub_alive h id : subscribes s h id → is_Some (localhosts s !! h);
  pi_sub_entry id a : activeSubscriptionIndex s !! id = Some a →
    subscribers a ≠ ∅ ∧ id_ok id ∧ route_ok (as_RVFID a);
  pi_index d h : local_pub_sub_Index s !! d = Some h ↔
    ∃ l, localhosts s !! h = Some l ∧ lh_id l = d;
}.

Lemma empty_px_inv : px_inv empty_proxy.
Proof.
  split; unfold publishes, subscribes; cbn; try (intros; simplify_map_eq; naive_solver).
Qed.

(** ** One entry of a table and the set of one host *)

Definition pub_at (o : option ActivePublication) (h : positive) : Prop :=
  ∃ ap, o = Some ap ∧ is_Some (publishers ap !! h).
Definition sub_at (o : option ActiveSubscription) (h : positive) : Prop :=
  ∃ a, o = Some a ∧ h ∈ subscribers a.

(** The state with [o] as the publication of [id] and the set of [h] updated
    with [f]. *)
Definition put_pub (id : bytes) (o : option ActivePublication) (h : positive)
    (f : gset bytes → gset bytes) (s : Proxy) : Proxy :=
  mkProxy (alter (with_pubs f) h (localhosts s)) (local_pub_sub_Index s)
    (partial_alter (λ _, o) id (activePublicationIndex s)) (activeSubscriptionIndex s).
Definition put_sub (id : bytes) (o : option ActiveSubscription) (h : positive)
    (f : gset bytes → gset bytes) (s : Proxy) : Proxy :=
  mkProxy (alter (with_subs f) h (localhosts s)) (local_pub_sub_Index s)
    (activePublicationIndex s) (partial_alter (λ _, o) id (activeSubscriptionIndex s)).

Lemma publishes_put id o h f s h' id' :
  publishes (put_pub id o h f s) h' id' ↔ if decide (id' = id) then pub_at o h' else publishes s h' id'.
Proof.
  unfold publishes, put_pub, pub_at. cbn. case_decide as E.
  - subst. by rewrite lookup_partial_alter_eq.
  - by rewrite lookup_partial_alter_ne by done.
Qed.

Lemma subscribes_put id o h f s h' id' :
  subscribes (put_sub id o h f s) h' id' ↔
  if decide (id' = id) then sub_at o h' else subscribes s h' id'.
Proof.
  unfold subscribes, put_sub, sub_at. cbn. case_decide as E.
  - subst. by rewrite lookup_partial_alter_eq.
  - by rewrite lookup_partial_alter_ne by done.
Qed.

Lemma alter_alive {A} (f : A → A) (h h' : positive) (m : gmap positive A) :
  is_Some (m !! h') → is_Some (alter f h m !! h').
Proof.
  destruct (decide (h = h')) as [<-|].
  - rewrite lookup_alter_eq. intros [x ->]. by eexists.
  - by rewrite lookup_alter_ne.
Qed.

Lemma put_index (f : LocalHost → LocalHost) h (m : gmap positive LocalHost) d h' : (∀ l, lh_id (f l) = lh_id l) →
  (∃ l, alter f h m !! h' = Some l ∧ lh_id l = d) ↔ (∃ l, m !! h' = Some l ∧ lh_id l = d).
Proof.
  intros Hf. destruct (decide (h = h')) as [<-|].
  - rewrite lookup_alter_eq. destruct (m !! h) as [l|]; [|naive_solver]. cbn. split.
    + intros (? & [= <-] & <-). exists l. by rewrite Hf.
    + intros (? & [= <-] & <-). exists (f l). by rewrite Hf.
  - by rewrite lookup_alter_ne by done.
Qed.

Section put.
Context (s : Proxy) (h : positive) (id : bytes) (f : gset bytes → gset bytes).
Hypothesis Hinv : px_inv s.
Hypothesis Halive : is_Some (localhosts s !! h).

Lemma put_pub_inv (o : option ActivePublication) :
  (∀ h', h' ≠ h → pub_at o h' ↔ publishes s h' id) →
  (∀ l id', localhosts s !! h = Some l →
    id' ∈ f (activePublications l) ↔ if decide (id' = id) then pub_at o h else publishes s h id') →
  (∀ ap, o = Some ap → publishers ap ≠ ∅ ∧ pub_ok id ap) →
  px_inv (put_pub id o h f s).
Proof.
  intros Hoth HX Ho. pose proof Hinv as [I1 I2 I3 I4 I5 I6 I7]. split.
  - intros h' l id' Hl. rewrite publishes_put. cbn in Hl. destruct (decide (h = h')) as [<-|Hne].
    + rewrite lookup_alter_eq in Hl. destruct (localhosts s !! h) as [l0|] eqn:El; [|done].
      simplify_eq/=. exact (HX _ _ eq_refl).
    + rewrite lookup_alter_ne in Hl by done. rewrite (I1 _ _ _ Hl). case_decide; [subst|done].
      symmetry. apply Hoth. done.
  - intros h' id' Hp%publishes_put. cbn. apply alter_alive. case_decide; [|by eapply I2].
    subst. destruct (decide (h' = h)) as [->|Hne]; [done|]. eapply I2, Hoth; done.
  - intros id' ap. cbn. destruct (decide (id = id')) as [<-|].
    + rewrite lookup_partial_alter_eq. apply Ho.
    + rewrite lookup_partial_alter_ne by done. apply I3.
  - intros h' l id' Hl. cbn in Hl. destruct (decide (h = h')) as [<-|Hne].
    + rewrite lookup_alter_eq in Hl. destruct (localhosts s !! h) as [l0|] eqn:El; [|done].
      simplify_eq/=. exact (I4 _ _ _ El).
    + rewrite lookup_alter_ne in Hl by done. exact (I4 _ _ _ Hl).
  - intros h' id' Hs. cbn. by eapply alter_alive, I5.
  - exact I6.
  - intros d h'. cbn. rewrite put_index by done. apply I7.
Qed.

Lemma put_sub_inv (o : option ActiveSubscription) :
  (∀ h', h' ≠ h → sub_at o h' ↔ subscribes s h' id) →
  (∀ l id', localhosts s !! h = Some l →
    id' ∈ f (activeSubscriptions l) ↔ if decide (id' = id) then sub_at o h else subscribes s h id') →
  (∀ a, o = Some a → subscribers a ≠ ∅ ∧ id_ok id ∧ route_ok (as_RVFID a)) →
  px_inv (put_sub id o h f s).
Proof.
  intros Hoth HX Ho. pose proof Hinv as [I1 I2 I3 I4 I5 I6 I7]. split.
  - intros h' l id' Hl. cbn in Hl. destruct (decide (h = h')) as [<-|Hne].
    + rewrite lookup_alter_eq in Hl. destruct (localhosts s !! h) as [l0|] eqn:El; [|done].
      simplify_eq/=. exact (I1 _ _ _ El).
    + rewrite lookup_alter_ne in Hl by done. exact (I1 _ _ _ Hl).
  - intros h' id' Hs. cbn. by eapply alter_alive, I2.
  - exact I3.
  - intros h' l id' Hl. rewrite subscribes_put. cbn in Hl.
    destruct (decide (h = h')) as [<-|Hne].
    + rewrite lookup_alter_eq in Hl. destruct (localhosts s !! h) as [l0|] eqn:El; [|done].
      simplify_eq/=. exact (HX _ _ eq_refl).
    + rewrite lookup_alter_ne in Hl by done. rewrite (I4 _ _ _ Hl). case_decide; [subst|done].
      symmetry. apply Hoth. done.
  - intros h' id' Hp%subscribes_put. cbn. apply alter_alive. case_decide; [|by eapply I5].
    subst. destruct (decide (h' = h)) as [->|Hne]; [done|]. eapply I5, Hoth; done.
  - intros id' a. cbn. destruct (decide (id = id')) as [<-|].
    + rewrite lookup_partial_alter_eq. apply Ho.
    + rewrite lookup_partial_alter_ne by done. apply I6.
  - intros d h'. cbn. rewrite put_index by done. apply I7.
Qed.
End put.

(** ** Runs of the accessors *)

Lemma get_lh_run h l s : localhosts (pst s) !! h = Some l → get_lh h s = Ok (l, s).
Proof.
  intros Hl. unfold get_lh, get_px, mbind, M_bind, get, mret, M_ret. cbn. by rewrite Hl.
Qed.

Lemma wp_get_px F (Q : Proxy → px → Prop) s : Q (pst s) s → wp F get_px Q s.
Proof. done. Qed.

Lemma wp_mod_px F f (Q : unit → px → Prop) s :
  Q tt (mkPx (f (pst s)) (pout s)) → wp F (mod_px f) Q s.
Proof. done. Qed.

Lemma wp_get_lh F h l (Q : LocalHost → px → Prop) s :
  localhosts (pst s) !! h = Some l → Q l s → wp F (get_lh h) Q s.
Proof. intros Hl HQ. unfold wp. by rewrite (get_lh_run _ _ _ Hl). Qed.

Lemma wp_mod_lh F h f (Q : unit → px → Prop) s : is_Some (localhosts (pst s) !! h) →
  Q tt (mkPx (set_localhosts (alter f h) (pst s)) (pout s)) → wp F (mod_lh h f) Q s.
Proof.
  intros [l Hl] HQ. unfold mod_lh. apply wp_bind, (wp_get_lh _ _ l); [done|].
  apply wp_mod_px. unfold set_localhosts.
  replace (<[h:=f l]> (localhosts (pst s))) with (alter f h (localhosts (pst s))); [done|].
  apply map_eq. intros h'. destruct (decide (h = h')) as [<-|].
  - by rewrite lookup_alter_eq, lookup_insert_eq, Hl.
  - by rewrite lookup_alter_ne, lookup_insert_ne.
Qed.

(** ** Requests of local entities *)

(** A relation with, or without, one pair, if [P] holds. *)
Definition adds (P : Prop) (h : positive) (id : bytes) (R R' : positive → bytes → Prop) : Prop :=
  ∀ h' id', R' h' id' ↔ R h' id' ∨ (h' = h ∧ id' = id ∧ P).
Definition drops (P : Prop) (h : positive) (id : bytes) (R R' : positive → bytes → Prop) : Prop :=
  ∀ h' id', R' h' id' ↔ R h' id' ∧ ¬ (h' = h ∧ id' = id ∧ P).
Definition keeps (R R' : positive → bytes → Prop) : Prop := ∀ h' id', R' h' id' ↔ R h' id'.

(** The strategies whose publications the proxy announces. *)
Definition announced (strategy : Z) : Prop := strategy = NODE_LOCAL ∨ strategy = DOMAIN_LOCAL.

Definition pub_fits (s : Proxy) (id : bytes) (strategy : Z) : Prop :=
  announced strategy ∧ ∀ ap, activePublicationIndex s !! id = Some ap → ap_strategy ap = strategy.
Definition sub_fits (s : Proxy) (id : bytes) (strategy : Z) : Prop :=
  ∀ a, activeSubscriptionIndex s !! id = Some a → as_strategy a = strategy.

(** The publisher was told to publish again. *)
Definition asked_again (s : Proxy) (h : positive) (id : bytes) : Prop :=
  ∃ ap, activePublicationIndex s !! id = Some ap ∧
    (publishers ap !! h = Some RE_PUBLISH ∨ publishers ap !! h = Some RESUME_PUBLISH).

Lemma announced_eqb strategy :
  ((strategy =? NODE_LOCAL) || (strategy =? DOMAIN_LOCAL))%Z = true ↔ announced strategy.
Proof. unfold announced. rewrite orb_true_iff, !Z.eqb_eq. done. Qed.

Lemma state_again h m :
  ((state_of h m =? RE_PUBLISH) || (state_of h m =? RESUME_PUBLISH))%Z = true ↔
  m !! h = Some RE_PUBLISH ∨ m !! h = Some RESUME_PUBLISH.
Proof.
  unfold state_of. rewrite orb_true_iff, !Z.eqb_eq. destruct (m !! h) as [v|]; cbn; [naive_solver|].
  split; intros [?|?]; done.
Qed.

Lemma find_insert_known h v m h' v' :
  find_insert h v m !! h' = Some v' → m !! h' = Some v' ∨ v' = v.
Proof.
  unfold find_insert. destruct (m !! h); [by left|]. intros [[<- <-]|[_ ?]]%lookup_insert_Some; auto.
Qed.

(** A new publisher was not told anything yet. *)
Lemma pub_ok_join id h ap :
  pub_ok id ap → pub_ok id (with_publishers (find_insert h STOP_PUBLISH) ap).
Proof.
  intros (? & ? & ? & Hk). split_and!; [done..|]. cbn.
  intros h' v [Hv|Hv]%find_insert_known ?; [by eapply Hk|done].
Qed.

Lemma find_insert_lookup h v m h' :
  is_Some (find_insert h v m !! h') ↔ is_Some (m !! h') ∨ h' = h.
Proof.
  unfold find_insert. destruct (m !! h) as [w|] eqn:E.
  - split; [by left|]. intros [?| ->]; [done|by rewrite E].
  - destruct (decide (h = h')) as [<-|].
    + rewrite lookup_insert_eq. split; [by right|by eexists].
    + rewrite lookup_insert_ne by done. naive_solver.
Qed.

Lemma publishes_lookup s id ap h : activePublicationIndex s !! id = Some ap →
  publishes s h id ↔ is_Some (publishers ap !! h).
Proof. intros E. unfold publishes. rewrite E. naive_solver. Qed.

Lemma publishes_none s id h : activePublicationIndex s !! id = None → ¬ publishes s h id.
Proof. intros E. unfold publishes. rewrite E. naive_solver. Qed.

Lemma subscribes_lookup s id a h : activeSubscriptionIndex s !! id = Some a →
  subscribes s h id ↔ h ∈ subscribers a.
Proof. intros E. unfold subscribes. rewrite E. naive_solver. Qed.

Lemma subscribes_none s id h : activeSubscriptionIndex s !! id = None → ¬ subscribes s h id.
Proof. intros E. unfold subscribes. rewrite E. naive_solver. Qed.

Section requests.
Context (h : positive) (s : px).
Hypothesis Hinv : px_inv (pst s).
Hypothesis Halive : is_Some (localhosts (pst s) !! h).

Lemma pub_set id l : localhosts (pst s) !! h = Some l →
  id ∈ activePublications l ↔ publishes (pst s) h id.
Proof. apply (pi_pub _ Hinv). Qed.

Lemma sub_set id l : localhosts (pst s) !! h = Some l →
  id ∈ activeSubscriptions l ↔ subscribes (pst s) h id.
Proof. apply (pi_sub _ Hinv). Qed.

(** Adding [h] to an entry. *)
Lemma join_pub id ap ap' : pub_ok id ap' →
  (∀ h', is_Some (publishers ap' !! h') ↔ is_Some (publishers ap !! h') ∨ h' = h) →
  (∀ h', publishes (pst s) h' id ↔ is_Some (publishers ap !! h')) →
  px_inv (put_pub id (Some ap') h (set_add id) (pst s)).
Proof.
  intros Hok Hap' Hap. apply put_pub_inv; [done|done|..].
  - intros h' Hne. rewrite Hap. unfold pub_at. naive_solver.
  - intros l id' Hl. unfold set_add. rewrite elem_of_union, elem_of_singleton, (pub_set _ _ Hl).
    case_decide; [subst|naive_solver]. unfold pub_at. naive_solver.
  - intros ? [= <-]. split; [|done]. intros E.
    destruct (proj2 (Hap' h) (or_intror eq_refl)) as [v Hv]. by rewrite E, lookup_empty in Hv.
Qed.

Lemma join_sub id a a' : id_ok id → route_ok (as_RVFID a') →
  (∀ h', h' ∈ subscribers a' ↔ h' ∈ subscribers a ∨ h' = h) →
  (∀ h', subscribes (pst s) h' id ↔ h' ∈ subscribers a) →
  px_inv (put_sub id (Some a') h (set_add id) (pst s)).
Proof.
  intros Hid Hfid Ha' Ha. apply put_sub_inv; [done|done|..].
  - intros h' Hne. rewrite Ha. unfold sub_at. naive_solver.
  - intros l id' Hl. unfold set_add. rewrite elem_of_union, elem_of_singleton, (sub_set _ _ Hl).
    case_decide; [subst|naive_solver]. unfold sub_at. naive_solver.
  - intros ? [= <-]. split; [|done]. intros E.
    pose proof (proj2 (Ha' h) (or_intror eq_refl)). set_solver.
Qed.

(** Taking [h] out of an entry; the entry goes with its last host. *)
Lemma part_pub id ap o : activePublicationIndex (pst s) !! id = Some ap →
  (∀ h', pub_at o h' ↔ is_Some (publishers ap !! h') ∧ h' ≠ h) →
  (∀ ap', o = Some ap' → publishers ap' ≠ ∅ ∧ (pub_ok id ap → pub_ok id ap')) →
  px_inv (put_pub id o h (set_del id) (pst s)).
Proof.
  intros E Ho Hne. pose proof (publishes_lookup _ _ _ h E) as Hp.
  destruct (pi_pub_entry _ Hinv _ _ E) as (_ & Hok). apply put_pub_inv; [done|done|..].
  - intros h' Hh'. rewrite Ho, (publishes_lookup _ _ _ _ E). naive_solver.
  - intros l id' Hl. unfold set_del.
    rewrite elem_of_difference, elem_of_singleton, (pub_set _ _ Hl).
    case_decide; [subst; rewrite Ho|]; naive_solver.
  - intros ap' Hap'. destruct (Hne _ Hap') as [? Hok']. auto.
Qed.

Lemma part_sub id a o : activeSubscriptionIndex (pst s) !! id = Some a →
  (∀ h', sub_at o h' ↔ h' ∈ subscribers a ∧ h' ≠ h) →
  (∀ a', o = Some a' → subscribers a' ≠ ∅ ∧ as_RVFID a' = as_RVFID a) →
  px_inv (put_sub id o h (set_del id) (pst s)).
Proof.
  intros E Ho Hne. pose proof (subscribes_lookup _ _ _ h E) as Hp.
  destruct (pi_sub_entry _ Hinv _ _ E) as (_ & Hid & Hfid). apply put_sub_inv; [done|done|..].
  - intros h' Hh'. rewrite Ho, (subscribes_lookup _ _ _ _ E). naive_solver.
  - intros l id' Hl. unfold set_del.
    rewrite elem_of_difference, elem_of_singleton, (sub_set _ _ Hl).
    case_decide; [subst; rewrite Ho|]; naive_solver.
  - intros a' Ha'. destruct (Hne _ Ha') as [? ->]. done.
Qed.
End requests.

(** An entry without [h], gone if nobody is left. *)
Definition leave_pub (h : positive) (ap : ActivePublication) : option ActivePublication :=
  let ap' := with_publishers (delete h) ap in
  if decide (size (publishers ap') = 0) then None else Some ap'.
Definition leave_sub (h : positive) (a : ActiveSubscription) : option ActiveSubscription :=
  let a' := with_subscribers (λ X, X ∖ {[h]}) a in
  if decide (size (subscribers a') = 0) then None else Some a'.

Lemma leave_pub_at h ap h' :
  pub_at (leave_pub h ap) h' ↔ is_Some (publishers ap !! h') ∧ h' ≠ h.
Proof.
  assert (is_Some (delete h (publishers ap) !! h') ↔ is_Some (publishers ap !! h') ∧ h' ≠ h) as Hd.
  { destruct (decide (h = h')) as [<-|].
    - rewrite lookup_delete_eq, is_Some_alt. naive_solver.
    - rewrite lookup_delete_ne by done. naive_solver. }
  rewrite <-Hd. unfold leave_pub, pub_at. case_decide as E; [|naive_solver].
  apply map_size_empty_iff in E. cbn in E. rewrite E, lookup_empty, is_Some_alt. naive_solver.
Qed.

Lemma leave_sub_at h a h' : sub_at (leave_sub h a) h' ↔ h' ∈ subscribers a ∧ h' ≠ h.
Proof.
  assert (h' ∈ subscribers a ∖ {[h]} ↔ h' ∈ subscribers a ∧ h' ≠ h) as Hd by set_solver.
  rewrite <-Hd. unfold leave_sub, sub_at. case_decide as E; [|naive_solver].
  apply size_empty_inv in E. cbn in E. split; [naive_solver|]. intros Hin. set_solver.
Qed.

Lemma leave_pub_some h id ap ap' : leave_pub h ap = Some ap' →
  publishers ap' ≠ ∅ ∧ (pub_ok id ap → pub_ok id ap').
Proof.
  unfold leave_pub. case_decide as E; [done|]. intros [= <-]. split.
  - intros E'. apply E. cbn in *. by rewrite E', map_size_empty.
  - intros (? & ? & ? & Hk). split_and!; [done..|]. cbn. intros h' v [_ Hv]%lookup_delete_Some.
    by eapply Hk.
Qed.

Lemma leave_sub_some h a a' : leave_sub h a = Some a' →
  subscribers a' ≠ ∅ ∧ as_RVFID a' = as_RVFID a.
Proof.
  unfold leave_sub. case_decide as E; [done|]. intros [= <-]. split; [|done].
  intros E'. apply E. cbn in *. by rewrite E', size_empty.
Qed.

(** The entry goes exactly when [h] was alone in it. *)
Lemma leave_pub_none h ap : publishers ap ≠ ∅ →
  leave_pub h ap = None ↔
  is_Some (publishers ap !! h) ∧ ∀ h', is_Some (publishers ap !! h') → h' = h.
Proof.
  intros Hne. pose proof (leave_pub_at h ap) as Hat. unfold pub_at in Hat. split.
  - intros E. assert (∀ h', is_Some (publishers ap !! h') → h' = h) as Hall.
    { intros h' Hh'. destruct (decide (h' = h)) as [|Hh]; [done|].
      destruct (proj2 (Hat h')) as (? & ? & _); [done|congruence]. }
    split; [|done]. apply map_choose in Hne as (h' & v & Hv).
    assert (is_Some (publishers ap !! h')) as Hh' by (by rewrite Hv). by rewrite <-(Hall _ Hh').
  - intros [Hh Hall]. destruct (leave_pub h ap) as [ap'|] eqn:E; [|done].
    destruct (leave_pub_some _ [] _ _ E) as [Hne' _]. apply map_choose in Hne' as (h' & v & Hv).
    destruct (proj1 (Hat h')) as [Hin Hh']; [exists ap'; by rewrite Hv|]. by apply Hall in Hin.
Qed.

Lemma leave_sub_none h a : subscribers a ≠ ∅ →
  leave_sub h a = None ↔ h ∈ subscribers a ∧ ∀ h', h' ∈ subscribers a → h' = h.
Proof.
  intros Hne. pose proof (leave_sub_at h a) as Hat. unfold sub_at in Hat. split.
  - intros E. assert (∀ h', h' ∈ subscribers a → h' = h) as Hall.
    { intros h' Hh'. destruct (decide (h' = h)) as [|Hh]; [done|].
      destruct (proj2 (Hat h')) as (? & ? & _); [done|congruence]. }
    split; [|done]. apply set_choose_L in Hne as (h' & Hh'). by rewrite <-(Hall _ Hh').
  - intros [Hh Hall]. destruct (leave_sub h a) as [a'|] eqn:E; [|done].
    destruct (leave_sub_some _ _ _ E) as [Hne' _]. apply set_choose_L in Hne' as (h' & Hin).
    destruct (proj1 (Hat h')) as [Hin' Hh']; [by exists a'|]. by apply Hall in Hin'.
Qed.

(** ** What a request leaves behind *)

(** Hosts keep their identity, and none comes or goes. *)
Definition same_hosts (s s' : Proxy) : Prop :=
  local_pub_sub_Index s' = local_pub_sub_Index s ∧
  ∀ h, (λ l, (lh_type l, lh_id l)) <$> localhosts s' !! h =
       (λ l, (lh_type l, lh_id l)) <$> localhosts s !! h.

Notation relation_change :=
  ((positive → bytes → Prop) → (positive → bytes → Prop) → Prop) (only parsing).

(** No packet is sent, and the two relations change as described. *)
Record settles (Rp Rs : relation_change) (s s' : px) : Prop := {
  set_inv : px_inv (pst s');
  set_quiet : pout s' = pout s;
  set_hosts' : same_hosts (pst s) (pst s');
  set_pub : Rp (publishes (pst s)) (publishes (pst s'));
  set_sub : Rs (subscribes (pst s)) (subscribes (pst s'));
}.

Lemma same_hosts_alter f h s : (∀ l, lh_type (f l) = lh_type l ∧ lh_id (f l) = lh_id l) → ∀ h',
  (λ l, (lh_type l, lh_id l)) <$> alter f h (localhosts s) !! h' =
  (λ l, (lh_type l, lh_id l)) <$> localhosts s !! h'.
Proof.
  intros Hf h'. destruct (decide (h = h')) as [<-|].
  - rewrite lookup_alter_eq. destruct (localhosts s !! h); cbn; [|done].
    by destruct (Hf l) as [-> ->].
  - by rewrite lookup_alter_ne.
Qed.

Lemma settles_same (Rp Rs : relation_change) s : px_inv (pst s) →
  Rp (publishes (pst s)) (publishes (pst s)) → Rs (subscribes (pst s)) (subscribes (pst s)) →
  settles Rp Rs s s.
Proof. intros. by split. Qed.

Lemma settles_pub (Rp : relation_change) s id o h f :
  px_inv (put_pub id o h f (pst s)) →
  Rp (publishes (pst s)) (publishes (put_pub id o h f (pst s))) →
  settles Rp keeps s (mkPx (put_pub id o h f (pst s)) (pout s)).
Proof. intros. split; try done. split; [done|]. by apply same_hosts_alter. Qed.

Lemma settles_sub (Rs : relation_change) s id o h f :
  px_inv (put_sub id o h f (pst s)) →
  Rs (subscribes (pst s)) (subscribes (put_sub id o h f (pst s))) →
  settles keeps Rs s (mkPx (put_sub id o h f (pst s)) (pout s)).
Proof. intros. split; try done. split; [done|]. by apply same_hosts_alter. Qed.

Lemma adds_nothing (P : Prop) h id (R : positive → bytes → Prop) :
  (P → R h id) → adds P h id R R.
Proof. intros HP h' id'. naive_solver. Qed.

Lemma drops_nothing (P : Prop) h id (R : positive → bytes → Prop) :
  (P → ¬ R h id) → drops P h id R R.
Proof. intros HP h' id'. naive_solver. Qed.

(** The pairs of updates that the operations are made of. *)
Section put_rules.
Context {A : Type} (F : fault → Prop) (h : positive) (id : bytes) (f : gset bytes → gset bytes).
Context (k : M px A) (Q : A → px → Prop) (s : px).
Hypothesis Halive : is_Some (localhosts (pst s) !! h).

Lemma wp_join_pub ap : wp F k Q (mkPx (put_pub id (Some ap) h f (pst s)) (pout s)) →
  wp F (_ ← mod_px (set_pubs (insert id ap)); _ ← mod_lh h (with_pubs f); k) Q s.
Proof. intros HQ. by apply wp_bind, wp_mod_px, wp_bind, wp_mod_lh. Qed.

Lemma wp_join_sub a : wp F k Q (mkPx (put_sub id (Some a) h f (pst s)) (pout s)) →
  wp F (_ ← mod_px (set_subs (insert id a)); _ ← mod_lh h (with_subs f); k) Q s.
Proof. intros HQ. by apply wp_bind, wp_mod_px, wp_bind, wp_mod_lh. Qed.

Lemma wp_part_pub ap (k1 k2 : M px A) :
  wp F match leave_pub h ap with Some _ => k2 | None => k1 end Q
    (mkPx (put_pub id (leave_pub h ap) h f (pst s)) (pout s)) →
  wp F (_ ← mod_lh h (with_pubs f);
        if decide (size (publishers (with_publishers (delete h) ap)) = 0)
        then _ ← mod_px (set_pubs (delete id)); k1
        else _ ← mod_px (set_pubs (insert id (with_publishers (delete h) ap))); k2) Q s.
Proof.
  intros HQ. apply wp_bind, wp_mod_lh; [done|]. unfold leave_pub in HQ.
  case_decide; by apply wp_bind, wp_mod_px.
Qed.

Lemma wp_part_sub a (k1 k2 : M px A) :
  wp F match leave_sub h a with Some _ => k2 | None => k1 end Q
    (mkPx (put_sub id (leave_sub h a) h f (pst s)) (pout s)) →
  wp F (_ ← mod_lh h (with_subs f);
        if decide (size (subscribers (with_subscribers (λ X, X ∖ {[h]}) a)) = 0)
        then _ ← mod_px (set_subs (delete id)); k1
        else _ ← mod_px (set_subs (insert id (with_subscribers (λ X, X ∖ {[h]}) a))); k2) Q s.
Proof.
  intros HQ. apply wp_bind, wp_mod_lh; [done|]. unfold leave_sub in HQ.
  case_decide; by apply wp_bind, wp_mod_px.
Qed.
End put_rules.

Section operations.
Context (h : positive) (id : bytes) (strategy : Z) (s : px).
Hypothesis Hinv : px_inv (pst s).
Hypothesis Halive : is_Some (localhosts (pst s) !! h).

Lemma first_publication RVFID isScope : id_ok id → route_ok RVFID → announced strategy →
  activePublicationIndex (pst s) !! id = None →
  settles (adds (pub_fits (pst s) id strategy) h id) keeps s
    (mkPx (put_pub id (Some (with_publishers (find_insert h STOP_PUBLISH)
       (new_ActivePublication strategy RVFID isScope))) h (set_add id) (pst s)) (pout s)).
Proof.
  intros Hid Hfid Hs E. assert (∀ h', is_Some (find_insert h STOP_PUBLISH ∅ !! h') ↔ h' = h) as Hf.
  { intros h'. rewrite find_insert_lookup, lookup_empty, is_Some_alt. naive_solver. }
  assert (∀ h', ¬ publishes (pst s) h' id) as Hnone by (intros h'; by apply publishes_none).
  apply settles_pub.
  - eapply (join_pub h s Hinv Halive id (new_ActivePublication strategy RVFID isScope)).
    + apply pub_ok_join. split_and!; [done|done|by left|done].
    + intros h'. apply find_insert_lookup.
    + intros h'. cbn. rewrite lookup_empty, is_Some_alt. specialize (Hnone h'). naive_solver.
  - intros h' id'. rewrite publishes_put. case_decide; [subst|naive_solver].
    specialize (Hnone h'). unfold pub_at, pub_fits. rewrite E. split.
    { intros (ap & [= <-] & Hh'%Hf). naive_solver. }
    intros [?|(-> & _)]; [done|]. eexists. split; [done|]. by apply Hf.
Qed.

Lemma storeActivePublication_spec RVFID isScope : id_ok id → route_ok RVFID →
  wp no_fault (storeActivePublication h id strategy RVFID isScope) (λ forward s',
    settles (adds (pub_fits (pst s) id strategy) h id) keeps s s' ∧
    (forward = true ↔ announced strategy ∧
       ((∀ h', ¬ publishes (pst s) h' id) ∨ asked_again (pst s) h id))) s.
Proof.
  intros Hid Hfid. unfold storeActivePublication, pub_fits.
  destruct (_ || _)%Z eqn:Hs; [apply announced_eqb in Hs|]; cycle 1.
  { assert (¬ announced strategy) by (rewrite <-announced_eqb, Hs; done).
    apply wp_ret. split; [|naive_solver].
    apply settles_same; [done| |done]. apply adds_nothing. naive_solver. }
  apply wp_bind, wp_get_px. destruct (activePublicationIndex (pst s) !! id) as [ap|] eqn:E.
  - destruct (_ || _)%Z eqn:Hst.
    { apply state_again in Hst. apply wp_ret. split.
      - apply settles_same; [done| |done]. apply adds_nothing. intros _. exists ap.
        split; [done|]. destruct Hst as [-> | ->]; by eexists.
      - split; [intros _|done]. split; [done|]. right. by exists ap. }
    assert (¬ asked_again (pst s) h id) as Hna.
    { intros (ap0 & E0 & Hst0). assert (ap0 = ap) as -> by congruence.
      apply state_again in Hst0. congruence. }
    assert (∃ h', publishes (pst s) h' id) as Hsome.
    { destruct (pi_pub_entry _ Hinv _ _ E) as (Hne & _). apply map_choose in Hne as (h' & v & Hv).
      exists h', ap. by rewrite Hv. }
    destruct (Z.eqb_spec (ap_strategy ap) strategy) as [Heq|Hne].
    + apply wp_join_pub; [done|]. apply wp_ret.
      pose proof (find_insert_lookup h STOP_PUBLISH (publishers ap)) as Hf.
      split; [|naive_solver]. apply settles_pub.
      * eapply (join_pub h s Hinv Halive id ap).
        { apply pub_ok_join, (pi_pub_entry _ Hinv _ _ E). }
        { intros h'. cbn. apply Hf. }
        { intros h'. by apply publishes_lookup. }
      * intros h' id'. rewrite publishes_put. case_decide; [subst|naive_solver].
        rewrite (publishes_lookup _ _ _ h' E). unfold pub_at. specialize (Hf h'). naive_solver.
    + apply wp_ret. split; [|naive_solver].
      apply settles_same; [done| |done]. apply adds_nothing. naive_solver.
  - apply wp_join_pub; [done|]. apply wp_ret. split.
    + pose proof (first_publication RVFID isScope Hid Hfid Hs E) as Hfirst.
      unfold pub_fits in Hfirst. by rewrite E in Hfirst.
    + split; [intros _|done]. split; [done|]. left. intros h'. by apply publishes_none.
Qed.

Lemma removeActivePublication_spec :
  wp no_fault (removeActivePublication h id strategy) (λ forward s',
    settles (drops (pub_fits (pst s) id strategy) h id) keeps s s' ∧
    (forward = true ↔ pub_fits (pst s) id strategy ∧ publishes (pst s) h id ∧
       ∀ h', publishes (pst s) h' id → h' = h)) s.
Proof.
  unfold removeActivePublication, pub_fits.
  destruct (_ || _)%Z eqn:Hs; [apply announced_eqb in Hs|]; cycle 1.
  { assert (¬ announced strategy) by (rewrite <-announced_eqb, Hs; done).
    apply wp_ret. split; [|naive_solver].
    apply settles_same; [done| |done]. apply drops_nothing. naive_solver. }
  apply wp_bind, wp_get_px. destruct (activePublicationIndex (pst s) !! id) as [ap|] eqn:E.
  - destruct (Z.eqb_spec (ap_strategy ap) strategy) as [Heq|Hne].
    + apply wp_part_pub; [done|]. pose proof (leave_pub_at h ap) as Hat.
      assert (settles (drops (announced strategy ∧ ∀ ap0, Some ap = Some ap0 →
        ap_strategy ap0 = strategy) h id) keeps s
        (mkPx (put_pub id (leave_pub h ap) h (set_del id) (pst s)) (pout s))) as Hset.
      { apply settles_pub.
        - apply (part_pub h s Hinv Halive id ap); [done|done|apply leave_pub_some].
        - intros h' id'. rewrite publishes_put. case_decide; [subst|naive_solver].
          rewrite Hat, (publishes_lookup _ _ _ _ E). naive_solver. }
      assert (leave_pub h ap = None ↔ publishes (pst s) h id ∧
        ∀ h', publishes (pst s) h' id → h' = h) as Hsole.
      { setoid_rewrite (publishes_lookup _ _ _ _ E). apply leave_pub_none.
        apply (pi_pub_entry _ Hinv _ _ E). }
      destruct (leave_pub h ap); apply wp_ret; (split; [done|]); naive_solver.
    + apply wp_ret. split; [|naive_solver].
      apply settles_same; [done| |done]. apply drops_nothing. naive_solver.
  - apply wp_ret. pose proof (publishes_none _ _ h E). split; [|naive_solver].
    apply settles_same; [done| |done]. apply drops_nothing. naive_solver.
Qed.

Lemma first_subscription RVFID isScope : id_ok id → route_ok RVFID →
  activeSubscriptionIndex (pst s) !! id = None →
  settles keeps (adds (sub_fits (pst s) id strategy) h id) s
    (mkPx (put_sub id (Some (with_subscribers (λ X, {[h]} ∪ X)
       (new_ActiveSubscription strategy RVFID isScope))) h (set_add id) (pst s)) (pout s)).
Proof.
  intros Hid Hfid E.
  assert (∀ h', ¬ subscribes (pst s) h' id) as Hnone by (intros h'; by apply subscribes_none).
  apply settles_sub.
  - eapply (join_sub h s Hinv Halive id (new_ActiveSubscription strategy RVFID isScope));
      [done|done| |]; intros h'; [set_solver|]. specialize (Hnone h'). set_solver.
  - intros h' id'. rewrite subscribes_put. case_decide; [subst|naive_solver].
    specialize (Hnone h'). unfold sub_at, sub_fits. rewrite E. split.
    { intros (a & [= <-] & Hh'). cbn in Hh'. set_solver. }
    intros [?|(-> & _)]; [done|]. eexists. split; [done|]. set_solver.
Qed.

Lemma storeActiveSubscription_spec RVFID isScope : id_ok id → route_ok RVFID →
  wp no_fault (storeActiveSubscription h id strategy RVFID isScope) (λ forward s',
    settles keeps (adds (sub_fits (pst s) id strategy) h id) s s' ∧
    (forward = true ↔ sub_fits (pst s) id strategy ∧
       ((∃ h', subscribes (pst s) h' id) ∨ kept_local strategy = false))) s.
Proof.
  intros Hid Hfid. unfold storeActiveSubscription, sub_fits.
  apply wp_bind, wp_get_px. destruct (activeSubscriptionIndex (pst s) !! id) as [a|] eqn:E.
  - assert (∃ h', subscribes (pst s) h' id) as Hsome.
    { destruct (pi_sub_entry _ Hinv _ _ E) as (Hne & _). apply set_choose_L in Hne as (h' & Hv).
      by exists h', a. }
    destruct (Z.eqb_spec (as_strategy a) strategy) as [Heq|Hne].
    + apply wp_join_sub; [done|]. apply wp_ret. split; [|naive_solver]. apply settles_sub.
      * eapply (join_sub h s Hinv Halive id a); [done| | |].
        { apply (pi_sub_entry _ Hinv _ _ E). }
        { intros h'. cbn. set_solver. }
        { intros h'. by apply subscribes_lookup. }
      * intros h' id'. rewrite subscribes_put. case_decide; [subst|naive_solver].
        rewrite (subscribes_lookup _ _ _ h' E). unfold sub_at. cbn.
        split; [intros (? & [= <-] & Hh'); cbn in Hh'; set_solver|].
        intros Hh'. eexists. split; [done|]. cbn. set_solver.
    + apply wp_ret. split; [|naive_solver].
      apply settles_same; [done|done|]. apply adds_nothing. naive_solver.
  - apply wp_join_sub; [done|]. apply wp_ret. split.
    { pose proof (first_subscription RVFID isScope Hid Hfid E) as Hfirst.
      unfold sub_fits in Hfirst. by rewrite E in Hfirst. }
    rewrite negb_true_iff. split; [intros Hk; split; [naive_solver|by right]|]. intros [_ [(h' & Hh')|?]]; [|done].
    by apply subscribes_none in Hh'.
Qed.

Lemma removeActiveSubscription_spec :
  wp no_fault (removeActiveSubscription h id strategy) (λ forward s',
    settles keeps (drops (sub_fits (pst s) id strategy) h id) s s' ∧
    (forward = true ↔ sub_fits (pst s) id strategy ∧ kept_local strategy = false ∧
       subscribes (pst s) h id ∧ ∀ h', subscribes (pst s) h' id → h' = h)) s.
Proof.
  unfold removeActiveSubscription, sub_fits.
  apply wp_bind, wp_get_px. destruct (activeSubscriptionIndex (pst s) !! id) as [a|] eqn:E.
  - destruct (Z.eqb_spec (as_strategy a) strategy) as [Heq|Hne].
    + apply wp_part_sub; [done|]. pose proof (leave_sub_at h a) as Hat.
      assert (settles keeps (drops (∀ a0, Some a = Some a0 → as_strategy a0 = strategy) h id) s
        (mkPx (put_sub id (leave_sub h a) h (set_del id) (pst s)) (pout s))) as Hset.
      { apply settles_sub.
        - apply (part_sub h s Hinv Halive id a); [done|done|apply leave_sub_some].
        - intros h' id'. rewrite subscribes_put. case_decide; [subst|naive_solver].
          rewrite Hat, (subscribes_lookup _ _ _ _ E). naive_solver. }
      assert (leave_sub h a = None ↔ subscribes (pst s) h id ∧
        ∀ h', subscribes (pst s) h' id → h' = h) as Hsole.
      { setoid_rewrite (subscribes_lookup _ _ _ _ E). apply leave_sub_none.
        apply (pi_sub_entry _ Hinv _ _ E). }
      destruct (leave_sub h a); apply wp_ret; (split; [done|]); try rewrite negb_true_iff;
        naive_solver.
    + apply wp_ret. split; [|naive_solver].
      apply settles_same; [done|done|]. apply drops_nothing. naive_solver.
  - apply wp_ret. pose proof (subscribes_none _ _ h E). split; [|naive_solver].
    apply settles_same; [done|done|]. apply drops_nothing. naive_solver.
Qed.
End operations.
