(* ===== verification/ProxyLeave.v ===== *)
(** * Disconnection of a local entity

    What the four loops of LocalProxy::disconnect do together: the exact
    tables, packets and order of the packets.  [leaving] is the state in the
    middle of it, described relative to the state at its start. *)
From stdpp Require Import base list gmap sets sorting.
From Stdlib Require Import ZArith Lia.
From S2P Require Import Prelude Enums Bitvector GlobalConf InfoGraph LocalRV RVSafety RVRequests RVRendezvous LocalProxy ProxyInv.

(** ** Packets to the rendezvous point *)

Definition fid_bytes (v : BABitvector) : bytes := take FID_LEN (bytes_of_words (bv_data v)).

(** The request that withdraws [id], as the rendezvous point reads it. *)
Definition withdrawal (type : Z) (id : bytes) (strategy : Z) : bytes :=
  [type; 1%Z] ++ suffix id ++ [Z.of_nat (level id - 1)] ++ prefix id ++ [strategy].

Section packets.
Context (gc : GlobalConf).
Hypothesis Hgc : gc_ok gc.

Definition rv_message (type : Z) (id : bytes) (RVFID : BABitvector) (strategy : Z) : px_event :=
  if rv_is_local gc RVFID
  then Output 1 None (Some <$> [PUBLISHED_DATA; 2%Z] ++ nodeRVScope gc ++ withdrawal type id strategy)
  else Output 2 None (Some <$> fid_bytes RVFID ++ [1%Z; 2%Z] ++ nodeRVScope gc
                        ++ withdrawal type id strategy).

Lemma length_nodeRVScope : length (nodeRVScope gc) = 2 * PURSUIT_ID_LEN.
Proof.
  rewrite (go_noderv _ Hgc), length_app, (go_rvscope _ Hgc), (go_node _ Hgc). done.
Qed.

Lemma IDLengthOfAPIEvent_eq : IDLengthOfAPIEvent gc = 2%Z.
Proof. unfold IDLengthOfAPIEvent. by rewrite length_nodeRVScope. Qed.

Lemma fid_bytes_run v (s : px) : fid_ok v → fid_data v s = Ok (fid_bytes v, s).
Proof.
  intros [Hwf Hsz]. unfold fid_data, fid_bytes. rewrite decide_True; [done|].
  rewrite length_bytes_of_words. assert (8 ≤ length (bv_data v)) as Hlen; [|unfold FID_LEN; lia].
  etrans; [|apply (wf_used _ Hwf)]. unfold used_words, max_word. by rewrite Hsz.
Qed.

Lemma length_fid_bytes v : fid_ok v → length (fid_bytes v) = FID_LEN.
Proof.
  intros Hv. pose proof (fid_bytes_run v (mkPx empty_proxy []) Hv) as Hrun.
  unfold fid_data in Hrun. case_decide as Hlen; [|done]. unfold fid_bytes.
  rewrite length_take. lia.
Qed.

Lemma remote_route v : rv_is_local gc v = false → route_ok v → fid_ok v.
Proof. unfold rv_is_local. intros [Hz _]%orb_false_iff [?|?]; [congruence|done]. Qed.

(** The fragments of an identifier. *)
Lemma id_ok_prefix id : id_ok id → length (suffix id) = PURSUIT_ID_LEN ∧
  length (prefix id) = (level id - 1) * PURSUIT_ID_LEN ∧ 1 ≤ level id ≤ 256 ∧
  prefixIDLength id = Z.of_nat (level id - 1).
Proof.
  intros (k & Hk & Hk1). assert (level id = k) as Hl by (unfold level; rewrite Hk; by apply Nat.div_mul).
  rewrite Hl. split; [|split; [|split; [lia|]]].
  - apply length_suffix. unfold PURSUIT_ID_LEN in *. lia.
  - unfold prefix. rewrite length_take. unfold PURSUIT_ID_LEN in *. lia.
  - unfold prefixIDLength, u8. rewrite Hk.
    replace (Z.of_nat (k * PURSUIT_ID_LEN) - Z.of_nat PURSUIT_ID_LEN)%Z
      with (Z.of_nat (k - 1) * Z.of_nat PURSUIT_ID_LEN)%Z by (unfold PURSUIT_ID_LEN; lia).
    rewrite Z.quot_mul by done. apply Z.mod_small. lia.
Qed.

Lemma px_send_exact port len fields s : len = length (concat fields) →
  px_send port len fields [] s
    = Ok (tt, mkPx (pst s) (pout s ++ [Output port None (Some <$> concat fields)])).
Proof. intros ->. unfold px_send. rewrite app_nil_r. by rewrite memcpys_exact. Qed.

Lemma withdraw_run type id RVFID strategy s : id_ok id → route_ok RVFID →
  withdraw gc type id RVFID strategy s
    = Ok (tt, mkPx (pst s) (pout s ++ [rv_message type id RVFID strategy])).
Proof.
  intros Hid Hfid. destruct (id_ok_prefix id Hid) as (Hsfx & Hpre & Hl & Hpl).
  unfold withdraw, createAndSendPacketToRV, rv_message. rewrite Hpl, IDLengthOfAPIEvent_eq.
  pose proof length_nodeRVScope as Hn.
  rewrite Nat2Z.id. destruct (rv_is_local gc RVFID) eqn:Hloc.
  - rewrite px_send_exact.
    + done.
    + cbn [concat app length]. rewrite !length_app. cbn [length]. rewrite !length_app.
      cbn [length]. rewrite !length_app. cbn [length]. rewrite Hn, Hsfx, Hpre. lia.
  - apply remote_route in Hloc; [|done]. pose proof (length_fid_bytes _ Hloc) as Hf.
    rewrite (run_bind _ _ _ _ _ (fid_bytes_run _ s Hloc)).
    rewrite (run_bind _ _ s (nodeRVScope gc) s); cycle 1.
    { unfold read_bytes. rewrite decide_True by lia. unfold substr.
      by rewrite drop_0, take_ge by lia. }
    rewrite px_send_exact.
    + done.
    + cbn [concat app length]. rewrite !length_app. cbn [length]. rewrite !length_app.
      cbn [length]. rewrite !length_app. cbn [length]. rewrite !length_app. cbn [length].
      rewrite Hn, Hf, Hsfx, Hpre. lia.
Qed.
End packets.

(** ** Loops *)

(** A loop over the elements of a table that handles those with [P]. *)
Lemma wp_for_set `{HO : HashOrder} (F : fault → Prop) (X : gset bytes) (P : bytes → Prop)
    `{∀ id, Decision (P id)} (body : bytes → M px unit) (I : gset bytes → px → Prop) s :
  I ∅ s →
  (∀ id Y s', id ∈ X → P id → id ∉ Y → I Y s' → wp F (body id) (λ _ s'', I ({[id]} ∪ Y) s'') s') →
  (∀ id Y s', id ∈ X → ¬ P id → id ∉ Y → I Y s' → wp F (body id) (λ _ s'', I Y s'') s') →
  wp F (for_each (str_order X) body) (λ _ s', I (filter P X) s') s.
Proof.
  intros HI Hin Hout.
  assert (NoDup (str_order X)) as Hnd by (rewrite str_order_perm; apply NoDup_elements).
  eapply wp_mono; [apply (wp_for_each F _ _ (λ l s', NoDup l ∧ (∀ id, id ∈ l → id ∈ X) ∧
    I (filter P X ∖ list_to_set l) s'))|].
  - split_and!; [done|by intros id ?%elem_of_str_order|].
    replace (filter P X ∖ _) with (∅ : gset bytes); [done|]. apply set_eq. intros id.
    rewrite elem_of_difference, elem_of_filter, elem_of_list_to_set, elem_of_str_order. set_solver.
  - intros id l s' ([Hid Hnd']%NoDup_cons & HX & HI'). cbn [list_to_set] in HI'.
    assert (id ∈ X) as HidX by (apply HX; left). destruct (decide (P id)) as [HP|HP].
    + eapply wp_mono; [eapply (Hin _ _ _ HidX HP); [|exact HI']; set_solver|].
      intros [] s'' HI''. split_and!; [done|intros; apply HX; by right|].
      replace (filter P X ∖ _) with ({[id]} ∪ filter P X ∖ ({[id]} ∪ list_to_set l)); [done|].
      apply set_eq. intros x. rewrite elem_of_union, !elem_of_difference, elem_of_union,
        elem_of_filter, elem_of_singleton, elem_of_list_to_set.
      destruct (decide (x = id)) as [->|]; naive_solver.
    + eapply wp_mono; [eapply (Hout _ _ _ HidX HP); [|exact HI']; set_solver|].
      intros [] s'' HI''. split_and!; [done|intros; apply HX; by right|].
      replace (filter P X ∖ list_to_set l) with (filter P X ∖ ({[id]} ∪ list_to_set l)); [done|].
      apply set_eq. intros x. rewrite !elem_of_difference, elem_of_union, elem_of_filter,
        elem_of_singleton. naive_solver.
  - intros [] s' (_ & _ & HI'). cbn in HI'. by rewrite difference_empty_L in HI'.
Qed.

Lemma wp_for_levels F top (body : nat → M px unit) (J : nat → px → Prop) s :
  J top s →
  (∀ i s', J (S i) s' → wp F (body (S i)) (λ _ s'', J i s'') s') →
  wp F (for_levels top body) (λ _ s', J 0 s') s.
Proof.
  intros HJ Hb. revert s HJ. induction top as [|i IH]; intros s HJ; simpl; [done|].
  apply wp_bind. eapply wp_mono; [by apply Hb|]. eauto.
Qed.

(** The deepest level of the scopes among [ids]. *)
Lemma max_level_spec F isScope (scope : bytes → bool) ids m s (Q : nat → px → Prop) :
  (∀ id, id ∈ ids → isScope id s = Ok (scope id, s)) →
  (∀ top, m ≤ top → (∀ id, id ∈ ids → scope id = true → level id ≤ top) → Q top s) →
  wp F (max_level isScope ids m) Q s.
Proof.
  revert m. induction ids as [|id ids IH]; intros m Hrun HQ; simpl.
  - apply wp_ret, HQ; [done|]. intros id Hid. by apply elem_of_nil in Hid.
  - apply wp_bind. unfold wp at 1. rewrite (Hrun id) by left.
    apply IH; [intros; apply Hrun; by right|]. intros top Hm Hall. apply HQ.
    + revert Hm. destruct (scope id && _) eqn:E; [|done].
      apply andb_true_iff in E as [_ E%Nat.ltb_lt]. lia.
    + intros x [->|Hx]%elem_of_cons Hs; [|by apply Hall]. rewrite Hs in Hm. revert Hm. cbn [andb].
      destruct (Nat.ltb_spec m (level id)); lia.
Qed.

(** ** What the others are told *)

Inductive farewell :=
| Withdrawn (type : Z) (id : bytes) (RVFID : BABitvector) (strategy : Z)
| Promoted (id : bytes) (h : positive).

Definition unpublish_type (isScope : bool) : Z :=
  if isScope then UNPUBLISH_SCOPE else UNPUBLISH_INFO.
Definition unsubscribe_type (isScope : bool) : Z :=
  if isScope then UNSUBSCRIBE_SCOPE else UNSUBSCRIBE_INFO.

Definition start_packet (id : bytes) : bytes := [START_PUBLISH; fragments id] ++ id.

(** The packet for a local entity. *)
Definition host_event (l : LocalHost) (p : bytes) : px_event :=
  match lh_type l with
  | CLICK_ELEMENT => Output (lh_id l) None (Some <$> p)
  | LOCAL_PROCESS => Output 0 (Some (lh_id l)) (Some <$> p)
  end.

Section farewells.
Context `{HO : HashOrder} (gc : GlobalConf).

Definition farewell_event (s : Proxy) (f : farewell) : px_event :=
  match f with
  | Withdrawn type id RVFID strategy => rv_message gc type id RVFID strategy
  | Promoted id h =>
      match localhosts s !! h with Some l => host_event l (start_packet id) | None => Freed end
  end.

(** The publisher that takes over from [h], if [h] was the one that had been
    told to publish an item. *)
Definition successor (h : positive) (ap : ActivePublication) : option positive :=
  match leave_pub h ap with
  | None => None
  | Some ap' =>
      if ap_isScope ap || (state_of h (publishers ap) =? STOP_PUBLISH)%Z then None
      else head (ptr_order (dom (publishers ap')))
  end.

Definition depart_pub (h : positive) (ap : ActivePublication) : option ActivePublication :=
  match successor h ap with
  | Some h' => with_publishers (insert h' START_PUBLISH) <$> leave_pub h ap
  | None => leave_pub h ap
  end.

Definition pub_farewell (s : Proxy) (h : positive) (id : bytes) : option farewell :=
  ap ← activePublicationIndex s !! id;
  match leave_pub h ap with
  | None => Some (Withdrawn (unpublish_type (ap_isScope ap)) id (ap_RVFID ap) (ap_strategy ap))
  | Some _ => Promoted id <$> successor h ap
  end.

Definition sub_farewell (s : Proxy) (h : positive) (id : bytes) : option farewell :=
  a ← activeSubscriptionIndex s !! id;
  match leave_sub h a with
  | None =>
      if kept_local (as_strategy a) then None
      else Some (Withdrawn (unsubscribe_type (as_isScope a)) id (as_RVFID a) (as_strategy a))
  | Some _ => None
  end.

Lemma successor_at h ap h' : successor h ap = Some h' →
  is_Some (publishers ap !! h') ∧ h' ≠ h.
Proof.
  unfold successor. destruct (leave_pub h ap) as [ap'|] eqn:E; [|done].
  destruct (_ || _); [done|]. intros Hh. apply head_Some_elem_of in Hh.
  apply elem_of_ptr_order, elem_of_dom in Hh. apply (leave_pub_at h ap). by exists ap'.
Qed.

Lemma depart_pub_at h ap h' :
  pub_at (depart_pub h ap) h' ↔ is_Some (publishers ap !! h') ∧ h' ≠ h.
Proof.
  rewrite <-leave_pub_at. unfold depart_pub. destruct (successor h ap) as [h0|] eqn:E; [|done].
  apply successor_at, leave_pub_at in E as (ap' & Hap' & Hh0). rewrite Hap'. unfold pub_at. cbn.
  destruct (decide (h0 = h')) as [<-|Hne].
  - split; [naive_solver|]. intros _. eexists. split; [done|]. cbn. by rewrite lookup_insert_eq.
  - split; intros (? & [= <-] & Hin); (eexists; split; [done|]); cbn in *.
    + by rewrite lookup_insert_ne in Hin.
    + by rewrite lookup_insert_ne.
Qed.

Lemma depart_pub_some h id ap ap' : is_Some (publishers ap !! h) → depart_pub h ap = Some ap' →
  publishers ap' ≠ ∅ ∧ (pub_ok id ap → pub_ok id ap').
Proof.
  intros [v Hv]. unfold depart_pub.
  destruct (successor h ap) as [h0|] eqn:Es; [|apply leave_pub_some].
  destruct (leave_pub h ap) as [ap1|] eqn:E; [|done]. intros [= <-].
  split; [cbn; apply insert_non_empty|]. intros Hok. pose proof Hok as (_ & _ & _ & Hk).
  destruct (leave_pub_some _ id _ _ E) as [_ Hok1]. destruct (Hok1 Hok) as (? & ? & ? & _).
  split_and!; [done..|]. intros h' v' _ _.
  replace (ap_allKnownIDs _) with (ap_allKnownIDs ap)
    by (unfold leave_pub in E; case_decide; by simplify_eq).
  apply (Hk h v); [done|]. intros ->. unfold successor, state_of in Es. rewrite E, Hv in Es.
  cbn in Es. by rewrite orb_true_r in Es.
Qed.
End farewells.

(** ** One turn of the loops *)
Section turns.
Context `{HO : HashOrder} (gc : GlobalConf) (h : positive) (id : bytes) (s : px).
Hypothesis Hgc : gc_ok gc.
Hypothesis Halive : is_Some (localhosts (pst s) !! h).
Hypothesis Hid : id_ok id.

Definition says (f : option farewell) : list px_event :=
  farewell_event gc (pst s) <$> option_list f.

Lemma notify_start_run h' l s1 : localhosts (pst s1) !! h' = Some l →
  notify_start h' id s1 = Ok (tt, mkPx (pst s1) (pout s1 ++ [host_event l (start_packet id)])).
Proof.
  intros Hl. unfold notify_start.
  pose proof (memcpys_exact [[START_PUBLISH]; [fragments id]; id]) as Hp.
  cbn [concat app length] in Hp. rewrite app_nil_r in Hp. cbn [Nat.add]. rewrite Hp.
  unfold push_to_host. rewrite (run_bind _ _ _ _ _ (get_lh_run _ _ _ Hl)).
  unfold host_event. by destruct (lh_type l).
Qed.

Lemma first_host_run X h' s1 : head (ptr_order X) = Some h' → first_host X s1 = Ok (h', s1).
Proof. unfold first_host. destruct (ptr_order X); [done|]. by intros [= ->]. Qed.

Lemma wp_withdraw type fid strategy (Q : unit → px → Prop) s1 : route_ok fid →
  Q tt (mkPx (pst s1) (pout s1 ++ [rv_message gc type id fid strategy])) →
  wp no_fault (withdraw gc type id fid strategy) Q s1.
Proof. intros Hf HQ. unfold wp. by rewrite withdraw_run. Qed.

Section publication.
Context (ap : ActivePublication).
Hypothesis Hap : activePublicationIndex (pst s) !! id = Some ap.
Hypothesis Hfid : route_ok (ap_RVFID ap).
Hypothesis Hothers : ∀ h', is_Some (publishers ap !! h') → is_Some (localhosts (pst s) !! h').

Let after_pub : px :=
  mkPx (put_pub id (depart_pub h ap) h (set_del id) (pst s))
    (pout s ++ says (pub_farewell (pst s) h id)).

(** The tables, when the entry goes and when it stays. *)
Lemma put_gone ap' : set_pubs (delete id) (set_pubs (insert id ap')
    (set_localhosts (alter (with_pubs (set_del id)) h) (pst s)))
  = put_pub id None h (set_del id) (pst s).
Proof. unfold put_pub, set_pubs. cbn. by rewrite delete_insert_eq. Qed.

Lemma put_stays ap' : set_pubs (insert id ap')
    (set_localhosts (alter (with_pubs (set_del id)) h) (pst s))
  = put_pub id (Some ap') h (set_del id) (pst s).
Proof. done. Qed.

Lemma put_promoted ap' ap'' : set_pubs (insert id ap'') (put_pub id (Some ap') h (set_del id) (pst s))
  = put_pub id (Some ap'') h (set_del id) (pst s).
Proof. unfold put_pub, set_pubs. cbn. f_equal.
  exact (insert_insert_eq (activePublicationIndex (pst s)) id ap'' ap'). Qed.

Lemma deleteScopePublication_turn : ap_isScope ap = true →
  wp no_fault (deleteScopePublication gc h id) (λ _ s', s' = after_pub) s.
Proof.
  intros Hsc. unfold deleteScopePublication. apply wp_bind, wp_get_px, wp_bind.
  eapply wp_deref; [done|]. rewrite Hsc. apply wp_bind, wp_mod_lh; [done|].
  apply wp_bind, wp_mod_px. unfold after_pub, depart_pub, successor, pub_farewell.
  rewrite Hap. cbn [mbind option_bind]. unfold successor, leave_pub. rewrite Hsc.
  case_decide.
  - apply wp_bind, wp_mod_px, wp_withdraw; [done|]. cbn [pst pout]. by rewrite put_gone.
  - apply wp_ret. cbn. by rewrite app_nil_r.
Qed.

Lemma deleteItemPublication_turn : ap_isScope ap = false →
  wp no_fault (deleteItemPublication gc h id) (λ _ s', s' = after_pub) s.
Proof.
  intros Hsc. unfold deleteItemPublication. apply wp_bind, wp_get_px, wp_bind.
  eapply wp_deref; [done|]. rewrite Hsc. apply wp_bind, wp_mod_lh; [done|].
  apply wp_bind, wp_mod_px. unfold after_pub, depart_pub, pub_farewell.
  rewrite Hap. cbn [mbind option_bind]. pose proof (leave_pub_at h ap) as Hat.
  pose proof (successor_at h ap) as Hsucc. unfold successor, leave_pub in *. rewrite Hsc in *.
  cbn [orb] in *. case_decide as E.
  { apply wp_bind, wp_mod_px, wp_withdraw; [done|]. cbn [pst pout]. by rewrite put_gone. }
  destruct (state_of h (publishers ap) =? STOP_PUBLISH)%Z.
  { apply wp_ret. cbn. by rewrite app_nil_r. }
  destruct (head_ptr_order (dom (publishers (with_publishers (delete h) ap)))) as [h' Hh'].
  { intros Hd. apply E. by rewrite <-size_dom, Hd, size_empty. }
  rewrite Hh' in *. destruct (Hsucc h' eq_refl) as [Hin Hne].
  destruct (Hothers h' Hin) as [l Hl].
  apply wp_bind. unfold wp at 1. rewrite (first_host_run _ _ _ Hh').
  apply wp_bind, wp_mod_px. cbn [pst pout]. rewrite put_stays, put_promoted.
  unfold wp. rewrite (notify_start_run h' l); [|cbn; by rewrite lookup_alter_ne].
  unfold says. cbn. by rewrite Hl.
Qed.
End publication.

Section subscription.
Context (a : ActiveSubscription).
Hypothesis Ha : activeSubscriptionIndex (pst s) !! id = Some a.
Hypothesis Hfid : route_ok (as_RVFID a).

Lemma deleteSubscription_turn :
  wp no_fault (deleteSubscription gc (unsubscribe_type (as_isScope a)) h id a) (λ _ s',
    s' = mkPx (put_sub id (leave_sub h a) h (set_del id) (pst s))
           (pout s ++ says (sub_farewell (pst s) h id))) s.
Proof.
  unfold deleteSubscription. apply wp_bind, wp_mod_lh; [done|]. apply wp_bind, wp_mod_px.
  unfold sub_farewell. rewrite Ha. cbn [mbind option_bind]. unfold leave_sub. case_decide.
  - apply wp_bind, wp_mod_px. cbn [pst pout as_strategy with_subscribers].
    replace (set_subs (delete id) _) with (put_sub id None h (set_del id) (pst s))
      by (unfold put_sub, set_subs; cbn; by rewrite delete_insert_eq).
    destruct (kept_local (as_strategy a)); [apply wp_ret; cbn; by rewrite app_nil_r|].
    by apply wp_withdraw.
  - apply wp_ret. cbn. by rewrite app_nil_r.
Qed.
End subscription.
End turns.

(** ** The middle of a disconnection *)

(** The order of the packets: items before scopes, publications before
    subscriptions, and scopes from the deepest level up. *)
Definition phase (f : farewell) : nat :=
  match f with
  | Promoted _ _ => 0
  | Withdrawn type _ _ _ =>
      if (type =? UNPUBLISH_INFO)%Z then 0 else if (type =? UNSUBSCRIBE_INFO)%Z then 1
      else if (type =? UNPUBLISH_SCOPE)%Z then 2 else 3
  end.
Definition depth_of (f : farewell) : nat :=
  match f with
  | Promoted _ _ => 0
  | Withdrawn type id _ _ =>
      if ((type =? UNPUBLISH_SCOPE) || (type =? UNSUBSCRIBE_SCOPE))%Z then level id else 0
  end.

(** A point of the disconnection: its phase and the level it is at. *)
Definition upto (f : farewell) (c : nat * nat) : Prop :=
  phase f < c.1 ∨ (phase f = c.1 ∧ c.2 ≤ depth_of f).
Definition sooner (f g : farewell) : Prop := upto f (phase g, depth_of g).

Lemma upto_later f c c' : upto f c → (c.1 < c'.1 ∨ (c.1 = c'.1 ∧ c'.2 ≤ c.2)) → upto f c'.
Proof. unfold upto. lia. Qed.

Lemma sorted_snoc fs f : StronglySorted sooner fs → (∀ g, g ∈ fs → sooner g f) →
  StronglySorted sooner (fs ++ [f]).
Proof.
  induction fs as [|g fs IH]; intros Hs Hf; cbn; [repeat constructor|].
  inversion Hs as [|? ? Hs' Hg]; subst. constructor.
  - apply IH; [done|]. intros. apply Hf. by right.
  - apply Forall_app. split; [done|]. constructor; [|done]. apply Hf. left.
Qed.

Definition id_of (f : farewell) : bytes :=
  match f with Withdrawn _ id _ _ => id | Promoted id _ => id end.

Lemma pub_farewell_key `{HO : HashOrder} s h id f ap :
  activePublicationIndex s !! id = Some ap → pub_farewell s h id = Some f →
  id_of f = id ∧ (phase f, depth_of f) = if ap_isScope ap then (2, level id) else (0, 0).
Proof.
  intros Hap. unfold pub_farewell, successor. rewrite Hap. cbn.
  destruct (leave_pub h ap) as [ap'|].
  - destruct (ap_isScope ap); [done|]. cbn. destruct (_ =? _)%Z; [done|].
    destruct (head _); [|done]. by intros [= <-].
  - intros [= <-]. by destruct (ap_isScope ap).
Qed.

Lemma sub_farewell_key s h id f a :
  activeSubscriptionIndex s !! id = Some a → sub_farewell s h id = Some f →
  id_of f = id ∧ (phase f, depth_of f) = if as_isScope a then (3, level id) else (1, 0).
Proof.
  intros Ha. unfold sub_farewell. rewrite Ha. cbn. destruct (leave_sub h a); [done|].
  destruct (kept_local _); [done|]. intros [= <-]. by destruct (as_isScope a).
Qed.

Lemma pub_farewell_id `{HO : HashOrder} s h id f : pub_farewell s h id = Some f →
  id_of f = id ∧ (phase f = 0 ∨ phase f = 2).
Proof.
  intros Hf. destruct (activePublicationIndex s !! id) as [ap|] eqn:E.
  - destruct (pub_farewell_key s h id f ap E Hf) as [? Hk]. split; [done|].
    destruct (ap_isScope ap); simplify_eq; auto.
  - unfold pub_farewell in Hf. by rewrite E in Hf.
Qed.

Lemma sub_farewell_id s h id f : sub_farewell s h id = Some f →
  id_of f = id ∧ (phase f = 1 ∨ phase f = 3).
Proof.
  intros Hf. destruct (activeSubscriptionIndex s !! id) as [a|] eqn:E.
  - destruct (sub_farewell_key s h id f a E Hf) as [? Hk]. split; [done|].
    destruct (as_isScope a); simplify_eq; auto.
  - unfold sub_farewell in Hf. by rewrite E in Hf.
Qed.

Section leaving.
Context `{HO : HashOrder} (gc : GlobalConf) (h : positive) (s0 : px).

Definition without (XP XS : gset bytes) (l : LocalHost) : LocalHost :=
  with_pubs (λ X, X ∖ XP) (with_subs (λ X, X ∖ XS) l).

Definition due (XP XS : gset bytes) (f : farewell) : Prop :=
  (∃ id, id ∈ XP ∧ pub_farewell (pst s0) h id = Some f) ∨
  (∃ id, id ∈ XS ∧ sub_farewell (pst s0) h id = Some f).

(** The host has left the publications [XP] and the subscriptions [XS]. *)
Record leaving (XP XS : gset bytes) (c : nat * nat) (s : px) : Prop := {
  lv_pubs id : activePublicationIndex (pst s) !! id =
    if decide (id ∈ XP) then activePublicationIndex (pst s0) !! id ≫= depart_pub h
    else activePublicationIndex (pst s0) !! id;
  lv_subs id : activeSubscriptionIndex (pst s) !! id =
    if decide (id ∈ XS) then activeSubscriptionIndex (pst s0) !! id ≫= leave_sub h
    else activeSubscriptionIndex (pst s0) !! id;
  lv_hosts : localhosts (pst s) = alter (without XP XS) h (localhosts (pst s0));
  lv_index : local_pub_sub_Index (pst s) = local_pub_sub_Index (pst s0);
  lv_out : ∃ fs, pout s = pout s0 ++ (farewell_event gc (pst s0) <$> fs) ∧
    NoDup fs ∧ (∀ f, f ∈ fs ↔ due XP XS f) ∧ StronglySorted sooner fs ∧
    (∀ f, f ∈ fs → upto f c);
}.

Lemma leaving_start c : leaving ∅ ∅ c s0.
Proof.
  split; try done.
  - replace (alter (without ∅ ∅) h (localhosts (pst s0))) with (localhosts (pst s0)); [done|].
    apply map_eq. intros h'. destruct (decide (h = h')) as [<-|]; [|by rewrite lookup_alter_ne].
    rewrite lookup_alter_eq. destruct (localhosts (pst s0) !! h) as [[]|]; [|done]. cbn.
    unfold without, with_pubs, with_subs. cbn. by rewrite !difference_empty_L.
  - exists []. split_and!; [by rewrite fmap_nil, app_nil_r|constructor| |constructor|].
    + intros f. unfold due. split; [set_solver|]. intros [(id & ? & _)|(id & ? & _)]; set_solver.
    + intros f Hf. by apply elem_of_nil in Hf.
Qed.

Lemma leaving_later XP XS c c' s : leaving XP XS c s →
  (c.1 < c'.1 ∨ (c.1 = c'.1 ∧ c'.2 ≤ c.2)) → leaving XP XS c' s.
Proof.
  intros [H1 H2 H3 H4 (fs & ? & ? & ? & ? & Hup)] Hc. split; [done..|].
  exists fs. split_and!; [done..|]. intros f Hf. by eapply upto_later; [apply Hup|].
Qed.

Lemma without_event XP XS f s : localhosts (pst s) = alter (without XP XS) h (localhosts (pst s0)) →
  farewell_event gc (pst s) f = farewell_event gc (pst s0) f.
Proof.
  intros Hh. destruct f as [|id h']; [done|]. unfold farewell_event. rewrite Hh.
  destruct (decide (h = h')) as [<-|]; [|by rewrite lookup_alter_ne].
  rewrite lookup_alter_eq. by destruct (localhosts (pst s0) !! h).
Qed.

Lemma without_alter XP XS XP' XS' g : (∀ l, g (without XP XS l) = without XP' XS' l) →
  alter g h (alter (without XP XS) h (localhosts (pst s0)))
  = alter (without XP' XS') h (localhosts (pst s0)).
Proof.
  intros Hg. apply map_eq. intros h'. destruct (decide (h = h')) as [<-|].
  - rewrite !lookup_alter_eq. destruct (localhosts (pst s0) !! h); [|done]. cbn. by rewrite Hg.
  - by rewrite !lookup_alter_ne.
Qed.

(** One more packet, if there is one. *)
Lemma out_step XP XS XP' XS' c s o : leaving XP XS c s →
  (∀ f, o = Some f → (phase f, depth_of f) = c ∧ ¬ due XP XS f) →
  (∀ f, due XP' XS' f ↔ due XP XS f ∨ o = Some f) →
  ∃ fs, pout s ++ says gc s o = pout s0 ++ (farewell_event gc (pst s0) <$> fs) ∧
    NoDup fs ∧ (∀ f, f ∈ fs ↔ due XP' XS' f) ∧ StronglySorted sooner fs ∧
    (∀ f, f ∈ fs → upto f c).
Proof.
  intros [_ _ Hh _ (fs & Hout & Hnd & Hdue & Hsort & Hup)] Hnew Hdue'.
  exists (fs ++ option_list o). split_and!.
  - unfold says. rewrite Hout, fmap_app, <-app_assoc. f_equal. f_equal.
    apply list_fmap_ext. intros i f _. by eapply without_event.
  - apply NoDup_app. split_and!; [done| |by destruct o; repeat constructor; set_solver].
    intros f Hf Hfo. destruct o as [f'|]; [|by apply elem_of_nil in Hfo].
    apply list_elem_of_singleton in Hfo as ->. destruct (Hnew f' eq_refl) as [_ Hn].
    by apply Hn, Hdue.
  - intros f. rewrite elem_of_app, Hdue, Hdue'. destruct o as [f'|]; cbn.
    + rewrite list_elem_of_singleton. naive_solver.
    + rewrite elem_of_nil. naive_solver.
  - destruct o as [f'|]; cbn; [|by rewrite app_nil_r].
    apply sorted_snoc; [done|]. intros g Hg. unfold sooner.
    destruct (Hnew f' eq_refl) as [-> _]. by apply Hup.
  - intros f [Hf|Hf]%elem_of_app; [by apply Hup|]. destruct o as [f'|]; cbn in Hf.
    + apply list_elem_of_singleton in Hf as ->. destruct (Hnew f' eq_refl) as [<- _].
      right. done.
    + by apply elem_of_nil in Hf.
Qed.

Lemma leaving_pub XP XS c s id ap : leaving XP XS c s → id ∉ XP →
  activePublicationIndex (pst s0) !! id = Some ap →
  c = (if ap_isScope ap then (2, level id) else (0, 0)) →
  leaving ({[id]} ∪ XP) XS c
    (mkPx (put_pub id (depart_pub h ap) h (set_del id) (pst s))
       (pout s ++ says gc s (pub_farewell (pst s0) h id))).
Proof.
  intros Hlv Hid Hap Hc. pose proof Hlv as [L1 L2 L3 L4 _]. split; cbn; [..|].
  - intros id'. destruct (decide (id = id')) as [<-|Hne].
    + rewrite lookup_partial_alter_eq, decide_True, Hap by set_solver. done.
    + rewrite lookup_partial_alter_ne, L1 by done.
      apply decide_ext. set_solver.
  - exact L2.
  - rewrite L3. apply without_alter. intros l. unfold without, with_pubs. cbn. f_equal.
    unfold set_del. set_solver.
  - exact L4.
  - eapply (out_step XP XS); [done| |].
    + intros f Hf. destruct (pub_farewell_key _ _ _ _ _ Hap Hf) as [Hi Hk]. split; [congruence|].
      intros [(id' & Hin & Hf')|(id' & Hin & Hf')].
      * apply pub_farewell_id in Hf' as [Hi' _]. congruence.
      * apply sub_farewell_id in Hf' as [_ Hp']. apply pub_farewell_id in Hf as [_ Hp]. lia.
    + intros f. unfold due. set_solver.
Qed.

Lemma leaving_sub XP XS c s id a : leaving XP XS c s → id ∉ XS →
  activeSubscriptionIndex (pst s0) !! id = Some a →
  c = (if as_isScope a then (3, level id) else (1, 0)) →
  leaving XP ({[id]} ∪ XS) c
    (mkPx (put_sub id (leave_sub h a) h (set_del id) (pst s))
       (pout s ++ says gc s (sub_farewell (pst s0) h id))).
Proof.
  intros Hlv Hid Ha Hc. pose proof Hlv as [L1 L2 L3 L4 _]. split; cbn; [..|].
  - exact L1.
  - intros id'. destruct (decide (id = id')) as [<-|Hne].
    + rewrite lookup_partial_alter_eq, decide_True, Ha by set_solver. done.
    + rewrite lookup_partial_alter_ne, L2 by done. apply decide_ext. set_solver.
  - rewrite L3. apply without_alter. intros l. unfold without, with_pubs, with_subs. cbn. f_equal.
    unfold set_del. set_solver.
  - exact L4.
  - eapply (out_step XP XS); [done| |].
    + intros f Hf. destruct (sub_farewell_key _ _ _ _ _ Ha Hf) as [Hi Hk]. split; [congruence|].
      intros [(id' & Hin & Hf')|(id' & Hin & Hf')].
      * apply pub_farewell_id in Hf' as [_ Hp']. apply sub_farewell_id in Hf as [_ Hp]. lia.
      * apply sub_farewell_id in Hf' as [Hi' _]. congruence.
    + intros f. unfold due. set_solver.
Qed.
End leaving.

(** ** The four loops *)

Definition pub_scope (s : Proxy) (id : bytes) : bool :=
  match activePublicationIndex s !! id with Some ap => ap_isScope ap | None => false end.
Definition sub_scope (s : Proxy) (id : bytes) : bool :=
  match activeSubscriptionIndex s !! id with Some a => as_isScope a | None => false end.

(** The scopes of [X] below level [i]. *)
Definition deep (scope : bytes → bool) (X : gset bytes) (i : nat) : gset bytes :=
  filter (λ id, scope id = true ∧ i < level id) X.

Notation items_of scope X := (filter (λ id, scope id = false) X) (only parsing).

Lemma not_item (scope : bytes → bool) (X : gset bytes) i id : id ∈ X → id ∉ items_of scope X ∪ deep scope X i →
  scope id = true.
Proof. intros HX HN. apply not_false_is_true. set_solver. Qed.

Lemma deep_step (scope : bytes → bool) (X : gset bytes) i :
  filter (λ id, level id = S i) (X ∖ (items_of scope X ∪ deep scope X (S i)))
    ∪ (items_of scope X ∪ deep scope X (S i)) = items_of scope X ∪ deep scope X i.
Proof.
  apply set_eq. intros id. unfold deep.
  rewrite !elem_of_union, !elem_of_filter, elem_of_difference, elem_of_union, !elem_of_filter.
  destruct (scope id); [|naive_solver].
  destruct (decide (level id = S i)) as [->|]; [|naive_solver lia].
  split; [|intros; left; naive_solver lia]. naive_solver lia.
Qed.

Lemma deep_none (scope : bytes → bool) (X : gset bytes) i : (∀ id, id ∈ X → scope id = true → level id ≤ i) →
  deep scope X i = ∅.
Proof.
  intros HX. apply set_eq. intros id. unfold deep. rewrite elem_of_filter.
  split; [|set_solver]. intros [[Hsc Hlt] Hid]. specialize (HX id Hid Hsc). lia.
Qed.

Lemma deep_all (scope : bytes → bool) (X : gset bytes) : (∀ id, id ∈ X → 1 ≤ level id) →
  items_of scope X ∪ deep scope X 0 = X.
Proof.
  intros HX. apply set_eq. intros id. unfold deep. rewrite elem_of_union, !elem_of_filter.
  split; [naive_solver|]. intros Hid. specialize (HX id Hid).
  destruct (scope id); [right|by left]. split; [split; [done|lia]|done].
Qed.

Section phases.
Context `{HO : HashOrder} (gc : GlobalConf) (h : positive) (s0 : px) (l0 : LocalHost).
Hypothesis Hgc : gc_ok gc.
Hypothesis Hinv : px_inv (pst s0).
Hypothesis Hl0 : localhosts (pst s0) !! h = Some l0.

Notation leaving := (leaving gc h s0).
Notation P0 := (activePublications l0).
Notation S0 := (activeSubscriptions l0).

Lemma leaving_alive XP XS c s h' : leaving XP XS c s →
  is_Some (localhosts (pst s0) !! h') → is_Some (localhosts (pst s) !! h').
Proof. intros [_ _ L3 _ _] Hh'. rewrite L3. by apply alter_alive. Qed.

Lemma leaving_host XP XS c s : leaving XP XS c s →
  localhosts (pst s) !! h = Some (without XP XS l0).
Proof. intros [_ _ L3 _ _]. by rewrite L3, lookup_alter_eq, Hl0. Qed.

Lemma published id : id ∈ P0 →
  ∃ ap, activePublicationIndex (pst s0) !! id = Some ap ∧ pub_scope (pst s0) id = ap_isScope ap.
Proof.
  intros (ap & Hap & _)%(pi_pub _ Hinv _ _ _ Hl0). exists ap. unfold pub_scope. by rewrite Hap.
Qed.

Lemma subscribed id : id ∈ S0 →
  ∃ a, activeSubscriptionIndex (pst s0) !! id = Some a ∧ sub_scope (pst s0) id = as_isScope a.
Proof.
  intros (a & Ha & _)%(pi_sub _ Hinv _ _ _ Hl0). exists a. unfold sub_scope. by rewrite Ha.
Qed.

Lemma pub_turn XP XS c s id ap : leaving XP XS c s → id ∉ XP →
  activePublicationIndex (pst s0) !! id = Some ap →
  c = (if ap_isScope ap then (2, level id) else (0, 0)) →
  wp no_fault (if ap_isScope ap then deleteScopePublication gc h id
               else deleteItemPublication gc h id)
    (λ _ s', leaving ({[id]} ∪ XP) XS c s') s.
Proof.
  intros Hlv Hid Hap Hc. destruct (pi_pub_entry _ Hinv _ _ Hap) as (_ & Hok & Hfid & _).
  assert (activePublicationIndex (pst s) !! id = Some ap) as Hap'.
  { destruct Hlv as [L1 _ _ _ _]. by rewrite L1, decide_False. }
  assert (is_Some (localhosts (pst s) !! h)) as Hal by (eapply leaving_alive; [done|by eexists]).
  assert (∀ h', is_Some (publishers ap !! h') → is_Some (localhosts (pst s) !! h')) as Hoth.
  { intros h' Hh'. eapply leaving_alive; [done|]. apply (pi_pub_alive _ Hinv h' id). by exists ap. }
  assert (pub_farewell (pst s) h id = pub_farewell (pst s0) h id) as Hf
    by (unfold pub_farewell; by rewrite Hap, Hap').
  destruct (ap_isScope ap) eqn:Hsc.
  - eapply wp_mono; [by apply (deleteScopePublication_turn gc h id s Hgc Hal Hok ap)|].
    intros [] s' ->. rewrite Hf. apply leaving_pub; try done. by rewrite Hsc.
  - eapply wp_mono; [by apply (deleteItemPublication_turn gc h id s Hgc Hal Hok ap)|].
    intros [] s' ->. rewrite Hf. apply leaving_pub; try done. by rewrite Hsc.
Qed.

Lemma sub_turn XP XS c s id a : leaving XP XS c s → id ∉ XS →
  activeSubscriptionIndex (pst s0) !! id = Some a →
  c = (if as_isScope a then (3, level id) else (1, 0)) →
  wp no_fault (deleteSubscription gc (unsubscribe_type (as_isScope a)) h id a)
    (λ _ s', leaving XP ({[id]} ∪ XS) c s') s.
Proof.
  intros Hlv Hid Ha Hc. destruct (pi_sub_entry _ Hinv _ _ Ha) as (_ & Hok & Hfid).
  assert (activeSubscriptionIndex (pst s) !! id = Some a) as Ha'.
  { destruct Hlv as [_ L2 _ _ _]. by rewrite L2, decide_False. }
  assert (is_Some (localhosts (pst s) !! h)) as Hal by (eapply leaving_alive; [done|by eexists]).
  assert (sub_farewell (pst s) h id = sub_farewell (pst s0) h id) as Hf
    by (unfold sub_farewell; by rewrite Ha, Ha').
  eapply wp_mono; [by apply (deleteSubscription_turn gc h id s Hgc Hal Hok a)|].
  intros [] s' ->. rewrite Hf. by apply leaving_sub.
Qed.

Notation item_pubs := (filter (λ id, pub_scope (pst s0) id = false) P0).
Notation item_subs := (filter (λ id, sub_scope (pst s0) id = false) S0).

Lemma item_publications_phase :
  wp no_fault (deleteAllActiveInformationItemPublications gc h)
    (λ _ s', leaving item_pubs ∅ (0, 0) s') s0.
Proof.
  unfold deleteAllActiveInformationItemPublications. apply wp_bind, (wp_get_lh _ _ l0); [done|].
  apply wp_for_set with (I := λ Y s, leaving Y ∅ (0, 0) s); [apply leaving_start|..].
  - intros id Y s Hid HP HY Hlv. destruct (published _ Hid) as (ap & Hap & Hsc).
    pose proof (pub_turn Y ∅ (0, 0) s id ap Hlv HY Hap) as Hturn. rewrite <-Hsc, HP in Hturn.
    by apply Hturn.
  - intros id Y s Hid HP HY Hlv. destruct (published _ Hid) as (ap & Hap & Hsc).
    unfold deleteItemPublication. apply wp_bind, wp_get_px, wp_bind.
    eapply wp_deref; [by rewrite (lv_pubs _ _ _ _ _ _ _ Hlv), decide_False|].
    apply not_false_is_true in HP. rewrite <-Hsc, HP. by apply wp_ret.
Qed.

Lemma item_subscriptions_phase XP c s : leaving XP ∅ c s → c.1 < 1 →
  wp no_fault (deleteAllActiveInformationItemSubscriptions gc h)
    (λ _ s', leaving XP item_subs (1, 0) s') s.
Proof.
  intros Hlv Hc. unfold deleteAllActiveInformationItemSubscriptions.
  apply wp_bind, (wp_get_lh _ _ _ _ _ (leaving_host _ _ _ _ Hlv)).
  change (activeSubscriptions (without XP ∅ l0)) with (S0 ∖ ∅). rewrite difference_empty_L.
  apply wp_for_set with (I := λ Y s, leaving XP Y (1, 0) s).
  - eapply leaving_later; [done|]. cbn. lia.
  - intros id Y s' Hid HP HY Hlv'. destruct (subscribed _ Hid) as (a & Ha & Hsc).
    apply wp_bind, wp_get_px, wp_bind.
    eapply wp_deref; [by rewrite (lv_subs _ _ _ _ _ _ _ Hlv'), decide_False|].
    pose proof (sub_turn XP Y (1, 0) s' id a Hlv' HY Ha) as Hturn. rewrite <-Hsc, HP in *.
    by apply Hturn.
  - intros id Y s' Hid HP HY Hlv'. destruct (subscribed _ Hid) as (a & Ha & Hsc).
    apply wp_bind, wp_get_px, wp_bind.
    eapply wp_deref; [by rewrite (lv_subs _ _ _ _ _ _ _ Hlv'), decide_False|].
    apply not_false_is_true in HP. rewrite <-Hsc, HP. by apply wp_ret.
Qed.

(** Scopes, level by level. *)
Notation deep_pubs i := (deep (pub_scope (pst s0)) P0 i).
Notation deep_subs i := (deep (sub_scope (pst s0)) S0 i).

Lemma pub_level XS i s : leaving (item_pubs ∪ deep_pubs (S i)) XS (2, S (S i)) s →
  wp no_fault (l ← get_lh h;
    for_each (str_order (activePublications l)) (λ fullID,
      if decide (level fullID = S i) then deleteScopePublication gc h fullID else mret tt))
    (λ _ s', leaving (item_pubs ∪ deep_pubs i) XS (2, S i) s') s.
Proof.
  intros Hlv. apply wp_bind, (wp_get_lh _ _ _ _ _ (leaving_host _ _ _ _ Hlv)).
  change (activePublications (without _ _ _)) with (P0 ∖ (item_pubs ∪ deep_pubs (S i))).
  rewrite <-(deep_step _ P0 i).
  apply wp_for_set with (I := λ Y s', leaving (Y ∪ (item_pubs ∪ deep_pubs (S i))) XS (2, S i) s').
  - rewrite union_empty_l_L. eapply leaving_later; [done|]. cbn. lia.
  - intros id Y s' [HP HN]%elem_of_difference Hlev HY Hlv'. rewrite decide_True by done.
    destruct (published _ HP) as (ap & Hap & Hsc'). rewrite <-union_assoc_L.
    pose proof (pub_turn _ XS (2, S i) s' id ap Hlv') as Hturn.
    rewrite <-Hsc', (not_item _ _ _ _ HP HN), Hlev in Hturn. apply Hturn; [set_solver|done|done].
  - intros id Y s' _ Hlev _ Hlv'. by rewrite decide_False.
Qed.

Lemma sub_level XP i s : leaving XP (item_subs ∪ deep_subs (S i)) (3, S (S i)) s →
  wp no_fault (l ← get_lh h;
    for_each (str_order (activeSubscriptions l)) (λ fullID,
      if decide (level fullID = S i) then deleteScopeSubscription gc h fullID else mret tt))
    (λ _ s', leaving XP (item_subs ∪ deep_subs i) (3, S i) s') s.
Proof.
  intros Hlv. apply wp_bind, (wp_get_lh _ _ _ _ _ (leaving_host _ _ _ _ Hlv)).
  change (activeSubscriptions (without _ _ _)) with (S0 ∖ (item_subs ∪ deep_subs (S i))).
  rewrite <-(deep_step _ S0 i).
  apply wp_for_set with (I := λ Y s', leaving XP (Y ∪ (item_subs ∪ deep_subs (S i))) (3, S i) s').
  - rewrite union_empty_l_L. eapply leaving_later; [done|]. cbn. lia.
  - intros id Y s' [HP HN]%elem_of_difference Hlev HY Hlv'. rewrite decide_True by done.
    destruct (subscribed _ HP) as (a & Ha & Hsc'). rewrite <-union_assoc_L.
    unfold deleteScopeSubscription. apply wp_bind, wp_get_px, wp_bind.
    eapply wp_deref; [by rewrite (lv_subs _ _ _ _ _ _ _ Hlv'), decide_False by set_solver|].
    pose proof (sub_turn XP _ (3, S i) s' id a Hlv') as Hturn.
    rewrite <-Hsc', (not_item _ _ _ _ HP HN), Hlev in *. apply Hturn; [set_solver|done|done].
  - intros id Y s' _ Hlev _ Hlv'. by rewrite decide_False.
Qed.

Lemma scope_publications_phase XS c s : leaving item_pubs XS c s → c.1 < 2 →
  wp no_fault (deleteAllActiveScopePublications gc h) (λ _ s', leaving P0 XS (2, 1) s') s.
Proof.
  intros Hlv Hc. unfold deleteAllActiveScopePublications.
  apply wp_bind, (wp_get_lh _ _ _ _ _ (leaving_host _ _ _ _ Hlv)), wp_bind.
  apply (max_level_spec _ _ (pub_scope (pst s0))).
  { intros id [HP HN]%elem_of_str_order%elem_of_difference.
    destruct (published _ HP) as (ap & Hap & Hsc).
    unfold published_is_scope, get_px, mbind, M_bind, get, mret, M_ret. cbn.
    by rewrite (lv_pubs _ _ _ _ _ _ _ Hlv), decide_False, Hap, Hsc by done. }
  intros top _ Htop.
  eapply wp_mono; [apply (wp_for_levels _ top _
    (λ i s', leaving (item_pubs ∪ deep_pubs i) XS (2, S i) s'))|].
  - rewrite deep_none, union_empty_r_L; [eapply leaving_later; [done|cbn; lia]|].
    intros id HP Hsc. apply Htop; [|done]. apply elem_of_str_order, elem_of_difference.
    split; [done|]. rewrite elem_of_filter. rewrite Hsc. naive_solver.
  - intros i s'. apply pub_level.
  - intros [] s' Hlv'. rewrite deep_all in Hlv'; [done|].
    intros id (ap & Hap & _)%(pi_pub _ Hinv _ _ _ Hl0).
    destruct (pi_pub_entry _ Hinv _ _ Hap) as (_ & Hok & _). by apply id_ok_prefix.
Qed.

Lemma scope_subscriptions_phase XP c s : leaving XP item_subs c s → c.1 < 3 →
  wp no_fault (deleteAllActiveScopeSubscriptions gc h) (λ _ s', leaving XP S0 (3, 1) s') s.
Proof.
  intros Hlv Hc. unfold deleteAllActiveScopeSubscriptions.
  apply wp_bind, (wp_get_lh _ _ _ _ _ (leaving_host _ _ _ _ Hlv)), wp_bind.
  apply (max_level_spec _ _ (sub_scope (pst s0))).
  { intros id [HP HN]%elem_of_str_order%elem_of_difference.
    destruct (subscribed _ HP) as (a & Ha & Hsc).
    unfold subscribed_is_scope, get_px, mbind, M_bind, get, mret, M_ret. cbn.
    by rewrite (lv_subs _ _ _ _ _ _ _ Hlv), decide_False, Ha, Hsc by done. }
  intros top _ Htop.
  eapply wp_mono; [apply (wp_for_levels _ top _
    (λ i s', leaving XP (item_subs ∪ deep_subs i) (3, S i) s'))|].
  - rewrite deep_none, union_empty_r_L; [eapply leaving_later; [done|cbn; lia]|].
    intros id HP Hsc. apply Htop; [|done]. apply elem_of_str_order, elem_of_difference.
    split; [done|]. rewrite elem_of_filter. rewrite Hsc. naive_solver.
  - intros i s'. apply sub_level.
  - intros [] s' Hlv'. rewrite deep_all in Hlv'; [done|].
    intros id (a & Ha & _)%(pi_sub _ Hinv _ _ _ Hl0).
    destruct (pi_sub_entry _ Hinv _ _ Ha) as (_ & Hok & _). by apply id_ok_prefix.
Qed.

(** ** The state without the host *)

Definition host_gone (s s' : Proxy) : Prop :=
  localhosts s' = delete h (localhosts s) ∧
  local_pub_sub_Index s' = delete (lh_id l0) (local_pub_sub_Index s) ∧
  (∀ id, activePublicationIndex s' !! id =
     ap ← activePublicationIndex s !! id;
     if decide (is_Some (publishers ap !! h)) then depart_pub h ap else Some ap) ∧
  (∀ id, activeSubscriptionIndex s' !! id =
     a ← activeSubscriptionIndex s !! id;
     if decide (h ∈ subscribers a) then leave_sub h a else Some a).

Lemma leaving_end c s : leaving P0 S0 c s →
  host_gone (pst s0) (set_localhosts (delete h) (set_local_Index (delete (lh_id l0)) (pst s))).
Proof.
  intros [L1 L2 L3 L4 _]. split_and!; cbn.
  - rewrite L3. by rewrite delete_alter_eq.
  - by rewrite L4.
  - intros id. rewrite L1. destruct (activePublicationIndex (pst s0) !! id) as [ap|] eqn:E;
      [|by case_decide]. cbn. apply decide_ext.
    rewrite (pi_pub _ Hinv _ _ _ Hl0). by apply publishes_lookup.
  - intros id. rewrite L2. destruct (activeSubscriptionIndex (pst s0) !! id) as [a|] eqn:E;
      [|by case_decide]. cbn. apply decide_ext.
    rewrite (pi_sub _ Hinv _ _ _ Hl0). by apply subscribes_lookup.
Qed.

Lemma gone_publishes s' h' id : host_gone (pst s0) s' →
  publishes s' h' id ↔ publishes (pst s0) h' id ∧ h' ≠ h.
Proof.
  intros (_ & _ & Hp & _). unfold publishes at 1. rewrite Hp.
  destruct (activePublicationIndex (pst s0) !! id) as [ap|] eqn:E; cbn; cycle 1.
  { unfold publishes. rewrite E. naive_solver. }
  rewrite (publishes_lookup _ _ _ _ E). case_decide as Hh; [apply depart_pub_at|].
  split; [|naive_solver]. intros (? & [= <-] & Hin). split; [done|]. by intros ->.
Qed.

Lemma gone_subscribes s' h' id : host_gone (pst s0) s' →
  subscribes s' h' id ↔ subscribes (pst s0) h' id ∧ h' ≠ h.
Proof.
  intros (_ & _ & _ & Hs). unfold subscribes at 1. rewrite Hs.
  destruct (activeSubscriptionIndex (pst s0) !! id) as [a|] eqn:E; cbn; cycle 1.
  { unfold subscribes. rewrite E. naive_solver. }
  rewrite (subscribes_lookup _ _ _ _ E). case_decide as Hh; [apply leave_sub_at|].
  split; [|naive_solver]. intros (? & [= <-] & Hin). split; [done|]. by intros ->.
Qed.

Lemma gone_inv s' : host_gone (pst s0) s' → px_inv s'.
Proof.
  intros Hg. pose proof Hinv as [I1 I2 I3 I4 I5 I6 I7]. pose proof Hg as (Hl & Hi & Hp & Hs).
  split.
  - intros h' l id. rewrite Hl, lookup_delete_Some. intros [Hne Hl'].
    rewrite (gone_publishes _ _ _ Hg), (I1 _ _ _ Hl'). naive_solver.
  - intros h' id [Hpub Hne]%(gone_publishes _ _ _ Hg). rewrite Hl, lookup_delete_ne by done.
    by eapply I2.
  - intros id ap. rewrite Hp. destruct (activePublicationIndex (pst s0) !! id) as [ap0|] eqn:E; [|done].
    cbn. destruct (I3 _ _ E) as (? & ?). case_decide as Hd; [|by intros [= <-]].
    intros Hdp. destruct (depart_pub_some _ id _ _ Hd Hdp). auto.
  - intros h' l id. rewrite Hl, lookup_delete_Some. intros [Hne Hl'].
    rewrite (gone_subscribes _ _ _ Hg), (I4 _ _ _ Hl'). naive_solver.
  - intros h' id [Hsub Hne]%(gone_subscribes _ _ _ Hg). rewrite Hl, lookup_delete_ne by done.
    by eapply I5.
  - intros id a. rewrite Hs. destruct (activeSubscriptionIndex (pst s0) !! id) as [a0|] eqn:E; [|done].
    cbn. destruct (I6 _ _ E) as (? & ? & ?). case_decide; [|by intros [= <-]].
    intros [? ->]%leave_sub_some. done.
  - intros d h'. rewrite Hi, Hl, lookup_delete_Some, I7. setoid_rewrite lookup_delete_Some.
    assert (∀ l, localhosts (pst s0) !! h' = Some l → (lh_id l0 ≠ lh_id l ↔ h ≠ h')) as Hid.
    { intros l Hl'. split; [intros Hd ->; congruence|]. intros Hne Hd. apply Hne.
      assert (local_pub_sub_Index (pst s0) !! lh_id l0 = Some h) as E1 by (apply I7; eauto).
      assert (local_pub_sub_Index (pst s0) !! lh_id l0 = Some h') as E2 by (apply I7; eauto).
      congruence. }
    split.
    + intros (Hd & l & Hl' & <-). exists l. split; [split; [by apply (Hid l)|done]|done].
    + intros (l & (Hne & Hl') & <-). split; [by apply (Hid l)|]. eauto.
Qed.

(** What is said, and in which order. *)
Definition farewells (fs : list farewell) : Prop :=
  NoDup fs ∧ StronglySorted sooner fs ∧
  ∀ f, f ∈ fs ↔
    (∃ id, publishes (pst s0) h id ∧ pub_farewell (pst s0) h id = Some f) ∨
    (∃ id, subscribes (pst s0) h id ∧ sub_farewell (pst s0) h id = Some f).

Lemma disconnect_spec :
  wp no_fault (disconnect gc h) (λ _ s', host_gone (pst s0) (pst s') ∧ px_inv (pst s') ∧
    ∃ fs, farewells fs ∧ pout s' = pout s0 ++ (farewell_event gc (pst s0) <$> fs)) s0.
Proof.
  unfold disconnect. apply wp_bind. eapply wp_mono; [apply item_publications_phase|].
  intros [] s1 H1. apply wp_bind. eapply wp_mono; [eapply (item_subscriptions_phase _ _ _ H1); cbn; lia|].
  intros [] s2 H2. apply wp_bind. eapply wp_mono; [eapply (scope_publications_phase _ _ _ H2); cbn; lia|].
  intros [] s3 H3. apply wp_bind. eapply wp_mono; [eapply (scope_subscriptions_phase _ _ _ H3); cbn; lia|].
  intros [] s4 H4. apply wp_bind, (wp_get_lh _ _ _ _ _ (leaving_host _ _ _ _ H4)).
  apply wp_bind, wp_mod_px, wp_mod_px. cbn [pst pout]. pose proof (leaving_end _ _ H4) as Hg.
  split; [done|]. split; [by apply gone_inv|].
  destruct H4 as [_ _ _ _ (fs & Hout & Hnd & Hdue & Hsort & _)]. exists fs. split; [|done].
  split_and!; [done|done|]. intros f. rewrite Hdue. unfold due.
  setoid_rewrite (pi_pub _ Hinv _ _ _ Hl0). by setoid_rewrite (pi_sub _ Hinv _ _ _ Hl0).
Qed.
End phases.
