(* ===== verification/ProxyProps.v ===== *)
(** * The local proxy: its properties

    What the proxy makes of the requests of local entities, what it tells the
    rendezvous point, and what a disconnection leaves behind. *)
From stdpp Require Import base list gmap sets sorting.
From Stdlib Require Import ZArith Lia.
From S2P Require Import Prelude Enums Bitvector GlobalConf InfoGraph LocalRV RVSafety RVRequests RVProps RVRendezvous LocalProxy ProxyInv ProxyLeave.

(** ** Requests *)

(** [k] fragments. *)
Definition frags (k : nat) (id : bytes) : Prop := length id = k * PURSUIT_ID_LEN ∧ k ≤ 255.

Definition full_id (ID prefixID : bytes) : bytes := prefixID ++ suffix ID.

(** A request as an application writes it. *)
Definition local_request (type : Z) (ID prefixID : bytes) (strategy : Z) : bytes :=
  [type; Z.of_nat (level ID)] ++ ID ++ [Z.of_nat (level prefixID)] ++ prefixID ++ [strategy].

Lemma level_frags k id : frags k id → level id = k.
Proof. intros [Hk _]. unfold level. rewrite Hk. by apply Nat.div_mul. Qed.

Lemma full_id_ok k m ID prefixID : frags (S k) ID → frags m prefixID → id_ok (full_id ID prefixID).
Proof.
  intros [HID ?] [Hpre ?]. exists (S m). unfold full_id. rewrite length_app, length_suffix, Hpre; [lia|].
  rewrite HID. unfold PURSUIT_ID_LEN. lia.
Qed.

Definition publishing (type : Z) : bool := ((type =? PUBLISH_SCOPE) || (type =? PUBLISH_INFO))%Z.
Definition unpublishing (type : Z) : bool :=
  ((type =? UNPUBLISH_SCOPE) || (type =? UNPUBLISH_INFO))%Z.
Definition subscribing (type : Z) : bool :=
  ((type =? SUBSCRIBE_SCOPE) || (type =? SUBSCRIBE_INFO) || (type =? PUBLISH_DATA_iSUB))%Z.
Definition unsubscribing (type : Z) : bool :=
  ((type =? UNSUBSCRIBE_SCOPE) || (type =? UNSUBSCRIBE_INFO))%Z.

(** [h] alone has [id]. *)
Definition sole (R : positive → bytes → Prop) (h : positive) (id : bytes) : Prop :=
  R h id ∧ ∀ h', R h' id → h' = h.

(** What a request does to the tables, and when it goes to the rendezvous
    point. *)
Definition local_contract (type : Z) (h : positive) (id : bytes) (strategy : Z) (s : px)
    (forward : bool) (s' : px) : Prop :=
  let pub := publishes (pst s) in
  let sub := subscribes (pst s) in
  if publishing type then
    settles (adds (pub_fits (pst s) id strategy) h id) keeps s s' ∧
    (forward = true ↔
       announced strategy ∧ ((∀ h', ¬ pub h' id) ∨ asked_again (pst s) h id))
  else if unpublishing type then
    settles (drops (pub_fits (pst s) id strategy) h id) keeps s s' ∧
    (forward = true ↔ pub_fits (pst s) id strategy ∧ sole pub h id)
  else if subscribing type then
    settles keeps (adds (sub_fits (pst s) id strategy) h id) s s' ∧
    (forward = true ↔
       sub_fits (pst s) id strategy ∧ ((∃ h', sub h' id) ∨ kept_local strategy = false))
  else if unsubscribing type then
    settles keeps (drops (sub_fits (pst s) id strategy) h id) s s' ∧
    (forward = true ↔ sub_fits (pst s) id strategy ∧ kept_local strategy = false ∧ sole sub h id)
  else s' = s ∧ forward = false.

Section requests.
Context `{HO : HashOrder} (gc : GlobalConf).

Lemma handleLocalRequest_spec type h ID prefixID strategy RVFID k m s :
  px_inv (pst s) → is_Some (localhosts (pst s) !! h) →
  frags (S k) ID → frags m prefixID → route_ok RVFID →
  wp no_fault (handleLocalRequest type h ID prefixID strategy RVFID)
    (local_contract type h (full_id ID prefixID) strategy s) s.
Proof.
  intros Hinv Hal HID Hpre Hfid. pose proof (full_id_ok _ _ _ _ HID Hpre) as Hok.
  unfold handleLocalRequest, local_contract, publishing, unpublishing, subscribing, unsubscribing.
  replace (if decide (length ID = PURSUIT_ID_LEN) then prefixID ++ ID else prefixID ++ suffix ID)
    with (full_id ID prefixID) by (case_decide; [unfold full_id; by rewrite suffix_id|done]).
  pose proof (storeActivePublication_spec h (full_id ID prefixID) strategy s Hinv Hal RVFID) as Hpub.
  pose proof (removeActivePublication_spec h (full_id ID prefixID) strategy s Hinv Hal) as Hunp.
  pose proof (storeActiveSubscription_spec h (full_id ID prefixID) strategy s Hinv Hal RVFID) as Hsub.
  pose proof (removeActiveSubscription_spec h (full_id ID prefixID) strategy s Hinv Hal) as Huns.
  destruct (Z.eqb_spec type PUBLISH_SCOPE) as [->|]; [by apply Hpub|].
  destruct (Z.eqb_spec type PUBLISH_INFO) as [->|]; [by apply Hpub|].
  destruct (Z.eqb_spec type UNPUBLISH_SCOPE) as [->|]; [apply Hunp|].
  destruct (Z.eqb_spec type UNPUBLISH_INFO) as [->|]; [apply Hunp|].
  destruct (Z.eqb_spec type SUBSCRIBE_SCOPE) as [->|]; [by apply Hsub|].
  destruct (Z.eqb_spec type SUBSCRIBE_INFO) as [->|]; [by apply Hsub|].
  destruct (Z.eqb_spec type UNSUBSCRIBE_SCOPE) as [->|]; [apply Huns|].
  destruct (Z.eqb_spec type UNSUBSCRIBE_INFO) as [->|]; [apply Huns|].
  destruct (Z.eqb_spec type PUBLISH_DATA_iSUB) as [->|]; [by apply Hsub|]. by apply wp_ret.
Qed.

(** ** Forwarding *)

(** The packet that carries a request to the rendezvous point. *)
Definition forwarded (RVFID : BABitvector) (p : bytes) : px_event :=
  if rv_is_local gc RVFID
  then Output 1 None (Some <$> [PUBLISHED_DATA; 2%Z] ++ nodeRVScope gc ++ p)
  else Output 2 None (Some <$> fid_bytes RVFID ++ [1%Z; 2%Z] ++ nodeRVScope gc ++ p).

Lemma header_exact fields (p : bytes) :
  memcpys (make_packet (length (concat fields)) ++ (Some <$> p)) 0 fields
  = Ok (Some <$> concat fields ++ p).
Proof.
  rewrite memcpys_fits by (rewrite length_app; unfold make_packet; rewrite length_replicate; lia).
  cbn. rewrite drop_app_length' by (unfold make_packet; by rewrite length_replicate).
  by rewrite fmap_app.
Qed.

Lemma publishReqToRV_run p RVFID s : gc_ok gc → route_ok RVFID →
  publishReqToRV gc p RVFID s = Ok (tt, mkPx (pst s) (pout s ++ [forwarded RVFID p])).
Proof.
  intros Hgc Hfid. pose proof (length_nodeRVScope gc Hgc) as Hn.
  unfold publishReqToRV, forwarded. rewrite (IDLengthOfAPIEvent_eq gc Hgc).
  destruct (rv_is_local gc RVFID) eqn:Hloc.
  - unfold px_send.
    pose proof (header_exact [[PUBLISHED_DATA]; [2%Z]; nodeRVScope gc] p) as Hh.
    cbn [concat app length] in Hh. rewrite app_nil_r in Hh. cbn [Nat.add]. rewrite Hh. done.
  - apply remote_route in Hloc; [|done]. rewrite (run_bind _ _ _ _ _ (fid_bytes_run _ s Hloc)).
    pose proof (header_exact [[1%Z]; [2%Z]; nodeRVScope gc] p) as Hh.
    cbn [concat app length] in Hh. rewrite app_nil_r, Hn in Hh. cbn [Nat.add]. rewrite Hh.
    by rewrite (fmap_app Some (fid_bytes RVFID)).
Qed.
End requests.

(** ** Reading a packet *)
Section reading.
Context {St : Type} (s : St).

Lemma read_byte_at (pre post : bytes) (b : Z) off : off = length pre →
  read_byte (pre ++ b :: post) off s = Ok (b, s).
Proof. intros ->. unfold read_byte. by rewrite list_lookup_middle. Qed.

Lemma read_bytes_at (pre mid post : bytes) off len : off = length pre → len = length mid →
  read_bytes (pre ++ mid ++ post) off len s = Ok (mid, s).
Proof.
  intros -> ->. unfold read_bytes. rewrite decide_True by (rewrite !length_app; lia).
  unfold substr. by rewrite drop_app_length, take_app_length.
Qed.
End reading.

(** The fields of a request behind a header, in the order of the reads. *)
Section fields.
Context {St : Type} (hdr : bytes) (type : Z) (ID prefixID : bytes) (strategy : Z) (k m : nat).
Hypothesis HID : frags k ID.
Hypothesis Hpre : frags m prefixID.

Let p := hdr ++ local_request type ID prefixID strategy.

Lemma read_type (s : St) : read_byte p (length hdr) s = Ok (type, s).
Proof. by apply read_byte_at. Qed.

Lemma read_idlen (s : St) : read_byte p (length hdr + 1) s = Ok (Z.of_nat k, s).
Proof.
  unfold p, local_request. rewrite (level_frags _ _ HID).
  change (hdr ++ [type; Z.of_nat k] ++ _) with (hdr ++ [type] ++ Z.of_nat k :: (ID ++
    [Z.of_nat (level prefixID)] ++ prefixID ++ [strategy])).
  rewrite app_assoc. apply read_byte_at. by rewrite length_app.
Qed.

Lemma read_ID (s : St) :
  read_bytes p (length hdr + 1 + 1) (Z.to_nat (Z.of_nat k) * PURSUIT_ID_LEN) s = Ok (ID, s).
Proof.
  unfold p, local_request. rewrite (app_assoc hdr). apply read_bytes_at.
  - rewrite length_app. cbn. lia.
  - rewrite Nat2Z.id. by destruct HID.
Qed.

Lemma read_plen (s : St) :
  read_byte p (length hdr + 1 + 1 + length ID) s = Ok (Z.of_nat m, s).
Proof.
  unfold p, local_request. rewrite (level_frags _ _ Hpre), (app_assoc hdr), (app_assoc _ ID).
  apply read_byte_at. rewrite !length_app. cbn. lia.
Qed.

Lemma read_prefixID (s : St) :
  read_bytes p (length hdr + 1 + 1 + length ID + 1) (Z.to_nat (Z.of_nat m) * PURSUIT_ID_LEN) s
  = Ok (prefixID, s).
Proof.
  unfold p, local_request. rewrite (app_assoc hdr), (app_assoc _ ID), (app_assoc _ [_]).
  apply read_bytes_at.
  - rewrite !length_app. cbn. lia.
  - rewrite Nat2Z.id. by destruct Hpre.
Qed.

Lemma read_strategy (s : St) :
  read_byte p (length hdr + 1 + 1 + length ID + 1 + length prefixID) s = Ok (strategy, s).
Proof.
  unfold p, local_request.
  rewrite (app_assoc hdr), (app_assoc _ ID), (app_assoc _ [_]), (app_assoc _ prefixID).
  apply read_byte_at. rewrite !length_app. cbn. lia.
Qed.
End fields.

Section properties.
Context `{HO : HashOrder} (gc : GlobalConf).

(** The rendezvous point reads a forwarded request as the request of the
    node whose label is in the name. *)
Lemma push_request_packet scope node type ID prefixID strategy k m (r : rv) :
  length scope = PURSUIT_ID_LEN → length node = NODEID_LEN → frags k ID → frags m prefixID →
  LocalRV.push gc 0 ([PUBLISHED_DATA; 2%Z] ++ (scope ++ node)
    ++ local_request type ID prefixID strategy) r
  = (code ← handle_request gc (mkRequest node type ID prefixID strategy);
     _ ← push_event Killed; mret (Some code)) r.
Proof.
  intros Hsc Hnode HID Hpre. set (name := scope ++ node).
  assert (length name = 2 * PURSUIT_ID_LEN) as Hn by (unfold name; by rewrite length_app, Hsc, Hnode).
  rewrite app_assoc. set (hdr := [_; _] ++ _).
  assert (length hdr = 1 + 1 + length name) as Hh by done.
  unfold LocalRV.push. cbn [Z.eqb].
  rewrite (run_bind _ _ r PUBLISHED_DATA r) by done. rewrite (run_bind _ _ r 2%Z r) by done.
  rewrite (run_bind _ _ r name r); cycle 1.
  { unfold hdr. rewrite <-app_assoc. apply (read_bytes_at r [_; _]); [done|by rewrite Hn]. }
  rewrite Z.eqb_refl. unfold parse_request. rewrite <-Hh.
  erewrite run_bind; [done|].
  rewrite (run_bind _ _ _ _ _ (read_type hdr type ID prefixID strategy r)).
  rewrite (run_bind _ _ _ _ _ (read_idlen hdr type ID prefixID strategy k HID r)).
  rewrite (run_bind _ _ _ _ _ (read_ID hdr type ID prefixID strategy k HID r)).
  rewrite (run_bind _ _ _ _ _ (read_plen hdr type ID prefixID strategy m Hpre r)).
  rewrite (run_bind _ _ _ _ _ (read_prefixID hdr type ID prefixID strategy m Hpre r)).
  rewrite (run_bind _ _ _ _ _ (read_strategy hdr type ID prefixID strategy r)).
  unfold name. by rewrite drop_app_length' by (by rewrite Hsc).
Qed.

Lemma withdrawal_request type id strategy : id_ok id →
  withdrawal type id strategy = local_request type (suffix id) (prefix id) strategy ∧
  frags 1 (suffix id) ∧ frags (level id - 1) (prefix id).
Proof.
  intros Hid. destruct (id_ok_prefix id Hid) as (Hs & Hp & Hl & _).
  assert (frags 1 (suffix id)) as Hf1 by (split; [by rewrite Hs|lia]).
  assert (frags (level id - 1) (prefix id)) as Hf2 by (split; [done|lia]).
  split_and!; [|done|done]. unfold withdrawal, local_request.
  by rewrite (level_frags _ _ Hf1), (level_frags _ _ Hf2).
Qed.

Lemma rv_message_forwarded type id RVFID strategy : id_ok id →
  rv_message gc type id RVFID strategy
  = forwarded gc RVFID (local_request type (suffix id) (prefix id) strategy).
Proof.
  intros Hid. unfold rv_message, forwarded. by destruct (withdrawal_request type id strategy Hid) as [-> _].
Qed.

(** ** The element *)

(** The FID towards the rendezvous point of a strategy. *)
Definition rv_fid (strategy : Z) : BABitvector :=
  if (strategy =? DOMAIN_LOCAL)%Z then defaultRV_dl gc else mkBV 255 (replicate 8 0%Z).

Lemma rv_of_strategy_run strategy s : rv_of_strategy gc strategy s = Ok (rv_fid strategy, s).
Proof. done. Qed.

Lemma rv_fid_ok strategy : gc_ok gc → route_ok (rv_fid strategy).
Proof.
  intros Hgc. unfold rv_fid. destruct (_ =? _)%Z.
  - apply (go_route _ Hgc).
  - left. vm_compute. reflexivity.
Qed.

Lemma push_request_run type h ID prefixID strategy k m s : gc_ok gc → px_inv (pst s) →
  is_Some (localhosts (pst s) !! h) → frags (S k) ID → frags m prefixID →
  ∃ forward s1, local_contract type h (full_id ID prefixID) strategy s forward s1 ∧
    push_request gc h type (local_request type ID prefixID strategy) s
    = Ok (tt, mkPx (pst s1) (pout s ++ [if forward : bool then
        forwarded gc (rv_fid strategy) (local_request type ID prefixID strategy) else Freed])).
Proof.
  intros Hgc Hinv Hal HID Hpre.
  pose proof (rv_fid_ok strategy Hgc) as Hfid.
  destruct (wp_total _ _ _ (handleLocalRequest_spec type h ID prefixID strategy _ k m s Hinv Hal
    HID Hpre Hfid)) as (forward & s1 & Hrun & Hc).
  exists forward, s1. split; [done|].
  assert (pout s1 = pout s) as Hq.
  { unfold local_contract in Hc. repeat case_match; destruct Hc as [Hc _];
      try exact (set_quiet _ _ _ _ Hc). by subst. }
  unfold push_request. change (local_request _ _ _ _) with ([] ++ local_request type ID prefixID strategy).
  rewrite (run_bind _ _ _ _ _ (read_idlen [] type ID prefixID strategy _ HID s)).
  rewrite (run_bind _ _ _ _ _ (read_ID [] type ID prefixID strategy _ HID s)).
  rewrite (run_bind _ _ _ _ _ (read_plen [] type ID prefixID strategy _ Hpre s)).
  rewrite (run_bind _ _ _ _ _ (read_prefixID [] type ID prefixID strategy _ Hpre s)).
  rewrite (run_bind _ _ _ _ _ (read_strategy [] type ID prefixID strategy s)).
  rewrite (run_bind _ _ _ _ _ (rv_of_strategy_run strategy s)), (run_bind _ _ _ _ _ Hrun).
  destruct forward; [rewrite publishReqToRV_run by done|]; rewrite <-Hq; done.
Qed.

Lemma getLocalHost_known type id h s : local_pub_sub_Index (pst s) !! id = Some h →
  getLocalHost type id s = Ok (h, s).
Proof.
  intros Hi. unfold getLocalHost, get_px, mbind, M_bind, get, mret, M_ret. cbn. by rewrite Hi.
Qed.

(** A new host has nothing. *)
Lemma getLocalHost_spec type id s : px_inv (pst s) →
  wp no_fault (getLocalHost type id) (λ h s', px_inv (pst s') ∧ pout s' = pout s ∧
    local_pub_sub_Index (pst s') !! id = Some h ∧
    keeps (publishes (pst s)) (publishes (pst s')) ∧
    keeps (subscribes (pst s)) (subscribes (pst s')) ∧
    ∀ h', is_Some (localhosts (pst s) !! h') → is_Some (localhosts (pst s') !! h')) s.
Proof.
  intros Hinv. unfold getLocalHost. apply wp_bind, wp_get_px.
  destruct (local_pub_sub_Index (pst s) !! id) as [h|] eqn:E; [by apply wp_ret|].
  set (h := fresh (dom (localhosts (pst s)))).
  assert (localhosts (pst s) !! h = None) as Hh by (apply not_elem_of_dom; apply is_fresh).
  apply wp_bind, wp_mod_px, wp_bind, wp_mod_px, wp_ret. cbn [pst pout].
  split_and!; [|done|by cbn; rewrite lookup_insert_eq|done|done|]; cycle 1.
  { intros h' [l Hl]. apply lookup_insert_is_Some'. right. by eexists. }
  pose proof Hinv as [I1 I2 I3 I4 I5 I6 I7].
  assert (∀ id', ¬ publishes (pst s) h id') as Hnp
    by (intros id' Hp%I2; rewrite Hh in Hp; by apply is_Some_None in Hp).
  assert (∀ id', ¬ subscribes (pst s) h id') as Hns
    by (intros id' Hp%I5; rewrite Hh in Hp; by apply is_Some_None in Hp).
  assert (∀ h', is_Some (localhosts (pst s) !! h') →
    is_Some (<[h:=mkLH type id ∅ ∅]> (localhosts (pst s)) !! h')) as Hmon
    by (intros h' [l Hl]; apply lookup_insert_is_Some'; right; by eexists).
  split; cbn; try done.
  - intros h' l id' [[<- <-]|[Hne Hl]]%lookup_insert_Some; [|exact (I1 _ _ _ Hl)].
    split; [set_solver|]. intros Hp. by destruct (Hnp id').
  - intros h' id' Hp. by eapply Hmon, I2.
  - intros h' l id' [[<- <-]|[Hne Hl]]%lookup_insert_Some; [|exact (I4 _ _ _ Hl)].
    split; [set_solver|]. intros Hp. by destruct (Hns id').
  - intros h' id' Hp. by eapply Hmon, I5.
  - intros d h'. destruct (decide (id = d)) as [<-|Hd].
    + rewrite lookup_insert_eq. split.
      * intros [= <-]. eexists. by rewrite lookup_insert_eq.
      * intros (l & [[<- _]|[Hne Hl]]%lookup_insert_Some & Hid); [done|].
        assert (local_pub_sub_Index (pst s) !! id = Some h') by (apply I7; eauto). congruence.
    + rewrite lookup_insert_ne, I7 by done. split; intros (l & Hl & Hid); exists l.
      * split; [|done]. rewrite lookup_insert_ne; [done|]. intros <-. congruence.
      * apply lookup_insert_Some in Hl as [[_ <-]|[_ Hl]]; done.
Qed.

Lemma index_host s d h : px_inv s → local_pub_sub_Index s !! d = Some h →
  ∃ l, localhosts s !! h = Some l ∧ lh_id l = d.
Proof. intros Hinv Hi. by apply (pi_index _ Hinv). Qed.

Lemma local_request_run (in_port anno type : Z) (ID prefixID : bytes) (strategy : Z)
    (h : positive) (k m : nat) (s : px) :
  gc_ok gc → px_inv (pst s) →
  local_pub_sub_Index (pst s) !! (sender in_port anno).2 = Some h →
  type ≠ DISCONNECT → carries_data type = false → frags (S k) ID → frags m prefixID →
  ∃ forward s1, local_contract type h (full_id ID prefixID) strategy s forward s1 ∧
    push_local gc in_port anno (local_request type ID prefixID strategy) s
    = Ok (true, mkPx (pst s1) (pout s ++ [if forward : bool then
        forwarded gc (rv_fid strategy) (local_request type ID prefixID strategy) else Freed])).
Proof.
  intros Hgc Hinv Hi Ht Hd HID Hpre. destruct (index_host _ _ _ Hinv Hi) as (l & Hl & _).
  destruct (push_request_run type h ID prefixID strategy k m s Hgc Hinv) as (fwd & s1 & Hc & Hrun);
    [by eexists|done|done|].
  exists fwd, s1. split; [done|]. unfold push_local. destruct (sender in_port anno) as [ty d].
  rewrite (run_bind _ _ _ _ _ (getLocalHost_known ty d h s Hi)).
  rewrite (run_bind _ _ s type s) by done.
  rewrite (proj2 (Z.eqb_neq _ _) Ht), Hd. by rewrite (run_bind _ _ _ _ _ Hrun).
Qed.

(** C4. A request of a local entity that the proxy knows, of at least one
    fragment, is served on every branch, in a consistent state.  It enters or
    strikes one pair of the relation of publications (strategies NODE_LOCAL
    and DOMAIN_LOCAL only) or of subscriptions, if the strategy is the one of
    the entry, and changes nothing else.  The packet goes to the rendezvous
    point: for a publication of those strategies, if the item has no publisher
    yet or this publisher was asked to publish again; for an unpublication, if
    it struck the last publisher; for a subscription, if the strategy fits and
    either there was a subscriber already or the strategy is not one that is
    kept local (IMPLICIT_RENDEZVOUS, LINK_LOCAL, BROADCAST_IF); for an
    unsubscription, if it struck the last subscriber and the strategy is not
    kept local.  Otherwise, and for every other type, it is freed. *)
Theorem local_request_served (in_port anno type : Z) (ID prefixID : bytes) (strategy : Z)
    (h : positive) (k m : nat) (s : px) :
  gc_ok gc → px_inv (pst s) →
  local_pub_sub_Index (pst s) !! (sender in_port anno).2 = Some h →
  type ≠ DISCONNECT → carries_data type = false → frags (S k) ID → frags m prefixID →
  ∃ forward s1, local_contract type h (full_id ID prefixID) strategy s forward s1 ∧
    push_local gc in_port anno (local_request type ID prefixID strategy) s
    = Ok (true, mkPx (pst s1) (pout s ++ [if forward : bool then
        forwarded gc (rv_fid strategy) (local_request type ID prefixID strategy) else Freed])).
Proof. apply local_request_run. Qed.

(** C3. When an entity that the proxy knows disconnects, in a consistent
    state, the proxy always finishes and removes it from the local hosts,
    their index and the tables of publications and of subscriptions: its
    record and its index entry go, every publication and subscription loses
    exactly this host, entries without hosts disappear, and nothing of another
    host changes except that one other publisher takes over an item the leaver
    was told to publish.  (The table of implicit subscribers is not searched:
    a pointer to the freed record stays there.)  The packets sent are exactly
    one withdrawal for everything nobody else in the node has (and one
    START_PUBLISH for each item taken over), each once: items before scopes,
    publications before subscriptions, and nested scopes from the deepest
    level up. *)
Theorem disconnect_clean (in_port anno : Z) (rest : bytes) (h : positive) (l : LocalHost) (s : px) :
  gc_ok gc → px_inv (pst s) →
  local_pub_sub_Index (pst s) !! (sender in_port anno).2 = Some h →
  localhosts (pst s) !! h = Some l →
  ∃ s' fs, push_local gc in_port anno (DISCONNECT :: rest) s = Ok (true, s') ∧
    px_inv (pst s') ∧ host_gone h l (pst s) (pst s') ∧
    (∀ h' id, publishes (pst s') h' id ↔ publishes (pst s) h' id ∧ h' ≠ h) ∧
    (∀ h' id, subscribes (pst s') h' id ↔ subscribes (pst s) h' id ∧ h' ≠ h) ∧
    pout s' = pout s ++ (farewell_event gc (pst s) <$> fs) ++ [Freed] ∧ farewells h s fs.
Proof.
  intros Hgc Hinv Hi Hl.
  destruct (wp_total _ _ _ (disconnect_spec gc h s l Hgc Hinv Hl))
    as ([] & s1 & Hrun & Hg & Hinv1 & fs & Hfs & Hout).
  exists (mkPx (pst s1) (pout s1 ++ [Freed])), fs. split_and!; [|done|done| | | |done].
  - unfold push_local. destruct (sender in_port anno) as [ty d].
    rewrite (run_bind _ _ _ _ _ (getLocalHost_known ty d h s Hi)).
    rewrite (run_bind _ _ s DISCONNECT s) by done. cbn [Z.eqb].
    rewrite Z.eqb_refl. by rewrite (run_bind _ _ _ _ _ Hrun).
  - intros h' id. by apply (gone_publishes h s l).
  - intros h' id. by apply (gone_subscribes h s l).
  - cbn. by rewrite Hout, <-app_assoc.
Qed.

(** What the proxy says is what the rendezvous point hears: a request
    that the proxy forwards to a rendezvous point of this node, and a
    withdrawal that it makes up itself when an entity disconnects, arrive as
    packets without an uninitialised byte, and LocalRV's handler reads from
    them the same request, made in the name of this node. *)
Theorem proxy_heard_by_rv (type : Z) (ID prefixID id : bytes) (strategy : Z)
    (RVFID : BABitvector) (k m : nat) (s : px) :
  gc_ok gc → route_ok RVFID → rv_is_local gc RVFID = true →
  frags k ID → frags m prefixID → id_ok id →
  ∃ p q,
    publishReqToRV gc (local_request type ID prefixID strategy) RVFID s
      = Ok (tt, mkPx (pst s) (pout s ++ [Output 1 None (Some <$> p)])) ∧
    withdraw gc type id RVFID strategy s
      = Ok (tt, mkPx (pst s) (pout s ++ [Output 1 None (Some <$> q)])) ∧
    ∀ r : rv,
      LocalRV.push gc 0 p r
      = (code ← handle_request gc (mkRequest (nodeID gc) type ID prefixID strategy);
         _ ← push_event Killed; mret (Some code)) r ∧
      LocalRV.push gc 0 q r
      = (code ← handle_request gc (mkRequest (nodeID gc) type (suffix id) (prefix id) strategy);
         _ ← push_event Killed; mret (Some code)) r.
Proof.
  intros Hgc Hfid Hloc HID Hpre Hid.
  destruct (withdrawal_request type id strategy Hid) as (_ & Hs & Hp).
  eexists _, _. split_and!.
  - rewrite publishReqToRV_run by done. unfold forwarded. rewrite Hloc. done.
  - rewrite withdraw_run, rv_message_forwarded by done. unfold forwarded. rewrite Hloc. done.
  - intros r. rewrite (go_noderv _ Hgc).
    split; by eapply push_request_packet; [apply Hgc|apply Hgc| |].
Qed.

(** ** Any packets *)

(** A packet of bytes whose request names at least one fragment. *)
Definition packet_ok (p : bytes) : bool :=
  forallb (λ b, (0 <=? b) && (b <? 256))%Z p &&
  match p !! 0, p !! 1 with
  | Some type, Some n => ((type =? DISCONNECT) || (0 <? n))%Z
  | _, _ => true
  end.

Lemma forallb_bytes p : forallb (λ b, (0 <=? b) && (b <? 256))%Z p = true → Forall is_byte p.
Proof.
  rewrite forallb_forall. intros Hall. apply Forall_forall. intros b Hb%list_elem_of_In%Hall.
  unfold is_byte. lia.
Qed.

Lemma packet_ok_bytes p : packet_ok p = true → Forall is_byte p.
Proof. unfold packet_ok. by intros [Hall%forallb_bytes _]%andb_true_iff. Qed.

Lemma px_read_byte F p off (Q : Z → px → Prop) s : F BufferOverflow →
  (∀ b, p !! off = Some b → Q b s) → wp F (read_byte p off) Q s.
Proof.
  intros HF HQ. unfold read_byte. destruct (p !! off); [by apply wp_ret, HQ|by apply wp_throw].
Qed.

Lemma px_read_bytes F p off len (Q : bytes → px → Prop) s : F BufferOverflow →
  (∀ x, length x = len → Q x s) → wp F (read_bytes p off len) Q s.
Proof.
  intros HF HQ. unfold read_bytes. case_decide; [|by apply wp_throw]. apply wp_ret, HQ.
  unfold substr. rewrite length_take, length_drop. lia.
Qed.

Lemma push_request_inv type h p s : gc_ok gc → px_inv (pst s) →
  is_Some (localhosts (pst s) !! h) → Forall is_byte p →
  (∀ i, p !! 1 = Some i → (0 < i)%Z) →
  wp (λ e, e = BufferOverflow) (push_request gc h type p)
    (λ _ s', px_inv (pst s') ∧ same_hosts (pst s) (pst s')) s.
Proof.
  intros Hgc Hinv Hal Hp Hpos. unfold push_request.
  apply wp_bind, px_read_byte; [done|]. intros i Hi. apply wp_bind, px_read_bytes; [done|].
  intros ID HID. apply wp_bind, px_read_byte; [done|]. intros j Hj.
  apply wp_bind, px_read_bytes; [done|]. intros prefixID Hpre.
  apply wp_bind, px_read_byte; [done|]. intros strategy _.
  apply wp_bind. unfold wp at 1. rewrite rv_of_strategy_run. apply wp_bind.
  pose proof (Forall_lookup_1 _ _ _ _ Hp Hi) as [_ Hib]. pose proof (Forall_lookup_1 _ _ _ _ Hp Hj) as [_ Hjb].
  pose proof (rv_fid_ok strategy Hgc) as Hfid. specialize (Hpos i Hi).
  eapply wp_fault_mono; [eapply wp_mono;
    [apply (handleLocalRequest_spec _ _ _ _ _ _ (Z.to_nat i - 1) (Z.to_nat j)); try done|]|done].
  - split; [rewrite HID; unfold PURSUIT_ID_LEN|]; lia.
  - split; [done|lia].
  - intros fwd s1 Hc. assert (px_inv (pst s1) ∧ same_hosts (pst s) (pst s1)) as Hinv1.
    { unfold local_contract in Hc. repeat case_match; destruct Hc as [Hc _];
        try exact (conj (set_inv _ _ _ _ Hc) (set_hosts' _ _ _ _ Hc)). by subst. }
    destruct fwd; [|done]. unfold wp. by rewrite publishReqToRV_run.
Qed.

Lemma push_local_inv in_port anno p s : gc_ok gc → px_inv (pst s) → packet_ok p = true →
  wp (λ e, e = BufferOverflow) (push_local gc in_port anno p) (λ _ s', px_inv (pst s')) s.
Proof.
  intros Hgc Hinv Hp. unfold push_local. destruct (sender in_port anno) as [ty d].
  apply wp_bind. eapply wp_fault_mono; [eapply wp_mono; [by apply getLocalHost_spec|]|done].
  intros h s1 (Hinv1 & _ & Hi & _). destruct (index_host _ _ _ Hinv1 Hi) as (l & Hl & _).
  apply wp_bind, px_read_byte; [done|]. intros type Ht.
  destruct (Z.eqb_spec type DISCONNECT) as [->|Hne].
  - apply wp_bind. eapply wp_fault_mono; [eapply wp_mono; [by apply (disconnect_spec gc h s1 l)|]|done].
    intros [] s2 (_ & Hinv2 & _). done.
  - destruct (carries_data type); [done|]. apply wp_bind.
    eapply wp_mono; [apply push_request_inv; [done|done|by eexists|by apply packet_ok_bytes|]|by intros ?? []].
    + intros i Hi1. unfold packet_ok in Hp. rewrite Ht, Hi1 in Hp.
      apply andb_true_iff in Hp as [_ Hp]. apply orb_true_iff in Hp as [Hp|Hp]; lia.
Qed.

(** The packets of local entities, each with its input and annotation. *)
Definition proxy_serve (ps : list (Z * Z * bytes)) : M px unit :=
  for_each ps (λ '(in_port, anno, p), _ ← push_local gc in_port anno p; mret tt).

Lemma serve_inv ps : gc_ok gc → forallb (λ q, packet_ok q.2) ps = true →
  wp (λ e, e = BufferOverflow) (proxy_serve ps) (λ _ s, px_inv (pst s)) (mkPx empty_proxy []).
Proof.
  intros Hgc Hps. unfold proxy_serve. apply wp_for_each_inv; [apply empty_px_inv|].
  intros [[in_port anno] p] s Hin Hinv. apply wp_bind.
  eapply wp_mono; [apply push_local_inv; try done|done].
  rewrite forallb_forall in Hps. apply (Hps (in_port, anno, p)). by apply list_elem_of_In.
Qed.

(** Whatever control packets the applications and Click elements of a
    node send to a new proxy, in any order and with disconnections in
    between, it never follows a NULL pointer or a pointer to a disconnected
    host, and its tables stay consistent: what a host record says it
    publishes or subscribes to is what the tables say, no entry is without a
    host, and the index finds exactly the connected hosts.  (Every request
    has to name at least one fragment; a packet that is shorter than its
    length fields say can be read past its end.) *)
Theorem proxy_safe (ps : list (Z * Z * bytes)) :
  gc_ok gc → forallb (λ q, packet_ok q.2) ps = true →
  wp (λ e, e = BufferOverflow) (proxy_serve ps) (λ _ s, px_inv (pst s)) (mkPx empty_proxy []).
Proof. apply serve_inv. Qed.
End properties.

(** ** A sample node *)

Lemma sample_gc_ok : gc_ok sample_gc.
Proof. apply gc_wf_ok, sample_gc_wf. Qed.

Definition app_packet (descriptor type : Z) (ID prefixID : bytes) (strategy : Z)
    : Z * Z * bytes := (0%Z, descriptor, local_request type ID prefixID strategy).

(** Two applications: the first publishes the scopes /65 and /65/66 and the
    item /65/66/67, the second publishes the item, too, and subscribes to the
    scope. *)
Definition sample_requests : list (Z * Z * bytes) :=
  [app_packet 1001 PUBLISH_SCOPE (frag 65) [] DOMAIN_LOCAL;
   app_packet 1001 PUBLISH_SCOPE (frag 66) (frag 65) DOMAIN_LOCAL;
   app_packet 1001 PUBLISH_INFO (frag 67) (frag 65 ++ frag 66) DOMAIN_LOCAL;
   app_packet 1002 PUBLISH_INFO (frag 67) (frag 65 ++ frag 66) DOMAIN_LOCAL;
   app_packet 1002 SUBSCRIBE_SCOPE (frag 66) (frag 65) DOMAIN_LOCAL].

Lemma proxy_safe_witness :
  gc_ok sample_gc ∧ forallb (λ q, packet_ok q.2) sample_requests = true ∧
  wp (λ e, e = BufferOverflow) (proxy_serve (HO := canonical_order true) sample_gc sample_requests)
    (λ _ s, px_inv (pst s)) (mkPx empty_proxy []).
Proof.
  split; [apply sample_gc_ok|]. split; [vm_compute; reflexivity|].
  apply (proxy_safe (HO := canonical_order true) sample_gc sample_requests).
  - apply sample_gc_ok.
  - vm_compute. reflexivity.
Defined.

Definition sample_proxy : px :=
  after (proxy_serve (HO := canonical_order true) sample_gc sample_requests) (mkPx empty_proxy []).

Lemma sample_proxy_inv : px_inv (pst sample_proxy).
Proof.
  apply (after_spec (λ e, e = BufferOverflow) _ (λ s, px_inv (pst s))); [|apply empty_px_inv].
  apply serve_inv; [apply sample_gc_ok|]. vm_compute. reflexivity.
Qed.

Lemma frags_one k : frags 1 (frag k).
Proof. split; [done|lia]. Qed.

Lemma frags_two k k' : frags 2 (frag k ++ frag k').
Proof. split; [done|lia]. Qed.

(** The first application takes its item back: the second still publishes it. *)
Lemma local_request_served_witness :
  let p := local_request UNPUBLISH_INFO (frag 67) (frag 65 ++ frag 66) DOMAIN_LOCAL in
  ∃ forward s1,
    local_contract UNPUBLISH_INFO 1 (full_id (frag 67) (frag 65 ++ frag 66)) DOMAIN_LOCAL
      sample_proxy forward s1 ∧
    push_local (HO := canonical_order true) sample_gc 0 1001 p sample_proxy
    = Ok (true, mkPx (pst s1) (pout sample_proxy ++
        [if forward : bool then forwarded sample_gc (rv_fid sample_gc DOMAIN_LOCAL) p else Freed])).
Proof.
  apply (local_request_served (HO := canonical_order true) sample_gc 0 1001 UNPUBLISH_INFO
    (frag 67) (frag 65 ++ frag 66) DOMAIN_LOCAL 1 0 2 sample_proxy).
  - apply sample_gc_ok.
  - apply sample_proxy_inv.
  - vm_compute. reflexivity.
  - intros H. discriminate H.
  - reflexivity.
  - apply frags_one.
  - apply frags_two.
Defined.

Definition sample_host : LocalHost :=
  default (mkLH LOCAL_PROCESS 0 ∅ ∅) (localhosts (pst sample_proxy) !! 1%positive).

Lemma disconnect_clean_witness :
  ∃ s' fs, push_local (HO := canonical_order true) sample_gc 0 1001 [DISCONNECT] sample_proxy
      = Ok (true, s') ∧
    px_inv (pst s') ∧
    host_gone (HO := canonical_order true) 1 sample_host (pst sample_proxy) (pst s') ∧
    (∀ h' id, publishes (pst s') h' id ↔ publishes (pst sample_proxy) h' id ∧ h' ≠ 1%positive) ∧
    (∀ h' id, subscribes (pst s') h' id ↔ subscribes (pst sample_proxy) h' id ∧ h' ≠ 1%positive) ∧
    pout s' = pout sample_proxy ++ (farewell_event sample_gc (pst sample_proxy) <$> fs) ++ [Freed] ∧
    farewells (HO := canonical_order true) 1 sample_proxy fs.
Proof.
  apply (disconnect_clean (HO := canonical_order true) sample_gc 0 1001 [] 1 sample_host sample_proxy).
  - apply sample_gc_ok.
  - apply sample_proxy_inv.
  - vm_compute. reflexivity.
  - vm_compute. reflexivity.
Defined.

Lemma sample_route : route_ok (defaultRV_dl sample_gc).
Proof. apply (go_route _ sample_gc_ok). Qed.

Lemma id_ok_three k k' k'' : id_ok (frag k ++ frag k' ++ frag k'').
Proof. exists 3. split; [done|lia]. Qed.

Lemma proxy_heard_by_rv_witness :
  let req := local_request PUBLISH_INFO (frag 67) (frag 65 ++ frag 66) DOMAIN_LOCAL in
  let id := frag 65 ++ frag 66 ++ frag 67 in
  rv_is_local sample_gc (defaultRV_dl sample_gc) = true ∧
  ∃ p q,
    publishReqToRV sample_gc req (defaultRV_dl sample_gc) sample_proxy
      = Ok (tt, mkPx (pst sample_proxy) (pout sample_proxy ++ [Output 1 None (Some <$> p)])) ∧
    withdraw sample_gc PUBLISH_INFO id (defaultRV_dl sample_gc) DOMAIN_LOCAL sample_proxy
      = Ok (tt, mkPx (pst sample_proxy) (pout sample_proxy ++ [Output 1 None (Some <$> q)])) ∧
    ∀ r : rv,
      LocalRV.push (HO := canonical_order true) sample_gc 0 p r
      = (code ← handle_request (HO := canonical_order true) sample_gc
                  (mkRequest (nodeID sample_gc) PUBLISH_INFO (frag 67) (frag 65 ++ frag 66) DOMAIN_LOCAL);
         _ ← push_event Killed; mret (Some code)) r ∧
      LocalRV.push (HO := canonical_order true) sample_gc 0 q r
      = (code ← handle_request (HO := canonical_order true) sample_gc
                  (mkRequest (nodeID sample_gc) PUBLISH_INFO (suffix id) (prefix id) DOMAIN_LOCAL);
         _ ← push_event Killed; mret (Some code)) r.
Proof.
  split; [vm_compute; reflexivity|].
  apply (proxy_heard_by_rv (HO := canonical_order true) sample_gc PUBLISH_INFO (frag 67)
    (frag 65 ++ frag 66) (frag 65 ++ frag 66 ++ frag 67) DOMAIN_LOCAL (defaultRV_dl sample_gc) 1 2
    sample_proxy).
  - apply sample_gc_ok.
  - apply sample_route.
  - vm_compute. reflexivity.
  - apply frags_one.
  - apply frags_two.
  - apply id_ok_three.
Defined.

(** A scope published under the empty identifier survives its publisher:
    the loops of disconnect run over the levels from the deepest to 1 and the
    empty identifier is on level 0, so that the table of publications keeps a
    pointer to the freed record of the application. *)
Theorem empty_scope_dangles (keeps : bool) :
  ∃ s, proxy_serve (HO := canonical_order keeps) sample_gc
         [app_packet 1001 PUBLISH_SCOPE [] [] DOMAIN_LOCAL; (0%Z, 1001%Z, [DISCONNECT])]
         (mkPx empty_proxy []) = Ok (tt, s) ∧
    publishes (pst s) 1 [] ∧ localhosts (pst s) !! 1%positive = None.
Proof.
  eexists. split; [vm_compute; reflexivity|]. split; [|vm_compute; reflexivity].
  eexists. split; [vm_compute; reflexivity|]. eexists. vm_compute. reflexivity.
Qed.
