(* ===== verification/ProxyData.v ===== *)
(** * The data plane of the local proxy (src/localproxy.cc, src/activenode.hh)

    LocalProxy::push as a whole: data of local entities and of the network,
    notifications of the rendezvous point and the topology manager, implicit
    subscriptions, management requests.  The control plane of [LocalProxy] is
    called on the part of the state it needs ([lift]).

    A handler gets one packet.  [n_packet] is what the pointer [p] of the
    source refers to: the current data of the packet, or nothing once the
    packet was killed or pushed to an output.  Reading, killing or pushing it
    after that faults as [Dangling]; a packet that is still there when the
    handler returns is leaked.  [p->clone()->uniqueify()] is a copy of the
    data. *)
From stdpp Require Import base list gmap sets.
From Stdlib Require Import ZArith Lia.
From S2P Require Import Prelude Enums Bitvector GlobalConf InfoGraph LocalRV LocalProxy.

(** ActiveNode: a node that subscribed implicitly. *)
Record ActiveNode := mkAN {
  an_nodeID : bytes;
  an_publishers : gmap positive Z;
  FID_to_node : BABitvector;
}.

Record Node := mkNode {
  n_px : px;
  n_gc : GlobalConf;
  activeNodeIndex : gmap bytes ActiveNode;
  n_packet : option bytes;
}.

(** ** State and packet *)

Definition lift {A} (m : M px A) : M Node A := λ s,
  match m (n_px s) with
  | Ok (a, x) => Ok (a, mkNode x (n_gc s) (activeNodeIndex s) (n_packet s))
  | Fault e => Fault e
  end.

Definition get_gc : M Node GlobalConf := s ← get; mret (n_gc s).
Definition set_gc (f : GlobalConf → GlobalConf) : M Node unit :=
  modify (λ s, mkNode (n_px s) (f (n_gc s)) (activeNodeIndex s) (n_packet s)).
Definition get_nodes : M Node (gmap bytes ActiveNode) := s ← get; mret (activeNodeIndex s).
Definition mod_nodes (f : gmap bytes ActiveNode → gmap bytes ActiveNode) : M Node unit :=
  modify (λ s, mkNode (n_px s) (n_gc s) (f (activeNodeIndex s)) (n_packet s)).

Definition with_defaultRV (v : BABitvector) (gc : GlobalConf) : GlobalConf :=
  mkGC (type_FW gc) (type_RV gc) (type_TM gc) (nodeID gc) v (iLID gc) (TMFID gc) (use_mac gc)
    (RVScope gc) (RVScopeUC gc) (TMScope gc) (TMScopeUC gc) (nodeRVScope gc) (nodeTMScope gc)
    (nodeTMScopeUC gc) (notificationIID gc) (pathMgmtScope gc) (pathMgmtIID gc) (IP_ROOTSCOPE gc)
    (HTTP_ROOTSCOPE gc) (status gc).
Definition with_TMFID (v : BABitvector) (gc : GlobalConf) : GlobalConf :=
  mkGC (type_FW gc) (type_RV gc) (type_TM gc) (nodeID gc) (defaultRV_dl gc) (iLID gc) v (use_mac gc)
    (RVScope gc) (RVScopeUC gc) (TMScope gc) (TMScopeUC gc) (nodeRVScope gc) (nodeTMScope gc)
    (nodeTMScopeUC gc) (notificationIID gc) (pathMgmtScope gc) (pathMgmtIID gc) (IP_ROOTSCOPE gc)
    (HTTP_ROOTSCOPE gc) (status gc).
Definition with_status (st : Z) (gc : GlobalConf) : GlobalConf :=
  mkGC (type_FW gc) (type_RV gc) (type_TM gc) (nodeID gc) (defaultRV_dl gc) (iLID gc) (TMFID gc)
    (use_mac gc) (RVScope gc) (RVScopeUC gc) (TMScope gc) (TMScopeUC gc) (nodeRVScope gc)
    (nodeTMScope gc) (nodeTMScopeUC gc) (notificationIID gc) (pathMgmtScope gc) (pathMgmtIID gc)
    (IP_ROOTSCOPE gc) (HTTP_ROOTSCOPE gc) st.

(** [p->data()] *)
Definition p_data : M Node bytes :=
  s ← get; match n_packet s with Some p => mret p | None => throw Dangling end.
Definition set_packet (o : option bytes) : M Node unit :=
  modify (λ s, mkNode (n_px s) (n_gc s) (activeNodeIndex s) o).
(** [p->pull(n)]; Click pulls at most the whole packet. *)
Definition p_pull (n : nat) : M Node unit := p ← p_data; set_packet (Some (drop n p)).
(** The packet is given away. *)
Definition p_give : M Node bytes := p ← p_data; _ ← set_packet None; mret p.
Definition p_kill : M Node unit := _ ← p_give; lift (px_emit Freed).

Definition px_state : M Node Proxy := lift get_px.

(** [FID == NULL] compares the conversion to bool, which is false for a vector
    without a set bit. *)
Definition is_NULL (v : BABitvector) : bool := zero v.

Definition with_FID (ids : list bytes) (v : BABitvector) (ap : ActivePublication)
    : ActivePublication :=
  mkAP (ap_strategy ap) (publishers ap) ids v (ap_RVFID ap) (ap_isScope ap).
Definition mod_ap (id : bytes) (f : ActivePublication → ActivePublication) : M Node unit :=
  lift (mod_px (set_pubs (alter f id))).

(** [publishers_it->second = st] *)
Definition set_state (id : bytes) (h : positive) (st : Z) : M Node unit :=
  mod_ap id (with_publishers (insert h st)).

Section data.
Context `{HO : HashOrder}.

(** ** Reading packets *)

(** [n] identifiers at [off], each behind its length; the result is the
    identifiers and the offset behind them. *)
Fixpoint read_IDs {St : Type} (p : bytes) (n off : nat) : M St (list bytes * nat) :=
  match n with
  | O => mret ([], off)
  | S n =>
      len ← read_byte p off;
      id ← read_bytes p (off + 1) (Z.to_nat len * PURSUIT_ID_LEN);
      rest ← read_IDs p n (off + 1 + Z.to_nat len * PURSUIT_ID_LEN);
      mret (id :: fst rest, snd rest)
  end.

Definition read_FID (p : bytes) (off : nat) : M Node BABitvector :=
  bs ← read_bytes p off FID_LEN; mret (fid_of_bytes bs).

(** ** Data for subscribers *)

Definition pushDataToLocalSubscriber (localhost : positive) (ID data : bytes) (APItype : Z)
    : M Node unit :=
  match memcpys (make_packet (1 + 1 + length ID) ++ (Some <$> data)) 0
          [[APItype]; [fragments ID]; ID] with
  | Ok p => lift (push_to_host localhost p)
  | Fault e => throw e
  end.

(** [numberOfIDs], [totalIDsLength] and the identifiers with their lengths *)
Definition numberOfIDs (IDs : list bytes) : Z := u8 (Z.of_nat (length IDs)).
Definition ids_block (IDs : list bytes) : list bytes :=
  [numberOfIDs IDs] :: id_fields (take (Z.to_nat (numberOfIDs IDs)) IDs).
Definition ids_len (IDs : list bytes) : nat :=
  1 + Z.to_nat (numberOfIDs IDs) * 1 + sum_list (length <$> IDs).

(** pushDataToRemoteSubscribers without a type: the header goes in front of
    the packet. *)
Definition pushDataToRemoteSubscribers (IDs : list bytes) (FID : BABitvector) (data : bytes)
    : M Node unit :=
  fid ← fid_data FID;
  match memcpys (make_packet (FID_LEN + ids_len IDs) ++ (Some <$> data)) 0 (fid :: ids_block IDs) with
  | Ok p => lift (px_emit (Output 2 None p))
  | Fault e => throw e
  end.

(** pushDataToRemoteSubscribers with a type: a new packet, the old one is
    killed. *)
Definition pushDataToRemoteSubscribers_typed (IDs : list bytes) (type : Z) (FID : BABitvector)
    (data : bytes) : M Node unit :=
  gc ← get_gc;
  fid ← fid_data FID;
  p ← (if (type =? PUBLISH_DATA)%Z then
         mret (memcpys (make_packet (FID_LEN + ids_len IDs + 1 + length data)) 0
           ([fid] ++ ids_block IDs ++ [[type]; data]))
       else if (type =? PUBLISH_DATA_iSUB)%Z then
         nid ← read_bytes (nodeID gc) 0 NODEID_LEN;
         mret (memcpys (make_packet (FID_LEN + ids_len IDs + 1 + NODEID_LEN + length data)) 0
           ([fid] ++ ids_block IDs ++ [[type]; nid; data]))
       else throw Dangling);
  match p with
  | Ok p =>
      _ ← lift (px_emit Freed);
      lift (px_emit (Output 2 None p))
  | Fault e => throw e
  end.

(** The loop over local subscribers: all but the last get a copy. *)
Fixpoint deliver (subs : list (positive * bytes)) (APItype : Z) : M Node unit :=
  match subs with
  | [] => mret tt
  | [(h, ID)] => p ← p_give; pushDataToLocalSubscriber h ID p APItype
  | (h, ID) :: subs =>
      p ← p_data;
      _ ← pushDataToLocalSubscriber h ID p APItype;
      deliver subs APItype
  end.

(** A table of local subscribers, in the order of iteration. *)
Definition in_order (subs : gmap positive bytes) : list (positive * bytes) :=
  (λ h, (h, default [] (subs !! h))) <$> ptr_order (dom subs).

Definition handleNetworkPublication (IDs : list bytes) (APItype : Z) : M Node unit :=
  s ← px_state;
  let '(found, subs) := findLocalSubscribers IDs s in
  if (found : bool) then deliver (in_order subs) APItype else p_kill.

(** ** Data of local entities *)

(** The publication with a FID for [ID]: its own or its father's. *)
Definition publication_for (s : Proxy) (ID : bytes) : option (ActivePublication * list bytes) :=
  match activePublicationIndex s !! ID with
  | Some ap => Some (ap, ap_allKnownIDs ap)
  | None => (λ ap, (ap, [ID])) <$> activePublicationIndex s !! prefix ID
  end.

(** A publication whose FID is gone: its publisher is told why. *)
Definition no_FID_notice (ap : ActivePublication) (localhost : positive) (ID : bytes) : M Node unit :=
  let notification := state_of localhost (publishers ap) in
  if (notification =? RE_PUBLISH)%Z then lift (sendNotificationLocally RE_PUBLISH localhost ID)
  else if (notification =? PAUSE_PUBLISH)%Z then
    lift (sendNotificationLocally PAUSE_PUBLISH localhost ID)
  else p_kill.

(** The subscribers in the node but the publisher itself. *)
Definition other_subscribers (IDs : list bytes) (localhost : positive) (s : Proxy)
    : gmap positive bytes := delete localhost (snd (findLocalSubscribers IDs s)).

(** handleUserPublication, data without FID: [local_only] tells whether a FID
    leads nowhere, [push] sends to the network. *)
Definition publish_with (local_only : BABitvector → bool)
    (push : list bytes → BABitvector → bytes → M Node unit)
    (ID : bytes) (localhost : positive) (APItype : Z) : M Node unit :=
  s ← px_state;
  match publication_for s ID with
  | None => p_kill
  | Some (ap, IDs) =>
      let FID := FID_to_subscribers ap in
      if is_NULL FID then no_FID_notice ap localhost ID
      else
        let subs := in_order ((λ _, ID) <$> other_subscribers IDs localhost s) in
        if local_only FID then
          if decide (subs = []) then p_kill else deliver subs APItype
        else if decide (subs = []) then p ← p_give; push IDs FID p
        else p ← p_data; _ ← push IDs FID p; deliver subs APItype
  end.

(** handleUserPublication(ID, p, localhost, APItype) *)
Definition handleUserPublication (ID : bytes) (localhost : positive) (APItype : Z) : M Node unit :=
  gc ← get_gc;
  publish_with (λ FID, zero FID || bv_eqb FID (iLID gc)) pushDataToRemoteSubscribers
    ID localhost APItype.

(** handleUserPublication(ID, type, p, localhost, APItype) *)
Definition handleUserPublication_typed (ID : bytes) (type : Z) (localhost : positive) (APItype : Z)
    : M Node unit :=
  publish_with zero (λ IDs FID p, pushDataToRemoteSubscribers_typed IDs type FID p)
    ID localhost APItype.

(** All names of [ID] that the father's known identifiers give. *)
Definition augmented (s : Proxy) (ID : bytes) : list bytes :=
  match activePublicationIndex s !! prefix ID with
  | Some ap =>
      filter (λ knownID, knownID ≠ ID) ((λ known, known ++ suffix ID) <$> ap_allKnownIDs ap)
  | None => []
  end ++ [ID].

(** Data never leaves for the topology manager if there are local subscribers. *)
Definition not_to_TM (gc : GlobalConf) (FID : BABitvector) : bool :=
  is_NULL (TMFID gc) || negb (bv_eqb FID (TMFID gc)).

(** handleUserPublication, data with a FID *)
Definition publish_to (push : list bytes → BABitvector → bytes → M Node unit)
    (ID : bytes) (FID : BABitvector) (localhost : positive) (APItype : Z) : M Node unit :=
  s ← px_state;
  gc ← get_gc;
  let IDs := augmented s ID in
  let subs := in_order ((λ _, ID) <$> other_subscribers IDs localhost s) in
  if decide (subs = []) then p ← p_give; push IDs FID p
  else
    _ ← (if not_to_TM gc FID then p ← p_data; push IDs FID p else mret tt);
    deliver subs APItype.

(** handleUserPublication(ID, FID, p, localhost, APItype) *)
Definition handleUserPublication_fid (ID : bytes) (FID : BABitvector) (localhost : positive)
    (APItype : Z) : M Node unit :=
  publish_to pushDataToRemoteSubscribers ID FID localhost APItype.

(** handleUserPublication(ID, type, FID, p, localhost, APItype) *)
Definition handleUserPublication_fid_typed (ID : bytes) (type : Z) (FID : BABitvector)
    (localhost : positive) (APItype : Z) : M Node unit :=
  publish_to (λ IDs FID p, pushDataToRemoteSubscribers_typed IDs type FID p)
    ID FID localhost APItype.

(** ** The topology manager's notifications *)

(** [publishers_it] over all publishers with a state in [P]. *)
Definition restate (P : Z → bool) (st : Z) (m : gmap positive Z) : gmap positive Z :=
  (λ v, if P v then st else v) <$> m.

(** sends a request for paths to implicit subscribers to the local RV *)
Definition publishiReqToRV (nodeIDs : gset bytes) : M Node unit :=
  gc ← get_gc;
  let n := u8 (Z.of_nat (size nodeIDs)) in
  lift (px_send 1 (1 + 1 + length (nodeRVScope gc) + 1 + Z.to_nat n * NODEID_LEN)
    ([[PUBLISHED_DATA_iSUB]; [IDLengthOfAPIEvent gc]; nodeRVScope gc; [n]]
       ++ (take NODEID_LEN <$> str_order nodeIDs)) []).

(** [(affected_LID & FID) == affected_LID] *)
Definition affected (LID FID : BABitvector) : M Node bool :=
  match bv_and LID FID with
  | Some r => mret (bv_eqb r LID)
  | None => throw AssertFailed
  end.

(** One publication: an affected FID is dropped and its publishers have to
    publish again. *)
Definition invalidate (LID : BABitvector) (id : bytes) : M Node unit :=
  s ← px_state;
  match activePublicationIndex s !! id with
  | Some ap =>
      if ap_isScope ap || is_NULL (FID_to_subscribers ap) then mret tt
      else
        b ← affected LID (FID_to_subscribers ap);
        if (b : bool) then
          mod_ap id (λ ap, with_publishers (restate (λ v, v =? START_PUBLISH)%Z RE_PUBLISH)
                             (with_FID (ap_allKnownIDs ap) no_FID ap))
        else mret tt
  | None => mret tt
  end.

(** The nodes whose path is affected. *)
Fixpoint affected_nodes (LID : BABitvector) (ids : list bytes) (acc : gset bytes)
    : M Node (gset bytes) :=
  match ids with
  | [] => mret acc
  | id :: ids =>
      nodes ← get_nodes;
      an ← deref (nodes !! id);
      b ← affected LID (FID_to_node an);
      affected_nodes LID ids (if (b : bool) then {[an_nodeID an]} ∪ acc else acc)
  end.

Definition processTMNotification : M Node unit :=
  p ← p_data;
  LID ← read_FID p 0;
  _ ← p_kill;
  s ← px_state;
  _ ← for_each (str_order (dom (activePublicationIndex s))) (invalidate LID);
  nodes ← get_nodes;
  ids ← affected_nodes LID (str_order (dom nodes)) ∅;
  if decide (0 < size ids) then publishiReqToRV ids else mret tt.

Definition handleUserTMPublication (ID : bytes) (type : Z) (FID : BABitvector)
    (localhost : positive) : M Node unit :=
  s ← px_state;
  gc ← get_gc;
  let IDs := augmented s ID in
  let subs := in_order (other_subscribers IDs localhost s) in
  _ ← (if decide (subs = []) then p ← p_give; pushDataToRemoteSubscribers_typed IDs type FID p
       else if not_to_TM gc FID then p ← p_data; pushDataToRemoteSubscribers_typed IDs type FID p
       else mret tt);
  processTMNotification.

(** ** The rendezvous point's notifications *)

Definition notify_all (type : Z) (ID : bytes) (hs : list positive) : M Node unit :=
  for_each hs (λ h, lift (sendNotificationLocally type h ID)).

(** SCOPE_PUBLISHED and SCOPE_UNPUBLISHED *)
Definition on_scope (type : Z) (IDs : list bytes) : M Node unit :=
  for_each IDs (λ ID, s ← px_state; notify_all type ID (ptr_order (findActiveSubscriptions ID s))).

(** The FID of each of the identifiers' publications *)
Definition assign_FID (IDs : list bytes) (FID : BABitvector) : M Node unit :=
  for_each IDs (λ ID, mod_ap ID (with_FID IDs FID)).

(** The first publisher of the publication of [ID], if there is one *)
Definition first_publisher (s : Proxy) (ID : bytes) : option (positive * Z) :=
  ap ← activePublicationIndex s !! ID;
  h ← head (ptr_order (dom (publishers ap)));
  v ← publishers ap !! h;
  Some (h, v).

Definition on_start (IDs : list bytes) (FID : BABitvector) : M Node unit :=
  _ ← assign_FID IDs FID;
  for_each IDs (λ ID,
    s ← px_state;
    match first_publisher s ID with
    | Some (h, _) =>
        _ ← set_state ID h START_PUBLISH;
        lift (sendNotificationLocally START_PUBLISH h ID)
    | None => mret tt
    end).

Definition on_update (IDs : list bytes) (FID : BABitvector) : M Node unit :=
  _ ← assign_FID IDs FID;
  for_each IDs (λ ID,
    s ← px_state;
    match first_publisher s ID with
    | Some (h, v) =>
        if (v =? START_PUBLISH)%Z then lift (sendNotificationLocally UPDATE_PUBLISH h ID)
        else mret tt
    | None => mret tt
    end).

(** [BABitvector(FID_LEN * 8)] *)
Definition zero_FID : BABitvector := mkBV 255 (replicate 8 0%Z).

Definition on_stop (IDs : list bytes) : M Node unit :=
  for_each IDs (λ ID,
    s ← px_state;
    match activePublicationIndex s !! ID with
    | Some ap =>
        _ ← mod_ap ID (with_FID IDs zero_FID);
        for_each (ptr_order (dom (publishers ap))) (λ h,
          if (state_of h (publishers ap) =? START_PUBLISH)%Z then
            _ ← set_state ID h STOP_PUBLISH;
            lift (sendNotificationLocally STOP_PUBLISH h ID)
          else mret tt)
    | None => mret tt
    end).

(** The path to one implicit subscriber: its first publisher is told whether
    there is one. *)
Definition on_isub_FID (nid : bytes) (FID : BABitvector) : M Node unit :=
  nodes ← get_nodes;
  match nodes !! nid with
  | None => mret tt
  | Some an =>
      let st := if zero FID then STOP_PUBLISH_iSUB else START_PUBLISH_iSUB in
      match ptr_order (dom (an_publishers an)) with
      | [] => mod_nodes (insert nid (mkAN (an_nodeID an) (an_publishers an) FID))
      | h :: _ =>
          _ ← mod_nodes (insert nid (mkAN (an_nodeID an) (<[h := st]> (an_publishers an)) FID));
          lift (sendNotificationLocally st h nid)
      end
  end.

Fixpoint on_isubs (p : bytes) (n off : nat) : M Node unit :=
  match n with
  | O => mret tt
  | S n =>
      nid ← read_bytes p off NODEID_LEN;
      FID ← read_FID p (off + NODEID_LEN);
      _ ← on_isub_FID nid FID;
      on_isubs p n (off + NODEID_LEN + FID_LEN)
  end.

Definition handleRVNotification : M Node unit :=
  p ← p_data;
  type ← read_byte p 0;
  if (type =? UPDATE_FID_iSUB)%Z then
    n ← read_byte p 1;
    on_isubs p (Z.to_nat n) 2
  else
    n ← read_byte p 1;
    r ← read_IDs p (Z.to_nat n) 2;
    let '(IDs, off) := r in
    if ((type =? SCOPE_PUBLISHED) || (type =? SCOPE_UNPUBLISHED))%Z then on_scope type IDs
    else if (type =? START_PUBLISH)%Z then FID ← read_FID p off; on_start IDs FID
    else if (type =? UPDATE_FID)%Z then FID ← read_FID p off; on_update IDs FID
    else if (type =? UPDATE_RVFID)%Z then FID ← read_FID p 1; set_gc (with_defaultRV FID)
    else if (type =? UPDATE_TMFID)%Z then FID ← read_FID p 1; set_gc (with_TMFID FID)
    else if (type =? STOP_PUBLISH)%Z then on_stop IDs
    else mret tt.

(** ** Implicit subscriptions *)

Definition storeActiveNode (nid : bytes) (IDs : list bytes) : M Node bool :=
  s ← px_state;
  nodes ← get_nodes;
  match nodes !! nid with
  | None =>
      _ ← mod_nodes (insert nid
            (mkAN nid ((λ _, STOP_PUBLISH_iSUB) <$> snd (findLocalSubscribers IDs s)) zero_FID));
      mret true
  | Some an => mret (zero (FID_to_node an))
  end.

(** The bitwise or of the FIDs to the nodes that are known. *)
Fixpoint multicast_FID (ids : list bytes) (FID : BABitvector) : M Node BABitvector :=
  match ids with
  | [] => mret FID
  | id :: ids =>
      nodes ← get_nodes;
      match nodes !! id with
      | Some an =>
          match bv_or FID (FID_to_node an) with
          | Some FID => multicast_FID ids FID
          | None => throw BufferOverflow
          end
      | None => multicast_FID ids FID
      end
  end.

(** The key of the publication that a multicast uses. *)
Definition multicast_key (s : Proxy) (ID : bytes) : option bytes :=
  match activePublicationIndex s !! ID with
  | Some _ => Some ID
  | None => match activePublicationIndex s !! prefix ID with
            | Some _ => Some (prefix ID)
            | None => None
            end
  end.

(** handleUserMulticastRequest; without a publication the packet is killed
    twice. *)
Definition handleUserMulticastRequest (ID : bytes) (type : Z) (isubscriberIDs : gset bytes)
    : M Node unit :=
  s ← px_state;
  match multicast_key s ID with
  | None => _ ← p_kill; p_kill
  | Some key =>
      _ ← mod_ap key (λ ap, with_FID [ID] (FID_to_subscribers ap) ap);
      FID ← multicast_FID (str_order isubscriberIDs) zero_FID;
      p ← p_give;
      pushDataToRemoteSubscribers_typed [ID] type FID p
  end.

(** ** Management *)

(** The publications of items, one after the other *)
Definition for_items (body : bytes → ActivePublication → M Node unit) : M Node unit :=
  s ← px_state;
  for_each (str_order (dom (activePublicationIndex s))) (λ id,
    s ← px_state;
    match activePublicationIndex s !! id with
    | Some ap => if ap_isScope ap then mret tt else body id ap
    | None => mret tt
    end).

(** A paused publisher resumes, under the first name of the publication. *)
Definition resume (id : bytes) (ap : ActivePublication) : M Node unit :=
  for_each (ptr_order (dom (publishers ap))) (λ h,
    if (state_of h (publishers ap) =? PAUSE_PUBLISH)%Z then
      _ ← set_state id h RESUME_PUBLISH;
      match ap_allKnownIDs ap with
      | name :: _ => lift (sendNotificationLocally RESUME_PUBLISH h name)
      | [] => throw AssertFailed
      end
    else mret tt).

Definition updateStates (state : Z) : M Node unit :=
  if (state =? DISCONNECTED)%Z then
    _ ← set_gc (with_defaultRV no_FID);
    _ ← for_items (λ id _, mod_ap id (λ ap,
          with_publishers (restate (λ v, negb (v =? STOP_PUBLISH))%Z PAUSE_PUBLISH)
            (with_FID (ap_allKnownIDs ap) no_FID ap)));
    mod_nodes (fmap (λ an, mkAN (an_nodeID an) (an_publishers an) no_FID))
  else if (state =? RECONNECTED)%Z then
    _ ← for_items resume;
    nodes ← get_nodes;
    let ids : gset bytes := list_to_set ((λ e, an_nodeID (snd e)) <$> map_to_list nodes) in
    if decide (0 < size nodes) then publishiReqToRV ids else mret tt
  else mret tt.

(** A response on output 3 *)
Definition respond (localhost : positive) (fields : list bytes) : M Node unit :=
  l ← lift (get_lh localhost);
  match memcpys (make_packet (length (concat fields))) 0 fields with
  | Ok p => lift (px_emit (Output 3 (Some (lh_id l)) p))
  | Fault e => throw e
  end.

Definition handleMappRequest (localhost : positive) : M Node unit :=
  p ← p_data;
  gc ← get_gc;
  type ← read_byte p 0;
  if (type =? GET_NODEID)%Z then
    nid ← read_bytes (nodeID gc) 0 NODEID_LEN;
    _ ← respond localhost [[NODEID_IS]; le32 (Z.of_nat NODEID_LEN); nid];
    p_kill
  else if (type =? GET_RVTMFID)%Z then
    fid ← fid_data (defaultRV_dl gc);
    _ ← respond localhost [[RVTMFID_IS]; le32 (Z.of_nat FID_LEN); fid];
    p_kill
  else if (type =? SET_CONNECTION_STATUS)%Z then
    st ← read_byte p 1;
    _ ← set_gc (with_status st);
    _ ← updateStates st;
    p_kill
  else if (type =? DISCONNECT)%Z then
    _ ← lift (disconnect gc localhost);
    p_kill
  else p_kill.

(** ** LocalProxy::push *)

(** From the network: the header with the identifiers is read and pulled. *)
Definition push_network : M Node unit :=
  p ← p_data;
  n ← read_byte p 0;
  r ← read_IDs p (Z.to_nat n) 1;
  let '(IDs, off) := r in
  _ ← p_pull off;
  p ← p_data;
  type ← read_byte p 0;
  gc ← get_gc;
  if (type =? PUBLISH_DATA)%Z then
    _ ← p_pull 1;
    if decide (IDs = [notificationIID gc]) then _ ← handleRVNotification; p_kill
    else if decide (IDs = [pathMgmtIID gc]) then processTMNotification
    else handleNetworkPublication IDs PUBLISHED_DATA
  else if (type =? PUBLISH_DATA_iSUB)%Z then
    _ ← p_pull 1;
    p ← p_data;
    nid ← read_bytes p 0 NODEID_LEN;
    forward ← storeActiveNode nid IDs;
    _ ← (if (forward : bool) then publishiReqToRV {[nid]} else mret tt);
    handleNetworkPublication IDs PUBLISHED_DATA_iSUB
  else handleNetworkPublication IDs PUBLISHED_DATA.

(** Data of a local entity: identifier and strategy *)
Definition push_data (localhost : positive) : M Node unit :=
  p ← p_data;
  gc ← get_gc;
  idlen ← read_byte p 1;
  ID ← read_bytes p (1 + 1) (Z.to_nat idlen * PURSUIT_ID_LEN);
  strategy ← read_byte p (1 + 1 + length ID);
  let header := 1 + 1 + length ID + 1 in
  if (strategy =? IMPLICIT_RENDEZVOUS)%Z then
    FID ← read_FID p header;
    _ ← p_pull (header + FID_LEN);
    if decide (ID = notificationIID gc) then _ ← handleRVNotification; p_kill
    else if decide (ID = nodeTMScope gc ∨ ID = nodeTMScopeUC gc) then
      handleUserPublication_fid ID FID localhost PUBLISHED_DATA
    else if decide (ID = pathMgmtIID gc) then handleUserTMPublication ID PUBLISH_DATA FID localhost
    else handleUserPublication_fid_typed ID PUBLISH_DATA FID localhost PUBLISHED_DATA
  else if (strategy =? LINK_LOCAL)%Z then
    FID ← read_FID p header;
    _ ← p_pull (header + FID_LEN);
    handleUserPublication_fid_typed ID PUBLISH_DATA FID localhost PUBLISHED_DATA
  else if (strategy =? BROADCAST_IF)%Z then
    _ ← p_pull header;
    handleUserPublication_fid_typed ID PUBLISH_DATA (negate zero_FID) localhost PUBLISHED_DATA
  else
    _ ← p_pull header;
    handleUserPublication_typed ID PUBLISH_DATA localhost PUBLISHED_DATA.

(** Data that subscribes implicitly; the packet is read again after it was
    handed over. *)
Definition push_isub (localhost : positive) : M Node unit :=
  p ← p_data;
  gc ← get_gc;
  idlen ← read_byte p 1;
  ID ← read_bytes p (1 + 1) (Z.to_nat idlen * PURSUIT_ID_LEN);
  strategy ← read_byte p (1 + 1 + length ID);
  if (strategy =? DOMAIN_LOCAL)%Z then
    _ ← p_pull (1 + 1 + length ID + 1);
    _ ← handleUserPublication_typed ID PUBLISH_DATA_iSUB localhost PUBLISHED_DATA_iSUB;
    p ← p_data;
    n ← read_byte p 0;
    ID ← read_bytes p 1 (Z.to_nat n * PURSUIT_ID_LEN);
    _ ← lift (handleLocalRequest PUBLISH_DATA_iSUB localhost ID (prefix ID) strategy
                (defaultRV_dl gc));
    mret tt
  else mret tt.

Fixpoint read_nodeIDs (p : bytes) (off n : nat) (acc : gset bytes) : M Node (gset bytes) :=
  match n with
  | O => mret acc
  | S n => id ← read_bytes p off NODEID_LEN; read_nodeIDs p (off + NODEID_LEN) n ({[id]} ∪ acc)
  end.

(** A request to send to a set of nodes *)
Definition push_multicast : M Node unit :=
  p ← p_data;
  idlen ← read_byte p 1;
  ID ← read_bytes p (1 + 1) (Z.to_nat idlen * PURSUIT_ID_LEN);
  _ ← read_byte p (1 + 1 + length ID);
  n ← read_byte p (1 + 1 + length ID + 1);
  ids ← read_nodeIDs p (1 + 1 + length ID + 1 + 1) (Z.to_nat n) ∅;
  _ ← p_pull (1 + 1 + length ID + 1 + 1 + Z.to_nat n * NODEID_LEN);
  handleUserMulticastRequest ID PUBLISH_DATA ids.

(** LocalProxy::push *)
Definition push (in_port anno : Z) (packet : bytes) : M Node unit :=
  _ ← set_packet (Some packet);
  gc ← get_gc;
  if (in_port =? 2)%Z then push_network
  else if (in_port =? 3)%Z then
    localhost ← lift (getLocalHost LOCAL_PROCESS anno);
    handleMappRequest localhost
  else
    let '(type_of_publisher, descriptor) := sender in_port anno in
    localhost ← lift (getLocalHost type_of_publisher descriptor);
    p ← p_data;
    type ← read_byte p 0;
    if (type =? DISCONNECT)%Z then _ ← lift (disconnect gc localhost); p_kill
    else if (type =? PUBLISH_DATA)%Z then push_data localhost
    else if (type =? PUBLISH_DATA_iSUB)%Z then push_isub localhost
    else if (type =? PUBLISH_DATA_iMULTICAST)%Z then push_multicast
    else p ← p_give; lift (push_request gc localhost type p).
End data.
