(* ===== verification/ProxyNet.v ===== *)
(** * Delivery of data

    Who gets a publication: the exact packets that LocalProxy sends to the
    subscribers in the node and to the network, and what the proxy at the
    other end makes of them. *)
From stdpp Require Import base list gmap sets.
From Stdlib Require Import ZArith Lia.
From S2P Require Import Prelude Enums Bitvector GlobalConf InfoGraph LocalRV RVSafety RVRequests RVProps RVRendezvous LocalProxy ProxyInv ProxyLeave ProxyProps ProxyData.

(** ** Runs of the accessors *)

Definition put_px (x : px) (s : Node) : Node :=
  mkNode x (n_gc s) (activeNodeIndex s) (n_packet s).
Definition put_packet (o : option bytes) (s : Node) : Node :=
  mkNode (n_px s) (n_gc s) (activeNodeIndex s) o.
(** More packets sent. *)
Definition sends (es : list px_event) (s : Node) : Node :=
  put_px (mkPx (pst (n_px s)) (pout (n_px s) ++ es)) s.

Lemma lift_run {A} (m : M px A) a x s : m (n_px s) = Ok (a, x) → lift m s = Ok (a, put_px x s).
Proof. intros Hm. unfold lift. by rewrite Hm. Qed.

Lemma wp_lift {A} F (m : M px A) (Q : A → Node → Prop) s :
  wp F m (λ a x, Q a (put_px x s)) (n_px s) → wp F (lift m) Q s.
Proof. unfold wp, lift. by destruct (m (n_px s)) as [[a x]|e]. Qed.

Lemma p_data_run p s : n_packet s = Some p → p_data s = Ok (p, s).
Proof. intros Hp. unfold p_data, mbind, M_bind, get. by rewrite Hp. Qed.

Lemma p_give_run p s : n_packet s = Some p → p_give s = Ok (p, put_packet None s).
Proof. intros Hp. unfold p_give. rewrite (run_bind _ _ _ _ _ (p_data_run _ _ Hp)). done. Qed.

Lemma p_kill_run p s : n_packet s = Some p → p_kill s = Ok (tt, sends [Freed] (put_packet None s)).
Proof. intros Hp. unfold p_kill. rewrite (run_bind _ _ _ _ _ (p_give_run _ _ Hp)). done. Qed.

Lemma p_pull_run n p s : n_packet s = Some p → p_pull n s = Ok (tt, put_packet (Some (drop n p)) s).
Proof. intros Hp. unfold p_pull. rewrite (run_bind _ _ _ _ _ (p_data_run _ _ Hp)). done. Qed.

Lemma p_data_gone s : n_packet s = None → p_data s = Fault Dangling.
Proof. intros Hp. unfold p_data, mbind, M_bind, get. by rewrite Hp. Qed.

Lemma px_state_run s : px_state s = Ok (pst (n_px s), s).
Proof. by destruct s. Qed.

Lemma sends_nil s : sends [] s = s.
Proof. destruct s as [[] ? ? ?]. unfold sends, put_px. cbn. by rewrite app_nil_r. Qed.

Lemma sends_sends es es' s : sends es' (sends es s) = sends (es ++ es') s.
Proof. unfold sends, put_px. cbn. by rewrite app_assoc. Qed.

(** ** Local subscribers *)

(** [h] subscribes to one of the identifiers or to the scope above it. *)
Definition hears (s : Proxy) (IDs : list bytes) (h : positive) : Prop :=
  ∃ id, id ∈ IDs ∧ (subscribes s h id ∨ subscribes s h (prefix id)).


Lemma subscribed_under_in key id s acc h : subscribes s h key →
  subscribed_under key id s acc !! h = Some id.
Proof.
  intros (a & Ha & Hh). unfold subscribed_under. rewrite Ha.
  apply lookup_union_Some_l. by apply lookup_gset_to_gmap_Some.
Qed.

Lemma subscribed_under_out key id s acc h : ¬ subscribes s h key →
  subscribed_under key id s acc !! h = acc !! h.
Proof.
  intros Hn. unfold subscribed_under. destruct (activeSubscriptionIndex s !! key) as [a|] eqn:Ha; [|done].
  apply lookup_union_r. apply lookup_gset_to_gmap_None. intros Hh. apply Hn. by exists a.
Qed.

Global Instance subscribes_dec s h id : Decision (subscribes s h id).
Proof.
  unfold subscribes. destruct (activeSubscriptionIndex s !! id) as [a|].
  - destruct (decide (h ∈ subscribers a)); [left; naive_solver|right; naive_solver].
  - right. naive_solver.
Defined.

Lemma found_spec IDs s h :
  match snd (findLocalSubscribers IDs s) !! h with
  | Some id => id ∈ IDs ∧ (subscribes s h id ∨ subscribes s h (prefix id))
  | None => ¬ hears s IDs h
  end.
Proof.
  unfold findLocalSubscribers. cbn [snd].
  induction IDs as [|id IDs IH] using rev_ind; [cbn; rewrite lookup_empty; intros (id & Hid & _); by apply elem_of_nil in Hid|].
  rewrite foldl_app. cbn. set (acc := foldl _ _ _) in *.
  destruct (decide (subscribes s h (prefix id))) as [Hp|Hp].
  { rewrite subscribed_under_in by done. split; [apply elem_of_app; right; by left|by right]. }
  rewrite subscribed_under_out by done. destruct (decide (subscribes s h id)) as [Hs|Hs].
  { rewrite subscribed_under_in by done. split; [apply elem_of_app; right; by left|by left]. }
  rewrite subscribed_under_out by done. destruct (acc !! h) as [id'|].
  - destruct IH as [Hin ?]. split; [apply elem_of_app; by left|done].
  - intros (id' & [Hin|Hin]%elem_of_app & Hh); [apply IH; by exists id'|].
    apply list_elem_of_singleton in Hin as ->. naive_solver.
Qed.

Lemma found_hears IDs s h : is_Some (snd (findLocalSubscribers IDs s) !! h) ↔ hears s IDs h.
Proof.
  pose proof (found_spec IDs s h) as Hf.
  destruct (snd (findLocalSubscribers IDs s) !! h) as [id|]; rewrite is_Some_alt.
  - split; [intros _; by exists id|done].
  - split; [done|]. intros ?. by destruct Hf.
Qed.

Lemma findLocalSubscribers_found IDs s :
  fst (findLocalSubscribers IDs s) = true ↔ snd (findLocalSubscribers IDs s) ≠ ∅.
Proof. cbn. rewrite negb_true_iff, bool_decide_eq_false. done. Qed.

Section order.
Context `{HO : HashOrder}.

Lemma in_order_fst m : (in_order m).*1 = ptr_order (dom m).
Proof. unfold in_order. rewrite <-list_fmap_compose. apply list_fmap_id. Qed.

Lemma elem_of_in_order m h id : (h, id) ∈ in_order m ↔ m !! h = Some id.
Proof.
  unfold in_order. rewrite list_elem_of_fmap. split.
  - intros (h' & [= <- ->] & Hh). apply elem_of_ptr_order, elem_of_dom in Hh as [v Hv]. by rewrite Hv.
  - intros Hm. exists h. rewrite Hm. split; [done|]. apply elem_of_ptr_order, elem_of_dom. by eexists.
Qed.

Lemma in_order_NoDup m : NoDup (in_order m).*1.
Proof. rewrite in_order_fst, ptr_order_perm. apply NoDup_elements. Qed.

Lemma in_order_nil m : in_order m = [] ↔ m = ∅.
Proof.
  split.
  - intros Hm. apply map_empty. intros h. destruct (m !! h) as [id|] eqn:E; [|done].
    apply elem_of_in_order in E. rewrite Hm in E. by apply elem_of_nil in E.
  - intros ->. destruct (in_order ∅) as [|[h id] l] eqn:E; [done|].
    assert ((h, id) ∈ in_order ∅) as Hin by (rewrite E; left). apply elem_of_in_order in Hin.
    by rewrite lookup_empty in Hin.
Qed.
End order.

(** ** Packets for subscribers *)

Definition local_data (APItype : Z) (ID data : bytes) : bytes :=
  [APItype; fragments ID] ++ ID ++ data.

Definition delivery (s : Proxy) (APItype : Z) (data : bytes) (e : positive * bytes) : px_event :=
  match localhosts s !! fst e with
  | Some l => host_event l (local_data APItype (snd e) data)
  | None => Freed
  end.

Lemma push_to_host_run h l p x : localhosts (pst x) !! h = Some l →
  push_to_host h (Some <$> p) x = Ok (tt, mkPx (pst x) (pout x ++ [host_event l p])).
Proof.
  intros Hl. unfold push_to_host. rewrite (run_bind _ _ _ _ _ (get_lh_run _ _ _ Hl)).
  unfold host_event. by destruct (lh_type l).
Qed.

Lemma pushDataToLocalSubscriber_run h ID data APItype s :
  is_Some (localhosts (pst (n_px s)) !! h) →
  pushDataToLocalSubscriber h ID data APItype s
  = Ok (tt, sends [delivery (pst (n_px s)) APItype data (h, ID)] s).
Proof.
  intros [l Hl]. unfold pushDataToLocalSubscriber.
  pose proof (header_exact [[APItype]; [fragments ID]; ID] data) as Hh.
  cbn [concat app length] in Hh. rewrite app_nil_r in Hh. cbn [Nat.add]. rewrite Hh.
  erewrite lift_run; [|by apply (push_to_host_run h l (APItype :: fragments ID :: ID ++ data))].
  unfold delivery. cbn [fst snd]. by rewrite Hl.
Qed.

Section deliver.
Context `{HO : HashOrder}.

Lemma deliver_run subs APItype data s : subs ≠ [] → n_packet s = Some data →
  (∀ h, h ∈ subs.*1 → is_Some (localhosts (pst (n_px s)) !! h)) →
  deliver subs APItype s
  = Ok (tt, sends (delivery (pst (n_px s)) APItype data <$> subs) (put_packet None s)).
Proof.
  revert s. induction subs as [|[h ID] subs IH]; intros s Hne Hp Hal; [done|].
  assert (is_Some (localhosts (pst (n_px s)) !! h)) as Hh by (apply Hal; left).
  destruct subs as [|e subs].
  - cbn [deliver]. rewrite (run_bind _ _ _ _ _ (p_give_run _ _ Hp)).
    by rewrite pushDataToLocalSubscriber_run.
  - cbn [deliver]. rewrite (run_bind _ _ _ _ _ (p_data_run _ _ Hp)).
    rewrite (run_bind _ _ _ _ _ (pushDataToLocalSubscriber_run h ID data APItype s Hh)).
    rewrite IH; [|done|done|intros h' Hh'; apply Hal; by right].
    unfold sends, put_packet, put_px. cbn. by rewrite <-app_assoc.
Qed.
End deliver.

(** ** Packets for the network *)

(** Identifiers that fit the header: at most 255, each of less than 256 bytes
    and of whole fragments. *)
Definition wire_id (id : bytes) : Prop := ∃ k, length id = k * PURSUIT_ID_LEN ∧ k < 32.
Definition wire_ids (IDs : list bytes) : Prop := length IDs ≤ 255 ∧ Forall wire_id IDs.

Definition ids_header (IDs : list bytes) : bytes :=
  [Z.of_nat (length IDs)] ++ concat ((λ id, Z.of_nat (level id) :: id) <$> IDs).

(** What follows the FID. *)
Definition net_body (IDs : list bytes) (type : Z) (data : bytes) : bytes :=
  ids_header IDs ++ [type] ++ data.

Lemma IDLength_wire id : wire_id id → IDLength id = Z.of_nat (level id).
Proof.
  intros (k & Hk & Hlt). unfold IDLength, level, u8. rewrite Hk, Nat.div_mul by done.
  unfold PURSUIT_ID_LEN. rewrite Z.mod_small by lia.
  replace (Z.of_nat (k * 8)) with (Z.of_nat k * 8)%Z by lia. by rewrite Z.div_mul.
Qed.

Lemma concat_id_fields IDs : Forall wire_id IDs →
  concat (id_fields IDs) = concat ((λ id, Z.of_nat (level id) :: id) <$> IDs).
Proof.
  unfold id_fields. induction 1 as [|id IDs Hid _ IH]; [done|].
  cbn. rewrite IH, (IDLength_wire _ Hid). done.
Qed.

Lemma numberOfIDs_wire IDs : wire_ids IDs → numberOfIDs IDs = Z.of_nat (length IDs).
Proof. intros [Hn _]. unfold numberOfIDs, u8. apply Z.mod_small. lia. Qed.

Lemma concat_ids_block IDs : wire_ids IDs → concat (ids_block IDs) = ids_header IDs.
Proof.
  intros Hw. unfold ids_block, ids_header. rewrite (numberOfIDs_wire _ Hw), Nat2Z.id, take_ge by done.
  cbn [concat]. f_equal. apply concat_id_fields, Hw.
Qed.

Lemma length_ids_header IDs : wire_ids IDs → length (ids_header IDs) = ids_len IDs.
Proof.
  intros Hw. unfold ids_len, ids_header. rewrite (numberOfIDs_wire _ Hw), Nat2Z.id. clear Hw.
  rewrite length_app. cbn [length]. rewrite <-Nat.add_assoc. f_equal.
  induction IDs as [|id IDs IH]; [done|]. cbn. rewrite length_app. cbn in IH. lia.
Qed.

Lemma get_gc_run s : get_gc s = Ok (n_gc s, s).
Proof. done. Qed.

Lemma fid_data_node v (s : Node) : fid_ok v → fid_data v s = Ok (fid_bytes v, s).
Proof.
  intros Hv. pose proof (fid_bytes_run v (mkPx empty_proxy []) Hv) as Hr.
  unfold fid_data in *. by case_decide.
Qed.

(** The packet without a type *)
Lemma pushDataToRemoteSubscribers_run IDs FID data s : wire_ids IDs → fid_ok FID →
  pushDataToRemoteSubscribers IDs FID data s
  = Ok (tt, sends [Output 2 None (Some <$> fid_bytes FID ++ ids_header IDs ++ data)] s).
Proof.
  intros Hw HF. unfold pushDataToRemoteSubscribers.
  rewrite (run_bind _ _ _ _ _ (fid_data_node _ s HF)).
  pose proof (header_exact (fid_bytes FID :: ids_block IDs) data) as Hh. cbn [concat] in Hh.
  rewrite (concat_ids_block _ Hw), length_app, (length_fid_bytes _ HF), (length_ids_header _ Hw) in Hh.
  rewrite Hh, <-app_assoc. done.
Qed.

(** The packet with a type; the old packet is freed. *)
Lemma pushDataToRemoteSubscribers_typed_run IDs FID data s : wire_ids IDs → fid_ok FID →
  pushDataToRemoteSubscribers_typed IDs PUBLISH_DATA FID data s
  = Ok (tt, sends [Freed; Output 2 None (Some <$> fid_bytes FID ++ net_body IDs PUBLISH_DATA data)] s).
Proof.
  intros Hw HF. unfold pushDataToRemoteSubscribers_typed. rewrite (run_bind _ _ _ _ _ (get_gc_run s)).
  rewrite (run_bind _ _ _ _ _ (fid_data_node _ s HF)). cbn [Z.eqb PUBLISH_DATA Pos.eqb].
  rewrite (run_bind _ _ _ _ _ eq_refl).
  pose proof (memcpys_exact ([fid_bytes FID] ++ ids_block IDs ++ [[PUBLISH_DATA]; data])) as Hp.
  rewrite !concat_app, (concat_ids_block _ Hw), !length_app in Hp. cbn [concat] in Hp.
  rewrite !app_nil_r, !length_app, (length_fid_bytes _ HF), (length_ids_header _ Hw) in Hp.
  rewrite <-(Nat.add_assoc _ 1 (length data)), <-Nat.add_assoc. cbn [length] in Hp.
  change (1 + length data) with (length [PUBLISH_DATA] + length data) in *.
  cbn [length app] in *. rewrite Hp.
  unfold sends, put_px, lift, mbind, M_bind, px_emit, modify. cbn. by rewrite <-app_assoc.
Qed.

(** ** Publications *)
Section publications.
Context `{HO : HashOrder}.

(** [subs] lists the hosts in [R], each once, with a name in [N]. *)
Definition lists (subs : list (positive * bytes)) (R : positive → Prop)
    (N : positive → bytes → Prop) : Prop :=
  NoDup subs.*1 ∧ (∀ h, h ∈ subs.*1 ↔ R h) ∧ (∀ h id, (h, id) ∈ subs → N h id).

Lemma in_order_lists (m : gmap positive bytes) (R : positive → Prop) (N : positive → bytes → Prop) :
  (∀ h, is_Some (m !! h) ↔ R h) → (∀ h id, m !! h = Some id → N h id) → lists (in_order m) R N.
Proof.
  intros HR HN. split_and!; [apply in_order_NoDup| |].
  - intros h. by rewrite in_order_fst, elem_of_ptr_order, elem_of_dom.
  - intros h id Hin%elem_of_in_order. by apply HN.
Qed.

Lemma hears_alive s IDs h : px_inv s → hears s IDs h → is_Some (localhosts s !! h).
Proof. intros Hinv (id & _ & [Hs|Hs]); by eapply (pi_sub_alive _ Hinv). Qed.

(** The packets for the subscribers, or nothing but the end of the packet. *)
Definition deliveries (s : Proxy) (APItype : Z) (data : bytes) (subs : list (positive * bytes))
    : list px_event :=
  match subs with [] => [Freed] | _ => delivery s APItype data <$> subs end.

Lemma handleNetworkPublication_run IDs APItype data s :
  px_inv (pst (n_px s)) → n_packet s = Some data →
  ∃ subs, lists subs (hears (pst (n_px s)) IDs)
      (λ h id, id ∈ IDs ∧ (subscribes (pst (n_px s)) h id ∨ subscribes (pst (n_px s)) h (prefix id))) ∧
    handleNetworkPublication IDs APItype s
    = Ok (tt, sends (deliveries (pst (n_px s)) APItype data subs) (put_packet None s)).
Proof.
  intros Hinv Hp. set (P := pst (n_px s)). exists (in_order (snd (findLocalSubscribers IDs P))).
  assert (lists (in_order (snd (findLocalSubscribers IDs P))) (hears P IDs)
    (λ h id, id ∈ IDs ∧ (subscribes P h id ∨ subscribes P h (prefix id)))) as Hl.
  { apply in_order_lists; [apply found_hears|]. intros h id Hid. pose proof (found_spec IDs P h) as Hf.
    by rewrite Hid in Hf. }
  split; [done|]. unfold handleNetworkPublication. rewrite (run_bind _ _ _ _ _ (px_state_run s)).
  fold P. rewrite (surjective_pairing (findLocalSubscribers IDs P)).
  destruct (fst (findLocalSubscribers IDs P)) eqn:Hfound.
  - apply findLocalSubscribers_found in Hfound.
    assert (in_order (snd (findLocalSubscribers IDs P)) ≠ []) as Hne
      by (by rewrite in_order_nil).
    rewrite (deliver_run _ _ data); [|done|done|].
    + unfold deliveries. fold P. destruct (in_order _); [done|done].
    + intros h Hh%Hl. by eapply hears_alive.
  - assert (snd (findLocalSubscribers IDs P) = ∅) as ->.
    { destruct (decide (snd (findLocalSubscribers IDs P) = ∅)) as [|Hne]; [done|].
      apply findLocalSubscribers_found in Hne. congruence. }
    rewrite (proj2 (in_order_nil ∅) eq_refl). by rewrite (p_kill_run _ _ Hp).
Qed.

(** The other hosts that hear a publication. *)
Lemma others_lists s IDs ID h0 :
  lists (in_order ((λ _, ID) <$> other_subscribers IDs h0 s)) (λ h, hears s IDs h ∧ h ≠ h0)
    (λ _ id, id = ID).
Proof.
  apply in_order_lists.
  - intros h. rewrite lookup_fmap, fmap_is_Some. unfold other_subscribers.
    destruct (decide (h0 = h)) as [<-|Hne].
    + rewrite lookup_delete_eq, is_Some_alt. naive_solver.
    + rewrite lookup_delete_ne, found_hears by done. naive_solver.
  - intros h id. rewrite lookup_fmap. destruct (_ !! h); cbn; [|done]. by intros [= <-].
Qed.

Lemma deliver_others subs s P IDs ID h0 APItype data : px_inv P → pst (n_px s) = P →
  lists subs (λ h, hears P IDs h ∧ h ≠ h0) (λ _ id, id = ID) → subs ≠ [] → n_packet s = Some data →
  deliver subs APItype s = Ok (tt, sends (delivery P APItype data <$> subs) (put_packet None s)).
Proof.
  intros Hinv HP Hl Hne Hp. rewrite (deliver_run _ _ data); [by rewrite HP|done|done|].
  intros h [Hh _]%Hl. rewrite HP. by eapply hears_alive.
Qed.

(** ** From node to node *)

Lemma read_IDs_run IDs (pre post : bytes) off (s : Node) : off = length pre → Forall wire_id IDs →
  read_IDs (pre ++ concat ((λ id, Z.of_nat (level id) :: id) <$> IDs) ++ post) (length IDs) off s
  = Ok ((IDs, off + length (concat ((λ id, Z.of_nat (level id) :: id) <$> IDs))), s).
Proof.
  intros -> Hw. revert pre. induction Hw as [|id IDs (k & Hk & Hlt) _ IH]; intros pre.
  { cbn. by rewrite Nat.add_0_r. }
  assert (level id = k) as Hl by (unfold level; rewrite Hk; by apply Nat.div_mul).
  cbn [read_IDs length fmap list_fmap concat]. rewrite <-app_assoc.
  change ((Z.of_nat (level id) :: id) ++ ?r) with ([Z.of_nat (level id)] ++ id ++ r).
  rewrite (run_bind _ _ s (Z.of_nat (level id)) s) by (by apply read_byte_at).
  rewrite (app_assoc pre).
  rewrite (run_bind _ _ s id s); cycle 1.
  { apply read_bytes_at; [by rewrite length_app|]. by rewrite Nat2Z.id, Hl. }
  rewrite (app_assoc _ id). rewrite Nat2Z.id, Hl, <-Hk.
  replace (length pre + 1 + length id) with (length ((pre ++ [Z.of_nat k]) ++ id))
    by (rewrite !length_app; cbn; lia).
  rewrite (run_bind _ _ _ _ _ (IH _)).
  cbn [fst snd]. match goal with |- mret (_, ?n) _ = Ok (_, ?m, _) => assert (n = m) as ->; [|done] end.
  rewrite !length_app. cbn. rewrite ?length_app. lia.
Qed.

(** The proxy reads the names and the data of a packet of the network. *)
Lemma push_network_body IDs data anno s : wire_ids IDs →
  push 2 anno (net_body IDs PUBLISH_DATA data) s
  = (if decide (IDs = [notificationIID (n_gc s)]) then _ ← handleRVNotification; p_kill
     else if decide (IDs = [pathMgmtIID (n_gc s)]) then processTMNotification
     else handleNetworkPublication IDs PUBLISHED_DATA) (put_packet (Some data) s).
Proof.
  intros [Hn Hw]. unfold push, net_body, ids_header.
  set (ids := concat _). set (p := _ ++ _ ++ data).
  rewrite (run_bind _ _ s tt (put_packet (Some p) s)) by done. set (s1 := put_packet (Some p) s).
  rewrite (run_bind _ _ _ _ _ (get_gc_run s1)). cbn [Z.eqb Pos.eqb]. unfold push_network.
  rewrite (run_bind _ _ _ _ _ (p_data_run p s1 eq_refl)).
  rewrite (run_bind _ _ s1 (Z.of_nat (length IDs)) s1) by done. rewrite Nat2Z.id.
  assert (p = [Z.of_nat (length IDs)] ++ ids ++ PUBLISH_DATA :: data) as Hp
    by (unfold p; by rewrite <-app_assoc).
  rewrite (run_bind _ _ s1 (IDs, 1 + length ids) s1)
    by (rewrite Hp; by apply read_IDs_run).
  rewrite (run_bind _ _ _ _ _ (p_pull_run (1 + length ids) p s1 eq_refl)).
  replace (drop (1 + length ids) p) with (PUBLISH_DATA :: data)
    by (rewrite Hp; cbn; by rewrite drop_app_length).
  set (s2 := put_packet (Some (PUBLISH_DATA :: data)) s1).
  rewrite (run_bind _ _ _ _ _ (p_data_run _ s2 eq_refl)). rewrite (run_bind _ _ s2 PUBLISH_DATA s2) by done.
  rewrite (run_bind _ _ _ _ _ (get_gc_run s2)). rewrite Z.eqb_refl.
  by rewrite (run_bind _ _ _ _ _ (p_pull_run 1 _ s2 eq_refl)).
Qed.

(** Without a type of data the whole packet is handed on. *)
Lemma push_network_plain IDs q type anno s : wire_ids IDs → q !! 0 = Some type →
  (type =? PUBLISH_DATA)%Z = false → (type =? PUBLISH_DATA_iSUB)%Z = false →
  push 2 anno (ids_header IDs ++ q) s
  = handleNetworkPublication IDs PUBLISHED_DATA (put_packet (Some q) s).
Proof.
  intros [Hn Hw] Hq Ht1 Ht2. unfold push, ids_header. set (ids := concat _). set (p := _ ++ q).
  rewrite (run_bind _ _ s tt (put_packet (Some p) s)) by done. set (s1 := put_packet (Some p) s).
  rewrite (run_bind _ _ _ _ _ (get_gc_run s1)). cbn [Z.eqb Pos.eqb]. unfold push_network.
  rewrite (run_bind _ _ _ _ _ (p_data_run p s1 eq_refl)).
  rewrite (run_bind _ _ s1 (Z.of_nat (length IDs)) s1) by done. rewrite Nat2Z.id.
  assert (p = [Z.of_nat (length IDs)] ++ ids ++ q) as Hp by (unfold p; by rewrite <-app_assoc).
  rewrite (run_bind _ _ s1 (IDs, 1 + length ids) s1)
    by (rewrite Hp; by apply read_IDs_run).
  rewrite (run_bind _ _ _ _ _ (p_pull_run (1 + length ids) p s1 eq_refl)).
  replace (drop (1 + length ids) p) with q by (rewrite Hp; cbn; by rewrite drop_app_length).
  set (s2 := put_packet (Some q) s1).
  rewrite (run_bind _ _ _ _ _ (p_data_run _ s2 eq_refl)).
  rewrite (run_bind _ _ s2 type s2) by (unfold read_byte; by rewrite Hq).
  by rewrite (run_bind _ _ _ _ _ (get_gc_run s2)), Ht1, Ht2.
Qed.

Lemma push_network_run IDs data anno s : wire_ids IDs →
  IDs ≠ [notificationIID (n_gc s)] → IDs ≠ [pathMgmtIID (n_gc s)] →
  push 2 anno (net_body IDs PUBLISH_DATA data) s
  = handleNetworkPublication IDs PUBLISHED_DATA (put_packet (Some data) s).
Proof. intros Hw Hnot Hpm. rewrite push_network_body by done. by rewrite !decide_False. Qed.

End publications.
