(* ===== verification/ProxySafety.v ===== *)
(** * Safety of the whole local proxy

    The invariant of LocalProxy's state with its data plane ([node_inv]) and
    that every handler of LocalProxy::push keeps it.  The handlers that do not
    are described in [ProxyLimits]. *)
From stdpp Require Import base list gmap sets.
From Stdlib Require Import ZArith Lia.
From S2P Require Import Prelude Enums Bitvector GlobalConf InfoGraph LocalRV RVSafety RVRequests RVProps RVRendezvous LocalProxy ProxyInv ProxyLeave ProxyProps ProxyData ProxyNet.

(** ** The invariant *)

Definition hosts_kept (s s' : Proxy) : Prop :=
  ∀ h, is_Some (localhosts s !! h) → is_Some (localhosts s' !! h).

Lemma same_hosts_kept s s' : same_hosts s s' → hosts_kept s s'.
Proof.
  intros [_ Hh] h. specialize (Hh h). rewrite <-!(fmap_is_Some (λ l, (lh_type l, lh_id l))). by rewrite Hh.
Qed.

(** The entry of an implicit subscriber. *)
Definition an_ok (s : Proxy) (an : ActiveNode) : Prop :=
  fid_ok (FID_to_node an) ∧ ∀ h, is_Some (an_publishers an !! h) → is_Some (localhosts s !! h).

(** [isub] tells whether other nodes may subscribe implicitly; [gc] is the
    configuration at the start. *)
Record node_inv (isub : bool) (gc : GlobalConf) (s : Node) : Prop := {
  ni_px : px_inv (pst (n_px s));
  ni_gc : gc_ok (n_gc s);
  ni_same : pathMgmtIID (n_gc s) = pathMgmtIID gc;
  ni_nodes : if isub then map_Forall (λ _, an_ok (pst (n_px s))) (activeNodeIndex s)
             else activeNodeIndex s = ∅;
}.

(** The invariant, and what the packet pointer refers to. *)
Definition holds (isub : bool) (gc : GlobalConf) (o : option bytes) (s : Node) : Prop :=
  node_inv isub gc s ∧ n_packet s = o.

Lemma an_ok_kept s s' an : hosts_kept s s' → an_ok s an → an_ok s' an.
Proof. intros Hk [Hf Hp]. split; [done|]. intros h Hh. by apply Hk, Hp. Qed.

Section safety.
Context `{HO : HashOrder} (isub : bool) (gc : GlobalConf).
Notation holds := (holds isub gc).

(** Only a read past the end of a packet is tolerated. *)
Notation OF := (λ e, e = BufferOverflow).

Lemma holds_px o x s : holds o s → px_inv (pst x) →
  (isub = true → hosts_kept (pst (n_px s)) (pst x)) → holds o (put_px x s).
Proof.
  intros [[Hpx Hgc Hs Hn] Ho] Hx Hk. split; [|done]. split; try done. cbn. destruct isub; [|done].
  eapply map_Forall_impl; [exact Hn|]. intros nid an. apply an_ok_kept. by apply Hk.
Qed.

Lemma holds_sends o es s : holds o s → holds o (sends es s).
Proof. intros Hs. apply holds_px; [done|apply Hs|by intros _ h]. Qed.

Lemma holds_packet o o' s : holds o s → holds o' (put_packet o' s).
Proof. intros [[] _]. by split. Qed.

(** ** Accessors *)

Lemma wp_px_state (F : fault → Prop) (Q : Proxy → Node → Prop) s : Q (pst (n_px s)) s → wp F px_state Q s.
Proof. intros HQ. unfold wp. by rewrite px_state_run. Qed.

Lemma wp_get_gc (F : fault → Prop) (Q : GlobalConf → Node → Prop) s : Q (n_gc s) s → wp F get_gc Q s.
Proof. done. Qed.

Lemma wp_get_nodes (F : fault → Prop) (Q : gmap bytes ActiveNode → Node → Prop) s : Q (activeNodeIndex s) s → wp F get_nodes Q s.
Proof. done. Qed.

Lemma wp_p_data (F : fault → Prop) p (Q : bytes → Node → Prop) s : n_packet s = Some p → Q p s → wp F p_data Q s.
Proof. intros Hp HQ. unfold wp. by rewrite (p_data_run _ _ Hp). Qed.

Lemma wp_p_give (F : fault → Prop) p (Q : bytes → Node → Prop) s : n_packet s = Some p →
  Q p (put_packet None s) → wp F p_give Q s.
Proof. intros Hp HQ. unfold wp. by rewrite (p_give_run _ _ Hp). Qed.

Lemma wp_p_kill (F : fault → Prop) p s : holds (Some p) s → wp F p_kill (λ _, holds None) s.
Proof.
  intros Hs. unfold wp. rewrite (p_kill_run p) by apply Hs. by eapply holds_sends, holds_packet.
Qed.

Lemma wp_p_pull (F : fault → Prop) n p s : holds (Some p) s → wp F (p_pull n) (λ _, holds (Some (drop n p))) s.
Proof. intros Hs. unfold wp. rewrite (p_pull_run n p) by apply Hs. by eapply holds_packet. Qed.

Lemma wp_emit (F : fault → Prop) e s : wp F (lift (px_emit e)) (λ _ s', s' = sends [e] s) s.
Proof. done. Qed.

Lemma wp_read_byte {St} (p : bytes) off (Q : Z → St → Prop) s :
  (∀ b, p !! off = Some b → Q b s) → wp OF (read_byte p off) Q s.
Proof.
  intros HQ. unfold read_byte. destruct (p !! off); [by apply wp_ret, HQ|by apply wp_throw].
Qed.

Lemma wp_read_bytes {St} (p : bytes) off len (Q : bytes → St → Prop) s :
  (off + len ≤ length p → length (substr p off len) = len → Q (substr p off len) s) →
  wp OF (read_bytes p off len) Q s.
Proof.
  intros HQ. unfold read_bytes. case_decide; [|by apply wp_throw]. apply wp_ret, HQ; [done|].
  unfold substr. rewrite length_take, length_drop. lia.
Qed.

Lemma wp_read_FID p off (Q : BABitvector → Node → Prop) s : Forall is_byte p →
  (∀ FID, fid_ok FID → Q FID s) → wp OF (read_FID p off) Q s.
Proof.
  intros Hp HQ. apply wp_bind, wp_read_bytes. intros _ Hlen. apply wp_ret, HQ.
  apply fid_of_bytes_ok; [done|]. by apply Forall_substr.
Qed.

Lemma wp_fid_data {St} v (Q : bytes → St → Prop) s : (∀ x, Q x s) → wp OF (fid_data v) Q s.
Proof. intros HQ. unfold fid_data. case_decide; [by apply wp_ret|by apply wp_throw]. Qed.

(** Reading identifiers does not depend on the state. *)
Definition ids_at (p : bytes) (n off : nat) : res (list bytes * nat) :=
  match read_IDs (St := unit) p n off tt with Ok (r, _) => Ok r | Fault e => Fault e end.

Lemma read_IDs_at {St} (p : bytes) n off (s : St) :
  read_IDs p n off s = match ids_at p n off with Ok r => Ok (r, s) | Fault e => Fault e end.
Proof.
  unfold ids_at. revert off. induction n as [|n IH]; intros off; [done|]. cbn [read_IDs].
  unfold read_byte, read_bytes, mbind, M_bind, mret, M_ret, throw in *.
  destruct (p !! off) as [len|]; [|done]. cbn beta iota.
  case_decide; [|done]. cbn. rewrite IH. by destruct (read_IDs p n _ tt) as [[r []]|].
Qed.

Lemma ids_at_spec p n off :
  match ids_at p n off with Ok r => length (fst r) = n | Fault e => e = BufferOverflow end.
Proof.
  unfold ids_at. revert off. induction n as [|n IH]; intros off; [done|]. cbn [read_IDs].
  unfold read_byte, read_bytes, mbind, M_bind, mret, M_ret, throw in *.
  destruct (p !! off) as [len|]; [|done]. cbn beta iota.
  case_decide; [|done]. cbn. specialize (IH (off + 1 + Z.to_nat len * PURSUIT_ID_LEN)).
  destruct (read_IDs p n _ tt) as [[r []]|]; [cbn in *; lia|done].
Qed.

Lemma wp_read_IDs {St} (p : bytes) n off (Q : list bytes * nat → St → Prop) s :
  (∀ r, ids_at p n off = Ok r → length (fst r) = n → Q r s) → wp OF (read_IDs p n off) Q s.
Proof.
  intros HQ. unfold wp. rewrite read_IDs_at. pose proof (ids_at_spec p n off) as Hs.
  destruct (ids_at p n off) as [r|e]; [by apply HQ|done].
Qed.

Lemma memcpys_fault p off srcs e : memcpys p off srcs = Fault e → e = BufferOverflow.
Proof.
  revert p off. induction srcs as [|src srcs IH]; intros p off; [done|]. cbn. unfold memcpy.
  case_decide; [apply IH|by intros [= <-]].
Qed.

(** ** Packets that leave *)

Lemma wp_send_local (F : fault → Prop) type h ID s : is_Some (localhosts (pst (n_px s)) !! h) →
  wp F (lift (sendNotificationLocally type h ID)) (λ _ s', ∃ e, s' = sends [e] s) s.
Proof.
  intros [l Hl]. apply wp_lift. unfold sendNotificationLocally.
  set (id := take _ ID). assert (length id ≤ length ID) by (unfold id; rewrite length_take; lia).
  rewrite memcpys_fits by (unfold make_packet; cbn; rewrite length_replicate, app_nil_r; lia).
  unfold wp, push_to_host. rewrite (run_bind _ _ _ _ _ (get_lh_run _ _ _ Hl)).
  destruct (lh_type l); cbn; by eexists.
Qed.

Lemma wp_push_local h ID data APItype o s : holds o s → is_Some (localhosts (pst (n_px s)) !! h) →
  wp OF (pushDataToLocalSubscriber h ID data APItype) (λ _, holds o) s.
Proof. intros Hs Hh. unfold wp. rewrite pushDataToLocalSubscriber_run by done. by apply holds_sends. Qed.

(** A way to send data to the network *)
Definition sending (push : list bytes → BABitvector → bytes → M Node unit) : Prop :=
  ∀ IDs FID data s, wp OF (push IDs FID data) (λ _ s', ∃ es, s' = sends es s) s.

Lemma wp_memcpys p off srcs (k : buffer → M Node unit) Q s :
  (∀ b, wp OF (k b) Q s) →
  wp OF (match memcpys p off srcs with Ok b => k b | Fault e => throw e end) Q s.
Proof.
  intros Hk. destruct (memcpys p off srcs) eqn:E; [apply Hk|]. apply wp_throw. by eapply memcpys_fault.
Qed.

Lemma sending_plain : sending pushDataToRemoteSubscribers.
Proof.
  intros IDs FID data s. apply wp_bind, wp_fid_data. intros fid.
  apply wp_memcpys. intros p. eapply wp_mono; [apply wp_emit|]. by eexists.
Qed.

Lemma sending_typed : sending (λ IDs FID p, pushDataToRemoteSubscribers_typed IDs PUBLISH_DATA FID p).
Proof.
  intros IDs FID data s. unfold pushDataToRemoteSubscribers_typed. apply wp_bind, wp_get_gc.
  apply wp_bind, wp_fid_data. intros fid. rewrite Z.eqb_refl. apply wp_bind, wp_ret.
  apply wp_memcpys. intros p. apply wp_bind. eapply wp_mono; [apply wp_emit|].
  intros [] s' ->. eapply wp_mono; [apply wp_emit|]. intros [] s' ->. eexists. apply sends_sends.
Qed.

Lemma wp_deliver subs APItype p s : holds (Some p) s → subs ≠ [] →
  (∀ h, h ∈ subs.*1 → is_Some (localhosts (pst (n_px s)) !! h)) →
  wp OF (deliver subs APItype) (λ _, holds None) s.
Proof.
  intros Hs Hne Hal. unfold wp. rewrite (deliver_run _ _ p) by (done || apply Hs).
  by eapply holds_sends, holds_packet.
Qed.

Lemma others_alive IDs h0 (f : bytes → bytes) o s h : holds o s →
  h ∈ (in_order (f <$> other_subscribers IDs h0 (pst (n_px s)))).*1 →
  is_Some (localhosts (pst (n_px s)) !! h).
Proof.
  intros Hs. rewrite in_order_fst, elem_of_ptr_order, dom_fmap. unfold other_subscribers.
  rewrite dom_delete, elem_of_difference, elem_of_dom, found_hears. intros [Hh _].
  eapply hears_alive; [apply Hs|done].
Qed.

(** ** Data *)

Lemma wp_network IDs APItype p s : holds (Some p) s →
  wp OF (handleNetworkPublication IDs APItype) (λ _, holds None) s.
Proof.
  intros Hs. destruct (handleNetworkPublication_run IDs APItype p s) as (subs & _ & Hr); [apply Hs..|].
  unfold wp. rewrite Hr. by eapply holds_sends, holds_packet.
Qed.

Lemma publication_known s ID ap IDs : publication_for s ID = Some (ap, IDs) →
  ∃ key, activePublicationIndex s !! key = Some ap.
Proof.
  unfold publication_for. destruct (activePublicationIndex s !! ID) eqn:E.
  - intros [= -> _]. by exists ID.
  - destruct (activePublicationIndex s !! prefix ID) eqn:E'; [|done]. intros [= -> _]. by exists (prefix ID).
Qed.

(** A notice keeps the packet, which is then leaked. *)
Definition done_with (s : Node) : Prop := ∃ o, holds o s.

Lemma wp_no_FID ap h ID p s : holds (Some p) s → is_Some (localhosts (pst (n_px s)) !! h) →
  wp OF (no_FID_notice ap h ID) (λ _, done_with) s.
Proof.
  intros Hs Hh. unfold no_FID_notice. destruct (_ =? _)%Z; [|destruct (_ =? _)%Z].
  - eapply wp_mono; [by eapply wp_send_local|]. intros ? s' [e ->]. eexists. by apply holds_sends.
  - eapply wp_mono; [by eapply wp_send_local|]. intros ? s' [e ->]. eexists. by apply holds_sends.
  - eapply wp_mono; [by eapply wp_p_kill|]. intros ? s' Hs'. by exists None.
Qed.

Lemma wp_publish_with local_only push ID h APItype p s : sending push → holds (Some p) s →
  is_Some (localhosts (pst (n_px s)) !! h) →
  wp OF (publish_with local_only push ID h APItype) (λ _, done_with) s.
Proof.
  intros Hpush Hs Hh. apply wp_bind, wp_px_state.
  assert (∀ m, wp OF m (λ _, holds None) s → wp OF m (λ _ : unit, done_with) s) as Hdone
    by (intros m Hm; eapply wp_mono; [exact Hm|]; intros ? s' Hs'; by exists None).
  destruct (publication_for _ ID) as [[ap IDs]|]; [|by eapply Hdone, wp_p_kill].
  cbn zeta. destruct (is_NULL (FID_to_subscribers ap)); [by eapply wp_no_FID|].
  set (subs := in_order _). assert (∀ h', h' ∈ subs.*1 → is_Some (localhosts (pst (n_px s)) !! h')) as Hal
    by (intros h' Hh'; by eapply others_alive).
  apply Hdone. destruct (local_only (FID_to_subscribers ap)).
  - case_decide; [by eapply wp_p_kill|by eapply wp_deliver].
  - case_decide.
    + apply wp_bind, (wp_p_give _ p); [apply Hs|].
      eapply wp_mono; [apply Hpush|]. intros [] s' [es ->]. by eapply holds_sends, holds_packet.
    + apply wp_bind, (wp_p_data _ p); [apply Hs|]. apply wp_bind.
      eapply wp_mono; [apply Hpush|]. intros [] s' [es ->]. by eapply wp_deliver, Hal; [apply holds_sends|].
Qed.

Lemma wp_publish_to push ID FID h APItype p s : sending push → holds (Some p) s →
  wp OF (publish_to push ID FID h APItype) (λ _, holds None) s.
Proof.
  intros Hpush Hs. apply wp_bind, wp_px_state, wp_bind, wp_get_gc. cbn zeta.
  set (subs := in_order _). assert (∀ h', h' ∈ subs.*1 → is_Some (localhosts (pst (n_px s)) !! h')) as Hal
    by (intros h' Hh'; by eapply others_alive).
  case_decide.
  - apply wp_bind, (wp_p_give _ p); [apply Hs|]. eapply wp_mono; [apply Hpush|].
    intros [] s' [es ->]. by eapply holds_sends, holds_packet.
  - apply wp_bind. destruct (not_to_TM (n_gc s) FID); [|by eapply wp_deliver].
    apply wp_bind, (wp_p_data _ p); [apply Hs|]. eapply wp_mono; [apply Hpush|].
    intros [] s' [es ->]. by eapply wp_deliver, Hal; [apply holds_sends|].
Qed.

(** ** Changes of publications *)

(** A change of an entry that neither adds nor removes publishers *)
Lemma px_inv_alter f id s : px_inv s →
  (∀ ap, activePublicationIndex s !! id = Some ap → pub_ok id ap →
     dom (publishers (f ap)) = dom (publishers ap) ∧ pub_ok id (f ap)) →
  px_inv (set_pubs (alter f id) s).
Proof.
  intros [I1 I2 I3 I4 I5 I6 I7] Hf.
  assert (∀ h x, publishes (set_pubs (alter f id) s) h x ↔ publishes s h x) as Hpub.
  { intros h x. unfold publishes. cbn. destruct (decide (id = x)) as [<-|]; [|by rewrite lookup_alter_ne].
    rewrite lookup_alter_eq. destruct (activePublicationIndex s !! id) as [ap|] eqn:E; [|naive_solver].
    destruct (Hf ap eq_refl (proj2 (I3 _ _ E))) as [Hd _]. cbn.
    assert (is_Some (publishers (f ap) !! h) ↔ is_Some (publishers ap !! h)) as Hh
      by (rewrite <-!elem_of_dom; by rewrite Hd).
    naive_solver. }
  split; try done.
  - intros h l x Hl. rewrite Hpub. by apply I1.
  - intros h x. rewrite Hpub. apply I2.
  - cbn. intros x ap. destruct (decide (id = x)) as [<-|]; [|rewrite lookup_alter_ne by done; apply I3].
    rewrite lookup_alter_eq. intros (ap0 & E & ->)%fmap_Some. destruct (I3 _ _ E) as [Hne Hok].
    destruct (Hf ap0 E Hok) as [Hd Hok']. split; [|done].
    rewrite <-dom_empty_iff_L, Hd, dom_empty_iff_L. done.
Qed.

Lemma wp_mod_ap (F : fault → Prop) f id o s : holds o s →
  (∀ ap, activePublicationIndex (pst (n_px s)) !! id = Some ap → pub_ok id ap →
     dom (publishers (f ap)) = dom (publishers ap) ∧ pub_ok id (f ap)) →
  wp F (mod_ap id f) (λ _ s', holds o s' ∧
    pst (n_px s') = set_pubs (alter f id) (pst (n_px s))) s.
Proof.
  intros Hs Hf. apply wp_lift. unfold wp. cbn. split; [|done].
  apply holds_px; [done| |by intros _ h]. apply px_inv_alter; [apply Hs|done].
Qed.

Lemma pub_ok_FID id IDs FID ap : route_ok FID → IDs ≠ [] → pub_ok id ap →
  dom (publishers (with_FID IDs FID ap)) = dom (publishers ap) ∧ pub_ok id (with_FID IDs FID ap).
Proof. intros HF Hn (? & ? & _ & _). done. Qed.

(** The names of the entries are known. *)
Definition named (IDs : list bytes) (s : Proxy) : Prop :=
  ∀ id ap, id ∈ IDs → activePublicationIndex s !! id = Some ap → ap_allKnownIDs ap ≠ [].

Lemma wp_assign_FID (F : fault → Prop) IDs FID o s : holds o s → route_ok FID →
  wp F (assign_FID IDs FID) (λ _ s', holds o s' ∧ named IDs (pst (n_px s'))) s.
Proof.
  intros Hs HF. unfold assign_FID.
  eapply wp_mono; [apply (wp_for_each _ IDs _ (λ l s', holds o s' ∧ l ⊆ IDs ∧
    ∀ id ap, id ∈ IDs → activePublicationIndex (pst (n_px s')) !! id = Some ap →
      id ∉ l → ap_allKnownIDs ap ≠ []))|].
  - naive_solver.
  - intros id l s' (Hs' & Hl & Hn).
    assert (id ∈ IDs) as Hid by (apply Hl; left).
    assert (IDs ≠ []) by (intros ->; by apply elem_of_nil in Hid).
    eapply wp_mono; [eapply wp_mod_ap; [done|intros ap _ Hok; by apply pub_ok_FID]|].
    intros [] s1 [Hs1 Heq]. split_and!; [done|set_solver|]. rewrite Heq. cbn.
    intros x ap Hx Hap Hxl. apply lookup_alter_Some in Hap as [(-> & ap0 & _ & ->)|[Hne Hap]]; [done|].
    eapply Hn; [done|done|]. rewrite elem_of_cons. naive_solver.
  - intros [] s' (Hs' & _ & Hn). split; [done|]. intros id ap Hid Hap. eapply Hn; [done..|].
    apply not_elem_of_nil.
Qed.

Lemma first_publisher_alive s ID h v : px_inv s → first_publisher s ID = Some (h, v) →
  is_Some (localhosts s !! h) ∧
  ∀ ap, activePublicationIndex s !! ID = Some ap → publishers ap !! h = Some v.
Proof.
  intros Hinv. unfold first_publisher. destruct (activePublicationIndex s !! ID) as [ap|] eqn:E; [|done].
  cbn. destruct (head _) as [h'|]; [|done]. cbn. destruct (publishers ap !! h') as [v'|] eqn:Ev; [|done].
  cbn. intros [= -> ->]. split; [|by intros ? [= <-]]. eapply (pi_pub_alive _ Hinv h ID). by exists ap; rewrite Ev.
Qed.

(** A publisher is told something. *)
Lemma wp_set_state (F : fault → Prop) id h st o s : holds o s →
  (∀ ap, activePublicationIndex (pst (n_px s)) !! id = Some ap →
     is_Some (publishers ap !! h) ∧ (st = STOP_PUBLISH ∨ ap_allKnownIDs ap ≠ [])) →
  wp F (set_state id h st) (λ _ s', holds o s' ∧
    pst (n_px s') = set_pubs (alter (with_publishers (insert h st)) id) (pst (n_px s))) s.
Proof.
  intros Hs Hk. apply wp_mod_ap; [done|]. intros ap Hap (Hid & HR & HF & Hn).
  destruct (Hk ap Hap) as [[v Hv] Hst]. split.
  - cbn. rewrite dom_insert_L. apply elem_of_dom_2 in Hv. set_solver.
  - split_and!; [done..|]. cbn. intros h' v' [[<- <-]|[_ Hv']]%lookup_insert_Some Hne; [naive_solver|eauto].
Qed.

Lemma named_alter IDs f id s : (∀ ap, ap_allKnownIDs (f ap) = ap_allKnownIDs ap) → named IDs s →
  named IDs (set_pubs (alter f id) s).
Proof.
  intros Hf Hn x ap Hx. cbn. intros [(-> & ap0 & Hap & ->)|[_ Hap]]%lookup_alter_Some.
  - rewrite Hf. eauto.
  - eauto.
Qed.

(** ** Notifications of the rendezvous point *)

Lemma wp_on_start (F : fault → Prop) IDs FID o s : holds o s → route_ok FID →
  wp F (on_start IDs FID) (λ _, holds o) s.
Proof.
  intros Hs HF. apply wp_bind. eapply wp_mono; [by apply wp_assign_FID|]. intros [] s1 Hs1.
  eapply wp_mono; [apply (wp_for_each_inv _ _ _ (λ s', holds o s' ∧ named IDs (pst (n_px s')))); [done|]|by intros ?? []].
  intros ID s' Hin [Hs' Hn]. apply wp_bind, wp_px_state.
  destruct (first_publisher _ ID) as [[h v]|] eqn:Eh; [|by apply wp_ret].
  destruct (first_publisher_alive _ _ _ _ (ni_px _ _ _ (proj1 Hs')) Eh) as [Hal Hv].
  apply wp_bind. eapply wp_mono; [apply wp_set_state; [done|]|].
  - intros ap Hap. split; [by rewrite (Hv _ Hap)|right; by eapply Hn].
  - intros [] s2 [Hs2 Heq]. eapply wp_mono; [apply wp_send_local; by rewrite Heq|].
    intros [] s3 [e ->]. split; [by apply holds_sends|]. cbn. rewrite Heq. by apply named_alter.
Qed.

Lemma wp_on_update (F : fault → Prop) IDs FID o s : holds o s → route_ok FID →
  wp F (on_update IDs FID) (λ _, holds o) s.
Proof.
  intros Hs HF. apply wp_bind. eapply wp_mono; [by apply wp_assign_FID|]. intros [] s1 [Hs1 _].
  apply wp_for_each_inv; [done|]. intros ID s' Hin Hs'. apply wp_bind, wp_px_state.
  destruct (first_publisher _ ID) as [[h v]|] eqn:Eh; [|by apply wp_ret].
  destruct (first_publisher_alive _ _ _ _ (ni_px _ _ _ (proj1 Hs')) Eh) as [Hal _].
  destruct (_ =? _)%Z; [|by apply wp_ret]. eapply wp_mono; [by apply wp_send_local|].
  intros [] s2 [e ->]. by apply holds_sends.
Qed.

Lemma zero_FID_ok : fid_ok zero_FID.
Proof. split; [|done]. apply bv_wfb_sound. vm_compute. reflexivity. Qed.

Lemma wp_on_stop (F : fault → Prop) IDs o s : holds o s → wp F (on_stop IDs) (λ _, holds o) s.
Proof.
  intros Hs. apply wp_for_each_inv; [done|]. intros ID s' Hin Hs'. apply wp_bind, wp_px_state.
  destruct (_ !! ID) as [ap|] eqn:Eap; [|by apply wp_ret]. apply wp_bind.
  eapply wp_mono; [eapply wp_mod_ap; [done|]|].
  { intros ap' _ Hok. apply pub_ok_FID; [right; apply zero_FID_ok| |done].
    intros ->. by apply elem_of_nil in Hin. }
  intros [] s1 [Hs1 Heq].
  assert (∀ h, h ∈ dom (publishers ap) → is_Some (localhosts (pst (n_px s')) !! h)) as Hal.
  { intros h Hh%elem_of_dom. eapply (pi_pub_alive _ (ni_px _ _ _ (proj1 Hs'))). by exists ap. }
  eapply wp_mono; [apply (wp_for_each_inv _ _ _ (λ s2, holds o s2 ∧
    localhosts (pst (n_px s2)) = localhosts (pst (n_px s')) ∧
    ∀ ap', activePublicationIndex (pst (n_px s2)) !! ID = Some ap' → dom (publishers ap') = dom (publishers ap)))|by intros ?? []].
  - split; [done|]. rewrite Heq. split; [done|]. cbn. rewrite lookup_alter_eq, Eap. by intros ? [= <-].
  - intros h s2 Hh%elem_of_ptr_order (Hs2 & Hl & Hd). destruct (_ =? _)%Z; [|by apply wp_ret].
    apply wp_bind. eapply wp_mono; [apply wp_set_state; [done|]|].
    + intros ap' Hap'. split; [|by left]. apply elem_of_dom. by rewrite (Hd _ Hap').
    + intros [] s3 [Hs3 Heq3]. eapply wp_mono; [apply wp_send_local; rewrite Heq3; cbn; rewrite Hl; by apply Hal|].
      intros [] s4 [e ->]. split_and!; [by apply holds_sends|cbn; by rewrite Heq3|].
      cbn. rewrite Heq3. cbn. intros ap'. rewrite lookup_alter_eq. intros (ap0 & Hap0 & ->)%fmap_Some.
      cbn. rewrite dom_insert_L, (Hd _ Hap0). set_solver.
Qed.

Lemma wp_on_scope (F : fault → Prop) type IDs o s : holds o s → wp F (on_scope type IDs) (λ _, holds o) s.
Proof.
  intros Hs. apply wp_for_each_inv; [done|]. intros ID s' _ Hs'. apply wp_bind, wp_px_state.
  assert (∀ h, h ∈ ptr_order (findActiveSubscriptions ID (pst (n_px s'))) →
    is_Some (localhosts (pst (n_px s')) !! h)) as Hal.
  { intros h Hh%elem_of_ptr_order. unfold findActiveSubscriptions in Hh.
    destruct (_ !! prefix ID) as [a|] eqn:Ea; [|set_solver]. destruct (as_isScope a); [|set_solver].
    eapply (pi_sub_alive _ (ni_px _ _ _ (proj1 Hs'))). by exists a. }
  eapply wp_mono; [apply (wp_for_each_inv _ _ _ (λ s2, holds o s2 ∧ pst (n_px s2) = pst (n_px s')))|by intros ?? []].
  - done.
  - intros h s2 Hh [Hs2 Heq]. eapply wp_mono; [apply wp_send_local; rewrite Heq; by apply Hal|].
    intros [] s3 [e ->]. split; [by apply holds_sends|done].
Qed.

Lemma holds_nodes o f s : holds o s →
  (isub = true → map_Forall (λ _, an_ok (pst (n_px s))) (f (activeNodeIndex s))) →
  (isub = false → f ∅ = ∅) →
  holds o (mkNode (n_px s) (n_gc s) (f (activeNodeIndex s)) (n_packet s)).
Proof.
  intros [[Hpx Hgc Hs Hn] Ho] Ht Hf. split; [|done]. split; try done. cbn. destruct isub; [by apply Ht|].
  rewrite Hn. by apply Hf.
Qed.

Lemma wp_on_isub nid FID o s : holds o s → fid_ok FID →
  wp OF (on_isub_FID nid FID) (λ _, holds o) s.
Proof.
  intros Hs HF. apply wp_bind, wp_get_nodes. destruct (activeNodeIndex s !! nid) as [an|] eqn:Ean; [|by apply wp_ret].
  assert (isub = true) as Hi.
  { destruct isub eqn:E; [done|]. pose proof (ni_nodes _ _ _ (proj1 Hs)) as Hn. cbn in Hn.
    rewrite Hn, lookup_empty in Ean. done. }
  pose proof (ni_nodes _ _ _ (proj1 Hs)) as Hn. rewrite Hi in Hn. destruct (Hn _ _ Ean) as [_ Hal].
  assert (∀ pubs, dom pubs ⊆ dom (an_publishers an) →
    holds o (mkNode (n_px s) (n_gc s) (<[nid := mkAN (an_nodeID an) pubs FID]> (activeNodeIndex s)) (n_packet s))) as Hins.
  { intros pubs Hd. apply (holds_nodes o (insert nid _)); [done| |by rewrite Hi].
    intros _. apply map_Forall_insert_2; [|done]. split; [done|]. cbn. intros h Hh%elem_of_dom%Hd.
    by apply Hal, elem_of_dom. }
  cbn zeta. destruct (ptr_order _) as [|h l] eqn:El; [by apply wp_modify, Hins|].
  assert (h ∈ dom (an_publishers an)) as Hh by (apply elem_of_ptr_order; rewrite El; left).
  apply wp_bind, wp_modify. eapply wp_mono; [apply wp_send_local; cbn; by apply Hal, elem_of_dom|].
  intros [] s2 [e ->]. apply holds_sends, Hins. rewrite dom_insert_L. set_solver.
Qed.

Lemma wp_on_isubs p n off o s : holds o s → Forall is_byte p →
  wp OF (on_isubs p n off) (λ _, holds o) s.
Proof.
  intros Hs Hp. revert off s Hs. induction n as [|n IH]; intros off s Hs; [by apply wp_ret|]. cbn [on_isubs].
  apply wp_bind, wp_read_bytes. intros _ _. apply wp_bind, wp_read_FID; [done|]. intros FID HF.
  apply wp_bind. eapply wp_mono; [by apply wp_on_isub|]. intros [] s' Hs'. by apply IH.
Qed.

Lemma wp_set_gc (F : fault → Prop) f o s : holds o s → gc_ok (f (n_gc s)) →
  pathMgmtIID (f (n_gc s)) = pathMgmtIID (n_gc s) → wp F (set_gc f) (λ _, holds o) s.
Proof. intros [[Hpx Hgc Hs Hn] Ho] Hf He. split; [|done]. split; cbn; try done. by rewrite He. Qed.

Lemma wp_RV p s : holds (Some p) s → Forall is_byte p →
  wp OF handleRVNotification (λ _, holds (Some p)) s.
Proof.
  intros Hs Hp. unfold handleRVNotification. apply wp_bind, (wp_p_data _ p); [apply Hs|].
  apply wp_bind, wp_read_byte. intros type _. destruct (_ =? _)%Z.
  { apply wp_bind, wp_read_byte. intros n _. by apply wp_on_isubs. }
  apply wp_bind, wp_read_byte. intros n _. apply wp_bind, wp_read_IDs. intros [IDs off] _ _.
  destruct (_ || _); [by apply wp_on_scope|].
  repeat (destruct (_ =? _)%Z; [try (apply wp_bind, wp_read_FID; [done|]; intros FID HF)|]).
  - apply wp_on_start; [done|by right].
  - apply wp_on_update; [done|by right].
  - apply wp_set_gc; [done| |done]. destruct (ni_gc _ _ _ (proj1 Hs)). split; try done. by right.
  - apply wp_set_gc; [done| |done]. by destruct (ni_gc _ _ _ (proj1 Hs)).
  - by apply wp_on_stop.
  - by apply wp_ret.
Qed.

(** ** Notifications of the topology manager *)

Lemma affected_run LID FID (s : Node) : fid_ok LID → fid_ok FID →
  ∃ b, affected LID FID s = Ok (b, s).
Proof.
  intros [HL1 HL2] [HF1 HF2]. destruct (bv_and_spec LID FID HL1 HF1) as (r & Hr & _); [congruence|].
  unfold affected. rewrite Hr. by eexists.
Qed.

Lemma restate_dom P st m : dom (restate P st m) = dom m.
Proof. apply dom_fmap_L. Qed.

(** Publishers are told something only where a name is known. *)
Lemma pub_ok_restate id FID P st ap : (∀ v, P v = true → v ≠ STOP_PUBLISH) → route_ok FID →
  pub_ok id ap →
  let ap' := with_publishers (restate P st) (with_FID (ap_allKnownIDs ap) FID ap) in
  dom (publishers ap') = dom (publishers ap) ∧ pub_ok id ap'.
Proof.
  intros HP HF (Hid & HR & _ & Hn). split; [apply restate_dom|]. split_and!; [done..|]. cbn.
  intros h v. unfold restate. rewrite lookup_fmap. intros (v0 & Hv0 & ->)%fmap_Some Hne.
  apply (Hn _ _ Hv0). destruct (P v0) eqn:E; [by apply HP|done].
Qed.

Lemma no_FID_route : route_ok no_FID.
Proof. by left. Qed.

Lemma wp_invalidate LID id o s : holds o s → fid_ok LID →
  wp OF (invalidate LID id) (λ _, holds o) s.
Proof.
  intros Hs HL. apply wp_bind, wp_px_state. destruct (_ !! id) as [ap|] eqn:Eap; [|by apply wp_ret].
  destruct (ap_isScope ap || is_NULL (FID_to_subscribers ap)) eqn:En; [by apply wp_ret|].
  apply orb_false_iff in En as [_ Hz]. assert (fid_ok (FID_to_subscribers ap)) as HF.
  { destruct (pi_pub_entry _ (ni_px _ _ _ (proj1 Hs)) _ _ Eap) as (_ & _ & _ & [?|?] & _); [|done].
    unfold is_NULL in Hz. congruence. }
  destruct (affected_run LID (FID_to_subscribers ap) s HL HF) as [b Hb]. apply wp_bind.
  unfold wp at 1. rewrite Hb. destruct b; [|by apply wp_ret].
  eapply wp_mono; [apply (wp_mod_ap _ _ id o); [done|]|by intros ?? []].
  intros ap' _ Hok. apply (pub_ok_restate id no_FID); [|apply no_FID_route|done].
  intros v Hv ->. done.
Qed.

Lemma wp_affected_nodes LID ids acc o s : holds o s → fid_ok LID →
  (∀ id, id ∈ ids → is_Some (activeNodeIndex s !! id)) →
  wp OF (affected_nodes LID ids acc) (λ _ s', s' = s) s.
Proof.
  intros Hs HL. revert acc. induction ids as [|id ids IH]; intros acc Hids; [by apply wp_ret|].
  cbn [affected_nodes]. apply wp_bind, wp_get_nodes, wp_bind.
  destruct (Hids id) as [an Han]; [left|]. eapply wp_deref; [exact Han|]. apply wp_bind.
  assert (fid_ok (FID_to_node an)) as HF.
  { pose proof (ni_nodes _ _ _ (proj1 Hs)) as Hn. destruct isub; [by apply (Hn _ _ Han)|].
    rewrite Hn, lookup_empty in Han. done. }
  destruct (affected_run LID (FID_to_node an) s HL HF) as [b Hb]. unfold wp at 1. rewrite Hb.
  apply IH. intros id' Hid'. apply Hids. by right.
Qed.

Lemma wp_iReq ids s : wp OF (publishiReqToRV ids) (λ _ s', ∃ es, s' = sends es s) s.
Proof.
  apply wp_bind, wp_get_gc. cbn zeta. apply wp_lift. unfold px_send.
  destruct (memcpys _ _ _) eqn:E; [|apply wp_throw; by eapply memcpys_fault].
  unfold wp. cbn. by eexists.
Qed.

Lemma wp_TM p s : holds (Some p) s → Forall is_byte p →
  wp OF processTMNotification (λ _, holds None) s.
Proof.
  intros Hs Hp. unfold processTMNotification. apply wp_bind, (wp_p_data _ p); [apply Hs|].
  apply wp_bind, wp_read_FID; [done|]. intros LID HL. apply wp_bind.
  eapply wp_mono; [by eapply wp_p_kill|]. intros [] s1 Hs1. apply wp_bind, wp_px_state, wp_bind.
  eapply wp_mono; [apply (wp_for_each_inv _ _ _ (holds None)); [done|]|].
  { intros id s2 _ Hs2. by apply wp_invalidate. }
  intros [] s2 Hs2. apply wp_bind, wp_get_nodes, wp_bind.
  eapply wp_mono; [eapply wp_affected_nodes; [done|done|]|].
  { intros id Hid%elem_of_str_order. by apply elem_of_dom. }
  intros ids s3 ->. case_decide; [|by apply wp_ret].
  eapply wp_mono; [apply wp_iReq|]. intros [] s4 [es ->]. by apply holds_sends.
Qed.

(** ** Management *)

Lemma wp_for_items (F : fault → Prop) body o s : holds o s →
  (∀ id ap s', holds o s' → activePublicationIndex (pst (n_px s')) !! id = Some ap →
     wp F (body id ap) (λ _, holds o) s') →
  wp F (for_items body) (λ _, holds o) s.
Proof.
  intros Hs Hb. apply wp_bind, wp_px_state, wp_for_each_inv; [done|]. intros id s' _ Hs'.
  apply wp_bind, wp_px_state. destruct (_ !! id) as [ap|] eqn:E; [|by apply wp_ret].
  destruct (ap_isScope ap); [by apply wp_ret|by apply Hb].
Qed.

Lemma wp_resume (F : fault → Prop) id ap o s : holds o s →
  activePublicationIndex (pst (n_px s)) !! id = Some ap →
  wp F (resume id ap) (λ _, holds o) s.
Proof.
  intros Hs Hap. pose proof (ni_px _ _ _ (proj1 Hs)) as Hinv.
  eapply wp_mono; [apply (wp_for_each_inv _ _ _ (λ s', holds o s' ∧
    localhosts (pst (n_px s')) = localhosts (pst (n_px s)) ∧
    ∃ ap', activePublicationIndex (pst (n_px s')) !! id = Some ap' ∧
      dom (publishers ap') = dom (publishers ap) ∧ ap_allKnownIDs ap' = ap_allKnownIDs ap))|by intros ?? []].
  { naive_solver. }
  intros h s' Hh%elem_of_ptr_order (Hs' & Hl & ap' & Hap' & Hd & Hk).
  destruct (Z.eqb_spec (state_of h (publishers ap)) PAUSE_PUBLISH) as [Hst|]; [|apply wp_ret; eauto 10].
  unfold state_of in Hst. apply elem_of_dom in Hh as [v Hv]. rewrite Hv in Hst. cbn in Hst. subst v.
  assert (ap_allKnownIDs ap ≠ []) as Hne.
  { destruct (pi_pub_entry _ Hinv _ _ Hap) as (_ & _ & _ & _ & Hn). by apply (Hn _ _ Hv). }
  assert (is_Some (localhosts (pst (n_px s)) !! h)) as Hal
    by (eapply (pi_pub_alive _ Hinv h id); exists ap; by rewrite Hv).
  apply wp_bind. eapply wp_mono; [apply wp_set_state; [done|]|].
  { intros ap0 Hap0. simplify_eq. rewrite <-elem_of_dom, Hd, Hk. split; [by apply elem_of_dom|by right]. }
  intros [] s1 [Hs1 Heq]. destruct (ap_allKnownIDs ap) as [|name names]; [done|].
  eapply wp_mono; [apply wp_send_local; rewrite Heq; cbn; by rewrite Hl|].
  intros [] s2 [e ->]. split_and!; [by apply holds_sends|cbn; by rewrite Heq|]. cbn. rewrite Heq. cbn.
  eexists. rewrite lookup_alter_eq, Hap'. split; [done|]. split; [|done]. cbn.
  rewrite dom_insert_L, Hd. apply elem_of_dom_2 in Hv. set_solver.
Qed.

Lemma wp_states state o s : holds o s → (isub = true → state ≠ DISCONNECTED) →
  wp OF (updateStates state) (λ _, holds o) s.
Proof.
  intros Hs Hi. unfold updateStates. destruct (Z.eqb_spec state DISCONNECTED) as [->|_].
  - apply wp_bind. eapply wp_mono; [apply (wp_set_gc _ _ o); [done| |done]|].
    { destruct (ni_gc _ _ _ (proj1 Hs)). split; try done. apply no_FID_route. }
    intros [] s1 Hs1. apply wp_bind. eapply wp_mono; [apply (wp_for_items _ _ o); [done|]|].
    + intros id ap s2 Hs2 Hap. eapply wp_mono; [apply (wp_mod_ap _ _ id o); [done|]|by intros ?? []].
      intros ap' _ Hok. apply (pub_ok_restate id no_FID); [|apply no_FID_route|done].
      intros v Hv ->. done.
    + intros [] s2 Hs2. apply wp_modify. apply holds_nodes; [done| |by rewrite fmap_empty].
      intros E. by destruct (Hi E).
  - destruct (_ =? _)%Z; [|by apply wp_ret]. apply wp_bind.
    eapply wp_mono; [apply (wp_for_items _ _ o); [done|]|].
    { intros id ap s2 Hs2 Hap. by apply wp_resume. }
    intros [] s2 Hs2. apply wp_bind, wp_get_nodes. case_decide; [|by apply wp_ret].
    eapply wp_mono; [apply wp_iReq|]. intros [] s4 [es ->]. by apply holds_sends.
Qed.

(** ** LocalProxy::push *)

Lemma wp_host type d o s : holds o s →
  wp OF (lift (getLocalHost type d))
    (λ h s', holds o s' ∧ is_Some (localhosts (pst (n_px s')) !! h) ∧ n_gc s' = n_gc s) s.
Proof.
  intros Hs. apply wp_lift. eapply wp_fault_mono; [eapply wp_mono; [apply getLocalHost_spec, Hs|]|done].
  intros h x (Hx & _ & Hi & _ & _ & Hk). split; [by apply holds_px|].
  destruct (index_host _ _ _ Hx Hi) as (l & Hl & _). split; [by eexists|done].
Qed.

Lemma wp_disconnect h p s : holds (Some p) s → isub = false → is_Some (localhosts (pst (n_px s)) !! h) →
  wp OF (_ ← lift (disconnect (n_gc s) h); p_kill) (λ _, holds None) s.
Proof.
  intros Hs Hi [l Hl]. apply wp_bind, wp_lift. eapply wp_fault_mono;
    [eapply wp_mono; [apply (disconnect_spec (n_gc s) h (n_px s) l); [apply Hs..|done]|]|done].
  intros [] x (_ & Hx & _). eapply wp_p_kill, holds_px; [done|done|]. intros E. congruence.
Qed.

Lemma wp_respond h fields o s : holds o s → is_Some (localhosts (pst (n_px s)) !! h) →
  wp OF (respond h fields) (λ _, holds o) s.
Proof.
  intros Hs [l Hl]. apply wp_bind, wp_lift, (wp_get_lh _ _ _ _ _ Hl). destruct s as [[] ? ? ?]; cbn in *.
  apply wp_memcpys. intros b. eapply wp_mono; [apply wp_emit|]. intros [] s' ->. by apply holds_sends.
Qed.

Lemma wp_mapp h p s : holds (Some p) s → is_Some (localhosts (pst (n_px s)) !! h) →
  (isub = true → p !! 0 ≠ Some DISCONNECT ∧
     (p !! 0 = Some SET_CONNECTION_STATUS → p !! 1 ≠ Some DISCONNECTED)) →
  wp OF (handleMappRequest h) (λ _, holds None) s.
Proof.
  intros Hs Hh Hi. unfold handleMappRequest. apply wp_bind, (wp_p_data _ p); [apply Hs|].
  apply wp_bind, wp_get_gc, wp_bind, wp_read_byte. intros type Ht.
  assert (∀ m : M Node unit, wp OF m (λ _, holds (Some p)) s → wp OF (_ ← m; p_kill) (λ _, holds None) s) as Hkill.
  { intros m Hm. apply wp_bind. eapply wp_mono; [exact Hm|]. intros [] s' Hs'. by eapply wp_p_kill. }
  destruct (_ =? _)%Z.
  { apply wp_bind, wp_read_bytes. intros _ _. by apply Hkill, wp_respond. }
  destruct (_ =? _)%Z.
  { apply wp_bind, wp_fid_data. intros fid. by apply Hkill, wp_respond. }
  destruct (Z.eqb_spec type SET_CONNECTION_STATUS) as [->|].
  { apply wp_bind, wp_read_byte. intros st Hst. apply wp_bind.
    eapply wp_mono; [apply (wp_set_gc _ _ (Some p)); [done| |done]|].
    - by destruct (ni_gc _ _ _ (proj1 Hs)).
    - intros [] s1 Hs1. apply wp_bind. eapply wp_mono; [apply (wp_states _ (Some p)); [done|]|].
      + intros E ->. destruct (Hi E) as [_ Hd]. by apply Hd.
      + intros [] s2 Hs2. by eapply wp_p_kill. }
  destruct (Z.eqb_spec type DISCONNECT) as [->|]; [|by eapply wp_p_kill].
  eapply wp_disconnect; [done| |done]. destruct isub eqn:E; [|done]. by destruct (Hi eq_refl) as [[] _].
Qed.

Lemma wp_store_node nid IDs o s : holds o s → isub = true →
  wp OF (storeActiveNode nid IDs) (λ _, holds o) s.
Proof.
  intros Hs Hi. apply wp_bind, wp_px_state, wp_bind, wp_get_nodes. destruct (_ !! nid); [by apply wp_ret|].
  apply wp_bind, wp_modify, wp_ret. apply (holds_nodes o (insert nid _)); [done| |by rewrite Hi].
  intros _. pose proof (ni_nodes _ _ _ (proj1 Hs)) as Hn. rewrite Hi in Hn.
  apply map_Forall_insert_2; [|done]. split; [apply zero_FID_ok|]. cbn [an_publishers]. intros h.
  rewrite lookup_fmap, fmap_is_Some, found_hears. intros Hh. eapply hears_alive; [apply Hs|done].
Qed.

(** The type of a packet of the network, behind the names *)
Definition net_type (p : bytes) : option Z :=
  n ← p !! 0;
  match ids_at p (Z.to_nat n) 1 with Ok (_, off) => drop off p !! 0 | Fault _ => None end.

Lemma wp_push_network p s : holds (Some p) s → Forall is_byte p →
  (isub = false → net_type p ≠ Some PUBLISH_DATA_iSUB) →
  wp OF push_network (λ _, holds None) s.
Proof.
  intros Hs Hp Hi. unfold push_network. apply wp_bind, (wp_p_data _ p); [apply Hs|].
  apply wp_bind, wp_read_byte. intros n Hn. apply wp_bind, wp_read_IDs. intros [IDs off] Hr _.
  apply wp_bind. eapply wp_mono; [by apply wp_p_pull|]. intros [] s1 Hs1.
  set (q := drop off p) in *. assert (Forall is_byte q) as Hq by (by apply Forall_drop).
  apply wp_bind, (wp_p_data _ q); [apply Hs1|]. apply wp_bind, wp_read_byte. intros type Ht.
  apply wp_bind, wp_get_gc. assert (net_type p = Some type) as Hnt.
  { unfold net_type. rewrite Hn. cbn. rewrite Hr. done. }
  destruct (_ =? _)%Z; [|destruct (Z.eqb_spec type PUBLISH_DATA_iSUB) as [->|]; [|by eapply wp_network]].
  - apply wp_bind. eapply wp_mono; [by apply wp_p_pull|]. intros [] s2 Hs2.
    assert (Forall is_byte (drop 1 q)) as Hq1 by (by apply Forall_drop).
    case_decide; [|case_decide; [by eapply wp_TM|by eapply wp_network]].
    apply wp_bind. eapply wp_mono; [by apply wp_RV|]. intros [] s3 Hs3. by eapply wp_p_kill.
  - assert (isub = true) as Hisub by (destruct isub; [done|by destruct (Hi eq_refl)]).
    apply wp_bind. eapply wp_mono; [by apply wp_p_pull|]. intros [] s2 Hs2.
    apply wp_bind, (wp_p_data _ (drop 1 q)); [apply Hs2|]. apply wp_bind, wp_read_bytes. intros _ _.
    apply wp_bind. eapply wp_mono; [by apply wp_store_node|]. intros fwd s3 Hs3. apply wp_bind.
    destruct fwd; [|by eapply wp_network].
    eapply wp_mono; [apply wp_iReq|]. intros [] s4 [es ->]. by eapply wp_network, holds_sends.
Qed.

(** A local entity's data for the notifications of the topology manager *)
Definition to_path_mgmt (p : bytes) : Prop :=
  ∃ n, p !! 1 = Some n ∧
    let ID := substr p 2 (Z.to_nat n * PURSUIT_ID_LEN) in
    ID = pathMgmtIID gc ∧ p !! (2 + length ID) = Some IMPLICIT_RENDEZVOUS.

Global Instance to_path_mgmt_dec p : Decision (to_path_mgmt p).
Proof.
  unfold to_path_mgmt. destruct (p !! 1) as [n|]; [|right; naive_solver].
  destruct (decide (substr p 2 (Z.to_nat n * PURSUIT_ID_LEN) = pathMgmtIID gc ∧
    p !! (2 + length (substr p 2 (Z.to_nat n * PURSUIT_ID_LEN))) = Some IMPLICIT_RENDEZVOUS));
    [left|right]; naive_solver.
Defined.

Lemma wp_push_data h p s : holds (Some p) s → Forall is_byte p → ¬ to_path_mgmt p →
  is_Some (localhosts (pst (n_px s)) !! h) → wp OF (push_data h) (λ _, done_with) s.
Proof.
  intros Hs Hp Hm Hh. unfold push_data. apply wp_bind, (wp_p_data _ p); [apply Hs|].
  apply wp_bind, wp_get_gc, wp_bind, wp_read_byte. intros n Hn. apply wp_bind, wp_read_bytes.
  intros _ Hlen. set (ID := substr _ _ _) in *. apply wp_bind, wp_read_byte. intros strategy Hst.
  cbn zeta. set (header := 1 + 1 + length ID + 1).
  assert (∀ (m : M Node unit) s', wp OF m (λ _, holds None) s' → wp OF m (λ _, done_with) s') as Hdone
    by (intros m s' Hm'; eapply wp_mono; [exact Hm'|]; intros ? s2 Hs2; by exists None).
  assert (∀ q FID s', holds (Some q) s' →
    wp OF (handleUserPublication_fid_typed ID PUBLISH_DATA FID h PUBLISHED_DATA) (λ _, done_with) s') as Hpub
    by (intros q FID s' Hs'; eapply Hdone, wp_publish_to; [apply sending_typed|done]).
  destruct (Z.eqb_spec strategy IMPLICIT_RENDEZVOUS) as [->|]; [|destruct (_ =? _)%Z; [|destruct (_ =? _)%Z]].
  - apply wp_bind, wp_read_FID; [done|]. intros FID HF. apply wp_bind.
    eapply wp_mono; [by apply wp_p_pull|]. intros [] s1 Hs1.
    case_decide; [|case_decide; [|case_decide as Hpm; [|by eapply Hpub]]].
    + apply Hdone, wp_bind. eapply wp_mono; [apply wp_RV; [done|by apply Forall_drop]|].
      intros [] s2 Hs2. by eapply wp_p_kill.
    + eapply Hdone, wp_publish_to; [apply sending_plain|done].
    + destruct Hm. exists n. split; [done|]. split; [|done].
      etrans; [exact Hpm|]. apply (ni_same _ _ _ (proj1 Hs)).
  - apply wp_bind, wp_read_FID; [done|]. intros FID HF. apply wp_bind.
    eapply wp_mono; [by apply wp_p_pull|]. intros [] s1 Hs1. by eapply Hpub.
  - apply wp_bind. eapply wp_mono; [by apply wp_p_pull|]. intros [] s1 Hs1. by eapply Hpub.
  - apply wp_bind. unfold wp at 1. rewrite (p_pull_run header p) by apply Hs.
    eapply wp_publish_with; [apply sending_typed|by eapply holds_packet|done].
Qed.

(** The packets after which the proxy stays safe.  Whether nodes may
    subscribe implicitly ([isub]) decides whether entities may leave. *)
Definition benign (in_port : Z) (p : bytes) : bool :=
  forallb (λ b, (0 <=? b) && (b <? 256))%Z p &&
  if (in_port =? 2)%Z then isub || bool_decide (net_type p ≠ Some PUBLISH_DATA_iSUB)
  else if (in_port =? 3)%Z then
    negb isub || bool_decide (p !! 0 ≠ Some DISCONNECT ∧
      (p !! 0 = Some SET_CONNECTION_STATUS → p !! 1 ≠ Some DISCONNECTED))
  else match p !! 0 with
  | None => true
  | Some type =>
      if (type =? DISCONNECT)%Z then negb isub
      else if (type =? PUBLISH_DATA)%Z then bool_decide (¬ to_path_mgmt p)
      else negb ((type =? PUBLISH_DATA_iSUB) || (type =? PUBLISH_DATA_iMULTICAST))%Z &&
           match p !! 1 with Some n => (0 <? n)%Z | None => true end
  end.

Lemma push_keeps in_port anno p s : node_inv isub gc s → benign in_port p = true →
  wp OF (push in_port anno p) (λ _, node_inv isub gc) s.
Proof.
  intros Hs [Hp Hb]%andb_true_iff. apply forallb_bytes in Hp. unfold push.
  apply wp_bind, wp_modify, wp_bind, wp_get_gc. fold (put_packet (Some p) s).
  assert (holds (Some p) (put_packet (Some p) s)) as Hs1 by (by apply (holds_packet (n_packet s))).
  set (s1 := put_packet (Some p) s) in *.
  assert (∀ (m : M Node unit) s', wp OF m (λ _, done_with) s' → wp OF m (λ _, node_inv isub gc) s') as Hd
    by (intros m s' Hm; eapply wp_mono; [exact Hm|]; by intros [] s2 [o []]).
  assert (∀ (m : M Node unit) o s', wp OF m (λ _, holds o) s' → wp OF m (λ _, node_inv isub gc) s') as Hn
    by (intros m o s' Hm; eapply wp_mono; [exact Hm|]; by intros [] s2 []).
  destruct (_ =? _)%Z.
  { eapply Hn, wp_push_network; [done..|]. intros E. rewrite E in Hb. by apply bool_decide_eq_true in Hb. }
  destruct (_ =? _)%Z.
  { apply wp_bind. eapply wp_mono; [by apply wp_host|]. intros h s2 (Hs2 & Hh & _). eapply Hn, wp_mapp; [done|done|].
    intros E. rewrite E in Hb. by apply bool_decide_eq_true in Hb. }
  destruct (sender in_port anno) as [ty d]. apply wp_bind. eapply wp_mono; [by apply wp_host|].
  intros h s2 (Hs2 & Hh & Hgc). apply wp_bind, (wp_p_data _ p); [apply Hs2|]. apply wp_bind, wp_read_byte.
  intros type Ht. rewrite Ht in Hb. destruct (_ =? _)%Z.
  { eapply Hn. rewrite <-Hgc. eapply wp_disconnect; [done| |done]. by destruct isub. }
  destruct (_ =? _)%Z.
  { apply Hd, (wp_push_data _ p); try done. by apply bool_decide_eq_true in Hb. }
  apply andb_true_iff in Hb as [Hi Hpos]. apply negb_true_iff, orb_false_iff in Hi as [-> ->].
  apply wp_bind, (wp_p_give _ p); [apply Hs2|]. apply wp_lift. rewrite <-Hgc.
  eapply wp_mono; [apply push_request_inv; [apply Hs2|apply Hs2|done|done|]|].
  - intros i Hi. rewrite Hi in Hpos. lia.
  - intros [] x [Hx Hk]. apply (holds_px None); [by eapply holds_packet|done|]. intros _. by apply same_hosts_kept.
Qed.

(** ** Any packets *)

(** The packets of all inputs, each with its input and annotation. *)
Definition node_serve (ps : list (Z * Z * bytes)) : M Node unit :=
  for_each ps (λ '(in_port, anno, p), push in_port anno p).

Definition new_node : Node := mkNode (mkPx empty_proxy []) gc ∅ None.

Lemma new_node_inv : gc_ok gc → node_inv isub gc new_node.
Proof.
  intros Hgc. split; [apply empty_px_inv|done|done|]. cbn. destruct isub; [apply map_Forall_empty|done].
Qed.

Lemma node_serve_inv ps : gc_ok gc → forallb (λ q, benign q.1.1 q.2) ps = true →
  wp OF (node_serve ps) (λ _, node_inv isub gc) new_node.
Proof.
  intros Hgc Hps. apply wp_for_each_inv; [by apply new_node_inv|].
  intros [[in_port anno] p] s Hin Hs. apply push_keeps; [done|].
  rewrite forallb_forall in Hps. apply (Hps (in_port, anno, p)). by apply list_elem_of_In.
Qed.

(** C5. No pointer of the proxy goes wrong for the packets it is meant for.
    Take any packets of bytes from applications, Click elements, the network
    and the management interface to a new proxy, in any order, except: local
    requests without a fragment; data of local entities that subscribe
    implicitly, multicast requests, and data for the path management scope;
    and either data of other nodes that subscribe implicitly ([isub] is
    false), or disconnections of entities and of the node ([isub] is true).
    The proxy can run past the end of a packet that is too short for what is
    read from it or written to it (BufferOverflow, in any handler); but it
    follows no NULL or dangling pointer, uses no packet that it gave away or
    freed, fails no assertion, and as long as it runs on its tables stay
    consistent and its FIDs well formed. *)
Theorem proxy_element_safe (ps : list (Z * Z * bytes)) :
  gc_ok gc → forallb (λ q, benign q.1.1 q.2) ps = true →
  wp (λ e, e = BufferOverflow) (node_serve ps) (λ _, node_inv isub gc) new_node.
Proof. apply node_serve_inv. Qed.
End safety.

(** ** A sample node *)

Definition item_67 : bytes := frag 65 ++ frag 66 ++ frag 67.

(** The rendezvous point tells the node to publish the item with a FID. *)
Definition sample_start : bytes :=
  net_body [notificationIID sample_gc] PUBLISH_DATA
    ([START_PUBLISH; 1%Z; 3%Z] ++ item_67 ++ fid_bytes (iLID sample_gc)).

Definition sample_traffic : list (Z * Z * bytes) :=
  sample_requests ++ [(2%Z, 0%Z, sample_start)].

Lemma proxy_element_safe_witness :
  gc_ok sample_gc ∧
  forallb (λ q, benign false sample_gc q.1.1 q.2) sample_traffic = true ∧
  wp (λ e, e = BufferOverflow) (node_serve (HO := canonical_order true) sample_traffic)
    (λ _, node_inv false sample_gc) (new_node sample_gc).
Proof.
  split; [apply sample_gc_ok|]. split; [vm_compute; reflexivity|].
  apply (proxy_element_safe (HO := canonical_order true) false sample_gc sample_traffic).
  - apply sample_gc_ok.
  - vm_compute. reflexivity.
Defined.

Definition started_node : Node :=
  after (node_serve (HO := canonical_order true) sample_traffic) (new_node sample_gc).

Lemma started_node_inv : node_inv false sample_gc started_node.
Proof.
  apply (after_spec (λ e, e = BufferOverflow) _ (node_inv false sample_gc)); [|apply new_node_inv, sample_gc_ok].
  apply node_serve_inv; [apply sample_gc_ok|]. vm_compute. reflexivity.
Qed.

(** The rendezvous element subscribes to its scope; an application publishes
    the item /65/67 in the node and another one subscribes to it. *)
Definition local_traffic : list (Z * Z * bytes) :=
  [(1%Z, 0%Z, local_request SUBSCRIBE_SCOPE (RVScope sample_gc) [] IMPLICIT_RENDEZVOUS);
   app_packet 1001 PUBLISH_SCOPE (frag 65) [] NODE_LOCAL;
   app_packet 1001 PUBLISH_INFO (frag 67) (frag 65) NODE_LOCAL;
   app_packet 1002 SUBSCRIBE_INFO (frag 67) (frag 65) NODE_LOCAL].

Definition local_node : Node :=
  after (node_serve (HO := canonical_order true) local_traffic) (new_node sample_gc).

Lemma local_node_inv : node_inv false sample_gc local_node.
Proof.
  apply (after_spec (λ e, e = BufferOverflow) _ (node_inv false sample_gc)); [|apply new_node_inv, sample_gc_ok].
  apply node_serve_inv; [apply sample_gc_ok|]. vm_compute. reflexivity.
Qed.
