(* ===== verification/ProxyDelivery.v ===== *)
(** * Who receives data

    Theorems on publications of data: inside the node, to the network and at
    the node that they reach. *)
From stdpp Require Import base list gmap sets.
From Stdlib Require Import ZArith Lia.
From S2P Require Import Prelude Enums Bitvector GlobalConf InfoGraph LocalRV RVSafety RVRequests RVProps RVRendezvous LocalProxy ProxyInv ProxyLeave ProxyProps ProxyData ProxyNet ProxySafety.

Section delivery.
Context `{HO : HashOrder}.

(** ** Control packets

    On the packets of local entities that carry no data, LocalProxy::push is
    the control plane of [LocalProxy]; its theorems ([ProxyProps]) hold of the
    whole element. *)
Lemma lift_tt {A} (m : M px A) s : (_ ← lift m; mret tt) s =
  match m (n_px s) with Ok (_, x) => Ok (tt, put_px x s) | Fault e => Fault e end.
Proof. unfold lift, mbind, M_bind. by destruct (m (n_px s)) as [[]|]. Qed.

Lemma push_is_push_local in_port anno p s : (in_port =? 2)%Z = false → (in_port =? 3)%Z = false →
  (∀ type, p !! 0 = Some type → carries_data type = false) →
  push in_port anno p s
  = (_ ← lift (push_local (n_gc s) in_port anno p); mret tt) (put_packet None s).
Proof.
  intros H2 H3 Hdata. rewrite lift_tt. unfold push, push_local. rewrite (run_bind _ _ s tt (put_packet (Some p) s)) by done.
  rewrite (run_bind _ _ _ _ _ (get_gc_run _)), H2, H3. destruct (sender in_port anno) as [ty d].
  destruct (getLocalHost ty d (n_px s)) as [[h x]|e] eqn:Eh; cycle 1.
  { unfold lift, mbind, M_bind. cbn. by rewrite Eh. }
  set (s1 := mkNode x (n_gc s) (activeNodeIndex s) (Some p)).
  rewrite (run_bind _ _ (put_packet (Some p) s) h s1) by (unfold lift; cbn; by rewrite Eh).
  rewrite (run_bind _ _ _ _ _ (p_data_run p s1 eq_refl)).
  change (n_px (put_packet None s)) with (n_px s). rewrite (run_bind _ _ _ _ _ Eh).
  destruct p as [|type rest]; [done|]. specialize (Hdata type eq_refl).
  rewrite (run_bind _ _ s1 type s1) by done. rewrite (run_bind _ _ x type x) by done.
  unfold carries_data in *. apply orb_false_iff in Hdata as [[Hd1 Hd2]%orb_false_iff Hd3].
  rewrite Hd1, Hd2, Hd3. cbn [orb]. destruct (type =? DISCONNECT)%Z.
  - unfold lift, mbind, M_bind. cbn. destruct (disconnect (n_gc s) h x) as [[[] y]|e]; done.
  - rewrite (run_bind _ _ _ _ _ (p_give_run _ s1 eq_refl)).
    unfold lift, mbind, M_bind. cbn. destruct (push_request (n_gc s) h type (type :: rest) x) as [[[] y]|e]; done.
Qed.

(** handleUserPublication with a FID. *)
Lemma user_publication_run ID h0 APItype data ap IDs s :
  px_inv (pst (n_px s)) → n_packet s = Some data →
  publication_for (pst (n_px s)) ID = Some (ap, IDs) →
  zero (FID_to_subscribers ap) = false → wire_ids IDs →
  ∃ subs, lists subs (λ h, hears (pst (n_px s)) IDs h ∧ h ≠ h0) (λ _ id, id = ID) ∧
    handleUserPublication_typed ID PUBLISH_DATA h0 APItype s
    = Ok (tt, sends ([Freed; Output 2 None (Some <$> fid_bytes (FID_to_subscribers ap)
                        ++ net_body IDs PUBLISH_DATA data)]
                     ++ (delivery (pst (n_px s)) APItype data <$> subs)) (put_packet None s)).
Proof.
  intros Hinv Hp Hpub Hz Hw. set (P := pst (n_px s)) in *.
  assert (fid_ok (FID_to_subscribers ap)) as HF.
  { destruct (publication_known _ _ _ _ Hpub) as [key Hkey].
    destruct (pi_pub_entry _ Hinv _ _ Hkey) as (_ & _ & _ & [?|?] & _); [congruence|done]. }
  pose proof (others_lists P IDs ID h0) as Hl. exists (in_order ((λ _, ID) <$> other_subscribers IDs h0 P)).
  split; [done|]. unfold handleUserPublication_typed, publish_with.
  rewrite (run_bind _ _ _ _ _ (px_state_run s)). fold P. rewrite Hpub. unfold is_NULL. rewrite Hz.
  set (subs := in_order _) in *. case_decide as Hsubs.
  - rewrite Hsubs. rewrite (run_bind _ _ _ _ _ (p_give_run _ _ Hp)).
    by rewrite pushDataToRemoteSubscribers_typed_run.
  - rewrite (run_bind _ _ _ _ _ (p_data_run _ _ Hp)).
    rewrite (run_bind _ _ _ _ _ (pushDataToRemoteSubscribers_typed_run IDs _ data s Hw HF)).
    erewrite (deliver_others subs _ P IDs ID h0); try done. f_equal. f_equal.
    unfold sends, put_packet, put_px. cbn. by rewrite <-app_assoc.
Qed.

(** What an application sends to publish data *)
Definition data_packet (ID : bytes) (strategy : Z) (data : bytes) : bytes :=
  [PUBLISH_DATA; Z.of_nat (level ID)] ++ ID ++ [strategy] ++ data.

(** Strategies that leave the choice of the FID to the proxy. *)
Definition by_rendezvous (strategy : Z) : bool :=
  negb ((strategy =? IMPLICIT_RENDEZVOUS) || (strategy =? LINK_LOCAL) || (strategy =? BROADCAST_IF))%Z.

Lemma push_data_run in_port anno ID strategy data h s :
  (in_port =? 2)%Z = false → (in_port =? 3)%Z = false →
  local_pub_sub_Index (pst (n_px s)) !! (sender in_port anno).2 = Some h →
  wire_id ID → by_rendezvous strategy = true →
  push in_port anno (data_packet ID strategy data) s
  = handleUserPublication_typed ID PUBLISH_DATA h PUBLISHED_DATA (put_packet (Some data) s).
Proof.
  intros H2 H3 Hi (k & Hk & _) Hst. unfold push. set (p := data_packet ID strategy data).
  assert (level ID = k) as Hl by (unfold level; rewrite Hk; by apply Nat.div_mul).
  rewrite (run_bind _ _ s tt (put_packet (Some p) s)) by done. set (s1 := put_packet (Some p) s).
  rewrite (run_bind _ _ _ _ _ (get_gc_run s1)), H2, H3. destruct (sender in_port anno) as [ty d].
  rewrite (run_bind _ _ s1 h s1); cycle 1.
  { erewrite lift_run; [|by apply getLocalHost_known]. done. }
  rewrite (run_bind _ _ _ _ _ (p_data_run p s1 eq_refl)).
  rewrite (run_bind _ _ s1 PUBLISH_DATA s1) by done. cbn [Z.eqb PUBLISH_DATA DISCONNECT Pos.eqb].
  unfold push_data. rewrite (run_bind _ _ _ _ _ (p_data_run p s1 eq_refl)).
  rewrite (run_bind _ _ _ _ _ (get_gc_run s1)).
  rewrite (run_bind _ _ s1 (Z.of_nat (level ID)) s1) by done.
  rewrite (run_bind _ _ s1 ID s1); cycle 1.
  { apply (read_bytes_at s1 [PUBLISH_DATA; Z.of_nat (level ID)] ID ([strategy] ++ data)); [done|].
    rewrite Nat2Z.id, Hl. done. }
  rewrite (run_bind _ _ s1 strategy s1); cycle 1.
  { apply (read_byte_at s1 ([PUBLISH_DATA; Z.of_nat (level ID)] ++ ID) data). by rewrite length_app. }
  apply negb_true_iff, orb_false_iff in Hst as [[-> ->]%orb_false_iff ->].
  rewrite (run_bind _ _ _ _ _ (p_pull_run _ p s1 eq_refl)).
  replace (drop _ p) with data; [done|]. symmetry.
  change p with ([PUBLISH_DATA; Z.of_nat (level ID)] ++ ID ++ [strategy] ++ data).
  rewrite !app_assoc. apply drop_app_length'. rewrite !length_app. cbn. lia.
Qed.

(** C6. Data that a local entity publishes go exactly to those who
    subscribed: with a FID that was assigned to the item (or, for a fragment,
    to its father), one packet with this FID and all names of the item leaves
    for the network, and every other subscriber in the node gets one packet
    with the name and the unchanged data; the publisher itself gets none, and
    no copy of the packet is left over. *)
Theorem publication_delivered (in_port anno : Z) (ID : bytes) (strategy : Z) (data : bytes)
    (h0 : positive) (ap : ActivePublication) (IDs : list bytes) (s : Node) :
  px_inv (pst (n_px s)) → (in_port =? 2)%Z = false → (in_port =? 3)%Z = false →
  local_pub_sub_Index (pst (n_px s)) !! (sender in_port anno).2 = Some h0 →
  wire_id ID → by_rendezvous strategy = true →
  publication_for (pst (n_px s)) ID = Some (ap, IDs) →
  zero (FID_to_subscribers ap) = false → wire_ids IDs →
  ∃ subs, lists subs (λ h, hears (pst (n_px s)) IDs h ∧ h ≠ h0) (λ _ id, id = ID) ∧
    push in_port anno (data_packet ID strategy data) s
    = Ok (tt, sends ([Freed; Output 2 None (Some <$> fid_bytes (FID_to_subscribers ap)
                        ++ net_body IDs PUBLISH_DATA data)]
                     ++ (delivery (pst (n_px s)) PUBLISHED_DATA data <$> subs)) (put_packet None s)).
Proof.
  intros Hinv H2 H3 Hi HID Hst Hpub Hz Hw. rewrite (push_data_run _ _ _ _ _ h0) by done.
  by apply (user_publication_run ID h0 PUBLISHED_DATA data ap IDs (put_packet (Some data) s)).
Qed.

Lemma data_crosses (in_port anno anno' : Z) (ID : bytes) (strategy : Z) (data : bytes)
    (h0 : positive) (ap : ActivePublication) (IDs : list bytes) (a b : Node) :
  px_inv (pst (n_px a)) → (in_port =? 2)%Z = false → (in_port =? 3)%Z = false →
  local_pub_sub_Index (pst (n_px a)) !! (sender in_port anno).2 = Some h0 →
  wire_id ID → by_rendezvous strategy = true →
  publication_for (pst (n_px a)) ID = Some (ap, IDs) →
  zero (FID_to_subscribers ap) = false → wire_ids IDs →
  px_inv (pst (n_px b)) → IDs ≠ [notificationIID (n_gc b)] → IDs ≠ [pathMgmtIID (n_gc b)] →
  ∃ a' sent body subs,
    push in_port anno (data_packet ID strategy data) a = Ok (tt, a') ∧
    pout (n_px a') = pout (n_px a) ++ sent ∧
    Output 2 None (Some <$> fid_bytes (FID_to_subscribers ap) ++ body) ∈ sent ∧
    lists subs (hears (pst (n_px b)) IDs)
      (λ h id, id ∈ IDs ∧ (subscribes (pst (n_px b)) h id ∨ subscribes (pst (n_px b)) h (prefix id))) ∧
    push 2 anno' body b
      = Ok (tt, sends (deliveries (pst (n_px b)) PUBLISHED_DATA data subs) (put_packet None b)).
Proof.
  intros Hinv H2 H3 Hi HID Hst Hpub Hz Hw Hb Hnot Hpm.
  destruct (user_publication_run ID h0 PUBLISHED_DATA data ap IDs (put_packet (Some data) a))
    as (subsa & _ & Ha); [done..|].
  destruct (handleNetworkPublication_run IDs PUBLISHED_DATA data (put_packet (Some data) b) Hb eq_refl)
    as (subs & Hl & Hrun).
  eexists _, _, (net_body IDs PUBLISH_DATA data), subs. split_and!.
  - rewrite (push_data_run _ _ _ _ _ h0) by done. exact Ha.
  - done.
  - right. left.
  - done.
  - rewrite push_network_run by done. exact Hrun.
Qed.

(** C7. What one node publishes, the subscribers at another node receive: the
    packet that leaves for the network carries the FID of the publication and
    a body, and at a node that gets this body every subscriber to one of the
    names, or to the scope above it, receives exactly one packet with such a
    name and the data as they were published. *)
Theorem published_data_arrives (in_port anno anno' : Z) (ID : bytes) (strategy : Z) (data : bytes)
    (h0 : positive) (ap : ActivePublication) (IDs : list bytes) (a b : Node) :
  px_inv (pst (n_px a)) → (in_port =? 2)%Z = false → (in_port =? 3)%Z = false →
  local_pub_sub_Index (pst (n_px a)) !! (sender in_port anno).2 = Some h0 →
  wire_id ID → by_rendezvous strategy = true →
  publication_for (pst (n_px a)) ID = Some (ap, IDs) →
  zero (FID_to_subscribers ap) = false → wire_ids IDs →
  px_inv (pst (n_px b)) → IDs ≠ [notificationIID (n_gc b)] → IDs ≠ [pathMgmtIID (n_gc b)] →
  ∃ a' sent body subs,
    push in_port anno (data_packet ID strategy data) a = Ok (tt, a') ∧
    pout (n_px a') = pout (n_px a) ++ sent ∧
    Output 2 None (Some <$> fid_bytes (FID_to_subscribers ap) ++ body) ∈ sent ∧
    lists subs (hears (pst (n_px b)) IDs)
      (λ h id, id ∈ IDs ∧ (subscribes (pst (n_px b)) h id ∨ subscribes (pst (n_px b)) h (prefix id))) ∧
    push 2 anno' body b
      = Ok (tt, sends (deliveries (pst (n_px b)) PUBLISHED_DATA data subs) (put_packet None b)).
Proof. apply data_crosses. Qed.

(** ** Requests to a remote rendezvous point *)

Lemma prefix_app (x y : bytes) : length y = PURSUIT_ID_LEN → prefix (x ++ y) = x.
Proof. intros Hy. unfold prefix. rewrite length_app, Hy, Nat.add_sub. by apply take_app_length. Qed.

(** A request crosses the network unchanged.  When the rendezvous point is
    in another node, the proxy sends the request as a packet with the FID to
    that node; the proxy there gives it to everybody who subscribed to the
    scope of rendezvous requests, and the rendezvous element, which is one of
    them, reads the same request in the name of the node that sent it. *)
Theorem remote_request_heard (type : Z) (ID prefixID : bytes) (strategy : Z) (RVFID : BABitvector)
    (gcA gcB : GlobalConf) (k m : nat) (anno : Z) (x : px) (h : positive) (l : LocalHost) (b : Node) :
  gc_ok gcA → route_ok RVFID → rv_is_local gcA RVFID = false → frags k ID → frags m prefixID →
  (type =? PUBLISH_DATA)%Z = false → (type =? PUBLISH_DATA_iSUB)%Z = false →
  px_inv (pst (n_px b)) → subscribes (pst (n_px b)) h (RVScope gcA) →
  localhosts (pst (n_px b)) !! h = Some l → lh_type l = CLICK_ELEMENT → lh_id l = 1%Z →
  let request := local_request type ID prefixID strategy in
  ∃ body subs q,
    publishReqToRV gcA request RVFID x
      = Ok (tt, mkPx (pst x) (pout x ++ [Output 2 None (Some <$> fid_bytes RVFID ++ body)])) ∧
    lists subs (hears (pst (n_px b)) [nodeRVScope gcA]) (λ _ id, id = nodeRVScope gcA) ∧
    push 2 anno body b
      = Ok (tt, sends (deliveries (pst (n_px b)) PUBLISHED_DATA request subs) (put_packet None b)) ∧
    Output 1 None (Some <$> q) ∈ deliveries (pst (n_px b)) PUBLISHED_DATA request subs ∧
    ∀ r : rv, LocalRV.push gcB 0 q r
      = (code ← handle_request gcB (mkRequest (nodeID gcA) type ID prefixID strategy);
         _ ← push_event Killed; mret (Some code)) r.
Proof.
  intros Hgc Hfid Hrem HID Hpre Ht1 Ht2 Hinv Hsub Hl Hty Hid request. set (name := nodeRVScope gcA).
  pose proof (length_nodeRVScope gcA Hgc) as Hn. fold name in Hn.
  assert (name = RVScope gcA ++ nodeID gcA) as Hname by apply (go_noderv _ Hgc).
  assert (wire_ids [name]) as Hw.
  { split; [cbn; lia|]. apply Forall_singleton. exists 2. split; [done|lia]. }
  destruct (handleNetworkPublication_run [name] PUBLISHED_DATA request (put_packet (Some request) b) Hinv eq_refl)
    as (subs & Hsubs & Hrun).
  assert (lists subs (hears (pst (n_px b)) [name]) (λ _ id, id = name)) as Hls.
  { destruct Hsubs as (H1 & H2 & H3). split_and!; [done|done|]. intros h' id' Hin.
    destruct (H3 _ _ Hin) as [Hx _]. by apply list_elem_of_singleton in Hx. }
  assert (h ∈ subs.*1) as Hh.
  { apply Hls. exists name. split; [by left|]. right. by rewrite Hname, prefix_app by apply Hgc. }
  exists (ids_header [name] ++ request), subs, ([PUBLISHED_DATA; 2%Z] ++ name ++ request). split_and!.
  - rewrite publishReqToRV_run by done. unfold forwarded. rewrite Hrem. fold name. unfold ids_header.
    cbn. unfold level. rewrite Hn. change (Z.of_nat (2 * PURSUIT_ID_LEN / PURSUIT_ID_LEN)) with 2%Z.
    by rewrite app_nil_r.
  - done.
  - rewrite (push_network_plain _ _ type) by done. exact Hrun.
  - apply list_elem_of_fmap in Hh as ([h' id'] & Heq & Hin). cbn in Heq. subst h'.
    assert (id' = name) as -> by (by eapply Hls).
    unfold deliveries. destruct subs; [by apply elem_of_nil in Hin|]. apply list_elem_of_fmap.
    exists (h, name). split; [|done]. unfold delivery, host_event, local_data. cbn [fst snd].
    rewrite Hl, Hty, Hid. unfold fragments. rewrite Hn. done.
  - intros r. rewrite Hname. eapply push_request_packet; [apply Hgc|apply Hgc|done|done].
Qed.
End delivery.

(** ** Instances *)

Definition item_publication : ActivePublication :=
  default (new_ActivePublication 0 no_FID false)
    (activePublicationIndex (pst (n_px started_node)) !! item_67).

Lemma wire_id_67 : wire_id item_67.
Proof. exists 3. split; [reflexivity|lia]. Qed.

Lemma wire_ids_67 : wire_ids [item_67].
Proof. split; [cbn; lia|]. apply Forall_singleton, wire_id_67. Qed.

(** The first application publishes, the second one subscribed to the scope. *)
Lemma publication_delivered_witness :
  ∃ subs, lists subs (λ h, hears (pst (n_px started_node)) [item_67] h ∧ h ≠ 1%positive)
      (λ _ id, id = item_67) ∧
    push (HO := canonical_order true) 0 1001 (data_packet item_67 DOMAIN_LOCAL [1; 2; 3]%Z) started_node
    = Ok (tt, sends ([Freed; Output 2 None (Some <$> fid_bytes (FID_to_subscribers item_publication)
                        ++ net_body [item_67] PUBLISH_DATA [1; 2; 3]%Z)]
        ++ (delivery (pst (n_px started_node)) PUBLISHED_DATA [1; 2; 3]%Z <$> subs))
        (put_packet None started_node)).
Proof.
  apply (publication_delivered (HO := canonical_order true) 0 1001 item_67 DOMAIN_LOCAL [1; 2; 3]%Z
    1 item_publication [item_67] started_node).
  - apply started_node_inv.
  - reflexivity.
  - reflexivity.
  - vm_compute. reflexivity.
  - apply wire_id_67.
  - reflexivity.
  - vm_compute. reflexivity.
  - vm_compute. reflexivity.
  - apply wire_ids_67.
Defined.

Lemma published_data_arrives_witness :
  ∃ a' sent body subs,
    push (HO := canonical_order true) 0 1001 (data_packet item_67 DOMAIN_LOCAL [1; 2; 3]%Z) started_node
      = Ok (tt, a') ∧
    pout (n_px a') = pout (n_px started_node) ++ sent ∧
    Output 2 None (Some <$> fid_bytes (FID_to_subscribers item_publication) ++ body) ∈ sent ∧
    lists subs (hears (pst (n_px started_node)) [item_67]) (λ h id, id ∈ [item_67] ∧
      (subscribes (pst (n_px started_node)) h id ∨ subscribes (pst (n_px started_node)) h (prefix id))) ∧
    push (HO := canonical_order true) 2 0 body started_node
      = Ok (tt, sends (deliveries (pst (n_px started_node)) PUBLISHED_DATA [1; 2; 3]%Z subs)
                  (put_packet None started_node)).
Proof.
  apply (published_data_arrives (HO := canonical_order true) 0 1001 0 item_67 DOMAIN_LOCAL [1; 2; 3]%Z
    1 item_publication [item_67] started_node started_node).
  - apply started_node_inv.
  - reflexivity.
  - reflexivity.
  - vm_compute. reflexivity.
  - apply wire_id_67.
  - reflexivity.
  - vm_compute. reflexivity.
  - vm_compute. reflexivity.
  - apply wire_ids_67.
  - apply started_node_inv.
  - vm_compute. discriminate.
  - vm_compute. discriminate.
Defined.

(** A node that is only a forwarder *)
Definition forwarder_gc : GlobalConf :=
  default no_gc (configure (false, false, false) [70; 87]%Z [109; 97; 99]%Z
    sample_node2 (example_lid 3) (example_lid 4) (example_lid 5)).

Lemma forwarder_gc_ok : gc_ok forwarder_gc.
Proof.
  apply gc_wf_ok.
  constructor; try (vm_compute; reflexivity); try (apply bv_wfb_sound; vm_compute; reflexivity).
  right. vm_compute. reflexivity.
Qed.

Definition local_rv_host : LocalHost :=
  default (mkLH LOCAL_PROCESS 0 ∅ ∅) (localhosts (pst (n_px local_node)) !! 1%positive).

Lemma remote_request_heard_witness :
  let request := local_request PUBLISH_SCOPE (frag 65) [] DOMAIN_LOCAL in
  ∃ body subs q,
    publishReqToRV forwarder_gc request (defaultRV_dl forwarder_gc) (mkPx empty_proxy [])
      = Ok (tt, mkPx empty_proxy ([] ++ [Output 2 None (Some <$> fid_bytes (defaultRV_dl forwarder_gc) ++ body)])) ∧
    lists subs (hears (pst (n_px local_node)) [nodeRVScope forwarder_gc]) (λ _ id, id = nodeRVScope forwarder_gc) ∧
    push (HO := canonical_order true) 2 0 body local_node
      = Ok (tt, sends (deliveries (pst (n_px local_node)) PUBLISHED_DATA request subs)
                  (put_packet None local_node)) ∧
    Output 1 None (Some <$> q) ∈ deliveries (pst (n_px local_node)) PUBLISHED_DATA request subs ∧
    ∀ r : rv, LocalRV.push (HO := canonical_order true) sample_gc 0 q r
      = (code ← handle_request (HO := canonical_order true) sample_gc
                  (mkRequest (nodeID forwarder_gc) PUBLISH_SCOPE (frag 65) [] DOMAIN_LOCAL);
         _ ← push_event Killed; mret (Some code)) r.
Proof.
  apply (remote_request_heard (HO := canonical_order true) PUBLISH_SCOPE (frag 65) [] DOMAIN_LOCAL
    (defaultRV_dl forwarder_gc) forwarder_gc sample_gc 1 0 0 (mkPx empty_proxy []) 1 local_rv_host local_node).
  - apply forwarder_gc_ok.
  - apply (go_route _ forwarder_gc_ok).
  - vm_compute. reflexivity.
  - apply frags_one.
  - split; [reflexivity|lia].
  - reflexivity.
  - reflexivity.
  - apply local_node_inv.
  - apply (bool_decide_unpack _). vm_compute. exact I.
  - vm_compute. reflexivity.
  - vm_compute. reflexivity.
  - vm_compute. reflexivity.
Defined.
