(* ===== verification/ProxyNotify.v ===== *)
(** * Notifications

    What LocalProxy makes of the notifications that steer publishers: START
    and STOP of the rendezvous point, as LocalRV sends them, and the failed
    links of the topology manager. *)
From stdpp Require Import base list gmap sets.
From Stdlib Require Import ZArith Lia.
From S2P Require Import Prelude Enums Bitvector GlobalConf InfoGraph LocalRV RVSafety RVRequests RVProps RVRendezvous LocalProxy ProxyInv ProxyLeave ProxyProps ProxyData ProxyNet ProxySafety.

(** ** FIDs on the wire *)

Lemma word_bytes w : word_ok w →
  (u8 w + 256 * u8 (Z.shiftr w 8) + 65536 * u8 (Z.shiftr w 16) + 16777216 * u8 (Z.shiftr w 24))%Z = w.
Proof.
  unfold word_ok, u8. intros Hw. rewrite !Z.shiftr_div_pow2 by lia.
  change (2 ^ 8)%Z with 256%Z. change (2 ^ 16)%Z with 65536%Z. change (2 ^ 24)%Z with 16777216%Z.
  Z.to_euclidean_division_equations; lia.
Qed.

Lemma words_bytes ws : Forall word_ok ws → words_of_bytes (bytes_of_words ws) = ws.
Proof.
  induction 1 as [|w ws Hw _ IH]; [done|]. unfold bytes_of_words in *. cbn [fmap list_fmap concat].
  unfold bytes_of_word at 1. cbn [app words_of_bytes]. by rewrite IH, word_bytes.
Qed.

Lemma take_bytes_of_words n ws : take (4 * n) (bytes_of_words ws) = bytes_of_words (take n ws).
Proof.
  revert ws. induction n as [|n IH]; intros ws; [done|]. destruct ws as [|w ws]; [done|].
  replace (4 * S n) with (S (S (S (S (4 * n))))) by lia. unfold bytes_of_words in *. cbn. by rewrite <-IH.
Qed.

(** A FID arrives with the bits it was sent with. *)
Definition on_wire (v : BABitvector) : BABitvector := fid_of_bytes (fid_bytes v).

Lemma on_wire_data v : fid_ok v → on_wire v = mkBV 255 (take 8 (bv_data v)).
Proof.
  intros [Hv _]. unfold on_wire, fid_of_bytes, fid_bytes. change FID_LEN with (4 * 8).
  rewrite take_bytes_of_words, words_bytes; [done|]. apply Forall_take. apply Hv.
Qed.

Lemma bytes_of_words_bytes ws : Forall is_byte (bytes_of_words ws).
Proof.
  unfold bytes_of_words. induction ws as [|w ws IH]; cbn; [done|].
  repeat (apply Forall_cons; split; [apply is_byte_u8|]). done.
Qed.

Lemma on_wire_ok v : fid_ok v → fid_ok (on_wire v).
Proof.
  intros Hv. apply fid_of_bytes_ok; [by apply length_fid_bytes|]. unfold fid_bytes.
  apply Forall_take, bytes_of_words_bytes.
Qed.

Lemma on_wire_bits v i : fid_ok v → (0 ≤ i ≤ 255)%Z → bv_bit (on_wire v) i = bv_bit v i.
Proof. intros Hv Hi. rewrite on_wire_data by done. unfold bv_bit. cbn [bv_data]. by rewrite wbit_take by lia. Qed.

Lemma zero_on_wire v : fid_ok v → zero (on_wire v) = zero v.
Proof.
  intros Hv. apply eq_true_iff_eq. destruct (on_wire_ok v Hv) as [Hw Hm]. destruct Hv as [Hv Hm'].
  rewrite !zero_spec by done. rewrite Hm, Hm'. change (fid_bits - 1)%Z with 255%Z.
  split; intros Hz i Hi; specialize (Hz i Hi); by rewrite on_wire_bits in *.
Qed.

(** ** The notification *)

Definition note (type : Z) (IDs : list bytes) (tail : bytes) : bytes :=
  [type] ++ ids_header IDs ++ tail.

Section notify.
Context `{HO : HashOrder}.

(** How a notification is read *)
Lemma note_run type IDs tail s : n_packet s = Some (note type IDs tail) →
  (type =? UPDATE_FID_iSUB)%Z = false → Forall wire_id IDs →
  handleRVNotification s =
    (let off := 2 + length (concat ((λ id, Z.of_nat (level id) :: id) <$> IDs)) in
     let p := note type IDs tail in
     if ((type =? SCOPE_PUBLISHED) || (type =? SCOPE_UNPUBLISHED))%Z then on_scope type IDs
     else if (type =? START_PUBLISH)%Z then FID ← read_FID p off; on_start IDs FID
     else if (type =? UPDATE_FID)%Z then FID ← read_FID p off; on_update IDs FID
     else if (type =? UPDATE_RVFID)%Z then FID ← read_FID p 1; set_gc (with_defaultRV FID)
     else if (type =? UPDATE_TMFID)%Z then FID ← read_FID p 1; set_gc (with_TMFID FID)
     else if (type =? STOP_PUBLISH)%Z then on_stop IDs
     else mret tt) s.
Proof.
  intros Hp Ht Hw. unfold handleRVNotification. rewrite (run_bind _ _ _ _ _ (p_data_run _ _ Hp)).
  rewrite (run_bind _ _ s type s) by done. rewrite Ht.
  rewrite (run_bind _ _ s (Z.of_nat (length IDs)) s) by done. rewrite Nat2Z.id.
  set (ids := concat _). assert (note type IDs tail = [type; Z.of_nat (length IDs)] ++ ids ++ tail) as Hn
    by (unfold note, ids_header; by rewrite <-app_assoc).
  rewrite (run_bind _ _ s (IDs, 2 + length ids) s) by (rewrite Hn; by apply read_IDs_run).
  done.
Qed.

Lemma read_FID_run (pre post : bytes) v off s : off = length pre → fid_ok v →
  read_FID (pre ++ fid_bytes v ++ post) off s = Ok (on_wire v, s).
Proof.
  intros Ho Hv. unfold read_FID. erewrite run_bind; [done|]. apply read_bytes_at; [done|].
  by rewrite length_fid_bytes.
Qed.

(** ** Loops over publications *)

Notation index s := (activePublicationIndex (pst (n_px s))).

Definition set_index (m : gmap bytes ActivePublication) (s : Node) : Node :=
  put_px (mkPx (set_pubs (λ _, m) (pst (n_px s))) (pout (n_px s))) s.

(** The entries of [l] changed with [f], the others as they are *)
Definition on_ids (l : list bytes) (f : bytes → ActivePublication → ActivePublication)
    (m : gmap bytes ActivePublication) : gmap bytes ActivePublication :=
  map_imap (λ id ap, Some (if decide (id ∈ l) then f id ap else ap)) m.

Lemma lookup_on_ids l f m id :
  on_ids l f m !! id = (if decide (id ∈ l) then f id <$> m !! id else m !! id).
Proof. unfold on_ids. rewrite map_lookup_imap. destruct (m !! id); cbn; by case_decide. Qed.

Lemma on_ids_nil f m : on_ids [] f m = m.
Proof. apply map_eq. intros id. by rewrite lookup_on_ids, decide_False by apply not_elem_of_nil. Qed.

Lemma on_ids_cons id l f m : id ∉ l → on_ids l f (alter (f id) id m) = on_ids (id :: l) f m.
Proof.
  intros Hid. apply map_eq. intros x. rewrite !lookup_on_ids. destruct (decide (x = id)) as [->|Hx].
  - rewrite decide_False, decide_True by (done || left). by rewrite lookup_alter_eq.
  - rewrite lookup_alter_ne by done. destruct (decide (x ∈ l)).
    + by rewrite decide_True by (by right).
    + by rewrite decide_False by (rewrite elem_of_cons; naive_solver).
Qed.

Lemma on_ids_twice l f g m : on_ids l g (on_ids l f m) = on_ids l (λ id ap, g id (f id ap)) m.
Proof.
  apply map_eq. intros id. rewrite !lookup_on_ids. case_decide; [|done].
  by destruct (m !! id).
Qed.

Lemma set_index_same s : set_index (index s) s = s.
Proof. by destruct s as [[[] ?] ? ? ?]. Qed.

Lemma for_pubs_run (l : list bytes) (body : bytes → M Node unit)
    (f : bytes → ActivePublication → ActivePublication) (out : bytes → list px_event) (s : Node) :
  NoDup l →
  (∀ id m es, id ∈ l → m !! id = index s !! id →
     body id (sends es (set_index m s))
     = Ok (tt, sends (es ++ out id) (set_index (alter (f id) id m) s))) →
  for_each l body s = Ok (tt, sends (concat (out <$> l)) (set_index (on_ids l f (index s)) s)).
Proof.
  intros Hnd Hb.
  assert (∀ m es, (∀ id, id ∈ l → m !! id = index s !! id) →
    for_each l body (sends es (set_index m s))
    = Ok (tt, sends (es ++ concat (out <$> l)) (set_index (on_ids l f m) s))) as Hgen.
  { induction Hnd as [|id l Hid Hnd IH]; intros m es Hm.
    { cbn. by rewrite on_ids_nil, app_nil_r. }
    cbn [for_each]. rewrite (run_bind _ _ _ _ _ (Hb id m es ltac:(left) (Hm id ltac:(left)))).
    rewrite IH.
    - cbn [fmap list_fmap concat]. rewrite app_assoc. do 3 f_equal. by rewrite on_ids_cons.
    - intros x m' es' Hx. apply Hb. by right.
    - intros x Hx. rewrite lookup_alter_ne by (by intros ->). apply Hm. by right. }
  specialize (Hgen (index s) []). rewrite set_index_same, sends_nil in Hgen. by apply Hgen.
Qed.

Lemma mod_ap_run id f m es s :
  mod_ap id f (sends es (set_index m s)) = Ok (tt, sends es (set_index (alter f id m) s)).
Proof. done. Qed.

Lemma assign_FID_run IDs FID s : NoDup IDs →
  assign_FID IDs FID s = Ok (tt, set_index (on_ids IDs (λ _, with_FID IDs FID) (index s)) s).
Proof.
  intros Hnd. unfold assign_FID. rewrite (for_pubs_run _ _ (λ _, with_FID IDs FID) (λ _, [])) by
    (done || intros; by rewrite mod_ap_run, app_nil_r).
  replace (concat ((λ _, []) <$> IDs)) with (@nil px_event); [by rewrite sends_nil|].
  clear. by induction IDs.
Qed.

(** ** START_PUBLISH *)

Lemma wire_take id : wire_id id → take (Z.to_nat (fragments id) * PURSUIT_ID_LEN) id = id.
Proof.
  intros (k & Hk & Hlt). unfold fragments, u8. rewrite Hk, Nat.div_mul by done.
  rewrite Z.mod_small, Nat2Z.id, take_ge by lia. done.
Qed.

Lemma send_run type h id s : wire_id id → is_Some (localhosts (pst (n_px s)) !! h) →
  lift (sendNotificationLocally type h id) s = Ok (tt, sends [delivery (pst (n_px s)) type [] (h, id)] s).
Proof.
  intros Hid [l Hl]. unfold sendNotificationLocally. rewrite wire_take by done.
  pose proof (memcpys_exact [[type]; [fragments id]; id]) as Hm. cbn [concat app length] in Hm.
  rewrite app_nil_r in Hm. cbn [Nat.add]. rewrite Hm.
  erewrite lift_run; [|by apply (push_to_host_run h l (type :: fragments id :: id))].
  unfold delivery, local_data. cbn [fst snd]. by rewrite Hl, app_nil_r.
Qed.

(** The first publisher is told to start. *)
Definition mark_first (m : gmap positive Z) : gmap positive Z :=
  match head (ptr_order (dom m)) with Some h => <[h := START_PUBLISH]> m | None => m end.

Definition started (IDs : list bytes) (FID : BABitvector) (ap : ActivePublication) : ActivePublication :=
  with_publishers mark_first (with_FID IDs FID ap).

Definition start_notices (s : Proxy) (id : bytes) : list px_event :=
  match first_publisher s id with
  | Some (h, _) => [delivery s START_PUBLISH [] (h, id)]
  | None => []
  end.

Lemma first_publisher_some s id ap : px_inv s → activePublicationIndex s !! id = Some ap →
  ∃ h v, first_publisher s id = Some (h, v) ∧ head (ptr_order (dom (publishers ap))) = Some h ∧
    is_Some (localhosts s !! h).
Proof.
  intros Hinv Hap. destruct (pi_pub_entry _ Hinv _ _ Hap) as [Hne _].
  destruct (head_ptr_order (dom (publishers ap))) as [h Hh]; [by rewrite dom_empty_iff_L|].
  assert (is_Some (publishers ap !! h)) as [v Hv].
  { apply elem_of_dom, elem_of_ptr_order. destruct (ptr_order _); [done|]. simplify_eq/=. left. }
  exists h, v. split; [|split; [done|]].
  - unfold first_publisher. rewrite Hap. cbn. rewrite Hh. cbn. by rewrite Hv.
  - eapply (pi_pub_alive _ Hinv h id). exists ap. by rewrite Hv.
Qed.

Lemma on_start_run IDs FID s : px_inv (pst (n_px s)) → NoDup IDs → Forall wire_id IDs →
  on_start IDs FID s = Ok (tt, sends (concat (start_notices (pst (n_px s)) <$> IDs))
    (set_index (on_ids IDs (λ _, started IDs FID) (index s)) s)).
Proof.
  intros Hinv Hnd Hw. unfold on_start. rewrite (run_bind _ _ _ _ _ (assign_FID_run _ FID s Hnd)).
  set (s1 := set_index _ s).
  rewrite (for_pubs_run _ _ (λ _, with_publishers mark_first) (start_notices (pst (n_px s)))); [|done|].
  - change (index s1) with (on_ids IDs (λ _, with_FID IDs FID) (index s)). by rewrite on_ids_twice.
  - intros id m es Hid Hm. change (index s1) with (on_ids IDs (λ _, with_FID IDs FID) (index s)) in Hm.
    rewrite lookup_on_ids, decide_True in Hm by done. cbn beta in Hm.
    rewrite (run_bind _ _ _ _ _ (px_state_run _)).
    set (s2 := sends es (set_index m s1)).
    assert (first_publisher (pst (n_px s2)) id = first_publisher (pst (n_px s)) id) as ->.
    { unfold first_publisher, s2. cbn. rewrite Hm. by destruct (index s !! id). }
    unfold start_notices. destruct (index s !! id) as [ap|] eqn:Eap.
    + destruct (first_publisher_some _ _ _ Hinv Eap) as (h & v & -> & Hh & Hal).
      unfold set_state, s2. rewrite (run_bind _ _ _ _ _ (mod_ap_run _ _ _ _ _)).
      rewrite send_run by (done || by eapply Forall_forall).
      rewrite sends_sends. do 4 f_equal. apply alter_ext. intros ap'. rewrite Hm. intros [= <-].
      unfold with_publishers, mark_first. cbn. by rewrite Hh.
    + unfold first_publisher. rewrite Eap, app_nil_r.
      rewrite alter_id by (intros ap'; by rewrite Hm). done.
Qed.

(** ** STOP_PUBLISH *)

Definition stopped (IDs : list bytes) (ap : ActivePublication) : ActivePublication :=
  with_publishers (restate (λ v, v =? START_PUBLISH)%Z STOP_PUBLISH) (with_FID IDs zero_FID ap).

(** The publishers that had been told to start *)
Definition active_publishers (ap : ActivePublication) : list positive :=
  filter (λ h, publishers ap !! h = Some START_PUBLISH) (ptr_order (dom (publishers ap))).

Definition stop_notices (s : Proxy) (id : bytes) : list px_event :=
  match activePublicationIndex s !! id with
  | Some ap => (λ h, delivery s STOP_PUBLISH [] (h, id)) <$> active_publishers ap
  | None => []
  end.

(** The publishers in [hs] that had been told to start are told to stop. *)
Definition stop_some (hs : list positive) (X : gmap positive Z) : gmap positive Z :=
  map_imap (λ h v, Some (if decide (h ∈ hs ∧ v = START_PUBLISH) then STOP_PUBLISH else v)) X.

Lemma lookup_stop_some hs X h : stop_some hs X !! h =
  (λ v, if decide (h ∈ hs ∧ v = START_PUBLISH) then STOP_PUBLISH else v) <$> X !! h.
Proof. unfold stop_some. rewrite map_lookup_imap. by destruct (X !! h). Qed.

Lemma stop_some_cons h hs X : h ∉ hs → stop_some (h :: hs) X =
  if decide (X !! h = Some START_PUBLISH) then stop_some hs (<[h := STOP_PUBLISH]> X) else stop_some hs X.
Proof.
  intros Hh. apply map_eq. intros x. destruct (decide (X !! h = Some START_PUBLISH)) as [E|E];
    rewrite !lookup_stop_some; destruct (decide (x = h)) as [->|Hx].
  - rewrite E, lookup_insert_eq. cbn. rewrite decide_True by (split; [left|done]).
    by rewrite decide_False by naive_solver.
  - rewrite lookup_insert_ne by done. destruct (X !! x) as [v|]; [|done]. cbn. f_equal.
    apply decide_ext. rewrite elem_of_cons. naive_solver.
  - destruct (X !! h) as [v|]; [|done]. cbn. by rewrite !decide_False by naive_solver.
  - destruct (X !! x) as [v|]; [|done]. cbn. f_equal. apply decide_ext. rewrite elem_of_cons. naive_solver.
Qed.

Lemma stop_some_all hs X : (∀ h, h ∈ hs ↔ h ∈ dom X) →
  stop_some hs X = restate (λ v, v =? START_PUBLISH)%Z STOP_PUBLISH X.
Proof.
  intros Hhs. apply map_eq. intros h. unfold restate. rewrite lookup_stop_some, lookup_fmap.
  destruct (X !! h) as [v|] eqn:E; [|done]. cbn. f_equal.
  assert (h ∈ hs) by (apply Hhs; by eapply elem_of_dom_2).
  destruct (Z.eqb_spec v START_PUBLISH); [by rewrite decide_True|by rewrite decide_False by naive_solver].
Qed.

Lemma stop_loop_run id (X : gmap positive Z) hs ap es m s : NoDup hs → wire_id id →
  m !! id = Some ap → (∀ h, h ∈ hs → publishers ap !! h = X !! h) →
  (∀ h, h ∈ hs → is_Some (localhosts (pst (n_px s)) !! h)) →
  for_each hs (λ h,
    if (state_of h X =? START_PUBLISH)%Z then
      _ ← set_state id h STOP_PUBLISH; lift (sendNotificationLocally STOP_PUBLISH h id)
    else mret tt) (sends es (set_index m s))
  = Ok (tt, sends (es ++ ((λ h, delivery (pst (n_px s)) STOP_PUBLISH [] (h, id)) <$>
                           filter (λ h, X !! h = Some START_PUBLISH) hs))
      (set_index (<[id := with_publishers (stop_some hs) ap]> m) s)).
Proof.
  intros Hnd Hid. revert ap es m. induction Hnd as [|h hs Hh Hnd IH]; intros ap es m Hap HX Hal.
  { cbn. rewrite app_nil_r, insert_id; [done|]. rewrite Hap. f_equal.
    destruct ap as [a X' b c d e]. unfold with_publishers. cbn. f_equal.
    apply map_eq. intros h. rewrite lookup_stop_some. destruct (X' !! h); [|done]. cbn.
    rewrite decide_False; [done|]. intros [H _]. by apply elem_of_nil in H. }
  assert (state_of h X = START_PUBLISH ↔ X !! h = Some START_PUBLISH) as Hst.
  { unfold state_of. destruct (X !! h) as [v|]; cbn; [naive_solver|]. split; done. }
  cbn [for_each filter list_filter]. destruct (Z.eqb_spec (state_of h X) START_PUBLISH) as [E|E].
  - apply Hst in E. rewrite decide_True by done.
    erewrite run_bind; [|unfold set_state; erewrite run_bind by apply mod_ap_run;
      rewrite send_run by (done || apply Hal; left); by rewrite sends_sends].
    assert (alter (with_publishers (insert h STOP_PUBLISH)) id m !! id =
      Some (with_publishers (insert h STOP_PUBLISH) ap)) as Hap' by (by rewrite lookup_alter_eq, Hap).
    rewrite (IH _ _ _ Hap'); cycle 1.
    { intros h' Hh'. cbn. rewrite lookup_insert_ne by (by intros ->). apply HX. by right. }
    { intros h' Hh'. apply Hal. by right. }
    cbn [fmap list_fmap]. rewrite <-app_assoc. do 4 f_equal. rewrite insert_alter_eq. f_equal.
    unfold with_publishers. cbn. f_equal. rewrite stop_some_cons, decide_True; [done| |done].
    by rewrite HX by left.
  - rewrite decide_False by tauto. rewrite (run_bind _ _ _ tt (sends es (set_index m s))) by done.
    rewrite (IH ap es m Hap); [|intros h' Hh'; apply HX; by right|intros h' Hh'; apply Hal; by right].
    do 4 f_equal. unfold with_publishers. cbn. f_equal. rewrite stop_some_cons, decide_False; [done| |done].
    rewrite HX by left. tauto.
Qed.

Lemma ptr_order_NoDup X : NoDup (ptr_order X).
Proof. rewrite ptr_order_perm. apply NoDup_elements. Qed.

Lemma on_stop_run IDs s : px_inv (pst (n_px s)) → NoDup IDs → Forall wire_id IDs →
  on_stop IDs s = Ok (tt, sends (concat (stop_notices (pst (n_px s)) <$> IDs))
    (set_index (on_ids IDs (λ _, stopped IDs) (index s)) s)).
Proof.
  intros Hinv Hnd Hw. apply for_pubs_run; [done|]. intros id m es Hid Hm.
  rewrite (run_bind _ _ _ _ _ (px_state_run _)). set (s2 := sends es (set_index m s)).
  change (index s2) with m. rewrite Hm. unfold stop_notices.
  destruct (index s !! id) as [ap|] eqn:Eap; cycle 1.
  { rewrite app_nil_r, alter_id by (intros ap'; by rewrite Hm). done. }
  unfold s2. rewrite (run_bind _ _ _ _ _ (mod_ap_run _ _ _ _ _)).
  rewrite (stop_loop_run id (publishers ap) _ (with_FID IDs zero_FID ap)).
  - unfold active_publishers. do 4 f_equal. apply map_eq. intros x. destruct (decide (x = id)) as [->|].
    + rewrite lookup_insert_eq, lookup_alter_eq, Hm. cbn. unfold stopped. f_equal.
      unfold with_publishers. cbn. f_equal. apply stop_some_all. intros h. apply elem_of_ptr_order.
    + rewrite lookup_insert_ne, !lookup_alter_ne by done. done.
  - apply ptr_order_NoDup.
  - by eapply Forall_forall.
  - by rewrite lookup_alter_eq, Hm.
  - done.
  - intros h Hh%elem_of_ptr_order%elem_of_dom. eapply (pi_pub_alive _ Hinv h id). by exists ap.
Qed.

(** ** From the rendezvous point to the publisher *)

Definition note_header (gc : GlobalConf) : bytes :=
  [PUBLISH_DATA; 2%Z] ++ notificationIID gc ++ [IMPLICIT_RENDEZVOUS] ++ fid_bytes (iLID gc).

(** A notification of LocalRV, which a Click element publishes *)
Lemma push_note_run in_port anno gc h type IDs tail s :
  (in_port =? 2)%Z = false → (in_port =? 3)%Z = false →
  local_pub_sub_Index (pst (n_px s)) !! (sender in_port anno).2 = Some h →
  length (notificationIID gc) = 2 * PURSUIT_ID_LEN → fid_ok (iLID gc) →
  notificationIID (n_gc s) = notificationIID gc →
  push in_port anno (note_header gc ++ note type IDs tail) s
  = (_ ← handleRVNotification; p_kill) (put_packet (Some (note type IDs tail)) s).
Proof.
  intros H2 H3 Hi Hn HF Hgc. unfold push. set (q := note type IDs tail). set (p := note_header gc ++ q).
  rewrite (run_bind _ _ s tt (put_packet (Some p) s)) by done. set (s1 := put_packet (Some p) s).
  rewrite (run_bind _ _ _ _ _ (get_gc_run s1)), H2, H3. destruct (sender in_port anno) as [ty d].
  rewrite (run_bind _ _ s1 h s1); cycle 1.
  { erewrite lift_run; [|by apply getLocalHost_known]. done. }
  rewrite (run_bind _ _ _ _ _ (p_data_run p s1 eq_refl)).
  rewrite (run_bind _ _ s1 PUBLISH_DATA s1) by done. cbn [Z.eqb PUBLISH_DATA DISCONNECT Pos.eqb].
  unfold push_data. rewrite (run_bind _ _ _ _ _ (p_data_run p s1 eq_refl)).
  rewrite (run_bind _ _ _ _ _ (get_gc_run s1)).
  rewrite (run_bind _ _ s1 2%Z s1) by done. set (N := notificationIID gc) in *.
  assert (p = [PUBLISH_DATA; 2%Z] ++ N ++ [IMPLICIT_RENDEZVOUS] ++ fid_bytes (iLID gc) ++ q) as Hp
    by (unfold p, note_header; by rewrite <-!app_assoc).
  rewrite (run_bind _ _ s1 N s1) by (rewrite Hp; apply read_bytes_at; done).
  rewrite (run_bind _ _ s1 IMPLICIT_RENDEZVOUS s1); cycle 1.
  { rewrite Hp, app_assoc. apply read_byte_at. by rewrite length_app. }
  rewrite Z.eqb_refl. cbn zeta. rewrite (run_bind _ _ s1 (on_wire (iLID gc)) s1); cycle 1.
  { rewrite Hp, (app_assoc _ N), (app_assoc _ [IMPLICIT_RENDEZVOUS]).
    apply read_FID_run; [|done]. rewrite !length_app. cbn. lia. }
  rewrite (run_bind _ _ _ _ _ (p_pull_run _ p s1 eq_refl)).
  replace (drop _ p) with q; cycle 1.
  { rewrite Hp, (app_assoc _ N), (app_assoc _ [IMPLICIT_RENDEZVOUS]), (app_assoc _ (fid_bytes _)).
    symmetry. apply drop_app_length'. rewrite !length_app, length_fid_bytes by done. cbn. lia. }
  rewrite decide_True by (symmetry; exact Hgc). done.
Qed.

Lemma local_id_fields_wire IDs : wire_ids IDs →
  concat (local_id_fields (Z.of_nat (length IDs)) IDs) = concat ((λ id, Z.of_nat (level id) :: id) <$> IDs).
Proof.
  intros [_ Hw]. unfold local_id_fields. rewrite Nat2Z.id, take_ge by done.
  induction Hw as [|id IDs Hid _ IH]; [done|]. cbn. rewrite IH, (IDLength_wire _ Hid). f_equal.
  f_equal. destruct Hid as (k & Hk & _). unfold level. rewrite Hk, Nat.div_mul, Nat2Z.id by done.
  rewrite take_ge by lia. done.
Qed.

Lemma fid_data_rv v (r : rv) : fid_ok v → fid_data v r = Ok (fid_bytes v, r).
Proof.
  intros Hv. pose proof (fid_bytes_run v (mkPx empty_proxy []) Hv) as Hr.
  unfold fid_data in *. by case_decide.
Qed.

(** What LocalRV sends to the publishers of its node *)
Lemma notifyLocalPublisher_run gc it FID r :
  length (notificationIID gc) = 2 * PURSUIT_ID_LEN → fid_ok (iLID gc) →
  (∀ v, FID = Some v → fid_ok v) →
  let IDs := str_order (dom (it_ids it)) in
  wire_ids IDs →
  notifyLocalPublisher gc it FID false r
  = Ok (tt, mkRv (st r) (out r ++ [Send (Some <$> note_header gc ++
      match FID with
      | Some v => note START_PUBLISH IDs (fid_bytes v)
      | None => note STOP_PUBLISH IDs []
      end)])).
Proof.
  intros Hn HF Hv IDs Hw. unfold notifyLocalPublisher. fold IDs.
  assert (u8 (Z.of_nat (size (it_ids it))) = Z.of_nat (length IDs)) as ->.
  { rewrite <-(numberOfIDs_wire _ Hw). unfold numberOfIDs, IDs.
    by rewrite str_order_perm, <-(size_dom (it_ids it)). }
  unfold notification_header. rewrite Hn. change (u8 (Z.of_nat _)) with 2%Z.
  erewrite run_bind; [|erewrite run_bind; [|exact (fid_data_rv (iLID gc) r HF)]; reflexivity].
  pose proof (length_ids_header _ Hw) as Hlen. unfold ids_len in Hlen. rewrite (numberOfIDs_wire _ Hw) in Hlen.
  assert (∀ type tail, concat ([[PUBLISH_DATA]; [2%Z]; notificationIID gc; [IMPLICIT_RENDEZVOUS];
      fid_bytes (iLID gc)] ++ [[type]; [Z.of_nat (length IDs)]] ++
      local_id_fields (Z.of_nat (length IDs)) IDs ++ tail)
    = note_header gc ++ note type IDs (concat tail)) as Hcat.
  { intros type tail. rewrite !concat_app, (local_id_fields_wire _ Hw).
    unfold note_header, note, ids_header. cbn [concat app]. rewrite !app_nil_r. by rewrite <-!app_assoc. }
  assert (∀ type tail, length (note_header gc ++ note type IDs tail)
    = header_len gc + 1 + length (ids_header IDs) + length tail) as Hl.
  { intros type tail. unfold note_header, note, header_len. rewrite !length_app, length_fid_bytes, Hn by done.
    cbn. lia. }
  destruct FID as [v|].
  - erewrite run_bind; [|exact (fid_data_rv v r (Hv v eq_refl))].
    rewrite send_exact; [rewrite Hcat; cbn [concat]; by rewrite app_nil_r|].
    rewrite Hcat, Hl, Hlen. cbn [concat]. rewrite app_nil_r, length_fid_bytes by auto. lia.
  - rewrite <-(app_nil_r (local_id_fields _ _)).
    rewrite send_exact; [by rewrite Hcat|]. rewrite Hcat, Hl, Hlen. cbn. lia.
Qed.

(** ** A match in the node *)

(** What becomes of a publication, and who is told *)
Definition told (wanted : bool) (IDs : list bytes) (FID : BABitvector) (ap : ActivePublication)
    : ActivePublication := if wanted then started IDs FID ap else stopped IDs ap.
Definition notices (wanted : bool) (s : Proxy) (id : bytes) : list px_event :=
  if wanted then start_notices s id else stop_notices s id.

Lemma note_told (wanted : bool) IDs v s : px_inv (pst (n_px s)) → NoDup IDs → Forall wire_id IDs →
  fid_ok v →
  n_packet s = Some (if wanted then note START_PUBLISH IDs (fid_bytes v) else note STOP_PUBLISH IDs []) →
  (_ ← handleRVNotification; p_kill) s
  = Ok (tt, sends (concat (notices wanted (pst (n_px s)) <$> IDs) ++ [Freed])
      (put_packet None (set_index (on_ids IDs (λ _, told wanted IDs (on_wire v)) (index s)) s))).
Proof.
  intros Hinv Hnd Hw Hv Hp. destruct wanted.
  - erewrite run_bind; cycle 1.
    { rewrite (note_run _ _ _ _ Hp) by done. cbn zeta. cbn [Z.eqb orb START_PUBLISH SCOPE_PUBLISHED SCOPE_UNPUBLISHED Pos.eqb].
      erewrite run_bind; [by apply on_start_run|].
      rewrite <-(app_nil_r (fid_bytes v)). unfold note, ids_header. rewrite !app_assoc, <-(app_assoc _ (fid_bytes v)).
      apply read_FID_run; [|done]. rewrite !length_app. cbn. lia. }
    erewrite (p_kill_run (note START_PUBLISH IDs (fid_bytes v))) by exact Hp. by rewrite <-sends_sends.
  - erewrite run_bind; cycle 1.
    { rewrite (note_run _ _ _ _ Hp) by done. cbn zeta.
      cbn [Z.eqb orb START_PUBLISH STOP_PUBLISH SCOPE_PUBLISHED SCOPE_UNPUBLISHED UPDATE_FID UPDATE_RVFID UPDATE_TMFID Pos.eqb].
      by apply on_stop_run. }
    erewrite (p_kill_run (note STOP_PUBLISH IDs [])) by exact Hp. by rewrite <-sends_sends.
Qed.

(** A match inside a node reaches its publishers.  When LocalRV finds that
    a node-local item has subscribers (or none any more), the packet that it
    sends, given to the proxy of the node, sets the forwarding identifier of
    every publication of the item to the internal link (or to none), records
    all names of the item with each of them, and tells one publisher under
    each name to start (or every publisher that had been told to start, to
    stop); no other publication changes and the packet is freed. *)
Theorem node_local_rendezvous (gc : GlobalConf) (i : positive) (it : InformationItem)
    (subs : gset positive) (r : rv) (anno : Z) (h : positive) (s : Node) :
  gc_wf gc → items (st r) !! i = Some it → it_strategy it = NODE_LOCAL → getPublishers it ≠ ∅ →
  wire_ids (str_order (dom (it_ids it))) →
  px_inv (pst (n_px s)) → local_pub_sub_Index (pst (n_px s)) !! 1%Z = Some h →
  notificationIID (n_gc s) = notificationIID gc →
  let IDs := str_order (dom (it_ids it)) in
  let wanted := bool_decide (subs ≠ ∅) in
  ∃ p,
    rendezvous gc i subs false r = Ok (tt, mkRv (st r) (out r ++ [Send (Some <$> p)])) ∧
    push 1 anno p s
    = Ok (tt, sends (concat (notices wanted (pst (n_px s)) <$> IDs) ++ [Freed])
        (put_packet None (set_index
          (on_ids IDs (λ _, told wanted IDs (on_wire (iLID gc))) (index s)) s))).
Proof.
  intros Hgc Hit Hst Hpubs Hw Hinv Hi Hsame IDs wanted.
  assert (fid_ok (iLID gc)) as HF by (apply fid_ok_size; apply Hgc).
  set (q := if wanted then note START_PUBLISH IDs (fid_bytes (iLID gc)) else note STOP_PUBLISH IDs []).
  exists (note_header gc ++ q). split.
  - unfold rendezvous. rewrite (run_bind _ _ _ _ _ (get_item_run _ _ _ Hit)). cbn zeta.
    assert (∀ X : gset positive, 0 < size X ↔ X ≠ ∅) as Hsize.
    { intros X. rewrite <-Nat.neq_0_lt_0. by rewrite size_non_empty_iff, <-leibniz_equiv_iff. }
    rewrite decide_True by (by apply Hsize). rewrite Hst, Z.eqb_refl.
    rewrite notifyLocalPublisher_run; [|apply Hgc|done| |done].
    + unfold q, wanted. fold IDs. case_decide as E; rewrite Hsize in E.
      * by rewrite bool_decide_true.
      * by rewrite bool_decide_false.
    + intros v. case_decide; [by intros [= <-]|done].
  - assert (∃ t tail, q = note t IDs tail) as (t & tail & Hq)
      by (unfold q; destruct wanted; by eexists _, _).
    rewrite Hq, (push_note_run 1 anno gc h), <-Hq by (done || apply Hgc).
    rewrite (note_told wanted IDs (iLID gc)); [done|done| |apply Hw|done|done].
    unfold IDs. rewrite str_order_perm. apply NoDup_elements.
Qed.
End notify.

(** ** A node with a local item *)

Definition local_state : rv :=
  after (serve (HO := canonical_order true) sample_gc
    [request_packet sample_node PUBLISH_SCOPE (frag 65) [] NODE_LOCAL;
     request_packet sample_node PUBLISH_INFO (frag 67) (frag 65) NODE_LOCAL]) (mkRv empty_store []).

Definition local_item : InformationItem := default (mkItem ∅ ∅ 0%Z) (items (st local_state) !! 1%positive).

Lemma local_item_names : str_order (HashOrder := canonical_order true) (dom (it_ids local_item)) = [frag 65 ++ frag 67].
Proof. vm_compute. reflexivity. Qed.

Lemma node_local_rendezvous_witness :
  let IDs := str_order (HashOrder := canonical_order true) (dom (it_ids local_item)) in
  let wanted := bool_decide (({[1%positive]} : gset positive) ≠ ∅) in
  ∃ p,
    rendezvous (HO := canonical_order true) sample_gc 1 {[1%positive]} false local_state
      = Ok (tt, mkRv (st local_state) (out local_state ++ [Send (Some <$> p)])) ∧
    push (HO := canonical_order true) 1 0 p local_node
    = Ok (tt, sends (concat (notices (HO := canonical_order true) wanted (pst (n_px local_node)) <$> IDs) ++ [Freed])
        (put_packet None (set_index
          (on_ids IDs (λ _, told (HO := canonical_order true) wanted IDs (on_wire (iLID sample_gc)))
             (activePublicationIndex (pst (n_px local_node)))) local_node))).
Proof.
  apply (node_local_rendezvous (HO := canonical_order true) sample_gc 1 local_item {[1%positive]}
    local_state 0 1 local_node).
  - apply sample_gc_wf.
  - vm_compute. reflexivity.
  - vm_compute. reflexivity.
  - intros H. assert (1%positive ∈ getPublishers local_item) as Hin
      by (apply (bool_decide_unpack _); vm_compute; exact I). rewrite H in Hin. by apply not_elem_of_empty in Hin.
  - rewrite local_item_names. split; [cbn; lia|]. apply Forall_singleton. exists 2. split; [reflexivity|lia].
  - apply local_node_inv.
  - vm_compute. reflexivity.
  - vm_compute. reflexivity.
Defined.
