(* ===== verification/ProxyRecovery.v ===== *)
(** * Failed links

    The topology manager publishes the identifier of a link that failed.
    Every proxy drops the forwarding identifiers that use the link, asks its
    rendezvous element for new paths to implicit subscribers, and makes the
    publishers publish again. *)
From stdpp Require Import base list gmap sets.
From Stdlib Require Import ZArith Lia.
From S2P Require Import Prelude Enums Bitvector GlobalConf InfoGraph LocalRV RVSafety RVRequests RVProps RVRendezvous LocalProxy ProxyInv ProxyLeave ProxyProps ProxyData ProxyNet ProxySafety ProxyDelivery ProxyNotify.

(** ** Which FIDs use a link *)

(** Every bit of the link identifier is set in the FID. *)
Definition crosses (LID FID : BABitvector) : bool :=
  forallb (λ i, implb (bv_bit LID i) (bv_bit FID i)) (seqZ 0 256).

Lemma crosses_bits LID FID : crosses LID FID = true ↔
  ∀ i, (0 ≤ i ≤ 255)%Z → bv_bit LID i = true → bv_bit FID i = true.
Proof.
  unfold crosses. rewrite forallb_forall. split.
  - intros Hall i Hi Hl. assert (In i (seqZ 0 256)) as Hin by (apply list_elem_of_In, elem_of_seqZ; lia).
    specialize (Hall i Hin). by rewrite Hl in Hall.
  - intros Hall i Hin%list_elem_of_In%elem_of_seqZ. destruct (bv_bit LID i) eqn:E; [|done].
    cbn. apply Hall; [lia|done].
Qed.

Lemma affected_crosses LID FID (s : Node) : fid_ok LID → fid_ok FID →
  affected LID FID s = Ok (crosses LID FID, s).
Proof.
  intros [HL1 HL2] [HF1 HF2].
  destruct (bv_and_spec LID FID HL1 HF1) as (r & Hr & Hwr & Hmr & Hbits); [congruence|].
  unfold affected. rewrite Hr. cbn. unfold mret, M_ret. do 2 f_equal. apply eq_true_iff_eq.
  rewrite bv_eqb_spec, crosses_bits by done. rewrite Hmr, HL2 in *. change (fid_bits - 1)%Z with 255%Z in *.
  split.
  - intros [_ He] i Hi Hl. specialize (He i Hi). rewrite Hbits, Hl in He by lia. done.
  - intros Hc. split; [done|]. intros i Hi. rewrite Hbits by lia.
    destruct (bv_bit LID i) eqn:E; [|done]. by rewrite (Hc i Hi E).
Qed.

Lemma crosses_on_wire LID FID : fid_ok LID → crosses (on_wire LID) FID = crosses LID FID.
Proof.
  intros HL. apply eq_true_iff_eq. rewrite !crosses_bits.
  split; intros Hc i Hi Hl; apply Hc; try done; by rewrite on_wire_bits in *.
Qed.

(** ** Publications *)

(** A publication of an item that uses the link loses its FID, and those who
    were told to start have to publish again. *)
Definition link_fails (LID : BABitvector) (ap : ActivePublication) : ActivePublication :=
  if ap_isScope ap || zero (FID_to_subscribers ap) || negb (crosses LID (FID_to_subscribers ap)) then ap
  else with_publishers (restate (λ v, v =? START_PUBLISH)%Z RE_PUBLISH)
         (with_FID (ap_allKnownIDs ap) no_FID ap).

Section recovery.
Context `{HO : HashOrder}.
Notation index s := (activePublicationIndex (pst (n_px s))).

Lemma invalidate_run LID id m es s : fid_ok LID →
  (∀ ap, m !! id = Some ap → route_ok (FID_to_subscribers ap)) →
  invalidate LID id (sends es (set_index m s))
  = Ok (tt, sends (es ++ []) (set_index (alter (link_fails LID) id m) s)).
Proof.
  intros HL HF. unfold invalidate. rewrite (run_bind _ _ _ _ _ (px_state_run _)).
  set (s' := sends es _). change (index s') with m. rewrite app_nil_r.
  destruct (m !! id) as [ap|] eqn:Eap; cycle 1.
  { rewrite alter_id by (intros ap; by rewrite Eap). done. }
  assert (∀ f, (∀ ap, m !! id = Some ap → f ap = link_fails LID ap) →
    alter (link_fails LID) id m = alter f id m) as Halt
    by (intros f Hf; apply alter_ext; intros ap'; symmetry; by apply Hf).
  unfold is_NULL. destruct (ap_isScope ap || zero (FID_to_subscribers ap)) eqn:En.
  { rewrite (alter_id (link_fails LID)); [done|]. rewrite Eap. intros ? [= <-].
    unfold link_fails. by rewrite En. }
  assert (fid_ok (FID_to_subscribers ap)) as HF'.
  { apply orb_false_iff in En as [_ Hz]. destruct (HF ap eq_refl) as [?|?]; [congruence|done]. }
  rewrite (run_bind _ _ _ _ _ (affected_crosses _ _ s' HL HF')).
  destruct (crosses LID (FID_to_subscribers ap)) eqn:Ec.
  - unfold s'. rewrite mod_ap_run. do 3 f_equal. f_equal. apply alter_ext. rewrite Eap. intros ? [= <-].
    unfold link_fails. by rewrite En, Ec.
  - rewrite (alter_id (link_fails LID)); [done|]. rewrite Eap. intros ? [= <-].
    unfold link_fails. by rewrite En, Ec.
Qed.

Lemma on_ids_all (f : ActivePublication → ActivePublication) (l : list bytes) (m : gmap bytes ActivePublication) : (∀ id, id ∈ l ↔ id ∈ dom m) →
  on_ids l (λ _, f) m = f <$> m.
Proof.
  intros Hl. apply map_eq. intros id. rewrite lookup_on_ids, lookup_fmap. case_decide as E; [done|].
  rewrite Hl, elem_of_dom, <-eq_None_not_Some in E. by rewrite E.
Qed.

Lemma concat_nils {A} (l : list A) : concat ((λ _, @nil px_event) <$> l) = [].
Proof. by induction l. Qed.

Lemma str_order_NoDup X : NoDup (str_order X).
Proof. rewrite str_order_perm. apply NoDup_elements. Qed.

Lemma invalidate_all_run LID s : px_inv (pst (n_px s)) → fid_ok LID →
  for_each (str_order (dom (index s))) (invalidate LID) s
  = Ok (tt, set_index (link_fails LID <$> index s) s).
Proof.
  intros Hinv HL. rewrite (for_pubs_run _ _ (λ _, link_fails LID) (λ _, [])).
  - rewrite concat_nils, sends_nil, on_ids_all; [done|]. intros id. apply elem_of_str_order.
  - apply str_order_NoDup.
  - intros id m es _ Hm. apply invalidate_run; [done|]. intros ap. rewrite Hm. intros Hap.
    apply (pi_pub_entry _ Hinv _ _ Hap).
Qed.

(** ** Implicit subscribers *)

(** Entries are under their own label, with a full FID. *)
Definition nodes_known (nodes : gmap bytes ActiveNode) : Prop :=
  size nodes ≤ 255 ∧
  map_Forall (λ nid an, an_nodeID an = nid ∧ length nid = NODEID_LEN ∧ fid_ok (FID_to_node an)) nodes.

Definition lost (LID : BABitvector) (nodes : gmap bytes ActiveNode) : gset bytes :=
  dom (filter (λ e, crosses LID (FID_to_node e.2) = true) nodes).

Lemma affected_nodes_run LID ids acc s : fid_ok LID →
  map_Forall (λ _ an, fid_ok (FID_to_node an)) (activeNodeIndex s) →
  (∀ id, id ∈ ids → is_Some (activeNodeIndex s !! id)) →
  ∃ X, affected_nodes LID ids acc s = Ok (X, s) ∧ ∀ x, x ∈ X ↔ x ∈ acc ∨
    ∃ id an, id ∈ ids ∧ activeNodeIndex s !! id = Some an ∧
      crosses LID (FID_to_node an) = true ∧ x = an_nodeID an.
Proof.
  intros HL HF. revert acc. induction ids as [|id ids IH]; intros acc Hids.
  { exists acc. split; [done|]. intros x. split; [by left|]. intros [?|(id & _ & Hin & _)]; [done|].
    by apply elem_of_nil in Hin. }
  destruct (Hids id) as [an Han]; [left|].
  destruct (IH (if crosses LID (FID_to_node an) then {[an_nodeID an]} ∪ acc else acc)) as (X & HX & Hin).
  { intros x Hx. apply Hids. by right. }
  exists X. split.
  - cbn [affected_nodes]. rewrite (run_bind _ _ s (activeNodeIndex s) s) by done.
    rewrite (run_bind _ _ s an s) by (by rewrite Han).
    by rewrite (run_bind _ _ _ _ _ (affected_crosses _ _ s HL (HF _ _ Han))).
  - intros x. rewrite Hin. setoid_rewrite elem_of_cons.
    destruct (crosses LID (FID_to_node an)) eqn:Ec.
    + rewrite elem_of_union, elem_of_singleton. naive_solver.
    + naive_solver congruence.
Qed.

Lemma lost_run LID s : fid_ok LID → nodes_known (activeNodeIndex s) →
  affected_nodes LID (str_order (dom (activeNodeIndex s))) ∅ s = Ok (lost LID (activeNodeIndex s), s).
Proof.
  intros HL [_ Hn]. destruct (affected_nodes_run LID (str_order (dom (activeNodeIndex s))) ∅ s HL)
    as (X & HX & Hin).
  { intros id an Han. apply (Hn _ _ Han). }
  { intros id Hid%elem_of_str_order. by apply elem_of_dom. }
  rewrite HX. do 2 f_equal. apply set_eq. intros x. rewrite Hin. unfold lost. rewrite elem_of_dom.
  setoid_rewrite elem_of_str_order. split.
  - intros [?|(id & an & _ & Han & Hc & ->)]; [set_solver|]. destruct (Hn _ _ Han) as [<- _].
    exists an. by apply map_lookup_filter_Some.
  - intros [an [Han Hc]%map_lookup_filter_Some]. right. exists x, an. destruct (Hn _ _ Han) as [-> _].
    split; [by eapply elem_of_dom_2|]. done.
Qed.

(** The request for paths to the nodes [nids] *)
Definition path_request (gc : GlobalConf) (nids : gset bytes) : bytes :=
  [PUBLISHED_DATA_iSUB; 2%Z] ++ nodeRVScope gc ++ [Z.of_nat (size nids)] ++ concat (str_order nids).

Lemma publishiReqToRV_run nids s : gc_ok (n_gc s) → size nids ≤ 255 →
  (∀ nid, nid ∈ nids → length nid = NODEID_LEN) →
  publishiReqToRV nids s = Ok (tt, sends [Output 1 None (Some <$> path_request (n_gc s) nids)] s).
Proof.
  intros Hgc Hsz Hlen. unfold publishiReqToRV. rewrite (run_bind _ _ _ _ _ (get_gc_run s)). cbn zeta.
  assert (u8 (Z.of_nat (size nids)) = Z.of_nat (size nids)) as -> by (unfold u8; apply Z.mod_small; lia).
  rewrite (IDLengthOfAPIEvent_eq _ Hgc), Nat2Z.id.
  assert ((take NODEID_LEN <$> str_order nids) = str_order nids) as ->.
  { rewrite <-(list_fmap_id (str_order nids)) at 2. apply list_fmap_ext. intros i nid Hi.
    apply list_elem_of_lookup_2, elem_of_str_order, Hlen in Hi. by rewrite take_ge by lia. }
  assert (length (concat (str_order nids)) = size nids * NODEID_LEN) as Hc.
  { rewrite <-length_str_order. assert (Forall (λ nid, length nid = NODEID_LEN) (str_order nids)) as Hall
      by (apply Forall_forall; intros nid Hn%elem_of_str_order; by apply Hlen).
    induction Hall as [|nid l Hl _ IH]; [done|]. cbn [concat length]. rewrite length_app, Hl, IH. lia. }
  erewrite lift_run; [|apply px_send_exact].
  - rewrite concat_app. cbn [concat app]. rewrite <-app_assoc. done.
  - rewrite concat_app, length_app, Hc. cbn [concat]. rewrite !length_app. cbn [length]. lia.
Qed.

Lemma lost_known LID nodes : nodes_known nodes →
  size (lost LID nodes) ≤ 255 ∧ ∀ nid, nid ∈ lost LID nodes → length nid = NODEID_LEN.
Proof.
  intros [Hsz Hn]. unfold lost. split.
  - etrans; [|exact Hsz]. rewrite size_dom. apply map_size_filter.
  - intros nid [an [Han _]%map_lookup_filter_Some]%elem_of_dom. apply (Hn _ _ Han).
Qed.

(** The request, if a path is lost *)
Definition lost_request (gc : GlobalConf) (nids : gset bytes) : list px_event :=
  if decide (nids = ∅) then [] else [Output 1 None (Some <$> path_request gc nids)].

Lemma processTMNotification_run LID rest s : px_inv (pst (n_px s)) → gc_ok (n_gc s) →
  nodes_known (activeNodeIndex s) → fid_ok LID → n_packet s = Some (fid_bytes LID ++ rest) →
  processTMNotification s
  = Ok (tt, sends ([Freed] ++ lost_request (n_gc s) (lost LID (activeNodeIndex s)))
      (put_packet None (set_index (link_fails LID <$> index s) s))).
Proof.
  intros Hinv Hgc Hn HL Hp. unfold processTMNotification. rewrite (run_bind _ _ _ _ _ (p_data_run _ _ Hp)).
  rewrite (run_bind _ _ s (on_wire LID) s) by (by apply (read_FID_run [] rest)).
  rewrite (run_bind _ _ _ _ _ (p_kill_run _ _ Hp)). rewrite (run_bind _ _ _ _ _ (px_state_run _)).
  set (s1 := sends [Freed] (put_packet None s)).
  rewrite (run_bind _ _ _ _ _ (invalidate_all_run (on_wire LID) s1 Hinv (on_wire_ok _ HL))).
  set (s2 := set_index _ s1). rewrite (run_bind _ _ s2 (activeNodeIndex s) s2) by done.
  rewrite (run_bind _ _ _ _ _ (lost_run (on_wire LID) s2 (on_wire_ok _ HL) Hn)).
  change (activeNodeIndex s2) with (activeNodeIndex s).
  assert (lost (on_wire LID) (activeNodeIndex s) = lost LID (activeNodeIndex s)) as ->.
  { unfold lost. f_equal. apply map_filter_ext. intros nid an _. cbn. by rewrite crosses_on_wire. }
  assert (s2 = sends [Freed] (put_packet None (set_index (link_fails LID <$> index s) s))) as ->.
  { unfold s2. change (index s1) with (index s).
    rewrite (map_fmap_ext (link_fails (on_wire LID)) (link_fails LID)); [done|]. intros id ap _.
    unfold link_fails. by rewrite crosses_on_wire. }
  destruct (lost_known LID _ Hn) as [Hsz Hlen]. unfold lost_request.
  assert (∀ X : gset bytes, 0 < size X ↔ X ≠ ∅) as Hsize
    by (intros X; by rewrite <-Nat.neq_0_lt_0, size_non_empty_iff, <-leibniz_equiv_iff).
  case_decide as E; rewrite Hsize in E.
  - rewrite decide_False by done. rewrite publishiReqToRV_run by done. by rewrite sends_sends.
  - rewrite decide_True by (by apply dec_stable). done.
Qed.

(** C16. A failed link invalidates exactly the paths that use it.  When the
    topology manager announces the identifier of a link, the proxy takes the
    forwarding identifier away from those publications of items whose
    identifier contains the link, bit for bit, and marks their active
    publishers to publish again; scopes, other publications, subscriptions
    and hosts are left as they are.  If paths to implicit subscribers are
    affected, one request with exactly their nodes goes to the rendezvous
    element. *)
Theorem link_failure_handled (anno : Z) (LID : BABitvector) (rest : bytes) (s : Node) :
  px_inv (pst (n_px s)) → gc_ok (n_gc s) → nodes_known (activeNodeIndex s) → fid_ok LID →
  wire_id (pathMgmtIID (n_gc s)) → pathMgmtIID (n_gc s) ≠ notificationIID (n_gc s) →
  push 2 anno (net_body [pathMgmtIID (n_gc s)] PUBLISH_DATA (fid_bytes LID ++ rest)) s
  = Ok (tt, sends ([Freed] ++ lost_request (n_gc s) (lost LID (activeNodeIndex s)))
      (put_packet None (set_index (link_fails LID <$> index s) s))) ∧
  ∀ FID, crosses LID FID = true ↔
    ∀ i, (0 ≤ i ≤ 255)%Z → bv_bit LID i = true → bv_bit FID i = true.
Proof.
  intros Hinv Hgc Hn HL Hw Hne. split; [|intros FID; apply crosses_bits].
  rewrite push_network_body by (split; [cbn; lia|by apply Forall_singleton]).
  rewrite decide_False by congruence. rewrite decide_True by done.
  by rewrite (processTMNotification_run LID rest).
Qed.

(** ** Publishing again *)

Lemma link_fails_inv LID s : px_inv (pst (n_px s)) → gc_ok (n_gc s) → fid_ok LID →
  px_inv (pst (n_px (set_index (link_fails LID <$> index s) s))).
Proof.
  intros Hinv Hgc HL. set (s0 := mkNode (n_px s) (n_gc s) ∅ None).
  assert (holds false (n_gc s) None s0) as Hs0 by (split; [split; done|done]).
  assert (wp (λ e, e = BufferOverflow) (for_each (str_order (dom (index s0))) (invalidate LID))
    (λ _, holds false (n_gc s) None) s0) as Hwp.
  { apply wp_for_each_inv; [done|]. intros id s' _ Hs'. by apply wp_invalidate. }
  pose proof (wp_run _ _ _ _ _ _ Hwp (invalidate_all_run LID s0 Hinv HL)) as [Hn _]. apply Hn.
Qed.

Lemma link_fails_publishes LID s h id :
  publishes (pst (n_px (set_index (link_fails LID <$> index s) s))) h id ↔ publishes (pst (n_px s)) h id.
Proof.
  assert (∀ ap, is_Some (publishers (link_fails LID ap) !! h) ↔ is_Some (publishers ap !! h)) as Hp.
  { intros ap. unfold link_fails. destruct (_ || _); [done|]. cbn. unfold restate.
    by rewrite lookup_fmap, fmap_is_Some. }
  unfold publishes. cbn. rewrite lookup_fmap. split.
  - intros (ap & (ap0 & Hap & ->)%fmap_Some & Hh). exists ap0. by rewrite <-Hp.
  - intros (ap & Hap & Hh). exists (link_fails LID ap). by rewrite Hap, Hp.
Qed.

(** C17. After a failure the publisher learns that it has to publish again, and
    its request reaches the rendezvous point.  An entity that was publishing
    an item over a failed link is answered with RE_PUBLISH when it publishes
    data, whatever the data are; and when it then advertises the item again,
    the proxy forwards the request although the item is already in its
    table. *)
Theorem republished_after_failure (anno : Z) (LID : BABitvector) (ID prefixID : bytes)
    (strategy dstrategy : Z) (data : bytes) (k m : nat) (h : positive) (ap : ActivePublication) (s : Node) :
  let id := full_id ID prefixID in
  let s1 := put_packet None (set_index (link_fails LID <$> index s) s) in
  px_inv (pst (n_px s)) → gc_ok (n_gc s) → fid_ok LID →
  local_pub_sub_Index (pst (n_px s)) !! anno = Some h →
  frags (S k) ID → frags m prefixID → wire_id id → announced strategy → by_rendezvous dstrategy = true →
  index s !! id = Some ap → ap_isScope ap = false → publishers ap !! h = Some START_PUBLISH →
  zero (FID_to_subscribers ap) = false → crosses LID (FID_to_subscribers ap) = true →
  push 0 anno (data_packet id dstrategy data) s1
    = Ok (tt, sends [delivery (pst (n_px s)) RE_PUBLISH [] (h, id)] (put_packet (Some data) s1)) ∧
  ∃ x, push 0 anno (local_request PUBLISH_INFO ID prefixID strategy) s1
    = Ok (tt, put_px (mkPx x (pout (n_px s) ++
        [forwarded (n_gc s) (rv_fid (n_gc s) strategy) (local_request PUBLISH_INFO ID prefixID strategy)])) s1) ∧
    ∀ h' id', publishes x h' id' ↔ publishes (pst (n_px s)) h' id'.
Proof.
  intros id s1 Hinv Hgc HL Hi HID Hpre Hw Hann Hds Hap Hsc Hh Hz Hc.
  pose proof (link_fails_inv LID s Hinv Hgc HL) as Hinv1.
  destruct (index_host _ _ _ Hinv Hi) as (l & Hl & _).
  set (ap' := with_publishers (restate (λ v, v =? START_PUBLISH)%Z RE_PUBLISH)
         (with_FID (ap_allKnownIDs ap) no_FID ap)).
  assert (index s1 !! id = Some ap') as Hap1.
  { change (index s1) with (link_fails LID <$> index s). rewrite lookup_fmap, Hap. cbn.
    unfold link_fails. by rewrite Hsc, Hz, Hc. }
  assert (publishers ap' !! h = Some RE_PUBLISH) as Hre.
  { unfold ap', restate. cbn. by rewrite lookup_fmap, Hh. }
  split.
  - rewrite (push_data_run 0 anno id dstrategy data h) by done.
    unfold handleUserPublication_typed, publish_with. rewrite (run_bind _ _ _ _ _ (px_state_run _)).
    unfold publication_for. change (index (put_packet (Some data) s1)) with (index s1). rewrite Hap1.
    cbn zeta. unfold is_NULL. replace (zero (FID_to_subscribers ap')) with true by done.
    unfold no_FID_notice, state_of. rewrite Hre. cbn [default]. rewrite Z.eqb_refl.
    rewrite send_run; [done|done|]. cbn. by rewrite Hl.
  - destruct (push_request_run (n_gc s) PUBLISH_INFO h ID prefixID strategy k m (n_px s1) Hgc Hinv1)
      as (fwd & x & Hct & Hrun); [by exists l|done|done|].
    cbn in Hct. destruct Hct as [Hset Hfwd].
    assert (fwd = true) as ->.
    { apply Hfwd. split; [done|]. right. exists ap'. split; [done|by left]. }
    exists (pst x). split.
    + unfold push. set (p := local_request _ _ _ _) in *.
      rewrite (run_bind _ _ s1 tt (put_packet (Some p) s1)) by done. set (s2 := put_packet (Some p) s1).
      rewrite (run_bind _ _ _ _ _ (get_gc_run s2)). cbn [Z.eqb sender].
      rewrite (run_bind _ _ s2 h s2); cycle 1.
      { erewrite lift_run; [|by apply getLocalHost_known]. done. }
      rewrite (run_bind _ _ _ _ _ (p_data_run p s2 eq_refl)).
      rewrite (run_bind _ _ s2 PUBLISH_INFO s2) by done.
      cbn [Z.eqb PUBLISH_INFO DISCONNECT PUBLISH_DATA PUBLISH_DATA_iSUB PUBLISH_DATA_iMULTICAST Pos.eqb].
      rewrite (run_bind _ _ _ _ _ (p_give_run p s2 eq_refl)).
      erewrite lift_run; [|exact Hrun]. done.
    + intros h' id'. rewrite <-(link_fails_publishes LID s).
      pose proof (set_pub _ _ _ _ Hset h' id') as [Hto Hfrom].
      split; [|intros Hp; apply Hfrom; by left]. intros [?|(-> & -> & _)]%Hto; [done|]. exists ap'. split; [exact Hap1|]. by rewrite Hre.
Qed.
End recovery.

(** ** Instances *)

Lemma started_nodes_known : nodes_known (activeNodeIndex started_node).
Proof.
  pose proof (ni_nodes _ _ _ started_node_inv) as Hn. cbn in Hn. rewrite Hn. split.
  - rewrite map_size_empty. lia.
  - apply map_Forall_empty.
Qed.

Lemma started_link_ok : fid_ok (iLID sample_gc).
Proof. apply fid_ok_size; apply sample_gc_wf. Qed.

Lemma link_failure_handled_witness :
  push (HO := canonical_order true) 2 0
    (net_body [pathMgmtIID (n_gc started_node)] PUBLISH_DATA (fid_bytes (iLID sample_gc) ++ [])) started_node
  = Ok (tt, sends ([Freed] ++ lost_request (HO := canonical_order true) (n_gc started_node)
                     (lost (iLID sample_gc) (activeNodeIndex started_node)))
      (put_packet None (set_index
        (link_fails (iLID sample_gc) <$> activePublicationIndex (pst (n_px started_node))) started_node))) ∧
  ∀ FID, crosses (iLID sample_gc) FID = true ↔
    ∀ i, (0 ≤ i ≤ 255)%Z → bv_bit (iLID sample_gc) i = true → bv_bit FID i = true.
Proof.
  apply (link_failure_handled (HO := canonical_order true) 0 (iLID sample_gc) [] started_node).
  - apply started_node_inv.
  - apply (ni_gc _ _ _ started_node_inv).
  - apply started_nodes_known.
  - apply started_link_ok.
  - exists 2. split; [vm_compute; reflexivity|lia].
  - vm_compute. discriminate.
Defined.

Lemma republished_after_failure_witness :
  let id := full_id (frag 67) (frag 65 ++ frag 66) in
  let s1 := put_packet None (set_index
    (link_fails (iLID sample_gc) <$> activePublicationIndex (pst (n_px started_node))) started_node) in
  push (HO := canonical_order true) 0 1002 (data_packet id DOMAIN_LOCAL [7%Z]) s1
    = Ok (tt, sends [delivery (pst (n_px started_node)) RE_PUBLISH [] (2%positive, id)]
                (put_packet (Some [7%Z]) s1)) ∧
  ∃ x, push (HO := canonical_order true) 0 1002
      (local_request PUBLISH_INFO (frag 67) (frag 65 ++ frag 66) DOMAIN_LOCAL) s1
    = Ok (tt, put_px (mkPx x (pout (n_px started_node) ++
        [forwarded (n_gc started_node) (rv_fid (n_gc started_node) DOMAIN_LOCAL)
           (local_request PUBLISH_INFO (frag 67) (frag 65 ++ frag 66) DOMAIN_LOCAL)])) s1) ∧
    ∀ h' id', publishes x h' id' ↔ publishes (pst (n_px started_node)) h' id'.
Proof.
  apply (republished_after_failure (HO := canonical_order true) 1002 (iLID sample_gc) (frag 67)
    (frag 65 ++ frag 66) DOMAIN_LOCAL DOMAIN_LOCAL [7%Z] 0 2 2 item_publication started_node).
  - apply started_node_inv.
  - apply (ni_gc _ _ _ started_node_inv).
  - apply started_link_ok.
  - vm_compute. reflexivity.
  - apply frags_one.
  - apply frags_two.
  - exists 3. split; [vm_compute; reflexivity|lia].
  - right. reflexivity.
  - reflexivity.
  - vm_compute. reflexivity.
  - vm_compute. reflexivity.
  - vm_compute. reflexivity.
  - vm_compute. reflexivity.
  - vm_compute. reflexivity.
Defined.
