(* ===== verification/ProxyLimits.v ===== *)
(** * Where the local proxy fails

    Handlers of LocalProxy::push that use a packet after they gave it away or
    freed it, or read a packet past its end.  The theorems give the condition
    under which it happens; [ProxySafety.proxy_element_safe] excludes them. *)
From stdpp Require Import base list gmap sets.
From Stdlib Require Import ZArith Lia.
From S2P Require Import Prelude Enums Bitvector GlobalConf InfoGraph LocalRV RVSafety RVRequests RVProps RVRendezvous LocalProxy ProxyInv ProxyLeave ProxyProps ProxyData ProxyNet ProxySafety ProxyDelivery ProxyNotify.

Section limits.
Context `{HO : HashOrder}.

(** A packet of a local entity that names an identifier *)
Definition named_packet (type : Z) (ID rest : bytes) : bytes :=
  [type; Z.of_nat (level ID)] ++ ID ++ rest.

Section packet.
Context (in_port anno : Z) (h : positive) (s : Node) (type : Z) (ID rest : bytes).
Hypothesis Hport : (in_port =? 2)%Z = false ∧ (in_port =? 3)%Z = false.
Hypothesis Hhost : local_pub_sub_Index (pst (n_px s)) !! (sender in_port anno).2 = Some h.
Hypothesis Hwire : wire_id ID.
Let p := named_packet type ID rest.
Let s1 := put_packet (Some p) s.

Lemma named_push : (type =? DISCONNECT)%Z = false →
  push in_port anno p s =
    (if (type =? PUBLISH_DATA)%Z then push_data h
     else if (type =? PUBLISH_DATA_iSUB)%Z then push_isub h
     else if (type =? PUBLISH_DATA_iMULTICAST)%Z then push_multicast
     else q ← p_give; lift (push_request (n_gc s) h type q)) s1.
Proof.
  intros Ht. destruct Hport as [H2 H3]. unfold push.
  rewrite (run_bind _ _ s tt s1) by done. rewrite (run_bind _ _ _ _ _ (get_gc_run s1)), H2, H3.
  destruct (sender in_port anno) as [ty d].
  rewrite (run_bind _ _ s1 h s1); cycle 1.
  { erewrite lift_run; [|by apply getLocalHost_known]. done. }
  rewrite (run_bind _ _ _ _ _ (p_data_run p s1 eq_refl)).
  rewrite (run_bind _ _ s1 type s1) by done. by rewrite Ht.
Qed.

Lemma named_ID : read_bytes p (1 + 1) (Z.to_nat (Z.of_nat (level ID)) * PURSUIT_ID_LEN) s1 = Ok (ID, s1).
Proof.
  destruct Hwire as (k & Hk & _). apply (read_bytes_at s1 [type; Z.of_nat (level ID)] ID rest); [done|].
  unfold level. rewrite Nat2Z.id, Hk, Nat.div_mul by done. done.
Qed.

Lemma named_byte b tail : rest = b :: tail → read_byte p (1 + 1 + length ID) s1 = Ok (b, s1).
Proof.
  intros Hr. unfold p, named_packet. rewrite Hr, app_assoc. apply read_byte_at. by rewrite length_app.
Qed.

End packet.

(** ** Implicit subscriptions *)

(** Data that subscribe implicitly are read after they are gone.  When an
    entity publishes such data under a name that nobody in the node
    publishes, the packet is freed by the first handler, and the code that
    stores the subscription reads its identifier from the freed packet. *)
Theorem implicit_subscription_dangles (in_port anno : Z) (h : positive) (ID data : bytes) (s : Node) :
  (in_port =? 2)%Z = false ∧ (in_port =? 3)%Z = false →
  local_pub_sub_Index (pst (n_px s)) !! (sender in_port anno).2 = Some h → wire_id ID →
  publication_for (pst (n_px s)) ID = None →
  push in_port anno (named_packet PUBLISH_DATA_iSUB ID (DOMAIN_LOCAL :: data)) s = Fault Dangling.
Proof.
  intros Hport Hhost Hw Hpub. rewrite (named_push _ _ h) by done. cbn [Z.eqb PUBLISH_DATA PUBLISH_DATA_iSUB Pos.eqb].
  set (s1 := put_packet _ s). unfold push_isub. rewrite (run_bind _ _ _ _ _ (p_data_run _ s1 eq_refl)).
  rewrite (run_bind _ _ _ _ _ (get_gc_run s1)).
  rewrite (run_bind _ _ s1 (Z.of_nat (level ID)) s1) by done.
  rewrite (run_bind _ _ s1 ID s1) by (by apply named_ID).
  rewrite (run_bind _ _ s1 DOMAIN_LOCAL s1) by (by eapply named_byte). rewrite Z.eqb_refl.
  rewrite (run_bind _ _ _ _ _ (p_pull_run _ _ s1 eq_refl)).
  set (s2 := put_packet _ s1).
  erewrite run_bind; cycle 1.
  { unfold handleUserPublication_typed, publish_with. rewrite (run_bind _ _ _ _ _ (px_state_run s2)).
    change (pst (n_px s2)) with (pst (n_px s)). rewrite Hpub. eapply p_kill_run. reflexivity. }
  done.
Qed.

(** ** Multicast *)

(** A multicast request without a publication frees its packet twice.  If
    neither the item nor the scope above it is published in the node, the
    handler kills the packet where it notices this and once more at its end. *)
Theorem multicast_frees_twice (in_port anno : Z) (h : positive) (ID data : bytes) (strategy : Z) (s : Node) :
  (in_port =? 2)%Z = false ∧ (in_port =? 3)%Z = false →
  local_pub_sub_Index (pst (n_px s)) !! (sender in_port anno).2 = Some h → wire_id ID →
  activePublicationIndex (pst (n_px s)) !! ID = None →
  activePublicationIndex (pst (n_px s)) !! prefix ID = None →
  push in_port anno (named_packet PUBLISH_DATA_iMULTICAST ID ([strategy; 0%Z] ++ data)) s = Fault Dangling.
Proof.
  intros Hport Hhost Hw H1 H2. rewrite (named_push _ _ h) by done.
  cbn [Z.eqb PUBLISH_DATA PUBLISH_DATA_iSUB PUBLISH_DATA_iMULTICAST Pos.eqb].
  set (s1 := put_packet _ s). unfold push_multicast. rewrite (run_bind _ _ _ _ _ (p_data_run _ s1 eq_refl)).
  rewrite (run_bind _ _ s1 (Z.of_nat (level ID)) s1) by done.
  rewrite (run_bind _ _ s1 ID s1) by (by apply named_ID).
  rewrite (run_bind _ _ s1 strategy s1) by (by eapply named_byte).
  rewrite (run_bind _ _ s1 0%Z s1); cycle 1.
  { unfold named_packet. change ([strategy; 0%Z] ++ data) with ([strategy] ++ 0%Z :: data).
    rewrite (app_assoc _ ID), (app_assoc (_ ++ _) [strategy]). apply read_byte_at.
    rewrite !length_app. cbn. lia. }
  rewrite (run_bind _ _ s1 ∅ s1) by done. rewrite (run_bind _ _ _ _ _ (p_pull_run _ _ s1 eq_refl)).
  set (s2 := put_packet _ s1).
  unfold handleUserMulticastRequest. rewrite (run_bind _ _ _ _ _ (px_state_run s2)).
  change (pst (n_px s2)) with (pst (n_px s)). unfold multicast_key. rewrite H1, H2.
  by rewrite (run_bind _ _ _ _ _ (p_kill_run _ s2 eq_refl)).
Qed.

(** ** Path management *)

(** A path management notification that an entity of the node publishes
    is used after it left.  Without another subscriber in the node the packet
    itself is handed to the function that sends it to the network, which
    frees it, and then read for the identifier of the link. *)
Theorem path_management_dangles (in_port anno : Z) (h : positive) (FID : BABitvector) (data : bytes)
    (s : Node) :
  let ID := pathMgmtIID (n_gc s) in
  let IDs := augmented (pst (n_px s)) ID in
  (in_port =? 2)%Z = false ∧ (in_port =? 3)%Z = false →
  local_pub_sub_Index (pst (n_px s)) !! (sender in_port anno).2 = Some h →
  wire_id ID → wire_ids IDs → fid_ok FID → (∀ h', hears (pst (n_px s)) IDs h' → h' = h) →
  ID ≠ notificationIID (n_gc s) → ID ≠ nodeTMScope (n_gc s) → ID ≠ nodeTMScopeUC (n_gc s) →
  push in_port anno (named_packet PUBLISH_DATA ID (IMPLICIT_RENDEZVOUS :: fid_bytes FID ++ data)) s
  = Fault Dangling.
Proof.
  intros ID IDs Hport Hhost Hw Hws HF Hh Hn1 Hn2 Hn3. rewrite (named_push _ _ h) by done.
  cbn [Z.eqb PUBLISH_DATA Pos.eqb]. set (s1 := put_packet _ s). unfold push_data.
  rewrite (run_bind _ _ _ _ _ (p_data_run _ s1 eq_refl)). rewrite (run_bind _ _ _ _ _ (get_gc_run s1)).
  rewrite (run_bind _ _ s1 (Z.of_nat (level ID)) s1) by done.
  rewrite (run_bind _ _ s1 ID s1) by (by apply named_ID).
  rewrite (run_bind _ _ s1 IMPLICIT_RENDEZVOUS s1) by (by eapply named_byte). rewrite Z.eqb_refl. cbn zeta.
  rewrite (run_bind _ _ s1 (on_wire FID) s1); cycle 1.
  { unfold named_packet. change (IMPLICIT_RENDEZVOUS :: ?x) with ([IMPLICIT_RENDEZVOUS] ++ x).
    rewrite (app_assoc _ ID), (app_assoc _ [IMPLICIT_RENDEZVOUS]). apply read_FID_run; [|done].
    rewrite !length_app. cbn. lia. }
  rewrite (run_bind _ _ _ _ _ (p_pull_run _ _ s1 eq_refl)). set (s2 := put_packet _ s1).
  rewrite decide_False by done. rewrite decide_False by (intros [?|?]; done). rewrite decide_True by done.
  unfold handleUserTMPublication. rewrite (run_bind _ _ _ _ _ (px_state_run s2)), (run_bind _ _ _ _ _ (get_gc_run s2)).
  change (pst (n_px s2)) with (pst (n_px s)). fold IDs.
  assert (other_subscribers IDs h (pst (n_px s)) = ∅) as ->.
  { unfold other_subscribers. apply map_empty. intros h'. destruct (decide (h = h')) as [<-|Hne].
    - apply lookup_delete_eq.
    - rewrite lookup_delete_ne by done. apply eq_None_not_Some. intros Hs%found_hears%Hh. done. }
  rewrite decide_True by (by apply in_order_nil). cbn zeta.
  erewrite run_bind; cycle 1.
  { erewrite run_bind by (eapply p_give_run; reflexivity).
    apply pushDataToRemoteSubscribers_typed_run; [done|by apply on_wire_ok]. }
  done.
Qed.

(** ** New paths to the rendezvous point *)

Lemma read_IDs_short {St} (p : bytes) n off (s : St) : off ≤ length p < off + n →
  read_IDs p n off s = Fault BufferOverflow.
Proof.
  revert off. induction n as [|n IH]; intros off [Hoff Hlen]; [lia|]. cbn [read_IDs].
  unfold read_byte, read_bytes, mbind, M_bind, mret, M_ret, throw in *.
  destruct (p !! off) as [len|]; [|done]. cbn beta iota. case_decide; [|done].
  cbn beta iota. rewrite IH; [done|]. lia.
Qed.

Lemma byte_high_bit w i : (5 ≤ i < 8)%Z → Z.testbit w i = true → (32 ≤ u8 w)%Z.
Proof.
  intros Hi Ht. unfold u8. change 256%Z with (2 ^ 8)%Z.
  rewrite <-(Z.mod_pow2_bits_low w 8 i) in Ht by lia.
  destruct (Z.le_gt_cases 32 (w mod 2 ^ 8)) as [|Hlt]; [done|].
  pose proof (Z.mod_pos_bound w (2 ^ 8) ltac:(lia)). pose proof (Z.pow_le_mono_r 2 5 i ltac:(lia) ltac:(lia)).
  change (2 ^ 5)%Z with 32%Z in *. rewrite (Z.testbit_eqb _ i), Z.div_small in Ht by lia. done.
Qed.

(** An update of the path to the rendezvous point or to the topology
    manager is read past its end.  The topology manager sends the type and the
    FID and nothing else; the proxy first reads the FID as if it were a number
    of names and the names.  If one of the bits 5, 6 and 7 of the new FID is
    set, there are more names to read than bytes. *)
Theorem path_update_overreads (type : Z) (v : BABitvector) (s : Node) :
  type = UPDATE_RVFID ∨ type = UPDATE_TMFID → fid_ok v →
  bv_bit v 5 || bv_bit v 6 || bv_bit v 7 = true →
  n_packet s = Some (type :: fid_bytes v) →
  handleRVNotification s = Fault BufferOverflow.
Proof.
  intros Ht [Hv Hm] Hb Hp. unfold handleRVNotification. rewrite (run_bind _ _ _ _ _ (p_data_run _ _ Hp)).
  rewrite (run_bind _ _ s type s) by done.
  replace (type =? UPDATE_FID_iSUB)%Z with false by (by destruct Ht as [-> | ->]).
  pose proof (length_fid_bytes v (conj Hv Hm)) as Hlen. unfold fid_bytes in *.
  destruct (bv_data v) as [|w ws] eqn:Ev; [done|].
  assert (32 ≤ u8 w)%Z as Hw.
  { unfold bv_bit in Hb. rewrite Ev in Hb.
    apply orb_true_iff in Hb as [[Hb|Hb]%orb_true_iff|Hb];
      [apply (byte_high_bit w 5)|apply (byte_high_bit w 6)|apply (byte_high_bit w 7)]; done. }
  rewrite (run_bind _ _ s (u8 w) s) by done.
  assert (read_IDs (type :: take FID_LEN (bytes_of_words (w :: ws))) (Z.to_nat (u8 w)) 2 s
    = Fault BufferOverflow) as Hr.
  { apply read_IDs_short. cbn [length]. rewrite Hlen. unfold FID_LEN in *. lia. }
  unfold mbind, M_bind. by rewrite Hr.
Qed.
End limits.

(** ** Instances *)

Lemma started_port : (0 =? 2)%Z = false ∧ (0 =? 3)%Z = false.
Proof. split; reflexivity. Qed.

Lemma implicit_subscription_dangles_witness :
  push (HO := canonical_order true) 0 1001 (named_packet PUBLISH_DATA_iSUB (frag 90) (DOMAIN_LOCAL :: [1%Z]))
    started_node = Fault Dangling.
Proof.
  apply (implicit_subscription_dangles (HO := canonical_order true) 0 1001 1 (frag 90) [1%Z] started_node).
  - apply started_port.
  - vm_compute. reflexivity.
  - exists 1. split; [reflexivity|lia].
  - vm_compute. reflexivity.
Defined.

Lemma multicast_frees_twice_witness :
  push (HO := canonical_order true) 0 1001
    (named_packet PUBLISH_DATA_iMULTICAST (frag 90) ([DOMAIN_LOCAL; 0%Z] ++ [1%Z])) started_node = Fault Dangling.
Proof.
  apply (multicast_frees_twice (HO := canonical_order true) 0 1001 1 (frag 90) [1%Z] DOMAIN_LOCAL started_node).
  - apply started_port.
  - vm_compute. reflexivity.
  - exists 1. split; [reflexivity|lia].
  - vm_compute. reflexivity.
  - vm_compute. reflexivity.
Defined.

Lemma path_management_names :
  augmented (pst (n_px started_node)) (pathMgmtIID (n_gc started_node)) = [pathMgmtIID sample_gc].
Proof. vm_compute. reflexivity. Qed.

Lemma path_management_dangles_witness :
  push (HO := canonical_order true) 0 1001
    (named_packet PUBLISH_DATA (pathMgmtIID (n_gc started_node))
       (IMPLICIT_RENDEZVOUS :: fid_bytes (iLID sample_gc) ++ [])) started_node = Fault Dangling.
Proof.
  apply (path_management_dangles (HO := canonical_order true) 0 1001 1 (iLID sample_gc) [] started_node).
  - apply started_port.
  - vm_compute. reflexivity.
  - exists 2. split; [vm_compute; reflexivity|lia].
  - rewrite path_management_names. split; [cbn; lia|]. apply Forall_singleton.
    exists 2. split; [vm_compute; reflexivity|lia].
  - apply fid_ok_size; apply sample_gc_wf.
  - intros h' Hh. apply found_hears in Hh as [id Hid]. rewrite path_management_names in Hid.
    assert (snd (findLocalSubscribers [pathMgmtIID sample_gc] (pst (n_px started_node))) = ∅) as Hnone
      by (apply (bool_decide_unpack _); vm_compute; exact I).
    rewrite Hnone, lookup_empty in Hid. discriminate Hid.
  - vm_compute. discriminate.
  - vm_compute. discriminate.
  - vm_compute. discriminate.
Defined.

(** A FID with bit 5 set *)
Definition bit_5 : BABitvector := mkBV 255 ([32]%Z ++ replicate 7 0%Z).

Lemma path_update_overreads_witness :
  handleRVNotification (HO := canonical_order true) (put_packet (Some (UPDATE_RVFID :: fid_bytes bit_5)) started_node)
  = Fault BufferOverflow.
Proof.
  apply (path_update_overreads (HO := canonical_order true) UPDATE_RVFID bit_5).
  - left. reflexivity.
  - split; [apply bv_wfb_sound; vm_compute; reflexivity|reflexivity].
  - vm_compute. reflexivity.
  - reflexivity.
Defined.
