(* ===== verification/Netlink.v ===== *)
(** * The netlink elements (src/fromnetlink.cc, src/tonetlink.cc, src/netlink.cc)

    FromNetlink gives the messages of applications to LocalProxy, ToNetlink
    sends them what LocalProxy has for them.  In user space Click calls
    [selected] when the socket is ready; in the Linux kernel a callback and a
    task share a queue.  The sockets are the kernel's: what a [recv] gives is
    an argument, what a [sendmsg] sends is recorded. *)
From stdpp Require Import base list relations.
From Stdlib Require Import ZArith Lia.
From S2P Require Import Prelude Enums.

(** ** Messages *)

(** [sizeof (struct nlmsghdr)] *)
Definition nlmsghdr_size : nat := 16.

Definition nlmsghdr (len type flags seq pid : Z) : bytes :=
  le32 len ++ le16 type ++ le16 flags ++ le32 seq ++ le32 pid.

(** A [uint32_t] in the byte order of the host *)
Definition of_le32 (bs : bytes) : Z :=
  match bs with
  | [a; b; c; d] => a + Z.shiftl b 8 + Z.shiftl c 16 + Z.shiftl d 24
  | _ => 0
  end%Z.

(** The conversion of a [uint32_t] to an [int] *)
Definition s32 (z : Z) : Z := if (z <? 2147483648)%Z then z else (z - 4294967296)%Z.

Definition nlmsg_len (p : bytes) : Z := of_le32 (substr p 0 4).
Definition nlmsg_pid (p : bytes) : Z := of_le32 (substr p 12 4).

(** A message with the address of its sender or receiver *)
Notation addressed := (prod Z).

Lemma of_le32_le32 z : (0 ≤ z < 4294967296)%Z → of_le32 (le32 z) = z.
Proof.
  intros Hz. unfold of_le32, le32, u8. rewrite !Z.shiftr_div_pow2, !Z.shiftl_mul_pow2 by lia.
  change (2 ^ 8)%Z with 256%Z. change (2 ^ 16)%Z with (256 * 256)%Z.
  change (2 ^ 24)%Z with (256 * 256 * 256)%Z. rewrite <-!Z.div_div by lia.
  pose proof (Z.div_mod z 256). pose proof (Z.div_mod (z / 256) 256).
  pose proof (Z.div_mod (z / 256 / 256) 256).
  rewrite (Z.mod_small (z / 256 / 256 / 256) 256); [lia|].
  pose proof (Z.mod_pos_bound z 256). pose proof (Z.mod_pos_bound (z / 256) 256).
  pose proof (Z.mod_pos_bound (z / 256 / 256) 256). lia.
Qed.

Lemma length_nlmsghdr len type flags seq pid : length (nlmsghdr len type flags seq pid) = nlmsghdr_size.
Proof. done. Qed.

Lemma nlmsg_pid_hdr len type flags seq pid p : (0 ≤ pid < 4294967296)%Z →
  nlmsg_pid (nlmsghdr len type flags seq pid ++ p) = pid.
Proof. intros Hp. apply of_le32_le32, Hp. Qed.

Lemma nlmsg_len_hdr len type flags seq pid p : (0 ≤ len < 4294967296)%Z →
  nlmsg_len (nlmsghdr len type flags seq pid ++ p) = len.
Proof. intros Hp. apply of_le32_le32, Hp. Qed.

Definition SELECT_READ : Z := 1.
Definition SELECT_WRITE : Z := 2.

(** ** Queues that do not forget

    The elements put a packet in a queue and rely on being called later.  What
    they promise is an interface: a machine that takes messages and makes
    steps of its own, with the messages that went out. *)
Class Machine (St Msg Out : Type) := {
  m_initial : St;
  m_step : St → option Msg → St → Prop;
  m_out : St → list Out;
}.

Section machine.
Context `{Mc : Machine St Msg Out}.

Inductive reachable : list Msg → St → Prop :=
| reach_initial : reachable [] m_initial
| reach_takes ms s m s' : reachable ms s → m_step s (Some m) s' → reachable (ms ++ [m]) s'
| reach_moves ms s s' : reachable ms s → m_step s None s' → reachable ms s'.

Definition moves (s s' : St) : Prop := m_step s None s'.

(** If no more messages come, the machine stops after finitely many steps
    whatever their order, and then exactly the wanted messages went out, in
    order; before, it never sent anything else. *)
Definition delivers (wanted : list Msg → list Out) : Prop :=
  ∀ ms s, reachable ms s → sn moves s ∧ m_out s `prefix_of` wanted ms ∧
    ∀ s', rtc moves s s' → nf moves s' → m_out s' = wanted ms.

Lemma reachable_moves ms s s' : reachable ms s → rtc moves s s' → reachable ms s'.
Proof. intros Hr. induction 1 as [|s s1 s2 H _ IH]; [done|]. apply IH. by eapply reach_moves. Qed.

(** It suffices to account for the messages still inside and to show that a
    machine with messages inside can move. *)
Lemma delivers_by (wanted : list Msg → list Out) (inside : St → list Out) (measure : St → nat) :
  (∀ s s', moves s s' → measure s' < measure s) →
  (∀ ms s, reachable ms s → wanted ms = m_out s ++ inside s ∧ (nf moves s → inside s = [])) →
  delivers wanted.
Proof.
  intros Hm Hin ms s Hr. destruct (Hin _ _ Hr) as [Hw _]. split_and!.
  - clear -Hm. remember (measure s) as n eqn:E. revert s E.
    induction (lt_wf n) as [n _ IH]; intros s ->. constructor. intros s' Hs. by eapply IH; [apply Hm|].
  - rewrite Hw. by apply prefix_app_r.
  - intros s' Hs Hnf. destruct (Hin ms s') as [Hw' Hn]; [by eapply reachable_moves|].
    by rewrite Hw', Hn, app_nil_r.
Qed.
End machine.

(** ** User space *)
(** *** FromNetlink *)

(** What a [recv] on the datagram socket meets: an error or a message. *)
Inductive received :=
| RecvError
| Datagram (d : bytes).

(** FromNetlink::selected for Linux: [peek] answers the call that asks for the
    size, [got] the one that reads.  The result is what goes to LocalProxy,
    with the annotation, if anything. *)
Definition from_selected {S : Type} (mask : Z) (peek got : received) : M S (option (addressed bytes)) :=
  if (Z.land mask SELECT_READ =? SELECT_READ)%Z then
    match peek, got with
    | RecvError, _ | _, RecvError => mret None
    | Datagram d0, Datagram d =>
        let newPacket := take (length d0) d in
        if decide (0 < length newPacket) then
          (* the header is read behind the data if the message is too short *)
          if decide (nlmsghdr_size ≤ length newPacket)
          then mret (Some (nlmsg_pid newPacket, drop nlmsghdr_size newPacket))
          else throw Uninitialised
        else mret None
    end
  else mret None.

Lemma from_selected_run {S : Type} mask (d : bytes) (s : S) :
  (Z.land mask SELECT_READ =? SELECT_READ)%Z = true → nlmsghdr_size ≤ length d →
  from_selected mask (Datagram d) (Datagram d) s = Ok (Some (nlmsg_pid d, drop nlmsghdr_size d), s).
Proof.
  intros Hm Hd. unfold from_selected. rewrite Hm, firstn_all. unfold nlmsghdr_size in *.
  by rewrite !decide_True by lia.
Qed.

(** *** ToNetlink *)

(** [out_buf_queue] of the Netlink element, the events for which the socket is
    selected, and the messages sent so far *)
Record NetlinkQueue := mkNQ {
  out_buf_queue : list (addressed buffer);
  select_read : bool;
  select_write : bool;
  sent : list (addressed buffer);
}.

(** FromNetlink::initialize selects the socket for reading. *)
Definition nq_initial : NetlinkQueue := mkNQ [] true false [].

(** ToNetlink::push.  The length field gets the size of an integer. *)
Definition to_header (pid : Z) : bytes := nlmsghdr 4 0 1 0 pid.

Definition to_push (anno : Z) (p : buffer) (s : NetlinkQueue) : NetlinkQueue :=
  mkNQ (out_buf_queue s ++ [(anno, (Some <$> to_header 9999) ++ p)]) (select_read s) true (sent s).

(** ToNetlink::selected *)
Definition to_selected (mask : Z) (s : NetlinkQueue) : NetlinkQueue :=
  if (Z.land mask SELECT_WRITE =? SELECT_WRITE)%Z then
    match out_buf_queue s with
    | m :: q => mkNQ q (select_read s) (if decide (q = []) then false else select_write s) (sent s ++ [m])
    | [] => mkNQ [] true false (sent s)
    end
  else s.

(** What happens to the elements: LocalProxy pushes, or Click finds the socket
    ready for an event it is selected for. *)
Inductive nq_step : NetlinkQueue → option (addressed buffer) → NetlinkQueue → Prop :=
| nq_push anno p s : nq_step s (Some (anno, p)) (to_push anno p s)
| nq_ready s : select_write s = true → nq_step s None (to_selected SELECT_WRITE s).

#[export] Instance to_netlink_user : Machine NetlinkQueue (addressed buffer) (addressed buffer) :=
  {| m_initial := nq_initial; m_step := nq_step; m_out := sent |}.

(** The message on the socket for a packet of LocalProxy *)
Definition to_message (m : addressed buffer) : addressed buffer :=
  (fst m, (Some <$> to_header 9999) ++ snd m).

Lemma to_selected_ready s : to_selected SELECT_WRITE s =
  match out_buf_queue s with
  | m :: q => mkNQ q (select_read s) (if decide (q = []) then false else select_write s) (sent s ++ [m])
  | [] => mkNQ [] true false (sent s)
  end.
Proof. done. Qed.

Lemma nq_reachable_inv ps s : reachable ps s →
  to_message <$> ps = sent s ++ out_buf_queue s ∧ (out_buf_queue s ≠ [] → select_write s = true).
Proof.
  induction 1 as [|ps s m s' Hr (Hq & Hw) Hst|ps s s' Hr (Hq & Hw) Hst]; [done| |].
  - inversion Hst; subst. split; [|done]. cbn. by rewrite fmap_app, Hq, <-app_assoc.
  - inversion Hst as [|? Hsel]; subst. rewrite to_selected_ready.
    destruct (out_buf_queue s) as [|m q]; [done|]. cbn.
    split; [by rewrite <-app_assoc|]. by case_decide.
Qed.

Lemma to_netlink_user_delivers : delivers (Mc := to_netlink_user) (fmap to_message).
Proof.
  apply (delivers_by _ out_buf_queue (λ s, length (out_buf_queue s) + Nat.b2n (select_write s))).
  - intros s s' Hst. inversion Hst as [|? Hsel]; subst. rewrite to_selected_ready.
    cbn. rewrite Hsel. destruct (out_buf_queue s) as [|m q]; cbn; [lia|]. case_decide; cbn; lia.
  - intros ms s Hr. destruct (nq_reachable_inv _ _ Hr) as [Hq Hw]. split; [done|]. intros Hnf.
    destruct (out_buf_queue s) as [|m q] eqn:E; [done|]. destruct Hnf. eexists. by apply nq_ready, Hw.
Qed.

(** ** Linux kernel *)
(** *** FromNetlink *)

(** The queue (its front first), whether Click has the task scheduled,
    [_from_netlink_element_state], whether [run_task] waits for the mutex, and
    what went to LocalProxy *)
Record DownTask := mkDT {
  down_queue : list (addressed bytes);
  dt_scheduled : bool;
  element_state : bool;
  dt_running : bool;
  dt_out : list (addressed bytes);
}.

Definition dt_initial : DownTask := mkDT [] false false false [].

(** nl_callback, after its checks under the mutex *)
Definition accepts (skb : bytes) : bool :=
  let skblen := Z.of_nat (length skb) in
  let nlmsglen := s32 (nlmsg_len skb) in
  negb (skblen <? 16)%Z &&
  (* the first comparison is between unsigned numbers *)
  negb (((0 <=? nlmsglen) && (nlmsglen <? 16)) || (skblen <? nlmsglen))%Z.

Definition nl_callback (skb : bytes) (s : DownTask) : DownTask :=
  if accepts skb then
    mkDT ((nlmsg_pid skb, drop nlmsghdr_size skb) :: down_queue s) true true (dt_running s) (dt_out s)
  else s.

(** FromNetlink::run_task up to the mutex, when Click takes the task *)
Definition from_run_task (s : DownTask) : DownTask :=
  mkDT (down_queue s) false false true (dt_out s).

(** and with the mutex: the loop takes the last element until none is left. *)
Fixpoint take_last {A} (n : nat) (q acc : list A) : list A :=
  match n, last q with
  | S n, Some x => take_last n (take (length q - 1) q) (acc ++ [x])
  | _, _ => acc
  end.

Definition from_run_task_locked (s : DownTask) : DownTask :=
  mkDT [] (dt_scheduled s || element_state s) (element_state s) false
    (take_last (length (down_queue s)) (down_queue s) (dt_out s)).

(** FromNetlink::cleanup kills the packets from the end of the queue. *)
Definition from_cleanup (s : DownTask) : list (addressed bytes) * DownTask :=
  (take_last (length (down_queue s)) (down_queue s) [],
   mkDT [] false (element_state s) (dt_running s) (dt_out s)).

Inductive dt_step : DownTask → option bytes → DownTask → Prop :=
| dt_callback skb s : dt_step s (Some skb) (nl_callback skb s)
| dt_start s : dt_scheduled s = true → dt_running s = false → dt_step s None (from_run_task s)
| dt_locked s : dt_running s = true → dt_step s None (from_run_task_locked s).

#[export] Instance from_netlink_kernel : Machine DownTask bytes (addressed bytes) :=
  {| m_initial := dt_initial; m_step := dt_step; m_out := dt_out |}.

Definition nl_request (skb : bytes) : addressed bytes := (nlmsg_pid skb, drop nlmsghdr_size skb).

Lemma take_last_rev {A} (q acc : list A) : take_last (length q) q acc = acc ++ reverse q.
Proof.
  revert acc. induction q as [|x q IH] using rev_ind; intros acc; [by rewrite app_nil_r|].
  rewrite length_app, Nat.add_comm. cbn. rewrite last_snoc, length_app. cbn.
  rewrite Nat.add_sub, take_app_length, IH, reverse_snoc, <-app_assoc. done.
Qed.

Lemma dt_locked_out s : dt_out (from_run_task_locked s) = dt_out s ++ reverse (down_queue s).
Proof. apply take_last_rev. Qed.

Definition accepted (ms : list bytes) : list (addressed bytes) :=
  nl_request <$> filter (λ skb, accepts skb = true) ms.

Lemma dt_reachable_inv ms s : reachable ms s →
  accepted ms = dt_out s ++ reverse (down_queue s) ∧
  (down_queue s ≠ [] → dt_scheduled s = true ∨ dt_running s = true).
Proof.
  induction 1 as [|ms s m s' Hr (Hq & Hw) Hst|ms s s' Hr (Hq & Hw) Hst]; [done| |].
  - inversion Hst; subst. unfold accepted in *. rewrite filter_app, fmap_app, Hq, <-app_assoc. unfold nl_callback.
    rewrite filter_cons, filter_nil. destruct (accepts m) eqn:Ea.
    + rewrite decide_True by done. split; [|by left]. cbn [down_queue]. by rewrite reverse_cons.
    + rewrite decide_False by congruence. cbn. by rewrite app_nil_r.
  - inversion Hst as [|? Hsc Hrun|? Hrun]; subst; cbn.
    + split; [done|by right].
    + split; [|done]. rewrite app_nil_r, take_last_rev. done.
Qed.


Lemma from_netlink_kernel_delivers : delivers (Mc := from_netlink_kernel) accepted.
Proof.
  apply (delivers_by _ (λ s, reverse (down_queue s)) (λ s,
    if dt_running s then 1 + 2 * Nat.b2n (dt_scheduled s || element_state s)
    else 2 * Nat.b2n (dt_scheduled s))).
  - intros s s' Hst. inversion Hst as [|? Hs Hr|? Hr]; subst; cbn; rewrite ?Hs, Hr; cbn; lia.
  - intros ms s Hr. destruct (dt_reachable_inv _ _ Hr) as [Hq Hw]. split; [done|]. intros Hnf.
    destruct (down_queue s) as [|m q] eqn:E; [done|]. destruct Hnf.
    destruct (dt_running s) eqn:Er; eexists; [by apply dt_locked|].
    destruct Hw as [?|?]; [done| |done]. by apply dt_start.
Qed.

(** *** ToNetlink *)

(** Where the task is in [run_task]: not in it, waiting for the mutex, or
    behind it. *)
Inductive runner := Off | Cleared | Drained.

#[export] Instance runner_eq_dec : EqDecision runner.
Proof. solve_decision. Defined.

(** The queue, the flags of the task, how many calls of [push] have queued
    their packet and not rescheduled the task yet, and how many have done both
    and not set the bit of [_to_netlink_element_state]. *)
Record UpTask := mkUT {
  up_queue : list (addressed buffer);
  ut_scheduled : bool;
  ut_state : bool;
  ut_queued : nat;
  ut_rescheduled : nat;
  ut_runner : runner;
  ut_out : list (addressed buffer);
}.

Definition ut_initial : UpTask := mkUT [] false false 0 0 Off [].

(** ToNetlink::push: under the mutex, and its two steps behind it *)
Definition up_push (anno : Z) (p : buffer) (s : UpTask) : UpTask :=
  mkUT ((anno, (Some <$> to_header 0) ++ p) :: up_queue s) (ut_scheduled s) (ut_state s)
    (S (ut_queued s)) (ut_rescheduled s) (ut_runner s) (ut_out s).
Definition up_reschedule (s : UpTask) : UpTask :=
  mkUT (up_queue s) true (ut_state s) (ut_queued s - 1) (S (ut_rescheduled s)) (ut_runner s) (ut_out s).
Definition up_set_bit (s : UpTask) : UpTask :=
  mkUT (up_queue s) (ut_scheduled s) true (ut_queued s) (ut_rescheduled s - 1) (ut_runner s) (ut_out s).

(** ToNetlink::run_task: before, with and behind the mutex *)
Definition to_run_task (s : UpTask) : UpTask :=
  mkUT (up_queue s) false false (ut_queued s) (ut_rescheduled s) Cleared (ut_out s).
Definition to_run_task_locked (s : UpTask) : UpTask :=
  mkUT [] (ut_scheduled s) (ut_state s) (ut_queued s) (ut_rescheduled s) Drained
    (take_last (length (up_queue s)) (up_queue s) (ut_out s)).
Definition to_run_task_end (s : UpTask) : UpTask :=
  mkUT (up_queue s) (ut_scheduled s || ut_state s) (ut_state s) (ut_queued s) (ut_rescheduled s) Off
    (ut_out s).

(** ToNetlink::cleanup *)
Definition to_cleanup (s : UpTask) : list (addressed buffer) * UpTask :=
  (take_last (length (up_queue s)) (up_queue s) [],
   mkUT [] false (ut_state s) (ut_queued s) (ut_rescheduled s) (ut_runner s) (ut_out s)).

Inductive ut_step : UpTask → option (addressed buffer) → UpTask → Prop :=
| ut_push anno p s : ut_step s (Some (anno, p)) (up_push anno p s)
| ut_reschedule s : 0 < ut_queued s → ut_step s None (up_reschedule s)
| ut_set_bit s : 0 < ut_rescheduled s → ut_step s None (up_set_bit s)
| ut_start s : ut_scheduled s = true → ut_runner s = Off → ut_step s None (to_run_task s)
| ut_locked s : ut_runner s = Cleared → ut_step s None (to_run_task_locked s)
| ut_end s : ut_runner s = Drained → ut_step s None (to_run_task_end s).

#[export] Instance to_netlink_kernel : Machine UpTask (addressed buffer) (addressed buffer) :=
  {| m_initial := ut_initial; m_step := ut_step; m_out := ut_out |}.

Definition up_message (m : addressed buffer) : addressed buffer :=
  (fst m, (Some <$> to_header 0) ++ snd m).

Lemma ut_reachable_inv ms s : reachable ms s →
  up_message <$> ms = ut_out s ++ reverse (up_queue s) ∧
  (up_queue s ≠ [] → ut_scheduled s = true ∨ ut_runner s = Cleared ∨ 0 < ut_queued s).
Proof.
  induction 1 as [|ms s m s' Hr (Hq & Hw) Hst|ms s s' Hr (Hq & Hw) Hst]; [done| |].
  - inversion Hst; subst. rewrite fmap_app, Hq. unfold up_push. cbn [up_queue ut_out ut_queued].
    rewrite reverse_cons, app_assoc. split; [done|lia].
  - inversion Hst; subst; cbn; (split; [by rewrite ?take_last_rev, ?app_nil_r|]); auto.
    intros Hne. destruct (Hw Hne) as [Hw'|[Hw'|Hw']]; [|congruence|by auto]. left. by rewrite Hw'.
Qed.

Lemma to_netlink_kernel_delivers : delivers (Mc := to_netlink_kernel) (fmap up_message).
Proof.
  apply (delivers_by _ (λ s, reverse (up_queue s)) (λ s, 8 * ut_queued s + 4 * ut_rescheduled s +
    match ut_runner s with
    | Off => 3 * Nat.b2n (ut_scheduled s)
    | Cleared => 2 + 3 * Nat.b2n (ut_scheduled s || ut_state s)
    | Drained => 1 + 3 * Nat.b2n (ut_scheduled s || ut_state s)
    end)).
  - intros s s' Hst. inversion Hst as [|? H|? H|? Hs H|? H|? H]; subst; cbn; rewrite ?Hs, ?H; cbn;
      destruct (ut_runner s), (ut_scheduled s), (ut_state s); cbn; lia.
  - intros ms s Hr. destruct (ut_reachable_inv _ _ Hr) as [Hq Hw]. split; [done|]. intros Hnf.
    destruct (up_queue s) as [|m q] eqn:E; [done|]. destruct Hnf.
    destruct (ut_runner s) eqn:Er; [|eexists; by apply ut_locked|eexists; by apply ut_end].
    destruct Hw as [?|[?|?]]; [done| |done|]; eexists; [by apply ut_start|by apply ut_reschedule].
Qed.

(** C15. No message is lost between applications and the proxy.  Whatever the
    order in which packets arrive, sockets become ready and tasks and
    callbacks run in parallel, the netlink elements send only what was given
    to them, in the order in which it came, and if nothing more comes they
    stop after finitely many steps with everything sent: no call leaves a
    packet in a queue that nobody will look at again.  This holds of ToNetlink
    in user space and in the kernel, and of FromNetlink in the kernel for the
    messages that pass its checks. *)
Theorem netlink_queues_deliver :
  delivers (Mc := to_netlink_user) (fmap to_message) ∧
  delivers (Mc := from_netlink_kernel) accepted ∧
  delivers (Mc := to_netlink_kernel) (fmap up_message).
Proof.
  split_and!;
    [apply to_netlink_user_delivers|apply from_netlink_kernel_delivers|apply to_netlink_kernel_delivers].
Qed.
