(* ===== verification/UserLib.v ===== *)
(** * The user library (lib/blackadder.cpp)

    What an application calls: the requests, which become messages on the
    netlink socket, and the events, which are read from it.  The socket is the
    kernel's: the messages sent are recorded, the results of [sendmsg] are a
    parameter, the answers of [recvmsg] are arguments.  Events own a block of
    the heap; a block is the list of its bytes, [None] while uninitialised. *)
From stdpp Require Import base list gmap.
From Stdlib Require Import ZArith Lia.
From S2P Require Import Prelude Enums Netlink.

Local Open Scope Z_scope.

(** ** Sending *)

(** The object: its socket, the address of the node and the messages given to
    [sendmsg], each with the socket and the address *)
Record Blackadder := mkBA {
  sock_fd : Z;
  d_pid : Z;
  ba_calls : list (Z * addressed bytes);
}.

Definition PID_BLACKADDER : Z := 9999.
Definition UNDEF_EVENT : Z := 0.

(** The constructor on Linux: [fd] is the result of [socket], [ret] that of
    [bind], whose failure ends the process. *)
Definition new_Blackadder (user_space : bool) (fd ret : Z) : option Blackadder :=
  if ret <? 0 then None
  else Some (mkBA fd (if user_space then PID_BLACKADDER else 0) []).

(** Blackadder::Instance: [made] is the object a constructor would give. *)
Definition Instance_of (m_pInstance made : option Blackadder) : option Blackadder :=
  match m_pInstance with Some b => Some b | None => made end.

(** [struct iovec]: a block of memory and how many of its bytes to send.
    [sendmsg] sends them one after the other. *)
Fixpoint gather (iov : list (bytes * nat)) : res bytes :=
  match iov with
  | [] => Ok []
  | (base, len) :: iov =>
      if decide (len ≤ length base)%nat then
        match gather iov with
        | Ok rest => Ok (take len base ++ rest)
        | Fault e => Fault e
        end
      else Fault BufferOverflow
  end.

(** [std::string::c_str()] *)
Definition c_str (s : bytes) : bytes := s ++ [0].

Definition len (s : bytes) : Z := Z.of_nat (length s).

(** The number of fragments, as [unsigned char] *)
Definition id_len (id : bytes) : Z := u8 (len id / Z.of_nat PURSUIT_ID_LEN).

Definition whole_fragments (id : bytes) : bool := len id mod Z.of_nat PURSUIT_ID_LEN =? 0.
Definition is_empty (id : bytes) : bool := len id =? 0.
Definition many_fragments (id : bytes) : bool := len id / Z.of_nat PURSUIT_ID_LEN >? 1.

Section sending.
Context (getpid : Z) (sendmsg_ret : list (Z * addressed bytes) → Z).

Definition sendmsg (iov : list (bytes * nat)) : M Blackadder Z :=
  s ← get;
  match gather iov with
  | Ok msg =>
      let calls := ba_calls s ++ [(sock_fd s, (d_pid s, msg))] in
      _ ← modify (λ s, mkBA (sock_fd s) (d_pid s) calls);
      mret (sendmsg_ret calls)
  | Fault e => throw e
  end.

(** The netlink header of a message with [n] bytes behind it *)
Definition request_header (n : Z) : bytes :=
  nlmsghdr (u32 (Z.of_nat nlmsghdr_size + n)) 0 1 0 (u32 getpid).

(** [str_opt] is NULL or a block of memory. *)
Definition opt_len (str_opt : option bytes) (str_opt_len : nat) : Z :=
  match str_opt with Some _ => Z.of_nat str_opt_len | None => 0 end.
Definition opt_iov (str_opt : option bytes) (str_opt_len : nat) : list (bytes * nat) :=
  match str_opt with Some b => [(b, str_opt_len)] | None => [] end.

Definition create_and_send_buffers (type : Z) (id prefix_id : bytes) (strategy : Z)
    (str_opt : option bytes) (str_opt_len : nat) : M Blackadder Z :=
  sendmsg ([(request_header (1 + 1 + len id + 1 + len prefix_id + 1 + opt_len str_opt str_opt_len),
             nlmsghdr_size);
            ([type], 1%nat); ([id_len id], 1%nat); (c_str id, length id);
            ([id_len prefix_id], 1%nat); (c_str prefix_id, length prefix_id); ([strategy], 1%nat)]
           ++ opt_iov str_opt str_opt_len).

(** The requests; each refuses what its checks refuse. *)
Definition publish_scope (id prefix_id : bytes) (strategy : Z) (str_opt : option bytes)
    (str_opt_len : nat) : M Blackadder unit :=
  if negb (whole_fragments id) then mret tt
  else if negb (whole_fragments prefix_id) then mret tt
  else if is_empty id then mret tt
  else _ ← create_and_send_buffers PUBLISH_SCOPE id prefix_id strategy str_opt str_opt_len; mret tt.

(** The source checks twice that the prefix is not empty, and never the
    identifier. *)
Definition publish_info (id prefix_id : bytes) (strategy : Z) (str_opt : option bytes)
    (str_opt_len : nat) : M Blackadder unit :=
  if negb (whole_fragments id) then mret tt
  else if negb (whole_fragments prefix_id) then mret tt
  else if is_empty prefix_id then mret tt
  else if is_empty prefix_id then mret tt
  else _ ← create_and_send_buffers PUBLISH_INFO id prefix_id strategy str_opt str_opt_len; mret tt.

Definition unpublish_scope (id prefix_id : bytes) (strategy : Z) (str_opt : option bytes)
    (str_opt_len : nat) : M Blackadder unit :=
  if negb (whole_fragments id) then mret tt
  else if negb (whole_fragments prefix_id) then mret tt
  else if is_empty id then mret tt
  else if many_fragments id then mret tt
  else _ ← create_and_send_buffers UNPUBLISH_SCOPE id prefix_id strategy str_opt str_opt_len; mret tt.

Definition unpublish_info (id prefix_id : bytes) (strategy : Z) (str_opt : option bytes)
    (str_opt_len : nat) : M Blackadder unit :=
  if negb (whole_fragments id) then mret tt
  else if negb (whole_fragments prefix_id) then mret tt
  else if is_empty id then mret tt
  else if is_empty prefix_id then mret tt
  else if many_fragments id then mret tt
  else _ ← create_and_send_buffers UNPUBLISH_INFO id prefix_id strategy str_opt str_opt_len; mret tt.

Definition subscribe_scope (id prefix_id : bytes) (strategy : Z) (str_opt : option bytes)
    (str_opt_len : nat) : M Blackadder unit :=
  if negb (whole_fragments id) then mret tt
  else if negb (whole_fragments prefix_id) then mret tt
  else if is_empty id then mret tt
  else if many_fragments id then mret tt
  else _ ← create_and_send_buffers SUBSCRIBE_SCOPE id prefix_id strategy str_opt str_opt_len; mret tt.

Definition subscribe_info (id prefix_id : bytes) (strategy : Z) (str_opt : option bytes)
    (str_opt_len : nat) : M Blackadder unit :=
  if negb (whole_fragments id) then mret tt
  else if negb (whole_fragments prefix_id) then mret tt
  else if is_empty id then mret tt
  else if is_empty prefix_id then mret tt
  else if many_fragments id then mret tt
  else _ ← create_and_send_buffers SUBSCRIBE_INFO id prefix_id strategy str_opt str_opt_len; mret tt.

Definition unsubscribe_scope (id prefix_id : bytes) (strategy : Z) (str_opt : option bytes)
    (str_opt_len : nat) : M Blackadder unit :=
  if negb (whole_fragments id) then mret tt
  else if negb (whole_fragments prefix_id) then mret tt
  else if is_empty id then mret tt
  else if many_fragments id then mret tt
  else _ ← create_and_send_buffers UNSUBSCRIBE_SCOPE id prefix_id strategy str_opt str_opt_len; mret tt.

Definition unsubscribe_info (id prefix_id : bytes) (strategy : Z) (str_opt : option bytes)
    (str_opt_len : nat) : M Blackadder unit :=
  if negb (whole_fragments id) then mret tt
  else if negb (whole_fragments prefix_id) then mret tt
  else if is_empty id then mret tt
  else if is_empty prefix_id then mret tt
  else if many_fragments id then mret tt
  else _ ← create_and_send_buffers UNSUBSCRIBE_INFO id prefix_id strategy str_opt str_opt_len; mret tt.

Definition disconnect : M Blackadder unit :=
  s ← get;
  if sock_fd s =? -1 then mret tt
  else
    _ ← sendmsg [(request_header 1, nlmsghdr_size); ([DISCONNECT], 1%nat)];
    modify (λ s, mkBA (-1) (d_pid s) (ba_calls s)).

(** [if (ret < 0) perror(...)], where [ret] was perhaps never assigned *)
Definition check_ret (ret : option Z) : M Blackadder Z :=
  match ret with Some r => mret r | None => throw Uninitialised end.

(** An [int] returned as [bool] *)
Definition as_bool (r : Z) : bool := negb (r =? 0).

Definition publish_data (id : bytes) (strategy : Z) (str_opt : option bytes) (str_opt_len : nat)
    (data : bytes) (data_len : nat) : M Blackadder unit :=
  ret ← (if negb (whole_fragments id) then mret None
         else
           r ← sendmsg ([(request_header (1 + 1 + len id + 1 + opt_len str_opt str_opt_len
                            + Z.of_nat data_len), nlmsghdr_size);
                         ([PUBLISH_DATA], 1%nat); ([id_len id], 1%nat); (c_str id, length id);
                         ([strategy], 1%nat)]
                        ++ opt_iov str_opt str_opt_len ++ [(data, data_len)]);
           mret (Some r));
  _ ← check_ret ret;
  mret tt.

(** publish_data with a list of nodes.  The number of nodes is stored in a
    byte, which also tells how much of the list is sent. *)
Definition publish_data_multicast (id : bytes) (strategy : Z) (str_opt : option bytes)
    (str_opt_len : nat) (nodeIds : list bytes) (data : bytes) (data_len : nat) : M Blackadder bool :=
  ret ← (if negb (whole_fragments id) then mret None
         else
           let nodeIdListSize := u8 (Z.of_nat (length nodeIds)) in
           let nodes_len := (Z.to_nat nodeIdListSize * NODEID_LEN)%nat in
           r ← sendmsg ([(request_header (1 + 1 + len id + 1 + 1 + Z.of_nat nodes_len
                            + opt_len str_opt str_opt_len + Z.of_nat data_len), nlmsghdr_size);
                         ([PUBLISH_DATA_iMULTICAST], 1%nat); ([id_len id], 1%nat);
                         (c_str id, length id); ([strategy], 1%nat)]
                        ++ opt_iov str_opt str_opt_len
                        ++ [([nodeIdListSize], 1%nat); (c_str (concat nodeIds), nodes_len);
                            (data, data_len)]);
           mret (Some r));
  r ← check_ret ret;
  mret (as_bool r).

Definition publish_data_isub (id : bytes) (strategy : Z) (str_opt : option bytes) (str_opt_len : nat)
    (isubID data : bytes) (data_len : nat) : M Blackadder bool :=
  ret ← (if negb (whole_fragments id) then mret None
         else
           let isub_len := (Z.to_nat (id_len isubID) * PURSUIT_ID_LEN)%nat in
           r ← sendmsg ([(request_header (1 + 1 + len id + 1 + 1 + Z.of_nat isub_len
                            + opt_len str_opt str_opt_len + Z.of_nat data_len), nlmsghdr_size);
                         ([PUBLISH_DATA_iSUB], 1%nat); ([id_len id], 1%nat); (c_str id, length id);
                         ([strategy], 1%nat)]
                        ++ opt_iov str_opt str_opt_len
                        ++ [([id_len isubID], 1%nat); (c_str isubID, isub_len); (data, data_len)]);
           mret (Some r));
  r ← check_ret ret;
  mret (as_bool r).
End sending.

(** ** Events *)

Notation Heap := (gmap positive buffer).

Definition malloc (n : nat) : M Heap positive :=
  h ← get;
  let b := fresh (dom h) in
  _ ← modify <[b := make_packet n]>;
  mret b.

Definition get_block (b : positive) : M Heap buffer :=
  h ← get; match h !! b with Some blk => mret blk | None => throw Dangling end.

Definition free (b : positive) : M Heap unit := _ ← get_block b; modify (delete b).

(** Writing and reading inside a block; reading needs initialised bytes. *)
Definition store (b : positive) (src : bytes) : M Heap unit :=
  blk ← get_block b;
  match memcpy blk 0 src with
  | Ok blk' => modify <[b := blk']>
  | Fault e => throw e
  end.

Definition load (b : positive) (off n : nat) : M Heap bytes :=
  blk ← get_block b;
  if decide (off + n ≤ length blk)%nat then
    match mapM id (take n (drop off blk)) with
    | Some bs => mret bs
    | None => throw Uninitialised
    end
  else throw BufferOverflow.

Definition load_byte (b : positive) (off : nat) : M Heap Z :=
  bs ← load b off 1; mret (default 0 (head bs)).

(** [data] points into a block, or nowhere. *)
Record Event := mkEvent {
  ev_type : Z;
  ev_id : bytes;
  nodeId : bytes;
  ev_isubID : bytes;
  ev_data : option (positive * nat);
  ev_data_len : Z;
  ev_buffer : option positive;
}.

(** Event::Event() *)
Definition new_Event : Event := mkEvent 0 [] [] [] None 0 None.

Definition with_type (t : Z) (ev : Event) : Event :=
  mkEvent t (ev_id ev) (nodeId ev) (ev_isubID ev) (ev_data ev) (ev_data_len ev) (ev_buffer ev).

(** The fields of the event in the [bytes_read] bytes of block [b] *)
Definition parse_event (ev : Event) (b : positive) (bytes_read : nat) : M Heap Event :=
  let ptr := nlmsghdr_size in
  type ← load_byte b ptr;
  idlen ← load_byte b (ptr + 1);
  ID ← load b (ptr + 2) (Z.to_nat idlen * PURSUIT_ID_LEN);
  let ptr := (ptr + 2 + Z.to_nat idlen * PURSUIT_ID_LEN)%nat in
  if type =? PUBLISHED_DATA then
    mret (mkEvent type ID (nodeId ev) (ev_isubID ev) (Some (b, ptr))
            (u32 (Z.of_nat bytes_read - Z.of_nat ptr)) (Some b))
  else if type =? PUBLISHED_DATA_iSUB then
    nid ← load b ptr NODEID_LEN;
    let ptr := (ptr + NODEID_LEN)%nat in
    isublen ← load_byte b ptr;
    isub ← load b (ptr + 1) (Z.to_nat isublen * PURSUIT_ID_LEN);
    let ptr := (ptr + 1 + Z.to_nat isublen * PURSUIT_ID_LEN)%nat in
    mret (mkEvent type ID nid isub (Some (b, ptr))
            (u32 (Z.of_nat bytes_read - Z.of_nat ptr)) (Some b))
  else mret (mkEvent type ID (nodeId ev) (ev_isubID ev) None 0 (Some b)).

(** getEventIntoBuf on Linux: [peek] answers the call that asks for the size,
    [got] the one that reads, [mem] tells whether there is memory. *)
Definition read_into (ev : Event) (b : positive) (iov_len : nat) (got : received) : M Heap Event :=
  match got with
  | RecvError => _ ← free b; mret (with_type UNDEF_EVENT ev)
  | Datagram d =>
      _ ← store b (take iov_len d);
      let bytes_read := length (take iov_len d) in
      if decide (bytes_read < nlmsghdr_size)%nat
      then _ ← free b; mret (with_type UNDEF_EVENT ev)
      else parse_event ev b bytes_read
  end.

Definition getEventIntoBuf (ev : Event) (data : option positive) (data_len : nat) (mem : bool)
    (peek got : received) : M Heap Event :=
  match peek with
  | Datagram (x :: d) =>
      let total_buf_size := length (x :: d) in
      match data with
      | None =>
          if mem then b ← malloc total_buf_size; read_into ev b total_buf_size got
          else mret (with_type UNDEF_EVENT ev)
      | Some b => read_into ev b data_len got
      end
  | _ => mret (with_type UNDEF_EVENT ev)
  end.

Definition getEvent (ev : Event) (mem : bool) (peek got : received) : M Heap Event :=
  getEventIntoBuf ev None 0 mem peek got.

(** Event::~Event() *)
Definition destroy_Event (ev : Event) : M Heap unit :=
  match ev_buffer ev with Some b => free b | None => mret tt end.

(** Event::Event(Event &).  The size counts the string object that holds the
    node, whose size the implementation of the language chooses. *)
Definition copy_size (sizeof_string : nat) (ev : Event) : nat :=
  (nlmsghdr_size + 1 + 1 + length (ev_id ev) + sizeof_string + 1 + length (ev_isubID ev)
   + Z.to_nat (ev_data_len ev))%nat.

Definition copy_Event (sizeof_string : nat) (ev : Event) : M Heap Event :=
  let n := copy_size sizeof_string ev in
  b ← malloc n;
  match ev_buffer ev with
  | None => throw NullDeref
  | Some src =>
      blk ← get_block src;
      if decide (n ≤ length blk)%nat then
        _ ← modify <[b := take n blk]>;
        mret (mkEvent (ev_type ev) (ev_id ev) (nodeId ev) (ev_isubID ev)
          (Some (b, n - Z.to_nat (ev_data_len ev))%nat) (ev_data_len ev) (Some b))
      else throw BufferOverflow
  end.

(** What the application finds behind [data] *)
Definition event_data (ev : Event) : M Heap bytes :=
  match ev_data ev with
  | Some (b, off) => load b off (Z.to_nat (ev_data_len ev))
  | None => mret []
  end.

(** ** Identifiers in hexadecimal *)

(** Characters of a digit *)
Definition hex_digit (n : Z) : Z := if n <? 10 then 48 + n else 97 + (n - 10).

(** [oss << hex << n] for a byte *)
Definition put_hex (n : Z) : bytes :=
  if n <? 16 then [hex_digit n] else [hex_digit (n / 16); hex_digit (n mod 16)].

Definition chararray_to_hex (str : bytes) : bytes :=
  str ≫= λ c, if c >? 15 then put_hex c else [48] ++ put_hex c.

Definition digit_of (c : Z) : option Z :=
  if (48 <=? c) && (c <=? 57) then Some (c - 48)
  else if (97 <=? c) && (c <=? 102) then Some (c - 87)
  else if (65 <=? c) && (c <=? 70) then Some (c - 55)
  else None.

Definition is_space (c : Z) : bool := (c =? 32) || ((9 <=? c) && (c <=? 13)).

(** [iss >> hex >> n] for a stream of two characters: blanks are skipped, then
    a sign and digits are read, as far as there are any.  Without digits the
    result is 0, at the end of the stream [n] is not assigned. *)
Definition get_hex (a b : Z) : option Z :=
  match digit_of a, digit_of b with
  | Some x, Some y => Some (16 * x + y)
  | Some x, None => Some x
  | None, Some y =>
      if is_space a || (a =? 43) then Some y
      else if a =? 45 then Some (u32 (- y))
      else Some 0
  | None, None => if is_space a && is_space b then None else Some 0
  end.

Fixpoint hex_to_chararray (hexstr : bytes) : res bytes :=
  match hexstr with
  | a :: b :: hexstr =>
      match get_hex a b, hex_to_chararray hexstr with
      | Some n, Ok rest => Ok (u8 n :: rest)
      | Some _, Fault e => Fault e
      | None, _ => Fault Uninitialised
      end
  | _ => Ok []
  end.

(** ** Lists of numbers *)

(** [getline] with a delimiter, until the end *)
Fixpoint split_on (delim : Z) (s : bytes) : list bytes :=
  match s with
  | [] => [[]]
  | c :: s =>
      if c =? delim then [] :: split_on delim s
      else match split_on delim s with
           | tok :: toks => (c :: tok) :: toks
           | [] => [[c]]
           end
  end.

Fixpoint skip_spaces (s : bytes) : bytes :=
  match s with c :: s' => if is_space c then skip_spaces s' else s | [] => [] end.

(** Decimal digits in front of [s], behind those already read *)
Fixpoint read_digits (s : bytes) (acc : option Z) : option Z :=
  match s with
  | c :: s' =>
      if (48 <=? c) && (c <=? 57) then read_digits s' (Some (10 * default 0 acc + (c - 48))) else acc
  | [] => acc
  end.

Definition clamp_int (z : Z) : Z := Z.max (-2147483648) (Z.min 2147483647 z).

(** [stringstream(tok) >> n] for an [int]; [n] is not assigned at the end of
    the stream. *)
Definition get_int (tok : bytes) : option Z :=
  match skip_spaces tok with
  | [] => None
  | c :: s =>
      if c =? 45 then Some (clamp_int (- default 0 (read_digits s None)))
      else if c =? 43 then Some (clamp_int (default 0 (read_digits s None)))
      else Some (clamp_int (default 0 (read_digits (c :: s) None)))
  end.

Fixpoint get_ints (toks : list bytes) : res (list Z) :=
  match toks with
  | [] => Ok []
  | [] :: toks => get_ints toks
  | tok :: toks =>
      match get_int tok, get_ints toks with
      | Some n, Ok ns => Ok (n :: ns)
      | Some _, Fault e => Fault e
      | None, _ => Fault Uninitialised
      end
  end.

Definition split_int_string (input_str : bytes) (delim_char : Z) : res (list Z) :=
  get_ints (split_on delim_char input_str).

(** get_chararray_sid: [depth] is unsigned, and so is the comparison. *)
Definition get_chararray_sid (icnid : bytes) (depth : Z) : bytes * Z :=
  let id_len := len icnid / Z.of_nat PURSUIT_ID_LEN in
  let depth := if depth >? u32 (id_len - 1) then u32 (id_len - 1) else depth in
  (take (Z.to_nat (u32 (depth * Z.of_nat PURSUIT_ID_LEN))) icnid, depth).
