(* ===== verification/UserProps.v ===== *)
(** * The user library: its properties

    What the requests and the events of an application amount to in the node,
    from the call of the library to the proxy and back. *)
From stdpp Require Import base list gmap sets.
From Stdlib Require Import ZArith Lia.
From S2P Require Import Prelude Enums Bitvector GlobalConf InfoGraph LocalRV RVSafety RVRequests RVProps RVRendezvous LocalProxy ProxyInv ProxyLeave ProxyProps ProxyData ProxyNet ProxySafety ProxyDelivery Netlink UserLib.

(** ** Messages *)

Lemma gather_fits iov : Forall (λ e, snd e ≤ length (fst e)) iov →
  gather iov = Ok (concat ((λ e, take (snd e) (fst e)) <$> iov)).
Proof.
  induction iov as [|[base n] iov IH]; [done|]. intros [Hn Hi]%Forall_cons. cbn in *.
  by rewrite decide_True, IH.
Qed.

Lemma take_c_str id : take (length id) (c_str id) = id.
Proof. apply take_app_length. Qed.

Lemma length_c_str id : length id ≤ length (c_str id).
Proof. unfold c_str. rewrite length_app. lia. Qed.

Lemma id_len_frags k id : frags k id → id_len id = Z.of_nat k.
Proof.
  intros [Hk ?]. unfold id_len, len, u8. rewrite Hk, Nat2Z.inj_mul, Z.div_mul by done.
  apply Z.mod_small. lia.
Qed.

Lemma whole_frags k id : frags k id → whole_fragments id = true.
Proof. intros [Hk _]. unfold whole_fragments, len. by rewrite Hk, Nat2Z.inj_mul, Z_mod_mult. Qed.

Lemma empty_frags k id : frags k id → is_empty id = (k =? 0)%nat.
Proof.
  intros [Hk _]. unfold is_empty, len. rewrite Hk. unfold PURSUIT_ID_LEN.
  destruct (Nat.eqb_spec k 0) as [->|]; [done|]. apply Z.eqb_neq. lia.
Qed.

Lemma many_frags k id : frags k id → many_fragments id = (1 <? k)%nat.
Proof.
  intros [Hk _]. unfold many_fragments, len. rewrite Hk, Nat2Z.inj_mul, Z.div_mul by done.
  destruct (Nat.ltb_spec 1 k); [apply Z.gtb_gt|rewrite Z.gtb_ltb; apply Z.ltb_ge]; lia.
Qed.

Ltac fits_iov :=
  repeat (apply Forall_cons; split; [cbn [fst snd]; first [apply length_c_str|cbn; lia]|]).

(** ** Requests *)

Section requests.
Context (getpid : Z) (sendmsg_ret : list (Z * addressed bytes) → Z).

(** The message for a request *)
Definition request_message (body : bytes) : bytes :=
  request_header getpid (len body) ++ body.

Definition sent_to_node (msg : bytes) (s : Blackadder) : Blackadder :=
  mkBA (sock_fd s) (d_pid s) (ba_calls s ++ [(sock_fd s, (d_pid s, msg))]).

Lemma sendmsg_run iov msg s : gather iov = Ok msg → ∃ r,
  sendmsg sendmsg_ret iov s = Ok (r, sent_to_node msg s).
Proof. intros Hg. eexists. unfold sendmsg, mbind, M_bind, get. by rewrite Hg. Qed.

(** The optional bytes of a request *)
Definition opt_fits (opt : option bytes) (n : nat) : Prop :=
  match opt with Some b => n ≤ length b | None => True end.
Definition opt_bytes (opt : option bytes) (n : nat) : bytes :=
  match opt with Some b => take n b | None => [] end.

Lemma opt_iov_fits opt n : opt_fits opt n → Forall (λ e, snd e ≤ length (fst e)) (opt_iov opt n).
Proof. destruct opt; cbn; [by intros; apply Forall_singleton|by intros; apply Forall_nil]. Qed.

Lemma concat_opt_iov opt n : concat ((λ e, take (snd e) (fst e)) <$> opt_iov opt n) = opt_bytes opt n.
Proof. destruct opt; cbn; [by rewrite app_nil_r|done]. Qed.

Lemma len_opt opt n : opt_fits opt n → opt_len opt n = len (opt_bytes opt n).
Proof. destruct opt; cbn; [|done]. intros Hn. unfold len. rewrite length_take. lia. Qed.

Lemma gather_message n iov body : Forall (λ e, snd e ≤ length (fst e)) iov →
  concat ((λ e, take (snd e) (fst e)) <$> iov) = body → n = len body →
  gather ((request_header getpid n, nlmsghdr_size) :: iov) = Ok (request_message body).
Proof. intros Hf <- ->. rewrite gather_fits by (by apply Forall_cons). done. Qed.

Lemma create_and_send_run type ID prefixID strategy opt n k m s :
  frags k ID → frags m prefixID → opt_fits opt n → ∃ r,
  create_and_send_buffers getpid sendmsg_ret type ID prefixID strategy opt n s
  = Ok (r, sent_to_node (request_message (local_request type ID prefixID strategy ++ opt_bytes opt n)) s).
Proof.
  intros HID Hpre Hopt. unfold create_and_send_buffers. apply sendmsg_run. apply gather_message.
  - fits_iov. by apply opt_iov_fits.
  - cbn [app]. rewrite !fmap_cons, !concat_cons, concat_opt_iov. cbn [fst snd].
    rewrite !take_c_str, (id_len_frags _ _ HID), (id_len_frags _ _ Hpre).
    unfold local_request. rewrite (level_frags _ _ HID), (level_frags _ _ Hpre).
    cbn [take app]. rewrite <-!app_assoc. cbn [app]. by rewrite <-app_assoc.
  - rewrite (len_opt _ _ Hopt). unfold len, local_request. rewrite !length_app. cbn [length]. lia.
Qed.

(** ** Data *)

Lemma publish_data_part ID strategy opt n data m k s : frags k ID → opt_fits opt n → (m ≤ length data)%nat →
  publish_data getpid sendmsg_ret ID strategy opt n data m s
  = Ok (tt, sent_to_node (request_message (data_packet ID strategy (opt_bytes opt n ++ take m data))) s).
Proof.
  intros HID Hopt Hm. unfold publish_data. rewrite (whole_frags _ _ HID). cbn [negb].
  match goal with |- context [sendmsg _ ?iov] => destruct (sendmsg_run iov
    (request_message (data_packet ID strategy (opt_bytes opt n ++ take m data))) s) as [r Hr] end.
  - apply gather_message.
    + fits_iov. apply Forall_app. split; [by apply opt_iov_fits|]. by apply Forall_singleton.
    + cbn [app]. rewrite !fmap_cons, !concat_cons, fmap_app, concat_app, concat_opt_iov.
      cbn [fmap list_fmap fst snd concat]. rewrite take_c_str, (id_len_frags _ _ HID), app_nil_r.
      unfold data_packet. by rewrite (level_frags _ _ HID).
    + rewrite (len_opt _ _ Hopt). unfold len, data_packet. rewrite !length_app, length_take. cbn [length]. lia.
  - erewrite run_bind; [|rewrite (run_bind _ _ _ _ _ Hr); reflexivity]. done.
Qed.

Lemma publish_data_run ID strategy opt n data k s : frags k ID → opt_fits opt n →
  publish_data getpid sendmsg_ret ID strategy opt n data (length data) s
  = Ok (tt, sent_to_node (request_message (data_packet ID strategy (opt_bytes opt n ++ data))) s).
Proof. intros HID Hopt. by rewrite (publish_data_part ID strategy opt n data (length data) k s HID Hopt), firstn_all. Qed.

(** FromNetlink gives the body of a message to the proxy in the name of the
    process. *)
Lemma node_reads {S : Type} (body : bytes) (st : S) : (0 ≤ getpid < 4294967296)%Z →
  from_selected SELECT_READ (Datagram (request_message body)) (Datagram (request_message body)) st
  = Ok (Some (getpid, body), st).
Proof.
  intros Hpid. rewrite from_selected_run; [|done|].
  - unfold request_message, request_header. rewrite nlmsg_pid_hdr by (apply Z.mod_pos_bound; lia).
    do 4 f_equal. by apply Z.mod_small.
  - unfold request_message. rewrite length_app. unfold request_header. rewrite length_nlmsghdr. lia.
Qed.
End requests.

(** ** Events *)

Lemma mapM_Some (l : bytes) : mapM id (Some <$> l) = Some l.
Proof. induction l as [|x l IH]; [done|]. cbn. by rewrite IH. Qed.

Section events.
Context (b : positive) (d : bytes) (h : gmap positive buffer).
Hypothesis Hb : h !! b = Some (Some <$> d).

Lemma load_run off n : off + n ≤ length d → load b off n h = Ok (substr d off n, h).
Proof.
  intros Hn. unfold load, get_block, mbind, M_bind, get. rewrite Hb.
  unfold mret, M_ret. rewrite decide_True by (by rewrite length_fmap).
  by rewrite <-fmap_drop, <-fmap_take, mapM_Some.
Qed.

Lemma load_at pre mid post off n : d = pre ++ mid ++ post → off = length pre → n = length mid →
  load b off n h = Ok (mid, h).
Proof.
  intros Hd -> ->. rewrite load_run by (rewrite Hd, !length_app; lia).
  unfold substr. by rewrite Hd, drop_app_length, take_app_length.
Qed.

Lemma load_byte_at pre x post off : d = pre ++ x :: post → off = length pre →
  load_byte b off h = Ok (x, h).
Proof.
  intros Hd Hoff. unfold load_byte. rewrite (run_bind _ _ h [x] h); [done|].
  by apply (load_at pre [x] post).
Qed.
End events.

(** A message of the node: a header and the packet of the proxy *)
Lemma parse_data_run ev b hdr id k data h : length hdr = nlmsghdr_size → frags k id →
  let d := hdr ++ local_data PUBLISHED_DATA id data in
  h !! b = Some (Some <$> d) →
  parse_event ev b (length d) h
  = Ok (mkEvent PUBLISHED_DATA id (nodeId ev) (ev_isubID ev) (Some (b, length d - length data))
          (u32 (len data)) (Some b), h).
Proof.
  intros Hh Hid d Hb. pose proof Hid as [Hlen Hk]. set (p := nlmsghdr_size).
  assert (fragments id = Z.of_nat k) as Hf.
  { unfold fragments. rewrite Hlen, Nat.div_mul by done. apply Z.mod_small. lia. }
  assert (d = hdr ++ PUBLISHED_DATA :: (Z.of_nat k :: id ++ data)) as Hd1 by (unfold d, local_data; by rewrite Hf).
  assert (d = (hdr ++ [PUBLISHED_DATA]) ++ Z.of_nat k :: (id ++ data)) as Hd2 by (by rewrite Hd1, <-app_assoc).
  assert (d = (hdr ++ [PUBLISHED_DATA; Z.of_nat k]) ++ id ++ data) as Hd3 by (by rewrite Hd1, <-app_assoc).
  assert (length d = p + 2 + k * PURSUIT_ID_LEN + length data) as Hl.
  { rewrite Hd3, !length_app, Hlen, Hh. cbn. lia. }
  unfold parse_event. fold p.
  rewrite (run_bind _ _ _ _ _ (load_byte_at b d h Hb _ _ _ p Hd1 (eq_sym Hh))).
  rewrite (run_bind _ _ _ _ _ (load_byte_at b d h Hb _ _ _ (p + 1) Hd2 ltac:(by rewrite length_app, Hh))).
  rewrite (run_bind _ _ h id h); cycle 1.
  { rewrite Nat2Z.id. apply (load_at b d h Hb _ _ _ _ _ Hd3); [by rewrite length_app, Hh|done]. }
  rewrite Z.eqb_refl, Nat2Z.id.
  replace (length d - length data) with (p + 2 + k * PURSUIT_ID_LEN) by lia.
  replace (Z.of_nat (length d) - Z.of_nat (p + 2 + k * PURSUIT_ID_LEN))%Z with (len data)
    by (unfold len; lia).
  done.
Qed.

(** A block that is filled with a message *)
Lemma received_run ev d h : d ≠ [] → nlmsghdr_size ≤ length d →
  let b := fresh (dom h) in
  getEvent ev true (Datagram d) (Datagram d) h
  = parse_event ev b (length d) (<[b := Some <$> d]> h).
Proof.
  intros Hne Hd b. unfold getEvent, getEventIntoBuf. destruct d as [|x d']; [done|].
  set (d := x :: d') in *. unfold malloc. rewrite (run_bind _ _ h b (<[b := make_packet (length d)]> h)) by done.
  unfold read_into. rewrite firstn_all, decide_False by lia.
  rewrite (run_bind _ _ _ tt (<[b := Some <$> d]> h)); [done|].
  unfold store. rewrite (run_bind _ _ _ (make_packet (length d)) (<[b := make_packet (length d)]> h)); cycle 1.
  { unfold get_block, mbind, M_bind, get. by rewrite lookup_insert_eq. }
  pose proof (memcpys_exact [d]) as Hm. cbn [memcpys concat] in Hm. rewrite app_nil_r in Hm.
  destruct (memcpy (make_packet (length d)) 0 d) as [q|e]; [|done].
  injection Hm as ->. unfold modify. by rewrite insert_insert_eq.
Qed.

(** The application gets the event that a message stands for: its type, name
    and data, and when the event is destroyed no memory is left over. *)
Definition gives_event (d : bytes) (type : Z) (id data : bytes) : Prop :=
  ∀ h, ∃ ev h', getEvent new_Event true (Datagram d) (Datagram d) h = Ok (ev, h') ∧
    ev_type ev = type ∧ ev_id ev = id ∧ event_data ev h' = Ok (data, h') ∧
    destroy_Event ev h' = Ok (tt, h).

Lemma data_event hdr id k data : length hdr = nlmsghdr_size → frags k id →
  (len data < 4294967296)%Z → gives_event (hdr ++ local_data PUBLISHED_DATA id data) PUBLISHED_DATA id data.
Proof.
  intros Hh Hid Hdata h. set (d := hdr ++ _). set (b := fresh (dom h)).
  assert (length d = nlmsghdr_size + 2 + length id + length data) as Hl.
  { unfold d, local_data. rewrite !length_app, Hh. cbn [length]. lia. }
  assert (h !! b = None) as Hb by apply not_elem_of_dom, is_fresh.
  eexists _, _. split.
  { rewrite received_run; [apply (parse_data_run _ _ hdr id k data); [done|done|apply lookup_insert_eq]|..].
    - intros H. rewrite H in Hl. cbn in Hl. lia.
    - lia. }
  split_and!; [done|done| |].
  - unfold event_data. cbn [ev_data ev_data_len].
    assert (Z.to_nat (u32 (len data)) = length data) as ->.
    { unfold u32, len in *. rewrite Z.mod_small by lia. lia. }
    apply (load_at b d _ (lookup_insert_eq _ _ _) (hdr ++ [PUBLISHED_DATA; fragments id] ++ id) data []).
    + unfold d, local_data. by rewrite app_nil_r, <-!app_assoc.
    + fold d. rewrite Hl, !length_app, Hh. cbn [length]. lia.
    + done.
  - cbn. unfold free, get_block, mbind, M_bind, get, modify. rewrite lookup_insert_eq. cbn.
    rewrite delete_insert_eq, delete_id by done. done.
Qed.

(** ** The interface of the library *)

Notation request_call := (bytes → bytes → Z → option bytes → nat → M Blackadder unit).

Section api.
Context `{HO : HashOrder} (getpid : Z) (sendmsg_ret : list (Z * addressed bytes) → Z).

Definition api : list (Z * request_call) :=
  [(PUBLISH_SCOPE, publish_scope getpid sendmsg_ret); (PUBLISH_INFO, publish_info getpid sendmsg_ret);
   (UNPUBLISH_SCOPE, unpublish_scope getpid sendmsg_ret);
   (UNPUBLISH_INFO, unpublish_info getpid sendmsg_ret);
   (SUBSCRIBE_SCOPE, subscribe_scope getpid sendmsg_ret);
   (SUBSCRIBE_INFO, subscribe_info getpid sendmsg_ret);
   (UNSUBSCRIBE_SCOPE, unsubscribe_scope getpid sendmsg_ret);
   (UNSUBSCRIBE_INFO, unsubscribe_info getpid sendmsg_ret)].

(** What the documentation of the requests allows: identifiers of whole
    fragments, a prefix for an item, and more than one fragment only for what
    is published again somewhere else. *)
Definition about_item (type : Z) : bool :=
  ((type =? PUBLISH_INFO) || (type =? UNPUBLISH_INFO) || (type =? SUBSCRIBE_INFO)
   || (type =? UNSUBSCRIBE_INFO))%Z.
Definition allowed (type : Z) (id prefix_id : bytes) : bool :=
  whole_fragments id && whole_fragments prefix_id && negb (is_empty id) &&
  (publishing type || negb (many_fragments id)) && (negb (about_item type) || negb (is_empty prefix_id)).

Lemma api_sends type call id prefix_id strategy opt n : (type, call) ∈ api →
  allowed type id prefix_id = true →
  call id prefix_id strategy opt n
  = (_ ← create_and_send_buffers getpid sendmsg_ret type id prefix_id strategy opt n; mret tt).
Proof.
  intros Hin. unfold allowed.
  destruct (whole_fragments id) eqn:E1, (whole_fragments prefix_id) eqn:E2, (is_empty id) eqn:E3,
    (is_empty prefix_id) eqn:E4, (many_fragments id) eqn:E5; cbn [andb negb orb]; try done;
  unfold api in Hin; rewrite !elem_of_cons, elem_of_nil in Hin;
  repeat (destruct Hin as [[= -> ->]|Hin]); try done;
  intros Ha; cbv in Ha; try discriminate Ha;
  cbv [publish_scope publish_info unpublish_scope unpublish_info subscribe_scope subscribe_info
    unsubscribe_scope unsubscribe_info]; by rewrite ?E1, ?E2, ?E3, ?E4, ?E5.
Qed.

(** An advertisement with a prefix but without an identifier of its own *)
Definition unnamed (type : Z) (id prefix_id : bytes) : Prop :=
  type = PUBLISH_INFO ∧ id = [] ∧ prefix_id ≠ [] ∧ whole_fragments prefix_id = true.
#[global] Instance unnamed_dec type id prefix_id : Decision (unnamed type id prefix_id).
Proof. unfold unnamed. apply _. Defined.

Lemma api_refuses type call id prefix_id strategy opt n : (type, call) ∈ api →
  allowed type id prefix_id = false → ¬ unnamed type id prefix_id →
  call id prefix_id strategy opt n = mret tt.
Proof.
  intros Hin Ha Hne.
  assert (is_empty id = true → whole_fragments prefix_id = true → is_empty prefix_id = false → type ≠ PUBLISH_INFO) as Hne'.
  { intros He Hw Hp ->. apply Hne. split_and!; [done| | |done].
    - apply nil_length_inv. unfold is_empty, len in He. lia.
    - by intros ->. }
  clear Hne. unfold allowed in Ha.
  unfold api in Hin; rewrite !elem_of_cons, elem_of_nil in Hin;
  repeat (destruct Hin as [[= -> ->]|Hin]); try done;
  cbn [publishing about_item Z.eqb] in Ha;
  cbv [publish_scope publish_info unpublish_scope unpublish_info subscribe_scope subscribe_info
    unsubscribe_scope unsubscribe_info];
  destruct (whole_fragments id) eqn:E1, (whole_fragments prefix_id) eqn:E2, (is_empty id) eqn:E3,
    (is_empty prefix_id) eqn:E4, (many_fragments id) eqn:E5; cbn [negb]; try done; cbv in Ha; try discriminate Ha;
  by destruct Hne'.
Qed.

(** The check of publish_info asks twice for the prefix and not for the
    identifier. *)
Lemma api_unnamed type call prefix_id strategy m lib : (type, call) ∈ api → unnamed type [] prefix_id → frags m prefix_id →
  call [] prefix_id strategy None 0 lib
  = Ok (tt, sent_to_node (request_message getpid (local_request type [] prefix_id strategy)) lib).
Proof.
  intros Hin (-> & _ & Hne & Hw) Hpre.
  destruct (create_and_send_run getpid sendmsg_ret PUBLISH_INFO [] prefix_id strategy None 0 0 m lib) as [r Hr];
    [split; [done|lia]|done|done|]. cbn [opt_bytes] in Hr. rewrite app_nil_r in Hr.
  assert (is_empty prefix_id = false) as He by (by destruct prefix_id).
  unfold api in Hin; rewrite !elem_of_cons, elem_of_nil in Hin; repeat (destruct Hin as [[= ->]|Hin]); try done.
  unfold publish_info. change (whole_fragments []) with true. rewrite Hw, He. cbn [negb]. by rewrite (run_bind _ _ _ _ _ Hr).
Qed.

Lemma frags_whole id : whole_fragments id = true → length id ≤ 255 * PURSUIT_ID_LEN → frags (level id) id.
Proof.
  unfold whole_fragments, len. intros Hw%Z.eqb_eq Hl.
  rewrite <-Nat2Z.inj_mod in Hw. assert (length id mod PURSUIT_ID_LEN = 0) as Hm by lia.
  pose proof (Nat.div_mod (length id) PURSUIT_ID_LEN ltac:(done)) as Hd.
  unfold frags, level, PURSUIT_ID_LEN in *. lia.
Qed.

(** C14. A call of one of the eight requests of the library, with identifiers
    of at most 255 fragments, by a process that the proxy of the node knows.
    If the documentation allows its arguments, one message goes to the node,
    the node reads in it the request in the name of the calling process, and
    the proxy serves it as in C4: the pair of process and identifier enters or
    leaves the relation of publications or subscriptions, if the strategy
    fits, and the request goes to the rendezvous point or is freed.
    publish_info with a prefix and an empty identifier, which is not allowed,
    is sent all the same.  Every other call sends nothing. *)
Theorem api_request_served (type : Z) (call : request_call) (ID prefixID : bytes) (strategy : Z)
    (h : positive) (lib : Blackadder) (node : Node) :
  gc_ok (n_gc node) → px_inv (pst (n_px node)) → (0 ≤ getpid < 4294967296)%Z →
  local_pub_sub_Index (pst (n_px node)) !! getpid = Some h → (type, call) ∈ api →
  length ID ≤ 255 * PURSUIT_ID_LEN → length prefixID ≤ 255 * PURSUIT_ID_LEN →
  let request := local_request type ID prefixID strategy in
  if allowed type ID prefixID then
    ∃ msg forward s1,
      call ID prefixID strategy None 0 lib = Ok (tt, sent_to_node msg lib) ∧
      from_selected SELECT_READ (Datagram msg) (Datagram msg) node = Ok (Some (getpid, request), node) ∧
      local_contract type h (full_id ID prefixID) strategy (n_px node) forward s1 ∧
      push 0 getpid request node
        = Ok (tt, put_px (mkPx (pst s1) (pout (n_px node) ++ [if forward : bool then
            forwarded (n_gc node) (rv_fid (n_gc node) strategy) request else Freed]))
            (put_packet None node))
  else call ID prefixID strategy None 0 lib
    = Ok (tt, if decide (unnamed type ID prefixID) then sent_to_node (request_message getpid request) lib else lib).
Proof.
  intros Hgc Hinv Hpid Hi Hin HIDl Hprel request. subst request. destruct (allowed type ID prefixID) eqn:Ha.
  - assert (∃ k, frags (S k) ID) as [k HID].
    { unfold allowed in Ha. rewrite !andb_true_iff in Ha. destruct Ha as [[[[Hw _] He] _] _].
      pose proof (frags_whole ID Hw HIDl) as HID. unfold is_empty, len in He.
      destruct (level ID) as [|k] eqn:E; [|by exists k]. destruct HID as [HID _]. cbn in HID. rewrite HID in He. done. }
    assert (∃ m, frags m prefixID) as [m Hpre].
    { unfold allowed in Ha. rewrite !andb_true_iff in Ha. destruct Ha as [[[[_ Hw] _] _] _]. eexists. by apply frags_whole. }
    destruct (create_and_send_run getpid sendmsg_ret type ID prefixID strategy None 0 (S k) m lib) as [r Hr];
      [done|done|done|]. cbn [opt_bytes] in Hr. rewrite app_nil_r in Hr.
    assert (type ≠ DISCONNECT ∧ carries_data type = false) as [Ht Hd].
    { unfold api in Hin. rewrite !elem_of_cons, elem_of_nil in Hin.
      repeat (destruct Hin as [[= -> _]|Hin]); done. }
    destruct (local_request_run (n_gc node) 0 getpid type ID prefixID strategy h k m (n_px node))
      as (fwd & s1 & Hc & Hrun); [done..|].
    eexists _, fwd, s1. split_and!; [| |done|].
    + rewrite (api_sends type call) by done. by rewrite (run_bind _ _ _ _ _ Hr).
    + by apply node_reads.
    + rewrite push_is_push_local; [|done|done|]; cycle 1.
      { cbn. by intros ? [= <-]. }
      rewrite lift_tt. change (n_px (put_packet None node)) with (n_px node). by rewrite Hrun.
  - case_decide as Hun; [|by rewrite (api_refuses type call)].
    pose proof Hun as (_ & -> & _ & Hw). eapply api_unnamed; [done|done|by apply frags_whole].
Qed.

(** ** From application to application *)

Lemma frags_wire id : wire_id id → frags (level id) id.
Proof.
  intros (k & Hk & Hle). assert (level id = k) as -> by (unfold level; rewrite Hk; by apply Nat.div_mul).
  split; [done|lia].
Qed.

(** C8. Data go from application to application unchanged.  A process of one
    node calls publish_data for an item that has a FID: the message reaches
    its proxy, one packet with the FID leaves for the network, and at a node
    that gets its body every process that subscribed to a name of the item, or
    to the scope above it, is sent exactly one message; when the process asks
    for an event it gets PUBLISHED_DATA with such a name and exactly the bytes
    that were published, and destroying the event frees its memory. *)
Theorem data_from_application_to_application (anno : Z) (ID : bytes) (strategy : Z) (data : bytes)
    (h0 : positive) (ap : ActivePublication) (IDs : list bytes) (lib : Blackadder) (a b : Node) :
  (0 ≤ getpid < 4294967296)%Z → (len data < 4294967296)%Z →
  px_inv (pst (n_px a)) → local_pub_sub_Index (pst (n_px a)) !! getpid = Some h0 →
  wire_id ID → by_rendezvous strategy = true →
  publication_for (pst (n_px a)) ID = Some (ap, IDs) →
  zero (FID_to_subscribers ap) = false → wire_ids IDs →
  px_inv (pst (n_px b)) → IDs ≠ [notificationIID (n_gc b)] → IDs ≠ [pathMgmtIID (n_gc b)] →
  ∃ msg packet a' sent body subs,
    publish_data getpid sendmsg_ret ID strategy None 0 data (length data) lib
      = Ok (tt, sent_to_node msg lib) ∧
    from_selected SELECT_READ (Datagram msg) (Datagram msg) a = Ok (Some (getpid, packet), a) ∧
    push 0 getpid packet a = Ok (tt, a') ∧
    pout (n_px a') = pout (n_px a) ++ sent ∧
    Output 2 None (Some <$> fid_bytes (FID_to_subscribers ap) ++ body) ∈ sent ∧
    push 2 anno body b
      = Ok (tt, sends (deliveries (pst (n_px b)) PUBLISHED_DATA data subs) (put_packet None b)) ∧
    NoDup subs.*1 ∧ (∀ h, h ∈ subs.*1 ↔ hears (pst (n_px b)) IDs h) ∧
    ∀ h id l, (h, id) ∈ subs → localhosts (pst (n_px b)) !! h = Some l → lh_type l = LOCAL_PROCESS →
      ∃ p d, delivery (pst (n_px b)) PUBLISHED_DATA data (h, id) = Output 0 (Some (lh_id l)) p ∧
        to_message (lh_id l, p) = (lh_id l, Some <$> d) ∧
        id ∈ IDs ∧ gives_event d PUBLISHED_DATA id data.
Proof.
  intros Hpid Hlen Hinv Hi HID Hst Hpub Hz Hw Hb Hnot Hpm.
  destruct (data_crosses 0 getpid anno ID strategy data h0 ap IDs a b)
    as (a' & sent & body & subs & H1 & H2 & H3 & (Hnd & Hall & Hnames) & H5); [done..|].
  exists (request_message getpid (data_packet ID strategy data)), (data_packet ID strategy data), a', sent, body, subs.
  split_and!; try done.
  - apply (publish_data_run getpid sendmsg_ret ID strategy None 0 data (level ID)); [by apply frags_wire|done].
  - by apply node_reads.
  - intros h id l Hin Hl Hty. destruct (Hnames _ _ Hin) as [HinID _].
    exists (Some <$> local_data PUBLISHED_DATA id data), (to_header 9999 ++ local_data PUBLISHED_DATA id data).
    split_and!; [| |done|].
    + unfold delivery, host_event. cbn [fst snd]. by rewrite Hl, Hty.
    + unfold to_message. cbn [fst snd]. by rewrite fmap_app.
    + apply (data_event _ _ (level id)); [done| |done]. destruct Hw as [_ Hw].
      rewrite Forall_forall in Hw. by apply frags_wire, Hw.
Qed.
End api.

(** ** Copies of events *)

(** Copying an event that came with a message reads past the end of the
    message: the copy constructor counts the node and an implicit name, and
    takes the size of the string object for the length of the node, although
    the message of PUBLISHED_DATA has neither. *)
Theorem event_copy_overreads (sizeof_string : nat) (hdr id data : bytes) (k : nat)
    (h : gmap positive buffer) :
  length hdr = nlmsghdr_size → frags k id → (len data < 4294967296)%Z →
  let d := hdr ++ local_data PUBLISHED_DATA id data in
  ∃ ev h', getEvent new_Event true (Datagram d) (Datagram d) h = Ok (ev, h') ∧
    copy_Event sizeof_string ev h' = Fault BufferOverflow.
Proof.
  intros Hh Hid Hdata d. set (b := fresh (dom h)).
  assert (length d = nlmsghdr_size + 2 + length id + length data) as Hl.
  { unfold d, local_data. rewrite !length_app, Hh. cbn [length]. lia. }
  eexists _, _. split.
  { rewrite received_run; [apply (parse_data_run _ _ hdr id k data); [done|done|apply lookup_insert_eq]|..].
    - intros H. rewrite H in Hl. cbn in Hl. lia.
    - lia. }
  fold b d. set (h1 := <[b := Some <$> d]> h). unfold copy_Event, malloc.
  set (ev := mkEvent _ _ _ _ _ _ _). set (n := copy_size _ _).
  assert (b ≠ fresh (dom h1)) as Hb.
  { intros Heq. apply (is_fresh (dom h1)). rewrite <-Heq. apply elem_of_dom. eexists. apply lookup_insert_eq. }
  rewrite (run_bind _ _ h1 (fresh (dom h1)) (<[fresh (dom h1) := make_packet n]> h1)) by done.
  cbn [ev ev_buffer]. unfold get_block, mbind, M_bind, get.
  rewrite lookup_insert_ne by done. unfold h1. rewrite lookup_insert_eq. unfold mret, M_ret.
  rewrite decide_False; [done|]. rewrite length_fmap. unfold n, copy_size, ev. cbn [ev_id ev_isubID ev_data_len].
  unfold u32. rewrite Z.mod_small by (unfold len in *; lia). unfold len. lia.
Qed.

(** ** Identifiers in hexadecimal *)

Lemma digit_of_hex n : (0 ≤ n < 16)%Z → digit_of (hex_digit n) = Some n.
Proof.
  intros Hn. unfold hex_digit, digit_of. destruct (Z.ltb_spec n 10).
  - rewrite (proj2 (Z.leb_le _ _)), (proj2 (Z.leb_le _ _)) by lia. cbn. f_equal. lia.
  - rewrite (proj2 (Z.leb_gt (97 + (n - 10)) 57)), andb_false_r by lia.
    rewrite (proj2 (Z.leb_le _ _)), (proj2 (Z.leb_le _ _)) by lia. cbn. f_equal. lia.
Qed.

(** The library reads back what it prints: an identifier is recovered from
    its hexadecimal form, which has two characters for each byte. *)
Theorem hex_roundtrip (str : bytes) : Forall is_byte str →
  hex_to_chararray (chararray_to_hex str) = Ok str ∧
  length (chararray_to_hex str) = 2 * length str.
Proof.
  induction 1 as [|c str Hc _ [IH1 IH2]]; [done|]. unfold chararray_to_hex in *.
  set (rest := str ≫= _) in *. unfold is_byte in Hc.
  assert (∃ x y, (0 ≤ x < 16)%Z ∧ (0 ≤ y < 16)%Z ∧ c = (16 * x + y)%Z ∧
    (if (c >? 15)%Z then put_hex c else [48%Z] ++ put_hex c) = [hex_digit x; hex_digit y]) as (x & y & Hx & Hy & -> & Hp).
  { destruct (Z.gtb_spec c 15); unfold put_hex.
    - exists (c / 16)%Z, (c mod 16)%Z. pose proof (Z.div_mod c 16). pose proof (Z.mod_pos_bound c 16).
      split_and!; try lia. by rewrite (proj2 (Z.ltb_ge _ _)) by lia.
    - exists 0%Z, c. split_and!; try lia. by rewrite (proj2 (Z.ltb_lt _ _)) by lia. }
  cbn [mbind list_bind]. fold rest. rewrite Hp. cbn [app hex_to_chararray length]. unfold get_hex.
  rewrite !digit_of_hex, IH1, IH2 by done. split; [|lia]. do 2 f_equal. apply Z.mod_small. lia.
Qed.

(** ** Instances *)

(** The first application of [started_node] takes its item back. *)
Lemma api_request_served_witness :
  let request := local_request UNPUBLISH_INFO (frag 67) (frag 65 ++ frag 66) DOMAIN_LOCAL in
  let lib := mkBA 3 PID_BLACKADDER [] in
  ∃ msg forward s1,
    unpublish_info 1001 (λ _, 60%Z) (frag 67) (frag 65 ++ frag 66) DOMAIN_LOCAL None 0 lib
      = Ok (tt, sent_to_node msg lib) ∧
    from_selected SELECT_READ (Datagram msg) (Datagram msg) started_node
      = Ok (Some (1001%Z, request), started_node) ∧
    local_contract UNPUBLISH_INFO 1 (full_id (frag 67) (frag 65 ++ frag 66)) DOMAIN_LOCAL
      (n_px started_node) forward s1 ∧
    push (HO := canonical_order true) 0 1001 request started_node
      = Ok (tt, put_px (mkPx (pst s1) (pout (n_px started_node) ++ [if forward : bool then
          forwarded (n_gc started_node) (rv_fid (n_gc started_node) DOMAIN_LOCAL) request else Freed]))
          (put_packet None started_node)).
Proof.
  apply (api_request_served (HO := canonical_order true) 1001 (λ _, 60%Z) UNPUBLISH_INFO
    (unpublish_info 1001 (λ _, 60%Z)) (frag 67) (frag 65 ++ frag 66) DOMAIN_LOCAL 1
    (mkBA 3 PID_BLACKADDER []) started_node).
  - apply started_node_inv.
  - apply started_node_inv.
  - split; [vm_compute; discriminate|reflexivity].
  - vm_compute. reflexivity.
  - do 3 right. left.
  - apply Nat.leb_le. vm_compute. reflexivity.
  - apply Nat.leb_le. vm_compute. reflexivity.
Defined.

(** The second application of the node subscribed to the scope. *)
Lemma data_from_application_to_application_witness :
  let lib := mkBA 3 PID_BLACKADDER [] in
  let data := [1; 2; 3]%Z in
  ∃ msg packet a' sent body subs,
    publish_data 1001 (λ _, 60%Z) item_67 DOMAIN_LOCAL None 0 data 3 lib
      = Ok (tt, sent_to_node msg lib) ∧
    from_selected SELECT_READ (Datagram msg) (Datagram msg) started_node
      = Ok (Some (1001%Z, packet), started_node) ∧
    push (HO := canonical_order true) 0 1001 packet started_node = Ok (tt, a') ∧
    pout (n_px a') = pout (n_px started_node) ++ sent ∧
    Output 2 None (Some <$> fid_bytes (FID_to_subscribers item_publication) ++ body) ∈ sent ∧
    push (HO := canonical_order true) 2 0 body started_node
      = Ok (tt, sends (deliveries (pst (n_px started_node)) PUBLISHED_DATA data subs)
                  (put_packet None started_node)) ∧
    NoDup subs.*1 ∧ (∀ h, h ∈ subs.*1 ↔ hears (pst (n_px started_node)) [item_67] h) ∧
    ∀ h id l, (h, id) ∈ subs → localhosts (pst (n_px started_node)) !! h = Some l →
      lh_type l = LOCAL_PROCESS →
      ∃ p d, delivery (pst (n_px started_node)) PUBLISHED_DATA data (h, id) = Output 0 (Some (lh_id l)) p ∧
        to_message (lh_id l, p) = (lh_id l, Some <$> d) ∧
        id ∈ [item_67] ∧ gives_event d PUBLISHED_DATA id data.
Proof.
  apply (data_from_application_to_application (HO := canonical_order true) 1001 (λ _, 60%Z) 0 item_67
    DOMAIN_LOCAL [1; 2; 3]%Z 1 item_publication [item_67] (mkBA 3 PID_BLACKADDER []) started_node started_node).
  - split; [vm_compute; discriminate|reflexivity].
  - reflexivity.
  - apply started_node_inv.
  - vm_compute. reflexivity.
  - apply wire_id_67.
  - reflexivity.
  - vm_compute. reflexivity.
  - vm_compute. reflexivity.
  - apply wire_ids_67.
  - apply started_node_inv.
  - vm_compute. discriminate.
  - vm_compute. discriminate.
Defined.

Lemma event_copy_overreads_witness :
  let d := to_header 9999 ++ local_data PUBLISHED_DATA item_67 [1; 2; 3]%Z in
  ∃ ev h', getEvent new_Event true (Datagram d) (Datagram d) ∅ = Ok (ev, h') ∧
    copy_Event 32 ev h' = Fault BufferOverflow.
Proof.
  apply (event_copy_overreads 32 (to_header 9999) item_67 [1; 2; 3]%Z 3 ∅).
  - reflexivity.
  - split; [reflexivity|lia].
  - reflexivity.
Defined.

Lemma hex_roundtrip_witness :
  hex_to_chararray (chararray_to_hex [0; 15; 16; 255]%Z) = Ok [0; 15; 16; 255]%Z ∧
  length (chararray_to_hex [0; 15; 16; 255]%Z) = 2 * 4.
Proof.
  apply (hex_roundtrip [0; 15; 16; 255]%Z). repeat (apply Forall_cons; split; [split; [discriminate|reflexivity]|]).
  by apply Forall_nil.
Defined.

(** publish_info lets an empty identifier pass: the proxy then takes the
    identifier of the scope itself for that of an item. *)
Example publish_info_without_id :
  let lib := mkBA 3 PID_BLACKADDER [] in
  publish_info 1001 (λ _, 60%Z) [] (frag 99) DOMAIN_LOCAL None 0 lib
    = Ok (tt, sent_to_node (request_message 1001 (local_request PUBLISH_INFO [] (frag 99) DOMAIN_LOCAL)) lib) ∧
  activePublicationIndex (pst (n_px started_node)) !! frag 99 = None ∧
  match push (HO := canonical_order true) 0 1001 (local_request PUBLISH_INFO [] (frag 99) DOMAIN_LOCAL)
          started_node with
  | Ok (_, s) => option_map ap_isScope (activePublicationIndex (pst (n_px s)) !! frag 99) = Some false
  | Fault _ => False
  end.
Proof. split_and!; vm_compute; reflexivity. Qed.

(** An event that is read into twice keeps only its second buffer: the first
    one is never freed. *)
Example event_reuse_leaks :
  let d := to_header 9999 ++ local_data START_PUBLISH item_67 [] in
  match getEvent new_Event true (Datagram d) (Datagram d) ∅ with
  | Ok (ev, h) =>
      match getEvent ev true (Datagram d) (Datagram d) h with
      | Ok (ev', h') => match destroy_Event ev' h' with Ok (_, h'') => size h'' = 1 | _ => False end
      | _ => False
      end
  | _ => False
  end.
Proof. vm_compute. reflexivity. Qed.
