(* ===== verification/NBLib.v ===== *)
(** * The non-blocking user library (lib/nb_blackadder.cpp)

    Requests go into a queue that a selector thread sends from; events go into
    a queue that a worker thread takes them from to call the application.  The
    threads are machines ([Netlink.Machine]) whose steps interleave: a step is
    what a thread does while it holds a mutex, or between two of its calls
    that can wait.  What [select], [sendmsg] and [recvmsg] answer is part of
    the step.  The pipe that wakes the selector takes every byte written to it
    (there is never more than one in it, [pipe_inv]); allocation succeeds. *)
From stdpp Require Import base list gmap relations.
From Stdlib Require Import ZArith Lia.
From S2P Require Import Prelude Enums Netlink UserLib.

(** ** Messages *)

Section messages.
Context (getpid : Z).

(** The header in a block from [malloc]: nlmsg_seq is not written. *)
Definition nb_header (n : Z) : buffer :=
  (Some <$> le32 (u32 n) ++ le16 0 ++ le16 1) ++ replicate 4 None ++ (Some <$> le32 (u32 getpid)).

(** A block of the length of the header and the fields *)
Definition nb_fill (data_len : nat) (fields : list bytes) (room : nat) : res buffer :=
  memcpys (nb_header (Z.of_nat (nlmsghdr_size + room + data_len)) ++ make_packet room)
    nlmsghdr_size fields.

(** The optional bytes are read from their block and put between [pre] and
    [post]. *)
Definition nb_fill_opt (data_len : nat) (pre : list bytes) (str_opt : option bytes)
    (str_opt_len : nat) (post : list bytes) : res buffer :=
  let fields opt := pre ++ opt ++ post in
  match str_opt with
  | None => nb_fill data_len (fields []) (length (concat (fields [])))
  | Some b =>
      if decide (str_opt_len ≤ length b) then
        nb_fill data_len (fields [take str_opt_len b])
          (length (concat (fields [])) + str_opt_len)
      else Fault BufferOverflow
  end.

(** The buffer of NB_Blackadder::push *)
Definition push_buffer (type : Z) (id prefix_id : bytes) (strategy : Z) (str_opt : option bytes)
    (str_opt_len : nat) : res buffer :=
  nb_fill_opt 0 [[type]; [id_len id]; id; [id_len prefix_id]; prefix_id; [strategy]]
    str_opt str_opt_len [].

(** The buffers in front of the data *)
Definition publish_data_buffer (id : bytes) (strategy : Z) (str_opt : option bytes)
    (str_opt_len data_len : nat) : res buffer :=
  nb_fill_opt data_len [[PUBLISH_DATA]; [id_len id]; id; [strategy]] str_opt str_opt_len [].

Definition multicast_buffer (id : bytes) (strategy : Z) (str_opt : option bytes)
    (str_opt_len : nat) (nodeIds : list bytes) (data_len : nat) : res buffer :=
  let nodeIdListSize := u8 (Z.of_nat (length nodeIds)) in
  let nodes_len := Z.to_nat nodeIdListSize * PURSUIT_ID_LEN in
  if decide (nodes_len ≤ length (c_str (concat nodeIds))) then
    nb_fill_opt data_len [[PUBLISH_DATA_iMULTICAST]; [id_len id]; id; [strategy]] str_opt str_opt_len
      [[nodeIdListSize]; take nodes_len (c_str (concat nodeIds))]
  else Fault BufferOverflow.

Definition isub_buffer (id : bytes) (strategy : Z) (str_opt : option bytes)
    (str_opt_len : nat) (isubID : bytes) (data_len : nat) : res buffer :=
  nb_fill_opt data_len [[PUBLISH_DATA_iSUB]; [id_len id]; id; [strategy]] str_opt str_opt_len
    [[id_len isubID]; isubID].
End messages.

(** ** Sending *)

(** Where the selector is: in [select], before the pipe (with what [select]
    said of it), or before the mutex *)
Inductive selector_at := InSelect | GotReady (pipe_ready : bool) | BeforeSend.

(** [output_queue], the bytes in the pipe, whether the socket is in
    [write_set], the threads that wait for room, and the messages sent *)
Record Output := mkOut {
  output_queue : list buffer;
  pipe : nat;
  write_set : bool;
  waiting : nat;
  selector : selector_at;
  nb_sent : list buffer;
}.

Definition new_Output : Output := mkOut [] 0 false 0 InSelect [].

(** The end of NB_Blackadder::push, with the mutex *)
Definition enqueue (m : buffer) (s : Output) : Output :=
  let q := output_queue s ++ [m] in
  mkOut q (if decide (length q = 1) then S (pipe s) else pipe s) (write_set s)
    (if decide (length q = 1000) then S (waiting s) else waiting s) (selector s) (nb_sent s).

(** A buffer that was filled goes into the queue, with the data behind it. *)
Definition send_buffer (b : res buffer) (data : bytes) : M Output unit :=
  match b with
  | Ok b => modify (enqueue (b ++ (Some <$> data)))
  | Fault e => throw e
  end.

Section requests.
Context (getpid : Z).

Definition nb_push (type : Z) (id prefix_id : bytes) (strategy : Z) (str_opt : option bytes)
    (str_opt_len : nat) : M Output unit :=
  send_buffer (push_buffer getpid type id prefix_id strategy str_opt str_opt_len) [].

Definition nb_publish_scope (id prefix_id : bytes) (strategy : Z) (str_opt : option bytes)
    (str_opt_len : nat) : M Output unit :=
  if negb (whole_fragments id) then mret tt
  else if negb (whole_fragments prefix_id) then mret tt
  else if is_empty id then mret tt
  else nb_push PUBLISH_SCOPE id prefix_id strategy str_opt str_opt_len.

Definition nb_publish_info (id prefix_id : bytes) (strategy : Z) (str_opt : option bytes)
    (str_opt_len : nat) : M Output unit :=
  if negb (whole_fragments id) then mret tt
  else if negb (whole_fragments prefix_id) then mret tt
  else if is_empty prefix_id then mret tt
  else if is_empty prefix_id then mret tt
  else nb_push PUBLISH_INFO id prefix_id strategy str_opt str_opt_len.

Definition nb_unpublish_scope (id prefix_id : bytes) (strategy : Z) (str_opt : option bytes)
    (str_opt_len : nat) : M Output unit :=
  if negb (whole_fragments id) then mret tt
  else if negb (whole_fragments prefix_id) then mret tt
  else if is_empty id then mret tt
  else if many_fragments id then mret tt
  else nb_push UNPUBLISH_SCOPE id prefix_id strategy str_opt str_opt_len.

Definition nb_unpublish_info (id prefix_id : bytes) (strategy : Z) (str_opt : option bytes)
    (str_opt_len : nat) : M Output unit :=
  if negb (whole_fragments id) then mret tt
  else if negb (whole_fragments prefix_id) then mret tt
  else if is_empty id then mret tt
  else if is_empty prefix_id then mret tt
  else if many_fragments id then mret tt
  else nb_push UNPUBLISH_INFO id prefix_id strategy str_opt str_opt_len.

Definition nb_subscribe_scope (id prefix_id : bytes) (strategy : Z) (str_opt : option bytes)
    (str_opt_len : nat) : M Output unit :=
  if negb (whole_fragments id) then mret tt
  else if negb (whole_fragments prefix_id) then mret tt
  else if is_empty id then mret tt
  else if many_fragments id then mret tt
  else nb_push SUBSCRIBE_SCOPE id prefix_id strategy str_opt str_opt_len.

Definition nb_subscribe_info (id prefix_id : bytes) (strategy : Z) (str_opt : option bytes)
    (str_opt_len : nat) : M Output unit :=
  if negb (whole_fragments id) then mret tt
  else if negb (whole_fragments prefix_id) then mret tt
  else if is_empty id then mret tt
  else if is_empty prefix_id then mret tt
  else if many_fragments id then mret tt
  else nb_push SUBSCRIBE_INFO id prefix_id strategy str_opt str_opt_len.

Definition nb_unsubscribe_scope (id prefix_id : bytes) (strategy : Z) (str_opt : option bytes)
    (str_opt_len : nat) : M Output unit :=
  if negb (whole_fragments id) then mret tt
  else if negb (whole_fragments prefix_id) then mret tt
  else if is_empty id then mret tt
  else if many_fragments id then mret tt
  else nb_push UNSUBSCRIBE_SCOPE id prefix_id strategy str_opt str_opt_len.

Definition nb_unsubscribe_info (id prefix_id : bytes) (strategy : Z) (str_opt : option bytes)
    (str_opt_len : nat) : M Output unit :=
  if negb (whole_fragments id) then mret tt
  else if negb (whole_fragments prefix_id) then mret tt
  else if is_empty id then mret tt
  else if is_empty prefix_id then mret tt
  else if many_fragments id then mret tt
  else nb_push UNSUBSCRIBE_INFO id prefix_id strategy str_opt str_opt_len.

(** Data are sent without a check of the identifier. *)
Definition nb_publish_data (id : bytes) (strategy : Z) (str_opt : option bytes) (str_opt_len : nat)
    (data : bytes) : M Output unit :=
  send_buffer (publish_data_buffer getpid id strategy str_opt str_opt_len (length data)) data.

Definition nb_publish_data_multicast (id : bytes) (strategy : Z) (str_opt : option bytes)
    (str_opt_len : nat) (nodeIds : list bytes) (data : bytes) : M Output bool :=
  _ ← send_buffer (multicast_buffer getpid id strategy str_opt str_opt_len nodeIds (length data)) data;
  mret true.

Definition nb_publish_data_isub (id : bytes) (strategy : Z) (str_opt : option bytes)
    (str_opt_len : nat) (isubID data : bytes) : M Output bool :=
  _ ← send_buffer (isub_buffer getpid id strategy str_opt str_opt_len isubID (length data)) data;
  mret true.
End requests.

(** NB_Blackadder::disconnect does not use the queue. *)
Definition nb_disconnect (getpid : Z) (sendmsg_ret : list (Z * addressed bytes) → Z) : M Blackadder bool :=
  s ← get;
  if (sock_fd s =? -1)%Z then mret false
  else
    ret ← sendmsg sendmsg_ret [(request_header getpid 1, nlmsghdr_size); ([DISCONNECT], 1)];
    _ ← modify (λ s, mkBA (-1) (d_pid s) (ba_calls s));
    mret (negb (ret <? 0)%Z).

(** NB_Blackadder::selector.  [select] answers whether the socket can be read
    ([readable]) and, if it was asked, whether it can be written ([writable]);
    it blocks while there is nothing to answer, and takes from [write_set] a
    socket that cannot be written. *)
Definition after_select (pipe_ready writable : bool) (s : Output) : Output :=
  mkOut (output_queue s) (pipe s) (write_set s && writable) (waiting s) (GotReady pipe_ready) (nb_sent s).

(** The byte in the pipe asks for writing. *)
Definition after_pipe (pipe_ready : bool) (s : Output) : Output :=
  mkOut (output_queue s) (if pipe_ready then pipe s - 1 else pipe s) (pipe_ready || write_set s)
    (waiting s) BeforeSend (nb_sent s).

(** With the mutex: the front of the queue is sent, and taken out of it if
    that succeeds. *)
Definition after_send (ok : bool) (s : Output) : res Output :=
  if write_set s then
    match output_queue s with
    | [] => Fault BeginOfEmpty
    | m :: q =>
        let q' := if ok then q else m :: q in
        Ok (mkOut q' (pipe s) (if decide (q' = []) then false else true)
              (if decide (q' = []) then waiting s - 1 else waiting s) InSelect
              (if ok then nb_sent s ++ [m] else nb_sent s))
    end
  else Ok (mkOut (output_queue s) (pipe s) false (waiting s) InSelect (nb_sent s)).

Definition step_of (r : res Output) (s' : Output) : Prop := r = Ok s'.

(** What can happen besides the selector working undisturbed: a message is
    queued, the socket becomes readable, cannot be written or refuses a
    message.  [always_writable]: a socket that is asked for can be written. *)
Inductive disturbance :=
| Queue (m : buffer)
| Ready (readable writable : bool)
| Refused.

Section selector.
Context (always_writable : bool).

Inductive out_step : Output → option disturbance → Output → Prop :=
| out_queue m s : out_step s (Some (Queue m)) (enqueue m s)
| out_disturbed readable writable s : selector s = InSelect →
    (always_writable = true → writable = true) →
    (0 <? pipe s)%nat || readable || (write_set s && writable) = true →
    out_step s (Some (Ready readable writable)) (after_select (0 <? pipe s)%nat writable s)
| out_refused s s' : selector s = BeforeSend → step_of (after_send false s) s' →
    out_step s (Some Refused) s'
| out_select s : selector s = InSelect → (0 <? pipe s)%nat || write_set s = true →
    out_step s None (after_select (0 <? pipe s)%nat true s)
| out_pipe pipe_ready s : selector s = GotReady pipe_ready →
    out_step s None (after_pipe pipe_ready s)
| out_send s s' : selector s = BeforeSend → step_of (after_send true s) s' →
    out_step s None s'.

Definition output_machine : Machine Output disturbance buffer :=
  {| m_initial := new_Output; m_step := out_step; m_out := nb_sent |}.
End selector.

Definition queued (ds : list disturbance) : list buffer :=
  omap (λ d, match d with Queue m => Some m | _ => None end) ds.

(** ** Events *)

(** Where the worker is: before the mutex, in [pthread_cond_wait], in the inner
    loop with the mutex, or in the callback without it *)
Inductive worker_at := Outside | Waiting | Looping | Calling (e : Event).

Record Events := mkEvents {
  event_queue : list Event;
  worker : worker_at;
  handled : list Event;
}.

Definition new_Events : Events := mkEvents [] Outside [].

(** The selector queues an event and signals: only a waiting worker hears it. *)
Definition push_event_signal (e : Event) (s : Events) : Events :=
  mkEvents (event_queue s ++ [e])
    match worker s with Waiting => Looping | w => w end (handled s).

(** NB_Blackadder::worker *)
Definition worker_step (s : Events) : option Events :=
  match worker s with
  | Outside => Some (mkEvents (event_queue s) Waiting (handled s))
  | Waiting => None
  | Looping =>
      match event_queue s with
      | e :: q => Some (mkEvents q (Calling e) (handled s))
      | [] => Some (mkEvents [] Outside (handled s))
      end
  | Calling e => Some (mkEvents (event_queue s) Looping (handled s ++ [e]))
  end.

(** The selector reads an event: without a check of what [recvmsg] gave. *)
Definition nb_receive (peek got : received) : M (gmap positive buffer) (option Event) :=
  match peek with
  | Datagram (x :: d) =>
      let total_buf_size := length (x :: d) in
      b ← malloc total_buf_size;
      bytes_read ← (match got with
                    | Datagram d' =>
                        _ ← store b (take total_buf_size d'); mret (length (take total_buf_size d'))
                    | RecvError => mret 0
                    end);
      ev ← parse_event new_Event b bytes_read;
      mret (Some ev)
  | _ => mret None
  end.

Inductive ev_step : Events → option Event → Events → Prop :=
| ev_arrives e s : ev_step s (Some e) (push_event_signal e s)
| ev_works s s' : worker_step s = Some s' → ev_step s None s'.

#[export] Instance event_machine : Machine Events Event Event :=
  {| m_initial := new_Events; m_step := ev_step; m_out := handled |}.
