(* ===== verification/NBProps.v ===== *)
(** * The non-blocking user library: its properties

    The requests are those of the blocking library; what its threads deliver,
    and the two ways in which they can wait for ever. *)
From stdpp Require Import base list gmap relations.
From Stdlib Require Import ZArith Lia.
From S2P Require Import Prelude Enums RVProps RVRendezvous LocalProxy ProxyProps Netlink UserLib UserProps NBLib.

(** ** Requests *)

(** A message as the blocking library sends it, but for the sequence number *)
Definition unnumbered (msg : bytes) : buffer :=
  (Some <$> take 8 msg) ++ replicate 4 None ++ (Some <$> drop 12 msg).

Section requests.
Context (getpid : Z) (sendmsg_ret : list (Z * addressed bytes) → Z).

Lemma nb_fill_run (data : bytes) (fields : list bytes) : nb_fill getpid (length data) fields (length (concat fields))
  = Ok (nb_header getpid (Z.of_nat (nlmsghdr_size + length (concat fields) + length data))
        ++ (Some <$> concat fields)).
Proof.
  unfold nb_fill. set (hd := nb_header _ _). assert (length hd = nlmsghdr_size) as Hh by done.
  rewrite memcpys_fits; cycle 1.
  { rewrite length_app, Hh. unfold make_packet. rewrite length_replicate. lia. }
  rewrite take_app_length' by done. rewrite drop_ge, app_nil_r; [done|].
  rewrite length_app, Hh. unfold make_packet. rewrite length_replicate. lia.
Qed.

Lemma nb_message (data : bytes) (fields : list bytes) :
  nb_header getpid (Z.of_nat (nlmsghdr_size + length (concat fields) + length data))
    ++ (Some <$> concat fields) ++ (Some <$> data)
  = unnumbered (request_message getpid (concat fields ++ data)).
Proof.
  unfold unnumbered, request_message, request_header, nb_header, len. rewrite length_app, !Nat2Z.inj_add, Z.add_assoc.
  rewrite <-fmap_app. reflexivity.
Qed.

(** The non-blocking library queues for every request exactly the message
    that the blocking library sends for it, apart from the sequence number of
    the netlink header, which it leaves unwritten and nobody reads; both refuse
    the same requests. *)
Theorem nb_requests_agree (type : Z) (id prefix_id : bytes) (strategy : Z) (k m : nat) (lib : Blackadder)
    (out : Output) (call : bytes → bytes → Z → option bytes → nat → M Blackadder unit)
    (nb_call : bytes → bytes → Z → option bytes → nat → M Output unit) :
  frags k id → frags m prefix_id →
  (type, call, nb_call) ∈
    [(PUBLISH_SCOPE, publish_scope getpid sendmsg_ret, nb_publish_scope getpid);
     (PUBLISH_INFO, publish_info getpid sendmsg_ret, nb_publish_info getpid);
     (UNPUBLISH_SCOPE, unpublish_scope getpid sendmsg_ret, nb_unpublish_scope getpid);
     (UNPUBLISH_INFO, unpublish_info getpid sendmsg_ret, nb_unpublish_info getpid);
     (SUBSCRIBE_SCOPE, subscribe_scope getpid sendmsg_ret, nb_subscribe_scope getpid);
     (SUBSCRIBE_INFO, subscribe_info getpid sendmsg_ret, nb_subscribe_info getpid);
     (UNSUBSCRIBE_SCOPE, unsubscribe_scope getpid sendmsg_ret, nb_unsubscribe_scope getpid);
     (UNSUBSCRIBE_INFO, unsubscribe_info getpid sendmsg_ret, nb_unsubscribe_info getpid)] →
  (call id prefix_id strategy None 0 lib = Ok (tt, lib) ∧
   nb_call id prefix_id strategy None 0 out = Ok (tt, out)) ∨
  ∃ msg, call id prefix_id strategy None 0 lib = Ok (tt, sent_to_node msg lib) ∧
    nb_call id prefix_id strategy None 0 out = Ok (tt, enqueue (unnumbered msg) out).
Proof.
  intros Hid Hpre Hin.
  assert (∃ sends, call id prefix_id strategy None 0 =
      (if sends : bool then _ ← create_and_send_buffers getpid sendmsg_ret type id prefix_id strategy None 0; mret tt
       else mret tt) ∧
    nb_call id prefix_id strategy None 0 =
      if sends : bool then nb_push getpid type id prefix_id strategy None 0 else mret tt) as (sends & -> & ->).
  { rewrite !elem_of_cons, elem_of_nil in Hin.
    repeat (destruct Hin as [[= -> -> ->]|Hin]); try done;
    cbv [publish_scope publish_info unpublish_scope unpublish_info subscribe_scope subscribe_info
      unsubscribe_scope unsubscribe_info nb_publish_scope nb_publish_info nb_unpublish_scope
      nb_unpublish_info nb_subscribe_scope nb_subscribe_info nb_unsubscribe_scope nb_unsubscribe_info];
    destruct (whole_fragments id), (whole_fragments prefix_id), (is_empty id), (is_empty prefix_id),
      (many_fragments id); cbn [negb]; first [by exists true|by exists false]. }
  destruct sends; [right|by left].
  destruct (create_and_send_run getpid sendmsg_ret type id prefix_id strategy None 0 k m lib) as [r Hr]; [done..|].
  cbn [opt_bytes] in Hr. rewrite app_nil_r in Hr.
  eexists. split; [by rewrite (run_bind _ _ _ _ _ Hr)|].
  unfold nb_push, push_buffer, nb_fill_opt. cbn [app].
  rewrite (nb_fill_run []). unfold send_buffer, modify. rewrite <-app_assoc, nb_message, app_nil_r.
  unfold local_request. rewrite (level_frags _ _ Hid), (level_frags _ _ Hpre).
  rewrite (id_len_frags _ _ Hid), (id_len_frags _ _ Hpre). cbn [concat app]. by rewrite ?app_nil_r, <-?app_assoc.
Qed.
End requests.

(** ** Sending *)

(** A byte in the pipe or the socket in [write_set] stands for a queue with
    messages, never both. *)
Record pipe_inv (ds : list disturbance) (s : Output) : Prop := {
  pv_queue : queued ds = nb_sent s ++ output_queue s;
  pv_empty : output_queue s = [] → pipe s = 0 ∧ write_set s = false;
  pv_once : pipe s + Nat.b2n (write_set s) ≤ 1;
  pv_ready : selector s = GotReady true → pipe s = 1;
}.

(** Somebody will look at the queue again. *)
Definition awake (s : Output) : Prop :=
  output_queue s ≠ [] → 1 ≤ pipe s + Nat.b2n (write_set s).

Lemma queued_app ds d : queued (ds ++ [d]) = queued ds ++ queued [d].
Proof. unfold queued. by rewrite omap_app. Qed.

Lemma after_send_inv ok ds s s' : pipe_inv ds s → after_send ok s = Ok s' →
  pipe_inv ds s' ∧ (awake s → awake s').
Proof.
  intros [Hq He Ho Hr]. unfold after_send, awake. destruct (write_set s) eqn:Hw.
  - cbn in Ho. destruct (output_queue s) as [|m q] eqn:Eq; [done|]. intros [= <-].
    split; [|intros _; cbn; case_decide; [done|cbn; lia]].
    split; cbn; try done.
    + destruct ok; [by rewrite <-app_assoc|done].
    + intros ->. rewrite decide_True by done. split; [lia|done].
    + case_decide; cbn; lia.
  - intros [= <-]. done.
Qed.

Lemma enqueue_inv m ds s : pipe_inv ds s →
  pipe_inv (ds ++ [Queue m]) (enqueue m s) ∧ (awake s → awake (enqueue m s)).
Proof.
  intros [Hq He Ho Hrd]. unfold enqueue, awake. rewrite length_app, Nat.add_comm. cbn [length Nat.add].
  destruct (output_queue s) as [|x q] eqn:Eq; cbn [length app].
  - destruct He as [Hp Hw]; [done|]. rewrite (decide_True (P := 1 = 1)) by done.
    split; [split; cbn; rewrite ?Hp, ?Hw; cbn; try done; try lia|cbn; lia].
    by rewrite queued_app, Hq, app_nil_r.
  - rewrite (decide_False (P := S (S (length q)) = 1)) by lia.
    split; [split; cbn|intros H _; by apply H]; try done. by rewrite queued_app, Hq, <-app_assoc.
Qed.

Lemma after_select_inv writable ds s : pipe_inv ds s →
  pipe_inv ds (after_select (0 <? pipe s)%nat writable s) ∧
  (writable = true → awake s → awake (after_select (0 <? pipe s)%nat writable s)).
Proof.
  intros [Hq He Ho Hrd]. split; [split; cbn; try done|].
  - intros H. by destruct (He H) as [-> ->].
  - destruct (write_set s), writable; cbn in *; lia.
  - intros [= H]. destruct (pipe s); [done|lia].
  - intros -> H. unfold awake. cbn. by rewrite andb_true_r.
Qed.

Lemma after_pipe_inv pr ds s : pipe_inv ds s → selector s = GotReady pr →
  pipe_inv ds (after_pipe pr s) ∧ (awake s → awake (after_pipe pr s)).
Proof.
  intros [Hq He Ho Hrd] Hsel. unfold awake. destruct pr; cbn.
  - rewrite (Hrd Hsel) in *. split; [split; cbn; rewrite ?(Hrd Hsel); cbn; try done; try lia|cbn; lia].
    intros H. by destruct (He H).
  - split; [split; cbn; by auto|done].
Qed.

Lemma pipe_inv_other ds d s : queued [d] = [] → pipe_inv ds s → pipe_inv (ds ++ [d]) s.
Proof. intros Hd [H1 H2 H3 H4]. split; try done. by rewrite queued_app, Hd, app_nil_r. Qed.

Lemma out_inv (aw : bool) ds s : reachable (Mc := output_machine aw) ds s →
  pipe_inv ds s ∧ (aw = true → awake s).
Proof.
  induction 1 as [|ds s d s' Hr [Hi Hw] Hst|ds s s' Hr [Hi Hw] Hst].
  - split; [split; cbn; by auto with lia|intros _ H; by destruct H].
  - inversion Hst as [m s0|readable writable s0 Hsel Haw Hsome|s0 s1 Hsel Hsend| | |]; subst.
    + destruct (enqueue_inv m ds s Hi). auto.
    + destruct (after_select_inv writable ds s Hi). split; [by apply pipe_inv_other|auto].
    + destruct (after_send_inv false _ _ _ Hi Hsend). split; [by apply pipe_inv_other|auto].
  - inversion Hst as [| | |s0 Hsel Hsome|pr s0 Hsel|s0 s1 Hsel Hsend]; subst.
    + destruct (after_select_inv true ds s Hi). auto.
    + destruct (after_pipe_inv pr ds s Hi Hsel). auto.
    + destruct (after_send_inv true _ _ _ Hi Hsend). auto.
Qed.

Lemma after_send_total ok ds s : pipe_inv ds s → ∃ s', after_send ok s = Ok s'.
Proof.
  intros [_ He _ _]. unfold after_send. destruct (write_set s) eqn:Hw; [|by eexists].
  destruct (output_queue s); [|by eexists]. by destruct He.
Qed.

(** C24. If the socket can be written whenever the selector asks, the
    non-blocking library loses no message: in whatever order threads queue
    messages, events arrive and the socket refuses a message, the selector
    never takes from an empty queue, sends the messages in the order in which
    they were queued, and once it is undisturbed it stops after finitely many
    steps with all of them sent. *)
Theorem nb_output_delivers : delivers (Mc := output_machine true) queued ∧
  ∀ ok ds s, reachable (Mc := output_machine true) ds s → ∃ s', after_send ok s = Ok s'.
Proof.
  split; [|intros ok ds s Hr; by eapply after_send_total, out_inv].
  apply (delivers_by (Mc := output_machine true) _ output_queue (λ s, 4 * length (output_queue s) +
    match selector s with
    | InSelect => 3
    | GotReady pr => if pr || write_set s then 2 else 5
    | BeforeSend => if write_set s then 1 else 4
    end)).
  - intros s s' Hst. inversion Hst as [| | |s0 Hsel Hsome|pr s0 Hsel|s0 s1 Hsel Hsend]; subst; rewrite Hsel.
    + cbn [output_queue selector after_select write_set]. rewrite andb_true_r, Hsome. lia.
    + cbn [output_queue selector after_pipe write_set]. destruct (pr || write_set s); lia.
    + unfold step_of, after_send in Hsend. destruct (write_set s); cbn.
      * destruct (output_queue s); [done|]. injection Hsend as <-. cbn. lia.
      * injection Hsend as <-. cbn. lia.
  - intros ds s Hr. destruct (out_inv _ _ _ Hr) as [Hi Hw]. split; [apply Hi|]. intros Hnf.
    destruct (output_queue s) as [|m q] eqn:Eq; [done|]. destruct Hnf.
    destruct (selector s) as [|pr|] eqn:Hsel.
    + eexists. apply out_select; [done|]. assert (1 ≤ pipe s + Nat.b2n (write_set s)) as H.
      { apply Hw; [done|]. by rewrite Eq. }
      destruct (write_set s); [apply orb_true_r|]. cbn in H. by destruct (pipe s); [lia|].
    + eexists. by eapply out_pipe.
    + destruct (after_send_total true _ _ Hi) as [s' Hs']. exists s'. by apply out_send.
Qed.

(** ** Waiting for ever *)

(** Messages are queued, and nothing points to them any more. *)
Definition stalled (s : Output) : Prop :=
  output_queue s ≠ [] ∧ pipe s = 0 ∧ write_set s = false ∧ selector s ≠ GotReady true.

Lemma stalled_step d s s' : stalled s → out_step false s d s' → stalled s' ∧ nb_sent s' = nb_sent s ∧ output_queue s `prefix_of` output_queue s'.
Proof.
  intros (Hq & Hp & Hw & Hs) Hst. unfold stalled.
  inversion Hst as [m s0|readable writable s0 Hsel Haw Hsome|s0 s1 Hsel Hsend|s0 Hsel Hsome|pr s0 Hsel|s0 s1 Hsel Hsend];
    subst; cbn; rewrite ?Hp, ?Hw; cbn.
  - split_and!; try done; [by intros [_ ?]%app_nil| |by apply prefix_app_r]. rewrite length_app, decide_False; [done|].
    destruct (output_queue s); [done|cbn; lia].
  - done.
  - unfold step_of, after_send in Hsend. rewrite Hw in Hsend. injection Hsend as <-. done.
  - by rewrite Hp, Hw in Hsome.
  - destruct pr; [by rewrite Hsel in Hs|]. by cbn.
  - unfold step_of, after_send in Hsend. rewrite Hw in Hsend. injection Hsend as <-. done.
Qed.

(** The selector can forget its queue for ever: select takes the socket out
    of write_set when it can be read and not written at that moment, and
    nothing puts it back, because a message wakes the selector only if it is
    the first in the queue.  A state is reachable after which no message is
    sent any more, however many are queued and whatever the socket does. *)
Theorem nb_output_stalls : ∃ ds s m, reachable (Mc := output_machine false) ds s ∧
  m ∈ output_queue s ∧
  ∀ s', rtc (λ s1 s2, ∃ d, out_step false s1 d s2) s s' → nb_sent s' = nb_sent s ∧ m ∈ output_queue s'.
Proof.
  set (a := [Some 1%Z]). set (b := [Some 2%Z]).
  set (s1 := enqueue b (enqueue a new_Output)).
  set (s2 := mkOut [b] 0 true 0 InSelect [a]).
  set (s := after_pipe false (after_select false false s2)).
  assert (reachable (Mc := output_machine false) ([Queue a] ++ [Queue b]) s2) as Hr.
  { eapply (reach_moves (Mc := output_machine false) _ (after_pipe true (after_select true true s1))); cycle 1.
    { apply out_send; [done|]. vm_compute. done. }
    eapply (reach_moves (Mc := output_machine false) _ (after_select true true s1)); [|by apply out_pipe].
    eapply (reach_moves (Mc := output_machine false) _ s1); [|by apply (out_select false s1)].
    eapply reach_takes; [|apply (out_queue false b (enqueue a new_Output))].
    apply (reach_takes (Mc := output_machine false) [] new_Output); [exact (reach_initial (Mc := output_machine false))|apply (out_queue false a new_Output)]. }
  exists (([Queue a] ++ [Queue b]) ++ [Ready true false]), s, b. split; [|split; [left|]].
  - eapply reach_moves; [|by apply (out_pipe false false (after_select false false s2))].
    eapply reach_takes; [exact Hr|]. by apply (out_disturbed false true false s2).
  - assert (stalled s) as Hst by (unfold stalled; by cbn).
    assert (b ∈ output_queue s) as Hb by left. clearbody s. clear Hr.
    intros s' Hs. revert Hst Hb. induction Hs as [|x y z [d Hd] _ IH]; intros Hst Hb; [done|].
    destruct (stalled_step _ _ _ Hst Hd) as (Hst' & Heq & q & Hq). rewrite <-Heq. apply IH; [done|].
    rewrite Hq. by apply elem_of_app; left.
Qed.

(** ** Events *)

Lemma ev_inv es s : reachable es s →
  es = handled s ++ (match worker s with Calling e => [e] | _ => [] end) ++ event_queue s.
Proof.
  induction 1 as [|es s e s' Hr IH Hst|es s s' Hr IH Hst]; [done| |].
  - inversion Hst; subst. cbn. destruct (worker s); cbn; by rewrite <-?app_assoc.
  - inversion Hst as [|s0 s1 Hw]; subst. unfold worker_step in Hw.
    destruct (worker s) as [| | |e] eqn:Ew; [by injection Hw as <-|done| |].
    + destruct (event_queue s); injection Hw as <-; done.
    + injection Hw as <-. cbn. by rewrite <-app_assoc.
Qed.

(** The worker handles events in the order of their arrival, each once, but
    it can sleep on one: it waits for a signal without looking at the queue
    first, and a signal that is sent before it waits is lost.  Then the event
    stays in the queue and no thread has anything to do, until another event
    arrives; if the worker already waits when an event arrives, everything that
    is queued is handled. *)
Theorem nb_events :
  (∀ es s, reachable es s → handled s `prefix_of` es) ∧
  (∀ e, ∃ s, reachable [e] s ∧ nf moves s ∧ event_queue s = [e] ∧ handled s = []) ∧
  (∀ es s e s', reachable es s → worker s = Waiting →
     rtc moves (push_event_signal e s) s' → nf moves s' → handled s' = es ++ [e]).
Proof.
  split_and!.
  - intros es s Hr. rewrite (ev_inv _ _ Hr) at 1. by apply prefix_app_r.
  - intros e. exists (mkEvents [e] Waiting []). split_and!; [|intros [s' Hs]|done|done].
    + eapply reach_moves; [|by apply (ev_works (mkEvents [e] Outside []))].
      apply (reach_takes [] new_Events); [exact (reach_initial (Mc := event_machine))|apply ev_arrives].
    + by inversion Hs.
  - intros es s e s' Hr Hw Hs Hnf.
    assert (reachable (es ++ [e]) s') as Hr'.
    { eapply reachable_moves; [|exact Hs]. eapply reach_takes; [done|]. apply ev_arrives. }
    assert (worker s' = Waiting ∧ event_queue s' = []) as [Hw' Hq'].
    { set (ok := λ s, match worker s with Outside | Waiting => event_queue s = [] | _ => True end).
      assert (ok s') as Hok.
      { clear -Hs Hw. assert (ok (push_event_signal e s)) as H by (unfold ok, push_event_signal; cbn; by rewrite Hw).
        induction Hs as [|x y z Hst _ IH]; [done|]. apply IH. clear IH Hw.
        inversion Hst as [|s0 s1 Hws]; subst. unfold ok, worker_step in *.
        destruct (worker x) eqn:Ew; [injection Hws as <-; done|done| |injection Hws as <-; done].
        destruct (event_queue x); injection Hws as <-; done. }
      assert (worker_step s' = None) as Hn.
      { destruct (worker_step s') as [t|] eqn:E; [|done]. destruct Hnf. exists t. by apply ev_works. }
      unfold ok, worker_step in *. destruct (worker s'); try done. by destruct (event_queue s'). }
    pose proof (ev_inv _ _ Hr') as H. rewrite Hw', Hq', !app_nil_r in H. done.
Qed.

Lemma nb_requests_agree_witness :
  let lib := mkBA 3 PID_BLACKADDER [] in
  (subscribe_scope 1001 (λ _, 60%Z) (frag 65) [] DOMAIN_LOCAL None 0 lib = Ok (tt, lib) ∧
   nb_subscribe_scope 1001 (frag 65) [] DOMAIN_LOCAL None 0 new_Output = Ok (tt, new_Output)) ∨
  ∃ msg, subscribe_scope 1001 (λ _, 60%Z) (frag 65) [] DOMAIN_LOCAL None 0 lib
      = Ok (tt, sent_to_node msg lib) ∧
    nb_subscribe_scope 1001 (frag 65) [] DOMAIN_LOCAL None 0 new_Output
      = Ok (tt, enqueue (unnumbered msg) new_Output).
Proof.
  apply (nb_requests_agree 1001 (λ _, 60%Z) SUBSCRIBE_SCOPE (frag 65) [] DOMAIN_LOCAL 1 0
    (mkBA 3 PID_BLACKADDER []) new_Output).
  - apply frags_one.
  - split; [reflexivity|lia].
  - do 4 right. left.
Defined.
