(* ===== verification/Containers.v ===== *)
(** * The ordered containers of the C++ standard library

    [std::set] and [std::map] iterate in the order of their keys: numbers,
    pairs, and strings, which compare byte by byte.  A container is a [gset]
    or a [gmap]; [key_order] and [in_order_of] are its iteration orders. *)
From stdpp Require Import base list gmap sets sorting.
From Stdlib Require Import ZArith Lia.
From S2P Require Import Prelude.

Local Open Scope Z_scope.

(** ** Keys *)
Class StdKey (K : Type) `{Countable K} := {
  key_leb : K → K → bool;
  key_leb_total x y : key_leb x y = true ∨ key_leb y x = true;
  key_leb_trans x y z : key_leb x y = true → key_leb y z = true → key_leb x z = true;
  key_leb_antisym x y : key_leb x y = true → key_leb y x = true → x = y;
}.

#[export] Program Instance Z_key : StdKey Z := {| key_leb := Z.leb |}.
Next Obligation. intros. rewrite !Z.leb_le. lia. Qed.
Next Obligation. intros x y z. rewrite !Z.leb_le. lia. Qed.
Next Obligation. intros x y. rewrite !Z.leb_le. lia. Qed.

(** [std::string]: the shorter one first when it is a prefix *)
Fixpoint bytes_leb (s t : bytes) : bool :=
  match s, t with
  | [], _ => true
  | _ :: _, [] => false
  | a :: s, b :: t => (a <? b) || ((a =? b) && bytes_leb s t)
  end.

#[export] Program Instance bytes_key : StdKey bytes := {| key_leb := bytes_leb |}.
Next Obligation.
  intros s. induction s as [|a s IH]; intros [|b t]; cbn; auto.
  destruct (Z.ltb_spec a b), (Z.eqb_spec a b), (Z.ltb_spec b a), (Z.eqb_spec b a); cbn; auto; try lia.
Qed.
Next Obligation.
  intros s. induction s as [|a s IH]; intros [|b t] [|c u]; cbn; try done.
  destruct (Z.ltb_spec a b), (Z.eqb_spec a b), (Z.ltb_spec b c), (Z.eqb_spec b c),
    (Z.ltb_spec a c), (Z.eqb_spec a c); cbn; try done; try lia; apply IH.
Qed.
Next Obligation.
  intros s. induction s as [|a s IH]; intros [|b t]; cbn; try done.
  destruct (Z.ltb_spec a b), (Z.eqb_spec a b), (Z.ltb_spec b a), (Z.eqb_spec b a); cbn;
    try done; try lia. intros ??. subst. f_equal. by apply IH.
Qed.

(** [std::pair<int, int>] *)
Definition pair_leb (p q : Z * Z) : bool := (p.1 <? q.1) || ((p.1 =? q.1) && (p.2 <=? q.2)).

#[export] Program Instance pair_key : StdKey (Z * Z) := {| key_leb := pair_leb |}.
Next Obligation. intros [a b] [c d]. unfold pair_leb. cbn. lia. Qed.
Next Obligation. intros [a b] [c d] [e f]. unfold pair_leb. cbn. lia. Qed.
Next Obligation. intros [a b] [c d]. unfold pair_leb. cbn. intros. f_equal; lia. Qed.

(** ** Iteration *)
Section order.
Context `{StdKey K}.

Definition key_le (x y : K) : Prop := key_leb x y = true.

#[export] Instance key_le_dec x y : Decision (key_le x y).
Proof. unfold key_le. apply _. Defined.
#[export] Instance key_le_total : Total key_le.
Proof. intros x y. apply key_leb_total. Qed.
#[export] Instance key_le_trans : Transitive key_le.
Proof. intros x y z. apply key_leb_trans. Qed.

(** [for (it = X.begin(); it != X.end(); it++)] *)
Definition key_order (X : gset K) : list K := merge_sort key_le (elements X).

(** ... over the pairs of a map *)
Definition in_order_of {A} (m : gmap K A) : list (K * A) :=
  omap (λ k, pair k <$> m !! k) (key_order (dom m)).

Lemma key_order_perm X : key_order X ≡ₚ elements X.
Proof. apply merge_sort_Permutation. Qed.

Lemma elem_of_key_order k X : k ∈ key_order X ↔ k ∈ X.
Proof. by rewrite key_order_perm, elem_of_elements. Qed.

Lemma NoDup_key_order X : NoDup (key_order X).
Proof. rewrite key_order_perm. apply NoDup_elements. Qed.

Lemma length_key_order X : length (key_order X) = size X.
Proof. by rewrite key_order_perm. Qed.

Lemma key_order_sorted X : StronglySorted key_le (key_order X).
Proof. apply (StronglySorted_merge_sort key_le). Qed.

Lemma elem_of_in_order_of {A} (m : gmap K A) k a : (k, a) ∈ in_order_of m ↔ m !! k = Some a.
Proof.
  unfold in_order_of. rewrite list_elem_of_omap. setoid_rewrite elem_of_key_order. split.
  - intros (k' & _ & Hk'). destruct (m !! k') eqn:E; simplify_eq/=. done.
  - intros Hk. exists k. split; [by apply elem_of_dom_2 in Hk|]. by rewrite Hk.
Qed.

Lemma in_order_keys {A} (m : gmap K A) : (in_order_of m).*1 = key_order (dom m).
Proof.
  unfold in_order_of. assert (∀ k, k ∈ key_order (dom m) → is_Some (m !! k)) as Hin.
  { intros k. by rewrite elem_of_key_order, elem_of_dom. }
  induction (key_order (dom m)) as [|k l IH]; [done|]. cbn.
  destruct (Hin k) as [a Ha]; [left|]. rewrite Ha. cbn. f_equal. apply IH.
  intros k' Hk'. apply Hin. by right.
Qed.

Lemma length_in_order {A} (m : gmap K A) : length (in_order_of m) = size m.
Proof. by rewrite <-(length_fmap fst), in_order_keys, length_key_order, size_dom. Qed.

Lemma NoDup_in_order {A} (m : gmap K A) : NoDup (in_order_of m).*1.
Proof. rewrite in_order_keys. apply NoDup_key_order. Qed.

Lemma list_to_map_in_order {A} (m : gmap K A) : list_to_map (in_order_of m) = m.
Proof.
  apply map_eq. intros k. apply option_eq. intros a.
  rewrite <-(elem_of_in_order_of m). symmetry. apply elem_of_list_to_map, NoDup_in_order.
Qed.

(** Sorted lists of distinct keys are determined by their elements. *)
Lemma sorted_unique (l1 l2 : list K) : StronglySorted key_le l1 → StronglySorted key_le l2 →
  l1 ≡ₚ l2 → l1 = l2.
Proof.
  intros H1 H2. apply (StronglySorted_unique_strong key_le); [|done..].
  intros x y _ _. apply key_leb_antisym.
Qed.

Lemma key_order_of (l : list K) (X : gset K) : NoDup l → StronglySorted key_le l →
  (∀ k, k ∈ l ↔ k ∈ X) → key_order X = l.
Proof.
  intros Hnd Hs Hin. apply sorted_unique; [apply key_order_sorted|done|].
  apply NoDup_Permutation; [apply NoDup_key_order|done|]. intros k.
  by rewrite elem_of_key_order, Hin.
Qed.
End order.

(** ** Operations *)

(** [( *m.find(k)).second] *)
Definition found {S K A : Type} `{Countable K} (m : gmap K A) (k : K) : M S A :=
  match m !! k with Some a => mret a | None => throw EndDeref end.

(** [m.insert(pair(k, a))], which keeps what is there *)
Definition add_new {K A : Type} `{Countable K} (k : K) (a : A) (m : gmap K A) : gmap K A :=
  match m !! k with Some _ => m | None => <[k := a]> m end.
