(* ===== verification/ByteArray.v ===== *)
(** * Byte arrays of the quality-of-service library (lib/qos/bytearray.cpp)

    A [ByteArray] owns an array of bytes that its operations address by byte
    and bit: bit 0 of a byte is its most significant one.  The state of an
    operation is the array; a byte that [new] left uninitialised is [None]
    until it is written.  The theorems show that the shifts and masks of the
    setters and getters are the writing and reading of a field of bits. *)
From stdpp Require Import base list.
From Stdlib Require Import ZArith Lia Bool.
From S2P Require Import Prelude.

Local Open Scope Z_scope.

Notation ByteArray := buffer.

(** ** Memory *)

Definition getSize : M ByteArray nat := d ← get; mret (length d).

(** [data[i]] as a value *)
Definition data_at (i : nat) : M ByteArray Z :=
  d ← get;
  match d !! i with
  | Some (Some b) => mret b
  | Some None => throw Uninitialised
  | None => throw BufferOverflow
  end.

(** [data[i] = b] *)
Definition set_data (i : nat) (b : Z) : M ByteArray unit :=
  d ← get;
  if decide (i < length d)%nat then modify <[i := Some (u8 b)]> else throw BufferOverflow.

(** [data[i] &= mask; data[i] |= b].  Of a byte that was never written, the
    mask 0 leaves nothing. *)
Definition mask_data (i : nat) (mask b : Z) : M ByteArray unit :=
  d ← get;
  match d !! i with
  | Some o =>
      let kept := match o with
                  | Some w => Some (Z.land w mask)
                  | None => if mask =? 0 then Some 0 else None
                  end in
      modify <[i := (λ w, Z.lor w b) <$> kept]>
  | None => throw BufferOverflow
  end.

(** ** Basics *)

Definition isEmpty : M ByteArray bool := n ← getSize; mret (n =? 0)%nat.

(** [zero()] and [one()] *)
Definition fill_with (b : Z) : M ByteArray unit := modify (fmap (λ _, Some b)).

(** [zero(from, to)] *)
Definition zero_range (from to : nat) : M ByteArray unit :=
  let '(from, to) := if (to <? from)%nat then (to, from) else (from, to) in
  size ← getSize;
  if (size <? to)%nat then mret tt
  else modify (λ d, take from d ++ replicate (to - from) (Some 0) ++ drop to d).

Definition extend (ext_size : nat) : M ByteArray unit :=
  modify (λ d, d ++ replicate ext_size None).

(** [zero(0, ext_size)] runs before [size] grows: it does nothing when the
    array gets more new bytes than it had. *)
Definition pretend (ext_size : nat) : M ByteArray unit :=
  size ← getSize;
  modify (λ d, (if (size <? ext_size)%nat then replicate ext_size None
                else replicate ext_size (Some 0)) ++ d).

(** ** Setting bits *)

Definition getLowMask (num : Z) : Z :=
  if num >? 64 then 0
  else foldl (λ r i, Z.lor r (u8 (Z.shiftl 1 (Z.of_nat i)))) 0 (seq 0 (Z.to_nat num)).

(** [setBits(byte, ...)].  [size - 1] of an empty array is the largest number
    there is. *)
Definition setBits (b : Z) (lownum : Z) (offset_bytes : nat) (offsetbits : Z) : M ByteArray unit :=
  size ← getSize;
  if (lownum >? 8) || (offsetbits >? 8) then mret tt
  else if negb (size =? 0)%nat && (size - 1 <? offset_bytes)%nat then mret tt
  else if Z.of_nat size <? lownum / 8 + Z.of_nat offset_bytes then mret tt
  else
    let mask := u8 (getLowMask lownum) in
    let b := u8 (Z.shiftl (Z.land b mask) (8 - lownum)) in
    let mask := u8 (Z.shiftl mask (8 - lownum)) in
    if lownum + offsetbits <=? 8 then
      mask_data offset_bytes (u8 (Z.lnot (Z.shiftr mask offsetbits))) (Z.shiftr b offsetbits)
    else
      let b2 := Z.shiftr (Z.shiftl b 8) offsetbits in
      let mask2 := u16 (Z.lnot (Z.shiftr (Z.shiftl mask 8) offsetbits)) in
      _ ← mask_data offset_bytes (Z.shiftr mask2 8) (Z.shiftr b2 8);
      mask_data (offset_bytes + 1) (Z.land mask2 255) (Z.land b2 255).

(** [setBits(uint64_t, ...)]: the last bytes of the number.  The bits of an
    incomplete byte are taken apart only in the first of eight bytes. *)
Fixpoint setBits64_from (b lownum to : Z) (idxs : list nat) (offset_bytes : nat) (offsetbits : Z)
    : M ByteArray unit :=
  match idxs with
  | [] => mret tt
  | i :: idxs =>
      if (i =? 0)%nat && (lownum mod 8 >? 0) then
        let bits := lownum mod 8 in
        _ ← setBits (u8 (Z.shiftr b ((to - 1) * 8))) bits offset_bytes offsetbits;
        let offsetbits := offsetbits + bits in
        if offsetbits >? 8
        then setBits64_from b lownum to idxs (offset_bytes + 1) (offsetbits mod 8)
        else setBits64_from b lownum to idxs offset_bytes offsetbits
      else
        let tmp_b := Z.shiftl b (Z.of_nat i * 8) mod 2 ^ 64 in
        _ ← setBits (u8 (Z.shiftr tmp_b 56)) 8 offset_bytes offsetbits;
        setBits64_from b lownum to idxs (offset_bytes + 1) offsetbits
  end.

(** [ceil((double) num / 8)] *)
Definition octets (num : Z) : Z := (num + 7) / 8.

Definition setBits64 (b lownum : Z) (offset_bytes : nat) (offsetbits : Z) : M ByteArray unit :=
  size ← getSize;
  if Z.of_nat size <? lownum / 8 + Z.of_nat offset_bytes then mret tt
  else
    let to := octets lownum in
    let from := Z.to_nat (u8 (8 - to)) in
    setBits64_from b lownum to (seq from (8 - from)) offset_bytes offsetbits.

Fixpoint put_bytes (b : bytes) (offset_bytes : nat) (offsetbits : Z) : M ByteArray unit :=
  match b with
  | [] => mret tt
  | c :: b =>
      _ ← (if offsetbits =? 0 then set_data offset_bytes c else setBits c 8 offset_bytes offsetbits);
      put_bytes b (offset_bytes + 1) offsetbits
  end.

(** [setBytes(byte *, ...)] *)
Definition setBytes (b : bytes) (offset_bytes : nat) (offsetbits : Z) : M ByteArray unit :=
  size ← getSize;
  if (size <? length b + offset_bytes)%nat then mret tt
  else put_bytes b offset_bytes offsetbits.

Definition append (ext_data : bytes) : M ByteArray unit :=
  old_size ← getSize;
  _ ← extend (length ext_data);
  setBytes ext_data old_size 0.

(** [setBytes(const string &, ...)]: the index is one byte, and a string of
    256 bytes or more keeps the loop running for ever. *)
Fixpoint put_str (fuel : nat) (str : bytes) (i : Z) (offset_bytes : nat) (offsetbits : Z)
    : M ByteArray unit :=
  match fuel with
  | O => throw Endless
  | S fuel =>
      if i <? Z.of_nat (length str) then
        _ ← setBits (nth (Z.to_nat i) str 0) 8 offset_bytes offsetbits;
        put_str fuel str (u8 (i + 1)) (offset_bytes + 1) offsetbits
      else mret tt
  end.

Definition setStr (fuel : nat) (str : bytes) (offset_bytes : nat) (offsetbits : Z)
    : M ByteArray unit :=
  size ← getSize;
  if (size <? length str + offset_bytes)%nat then mret tt
  else put_str fuel str 0 offset_bytes offsetbits.

(** ** Getting bits *)

Definition getBits8_ORLESS (num : Z) (offset_bytes : nat) (offsetbits : Z) : M ByteArray Z :=
  if num >? 8 then mret 0
  else if num + offsetbits <=? 8 then
    w ← data_at offset_bytes;
    mret (Z.shiftr (u8 (Z.shiftl w offsetbits)) (8 - num))
  else
    w ← data_at offset_bytes;
    let res := Z.shiftr (u8 (Z.shiftl w offsetbits)) offsetbits in
    let res := u8 (Z.shiftl res (num - (8 - offsetbits))) in
    w ← data_at (offset_bytes + 1);
    mret (Z.lor res (Z.shiftr w (16 - num - offsetbits))).

(** The loops of the two [getBits] *)
Fixpoint getBits_from (num : Z) (idxs : list nat) (offset_bytes : nat) (offsetbits : Z)
    : M ByteArray (list Z) :=
  match idxs with
  | [] => mret []
  | i :: idxs =>
      if (i =? 0)%nat && (num mod 8 >? 0) then
        let bits := num mod 8 in
        c ← getBits8_ORLESS bits offset_bytes offsetbits;
        let offsetbits := offsetbits + bits in
        cs ← (if offsetbits >? 8 then getBits_from num idxs (offset_bytes + 1) (offsetbits mod 8)
              else getBits_from num idxs offset_bytes offsetbits);
        mret (c :: cs)
      else
        c ← getBits8_ORLESS 8 offset_bytes offsetbits;
        cs ← getBits_from num idxs (offset_bytes + 1) offsetbits;
        mret (c :: cs)
  end.

(** [getBits(num, ...)] *)
Definition getBits (num : Z) (offset_bytes : nat) (offsetbits : Z) : M ByteArray Z :=
  cs ← getBits_from num (seq 0 (Z.to_nat (octets num))) offset_bytes offsetbits;
  mret (foldl (λ res c, Z.lor (Z.shiftl res 8 mod 2 ^ 64) c) 0 cs).

(** [getBits(byte *, num, ...)]: the bytes written, none when the check fails *)
Definition getBits_array (num : Z) (offset_bytes : nat) (offsetbits : Z) : M ByteArray (list Z) :=
  size ← getSize;
  if Z.of_nat size <? num / 8 + Z.of_nat offset_bytes then mret []
  else getBits_from num (seq 0 (Z.to_nat (octets num))) offset_bytes offsetbits.

Fixpoint get_str (n : nat) (offset_bytes : nat) (offsetbits : Z) : M ByteArray bytes :=
  match n with
  | O => mret []
  | S n =>
      c ← getBits8_ORLESS 8 offset_bytes offsetbits;
      cs ← get_str n (offset_bytes + 1) offsetbits;
      mret (c :: cs)
  end.

(** [getStrBytes]: [num] is one byte *)
Definition getStrBytes (num : Z) (offset_bytes : nat) (offsetbits : Z) : M ByteArray bytes :=
  size ← getSize;
  if Z.of_nat size <? u8 num + Z.of_nat offset_bytes then mret []
  else get_str (Z.to_nat (u8 num)) offset_bytes offsetbits.

(** ** Operators *)

(** [a + b] copies as many bytes of [b] as [a] has. *)
Definition ba_plus (a b : ByteArray) : res ByteArray :=
  if decide (length a ≤ length b)%nat
  then Ok (a ++ take (length a) b ++ replicate (length b - length a) None)
  else Fault BufferOverflow.

Fixpoint same_bytes (a b : ByteArray) : res bool :=
  match a, b with
  | Some x :: a, Some y :: b => if x =? y then same_bytes a b else Ok false
  | [], [] => Ok true
  | _, _ => Fault Uninitialised
  end.

Definition ba_eqb (a b : ByteArray) : res bool :=
  if negb (length a =? length b)%nat then Ok false else same_bytes a b.

(** ** Fields of bits *)

(** Bit [i] of an array, the most significant bit of byte 0 being bit 0 *)
Definition abit (bs : bytes) (i : Z) : bool := Z.testbit (nth (Z.to_nat (i / 8)) bs 0) (7 - i mod 8).

(** The number that the [n] bits from position [i] on spell *)
Fixpoint field (bs : bytes) (i : Z) (n : nat) : Z :=
  match n with
  | O => 0
  | S n => 2 * field bs i n + Z.b2z (abit bs (i + Z.of_nat n))
  end.

(** [bs'] is [bs] with [n] bits of [v] written at position [i]. *)
Definition with_field (bs : bytes) (i : Z) (n : Z) (v : Z) (bs' : bytes) : Prop :=
  length bs' = length bs ∧ Forall is_byte bs' ∧
  ∀ k, 0 ≤ k → abit bs' k = if (i <=? k) && (k <? i + n) then Z.testbit v (n - 1 - (k - i))
                            else abit bs k.

Lemma field_testbit bs i n j : 0 ≤ j →
  Z.testbit (field bs i n) j = (j <? Z.of_nat n) && abit bs (i + Z.of_nat n - 1 - j).
Proof.
  revert j. induction n as [|n IH]; intros j Hj; cbn [field].
  { rewrite Z.testbit_0_l. destruct (Z.ltb_spec j (Z.of_nat 0)); [lia|done]. }
  destruct (Z.eq_dec j 0) as [->|Hj0].
  - rewrite Z.testbit_0_r. destruct (Z.ltb_spec 0 (Z.of_nat (S n))); [|lia].
    cbn. f_equal. lia.
  - replace j with (Z.succ (j - 1)) at 1 by lia.
    rewrite Z.testbit_succ_r by lia. rewrite IH by lia.
    destruct (Z.ltb_spec (j - 1) (Z.of_nat n)), (Z.ltb_spec j (Z.of_nat (S n))); try lia.
    cbn. f_equal. lia.
Qed.

Lemma getLowMask_ones n : 0 ≤ n ≤ 8 → getLowMask n = Z.ones n.
Proof.
  intros Hn. assert (n = 0 ∨ n = 1 ∨ n = 2 ∨ n = 3 ∨ n = 4 ∨ n = 5 ∨ n = 6 ∨ n = 7 ∨ n = 8)
    as Hc by lia. by repeat destruct Hc as [->|Hc]; [..|subst].
Qed.

Lemma testbit_u8 z k : 0 ≤ k → Z.testbit (u8 z) k = (k <? 8) && Z.testbit z k.
Proof.
  intros Hk. unfold u8. change 256 with (2 ^ 8). destruct (Z.ltb_spec k 8).
  - by rewrite Z.mod_pow2_bits_low.
  - by rewrite Z.mod_pow2_bits_high by lia.
Qed.

(** Writing and reading bytes that are initialised *)
Lemma data_at_run bs i : (i < length bs)%nat →
  data_at i (Some <$> bs) = Ok (nth i bs 0, Some <$> bs).
Proof.
  intros Hi. unfold data_at, mbind, M_bind. cbn [get].
  rewrite list_lookup_fmap. destruct (lookup_lt_is_Some_2 bs i Hi) as [b Hb].
  rewrite Hb. cbn. by rewrite (nth_lookup_Some _ _ _ _ Hb).
Qed.

Lemma mask_data_run bs i mask b : (i < length bs)%nat →
  mask_data i mask b (Some <$> bs)
    = Ok (tt, Some <$> <[i := Z.lor (Z.land (nth i bs 0) mask) b]> bs).
Proof.
  intros Hi. unfold mask_data, mbind, M_bind. cbn [get].
  rewrite list_lookup_fmap. destruct (lookup_lt_is_Some_2 bs i Hi) as [w Hw].
  rewrite Hw. cbn. rewrite (nth_lookup_Some _ _ _ _ Hw). unfold modify.
  by rewrite list_fmap_insert.
Qed.

Lemma abit_insert bs i w k : (i < length bs)%nat → 0 ≤ k →
  abit (<[i := w]> bs) k
    = if k / 8 =? Z.of_nat i then Z.testbit w (7 - k mod 8) else abit bs k.
Proof.
  intros Hi Hk. unfold abit. destruct (Z.eqb_spec (k / 8) (Z.of_nat i)) as [->|Hne].
  - rewrite Nat2Z.id. by rewrite (nth_lookup_Some _ _ _ w) by by rewrite list_lookup_insert_eq.
  - rewrite !nth_lookup, list_lookup_insert_ne; [done|].
    intros ->. apply Hne. rewrite Z2Nat.id; [done|]. apply Z.div_pos; lia.
Qed.

Lemma is_byte_bits w : 0 ≤ w → (∀ k, 8 ≤ k → Z.testbit w k = false) → is_byte w.
Proof.
  intros Hw Hb. split; [done|]. destruct (Z.eq_dec w 0) as [->|Hne]; [lia|].
  apply (Z.log2_lt_pow2 _ 8); [lia|]. destruct (Z.lt_ge_cases (Z.log2 w) 8); [done|].
  specialize (Hb (Z.log2 w) ltac:(lia)). rewrite Z.bit_log2 in Hb by lia. done.
Qed.

Lemma is_byte_testbit w k : is_byte w → 8 ≤ k → Z.testbit w k = false.
Proof.
  intros [H0 H1] Hk. destruct (Z.eq_dec w 0) as [->|Hne]; [apply Z.testbit_0_l|].
  apply Z.bits_above_log2; [lia|]. apply Z.log2_lt_pow2; [lia|].
  apply Z.lt_le_trans with (2 ^ 8); [lia|]. apply Z.pow_le_mono_r; lia.
Qed.

Lemma is_byte_nth bs i : Forall is_byte bs → is_byte (nth i bs 0).
Proof.
  intros Hb. rewrite nth_lookup. destruct (bs !! i) eqn:E; cbn; [|done].
  by eapply Forall_lookup_1 in Hb.
Qed.

(** The byte that is written: bits of [b] where the mask is clear. *)
Lemma is_byte_masked w mask b : is_byte w → is_byte b → is_byte mask → is_byte (Z.lor (Z.land w mask) b).
Proof.
  intros Hw Hb Hm. apply is_byte_bits.
  - apply Z.lor_nonneg. split; [apply Z.land_nonneg; left; apply Hw|apply Hb].
  - intros k Hk. by rewrite Z.lor_spec, Z.land_spec, !is_byte_testbit.
Qed.

(** [b <<= 8 - lownum] and [mask <<= 8 - lownum] *)
Lemma high_bits v n k : 0 ≤ n ≤ 8 → 0 ≤ k →
  Z.testbit (u8 (Z.shiftl (Z.land v (Z.ones n)) (8 - n))) k
    = (8 - n <=? k) && (k <? 8) && Z.testbit v (k - (8 - n)).
Proof.
  intros Hn Hk. rewrite testbit_u8, Z.shiftl_spec by lia.
  destruct (Z.leb_spec (8 - n) k), (Z.ltb_spec k 8); cbn [andb]; try done.
  - rewrite Z.land_spec, Z.testbit_ones_nonneg by lia.
    destruct (Z.ltb_spec (k - (8 - n)) n); [|lia]. by rewrite andb_true_r.
  - by rewrite Z.testbit_neg_r by lia.
Qed.

Lemma high_mask n k : 0 ≤ n ≤ 8 → 0 ≤ k →
  Z.testbit (u8 (Z.shiftl (Z.ones n) (8 - n))) k = (8 - n <=? k) && (k <? 8).
Proof.
  intros Hn Hk. rewrite <-(Z.land_diag (Z.ones n)), high_bits by done.
  destruct (Z.leb_spec (8 - n) k), (Z.ltb_spec k 8); cbn [andb]; try done.
  rewrite Z.testbit_ones_nonneg by lia. destruct (Z.ltb_spec (k - (8 - n)) n); [done|lia].
Qed.

Lemma setBits_checks bs v n off o : 0 ≤ n ≤ 8 → 0 ≤ o ≤ 8 →
  (off < length bs)%nat → (n + o > 8 → (off + 1 < length bs)%nat) →
  setBits v n off o (Some <$> bs) =
    let b := u8 (Z.shiftl (Z.land v (Z.ones n)) (8 - n)) in
    let mask := u8 (Z.shiftl (Z.ones n) (8 - n)) in
    if n + o <=? 8 then
      mask_data off (u8 (Z.lnot (Z.shiftr mask o))) (Z.shiftr b o) (Some <$> bs)
    else
      (_ ← mask_data off (Z.shiftr (u16 (Z.lnot (Z.shiftr (Z.shiftl mask 8) o))) 8)
             (Z.shiftr (Z.shiftr (Z.shiftl b 8) o) 8);
       mask_data (off + 1) (Z.land (u16 (Z.lnot (Z.shiftr (Z.shiftl mask 8) o))) 255)
         (Z.land (Z.shiftr (Z.shiftl b 8) o) 255)) (Some <$> bs).
Proof.
  intros Hn Ho Hoff Hnext. unfold setBits, getSize, mbind, M_bind. cbn [get mret M_ret].
  rewrite length_fmap. unfold getSize.
  destruct (Z.gtb_spec n 8), (Z.gtb_spec o 8); try lia. cbn [orb].
  destruct (Nat.eqb_spec (length bs) 0), (Nat.ltb_spec (length bs - 1) off); try lia. cbn [negb andb].
  assert (n / 8 ≤ 1) by (apply Z.div_le_upper_bound; lia).
  destruct (Z.ltb_spec (Z.of_nat (length bs)) (n / 8 + Z.of_nat off)); [lia|].
  rewrite getLowMask_ones by lia.
  assert (u8 (Z.ones n) = Z.ones n) as ->.
  { apply Z.mod_small. rewrite Z.ones_equiv. split; [pose proof (Z.pow_pos_nonneg 2 n); lia|].
    pose proof (Z.pow_le_mono_r 2 n 8). lia. }
  by destruct (n + o <=? 8).
Qed.

(** Positions of bits against the bounds of a field *)
Ltac field_bits k :=
  pose proof (Z.div_mod k 8 ltac:(lia)); pose proof (Z.mod_pos_bound k 8 ltac:(lia));
  repeat match goal with
  | |- context [?x =? ?y] => destruct (Z.eqb_spec x y); try lia; cbn [andb orb negb]
  | |- context [?x <=? ?y] => destruct (Z.leb_spec x y); try lia; cbn [andb orb negb]
  | |- context [?x <? ?y] => destruct (Z.ltb_spec x y); try lia; cbn [andb orb negb]
  end; try done.

Lemma is_byte_shiftr w o : is_byte w → 0 ≤ o → is_byte (Z.shiftr w o).
Proof.
  intros Hw Ho. apply is_byte_bits; [apply Z.shiftr_nonneg, Hw|].
  intros k Hk. rewrite Z.shiftr_spec by lia. apply is_byte_testbit; [done|lia].
Qed.

(** One byte of a field: the bits [P] are replaced by those of [b]. *)
Lemma write_byte bs i mask b P : Forall is_byte bs → (i < length bs)%nat →
  is_byte mask → is_byte b →
  (∀ j, 0 ≤ j < 8 → Z.testbit mask j = negb (P j)) →
  (∀ j, 0 ≤ j < 8 → P j = false → Z.testbit b j = false) →
  ∃ bs', mask_data i mask b (Some <$> bs) = Ok (tt, Some <$> bs') ∧ length bs' = length bs ∧
    Forall is_byte bs' ∧
    ∀ k, 0 ≤ k → abit bs' k = if (k / 8 =? Z.of_nat i) && P (7 - k mod 8)
                              then Z.testbit b (7 - k mod 8) else abit bs k.
Proof.
  intros Hbs Hi Hm Hb Hmask Hbits. rewrite mask_data_run by done. eexists.
  split; [done|]. split_and!; [by rewrite length_insert| |].
  - apply Forall_insert; [done|]. apply is_byte_masked; [by apply is_byte_nth|done..].
  - intros k Hk. rewrite abit_insert by done. pose proof (Z.mod_pos_bound k 8 ltac:(lia)).
    destruct (Z.eqb_spec (k / 8) (Z.of_nat i)) as [E|]; cbn [andb]; [|done].
    rewrite Z.lor_spec, Z.land_spec, Hmask by lia. unfold abit. rewrite E, Nat2Z.id.
    destruct (P (7 - k mod 8)) eqn:HP; cbn [negb].
    + by rewrite andb_false_r.
    + by rewrite andb_true_r, (Hbits (7 - k mod 8)), orb_false_r by (done || lia).
Qed.

Lemma testbit_u16 z k : 0 ≤ k → Z.testbit (u16 z) k = (k <? 16) && Z.testbit z k.
Proof.
  intros Hk. unfold u16. change 65536 with (2 ^ 16). destruct (Z.ltb_spec k 16).
  - by rewrite Z.mod_pow2_bits_low.
  - by rewrite Z.mod_pow2_bits_high by lia.
Qed.

Lemma testbit_low8 z k : 0 ≤ k → Z.testbit (Z.land z 255) k = (k <? 8) && Z.testbit z k.
Proof.
  intros Hk. change 255 with (Z.ones 8). rewrite Z.land_spec, Z.testbit_ones_nonneg by lia.
  by rewrite andb_comm.
Qed.

Lemma setBits_spec bs v n off o : Forall is_byte bs → 0 ≤ n ≤ 8 → 0 ≤ o ≤ 8 →
  (off < length bs)%nat → (n + o > 8 → (off + 1 < length bs)%nat) →
  ∃ bs', setBits v n off o (Some <$> bs) = Ok (tt, Some <$> bs') ∧
    with_field bs (8 * Z.of_nat off + o) n v bs'.
Proof.
  intros Hbs Hn Ho Hoff Hnext. rewrite setBits_checks by done. cbn zeta.
  set (b := u8 (Z.shiftl (Z.land v (Z.ones n)) (8 - n))).
  set (mask := u8 (Z.shiftl (Z.ones n) (8 - n))).
  assert (∀ k, 0 ≤ k → Z.testbit b k = (8 - n <=? k) && (k <? 8) && Z.testbit v (k - (8 - n))) as Hb
    by (intros; by apply high_bits).
  assert (∀ k, 0 ≤ k → Z.testbit mask k = (8 - n <=? k) && (k <? 8)) as Hm
    by (intros; by apply high_mask).
  assert (is_byte b) as Hbb by apply is_byte_u8. assert (is_byte mask) as Hmb by apply is_byte_u8.
  destruct (Z.leb_spec (n + o) 8) as [Hle|Hgt].
  - destruct (write_byte bs off (u8 (Z.lnot (Z.shiftr mask o))) (Z.shiftr b o)
      (λ j, (8 - n <=? j + o) && (j + o <? 8))) as (bs' & -> & Hl & Hbs' & Hbit);
      [done..|apply is_byte_u8|apply is_byte_shiftr; [done|lia]| | |].
    { intros j Hj. rewrite testbit_u8, Z.lnot_spec, Z.shiftr_spec, Hm by lia.
      destruct (Z.ltb_spec j 8); [done|lia]. }
    { intros j Hj HP. rewrite Z.shiftr_spec, Hb, HP by lia. done. }
    exists bs'. split; [done|]. split_and!; [done..|]. intros k Hk. rewrite Hbit by done.
    field_bits k; rewrite Z.shiftr_spec, Hb by lia; field_bits k; f_equal; lia.
  - assert (∀ j, 0 ≤ j → Z.testbit (Z.shiftr (Z.shiftl b 8) o) j
      = (16 - n <=? j + o) && (j + o <? 16) && Z.testbit v (j + o - (16 - n))) as Hb2.
    { intros j Hj. rewrite Z.shiftr_spec, Z.shiftl_spec by lia.
      destruct (Z.lt_ge_cases (j + o - 8) 0); [rewrite Z.testbit_neg_r by lia; field_bits j|].
      rewrite Hb by lia. field_bits j. f_equal; lia. }
    set (m2 := u16 (Z.lnot (Z.shiftr (Z.shiftl mask 8) o))).
    assert (∀ j, 0 ≤ j < 16 → Z.testbit m2 j = negb ((16 - n <=? j + o) && (j + o <? 16))) as Hm2.
    { intros j Hj. unfold m2. rewrite testbit_u16, Z.lnot_spec, Z.shiftr_spec, Z.shiftl_spec by lia.
      destruct (Z.lt_ge_cases (j + o - 8) 0); [rewrite Z.testbit_neg_r by lia; field_bits j|].
      rewrite Hm by lia. field_bits j. }
    assert (∀ j, 16 ≤ j → Z.testbit m2 j = false) as Hm2'.
    { intros j Hj. unfold m2. rewrite testbit_u16 by lia. by field_bits j. }
    assert (0 ≤ m2) by (apply Z.mod_pos_bound; lia).
    destruct (write_byte bs off (Z.shiftr m2 8) (Z.shiftr (Z.shiftr (Z.shiftl b 8) o) 8)
      (λ j, (16 - n <=? j + 8 + o) && (j + 8 + o <? 16))) as (bs1 & Hrun1 & Hl1 & Hbs1 & Hbit1);
      [done..| | | | |].
    { apply is_byte_bits; [by apply Z.shiftr_nonneg|]. intros j Hj.
      rewrite Z.shiftr_spec by lia. apply Hm2'. lia. }
    { apply is_byte_bits; [apply Z.shiftr_nonneg, Z.shiftr_nonneg, Z.shiftl_nonneg, Hbb|].
      intros j Hj. rewrite Z.shiftr_spec, Hb2 by lia. field_bits j. }
    { intros j Hj. by rewrite Z.shiftr_spec, Hm2 by lia. }
    { intros j Hj HP. by rewrite Z.shiftr_spec, Hb2, HP by lia. }
    destruct (write_byte bs1 (off + 1) (Z.land m2 255) (Z.land (Z.shiftr (Z.shiftl b 8) o) 255)
      (λ j, (16 - n <=? j + o) && (j + o <? 16))) as (bs2 & Hrun2 & Hl2 & Hbs2 & Hbit2);
      [done|lia| | | | |].
    { apply is_byte_bits; [apply Z.land_nonneg; lia|]. intros j Hj.
      rewrite testbit_low8 by lia. field_bits j. }
    { apply is_byte_bits; [apply Z.land_nonneg; lia|]. intros j Hj.
      rewrite testbit_low8 by lia. field_bits j. }
    { intros j Hj. rewrite testbit_low8, Hm2 by lia. field_bits j. }
    { intros j Hj HP. rewrite testbit_low8, Hb2, HP by lia. by rewrite andb_false_r. }
    exists bs2. unfold mbind, M_bind. rewrite Hrun1. split; [done|].
    split_and!; [congruence|done|]. intros k Hk. rewrite Hbit2, Hbit1 by done.
    field_bits k; rewrite ?(Z.shiftr_spec (Z.shiftr _ _) _ _), ?testbit_low8, ?Hb2 by lia;
      field_bits k; f_equal; lia.
Qed.

(** Reading a field of at most eight bits *)
Lemma getBits8_spec bs n off o : Forall is_byte bs → 0 ≤ n ≤ 8 → 0 ≤ o ≤ 8 →
  (off < length bs)%nat → (n + o > 8 → (off + 1 < length bs)%nat) →
  getBits8_ORLESS n off o (Some <$> bs)
    = Ok (field bs (8 * Z.of_nat off + o) (Z.to_nat n), Some <$> bs).
Proof.
  intros Hbs Hn Ho Hoff Hnext. unfold getBits8_ORLESS, mbind, M_bind.
  destruct (Z.gtb_spec n 8); [lia|]. pose proof (is_byte_nth bs off Hbs) as Hw.
  pose proof (is_byte_nth bs (off + 1) Hbs) as Hw1.
  destruct (Z.leb_spec (n + o) 8); rewrite !data_at_run by lia; unfold mret, M_ret.
  all: do 2 f_equal; apply Z.bits_inj'; intros j Hj; rewrite field_testbit by done.
  - rewrite Z.shiftr_spec, testbit_u8, Z.shiftl_spec by lia. unfold abit.
    destruct (Z.ltb_spec j (Z.of_nat (Z.to_nat n))), (Z.ltb_spec (j + (8 - n)) 8); try lia.
    cbn [andb]. replace ((_ + _ - 1 - j) / 8) with (Z.of_nat off)
      by (apply Z.div_unique with (o + n - 1 - j); lia).
    rewrite Nat2Z.id. f_equal.
    rewrite <-(Z.mod_unique_pos _ 8 (Z.of_nat off) (o + n - 1 - j)) by lia. lia.
  - rewrite Z.lor_spec, testbit_u8, Z.shiftl_spec by lia. rewrite (Z.shiftr_spec (nth _ _ _)) by lia.
    unfold abit. destruct (Z.lt_ge_cases (j - (n - (8 - o))) 0) as [Hlow|Hhigh].
    + rewrite (Z.testbit_neg_r _ (j - _)) by lia. rewrite andb_false_r. cbn [orb].
      destruct (Z.ltb_spec j (Z.of_nat (Z.to_nat n))); [|lia]. cbn [andb].
      rewrite <-(Z.div_unique_pos _ 8 (Z.of_nat (off + 1)) (o + n - 1 - j - 8)) by lia.
      rewrite Nat2Z.id. f_equal.
      rewrite <-(Z.mod_unique_pos _ 8 (Z.of_nat (off + 1)) (o + n - 1 - j - 8)) by lia. lia.
    + rewrite Z.shiftr_spec, testbit_u8, Z.shiftl_spec by lia.
      rewrite (is_byte_testbit (nth (off + 1) bs 0)) by (done || lia). rewrite orb_false_r.
      destruct (Z.ltb_spec j (Z.of_nat (Z.to_nat n))), (Z.ltb_spec j 8),
        (Z.ltb_spec (j - (n - (8 - o)) + o) 8); try lia; cbn [andb]; try done.
      rewrite <-(Z.div_unique_pos _ 8 (Z.of_nat off) (o + n - 1 - j)) by lia.
      rewrite Nat2Z.id. f_equal; [].
      rewrite <-(Z.mod_unique_pos _ 8 (Z.of_nat off) (o + n - 1 - j)) by lia. lia.
Qed.

(** Fields of whole bytes *)
Lemma octet_testbit v i j : (i < 8)%nat → 0 ≤ j < 8 →
  Z.testbit (u8 (Z.shiftr (Z.shiftl v (Z.of_nat i * 8) mod 2 ^ 64) 56)) j
    = Z.testbit v (j + 8 * (7 - Z.of_nat i)).
Proof.
  intros Hi Hj. rewrite testbit_u8, Z.shiftr_spec, Z.mod_pow2_bits_low, Z.shiftl_spec by lia.
  destruct (Z.ltb_spec j 8); [|lia]. cbn. f_equal. lia.
Qed.

Lemma with_field_app bs i n v bs1 m w bs2 u : 0 ≤ i → 0 ≤ n → 0 ≤ m →
  with_field bs i n v bs1 → with_field bs1 (i + n) m w bs2 →
  (∀ j, 0 ≤ j < n → Z.testbit v j = Z.testbit u (j + m)) →
  (∀ j, 0 ≤ j < m → Z.testbit w j = Z.testbit u j) →
  with_field bs i (n + m) u bs2.
Proof.
  intros Hi Hn Hm (Hl1 & _ & Hb1) (Hl2 & Hf2 & Hb2) Hv Hw. split_and!; [congruence|done|].
  intros k Hk. rewrite Hb2, Hb1 by done.
  field_bits k; rewrite ?Hv, ?Hw by lia; f_equal; lia.
Qed.

Lemma setBits64_from_spec v lownum to m off o bs : lownum mod 8 = 0 → (m ≤ 8)%nat →
  Forall is_byte bs → 0 ≤ o ≤ 8 → (off + m ≤ length bs)%nat →
  (0 < o → (off + m < length bs)%nat) →
  ∃ bs', setBits64_from v lownum to (seq (8 - m) m) off o (Some <$> bs) = Ok (tt, Some <$> bs') ∧
    with_field bs (8 * Z.of_nat off + o) (8 * Z.of_nat m) v bs'.
Proof.
  intros Hmod. revert off bs. induction m as [|m IH]; intros off bs Hm Hbs Ho Hfit Hnext.
  { exists bs. split; [done|]. split_and!; [done..|]. intros k Hk. field_bits k. }
  assert (seq (8 - S m) (S m) = (8 - S m)%nat :: seq (8 - m) m) as ->
    by (cbn [seq]; do 2 f_equal; lia).
  cbn [setBits64_from]. rewrite Hmod, Z.gtb_ltb, Z.ltb_irrefl, andb_false_r.
  destruct (setBits_spec bs (u8 (Z.shiftr (Z.shiftl v (Z.of_nat (8 - S m) * 8) mod 2 ^ 64) 56))
    8 off o) as (bs1 & Hrun & Hw); [done|lia|lia|lia|lia|].
  unfold mbind, M_bind. rewrite Hrun. pose proof Hw as (Hl & Hbs1 & _).
  destruct (IH (off + 1)%nat bs1) as (bs' & Hrun' & Hw'); [lia|done|done|lia|lia|].
  exists bs'. split; [done|].
  replace (8 * Z.of_nat (S m)) with (8 + 8 * Z.of_nat m) by lia.
  replace (8 * Z.of_nat (off + 1) + o) with (8 * Z.of_nat off + o + 8) in Hw' by lia.
  eapply with_field_app; [lia|lia|lia|exact Hw|exact Hw'| |done].
  intros j Hj. rewrite octet_testbit by lia. f_equal. lia.
Qed.

Lemma field_S8 bs i n : (n + 8 ≤ 64)%nat →
  Z.lor (Z.shiftl (field bs i n) 8 mod 2 ^ 64) (field bs (i + Z.of_nat n) 8) = field bs i (n + 8).
Proof.
  intros Hn. apply Z.bits_inj'. intros j Hj. rewrite Z.lor_spec, !field_testbit by done.
  destruct (Z.lt_ge_cases j 64).
  - rewrite Z.mod_pow2_bits_low, Z.shiftl_spec by lia. destruct (Z.lt_ge_cases (j - 8) 0).
    + rewrite Z.testbit_neg_r by lia. field_bits j. f_equal. lia.
    + rewrite field_testbit by lia. field_bits j; rewrite ?orb_false_r; try done. f_equal. lia.
  - rewrite Z.mod_pow2_bits_high by lia. field_bits j.
Qed.

Lemma getBits_from_spec num m j off o bs : num mod 8 = 0 → Forall is_byte bs → 0 ≤ o ≤ 8 →
  (off + m ≤ length bs)%nat → (0 < o → (off + m < length bs)%nat) →
  getBits_from num (seq j m) off o (Some <$> bs)
    = Ok ((λ t, field bs (8 * Z.of_nat (off + t) + o) 8) <$> seq 0 m, Some <$> bs).
Proof.
  intros Hmod Hbs Ho. revert j off. induction m as [|m IH]; intros j off Hfit Hnext; [done|].
  cbn [seq getBits_from]. rewrite Hmod, Z.gtb_ltb, Z.ltb_irrefl, andb_false_r.
  unfold mbind, M_bind. rewrite getBits8_spec by (done || lia). rewrite IH by lia.
  cbn [fmap list_fmap]. unfold mret, M_ret. do 2 f_equal. f_equal; [do 2 f_equal; lia|].
  rewrite <-(fmap_S_seq 0 m), <-list_fmap_compose. apply list_fmap_ext. intros t x _. unfold compose.
  f_equal. lia.
Qed.

Lemma foldl_fields bs i n m : (n + 8 * m ≤ 64)%nat →
  foldl (λ res c, Z.lor (Z.shiftl res 8 mod 2 ^ 64) c) (field bs i n)
    ((λ t, field bs (i + Z.of_nat n + 8 * Z.of_nat t) 8) <$> seq 0 m) = field bs i (n + 8 * m).
Proof.
  revert n. induction m as [|m IH]; intros n Hn; cbn [seq fmap list_fmap foldl].
  { f_equal. lia. }
  replace (i + Z.of_nat n + 8 * Z.of_nat 0) with (i + Z.of_nat n) by lia.
  rewrite field_S8 by lia. replace (n + 8 * S m)%nat with (n + 8 + 8 * m)%nat by lia.
  rewrite <-(IH (n + 8)%nat) by lia. f_equal.
  rewrite <-(fmap_S_seq 0 m), <-list_fmap_compose. apply list_fmap_ext. intros t x _. unfold compose.
  f_equal. lia.
Qed.

(** ** Whole bytes

    On byte boundaries the operations also work on bytes that were never
    written. *)

(** A buffer with [src] written at [off] *)
Definition written (d : ByteArray) (off : nat) (src : bytes) : ByteArray :=
  take off d ++ (Some <$> src) ++ drop (off + length src) d.

Lemma length_written d off src : (off + length src ≤ length d)%nat →
  length (written d off src) = length d.
Proof.
  intros H. unfold written. rewrite !length_app, length_fmap, length_take, length_drop. lia.
Qed.

Lemma written_cons d off c src : (off + S (length src) ≤ length d)%nat →
  written (<[off := Some c]> d) (off + 1) src = written d off (c :: src).
Proof.
  intros H. unfold written. cbn [fmap list_fmap length].
  rewrite insert_take_drop by lia.
  rewrite cons_middle, (app_assoc (take off d) [Some c]). rewrite take_app_le
    by (rewrite length_app, length_take; cbn; lia).
  rewrite take_ge by (rewrite length_app, length_take; cbn; lia).
  rewrite drop_app_ge by (rewrite length_app, length_take; cbn; lia).
  rewrite drop_drop, <-!app_assoc. cbn. do 3 f_equal. rewrite length_app, length_take. f_equal. cbn. lia.
Qed.

Lemma setBits_byte d c off : (off < length d)%nat → is_byte c →
  setBits c 8 off 0 d = Ok (tt, <[off := Some c]> d).
Proof.
  intros Hoff Hc. unfold setBits, getSize, mbind, M_bind. cbn [get mret M_ret].
  destruct (Nat.eqb_spec (length d) 0), (Nat.ltb_spec (length d - 1) off); try lia. cbn [negb andb].
  change (8 >? 8) with false. change (0 >? 8) with false. cbn [orb]. change (8 / 8) with 1.
  destruct (Z.ltb_spec (Z.of_nat (length d)) (1 + Z.of_nat off)); [lia|].
  change (8 + 0 <=? 8) with true. cbn iota.
  change (u8 (getLowMask 8)) with 255. change (8 - 8) with 0.
  change (u8 (Z.lnot (Z.shiftr (u8 (Z.shiftl 255 0)) 0))) with 0.
  rewrite Z.shiftr_0_r, Z.shiftl_0_r. unfold u8.
  change 255 with (Z.ones 8). rewrite Z.land_ones by lia. change (2 ^ 8) with 256.
  rewrite Z.mod_mod, Z.mod_small by (done || lia).
  unfold mask_data, mbind, M_bind. cbn [get]. destruct (lookup_lt_is_Some_2 d off Hoff) as [o ->].
  unfold modify. do 3 f_equal. destruct o; cbn; [by rewrite Z.land_0_r|done].
Qed.

Lemma put_bytes_run b d off : Forall is_byte b → (off + length b ≤ length d)%nat →
  put_bytes b off 0 d = Ok (tt, written d off b).
Proof.
  intros Hb. revert d off. induction Hb as [|c b Hc Hb IH]; intros d off Hfit; cbn [put_bytes].
  { unfold written. cbn. by rewrite Nat.add_0_r, take_drop. }
  cbn [length] in Hfit. change (0 =? 0) with true. cbn iota.
  unfold set_data, mbind, M_bind, get. rewrite decide_True by lia. unfold modify.
  rewrite IH by (rewrite length_insert; lia).
  unfold u8. by rewrite (Z.mod_small c 256), written_cons by (done || lia).
Qed.

Lemma setBytes_run b d off : Forall is_byte b → (off + length b ≤ length d)%nat →
  setBytes b off 0 d = Ok (tt, written d off b).
Proof.
  intros Hb Hfit. unfold setBytes, getSize, mbind, M_bind. cbn [get mret M_ret].
  destruct (Nat.ltb_spec (length d) (length b + off)); [lia|]. by apply put_bytes_run.
Qed.

Lemma put_str_run fuel str i d off : Forall is_byte str → (length str < 256)%nat →
  (i ≤ length str < i + fuel)%nat → (off + (length str - i) ≤ length d)%nat →
  put_str fuel str (Z.of_nat i) off 0 d = Ok (tt, written d off (drop i str)).
Proof.
  intros Hs H256. revert i d off. induction fuel as [|fuel IH]; intros i d off Hi Hfit; [lia|].
  cbn [put_str]. destruct (Z.ltb_spec (Z.of_nat i) (Z.of_nat (length str))).
  - rewrite Nat2Z.id. destruct (lookup_lt_is_Some_2 str i ltac:(lia)) as [c Hc].
    rewrite (nth_lookup_Some _ _ _ _ Hc), (drop_S _ c) by done.
    assert (is_byte c) by by eapply Forall_lookup_1 in Hs.
    unfold mbind, M_bind. rewrite setBits_byte by (done || lia).
    replace (u8 (Z.of_nat i + 1)) with (Z.of_nat (S i)) by (unfold u8; rewrite Z.mod_small; lia).
    rewrite IH by (rewrite ?length_insert; lia).
    rewrite written_cons by (rewrite length_drop; lia). done.
  - rewrite drop_ge by lia. unfold written. cbn. by rewrite Nat.add_0_r, take_drop.
Qed.

Lemma setStr_run fuel str d off : Forall is_byte str → (length str < 256)%nat →
  (length str < fuel)%nat → (off + length str ≤ length d)%nat →
  setStr fuel str off 0 d = Ok (tt, written d off str).
Proof.
  intros Hs H256 Hf Hfit. unfold setStr, getSize, mbind, M_bind. cbn [get mret M_ret].
  destruct (Nat.ltb_spec (length d) (length str + off)); [lia|].
  rewrite (put_str_run fuel str 0) by (done || lia). by rewrite drop_0.
Qed.

Lemma field8 bs off : Forall is_byte bs → field bs (8 * Z.of_nat off + 0) 8 = nth off bs 0.
Proof.
  intros Hbs. apply Z.bits_inj'. intros j Hj. rewrite field_testbit by done.
  destruct (Z.ltb_spec j (Z.of_nat 8)).
  - cbn [andb]. unfold abit.
    rewrite <-(Z.div_unique_pos _ 8 (Z.of_nat off) (7 - j)) by lia.
    rewrite <-(Z.mod_unique_pos _ 8 (Z.of_nat off) (7 - j)) by lia.
    rewrite Nat2Z.id. f_equal. lia.
  - symmetry. apply is_byte_testbit; [by apply is_byte_nth|lia].
Qed.

Lemma get_str_run bs n off : Forall is_byte bs → (off + n ≤ length bs)%nat →
  get_str n off 0 (Some <$> bs) = Ok (substr bs off n, Some <$> bs).
Proof.
  intros Hbs. revert off. induction n as [|n IH]; intros off Hfit; cbn [get_str].
  { unfold substr. by rewrite take_0. }
  unfold mbind, M_bind. rewrite getBits8_spec, IH by (done || lia).
  unfold mret, M_ret. do 2 f_equal. change (Z.to_nat 8) with 8%nat. rewrite field8 by done.
  unfold substr. destruct (lookup_lt_is_Some_2 bs off ltac:(lia)) as [c Hc].
  rewrite (drop_S _ c off) by done. cbn [take]. rewrite (nth_lookup_Some _ _ _ _ Hc).
  do 2 f_equal. f_equal. lia.
Qed.

Lemma getStrBytes_run bs n off : Forall is_byte bs → (n < 256)%nat → (off + n ≤ length bs)%nat →
  getStrBytes (Z.of_nat n) off 0 (Some <$> bs) = Ok (substr bs off n, Some <$> bs).
Proof.
  intros Hbs Hn Hfit. unfold getStrBytes, getSize, mbind, M_bind. cbn [get mret M_ret].
  unfold u8. rewrite Z.mod_small, length_fmap by lia.
  destruct (Z.ltb_spec (Z.of_nat (length bs)) (Z.of_nat n + Z.of_nat off)); [lia|].
  rewrite Nat2Z.id. by apply get_str_run.
Qed.

(** ** Properties *)

Lemma with_field_get bs i n v bs' : 0 ≤ i → with_field bs i (Z.of_nat n) v bs' →
  field bs' i n = v mod 2 ^ Z.of_nat n.
Proof.
  intros Hi (_ & _ & Hb). apply Z.bits_inj'. intros j Hj. rewrite field_testbit by done.
  destruct (Z.ltb_spec j (Z.of_nat n)); cbn [andb].
  - rewrite Hb, Z.mod_pow2_bits_low by lia. field_bits j. f_equal. lia.
  - by rewrite Z.mod_pow2_bits_high by lia.
Qed.

Lemma octets_mult m : octets (8 * Z.of_nat m) = Z.of_nat m.
Proof. unfold octets. rewrite (Z.add_comm _ 7), (Z.mul_comm 8), Z.div_add by lia. done. Qed.

Lemma getBits_spec bs m off o : (m ≤ 8)%nat → Forall is_byte bs → 0 ≤ o ≤ 8 →
  (off + m ≤ length bs)%nat → (0 < o → (off + m < length bs)%nat) →
  getBits (8 * Z.of_nat m) off o (Some <$> bs)
    = Ok (field bs (8 * Z.of_nat off + o) (8 * m), Some <$> bs).
Proof.
  intros Hm Hbs Ho Hfit Hnext. unfold getBits, mbind, M_bind.
  rewrite octets_mult, Nat2Z.id, getBits_from_spec
    by (done || lia || (rewrite Z.mul_comm; apply Z.mod_mul; lia)).
  unfold mret, M_ret. do 2 f_equal.
  change (8 * m)%nat with (0 + 8 * m)%nat.
  rewrite <-(foldl_fields bs (8 * Z.of_nat off + o) 0 m) by lia.
  change (field bs (8 * Z.of_nat off + o) 0) with 0. f_equal.
  apply list_fmap_ext. intros t x _. f_equal. lia.
Qed.

Lemma setBits64_spec bs v m off o : (m ≤ 8)%nat → Forall is_byte bs → 0 ≤ o ≤ 8 →
  (off + m ≤ length bs)%nat → (0 < o → (off + m < length bs)%nat) →
  ∃ bs', setBits64 v (8 * Z.of_nat m) off o (Some <$> bs) = Ok (tt, Some <$> bs') ∧
    with_field bs (8 * Z.of_nat off + o) (8 * Z.of_nat m) v bs'.
Proof.
  intros Hm Hbs Ho Hfit Hnext. unfold setBits64, getSize, mbind, M_bind. cbn [get mret M_ret].
  rewrite length_fmap, octets_mult, (Z.mul_comm 8), Z.div_mul by lia.
  destruct (Z.ltb_spec (Z.of_nat (length bs)) (Z.of_nat m + Z.of_nat off)); [lia|].
  replace (Z.to_nat (u8 (8 - Z.of_nat m))) with (8 - m)%nat by (unfold u8; rewrite Z.mod_small; lia).
  replace (8 - (8 - m))%nat with m by lia. rewrite (Z.mul_comm _ 8).
  apply setBits64_from_spec; try done. rewrite Z.mul_comm. apply Z.mod_mul. lia.
Qed.

(** A field that was set is what a getter returns, and nothing else
    changes.  At any bit offset inside an array that has room for it, the
    shifts and masks of setBits write the low bits of the value, most
    significant first, keep every other bit of the array, and getBits reads
    the value back modulo its width: fields of up to eight bits with
    getBits8_ORLESS, fields of up to eight bytes with getBits. *)
Theorem bit_fields_roundtrip bs v off o : Forall is_byte bs → 0 ≤ o ≤ 8 →
  (∀ n : nat, (n ≤ 8)%nat → (off < length bs)%nat →
     (Z.of_nat n + o > 8 → (off + 1 < length bs)%nat) →
   ∃ bs', setBits v (Z.of_nat n) off o (Some <$> bs) = Ok (tt, Some <$> bs') ∧
     with_field bs (8 * Z.of_nat off + o) (Z.of_nat n) v bs' ∧
     getBits8_ORLESS (Z.of_nat n) off o (Some <$> bs')
       = Ok (v mod 2 ^ Z.of_nat n, Some <$> bs')) ∧
  (∀ m : nat, (m ≤ 8)%nat → (off + m ≤ length bs)%nat → (0 < o → (off + m < length bs)%nat) →
   ∃ bs', setBits64 v (Z.of_nat (8 * m)) off o (Some <$> bs) = Ok (tt, Some <$> bs') ∧
     with_field bs (8 * Z.of_nat off + o) (Z.of_nat (8 * m)) v bs' ∧
     getBits (Z.of_nat (8 * m)) off o (Some <$> bs')
       = Ok (v mod 2 ^ Z.of_nat (8 * m), Some <$> bs')).
Proof.
  intros Hbs Ho. split.
  - intros n Hn Hoff Hnext.
    destruct (setBits_spec bs v (Z.of_nat n) off o) as (bs' & Hrun & Hw); [done|lia|done..|].
    exists bs'. split_and!; [done..|]. pose proof Hw as (Hl & Hbs' & _).
    rewrite getBits8_spec by (rewrite ?Hl; done || lia). rewrite Nat2Z.id.
    by rewrite (with_field_get bs _ _ v) by (done || lia).
  - intros m Hm Hfit Hnext. replace (Z.of_nat (8 * m)) with (8 * Z.of_nat m) by lia.
    destruct (setBits64_spec bs v m off o) as (bs' & Hrun & Hw); [done..|].
    exists bs'. split_and!; [done..|]. pose proof Hw as (Hl & Hbs' & _).
    rewrite getBits_spec by (rewrite ?Hl; done || lia).
    rewrite (with_field_get bs _ _ v); [|lia|]; replace (Z.of_nat (8 * m)) with (8 * Z.of_nat m) by lia; done.
Qed.

Lemma bit_fields_roundtrip_witness : ∃ bs',
  setBits64 43981 (Z.of_nat (8 * 2)) 1 3 (Some <$> [255; 0; 129; 7; 255]) = Ok (tt, Some <$> bs') ∧
  getBits (Z.of_nat (8 * 2)) 1 3 (Some <$> bs') = Ok (43981, Some <$> bs').
Proof.
  destruct (bit_fields_roundtrip [255; 0; 129; 7; 255] 43981 1 3) as [_ H].
  { repeat constructor; done. }
  { lia. }
  destruct (H 2%nat) as (bs' & Hset & _ & Hget); [lia|cbn; lia|cbn; lia|].
  exists bs'. split; [exact Hset|exact Hget].
Defined.

(** Widths that are not whole bytes: setBits(uint64_t, ...) writes the two
    bytes that contain the twelve bits right-aligned, getBits reads them
    left-aligned. *)
Theorem odd_widths_differ :
  (_ ← setBits64 2748 12 0 0; getBits 12 0 0) [Some 0; Some 0] = Ok (171, [Some 10; Some 188]).
Proof. reflexivity. Qed.

Lemma put_str_endless fuel str i d off : Forall is_byte str → (256 ≤ length str)%nat → 0 ≤ i < 256 →
  put_str fuel str i off 0 d = Fault Endless.
Proof.
  intros Hs Hlen. revert i d off. induction fuel as [|fuel IH]; intros i d off Hi; [done|].
  cbn [put_str]. destruct (Z.ltb_spec i (Z.of_nat (length str))); [|lia].
  unfold mbind, M_bind. assert (∃ d', setBits (nth (Z.to_nat i) str 0) 8 off 0 d = Ok (tt, d')) as [d' ->].
  { destruct (Nat.lt_ge_cases off (length d)).
    - rewrite setBits_byte by (done || by apply is_byte_nth). by eexists.
    - unfold setBits, getSize, mbind, M_bind. cbn [get mret M_ret]. change (8 >? 8) with false.
      change (0 >? 8) with false. cbn [orb]. exists d.
      destruct (Nat.eqb_spec (length d) 0), (Nat.ltb_spec (length d - 1) off); cbn [negb andb];
        try done; try lia; change (8 / 8) with 1;
        (destruct (Z.ltb_spec (Z.of_nat (length d)) (1 + Z.of_nat off)); [done|lia]). }
  apply IH. apply (Z.mod_pos_bound (i + 1) 256). lia.
Qed.

(** Strings of 256 bytes or more: the loop of setBytes(const string &, ...)
    counts in a byte and never ends. *)
Theorem long_strings_never_end fuel str d off : Forall is_byte str → (256 ≤ length str)%nat →
  (off + length str ≤ length d)%nat → setStr fuel str off 0 d = Fault Endless.
Proof.
  intros Hs Hlen Hfit. unfold setStr, getSize, mbind, M_bind. cbn [get mret M_ret].
  destruct (Nat.ltb_spec (length d) (length str + off)); [lia|]. by apply put_str_endless.
Qed.
