(* ===== verification/QoSPackets.v ===== *)
(** * The packets of the quality-of-service library

    [MetaDataPacket] (lib/qos/metadatapacket.cpp) describes an information
    item, [LSMPacket] (lib/qos/lsmpacket.cpp for applications and the topology
    manager, src/tm_ext/lsmpacket.cc for the element that monitors links) the
    state of the links of a node.  Both are a [ByteArray] whose fields the
    methods address; a method is an operation on that array. *)
From stdpp Require Import base list gmap sets.
From Stdlib Require Import ZArith Lia Bool.
From S2P Require Import Prelude Enums Bitvector GlobalConf Containers ByteArray.

Local Open Scope Z_scope.

(** [std::map<uint8_t, uint16_t>] *)
Notation QoSList := (gmap Z Z).

Definition QoS_METADATA : Z := 108.
Definition QoS_REPORT : Z := 107.
Definition QoS_ITEM_SIZE : nat := 3.

(** [Packet(uint8_t *, int)] and [setData]: the old array is gone, the new one
    a copy. *)
Definition setData (data : bytes) (size : Z) : M ByteArray unit :=
  if size <? 0 then mret tt
  else if decide (Z.to_nat size ≤ length data)%nat then
    _ ← modify (λ _, []);
    _ ← extend (Z.to_nat size);
    setBytes (take (Z.to_nat size) data) 0 0
  else throw BufferOverflow.

(** The items of a list, one after the other: key and value, high byte first *)
Fixpoint put_items (l : list (Z * Z)) (bytepos : nat) : M ByteArray unit :=
  match l with
  | [] => mret tt
  | (k, v) :: l =>
      _ ← set_data bytepos k;
      _ ← setBits64 v 16 (bytepos + 1) 0;
      put_items l (bytepos + 3)
  end.

Fixpoint get_items (n : nat) (offset : nat) (q : QoSList) : M ByteArray QoSList :=
  match n with
  | O => mret q
  | S n =>
      k ← data_at offset;
      v ← getBits 16 (offset + 1) 0;
      get_items n (offset + QoS_ITEM_SIZE) (<[k := v]> q)
  end.

(** ** MetaDataPacket *)

(** Type, number of fragments of the identifier, ..., number of items *)
Definition META_HDR_LEN : nat := 3.

Definition meta_getType : M ByteArray Z := data_at 0.
Definition getIDLen : M ByteArray Z := data_at 1.

(** [META_HDR_LEN + getIDLen() * PURSUIT_ID_LEN] *)
Definition header_len : M ByteArray nat :=
  n ← getIDLen; mret (META_HDR_LEN + Z.to_nat n * PURSUIT_ID_LEN)%nat.

Definition getID_RAW : M ByteArray bytes :=
  n ← getIDLen; getStrBytes (n * Z.of_nat PURSUIT_ID_LEN) 2 0.

Definition getItemNum : M ByteArray Z := h ← header_len; data_at (h - 1).

(** The value of an index out of range was never assigned. *)
Definition getItem (index : Z) : M ByteArray (Z * option Z) :=
  n ← getItemNum;
  if (index <? 0) || (index >? n) then mret (0, None)
  else
    h ← header_len;
    let offset := Z.to_nat (u16 (Z.of_nat h + index * Z.of_nat QoS_ITEM_SIZE)) in
    k ← data_at offset;
    v ← getBits 16 (Z.to_nat (u16 (Z.of_nat offset + 1))) 0;
    mret (k, Some v).

Definition getIIStatus : M ByteArray QoSList :=
  offset ← header_len;
  n ← getItemNum;
  get_items (Z.to_nat n) offset ∅.

Definition meta_setType (type : Z) : M ByteArray unit := set_data 0 type.
Definition setIDLen (n : Z) : M ByteArray unit := set_data 1 n.

Definition setID (fuel : nat) (id : bytes) : M ByteArray unit :=
  _ ← setIDLen (Z.of_nat (length id) / Z.of_nat PURSUIT_ID_LEN);
  setStr fuel id 2 0.

Definition setItemNum (num : Z) : M ByteArray unit := h ← header_len; set_data (h - 1) num.

Definition setItem (index key val : Z) : M ByteArray unit :=
  n ← getItemNum;
  if (index <? 0) || (index >? n) then mret tt
  else
    h ← header_len;
    let offset := Z.to_nat (u16 (Z.of_nat h + index * Z.of_nat QoS_ITEM_SIZE)) in
    _ ← set_data offset key;
    setBits64 val 16 (Z.to_nat (u16 (Z.of_nat offset + 1))) 0.

Definition appendIIStatus (q : QoSList) : M ByteArray unit :=
  h ← header_len;
  _ ← extend (size q * QoS_ITEM_SIZE);
  _ ← set_data (h - 1) (Z.of_nat (size q));
  put_items (in_order_of q) h.

(** MetaDataPacket(uint32_t) *)
Definition of_datalen (datalen : nat) : M ByteArray unit :=
  _ ← extend (META_HDR_LEN + datalen); meta_setType QoS_METADATA.

(** MetaDataPacket(const uint8_t &) *)
Definition of_idlen (idlen : Z) : M ByteArray unit :=
  _ ← extend (Z.to_nat idlen * PURSUIT_ID_LEN + META_HDR_LEN);
  _ ← set_data 0 QoS_METADATA;
  _ ← set_data 1 idlen;
  set_data (PURSUIT_ID_LEN * Z.to_nat idlen + 2) 0.

(** ** LSMPacket *)

(** Type, node, number of links *)
Definition LSM_HDR_LEN : nat := (1 + NODEID_LEN + 1)%nat.

Definition lsm_getType : M ByteArray Z := data_at 0.
Definition getLinksLen : M ByteArray Z := data_at (NODEID_LEN + 1).
Definition lsm_setType (type : Z) : M ByteArray unit := set_data 0 type.
Definition setRepLen (n : Z) : M ByteArray unit := set_data (NODEID_LEN + 1) n.
Definition setNodeId (fuel : nat) (nodeID : bytes) : M ByteArray unit := setStr fuel nodeID 1 0.
Definition getNodeId : M ByteArray bytes := getStrBytes (Z.of_nat NODEID_LEN) 1 0.

(** LSMPacket() *)
Definition new_LSMPacket : M ByteArray unit :=
  _ ← extend LSM_HDR_LEN; _ ← lsm_setType QoS_REPORT; setRepLen 0.

Fixpoint skip_links (n : nat) (offset : Z) : M ByteArray Z :=
  match n with
  | O => mret offset
  | S n =>
      let offset := u16 (offset + Z.of_nat FID_LEN) in
      c ← data_at (Z.to_nat offset);
      skip_links n (u16 (u16 (offset + c * Z.of_nat QoS_ITEM_SIZE) + 1))
  end.

Definition getLinkOffset (index : nat) : M ByteArray Z :=
  n ← getLinksLen;
  if Z.of_nat index >? n then mret (-1) else skip_links index (Z.of_nat LSM_HDR_LEN).

Definition getStatusListLen (index : nat) : M ByteArray Z :=
  offset ← getLinkOffset index;
  if offset =? -1 then mret (-1) else data_at (Z.to_nat offset + FID_LEN).

(** appendLinkStatus of lib/qos: the identifier, then the list from the same
    position on *)
Definition appendLinkStatus (fuel : nat) (lid : bytes) (q : QoSList) : M ByteArray unit :=
  n ← getLinksLen;
  bytepos ← getSize;
  _ ← extend (FID_LEN + 1 + size q * QoS_ITEM_SIZE);
  _ ← setStr fuel lid bytepos 0;
  _ ← set_data bytepos (Z.of_nat (size q));
  _ ← put_items (in_order_of q) (bytepos + 1);
  setRepLen (n + 1).

(** The loop of appendLinkStatus of src/tm_ext over the bits of the
    identifier; [b] collects the bits of a byte.  Returns where it stopped. *)
Fixpoint put_bits (bits : list bool) (b : Z) (bitpos : Z) (bytepos : nat) : M ByteArray nat :=
  match bits with
  | [] => mret bytepos
  | bit :: bits =>
      let b := Z.lor (u8 (Z.shiftl b 1)) (Z.b2z bit) in
      if bitpos + 1 =? 8 then
        _ ← set_data bytepos b;
        put_bits bits b 0 (bytepos + 1)
      else put_bits bits b (bitpos + 1) bytepos
  end.

Definition appendLinkStatus_ext (lid : BABitvector) (q : QoSList) : M ByteArray unit :=
  n ← getLinksLen;
  bytepos ← getSize;
  _ ← extend (FID_LEN + 1 + size q * QoS_ITEM_SIZE);
  bytepos ← put_bits ((λ i, bv_bit lid (Z.of_nat i)) <$> seq 0 (Z.to_nat (bv_size lid))) 0 0 bytepos;
  _ ← set_data bytepos (Z.of_nat (size q));
  _ ← put_items (in_order_of q) (bytepos + 1);
  setRepLen (n + 1).

Definition getLid_RAW (index : nat) : M ByteArray bytes :=
  n ← getLinksLen;
  if Z.of_nat index >? n then mret []
  else
    bytepos ← getLinkOffset index;
    getStrBytes (Z.of_nat FID_LEN) (Z.to_nat bytepos) 0.

(** The loop of getLidStr and getLid *)
Fixpoint get_bits (n : nat) (bitpos : nat) (bytepos : nat) (bv : BABitvector) : M ByteArray BABitvector :=
  match n with
  | O => mret bv
  | S n =>
      b ← getBits8_ORLESS 1 bytepos (Z.of_nat (bitpos mod 8));
      match bv_set bv (Z.of_nat bitpos) (negb (b =? 0)) with
      | Some bv =>
          get_bits n (bitpos + 1) (if (S bitpos mod 8 =? 0)%nat then bytepos + 1 else bytepos) bv
      | None => throw BufferOverflow
      end
  end.

Definition getLid (index : nat) : M ByteArray BABitvector :=
  n ← getLinksLen;
  if Z.of_nat index >? n then mret (mkBV (-1) [])
  else
    bytepos ← getLinkOffset index;
    match bv_make fid_bits with
    | Some bv => get_bits (Z.to_nat fid_bits) 0 (Z.to_nat bytepos) bv
    | None => throw AssertFailed
    end.

Definition getLidStr (index : nat) : M ByteArray bytes :=
  n ← getLinksLen;
  if Z.of_nat index >? n then mret []
  else bv ← getLid index; mret (to_string bv).

Definition getLinkStatus (index : nat) : M ByteArray QoSList :=
  n ← getLinksLen;
  if Z.of_nat index >? n then mret ∅
  else
    offset ← getLinkOffset index;
    n ← getStatusListLen index;
    get_items (Z.to_nat n) (Z.to_nat offset + FID_LEN + 1) ∅.
