(* ===== verification/QoSProps.v ===== *)
(** * Quality-of-service packets: what is sent is what is read

    The description of an item, as a publisher makes it, and the report on the
    links of a node, as the link monitor makes it, read by the topology
    manager; and the report that the library itself makes, which nobody can
    read. *)
From stdpp Require Import base list gmap sets.
From Stdlib Require Import ZArith Lia Bool.
From S2P Require Import Prelude Enums Bitvector GlobalConf Containers ByteArray QoSPackets.

Local Open Scope Z_scope.

(** ** Writing *)

Lemma written_mid (a x b : ByteArray) y : length x = length y →
  written (a ++ x ++ b) (length a) y = a ++ (Some <$> y) ++ b.
Proof.
  intros Hl. unfold written. rewrite take_app_length, drop_app_ge by lia.
  replace (length a + length y - length a)%nat with (length x) by lia. by rewrite drop_app_length.
Qed.

Lemma set_data_mid a x b v : is_byte v → set_data (length a) v (a ++ x :: b) = Ok (tt, a ++ Some v :: b).
Proof.
  intros Hv. unfold set_data, mbind, M_bind, get. rewrite length_app. cbn [length].
  rewrite decide_True by lia. unfold modify. rewrite insert_app_r_alt, Nat.sub_diag by lia.
  cbn. unfold u8. by rewrite Z.mod_small.
Qed.

Lemma set_data_at d i v a x b : d = a ++ x :: b → i = length a → is_byte v →
  set_data i v d = Ok (tt, a ++ Some v :: b).
Proof. intros -> ->. apply set_data_mid. Qed.

Definition word16 (v : Z) : bytes := [u8 (Z.shiftr v 8); u8 v].

Lemma octet_eq v i : (i < 8)%nat →
  u8 (Z.shiftr (Z.shiftl v (Z.of_nat i * 8) mod 2 ^ 64) 56) = u8 (Z.shiftr v (8 * (7 - Z.of_nat i))).
Proof.
  intros Hi. apply Z.bits_inj'. intros j Hj. destruct (Z.lt_ge_cases j 8).
  - rewrite octet_testbit, testbit_u8, Z.shiftr_spec by lia. by destruct (Z.ltb_spec j 8); [|lia].
  - by rewrite !is_byte_testbit by (done || apply is_byte_u8).
Qed.

Lemma setBits64_word16 a x y b v :
  setBits64 v 16 (length a) 0 (a ++ x :: y :: b) = Ok (tt, a ++ (Some <$> word16 v) ++ b).
Proof.
  unfold setBits64, getSize, mbind, M_bind, get, mret, M_ret.
  rewrite length_app. cbn [length]. change (16 / 8) with 2. change (octets 16) with 2.
  destruct (Z.ltb_spec (Z.of_nat (length a + S (S (length b)))) (2 + Z.of_nat (length a))); [lia|].
  change (Z.to_nat (u8 (8 - 2))) with 6%nat. change (seq 6 (8 - 6)) with [6; 7]%nat.
  cbn [setBits64_from]. change (16 mod 8 >? 0) with false. rewrite !andb_false_r.
  rewrite !octet_eq by lia. unfold mbind, M_bind.
  rewrite setBits_byte by (rewrite ?length_app; cbn; lia || apply is_byte_u8).
  rewrite insert_app_r_alt, Nat.sub_diag by lia. cbn [insert list_insert].
  rewrite setBits_byte by (rewrite ?length_app; cbn; lia || apply is_byte_u8).
  rewrite insert_app_r_alt by lia. replace (length a + 1 - length a)%nat with 1%nat by lia.
  cbn [insert list_insert]. done.
Qed.

(** The bytes of an item and of a list *)
Definition item_bytes (it : Z * Z) : bytes := it.1 :: word16 it.2.
Definition items_bytes (l : list (Z * Z)) : bytes := concat (item_bytes <$> l).

Lemma length_items l : length (items_bytes l) = (length l * 3)%nat.
Proof. induction l as [|it l IH]; [done|]. cbn. unfold items_bytes in IH. lia. Qed.

Lemma put_items_run l a x b : Forall (λ it, is_byte it.1) l → length x = length (items_bytes l) →
  put_items l (length a) (a ++ x ++ b) = Ok (tt, a ++ (Some <$> items_bytes l) ++ b).
Proof.
  intros Hl. revert a x. induction Hl as [|[k v] l Hk Hl IH]; intros a x Hx; cbn [put_items].
  { by destruct x. }
  unfold items_bytes in *. cbn [fmap list_fmap concat item_bytes app length fst snd] in *.
  rewrite length_app in Hx. cbn in Hx. destruct x as [|x1 [|x2 [|x3 x]]]; cbn in Hx; try lia.
  unfold mbind, M_bind. cbn [app]. rewrite set_data_mid by done.
  rewrite (cons_middle (Some k)), app_assoc.
  replace (length a + 1)%nat with (length (a ++ [Some k])) by (rewrite length_app; cbn; lia).
  rewrite setBits64_word16. replace (length a + 3)%nat
    with (length ((a ++ [Some k]) ++ (Some <$> word16 v))) by (rewrite !length_app; cbn; lia).
  rewrite (app_assoc (a ++ [Some k])), IH by lia. rewrite fmap_app, <-!app_assoc. done.
Qed.

(** ** Reading *)

Lemma data_at_app bs a c b : bs = a ++ c :: b → data_at (length a) (Some <$> bs) = Ok (c, Some <$> bs).
Proof.
  intros ->. rewrite data_at_run by (rewrite length_app; cbn; lia).
  by rewrite nth_middle.
Qed.

Lemma field_add8 bs i n : field bs i (n + 8) = 256 * field bs i n + field bs (i + Z.of_nat n) 8.
Proof.
  assert (∀ k, field bs i (n + k) = 2 ^ Z.of_nat k * field bs i n + field bs (i + Z.of_nat n) k) as H.
  { induction k as [|k IH]; [by rewrite Nat.add_0_r; cbn; lia|].
    rewrite Nat.add_succ_r. cbn [field]. rewrite IH.
    replace (i + Z.of_nat (n + k)) with (i + Z.of_nat n + Z.of_nat k) by lia.
    rewrite Nat2Z.inj_succ, Z.pow_succ_r by lia. ring. }
  apply H.
Qed.

Lemma getBits_word16 bs a v b : Forall is_byte bs → 0 ≤ v < 65536 → bs = a ++ word16 v ++ b →
  getBits 16 (length a) 0 (Some <$> bs) = Ok (v, Some <$> bs).
Proof.
  intros Hbs Hv Heq. change 16 with (8 * Z.of_nat 2).
  assert (length a + 2 ≤ length bs)%nat by (rewrite Heq, !length_app; cbn; lia).
  rewrite getBits_spec by (done || lia).
  do 2 f_equal. change (8 * 2)%nat with (8 + 8)%nat.
  rewrite field_add8, field8 by done.
  replace (8 * Z.of_nat (length a) + 0 + Z.of_nat 8) with (8 * Z.of_nat (length a + 1) + 0) by lia.
  rewrite field8 by done. rewrite Heq, !(app_nth2 a) by lia. rewrite Nat.sub_diag.
  replace (length a + 1 - length a)%nat with 1%nat by lia. cbn [nth app word16].
  unfold u8. rewrite Z.shiftr_div_pow2 by lia. change (2 ^ 8) with 256.
  rewrite (Z.mod_small (v / 256)) by (split; [apply Z.div_pos; lia|apply Z.div_lt_upper_bound; lia]).
  pose proof (Z.div_mod v 256 ltac:(lia)). lia.
Qed.

Definition item_ok (it : Z * Z) : Prop := is_byte it.1 ∧ 0 ≤ it.2 < 65536.

Lemma get_items_run l bs a b q : Forall is_byte bs → Forall item_ok l → bs = a ++ items_bytes l ++ b →
  get_items (length l) (length a) q (Some <$> bs)
    = Ok (foldl (λ q it, <[it.1 := it.2]> q) q l, Some <$> bs).
Proof.
  intros Hbs Hl. revert a q. induction Hl as [|[k v] l [Hk Hv] Hl IH]; intros a q Heq; [done|].
  cbn [length get_items foldl fst snd]. unfold items_bytes in Heq.
  cbn [fmap list_fmap concat item_bytes fst snd] in Heq.
  unfold mbind, M_bind. rewrite (data_at_app bs a k (word16 v ++ concat (item_bytes <$> l) ++ b));
    [|rewrite Heq; by rewrite <-!app_assoc].
  replace (length a + 1)%nat with (length (a ++ [k])) by (unfold QoS_ITEM_SIZE; rewrite length_app; cbn; lia).
  rewrite (getBits_word16 bs (a ++ [k]) v (concat (item_bytes <$> l) ++ b));
    [|done|done|rewrite Heq; rewrite <-!app_assoc; done].
  replace (length a + QoS_ITEM_SIZE)%nat with (length (a ++ k :: word16 v))
    by (unfold QoS_ITEM_SIZE; rewrite length_app; cbn; lia).
  apply IH. rewrite Heq. unfold items_bytes. rewrite <-!app_assoc. done.
Qed.

Lemma foldl_insert_list (l : list (Z * Z)) (q : QoSList) :
  foldl (λ q it, <[it.1 := it.2]> q) q l = list_to_map (reverse l) ∪ q.
Proof.
  revert q. induction l as [|[k v] l IH]; intros q; cbn [foldl fst snd].
  { rewrite reverse_nil. symmetry. apply (map_empty_union q). }
  rewrite IH, reverse_cons, list_to_map_app. cbn.
  rewrite <-map_union_assoc. by rewrite <-insert_union_l, map_empty_union.
Qed.

(** A list of a packet: single-byte keys, two-byte values, a count that fits *)
Definition qos_ok (q : QoSList) : Prop :=
  (∀ k v, q !! k = Some v → item_ok (k, v)) ∧ (size q < 256)%nat.

Lemma get_items_map (q : QoSList) bs a b : Forall is_byte bs → qos_ok q →
  bs = a ++ items_bytes (in_order_of q) ++ b →
  get_items (size q) (length a) ∅ (Some <$> bs) = Ok (q, Some <$> bs).
Proof.
  intros Hbs [Hq _] Heq. rewrite <-length_in_order.
  rewrite (get_items_run _ bs a b); [|done| |done].
  - rewrite foldl_insert_list, map_union_empty. do 2 f_equal.
    rewrite <-(list_to_map_in_order q) at 2. apply list_to_map_proper.
    + rewrite fmap_reverse, (reverse_Permutation (in_order_of q).*1). apply NoDup_in_order.
    + by rewrite reverse_Permutation.
  - apply Forall_forall. intros [k v] Hin%elem_of_in_order_of. by apply Hq.
Qed.

Lemma items_ok_keys q : qos_ok q → Forall (λ it, is_byte it.1) (in_order_of q).
Proof.
  intros [Hq _]. apply Forall_forall. intros [k v] Hin%elem_of_in_order_of. by apply Hq in Hin as [].
Qed.

Lemma items_bytes_ok q : qos_ok q → Forall is_byte (items_bytes (in_order_of q)).
Proof.
  intros Hq%items_ok_keys. unfold items_bytes. induction Hq as [|[k v] l Hk Hl IH]; [done|].
  cbn. do 3 (constructor; [done || apply is_byte_u8|]). done.
Qed.

Lemma length_items_map q : length (items_bytes (in_order_of q)) = (size q * QoS_ITEM_SIZE)%nat.
Proof. by rewrite length_items, length_in_order. Qed.

Lemma setData_run data : Forall is_byte data → ∀ old,
  setData data (Z.of_nat (length data)) old = Ok (tt, Some <$> data).
Proof.
  intros Hd old. unfold setData. destruct (Z.ltb_spec (Z.of_nat (length data)) 0); [lia|].
  rewrite Nat2Z.id, decide_True by lia. unfold mbind, M_bind, extend, modify. cbn [app].
  rewrite take_ge by lia. rewrite setBytes_run by (rewrite ?length_replicate; done || lia).
  unfold written. cbn [take app]. rewrite drop_ge, app_nil_r by (rewrite length_replicate; lia). done.
Qed.

(** ** Descriptions of items *)
Section metadata.
Context (id : bytes) (n : nat) (q : QoSList).
Context (Hid : length id = (n * PURSUIT_ID_LEN)%nat) (Hbytes : Forall is_byte id).
Context (Hn : (n < 32)%nat) (Hq : qos_ok q).

(** A description on the wire *)
Definition metadata_bytes : bytes :=
  [QoS_METADATA; Z.of_nat n] ++ id ++ [Z.of_nat (size q)] ++ items_bytes (in_order_of q).

Lemma metadata_bytes_ok : Forall is_byte metadata_bytes.
Proof.
  unfold metadata_bytes. destruct Hq as [_ Hs].
  repeat apply Forall_app_2; [| |constructor; [unfold is_byte; lia|done]|by apply items_bytes_ok].
  - constructor; [done|]. constructor; [unfold is_byte; lia|done].
  - done.
Qed.

Lemma metadata_made fuel : (256 ≤ fuel)%nat →
  (_ ← of_idlen (Z.of_nat n); _ ← setID fuel id; appendIIStatus q) []
    = Ok (tt, Some <$> metadata_bytes).
Proof.
  intros Hf. destruct Hq as [_ Hs].
  assert (of_idlen (Z.of_nat n) [] =
    Ok (tt, [Some QoS_METADATA; Some (Z.of_nat n)] ++ replicate (length id) None ++ [Some 0])) as Hnew.
  { unfold of_idlen, mbind, M_bind, extend, modify. cbn [app]. rewrite Nat2Z.id.
    replace (n * PURSUIT_ID_LEN + META_HDR_LEN)%nat with (S (S (length id + 1)))
      by (rewrite Hid; unfold META_HDR_LEN; lia).
    cbn [replicate]. erewrite (set_data_at _ 0 _ []) by done. cbn [app].
    erewrite (set_data_at _ 1 _ [_]) by (done || unfold is_byte; lia). cbn [app].
    replace (PURSUIT_ID_LEN * n + 2)%nat
      with (length (Some QoS_METADATA :: Some (Z.of_nat n) :: replicate (length id) None))
      by (cbn [length]; rewrite length_replicate, Hid; lia).
    rewrite replicate_add. cbn [replicate].
    rewrite (app_comm_cons _ _ (Some (Z.of_nat n))), (app_comm_cons _ _ (Some QoS_METADATA)).
    by rewrite set_data_mid. }
  assert (setID fuel id ([Some QoS_METADATA; Some (Z.of_nat n)] ++ replicate (length id) None ++ [Some 0])
    = Ok (tt, (Some <$> [QoS_METADATA; Z.of_nat n] ++ id) ++ [Some 0])) as Hset.
  { unfold setID, setIDLen, mbind, M_bind.
    replace (Z.of_nat (length id) / Z.of_nat PURSUIT_ID_LEN) with (Z.of_nat n)
      by (rewrite Hid, Nat2Z.inj_mul, Z.div_mul; done).
    cbn [app]. erewrite (set_data_at _ 1 _ [_]) by (done || unfold is_byte; lia). cbn [app].
    rewrite setStr_run; [|done| | |cbn [length]; rewrite length_app, length_replicate; lia];
      [|change PURSUIT_ID_LEN with 8%nat in Hid; lia..].
    pose proof (written_mid [Some QoS_METADATA; Some (Z.of_nat n)] (replicate (length id) None) [Some 0]
      id (length_replicate _ _)) as Hw. cbn [app length] in Hw. rewrite Hw. done. }
  unfold mbind at 1, M_bind at 1. rewrite Hnew. unfold mbind, M_bind at 1. rewrite Hset.
  unfold appendIIStatus, header_len, getIDLen, mbind, M_bind.
  assert (∀ b, data_at 1 ((Some <$> [QoS_METADATA; Z.of_nat n] ++ id) ++ b)
    = Ok (Z.of_nat n, (Some <$> [QoS_METADATA; Z.of_nat n] ++ id) ++ b)) as Hat by done.
  rewrite Hat. unfold mret, M_ret, extend, modify. rewrite Nat2Z.id.
  rewrite <-app_assoc. cbn [app].
  replace (META_HDR_LEN + n * PURSUIT_ID_LEN - 1)%nat
    with (length (Some <$> [QoS_METADATA; Z.of_nat n] ++ id)) by (rewrite length_fmap; cbn; lia).
  change (Some QoS_METADATA :: Some (Z.of_nat n) :: (Some <$> id) ++ Some 0 :: replicate _ _)
    with ((Some <$> [QoS_METADATA; Z.of_nat n] ++ id) ++ Some 0 :: replicate (size q * QoS_ITEM_SIZE) None).
  rewrite set_data_mid by (unfold is_byte; lia).
  rewrite cons_middle, app_assoc.
  replace (META_HDR_LEN + n * PURSUIT_ID_LEN)%nat
    with (length ((Some <$> [QoS_METADATA; Z.of_nat n] ++ id) ++ [Some (Z.of_nat (size q))]))
    by (rewrite length_app, length_fmap; cbn; lia).
  rewrite <-(app_nil_r (replicate _ None)).
  rewrite put_items_run by (rewrite ?length_items_map, ?length_replicate; done || by apply items_ok_keys).
  rewrite app_nil_r. unfold metadata_bytes. rewrite !fmap_app, <-!app_assoc. done.
Qed.

Lemma metadata_read :
  meta_getType (Some <$> metadata_bytes) = Ok (QoS_METADATA, Some <$> metadata_bytes) ∧
  getID_RAW (Some <$> metadata_bytes) = Ok (id, Some <$> metadata_bytes) ∧
  getIIStatus (Some <$> metadata_bytes) = Ok (q, Some <$> metadata_bytes).
Proof.
  pose proof metadata_bytes_ok as Hok.
  assert (getIDLen (Some <$> metadata_bytes) = Ok (Z.of_nat n, Some <$> metadata_bytes)) as Hlen
    by done.
  split_and!; [done| |].
  - unfold getID_RAW, mbind, M_bind. rewrite Hlen.
    replace (Z.of_nat n * Z.of_nat PURSUIT_ID_LEN) with (Z.of_nat (length id)) by (rewrite Hid; lia).
    rewrite getStrBytes_run; [|done|change PURSUIT_ID_LEN with 8%nat in Hid; lia
      |unfold metadata_bytes; rewrite !length_app; cbn [length]; lia].
    do 2 f_equal. apply take_app_length.
  - assert (header_len (Some <$> metadata_bytes)
      = Ok ((META_HDR_LEN + n * PURSUIT_ID_LEN)%nat, Some <$> metadata_bytes)) as Hhdr.
    { unfold header_len, mbind, M_bind. rewrite Hlen. unfold mret, M_ret. by rewrite Nat2Z.id. }
    assert (getItemNum (Some <$> metadata_bytes) = Ok (Z.of_nat (size q), Some <$> metadata_bytes)) as Hnum.
    { unfold getItemNum, mbind, M_bind. rewrite Hhdr.
      replace (META_HDR_LEN + n * PURSUIT_ID_LEN - 1)%nat with (length ([QoS_METADATA; Z.of_nat n] ++ id))
        by (rewrite length_app, Hid; cbn; lia).
      apply data_at_app with (items_bytes (in_order_of q)). unfold metadata_bytes. by rewrite <-!app_assoc. }
    unfold getIIStatus, mbind, M_bind. rewrite Hhdr, Hnum, Nat2Z.id.
    replace (META_HDR_LEN + n * PURSUIT_ID_LEN)%nat
      with (length ([QoS_METADATA; Z.of_nat n] ++ id ++ [Z.of_nat (size q)]))
      by (rewrite !length_app, Hid; cbn; lia).
    rewrite (get_items_map q _ _ []); [done|done|done|].
    unfold metadata_bytes. by rewrite app_nil_r, <-!app_assoc.
Qed.
End metadata.

(** ** Bits of an identifier *)

(** The bytes that the loop of appendLinkStatus makes *)
Fixpoint pack (bits : list bool) (b : Z) (bitpos : nat) : bytes :=
  match bits with
  | [] => []
  | bit :: bits =>
      let b := Z.lor (u8 (Z.shiftl b 1)) (Z.b2z bit) in
      if (bitpos =? 7)%nat then b :: pack bits b 0 else pack bits b (bitpos + 1)
  end.

#[local] Strategy 100 [pack].

Lemma shift_in_bits b bit j : 0 ≤ j →
  Z.testbit (Z.lor (u8 (Z.shiftl b 1)) (Z.b2z bit)) j
    = if j =? 0 then bit else (j <? 8) && Z.testbit b (j - 1).
Proof.
  intros Hj. rewrite Z.lor_spec, testbit_u8, Z.shiftl_spec by lia.
  destruct (Z.eqb_spec j 0) as [->|Hne].
  - rewrite Z.testbit_neg_r by lia. by destruct bit.
  - assert (Z.testbit (Z.b2z bit) j = false) as ->.
    { destruct bit; cbn [Z.b2z]; [|apply Z.testbit_0_l]. destruct j; try done; lia. }
    by rewrite orb_false_r.
Qed.

Lemma shift_in_byte b bit : is_byte (Z.lor (u8 (Z.shiftl b 1)) (Z.b2z bit)).
Proof.
  apply is_byte_bits.
  - apply Z.lor_nonneg. split; [apply (is_byte_u8 (Z.shiftl b 1))|by destruct bit].
  - intros k Hk. rewrite shift_in_bits by lia.
    destruct (Z.eqb_spec k 0), (Z.ltb_spec k 8); lia || done.
Qed.

Lemma pack_ok bits b bitpos : Forall is_byte (pack bits b bitpos).
Proof.
  revert b bitpos. induction bits as [|bit bits IH]; intros b bitpos; cbn [pack]; [done|].
  destruct (bitpos =? 7)%nat; [|done]. constructor; [apply shift_in_byte|done].
Qed.

Lemma length_pack bits b bitpos : (bitpos < 8)%nat →
  length (pack bits b bitpos) = ((bitpos + length bits) / 8)%nat.
Proof.
  revert b bitpos. induction bits as [|bit bits IH]; intros b bitpos Hp; cbn [pack length].
  { rewrite Nat.add_0_r. by rewrite Nat.div_small. }
  destruct (Nat.eqb_spec bitpos 7) as [->|]; cbn [length].
  - rewrite IH by lia. replace (7 + S (length bits))%nat with (1 * 8 + length bits)%nat by lia.
    rewrite Nat.div_add_l by lia. done.
  - rewrite IH by lia. f_equal. lia.
Qed.

Lemma abit_cons w bs k : 0 ≤ k → abit (w :: bs) k = if k <? 8 then Z.testbit w (7 - k) else abit bs (k - 8).
Proof.
  intros Hk. unfold abit. destruct (Z.ltb_spec k 8).
  - rewrite Z.div_small, Z.mod_small by lia. done.
  - assert (k / 8 = (k - 8) / 8 + 1) as -> by (rewrite <-Z.div_add by lia; f_equal; lia).
    assert (k mod 8 = (k - 8) mod 8) as -> by (rewrite <-(Z.mod_add (k - 8) 1 8) by lia; f_equal; lia).
    pose proof (Z.div_pos (k - 8) 8). rewrite Z2Nat.inj_add by lia. by rewrite Nat.add_1_r.
Qed.

Lemma abit_pack bits b bitpos k : (bitpos < 8)%nat →
  (k < 8 * ((bitpos + length bits) / 8))%nat →
  abit (pack bits b bitpos) (Z.of_nat k)
    = if (k <? bitpos)%nat then Z.testbit b (Z.of_nat (bitpos - 1 - k)) else nth (k - bitpos) bits false.
Proof.
  revert b bitpos k. induction bits as [|bit bits IH]; intros b bitpos k Hp Hk; cbn [pack length] in *.
  { rewrite Nat.add_0_r, Nat.div_small in Hk by lia. lia. }
  destruct (Nat.eqb_spec bitpos 7) as [->|].
  - replace (7 + S (length bits))%nat with (1 * 8 + length bits)%nat in Hk by lia.
    rewrite Nat.div_add_l in Hk by lia. rewrite abit_cons by lia.
    destruct (Z.ltb_spec (Z.of_nat k) 8).
    + rewrite shift_in_bits by lia.
      destruct (Z.eqb_spec (7 - Z.of_nat k) 0), (Nat.ltb_spec k 7), (Z.ltb_spec (7 - Z.of_nat k) 8);
        try lia; cbn [andb].
      * replace (k - 7)%nat with 0%nat by lia. done.
      * f_equal. lia.
    + replace (Z.of_nat k - 8) with (Z.of_nat (k - 8)) by lia. rewrite IH by (cbn [Nat.add]; lia).
      destruct (Nat.ltb_spec (k - 8) 0), (Nat.ltb_spec k 7); try lia.
      replace (k - 7)%nat with (S (k - 8 - 0)) by lia. done.
  - replace (bitpos + S (length bits))%nat with (bitpos + 1 + length bits)%nat in Hk by lia.
    rewrite IH by lia.
    destruct (Nat.ltb_spec k (bitpos + 1)), (Nat.ltb_spec k bitpos); try lia.
    + rewrite shift_in_bits by lia.
      destruct (Z.eqb_spec (Z.of_nat (bitpos + 1 - 1 - k)) 0), (Z.ltb_spec (Z.of_nat (bitpos + 1 - 1 - k)) 8);
        try lia. cbn [andb]. f_equal. lia.
    + rewrite shift_in_bits by lia. replace (k - bitpos)%nat with 0%nat by lia.
      destruct (Z.eqb_spec (Z.of_nat (bitpos + 1 - 1 - k)) 0); [done|lia].
    + replace (k - bitpos)%nat with (S (k - (bitpos + 1))) by lia. done.
Qed.

Lemma put_bits_run bits b bitpos a x c : (bitpos < 8)%nat → length x = length (pack bits b bitpos) →
  put_bits bits b (Z.of_nat bitpos) (length a) (a ++ x ++ c)
    = Ok ((length a + length x)%nat, a ++ (Some <$> pack bits b bitpos) ++ c).
Proof.
  revert b bitpos a x. induction bits as [|bit bits IH]; intros b bitpos a x Hp Hx; cbn [put_bits pack] in *.
  { destruct x; [|done]. unfold mret, M_ret. do 2 f_equal. cbn. lia. }
  destruct (Z.eqb_spec (Z.of_nat bitpos + 1) 8), (Nat.eqb_spec bitpos 7); try lia; cbn [length fmap list_fmap] in *.
  - destruct x as [|x0 x]; [done|]. cbn [length app] in *. injection Hx as Hx.
    unfold mbind, M_bind. rewrite set_data_mid by apply shift_in_byte.
    set (b' := Z.lor _ _). rewrite cons_middle, app_assoc.
    replace (length a + 1)%nat with (length (a ++ [Some b'])) by (rewrite length_app; cbn; lia).
    rewrite (IH b' 0%nat) by (done || lia). rewrite <-!app_assoc, length_app. cbn [length app].
    f_equal. f_equal. lia.
  - replace (Z.of_nat bitpos + 1) with (Z.of_nat (bitpos + 1)) by lia. apply IH; [lia|done].
Qed.

(** The bytes of a link identifier *)
Definition lid_bytes (lid : BABitvector) : bytes :=
  pack ((λ i, bv_bit lid (Z.of_nat i)) <$> seq 0 (Z.to_nat fid_bits)) 0 0.

Lemma length_lid_bytes lid : length (lid_bytes lid) = FID_LEN.
Proof. unfold lid_bytes. rewrite length_pack, length_fmap, length_seq by lia. done. Qed.

Lemma abit_lid_bytes lid k : 0 ≤ k < fid_bits → abit (lid_bytes lid) k = bv_bit lid k.
Proof.
  intros Hk. unfold lid_bytes. rewrite <-(Z2Nat.id k) at 1 by lia.
  rewrite abit_pack; [|lia|].
  - cbn [Nat.ltb Nat.leb]. rewrite nth_lookup, list_lookup_fmap.
    rewrite lookup_seq_lt by lia. cbn. f_equal. lia.
  - rewrite length_fmap, length_seq. change (0 + Z.to_nat fid_bits)%nat with 256%nat.
    change (256 / 8)%nat with 32%nat. unfold fid_bits, FID_LEN in Hk. lia.
Qed.

Lemma get_bits_run n bitpos start bs bv : Forall is_byte bs → bv_wf bv →
  Z.of_nat (bitpos + n) ≤ bv_max bv + 1 → (8 * start + bitpos + n ≤ 8 * length bs)%nat →
  ∃ r, get_bits n bitpos (start + bitpos / 8) bv (Some <$> bs) = Ok (r, Some <$> bs) ∧
    bv_wf r ∧ bv_max r = bv_max bv ∧
    ∀ j, 0 ≤ j → bv_bit r j = if (Z.of_nat bitpos <=? j) && (j <? Z.of_nat (bitpos + n))
                               then abit bs (8 * Z.of_nat start + j) else bv_bit bv j.
Proof.
  intros Hbs. revert bitpos bv. induction n as [|n IH]; intros bitpos bv Hwf Hmax Hfit; cbn [get_bits].
  { exists bv. split_and!; try done. intros j Hj. field_bits j. }
  pose proof (Nat.div_mod_eq bitpos 8) as E1. pose proof (Nat.mod_upper_bound bitpos 8 ltac:(lia)).
  pose proof (Nat.div_mod_eq (S bitpos) 8) as E2. pose proof (Nat.mod_upper_bound (S bitpos) 8 ltac:(lia)).
  unfold mbind, M_bind. rewrite getBits8_spec by (done || lia).
  replace (8 * Z.of_nat (start + bitpos / 8) + Z.of_nat (bitpos mod 8))
    with (8 * Z.of_nat start + Z.of_nat bitpos) by lia.
  change (Z.to_nat 1) with 1%nat. cbn [field].
  replace (8 * Z.of_nat start + Z.of_nat bitpos + Z.of_nat 0)
    with (8 * Z.of_nat start + Z.of_nat bitpos) by lia.
  set (c := abit bs (8 * Z.of_nat start + Z.of_nat bitpos)).
  assert (negb (2 * 0 + Z.b2z c =? 0) = c) as -> by by destruct c.
  destruct (bv_set_spec bv (Z.of_nat bitpos) c Hwf ltac:(lia)) as (bv1 & -> & Hwf1 & Hm1 & Hb1).
  replace (if (S bitpos mod 8 =? 0)%nat then (start + bitpos / 8 + 1)%nat else (start + bitpos / 8)%nat)
    with (start + (bitpos + 1) / 8)%nat
    by (rewrite Nat.add_1_r; destruct (Nat.eqb_spec (S bitpos mod 8) 0); lia).
  destruct (IH (bitpos + 1)%nat bv1) as (r & -> & Hwr & Hmr & Hbr); [done|lia|lia|].
  exists r. split_and!; [done|done|congruence|]. intros j Hj. rewrite Hbr, Hb1 by done.
  unfold c. destruct (Z.eqb_spec j (Z.of_nat bitpos)) as [Ej|]; [rewrite <-Ej|]; field_bits j.
Qed.

(** ** Reports on links *)

(** The links of a report: an identifier and its state *)
Definition link_ok (l : BABitvector * QoSList) : Prop := fid_ok l.1 ∧ qos_ok l.2.

Definition link_bytes (l : BABitvector * QoSList) : bytes :=
  lid_bytes l.1 ++ [Z.of_nat (size l.2)] ++ items_bytes (in_order_of l.2).

Definition report_bytes (nodeID : bytes) (links : list (BABitvector * QoSList)) : bytes :=
  [QoS_REPORT] ++ nodeID ++ [Z.of_nat (length links)] ++ concat (link_bytes <$> links).

Lemma length_link_bytes l : length (link_bytes l) = (FID_LEN + 1 + size l.2 * QoS_ITEM_SIZE)%nat.
Proof. unfold link_bytes. rewrite !length_app, length_lid_bytes, length_items_map. cbn. lia. Qed.

Lemma link_bytes_ok l : link_ok l → Forall is_byte (link_bytes l).
Proof.
  intros [_ Hq]. unfold link_bytes. pose proof Hq as [_ Hs]. repeat apply Forall_app_2.
  - apply pack_ok.
  - constructor; [unfold is_byte; lia|done].
  - by apply items_bytes_ok.
Qed.

Lemma put_lid_run lid a x c : length x = FID_LEN →
  put_bits ((λ i, bv_bit lid (Z.of_nat i)) <$> seq 0 (Z.to_nat fid_bits)) 0 0 (length a) (a ++ x ++ c)
    = Ok ((length a + length x)%nat, a ++ (Some <$> lid_bytes lid) ++ c).
Proof.
  intros Hx. pose proof (length_lid_bytes lid) as Hl. unfold lid_bytes in *.
  generalize dependent ((λ i, bv_bit lid (Z.of_nat i)) <$> seq 0 (Z.to_nat fid_bits)).
  intros bits Hl. apply (put_bits_run bits 0 0%nat); [lia|congruence].
Qed.

Lemma append_link_run nodeID links l : length nodeID = NODEID_LEN → link_ok l →
  (length links < 255)%nat →
  appendLinkStatus_ext l.1 l.2 (Some <$> report_bytes nodeID links)
    = Ok (tt, Some <$> report_bytes nodeID (links ++ [l])).
Proof.
  intros Hid [[Hlw Hlm] Hq] Hn. pose proof Hq as [_ Hs].
  set (old := [QoS_REPORT] ++ nodeID).
  assert (∀ ls, report_bytes nodeID ls = old ++ Z.of_nat (length ls) :: concat (link_bytes <$> ls)) as Hrep
    by (intros; unfold report_bytes, old; by rewrite <-!app_assoc).
  assert (length old = NODEID_LEN + 1)%nat as Hold by (unfold old; rewrite length_app, Hid; done).
  unfold appendLinkStatus_ext, getLinksLen, getSize, mbind, M_bind. cbn [get].
  rewrite <-Hold, (data_at_app _ old (Z.of_nat (length links)) _ (Hrep links)).
  unfold extend, modify, get, mret, M_ret. unfold bv_size. rewrite Hlm.
  change (fid_bits - 1 + 1) with fid_bits.
  replace (FID_LEN + 1 + size l.2 * QoS_ITEM_SIZE)%nat
    with (length (lid_bytes l.1) + (1 + length (items_bytes (in_order_of l.2))))%nat
    by (rewrite length_lid_bytes, length_items_map; lia).
  rewrite replicate_add.
  rewrite put_lid_run by (rewrite length_replicate; apply length_lid_bytes).
  rewrite length_replicate, replicate_add. cbn [replicate app].
  rewrite app_assoc. replace (length (Some <$> report_bytes nodeID links) + length (lid_bytes l.1))%nat
    with (length ((Some <$> report_bytes nodeID links) ++ (Some <$> lid_bytes l.1)))
    by (rewrite length_app, !length_fmap; lia).
  rewrite set_data_mid by (unfold is_byte; lia). rewrite cons_middle, app_assoc.
  set (pre := (_ ++ _) ++ [_]).
  replace (length (_ ++ _) + 1)%nat with (length pre) by (unfold pre; rewrite length_app; cbn; lia).
  rewrite <-(app_nil_r (replicate _ None)).
  rewrite put_items_run by (rewrite ?length_replicate; done || by apply items_ok_keys).
  unfold setRepLen. rewrite <-Hold, app_nil_r. unfold pre. rewrite Hrep.
  rewrite (fmap_app _ old), <-!app_assoc. cbn [fmap list_fmap app].
  rewrite <-(length_fmap Some old). rewrite set_data_mid by (unfold is_byte; lia).
  rewrite Hrep, length_app. do 2 f_equal. rewrite (fmap_app _ old). cbn [fmap list_fmap length].
  rewrite fmap_app, concat_app. cbn [fmap list_fmap concat]. rewrite app_nil_r.
  rewrite fmap_app. replace (Z.of_nat (length links) + 1) with (Z.of_nat (length links + 1)) by lia.
  do 3 f_equal.
Qed.

(** What LinkMon::report makes of the links of its node *)
Lemma report_made fuel nodeID links : length nodeID = NODEID_LEN → Forall is_byte nodeID →
  Forall link_ok links → (length links < 256)%nat → (256 ≤ fuel)%nat →
  (_ ← new_LSMPacket; _ ← setNodeId fuel nodeID;
   for_each links (λ l, appendLinkStatus_ext l.1 l.2)) [] = Ok (tt, Some <$> report_bytes nodeID links).
Proof.
  intros Hid Hb Hl Hn Hf.
  assert ((_ ← new_LSMPacket; setNodeId fuel nodeID) [] = Ok (tt, Some <$> report_bytes nodeID [])) as Hnew.
  { unfold mbind, M_bind. change (new_LSMPacket [])
      with (Ok (tt, [Some QoS_REPORT] ++ replicate NODEID_LEN None ++ [Some 0])).
    cbn iota. unfold setNodeId. 
    assert (length nodeID = 8%nat) as H8 by done.
    rewrite setStr_run by (done || (rewrite H8; cbn [app length replicate NODEID_LEN]; lia)).
    change 1%nat with (length [Some QoS_REPORT]).
    rewrite (written_mid [Some QoS_REPORT]) by by rewrite length_replicate.
    unfold report_bytes. rewrite !fmap_app. done. }
  assert (∀ done todo, Forall link_ok todo → (length (done ++ todo) < 256)%nat →
    for_each todo (λ l, appendLinkStatus_ext l.1 l.2) (Some <$> report_bytes nodeID done)
      = Ok (tt, Some <$> report_bytes nodeID (done ++ todo))) as Hrun.
  { intros done todo Htodo. revert done. induction Htodo as [|l todo Hlo Htodo IH]; intros done Hlen.
    { by rewrite app_nil_r. }
    rewrite length_app in Hlen. cbn [length for_each] in *. unfold mbind, M_bind.
    rewrite append_link_run by (done || lia). rewrite IH by (rewrite !length_app; cbn; lia).
    by rewrite <-app_assoc. }
  transitivity ((_ ← (_ ← new_LSMPacket; setNodeId fuel nodeID);
    for_each links (λ l, appendLinkStatus_ext l.1 l.2)) []).
  { unfold mbind, M_bind. by destruct (new_LSMPacket []) as [[]|]. }
  unfold mbind at 1, M_bind at 1. rewrite Hnew. by apply (Hrun []).
Qed.

(** Where link [i] of a report starts *)
Definition link_start (links : list (BABitvector * QoSList)) (i : nat) : nat :=
  (LSM_HDR_LEN + length (concat (link_bytes <$> take i links)))%nat.

Section report.
Context (nodeID : bytes) (links : list (BABitvector * QoSList)).
Context (Hid : length nodeID = NODEID_LEN) (Hnode : Forall is_byte nodeID).
Context (Hlinks : Forall link_ok links) (Hn : (length links < 256)%nat).
Context (Hsize : Z.of_nat (length (report_bytes nodeID links)) < 65536).

Lemma report_bytes_ok : Forall is_byte (report_bytes nodeID links).
Proof.
  unfold report_bytes. repeat apply Forall_app_2; [by constructor|done| |].
  - constructor; [unfold is_byte; lia|done].
  - apply Forall_concat, Forall_fmap. eapply Forall_impl; [exact Hlinks|]. intros l. apply link_bytes_ok.
Qed.

Lemma report_links_len :
  getLinksLen (Some <$> report_bytes nodeID links)
    = Ok (Z.of_nat (length links), Some <$> report_bytes nodeID links).
Proof.
  unfold getLinksLen. replace (NODEID_LEN + 1)%nat with (length ([QoS_REPORT] ++ nodeID))
    by (rewrite length_app, Hid; done).
  eapply data_at_app. unfold report_bytes. by rewrite <-!app_assoc.
Qed.

(** Link [i] inside the report *)
Lemma report_split i l : links !! i = Some l →
  ∃ a b, report_bytes nodeID links = a ++ link_bytes l ++ b ∧ length a = link_start links i ∧
    length (a ++ link_bytes l) = link_start links (S i).
Proof.
  intros Hi. exists ([QoS_REPORT] ++ nodeID ++ [Z.of_nat (length links)] ++ concat (link_bytes <$> take i links)),
    (concat (link_bytes <$> drop (S i) links)). split_and!.
  - unfold report_bytes. rewrite <-!app_assoc. do 4 f_equal.
    rewrite <-(take_drop_middle links i l Hi) at 1. rewrite fmap_app, concat_app. done.
  - unfold link_start. rewrite !length_app, Hid. cbn. lia.
  - unfold link_start. rewrite (take_S_r _ _ _ Hi), fmap_app, concat_app, !length_app, Hid.
    cbn. rewrite length_app. cbn. lia.
Qed.

Lemma link_start_bound i : (i ≤ length links)%nat → Z.of_nat (link_start links i) < 65536.
Proof.
  intros Hi. eapply Z.le_lt_trans; [|exact Hsize]. apply Nat2Z.inj_le. unfold link_start, report_bytes.
  assert (length (concat (link_bytes <$> links)) = length (concat (link_bytes <$> take i links))
    + length (concat (link_bytes <$> drop i links)))%nat as Hl
    by (by rewrite <-length_app, <-concat_app, <-fmap_app, take_drop).
  rewrite !length_app, Hl, Hid. cbn. lia.
Qed.

Lemma skip_links_run n i : (i + n ≤ length links)%nat →
  skip_links n (Z.of_nat (link_start links i)) (Some <$> report_bytes nodeID links)
    = Ok (Z.of_nat (link_start links (i + n)), Some <$> report_bytes nodeID links).
Proof.
  revert i. induction n as [|n IH]; intros i Hi; cbn [skip_links]; [by rewrite Nat.add_0_r|].
  destruct (lookup_lt_is_Some_2 links i ltac:(lia)) as [l Hl].
  destruct (report_split i l Hl) as (a & b & Hrep & Ha & Hnext).
  pose proof (link_start_bound (S i) ltac:(lia)) as Hb.
  rewrite length_app, length_link_bytes, Ha in Hnext. unfold QoS_ITEM_SIZE in *.
  replace (u16 (Z.of_nat (link_start links i) + Z.of_nat FID_LEN))
    with (Z.of_nat (link_start links i + FID_LEN)) by (unfold u16; rewrite Z.mod_small; lia).
  rewrite Nat2Z.id. unfold mbind, M_bind.
  replace (link_start links i + FID_LEN)%nat with (length (a ++ lid_bytes l.1))
    by (rewrite length_app, length_lid_bytes; lia).
  rewrite (data_at_app _ _ (Z.of_nat (size l.2)) (items_bytes (in_order_of l.2) ++ b))
    by (rewrite Hrep; unfold link_bytes; by rewrite <-!app_assoc).
  rewrite length_app, length_lid_bytes, Ha.
  replace (u16 _) with (Z.of_nat (link_start links (S i)));
    [rewrite IH by lia; do 3 f_equal; f_equal; lia|].
  unfold u16. rewrite (Z.mod_small (_ + _ * _)), Z.mod_small by lia. lia.
Qed.

Lemma getLinkOffset_run i : (i ≤ length links)%nat →
  getLinkOffset i (Some <$> report_bytes nodeID links)
    = Ok (Z.of_nat (link_start links i), Some <$> report_bytes nodeID links).
Proof.
  intros Hi. unfold getLinkOffset, mbind, M_bind. rewrite report_links_len.
  destruct (Z.gtb_spec (Z.of_nat i) (Z.of_nat (length links))); [lia|].
  exact (skip_links_run i 0 ltac:(lia)).
Qed.

Lemma abit_app_mid a x b k : 0 ≤ k < 8 * Z.of_nat (length x) →
  abit (a ++ x ++ b) (8 * Z.of_nat (length a) + k) = abit x k.
Proof.
  intros Hk. unfold abit. rewrite (Z.add_comm _ k), (Z.mul_comm 8), Z.div_add, Z.mod_add by lia.
  pose proof (Z.div_pos k 8). assert (k / 8 < Z.of_nat (length x)) by (apply Z.div_lt_upper_bound; lia).
  rewrite Z2Nat.inj_add, Nat2Z.id by lia. rewrite app_nth2 by lia.
  rewrite app_nth1 by lia. do 2 f_equal. lia.
Qed.

Lemma report_read i lid q : links !! i = Some (lid, q) →
  getLidStr i (Some <$> report_bytes nodeID links)
    = Ok (to_string lid, Some <$> report_bytes nodeID links) ∧
  getLinkStatus i (Some <$> report_bytes nodeID links) = Ok (q, Some <$> report_bytes nodeID links).
Proof.
  intros Hi. pose proof (lookup_lt_Some _ _ _ Hi) as Hlt. pose proof report_bytes_ok as Hok.
  assert (link_ok (lid, q)) as [[Hw Hm] Hq] by by eapply Forall_lookup_1 in Hlinks.
  cbn [fst snd] in *. destruct (report_split i _ Hi) as (a & b & Hrep & Ha & _).
  unfold getLidStr, getLid, getLinkStatus, mbind, M_bind. rewrite !report_links_len.
  destruct (Z.gtb_spec (Z.of_nat i) (Z.of_nat (length links))); [lia|].
  rewrite !report_links_len. destruct (Z.gtb_spec (Z.of_nat i) (Z.of_nat (length links))); [lia|].
  rewrite !getLinkOffset_run, !Nat2Z.id by lia. split.
  - destruct (bv_make_spec fid_bits ltac:(done)) as (bv & -> & Hbw & Hbm & _).
    destruct (get_bits_run (Z.to_nat fid_bits) 0 (link_start links i) (report_bytes nodeID links) bv)
      as (r & Hrun & Hrw & Hrm & Hrb); [done|done|rewrite Hbm; done| |].
    { rewrite Hrep, !length_app, length_link_bytes, Ha. change (Z.to_nat fid_bits) with 256%nat.
      change FID_LEN with 32%nat. lia. }
    change (0 / 8)%nat with 0%nat in Hrun. rewrite Nat.add_0_r in Hrun. rewrite Hrun.
    unfold mret, M_ret. do 2 f_equal.
    rewrite !to_string_bits by (rewrite ?Hrm, ?Hbm, ?Hm; done). rewrite Hrm, Hbm, Hm.
    apply list_fmap_ext. intros t x [-> Ht]%lookup_seq. cbn [Nat.add]. rewrite Hrb by lia.
    destruct (Z.leb_spec (Z.of_nat 0) (fid_bits - 1 - Z.of_nat t)),
      (Z.ltb_spec (fid_bits - 1 - Z.of_nat t) (Z.of_nat (0 + Z.to_nat fid_bits))); try lia.
    cbn [andb]. rewrite Hrep, <-Ha. unfold link_bytes. cbn [fst snd]. rewrite <-app_assoc.
    rewrite abit_app_mid by (rewrite length_lid_bytes; change (8 * Z.of_nat FID_LEN) with fid_bits; lia).
    by rewrite abit_lid_bytes by lia.
  - unfold getStatusListLen, mbind, M_bind. rewrite getLinkOffset_run by lia.
    destruct (Z.eqb_spec (Z.of_nat (link_start links i)) (-1)); [lia|].
    rewrite Nat2Z.id. unfold link_bytes in Hrep. cbn [fst snd] in Hrep.
    replace (link_start links i + FID_LEN)%nat with (length (a ++ lid_bytes lid))
      by (rewrite length_app, length_lid_bytes; lia).
    rewrite (data_at_app _ _ (Z.of_nat (size q)) (items_bytes (in_order_of q) ++ b))
      by (rewrite Hrep; by rewrite <-!app_assoc).
    rewrite Nat2Z.id. replace (length (a ++ lid_bytes lid) + 1)%nat
      with (length (a ++ lid_bytes lid ++ [Z.of_nat (size q)]))
      by (rewrite !length_app; cbn; lia).
    rewrite (get_items_map q _ _ b); [done|done|done|]. rewrite Hrep. by rewrite <-!app_assoc.
Qed.
End report.

(** ** Properties *)

(** Reports on links are read as they were made.  The packet that
    LinkMon::report fills with the node and the state of its links
    (appendLinkStatus of src/tm_ext) has no uninitialised byte; whoever copies
    it into an LSMPacket of lib/qos, as the topology manager does, gets the
    node, the number of links and for every link its identifier, as the string
    that names it in the topology, and its list of values.  The report must
    fit in 65535 bytes, the range of getLinkOffset. *)
Theorem link_report_roundtrip fuel nodeID links old :
  length nodeID = NODEID_LEN → Forall is_byte nodeID → Forall link_ok links →
  (length links < 256)%nat → (256 ≤ fuel)%nat →
  Z.of_nat (length (report_bytes nodeID links)) < 65536 →
  ∃ data, (_ ← new_LSMPacket; _ ← setNodeId fuel nodeID;
           for_each links (λ l, appendLinkStatus_ext l.1 l.2)) [] = Ok (tt, Some <$> data) ∧
    let d : ByteArray := Some <$> data in
    setData data (Z.of_nat (length data)) old = Ok (tt, d) ∧
    lsm_getType d = Ok (QoS_REPORT, d) ∧ getNodeId d = Ok (nodeID, d) ∧
    getLinksLen d = Ok (Z.of_nat (length links), d) ∧
    ∀ i lid q, links !! i = Some (lid, q) →
      getLidStr i d = Ok (to_string lid, d) ∧ getLinkStatus i d = Ok (q, d).
Proof.
  intros Hid Hnode Hlinks Hn Hf Hsize. exists (report_bytes nodeID links).
  assert (Forall is_byte (report_bytes nodeID links)) as Hok by by apply report_bytes_ok.
  split; [by apply report_made|]. cbn zeta.
  split_and!; [by apply setData_run|done| |by apply report_links_len|].
  - unfold getNodeId. rewrite getStrBytes_run;
      [|done|unfold NODEID_LEN; lia|unfold report_bytes; rewrite !length_app, Hid; cbn [length]; lia].
    do 2 f_equal. unfold substr, report_bytes. rewrite <-Hid. apply take_app_length.
  - intros i lid q. by apply report_read.
Qed.

Definition sample_lid (k : Z) : BABitvector := mkBV 255 (<[3%nat := 2 ^ k]> (replicate 8 0)).
Definition sample_qos : QoSList := <[15 := 95]> (<[4 := 700]> (<[1 := 100]> ∅)).

Lemma link_report_roundtrip_witness : ∃ data,
  (_ ← new_LSMPacket; _ ← setNodeId 256 [48; 48; 48; 48; 48; 48; 48; 50];
   for_each [(sample_lid 5, sample_qos); (sample_lid 9, ∅)] (λ l, appendLinkStatus_ext l.1 l.2)) []
    = Ok (tt, Some <$> data) ∧
  getLinkStatus 0 (Some <$> data) = Ok (sample_qos, Some <$> data) ∧
  getLidStr 1 (Some <$> data) = Ok (to_string (sample_lid 9), Some <$> data).
Proof.
  assert (∀ k, 0 ≤ k < 32 → fid_ok (sample_lid k)) as Hlid.
  { intros k Hk. split; [|done]. constructor.
    - by vm_compute.
    - apply Forall_insert; [by repeat constructor|]. split; [apply Z.pow_nonneg; lia|].
      apply Z.pow_lt_mono_r; lia.
    - change (2 ≤ 8)%nat. lia.
    - change (8 ≤ 8)%nat. lia.
    - intros i Hi. change (255 < i < 256) in Hi. lia. }
  assert (qos_ok sample_qos) as Hqos.
  { split; [|by vm_compute; lia]. intros k v. unfold sample_qos. rewrite !lookup_insert_Some.
    intros [[<- <-]|[_ [[<- <-]|[_ [[<- <-]|[_ Hl]]]]]]; [by repeat split..|]. by rewrite lookup_empty in Hl. }
  destruct (link_report_roundtrip 256 [48; 48; 48; 48; 48; 48; 48; 50]
    [(sample_lid 5, sample_qos); (sample_lid 9, ∅)] []) as (data & Hmade & _ & _ & _ & _ & Hread);
    [done|by repeat constructor| |cbn [length]; lia|lia|by vm_compute|].
  - constructor; [split; [apply Hlid; lia|done]|]. constructor; [|done].
    split; [apply Hlid; lia|]. split; [|change (size _) with 0%nat; lia]. intros k v Hl.
    change ((∅ : QoSList) !! k = Some v) in Hl. by rewrite lookup_empty in Hl.
  - exists data. split; [exact Hmade|].
    split; [apply (Hread 0%nat (sample_lid 5)); done|apply (Hread 1%nat _ ∅); done].
Defined.

(** What appendLinkStatus of lib/qos leaves behind the header [old] *)
Definition garbled (old lid : bytes) (q : QoSList) : ByteArray :=
  let items := items_bytes (in_order_of q) in
  ((Some <$> old) ++ [Some 1; Some (Z.of_nat (size q))] ++ (Some <$> items))
    ++ (Some <$> drop (length items) (tail lid)) ++ replicate (1 + size q * QoS_ITEM_SIZE) None.

Lemma library_append_run fuel old lid q :
  length old = (NODEID_LEN + 1)%nat → length lid = FID_LEN → Forall is_byte lid → qos_ok q →
  (size q ≤ 10)%nat → (256 ≤ fuel)%nat →
  appendLinkStatus fuel lid q ((Some <$> old) ++ [Some 0]) = Ok (tt, garbled old lid q).
Proof.
  intros Hold Hlid Hb Hq Hs Hf. pose proof Hq as [_ Hsz].
  destruct lid as [|c lid]; [done|]. injection Hlid as Hlid. pose proof (length_items_map q) as Hitems.
  unfold QoS_ITEM_SIZE in Hitems. unfold appendLinkStatus, getLinksLen, getSize, mbind, M_bind.
  assert (data_at (NODEID_LEN + 1) ((Some <$> old) ++ [Some 0]) = Ok (0, (Some <$> old) ++ [Some 0])) as ->.
  { rewrite <-Hold. change [Some 0] with (Some <$> [0]). rewrite <-fmap_app. by apply data_at_app with []. }
  unfold extend, modify, get, mret, M_ret.
  replace (FID_LEN + 1 + size q * QoS_ITEM_SIZE)%nat
    with (length (c :: lid) + (1 + size q * QoS_ITEM_SIZE))%nat
    by (cbn [length]; rewrite Hlid; unfold FID_LEN; lia).
  rewrite replicate_add. rewrite setStr_run; [|done|cbn [length]; rewrite Hlid; lia
    |cbn [length]; rewrite Hlid; lia|rewrite !length_app, length_replicate; lia].
  rewrite written_mid by by rewrite length_replicate. cbn [fmap list_fmap app].
  rewrite set_data_mid by (unfold is_byte; lia).
  rewrite (cons_middle (Some (Z.of_nat (size q)))), (app_assoc _ [Some (Z.of_nat (size q))]).
  set (pre := ((Some <$> old) ++ [Some 0]) ++ [Some (Z.of_nat (size q))]).
  replace (length ((Some <$> old : ByteArray) ++ [Some 0%Z]) + 1)%nat with (length pre)
    by (unfold pre; rewrite !length_app; cbn; lia).
  set (n := length (items_bytes (in_order_of q))) in *.
  change (list_fmap Z (option Z) Some lid) with (Some <$> lid).
  rewrite <-(take_drop n lid), fmap_app, <-app_assoc, put_items_run;
    [| by apply items_ok_keys|rewrite length_fmap, length_take; lia].
  unfold setRepLen. rewrite <-Hold, <-(length_fmap Some old). unfold pre.
  rewrite <-!app_assoc. cbn [app]. rewrite set_data_mid by done. unfold garbled.
  cbn [tail]. fold n. rewrite take_drop, <-!app_assoc. done.
Qed.

(** The library's own reports cannot be read.  appendLinkStatus of lib/qos
    writes the identifier of a link and then, from the same position on, the
    list of values over it: for a list of up to ten values the byte where
    every reader expects the length of the list is never written. *)
Theorem library_report_unreadable fuel nodeID lid q :
  length nodeID = NODEID_LEN → length lid = FID_LEN → Forall is_byte lid → qos_ok q →
  (size q ≤ 10)%nat → (256 ≤ fuel)%nat →
  ∃ d, appendLinkStatus fuel lid q (Some <$> report_bytes nodeID []) = Ok (tt, d) ∧
    getLinksLen d = Ok (1, d) ∧ getStatusListLen 0 d = Fault Uninitialised ∧
    getLinkStatus 0 d = Fault Uninitialised.
Proof.
  intros Hid Hlid Hb Hq Hs Hf. set (old := [QoS_REPORT] ++ nodeID).
  assert (length old = NODEID_LEN + 1)%nat as Hold by (unfold old; rewrite length_app, Hid; done).
  pose proof (length_items_map q) as Hitems. unfold QoS_ITEM_SIZE in Hitems.
  exists (garbled old lid q). split.
  { rewrite <-(library_append_run fuel) by done. f_equal. unfold report_bytes, old. by rewrite !fmap_app. }
  assert (getLinksLen (garbled old lid q) = Ok (1, garbled old lid q)) as Hlen.
  { unfold getLinksLen, data_at, mbind, M_bind, get. rewrite <-Hold. unfold garbled. rewrite <-!app_assoc.
    rewrite lookup_app_r, length_fmap, Nat.sub_diag by (rewrite length_fmap; lia). done. }
  assert (getLinkOffset 0 (garbled old lid q) = Ok (Z.of_nat LSM_HDR_LEN, garbled old lid q)) as Hoff.
  { unfold getLinkOffset, mbind, M_bind. by rewrite Hlen. }
  assert (getStatusListLen 0 (garbled old lid q) = Fault Uninitialised) as Hbad.
  { unfold getStatusListLen, mbind, M_bind. rewrite Hoff.
    change (Z.of_nat LSM_HDR_LEN =? -1) with false. rewrite Nat2Z.id.
    assert (garbled old lid q !! (LSM_HDR_LEN + FID_LEN)%nat = Some None) as Hnone.
    { assert (length (tail lid) = 31%nat) by (destruct lid; [done|by injection Hlid]).
      unfold garbled. rewrite app_assoc, lookup_app_r;
        rewrite !length_app, !length_fmap, length_drop, Hold; cbn [length];
        unfold LSM_HDR_LEN, NODEID_LEN, FID_LEN; [|lia].
      apply lookup_replicate_2. lia. }
    unfold data_at, mbind, M_bind, get. by rewrite Hnone. }
  split_and!; [done|done|]. unfold getLinkStatus, mbind, M_bind. rewrite Hlen.
  change (Z.of_nat 0 >? 1) with false. cbn beta iota. by rewrite Hoff, Hbad.
Qed.

Lemma library_report_unreadable_witness : ∃ d,
  appendLinkStatus 256 (replicate 32 7) (<[15 := 95]> ∅)
    (Some <$> report_bytes [48; 48; 48; 48; 48; 48; 48; 50] []) = Ok (tt, d) ∧
  getStatusListLen 0 d = Fault Uninitialised.
Proof.
  destruct (library_report_unreadable 256 [48; 48; 48; 48; 48; 48; 48; 50] (replicate 32 7)
    (<[15 := 95]> ∅)) as (d & Hrun & _ & Hbad & _);
    [reflexivity|reflexivity|by repeat constructor| |change (1 ≤ 10)%nat; lia|lia
    |exists d; split; [exact Hrun|exact Hbad]].
  split; [|change (1 < 256)%nat; lia]. intros k v [[<- <-]|[_ Hl]]%lookup_insert_Some; [by split|].
  change ((∅ : QoSList) !! k = Some v) in Hl. by rewrite lookup_empty in Hl.
Defined.

(** Descriptions of items are read as they were made. *)
Theorem metadata_roundtrip fuel id n q old : length id = (n * PURSUIT_ID_LEN)%nat →
  Forall is_byte id → (n < 32)%nat → qos_ok q → (256 ≤ fuel)%nat →
  ∃ data, (_ ← of_idlen (Z.of_nat n); _ ← setID fuel id;
           appendIIStatus q) [] = Ok (tt, Some <$> data) ∧
    let d : ByteArray := Some <$> data in
    setData data (Z.of_nat (length data)) old = Ok (tt, d) ∧
    meta_getType d = Ok (QoS_METADATA, d) ∧
    getID_RAW d = Ok (id, d) ∧ getIIStatus d = Ok (q, d).
Proof.
  intros Hid Hb Hn Hq Hf. exists (metadata_bytes id n q). split; [by apply metadata_made|].
  split; [by apply setData_run, metadata_bytes_ok|]. by apply metadata_read.
Qed.
