(* ===== verification/Igraph.v ===== *)
(** * The igraph library, as the topology manager relies on it

    The topology manager keeps its graph in the C library igraph.  [Igraph] has
    the operations it calls, [IgraphLaws] what their documentation says of
    them.  A graph has vertices [0 .. vcount - 1] with attributes and directed
    edges [0 .. ecount - 1] with the attribute LID.

    [ListGraph] is a small implementation of the interface on lists: it shows
    that the laws can hold, and examples run on it. *)
From stdpp Require Import base list gmap sets.
From Stdlib Require Import ZArith Lia.
From S2P Require Import Prelude.

Local Open Scope Z_scope.

(** The attributes of a vertex that are read *)
Inductive vattr : Type := NODEID | iLID.

Class Igraph (G : Type) := {
  igraph_vcount : G → nat;
  igraph_ecount : G → nat;
  igraph_edge : G → nat → Z * Z;
  igraph_VAS : G → vattr → Z → bytes;
  igraph_EAS : G → nat → bytes;
  igraph_EAS_set : G → nat → bytes → G;
  (** numeric attributes of an edge, named by a number; a value that was never
      set is not a number *)
  igraph_EAN : G → Z → nat → option Z;
  igraph_EAN_set : G → Z → nat → Z → G;
  (** the edge between two vertices, if there is one *)
  igraph_get_eid : G → Z → Z → option nat;
  (** the vertices of a shortest path, none if there is no path *)
  igraph_get_shortest_paths : G → Z → Z → list Z;
  (** the same for weighted edges, with the edges of the path *)
  igraph_get_shortest_paths_dijkstra : G → list Z → Z → Z → list Z * list nat;
  (** the edges between pairs of vertices; an error if one does not exist *)
  igraph_delete_edges : G → list (Z * Z) → option G;
  igraph_add_edges : G → list (Z * Z) → G;
}.

Section views.
Context `{Igraph G}.

(** The edges with their identifiers *)
Definition links (g : G) : list (Z * Z * bytes) :=
  (λ e, (igraph_edge g e, igraph_EAS g e)) <$> seq 0 (igraph_ecount g).

Definition is_vertex (g : G) (v : Z) : Prop := 0 ≤ v < Z.of_nat (igraph_vcount g).

Definition adjacent (g : G) (u v : Z) : Prop := (u, v) ∈ (links g).*1.

(** A walk along edges *)
Fixpoint walk (g : G) (p : list Z) : Prop :=
  match p with
  | [] => False
  | u :: p => is_vertex g u ∧ match p with [] => True | v :: _ => adjacent g u v ∧ walk g p end
  end.

Definition walk_between (g : G) (u v : Z) (p : list Z) : Prop :=
  walk g p ∧ head p = Some u ∧ last p = Some v.

(** No two edges between the same vertices *)
Definition simple (g : G) : Prop := NoDup (links g).*1.

Definition same_nodes (g g' : G) : Prop :=
  igraph_vcount g' = igraph_vcount g ∧ ∀ a v, igraph_VAS g' a v = igraph_VAS g a v.

(** ** Walks *)

Lemma walk_app (g : G) a x b : walk g (a ++ x :: b) ↔ walk g (a ++ [x]) ∧ walk g (x :: b).
Proof.
  induction a as [|y a IH]; cbn [app].
  - split; [|tauto]. intros Hw. split; [|done]. cbn in Hw |- *. tauto.
  - destruct a as [|z a]; cbn [app] in *.
    + split.
      * intros (Hy & Hadj & Hw). split; [|done]. split; [done|]. split; [done|].
        cbn. destruct b; cbn in Hw; tauto.
      * intros [(Hy & Hadj & _) Hw]. split; [done|]. split; [done|exact Hw].
    + split.
      * intros (Hy & Hadj & Hw). apply IH in Hw as [H1 H2]. split; [|done]. split; [done|]. by split.
      * intros [(Hy & Hadj & H1) H2]. split; [done|]. split; [done|]. by apply IH.
Qed.

Lemma walk_vertices (g : G) p v : walk g p → v ∈ p → is_vertex g v.
Proof.
  induction p as [|u p IH]; [done|]. intros Hw [->|Hin]%elem_of_cons; [by apply Hw|].
  apply IH; [|done]. destruct p; [by apply elem_of_nil in Hin|]. apply Hw.
Qed.

(** A walk that visits a vertex twice has a shorter one between its ends. *)
Lemma duplicate_split (p : list Z) : ¬ NoDup p → ∃ a x b c, p = a ++ x :: b ++ x :: c.
Proof.
  induction p as [|x p IH]; intros Hd; [by destruct Hd; constructor|].
  destruct (decide (x ∈ p)) as [Hin|Hnin].
  - apply list_elem_of_split in Hin as (b & c & ->). by exists [], x, b, c.
  - destruct IH as (a & y & b & c & ->); [|by exists (x :: a), y, b, c].
    intros Hnd. apply Hd. by constructor.
Qed.

Lemma walk_shortcut (g : G) u v a x b c : walk_between g u v (a ++ x :: b ++ x :: c) →
  walk_between g u v (a ++ x :: c).
Proof.
  intros (Hw & Hh & Hl). apply walk_app in Hw as [Hw1 Hw2].
  change (x :: b ++ x :: c) with ((x :: b) ++ x :: c) in Hw2.
  apply walk_app in Hw2 as [_ Hw2]. split; [by apply walk_app|]. split.
  - by destruct a.
  - rewrite last_app_cons in *. change (x :: b ++ x :: c) with ((x :: b) ++ x :: c) in Hl.
    by rewrite last_app_cons in Hl.
Qed.

Lemma short_walk (g : G) u v p : walk_between g u v p →
  ∃ q, walk_between g u v q ∧ (length q ≤ length p)%nat ∧ (length q ≤ igraph_vcount g)%nat.
Proof.
  remember (length p) as n eqn:Hn. revert p Hn. induction n as [n IH] using lt_wf_ind.
  intros p -> (Hw & Hh & Hl).
  destruct (decide (NoDup p)) as [Hnd|Hd].
  - exists p. split; [by split|]. split; [lia|].
    assert (p ⊆ (Z.of_nat <$> seq 0 (igraph_vcount g))) as Hsub.
    { intros x Hx. pose proof (walk_vertices g p x Hw Hx) as [H0 H1].
      apply list_elem_of_fmap. exists (Z.to_nat x). split; [lia|]. apply elem_of_seq. lia. }
    apply NoDup_submseteq in Hsub; [|done]. apply submseteq_length in Hsub.
    by rewrite length_fmap, length_seq in Hsub.
  - destruct (duplicate_split p Hd) as (a & x & b & c & ->).
    destruct (IH (length (a ++ x :: c))) with (p := a ++ x :: c) as (q & Hq & Hq1 & Hq2).
    + rewrite !length_app. cbn. rewrite length_app. cbn. lia.
    + done.
    + by eapply walk_shortcut.
    + exists q. split; [done|]. rewrite !length_app in *. cbn in *. rewrite length_app. cbn. lia.
Qed.
End views.

Class IgraphLaws (G : Type) `{Igraph G} := {
  edge_vertices (g : G) u v : adjacent g u v → is_vertex g u ∧ is_vertex g v;
  get_eid_found (g : G) u v e : igraph_get_eid g u v = Some e →
    (e < igraph_ecount g)%nat ∧ igraph_edge g e = (u, v);
  get_eid_missing (g : G) u v : igraph_get_eid g u v = None → ¬ adjacent g u v;
  shortest_path_walk (g : G) u v : is_vertex g u → is_vertex g v →
    igraph_get_shortest_paths g u v ≠ [] → walk_between g u v (igraph_get_shortest_paths g u v);
  shortest_path_min (g : G) u v p : walk_between g u v p →
    igraph_get_shortest_paths g u v ≠ [] ∧
    (length (igraph_get_shortest_paths g u v) ≤ length p)%nat;
  dijkstra_walk (g : G) ws u v p es : is_vertex g u → is_vertex g v →
    igraph_get_shortest_paths_dijkstra g ws u v = (p, es) → p ≠ [] →
    walk_between g u v p ∧ zip p (tail p) = igraph_edge g <$> es ∧
    Forall (λ e, (e < igraph_ecount g)%nat) es;
  delete_edges_links (g : G) ps : simple g → (∀ u v, (u, v) ∈ ps → adjacent g u v) →
    ∃ g', igraph_delete_edges g ps = Some g' ∧ same_nodes g g' ∧
      links g' ≡ₚ filter (λ l, l.1 ∉ ps) (links g);
  delete_edges_missing (g : G) ps u v : (u, v) ∈ ps → ¬ adjacent g u v →
    igraph_delete_edges g ps = None;
  add_edges_links (g : G) ps : (∀ u v, (u, v) ∈ ps → is_vertex g u ∧ is_vertex g v) →
    same_nodes g (igraph_add_edges g ps) ∧
    links (igraph_add_edges g ps) = links g ++ ((λ p, (p, [])) <$> ps);
  EAS_set_links (g : G) e s : (e < igraph_ecount g)%nat →
    same_nodes g (igraph_EAS_set g e s) ∧
    links (igraph_EAS_set g e s) = alter (λ l, (l.1, s)) e (links g);
  EAN_set_links (g : G) a e x :
    same_nodes g (igraph_EAN_set g a e x) ∧ links (igraph_EAN_set g a e x) = links g;
}.

(** A shortest path visits no vertex twice. *)
Lemma shortest_path_bound {G} `{IgraphLaws G} (g : G) u v : is_vertex g u → is_vertex g v →
  (length (igraph_get_shortest_paths g u v) ≤ igraph_vcount g)%nat.
Proof.
  intros Hu Hv. destruct (decide (igraph_get_shortest_paths g u v = [])) as [->|Hp]; [cbn; lia|].
  destruct (short_walk g u v _ (shortest_path_walk g u v Hu Hv Hp)) as (q & Hq & _ & Hn).
  destruct (shortest_path_min g u v q Hq). lia.
Qed.

Lemma shortest_path_NoDup {G} `{IgraphLaws G} (g : G) u v : is_vertex g u → is_vertex g v →
  NoDup (igraph_get_shortest_paths g u v).
Proof.
  intros Hu Hv. destruct (decide (NoDup (igraph_get_shortest_paths g u v))) as [|Hd]; [done|].
  destruct (duplicate_split _ Hd) as (a & x & b & c & Heq).
  destruct (shortest_path_min g u v (a ++ x :: c)) as [_ Hle].
  - eapply walk_shortcut. rewrite <-Heq. apply shortest_path_walk; [done..|]. rewrite Heq. by destruct a.
  - rewrite Heq, !length_app in Hle. cbn in Hle. rewrite length_app in Hle. cbn in Hle. lia.
Qed.

(** ** An implementation on lists *)
Module ListGraph.

Record ListGraph := mkGraph {
  nodes : list (bytes * bytes);
  edges : list (Z * Z * bytes);
  numbers : gmap (Z * nat) Z;
}.

Definition in_range (g : ListGraph) (v : Z) : bool := (0 <=? v) && (v <? Z.of_nat (length (nodes g))).

(** Edges between vertices *)
Definition proper (g : ListGraph) : list (Z * Z * bytes) :=
  filter (λ l, in_range g l.1.1 = true ∧ in_range g l.1.2 = true) (edges g).

Definition successors (g : ListGraph) (u : Z) : list Z :=
  omap (λ l, if l.1.1 =? u then Some l.1.2 else None) (proper g).

(** The walks with [n] edges from [u], and the first that ends in [v] *)
Fixpoint walks (g : ListGraph) (n : nat) (u : Z) : list (list Z) :=
  match n with
  | O => [[u]]
  | S n => w ← successors g u; cons u <$> walks g n w
  end.

Definition ends_in (v : Z) (p : list Z) : bool := bool_decide (last p = Some v).

Fixpoint search (g : ListGraph) (fuel n : nat) (u v : Z) : list Z :=
  match fuel with
  | O => []
  | S fuel =>
      match filter (λ p, ends_in v p = true) (walks g n u) with
      | p :: _ => p
      | [] => search g fuel (S n) u v
      end
  end.

Definition find_edge (l : list (Z * Z * bytes)) (u v : Z) : option nat :=
  fst <$> list_find (λ l, l.1 = (u, v)) l.

(** The edges of a path *)
Fixpoint path_edges (l : list (Z * Z * bytes)) (p : list Z) : list nat :=
  match p with
  | u :: (v :: _) as p => default 0%nat (find_edge l u v) :: path_edges l p
  | _ => []
  end.

(** An edge that is deleted takes its numbers with it, the others keep theirs;
    here a graph with other edges simply has none. *)
Definition relinked (g : ListGraph) (es : list (Z * Z * bytes)) : ListGraph := mkGraph (nodes g) es ∅.

Definition hops_path (g : ListGraph) (u v : Z) : list Z :=
  if in_range g u then search g (length (nodes g)) 0 u v else [].

#[global] Instance list_igraph : Igraph ListGraph := {|
  igraph_vcount g := length (nodes g);
  igraph_ecount g := length (proper g);
  igraph_edge g e := default (-1, -1) (fst <$> proper g !! e);
  igraph_VAS g a v :=
    default [] ((λ n, match a with NODEID => fst n | iLID => snd n end) <$> nodes g !! Z.to_nat v);
  igraph_EAS g e := default [] (snd <$> proper g !! e);
  igraph_EAS_set g e s := mkGraph (nodes g) (alter (λ l, (l.1, s)) e (proper g)) (numbers g);
  igraph_EAN g a e := numbers g !! (a, e);
  igraph_EAN_set g a e x := mkGraph (nodes g) (edges g) (<[(a, e) := x]> (numbers g));
  igraph_get_eid g u v := find_edge (proper g) u v;
  igraph_get_shortest_paths g u v := hops_path g u v;
  igraph_get_shortest_paths_dijkstra g ws u v :=
    (hops_path g u v, path_edges (proper g) (hops_path g u v));
  igraph_delete_edges g ps :=
    if decide (Forall (λ p, p ∈ (proper g).*1) ps)
    then Some (relinked g (filter (λ l, l.1 ∉ ps) (proper g))) else None;
  igraph_add_edges g ps := relinked g (proper g ++ ((λ p, (p, [])) <$> ps));
|}.

Lemma links_proper g : links g = proper g.
Proof.
  apply list_eq. intros i. unfold links. cbn. rewrite list_lookup_fmap.
  destruct (Nat.lt_ge_cases i (length (proper g))) as [Hi|Hi].
  - rewrite lookup_seq_lt by done. destruct (lookup_lt_is_Some_2 _ _ Hi) as [[p s] Hp].
    cbn. by rewrite Hp.
  - rewrite lookup_seq_ge by done. by rewrite lookup_ge_None_2.
Qed.

Lemma in_range_vertex (g : ListGraph) v : in_range g v = true ↔ is_vertex g v.
Proof. unfold in_range, is_vertex. cbn. rewrite andb_true_iff, Z.leb_le, Z.ltb_lt. done. Qed.

Lemma adjacent_successors g u v : adjacent g u v ↔ v ∈ successors g u.
Proof.
  unfold adjacent, successors. rewrite links_proper, list_elem_of_omap, list_elem_of_fmap. split.
  - intros ([[a b] s] & [= -> ->] & Hin). exists (a, b, s). split; [done|]. cbn.
    by rewrite Z.eqb_refl.
  - intros ([[a b] s] & Hin & Heq). cbn in Heq. destruct (Z.eqb_spec a u); simplify_eq.
    by exists (u, v, s).
Qed.

Lemma adjacent_range g u v : adjacent g u v → in_range g u = true ∧ in_range g v = true.
Proof.
  unfold adjacent. rewrite links_proper, list_elem_of_fmap. intros ([[a b] s] & Heq & Hin).
  simplify_eq/=. unfold proper in Hin. apply list_elem_of_filter in Hin as [Hr _]. done.
Qed.

(** Lists of vertices that are edges of edges: those that [walks] yields *)
Lemma walks_spec g n u p : in_range g u = true →
  p ∈ walks g n u ↔ walk g p ∧ head p = Some u ∧ length p = S n.
Proof.
  revert u p. induction n as [|n IH]; intros u p Hu; cbn [walks].
  - rewrite list_elem_of_singleton. split.
    + intros ->. split_and!; [|done..]. split; [by apply in_range_vertex|done].
    + intros (_ & Hh & Hl). destruct p as [|x [|y p]]; by simplify_eq/=.
  - rewrite list_elem_of_bind. split.
    + intros (w & Hp & Hw). apply list_elem_of_fmap in Hp as (q & -> & Hq).
      apply adjacent_successors in Hw. pose proof (adjacent_range _ _ _ Hw) as [_ Hwr].
      apply IH in Hq as (Hwalk & Hh & Hl); [|done].
      destruct q as [|x q]; [done|]. injection Hh as ->. split_and!; [|done|cbn in *; lia].
      split; [by apply in_range_vertex|]. by split.
    + intros (Hwalk & Hh & Hl). destruct p as [|x [|w p]]; simplify_eq/=.
      destruct Hwalk as (_ & Hadj & Hwalk). exists w. split.
      * apply list_elem_of_fmap. exists (w :: p). split; [done|].
        apply IH; [by apply adjacent_range in Hadj as []|]. done.
      * by apply adjacent_successors.
Qed.

Lemma search_spec g fuel n u v : in_range g u = true →
  (search g fuel n u v ≠ [] → walk_between g u v (search g fuel n u v)) ∧
  (∀ p, walk_between g u v p → (S n ≤ length p ≤ n + fuel)%nat →
     search g fuel n u v ≠ [] ∧ (length (search g fuel n u v) ≤ length p)%nat).
Proof.
  intros Hu. revert n. induction fuel as [|fuel IH]; intros n; cbn [search].
  { split; [done|]. intros p _ ?. lia. }
  destruct (filter _ _) as [|q l] eqn:E.
  - destruct (IH (S n)) as [IH1 IH2]. split; [done|]. intros p Hp Hlen.
    apply IH2; [done|]. split; [|lia]. destruct (decide (length p = S n)) as [Hn|]; [|lia].
    exfalso. destruct Hp as (Hw & Hh & Hl).
    assert (p ∈ filter (λ p, ends_in v p = true) (walks g n u)) as Hin.
    { apply list_elem_of_filter. split; [by apply bool_decide_eq_true_2|]. by apply walks_spec. }
    rewrite E in Hin. by apply elem_of_nil in Hin.
  - assert (q ∈ filter (λ p, ends_in v p = true) (walks g n u)) as Hin by (rewrite E; left).
    apply list_elem_of_filter in Hin as [He Hq]. apply walks_spec in Hq as (Hw & Hh & Hl); [|done].
    unfold ends_in in He. apply bool_decide_eq_true in He. split; [by split|].
    intros p _ Hlen. split; [by destruct q|lia].
Qed.

Lemma proper_range g l : l ∈ proper g → in_range g l.1.1 = true ∧ in_range g l.1.2 = true.
Proof. unfold proper. rewrite list_elem_of_filter. by intros [? _]. Qed.

Lemma proper_ranged g es m : (∀ l, l ∈ es → in_range g l.1.1 = true ∧ in_range g l.1.2 = true) →
  proper (mkGraph (nodes g) es m) = es.
Proof.
  intros Hall. unfold proper. cbn. induction es as [|l es IH]; [done|].
  rewrite filter_cons_True by (apply Hall; left). f_equal. apply IH. intros l' Hl'. apply Hall. by right.
Qed.

Lemma path_edges_spec (g : ListGraph) p : walk g p →
  zip p (tail p) = igraph_edge g <$> path_edges (proper g) p ∧
  Forall (λ e, (e < igraph_ecount g)%nat) (path_edges (proper g) p).
Proof.
  induction p as [|u p IH]; [done|]. destruct p as [|v p]; [by intros _; split|].
  intros (_ & Hadj & Hw). destruct (IH Hw) as [IH1 IH2]. cbn [path_edges tail zip zip_with].
  unfold adjacent in Hadj. rewrite links_proper, list_elem_of_fmap in Hadj.
  destruct Hadj as (l & Heq & Hl). unfold find_edge.
  destruct (list_find_elem_of (λ l, l.1 = (u, v)) (proper g) l Hl (eq_sym Heq)) as [[i l'] Hf].
  rewrite Hf. apply list_find_Some in Hf as (Hi & Hl' & _). cbn [fmap option_fmap option_map default fst].
  split.
  - rewrite fmap_cons. f_equal; [|exact IH1]. cbn. rewrite Hi. by rewrite <-Hl'.
  - constructor; [|done]. by eapply lookup_lt_Some.
Qed.

#[global] Instance list_laws : IgraphLaws ListGraph.
Proof.
  split.
  - intros g u v Hadj%adjacent_range. by rewrite !in_range_vertex in Hadj.
  - intros g u v e. cbn. unfold find_edge. rewrite fmap_Some. intros ([i l] & Hf & ->).
    apply list_find_Some in Hf as (Hl & Heq & _). cbn. split; [by eapply lookup_lt_Some|].
    rewrite Hl. by rewrite <-Heq.
  - intros g u v. cbn. unfold find_edge. rewrite fmap_None. intros Hf Hadj.
    apply list_find_None in Hf. unfold adjacent in Hadj. rewrite links_proper, list_elem_of_fmap in Hadj.
    destruct Hadj as (l & Heq & Hl). rewrite Forall_forall in Hf. by eapply Hf.
  - intros g u v Hu _. cbn. unfold hops_path. rewrite <-in_range_vertex in Hu. rewrite Hu.
    apply search_spec, Hu.
  - intros g u v p Hp. cbn. unfold hops_path. assert (in_range g u = true) as Hu.
    { apply in_range_vertex. destruct Hp as (Hw & Hh & _). destruct p; simplify_eq/=. apply Hw. }
    rewrite Hu. destruct (short_walk g u v p Hp) as (q & Hq & Hle & Hn).
    destruct (search_spec g (length (nodes g)) 0 u v Hu) as [_ Hs].
    destruct (Hs q Hq) as [H1 H2]; [|split; [done|lia]].
    destruct Hq as (Hw & _). destruct q; [done|]. cbn in *. lia.
  - intros g ws u v p es Hu Hv. cbn. intros [= <- <-] Hne. rewrite <-in_range_vertex in Hu.
    unfold hops_path in *. rewrite Hu in *. destruct (search_spec g (length (nodes g)) 0 u v Hu) as [Hs _].
    specialize (Hs Hne). split; [done|]. apply path_edges_spec, Hs.
  - intros g ps Hs Hall. exists (relinked g (filter (λ l, l.1 ∉ ps) (proper g))).
    split_and!; [|done..|].
    + unfold igraph_delete_edges, list_igraph. rewrite decide_True; [done|].
      apply Forall_forall. intros [u v] Hin. rewrite <-links_proper. by apply Hall.
    + unfold relinked. rewrite !links_proper, proper_ranged; [done|]. intros l [_ Hl]%list_elem_of_filter.
      by apply proper_range.
  - intros g ps u v Hin Hadj. unfold igraph_delete_edges, list_igraph. rewrite decide_False; [done|].
    rewrite Forall_forall. intros Hall. apply Hadj. unfold adjacent. rewrite links_proper. by apply Hall.
  - intros g ps Hps. split; [done|]. unfold igraph_add_edges, list_igraph, relinked.
    rewrite !links_proper. apply proper_ranged.
    intros l [Hl|Hl]%elem_of_app; [by apply proper_range|].
    apply list_elem_of_fmap in Hl as ([u v] & -> & Hin). by rewrite !in_range_vertex; apply Hps.
  - intros g e s He. split; [done|]. rewrite !links_proper. apply proper_ranged.
    intros l Hl. apply list_elem_of_lookup in Hl as [i Hi]. destruct (decide (i = e)) as [->|Hne].
    + rewrite list_lookup_alter_eq, fmap_Some in Hi. destruct Hi as (l' & Hl' & ->).
      apply list_elem_of_lookup_2 in Hl'. by apply proper_range in Hl'.
    + rewrite list_lookup_alter_ne in Hi by done. apply list_elem_of_lookup_2 in Hi.
      by apply proper_range in Hi.
  - intros g a e x. split; [done|]. by rewrite !links_proper.
Qed.

End ListGraph.
