(* ===== verification/LibBitvector.v ===== *)
(** * Bit vectors of applications (lib/bitvector.hpp, lib/bitvector.cpp)

    The class is that of the node ([Bitvector]) without its assertions, and
    with constructors from a string of ['0'] and ['1'].  They allocate one word
    per character, far more than needed, and clear as many bytes as there are
    characters: the words behind keep what was in memory before. *)
From stdpp Require Import base list.
From Stdlib Require Import ZArith Lia Bool.
From S2P Require Import Prelude Enums Bitvector GlobalConf.

Local Open Scope Z_scope.

(** [memset(_data, 0, n)] over 32-bit words, the low byte first *)
Definition zero_bytes (n : nat) (ws : list Z) : list Z :=
  imap (λ i w, let r := Z.of_nat (n - 4 * i) in
               if 4 <=? r then 0 else Z.shiftl (Z.shiftr w (8 * r)) (8 * r)) ws.

(** The loop that sets the bits of the characters ['1'], highest bit first *)
Fixpoint set_ones (b : BABitvector) (s : bytes) : option BABitvector :=
  match s with
  | [] => Some b
  | c :: s =>
      match (if c =? 49 then bv_set b (Z.of_nat (length s)) true else Some b) with
      | Some b => set_ones b s
      | None => None
      end
  end.

(** Bitvector::Bitvector(string &); [memory] is what [new uint32_t[n]] gives. *)
Definition bv_of_string (memory : nat → list Z) (x : bytes) : option BABitvector :=
  set_ones (mkBV (Z.of_nat (length x) - 1) (zero_bytes (length x) (memory (length x)))) x.

(** Fresh memory: as many words as were asked for *)
Definition words_of (memory : nat → list Z) : Prop :=
  ∀ n, length (memory n) = n ∧ Forall word_ok (memory n).

Lemma set_ones_spec b s : bv_wf b → Z.of_nat (length s) ≤ bv_max b + 1 →
  ∃ r, set_ones b s = Some r ∧ bv_wf r ∧ bv_max r = bv_max b ∧
  ∀ j, 0 ≤ j → bv_bit r j =
    ((j <? Z.of_nat (length s)) && (nth (length s - Z.to_nat j - 1) s 0 =? 49)) || bv_bit b j.
Proof.
  revert b. induction s as [|c s IH]; intros b Hwf Hlen; cbn [length set_ones] in *.
  { exists b. split_and!; try done. intros j Hj. destruct (Z.ltb_spec j (Z.of_nat 0)); [lia|done]. }
  assert (∃ b1, (if c =? 49 then bv_set b (Z.of_nat (length s)) true else Some b) = Some b1 ∧
    bv_wf b1 ∧ bv_max b1 = bv_max b ∧ ∀ j, 0 ≤ j →
      bv_bit b1 j = ((j =? Z.of_nat (length s)) && (c =? 49)) || bv_bit b j)
    as (b1 & -> & Hwf1 & Hm1 & Hb1).
  { destruct (c =? 49).
    - destruct (bv_set_spec b (Z.of_nat (length s)) true Hwf ltac:(lia)) as (b1 & -> & ? & ? & Hb).
      exists b1. split_and!; try done. intros j Hj. rewrite Hb by done. by destruct (j =? _).
    - exists b. split_and!; try done. intros. by rewrite andb_false_r. }
  destruct (IH b1 Hwf1 ltac:(lia)) as (r & -> & Hwr & Hmr & Hbr).
  exists r. split_and!; try done; [congruence|]. intros j Hj. rewrite Hbr, Hb1 by done.
  rewrite orb_assoc. f_equal.
  destruct (Z.ltb_spec j (Z.of_nat (length s))), (Z.ltb_spec j (Z.of_nat (S (length s)))),
    (Z.eqb_spec j (Z.of_nat (length s))); try lia; cbn [andb orb].
  - rewrite orb_false_r. replace (S (length s) - Z.to_nat j - 1)%nat with (S (length s - Z.to_nat j - 1)) by lia.
    done.
  - replace (S (length s) - Z.to_nat j - 1)%nat with 0%nat by lia. done.
Qed.

Lemma zero_bytes_lookup n ws i : 4 * (Z.of_nat i + 1) ≤ Z.of_nat n → (i < length ws)%nat →
  zero_bytes n ws !! i = Some 0.
Proof.
  intros Hi Hl. unfold zero_bytes. rewrite list_lookup_imap.
  destruct (lookup_lt_is_Some_2 ws i Hl) as [w ->].
  cbn [fmap option_fmap option_map]. by rewrite (proj2 (Z.leb_le _ _)) by lia.
Qed.

Lemma zero_bytes_ok n ws : Forall word_ok ws → Forall word_ok (zero_bytes n ws).
Proof.
  intros Hw. apply Forall_forall. intros w Hin. apply list_elem_of_lookup in Hin as [i Hi].
  unfold zero_bytes in Hi. rewrite list_lookup_imap, fmap_Some in Hi. destruct Hi as (w0 & Hw0 & ->).
  eapply Forall_lookup_1 in Hw as [H0 H1]; [|done]. destruct (Z.leb_spec 4 (Z.of_nat (n - 4 * i))); [by split|].
  set (r := Z.of_nat (n - 4 * i)) in *. rewrite Z.shiftl_mul_pow2, Z.shiftr_div_pow2 by lia.
  pose proof (Z.mul_div_le w0 (2 ^ (8 * r)) ltac:(apply Z.pow_pos_nonneg; lia)).
  pose proof (Z.div_pos w0 (2 ^ (8 * r)) H0 ltac:(apply Z.pow_pos_nonneg; lia)).
  pose proof (Z.pow_pos_nonneg 2 (8 * r)). split; [nia|]. lia.
Qed.

(** Strings of eight characters and more give a vector that does not depend on
    the memory. *)
Lemma bv_of_string_spec memory x : words_of memory → (8 ≤ length x)%nat →
  ∃ r, bv_of_string memory x = Some r ∧ bv_wf r ∧ bv_max r = Z.of_nat (length x) - 1 ∧
  ∀ j, 0 ≤ j → j < Z.of_nat (length x) → bv_bit r j = (nth (length x - Z.to_nat j - 1) x 0 =? 49).
Proof.
  intros Hmem Hx. destruct (Hmem (length x)) as [Hl Hw]. unfold bv_of_string.
  set (b := mkBV _ _). assert (length (bv_data b) = length x) as Hd by (cbn; unfold zero_bytes; by rewrite length_imap).
  destruct (used_words_spec b) as [[Hlow Hused] _]; [cbn; lia|].
  change (bv_max b) with (Z.of_nat (length x) - 1) in *.
  assert (∀ i, 0 ≤ i < 32 * Z.of_nat (Nat.max 2 (used_words b)) → bv_bit b i = false) as Hzero.
  { intros i Hi. unfold bv_bit. rewrite wbit_nth, Z.shiftr_div_pow2, nth_lookup by lia. cbn [bv_data b].
    change (2 ^ 5) with 32. assert (0 ≤ i / 32 < Z.of_nat (Nat.max 2 (used_words b)))
      by (split; [apply Z.div_pos; lia|apply Z.div_lt_upper_bound; lia]).
    rewrite zero_bytes_lookup by lia. apply Z.testbit_0_l. }
  assert (bv_wf b) as Hwf.
  { constructor; [cbn; lia|by apply zero_bytes_ok|lia|lia|]. intros i Hi. apply Hzero. cbn in *. lia. }
  destruct (set_ones_spec b x Hwf) as (r & Hr & Hwr & Hmr & Hbr); [cbn; lia|].
  exists r. split_and!; try done. intros j Hj Hlt. rewrite Hbr by done.
  destruct (Z.ltb_spec j (Z.of_nat (length x))); [|lia]. cbn [andb].
  rewrite Hzero by lia. apply orb_false_r.
Qed.

(** Bitvector::operator& : without the assertion of the node's class the words
    of the second vector are read even if it has fewer. *)
Definition lib_and (b o : BABitvector) : option BABitvector :=
  let c := bv_copy b in mkBV (bv_max c) <$> zip_words (used_words c) Z.land (bv_data c) (bv_data o).

Lemma lib_and_spec b o : bv_max o = bv_max b → lib_and b o = bv_and b o.
Proof. intros Hm. unfold lib_and, bv_and, and_assign. rewrite Hm. change (bv_max (bv_copy b)) with (bv_max b). by rewrite Z.eqb_refl. Qed.
