(* ===== verification/TMGraph.v ===== *)
(** * The graph of the topology manager (TopologyManager/tm_graph.cpp,
    TopologyManager/tm_igraph.cpp)

    TMIgraph keeps the topology in an igraph graph and, beside it, tables from
    the names of nodes to vertices, from edges to link identifiers, and the
    FIDs between each node, the rendezvous point and the topology manager.
    Bit vectors are values: the code shares pointers to them but never changes
    a vector that somebody else points to.

    An igraph function that fails calls igraph's error handler, which aborts:
    the fault [AssertFailed]. *)
From stdpp Require Import base list gmap sets strings.
From Stdlib Require Import ZArith Lia Ascii.
From S2P Require Import Prelude Enums Bitvector GlobalConf Containers LibBitvector Igraph QoSPackets.

Local Open Scope Z_scope.

Definition UINT_MAX : Z := 4294967295.
Definition UCHAR_MAX : Z := 255.
Definition QoS_PRIO : Z := 15.
Definition MAX_PRIO : Z := 100.

(** The extensions of the topology manager *)
Definition SUPPORT_SIZE : Z := 5.
Definition TE : Z := 0.
Definition QOS : Z := 1.
Definition RS : Z := 2.
Definition PM : Z := 3.
Definition ML : Z := 4.

Record TMgraph (G : Type) := mkTM {
  extension : list bool;
  fid_len : Z;
  mode : bytes;
  tm_nodeID : bytes;
  RVnodeID : bytes;
  RMnodeID : bytes;
  freedLIDs : gmap (Z * Z) BABitvector;
  reverse_node_index : gmap bytes Z;
  reverse_edge_index : gmap bytes Z;
  nodeID_iLID : gmap bytes BABitvector;
  vertex_iLID : gmap Z BABitvector;
  edge_LID : gmap Z BABitvector;
  RVFID : gmap bytes (option BABitvector);
  TMFID : gmap bytes (option BABitvector);
  TM_to_nodeFID : gmap bytes (option BABitvector);
  qlwm : gmap Z (list Z);
  graph : G;
}.
Arguments mkTM {G}.
Arguments extension {G}.
Arguments fid_len {G}.
Arguments mode {G}.
Arguments tm_nodeID {G}.
Arguments RVnodeID {G}.
Arguments RMnodeID {G}.
Arguments freedLIDs {G}.
Arguments reverse_node_index {G}.
Arguments reverse_edge_index {G}.
Arguments nodeID_iLID {G}.
Arguments vertex_iLID {G}.
Arguments edge_LID {G}.
Arguments RVFID {G}.
Arguments TMFID {G}.
Arguments TM_to_nodeFID {G}.
Arguments qlwm {G}.
Arguments graph {G}.

Section setters.
Context {G : Type}.

Definition set_extension (x : list bool) (t : TMgraph G) : TMgraph G :=
  mkTM x (fid_len t) (mode t) (tm_nodeID t) (RVnodeID t) (RMnodeID t) (freedLIDs t)
    (reverse_node_index t) (reverse_edge_index t) (nodeID_iLID t) (vertex_iLID t) (edge_LID t)
    (RVFID t) (TMFID t) (TM_to_nodeFID t) (qlwm t) (graph t).

(** The attributes of the network *)
Definition set_names (len : Z) (md nid rv rm : bytes) (t : TMgraph G) : TMgraph G :=
  mkTM (extension t) len md nid rv rm (freedLIDs t)
    (reverse_node_index t) (reverse_edge_index t) (nodeID_iLID t) (vertex_iLID t) (edge_LID t)
    (RVFID t) (TMFID t) (TM_to_nodeFID t) (qlwm t) (graph t).

Definition set_freed (x : gmap (Z * Z) BABitvector) (t : TMgraph G) : TMgraph G :=
  mkTM (extension t) (fid_len t) (mode t) (tm_nodeID t) (RVnodeID t) (RMnodeID t) x
    (reverse_node_index t) (reverse_edge_index t) (nodeID_iLID t) (vertex_iLID t) (edge_LID t)
    (RVFID t) (TMFID t) (TM_to_nodeFID t) (qlwm t) (graph t).

(** The tables of nodes *)
Definition set_nodes (rni : gmap bytes Z) (il : gmap bytes BABitvector) (vl : gmap Z BABitvector)
    (t : TMgraph G) : TMgraph G :=
  mkTM (extension t) (fid_len t) (mode t) (tm_nodeID t) (RVnodeID t) (RMnodeID t) (freedLIDs t)
    rni (reverse_edge_index t) il vl (edge_LID t)
    (RVFID t) (TMFID t) (TM_to_nodeFID t) (qlwm t) (graph t).

(** The tables of edges *)
Definition set_edges (rei : gmap bytes Z) (el : gmap Z BABitvector) (t : TMgraph G) : TMgraph G :=
  mkTM (extension t) (fid_len t) (mode t) (tm_nodeID t) (RVnodeID t) (RMnodeID t) (freedLIDs t)
    (reverse_node_index t) rei (nodeID_iLID t) (vertex_iLID t) el
    (RVFID t) (TMFID t) (TM_to_nodeFID t) (qlwm t) (graph t).

(** The FIDs to the rendezvous point, to and from the topology manager *)
Definition set_fids (rv tm node : gmap bytes (option BABitvector)) (t : TMgraph G) : TMgraph G :=
  mkTM (extension t) (fid_len t) (mode t) (tm_nodeID t) (RVnodeID t) (RMnodeID t) (freedLIDs t)
    (reverse_node_index t) (reverse_edge_index t) (nodeID_iLID t) (vertex_iLID t) (edge_LID t)
    rv tm node (qlwm t) (graph t).

Definition set_qlwm (x : gmap Z (list Z)) (t : TMgraph G) : TMgraph G :=
  mkTM (extension t) (fid_len t) (mode t) (tm_nodeID t) (RVnodeID t) (RMnodeID t) (freedLIDs t)
    (reverse_node_index t) (reverse_edge_index t) (nodeID_iLID t) (vertex_iLID t) (edge_LID t)
    (RVFID t) (TMFID t) (TM_to_nodeFID t) x (graph t).

Definition set_graph (x : G) (t : TMgraph G) : TMgraph G :=
  mkTM (extension t) (fid_len t) (mode t) (tm_nodeID t) (RVnodeID t) (RMnodeID t) (freedLIDs t)
    (reverse_node_index t) (reverse_edge_index t) (nodeID_iLID t) (vertex_iLID t) (edge_LID t)
    (RVFID t) (TMFID t) (TM_to_nodeFID t) (qlwm t) x.
End setters.

(** An operation of bit vectors, which goes wrong only outside their words *)
Definition on_words {S A : Type} (o : option A) : M S A :=
  match o with Some a => mret a | None => throw BufferOverflow end.

(** [Bitvector(FID_LEN * 8)] *)
Definition zero_fid {S : Type} : M S BABitvector := on_words (bv_make fid_bits).

(** ** Text *)

Definition text (s : string) : bytes := Z.of_N ∘ N_of_ascii <$> String.list_ascii_of_string s.

(** [s.find(pat, from)] *)
Fixpoint starts_with (pat s : bytes) : bool :=
  match pat, s with
  | [], _ => true
  | a :: pat, b :: s => (a =? b) && starts_with pat s
  | _ :: _, [] => false
  end.

Fixpoint find_at (pat s : bytes) (i : nat) : option nat :=
  if starts_with pat s then Some i
  else match s with [] => None | _ :: s => find_at pat s (S i) end.

Definition find_from (pat s : bytes) (from : nat) : option nat := find_at pat (drop from s) from.

(** The text between the first ['>'] and the next ['<'] *)
Definition data_value (str : bytes) : bytes :=
  match find_from (text ">") str 0 with
  | Some first =>
      match find_from (text "<") str first with
      | Some second => substr str (first + 1) (second - first - 1)
      | None => drop (first + 1) str
      end
  | None => str
  end.

(** A line with the element [<data key=...>] for one of the two names *)
Definition data_element (name : string) : bytes := text "<data key=" ++ [34] ++ text name ++ [34; 62].
Definition has_data (name : string) (str : bytes) : bool :=
  bool_decide (is_Some (find_from (data_element name) str 0)) ||
  bool_decide (is_Some (find_from (data_element (String.append "g_" name)) str 0)).

(** [sscanf("%d")]: nothing is assigned if there is no number.  The value is
    never used again, so its width does not matter. *)
Definition is_space (c : Z) : bool := (c =? 32) || ((9 <=? c) && (c <=? 13)).
Definition is_digit (c : Z) : bool := (48 <=? c) && (c <=? 57).

Fixpoint digits (s : bytes) (acc : Z) : Z :=
  match s with
  | c :: s => if is_digit c then digits s (10 * acc + (c - 48)) else acc
  | [] => acc
  end.

Definition starts_number (s : bytes) : bool := match s with c :: _ => is_digit c | [] => false end.

Fixpoint skip_space (s : bytes) : bytes :=
  match s with c :: s' => if is_space c then skip_space s' else s | [] => [] end.

Definition scan_int (s : bytes) : option Z :=
  match skip_space s with
  | [] => None
  | c :: s' =>
      let '(sign, num) := if c =? 45 then (-1, s') else if c =? 43 then (1, s') else (1, c :: s') in
      if starts_number num then Some (sign * digits num 0) else None
  end.

Section tmgraph.
Context {G : Type} `{Igraph G}.

Notation TM := (M (TMgraph G)).

(** ** tm_graph.cpp *)

(** TMgraph::TMgraph *)
Definition new_TMgraph (g : G) : TMgraph G :=
  mkTM (replicate (Z.to_nat SUPPORT_SIZE) false) 0 [] [] [] [] ∅ ∅ ∅ ∅ ∅ ∅ ∅ ∅ ∅ ∅ g.

(** Both let [idx == SUPPORT_SIZE] pass. *)
Definition getExten (idx : Z) : TM bool :=
  if (idx <? 0) || (idx >? SUPPORT_SIZE) then mret false
  else t ← get;
       match extension t !! Z.to_nat idx with Some b => mret b | None => throw BufferOverflow end.

Definition setExten (idx : Z) : TM unit :=
  if (idx <? 0) || (idx >? SUPPORT_SIZE) then mret tt
  else t ← get;
       match extension t !! Z.to_nat idx with
       | Some _ => modify (set_extension (<[Z.to_nat idx := true]> (extension t)))
       | None => throw BufferOverflow
       end.

Definition getTM_to_nodeFID (n : bytes) : TM (option BABitvector) :=
  t ← get; found (TM_to_nodeFID t) n.
Definition getRVFID (n : bytes) : TM (option BABitvector) := t ← get; found (RVFID t) n.
Definition getTMFID (n : bytes) : TM (option BABitvector) := t ← get; found (TMFID t) n.

(** [*table[n] = *FID]: the pointer is NULL if [n] is new. *)
Definition overwritten (m : gmap bytes (option BABitvector)) (n : bytes) (FID : BABitvector)
    : TM (gmap bytes (option BABitvector)) :=
  old ← deref (mjoin (m !! n));
  mret (<[n := Some (bv_assign_from old FID)]> m).

Definition setTM_to_nodeFID (n : bytes) (FID : BABitvector) : TM unit :=
  t ← get; m ← overwritten (TM_to_nodeFID t) n FID; modify (set_fids (RVFID t) (TMFID t) m).
Definition setRVFID (n : bytes) (FID : BABitvector) : TM unit :=
  t ← get; m ← overwritten (RVFID t) n FID; modify (set_fids m (TMFID t) (TM_to_nodeFID t)).
Definition setTMFID (n : bytes) (FID : BABitvector) : TM unit :=
  t ← get; m ← overwritten (TMFID t) n FID; modify (set_fids (RVFID t) m (TM_to_nodeFID t)).

Definition get_reverse_node_index (n : bytes) : TM Z := t ← get; found (reverse_node_index t) n.

(** The best class of links that is not above [prio] *)
Definition nearer_class (prio k : Z) (best : Z * Z) : Z * Z :=
  if k >? prio then best
  else if prio - k <? best.2 then (k, prio - k) else best.

Definition getWeightKeyForIIPrio (prio : Z) : TM Z :=
  t ← get;
  match qlwm t !! prio with
  | Some _ => mret prio
  | None => mret (foldl (λ best k, nearer_class prio k best) (0, 10000) (key_order (dom (qlwm t)))).1
  end.

Definition isQoSMapOk : TM bool := t ← get; mret (bool_decide (is_Some (qlwm t !! 0))).

(** ** Shortest paths (tm_igraph.cpp) *)

(** [string LID(EAS(...), FID_LEN * 8)] and the loop over its characters: the
    attribute must have them, or all but the terminating NUL. *)
Definition or_string (result : BABitvector) (s : bytes) : TM BABitvector :=
  if decide (fid_bits ≤ Z.of_nat (length (s ++ [0]))) then
    on_words (set_ones result (take (Z.to_nat fid_bits) (s ++ [0])))
  else throw BufferOverflow.

(** igraph_get_eid with [error = true] *)
Definition eid_of (u v : Z) : TM nat :=
  t ← get;
  match igraph_get_eid (graph t) u v with Some e => mret e | None => throw AssertFailed end.

(** The pairs of neighbours on a path *)
Definition hops_of (p : list Z) : list (Z * Z) := zip p (tail p).

(** Bitvector *TMIgraph::calculateFID(source, destination) *)
Definition calculateFID (source destination : bytes) : TM BABitvector :=
  result ← zero_fid;
  t ← get;
  from ← found (reverse_node_index t) source;
  to ← found (reverse_node_index t) destination;
  let path := igraph_get_shortest_paths (graph t) from to in
  result ← fold_each (hops_of path) (λ h result,
    eid ← eid_of h.1 h.2; or_string result (igraph_EAS (graph t) eid)) result;
  if decide (path = []) then mret result
  else or_string result (igraph_VAS (graph t) iLID to).

(** [resultFID = resultFID | *lid] *)
Definition or_into (resultFID lid : BABitvector) : TM BABitvector :=
  r ← on_words (bv_or resultFID lid); mret (bv_assign_from resultFID r).

(** The names of the vertices with ["->"] between them *)
Definition arrow : bytes := [45; 62].

Fixpoint path_string (names : list bytes) : bytes :=
  match names with
  | [] => []
  | [n] => n
  | n :: names => n ++ arrow ++ path_string names
  end.

Definition hop_count (n : nat) : Z := let h := u32 (Z.of_nat n) in if h =? 0 then UINT_MAX else h.

(** calculateFID(source, destination, resultFID, numberOfHops, path); the new
    values of the last three are returned. *)
Definition calculateFID_hops (source destination : bytes) (resultFID : BABitvector) (path : bytes)
    : TM (BABitvector * Z * bytes) :=
  t ← get;
  from ← found (reverse_node_index t) source;
  to ← found (reverse_node_index t) destination;
  let temp_v := igraph_get_shortest_paths (graph t) from to in
  let path := path ++ path_string (igraph_VAS (graph t) NODEID <$> temp_v) in
  resultFID ← fold_each (hops_of temp_v) (λ h resultFID,
    eid ← eid_of h.1 h.2;
    lid ← found (edge_LID t) (Z.of_nat eid);
    or_into resultFID lid) resultFID;
  ilid ← found (nodeID_iLID t) destination;
  resultFID ← or_into resultFID ilid;
  mret (resultFID, hop_count (length temp_v), path).

(** What the loops of the functions over sets carry along *)
Record Best := mkBest {
  resultFID : BABitvector;
  bestNode : bytes;
  bestFID : BABitvector;
  best_path : bytes;
  minimumNumberOfHops : Z;
}.

Definition first_best (FID : BABitvector) : Best := mkBest FID [] FID [] UINT_MAX.

Definition better (node : bytes) (r : BABitvector * Z * bytes) (keep_path : bool) (b : Best) : Best :=
  let '(FID, numberOfHops, curr_path) := r in
  if minimumNumberOfHops b >? numberOfHops
  then mkBest FID node (bv_assign_from (bestFID b) FID)
         (if keep_path then curr_path else best_path b) numberOfHops
  else mkBest FID (bestNode b) (bestFID b) (best_path b) (minimumNumberOfHops b).

(** The inner loop: the nearest publisher of a subscriber *)
Definition nearest_publisher (publishers : list bytes) (subscriber : bytes) (keep_path : bool)
    (b : Best) : TM Best :=
  fold_each publishers (λ pub b,
    r ← calculateFID_hops pub subscriber (clear (resultFID b)) [];
    mret (better pub r keep_path b)) b.

Definition paths_with (b : Best) (path_vectors : gmap bytes (gset bytes)) : gmap bytes (gset bytes) :=
  if decide (path_vectors = ∅) then {[ bestNode b := {[ best_path b ]} ]}
  else alter (λ X, {[ best_path b ]} ∪ X) (bestNode b) path_vectors.

(** The result for the best publisher: a new FID, or one more branch *)
Definition add_best (b : Best) (result : gmap bytes (option BABitvector))
    : TM (gmap bytes (option BABitvector)) :=
  old ← found result (bestNode b);
  match old with
  | Some existingFID =>
      if minimumNumberOfHops b =? UINT_MAX then mret (<[bestNode b := Some (bv_copy (bestFID b))]> result)
      else
        r ← or_into existingFID (bestFID b);
        mret (<[bestNode b := Some r]> result)
  | None => mret (<[bestNode b := Some (bv_copy (bestFID b))]> result)
  end.

Definition with_minimum (m : Z) (b : Best) : Best := 
  mkBest (resultFID b) (bestNode b) (bestFID b) (best_path b) m.

(** The iteration of the outer loop for one subscriber; [near] is the inner
    loop. *)
Definition serve_subscriber (keep_path : bool) (near : bytes → Best → TM Best) (subscriber : bytes)
    (acc : Best * gmap bytes (option BABitvector) * gmap bytes (gset bytes))
    : TM (Best * gmap bytes (option BABitvector) * gmap bytes (gset bytes)) :=
  let '(b, result, path_vectors) := acc in
  b ← near subscriber (with_minimum UINT_MAX b);
  let path_vectors := if keep_path then paths_with b path_vectors else path_vectors in
  result ← add_best b result;
  mret (b, result, path_vectors).

Definition add_publishers (publishers : list bytes) (result : gmap bytes (option BABitvector))
    : gmap bytes (option BABitvector) := foldl (λ m p, add_new p None m) result publishers.
Definition add_paths (publishers : list bytes) (path_vectors : gmap bytes (gset bytes))
    : gmap bytes (gset bytes) := foldl (λ m p, add_new p ∅ m) path_vectors publishers.

(** calculateFID(publishers, subscribers, result, path_vectors) *)
Definition calculateFID_sets (publishers subscribers : gset bytes)
    (result : gmap bytes (option BABitvector)) (path_vectors : gmap bytes (gset bytes))
    : TM (gmap bytes (option BABitvector) * gmap bytes (gset bytes)) :=
  FID ← zero_fid;
  rs ← (t ← get; match extension t !! Z.to_nat RS with Some b => mret b | None => throw BufferOverflow end);
  let pubs := key_order publishers in
  '(b, result, path_vectors) ←
    fold_each (key_order subscribers)
      (serve_subscriber rs (λ sub, nearest_publisher pubs sub rs))
      (first_best FID, add_publishers pubs result, add_paths pubs path_vectors);
  mret (result, path_vectors).

(** UcalculateFID(publisher, subscribers, result, paths) *)
Definition UcalculateFID (publisher : bytes) (subscribers : gset bytes)
    (result : gmap bytes (option BABitvector)) (paths : gmap bytes bytes)
    : TM (gmap bytes (option BABitvector) * gmap bytes bytes) :=
  FID ← zero_fid;
  '(b, result, paths) ← fold_each (key_order subscribers) (λ subscriber acc,
    let '(b, result, paths) := acc in
    r ← calculateFID_hops publisher subscriber (clear (resultFID b)) [];
    mret (better subscriber r true b, add_new subscriber None result, add_new subscriber [] paths))
    (first_best FID, result, paths);
  if decide (bestNode b = []) then mret (result, paths)
  else mret (<[bestNode b := Some (bv_copy (bestFID b))]> result, <[bestNode b := best_path b]> paths).

(** calculateRVTMFIDs: the vectors that are allocated first are replaced at
    once. *)
Definition node_FIDs (n : bytes) : TM unit :=
  t ← get;
  rv ← calculateFID n (RVnodeID t);
  _ ← modify (λ t, set_fids (<[n := Some rv]> (RVFID t)) (TMFID t) (TM_to_nodeFID t) t);
  tm ← calculateFID n (tm_nodeID t);
  _ ← modify (λ t, set_fids (RVFID t) (<[n := Some tm]> (TMFID t)) (TM_to_nodeFID t) t);
  node ← calculateFID (tm_nodeID t) n;
  modify (λ t, set_fids (RVFID t) (TMFID t) (<[n := Some node]> (TM_to_nodeFID t)) t).

Definition calculateRVTMFIDs : TM unit :=
  t ← get;
  for_each (key_order (dom (reverse_node_index t))) node_FIDs.

(** ** Weighted paths *)

(** calculateFID_weighted(source, destination, ...) for igraph 0.6 and later:
    the hops are the edges that Dijkstra's algorithm returns. *)
Definition calculateFID_weighted_hops (weights : list Z) (source destination : bytes)
    (resultFID : BABitvector) (path : bytes) : TM (BABitvector * Z * bytes) :=
  t ← get;
  from ← found (reverse_node_index t) source;
  to ← found (reverse_node_index t) destination;
  let '(temp_v, temp_ev) := igraph_get_shortest_paths_dijkstra (graph t) weights from to in
  let path := path ++ path_string (igraph_VAS (graph t) NODEID <$> temp_v) in
  resultFID ← fold_each temp_ev (λ eid resultFID,
    lid ← found (edge_LID t) (Z.of_nat eid); or_into resultFID lid) resultFID;
  let numberOfHops := hop_count (length temp_ev) in
  let numberOfHops := if decide (source = destination) then 1 else numberOfHops in
  ilid ← found (nodeID_iLID t) destination;
  resultFID ← or_into resultFID ilid;
  mret (resultFID, numberOfHops, path).

Definition nearest_publisher_weighted (weights : list Z) (publishers : list bytes)
    (subscriber : bytes) (b : Best) : TM Best :=
  fold_each publishers (λ pub b,
    r ← calculateFID_weighted_hops weights pub subscriber (clear (resultFID b)) [];
    mret (better pub r true b)) b.

(** calculateFID_weighted(publishers, subscribers, ...) *)
Definition calculateFID_weighted_sets (weights : list Z) (publishers subscribers : gset bytes)
    (result : gmap bytes (option BABitvector)) (path_vectors : gmap bytes (gset bytes))
    : TM (gmap bytes (option BABitvector) * gmap bytes (gset bytes)) :=
  FID ← zero_fid;
  let pubs := key_order publishers in
  '(b, result, path_vectors) ←
    fold_each (key_order subscribers)
      (serve_subscriber true (nearest_publisher_weighted weights pubs))
      (first_best FID, add_publishers pubs result, add_paths pubs path_vectors);
  mret (result, path_vectors).

(** ** Links *)

(** updateTMStates and the loop over the edges of readTopology *)
Definition add_edge_state (memory : nat → list Z) (i : nat)
    (acc : gmap bytes Z * gmap Z BABitvector) : TM (gmap bytes Z * gmap Z BABitvector) :=
  let '(rei, el) := acc in
  t ← get;
  let LID := igraph_EAS (graph t) i in
  lid ← on_words (bv_of_string memory LID);
  mret (add_new LID (Z.of_nat i) rei, add_new (Z.of_nat i) lid el).

Definition edge_states (memory : nat → list Z) (rei : gmap bytes Z) (el : gmap Z BABitvector) : TM unit :=
  t ← get;
  '(rei, el) ← fold_each (seq 0 (igraph_ecount (graph t))) (add_edge_state memory) (rei, el);
  modify (set_edges rei el).

Definition updateTMStates (memory : nat → list Z) : TM unit := edge_states memory ∅ ∅.

(** The attributes of the network on one line of the file *)
Definition read_line {G : Type} (str : bytes) (t : TMgraph G) : TMgraph G :=
  let len := if has_data "FID_LEN" str then default (fid_len t) (scan_int (data_value str)) else fid_len t in
  let nid := if has_data "TM" str then data_value str else tm_nodeID t in
  let rm := if has_data "TM" str then data_value str else RMnodeID t in
  let rv := if has_data "RV" str then data_value str else RVnodeID t in
  let md := if has_data "TM_MODE" str then data_value str else mode t in
  set_names len md nid rv rm t.

(** The loop over the vertices *)
Definition add_node_state (memory : nat → list Z) (i : nat) : TM unit :=
  t ← get;
  let nID := igraph_VAS (graph t) NODEID (Z.of_nat i) in
  ilid ← on_words (bv_of_string memory (igraph_VAS (graph t) iLID (Z.of_nat i)));
  _ ← modify (λ t, set_nodes (add_new nID (Z.of_nat i) (reverse_node_index t))
        (add_new nID ilid (nodeID_iLID t)) (add_new (Z.of_nat i) ilid (vertex_iLID t)) t);
  modify (λ t, set_fids (add_new nID None (RVFID t)) (add_new nID None (TMFID t)) (TM_to_nodeFID t) t).

(** readTopology; [lines] is the file, [g] what igraph makes of it.  [None] if
    it cannot be opened.  igraph aborts on errors instead of returning them. *)
Definition readTopology (memory : nat → list Z) (lines : option (list bytes)) (g : option G) : TM Z :=
  match lines with
  | None => mret (-1)
  | Some lines =>
      _ ← modify (λ t, foldl (λ t str, read_line str t) t lines);
      g ← match g with Some g => mret g | None => throw AssertFailed end;
      _ ← modify (set_graph g);
      _ ← for_each (seq 0 (igraph_vcount g)) (add_node_state memory);
      t ← get;
      _ ← edge_states memory (reverse_edge_index t) (edge_LID t);
      mret 0
  end.

(** igraph_get_eids with [error = false]: -1 for a missing edge *)
Definition eids_of (ps : list (Z * Z)) : TM (list Z) :=
  t ← get;
  mret ((λ p, match igraph_get_eid (graph t) p.1 p.2 with Some e => Z.of_nat e | None => -1 end) <$> ps).

(** An element of an igraph vector *)
Definition vec_at {A S : Type} (v : list A) (i : nat) : M S A :=
  match v !! i with Some x => mret x | None => throw BufferOverflow end.

(** Keep the identifier of an edge that is about to go *)
Definition keep_LID (eids : list Z) (h : nat * (Z * Z)) : TM unit :=
  eid ← vec_at eids h.1;
  t ← get;
  lid ← found (edge_LID t) eid;
  modify (λ t, set_freed (add_new h.2 lid (freedLIDs t)) t).

(** igraph_cattribute_EAS_set; there is no edge -1. *)
Definition set_EAS (eid : Z) (s : bytes) : TM unit :=
  t ← get;
  if (0 <=? eid) && (eid <? Z.of_nat (igraph_ecount (graph t)))
  then modify (set_graph (igraph_EAS_set (graph t) (Z.to_nat eid) s))
  else throw BufferOverflow.

(** Give an edge that is back the identifier it had.  The new edges are looked
    up behind the first identifier. *)
Definition restore_LID (eids : list Z) (h : nat * (Z * Z)) (lid : BABitvector) : TM unit :=
  eid ← vec_at eids h.1;
  _ ← set_EAS eid (to_string lid);
  modify (λ t, set_freed (delete h.2 (freedLIDs t)) t).

(** updateGraph.  On every path but removal igraph_es_destroy is called on a
    selector that was never initialised, which igraph does not define.
    [es_harmless] tells which of two things happens: the call does nothing, or
    the program ends there.  The theorems on reports of links state both. *)
Definition destroy_es (es_harmless : bool) (initialised : bool) : TM unit :=
  if initialised || es_harmless then mret tt else throw Uninitialised.

Definition updateGraph (memory : nat → list Z) (es_harmless : bool) (source destination : bytes)
    (bidirectional remove : bool) : TM bool :=
  t ← get;
  source_vertex ← found (reverse_node_index t) source;
  destination_vertex ← found (reverse_node_index t) destination;
  let forward_edge := (source_vertex, destination_vertex) in
  let backward_edge := (destination_vertex, source_vertex) in
  let v := if bidirectional then [forward_edge; backward_edge] else [forward_edge] in
  eids ← eids_of v;
  first ← vec_at eids 0;
  let exist := first >? -1 in
  if remove && exist then
    _ ← keep_LID eids (0%nat, forward_edge);
    _ ← (if bidirectional then keep_LID eids (1%nat, backward_edge) else mret tt);
    t ← get;
    g ← match igraph_delete_edges (graph t) v with Some g => mret g | None => throw AssertFailed end;
    _ ← modify (set_graph g);
    _ ← updateTMStates memory;
    _ ← destroy_es es_harmless true;
    mret true
  else if negb remove && negb exist then
    _ ← modify (λ t, set_graph (igraph_add_edges (graph t) v) t);
    t ← get;
    lid ← found (freedLIDs t) forward_edge;
    new_eids ← eids_of v;
    _ ← restore_LID new_eids (0%nat, forward_edge) lid;
    _ ← (if bidirectional then
           t ← get;
           lid ← found (freedLIDs t) backward_edge;
           restore_LID new_eids (1%nat, backward_edge) lid
         else mret tt);
    _ ← updateTMStates memory;
    _ ← destroy_es es_harmless false;
    mret true
  else
    _ ← destroy_es es_harmless false;
    mret false.

(** ** Quality of service *)

(** createNewQoSLinkPrioMap: a class of links.  [nan] is what a value that is
    not a number gives when it is converted to an integer. *)
Definition edge_weight (map_prio ep : Z) : Z := if map_prio >=? ep then u8 (MAX_PRIO - ep) else UCHAR_MAX.

Definition createNewQoSLinkPrioMap (nan : Z) (map_prio : Z) : TM unit :=
  t ← get;
  data ← fold_each (key_order (dom (edge_LID t))) (λ eid data,
    if (0 <=? eid) && (eid <? Z.of_nat (igraph_ecount (graph t))) then
      let ep := u8 (default nan (igraph_EAN (graph t) QoS_PRIO (Z.to_nat eid))) in
      mret (<[Z.to_nat eid := Some (edge_weight map_prio ep)]> data)
    else throw BufferOverflow) (replicate (igraph_ecount (graph t)) None);
  match mapM id data with
  | Some data => modify (set_qlwm (<[map_prio := data]> (qlwm t)))
  | None => throw Uninitialised
  end.

(** updateLinkState; [reverse_edge_index[lid]] is 0 for an unknown link, which
    it adds to the table. *)
Definition set_status (eid : Z) (item : Z * Z) : TM unit :=
  t ← get;
  if (0 <=? eid) && (eid <? Z.of_nat (igraph_ecount (graph t)))
  then modify (set_graph (igraph_EAN_set (graph t) item.1 (Z.to_nat eid) item.2))
  else throw BufferOverflow.

Definition new_weight (lp eid key : Z) (vec : list Z) : TM (list Z) :=
  if decide (Z.to_nat eid < length vec)%nat then
    mret (<[Z.to_nat eid := if key <? lp then UCHAR_MAX else MAX_PRIO - lp]> vec)
  else throw BufferOverflow.

Definition updateLinkState (nan : Z) (lid : bytes) (status : gmap Z Z) : TM unit :=
  t ← get;
  let eid := default 0 (reverse_edge_index t !! lid) in
  _ ← modify (set_edges (<[lid := eid]> (reverse_edge_index t)) (edge_LID t));
  _ ← for_each (in_order_of status) (set_status eid);
  p ← found status QoS_PRIO;
  let lp := u8 p in
  t ← get;
  _ ← match qlwm t !! lp with Some _ => mret tt | None => createNewQoSLinkPrioMap nan lp end;
  t ← get;
  vec ← found (qlwm t) lp;
  if eid >=? Z.of_nat (length vec) then mret tt
  else for_each (key_order (dom (qlwm t))) (λ k,
    t ← get;
    vec ← found (qlwm t) k;
    vec ← new_weight lp eid k vec;
    modify (set_qlwm (<[k := vec]> (qlwm t)))).

End tmgraph.
