(* ===== verification/TMPaths.v ===== *)
(** * The FIDs of the topology manager

    [carries] says which link identifiers make up a FID, [tm_wf] that the
    tables of the topology manager agree with its graph.  Under [tm_wf] each of
    the calculateFID functions returns the union of the identifiers of a
    shortest path and the internal link of its end, and the function over sets
    serves every subscriber from a nearest publisher. *)
From stdpp Require Import base list gmap sets.
From Stdlib Require Import ZArith Lia Bool.
From S2P Require Import Prelude Enums Bitvector GlobalConf Containers LibBitvector Igraph Forwarder TMGraph.

Local Open Scope Z_scope.

(** ** Unions of link identifiers *)

(** Bit [j] of an identifier that is written as a string *)
Definition sbit (s : bytes) (j : Z) : bool := nth (Z.to_nat (fid_bits - j - 1)) s 0 =? 49.

(** A string of as many ['0'] and ['1'] as a FID has bits *)
Definition lid_string (s : bytes) : Prop :=
  Z.of_nat (length s) = fid_bits ∧ Forall (λ c, c = 48 ∨ c = 49) s.

Record carries (b : BABitvector) (ss : list bytes) : Prop := {
  carries_fid : fid_ok b;
  carries_bits j : 0 ≤ j < fid_bits → bv_bit b j = existsb (λ s, sbit s j) ss;
}.

Lemma carries_equiv b ss ss' : (∀ s, s ∈ ss ↔ s ∈ ss') → carries b ss → carries b ss'.
Proof.
  intros Hss [Hf Hb]. constructor; [done|]. intros j Hj. rewrite Hb by done.
  apply eq_true_iff_eq. rewrite !existsb_exists.
  by setoid_rewrite <-list_elem_of_In; setoid_rewrite Hss.
Qed.

Lemma carries_copy b ss : carries b ss → carries (bv_copy b) ss.
Proof.
  intros [[Hf Hm] Hb]. destruct (bv_copy_spec b Hf) as (Hw & Hmax & Hbits).
  constructor; [split; [done|congruence]|]. intros j Hj. rewrite Hbits by lia. by apply Hb.
Qed.

(** Assigning a FID copies it, whatever the vector was before. *)
Lemma assign_fid b o : fid_ok o → bv_assign_from b o = bv_copy o.
Proof.
  intros [_ Hm]. unfold bv_assign_from, bv_copy, max_word. by rewrite Hm.
Qed.

Lemma carries_assign b o ss : carries o ss → carries (bv_assign_from b o) ss.
Proof. intros Ho. rewrite assign_fid by apply Ho. by apply carries_copy. Qed.

Lemma carries_clear b ss : carries b ss → carries (clear b) [].
Proof.
  intros [[Hf Hm] _]. pose proof Hf as [Hmax Hw H2 Hu Hc].
  assert (used_words (clear b) = used_words b) as Huc by (by apply used_words_max).
  assert (∀ i, 0 ≤ i ≤ bv_max b → bv_bit (clear b) i = false) as Hbit.
  { intros i Hi. unfold bv_bit, clear; cbn [bv_data].
    by rewrite (map_words_clean b _ (λ _, false)) by (done || (intros; apply Z.testbit_0_l)). }
  split; [split; [|done]|].
  - constructor; rewrite ?Huc; cbn [clear bv_data bv_max]; rewrite ?length_map_words; try done.
    + unfold map_words. apply Forall_app. split; [|by apply Forall_drop].
      apply Forall_fmap. apply Forall_true. intros. by unfold word_ok.
    + intros i Hi. unfold bv_bit; cbn [bv_data clear]. rewrite wbit_map_words with (g := λ _, false);
        [|by intros; apply Z.testbit_0_l|lia].
      destruct (i <? _); [done|]. apply Hc. lia.
  - intros j Hj. rewrite Hbit by lia. done.
Qed.

Lemma fold_each_app {S A B : Type} (l1 l2 : list A) (body : A → B → M S B) acc acc' (s : S) :
  fold_each l1 body acc s = Ok (acc', s) →
  fold_each (l1 ++ l2) body acc s = fold_each l2 body acc' s.
Proof.
  revert acc s. enough (∀ acc s s', fold_each l1 body acc s = Ok (acc', s') →
    fold_each (l1 ++ l2) body acc s = fold_each l2 body acc' s') as Hgen by (intros; by apply Hgen).
  induction l1 as [|a l1 IH]; intros acc s s'; cbn [fold_each app].
  - by intros [= -> ->].
  - unfold mbind, M_bind. destruct (body a acc s) as [[acc1 s1]|e]; [apply IH|done].
Qed.

Section unions.
Context {S : Type} (s : S).

Lemma zero_fid_run : ∃ b, zero_fid s = Ok (b, s) ∧ carries b [].
Proof.
  destruct (bv_make_spec fid_bits ltac:(done)) as (b & Hb & Hw & Hm & Hbits).
  exists b. unfold zero_fid. rewrite Hb. split; [done|]. constructor; [by split|]. intros. apply Hbits.
Qed.
End unions.

Lemma bv_of_string_lid memory x : words_of memory → lid_string x →
  ∃ b, bv_of_string memory x = Some b ∧ carries b [x].
Proof.
  intros Hmem [Hx _]. destruct (bv_of_string_spec memory x Hmem) as (b & Hb & Hw & Hm & Hbits).
  { unfold fid_bits in Hx. change (Z.of_nat FID_LEN) with 32 in Hx. lia. }
  exists b. split; [done|]. constructor; [split; [done|lia]|]. intros j Hj. cbn [existsb].
  rewrite Hbits, orb_false_r by lia. unfold sbit. do 2 f_equal. lia.
Qed.

(** Printing gives the string back. *)
Lemma to_string_lid b x : carries b [x] → lid_string x → to_string b = x.
Proof.
  intros [[Hw Hm] Hb] [Hx Hc]. rewrite to_string_bits by (rewrite Hm; by vm_compute).
  apply list_eq. intros i. rewrite list_lookup_fmap, Hm. replace (fid_bits - 1 + 1) with fid_bits by lia.
  destruct (decide (i < length x)%nat) as [Hi|Hi].
  - rewrite lookup_seq_lt by lia. cbn [fmap option_fmap option_map]. rewrite Hb by lia. cbn [existsb].
    rewrite orb_false_r. unfold sbit.
    replace (fid_bits - (fid_bits - 1 - Z.of_nat (0 + i)) - 1) with (Z.of_nat i) by lia. rewrite Nat2Z.id.
    destruct (lookup_lt_is_Some_2 x i Hi) as [c Hci]. rewrite nth_lookup, Hci. cbn [default].
    destruct (Forall_lookup_1 _ _ _ _ Hc Hci) as [->| ->]; done.
  - rewrite lookup_seq_ge, lookup_ge_None_2 by lia. done.
Qed.

Section fids.
Context {G : Type} `{IgraphLaws G}.

Notation TM := (M (TMgraph G)).

Lemma or_into_run b lid ss ss' (t : TMgraph G) : carries b ss → carries lid ss' →
  ∃ r, or_into b lid t = Ok (r, t) ∧ carries r (ss ++ ss').
Proof.
  intros [[Hw Hm] Hb] [[Hw' Hm'] Hb'].
  destruct (bv_or_spec b lid Hw Hw' ltac:(congruence)) as (r & Hr & Hwr & Hmr & Hbr).
  exists (bv_assign_from b r). unfold or_into. rewrite Hr. split; [done|].
  apply carries_assign. constructor; [split; [done|congruence]|].
  intros j Hj. rewrite Hbr, Hb, Hb', existsb_app by lia. done.
Qed.

Lemma or_string_run b s ss (t : TMgraph G) : carries b ss → lid_string s →
  ∃ r, or_string b s t = Ok (r, t) ∧ carries r (ss ++ [s]).
Proof.
  intros [[Hw Hm] Hb] [Hs _]. unfold or_string. rewrite length_app. cbn [length].
  rewrite decide_True by lia. rewrite <-Hs, Nat2Z.id, take_app_length.
  destruct (set_ones_spec b s Hw ltac:(lia)) as (r & -> & Hwr & Hmr & Hbr).
  exists r. split; [done|]. constructor; [split; [done|congruence]|].
  intros j Hj. rewrite Hbr, Hb, existsb_app by lia. cbn [existsb].
  rewrite (proj2 (Z.ltb_lt _ _)), orb_false_r, orb_comm by lia. cbn [andb]. do 2 f_equal.
  unfold sbit. do 2 f_equal. lia.
Qed.

(** ** Consistent tables *)

Record tm_wf (t : TMgraph G) : Prop := {
  wf_extension : Z.of_nat (length (extension t)) = SUPPORT_SIZE;
  wf_links l : l ∈ links (graph t) → lid_string l.2;
  wf_nodes n v : reverse_node_index t !! n = Some v →
    is_vertex (graph t) v ∧ lid_string (igraph_VAS (graph t) iLID v) ∧
    ∃ b, nodeID_iLID t !! n = Some b ∧ carries b [igraph_VAS (graph t) iLID v];
  wf_edges e : (e < igraph_ecount (graph t))%nat →
    ∃ b, edge_LID t !! Z.of_nat e = Some b ∧ carries b [igraph_EAS (graph t) e];
}.

(** The identifiers of the links along a path *)
Definition path_lids (g : G) (p : list Z) : list bytes :=
  (λ h, default [] (igraph_EAS g <$> igraph_get_eid g h.1 h.2)) <$> hops_of p.

(** The way from one vertex to another, and the identifiers on it *)
Definition route (g : G) (u v : Z) : list Z := igraph_get_shortest_paths g u v.

Definition route_lids (g : G) (u v : Z) : list bytes :=
  path_lids g (route g u v) ++ [igraph_VAS g iLID v].

Definition distance (g : G) (u v : Z) : Z := hop_count (length (route g u v)).

Lemma walk_hops (g : G) p a b : walk g p → (a, b) ∈ hops_of p → adjacent g a b.
Proof.
  unfold hops_of. induction p as [|x [|y p] IH]; [done|by intros _ ?%elem_of_nil|].
  change (zip (x :: y :: p) (tail (x :: y :: p))) with ((x, y) :: zip (y :: p) (tail (y :: p))).
  intros (_ & Hxy & Hw). intros [[= -> ->]|Hin]%elem_of_cons; [done|]. by apply IH.
Qed.

Lemma adjacent_eid (g : G) a b : adjacent g a b →
  ∃ e, igraph_get_eid g a b = Some e ∧ (e < igraph_ecount g)%nat ∧ igraph_edge g e = (a, b).
Proof.
  intros Hab. destruct (igraph_get_eid g a b) as [e|] eqn:E.
  - exists e. split; [done|]. by apply get_eid_found.
  - by apply get_eid_missing in E.
Qed.

Lemma route_hop (g : G) u v a b : is_vertex g u → is_vertex g v → (a, b) ∈ hops_of (route g u v) →
  ∃ e, igraph_get_eid g a b = Some e ∧ (e < igraph_ecount g)%nat ∧ igraph_edge g e = (a, b).
Proof.
  intros Hu Hv Hin. apply adjacent_eid. eapply walk_hops; [|done].
  apply (shortest_path_walk g u v Hu Hv). intros Hnil. unfold route, hops_of in Hin. rewrite Hnil in Hin. by apply elem_of_nil in Hin.
Qed.

Lemma link_lid (t : TMgraph G) e : tm_wf t → (e < igraph_ecount (graph t))%nat →
  lid_string (igraph_EAS (graph t) e).
Proof.
  intros Hwf He. apply (wf_links t Hwf (igraph_edge (graph t) e, _)).
  unfold links. apply list_elem_of_fmap. exists e. split; [done|]. apply elem_of_seq. lia.
Qed.

Lemma eid_run (t : TMgraph G) a b e : igraph_get_eid (graph t) a b = Some e → eid_of a b t = Ok (e, t).
Proof. intros He. unfold eid_of, mbind, M_bind, get. by rewrite He. Qed.

Lemma found_run {K A : Type} `{Countable K} (m : gmap K A) k a (t : TMgraph G) :
  m !! k = Some a → found m k t = Ok (a, t).
Proof. intros Hk. unfold found. by rewrite Hk. Qed.

(** The loops over the hops of a route: [step] adds one link. *)
Lemma over_route (t : TMgraph G) u v ss b step : tm_wf t →
  is_vertex (graph t) u → is_vertex (graph t) v → carries b ss →
  (∀ h e b ss, igraph_get_eid (graph t) h.1 h.2 = Some e → (e < igraph_ecount (graph t))%nat → carries b ss →
     ∃ b', step h b t = Ok (b', t) ∧ carries b' (ss ++ [igraph_EAS (graph t) e])) →
  ∃ b', fold_each (hops_of (route (graph t) u v)) step b t = Ok (b', t) ∧
    carries b' (ss ++ path_lids (graph t) (route (graph t) u v)).
Proof.
  intros Hwf Hu Hv Hb Hstep.
  destruct (fold_each_run (hops_of (route (graph t) u v)) step t (λ pre b, carries b (ss ++
    ((λ h, default [] (igraph_EAS (graph t) <$> igraph_get_eid (graph t) h.1 h.2)) <$> pre))) b)
    as (b' & Hrun & Hb').
  - intros pre [x y] post acc Hl Hacc. destruct (route_hop (graph t) u v x y Hu Hv) as (e & He & Hlt & _).
    { rewrite Hl. apply elem_of_app. right. left. }
    destruct (Hstep (x, y) e acc _ He Hlt Hacc) as (acc' & Hr & Hacc'). exists acc'. split; [done|].
    rewrite fmap_app, app_assoc. cbn [fmap list_fmap fst snd]. by rewrite He.
  - by rewrite app_nil_r.
  - eauto.
Qed.

(** ** The FID of a path *)
Section path.
Context (t : TMgraph G) (Hwf : tm_wf t) (src dst : bytes) (u v : Z).
Context (Hsrc : reverse_node_index t !! src = Some u) (Hdst : reverse_node_index t !! dst = Some v).

Lemma calculateFID_spec : ∃ r, calculateFID src dst t = Ok (r, t) ∧
  carries r (if decide (route (graph t) u v = []) then [] else route_lids (graph t) u v).
Proof.
  destruct (wf_nodes t Hwf _ _ Hsrc) as (Hu & _). destruct (wf_nodes t Hwf _ _ Hdst) as (Hv & Hvs & _).
  destruct (zero_fid_run t) as (b & Hz & Hb). unfold calculateFID.
  rewrite (run_bind _ _ _ _ _ Hz). change (get t) with (Ok (t, t)). unfold mbind at 1, M_bind at 1.
  cbn [get]. rewrite (run_bind _ _ _ _ _ (found_run _ _ _ t Hsrc)), (run_bind _ _ _ _ _ (found_run _ _ _ t Hdst)).
  fold (route (graph t) u v).
  destruct (over_route t u v [] b (λ h result,
    eid ← eid_of h.1 h.2; or_string result (igraph_EAS (graph t) eid)) Hwf Hu Hv Hb) as (b' & Hrun & Hb').
  { intros h e b0 ss He Hlt Hb0. rewrite (run_bind _ _ _ _ _ (eid_run t _ _ _ He)).
    apply or_string_run; [done|]. by apply link_lid. }
  rewrite (run_bind _ _ _ _ _ Hrun). case_decide as Hr.
  - exists b'. split; [done|]. rewrite Hr in Hb'. done.
  - by apply or_string_run.
Qed.

Lemma calculateFID_hops_spec b ss path : carries b ss → ∃ r path',
  calculateFID_hops src dst b path t = Ok ((r, distance (graph t) u v, path'), t) ∧
  carries r (ss ++ route_lids (graph t) u v).
Proof.
  intros Hb.
  destruct (wf_nodes t Hwf _ _ Hsrc) as (Hu & _). destruct (wf_nodes t Hwf _ _ Hdst) as (Hv & _ & lid & Hlid & Hl).
  unfold calculateFID_hops, mbind at 1, M_bind at 1. cbn [get].
  rewrite (run_bind _ _ _ _ _ (found_run _ _ _ t Hsrc)), (run_bind _ _ _ _ _ (found_run _ _ _ t Hdst)).
  fold (route (graph t) u v).
  destruct (over_route t u v ss b (λ h resultFID, eid ← eid_of h.1 h.2;
    lid ← found (edge_LID t) (Z.of_nat eid); or_into resultFID lid) Hwf Hu Hv Hb) as (b' & Hrun & Hb').
  { intros h e b0 ss0 He Hlt Hb0. rewrite (run_bind _ _ _ _ _ (eid_run t _ _ _ He)).
    destruct (wf_edges t Hwf e Hlt) as (el & Hel & Hc). rewrite (run_bind _ _ _ _ _ (found_run _ _ _ t Hel)).
    by apply or_into_run. }
  rewrite (run_bind _ _ _ _ _ Hrun), (run_bind _ _ _ _ _ (found_run _ _ _ t Hlid)).
  destruct (or_into_run b' lid _ _ t Hb' Hl) as (r & Hr & Hcr). rewrite (run_bind _ _ _ _ _ Hr).
  do 2 eexists. split; [done|]. unfold route_lids. by rewrite app_assoc.
Qed.
End path.

(** ** Nearest publishers *)
Section sets.
Context (t : TMgraph G) (Hwf : tm_wf t) (pubs : gset bytes).

Definition vertex_of (n : bytes) : Z := default (-1) (reverse_node_index t !! n).
Definition known (n : bytes) : Prop := is_Some (reverse_node_index t !! n).
Definition hops (p s : bytes) : Z := distance (graph t) (vertex_of p) (vertex_of s).

(** The first of the nearest publishers, and how far it is *)
Definition closest (l : list bytes) (s : bytes) (acc : bytes * Z) : bytes * Z :=
  foldl (λ acc p, if acc.2 >? hops p s then (p, hops p s) else acc) acc l.

Definition server (s : bytes) : bytes := (closest (key_order pubs) s ([], UINT_MAX)).1.

Definition way (p s : bytes) : list bytes := route_lids (graph t) (vertex_of p) (vertex_of s).

(** A publisher that can reach the subscriber *)
Definition reachable (s : bytes) : Prop := ∃ p, p ∈ pubs ∧ hops p s < UINT_MAX.

Lemma known_vertex n : known n → reverse_node_index t !! n = Some (vertex_of n).
Proof. unfold vertex_of. by intros [v ->]. Qed.

Lemma closest_spec l s acc :
  let r := closest l s acc in
  (r = acc ∧ (∀ p, p ∈ l → acc.2 ≤ hops p s)) ∨
  (r.1 ∈ l ∧ r.2 = hops r.1 s ∧ r.2 < acc.2 ∧ ∀ p, p ∈ l → r.2 ≤ hops p s).
Proof.
  revert acc. induction l as [|p l IH]; intros acc; cbn [closest foldl].
  { left. split; [done|]. by intros ? ?%elem_of_nil. }
  fold (closest l s (if acc.2 >? hops p s then (p, hops p s) else acc)).
  destruct (Z.gtb_spec acc.2 (hops p s)) as [Hlt|Hle].
  - right. destruct (IH (p, hops p s)) as [[-> Hl]|(Hin & Heq & Hlt' & Hl)]; cbn [fst snd] in *.
    + split_and!; [left|done|done|]. intros q [->|Hq]%elem_of_cons; [done|by apply Hl].
    + split_and!; [by right|done|lia|]. intros q [->|Hq]%elem_of_cons; [lia|by apply Hl].
  - destruct (IH acc) as [[Hr Hl]|(Hin & Heq & Hlt' & Hl)].
    + left. split; [done|]. intros q [->|Hq]%elem_of_cons; [lia|by apply Hl].
    + right. split_and!; [by right|done|done|]. intros q [->|Hq]%elem_of_cons; [lia|by apply Hl].
Qed.

Lemma server_nearest s : reachable s →
  server s ∈ pubs ∧ ∀ p, p ∈ pubs → hops (server s) s ≤ hops p s.
Proof.
  intros (p & Hp & Hh). unfold server.
  destruct (closest_spec (key_order pubs) s ([], UINT_MAX)) as [[_ Hl]|(Hin & Heq & _ & Hl)].
  - specialize (Hl p (proj2 (elem_of_key_order p pubs) Hp)). cbn in Hl. lia.
  - split; [by apply elem_of_key_order|]. intros q Hq. rewrite <-Heq. apply Hl. by apply elem_of_key_order.
Qed.
(** The inner loop finds it; without a publisher that reaches the subscriber
    the best FID so far stays. *)
Definition chosen (s : bytes) (b0 b : Best) : Prop :=
  (∃ ss, carries (resultFID b) ss) ∧
  if decide (minimumNumberOfHops b = UINT_MAX)
  then bestNode b = bestNode b0 ∧ bestFID b = bestFID b0
  else carries (bestFID b) (way (bestNode b) s).

Lemma nearest_publisher_spec l s keep b0 : known s → (∀ p, p ∈ l → known p) →
  minimumNumberOfHops b0 = UINT_MAX → (∃ ss, carries (resultFID b0) ss) →
  ∃ b, nearest_publisher l s keep b0 t = Ok (b, t) ∧ chosen s b0 b ∧
    (bestNode b, minimumNumberOfHops b) = closest l s (bestNode b0, UINT_MAX).
Proof.
  intros Hs Hl Hmin Hres. unfold nearest_publisher.
  apply (fold_each_run l _ t (λ pre b, chosen s b0 b ∧
    (bestNode b, minimumNumberOfHops b) = closest pre s (bestNode b0, UINT_MAX))).
  - intros pre p post b Heq [((ss & Hc) & Hb) Hcl].
    assert (known p) as Hp by (apply Hl; rewrite Heq; apply elem_of_app; right; left).
    destruct (calculateFID_hops_spec t Hwf p s _ _ (known_vertex p Hp) (known_vertex s Hs)
      (clear (resultFID b)) [] [] (carries_clear _ _ Hc)) as (r & path & Hrun & Hr).
    rewrite (run_bind _ _ _ _ _ Hrun). eexists. split; [done|]. unfold closest. rewrite foldl_app.
    fold (closest pre s (bestNode b0, UINT_MAX)). rewrite <-Hcl. cbn [foldl fst snd better].
    fold (hops p s).
    destruct (Z.gtb_spec (minimumNumberOfHops b) (hops p s)) as [Hlt|Hle]; [|by repeat split; eauto].
    split; [|done]. split; [by eexists|]. cbn [minimumNumberOfHops bestNode bestFID].
    rewrite decide_False.
    + by apply carries_assign.
    + pose proof (wf_nodes t Hwf _ _ (known_vertex p Hp)) as (Hv & _).
      pose proof (wf_nodes t Hwf _ _ (known_vertex s Hs)) as (Hv' & _).
      intros Hu. assert (minimumNumberOfHops b ≤ UINT_MAX); [|lia].
      destruct (closest_spec pre s (bestNode b0, UINT_MAX)) as [[Hc1 _]|(_ & _ & Hc1 & _)];
        rewrite <-Hcl in Hc1; [injection Hc1 as _ ->; lia|]. cbn [snd] in Hc1. lia.
  - split; [|cbn [closest foldl]; congruence]. split; [done|]. by rewrite decide_True.
Qed.
(** A publisher that is close enough is found whatever was best before. *)
Lemma closest_start l s x y m : (∃ p, p ∈ l ∧ hops p s < m) → closest l s (x, m) = closest l s (y, m).
Proof.
  induction l as [|p l IH]; intros (q & Hq & Hlt); [by apply elem_of_nil in Hq|].
  cbn [closest foldl fst snd]. fold (closest l s). destruct (Z.gtb_spec m (hops p s)); [done|].
  apply IH. apply elem_of_cons in Hq as [->|Hq]; [lia|eauto].
Qed.

Lemma closest_server s x : reachable s →
  closest (key_order pubs) s (x, UINT_MAX) = (server s, hops (server s) s) ∧ hops (server s) s < UINT_MAX.
Proof.
  intros Hs. pose proof Hs as (p & Hp & Hh). rewrite (closest_start _ s x []).
  2:{ exists p. by rewrite elem_of_key_order. }
  unfold server. destruct (closest_spec (key_order pubs) s ([], UINT_MAX)) as [[_ Hl]|(_ & Heq & Hlt & _)].
  { specialize (Hl p (proj2 (elem_of_key_order p pubs) Hp)). cbn in Hl. lia. }
  cbn [snd] in Hlt. rewrite <-Heq. split; [|done]. by destruct (closest _ _ _).
Qed.

(** What a publisher sends to: the ways to the subscribers it serves *)
Definition branches (p : bytes) (l : list bytes) : list bytes :=
  filter (λ s, server s = p) l ≫= way p.

(** The result for publisher [p] once the subscribers [l] are served *)
Definition served (l : list bytes) (p : bytes) (o : option (option BABitvector)) : Prop :=
  match o with
  | Some (Some FID) => (∃ s, s ∈ l ∧ server s = p) ∧ carries FID (branches p l)
  | Some None => ∀ s, s ∈ l → server s ≠ p
  | None => False
  end.

Lemma served_other l s p o : server s ≠ p → served l p o → served (l ++ [s]) p o.
Proof.
  intros Hs. unfold served, branches. destruct o as [[F|]|]; [|set_solver|done].
  intros [(s' & Hin & Hs') HF]. split; [exists s'; set_solver|].
  rewrite filter_app, filter_cons_False, filter_nil, app_nil_r by done. done.
Qed.

Lemma branches_snoc l s : branches (server s) (l ++ [s]) = branches (server s) l ++ way (server s) s.
Proof.
  unfold branches. rewrite filter_app, filter_cons_True, filter_nil by done.
  rewrite bind_app. cbn. by rewrite app_nil_r.
Qed.

Lemma served_first l s F : (∀ s', s' ∈ l → server s' ≠ server s) → carries F (way (server s) s) →
  served (l ++ [s]) (server s) (Some (Some F)).
Proof.
  intros Hnone HF. split; [exists s; set_solver|]. rewrite branches_snoc. unfold branches.
  enough (filter (λ s', server s' = server s) l = []) as -> by done.
  apply elem_of_nil_inv. intros s' [Hs' Hin]%list_elem_of_filter. by eapply Hnone.
Qed.

Section subscribers.
Context (keep : bool) (Hpubs : ∀ p, p ∈ pubs → known p).

Notation near := (λ sub, nearest_publisher (key_order pubs) sub keep).

Definition so_far (l : list bytes)
    (acc : Best * gmap bytes (option BABitvector) * gmap bytes (gset bytes)) : Prop :=
  (∃ ss, carries (resultFID acc.1.1) ss) ∧ dom acc.1.2 = pubs ∧
  (∀ p, p ∈ pubs → served l p (acc.1.2 !! p)).

Lemma serve_reachable l s acc : known s → reachable s → so_far l acc →
  ∃ acc', serve_subscriber keep near s acc t = Ok (acc', t) ∧ so_far (l ++ [s]) acc' ∧
    bestNode acc'.1.1 = server s ∧ carries (bestFID acc'.1.1) (way (server s) s).
Proof.
  intros Hs Hreach. destruct acc as [[b0 result] paths]. intros (Hres & Hdom & Hsv). cbn [fst snd] in *.
  unfold serve_subscriber. destruct (nearest_publisher_spec (key_order pubs) s keep
    (with_minimum UINT_MAX b0) Hs) as (b & Hrun & [Hres' Hch] & Hcl); [|done|done|].
  { intros p Hp. by apply Hpubs, elem_of_key_order. }
  rewrite (run_bind _ _ _ _ _ Hrun). destruct (closest_server s (bestNode b0) Hreach) as [Hcs Hlt].
  cbn [with_minimum bestNode] in Hcl. rewrite Hcs in Hcl. injection Hcl as Hnode Hmin.
  rewrite Hmin, Hnode in Hch. rewrite decide_False in Hch by lia.
  destruct (server_nearest s Hreach) as [Hin _].
  assert (∃ result', add_best b result t = Ok (result', t) ∧ dom result' = pubs ∧
    ∀ p, p ∈ pubs → served (l ++ [s]) p (result' !! p)) as (result' & Hadd & Hdom' & Hsv').
  { pose proof (Hsv _ Hin) as Hserver. unfold add_best. rewrite Hnode.
    destruct (result !! server s) as [o|] eqn:Hlook; [|done].
    assert (∀ F, served (l ++ [s]) (server s) (Some (Some F)) →
      dom (<[server s := Some F]> result) = pubs ∧
      ∀ p, p ∈ pubs → served (l ++ [s]) p (<[server s := Some F]> result !! p)) as Hput.
    { intros F HF. split; [rewrite dom_insert_L; set_solver|]. intros p Hp.
      destruct (decide (server s = p)) as [<-|Hne]; [by rewrite lookup_insert_eq|].
      rewrite lookup_insert_ne by done. apply served_other; auto. }
    rewrite (run_bind _ _ _ _ _ (found_run _ _ _ t Hlook)). destruct o as [F|].
    - rewrite Hmin, (proj2 (Z.eqb_neq _ _)) by lia. destruct Hserver as [_ HF].
      destruct (or_into_run F (bestFID b) _ _ t HF Hch) as (r & Hr & Hcr).
      rewrite (run_bind _ _ _ _ _ Hr). eexists. split; [done|]. apply Hput. split; [exists s; set_solver|].
      by rewrite branches_snoc.
    - eexists. split; [done|]. apply Hput, served_first; [done|]. by apply carries_copy. }
  rewrite (run_bind _ _ _ _ _ Hadd). eexists. split; [done|]. cbn [fst snd]. by rewrite Hnode.
Qed.

(** A subscriber that nobody can reach *)
Lemma closest_unreachable s x : ¬ reachable s →
  closest (key_order pubs) s (x, UINT_MAX) = (x, UINT_MAX).
Proof.
  intros Hs. destruct (closest_spec (key_order pubs) s (x, UINT_MAX)) as [[-> _]|(Hin & Heq & Hlt & _)]; [done|].
  destruct Hs. eexists. split; [by apply elem_of_key_order, Hin|]. cbn [snd] in Hlt. by rewrite <-Heq.
Qed.

Lemma serve_unreachable s b0 result paths : known s → ¬ reachable s → (∃ ss, carries (resultFID b0) ss) →
  match result !! bestNode b0 with
  | Some _ => ∃ acc, serve_subscriber keep near s (b0, result, paths) t = Ok (acc, t) ∧
      acc.1.2 = <[bestNode b0 := Some (bv_copy (bestFID b0))]> result
  | None => serve_subscriber keep near s (b0, result, paths) t = Fault EndDeref
  end.
Proof.
  intros Hs Hun Hres. unfold serve_subscriber. destruct (nearest_publisher_spec (key_order pubs) s keep
    (with_minimum UINT_MAX b0) Hs) as (b & Hrun & [Hres' Hch] & Hcl); [|done|done|].
  { intros p Hp. by apply Hpubs, elem_of_key_order. }
  rewrite closest_unreachable in Hcl by done. injection Hcl as Hnode Hmin. cbn [with_minimum bestNode] in Hnode.
  rewrite Hmin, decide_True in Hch by done. destruct Hch as [_ HF]. cbn [with_minimum bestFID] in HF.
  rewrite (run_bind _ _ _ _ _ Hrun). unfold add_best. rewrite Hnode, Hmin, HF.
  destruct (result !! bestNode b0) as [o|] eqn:E.
  - eexists. unfold mbind, M_bind. rewrite (found_run _ _ _ t E). by destruct o.
  - unfold mbind, M_bind, found. by rewrite E.
Qed.

Lemma serve_all l acc : (∀ s, s ∈ l → known s ∧ reachable s) → so_far [] acc →
  ∃ acc', fold_each l (serve_subscriber keep near) acc t = Ok (acc', t) ∧ so_far l acc'.
Proof.
  intros Hl. apply (fold_each_run l _ t so_far). intros pre s post acc0 Heq Hacc.
  destruct (Hl s) as [Hk Hr]; [rewrite Heq; set_solver|].
  destruct (serve_reachable pre s acc0 Hk Hr Hacc) as (acc' & ? & ? & _). eauto.
Qed.
End subscribers.
End sets.
End fids.
