(* ===== verification/TMLinks.v ===== *)
(** * Links that come and go

    readTopology builds tables that agree with the graph ([tm_wf]), and
    updateGraph keeps them so while links fail and return. *)
From stdpp Require Import base list gmap sets strings.
From Stdlib Require Import ZArith Lia Bool.
From S2P Require Import Prelude Enums Bitvector GlobalConf Containers LibBitvector Igraph Forwarder TMGraph TMPaths.

Local Open Scope Z_scope.

Lemma elem_of_snoc {A : Type} (l : list A) x y : x ∈ l ++ [y] ↔ x ∈ l ∨ x = y.
Proof. set_solver. Qed.

Section links.
Context {G : Type} `{IgraphLaws G} (memory : nat → list Z) (Hmem : words_of memory).

(** A graph whose identifiers are well formed *)
Definition lids_ok (g : G) : Prop := ∀ l, l ∈ links g → lid_string l.2.

Record graph_ok (g : G) : Prop := {
  ok_links : lids_ok g;
  ok_nodes v : is_vertex g v → lid_string (igraph_VAS g iLID v);
}.

Lemma links_lookup (g : G) e : (e < igraph_ecount g)%nat →
  links g !! e = Some (igraph_edge g e, igraph_EAS g e).
Proof. intros He. unfold links. by rewrite list_lookup_fmap, lookup_seq_lt. Qed.

Lemma length_links (g : G) : length (links g) = igraph_ecount g.
Proof. unfold links. by rewrite length_fmap, length_seq. Qed.

Lemma EAS_lid (g : G) e : lids_ok g → (e < igraph_ecount g)%nat → lid_string (igraph_EAS g e).
Proof. intros Hg He. eapply (Hg (_, _)), list_elem_of_lookup_2, links_lookup, He. Qed.

(** The table of edges is that of the graph. *)
Definition edges_of (g : G) (el : gmap Z BABitvector) : Prop :=
  ∀ e, (e < igraph_ecount g)%nat → ∃ b, el !! Z.of_nat e = Some b ∧ carries b [igraph_EAS g e].

Lemma edge_states_run rei (t : TMgraph G) : lids_ok (graph t) →
  ∃ rei' el, edge_states memory rei ∅ t = Ok (tt, set_edges rei' el t) ∧ edges_of (graph t) el.
Proof.
  intros Hg. unfold edge_states, mbind at 1, M_bind at 1. cbn [get].
  destruct (fold_each_run (seq 0 (igraph_ecount (graph t))) (add_edge_state memory) t (λ pre acc,
    (∀ e, e ∈ pre → is_Some (acc.2 !! Z.of_nat e)) ∧
    ∀ k b, acc.2 !! k = Some b → ∃ e, k = Z.of_nat e ∧ carries b [igraph_EAS (graph t) e]) (rei, ∅))
    as ([rei' el] & Hrun & Hall & Hel).
  - intros pre i post [r el] Heq [Hpre Hel]. cbn [snd] in *.
    assert (i < igraph_ecount (graph t))%nat as Hi.
    { assert (i ∈ seq 0 (igraph_ecount (graph t))) as Hin by (rewrite Heq; set_solver).
      apply elem_of_seq in Hin. lia. }
    destruct (bv_of_string_lid memory _ Hmem (EAS_lid (graph t) i Hg Hi)) as (b & Hb & Hc).
    eexists. split.
    + unfold add_edge_state, mbind, M_bind. cbn [get]. rewrite Hb. done.
    + cbn [snd]. unfold add_new. destruct (el !! Z.of_nat i) as [b'|] eqn:E.
      * split; [|done]. intros e [He| ->]%elem_of_snoc; [by apply Hpre|by eexists].
      * split.
        -- intros e [He| ->]%elem_of_snoc; [|by rewrite lookup_insert_eq].
           rewrite lookup_insert_is_Some'. right. by apply Hpre.
        -- intros k b' [[<- <-]|[_ Hk]]%lookup_insert_Some; [by exists i|by apply Hel].
  - split; [by intros e ?%elem_of_nil|]. cbn [snd]. intros k b. by rewrite lookup_empty.
  - rewrite (run_bind _ _ _ _ _ Hrun). exists rei', el. split; [done|]. intros e He.
    destruct (Hall e) as [b Hb]; [apply elem_of_seq; lia|]. exists b. split; [done|].
    destruct (Hel _ _ Hb) as (e' & He' & Hc). by replace e with e' by lia.
Qed.

(** ** The initial tables *)

(** What the loop over the vertices keeps *)
Definition nodes_read (g : G) (ext : list bool) (t : TMgraph G) : Prop :=
  graph t = g ∧ extension t = ext ∧ edge_LID t = ∅ ∧
  (∀ n, is_Some (nodeID_iLID t !! n) → is_Some (reverse_node_index t !! n)) ∧
  (∀ n v, reverse_node_index t !! n = Some v → is_vertex g v ∧ igraph_VAS g NODEID v = n ∧
     ∃ b, nodeID_iLID t !! n = Some b ∧ carries b [igraph_VAS g iLID v]).

Lemma add_node_wp g ext i t : graph_ok g → (i < igraph_vcount g)%nat → nodes_read g ext t →
  wp no_fault (add_node_state memory i) (λ _ t', nodes_read g ext t') t.
Proof.
  intros Hg Hi (Hgr & Hext & Hel & Hdom & Hn).
  assert (is_vertex g (Z.of_nat i)) as Hv by (unfold is_vertex; lia).
  destruct (bv_of_string_lid memory _ Hmem (ok_nodes g Hg _ Hv)) as (b & Hb & Hc).
  unfold add_node_state. apply wp_bind, wp_get. rewrite Hgr, Hb. apply wp_bind, wp_ret, wp_bind.
  do 2 apply wp_modify. split_and!; [done..| |].
  - cbn. intros n. unfold add_new. set (nID := igraph_VAS g NODEID (Z.of_nat i)).
    destruct (nodeID_iLID t !! nID) eqn:E1, (reverse_node_index t !! nID) eqn:E2;
      rewrite ?lookup_insert_is_Some; intros Hd;
      (destruct (decide (nID = n)) as [<-|]; [rewrite ?E2; eauto|]); try naive_solver.
  - cbn. intros n v. unfold add_new. set (nID := igraph_VAS g NODEID (Z.of_nat i)).
    destruct (reverse_node_index t !! nID) as [v'|] eqn:E2.
    + intros Hv'. destruct (Hn n v Hv') as (? & ? & b' & Hb' & ?). split_and!; [done..|].
      exists b'. destruct (nodeID_iLID t !! nID) eqn:E1; [done|].
      destruct (Hn nID v' E2) as (_ & _ & b2 & Hb2 & _). congruence.
    + destruct (nodeID_iLID t !! nID) eqn:E1.
      { destruct (Hdom nID ltac:(eauto)) as [? ?]. congruence. }
      intros [[<- <-]|[Hne Hv']]%lookup_insert_Some.
      * split_and!; [done..|]. exists b. by rewrite lookup_insert_eq.
      * destruct (Hn n v Hv') as (? & ? & b' & Hb' & ?). split_and!; [done..|].
        exists b'. by rewrite lookup_insert_ne.
Qed.

Lemma read_lines_frame lines (t : TMgraph G) :
  let t' := foldl (λ t str, read_line str t) t lines in
  extension t' = extension t ∧ edge_LID t' = edge_LID t ∧ nodeID_iLID t' = nodeID_iLID t ∧
  reverse_node_index t' = reverse_node_index t.
Proof. revert t. induction lines as [|l lines IH]; intros t; [done|]. apply (IH (read_line l t)). Qed.

(** The topology manager starts with consistent tables. *)
Lemma readTopology_wf lines g g0 : graph_ok g →
  ∃ t, readTopology memory (Some lines) (Some g) (new_TMgraph g0) = Ok (0, t) ∧ tm_wf t ∧ graph t = g ∧
    ∀ n v, reverse_node_index t !! n = Some v → igraph_VAS g NODEID v = n.
Proof.
  intros Hg. destruct (read_lines_frame lines (new_TMgraph g0)) as (He & Hl & Hi & Hr).
  set (t0 := foldl _ _ _) in *. unfold readTopology.
  rewrite (run_bind _ _ _ tt t0 eq_refl), (run_bind _ _ _ g t0 eq_refl), (run_bind _ _ _ tt (set_graph g t0) eq_refl).
  destruct (wp_total _ _ _ (wp_for_each_inv no_fault (seq 0 (igraph_vcount g)) (add_node_state memory)
    (nodes_read g (extension t0)) (set_graph g t0) ltac:(split_and!; cbn; rewrite ?He, ?Hl, ?Hi, ?Hr; try done; by intros ? [])
    ltac:(intros a s' Ha%elem_of_seq Hs; apply add_node_wp; [done|lia|done])))
    as ([] & t1 & Hrun & Hgr & Hext & Hel & Hdom & Hn).
  rewrite (run_bind _ _ _ _ _ Hrun). rewrite (run_bind _ _ t1 t1 t1 eq_refl). rewrite Hel.
  destruct (edge_states_run (reverse_edge_index t1) t1) as (rei & el & Hes & Hedges); [rewrite Hgr; apply Hg|].
  rewrite (run_bind _ _ _ _ _ Hes). eexists. split; [done|]. cbn. split_and!; [|done|].
  - constructor; cbn; rewrite Hgr in *.
    + rewrite Hext, He. done.
    + apply Hg.
    + intros n v Hv. destruct (Hn n v Hv) as (? & _ & ?). split_and!; [done|by apply Hg|done].
    + done.
  - intros n v Hv. by apply (Hn n v).
Qed.

(** ** The FIDs to and from the topology manager *)

Lemma wf_fids (t : TMgraph G) rv tm nd : tm_wf t → tm_wf (set_fids rv tm nd t).
Proof. intros []. by constructor. Qed.

(** The identifiers on the way between two nodes, none if there is no way *)
Definition way_between (t : TMgraph G) (a b : bytes) : list bytes :=
  if decide (route (graph t) (vertex_of t a) (vertex_of t b) = []) then []
  else route_lids (graph t) (vertex_of t a) (vertex_of t b).

Lemma calculateFID_way (t : TMgraph G) rv tm nd a b : tm_wf t → known t a → known t b →
  ∃ F, calculateFID a b (set_fids rv tm nd t) = Ok (F, set_fids rv tm nd t) ∧ carries F (way_between t a b).
Proof.
  intros Hwf Ha Hb. apply (calculateFID_spec (set_fids rv tm nd t) (wf_fids t rv tm nd Hwf) a b
    (vertex_of t a) (vertex_of t b) (known_vertex t a Ha) (known_vertex t b Hb)).
Qed.

(** The entries of a table of FIDs *)
Definition fid_entry (m : gmap bytes (option BABitvector)) (n : bytes) (ss : list bytes) : Prop :=
  ∃ F, m !! n = Some (Some F) ∧ carries F ss.

Lemma calculateRVTMFIDs_run (t : TMgraph G) : tm_wf t → known t (RVnodeID t) → known t (tm_nodeID t) →
  ∃ rv tm nd, calculateRVTMFIDs t = Ok (tt, set_fids rv tm nd t) ∧
  (∀ n, known t n → fid_entry rv n (way_between t n (RVnodeID t)) ∧
    fid_entry tm n (way_between t n (tm_nodeID t)) ∧ fid_entry nd n (way_between t (tm_nodeID t) n)) ∧
  ∀ n, ¬ known t n → nd !! n = TM_to_nodeFID t !! n.
Proof.
  intros Hwf Hrv Htm. unfold calculateRVTMFIDs, mbind at 1, M_bind at 1. cbn [get].
  assert (∀ l rv tm nd, NoDup l → (∀ n, n ∈ l → known t n) → ∃ rv' tm' nd',
    for_each l node_FIDs (set_fids rv tm nd t) = Ok (tt, set_fids rv' tm' nd' t) ∧
    (∀ n, n ∉ l → rv' !! n = rv !! n ∧ tm' !! n = tm !! n ∧ nd' !! n = nd !! n) ∧
    (∀ n, n ∈ l → fid_entry rv' n (way_between t n (RVnodeID t)) ∧
      fid_entry tm' n (way_between t n (tm_nodeID t)) ∧ fid_entry nd' n (way_between t (tm_nodeID t) n))) as Hloop.
  { induction l as [|n l IH]; intros rv tm nd Hnd Hl; cbn [for_each].
    { exists rv, tm, nd. split; [done|]. split; [done|]. by intros ? ?%elem_of_nil. }
    apply NoDup_cons in Hnd as [Hn Hnd]. assert (known t n) as Hk by (apply Hl; left).
    destruct (calculateFID_way t rv tm nd n (RVnodeID t) Hwf Hk Hrv) as (F1 & H1 & HF1).
    destruct (calculateFID_way t (<[n := Some F1]> rv) tm nd n (tm_nodeID t) Hwf Hk Htm) as (F2 & H2 & HF2).
    destruct (calculateFID_way t (<[n := Some F1]> rv) (<[n := Some F2]> tm) nd (tm_nodeID t) n Hwf Htm Hk) as (F3 & H3 & HF3).
    destruct (IH (<[n := Some F1]> rv) (<[n := Some F2]> tm) (<[n := Some F3]> nd) Hnd) as (rv' & tm' & nd' & Hrun & Hout & Hin).
    { intros m Hm. apply Hl. by right. }
    exists rv', tm', nd'. split_and!.
    - rewrite (run_bind _ _ _ tt (set_fids (<[n := Some F1]> rv) (<[n := Some F2]> tm) (<[n := Some F3]> nd) t)); [done|].
      unfold node_FIDs. unfold mbind at 1, M_bind at 1. cbn [get].
      change (RVnodeID (set_fids rv tm nd t)) with (RVnodeID t). rewrite (run_bind _ _ _ _ _ H1).
      rewrite (run_bind _ _ _ tt (set_fids (<[n := Some F1]> rv) tm nd t)) by done.
      change (tm_nodeID (set_fids rv tm nd t)) with (tm_nodeID t). rewrite (run_bind _ _ _ _ _ H2).
      rewrite (run_bind _ _ _ tt (set_fids (<[n := Some F1]> rv) (<[n := Some F2]> tm) nd t)) by done.
      by rewrite (run_bind _ _ _ _ _ H3).
    - intros m [Hne Hm]%not_elem_of_cons. destruct (Hout m Hm) as (-> & -> & ->). by rewrite !lookup_insert_ne by done.
    - intros m [->|Hm]%elem_of_cons; [|by apply Hin]. destruct (Hout n Hn) as (E1 & E2 & E3).
      rewrite lookup_insert_eq in E1, E2, E3. split_and!; eexists; eauto. }
  destruct (Hloop (key_order (dom (reverse_node_index t))) (RVFID t) (TMFID t) (TM_to_nodeFID t))
    as (rv & tm & nd & Hrun & Hout & Hin).
  - apply NoDup_key_order.
  - intros n Hn%elem_of_key_order. by apply elem_of_dom.
  - exists rv, tm, nd. split; [by destruct t|].
    split; intros n Hn; [apply Hin|apply Hout]; rewrite elem_of_key_order; by rewrite elem_of_dom.
Qed.

(** ** Failing links *)

Lemma wf_relinked (t : TMgraph G) rei el fr g : tm_wf t → same_nodes (graph t) g → lids_ok g →
  edges_of g el → tm_wf (set_edges rei el (set_graph g (set_freed fr t))).
Proof.
  intros Hwf [Hv Ha] Hl He. constructor; cbn; [apply Hwf|done| |done].
  intros n v Hn. destruct (wf_nodes t Hwf n v Hn) as (H1 & H2 & H3). rewrite Ha.
  split_and!; [|done..]. unfold is_vertex in *. by rewrite Hv.
Qed.

(** The identifier of the edge between two vertices *)
Definition link_of (g : G) (p : Z * Z) : bytes := default [] (igraph_EAS g <$> igraph_get_eid g p.1 p.2).

Lemma link_of_link (g : G) p : adjacent g p.1 p.2 → (p, link_of g p) ∈ links g.
Proof.
  destruct p as [u v]. intros (e & He & Hlt & Hedge)%adjacent_eid. unfold link_of. cbn [fst snd] in *.
  rewrite He. cbn. rewrite <-Hedge. by eapply list_elem_of_lookup_2, links_lookup.
Qed.

Lemma eid_adjacent (g : G) u v e : igraph_get_eid g u v = Some e → adjacent g u v.
Proof.
  intros [Hlt Hed]%get_eid_found. unfold adjacent. apply list_elem_of_fmap.
  exists (igraph_edge g e, igraph_EAS g e). split; [by rewrite Hed|]. by eapply list_elem_of_lookup_2, links_lookup.
Qed.

(** In a graph without parallel edges a link has one identifier. *)
Lemma simple_unique (g : G) p s s' : simple g → (p, s) ∈ links g → (p, s') ∈ links g → s = s'.
Proof.
  intros Hs (i & Hi)%list_elem_of_lookup (j & Hj)%list_elem_of_lookup.
  assert (i = j) as ->; [|congruence]. unfold simple in Hs.
  apply (NoDup_lookup _ _ _ p Hs); by rewrite list_lookup_fmap, ?Hi, ?Hj.
Qed.

Section update.
Context (t : TMgraph G) (Hwf : tm_wf t) (Hsimple : simple (graph t)).

Lemma eids_run ps : eids_of ps t = Ok ((λ p, match igraph_get_eid (graph t) p.1 p.2 with
  | Some e => Z.of_nat e | None => -1 end) <$> ps, t).
Proof. done. Qed.

(** keep_LID puts aside the identifier of an edge. *)
Lemma keep_LID_run fr i eids e p : eids !! i = Some (Z.of_nat e) → (e < igraph_ecount (graph t))%nat →
  ∃ lid, carries lid [igraph_EAS (graph t) e] ∧
    keep_LID eids (i, p) (set_freed fr t) = Ok (tt, set_freed (add_new p lid fr) t).
Proof.
  intros Hi He. destruct (wf_edges t Hwf e He) as (lid & Hlid & Hc). exists lid. split; [done|].
  unfold keep_LID, vec_at, mbind, M_bind. cbn [fst snd]. rewrite Hi. cbn. unfold found. by rewrite Hlid.
Qed.

(** The edges go and the tables are made anew. *)
Lemma delete_run fr ps : (∀ u v, (u, v) ∈ ps → adjacent (graph t) u v) →
  ∃ rei el g, igraph_delete_edges (graph t) ps = Some g ∧
    updateTMStates memory (set_graph g (set_freed fr t)) = Ok (tt, set_edges rei el (set_graph g (set_freed fr t))) ∧
    same_nodes (graph t) g ∧ links g ≡ₚ filter (λ l, l.1 ∉ ps) (links (graph t)) ∧ simple g ∧
    tm_wf (set_edges rei el (set_graph g (set_freed fr t))).
Proof.
  intros Hall. destruct (delete_edges_links (graph t) ps Hsimple Hall) as (g & Hg & Hnodes & Hlinks).
  assert (lids_ok g) as Hlids.
  { intros l Hl. rewrite Hlinks in Hl. apply list_elem_of_filter in Hl as [_ Hl]. by apply (wf_links t Hwf). }
  destruct (edge_states_run ∅ (set_graph g (set_freed fr t)) Hlids) as (rei & el & Hrun & Hel).
  exists rei, el, g. split_and!; [done|done|done|done| |by apply wf_relinked].
  unfold simple. rewrite Hlinks. eapply sublist_NoDup; [exact Hsimple|apply fmap_sublist, sublist_filter].
Qed.

(** The ends of the link, in the directions that are affected *)
Definition ends (bidirectional : bool) (u v : Z) : list (Z * Z) :=
  if bidirectional then [(u, v); (v, u)] else [(u, v)].

(** A link that fails *)
Lemma updateGraph_remove harmless src dst bid u v :
  reverse_node_index t !! src = Some u → reverse_node_index t !! dst = Some v →
  (∀ p, p ∈ ends bid u v → adjacent (graph t) p.1 p.2 ∧ freedLIDs t !! p = None) → u ≠ v →
  ∃ rei el g fr, updateGraph memory harmless src dst bid true t
      = Ok (true, set_edges rei el (set_graph g (set_freed fr t))) ∧
    same_nodes (graph t) g ∧ links g ≡ₚ filter (λ l, l.1 ∉ ends bid u v) (links (graph t)) ∧ simple g ∧
    tm_wf (set_edges rei el (set_graph g (set_freed fr t))) ∧
    (∀ p, p ∈ ends bid u v → ∃ lid, fr !! p = Some lid ∧ carries lid [link_of (graph t) p]) ∧
    (∀ p, p ∉ ends bid u v → fr !! p = freedLIDs t !! p).
Proof.
  intros Hu Hv Hall Huv. unfold updateGraph, mbind at 1, M_bind at 1. cbn [get].
  rewrite (run_bind _ _ _ _ _ (found_run _ _ _ t Hu)), (run_bind _ _ _ _ _ (found_run _ _ _ t Hv)).
  fold (ends bid u v). rewrite (run_bind _ _ _ _ _ (eids_run (ends bid u v))).
  destruct (Hall (u, v)) as [Huadj Hufree]; [destruct bid; left|]. cbn [fst snd] in Huadj.
  destruct (adjacent_eid _ _ _ Huadj) as (e & He & Hlt & _). set (eids := _ <$> ends bid u v).
  assert (eids !! 0%nat = Some (Z.of_nat e)) as H0e by (unfold eids; destruct bid; cbn; by rewrite He).
  rewrite (run_bind _ _ t (Z.of_nat e) t); [|unfold vec_at; by rewrite H0e].
  rewrite Z.gtb_ltb, (proj2 (Z.ltb_lt _ _)) by lia. cbn [andb].
  destruct (keep_LID_run (freedLIDs t) 0 eids e (u, v) H0e Hlt) as (lid & Hlid & Hkeep).
  replace (set_freed (freedLIDs t) t) with t in Hkeep by (by destruct t).
  rewrite (run_bind _ _ _ _ _ Hkeep). unfold add_new. rewrite Hufree.
  assert (∃ fr, (if bid then keep_LID eids (1%nat, (v, u)) else mret tt) (set_freed (<[(u, v) := lid]> (freedLIDs t)) t)
      = Ok (tt, set_freed fr t) ∧
    (∀ p, p ∈ ends bid u v → ∃ lid, fr !! p = Some lid ∧ carries lid [link_of (graph t) p]) ∧
    (∀ p, p ∉ ends bid u v → fr !! p = freedLIDs t !! p)) as (fr & Hfr & Hin & Hout).
  { assert (carries lid [link_of (graph t) (u, v)]) as Hl by (unfold link_of; cbn; by rewrite He).
    destruct bid; cbn [ends] in *.
    - destruct (Hall (v, u)) as [Hvadj Hvfree]; [right; left|]. cbn [fst snd] in Hvadj.
      destruct (adjacent_eid _ _ _ Hvadj) as (e' & He' & Hlt' & _).
      destruct (keep_LID_run (<[(u, v) := lid]> (freedLIDs t)) 1 eids e' (v, u)) as (lid' & Hlid' & Hkeep');
        [unfold eids; cbn; by rewrite He'|done|].
      eexists. split; [exact Hkeep'|]. unfold add_new. rewrite lookup_insert_ne, Hvfree by congruence. split.
      + intros p [->|[->|[]%elem_of_nil]%elem_of_cons]%elem_of_cons.
        * exists lid. by rewrite lookup_insert_ne, lookup_insert_eq by congruence.
        * exists lid'. rewrite lookup_insert_eq. unfold link_of; cbn; by rewrite He'.
      + intros p Hp. rewrite !lookup_insert_ne; set_solver.
    - eexists. split; [done|]. split.
      + intros p ->%list_elem_of_singleton. exists lid. by rewrite lookup_insert_eq.
      + intros p Hp. rewrite lookup_insert_ne; set_solver. }
  rewrite (run_bind _ _ _ _ _ Hfr). rewrite (run_bind _ _ _ (set_freed fr t) (set_freed fr t) eq_refl).
  destruct (delete_run fr (ends bid u v)) as (rei & el & g & Hdel & Hup & Hsame & Hlinks & Hs & Hwf').
  { intros a b Hab. by apply (Hall (a, b)). }
  change (graph (set_freed fr t)) with (graph t). rewrite Hdel.
  rewrite (run_bind _ _ _ g (set_freed fr t) eq_refl), (run_bind _ _ _ tt (set_graph g (set_freed fr t)) eq_refl).
  rewrite (run_bind _ _ _ _ _ Hup). exists rei, el, g, fr. split_and!; done.
Qed.

(** The identifier that was put aside for a link *)
Definition kept (p : Z * Z) : bytes := default [] (to_string <$> freedLIDs t !! p).

(** The edge found between two vertices is where it is in the list. *)
Lemma eid_position (g : G) i p s : simple g → links g !! i = Some (p, s) →
  igraph_get_eid g p.1 p.2 = Some i ∧ (i < igraph_ecount g)%nat.
Proof.
  intros Hs Hi. pose proof (lookup_lt_Some _ _ _ Hi) as Hlt. rewrite length_links in Hlt. split; [|done].
  destruct p as [u v]. destruct (adjacent_eid g u v) as (e & He & Hle & Hedge).
  { unfold adjacent. apply list_elem_of_fmap. exists (u, v, s). split; [done|]. by eapply list_elem_of_lookup_2. }
  cbn [fst snd]. rewrite He. f_equal. apply (NoDup_lookup _ _ _ (u, v) Hs); rewrite list_lookup_fmap.
  - rewrite links_lookup by done. cbn. by rewrite Hedge.
  - by rewrite Hi.
Qed.

Lemma restore_run t' i eids e p lid : eids !! i = Some (Z.of_nat e) → (e < igraph_ecount (graph t'))%nat →
  restore_LID eids (i, p) lid t' = Ok (tt, set_freed (delete p (freedLIDs t'))
    (set_graph (igraph_EAS_set (graph t') e (to_string lid)) t')).
Proof.
  intros Hi He. unfold restore_LID, vec_at, mbind, M_bind. cbn [fst snd]. rewrite Hi. unfold set_EAS, mbind, M_bind, mret, M_ret.
  cbn [get]. rewrite (proj2 (Z.leb_le _ _)), (proj2 (Z.ltb_lt _ _)), Nat2Z.id by lia. done.
Qed.

(** Setting the identifier of the last edges that were added *)
Lemma EAS_set_at (g : G) L p s R s' : links g = L ++ (p, s) :: R →
  same_nodes g (igraph_EAS_set g (length L) s') ∧
  links (igraph_EAS_set g (length L) s') = L ++ (p, s') :: R.
Proof.
  intros HL. assert (length L < igraph_ecount g)%nat.
  { rewrite <-length_links, HL, length_app. cbn. lia. }
  destruct (EAS_set_links g (length L) s') as [Hn Hl]; [done|]. split; [done|].
  rewrite Hl, HL. by rewrite alter_app_r_alt, Nat.sub_diag by lia.
Qed.

Lemma same_nodes_trans (g1 g2 g3 : G) : same_nodes g1 g2 → same_nodes g2 g3 → same_nodes g1 g3.
Proof. intros [H1 H2] [H3 H4]. split; [congruence|]. intros. by rewrite H4, H2. Qed.

Lemma add_edges_simple bid u v : u ≠ v → is_vertex (graph t) u → is_vertex (graph t) v →
  (∀ p, p ∈ ends bid u v → ¬ adjacent (graph t) p.1 p.2) →
  let g1 := igraph_add_edges (graph t) (ends bid u v) in
  same_nodes (graph t) g1 ∧ links g1 = links (graph t) ++ ((λ p, (p, [])) <$> ends bid u v) ∧ simple g1.
Proof.
  intros Huv Hu Hv Hall g1. destruct (add_edges_links (graph t) (ends bid u v)) as [Hn1 Hl1].
  { intros a b Hab. destruct bid; set_solver. }
  split_and!; [done..|]. unfold simple, g1. rewrite Hl1, fmap_app, <-list_fmap_compose.
  change (fst ∘ λ p : Z * Z, (p, [] : bytes)) with (λ p : Z * Z, p). rewrite list_fmap_id.
  apply NoDup_app. split_and!; [done| |].
  - intros [a b] Hab Hin. by apply (Hall _ Hin).
  - destruct bid; cbn [ends]; repeat constructor; rewrite ?list_elem_of_singleton; set_solver.
Qed.

Lemma fmap_same_keys (f h : Z * Z → bytes) (l : list (Z * Z)) :
  ((λ p, (p, f p)) <$> l).*1 = ((λ p, (p, h p)) <$> l).*1.
Proof. rewrite <-!list_fmap_compose. done. Qed.

(** A link that returns *)
Lemma updateGraph_add harmless src dst bid u v :
  reverse_node_index t !! src = Some u → reverse_node_index t !! dst = Some v →
  (∀ p, p ∈ ends bid u v → ¬ adjacent (graph t) p.1 p.2 ∧ is_Some (freedLIDs t !! p) ∧ lid_string (kept p)) →
  u ≠ v →
  ∃ rei el g, let t' := set_edges rei el (set_graph g
      (set_freed (foldl (λ m p, delete p m) (freedLIDs t) (ends bid u v)) t)) in
    updateGraph memory harmless src dst bid false t = (if harmless then Ok (true, t') else Fault Uninitialised) ∧
    same_nodes (graph t) g ∧ links g = links (graph t) ++ ((λ p, (p, kept p)) <$> ends bid u v) ∧
    simple g ∧ tm_wf t'.
Proof.
  intros Hu Hv Hall Huv.
  destruct (wf_nodes t Hwf _ _ Hu) as (Hvu & _). destruct (wf_nodes t Hwf _ _ Hv) as (Hvv & _).
  unfold updateGraph, mbind at 1, M_bind at 1. cbn [get].
  rewrite (run_bind _ _ _ _ _ (found_run _ _ _ t Hu)), (run_bind _ _ _ _ _ (found_run _ _ _ t Hv)).
  fold (ends bid u v). rewrite (run_bind _ _ _ _ _ (eids_run (ends bid u v))).
  destruct (Hall (u, v)) as (Hnadj & [lid Hlid] & Hkept); [destruct bid; left|]. cbn [fst snd] in Hnadj.
  set (eids := _ <$> ends bid u v). assert (eids !! 0%nat = Some (-1)) as H0e.
  { unfold eids. destruct (igraph_get_eid (graph t) u v) as [e|] eqn:E; [|destruct bid; cbn; by rewrite E].
    by apply eid_adjacent in E. }
  rewrite (run_bind _ _ t (-1) t); [|unfold vec_at; by rewrite H0e]. change (-1 >? -1) with false. cbn [andb negb].
  set (g1 := igraph_add_edges (graph t) (ends bid u v)).
  destruct (add_edges_simple bid u v Huv Hvu Hvv) as (Hn1 & Hl1 & Hs1); [intros p Hp; by apply Hall|].
  fold g1 in Hn1, Hl1, Hs1. rewrite (run_bind _ _ t tt (set_graph g1 t) eq_refl).
  rewrite (run_bind _ _ _ (set_graph g1 t) (set_graph g1 t) eq_refl).
  change (freedLIDs (set_graph g1 t)) with (freedLIDs t).
  rewrite (run_bind _ _ _ _ _ (found_run _ _ _ (set_graph g1 t) Hlid)).
  set (t1 := set_graph g1 t). set (new := (λ p, match igraph_get_eid g1 p.1 p.2 with
    | Some e => Z.of_nat e | None => -1 end) <$> ends bid u v).
  rewrite (run_bind _ _ t1 new t1 eq_refl). set (L := links (graph t)) in *.
  destruct (eid_position g1 (length L) (u, v) [] Hs1) as [He0 Hlt0].
  { rewrite Hl1, lookup_app_r, Nat.sub_diag by lia. by destruct bid. }
  cbn [fst snd] in He0. assert (kept (u, v) = to_string lid) as Hk by (unfold kept; by rewrite Hlid).
  rewrite (run_bind _ _ _ _ _ (restore_run t1 0 new (length L) (u, v) lid
    ltac:(unfold new; destruct bid; cbn; by rewrite He0) Hlt0)).
  change (graph t1) with g1. set (g2 := igraph_EAS_set g1 (length L) (to_string lid)).
  change (set_freed (delete (u, v) (freedLIDs t1)) (set_graph g2 t1))
    with (set_graph g2 (set_freed (delete (u, v) (freedLIDs t)) t)).
  set (t2 := set_graph g2 _).
  assert (∃ g3, (if bid then
       t ← get;
       lid ← found (freedLIDs t) (v, u);
       restore_LID new (1%nat, (v, u)) lid
     else mret tt) t2 = Ok (tt, set_graph g3 (set_freed (foldl (λ m p, delete p m) (freedLIDs t) (ends bid u v)) t)) ∧
    same_nodes g1 g3 ∧ links g3 = L ++ ((λ p, (p, kept p)) <$> ends bid u v)) as (g3 & Hrest & Hn3 & Hl3).
  { destruct bid; cbn [ends foldl fmap list_fmap] in *; rewrite Hk.
    - destruct (EAS_set_at g1 L (u, v) [] [((v, u), [])] (to_string lid) Hl1) as [Hn2 Hl2]. fold g2 in Hn2, Hl2.
      destruct (Hall (v, u)) as (_ & [lid' Hlid'] & _); [right; left|].
      assert (kept (v, u) = to_string lid') as -> by (unfold kept; by rewrite Hlid').
      destruct (eid_position g1 (S (length L)) (v, u) [] Hs1) as [He1 Hlt1].
      { rewrite Hl1, lookup_app_r by lia. by replace (S (length L) - length L)%nat with 1%nat by lia. }
      cbn [fst snd] in He1.
      destruct (EAS_set_at g2 (L ++ [((u, v), to_string lid)]) (v, u) [] [] (to_string lid')) as [Hn3 Hl3].
      { by rewrite Hl2, <-app_assoc. }
      rewrite length_app in Hn3, Hl3. cbn [length] in Hn3, Hl3. rewrite Nat.add_1_r in Hn3, Hl3.
      rewrite (run_bind _ _ t2 t2 t2 eq_refl).
      assert (freedLIDs t2 !! (v, u) = Some lid') as Hl' by (cbn; rewrite lookup_delete_ne by congruence; done).
      rewrite (run_bind _ _ _ _ _ (found_run _ _ _ t2 Hl')).
      exists (igraph_EAS_set g2 (S (length L)) (to_string lid')). split; [|split].
      + apply (restore_run t2 1 new (S (length L))).
        * unfold new. cbn. by rewrite He1.
        * change (graph t2) with g2. rewrite <-length_links, Hl2, length_app. cbn. lia.
      + by eapply same_nodes_trans.
      + rewrite Hl3, <-app_assoc. done.
    - exists g2. split; [done|]. by apply (EAS_set_at g1 L (u, v) [] [] (to_string lid)). }
  rewrite (run_bind _ _ _ _ _ Hrest). set (t3 := set_graph g3 _).
  assert (lids_ok g3) as Hlids.
  { intros l. rewrite Hl3. intros [Hl|Hl]%elem_of_app; [by apply (wf_links t Hwf)|].
    apply list_elem_of_fmap in Hl as (p & -> & Hp). by apply Hall. }
  destruct (edge_states_run ∅ t3 Hlids) as (rei & el & Hup & Hel).
  rewrite (run_bind _ _ _ _ _ Hup). exists rei, el, g3. split_and!; [by destruct harmless| |done| |].
  - by eapply same_nodes_trans.
  - unfold simple. rewrite Hl3. unfold simple in Hs1. rewrite Hl1 in Hs1. rewrite fmap_app in *.
    by rewrite (fmap_same_keys kept (λ _, [])).
  - apply wf_relinked; [done| |done|done]. by eapply same_nodes_trans.
Qed.
End update.
End links.

(** The links that stay and those that go are all the links. *)
Lemma links_split {G : Type} `{IgraphLaws G} (g : G) ps : simple g → NoDup ps →
  (∀ p, p ∈ ps → adjacent g p.1 p.2) →
  filter (λ l, l.1 ∉ ps) (links g) ++ ((λ p, (p, link_of g p)) <$> ps) ≡ₚ links g.
Proof.
  intros Hs Hnd Hadj. assert (NoDup (links g)) as Hl by (by eapply NoDup_fmap_1).
  apply NoDup_Permutation; [|done|].
  - apply NoDup_app. split_and!.
    + by apply NoDup_filter.
    + intros l [Hl1 _]%list_elem_of_filter (p & -> & Hp)%list_elem_of_fmap. done.
    + apply NoDup_fmap; [by intros ?? [=]|done].
  - intros [p s]. rewrite elem_of_app, list_elem_of_filter, list_elem_of_fmap. cbn [fst]. split.
    + intros [[_ ?]|(q & [= -> ->] & Hq)]; [done|]. by apply link_of_link, Hadj.
    + intros Hin. destruct (decide (p ∈ ps)) as [Hp|]; [right|by left].
      exists p. split; [|done]. f_equal. eapply simple_unique; [done..|]. by apply link_of_link, Hadj.
Qed.

Lemma lookup_deletes {K A : Type} `{Countable K} (m : gmap K A) (l : list K) k :
  foldl (λ m p, delete p m) m l !! k = if decide (k ∈ l) then None else m !! k.
Proof.
  revert m. induction l as [|p l IH]; intros m; cbn [foldl].
  { by rewrite decide_False by apply not_elem_of_nil. }
  rewrite IH. destruct (decide (p = k)) as [->|Hne].
  - rewrite lookup_delete_eq. repeat case_decide; set_solver.
  - rewrite lookup_delete_ne by done. repeat case_decide; set_solver.
Qed.

(** Links that fail and return.  When a link, in one or both directions, is
    reported down, exactly its edges leave the graph and its identifiers are
    put aside; when it is reported up again the graph has the links it had,
    each with the identifier it had, and nothing is left aside.  The tables
    agree with the graph throughout.  The second step is the one that destroys
    the selector that was never initialised; here this does nothing. *)
Theorem link_restored {G : Type} `{IgraphLaws G} (memory : nat → list Z) (harmless : bool) (t : TMgraph G)
    (src dst : bytes) (bid : bool) (u v : Z) :
  words_of memory → tm_wf t → simple (graph t) → u ≠ v →
  reverse_node_index t !! src = Some u → reverse_node_index t !! dst = Some v →
  (∀ p, p ∈ ends bid u v → adjacent (graph t) p.1 p.2 ∧ freedLIDs t !! p = None) →
  ∃ t1 t2,
    updateGraph memory harmless src dst bid true t = Ok (true, t1) ∧ tm_wf t1 ∧
    links (graph t1) ≡ₚ filter (λ l, l.1 ∉ ends bid u v) (links (graph t)) ∧
    updateGraph memory true src dst bid false t1 = Ok (true, t2) ∧ tm_wf t2 ∧
    links (graph t2) ≡ₚ links (graph t) ∧ freedLIDs t2 = freedLIDs t.
Proof.
  intros Hmem Hwf Hs Huv Hu Hv Hall.
  destruct (updateGraph_remove memory Hmem t Hwf Hs harmless src dst bid u v Hu Hv Hall Huv)
    as (rei & el & g & fr & Hrun & Hn & Hl & Hsg & Hwf1 & Hin & Hout).
  set (t1 := set_edges rei el _) in *. exists t1.
  assert (∀ p, p ∈ ends bid u v → kept t1 p = link_of (graph t) p) as Hkept.
  { intros p Hp. destruct (Hin p Hp) as (lid & Hlid & Hc). unfold kept. change (freedLIDs t1) with fr.
    rewrite Hlid. cbn. apply to_string_lid; [done|].
    apply (wf_links t Hwf (p, _)), link_of_link. by apply Hall. }
  destruct (updateGraph_add memory Hmem t1 Hwf1 Hsg true src dst bid u v Hu Hv) as (rei2 & el2 & g2 & Hrun2 & _ & Hl2 & _ & Hwf2); [|done|].
  { intros p Hp. split_and!.
    - change (graph t1) with g. unfold adjacent. rewrite Hl, <-surjective_pairing, list_elem_of_fmap.
      intros (l & -> & [Hl' _]%list_elem_of_filter). done.
    - destruct (Hin p Hp) as (lid & Hlid & _). by exists lid.
    - rewrite Hkept by done. apply (wf_links t Hwf (p, _)), link_of_link. by apply Hall. }
  eexists. split_and!; [done|done|done|exact Hrun2|exact Hwf2| |].
  - cbn. rewrite Hl2. change (graph t1) with g. rewrite Hl. rewrite <-(links_split (graph t) (ends bid u v)) at 2.
    + f_equiv. apply reflexive_eq, list_fmap_ext. intros i p Hp. f_equal. by eapply Hkept, list_elem_of_lookup_2.
    + done.
    + destruct bid; repeat constructor; set_solver.
    + intros p Hp. by apply Hall.
  - cbn. apply map_eq. intros p. change (freedLIDs t1) with fr. rewrite lookup_deletes.
    case_decide as Hp; [symmetry; by apply Hall|by apply Hout].
Qed.

(** ** An example

    Three nodes in a row; the first is the topology manager, the last the
    rendezvous point. *)
Definition node_name (k : Z) : bytes := replicate 7 48 ++ [48 + k].
Definition one_bit (k : nat) : bytes := <[k := 49]> (replicate 256 48).

Definition row : ListGraph.ListGraph :=
  ListGraph.mkGraph
    [(node_name 1, one_bit 1); (node_name 2, one_bit 2); (node_name 3, one_bit 3)]
    [((0, 1), one_bit 10); ((1, 0), one_bit 11); ((1, 2), one_bit 12); ((2, 1), one_bit 13)] ∅.

Definition row_file : list bytes :=
  [data_element "FID_LEN" ++ text "32</data>"; data_element "TM" ++ node_name 1 ++ text "</data>";
   data_element "g_RV" ++ node_name 3 ++ text "</data>"; text "</graphml>"].

Definition zero_memory (n : nat) : list Z := replicate n 0.

Definition row_tm : TMgraph ListGraph.ListGraph :=
  match readTopology zero_memory (Some row_file) (Some row) (new_TMgraph row) with
  | Ok (_, t) => t
  | Fault _ => new_TMgraph row
  end.

Definition lid_stringb (s : bytes) : bool :=
  (Z.of_nat (length s) =? fid_bits) && forallb (λ c, (c =? 48) || (c =? 49)) s.

Lemma lid_stringb_sound s : lid_stringb s = true → lid_string s.
Proof.
  unfold lid_stringb. intros [Hl Hc]%andb_true_iff. split; [by apply Z.eqb_eq|].
  apply Forall_forall. intros c Hin. rewrite forallb_forall in Hc.
  specialize (Hc c (proj1 (list_elem_of_In _ _) Hin)). apply orb_true_iff in Hc. lia.
Qed.

Lemma zero_memory_words : words_of zero_memory.
Proof.
  intros n. split; [apply length_replicate|]. apply Forall_replicate. by unfold word_ok.
Qed.

Lemma row_ok : graph_ok row.
Proof.
  constructor.
  - intros l Hl. apply lid_stringb_sound. revert l Hl. apply Forall_forall.
    repeat (constructor; [vm_compute; reflexivity|]). constructor.
  - intros v Hv. apply lid_stringb_sound. unfold is_vertex in Hv. change (Z.of_nat (igraph_vcount row)) with 3 in Hv.
    assert (v = 0 ∨ v = 1 ∨ v = 2) as [->|[->| ->]] by lia; vm_compute; reflexivity.
Qed.

Lemma row_wf : tm_wf row_tm.
Proof.
  destruct (readTopology_wf zero_memory zero_memory_words row_file row row row_ok) as (t & Hrun & Hwf & _).
  unfold row_tm. by rewrite Hrun.
Qed.

Lemma link_restored_witness : ∃ t1 t2,
  updateGraph zero_memory true (node_name 1) (node_name 2) true true row_tm = Ok (true, t1) ∧
  links (graph t1) ≡ₚ [((1, 2), one_bit 12); ((2, 1), one_bit 13)] ∧
  updateGraph zero_memory true (node_name 1) (node_name 2) true false t1 = Ok (true, t2) ∧
  links (graph t2) ≡ₚ links row ∧ freedLIDs t2 = ∅.
Proof.
  destruct (link_restored zero_memory true row_tm (node_name 1) (node_name 2) true 0 1)
    as (t1 & t2 & H1 & _ & Hl1 & H2 & _ & Hl2 & Hf).
  - apply zero_memory_words.
  - apply row_wf.
  - apply (bool_decide_unpack (NoDup (links (graph row_tm)).*1)). vm_compute. exact I.
  - discriminate.
  - vm_compute. reflexivity.
  - vm_compute. reflexivity.
  - intros p Hp. apply elem_of_cons in Hp as [->|[->|[]%elem_of_nil]%elem_of_cons]; split.
    + apply (bool_decide_unpack ((0, 1) ∈ (links (graph row_tm)).*1)). vm_compute. exact I.
    + vm_compute. reflexivity.
    + apply (bool_decide_unpack ((1, 0) ∈ (links (graph row_tm)).*1)). vm_compute. exact I.
    + vm_compute. reflexivity.
  - exists t1, t2. split; [exact H1|]. split; [|split; [exact H2|split; [|exact Hf]]].
    + rewrite Hl1. apply reflexive_eq. vm_compute. reflexivity.
    + rewrite Hl2. apply reflexive_eq. vm_compute. reflexivity.
Defined.
