(* ===== verification/TMProps.v ===== *)
(** * The delivery trees of the topology manager

    calculateFID over sets of publishers and subscribers, which answers the
    rendezvous point: what it computes when every subscriber can be reached,
    and what goes wrong when one cannot. *)
From stdpp Require Import base list gmap sets.
From Stdlib Require Import ZArith Lia Bool.
From S2P Require Import Prelude Enums Bitvector GlobalConf Containers LibBitvector Igraph Forwarder TMGraph TMPaths TMLinks.

Local Open Scope Z_scope.

Lemma add_publishers_lookup l m p : add_publishers l m !! p =
  match m !! p with Some o => Some o | None => if decide (p ∈ l) then Some None else None end.
Proof.
  revert m. induction l as [|q l IH]; intros m; cbn [add_publishers foldl].
  { rewrite decide_False by apply not_elem_of_nil. by destruct (m !! p). }
  fold (add_publishers l (add_new q None m)). rewrite IH. unfold add_new.
  destruct (m !! q) eqn:Hq.
  - destruct (m !! p) eqn:Hp; [done|]. assert (p ≠ q) by congruence.
    repeat case_decide; set_solver.
  - destruct (decide (p = q)) as [->|Hne].
    + rewrite lookup_insert_eq, Hq. by rewrite decide_True by left.
    + rewrite lookup_insert_ne by done. destruct (m !! p); [done|]. repeat case_decide; set_solver.
Qed.

Section trees.
Context {G : Type} `{IgraphLaws G}.
Context (t : TMgraph G) (Hwf : tm_wf t) (pubs subs : gset bytes).
Context (Hknown : ∀ n, n ∈ pubs ∪ subs → known t n).

Lemma start_so_far b : carries b [] →
  so_far t pubs [] (first_best b, add_publishers (key_order pubs) ∅, add_paths (key_order pubs) ∅).
Proof.
  intros Hb. split; [by eexists|]. cbn [fst snd]. split.
  - apply set_eq. intros p. rewrite elem_of_dom, add_publishers_lookup, lookup_empty.
    case_decide as Hp; rewrite elem_of_key_order in Hp; split; try done; by intros [].
  - intros p Hp. rewrite add_publishers_lookup, lookup_empty.
    rewrite decide_True by (by apply elem_of_key_order). by intros s ?%elem_of_nil.
Qed.

(** The run of the function up to its loop *)
Lemma sets_run (A : Best * gmap bytes (option BABitvector) * gmap bytes (gset bytes) → Prop) :
  (∀ keep b, carries b [] → ∃ acc, A acc ∧
     fold_each (key_order subs) (serve_subscriber keep (λ sub, nearest_publisher (key_order pubs) sub keep))
       (first_best b, add_publishers (key_order pubs) ∅, add_paths (key_order pubs) ∅) t = Ok (acc, t)) →
  ∃ acc, A acc ∧ calculateFID_sets pubs subs ∅ ∅ t = Ok ((acc.1.2, acc.2), t).
Proof.
  intros Hloop. destruct (zero_fid_run t) as (b & Hz & Hb). pose proof (wf_extension t Hwf) as Hext.
  destruct (lookup_lt_is_Some_2 (extension t) (Z.to_nat RS)) as [keep Hkeep].
  { unfold RS, SUPPORT_SIZE in *. lia. }
  destruct (Hloop keep b Hb) as ([[b' r] paths] & HA & Hrun). exists (b', r, paths). split; [done|].
  unfold calculateFID_sets. rewrite (run_bind _ _ _ _ _ Hz).
  rewrite (run_bind _ _ t keep t); [|unfold mbind, M_bind, get; by rewrite Hkeep].
  by rewrite (run_bind _ _ _ _ _ Hrun).
Qed.

(** A walk to the subscriber makes it reachable. *)
Lemma walk_reachable p s w : Z.of_nat (igraph_vcount (graph t)) < UINT_MAX → p ∈ pubs → known t s →
  walk_between (graph t) (vertex_of t p) (vertex_of t s) w → reachable t pubs s.
Proof.
  intros Hsmall Hp Hs Hw. exists p. split; [done|]. destruct (shortest_path_min _ _ _ _ Hw) as [Hne _].
  destruct (wf_nodes t Hwf _ _ (known_vertex t p (Hknown p ltac:(set_solver)))) as (Hu & _).
  destruct (wf_nodes t Hwf _ _ (known_vertex t s Hs)) as (Hv & _).
  pose proof (shortest_path_bound _ _ _ Hu Hv). unfold hops, distance, hop_count, route.
  unfold u32, UINT_MAX in *. rewrite Z.mod_small by lia.
  destruct (Z.eqb_spec (Z.of_nat (length (igraph_get_shortest_paths (graph t) (vertex_of t p) (vertex_of t s)))) 0);
    [|lia]. by destruct (igraph_get_shortest_paths _ _ _).
Qed.

(** The server of a subscriber is a publisher with a walk to it, and no
    publisher has a shorter one. *)
Lemma server_route s : Z.of_nat (igraph_vcount (graph t)) < UINT_MAX → known t s → reachable t pubs s →
  let w := route (graph t) (vertex_of t (server t pubs s)) (vertex_of t s) in
  server t pubs s ∈ pubs ∧ walk_between (graph t) (vertex_of t (server t pubs s)) (vertex_of t s) w ∧
  ∀ p w', p ∈ pubs → walk_between (graph t) (vertex_of t p) (vertex_of t s) w' → (length w ≤ length w')%nat.
Proof.
  intros Hsmall Hs Hreach w. destruct (server_nearest t pubs s Hreach) as [Hin Hmin].
  destruct (closest_server t pubs s [] Hreach) as [_ Hlt].
  assert (∀ p, p ∈ pubs → is_vertex (graph t) (vertex_of t p)) as Hvp.
  { intros p Hp. apply (wf_nodes t Hwf p), known_vertex, Hknown. set_solver. }
  destruct (wf_nodes t Hwf _ _ (known_vertex t s Hs)) as (Hv & _).
  assert (∀ p, p ∈ pubs → let n := length (route (graph t) (vertex_of t p) (vertex_of t s)) in
    hops t p s = if (n =? 0)%nat then UINT_MAX else Z.of_nat n) as Hhops.
  { intros p Hp n. pose proof (shortest_path_bound _ _ _ (Hvp p Hp) Hv) as Hb. fold (route (graph t) (vertex_of t p) (vertex_of t s)) in Hb.
    fold n in Hb. unfold hops, distance, hop_count. fold n. unfold u32, UINT_MAX in *.
    rewrite Z.mod_small by lia. destruct (Z.eqb_spec (Z.of_nat n) 0), (Nat.eqb_spec n 0); lia. }
  pose proof (Hhops _ Hin) as Hserver. cbn zeta in Hserver. fold w in Hserver.
  destruct (Nat.eqb_spec (length w) 0) as [|Hne]; [lia|].
  split; [done|]. split; [apply shortest_path_walk; [auto..|by intros E; unfold w, route in Hne; rewrite E in Hne]|].
  intros p w' Hp Hw'. destruct (shortest_path_min _ _ _ _ Hw') as [Hne' Hle].
  fold (route (graph t) (vertex_of t p) (vertex_of t s)) in Hne', Hle.
  specialize (Hmin p Hp). rewrite Hserver, (Hhops p Hp) in Hmin.
  destruct (Nat.eqb_spec (length (route (graph t) (vertex_of t p) (vertex_of t s))) 0) as [E|_]; [|lia].
  by apply nil_length_inv in E.
Qed.

(** The whole function, when every subscriber can be reached *)
Lemma sets_served : Z.of_nat (igraph_vcount (graph t)) < UINT_MAX →
  (∀ s, s ∈ subs → ∃ p w, p ∈ pubs ∧ walk_between (graph t) (vertex_of t p) (vertex_of t s) w) →
  ∃ result paths, calculateFID_sets pubs subs ∅ ∅ t = Ok ((result, paths), t) ∧ dom result = pubs ∧
    (∀ p, p ∈ pubs → served t pubs (key_order subs) p (result !! p)) ∧
    (∀ s, s ∈ subs → known t s ∧ reachable t pubs s).
Proof.
  intros Hsmall Hreach.
  assert (∀ s, s ∈ subs → known t s ∧ reachable t pubs s) as Hsubs.
  { intros s Hs. assert (known t s) as Hk by (apply Hknown; set_solver). split; [done|].
    destruct (Hreach s Hs) as (p & w & Hp & Hw). eapply walk_reachable; eauto. }
  destruct (sets_run (so_far t pubs (key_order subs))) as (acc & (_ & Hdom & Hsv) & Hrun).
  { intros keep b Hb. destruct (serve_all t Hwf pubs keep) with (l := key_order subs)
      (acc := (first_best b, add_publishers (key_order pubs) ∅, add_paths (key_order pubs) ∅))
      as (acc & Hrun & Hacc); [|by intros s ?%elem_of_key_order; apply Hsubs|by apply start_so_far|eauto].
    intros p Hp. apply Hknown. set_solver. }
  exists acc.1.2, acc.2. split_and!; done.
Qed.
End trees.

(** C9. Every subscriber is served by a nearest publisher.  If the publishers
    and subscribers are nodes of the topology and every subscriber can be
    reached from some publisher, calculateFID answers for exactly the
    publishers.  Each subscriber gets a server among them such that the path
    found from it is a walk in the graph and no publisher has a shorter walk.
    A publisher that serves nobody gets no FID (it is told to stop); one that
    does gets the union, bit by bit, of the identifiers of the links on the
    paths to those it serves and of their internal links. *)
Theorem nearest_publishers_serve {G : Type} `{IgraphLaws G} (t : TMgraph G) (pubs subs : gset bytes) :
  tm_wf t → Z.of_nat (igraph_vcount (graph t)) < UINT_MAX →
  (∀ n, n ∈ pubs ∪ subs → known t n) →
  (∀ s, s ∈ subs → ∃ p w, p ∈ pubs ∧ walk_between (graph t) (vertex_of t p) (vertex_of t s) w) →
  ∃ result paths,
    calculateFID_sets pubs subs ∅ ∅ t = Ok ((result, paths), t) ∧ dom result = pubs ∧
    (∀ s, s ∈ subs → let w := route (graph t) (vertex_of t (server t pubs s)) (vertex_of t s) in
       server t pubs s ∈ pubs ∧
       walk_between (graph t) (vertex_of t (server t pubs s)) (vertex_of t s) w ∧
       ∀ p w', p ∈ pubs → walk_between (graph t) (vertex_of t p) (vertex_of t s) w' →
         (length w ≤ length w')%nat) ∧
    (∀ p, p ∈ pubs → match result !! p with
       | Some (Some FID) => (∃ s, s ∈ subs ∧ server t pubs s = p) ∧
           carries FID (branches t pubs p (key_order subs))
       | Some None => ∀ s, s ∈ subs → server t pubs s ≠ p
       | None => False
       end).
Proof.
  intros Hwf Hsmall Hknown Hreach.
  destruct (sets_served t Hwf pubs subs Hknown Hsmall Hreach) as (result & paths & Hrun & Hdom & Hsv & Hsubs).
  exists result, paths. split_and!; [done|done| |].
  - intros s Hs. destruct (Hsubs s Hs). by apply (server_route t Hwf pubs subs).
  - intros p Hp. specialize (Hsv p Hp). unfold served in Hsv.
    destruct (result !! p) as [[FID|]|]; [|intros s Hs; apply Hsv; by apply elem_of_key_order|done].
    destruct Hsv as [(s & Hs & Heq) HF]. split; [|done]. exists s. by rewrite elem_of_key_order in Hs.
Qed.

Lemma nearest_publishers_serve_witness : ∃ result paths,
  calculateFID_sets {[node_name 1; node_name 3]} {[node_name 2; node_name 3]} ∅ ∅ row_tm
    = Ok ((result, paths), row_tm) ∧
  dom result = {[node_name 1; node_name 3]} ∧
  server row_tm {[node_name 1; node_name 3]} (node_name 2) = node_name 1 ∧
  server row_tm {[node_name 1; node_name 3]} (node_name 3) = node_name 3.
Proof.
  destruct (nearest_publishers_serve row_tm {[node_name 1; node_name 3]} {[node_name 2; node_name 3]})
    as (result & paths & Hrun & Hdom & _).
  - apply row_wf.
  - vm_compute. reflexivity.
  - intros n Hn. assert (n = node_name 1 ∨ n = node_name 2 ∨ n = node_name 3) as [->|[->| ->]] by set_solver;
      eexists; vm_compute; reflexivity.
  - intros s Hs. assert (s = node_name 2 ∨ s = node_name 3) as [->| ->] by set_solver.
    + exists (node_name 1), [0; 1]. split; [set_solver|]. split; [|done]. split; [by vm_compute|].
      split; [|split; [by vm_compute|exact I]].
      apply (bool_decide_unpack ((0, 1) ∈ (links (graph row_tm)).*1)). vm_compute. exact I.
    + exists (node_name 3), [2]. split; [set_solver|]. split; [|done]. split; [by vm_compute|exact I].
  - exists result, paths. split; [exact Hrun|]. split; [exact Hdom|]. split; vm_compute; reflexivity.
Defined.

(** A subscriber that no publisher can reach breaks the others.  If it is
    the first one, the code dereferences the end of its table of results.  If
    it comes last, behind reachable ones, the answer for the publisher that
    served the subscriber before it is replaced: its FID now holds the way to
    that one subscriber and no longer the ways to the others it serves. *)
Theorem unreachable_subscriber_breaks {G : Type} `{IgraphLaws G} (t : TMgraph G) (pubs subs : gset bytes) :
  tm_wf t → (∀ n, n ∈ pubs ∪ subs → known t n) → [] ∉ pubs →
  (∀ s l, key_order subs = s :: l → ¬ reachable t pubs s →
     calculateFID_sets pubs subs ∅ ∅ t = Fault EndDeref) ∧
  (∀ pre s s', key_order subs = pre ++ [s; s'] → (∀ x, x ∈ pre ++ [s] → reachable t pubs x) →
     ¬ reachable t pubs s' →
     ∃ result paths FID, calculateFID_sets pubs subs ∅ ∅ t = Ok ((result, paths), t) ∧
       result !! server t pubs s = Some (Some FID) ∧ carries FID (way t (server t pubs s) s)).
Proof.
  intros Hwf Hknown Hnil.
  assert (∀ p, p ∈ pubs → known t p) as Hpubs by (intros; apply Hknown; set_solver).
  assert (∀ s, s ∈ key_order subs → known t s) as Hsubs
    by (intros s Hs%elem_of_key_order; apply Hknown; set_solver). split.
  - intros s l Hord Hun. destruct (zero_fid_run t) as (b & Hz & Hb). unfold calculateFID_sets.
    rewrite (run_bind _ _ _ _ _ Hz). pose proof (wf_extension t Hwf) as Hext.
    destruct (lookup_lt_is_Some_2 (extension t) (Z.to_nat RS)) as [keep Hkeep]; [unfold RS, SUPPORT_SIZE in *; lia|].
    rewrite (run_bind _ _ t keep t); [|unfold mbind, M_bind, get; by rewrite Hkeep].
    pose proof (serve_unreachable t Hwf pubs keep Hpubs s (first_best b) (add_publishers (key_order pubs) ∅)
      (add_paths (key_order pubs) ∅) (Hsubs s ltac:(rewrite Hord; left)) Hun ltac:(by eexists)) as Hsv.
    rewrite add_publishers_lookup, lookup_empty, decide_False in Hsv by (by rewrite elem_of_key_order).
    rewrite Hord. cbn [fold_each]. unfold mbind at 1 2, M_bind at 1 2. by rewrite Hsv.
  - intros pre s s' Hord Hre Hun.
    destruct (sets_run t Hwf pubs subs (λ acc, ∃ FID, acc.1.2 !! server t pubs s = Some (Some FID) ∧
      carries FID (way t (server t pubs s) s))) as (acc & (FID & Hl & Hc) & Hrun); [|by eauto 6].
    intros keep b Hb. rewrite Hord. change [s; s'] with ([s] ++ [s']). rewrite app_assoc.
    destruct (serve_all t Hwf pubs keep Hpubs) with (l := pre)
      (acc := (first_best b, add_publishers (key_order pubs) ∅, add_paths (key_order pubs) ∅))
      as (acc1 & Hrun1 & Hacc1); [|by apply start_so_far|].
    { intros x Hx. split; [apply Hsubs; rewrite Hord|apply Hre]; set_solver. }
    destruct (serve_reachable t Hwf pubs keep Hpubs pre s acc1) as ([[b2 r2] p2] & Hrun2 & (Hres2 & Hdom2 & _) & Hnode & HF);
      [apply Hsubs; rewrite Hord; set_solver|apply Hre; set_solver|done|]. cbn [fst snd] in *.
    assert (server t pubs s ∈ pubs) as Hin by (apply server_nearest, Hre; set_solver).
    pose proof (serve_unreachable t Hwf pubs keep Hpubs s' b2 r2 p2 (Hsubs s' ltac:(rewrite Hord; set_solver)) Hun Hres2) as Hsv.
    assert (is_Some (r2 !! server t pubs s)) as [o Ho] by (apply elem_of_dom; by rewrite Hdom2).
    rewrite Hnode, Ho in Hsv.
    destruct Hsv as (acc3 & Hrun3 & Hacc3). exists acc3. split.
    + exists (bv_copy (bestFID b2)). rewrite Hacc3, lookup_insert_eq. split; [done|]. by apply carries_copy.
    + rewrite (fold_each_app _ _ _ _ (b2, r2, p2)).
      * cbn [fold_each]. by rewrite (run_bind _ _ _ _ _ Hrun3).
      * rewrite (fold_each_app _ _ _ _ _ _ Hrun1). cbn [fold_each]. by rewrite (run_bind _ _ _ _ _ Hrun2).
Qed.

(** Two links of node 1; node 4 is alone. *)
Definition islands : ListGraph.ListGraph :=
  ListGraph.mkGraph
    [(node_name 1, one_bit 1); (node_name 2, one_bit 2); (node_name 3, one_bit 3); (node_name 4, one_bit 4)]
    [((0, 1), one_bit 10); ((0, 2), one_bit 11)] ∅.

Definition islands_tm : TMgraph ListGraph.ListGraph :=
  match readTopology zero_memory (Some row_file) (Some islands) (new_TMgraph islands) with
  | Ok (_, t) => t
  | Fault _ => new_TMgraph islands
  end.

Lemma islands_wf : tm_wf islands_tm.
Proof.
  destruct (readTopology_wf zero_memory zero_memory_words row_file islands islands) as (t & Hrun & Hwf & _).
  - constructor.
    + intros l Hl. apply lid_stringb_sound. revert l Hl. apply Forall_forall.
      repeat (constructor; [vm_compute; reflexivity|]). constructor.
    + intros v Hv. apply lid_stringb_sound. unfold is_vertex in Hv. change (Z.of_nat (igraph_vcount islands)) with 4 in Hv.
      assert (v = 0 ∨ v = 1 ∨ v = 2 ∨ v = 3) as [->|[->|[->| ->]]] by lia; vm_compute; reflexivity.
  - unfold islands_tm. by rewrite Hrun.
Qed.

Lemma unreachable_subscriber_breaks_witness :
  calculateFID_sets {[node_name 1]} {[node_name 4]} ∅ ∅ islands_tm = Fault EndDeref ∧
  ∃ result paths FID,
    calculateFID_sets {[node_name 1]} {[node_name 2; node_name 3; node_name 4]} ∅ ∅ islands_tm
      = Ok ((result, paths), islands_tm) ∧
    result !! node_name 1 = Some (Some FID) ∧ carries FID [one_bit 11; one_bit 3].
Proof.
  assert (∀ s, s ∈ ({[node_name 2; node_name 3; node_name 4]} : gset bytes) ∪ {[node_name 1]} →
    known islands_tm s) as Hk.
  { intros n Hn. assert (n = node_name 1 ∨ n = node_name 2 ∨ n = node_name 3 ∨ n = node_name 4)
      as [->|[->|[->| ->]]] by set_solver; eexists; vm_compute; reflexivity. }
  assert (¬ reachable islands_tm {[node_name 1]} (node_name 4)) as Hun.
  { intros (p & ->%elem_of_singleton & Hh). vm_compute in Hh. discriminate. }
  split.
  - apply (unreachable_subscriber_breaks islands_tm {[node_name 1]} {[node_name 4]}) with (node_name 4) [];
      [apply islands_wf|intros n Hn; apply Hk; set_solver|set_solver|vm_compute; reflexivity|exact Hun].
  - destruct (unreachable_subscriber_breaks islands_tm {[node_name 1]} {[node_name 2; node_name 3; node_name 4]})
      as [_ Hlast]; [apply islands_wf|intros n Hn; apply Hk; set_solver|set_solver|].
    assert (server islands_tm {[node_name 1]} (node_name 3) = node_name 1) as Hs by (vm_compute; reflexivity).
    assert (way islands_tm (node_name 1) (node_name 3) = [one_bit 11; one_bit 3]) as Hw by (vm_compute; reflexivity).
    specialize (Hlast [node_name 2] (node_name 3) (node_name 4)). rewrite Hs, Hw in Hlast.
    apply Hlast; [vm_compute; reflexivity| |exact Hun].
    intros x Hx. exists (node_name 1). split; [by apply elem_of_singleton|]. cbn [app] in Hx.
    apply elem_of_cons in Hx as [->|Hx]; [vm_compute; reflexivity|].
    apply list_elem_of_singleton in Hx as ->. vm_compute. reflexivity.
Defined.
