(* ===== verification/TMNetwork.v ===== *)
(** * From the topology manager to the subscribers

    A network of forwarders that is wired like the graph of the topology
    manager: what one of them pushes out on a port arrives at the node at the
    other end.  A packet with a FID of the topology manager travels along the
    path it was made of and is handed to the proxy at its end. *)
From stdpp Require Import base list gmap sets strings.
From Stdlib Require Import ZArith Lia Bool.
From S2P Require Import Prelude Enums Bitvector GlobalConf Containers LibBitvector Igraph Forwarder ProxyLeave ProxyNotify TMGraph TMPaths TMLinks TMProps.

Local Open Scope Z_scope.

Section network.
Context {G : Type} `{IgraphLaws G} (g : G).
(** The configuration and the links of the node at each vertex, the node at the
    other end of each of its ports, and the address that a node has on the
    link to another *)
Context (gc : Z → GlobalConf) (table : Z → list ForwardingEntry) (wire : Z → Z → option Z).
Context (mac : Z → Z → bytes) (in_cksum : bytes → Z) (in_cksum_pseudohdr : Z → bytes → Z → Z).

(** A node configured as the graph says *)
Record wired : Prop := {
  wired_mac a : use_mac (gc a) = true;
  wired_entries a : Forall (λ fe, entry_wf fe ∧ known_proto fe ∧ entry_bytes fe) (table a);
  wired_ilid a : is_vertex g a → carries (GlobalConf.iLID (gc a)) [igraph_VAS g iLID a];
  wired_links a b s : ((a, b), s) ∈ links g → ∃ fe, fe ∈ table a ∧ wire a (fe_port fe) = Some b ∧
    carries (fe_LID fe) [s] ∧ fe_src fe = mac a b ∧ fe_dst fe = mac b a;
  (** different nodes have different addresses *)
  wired_addresses a b c d : a ≠ c → mac a b ≠ mac c d;
}.

(** The frames that reach the nodes when the proxy of [from] sends [p] *)
Inductive arrives (p : bytes) (from : Z) : Z → bytes → Prop :=
| first_hop port frame b id s' :
    push (gc from) (table from) in_cksum in_cksum_pseudohdr 0 p (mkFw id []) = Ok (tt, s') →
    Push port (Some <$> frame) ∈ fw_trace s' → wire from port = Some b →
    arrives p from b frame
| next_hop a frame port frame' b id s' :
    arrives p from a frame →
    push (gc a) (table a) in_cksum in_cksum_pseudohdr 1 frame (mkFw id []) = Ok (tt, s') →
    Push port (Some <$> frame') ∈ fw_trace s' → wire a port = Some b →
    arrives p from b frame'.

(** The payload that the forwarder of [v] hands to its proxy *)
Definition handed_over (p : bytes) (from v : Z) (payload : bytes) : Prop :=
  ∃ frame id s', arrives p from v frame ∧
    push (gc v) (table v) in_cksum in_cksum_pseudohdr 1 frame (mkFw id []) = Ok (tt, s') ∧
    Deliver (Some <$> payload) ∈ fw_trace s'.

Context (Hw : wired).

Lemma entries_wf a : Forall entry_wf (table a).
Proof. eapply Forall_impl; [apply (wired_entries Hw)|]. by intros fe (? & ? & ?). Qed.
Lemma entries_proto a : Forall known_proto (table a).
Proof. eapply Forall_impl; [apply (wired_entries Hw)|]. by intros fe (? & ? & ?). Qed.

Lemma entry_good a fe : fe ∈ table a → entry_wf fe ∧ known_proto fe ∧ entry_bytes fe.
Proof. pose proof (wired_entries Hw a) as Hall. rewrite Forall_forall in Hall. auto. Qed.

(** ** Frames on the way *)

(** A frame from [a] to [b] that carries the packet [p] *)
Record carrying (p : bytes) (a b : Z) (frame : bytes) : Prop := {
  carrying_proto : proto_of frame = BA_PROTO ∨ proto_of frame = SDN_PROTO;
  carrying_body : drop (fid_off (proto_of frame)) frame = p;
  carrying_bytes : Forall is_byte frame;
  carrying_dst : substr frame 0 MAC_LEN = mac b a;
  carrying_src : substr frame MAC_LEN MAC_LEN = mac a b;
}.

Lemma addresses_first fe q : entry_wf fe →
  substr ((fe_dst fe ++ fe_src fe) ++ q) 0 MAC_LEN = fe_dst fe ∧
  substr ((fe_dst fe ++ fe_src fe) ++ q) MAC_LEN MAC_LEN = fe_src fe.
Proof.
  intros (_ & Hs & Hd). unfold substr. rewrite drop_0, <-!app_assoc.
  rewrite take_app_length', drop_app_length' by done. by rewrite take_app_length'.
Qed.

Lemma frame_of_proxy a b fe p : fe ∈ table a → fe_src fe = mac a b → fe_dst fe = mac b a →
  Forall is_byte p → carrying p a b (proxy_frame fe p).
Proof.
  intros Hin Hs Hd Hp. destruct (entry_good a fe Hin) as (Hwf & Hk & Hb).
  assert (∃ q, proxy_frame fe p = (fe_dst fe ++ fe_src fe) ++ q) as [q Hq].
  { unfold proxy_frame, sdn_bytes, ether_bytes. destruct (_ =? _); eexists; by rewrite <-!app_assoc. }
  destruct (addresses_first fe q Hwf) as [Hd' Hs']. rewrite <-Hq in Hd', Hs'. constructor.
  - assert (proto_of (proxy_frame fe p) = fe_proto fe) as ->; [|done]. unfold proxy_frame, sdn_bytes.
    destruct (_ =? _); rewrite <-?app_assoc; by apply proto_of_ether.
  - by apply proxy_frame_parse.
  - by apply proxy_frame_ok.
  - congruence.
  - congruence.
Qed.

Lemma frame_of_network a b c fe p frame : carrying p a b frame → (FID_LEN ≤ length p)%nat →
  fe ∈ table b → fe_src fe = mac b c → fe_dst fe = mac c b →
  carrying p b c (network_frame fe frame).
Proof.
  intros [Hpr Hbody Hbytes _ _] Hlen Hin Hs Hd. destruct (entry_good b fe Hin) as (Hwf & Hk & Hb).
  assert (∃ q, network_frame fe frame = (fe_dst fe ++ fe_src fe) ++ q) as [q Hq].
  { unfold network_frame, sdn_bytes, ether_bytes. repeat case_match; eexists; by rewrite <-?app_assoc. }
  destruct (addresses_first fe q Hwf) as [Hd' Hs']. rewrite <-Hq in Hd', Hs'.
  destruct (network_frame_parse fe frame Hwf Hk Hpr) as [Hproto Hdrop].
  { apply (f_equal length) in Hbody. rewrite length_drop in Hbody. unfold FID_LEN in *. lia. }
  constructor.
  - by rewrite Hproto.
  - congruence.
  - destruct Hb as [Hb1 Hb2]. unfold network_frame.
    repeat case_match; rewrite ?Forall_app; split_and!; try done; try (by apply Forall_drop).
    + by apply sdn_bytes_ok.
    + by apply ether_bytes_ok.
  - congruence.
  - congruence.
Qed.

(** ** One packet *)
Section packet.
Context (FID : BABitvector) (payload : bytes) (HF : fid_ok FID) (Hpayload : Forall is_byte payload).
(** A FID of ones only means broadcast and is not forwarded. *)
Context (Hones : ∃ j, 0 ≤ j < fid_bits ∧ bv_bit FID j = false).

Definition packet : bytes := fid_bytes FID ++ payload.

(** The FID has the bits of the identifier. *)
Definition within (s : bytes) : Prop := ∀ j, 0 ≤ j < fid_bits → sbit s j = true → bv_bit FID j = true.

Lemma packet_bytes : Forall is_byte packet.
Proof. apply Forall_app. split; [|done]. unfold fid_bytes. apply Forall_take, bytes_of_words_bytes. Qed.

Lemma packet_fid : take FID_LEN packet = fid_bytes FID.
Proof. apply take_app_length'. by rewrite length_fid_bytes. Qed.

Lemma packet_length : (FID_LEN ≤ length packet)%nat.
Proof. unfold packet. rewrite length_app, length_fid_bytes by done. lia. Qed.

Lemma lid_in_wire LID s : carries LID [s] → within s → lid_in (on_wire FID) LID = true.
Proof.
  intros [_ HL] Hs. apply lid_in_spec. intros j Hj. rewrite HL by done. cbn [existsb].
  rewrite orb_false_r. intros Hb. rewrite on_wire_bits; [by apply Hs|done|].
  unfold fid_bits in Hj. change (Z.of_nat FID_LEN) with 32 in Hj. lia.
Qed.

Lemma carrying_fid a b frame : carrying packet a b frame → network_fid frame = on_wire FID.
Proof. intros Hc. rewrite network_fid_body, (carrying_body _ _ _ _ Hc), packet_fid. done. Qed.

Lemma carrying_length a b frame : carrying packet a b frame →
  (fid_off (proto_of frame) + FID_LEN ≤ length frame)%nat.
Proof.
  intros Hc. pose proof packet_length as Hl. rewrite <-(carrying_body _ _ _ _ Hc), length_drop in Hl.
  unfold FID_LEN in *. lia.
Qed.

Lemma not_broadcast : zero (negate (bv_copy (on_wire FID))) = false.
Proof.
  destruct Hones as (j & Hj & Hbit). destruct (on_wire_ok FID HF) as [How Hom].
  destruct (bv_copy_spec _ How) as (Hc1 & Hc2 & Hc3). destruct (negate_spec _ Hc1) as (Hn1 & Hn2 & Hn3).
  apply not_true_is_false. rewrite zero_spec by done. intros Hz.
  specialize (Hz j ltac:(rewrite Hn2, Hc2, Hom; lia)). rewrite Hn3, Hc3 in Hz by (rewrite ?Hc2, ?Hom; lia).
  rewrite on_wire_bits, Hbit in Hz; [done|done|].
  unfold fid_bits in Hj. change (Z.of_nat FID_LEN) with 32 in Hj. lia.
Qed.

Lemma leaves a b s : ((a, b), s) ∈ links g → within s →
  ∃ frame, arrives packet a b frame ∧ carrying packet a b frame.
Proof.
  intros Hl Hs. destruct (wired_links Hw a b s Hl) as (fe & Hin & Hwire & Hlid & Hsrc & Hdst).
  exists (proxy_frame fe packet). split; [|apply frame_of_proxy; auto using packet_bytes].
  eapply (first_hop _ _ _ _ _ 0); [|clear Hwire|exact Hwire].
  { unfold push. rewrite Z.eqb_refl. apply push_from_proxy_run; auto using packet_bytes, packet_length, entries_wf, entries_proto.
    apply (wired_mac Hw). }
  cbn [fw_trace log app]. apply elem_of_app. right.
  apply (elem_of_sends (λ fe, Push (fe_port fe) (Some <$> proxy_frame fe packet))).
  apply list_elem_of_filter. split; [|done]. rewrite packet_fid. by eapply lid_in_wire.
Qed.

(** What a node on the way does *)
Lemma passes_on from a b c s frame : arrives packet from b frame → carrying packet a b frame →
  is_vertex g b → ((b, c), s) ∈ links g → within s → a ≠ b → b ≠ c → a ≠ c →
  ∃ frame', arrives packet from c frame' ∧ carrying packet b c frame'.
Proof.
  intros Harr Hcar Hb Hl Hs Hab Hbc Hac.
  destruct (wired_links Hw b c s Hl) as (fe & Hin & Hwire & Hlid & Hsrc & Hdst).
  exists (network_frame fe frame). split; [|eapply frame_of_network; eauto using packet_length].
  eapply (next_hop _ _ _ _ _ _ _ 0 _ Harr); [|clear Hwire|exact Hwire].
  { unfold push. cbn [Z.eqb]. change (1 >=? 1) with true. cbn iota.
    apply push_from_network_run; [apply (wired_mac Hw)|apply entries_wf| |by eapply carrying_length|apply Hcar].
    apply (wired_ilid Hw b Hb). }
  cbn [fw_trace log app]. apply elem_of_app. left.
  apply (elem_of_sends (λ fe, Push (fe_port fe) (Some <$> network_frame fe frame))).
  unfold network_links. rewrite (carrying_fid _ _ _ Hcar), not_broadcast.
  apply list_elem_of_filter. split; [|done]. split; [by eapply lid_in_wire|].
  unfold from_link. rewrite (carrying_src _ _ _ _ Hcar), (carrying_dst _ _ _ _ Hcar), Hsrc, Hdst.
  rewrite (bool_decide_eq_false_2 (mac a b = mac c b)), (bool_decide_eq_false_2 (mac a b = mac b c)),
    (bool_decide_eq_false_2 (mac b a = mac c b)) by (by apply (wired_addresses Hw)). done.
Qed.

Lemma handed from a v frame : arrives packet from v frame → carrying packet a v frame →
  is_vertex g v → within (igraph_VAS g iLID v) → handed_over packet from v payload.
Proof.
  intros Harr Hcar Hv Hs. exists frame, 0. eexists. split; [done|]. split.
  { unfold push. cbn [Z.eqb]. change (1 >=? 1) with true. cbn iota.
    apply push_from_network_run; [apply (wired_mac Hw)|apply entries_wf| |by eapply carrying_length|apply Hcar].
    apply (wired_ilid Hw v Hv). }
  cbn [fw_trace log app]. apply elem_of_app. right. apply elem_of_app. left.
  rewrite (carrying_fid _ _ _ Hcar), (lid_in_wire _ _ (wired_ilid Hw v Hv) Hs).
  rewrite delivered_body, (carrying_body _ _ _ _ Hcar). unfold packet.
  rewrite drop_app_length' by (by rewrite length_fid_bytes). left.
Qed.

(** The rest of the way *)
Lemma travels from v l a b frame : arrives packet from b frame → carrying packet a b frame →
  walk g (b :: l) → NoDup (a :: b :: l) → last (b :: l) = Some v →
  (∀ s, s ∈ path_lids g (b :: l) → within s) →
  ∃ x frame', arrives packet from v frame' ∧ carrying packet x v frame'.
Proof.
  revert a b frame. induction l as [|c l IH]; intros a b frame Harr Hcar Hwalk Hnd Hlast Hlids.
  { injection Hlast as <-. eauto. }
  destruct Hwalk as (Hb & Hadj & Hwalk).
  apply NoDup_cons in Hnd as [Ha Hnd]. pose proof Hnd as [Hbn Hnd']%NoDup_cons.
  destruct (passes_on from a b c (link_of g (b, c)) frame) as (frame' & Harr' & Hcar'); auto.
  - by apply (link_of_link g (b, c)).
  - apply Hlids. left.
  - intros ->. apply Ha. left.
  - intros ->. apply Hbn. left.
  - intros ->. apply Ha. right. left.
  - eapply IH; [exact Harr'|exact Hcar'|done|done|done|]. intros s Hs. apply Hlids. by right.
Qed.

(** A packet that is sent from one end of a path without repetitions reaches
    the other. *)
Lemma journey u v l : walk_between g u v l → NoDup l → u ≠ v →
  (∀ s, s ∈ path_lids g l ++ [igraph_VAS g iLID v] → within s) → handed_over packet u v payload.
Proof.
  intros (Hwalk & Hhead & Hlast) Hnd Huv Hlids. destruct l as [|a [|b l]]; [done|by simplify_eq/=|].
  injection Hhead as ->. destruct Hwalk as (_ & Hadj & Hwalk).
  destruct (leaves u b (link_of g (u, b))) as (frame & Harr & Hcar).
  - by apply (link_of_link g (u, b)).
  - apply Hlids. left.
  - destruct (travels u v l u b frame Harr Hcar Hwalk Hnd Hlast) as (x & frame' & Harr' & Hcar').
    { intros s Hs. apply Hlids, elem_of_app. left. by right. }
    eapply handed; [exact Harr'|exact Hcar'| |apply Hlids, elem_of_app; right; left].
    eapply (walk_vertices g (b :: l)); [done|]. apply last_Some_elem_of. exact Hlast.
Qed.
End packet.
End network.

(** C10. The answers of the topology manager take data to the subscribers.  In a
    network of forwarders wired and configured as the graph of the topology
    manager says, let a match be answered by calculateFID.  For every
    subscriber there is a publisher that got a FID; a packet that the proxy of
    that publisher's node sends with this FID travels from forwarder to
    forwarder along the path, and the forwarder of the subscriber hands its
    payload to the local proxy.  (In the same node no forwarder is involved,
    and a FID of ones only is not forwarded.) *)
Theorem data_reaches_subscribers {G : Type} `{IgraphLaws G} (t : TMgraph G) (pubs subs : gset bytes)
    (gc : Z → GlobalConf) (table : Z → list ForwardingEntry) (wire : Z → Z → option Z) (mac : Z → Z → bytes)
    (in_cksum : bytes → Z) (in_cksum_pseudohdr : Z → bytes → Z → Z) :
  tm_wf t → Z.of_nat (igraph_vcount (graph t)) < UINT_MAX →
  (∀ n, n ∈ pubs ∪ subs → known t n) →
  (∀ s, s ∈ subs → ∃ p w, p ∈ pubs ∧ walk_between (graph t) (vertex_of t p) (vertex_of t s) w) →
  wired (graph t) gc table wire mac →
  ∃ result paths, calculateFID_sets pubs subs ∅ ∅ t = Ok ((result, paths), t) ∧
  ∀ s, s ∈ subs → ∃ p FID, p ∈ pubs ∧ result !! p = Some (Some FID) ∧
    (vertex_of t p ≠ vertex_of t s → ∀ payload, Forall is_byte payload →
     (∃ j, 0 ≤ j < fid_bits ∧ bv_bit FID j = false) →
     handed_over gc table wire in_cksum in_cksum_pseudohdr
       (packet FID payload) (vertex_of t p) (vertex_of t s) payload).
Proof.
  intros Hwf Hsmall Hknown Hreach Hw.
  destruct (sets_served t Hwf pubs subs Hknown Hsmall Hreach) as (result & paths & Hrun & Hdom & Hsv & Hsubs).
  exists result, paths. split; [done|]. intros s Hs. destruct (Hsubs s Hs) as [Hk Hr].
  destruct (server_route t Hwf pubs subs Hknown s Hsmall Hk Hr) as (Hin & Hwalk & _).
  set (p := server t pubs s) in *. exists p. pose proof (Hsv p Hin) as Hp. unfold served in Hp.
  destruct (result !! p) as [[FID|]|]; [|by destruct (Hp s (proj2 (elem_of_key_order s subs) Hs))|done].
  destruct Hp as [_ HF]. exists FID. split_and!; [done|done|]. intros Hne payload Hpay Hones.
  apply (journey (graph t) gc table wire mac in_cksum in_cksum_pseudohdr Hw FID payload (carries_fid _ _ HF) Hpay Hones
    (vertex_of t p) (vertex_of t s) (route (graph t) (vertex_of t p) (vertex_of t s))); [done| |done|].
  - apply shortest_path_NoDup; [apply (wf_nodes t Hwf p)|apply (wf_nodes t Hwf s)]; apply known_vertex; [|done].
    apply Hknown. set_solver.
  - intros l Hl j Hj Hb. rewrite (carries_bits _ _ HF j Hj). apply existsb_exists. exists l. split; [|done].
    apply list_elem_of_In. unfold branches. apply list_elem_of_bind. exists s. split; [exact Hl|].
    apply list_elem_of_filter. split; [done|]. by apply elem_of_key_order.
Qed.

(** ** An example: the three nodes in a row *)
Definition lid_vector (s : bytes) : BABitvector := default (mkBV 0 []) (bv_of_string zero_memory s).

Definition row_gc (a : Z) : GlobalConf :=
  mkGC true false false [] (one_hot 0) (lid_vector (igraph_VAS row iLID a)) (one_hot 0) true
    [] [] [] [] [] [] [] [] [] [] [] [] 0.

Definition row_mac (a b : Z) : bytes := [0; 0; 0; 0; 0; a].

Definition row_table (a : Z) : list ForwardingEntry :=
  (λ l, mkFE (row_mac a l.1.2) (row_mac l.1.2 a) [] [] l.1.2 (lid_vector l.2) BA_PROTO)
    <$> filter (λ l, l.1.1 = a) (links row).

Definition row_wire (a port : Z) : option Z := Some port.

Lemma lid_vector_carries s : lid_string s → carries (lid_vector s) [s].
Proof.
  intros Hs. destruct (bv_of_string_lid zero_memory s zero_memory_words Hs) as (b & Hb & Hc).
  unfold lid_vector. by rewrite Hb.
Qed.

Lemma row_wired : wired row row_gc row_table row_wire row_mac.
Proof.
  constructor.
  - done.
  - intros a. apply Forall_fmap, Forall_forall. intros [[x b] s] [Ha Hl]%list_elem_of_filter. cbn in Ha. subst x.
    assert (is_byte a ∧ is_byte b) as [Hba Hbb].
    { unfold is_byte. change (links row) with (ListGraph.edges row) in Hl. cbn in Hl.
      repeat (apply elem_of_cons in Hl as [[= -> -> ->]|Hl]; [lia|]). by apply elem_of_nil in Hl. }
    split_and!; [split; [|done]|by left|].
    + apply (carries_fid _ _ (lid_vector_carries s (ok_links row row_ok _ Hl))).
    + split; cbn; repeat (apply Forall_cons; split; [done|]); by apply Forall_nil.
  - intros a Ha. apply lid_vector_carries, (ok_nodes row row_ok), Ha.
  - intros a b s Hl. eexists. split; [apply list_elem_of_fmap; eexists; split; [reflexivity|];
      apply list_elem_of_filter; split; [|exact Hl]; done|]. cbn. split_and!; [done| |done..].
    by apply lid_vector_carries, (ok_links row row_ok _ Hl).
  - intros a b c d Hne. unfold row_mac. congruence.
Qed.

Lemma data_reaches_subscribers_witness : ∃ result paths FID,
  calculateFID_sets {[node_name 1]} {[node_name 3]} ∅ ∅ row_tm = Ok ((result, paths), row_tm) ∧
  result !! node_name 1 = Some (Some FID) ∧
  handed_over row_gc row_table row_wire zero_cksum zero_cksum_pseudo (packet FID [7; 8]) 0 2 [7; 8].
Proof.
  destruct (data_reaches_subscribers row_tm {[node_name 1]} {[node_name 3]} row_gc row_table row_wire row_mac
    zero_cksum zero_cksum_pseudo) as (result & paths & Hrun & Hall).
  - apply row_wf.
  - vm_compute. reflexivity.
  - intros n Hn. assert (n = node_name 1 ∨ n = node_name 3) as [->| ->] by set_solver; eexists; vm_compute; reflexivity.
  - intros s ->%elem_of_singleton. exists (node_name 1), [0; 1; 2]. split; [set_solver|]. split; [|done].
    split; [by vm_compute|]. split; [|split; [by vm_compute|split; [|split; [by vm_compute|exact I]]]].
    + apply (bool_decide_unpack ((0, 1) ∈ (links (graph row_tm)).*1)). vm_compute. exact I.
    + apply (bool_decide_unpack ((1, 2) ∈ (links (graph row_tm)).*1)). vm_compute. exact I.
  - assert (graph row_tm = row) as -> by (vm_compute; reflexivity). apply row_wired.
  - destruct (Hall (node_name 3)) as (p & FID & Hp & HFID & Hdel); [set_solver|].
    apply elem_of_singleton in Hp as ->. exists result, paths, FID. split_and!; [exact Hrun|exact HFID|].
    assert (vertex_of row_tm (node_name 1) = 0) as H1 by (vm_compute; reflexivity).
    assert (vertex_of row_tm (node_name 3) = 2) as H3 by (vm_compute; reflexivity).
    assert (match calculateFID_sets {[node_name 1]} {[node_name 3]} ∅ ∅ row_tm with
      | Ok ((r, _), _) => match r !! node_name 1 with Some (Some F) => bv_bit F 0 | _ => true end
      | Fault _ => true end = false) as Hbit by (vm_compute; reflexivity).
    rewrite Hrun, HFID in Hbit. rewrite H1, H3 in Hdel. clear Hrun HFID H1 H3 Hall.
    apply Hdel; [lia|by repeat constructor|]. exists 0. split; [|exact Hbit]. by vm_compute.
Defined.
