(* ===== verification/TMCache.v ===== *)
(** * The cache of the topology manager (TopologyManager/tm_qos.cpp)

    IIMetaCache remembers the priorities of information items.  For an item it
    does not know it subscribes to the item that describes it, whose name is a
    hash of the name; the hash function SHA-1 of OpenSSL is a parameter.  The
    calls of [time(NULL)] read a clock that is a parameter as well. *)
From stdpp Require Import base list gmap sets.
From Stdlib Require Import ZArith Lia Bool.
From S2P Require Import Prelude Enums Containers QoSPackets UserLib TMGraph.

Local Open Scope Z_scope.

Definition EXPIRATION_TIME : Z := 600.
Definition QUERY_EXP_TIME : Z := 1.
Definition NON_LAZY_INT : Z := 3600.
Definition DEFAULT_QOS_PRIO : Z := 0.

Record MetaDataContent := mkMeta {
  md_qos : gmap Z Z;
  querying : bool;
  querytime : Z;
  created : Z;
}.

Definition new_meta : MetaDataContent := mkMeta ∅ false 0 0.

(** The cache, the connection to the node that the topology manager uses, and
    how often the clock was read *)
Record MetaCache := mkCache {
  ii_meta : gmap bytes MetaDataContent;
  last_non_lazy_update : Z;
  the_ba : Blackadder;
  ticks : nat;
}.

Definition set_meta (m : gmap bytes MetaDataContent) (c : MetaCache) : MetaCache :=
  mkCache m (last_non_lazy_update c) (the_ba c) (ticks c).

(** [s.substr(pos, n)], with [pos] and [n] of type size_t *)
Definition str_substr {S : Type} (s : bytes) (pos n : Z) : M S bytes :=
  let pos := pos mod 2 ^ 64 in
  let n := n mod 2 ^ 64 in
  if pos >? Z.of_nat (length s) then throw Thrown
  else mret (take (Z.to_nat (Z.min n (Z.of_nat (length s)))) (drop (Z.to_nat pos) s)).

(** The last fragment of an identifier, and what is before it *)
Definition last_id {S : Type} (ii : bytes) : M S bytes :=
  str_substr ii (len ii - Z.of_nat PURSUIT_ID_LEN) (Z.of_nat PURSUIT_ID_LEN).
Definition before_id {S : Type} (ii : bytes) : M S bytes :=
  str_substr ii 0 (len ii - Z.of_nat PURSUIT_ID_LEN).

Section cache.
Context (sha1 : bytes → bytes) (clock : nat → Z) (getpid : Z) (sendmsg_ret : list (Z * Netlink.addressed bytes) → Z).

Notation C := (M MetaCache).

Definition time_NULL : C Z :=
  c ← get; _ ← modify (λ c, mkCache (ii_meta c) (last_non_lazy_update c) (the_ba c) (S (ticks c)));
  mret (clock (ticks c)).

(** A call of the library *)
Definition call {A : Type} (m : M Blackadder A) : C A := λ c,
  match m (the_ba c) with
  | Ok (a, b) => Ok (a, mkCache (ii_meta c) (last_non_lazy_update c) b (ticks c))
  | Fault e => Fault e
  end.

Definition new_MetaCache (b : Blackadder) : MetaCache := mkCache ∅ (clock 0) b 1.

Definition exists_ii (ii : bytes) : C bool := c ← get; mret (bool_decide (is_Some (ii_meta c !! ii))).

Definition quering (ii : bytes) : C bool :=
  c ← get; match ii_meta c !! ii with None => mret false | Some m => mret (querying m) end.

Definition erase (ii : bytes) : C unit := modify (λ c, set_meta (delete ii (ii_meta c)) c).

(** What is outdated at the time [now]: entries are erased, a query that was
    not answered is also taken back. *)
Definition clean_entry (now : Z) (ii : bytes) (m : MetaDataContent) : C unit :=
  if created m >? 0 then
    if now - created m >? EXPIRATION_TIME then erase ii else mret tt
  else if querying m then
    if now - querytime m >? QUERY_EXP_TIME then
      item_id ← last_id ii;
      item_pre ← before_id ii;
      _ ← call (unsubscribe_info getpid sendmsg_ret item_id item_pre DOMAIN_LOCAL None 0);
      erase ii
    else mret tt
  else mret tt.

Definition cleanAllExpired : C unit :=
  now ← time_NULL;
  c ← get;
  for_each (in_order_of (ii_meta c)) (λ e, clean_entry now e.1 e.2).

Definition checkClean (ii : bytes) : C unit :=
  c ← get;
  match ii_meta c !! ii with
  | None => mret tt
  | Some m => now ← time_NULL; clean_entry now ii m
  end.

Definition getQoSID (bin_item_identifier : bytes) : C bytes :=
  bin_item_last ← last_id bin_item_identifier;
  mret (take PURSUIT_ID_LEN (sha1 bin_item_last)).

(** The cleaning that both getters start with *)
Definition clean_first (ii : bytes) : C unit :=
  now ← time_NULL;
  c ← get;
  _ ← (if now - last_non_lazy_update c >? NON_LAZY_INT then cleanAllExpired else mret tt);
  checkClean ii.

Definition getIIMeta (ii : bytes) : C (option (gmap Z Z)) :=
  _ ← clean_first ii;
  c ← get;
  mret (md_qos <$> ii_meta c !! ii).

(** The entry is used before it is compared with [end()]. *)
Definition getIIQoSPrio (ii : bytes) : C Z :=
  _ ← clean_first ii;
  c ← get;
  m ← found (ii_meta c) ii;
  if querying m then mret DEFAULT_QOS_PRIO
  else mret (default DEFAULT_QOS_PRIO (md_qos m !! QoS_PRIO)).

Definition addMetaItem (ii : bytes) : C unit :=
  now ← time_NULL;
  modify (λ c, set_meta (<[ii := mkMeta {[QoS_PRIO := 99]} false 0 now]> (ii_meta c)) c).

Definition sendQueryIfNeeded (ii : bytes) : C bool :=
  _ ← checkClean ii;
  e ← exists_ii ii;
  if (e : bool) then mret false
  else
    qos_id ← getQoSID ii;
    qos_prefix ← before_id ii;
    _ ← addMetaItem (qos_prefix ++ qos_id);
    _ ← call (subscribe_info getpid sendmsg_ret qos_id qos_prefix DOMAIN_LOCAL None 0);
    now ← time_NULL;
    _ ← modify (λ c, set_meta (<[ii := mkMeta ∅ true now 0]> (ii_meta c)) c);
    mret true.

(** IIMetaCache::update *)
Definition update_ii (ii : bytes) (meta : gmap Z Z) : C unit :=
  e ← exists_ii ii;
  if negb e then mret tt
  else
    now ← time_NULL;
    _ ← modify (λ c, set_meta (alter (λ m, mkMeta meta false (querytime m) now) ii (ii_meta c)) c);
    qos_id ← getQoSID ii;
    qos_prefix ← before_id ii;
    _ ← call (unsubscribe_info getpid sendmsg_ret qos_id qos_prefix DOMAIN_LOCAL None 0);
    erase (qos_prefix ++ qos_id).
End cache.
