(* ===== verification/Blocks.v ===== *)
(** * Blocks of memory

    What the managers do with requests and answers: reading at an offset,
    writing fields into a block of [malloc], strings that end at a NUL.  A
    request is the memory from its first byte to the end of its block. *)
From stdpp Require Import base list gmap sets.
From Stdlib Require Import ZArith Lia Bool.
From S2P Require Import Prelude Enums Bitvector GlobalConf UserLib.

Local Open Scope Z_scope.

Definition PID : Z := Z.of_nat PURSUIT_ID_LEN.
Definition NID : Z := Z.of_nat NODEID_LEN.
Definition FIDL : Z := Z.of_nat FID_LEN.

Section blocks.
Context {S : Type}.

(** [n] bytes at an offset; a negative number becomes a huge size_t. *)
Definition bytes_at (req : bytes) (off n : Z) : M S bytes :=
  if (0 <=? off) && (0 <=? n) && (off + n <=? len req)
  then mret (substr req (Z.to_nat off) (Z.to_nat n))
  else throw BufferOverflow.

Definition byte_at (req : bytes) (off : Z) : M S Z :=
  bs ← bytes_at req off 1; mret (default 0 (head bs)).

(** [malloc] has no memory for a negative size. *)
Definition alloc (size : Z) : M S buffer :=
  if size <? 0 then throw NullDeref else mret (make_packet (Z.to_nat size)).

Definition put (off : Z) (src : bytes) (response : buffer) : M S buffer :=
  match (if off <? 0 then Fault BufferOverflow else memcpy response (Z.to_nat off) src) with
  | Ok p => mret p
  | Fault e => throw e
  end.

(** Writing fields one after the other *)
Fixpoint puts (off : Z) (srcs : list bytes) (response : buffer) : M S buffer :=
  match srcs with
  | [] => mret response
  | src :: srcs => p ← put off src response; puts (off + len src) srcs p
  end.

(** The block as it is sent *)
Definition sent_bytes (junk : nat → Z) (response : buffer) : bytes := imap (λ i o, default (junk i) o) response.

(** [string(request, pos, n)]: the request becomes a C string, which ends at
    the first NUL, and then a part of it. *)
Fixpoint c_string (req : bytes) : M S bytes :=
  match req with
  | [] => throw BufferOverflow
  | c :: req => if c =? 0 then mret [] else s ← c_string req; mret (c :: s)
  end.

(** [n] node identifiers from an offset on *)
Definition read_nodes (req : bytes) (off n : Z) : M S (gset bytes) :=
  fold_each (seq 0 (Z.to_nat n)) (λ i X,
    nodeID ← bytes_at req (off + PID * Z.of_nat i) PID; mret ({[nodeID]} ∪ X)) ∅.

(** ** Runs *)

Lemma bytes_at_run (pre mid post : bytes) off n (s : S) :
  off = len pre → n = len mid → bytes_at (pre ++ mid ++ post) off n s = Ok (mid, s).
Proof.
  intros -> ->. unfold bytes_at, len. rewrite !length_app.
  rewrite !(proj2 (Z.leb_le _ _)) by lia. cbn [andb]. unfold substr.
  by rewrite !Nat2Z.id, drop_app_length, take_app_length.
Qed.

Lemma byte_at_run (pre post : bytes) b off (s : S) :
  off = len pre → byte_at (pre ++ b :: post) off s = Ok (b, s).
Proof.
  intros Ho. unfold byte_at. change (b :: post) with ([b] ++ post).
  by rewrite (run_bind _ _ _ _ _ (bytes_at_run pre [b] post off 1 s Ho eq_refl)).
Qed.

Lemma put_run off src p p' (s : S) : memcpy p (Z.to_nat off) src = Ok p' → 0 ≤ off →
  put off src p s = Ok (p', s).
Proof. intros Hm Ho. unfold put. rewrite (proj2 (Z.ltb_ge _ _)) by lia. by rewrite Hm. Qed.

Lemma alloc_run n (s : S) : 0 ≤ n → alloc n s = Ok (make_packet (Z.to_nat n), s).
Proof. intros Hn. unfold alloc. by rewrite (proj2 (Z.ltb_ge _ _)) by lia. Qed.

(** The steps of a sequence of copies that fills a block *)
Lemma memcpys_step p off src srcs p' : memcpys p off (src :: srcs) = Ok p' →
  ∃ p1, memcpy p off src = Ok p1 ∧ memcpys p1 (off + length src) srcs = Ok p'.
Proof. cbn [memcpys]. destruct (memcpy p off src); [by eauto|done]. Qed.

Lemma exact_copies (a b c : bytes) n : n = length (a ++ b ++ c) → ∃ p1 p2,
  memcpy (make_packet n) 0 a = Ok p1 ∧ memcpy p1 (length a) b = Ok p2 ∧
  memcpy p2 (length a + length b) c = Ok (Some <$> a ++ b ++ c).
Proof.
  intros ->. pose proof (memcpys_exact [a; b; c]) as He. cbn [concat] in He. rewrite app_nil_r in He.
  apply memcpys_step in He as (p1 & H1 & He). apply memcpys_step in He as (p2 & H2 & He).
  apply memcpys_step in He as (p3 & H3 & He). cbn [memcpys] in He. injection He as ->. cbn [Nat.add] in *. eauto.
Qed.

Lemma exact_two (a b : bytes) n : n = length (a ++ b) → ∃ p1,
  memcpy (make_packet n) 0 a = Ok p1 ∧ memcpy p1 (length a) b = Ok (Some <$> a ++ b).
Proof.
  intros ->. pose proof (memcpys_exact [a; b]) as He. cbn [concat] in He. rewrite app_nil_r in He.
  apply memcpys_step in He as (p1 & H1 & He). apply memcpys_step in He as (p2 & H2 & He).
  cbn [memcpys] in He. injection He as ->. cbn [Nat.add] in *. eauto.
Qed.

Lemma sent_bytes_all junk (l : bytes) : sent_bytes junk (Some <$> l) = l.
Proof.
  unfold sent_bytes. apply list_eq. intros i. rewrite list_lookup_imap, list_lookup_fmap.
  by destruct (l !! i).
Qed.

(** Fields that fit *)
Lemma puts_run off srcs p p' (s : S) : 0 ≤ off → memcpys p (Z.to_nat off) srcs = Ok p' →
  puts off srcs p s = Ok (p', s).
Proof.
  revert off p. induction srcs as [|src srcs IH]; intros off p Ho; [by intros [= ->]|].
  intros (p1 & H1 & H2)%memcpys_step. cbn [puts]. rewrite (run_bind _ _ _ _ _ (put_run off src p p1 s H1 Ho)).
  apply IH; [unfold len; lia|]. rewrite <-H2. f_equal. unfold len. lia.
Qed.

Lemma c_string_run (l rest : bytes) (s : S) : 0 ∉ l → c_string (l ++ 0 :: rest) s = Ok (l, s).
Proof.
  induction l as [|c l IH]; intros Hl; [done|]. cbn [app c_string].
  apply not_elem_of_cons in Hl as [Hc Hl]. rewrite (proj2 (Z.eqb_neq c 0)) by done.
  by rewrite (run_bind _ _ _ _ _ (IH Hl)).
Qed.

Lemma c_string_short (l : bytes) (s : S) : 0 ∉ l → c_string l s = Fault BufferOverflow.
Proof.
  induction l as [|c l IH]; intros Hl; [done|]. cbn [c_string].
  apply not_elem_of_cons in Hl as [Hc Hl]. rewrite (proj2 (Z.eqb_neq c 0)) by done.
  unfold mbind, M_bind. by rewrite IH.
Qed.

(** Names of nodes *)
Definition node_names (l : list bytes) : Prop := Forall (λ n, length n = PURSUIT_ID_LEN) l.

Lemma len_names l : node_names l → len (concat l) = PID * Z.of_nat (length l).
Proof.
  unfold len, PID. induction 1 as [|n l Hn Hl IH]; [done|]. cbn [concat length].
  rewrite length_app, Hn. unfold PURSUIT_ID_LEN in *. lia.
Qed.

Lemma read_nodes_run pre l post off (s : S) : node_names l → off = len pre →
  read_nodes (pre ++ concat l ++ post) off (Z.of_nat (length l)) s = Ok (list_to_set l, s).
Proof.
  intros Hl Hoff. unfold read_nodes. rewrite Nat2Z.id.
  assert (∀ k pred todo (X : gset bytes), l = pred ++ todo → k = length pred →
    fold_each (seq k (length todo)) (λ i X, nodeID ← bytes_at (pre ++ concat l ++ post) (off + PID * Z.of_nat i) PID;
      mret ({[nodeID]} ∪ X)) X s = Ok (list_to_set todo ∪ X, s)) as Hgen.
  { intros k pred todo. revert k pred. induction todo as [|n todo IH]; intros k pred X Heq Hk; cbn [length seq fold_each].
    { cbn. by rewrite (left_id_L ∅ (∪)). }
    assert (length n = PURSUIT_ID_LEN ∧ node_names pred) as [Hn Hd].
    { unfold node_names in *. rewrite Heq, Forall_app, Forall_cons in Hl. tauto. }
    assert (pre ++ concat l ++ post = (pre ++ concat pred) ++ n ++ concat todo ++ post) as Hsplit.
    { rewrite Heq, concat_app. cbn [concat]. by rewrite <-!app_assoc. }
    rewrite (run_bind _ _ s ({[n]} ∪ X) s).
    - rewrite (IH (Datatypes.S k) (pred ++ [n])); [|by rewrite Heq, <-app_assoc|rewrite length_app; cbn; lia].
      do 2 f_equal. cbn [list_to_set]. set_solver.
    - rewrite Hsplit. rewrite (run_bind _ _ s n s); [done|]. apply bytes_at_run.
      + unfold len in *. rewrite length_app, Nat2Z.inj_add. change (Z.of_nat (length (concat pred))) with (len (concat pred)).
        rewrite (len_names pred Hd), Hk, Hoff. done.
      + unfold len, PID. by rewrite Hn. }
  rewrite (Hgen 0%nat [] l ∅ eq_refl eq_refl). by rewrite (right_id_L ∅ (∪)).
Qed.
End blocks.
