(* ===== verification/TMHandlers.v ===== *)
(** * The requests of the topology manager (TopologyManager/tm.cpp)

    The handlers of the event loop: matches, notifications about scopes, link
    states.  A request is the memory from [ev.data] to the end of its block and
    the length [ev.data_len]; reading behind the block is the fault
    [BufferOverflow].  Answers are built in blocks of [malloc] and published
    through the user library; the bytes of a block that were never written
    hold [junk]. *)
From stdpp Require Import base list gmap sets.
From Stdlib Require Import ZArith Lia Bool.
From S2P Require Import Prelude Enums Bitvector GlobalConf Containers LibBitvector ByteArray QoSPackets Igraph UserLib Blocks TMGraph TMCache.

Local Open Scope Z_scope.

(** ** The names that the topology manager uses *)
Definition req_bin_id : bytes := ff_scope 254.
Definition uc_req_bin_id : bytes := ff_scope 253.
Definition resp_bin_prefix_id : bytes := ff_scope 253.
Definition resl_bin_id : bytes := ff_scope 240.
Definition resl_resp_bin_id : bytes := ff_scope 241.
Definition resl_req_bin_id : bytes := ff_scope 242.
Definition uc_resl_bin_id : bytes := ff_scope 243.
Definition lsn_bin_id : bytes := ff_scope 201.
Definition lsm_bin_scope : bytes := ff_scope 251.
Definition pathMgmt_bin_id : bytes := ff_scope 249.
Definition pathMgmt_bin_full_id : bytes := pathMgmt_bin_id ++ pathMgmt_bin_id.
Definition UpdatePathId : bytes := resl_bin_id.
Definition UpdateUnicastPathId : bytes := resl_bin_id ++ uc_resl_bin_id.
Definition DiscoverFailureId : bytes := resl_req_bin_id.
Definition UnicastDeliveryId : bytes := req_bin_id ++ uc_req_bin_id.
Definition RecoverUnicastDeliveryId : bytes := resl_resp_bin_id ++ uc_resl_bin_id.

(** ** The state *)
Record TMState (G : Type) := mkTMS { ts_graph : TMgraph G; ts_cache : MetaCache }.
Arguments mkTMS {G}.
Arguments ts_graph {G}.
Arguments ts_cache {G}.

Section handlers.
Context {G : Type} `{Igraph G}.
Context (memory : nat → list Z) (es_harmless : bool) (nan : Z).
Context (sha1 : bytes → bytes) (clock : nat → Z) (getpid : Z) (sendmsg_ret : list (Z * Netlink.addressed bytes) → Z).
Context (junk : nat → Z).

Notation T := (M (TMState G)).

Definition on_graph {A : Type} (m : M (TMgraph G) A) : T A := λ s,
  match m (ts_graph s) with Ok (a, t) => Ok (a, mkTMS t (ts_cache s)) | Fault e => Fault e end.
Definition on_cache {A : Type} (m : M MetaCache A) : T A := λ s,
  match m (ts_cache s) with Ok (a, c) => Ok (a, mkTMS (ts_graph s) c) | Fault e => Fault e end.
Definition get_graph : T (TMgraph G) := on_graph get.

(** A local packet of the quality-of-service library *)
Definition on_packet {A : Type} (m : M buffer A) (d : buffer) : T (A * buffer) := λ s,
  match m d with Ok r => Ok (r, s) | Fault e => Fault e end.

(** ** Publishing *)

(** [FID->_data], where FID may be NULL *)
Definition fid_block (FID : option BABitvector) : T bytes :=
  v ← deref FID; mret (bytes_of_words (bv_data v)).

(** [ba->publish_data(id, IMPLICIT_RENDEZVOUS, FID->_data, FID_LEN, data, n)] *)
Definition publish (id : bytes) (FID : option BABitvector) (data : bytes) (n : Z) : T unit :=
  fid ← fid_block FID;
  on_cache (call (publish_data getpid sendmsg_ret id IMPLICIT_RENDEZVOUS (Some fid) FID_LEN data (Z.to_nat n))).

(** Publishing an answer to a node *)
Definition publish_to (id node : bytes) (response : buffer) : T unit :=
  FID ← on_graph (getTM_to_nodeFID node);
  publish id FID (sent_bytes junk response) (Z.of_nat (length response)).

(** ** Matches *)

Definition handleIIMetaData (req : bytes) (request_len : Z) : T unit :=
  '(_, d) ← on_packet (setData req request_len) [];
  '(id, d) ← on_packet getID_RAW d;
  '(l, _) ← on_packet getIIStatus d;
  on_cache (update_ii sha1 clock getpid sendmsg_ret id l).

(** The choice between plain and weighted paths *)
Definition calculate (publishers subscribers : gset bytes) (ids_str : bytes)
    : T (gmap bytes (option BABitvector) * gmap bytes (gset bytes)) :=
  q ← on_graph (getExten QOS);
  ok ← (if (q : bool) then on_graph isQoSMapOk else mret false);
  if (ok : bool) then
    added ← on_cache (sendQueryIfNeeded sha1 clock getpid sendmsg_ret ids_str);
    prio ← (if (added : bool) then mret DEFAULT_QOS_PRIO
            else on_cache (getIIQoSPrio clock getpid sendmsg_ret ids_str));
    netprio ← on_graph (getWeightKeyForIIPrio (u8 prio));
    t ← get_graph;
    (** [qlwm[netprio]] adds an empty vector if there is none *)
    let weights := default [] (qlwm t !! u8 netprio) in
    _ ← on_graph (modify (set_qlwm (<[u8 netprio := weights]> (qlwm t))));
    on_graph (calculateFID_weighted_sets weights publishers subscribers ∅ ∅)
  else on_graph (calculateFID_sets publishers subscribers ∅ ∅).

(** What the loop over the results collects for the resilience manager *)
Record Collected := mkCol {
  no_alt_publishers : Z;
  alt_publishers : bytes;
  no_pathvectors : Z;
  pathvectors_Field : bytes;
}.

Definition add_path (col : Collected) (path : bytes) : Collected :=
  mkCol (no_alt_publishers col) (alt_publishers col) (u8 (no_pathvectors col + 1))
    (pathvectors_Field col ++ [u8 (len path)] ++ path).

(** The answer to one publisher *)
Definition answer_publisher (req : bytes) (request_len request_type ids_index : Z)
    (pathvectors : gmap bytes (gset bytes)) (entry : bytes * option BABitvector) (col : Collected)
    : T Collected :=
  let '(publisher, o) := entry in
  let id := resp_bin_prefix_id ++ publisher in
  rs ← on_graph (getExten RS);
  match o with
  | None =>
      response ← alloc (request_len - ids_index + 1);
      response ← put 0 [STOP_PUBLISH] response;
      ids ← bytes_at req ids_index (request_len - ids_index);
      response ← put 1 ids response;
      _ ← publish_to id publisher response;
      if (rs : bool) then
        mret (mkCol (u8 (no_alt_publishers col + 1)) (alt_publishers col ++ publisher)
                (no_pathvectors col) (pathvectors_Field col))
      else mret col
  | Some FID =>
      let response_type := if request_type =? UPDATE_FID then UPDATE_FID else START_PUBLISH in
      response ← alloc (request_len - ids_index + 1 + FIDL);
      response ← put 0 [response_type] response;
      ids ← bytes_at req ids_index (request_len - ids_index);
      response ← put 1 ids response;
      fid ← bytes_at (bytes_of_words (bv_data FID)) 0 FIDL;
      response ← put (1 + request_len - ids_index) fid response;
      _ ← publish_to id publisher response;
      if (rs : bool) then
        paths ← found pathvectors publisher;
        mret (foldl add_path col (key_order paths))
      else mret col
  end.

(** The notification of the resilience manager *)
Definition notify_RM (ids : bytes) (no_ids IDLen : Z) (col : Collected) : T unit :=
  t ← get_graph;
  let field := if no_pathvectors col >? 0 then pathvectors_Field col else [] in
  let size := 1 + 1 + 1 + no_ids * IDLen * PID + 1 + len field + 1 + no_alt_publishers col * NID in
  let behind := 3 + IDLen * PID in
  response ← alloc size;
  response ← puts 0 [[UPDATE_DELIVERY]; [no_ids]; [IDLen]; ids] response;
  response ← put behind [no_pathvectors col] response;
  response ← put (behind + 1) field response;
  response ← put (behind + 1 + len field) [no_alt_publishers col] response;
  alt ← bytes_at (c_str (alt_publishers col)) 0 (no_alt_publishers col * NID);
  response ← put (behind + 1 + len field + 1) alt response;
  publish_to (UpdatePathId ++ RMnodeID t) (RMnodeID t) response.

(** MATCH_PUB_SUBS and UPDATE_FID: the publishers, the subscribers, where the
    identifiers start, how many there are, and the length of the first *)
Definition match_fields (req : bytes) : T (gset bytes * gset bytes * Z * Z * Z) :=
  no_publishers ← byte_at req 2;
  publishers ← read_nodes req 3 no_publishers;
  no_subscribers ← byte_at req (3 + no_publishers * PID);
  subscribers ← read_nodes req (4 + no_publishers * PID) no_subscribers;
  let ids_index := 4 + no_publishers * PID + no_subscribers * PID in
  no_ids ← byte_at req ids_index;
  IDLen ← byte_at req (ids_index + 1);
  mret (publishers, subscribers, ids_index, no_ids, IDLen).

(** The identifiers are copied from behind the two bytes that were just read,
    but as many bytes as if from before them. *)
Definition handle_match (req : bytes) (request_len request_type : Z) : T unit :=
  '(publishers, subscribers, ids_index, no_ids, IDLen) ← match_fields req;
  let ids_size := request_len - ids_index in
  ids ← bytes_at req (ids_index + 2) ids_size;
  ids_str ← bytes_at ids 0 (IDLen * PID);
  '(result, pathvectors) ← calculate publishers subscribers ids_str;
  col ← fold_each (in_order_of result)
    (answer_publisher req request_len request_type ids_index pathvectors) (mkCol 0 [] 0 []);
  rs ← on_graph (getExten RS);
  if (rs : bool) then notify_RM ids no_ids IDLen col else mret tt.

(** SCOPE_PUBLISHED and SCOPE_UNPUBLISHED *)
Definition handle_scope (req : bytes) (request_len request_type : Z) : T unit :=
  no_subscribers ← byte_at req 2;
  let ids_index := 3 + no_subscribers * PID in
  for_each (seq 0 (Z.to_nat no_subscribers)) (λ i,
    nodeID ← bytes_at req (3 + PID * Z.of_nat i) PID;
    response ← alloc (request_len - 1 - 1 - no_subscribers * PID + FIDL);
    response ← put 0 [request_type] response;
    ids ← bytes_at req ids_index (request_len - ids_index);
    response ← put 1 ids response;
    publish_to (resp_bin_prefix_id ++ nodeID) nodeID response).

Definition handleMulticastPathRequest (req : bytes) (request_len : Z) : T unit :=
  request_type ← byte_at req 0;
  _ ← byte_at req 1;
  if request_type =? QoS_METADATA then handleIIMetaData req request_len
  else if (request_type =? MATCH_PUB_SUBS) || (request_type =? UPDATE_FID)
  then handle_match req request_len request_type
  else if (request_type =? SCOPE_PUBLISHED) || (request_type =? SCOPE_UNPUBLISHED)
  then handle_scope req request_len request_type
  else mret tt.

(** ** Unicast *)

(** The first result with a FID answers the publisher; those before it are
    collected.  Returns their number and names, how many paths there are, and
    the path. *)
Fixpoint answer_unicast (req : bytes) (request_len request_type ids_index : Z) (publisher : bytes)
    (paths : gmap bytes bytes) (result : list (bytes * option BABitvector)) (n_alt : Z) (alt : bytes)
    : T (Z * bytes * Z * bytes) :=
  match result with
  | [] => mret (n_alt, alt, 0, [])
  | (subscriber, None) :: result =>
      rs ← on_graph (getExten RS);
      if (rs : bool)
      then answer_unicast req request_len request_type ids_index publisher paths result (u8 (n_alt + 1)) (alt ++ subscriber)
      else answer_unicast req request_len request_type ids_index publisher paths result n_alt alt
  | (subscriber, Some FID) :: _ =>
      let response_type := if request_type =? MATCH_PUB_SUBS then START_PUBLISH else UPDATE_FID in
      response ← alloc (request_len - ids_index + 1 + FIDL);
      response ← put 0 [response_type] response;
      ids ← bytes_at req ids_index (request_len - ids_index);
      response ← put 1 ids response;
      fid ← bytes_at (bytes_of_words (bv_data FID)) 0 FIDL;
      response ← put (1 + request_len - ids_index) fid response;
      _ ← publish_to (resp_bin_prefix_id ++ publisher) publisher response;
      rs ← on_graph (getExten RS);
      if (rs : bool) then mret (n_alt, alt, 1, default [] (paths !! subscriber))
      else mret (n_alt, alt, 0, [])
  end.

Definition unicast_match (req : bytes) (request_len request_type : Z) : T unit :=
  no_publishers ← byte_at req 2;
  publisher ← bytes_at req 3 PID;
  no_subscribers ← byte_at req (3 + NID);
  subscribers ← read_nodes req (4 + NID) no_subscribers;
  let offset := 4 + NID + no_subscribers * NID in
  ids ← alloc (request_len - offset);
  no_ids ← byte_at req offset;
  IDLen ← byte_at req (offset + 1);
  ids_bytes ← bytes_at req (offset + 2) (IDLen * PID);
  _ ← put 0 ids_bytes ids;
  '(result, paths) ← on_graph (UcalculateFID publisher subscribers ∅ ∅);
  let ids_index := 4 + no_publishers * PID + no_subscribers * PID in
  '(n_alt, alt, no_paths, path) ←
    answer_unicast req request_len request_type ids_index publisher paths (in_order_of result) 0 [];
  let path_len := u8 (len path) in
  rs ← on_graph (getExten RS);
  if rs && (path_len >? 0) then
    t ← get_graph;
    response ← alloc (1 + 1 + 1 + IDLen * PID + NID + 1 + 1 + path_len + 1 + n_alt * NID);
    alts ← bytes_at (c_str alt) 0 (n_alt * NID);
    name ← bytes_at (c_str publisher) 0 NID;
    way ← bytes_at (c_str path) 0 path_len;
    response ← puts 0 [[UPDATE_DELIVERY]; [no_ids]; [IDLen]; ids_bytes; name; [no_paths]; [path_len]; way;
                       [n_alt]; alts] response;
    publish_to (UpdateUnicastPathId ++ RMnodeID t) (RMnodeID t) response
  else mret tt.

(** MATCH_PUB_iSUBS: one FID for each implicit subscriber *)
Definition unicast_isubs (req : bytes) : T unit :=
  _ ← byte_at req 1;
  publisher ← bytes_at req 2 PID;
  no_subscribers ← byte_at req (2 + NID);
  response ← alloc (1 + 1 + no_subscribers * NID + no_subscribers * FIDL);
  response ← puts 0 [[UPDATE_FID_iSUB]; [no_subscribers]] response;
  response ← fold_each (seq 0 (Z.to_nat no_subscribers)) (λ i response,
    nodeID ← bytes_at req (3 + NID + NID * Z.of_nat i) NID;
    FID ← on_graph (calculateFID publisher nodeID);
    fid ← bytes_at (bytes_of_words (bv_data FID)) 0 FIDL;
    puts (2 + (NID + FIDL) * Z.of_nat i) [nodeID; fid] response) response;
  publish_to (resp_bin_prefix_id ++ publisher) publisher response.

(** SCOPE_PUBLISHED and SCOPE_UNPUBLISHED; the offset grows by the number of
    subscribers instead of the size of that number. *)
Definition unicast_scope (req : bytes) (request_len request_type : Z) : T unit :=
  no_subscribers ← byte_at req 2;
  let offset := 2 + no_subscribers in
  let ids_index := offset + no_subscribers * PID in
  for_each (seq 0 (Z.to_nat no_subscribers)) (λ i,
    nodeID ← bytes_at req (offset + PID * Z.of_nat i) PID;
    response ← alloc (request_len - 1 - 1 - no_subscribers * PID + FIDL);
    response ← put 0 [request_type] response;
    ids ← bytes_at req ids_index (request_len - ids_index);
    response ← put 1 ids response;
    publish_to (resp_bin_prefix_id ++ nodeID) nodeID response).

Definition handleUnicastPathRequest (req : bytes) (request_len : Z) : T unit :=
  request_type ← byte_at req 0;
  _ ← byte_at req 1;
  if (request_type =? MATCH_PUB_SUBS) || (request_type =? UPDATE_FID)
  then unicast_match req request_len request_type
  else if request_type =? MATCH_PUB_iSUBS then unicast_isubs req
  else if (request_type =? SCOPE_PUBLISHED) || (request_type =? SCOPE_UNPUBLISHED)
  then unicast_scope req request_len request_type
  else mret tt.

(** ** Links *)

(** [AND_CMP = lid & FID; AND_CMP == lid], where FID may be NULL *)
Definition uses (lid : BABitvector) (FID : option BABitvector) : T bool :=
  v ← deref FID;
  r ← on_words (lib_and lid v);
  mret (bv_eqb r lid).

(** The message with a new FID to the rendezvous point or the topology manager *)
Definition send_update (type : Z) (nodeID : bytes) (FID : BABitvector) (response : buffer) : T buffer :=
  fid ← bytes_at (bytes_of_words (bv_data FID)) 0 FIDL;
  response ← puts 0 [[type]; fid] response;
  _ ← publish_to (resp_bin_prefix_id ++ nodeID) nodeID response;
  mret response.

Definition renew_RVFID (nodeID : bytes) (response : buffer) : T buffer :=
  t ← get_graph;
  FID ← on_graph (calculateFID nodeID (RVnodeID t));
  _ ← on_graph (setRVFID nodeID FID);
  send_update UPDATE_RVFID nodeID FID response.

Definition renew_TMFID (nodeID : bytes) (response : buffer) : T buffer :=
  t ← get_graph;
  FID ← on_graph (calculateFID nodeID (tm_nodeID t));
  _ ← on_graph (setTMFID nodeID FID);
  send_update UPDATE_TMFID nodeID FID response.

(** A link that failed, seen from one node: first the FID to the node, then
    those from the node.  [each] is what else is done for each of the lost
    identifiers. *)
Definition node_lost_link (each : bytes → BABitvector → T unit) (lids : list BABitvector)
    (nodeID : bytes) (response : buffer) : T buffer :=
  _ ← for_each lids (λ lid,
    FID ← on_graph (getTM_to_nodeFID nodeID);
    m ← uses lid FID;
    _ ← (if (m : bool) then
           t ← get_graph;
           FID ← on_graph (calculateFID (tm_nodeID t) nodeID);
           on_graph (setTM_to_nodeFID nodeID FID)
         else mret tt);
    each nodeID lid);
  FID ← on_graph (getTM_to_nodeFID nodeID);
  v ← deref FID;
  if zero v then
    z ← zero_fid;
    _ ← on_graph (setRVFID nodeID z);
    _ ← on_graph (setTMFID nodeID z);
    mret response
  else fold_each lids (λ lid response,
    rv ← on_graph (getRVFID nodeID);
    m ← uses lid rv;
    response ← (if (m : bool) then renew_RVFID nodeID response else mret response);
    tm ← on_graph (getTMFID nodeID);
    m ← uses lid tm;
    if (m : bool) then renew_TMFID nodeID response else mret response) response.

(** The nodes that the loops over TM_to_nodeFID meet: as many steps as there
    are nodes, from its beginning *)
Definition fid_nodes : T (list bytes) :=
  t ← get_graph;
  if decide (size (reverse_node_index t) ≤ size (TM_to_nodeFID t))%nat
  then mret (take (size (reverse_node_index t)) (key_order (dom (TM_to_nodeFID t))))
  else throw EndDeref.

(** ... and all nodes; the FIDs to all of them are united. *)
Definition link_lost (each : bytes → BABitvector → T unit) : T (list BABitvector * BABitvector * buffer) :=
  t ← get_graph;
  response ← alloc (1 + FIDL);
  all ← zero_fid;
  let lids := (in_order_of (freedLIDs t)).*2 in
  nodes ← fid_nodes;
  '(all, response) ← fold_each nodes (λ nodeID acc,
    let '(all, response) := acc in
    response ← node_lost_link each lids nodeID response;
    FID ← on_graph (getTM_to_nodeFID nodeID);
    v ← deref FID;
    all ← on_graph (or_into all v);
    mret (all, response)) (all, response);
  mret (lids, all, response).

(** A link that is back: nodes that could not be reached get their FIDs. *)
Definition link_back : T unit :=
  response ← alloc (1 + FIDL);
  nodes ← fid_nodes;
  _ ← fold_each nodes (λ nodeID response,
    FID ← on_graph (getTM_to_nodeFID nodeID);
    v ← deref FID;
    if zero v then
      t ← get_graph;
      FID ← on_graph (calculateFID (tm_nodeID t) nodeID);
      if zero FID then mret response
      else
        _ ← on_graph (setTM_to_nodeFID nodeID FID);
        response ← renew_RVFID nodeID response;
        renew_TMFID nodeID response
    else mret response) response;
  mret tt.

(** What both handlers of link states start with *)
Definition link_update (req : bytes) (request_publisher : bytes) : T (bytes * Z * bool * bool) :=
  lsn_type ← byte_at req 0;
  net_type ← byte_at req 1;
  s ← c_string req;
  affected_node ← str_substr s 2 NID;
  let remove := lsn_type =? REMOVE_LINK in
  update ← on_graph (updateGraph memory es_harmless affected_node request_publisher (negb (net_type =? 0)) remove);
  mret (affected_node, net_type, update, remove).

(** Path management: the nodes are told which identifiers were lost. *)
Definition tell_lid (nodeID : bytes) (lid : BABitvector) : T unit :=
  FID ← on_graph (getTM_to_nodeFID nodeID);
  publish pathMgmt_bin_full_id FID (bytes_of_words (bv_data lid)) FIDL.

Definition handleLinkStateNotificationPM (uc_notification : bool) (req request_publisher : bytes) : T unit :=
  '(_, _, update, remove) ← link_update req request_publisher;
  if update : bool then
    if remove : bool then
      '(lids, all, _) ← link_lost (λ nodeID lid, if uc_notification then tell_lid nodeID lid else mret tt);
      if uc_notification then mret tt
      else for_each lids (λ lid, publish pathMgmt_bin_full_id (Some all) (bytes_of_words (bv_data lid)) FIDL)
    else link_back
  else mret tt.

(** With a resilience manager, that one is asked to find what was lost. *)
Definition handleLinkStateNotificationRM (req request_publisher : bytes) : T unit :=
  '(affected_node, net_type, update, remove) ← link_update req request_publisher;
  if update : bool then
    if remove : bool then
      _ ← link_lost (λ _ _, mret tt);
      t ← get_graph;
      rm_request ← alloc (1 + 1 + NID + NID);
      pub ← bytes_at (c_str request_publisher) 0 NID;
      node ← bytes_at (c_str affected_node) 0 NID;
      rm_request ← puts 0 [[DISCOVER_FAILURE]; [net_type]; pub; node] rm_request;
      publish_to (DiscoverFailureId ++ RMnodeID t) (RMnodeID t) rm_request
    else link_back
  else mret tt.

(** Reports on the quality of links *)
Definition handleLSMUpdate (data : bytes) (data_len : Z) : T unit :=
  '(_, d) ← on_packet (setData data data_len) [];
  '(n, d) ← on_packet getLinksLen d;
  _ ← fold_each (seq 0 (Z.to_nat n)) (λ i d,
    '(lid, d) ← on_packet (getLidStr i) d;
    '(status, d) ← on_packet (getLinkStatus i) d;
    _ ← on_graph (updateLinkState nan lid status);
    '(_, d) ← on_packet (getLinkStatus i) d;
    mret d) d;
  mret tt.

(** ** The event loop *)

(** One event: [data] is the memory from [ev.data] on.  The result tells
    whether the loop goes on. *)
Definition handle_event (uc_notification : bool) (type : Z) (id : bytes) (data : bytes) (data_len : Z) : T bool :=
  if type =? UNDEF_EVENT then mret false
  else if type =? PUBLISHED_DATA then
    publisher ← last_id id;
    prefix_id ← before_id id;
    pm ← on_graph (getExten PM);
    rs ← on_graph (getExten RS);
    q ← on_graph (getExten QOS);
    _ ← (if decide (prefix_id = lsn_bin_id ∧ pm = true)
         then handleLinkStateNotificationPM uc_notification data publisher
         else if decide (prefix_id = lsn_bin_id ∧ rs = true)
         then handleLinkStateNotificationRM data publisher
         else if decide (prefix_id = lsm_bin_scope ∧ q = true) then handleLSMUpdate data data_len
         else if decide (prefix_id = UnicastDeliveryId ∨ prefix_id = RecoverUnicastDeliveryId)
         then handleUnicastPathRequest data data_len
         else handleMulticastPathRequest data data_len);
    mret true
  else mret true.

(** What main subscribes to and publishes before it waits for the loop *)
Definition announce : T unit :=
  on_cache (call (
    _ ← subscribe_scope getpid sendmsg_ret req_bin_id [] IMPLICIT_RENDEZVOUS None 0;
    _ ← subscribe_scope getpid sendmsg_ret uc_req_bin_id req_bin_id IMPLICIT_RENDEZVOUS None 0;
    _ ← subscribe_scope getpid sendmsg_ret lsn_bin_id [] IMPLICIT_RENDEZVOUS None 0;
    _ ← subscribe_scope getpid sendmsg_ret resl_resp_bin_id [] IMPLICIT_RENDEZVOUS None 0;
    _ ← subscribe_scope getpid sendmsg_ret uc_resl_bin_id resl_resp_bin_id IMPLICIT_RENDEZVOUS None 0;
    _ ← publish_scope getpid sendmsg_ret pathMgmt_bin_id [] IMPLICIT_RENDEZVOUS None 0;
    _ ← publish_info getpid sendmsg_ret pathMgmt_bin_id pathMgmt_bin_id IMPLICIT_RENDEZVOUS None 0;
    subscribe_scope getpid sendmsg_ret lsm_bin_scope [] DOMAIN_LOCAL None 0)).

End handlers.
