(* ===== verification/TMAnswers.v ===== *)
(** * The answers of the topology manager

    The handler of match requests on the requests that the rendezvous point
    makes: who gets which notification. *)
From stdpp Require Import base list gmap sets.
From Stdlib Require Import ZArith Lia Bool.
From S2P Require Import Prelude Enums Bitvector GlobalConf Containers LibBitvector Igraph InfoGraph LocalRV RVInv RVProps RVRendezvous LocalProxy ProxyInv ProxyLeave ProxyProps ProxyData ProxyNet ProxyDelivery ProxyNotify UserLib UserProps Blocks QoSPackets TMGraph TMPaths TMLinks TMProps TMCache TMHandlers.

Local Open Scope Z_scope.

(** ** Sending *)

Definition with_ba (f : Blackadder → Blackadder) {G : Type} (s : TMState G) : TMState G :=
  mkTMS (ts_graph s) (mkCache (ii_meta (ts_cache s)) (last_non_lazy_update (ts_cache s))
    (f (the_ba (ts_cache s))) (ticks (ts_cache s))).

Section answers.
Context {G : Type} `{IgraphLaws G}.
Context (memory : nat → list Z) (es_harmless : bool) (nan : Z).
Context (sha1 : bytes → bytes) (clock : nat → Z) (getpid : Z) (sendmsg_ret : list (Z * Netlink.addressed bytes) → Z).
Context (junk : nat → Z).

(** The message by which data leave for a node *)
Definition to_node (t : TMgraph G) (node data : bytes) : bytes :=
  let F := default (mkBV 0 []) (mjoin (TM_to_nodeFID t !! node)) in
  request_message getpid (data_packet (resp_bin_prefix_id ++ node) IMPLICIT_RENDEZVOUS (fid_bytes F ++ data)).

(** The topology manager knows a FID to the node. *)
Definition routed (t : TMgraph G) (node : bytes) : Prop :=
  length node = PURSUIT_ID_LEN ∧ ∃ F, TM_to_nodeFID t !! node = Some (Some F) ∧ fid_ok F.

Lemma publish_to_run node (data : bytes) (s : TMState G) : routed (ts_graph s) node →
  publish_to getpid sendmsg_ret junk (resp_bin_prefix_id ++ node) node (Some <$> data) s
  = Ok (tt, with_ba (sent_to_node (to_node (ts_graph s) node data)) s).
Proof.
  intros (Hn & F & HF & Hok). destruct s as [t c]. cbn [ts_graph] in *. unfold publish_to.
  rewrite (run_bind _ _ _ (Some F) (mkTMS t c)).
  2:{ unfold on_graph, getTM_to_nodeFID, mbind, M_bind. cbn. unfold found. by rewrite HF. }
  unfold publish. rewrite (run_bind _ _ _ (bytes_of_words (bv_data F)) (mkTMS t c) eq_refl).
  rewrite sent_bytes_all, length_fmap, Nat2Z.id. unfold on_cache, call. cbn [ts_cache].
  rewrite (publish_data_run getpid sendmsg_ret _ _ _ _ _ 2%nat).
  - unfold with_ba, to_node. rewrite HF. done.
  - split; [|lia]. unfold resp_bin_prefix_id, ff_scope. rewrite !length_app, length_replicate, Hn. done.
  - cbn [opt_fits]. pose proof (length_fid_bytes F Hok) as Hl. unfold fid_bytes in Hl.
    rewrite length_take in Hl. lia.
Qed.

(** ** Writing *)

(** ** One answer *)

(** A topology manager without extensions *)
Definition plain (t : TMgraph G) : Prop := extension t = replicate (Z.to_nat SUPPORT_SIZE) false.

Lemma no_extension idx (s : TMState G) : plain (ts_graph s) → 0 ≤ idx < SUPPORT_SIZE →
  on_graph (getExten idx) s = Ok (false, s).
Proof.
  intros Hp Hi. destruct s as [t c]. unfold on_graph, getExten. cbn [ts_graph] in *.
  rewrite (proj2 (Z.ltb_ge _ _)), Z.gtb_ltb, (proj2 (Z.ltb_ge _ _)) by lia. cbn [orb].
  unfold mbind, M_bind. cbn [get]. rewrite Hp, lookup_replicate_2 by (unfold SUPPORT_SIZE in *; lia). done.
Qed.

(** What a publisher is told *)
Definition answer (type : Z) (o : option BABitvector) (ids : bytes) : bytes :=
  match o with
  | None => [STOP_PUBLISH] ++ ids
  | Some F => [if type =? UPDATE_FID then UPDATE_FID else START_PUBLISH] ++ ids ++ fid_bytes F
  end.

Section one.
Context (front ids rest : bytes) (type : Z).

Lemma ids_run (s : TMState G) : bytes_at (front ++ ids ++ rest) (len front) (len (front ++ ids) - len front) s = Ok (ids, s).
Proof. apply bytes_at_run; [done|]. unfold len. rewrite length_app. lia. Qed.

Lemma answer_publisher_run paths publisher o col (s : TMState G) :
  plain (ts_graph s) → routed (ts_graph s) publisher → (∀ F, o = Some F → fid_ok F) →
  answer_publisher getpid sendmsg_ret junk (front ++ ids ++ rest) (len (front ++ ids)) type (len front) paths
    (publisher, o) col s
  = Ok (col, with_ba (sent_to_node (to_node (ts_graph s) publisher (answer type o ids))) s).
Proof.
  intros Hplain Hr Ho. unfold answer_publisher. rewrite (run_bind _ _ _ _ _ (no_extension RS s Hplain ltac:(done))).
  assert (0 ≤ len ids) by (unfold len; lia).
  assert (len (front ++ ids) = len front + len ids) as Hlen by (unfold len; rewrite length_app; lia).
  destruct o as [F|].
  - specialize (Ho F eq_refl). pose proof (length_fid_bytes F Ho) as Hfl.
    rewrite (run_bind _ _ _ _ _ (alloc_run (len (front ++ ids) - len front + 1 + FIDL) s
      ltac:(rewrite Hlen; unfold FIDL, FID_LEN; lia))).
    set (ty := if type =? UPDATE_FID then UPDATE_FID else START_PUBLISH).
    destruct (exact_copies [ty] ids (fid_bytes F) (Z.to_nat (len (front ++ ids) - len front + 1 + FIDL)))
      as (p1 & p2 & Hp1 & Hp2 & Hp3).
    { rewrite !length_app, Hfl. rewrite Hlen. unfold len, FIDL. cbn [length]. lia. }
    rewrite (run_bind _ _ _ _ _ (put_run 0 _ _ _ s Hp1 ltac:(done))), (run_bind _ _ _ _ _ (ids_run s)).
    rewrite (run_bind _ _ _ _ _ (put_run 1 _ _ _ s Hp2 ltac:(done))).
    rewrite (run_bind _ _ s (fid_bytes F) s).
    2:{ assert (bytes_of_words (bv_data F) = [] ++ fid_bytes F ++ drop FID_LEN (bytes_of_words (bv_data F))) as Hsp
          by (unfold fid_bytes; by rewrite take_drop).
        rewrite Hsp. apply bytes_at_run; [done|]. unfold len, FIDL. by rewrite Hfl. }
    rewrite (run_bind _ _ s _ s (put_run (1 + len (front ++ ids) - len front) (fid_bytes F) _ _ s
      ltac:(rewrite <-Hp3; f_equal; rewrite Hlen; unfold len; cbn [length]; lia) ltac:(lia))).
    by rewrite (run_bind _ _ _ _ _ (publish_to_run publisher _ s Hr)).
  - rewrite (run_bind _ _ _ _ _ (alloc_run (len (front ++ ids) - len front + 1) s ltac:(rewrite Hlen; lia))).
    destruct (exact_two [STOP_PUBLISH] ids (Z.to_nat (len (front ++ ids) - len front + 1)))
      as (p1 & Hp1 & Hp2).
    { rewrite !length_app, Hlen. unfold len. cbn [length]. lia. }
    rewrite (run_bind _ _ _ _ _ (put_run 0 _ _ _ s Hp1 ltac:(done))), (run_bind _ _ _ _ _ (ids_run s)).
    rewrite (run_bind _ _ _ _ _ (put_run 1 _ _ _ s Hp2 ltac:(done))).
    by rewrite (run_bind _ _ _ _ _ (publish_to_run publisher _ s Hr)).
Qed.

(** The answers to all of them, in the order of the table *)
Lemma answers_run paths l col (s : TMState G) : plain (ts_graph s) →
  (∀ p o, (p, o) ∈ l → routed (ts_graph s) p ∧ ∀ F, o = Some F → fid_ok F) →
  fold_each l (answer_publisher getpid sendmsg_ret junk (front ++ ids ++ rest) (len (front ++ ids)) type (len front) paths) col s
  = Ok (col, with_ba (λ b, foldl (λ b m, sent_to_node m b) b
      ((λ e, to_node (ts_graph s) e.1 (answer type e.2 ids)) <$> l)) s).
Proof.
  intros Hplain. revert s Hplain. induction l as [|[p o] l IH]; intros s Hplain Hl; cbn [fold_each].
  { by destruct s as [t []]. }
  destruct (Hl p o) as [Hr Ho]; [left|].
  rewrite (run_bind _ _ _ _ _ (answer_publisher_run paths p o col s Hplain Hr Ho)).
  rewrite IH; [done|done|]. intros q o' Hq. apply Hl. by right.
Qed.
End one.

(** ** The whole request *)

Definition match_front (type strategy : Z) (pubs subs : list bytes) : bytes :=
  [type; strategy; Z.of_nat (length pubs)] ++ concat pubs ++ [Z.of_nat (length subs)] ++ concat subs.

(** The request of the rendezvous point *)
Definition match_request (type strategy : Z) (pubs subs IDs : list bytes) : bytes :=
  match_front type strategy pubs subs ++ ids_header IDs.

Lemma len_front type strategy pubs subs : node_names pubs → node_names subs →
  len (match_front type strategy pubs subs) = 4 + Z.of_nat (length pubs) * PID + Z.of_nat (length subs) * PID.
Proof.
  intros Hp Hs. unfold match_front. pose proof (len_names pubs Hp). pose proof (len_names subs Hs).
  unfold len in *. rewrite !length_app. cbn [length]. lia.
Qed.

Section request.
Context (type strategy : Z) (pubs subs : list bytes) (id : bytes) (IDs : list bytes).
Context (Hpubs : node_names pubs) (Hsubs : node_names subs) (Hid : wire_id id).

Let front := match_front type strategy pubs subs.
Let ids := ids_header (id :: IDs).
Let tl := concat ((λ id, Z.of_nat (level id) :: id) <$> IDs).

Lemma ids_shape : ids = [Z.of_nat (S (length IDs)); Z.of_nat (level id)] ++ id ++ tl.
Proof. done. Qed.

Lemma level_len : Z.of_nat (level id) * PID = len id.
Proof.
  destruct Hid as (k & Hk & _). unfold level, PID, len. rewrite Hk, Nat.div_mul by done. lia.
Qed.

(** The fields are found where the rendezvous point put them. *)
Lemma match_fields_run (s : TMState G) rest :
  match_fields (front ++ ids ++ rest) s
  = Ok ((list_to_set pubs, list_to_set subs, len front, Z.of_nat (S (length IDs)), Z.of_nat (level id)), s).
Proof.
  pose proof (len_front type strategy pubs subs Hpubs Hsubs) as Hfl. fold front in Hfl.
  pose proof (len_names pubs Hpubs) as Hlp. unfold match_fields. set (req := front ++ ids ++ rest).
  set (np := Z.of_nat (length pubs)) in *. set (ns := Z.of_nat (length subs)) in *.
  assert (req = [type; strategy] ++ np :: concat pubs ++ ns :: concat subs ++ ids ++ rest) as Hreq.
  { unfold req, front, match_front. by rewrite <-!app_assoc. }
  rewrite (run_bind _ _ s np s) by (rewrite Hreq; by apply byte_at_run).
  rewrite (run_bind _ _ s (list_to_set pubs) s).
  2:{ rewrite Hreq. by apply (read_nodes_run [type; strategy; np]). }
  rewrite (run_bind _ _ s ns s).
  2:{ assert (req = ([type; strategy; np] ++ concat pubs) ++ ns :: concat subs ++ ids ++ rest) as ->
        by (rewrite <-app_assoc; done). apply byte_at_run. unfold len in *. rewrite length_app. cbn [length]. lia. }
  rewrite (run_bind _ _ s (list_to_set subs) s).
  2:{ assert (req = ([type; strategy; np] ++ concat pubs ++ [ns]) ++ concat subs ++ ids ++ rest) as ->
        by (rewrite Hreq, <-!app_assoc; done). apply read_nodes_run; [done|].
      unfold len in *. rewrite !length_app. cbn [length]. lia. }
  cbv zeta. rewrite <-Hfl.
  rewrite (run_bind _ _ s (Z.of_nat (S (length IDs))) s) by (unfold req; rewrite ids_shape; by apply byte_at_run).
  rewrite (run_bind _ _ s (Z.of_nat (level id)) s); [done|].
  assert (req = (front ++ [Z.of_nat (S (length IDs))]) ++ Z.of_nat (level id) :: id ++ tl ++ rest) as ->
    by (unfold req; rewrite ids_shape, <-!app_assoc; done). apply byte_at_run.
  unfold len. rewrite length_app. cbn [length]. lia.
Qed.

(** The code copies two bytes more than the request has. *)
Lemma handle_match_run (s : TMState G) result paths r1 r2 rest :
  plain (ts_graph s) →
  calculateFID_sets (list_to_set pubs) (list_to_set subs) ∅ ∅ (ts_graph s) = Ok ((result, paths), ts_graph s) →
  (∀ p o, result !! p = Some o → routed (ts_graph s) p ∧ ∀ F, o = Some F → fid_ok F) →
  handle_match sha1 clock getpid sendmsg_ret junk (front ++ ids ++ r1 :: r2 :: rest) (len (front ++ ids)) type s
  = Ok (tt, with_ba (λ b, foldl (λ b m, sent_to_node m b) b
      ((λ e, to_node (ts_graph s) e.1 (answer type e.2 ids)) <$> in_order_of result)) s).
Proof.
  intros Hplain Hcalc Hres. unfold handle_match.
  rewrite (run_bind _ _ _ _ _ (match_fields_run s (r1 :: r2 :: rest))). cbv zeta.
  set (blk := id ++ tl ++ [r1; r2]). rewrite (run_bind _ _ s blk s).
  2:{ assert (front ++ ids ++ r1 :: r2 :: rest
        = (front ++ [Z.of_nat (S (length IDs)); Z.of_nat (level id)]) ++ blk ++ rest) as ->
        by (unfold blk; rewrite ids_shape, <-!app_assoc; done). apply bytes_at_run.
      - unfold len. rewrite length_app. cbn [length]. lia.
      - rewrite ids_shape. unfold len, blk. rewrite !length_app. cbn [length]. lia. }
  rewrite (run_bind _ _ s id s).
  2:{ apply (bytes_at_run [] id (tl ++ [r1; r2])); [done|]. apply level_len. }
  rewrite (run_bind _ _ s (result, paths) s).
  2:{ unfold calculate. rewrite (run_bind _ _ _ _ _ (no_extension QOS s Hplain ltac:(done))).
      rewrite (run_bind _ _ s false s) by done. unfold on_graph. rewrite Hcalc. by destruct s. }
  rewrite (run_bind _ _ _ _ _ (answers_run front ids (r1 :: r2 :: rest) type paths (in_order_of result) _ s Hplain
    ltac:(intros p o Hpo; apply Hres; by apply elem_of_in_order_of))).
  by erewrite run_bind; [|apply no_extension; [exact Hplain|done]].
Qed.

Lemma handle_match_short (s : TMState G) rest : (length rest < 2)%nat →
  handle_match sha1 clock getpid sendmsg_ret junk (front ++ ids ++ rest) (len (front ++ ids)) type s
  = Fault BufferOverflow.
Proof.
  intros Hr. unfold handle_match. rewrite (run_bind _ _ _ _ _ (match_fields_run s rest)). cbv zeta.
  unfold mbind at 1, M_bind at 1. unfold bytes_at.
  rewrite (proj2 (Z.leb_gt (len front + 2 + (len (front ++ ids) - len front)) _)).
  - by rewrite andb_false_r.
  - unfold len. rewrite !length_app. lia.
Qed.
End request.
End answers.

(** ** The requests of the rendezvous point *)

(** What stands before the request in the packet *)
Definition data_header (gc : GlobalConf) (tmfid : bytes) : bytes :=
  [PUBLISH_DATA; 2] ++ nodeTMScope gc ++ [IMPLICIT_RENDEZVOUS] ++ tmfid.

Lemma tm_request_shape `{HashOrder} gc tmfid rv it (P S : gset positive) type :
  Z.of_nat (size P) < 256 → Z.of_nat (size S) < 256 → wire_ids (str_order (dom (it_ids it))) →
  concat (tm_request gc tmfid rv it P S type)
  = data_header gc tmfid ++ match_request type (it_strategy it) (labels rv (ptr_order P)) (labels rv (ptr_order S))
      (str_order (dom (it_ids it))).
Proof.
  intros HP HS [Hn Hw]. unfold tm_request, data_header, match_request, match_front, ids_header, count_byte.
  rewrite !concat_app, (concat_id_fields _ Hw). cbn [concat]. rewrite !app_nil_r, <-!app_assoc.
  unfold labels. rewrite !length_fmap, !length_ptr_order. unfold u8. rewrite !Z.mod_small by lia.
  done.
Qed.

Lemma labels_names `{HashOrder} rv (X : gset positive) : labelled rv → (∀ h, h ∈ X → host_alive rv h) →
  node_names (labels rv (ptr_order X)).
Proof.
  intros Hl Hal. unfold labels. apply Forall_fmap, Forall_forall. intros h Hh%elem_of_ptr_order.
  destruct (Hal h Hh) as [rh Hrh]. cbn. rewrite Hrh. cbn. by apply (Hl h).
Qed.

(** The names of hosts *)
Definition names_of `{HashOrder} (rv : Store) (X : gset positive) : gset bytes :=
  list_to_set (labels rv (ptr_order X)).

(** An event of the rendezvous point reaches the handler of match requests. *)
Lemma event_dispatched {G : Type} `{Igraph G} memory es_harmless nan sha1 clock getpid sendmsg_ret junk uc id data n (s : TMState G) :
  plain (ts_graph s) → length id = (2 * PURSUIT_ID_LEN)%nat →
  handle_event memory es_harmless nan sha1 clock getpid sendmsg_ret junk uc PUBLISHED_DATA id data n s
  = (_ ← handleMulticastPathRequest sha1 clock getpid sendmsg_ret junk data n; mret true) s.
Proof.
  intros Hplain Hid. unfold handle_event. change (PUBLISHED_DATA =? UNDEF_EVENT) with false.
  change (PUBLISHED_DATA =? PUBLISHED_DATA) with true. cbn iota. unfold PURSUIT_ID_LEN in Hid. cbn in Hid.
  assert (∀ (pos m : Z), 0 ≤ pos ≤ 16 → 0 ≤ m ≤ 16 → ∃ x, str_substr id pos m s = Ok (x, s) ∧ (length x ≤ Z.to_nat m)%nat) as Hsub.
  { intros pos m Hp Hm. unfold str_substr. rewrite !Z.mod_small by lia. cbv zeta.
    rewrite Z.gtb_ltb, (proj2 (Z.ltb_ge _ _)) by lia. eexists. split; [done|]. rewrite length_take. lia. }
  unfold last_id, before_id, len, PURSUIT_ID_LEN. rewrite Hid.
  destruct (Hsub 8 8) as (x & Hx & _); [lia..|]. destruct (Hsub 0 8) as (y & Hy & Hly); [lia..|].
  change (Z.of_nat 16 - Z.of_nat 8) with 8. change (Z.of_nat 8) with 8.
  rewrite (run_bind _ _ _ _ _ Hx), (run_bind _ _ _ _ _ Hy).
  rewrite (run_bind _ _ _ _ _ (no_extension PM s Hplain ltac:(done))), (run_bind _ _ _ _ _ (no_extension RS s Hplain ltac:(done))),
    (run_bind _ _ _ _ _ (no_extension QOS s Hplain ltac:(done))).
  rewrite (decide_False (P := y = lsn_bin_id ∧ false = true)) by (by intros []).
  rewrite (decide_False (P := y = lsn_bin_id ∧ false = true)) by (by intros []).
  rewrite (decide_False (P := y = lsm_bin_scope ∧ false = true)) by (by intros []).
  rewrite decide_False; [done|]. intros [->| ->]; cbn in Hly; lia.
Qed.

Lemma match_overread {G : Type} `{Igraph G} (sha1 : bytes → bytes) (clock : nat → Z) (getpid : Z)
    (sendmsg_ret : list (Z * Netlink.addressed bytes) → Z) (junk : nat → Z) (s : TMState G)
    (type strategy : Z) (pubs subs : list bytes) (id : bytes) (IDs : list bytes) (rest : bytes) :
  type = MATCH_PUB_SUBS ∨ type = UPDATE_FID → node_names pubs → node_names subs → (length rest < 2)%nat →
  let request := match_request type strategy pubs subs (id :: IDs) in
  handleMulticastPathRequest sha1 clock getpid sendmsg_ret junk (request ++ rest) (len request) s
  = Fault BufferOverflow.
Proof.
  intros Htype Hp Hs Hr request. unfold handleMulticastPathRequest.
  rewrite (run_bind _ _ s type s) by (by apply (byte_at_run [])).
  rewrite (run_bind _ _ s strategy s) by (by apply (byte_at_run [type])).
  unfold request, match_request. rewrite <-app_assoc.
  destruct Htype as [-> | ->]; cbn [Z.eqb QoS_METADATA MATCH_PUB_SUBS UPDATE_FID Pos.eqb orb];
    by apply handle_match_short.
Qed.

(** C11. From the rendezvous point over the topology manager to the publishers,
    for a manager without extensions that has a FID to every publisher, and
    subscribers that can be reached from a publisher; at most 255 publishers,
    subscribers and identifiers.  The request that the rendezvous point makes
    for a match arrives as an event under the name it is sent to, with the
    memory [behind] it.  If fewer than two bytes can be read there, the handler
    reads past the end of the block and the manager fails.  Otherwise every
    publisher that was named gets exactly one message, sent with the FID to its
    node and under the name that the proxies of nodes listen to; in it the
    proxy finds the order to start publishing the identifiers of the item with
    the FID that was calculated, or to stop, and carries it out. *)
Theorem rendezvous_answered `{HO : HashOrder} {G : Type} `{IgraphLaws G} (memory : nat → list Z) (es_harmless : bool) (nan : Z) (sha1 : bytes → bytes)
    (clock : nat → Z) (getpid : Z) (sendmsg_ret : list (Z * Netlink.addressed bytes) → Z) (junk : nat → Z) (uc : bool)
    (gc : GlobalConf) (tmfid : bytes) (rv : Store) (it : InformationItem) (P S : gset positive)
    (s : TMState G) (behind : bytes) :
  gc_wf gc → labelled rv → (∀ h, h ∈ P ∪ S → host_alive rv h) → Z.of_nat (size P) < 256 → Z.of_nat (size S) < 256 →
  it_ids it ≠ ∅ → wire_ids (str_order (dom (it_ids it))) →
  plain (ts_graph s) → tm_wf (ts_graph s) → Z.of_nat (igraph_vcount (graph (ts_graph s))) < UINT_MAX →
  (∀ n, n ∈ names_of rv P ∪ names_of rv S → known (ts_graph s) n) →
  (∀ n, n ∈ names_of rv P → routed (ts_graph s) n) →
  (∀ n, n ∈ names_of rv S → ∃ p w, p ∈ names_of rv P ∧
     walk_between (graph (ts_graph s)) (vertex_of (ts_graph s) p) (vertex_of (ts_graph s) n) w) →
  let IDs := str_order (dom (it_ids it)) in
  ∃ request result paths,
    concat (tm_request gc tmfid rv it P S MATCH_PUB_SUBS) = data_header gc tmfid ++ request ∧
    calculateFID_sets (names_of rv P) (names_of rv S) ∅ ∅ (ts_graph s) = Ok ((result, paths), ts_graph s) ∧
    dom result = names_of rv P ∧
    handle_event memory es_harmless nan sha1 clock getpid sendmsg_ret junk uc PUBLISHED_DATA (nodeTMScope gc)
        (request ++ behind) (len request) s
      = (if decide (2 ≤ length behind)%nat
         then Ok (true, with_ba (λ b, foldl (λ b m, sent_to_node m b) b
          ((λ e, to_node getpid (ts_graph s) e.1 (answer MATCH_PUB_SUBS e.2 (ids_header IDs))) <$> in_order_of result)) s)
         else Fault BufferOverflow) ∧
    ∀ (HO' : HashOrder) p o (n : Node), result !! p = Some o → px_inv (pst (n_px n)) →
      n_packet n = Some (answer MATCH_PUB_SUBS o (ids_header IDs)) →
      let wanted := bool_decide (is_Some o) in
      (_ ← handleRVNotification; p_kill) n
      = Ok (tt, sends (concat (notices wanted (pst (n_px n)) <$> IDs) ++ [Freed])
          (put_packet None (set_index (on_ids IDs (λ _, told wanted IDs
             (on_wire (default (defaultRV_dl (n_gc n)) o))) (activePublicationIndex (pst (n_px n)))) n))).
Proof.
  intros Hgc Hlab Hal HP HS Hne Hids Hplain Hwf Hsmall Hknown Hrouted Hreach IDs.
  destruct (sets_served (ts_graph s) Hwf (names_of rv P) (names_of rv S) Hknown Hsmall Hreach)
    as (result & paths & Hcalc & Hdom & Hsv & _).
  set (pubs := labels rv (ptr_order P)). set (subs := labels rv (ptr_order S)).
  exists (match_request MATCH_PUB_SUBS (it_strategy it) pubs subs IDs), result, paths.
  assert (∀ p o, result !! p = Some o → routed (ts_graph s) p ∧ ∀ F, o = Some F → fid_ok F) as Hres.
  { intros p o Hp. assert (p ∈ names_of rv P) as Hin by (rewrite <-Hdom; by eapply elem_of_dom_2).
    split; [by apply Hrouted|]. intros F ->. specialize (Hsv p Hin). rewrite Hp in Hsv. apply Hsv. }
  split_and!; [by apply tm_request_shape|done|done| |].
  - rewrite event_dispatched by (done || by apply gc_tmscope).
    destruct (decide (2 ≤ length behind)%nat) as [Hb|Hb]; cycle 1.
    { destruct IDs as [|id IDs'] eqn:EIDs.
      { destruct Hne. apply str_order_nil in EIDs. by apply dom_empty_inv_L in EIDs. }
      unfold mbind, M_bind. rewrite match_overread; [done|by left| | |lia];
        (apply labels_names; [done|]; intros h Hh; apply Hal; set_solver). }
    destruct behind as [|r1 [|r2 rest]]; cbn [length] in Hb; [lia..|clear Hb].
    erewrite run_bind; [done|]. unfold handleMulticastPathRequest. destruct IDs as [|id IDs'] eqn:EIDs.
    { destruct Hne. apply str_order_nil in EIDs. by apply dom_empty_inv_L in EIDs. }
    unfold match_request. set (req := (_ ++ _) ++ _).
    rewrite (run_bind _ _ s MATCH_PUB_SUBS s) by (by apply (byte_at_run [])).
    rewrite (run_bind _ _ s (it_strategy it) s) by (by apply (byte_at_run [MATCH_PUB_SUBS])).
    cbn [Z.eqb QoS_METADATA MATCH_PUB_SUBS Pos.eqb orb]. unfold req. rewrite <-app_assoc.
    destruct Hids as [_ Hw]. fold IDs in Hw. rewrite EIDs in Hw. apply Forall_cons in Hw as [Hw _].
    apply handle_match_run with (paths := paths); try done.
    + apply labels_names; [done|]. intros h Hh. apply Hal. set_solver.
    + apply labels_names; [done|]. intros h Hh. apply Hal. set_solver.
  - intros HO' p o n Hp Hinv Hn wanted.
    assert (NoDup IDs) as Hnd by (unfold IDs; rewrite str_order_perm; apply NoDup_elements).
    destruct (Hres p o Hp) as [_ Hfid]. destruct Hids as [_ Hw]. fold IDs in Hw.
    destruct o as [F|]; unfold wanted.
    + rewrite bool_decide_eq_true_2 by by eexists. apply note_told; auto.
    + rewrite bool_decide_eq_false_2 by (by intros []).
      destruct (zero_fid_run n) as (v & _ & Hv). apply (note_told false IDs v); auto.
      * apply Hv.
      * rewrite Hn. unfold note. by rewrite app_nil_r.
Qed.

(** Every match request is read past its end.  However the request came to
    be and whatever the graph: if fewer than two bytes can be read behind a
    request, which is where the block of an event ends, the handler reads
    outside of it. *)
Theorem match_request_overreads {G : Type} `{Igraph G} (sha1 : bytes → bytes) (clock : nat → Z) (getpid : Z)
    (sendmsg_ret : list (Z * Netlink.addressed bytes) → Z) (junk : nat → Z) (s : TMState G)
    (type strategy : Z) (pubs subs : list bytes) (id : bytes) (IDs : list bytes) (rest : bytes) :
  type = MATCH_PUB_SUBS ∨ type = UPDATE_FID → node_names pubs → node_names subs → (length rest < 2)%nat →
  let request := match_request type strategy pubs subs (id :: IDs) in
  handleMulticastPathRequest sha1 clock getpid sendmsg_ret junk (request ++ rest) (len request) s
  = Fault BufferOverflow.
Proof. apply match_overread. Qed.

(** ** Examples *)

Lemma match_request_overreads_witness :
  handleMulticastPathRequest (λ s, s) (λ _, 0) 7 (λ _, 0) (λ _, 0)
    (match_request MATCH_PUB_SUBS DOMAIN_LOCAL [node_name 1] [node_name 3] [ff_scope 1 ++ ff_scope 2] ++ [])
    (len (match_request MATCH_PUB_SUBS DOMAIN_LOCAL [node_name 1] [node_name 3] [ff_scope 1 ++ ff_scope 2]))
    (mkTMS row_tm (mkCache ∅ 0 (mkBA 3 9999 []) 0)) = Fault BufferOverflow.
Proof.
  apply (match_request_overreads (λ s, s) (λ _, 0) 7 (λ _, 0) (λ _, 0)).
  - left. reflexivity.
  - repeat constructor.
  - repeat constructor.
  - cbn. lia.
Defined.

(** A graph with its tables of FIDs *)
Definition with_routes {G : Type} `{Igraph G} (t : TMgraph G) : TMgraph G :=
  match calculateRVTMFIDs t with Ok (_, t') => t' | Fault _ => t end.

Lemma with_routes_ok {G : Type} `{IgraphLaws G} (t : TMgraph G) :
  tm_wf t → known t (RVnodeID t) → known t (tm_nodeID t) →
  tm_wf (with_routes t) ∧ graph (with_routes t) = graph t ∧ (plain t → plain (with_routes t)) ∧
  (∀ n, known t n → known (with_routes t) n) ∧ (∀ n, vertex_of (with_routes t) n = vertex_of t n) ∧
  ∀ n, known t n → length n = PURSUIT_ID_LEN → routed (with_routes t) n.
Proof.
  intros Hwf Hrv Htm. destruct (calculateRVTMFIDs_run t Hwf Hrv Htm) as (rv & tm & nd & Hrun & Hall & _).
  unfold with_routes. rewrite Hrun. split_and!; [by apply wf_fids|done..|].
  intros n Hn Hl. split; [done|]. destruct (Hall n Hn) as (_ & _ & F & HF & Hc). exists F. split; [done|apply Hc].
Qed.

(** A rendezvous point with two hosts, at the ends of the row *)
Definition row_rv : Store :=
  mkStore ∅ ∅ {[1%positive := mkHost (node_name 1) ∅ ∅ ∅ ∅; 2%positive := mkHost (node_name 3) ∅ ∅ ∅ ∅]} ∅ ∅ ∅ ∅ None.
Definition row_item : InformationItem :=
  mkItem {[ff_scope 1 ++ ff_scope 2 := mkPair {[1%positive]} {[2%positive]}]} ∅ DOMAIN_LOCAL.
Definition manager {G : Type} (t : TMgraph G) : TMState G := mkTMS t (mkCache ∅ 0 (mkBA 3 9999 []) 0).

Lemma row_walk : walk_between (graph row_tm) (vertex_of row_tm (node_name 1)) (vertex_of row_tm (node_name 3)) [0; 1; 2].
Proof.
  split; [|split; vm_compute; reflexivity].
  split; [by vm_compute|]. split; [|split; [by vm_compute|split; [|split; [by vm_compute|exact I]]]].
  - apply (bool_decide_unpack ((0, 1) ∈ (links (graph row_tm)).*1)). vm_compute. exact I.
  - apply (bool_decide_unpack ((1, 2) ∈ (links (graph row_tm)).*1)). vm_compute. exact I.
Qed.

Lemma rendezvous_answered_witness :
  ∃ request result paths,
    concat (tm_request (HO := canonical_order true) sample_gc (replicate 32 0) row_rv row_item
      {[1%positive]} {[2%positive]} MATCH_PUB_SUBS) = data_header sample_gc (replicate 32 0) ++ request ∧
    calculateFID_sets {[node_name 1]} {[node_name 3]} ∅ ∅ (with_routes row_tm)
      = Ok ((result, paths), with_routes row_tm) ∧
    handle_event zero_memory true 0 (λ s, s) (λ _, 0) 7 (λ _, 0) (λ _, 0) false PUBLISHED_DATA (nodeTMScope sample_gc)
      (request ++ [0; 0]) (len request) (manager (with_routes row_tm))
    = Ok (true, with_ba (λ b, foldl (λ b m, sent_to_node m b) b
        ((λ e, to_node 7 (with_routes row_tm) e.1 (answer MATCH_PUB_SUBS e.2 (ids_header [ff_scope 1 ++ ff_scope 2])))
           <$> in_order_of result)) (manager (with_routes row_tm))).
Proof.
  assert (∀ n, n = node_name 1 ∨ n = node_name 3 → known row_tm n) as Hk.
  { intros n [->| ->]; eexists; vm_compute; reflexivity. }
  destruct (with_routes_ok row_tm row_wf) as (Hwf & Hg & Hpl & Hkn & Hv & Hr); [eexists; vm_compute; reflexivity..|].
  assert (plain row_tm) as Hp by (vm_compute; reflexivity).
  assert (Z.of_nat (igraph_vcount (graph row_tm)) < UINT_MAX) as Hsmall by (vm_compute; reflexivity).
  pose proof row_walk as Hwalk. revert Hk Hwf Hg Hpl Hkn Hv Hr Hp Hsmall Hwalk.
  generalize (with_routes row_tm). generalize row_tm. intros t0 t Hk Hwf Hg Hpl Hkn Hv Hr Hp Hsmall Hwalk.
  assert (names_of (H := canonical_order true) row_rv {[1%positive]} = {[node_name 1]}) as HP by (vm_compute; reflexivity).
  assert (names_of (H := canonical_order true) row_rv {[2%positive]} = {[node_name 3]}) as HS by (vm_compute; reflexivity).
  assert (str_order (HashOrder := canonical_order true) (dom (it_ids row_item)) = [ff_scope 1 ++ ff_scope 2]) as Hids
    by (vm_compute; reflexivity).
  destruct (rendezvous_answered (HO := canonical_order true) zero_memory true 0 (λ s, s) (λ _, 0) 7 (λ _, 0) (λ _, 0) false sample_gc
    (replicate 32 0) row_rv row_item {[1%positive]} {[2%positive]} (manager t) [0; 0])
    as (request & result & paths & Hreq & Hcalc & _ & Hrun & _).
  - apply sample_gc_wf.
  - intros h rh. cbn. rewrite lookup_insert_Some, lookup_singleton_Some. intros [[_ <-]|(_ & _ & <-)]; reflexivity.
  - intros h. rewrite elem_of_union, !elem_of_singleton. intros [->| ->]; eexists; reflexivity.
  - vm_compute. reflexivity.
  - vm_compute. reflexivity.
  - intros E. assert (size (it_ids row_item) = 1%nat) as E1 by (vm_compute; reflexivity). by rewrite E, map_size_empty in E1.
  - rewrite Hids. split; [cbn; lia|]. repeat constructor. exists 2%nat. split; [reflexivity|lia].
  - exact (Hpl Hp).
  - exact Hwf.
  - cbn [manager ts_graph]. by rewrite Hg.
  - rewrite HP, HS. intros n. rewrite elem_of_union, !elem_of_singleton. intros Hn. apply Hkn, Hk, Hn.
  - rewrite HP. intros n ->%elem_of_singleton. apply Hr; [apply Hk; left; reflexivity|reflexivity].
  - rewrite HP, HS. intros n ->%elem_of_singleton. exists (node_name 1), [0; 1; 2].
    cbn [manager ts_graph]. rewrite Hg, !Hv. split; [by apply elem_of_singleton|exact Hwalk].
  - rewrite HP, HS in Hcalc. rewrite Hids in Hrun. exists request, result, paths.
    split; [exact Hreq|]. split; [exact Hcalc|exact Hrun].
Defined.
