(* ===== verification/TMFailure.v ===== *)
(** * Links that fail

    What the topology manager does for the nodes when a link fails: the FIDs
    that used the link are replaced, the nodes are told, and every FID in the
    tables again describes a walk in the graph. *)
From stdpp Require Import base list gmap sets.
From Stdlib Require Import ZArith Lia Bool.
From S2P Require Import Prelude Enums Bitvector GlobalConf Containers LibBitvector Igraph Forwarder ProxyLeave ProxyDelivery ProxyNotify UserLib UserProps Blocks TMGraph TMPaths TMLinks TMCache TMHandlers TMAnswers.

Local Open Scope Z_scope.

(** ** FIDs *)

(** A copy has the same bytes. *)
Lemma fid_bytes_copy F : fid_ok F → fid_bytes (bv_copy F) = fid_bytes F.
Proof.
  intros [Hw Hm]. unfold fid_bytes, bv_copy. cbn [bv_data]. unfold used_words, max_word. rewrite Hm.
  change (fid_bits - 1 >? MAX_INLINE_BIT) with true. cbn iota.
  change FID_LEN with (4 * 8)%nat. rewrite !take_bytes_of_words. by rewrite take_take.
Qed.

(** The bytes that are copied out of a FID *)
Lemma fid_at_run {G : Type} F (s : TMState G) : fid_ok F →
  bytes_at (bytes_of_words (bv_data F)) 0 FIDL s = Ok (fid_bytes F, s).
Proof.
  intros HF. assert (bytes_of_words (bv_data F) = [] ++ fid_bytes F ++ drop FID_LEN (bytes_of_words (bv_data F))) as Hsp
    by (unfold fid_bytes; by rewrite take_drop).
  rewrite Hsp. apply bytes_at_run; [done|]. unfold len, FIDL. by rewrite length_fid_bytes.
Qed.

(** Testing for an identifier *)
Lemma uses_run {G : Type} lid F (s : TMState G) : fid_ok lid → fid_ok F →
  uses lid (Some F) s = Ok (lid_in F lid, s).
Proof.
  intros [HL HLm] [HF HFm]. unfold uses. rewrite (run_bind _ _ _ F s eq_refl).
  rewrite (lib_and_spec lid F) by congruence.
  destruct (bv_and_spec lid F HL HF ltac:(congruence)) as (r & -> & Hr & Hrm & Hrb).
  rewrite (run_bind _ _ _ r s eq_refl). unfold mret, M_ret. do 2 f_equal. apply eq_true_iff_eq.
  rewrite bv_eqb_spec, lid_in_spec by done. rewrite Hrm, HLm. split.
  - intros [_ E] i Hi HLi. specialize (E i ltac:(lia)). rewrite Hrb, HLi in E by lia. done.
  - intros E. split; [done|]. intros i Hi. rewrite Hrb by lia.
    destruct (bv_bit lid i) eqn:EL; [|done]. by rewrite E by (done || lia).
Qed.

(** An identifier among those that a FID carries *)
Lemma carries_in F ss lid s : carries F ss → carries lid [s] → s ∈ ss → lid_in F lid = true.
Proof.
  intros [_ HF] [_ HL] Hs. apply lid_in_spec. intros i Hi. rewrite HL, HF by done. cbn [existsb].
  rewrite orb_false_r. intros Hb. apply existsb_exists. exists s. split; [by apply list_elem_of_In|done].
Qed.

Section failure.
Context {G : Type} `{IgraphLaws G}.

(** ** FIDs that describe walks *)

Definition sound (g : G) (u v : Z) (F : BABitvector) : Prop :=
  carries F [] ∨ ∃ p, walk_between g u v p ∧ carries F (path_lids g p ++ [igraph_VAS g iLID v]).

Lemma sound_fid (g : G) u v F : sound g u v F → fid_ok F.
Proof. intros [Hc|(p & _ & Hc)]; apply Hc. Qed.

Lemma sound_assign (g : G) u v F o : sound g u v F → sound g u v (bv_assign_from o F).
Proof. intros [Hc|(p & Hp & Hc)]; [left|right; exists p; split; [done|]]; by apply carries_assign. Qed.

Lemma way_sound (t : TMgraph G) a b F : tm_wf t → known t a → known t b → carries F (way_between t a b) →
  sound (graph t) (vertex_of t a) (vertex_of t b) F.
Proof.
  intros Hwf Ha Hb Hc. unfold way_between in Hc. case_decide as Hr; [by left|]. right.
  exists (route (graph t) (vertex_of t a) (vertex_of t b)). split; [|done].
  destruct (wf_nodes t Hwf _ _ (known_vertex t a Ha)) as (Hu & _).
  destruct (wf_nodes t Hwf _ _ (known_vertex t b Hb)) as (Hv & _).
  by apply shortest_path_walk.
Qed.

(** A walk that avoids the lost links stays, with its identifiers. *)
Lemma link_of_kept (g g' : G) (ps : list (Z * Z)) p : simple g → simple g' →
  links g' ≡ₚ filter (λ l, l.1 ∉ ps) (links g) → adjacent g p.1 p.2 → p ∉ ps →
  adjacent g' p.1 p.2 ∧ link_of g' p = link_of g p.
Proof.
  intros Hs Hs' Hl Hadj Hp. pose proof (link_of_link g p Hadj) as Hin.
  assert ((p, link_of g p) ∈ links g') as Hin' by (rewrite Hl; by apply list_elem_of_filter).
  assert (adjacent g' p.1 p.2) as Hadj'.
  { unfold adjacent. rewrite <-surjective_pairing. apply list_elem_of_fmap. by exists (p, link_of g p). }
  split; [done|]. eapply (simple_unique g' p); [done| |done]. by apply link_of_link.
Qed.

Lemma path_lids_links (g : G) p : path_lids g p = link_of g <$> hops_of p.
Proof. done. Qed.

Lemma walk_kept (g g' : G) (ps : list (Z * Z)) w : simple g → simple g' → same_nodes g g' →
  links g' ≡ₚ filter (λ l, l.1 ∉ ps) (links g) → walk g w → (∀ p, p ∈ hops_of w → p ∉ ps) →
  walk g' w ∧ path_lids g' w = path_lids g w.
Proof.
  intros Hs Hs' [Hn _] Hl. rewrite !path_lids_links. induction w as [|x [|y w] IH]; [done| |].
  - intros [Hx _] _. split; [|done]. split; [|done]. unfold is_vertex in *. by rewrite Hn.
  - intros (Hx & Hxy & Hw) Hps. change (hops_of (x :: y :: w)) with ((x, y) :: hops_of (y :: w)) in *.
    destruct (link_of_kept g g' ps (x, y)) as [Ha Hlk]; [done..|apply Hps; left|].
    destruct IH as [Hw' Hls]; [done|intros q Hq; apply Hps; by right|].
    split; [|cbn [fmap list_fmap]; by rewrite Hlk, <-Hls].
    split; [unfold is_vertex in *; by rewrite Hn|]. done.
Qed.

(** A FID that uses none of the lost identifiers is still sound. *)
Lemma sound_kept (g g' : G) (ps : list (Z * Z)) u v F : simple g → simple g' → same_nodes g g' →
  links g' ≡ₚ filter (λ l, l.1 ∉ ps) (links g) →
  (∀ p, p ∈ ps → ∃ lid, carries lid [link_of g p] ∧ lid_in F lid = false) →
  sound g u v F → sound g' u v F.
Proof.
  intros Hs Hs' Hn Hl Hun [Hc|(w & (Hw & Hhd & Hla) & Hc)]; [by left|]. right. exists w.
  destruct (walk_kept g g' ps w) as [Hw' Hls]; [done..| |].
  - intros p Hp Hin. destruct (Hun p Hin) as (lid & Hlid & Hnot).
    rewrite (carries_in F _ lid (link_of g p) Hc Hlid) in Hnot; [done|].
    apply elem_of_app. left. rewrite path_lids_links. by apply list_elem_of_fmap_2.
  - rewrite Hls. destruct Hn as [_ Hv]. rewrite Hv. done.
Qed.

(** ** Messages *)

Context (getpid : Z) (sendmsg_ret : list (Z * Netlink.addressed bytes) → Z) (junk : nat → Z).

(** The messages that were handed to the node *)
Definition sent (c : MetaCache) : list bytes := (λ m, m.2.2) <$> ba_calls (the_ba c).

Definition grows (c c' : MetaCache) : Prop := sent c `prefix_of` sent c'.

#[global] Instance grows_preorder : PreOrder grows.
Proof. split; [intros c; unfold grows; done|intros a b c; unfold grows; by etrans]. Qed.

Lemma grows_sent c c' m : grows c c' → m ∈ sent c → m ∈ sent c'.
Proof. intros [k Hk] Hm. rewrite Hk. apply elem_of_app. by left. Qed.

(** The cache after a message *)
Definition after (m : bytes) (c : MetaCache) : MetaCache :=
  mkCache (ii_meta c) (last_non_lazy_update c) (sent_to_node m (the_ba c)) (ticks c).

Lemma sent_after m c : sent (after m c) = sent c ++ [m].
Proof. unfold sent, after. cbn [the_ba sent_to_node ba_calls]. by rewrite fmap_app. Qed.

Lemma grows_after m c : grows c (after m c).
Proof. unfold grows. rewrite sent_after. by eexists. Qed.

(** A message with a FID in front *)
Definition with_fid (id : bytes) (D : BABitvector) (data : bytes) : bytes :=
  request_message getpid (data_packet id IMPLICIT_RENDEZVOUS (fid_bytes D ++ data)).

Lemma publish_run id D data n (s : TMState G) : length id = (2 * PURSUIT_ID_LEN)%nat → fid_ok D →
  (Z.to_nat n ≤ length data)%nat →
  publish getpid sendmsg_ret id (Some D) data n s
  = Ok (tt, mkTMS (ts_graph s) (after (with_fid id D (take (Z.to_nat n) data)) (ts_cache s))).
Proof.
  intros Hid HD Hn. unfold publish. rewrite (run_bind _ _ _ (bytes_of_words (bv_data D)) s eq_refl).
  unfold on_cache, call. rewrite (publish_data_part getpid sendmsg_ret _ _ _ _ _ _ 2%nat); [done| |  |done].
  - split; [by rewrite Hid|lia].
  - cbn [opt_fits]. pose proof (length_fid_bytes D HD) as Hl. unfold fid_bytes in Hl. rewrite length_take in Hl. lia.
Qed.

(** ** The tables during the repair *)

Context (t : TMgraph G) (Hwf : tm_wf t).
Context (Hnames : ∀ n, known t n → length n = PURSUIT_ID_LEN).
Context (Hrv : known t (RVnodeID t)) (Htm : known t (tm_nodeID t)).

Notation table := (gmap bytes (option BABitvector)).

Definition tabs (rv tm nd : table) (c : MetaCache) : TMState G := mkTMS (set_fids rv tm nd t) c.

(** A FID from one node to another *)
Definition leads (a b : bytes) (F : BABitvector) : Prop := sound (graph t) (vertex_of t a) (vertex_of t b) F.

(** The message that tells a node its new FID *)
Definition note_of (type : Z) (n : bytes) (D F : BABitvector) : bytes :=
  with_fid (resp_bin_prefix_id ++ n) D ([type] ++ fid_bytes F).

Lemma calculate_leads a b rv tm nd c : known t a → known t b →
  ∃ F, on_graph (calculateFID a b) (tabs rv tm nd c) = Ok (F, tabs rv tm nd c) ∧ leads a b F.
Proof.
  intros Ha Hb. destruct (calculateFID_way t rv tm nd a b Hwf Ha Hb) as (F & HF & Hc).
  exists F. unfold on_graph, tabs. cbn [ts_graph ts_cache]. rewrite HF. split; [done|]. by apply way_sound.
Qed.

Lemma getRVFID_run n o rv tm nd c : rv !! n = Some o →
  on_graph (getRVFID n) (tabs rv tm nd c) = Ok (o, tabs rv tm nd c).
Proof. intros E. unfold on_graph, getRVFID, mbind, M_bind, found. cbn. by rewrite E. Qed.
Lemma getTMFID_run n o rv tm nd c : tm !! n = Some o →
  on_graph (getTMFID n) (tabs rv tm nd c) = Ok (o, tabs rv tm nd c).
Proof. intros E. unfold on_graph, getTMFID, mbind, M_bind, found. cbn. by rewrite E. Qed.
Lemma getTM_to_nodeFID_run n o rv tm nd c : nd !! n = Some o →
  on_graph (getTM_to_nodeFID n) (tabs rv tm nd c) = Ok (o, tabs rv tm nd c).
Proof. intros E. unfold on_graph, getTM_to_nodeFID, mbind, M_bind, found. cbn. by rewrite E. Qed.

Lemma setRVFID_run n o F rv tm nd c : rv !! n = Some (Some o) →
  on_graph (setRVFID n F) (tabs rv tm nd c) = Ok (tt, tabs (<[n := Some (bv_assign_from o F)]> rv) tm nd c).
Proof. intros E. unfold on_graph, setRVFID, mbind, M_bind, overwritten. cbn. by rewrite E. Qed.
Lemma setTMFID_run n o F rv tm nd c : tm !! n = Some (Some o) →
  on_graph (setTMFID n F) (tabs rv tm nd c) = Ok (tt, tabs rv (<[n := Some (bv_assign_from o F)]> tm) nd c).
Proof. intros E. unfold on_graph, setTMFID, mbind, M_bind, overwritten. cbn. by rewrite E. Qed.
Lemma setTM_to_nodeFID_run n o F rv tm nd c : nd !! n = Some (Some o) →
  on_graph (setTM_to_nodeFID n F) (tabs rv tm nd c) = Ok (tt, tabs rv tm (<[n := Some (bv_assign_from o F)]> nd) c).
Proof. intros E. unfold on_graph, setTM_to_nodeFID, mbind, M_bind, overwritten. cbn. by rewrite E. Qed.

Definition note_size (response : buffer) : Prop := length response = (1 + FID_LEN)%nat.

Lemma send_update_run type n D F response rv tm nd c :
  known t n → nd !! n = Some (Some D) → fid_ok D → fid_ok F → note_size response →
  ∃ response', note_size response' ∧
    send_update getpid sendmsg_ret junk type n F response (tabs rv tm nd c)
    = Ok (response', tabs rv tm nd (after (note_of type n D F) c)).
Proof.
  intros Hn HD HDok HF Hr. exists (Some <$> [type] ++ fid_bytes F). unfold note_size.
  pose proof (length_fid_bytes F HF) as Hl. split; [by rewrite length_fmap, length_app, Hl|].
  unfold send_update. rewrite (run_bind _ _ _ _ _ (fid_at_run F _ HF)).
  rewrite (run_bind _ _ _ (Some <$> [type] ++ fid_bytes F) (tabs rv tm nd c)).
  - rewrite (run_bind _ _ _ tt (tabs rv tm nd (after (note_of type n D F) c))); [done|].
    unfold publish_to. rewrite (run_bind _ _ _ _ _ (getTM_to_nodeFID_run n _ rv tm nd c HD)).
    rewrite sent_bytes_all, publish_run; [|rewrite length_app, (Hnames n Hn); done|done|].
    + unfold note_of. rewrite take_ge; [done|]. rewrite length_fmap. lia.
    + rewrite length_fmap. lia.
  - apply puts_run; [done|]. change (Z.to_nat 0) with 0%nat.
    rewrite memcpys_fits; cbn [concat]; rewrite !app_nil_r; [|rewrite length_app, Hl; cbn; unfold note_size in Hr; lia].
    rewrite drop_ge; [by rewrite app_nil_r|]. rewrite length_app, Hl. unfold note_size in Hr. cbn. lia.
Qed.

(** New FIDs to the rendezvous point and to the topology manager *)
Lemma renew_RVFID_run n D R0 response rv tm nd c :
  known t n → nd !! n = Some (Some D) → fid_ok D → rv !! n = Some (Some R0) → note_size response →
  ∃ R response', note_size response' ∧ leads n (RVnodeID t) R ∧
    renew_RVFID getpid sendmsg_ret junk n response (tabs rv tm nd c)
    = Ok (response', tabs (<[n := Some R]> rv) tm nd (after (note_of UPDATE_RVFID n D R) c)).
Proof.
  intros Hn HD HDok HR Hr. destruct (calculate_leads n (RVnodeID t) rv tm nd c Hn Hrv) as (F & HF & Hl).
  pose proof (sound_fid _ _ _ _ Hl) as HFok.
  destruct (send_update_run UPDATE_RVFID n D F response (<[n := Some (bv_assign_from R0 F)]> rv) tm nd c
    Hn HD HDok HFok Hr) as (response' & Hr' & Hrun).
  exists (bv_assign_from R0 F), response'. split; [done|]. split; [by apply sound_assign|].
  unfold renew_RVFID. rewrite (run_bind _ _ _ (set_fids rv tm nd t) (tabs rv tm nd c)) by done.
  change (RVnodeID (set_fids rv tm nd t)) with (RVnodeID t). rewrite (run_bind _ _ _ _ _ HF).
  rewrite (run_bind _ _ _ _ _ (setRVFID_run n R0 F rv tm nd c HR)), Hrun.
  unfold note_of. by rewrite (assign_fid R0 F HFok), fid_bytes_copy.
Qed.

Lemma renew_TMFID_run n D T0 response rv tm nd c :
  known t n → nd !! n = Some (Some D) → fid_ok D → tm !! n = Some (Some T0) → note_size response →
  ∃ T response', note_size response' ∧ leads n (tm_nodeID t) T ∧
    renew_TMFID getpid sendmsg_ret junk n response (tabs rv tm nd c)
    = Ok (response', tabs rv (<[n := Some T]> tm) nd (after (note_of UPDATE_TMFID n D T) c)).
Proof.
  intros Hn HD HDok HT Hr. destruct (calculate_leads n (tm_nodeID t) rv tm nd c Hn Htm) as (F & HF & Hl).
  pose proof (sound_fid _ _ _ _ Hl) as HFok.
  destruct (send_update_run UPDATE_TMFID n D F response rv (<[n := Some (bv_assign_from T0 F)]> tm) nd c
    Hn HD HDok HFok Hr) as (response' & Hr' & Hrun).
  exists (bv_assign_from T0 F), response'. split; [done|]. split; [by apply sound_assign|].
  unfold renew_TMFID. rewrite (run_bind _ _ _ (set_fids rv tm nd t) (tabs rv tm nd c)) by done.
  change (tm_nodeID (set_fids rv tm nd t)) with (tm_nodeID t). rewrite (run_bind _ _ _ _ _ HF).
  rewrite (run_bind _ _ _ _ _ (setTMFID_run n T0 F rv tm nd c HT)), Hrun.
  unfold note_of. by rewrite (assign_fid T0 F HFok), fid_bytes_copy.
Qed.

(** ** One node *)

Section node.
Context (n : bytes) (Hn : known t n).
Context (lids : list BABitvector) (Hlids : ∀ lid, lid ∈ lids → fid_ok lid).

(** An entry of a table after the identifiers [pre] were looked at: it is
    new, or it uses none of them. *)
Definition renewed (type : Z) (dst : bytes) (D F : BABitvector) (c : MetaCache) : Prop :=
  leads n dst F ∧ note_of type n D F ∈ sent c.

Definition checked (type : Z) (dst : bytes) (D F0 : BABitvector) (pre : list BABitvector)
    (F : BABitvector) (c : MetaCache) : Prop :=
  renewed type dst D F c ∨ (F = F0 ∧ ∀ lid, lid ∈ pre → lid_in F0 lid = false).

Lemma checked_grows type dst D F0 pre F c c' :
  grows c c' → checked type dst D F0 pre F c → checked type dst D F0 pre F c'.
Proof. intros Hg [[Hl Hs]|Ho]; [left; split; [done|by eapply grows_sent]|by right]. Qed.

Lemma checked_fid type dst D F0 pre F c : fid_ok F0 → checked type dst D F0 pre F c → fid_ok F.
Proof. intros HF0 [[Hl _]|[-> _]]; [by eapply sound_fid|done]. Qed.

Lemma checked_next type dst D F0 pre F c lid : checked type dst D F0 pre F c → lid_in F lid = false →
  checked type dst D F0 (pre ++ [lid]) F c.
Proof. intros [Hl|[-> Ho]] Hn'; [by left|]. right. split; [done|]. intros x [Hx| ->]%elem_of_snoc; auto. Qed.

(** The FIDs from the node *)
Lemma RV_step D R0 pre lid R response rv tm nd c :
  nd !! n = Some (Some D) → fid_ok D → fid_ok R0 → rv !! n = Some (Some R) → note_size response →
  checked UPDATE_RVFID (RVnodeID t) D R0 pre R c →
  ∃ R' response' c', grows c c' ∧ note_size response' ∧ checked UPDATE_RVFID (RVnodeID t) D R0 (pre ++ [lid]) R' c' ∧
    (if lid_in R lid then renew_RVFID getpid sendmsg_ret junk n response else mret response)
      (tabs rv tm nd c) = Ok (response', tabs (<[n := Some R']> rv) tm nd c').
Proof.
  intros HD HDok HR0 HR Hr Hc.
  destruct (lid_in R lid) eqn:E.
  - destruct (renew_RVFID_run n D R response rv tm nd c Hn HD HDok HR Hr) as (R' & response' & Hr' & Hl & Hrun).
    exists R', response', (after (note_of UPDATE_RVFID n D R') c). split_and!; [apply grows_after|done| |].
    + left. split; [done|]. rewrite sent_after. apply elem_of_snoc. by right.
    + done.
  - exists R, response, c. split_and!; [done|done|by apply checked_next|].
    by rewrite insert_id.
Qed.

Lemma TM_step D T0 pre lid T response rv tm nd c :
  nd !! n = Some (Some D) → fid_ok D → fid_ok T0 → tm !! n = Some (Some T) → note_size response →
  checked UPDATE_TMFID (tm_nodeID t) D T0 pre T c →
  ∃ T' response' c', grows c c' ∧ note_size response' ∧ checked UPDATE_TMFID (tm_nodeID t) D T0 (pre ++ [lid]) T' c' ∧
    (if lid_in T lid then renew_TMFID getpid sendmsg_ret junk n response else mret response)
      (tabs rv tm nd c) = Ok (response', tabs rv (<[n := Some T']> tm) nd c').
Proof.
  intros HD HDok HT0 HT Hr Hc.
  destruct (lid_in T lid) eqn:E.
  - destruct (renew_TMFID_run n D T response rv tm nd c Hn HD HDok HT Hr) as (T' & response' & Hr' & Hl & Hrun).
    exists T', response', (after (note_of UPDATE_TMFID n D T') c). split_and!; [apply grows_after|done| |].
    + left. split; [done|]. rewrite sent_after. apply elem_of_snoc. by right.
    + done.
  - exists T, response, c. split_and!; [done|done|by apply checked_next|].
    by rewrite insert_id.
Qed.

Lemma from_node_run D R0 T0 response rv tm nd c :
  nd !! n = Some (Some D) → fid_ok D → rv !! n = Some (Some R0) → fid_ok R0 → tm !! n = Some (Some T0) → fid_ok T0 →
  note_size response →
  wp no_fault (fold_each lids (λ lid response,
      rv ← on_graph (getRVFID n);
      m ← uses lid rv;
      response ← (if (m : bool) then renew_RVFID getpid sendmsg_ret junk n response else mret response);
      tm ← on_graph (getTMFID n);
      m ← uses lid tm;
      if (m : bool) then renew_TMFID getpid sendmsg_ret junk n response else mret response) response)
    (λ response' s', ∃ R T c', s' = tabs (<[n := Some R]> rv) (<[n := Some T]> tm) nd c' ∧ grows c c' ∧
       note_size response' ∧ checked UPDATE_RVFID (RVnodeID t) D R0 lids R c' ∧
       checked UPDATE_TMFID (tm_nodeID t) D T0 lids T c') (tabs rv tm nd c).
Proof.
  intros HD HDok HR HR0 HT HT0 Hr.
  eapply wp_mono; [apply (wp_fold_each _ lids _ (λ todo response s', ∃ pre R T c', lids = pre ++ todo ∧
    s' = tabs (<[n := Some R]> rv) (<[n := Some T]> tm) nd c' ∧ grows c c' ∧ note_size response ∧
    checked UPDATE_RVFID (RVnodeID t) D R0 pre R c' ∧ checked UPDATE_TMFID (tm_nodeID t) D T0 pre T c'))|].
  - exists [], R0, T0, c. rewrite !insert_id by done. split_and!; try done.
    + right. split; [done|]. by intros ? ?%elem_of_nil.
    + right. split; [done|]. by intros ? ?%elem_of_nil.
  - intros lid todo acc s' (pre & R & T & c1 & Heq & -> & Hg & Hacc & HcR & HcT).
    assert (fid_ok lid) as Hlid by (apply Hlids; rewrite Heq; set_solver).
    pose proof (checked_fid _ _ _ _ _ _ _ HR0 HcR) as HRok. pose proof (checked_fid _ _ _ _ _ _ _ HT0 HcT) as HTok.
    destruct (RV_step D R0 pre lid R acc (<[n := Some R]> rv) (<[n := Some T]> tm) nd c1)
      as (R' & acc1 & c2 & Hg2 & Hacc1 & HcR' & Hrun1); [done..|by rewrite lookup_insert_eq|done|done|].
    destruct (TM_step D T0 pre lid T acc1 (<[n := Some R']> (<[n := Some R]> rv)) (<[n := Some T]> tm) nd c2)
      as (T' & acc2 & c3 & Hg3 & Hacc2 & HcT' & Hrun2); [done..|by rewrite lookup_insert_eq|done|by eapply checked_grows|].
    eapply wp_of_run.
    + rewrite (run_bind _ _ _ _ _ (getRVFID_run n (Some R) _ _ _ _ (lookup_insert_eq _ _ _))).
      rewrite (run_bind _ _ _ _ _ (uses_run lid R _ Hlid HRok)), (run_bind _ _ _ _ _ Hrun1).
      rewrite (run_bind _ _ _ _ _ (getTMFID_run n (Some T) _ _ _ _ (lookup_insert_eq _ _ _))).
      rewrite (run_bind _ _ _ _ _ (uses_run lid T _ Hlid HTok)). exact Hrun2.
    + exists (pre ++ [lid]), R', T', c3. rewrite !insert_insert_eq. split_and!; try done.
      * by rewrite <-app_assoc.
      * by etrans; [|etrans].
      * by eapply checked_grows.
  - intros acc s' (pre & R & T & c' & Heq & -> & Hg & Hacc & HcR & HcT). rewrite app_nil_r in Heq. subst pre.
    by exists R, T, c'.
Qed.

(** The FID to the node, and what else is done for each identifier: [heard]
    is what this leaves among the messages. *)
Context (each : bytes → BABitvector → M (TMState G) unit) (heard : BABitvector → MetaCache → Prop).
Context (own : BABitvector → Prop) (Hown : ∀ D, leads (tm_nodeID t) n D → own D).
Context (Hheard : ∀ lid c c', grows c c' → heard lid c → heard lid c').
Context (Heach : ∀ lid D rv tm nd c, fid_ok lid → nd !! n = Some (Some D) → fid_ok D → own D →
  ∃ c', grows c c' ∧ heard lid c' ∧ each n lid (tabs rv tm nd c) = Ok (tt, tabs rv tm nd c')).

Definition replaced (D0 : BABitvector) (pre : list BABitvector) (D : BABitvector) : Prop :=
  leads (tm_nodeID t) n D ∨ (D = D0 ∧ ∀ lid, lid ∈ pre → lid_in D0 lid = false).

Lemma to_node_step D0 pre lid D rv tm nd c : fid_ok lid → fid_ok D0 →
  nd !! n = Some (Some D) → replaced D0 pre D →
  ∃ D', replaced D0 (pre ++ [lid]) D' ∧
    (if lid_in D lid then
       t ← get_graph;
       FID ← on_graph (calculateFID (tm_nodeID t) n);
       on_graph (setTM_to_nodeFID n FID)
     else mret tt) (tabs rv tm nd c) = Ok (tt, tabs rv tm (<[n := Some D']> nd) c).
Proof.
  intros Hlid HD0 HD Hrep. destruct (lid_in D lid) eqn:E.
  - destruct (calculate_leads (tm_nodeID t) n rv tm nd c Htm Hn) as (F & HF & Hl).
    exists (bv_assign_from D F). split; [left; by apply sound_assign|].
    rewrite (run_bind _ _ _ (set_fids rv tm nd t) (tabs rv tm nd c)) by done.
    change (tm_nodeID (set_fids rv tm nd t)) with (tm_nodeID t). rewrite (run_bind _ _ _ _ _ HF).
    by apply setTM_to_nodeFID_run.
  - exists D. split; [|by rewrite insert_id]. destruct Hrep as [Hl|[-> Ho]]; [by left|].
    right. split; [done|]. intros x [Hx| ->]%elem_of_snoc; auto.
Qed.

Lemma to_node_loop D0 rv tm nd c : nd !! n = Some (Some D0) → fid_ok D0 → own D0 →
  wp no_fault (for_each lids (λ lid,
      FID ← on_graph (getTM_to_nodeFID n);
      m ← uses lid FID;
      _ ← (if (m : bool) then
             t ← get_graph;
             FID ← on_graph (calculateFID (tm_nodeID t) n);
             on_graph (setTM_to_nodeFID n FID)
           else mret tt);
      each n lid))
    (λ _ s', ∃ D c', s' = tabs rv tm (<[n := Some D]> nd) c' ∧ grows c c' ∧ replaced D0 lids D ∧
       ∀ lid, lid ∈ lids → heard lid c') (tabs rv tm nd c).
Proof.
  intros HD HD0 Ho0. eapply wp_mono; [apply (wp_for_each _ lids _ (λ todo s', ∃ pre D c', lids = pre ++ todo ∧
    s' = tabs rv tm (<[n := Some D]> nd) c' ∧ grows c c' ∧ replaced D0 pre D ∧ ∀ lid, lid ∈ pre → heard lid c'))|].
  - exists [], D0, c. rewrite insert_id by done. split_and!; try done; [|by intros ? ?%elem_of_nil].
    right. split; [done|]. by intros ? ?%elem_of_nil.
  - intros lid todo s' (pre & D & c1 & Heq & -> & Hg & Hrep & Hh).
    assert (fid_ok lid) as Hlid by (apply Hlids; rewrite Heq; set_solver).
    assert (fid_ok D) as HDok by (destruct Hrep as [Hl|[-> _]]; [by eapply sound_fid|done]).
    destruct (to_node_step D0 pre lid D rv tm (<[n := Some D]> nd) c1) as (D' & Hrep' & Hrun);
      [done..|by rewrite lookup_insert_eq|done|].
    assert (fid_ok D') as HDok' by (destruct Hrep' as [Hl|[-> _]]; [by eapply sound_fid|done]).
    assert (own D') as Ho' by (destruct Hrep' as [Hl|[-> _]]; auto).
    rewrite insert_insert_eq in Hrun.
    destruct (Heach lid D' rv tm (<[n := Some D']> nd) c1 Hlid) as (c2 & Hg2 & Hh2 & Hrun2);
      [by rewrite lookup_insert_eq|done|done|].
    eapply wp_of_run.
    + rewrite (run_bind _ _ _ _ _ (getTM_to_nodeFID_run n (Some D) _ _ _ _ (lookup_insert_eq _ _ _))).
      rewrite (run_bind _ _ _ _ _ (uses_run lid D _ Hlid HDok)), (run_bind _ _ _ _ _ Hrun). exact Hrun2.
    + exists (pre ++ [lid]), D', c2. split_and!; try done; [by rewrite <-app_assoc|by etrans|].
      intros x [Hx| ->]%elem_of_snoc; eauto.
  - intros [] s' (pre & D & c' & Heq & -> & Hg & Hrep & Hh). rewrite app_nil_r in Heq. subst pre. by exists D, c'.
Qed.

(** What a node has in the end.  A FID may stay only if it uses none of the
    lost identifiers. *)
Definition repaired (R0 T0 D R T : BABitvector) (c : MetaCache) : Prop :=
  leads (tm_nodeID t) n D ∧ leads n (RVnodeID t) R ∧ leads n (tm_nodeID t) T ∧
  (zero D = false → (R = R0 ∨ note_of UPDATE_RVFID n D R ∈ sent c) ∧ (T = T0 ∨ note_of UPDATE_TMFID n D T ∈ sent c)) ∧
  ∀ lid, lid ∈ lids → heard lid c.

Lemma repaired_grows R0 T0 D R T c c' : grows c c' → repaired R0 T0 D R T c → repaired R0 T0 D R T c'.
Proof.
  intros Hg (HD & HR & HT & Hz & Hh). split_and!; try done; [|by eauto].
  intros E. destruct (Hz E) as [HzR HzT]. split; [destruct HzR|destruct HzT]; eauto using grows_sent.
Qed.

Lemma node_lost_link_run D0 R0 T0 response rv tm nd c :
  nd !! n = Some (Some D0) → rv !! n = Some (Some R0) → tm !! n = Some (Some T0) →
  fid_ok D0 → fid_ok R0 → fid_ok T0 → own D0 → note_size response →
  (∀ a b F, (a, b, F) ∈ [(tm_nodeID t, n, D0); (n, RVnodeID t, R0); (n, tm_nodeID t, T0)] →
     (∀ lid, lid ∈ lids → lid_in F lid = false) → leads a b F) →
  wp no_fault (node_lost_link getpid sendmsg_ret junk each lids n response)
    (λ response' s', ∃ D R T c', s' = tabs (<[n := Some R]> rv) (<[n := Some T]> tm) (<[n := Some D]> nd) c' ∧
       grows c c' ∧ note_size response' ∧ repaired R0 T0 D R T c') (tabs rv tm nd c).
Proof.
  intros HD HR HT HD0 HR0 HT0 Ho0 Hr Hkeep. unfold node_lost_link. apply wp_bind.
  eapply wp_mono; [by apply to_node_loop|]. cbn beta.
  intros [] s' (D & c1 & -> & Hg & Hrep & Hh).
  assert (leads (tm_nodeID t) n D) as HDl by (destruct Hrep as [Hl|[-> Ho]]; [done|apply Hkeep; [set_solver|done]]).
  pose proof (sound_fid _ _ _ _ HDl) as HDok. apply wp_bind.
  eapply wp_of_run; [apply getTM_to_nodeFID_run, lookup_insert_eq|]. apply wp_bind.
  eapply wp_deref; [done|]. destruct (zero D) eqn:Ez.
  - destruct (zero_fid_run (tabs rv tm (<[n := Some D]> nd) c1)) as (z & Hz & Hzc). apply wp_bind.
    eapply wp_of_run; [exact Hz|]. apply wp_bind. eapply wp_of_run; [by apply setRVFID_run|].
    apply wp_bind. eapply wp_of_run; [by apply setTMFID_run|]. apply wp_ret.
    eexists D, _, _, c1. split; [done|]. split; [done|]. split; [done|]. split; [done|].
    split; [left; by apply carries_assign|]. split; [left; by apply carries_assign|]. split; [by rewrite Ez|done].
  - eapply wp_mono; [by apply (from_node_run D R0 T0); [rewrite lookup_insert_eq|..]|]. cbn beta.
    intros response' s' (R & T & c2 & -> & Hg2 & Hr' & HcR & HcT).
    exists D, R, T, c2. split; [done|]. split; [by etrans|]. split; [done|].
    split; [done|]. destruct HcR as [[HlR HsR]|[-> HoR]], HcT as [[HlT HsT]|[-> HoT]];
      (split; [first [done|apply Hkeep; [set_solver|done]]|]);
      (split; [first [done|apply Hkeep; [set_solver|done]]|]); (split; [by eauto|eauto]).
Qed.
End node.

(** ** All nodes *)

Lemma carries_incl F ss F' ss' : carries F ss → carries F' ss' → (∀ s, s ∈ ss' → s ∈ ss) → lid_in F F' = true.
Proof.
  intros [_ HF] [_ HF'] Hin. apply lid_in_spec. intros i Hi. rewrite HF, HF' by done. rewrite !existsb_exists.
  intros (s & Hs & Hb). exists s. split; [|done]. apply list_elem_of_In, Hin. by apply list_elem_of_In.
Qed.

Section all_nodes.
Context (each : bytes → BABitvector → M (TMState G) unit) (heard : bytes → BABitvector → MetaCache → Prop).
Context (Hheard : ∀ n lid c c', grows c c' → heard n lid c → heard n lid c').
(** A FID that the topology manager has for a node: one that leads to it now,
    or the one that it had before *)
Definition own (n : bytes) (D : BABitvector) : Prop :=
  leads (tm_nodeID t) n D ∨ TM_to_nodeFID t !! n = Some (Some D).

Context (Heach : ∀ n lid D rv tm nd c, known t n → fid_ok lid → nd !! n = Some (Some D) → fid_ok D → own n D →
  ∃ c', grows c c' ∧ heard n lid c' ∧ each n lid (tabs rv tm nd c) = Ok (tt, tabs rv tm nd c')).

Definition lost_lids : list BABitvector := (in_order_of (freedLIDs t)).*2.
Context (Hlids : ∀ lid, lid ∈ lost_lids → fid_ok lid).

(** The entries of a node: three FIDs, each of which is of use unless it
    contains a lost identifier. *)
Definition entries (rv tm nd : table) (n : bytes) (R T D : BABitvector) : Prop :=
  rv !! n = Some (Some R) ∧ tm !! n = Some (Some T) ∧ nd !! n = Some (Some D).

Definition stale (n : bytes) (R T D : BABitvector) : Prop :=
  fid_ok D ∧ fid_ok R ∧ fid_ok T ∧
  ∀ a b F, (a, b, F) ∈ [(tm_nodeID t, n, D); (n, RVnodeID t, R); (n, tm_nodeID t, T)] →
    (∀ lid, lid ∈ lost_lids → lid_in F lid = false) → leads a b F.

Context (Hstale : ∀ n, known t n → ∃ R T D, entries (RVFID t) (TMFID t) (TM_to_nodeFID t) n R T D ∧ stale n R T D).
Context (Hdom : dom (TM_to_nodeFID t) = dom (reverse_node_index t)).

Definition mended (rv tm nd : table) (n : bytes) (all : BABitvector) (c : MetaCache) : Prop :=
  ∃ R0 T0 D0 R T D, entries (RVFID t) (TMFID t) (TM_to_nodeFID t) n R0 T0 D0 ∧ entries rv tm nd n R T D ∧
    repaired n lost_lids (heard n) R0 T0 D R T c ∧ lid_in all D = true.

Lemma fid_nodes_run (c : MetaCache) : fid_nodes (mkTMS t c) = Ok (key_order (dom (reverse_node_index t)), mkTMS t c).
Proof.
  unfold fid_nodes. rewrite (run_bind _ _ _ t (mkTMS t c)) by done.
  assert (size (reverse_node_index t) = size (TM_to_nodeFID t)) as Hs by (by rewrite <-!size_dom, Hdom).
  rewrite decide_True by lia. rewrite Hdom, <-size_dom, <-length_key_order, firstn_all. done.
Qed.

(** The body of the loop, on a node whose entries were not touched yet *)
Lemma lost_step n all ss response rv tm nd c R0 T0 D0 : known t n → entries rv tm nd n R0 T0 D0 → stale n R0 T0 D0 → own n D0 →
  carries all ss → note_size response →
  wp no_fault (response ← node_lost_link getpid sendmsg_ret junk each lost_lids n response;
      FID ← on_graph (getTM_to_nodeFID n);
      v ← deref FID;
      all ← on_graph (or_into all v);
      mret (all, response))
    (λ acc s', ∃ R T D c' ss', s' = tabs (<[n := Some R]> rv) (<[n := Some T]> tm) (<[n := Some D]> nd) c' ∧
       grows c c' ∧ note_size acc.2 ∧ carries acc.1 (ss ++ ss') ∧ carries D ss' ∧
       repaired n lost_lids (heard n) R0 T0 D R T c') (tabs rv tm nd c).
Proof.
  intros Hn (HR & HT & HD) (HDo & HRo & HTo & Hk) Ho0 Hall Hr. apply wp_bind.
  eapply wp_mono; [apply (node_lost_link_run n Hn lost_lids Hlids each (heard n) (own n) (λ D HD, or_introl HD) (Hheard n) (λ lid D rv tm nd c, Heach n lid D rv tm nd c Hn) D0 R0 T0); done|].
  cbn beta. intros response' s' (D & R & T & c' & -> & Hg & Hr' & Hrep). apply wp_bind.
  eapply wp_of_run; [apply getTM_to_nodeFID_run, lookup_insert_eq|]. apply wp_bind. eapply wp_deref; [done|].
  assert (∃ ss', carries D ss') as [ss' HDc] by (destruct Hrep as ([Hc|(p & _ & Hc)] & _); eauto).
  set (rv' := <[n := Some R]> rv). set (tm' := <[n := Some T]> tm). set (nd' := <[n := Some D]> nd).
  destruct (or_into_run all D ss ss' (set_fids rv' tm' nd' t) Hall HDc) as (r & Hrun & Hc).
  apply wp_bind. eapply wp_of_run; [unfold on_graph, tabs; cbn [ts_graph ts_cache]; by rewrite Hrun|].
  apply wp_ret. exists R, T, D, c', ss'. by split_and!.
Qed.

Lemma link_lost_run (c : MetaCache) :
  wp no_fault (link_lost getpid sendmsg_ret junk each)
    (λ r s', ∃ rv tm nd c', s' = tabs rv tm nd c' ∧ grows c c' ∧ r.1.1 = lost_lids ∧ fid_ok r.1.2 ∧
       dom nd = dom (reverse_node_index t) ∧ ∀ n, known t n → mended rv tm nd n r.1.2 c') (mkTMS t c).
Proof.
  unfold link_lost. apply wp_bind. eapply (wp_of_run _ _ t (mkTMS t c)); [done|]. apply wp_bind.
  eapply wp_of_run; [by apply alloc_run|]. apply wp_bind.
  destruct (zero_fid_run (mkTMS t c)) as (z & Hz & Hzc). eapply wp_of_run; [exact Hz|]. fold lost_lids. cbv zeta.
  apply wp_bind. eapply wp_of_run; [apply fid_nodes_run|]. set (nodes := key_order _). apply wp_bind.
  eapply wp_mono; [apply (wp_fold_each _ nodes _ (λ todo acc s', ∃ pre rv tm nd c' ss, nodes = pre ++ todo ∧
    s' = tabs rv tm nd c' ∧ grows c c' ∧ note_size acc.2 ∧ carries acc.1 ss ∧ dom nd = dom (reverse_node_index t) ∧
    (∀ n, n ∉ pre → rv !! n = RVFID t !! n ∧ tm !! n = TMFID t !! n ∧ nd !! n = TM_to_nodeFID t !! n) ∧
    ∀ n, n ∈ pre → ∃ R0 T0 D0 R T D ss', entries (RVFID t) (TMFID t) (TM_to_nodeFID t) n R0 T0 D0 ∧
      entries rv tm nd n R T D ∧ repaired n lost_lids (heard n) R0 T0 D R T c' ∧
      carries D ss' ∧ ∀ s, s ∈ ss' → s ∈ ss))|].
  - exists [], (RVFID t), (TMFID t), (TM_to_nodeFID t), c, []. split_and!; try done.
    + unfold tabs. f_equal. by destruct t.
    + by intros ? ?%elem_of_nil.
  - intros n todo [all response] s' (pre & rv & tm & nd & c1 & ss & Heq & -> & Hg & Hr & Hc & Hd & Hout & Hin).
    cbn [fst snd] in *. assert (n ∉ pre) as Hnp.
    { pose proof (NoDup_key_order (dom (reverse_node_index t))) as Hnd. fold nodes in Hnd. rewrite Heq in Hnd.
      apply NoDup_app in Hnd as (_ & Hnd & _). intros Hp. apply (Hnd n Hp). left. }
    assert (known t n) as Hn.
    { apply elem_of_dom, elem_of_key_order. fold nodes. rewrite Heq. set_solver. }
    destruct (Hstale n Hn) as (R0 & T0 & D0 & (HR & HT & HD) & Hst). destruct (Hout n Hnp) as (E1 & E2 & E3).
    eapply wp_mono; [apply (lost_step n all ss response rv tm nd c1 R0 T0 D0); try done; [split_and!; congruence|by right]|].
    intros [all' response'] s' (R & T & D & c2 & ss' & -> & Hg2 & Hr' & Hc' & HDc & Hrep).
    eexists (pre ++ [n]), _, _, _, c2, (ss ++ ss'). split_and!; [by rewrite <-app_assoc|done|by etrans|done..| | |].
    + rewrite dom_insert_L, Hd. assert (n ∈ dom (reverse_node_index t)) by by apply elem_of_dom. set_solver.
    + intros m [Hm Hne]%not_elem_of_app. rewrite !lookup_insert_ne by set_solver. by apply Hout.
    + intros m [Hm| ->]%elem_of_snoc.
      * destruct (Hin m Hm) as (R1 & T1 & D1 & R2 & T2 & D2 & ss2 & H1 & (HA & HB & HC) & H3 & H4 & H5).
        exists R1, T1, D1, R2, T2, D2, ss2. split; [done|]. assert (n ≠ m) by (by intros ->).
        split; [by split_and!; rewrite lookup_insert_ne by done|]. split; [by eapply repaired_grows; eauto|].
        split; [done|]. set_solver.
      * exists R0, T0, D0, R, T, D, ss'. split; [done|]. split; [by split_and!; rewrite lookup_insert_eq|].
        split; [done|]. split; [done|]. set_solver.
  - intros [all response] s' (pre & rv & tm & nd & c1 & ss & Heq & -> & Hg & Hr & Hc & Hd & _ & Hin).
    cbn [fst snd] in *. apply wp_ret. exists rv, tm, nd, c1. cbn [fst snd]. rewrite app_nil_r in Heq.
    split_and!; [done..|apply Hc|done|]. intros n Hn.
    destruct (Hin n) as (R0 & T0 & D0 & R & T & D & ss' & H1 & H2 & H3 & H4 & H5).
    { rewrite <-Heq. by apply elem_of_key_order, elem_of_dom. }
    exists R0, T0, D0, R, T, D. split_and!; try done. by eapply carries_incl.
Qed.
End all_nodes.
End failure.

(** ** The handler *)

(** What the topology manager keeps true of its graph and of the links that
    are down ... *)
Record topology_ok {G : Type} `{IgraphLaws G} (t : TMgraph G) : Prop := {
  ok_wf : tm_wf t;
  ok_simple : simple (graph t);
  ok_names n : known t n → length n = PURSUIT_ID_LEN;
  ok_RV : known t (RVnodeID t);
  ok_TM : known t (tm_nodeID t);
  ok_sym u v : adjacent (graph t) u v → adjacent (graph t) v u;
  ok_freed p lid : freedLIDs t !! p = Some lid →
    ¬ adjacent (graph t) p.1 p.2 ∧ ∃ x, lid_string x ∧ carries lid [x];
  ok_freed_sym u v : is_Some (freedLIDs t !! (u, v)) → is_Some (freedLIDs t !! (v, u));
}.

(** ... and of its tables *)
Record manager_ok {G : Type} `{IgraphLaws G} (t : TMgraph G) : Prop := {
  ok_topology : topology_ok t;
  ok_dom : dom (TM_to_nodeFID t) = dom (reverse_node_index t);
  ok_fids n : known t n → ∃ R T D, entries (RVFID t) (TMFID t) (TM_to_nodeFID t) n R T D ∧
    leads t (tm_nodeID t) n D ∧ leads t n (RVnodeID t) R ∧ leads t n (tm_nodeID t) T;
}.

Section handler.
Context {G : Type} `{IgraphLaws G}.
Context (getpid : Z) (sendmsg_ret : list (Z * Netlink.addressed bytes) → Z) (junk : nat → Z).

(** A report on a link of the node [node]: the type, whether both directions
    are meant ([nt] is not zero), and the label of the node *)
Definition link_report (type nt : Z) (node : bytes) : bytes := [type; nt] ++ node.

(** The handlers make a C string of the report, so that they read on in the
    memory [behind] it up to a NUL; a zero [nt] already ends the string, and
    the label is then taken from behind its end, which throws. *)
Definition read_report {A : Type} (nt : Z) (behind : bytes) (r : res A) : res A :=
  if nt =? 0 then Fault Thrown else if decide (0 ∈ behind) then r else Fault BufferOverflow.

Lemma link_update_run memory es_harmless type nt node behind publisher (s : TMState G) :
  type ≠ 0 → 0 ∉ node → length node = NODEID_LEN →
  link_update memory es_harmless (link_report type nt node ++ behind) publisher s
  = read_report nt behind
      match updateGraph memory es_harmless node publisher true (type =? REMOVE_LINK) (ts_graph s) with
      | Ok (update, t') => Ok ((node, nt, update, type =? REMOVE_LINK), mkTMS t' (ts_cache s))
      | Fault e => Fault e
      end.
Proof.
  intros Ht Hnode Hlen. unfold link_update, link_report, read_report.
  rewrite (run_bind _ _ s type s) by (by apply (byte_at_run [])).
  rewrite (run_bind _ _ s nt s) by (by apply (byte_at_run [type])).
  destruct (Z.eqb_spec nt 0) as [->|Hnt].
  { rewrite (run_bind _ _ s [type] s); [done|]. rewrite <-app_assoc.
    change ([type; 0] ++ node ++ behind) with ([type] ++ 0 :: (node ++ behind)). apply c_string_run. set_solver. }
  destruct (decide (0 ∈ behind)) as [Hb|Hb]; cycle 1.
  { unfold mbind at 1, M_bind at 1. rewrite c_string_short; [done|]. set_solver. }
  apply list_elem_of_split_l in Hb as (more & rest & -> & Hmore).
  replace (([type; nt] ++ node) ++ more ++ 0 :: rest) with (([type; nt] ++ node ++ more) ++ 0 :: rest)
    by (by rewrite <-!app_assoc).
  rewrite (run_bind _ _ s ([type; nt] ++ node ++ more) s) by (apply c_string_run; set_solver).
  rewrite (run_bind _ _ s node s).
  2:{ unfold str_substr. change (NID mod 2 ^ 64) with 8. change (2 mod 2 ^ 64) with 2. cbv zeta.
      unfold NODEID_LEN, PURSUIT_ID_LEN in Hlen.
      rewrite !length_app, Z.gtb_ltb, (proj2 (Z.ltb_ge _ _)) by (cbn [length]; lia).
      replace (Z.to_nat (Z.min 8 _)) with (length node) by (cbn [length]; lia).
      change (Z.to_nat 2) with 2%nat. cbn [app drop]. by rewrite drop_0, take_app_length. }
  cbn [negb]. unfold mbind, M_bind, on_graph. by destruct (updateGraph _ _ _ _ _ _ _) as [[]|].
Qed.

(** The identifiers that were lost are published. *)
Definition lost_note (D lid : BABitvector) : bytes := with_fid getpid pathMgmt_bin_full_id D (fid_bytes lid).

Lemma publish_lid_run D lid (s : TMState G) : fid_ok D → fid_ok lid →
  publish getpid sendmsg_ret pathMgmt_bin_full_id (Some D) (bytes_of_words (bv_data lid)) FIDL s
  = Ok (tt, mkTMS (ts_graph s) (after (lost_note D lid) (ts_cache s))).
Proof.
  intros HD HL. rewrite publish_run; [done|done|done|]. pose proof (length_fid_bytes lid HL) as Hl.
  unfold fid_bytes in Hl. rewrite length_take in Hl. unfold FIDL. rewrite Nat2Z.id. lia.
Qed.

(** Every node heard of a lost identifier: a message of its own, sent with a
    FID to that node, which leads to it or which the manager had for it before
    ([old]); or one message over a FID that contains those of all nodes. *)
Definition announced (uc : bool) (old : gmap bytes (option BABitvector)) (s : TMState G) (lid : BABitvector) : Prop :=
  let t := ts_graph s in
  if uc then ∀ n, known t n → ∃ D, (leads t (tm_nodeID t) n D ∨ old !! n = Some (Some D)) ∧
    lost_note D lid ∈ sent (ts_cache s)
  else ∃ all, (∀ n D, known t n → TM_to_nodeFID t !! n = Some (Some D) → lid_in all D = true) ∧
    lost_note all lid ∈ sent (ts_cache s).

Lemma each_run (uc : bool) (t : TMgraph G) n lid D rv tm nd c : known t n → fid_ok lid → nd !! n = Some (Some D) → fid_ok D →
  own t n D →
  ∃ c', grows c c' ∧ (uc = true → ∃ D, own t n D ∧ lost_note D lid ∈ sent c') ∧
    (if uc then tell_lid getpid sendmsg_ret n lid else mret tt) (tabs t rv tm nd c) = Ok (tt, tabs t rv tm nd c').
Proof.
  intros Hn Hlid HD HDok Ho. destruct uc; [|by exists c].
  exists (after (lost_note D lid) c). split; [apply grows_after|]. split.
  - intros _. exists D. split; [done|]. rewrite sent_after. apply elem_of_snoc. by right.
  - unfold tell_lid. rewrite (run_bind _ _ _ _ _ (getTM_to_nodeFID_run t n _ rv tm nd c HD)).
    by rewrite publish_lid_run.
Qed.

(** The broadcast *)
Lemma broadcast_run all lids (s : TMState G) : fid_ok all → (∀ lid, lid ∈ lids → fid_ok lid) →
  wp no_fault (for_each lids (λ lid, publish getpid sendmsg_ret pathMgmt_bin_full_id (Some all) (bytes_of_words (bv_data lid)) FIDL))
    (λ _ s', ts_graph s' = ts_graph s ∧ grows (ts_cache s) (ts_cache s') ∧
       ∀ lid, lid ∈ lids → lost_note all lid ∈ sent (ts_cache s')) s.
Proof.
  intros Hall Hlids. eapply wp_mono; [apply (wp_for_each _ lids _ (λ todo s', ∃ pre, lids = pre ++ todo ∧
    ts_graph s' = ts_graph s ∧ grows (ts_cache s) (ts_cache s') ∧
    ∀ lid, lid ∈ pre → lost_note all lid ∈ sent (ts_cache s')))|].
  - exists []. split_and!; try done. by intros ? ?%elem_of_nil.
  - intros lid todo s' (pre & Heq & Hg & Hgr & Hin).
    assert (fid_ok lid) as Hlid by (apply Hlids; rewrite Heq; set_solver).
    eapply wp_of_run; [by apply publish_lid_run|]. exists (pre ++ [lid]). cbn [ts_graph ts_cache].
    split_and!; [by rewrite <-app_assoc|done|etrans; [done|apply grows_after]|].
    intros x [Hx| ->]%elem_of_snoc; rewrite sent_after; apply elem_of_snoc; [left; auto|by right].
  - intros [] s' (pre & Heq & Hg & Hgr & Hin). rewrite app_nil_r in Heq. by subst pre.
Qed.

(** The FIDs are of use in the new graph unless they contain what was lost. *)
Lemma stale_after (t : TMgraph G) rei el (g : G) fr (ps : list (Z * Z)) n : manager_ok t → simple g → same_nodes (graph t) g →
  links g ≡ₚ filter (λ l, l.1 ∉ ps) (links (graph t)) →
  (∀ p, p ∈ ps → ∃ lid, fr !! p = Some lid ∧ carries lid [link_of (graph t) p]) → known t n →
  let t1 := set_edges rei el (set_graph g (set_freed fr t)) in
  ∃ R T D, entries (RVFID t) (TMFID t) (TM_to_nodeFID t) n R T D ∧ stale t1 n R T D.
Proof.
  intros Hok Hs Hn Hl Hfr Hk t1. destruct (ok_fids t Hok n Hk) as (R & T & D & He & HD & HR & HT).
  exists R, T, D. split; [done|]. split_and!; [by eapply sound_fid..|].
  assert (∀ u v F, sound (graph t) u v F → (∀ lid, lid ∈ lost_lids t1 → lid_in F lid = false) → sound g u v F) as Hkeep.
  { intros u v F Hsd Hun. apply (sound_kept (graph t) g ps); try done; [by apply ok_simple, ok_topology|].
    intros p Hp. destruct (Hfr p Hp) as (lid & Hlid & Hc). exists lid. split; [done|]. apply Hun.
    unfold lost_lids. apply list_elem_of_fmap. exists (p, lid). split; [done|]. by apply elem_of_in_order_of. }
  intros a b F [[= -> -> ->]|[[= -> -> ->]|[[= -> -> ->]|?%elem_of_nil]%elem_of_cons]%elem_of_cons]%elem_of_cons Hun;
    [..|done]; by apply Hkeep.
Qed.

(** The state after the loop over the nodes is in order again. *)
Lemma mended_ok (t : TMgraph G) heard rv tm nd all c : topology_ok t → dom nd = dom (reverse_node_index t) →
  (∀ n, known t n → mended getpid t heard rv tm nd n all c) → manager_ok (set_fids rv tm nd t).
Proof.
  intros Ht Hd Hm. constructor; [|done|].
  - destruct Ht. constructor; try done. by apply wf_fids.
  - intros n Hn. destruct (Hm n Hn) as (R0 & T0 & D0 & R & T & D & _ & He & (HD & HR & HT & _) & _).
    exists R, T, D. by split_and!.
Qed.

Lemma lost_lids_ok (t : TMgraph G) : topology_ok t → ∀ lid, lid ∈ lost_lids t → fid_ok lid.
Proof.
  intros Ht lid. unfold lost_lids. rewrite list_elem_of_fmap. intros ([p l] & -> & Hin%elem_of_in_order_of).
  destruct (ok_freed t Ht p l Hin) as (_ & x & _ & Hc). apply Hc.
Qed.

Definition repair_done (uc : bool) (t : TMgraph G) (s' : TMState G) : Prop :=
  ∃ rv tm nd, ts_graph s' = set_fids rv tm nd t ∧ manager_ok (ts_graph s') ∧
  (∀ n R T D, known t n → entries rv tm nd n R T D → zero D = false →
     (RVFID t !! n = Some (Some R) ∨ note_of getpid UPDATE_RVFID n D R ∈ sent (ts_cache s')) ∧
     (TMFID t !! n = Some (Some T) ∨ note_of getpid UPDATE_TMFID n D T ∈ sent (ts_cache s'))) ∧
  ∀ lid, lid ∈ lost_lids t → announced uc (TM_to_nodeFID t) s' lid.

Lemma repair_run (uc : bool) (t : TMgraph G) c : topology_ok t →
  dom (TM_to_nodeFID t) = dom (reverse_node_index t) →
  (∀ n, known t n → ∃ R T D, entries (RVFID t) (TMFID t) (TM_to_nodeFID t) n R T D ∧ stale t n R T D) →
  wp no_fault ('(lids, all, _) ← link_lost getpid sendmsg_ret junk (λ nodeID lid, if uc then tell_lid getpid sendmsg_ret nodeID lid else mret tt);
      if uc then mret tt
      else for_each lids (λ lid, publish getpid sendmsg_ret pathMgmt_bin_full_id (Some all) (bytes_of_words (bv_data lid)) FIDL))
    (λ _ s', repair_done uc t s') (mkTMS t c).
Proof.
  intros Ht Hd Hst. pose proof (lost_lids_ok t Ht) as Hlids. apply wp_bind.
  set (heard := λ (n : bytes) lid c', uc = true → ∃ D, own t n D ∧ lost_note D lid ∈ sent c').
  eapply wp_mono; [apply (link_lost_run getpid sendmsg_ret junk t (ok_wf t Ht) (ok_names t Ht) (ok_RV t Ht) (ok_TM t Ht) _ heard)|]; try done.
  { intros n lid c1 c2 Hg Hh E. destruct (Hh E) as (D & HD & Hin). exists D. split; [done|]. by eapply grows_sent. }
  { intros. by eapply each_run. }
  intros [[lids all] response] s' (rv & tm & nd & c' & -> & Hg & Hl & Hall & Hdn & Hm). cbn [fst snd] in *. subst lids.
  assert (∀ s', ts_graph s' = set_fids rv tm nd t → grows c' (ts_cache s') →
    (uc = false → ∀ lid, lid ∈ lost_lids t → lost_note all lid ∈ sent (ts_cache s')) → repair_done uc t s') as Hend.
  { intros s' Hgr Hg' Hbc. exists rv, tm, nd. split; [done|]. rewrite Hgr. split; [by eapply mended_ok|]. split.
    - intros n R T D Hn (HR & HT & HD) Hz. destruct (Hm n Hn) as (R0 & T0 & D0 & R1 & T1 & D1 & (E1 & E2 & _) & (F1 & F2 & F3) & (_ & _ & _ & Hn1 & _) & _).
      simplify_eq. destruct (Hn1 Hz) as [HnR HnT].
      split; [destruct HnR as [->|Hin]|destruct HnT as [->|Hin]]; first [by left|right; by eapply grows_sent].
    - intros lid Hlid. unfold announced. rewrite Hgr. destruct uc.
      + intros n Hn. destruct (Hm n Hn) as (? & ? & ? & ? & ? & ? & _ & _ & (_ & _ & _ & _ & Hh) & _).
        destruct (Hh lid Hlid eq_refl) as (D & HD & Hin). exists D. split; [done|]. by eapply grows_sent.
      + exists all. split; [|by apply Hbc]. intros n D Hn HD.
        destruct (Hm n Hn) as (? & ? & ? & ? & ? & D1 & _ & (_ & _ & F3) & _ & Hin). cbn in HD. congruence. }
  destruct uc.
  - apply wp_ret. by apply Hend.
  - eapply wp_mono; [by apply broadcast_run|]. cbn beta. intros [] s' (Hgr & Hg' & Hin). by apply Hend.
Qed.
End handler.

(** ** The graph without a link *)

Section topology.
Context {G : Type} `{IgraphLaws G}.

Lemma both_ends (t : TMgraph G) u v : topology_ok t → adjacent (graph t) u v →
  ∀ p, p ∈ ends true u v → adjacent (graph t) p.1 p.2 ∧ freedLIDs t !! p = None.
Proof.
  intros Ht Hadj p Hp. assert (adjacent (graph t) p.1 p.2) as Ha.
  { apply elem_of_cons in Hp as [->|[->|[]%elem_of_nil]%elem_of_cons]; [done|]. by apply ok_sym. }
  split; [done|]. destruct (freedLIDs t !! p) as [lid|] eqn:E; [|done]. by destruct (ok_freed t Ht p lid E).
Qed.

Lemma ends_sym u v a b : (a, b) ∈ ends true u v → (b, a) ∈ ends true u v.
Proof.
  intros Hp. apply elem_of_cons in Hp as [[= -> ->]|[[= -> ->]|[]%elem_of_nil]%elem_of_cons]; [right; left|left].
Qed.

Lemma adjacent_less (g g' : G) (ps : list (Z * Z)) p : links g' ≡ₚ filter (λ l, l.1 ∉ ps) (links g) →
  adjacent g' p.1 p.2 ↔ adjacent g p.1 p.2 ∧ p ∉ ps.
Proof.
  intros Hl. unfold adjacent. rewrite Hl, <-!surjective_pairing, !list_elem_of_fmap. split.
  - intros (l & -> & [Hp Hin]%list_elem_of_filter). split; [|done]. by exists l.
  - intros [(l & -> & Hin) Hp]. exists l. split; [done|]. by apply list_elem_of_filter.
Qed.

Lemma topology_less (t : TMgraph G) rei el g fr u v : topology_ok t → adjacent (graph t) u v → same_nodes (graph t) g →
  links g ≡ₚ filter (λ l, l.1 ∉ ends true u v) (links (graph t)) → simple g →
  tm_wf (set_edges rei el (set_graph g (set_freed fr t))) →
  (∀ p, p ∈ ends true u v → ∃ lid, fr !! p = Some lid ∧ carries lid [link_of (graph t) p]) →
  (∀ p, p ∉ ends true u v → fr !! p = freedLIDs t !! p) →
  topology_ok (set_edges rei el (set_graph g (set_freed fr t))).
Proof.
  intros Ht Hadj Hn Hl Hs Hwf Hin Hout. pose proof (both_ends t u v Ht Hadj) as Hall.
  pose proof (λ p, adjacent_less (graph t) g (ends true u v) p Hl) as Hless.
  constructor; try done; [apply Ht..| | |]; cbn [graph set_edges set_graph set_freed freedLIDs].
  - intros a b Hab. apply (Hless (a, b)) in Hab as [Hab Hp]. apply (Hless (b, a)). split; [by apply ok_sym|].
    by intros ?%ends_sym.
  - intros p lid Hp. destruct (decide (p ∈ ends true u v)) as [Hpe|Hpe].
    + destruct (Hin p Hpe) as (lid' & Hlid & Hc). simplify_eq. split; [by intros [_ ?]%Hless|].
      exists (link_of (graph t) p). split; [|done]. apply (wf_links t (ok_wf t Ht) (p, _)), link_of_link. by apply Hall.
    + rewrite Hout in Hp by done. destruct (ok_freed t Ht p lid Hp) as (Hna & Hx). split; [|done]. by intros [? _]%Hless.
  - intros a b Hab. destruct (decide ((b, a) ∈ ends true u v)) as [Hpe|Hpe].
    + destruct (Hin _ Hpe) as (lid & Hlid & _). by rewrite Hlid.
    + rewrite Hout by done. apply (ok_freed_sym t Ht). rewrite <-Hout; [done|]. by intros ?%ends_sym.
Qed.
End topology.

(** ** A report *)

Lemma link_down_run {G : Type} `{IgraphLaws G} (memory : nat → list Z) (es_harmless : bool) (getpid : Z)
    (sendmsg_ret : list (Z * Netlink.addressed bytes) → Z) (junk : nat → Z) (uc : bool) (s : TMState G)
    (node publisher behind : bytes) (nt u v : Z) :
  let t := ts_graph s in
  words_of memory → manager_ok t → 0 ∉ node → u ≠ v →
  reverse_node_index t !! node = Some u → reverse_node_index t !! publisher = Some v →
  adjacent (graph t) u v →
  ∃ s' rei el g fr, let t1 := set_edges rei el (set_graph g (set_freed fr t)) in
    handleLinkStateNotificationPM memory es_harmless getpid sendmsg_ret junk uc
      (link_report REMOVE_LINK nt node ++ behind) publisher s = read_report nt behind (Ok (tt, s')) ∧
    repair_done getpid uc t1 s' ∧ links g ≡ₚ filter (λ l, l.1 ∉ ends true u v) (links (graph t)) ∧
    (∀ p, p ∈ ends true u v → ∃ lid, fr !! p = Some lid ∧ carries lid [link_of (graph t) p]) ∧
    ∀ p, p ∉ ends true u v → fr !! p = freedLIDs t !! p.
Proof.
  intros t Hmem Hok Hnode Huv Hu Hv Hadj. pose proof (ok_topology t Hok) as Ht.
  destruct (updateGraph_remove memory Hmem t (ok_wf t Ht) (ok_simple t Ht) es_harmless node publisher true u v Hu Hv
    (both_ends t u v Ht Hadj) Huv) as (rei & el & g & fr & Hrun & Hn & Hl & Hsg & Hwf1 & Hin & Hout).
  assert (topology_ok (set_edges rei el (set_graph g (set_freed fr t)))) as Ht1 by (by eapply topology_less).
  destruct (wp_total _ _ _ (repair_run getpid sendmsg_ret junk uc _ (ts_cache s) Ht1 (ok_dom t Hok)
    (λ n, stale_after t rei el g fr _ n Hok Hsg Hn Hl Hin))) as ([] & s' & Hrun' & Hdone).
  exists s', rei, el, g, fr. split_and!; try done. unfold handleLinkStateNotificationPM.
  unfold mbind at 1, M_bind at 1. rewrite link_update_run by (done || apply (ok_names t Ht), (mk_is_Some _ _ Hu)).
  change (REMOVE_LINK =? REMOVE_LINK) with true. fold t. rewrite Hrun. unfold read_report.
  destruct (nt =? 0); [done|]. destruct (decide (0 ∈ behind)); [exact Hrun'|done].
Qed.

(** C13. A link between two nodes fails, and the node [publisher] reports it;
    labels of nodes contain no zero byte.  A report on one direction only
    ([nt] is zero) ends the manager with an exception; without a NUL in the
    memory [behind] the report it is read past its end.  Otherwise the manager
    keeps its state in order: exactly the two edges are gone, and every FID in
    its three tables is zero or made of the link identifiers of a walk between
    the right nodes of the remaining graph.  A node with a FID from the manager
    whose FID to the rendezvous point or to the topology manager was replaced
    has been sent the new one.  The two lost identifiers have been published:
    to each node in a message of its own, over a FID that leads to this node
    or that the manager had for it before, or in one message over a FID that
    contains the FIDs to all nodes. *)
Theorem link_failure_repaired {G : Type} `{IgraphLaws G} (memory : nat → list Z) (es_harmless : bool) (getpid : Z)
    (sendmsg_ret : list (Z * Netlink.addressed bytes) → Z) (junk : nat → Z) (uc : bool) (s : TMState G)
    (node publisher behind : bytes) (nt u v : Z) :
  let t := ts_graph s in
  words_of memory → manager_ok t → 0 ∉ node → u ≠ v →
  reverse_node_index t !! node = Some u → reverse_node_index t !! publisher = Some v →
  adjacent (graph t) u v →
  ∃ s', let t' := ts_graph s' in
    handleLinkStateNotificationPM memory es_harmless getpid sendmsg_ret junk uc
      (link_report REMOVE_LINK nt node ++ behind) publisher s
    = (if nt =? 0 then Fault Thrown else if decide (0 ∈ behind) then Ok (tt, s') else Fault BufferOverflow) ∧
    manager_ok t' ∧ links (graph t') ≡ₚ filter (λ l, l.1 ∉ ends true u v) (links (graph t)) ∧
    (∀ n R T D, known t n → entries (RVFID t') (TMFID t') (TM_to_nodeFID t') n R T D → zero D = false →
       (RVFID t !! n = Some (Some R) ∨ note_of getpid UPDATE_RVFID n D R ∈ sent (ts_cache s')) ∧
       (TMFID t !! n = Some (Some T) ∨ note_of getpid UPDATE_TMFID n D T ∈ sent (ts_cache s'))) ∧
    ∀ p, p ∈ ends true u v → ∃ lid, carries lid [link_of (graph t) p] ∧
      announced getpid uc (TM_to_nodeFID t) s' lid.
Proof.
  intros t Hmem Hok Hnode Huv Hu Hv Hadj.
  destruct (link_down_run memory es_harmless getpid sendmsg_ret junk uc s node publisher behind nt u v
    Hmem Hok Hnode Huv Hu Hv Hadj) as (s' & rei & el & g & fr & Hrun & Hdone & Hl & Hin & _).
  destruct Hdone as (rv & tm & nd & Hgr & Hok' & Htold & Hann). exists s'. split_and!; [done|done|by rewrite Hgr| |].
  - intros n R T D Hk He Hz. rewrite Hgr in He. by apply (Htold n R T D).
  - intros p Hp. destruct (Hin p Hp) as (lid & Hlid & Hc). exists lid. split; [done|].
    apply (Hann lid). unfold lost_lids. apply list_elem_of_fmap. exists (p, lid). split; [done|].
    by apply elem_of_in_order_of.
Qed.

(** ** Examples *)

(** The tables that the topology manager starts with are in order. *)
Lemma with_routes_manager {G : Type} `{IgraphLaws G} (t : TMgraph G) :
  tm_wf t → simple (graph t) → (∀ n, known t n → length n = PURSUIT_ID_LEN) → freedLIDs t = ∅ →
  TM_to_nodeFID t = ∅ → (∀ u v, adjacent (graph t) u v → adjacent (graph t) v u) →
  known t (RVnodeID t) → known t (tm_nodeID t) → manager_ok (with_routes t).
Proof.
  intros Hwf Hs Hnames Hfr Hnd Hsym Hrv Htm.
  destruct (calculateRVTMFIDs_run t Hwf Hrv Htm) as (rv & tm & nd & Hrun & Hall & Hout).
  unfold with_routes. rewrite Hrun. constructor.
  - constructor; try done; [by apply wf_fids| |]; cbn; rewrite Hfr; [done|]. by intros ?? [].
  - cbn. apply set_eq. intros n. rewrite !elem_of_dom. split.
    + intros Hx. destruct (decide (is_Some (reverse_node_index t !! n))) as [Hn|Hn]; [done|]. rewrite (Hout n Hn), Hnd in Hx. by destruct Hx.
    + intros Hn. destruct (Hall n Hn) as (_ & _ & D & HD & _). by rewrite HD.
  - intros n Hn. destruct (Hall n Hn) as ((R & HR & HRc) & (T & HT & HTc) & (D & HD & HDc)).
    exists R, T, D. split; [done|].
    split; [by apply (way_sound t)|split; by apply (way_sound t)].
Qed.

Lemma row_manager_ok : manager_ok (with_routes row_tm).
Proof.
  assert (map_Forall (λ n _, length n = PURSUIT_ID_LEN) (reverse_node_index row_tm)) as Hnames
    by (apply (bool_decide_unpack (map_Forall (λ n (_ : Z), length n = PURSUIT_ID_LEN) (reverse_node_index row_tm)) ); vm_compute; exact I).
  apply with_routes_manager.
  - apply row_wf.
  - apply (bool_decide_unpack (NoDup (links (graph row_tm)).*1)). vm_compute. exact I.
  - intros n [v Hv]. exact (Hnames n v Hv).
  - vm_compute. reflexivity.
  - vm_compute. reflexivity.
  - assert (Forall (λ p, (p.2, p.1) ∈ (links (graph row_tm)).*1) (links (graph row_tm)).*1) as Hsym.
    { apply (bool_decide_unpack (Forall (λ p, (p.2, p.1) ∈ (links (graph row_tm)).*1) (links (graph row_tm)).*1)).
      vm_compute. exact I. }
    intros u v Huv. rewrite Forall_forall in Hsym. exact (Hsym (u, v) Huv).
  - eexists. vm_compute. reflexivity.
  - eexists. vm_compute. reflexivity.
Qed.

Lemma with_routes_fids {G : Type} `{IgraphLaws G} (t : TMgraph G) : tm_wf t → known t (RVnodeID t) →
  known t (tm_nodeID t) → ∃ rv tm nd, with_routes t = set_fids rv tm nd t.
Proof.
  intros Hwf Hrv Htm. destruct (calculateRVTMFIDs_run t Hwf Hrv Htm) as (rv & tm & nd & Hrun & _).
  unfold with_routes. rewrite Hrun. eauto.
Qed.

Lemma link_failure_repaired_witness : ∃ s',
  handleLinkStateNotificationPM zero_memory false 7 (λ _, 0) (λ _, 0) false
    (link_report REMOVE_LINK 1 (node_name 2) ++ [0]) (node_name 3) (manager (with_routes row_tm)) = Ok (tt, s') ∧
  manager_ok (ts_graph s') ∧
  links (graph (ts_graph s')) ≡ₚ filter (λ l, l.1 ∉ ends true 1 2) (links (graph row_tm)).
Proof.
  assert (reverse_node_index row_tm !! node_name 2 = Some 1) as H2 by (vm_compute; reflexivity).
  assert (reverse_node_index row_tm !! node_name 3 = Some 2) as H3 by (vm_compute; reflexivity).
  assert (adjacent (graph row_tm) 1 2) as Hadj.
  { apply (bool_decide_unpack ((1, 2) ∈ (links (graph row_tm)).*1)). vm_compute. exact I. }
  destruct (with_routes_fids row_tm row_wf) as (rv & tm & nd & E); [eexists; vm_compute; reflexivity..|].
  pose proof row_manager_ok as Hok. rewrite E in *. clear E. revert H2 H3 Hadj Hok. generalize row_tm.
  intros t H2 H3 Hadj Hok.
  destruct (link_failure_repaired zero_memory false 7 (λ _, 0) (λ _, 0) false (manager (set_fids rv tm nd t))
    (node_name 2) (node_name 3) [0] 1 1 2) as (s' & Hrun & Hok' & Hl & _).
  - apply zero_memory_words.
  - exact Hok.
  - apply (bool_decide_unpack (0 ∉ node_name 2)). vm_compute. exact I.
  - discriminate.
  - exact H2.
  - exact H3.
  - exact Hadj.
  - exists s'. split; [exact Hrun|]. split; [exact Hok'|exact Hl].
Defined.
