(* ===== verification/TMReturn.v ===== *)
(** * Links that return

    What the topology manager does when a link is reported up again: nodes
    that could not be reached get their FIDs.  With the other handler, its
    state stays in order through any sequence of reports. *)
From stdpp Require Import base list gmap sets.
From Stdlib Require Import ZArith Lia Bool.
From S2P Require Import Prelude Enums Bitvector GlobalConf Containers LibBitvector Igraph Forwarder UserLib UserProps Blocks TMGraph TMPaths TMLinks TMCache TMHandlers TMAnswers TMFailure.

Local Open Scope Z_scope.

(** ** More links *)

Section growth.
Context {G : Type} `{IgraphLaws G}.

Lemma link_of_more (g g' : G) new p : simple g → simple g' → links g' = links g ++ new → adjacent g p.1 p.2 →
  adjacent g' p.1 p.2 ∧ link_of g' p = link_of g p.
Proof.
  intros Hs Hs' Hl Hadj. assert ((p, link_of g p) ∈ links g') as Hin
    by (rewrite Hl; apply elem_of_app; left; by apply link_of_link).
  assert (adjacent g' p.1 p.2) as Hadj'.
  { unfold adjacent. rewrite <-surjective_pairing. apply list_elem_of_fmap. by exists (p, link_of g p). }
  split; [done|]. eapply (simple_unique g' p); [done| |done]. by apply link_of_link.
Qed.

Lemma walk_more (g g' : G) new w : simple g → simple g' → same_nodes g g' → links g' = links g ++ new → walk g w →
  walk g' w ∧ path_lids g' w = path_lids g w.
Proof.
  intros Hs Hs' [Hn _] Hl. rewrite !path_lids_links. induction w as [|x [|y w] IH]; [done| |].
  - intros [Hx _]. split; [|done]. split; [|done]. unfold is_vertex in *. by rewrite Hn.
  - intros (Hx & Hxy & Hw). change (hops_of (x :: y :: w)) with ((x, y) :: hops_of (y :: w)).
    destruct (link_of_more g g' new (x, y)) as [Ha Hlk]; [done..|]. destruct (IH Hw) as [Hw' Hls].
    split; [|cbn [fmap list_fmap]; by rewrite Hlk, <-Hls].
    split; [unfold is_vertex in *; by rewrite Hn|]. done.
Qed.

Lemma sound_more (g g' : G) new u v F : simple g → simple g' → same_nodes g g' → links g' = links g ++ new →
  sound g u v F → sound g' u v F.
Proof.
  intros Hs Hs' Hn Hl [Hc|(w & (Hw & Hhd & Hla) & Hc)]; [by left|]. right. exists w.
  destruct (walk_more g g' new w) as [Hw' Hls]; [done..|].
  rewrite Hls. destruct Hn as [_ Hv]. rewrite Hv. done.
Qed.

Lemma topology_more (t : TMgraph G) rei el g new u v : topology_ok t → same_nodes (graph t) g →
  links g = links (graph t) ++ new → new.*1 = ends true u v → simple g →
  let t' := set_edges rei el (set_graph g (set_freed (foldl (λ m p, delete p m) (freedLIDs t) (ends true u v)) t)) in
  tm_wf t' → topology_ok t'.
Proof.
  intros Ht Hn Hl Hnew Hs t' Hwf.
  assert (∀ p, adjacent g p.1 p.2 ↔ adjacent (graph t) p.1 p.2 ∨ p ∈ ends true u v) as Hadj.
  { intros p. unfold adjacent. by rewrite Hl, fmap_app, Hnew, elem_of_app, <-!surjective_pairing. }
  constructor; try done; [apply Ht..| | |]; cbn [graph set_edges set_graph set_freed freedLIDs t'].
  - intros a b. rewrite (Hadj (a, b)), (Hadj (b, a)). intros [Hab|Hab]; [left; by apply ok_sym|right; by apply ends_sym].
  - intros p lid. rewrite lookup_deletes. case_decide as Hp; [done|]. intros Hlid.
    destruct (ok_freed t Ht p lid Hlid) as (Hna & Hx). split; [|done]. by intros [?|?]%Hadj.
  - intros a b. rewrite !lookup_deletes. case_decide as Hp; [by intros []|]. intros Hab.
    rewrite decide_False by (by intros ?%ends_sym). by apply ok_freed_sym.
Qed.

(** ** Nodes that are back *)

Context (getpid : Z) (sendmsg_ret : list (Z * Netlink.addressed bytes) → Z) (junk : nat → Z).
Context (t : TMgraph G) (Ht : topology_ok t).
Let Hwf := ok_wf t Ht.

(** There is no way to the node, or none that could be told from none *)
Definition cut_off (n : bytes) : Prop :=
  ∀ w, walk_between (graph t) (vertex_of t (tm_nodeID t)) (vertex_of t n) w →
    ∀ j, 0 ≤ j < fid_bits → sbit (igraph_VAS (graph t) iLID (vertex_of t n)) j = false.

Lemma zero_way F n : known t n → carries F (way_between t (tm_nodeID t) n) → zero F = true → cut_off n.
Proof.
  intros Hn [[Hw Hm] Hb] Hz w Hwk j Hj. rewrite (zero_spec F Hw) in Hz.
  specialize (Hz j ltac:(lia)). rewrite Hb in Hz by done. unfold way_between in Hz. case_decide as Hr.
  - destruct (shortest_path_min _ _ _ _ Hwk) as [Hp _]. by destruct Hp.
  - unfold route_lids in Hz. rewrite existsb_app in Hz. apply orb_false_iff in Hz as [_ Hz].
    cbn [existsb] in Hz. by rewrite orb_false_r in Hz.
Qed.

(** The three entries of a node afterwards: as they were, or new and told *)
Definition served_again (n : bytes) (R0 T0 D0 R T D : BABitvector) (c : MetaCache) : Prop :=
  leads t (tm_nodeID t) n D ∧ leads t n (RVnodeID t) R ∧ leads t n (tm_nodeID t) T ∧
  (zero D = true → cut_off n) ∧
  ((R = R0 ∧ T = T0 ∧ D = D0) ∨
   (zero D0 = true ∧ note_of getpid UPDATE_RVFID n D R ∈ sent c ∧ note_of getpid UPDATE_TMFID n D T ∈ sent c)).

Lemma served_grows n R0 T0 D0 R T D c c' : grows c c' →
  served_again n R0 T0 D0 R T D c → served_again n R0 T0 D0 R T D c'.
Proof.
  unfold served_again. intros Hg (H1 & H2 & H3 & H4 & [H5|(H5 & H6 & H7)]); (split_and!; [done..|]); [by left|].
  right. split_and!; [done|by eapply grows_sent..].
Qed.

Lemma back_step n R0 T0 D0 response rv tm nd c : known t n → entries rv tm nd n R0 T0 D0 →
  leads t (tm_nodeID t) n D0 → leads t n (RVnodeID t) R0 → leads t n (tm_nodeID t) T0 → note_size response →
  ∃ R T D c' response', grows c c' ∧ note_size response' ∧ served_again n R0 T0 D0 R T D c' ∧
    (FID ← on_graph (getTM_to_nodeFID n);
     v ← deref FID;
     if zero v then
       t ← get_graph;
       FID ← on_graph (calculateFID (tm_nodeID t) n);
       if zero FID then mret response
       else
         _ ← on_graph (setTM_to_nodeFID n FID);
         response ← renew_RVFID getpid sendmsg_ret junk n response;
         renew_TMFID getpid sendmsg_ret junk n response
     else mret response) (tabs t rv tm nd c)
    = Ok (response', tabs t (<[n := Some R]> rv) (<[n := Some T]> tm) (<[n := Some D]> nd) c').
Proof.
  unfold served_again. intros Hn (HR & HT & HD) HlD HlR HlT Hr.
  rewrite (run_bind _ _ _ _ _ (getTM_to_nodeFID_run t n _ rv tm nd c HD)), (run_bind _ _ _ D0 (tabs t rv tm nd c)) by done.
  destruct (zero D0) eqn:Ez.
  2:{ exists R0, T0, D0, c, response. rewrite !insert_id by done. split_and!; [done..|congruence|by left|done]. }
  rewrite (run_bind _ _ _ (set_fids rv tm nd t) (tabs t rv tm nd c)) by done.
  change (tm_nodeID (set_fids rv tm nd t)) with (tm_nodeID t).
  destruct (calculateFID_way t rv tm nd (tm_nodeID t) n Hwf (ok_TM t Ht) Hn) as (F & HF & Hc).
  rewrite (run_bind _ _ _ F (tabs t rv tm nd c)) by (unfold on_graph, tabs; cbn [ts_graph ts_cache]; by rewrite HF).
  destruct (zero F) eqn:EzF.
  { exists R0, T0, D0, c, response. rewrite !insert_id by done. split_and!; [done..|intros _; by eapply zero_way|by left|done]. }
  assert (leads t (tm_nodeID t) n (bv_assign_from D0 F)) as HlF by (apply sound_assign; apply way_sound; [done|apply Ht|done|done]).
  set (D := bv_assign_from D0 F) in *. pose proof (sound_fid _ _ _ _ HlF) as HDok.
  rewrite (run_bind _ _ _ _ _ (setTM_to_nodeFID_run t n D0 F rv tm nd c HD)). fold D.
  destruct (renew_RVFID_run getpid sendmsg_ret junk t Hwf (ok_names t Ht) (ok_RV t Ht) n D R0 response rv tm (<[n := Some D]> nd) c)
    as (R & response1 & Hr1 & HlR1 & Hrun1); [done|by rewrite lookup_insert_eq|done..|]. rewrite (run_bind _ _ _ _ _ Hrun1).
  set (c1 := after _ c).
  destruct (renew_TMFID_run getpid sendmsg_ret junk t Hwf (ok_names t Ht) (ok_TM t Ht) n D T0 response1 (<[n := Some R]> rv) tm (<[n := Some D]> nd) c1)
    as (T & response2 & Hr2 & HlT1 & Hrun2); [done|by rewrite lookup_insert_eq|done..|]. rewrite Hrun2.
  eexists R, T, D, _, response2. split; [by etrans; apply grows_after|]. split; [done|]. split; [|done].
  split; [done|]. split; [done|]. split; [done|]. split.
  - intros EzD. unfold D in EzD. destruct Hc as [HFok _]. rewrite (assign_fid D0 F HFok) in EzD.
    destruct HFok as [Hw Hm]. destruct (bv_copy_spec F Hw) as (Hwc & Hmc & Hbc).
    rewrite (zero_spec _ Hwc), Hmc in EzD. assert (zero F = true); [|congruence].
    apply zero_spec; [done|]. intros i Hi. by rewrite <-Hbc, EzD.
  - right. split; [done|]. unfold c1. rewrite !sent_after. set_solver.
Qed.

Definition served_all (rv tm nd : gmap bytes (option BABitvector)) (c : MetaCache) (n : bytes) : Prop :=
  ∃ R0 T0 D0 R T D, entries (RVFID t) (TMFID t) (TM_to_nodeFID t) n R0 T0 D0 ∧ entries rv tm nd n R T D ∧
    served_again n R0 T0 D0 R T D c.

Lemma link_back_run (c : MetaCache) : dom (TM_to_nodeFID t) = dom (reverse_node_index t) →
  (∀ n, known t n → ∃ R T D, entries (RVFID t) (TMFID t) (TM_to_nodeFID t) n R T D ∧
     leads t (tm_nodeID t) n D ∧ leads t n (RVnodeID t) R ∧ leads t n (tm_nodeID t) T) →
  wp no_fault (link_back getpid sendmsg_ret junk)
    (λ _ s', ∃ rv tm nd c', s' = tabs t rv tm nd c' ∧ grows c c' ∧ dom nd = dom (reverse_node_index t) ∧
       ∀ n, known t n → served_all rv tm nd c' n) (mkTMS t c).
Proof.
  intros Hdom Hfids. unfold link_back. apply wp_bind. eapply wp_of_run; [by apply alloc_run|]. apply wp_bind.
  eapply wp_of_run; [by apply fid_nodes_run|]. set (nodes := key_order _). apply wp_bind.
  eapply wp_mono; [apply (wp_fold_each _ nodes _ (λ todo acc s', ∃ pre rv tm nd c', nodes = pre ++ todo ∧
    s' = tabs t rv tm nd c' ∧ grows c c' ∧ note_size acc ∧ dom nd = dom (reverse_node_index t) ∧
    (∀ n, n ∉ pre → rv !! n = RVFID t !! n ∧ tm !! n = TMFID t !! n ∧ nd !! n = TM_to_nodeFID t !! n) ∧
    ∀ n, n ∈ pre → served_all rv tm nd c' n))|].
  - exists [], (RVFID t), (TMFID t), (TM_to_nodeFID t), c. split_and!; try done.
    + unfold tabs. f_equal. by destruct t.
    + by intros ? ?%elem_of_nil.
  - intros n todo response s' (pre & rv & tm & nd & c1 & Heq & -> & Hg & Hr & Hd & Hout & Hin).
    assert (n ∉ pre) as Hnp.
    { pose proof (NoDup_key_order (dom (reverse_node_index t))) as Hnd. fold nodes in Hnd. rewrite Heq in Hnd.
      apply NoDup_app in Hnd as (_ & Hnd & _). intros Hp. apply (Hnd n Hp). left. }
    assert (known t n) as Hn.
    { apply elem_of_dom, elem_of_key_order. fold nodes. rewrite Heq. set_solver. }
    destruct (Hfids n Hn) as (R0 & T0 & D0 & (HR & HT & HD) & H1 & H2 & H3). destruct (Hout n Hnp) as (E1 & E2 & E3).
    destruct (back_step n R0 T0 D0 response rv tm nd c1) as (R & T & D & c2 & response' & Hg2 & Hr' & Hs & Hrun);
      [done|split_and!; congruence|done..|].
    eapply wp_of_run; [exact Hrun|].
    eexists (pre ++ [n]), _, _, _, c2. split_and!; [by rewrite <-app_assoc|done|by etrans|done| | |].
    + rewrite dom_insert_L, Hd. assert (n ∈ dom (reverse_node_index t)) by by apply elem_of_dom. set_solver.
    + intros m [Hm Hne]%not_elem_of_app. rewrite !lookup_insert_ne by set_solver. by apply Hout.
    + intros m [Hm| ->]%elem_of_snoc.
      * destruct (Hin m Hm) as (R1 & T1 & D1 & R2 & T2 & D2 & G1 & (HA & HB & HC) & G3).
        exists R1, T1, D1, R2, T2, D2. split; [done|]. assert (n ≠ m) by (by intros ->).
        split; [by split_and!; rewrite lookup_insert_ne by done|]. by eapply served_grows.
      * exists R0, T0, D0, R, T, D. split; [done|]. split; [by split_and!; rewrite lookup_insert_eq|done].
  - intros response s' (pre & rv & tm & nd & c1 & Heq & -> & Hg & Hr & Hd & _ & Hin).
    apply wp_ret. exists rv, tm, nd, c1. rewrite app_nil_r in Heq. split_and!; [done..|]. intros n Hn.
    apply Hin. rewrite <-Heq. by apply elem_of_key_order, elem_of_dom.
Qed.

Lemma served_ok rv tm nd c : dom nd = dom (reverse_node_index t) → (∀ n, known t n → served_all rv tm nd c n) →
  manager_ok (set_fids rv tm nd t).
Proof.
  intros Hd Hm. constructor; [|done|].
  - destruct Ht. constructor; try done. by apply wf_fids.
  - intros n Hn. destruct (Hm n Hn) as (R0 & T0 & D0 & R & T & D & _ & He & HD & HR & HT & _).
    exists R, T, D. by split_and!.
Qed.
End growth.

(** ** Reports *)

Section reports.
Context {G : Type} `{IgraphLaws G} (memory : nat → list Z) (Hmem : words_of memory) (es_harmless : bool).

(** Adding links destroys a selector of edges that was never initialised;
    [es_harmless] tells whether that goes well.  Both cases are covered. *)
Definition unselected {A : Type} (r : res A) : res A := if es_harmless then r else Fault Uninitialised.

(** Nothing is done for a link that is as it was reported. *)
Lemma updateGraph_idle (t : TMgraph G) src dst remove u v :
  reverse_node_index t !! src = Some u → reverse_node_index t !! dst = Some v →
  (if remove : bool then ¬ adjacent (graph t) u v else adjacent (graph t) u v) →
  updateGraph memory es_harmless src dst true remove t = unselected (Ok (false, t)).
Proof.
  intros Hu Hv Hadj. unfold updateGraph, mbind at 1, M_bind at 1. cbn [get].
  rewrite (run_bind _ _ _ _ _ (found_run _ _ _ t Hu)), (run_bind _ _ _ _ _ (found_run _ _ _ t Hv)).
  rewrite (run_bind _ _ _ _ _ (eids_run t _)). cbn [fmap list_fmap fst snd].
  destruct (igraph_get_eid (graph t) u v) as [e|] eqn:E.
  - rewrite (run_bind _ _ t (Z.of_nat e) t) by done. destruct remove; [by apply eid_adjacent in E|].
    rewrite Z.gtb_ltb, (proj2 (Z.ltb_lt _ _)) by lia. unfold unselected. by destruct es_harmless.
  - rewrite (run_bind _ _ t (-1) t) by done. unfold unselected. destruct remove; [by destruct es_harmless|]. by destruct (get_eid_missing _ _ _ E).
Qed.

Context (getpid : Z) (sendmsg_ret : list (Z * Netlink.addressed bytes) → Z) (junk : nat → Z) (uc : bool).

Lemma fids_more (t : TMgraph G) rei el g fr new n : manager_ok t → same_nodes (graph t) g →
  links g = links (graph t) ++ new → simple g → known t n →
  let t1 := set_edges rei el (set_graph g (set_freed fr t)) in
  ∃ R T D, entries (RVFID t) (TMFID t) (TM_to_nodeFID t) n R T D ∧
    leads t1 (tm_nodeID t) n D ∧ leads t1 n (RVnodeID t) R ∧ leads t1 n (tm_nodeID t) T.
Proof.
  intros Hok Hn Hl Hsg Hk t1. destruct (ok_fids t Hok n Hk) as (R & T & D & He & H1 & H2 & H3). exists R, T, D.
  pose proof (ok_simple t (ok_topology t Hok)).
  split; [done|]. unfold leads in *. split_and!; by apply (sound_more (graph t) g new).
Qed.

Lemma link_up_run (s : TMState G) (node publisher behind : bytes) (nt u v : Z) :
  let t := ts_graph s in
  manager_ok t → 0 ∉ node → u ≠ v →
  reverse_node_index t !! node = Some u → reverse_node_index t !! publisher = Some v →
  is_Some (freedLIDs t !! (u, v)) →
  ∃ s' rei el g rv tm nd, let t1 := set_edges rei el (set_graph g
        (set_freed (foldl (λ m p, delete p m) (freedLIDs t) (ends true u v)) t)) in
    handleLinkStateNotificationPM memory es_harmless getpid sendmsg_ret junk uc
      (link_report ADD_LINK nt node ++ behind) publisher s = read_report nt behind (unselected (Ok (tt, s'))) ∧
    ts_graph s' = set_fids rv tm nd t1 ∧ manager_ok (ts_graph s') ∧
    links g = links (graph t) ++ ((λ p, (p, kept t p)) <$> ends true u v) ∧
    ∀ n, known t n → served_all getpid t1 rv tm nd (ts_cache s') n.
Proof.
  intros t Hok Hnode Huv Hu Hv Hfr. pose proof (ok_topology t Hok) as Ht.
  destruct (updateGraph_add memory Hmem t (ok_wf t Ht) (ok_simple t Ht) es_harmless node publisher true u v Hu Hv)
    as (rei & el & g & Hrun & Hn & Hl & Hsg & Hwf1); [|done|].
  { intros p Hp. assert (is_Some (freedLIDs t !! p)) as [lid Hlid].
    { apply elem_of_cons in Hp as [->|[->|[]%elem_of_nil]%elem_of_cons]; [done|]. by apply ok_freed_sym. }
    destruct (ok_freed t Ht p lid Hlid) as (Hna & x & Hx & Hc). split_and!; [done|done|].
    unfold kept. rewrite Hlid. cbn. by rewrite (to_string_lid lid x). }
  assert (topology_ok (set_edges rei el (set_graph g (set_freed (foldl (λ m p, delete p m) (freedLIDs t) (ends true u v)) t)))) as Ht1.
  { by eapply topology_more. }
  set (t1 := set_edges rei el _) in *.
  destruct (wp_total _ _ _ (link_back_run getpid sendmsg_ret junk t1 Ht1 (ts_cache s) (ok_dom t Hok)
    (λ n, fids_more t rei el g _ _ n Hok Hn Hl Hsg))) as ([] & s' & Hrun' & rv & tm & nd & c' & -> & Hg & Hd & Hall).
  exists (tabs t1 rv tm nd c'), rei, el, g, rv, tm, nd. split_and!; try done; [|by eapply served_ok].
  unfold handleLinkStateNotificationPM.
  unfold mbind at 1, M_bind at 1. rewrite link_update_run by (done || apply (ok_names t Ht), (mk_is_Some _ _ Hu)).
  change (ADD_LINK =? REMOVE_LINK) with false. fold t. rewrite Hrun. unfold read_report, unselected.
  destruct (nt =? 0); [done|]. destruct (decide (0 ∈ behind)); [|done]. destruct es_harmless; [exact Hrun'|done].
Qed.

(** A report: down or up, by [rp_publisher] about its link to [rp_node], with
    the memory behind it *)
Record report := mkReport {
  rp_down : bool;
  rp_nt : Z;
  rp_node : bytes;
  rp_publisher : bytes;
  rp_behind : bytes;
}.

Definition handle_report (r : report) : M (TMState G) unit :=
  handleLinkStateNotificationPM memory es_harmless getpid sendmsg_ret junk uc
    (link_report (if rp_down r then REMOVE_LINK else ADD_LINK) (rp_nt r) (rp_node r) ++ rp_behind r)
    (rp_publisher r).

(** How a sequence of reports can end the manager: one is about one direction
    only, one has no NUL behind it, or the selector that was not initialised
    is destroyed. *)
Definition report_fault (l : list report) (e : fault) : Prop :=
  (e = Thrown ∧ ∃ r, r ∈ l ∧ rp_nt r = 0) ∨ (e = BufferOverflow ∧ ∃ r, r ∈ l ∧ 0 ∉ rp_behind r) ∨
  (e = Uninitialised ∧ es_harmless = false).

(** The link of a report, which is up or down *)
Definition about (t : TMgraph G) (r : report) : list (Z * Z) :=
  ends true (vertex_of t (rp_node r)) (vertex_of t (rp_publisher r)).

Definition linked (t : TMgraph G) (p : Z * Z) : Prop := adjacent (graph t) p.1 p.2 ∨ is_Some (freedLIDs t !! p).

Record report_ok (t : TMgraph G) (r : report) : Prop := {
  rp_node_ok : known t (rp_node r) ∧ 0 ∉ rp_node r;
  rp_publisher_ok : known t (rp_publisher r);
  rp_ends : vertex_of t (rp_node r) ≠ vertex_of t (rp_publisher r);
  rp_linked : linked t (vertex_of t (rp_node r), vertex_of t (rp_publisher r));
}.

Definition is_up (t : TMgraph G) (p : Z * Z) : bool := bool_decide (p ∈ (links (graph t)).*1).

Definition reported (t : TMgraph G) (r : report) (p : Z * Z) (up : bool) : bool :=
  if bool_decide (p ∈ about t r) then negb (rp_down r) else up.

(** What a report changes *)
Definition moved (t t' : TMgraph G) (r : report) : Prop :=
  reverse_node_index t' = reverse_node_index t ∧ (∀ p, linked t' p ↔ linked t p) ∧
  ∀ p, is_up t' p = reported t r p (is_up t p).

Lemma is_up_spec (t : TMgraph G) p : is_up t p = true ↔ adjacent (graph t) p.1 p.2.
Proof. unfold is_up, adjacent. by rewrite bool_decide_eq_true, <-surjective_pairing. Qed.

Lemma moved_intro (t t' : TMgraph G) r : reverse_node_index t' = reverse_node_index t →
  (∀ p, p ∈ about t r → linked t p) →
  (∀ p, p ∈ about t r → if rp_down r then ¬ adjacent (graph t') p.1 p.2 ∧ is_Some (freedLIDs t' !! p)
                        else adjacent (graph t') p.1 p.2) →
  (∀ p, p ∉ about t r → (adjacent (graph t') p.1 p.2 ↔ adjacent (graph t) p.1 p.2) ∧
                        freedLIDs t' !! p = freedLIDs t !! p) →
  moved t t' r.
Proof.
  intros Hi Hlk Hin Hout. split; [done|]. split.
  - intros p. destruct (decide (p ∈ about t r)) as [Hp|Hp].
    + split; [by auto|]. intros _. specialize (Hin p Hp). unfold linked. destruct (rp_down r); naive_solver.
    + destruct (Hout p Hp) as [E1 E2]. unfold linked. by rewrite E1, E2.
  - intros p. unfold reported. case_bool_decide as Hp.
    + specialize (Hin p Hp). destruct (rp_down r).
      * apply not_true_is_false. rewrite is_up_spec. by destruct Hin.
      * by apply is_up_spec.
    + apply eq_true_iff_eq. rewrite !is_up_spec. by apply Hout.
Qed.

Lemma linked_ends (t : TMgraph G) r : topology_ok t → report_ok t r → ∀ p, p ∈ about t r → linked t p.
Proof.
  intros Ht Hr p Hp. pose proof (rp_linked t r Hr) as Hl.
  apply elem_of_cons in Hp as [->|[->|[]%elem_of_nil]%elem_of_cons]; [done|].
  destruct Hl as [Hl|Hl]; [left; by apply ok_sym|right; by apply ok_freed_sym].
Qed.

(** A link that is as it was reported *)
Lemma idle_moved (t : TMgraph G) r : topology_ok t → report_ok t r →
  is_up t (vertex_of t (rp_node r), vertex_of t (rp_publisher r)) = negb (rp_down r) → moved t t r.
Proof.
  intros Ht Hr Hup. apply moved_intro; [done|by apply linked_ends| |done]. intros p Hp.
  pose proof (linked_ends t r Ht Hr p Hp) as Hl.
  assert (adjacent (graph t) p.1 p.2 ↔ is_up t (vertex_of t (rp_node r), vertex_of t (rp_publisher r)) = true) as Hadj.
  { rewrite is_up_spec. apply elem_of_cons in Hp as [->|[->|[]%elem_of_nil]%elem_of_cons]; [done|].
    split; apply ok_sym; done. }
  rewrite Hup in Hadj. destruct (rp_down r); [|by apply Hadj]. destruct Hl as [Hl|Hl]; [by apply Hadj in Hl|].
  split; [by intros ?%Hadj|done].
Qed.

Lemma report_fault_one r e : report_fault [r] e → ∀ l, r ∈ l → report_fault l e.
Proof. unfold report_fault. intros [(-> & x & Hx & ?)|[(-> & x & Hx & ?)|?]] l Hl; [left|right; left|by right; right];
  apply list_elem_of_singleton in Hx as ->; eauto. Qed.

(** A report that is read is handled, or ends in one of these ways. *)
Lemma read_wp r s s' (Q : unit → TMState G → Prop) (es : bool) : (es = true → es_harmless = false) →
  handle_report r s = read_report (rp_nt r) (rp_behind r) (if es then Fault Uninitialised else Ok (tt, s')) →
  (es = false → Q tt s') → wp (report_fault [r]) (handle_report r) Q s.
Proof.
  intros Hes Hrun HQ. unfold wp. rewrite Hrun. unfold read_report, report_fault. destruct (Z.eqb_spec (rp_nt r) 0) as [Hz|_].
  { left. split; [done|]. exists r. split; [left|done]. }
  destruct (decide (0 ∈ rp_behind r)) as [Hb|Hb].
  - destruct es; [right; right; auto|by apply HQ].
  - right; left. split; [done|]. exists r. split; [left|done].
Qed.

Lemma report_step r (s : TMState G) : manager_ok (ts_graph s) → report_ok (ts_graph s) r →
  wp (report_fault [r]) (handle_report r)
    (λ _ s', manager_ok (ts_graph s') ∧ moved (ts_graph s) (ts_graph s') r) s.
Proof.
  intros Hok Hr. pose proof (ok_topology _ Hok) as Ht. pose proof (linked_ends _ r Ht Hr) as Hlk.
  destruct (rp_node_ok _ _ Hr) as [Hn Hn0]. pose proof (known_vertex _ _ Hn) as Hu.
  pose proof (known_vertex _ _ (rp_publisher_ok _ _ Hr)) as Hv.
  pose proof (rp_ends _ _ Hr) as Huv. pose proof (idle_moved _ r Ht Hr) as Hidle.
  set (t := ts_graph s) in *. set (u := vertex_of t (rp_node r)) in *. set (v := vertex_of t (rp_publisher r)) in *.
  destruct (decide (is_up t (u, v) = negb (rp_down r))) as [Hup|Hup].
  { apply (read_wp r s s _ (negb es_harmless)); [by destruct es_harmless| |by auto].
    unfold handle_report, handleLinkStateNotificationPM, mbind at 1, M_bind at 1.
    rewrite link_update_run by first [done|by destruct (rp_down r)|by apply (ok_names t Ht)]. fold t.
    rewrite (updateGraph_idle t _ _ _ u v) by (done || (pose proof (is_up_spec t (u, v)) as Hs; rewrite Hup in Hs;
      destruct (rp_down r); [intros ?%Hs|apply Hs]; done)).
    unfold read_report, unselected. destruct (rp_nt r =? 0); [done|]. destruct (decide _); [|done].
    destruct es_harmless; [by destruct s|done]. }
  assert (is_up t (u, v) = rp_down r) as E by (destruct (is_up t (u, v)), (rp_down r); done). clear Hup Hidle.
  pose proof (rp_linked _ _ Hr) as Hl. destruct (rp_down r) eqn:Ed.
  - destruct (link_down_run memory es_harmless getpid sendmsg_ret junk uc s (rp_node r) (rp_publisher r) (rp_behind r) (rp_nt r) u v)
      as (s' & rei & el & g & fr & Hrun & (rv & tm & nd & Hgr & Hok' & _) & Hlk' & Hin & Hout); try done.
    { by apply (is_up_spec t (u, v)). }
    apply (read_wp r s s' _ false); [done|unfold handle_report; by rewrite Ed|]. intros _.
    split; [done|]. apply moved_intro; [by rewrite Hgr|done| |]; rewrite Hgr, ?Ed.
    + intros p Hp. split; [by intros [_ ?]%(adjacent_less _ _ _ p Hlk')|]. destruct (Hin p Hp) as (lid & Hlid & _). by exists lid.
    + intros p Hp. split; [|by apply Hout]. split; [by intros [? _]%(adjacent_less _ _ _ p Hlk')|].
      intros Hp'. by apply (adjacent_less _ _ _ p Hlk').
  - assert (is_Some (freedLIDs t !! (u, v))) as Hfr.
    { destruct Hl as [Hl|Hl]; [|done]. apply (is_up_spec t (u, v)) in Hl. congruence. }
    destruct (link_up_run s (rp_node r) (rp_publisher r) (rp_behind r) (rp_nt r) u v)
      as (s' & rei & el & g & rv & tm & nd & Hrun & Hgr & Hok' & Hlk' & _); try done.
    apply (read_wp r s s' _ (negb es_harmless)); [by destruct es_harmless| |].
    { unfold handle_report. rewrite Ed, Hrun. unfold unselected. by destruct es_harmless. }
    intros _. split; [done|].
    assert (∀ p, adjacent g p.1 p.2 ↔ adjacent (graph t) p.1 p.2 ∨ p ∈ ends true u v) as Hadj.
    { intros p. unfold adjacent. rewrite Hlk', fmap_app, <-list_fmap_compose, elem_of_app, <-!surjective_pairing.
      change (compose fst (λ p, (p, kept t p))) with (id (A := Z * Z)). by rewrite list_fmap_id. }
    apply moved_intro; [by rewrite Hgr|done| |]; rewrite Hgr, ?Ed.
    + intros p Hp. apply (Hadj p). by right.
    + intros p Hp. split; [rewrite (Hadj p); naive_solver|]. cbn [freedLIDs set_fids set_edges set_graph set_freed].
      rewrite lookup_deletes. by rewrite decide_False.
Qed.

Definition handle_reports (l : list report) : M (TMState G) unit := for_each l handle_report.

Lemma report_ok_moved (t t' : TMgraph G) r r' : moved t t' r → report_ok t r' → report_ok t' r'.
Proof.
  intros (Hi & Hl & _) [H1 H2 H3 H4]. constructor; try done; unfold known, vertex_of in *; rewrite ?Hi; try done.
  by apply Hl.
Qed.

Lemma reports_run l (s : TMState G) : manager_ok (ts_graph s) → Forall (report_ok (ts_graph s)) l →
  wp (report_fault l) (handle_reports l) (λ _ s', manager_ok (ts_graph s') ∧
    (∀ p, linked (ts_graph s') p ↔ linked (ts_graph s) p) ∧
    ∀ p, is_up (ts_graph s') p = foldl (λ up r, reported (ts_graph s) r p up) (is_up (ts_graph s) p) l) s.
Proof.
  revert s. induction l as [|r l IH]; intros s Hok; [by intros _; apply wp_ret|]. intros [Hr Hl]%Forall_cons.
  unfold handle_reports in *. cbn [for_each]. apply wp_bind.
  eapply wp_fault_mono; [eapply wp_mono; [by apply report_step|]|intros e He; eapply report_fault_one; [done|left]].
  intros [] s1 [Hok1 Hmv]. pose proof Hmv as (Hi & Hlk & Hup).
  eapply wp_fault_mono; [eapply wp_mono; [apply (IH s1 Hok1)|]|].
  - eapply Forall_impl; [exact Hl|]. intros r' Hr'. by eapply report_ok_moved.
  - intros [] s' (Hok' & Hlk' & Hup'). split_and!; [done|intros p; by rewrite Hlk'|].
    intros p. rewrite Hup', Hup. cbn [foldl].
    assert (∀ r' up, reported (ts_graph s1) r' p up = reported (ts_graph s) r' p up) as E.
    { intros r' up. unfold reported, about, vertex_of. by rewrite Hi. }
    generalize (reported (ts_graph s) r p (is_up (ts_graph s) p)). clear -E.
    induction l as [|r' l IH]; intros b; [done|]. cbn [foldl]. by rewrite E, IH.
  - intros e [(-> & x & Hx & ?)|[(-> & x & Hx & ?)|?]]; [left|right; left|by right; right];
      (split; [done|]; exists x; split; [by right|done]).
Qed.
End reports.

(** C18. A link that failed is reported up again by the node [publisher];
    labels of nodes contain no zero byte.  A report on one direction only ([nt]
    is zero) ends the manager with an exception; without a NUL in the memory
    [behind] the report it is read past its end; and igraph_es_destroy is
    called with a selector that was never initialised, which may fail
    ([es_harmless] is false).  Otherwise both directions are in the graph again
    and no longer put aside, and the state stays in order.  Every node has its
    FIDs as before or had no FID from the topology manager and has been sent
    two new ones; afterwards a node without one is a node that the topology
    manager cannot reach, unless its internal link has the identifier zero. *)
Theorem link_return_reconnects {G : Type} `{IgraphLaws G} (memory : nat → list Z) (es_harmless : bool) (getpid : Z)
    (sendmsg_ret : list (Z * Netlink.addressed bytes) → Z) (junk : nat → Z) (uc : bool) (s : TMState G)
    (node publisher behind : bytes) (nt u v : Z) :
  let t := ts_graph s in
  words_of memory → manager_ok t → 0 ∉ node → u ≠ v →
  reverse_node_index t !! node = Some u → reverse_node_index t !! publisher = Some v →
  is_Some (freedLIDs t !! (u, v)) →
  ∃ s', let t' := ts_graph s' in
    handleLinkStateNotificationPM memory es_harmless getpid sendmsg_ret junk uc
      (link_report ADD_LINK nt node ++ behind) publisher s
    = (if nt =? 0 then Fault Thrown else if decide (0 ∈ behind) then
         if es_harmless then Ok (tt, s') else Fault Uninitialised
       else Fault BufferOverflow) ∧
    manager_ok t' ∧ links (graph t') = links (graph t) ++ ((λ p, (p, kept t p)) <$> ends true u v) ∧
    (∀ p, freedLIDs t' !! p = if decide (p ∈ ends true u v) then None else freedLIDs t !! p) ∧
    ∀ n, known t n → ∃ R0 T0 D0 R T D, entries (RVFID t) (TMFID t) (TM_to_nodeFID t) n R0 T0 D0 ∧
      entries (RVFID t') (TMFID t') (TM_to_nodeFID t') n R T D ∧ (zero D = true → cut_off t' n) ∧
      ((R = R0 ∧ T = T0 ∧ D = D0) ∨ (zero D0 = true ∧ note_of getpid UPDATE_RVFID n D R ∈ sent (ts_cache s') ∧
         note_of getpid UPDATE_TMFID n D T ∈ sent (ts_cache s'))).
Proof.
  intros t Hmem Hok Hnode Huv Hu Hv Hfr.
  destruct (link_up_run memory Hmem es_harmless getpid sendmsg_ret junk uc s node publisher behind nt u v
    Hok Hnode Huv Hu Hv Hfr) as (s' & rei & el & g & rv & tm & nd & Hrun & Hgr & Hok' & Hl & Hall).
  exists s'. cbv zeta. split; [done|]. split; [done|]. rewrite Hgr. split; [done|]. split.
  - intros p. apply lookup_deletes.
  - intros n Hn. destruct (Hall n Hn) as (R0 & T0 & D0 & R & T & D & He0 & He & _ & _ & _ & Hz & Hor).
    by exists R0, T0, D0, R, T, D.
Qed.

(** C12. Any sequence of reports on links of the network, down or up, repeated
    or not, by nodes whose labels contain no zero byte.  The manager can end in
    three ways only: in an exception, if a report is about one direction only;
    past the end of a report, if there is no NUL behind it; or in
    igraph_es_destroy on a selector that was never initialised, if that is not
    harmless.  Otherwise its state stays in order, no link is ever forgotten,
    and in the end a link is in the graph exactly if the last report about it,
    from either end, was that it is up, or there was none and it was in the
    graph before. *)
Theorem reports_keep_order {G : Type} `{IgraphLaws G} (memory : nat → list Z) (es_harmless : bool) (getpid : Z)
    (sendmsg_ret : list (Z * Netlink.addressed bytes) → Z) (junk : nat → Z) (uc : bool) (l : list report) (s : TMState G) :
  let t := ts_graph s in
  words_of memory → manager_ok t → Forall (report_ok t) l →
  wp (report_fault es_harmless l) (handle_reports memory es_harmless getpid sendmsg_ret junk uc l)
    (λ _ s', let t' := ts_graph s' in manager_ok t' ∧ (∀ p, linked t' p ↔ linked t p) ∧
       ∀ p, is_up t' p = foldl (λ up r, reported t r p up) (is_up t p) l) s.
Proof. intros t Hmem Hok Hl. by apply reports_run. Qed.

(** One direction of a link.  A report on one direction only, which is
    told by a byte that is zero, ends the process: the handlers take the name
    of the node out of a C string that this byte already ends, and the
    exception is not caught. *)
Theorem one_way_report_throws {G : Type} `{Igraph G} (memory : nat → list Z) (es_harmless : bool) (getpid : Z)
    (sendmsg_ret : list (Z * Netlink.addressed bytes) → Z) (junk : nat → Z) (uc : bool) (s : TMState G)
    (type : Z) (rest publisher : bytes) :
  type ≠ 0 →
  handleLinkStateNotificationPM memory es_harmless getpid sendmsg_ret junk uc ([type; 0] ++ rest) publisher s = Fault Thrown ∧
  handleLinkStateNotificationRM memory es_harmless getpid sendmsg_ret junk ([type; 0] ++ rest) publisher s = Fault Thrown.
Proof.
  intros Ht. assert (link_update memory es_harmless ([type; 0] ++ rest) publisher s = Fault Thrown) as Hup.
  { unfold link_update. rewrite (run_bind _ _ s type s) by (by apply (byte_at_run [])).
    rewrite (run_bind _ _ s 0 s) by (by apply (byte_at_run [type])).
    rewrite (run_bind _ _ s [type] s); [done|]. change ([type; 0] ++ rest) with ([type] ++ 0 :: rest).
    apply c_string_run. set_solver. }
  split; [unfold handleLinkStateNotificationPM|unfold handleLinkStateNotificationRM];
    unfold mbind at 1, M_bind at 1; by rewrite Hup.
Qed.

(** ** Examples *)

Lemma one_way_report_throws_witness :
  handleLinkStateNotificationPM zero_memory true 7 (λ _, 0) (λ _, 0) false ([REMOVE_LINK; 0] ++ node_name 2) (node_name 3)
    (manager row_tm) = Fault Thrown.
Proof. apply (one_way_report_throws zero_memory true 7 (λ _, 0) (λ _, 0) false). discriminate. Defined.

(** The link between the second and the third node of the row *)
Lemma row_link : ∃ rv tm nd, with_routes row_tm = set_fids rv tm nd row_tm ∧ manager_ok (set_fids rv tm nd row_tm) ∧
  reverse_node_index row_tm !! node_name 2 = Some 1 ∧ reverse_node_index row_tm !! node_name 3 = Some 2 ∧
  adjacent (graph row_tm) 1 2.
Proof.
  destruct (with_routes_fids row_tm row_wf) as (rv & tm & nd & E); [eexists; vm_compute; reflexivity..|].
  exists rv, tm, nd. pose proof row_manager_ok as Hok. rewrite E in Hok. split; [exact E|]. split; [exact Hok|].
  split; [vm_compute; reflexivity|]. split; [vm_compute; reflexivity|].
  apply (bool_decide_unpack ((1, 2) ∈ (links (graph row_tm)).*1)). vm_compute. exact I.
Qed.

Lemma link_return_reconnects_witness : ∃ s1 s2,
  handleLinkStateNotificationPM zero_memory true 7 (λ _, 0) (λ _, 0) false
    (link_report REMOVE_LINK 1 (node_name 2) ++ [0]) (node_name 3) (manager (with_routes row_tm)) = Ok (tt, s1) ∧
  handleLinkStateNotificationPM zero_memory true 7 (λ _, 0) (λ _, 0) false
    (link_report ADD_LINK 1 (node_name 2) ++ [0]) (node_name 3) s1 = Ok (tt, s2) ∧ manager_ok (ts_graph s2).
Proof.
  destruct row_link as (rv & tm & nd & E & Hok & H2 & H3 & Hadj). rewrite E. clear E. revert Hok H2 H3 Hadj.
  generalize row_tm. intros t Hok H2 H3 Hadj.
  assert (0 ∉ node_name 2) as Hz by (apply (bool_decide_unpack (0 ∉ node_name 2)); vm_compute; exact I).
  destruct (link_down_run zero_memory true 7 (λ _, 0) (λ _, 0) false (manager (set_fids rv tm nd t))
    (node_name 2) (node_name 3) [0] 1 1 2 zero_memory_words Hok Hz
    ltac:(discriminate) H2 H3 Hadj) as (s1 & rei & el & g & fr & Hrun & (rv1 & tm1 & nd1 & Hgr & Hok1 & _) & _ & Hin & _).
  destruct (Hin (1, 2)) as (lid & Hlid & _); [left|].
  destruct (link_return_reconnects zero_memory true 7 (λ _, 0) (λ _, 0) false s1 (node_name 2) (node_name 3) [0] 1 1 2)
    as (s2 & Hrun2 & Hok2 & _).
  - apply zero_memory_words.
  - exact Hok1.
  - exact Hz.
  - discriminate.
  - rewrite Hgr. exact H2.
  - rewrite Hgr. exact H3.
  - rewrite Hgr. exists lid. exact Hlid.
  - exists s1, s2. split; [exact Hrun|]. split; [exact Hrun2|exact Hok2].
Defined.

(** The link fails, fails again, is back, and fails. *)
Definition row_report (down : bool) : report := mkReport down 1 (node_name 2) (node_name 3) [0].

Lemma reports_keep_order_witness : ∃ s',
  handle_reports zero_memory true 7 (λ _, 0) (λ _, 0) true [row_report true; row_report true; row_report false; row_report true]
    (manager (with_routes row_tm)) = Ok (tt, s') ∧ manager_ok (ts_graph s') ∧ is_up (ts_graph s') (2, 1) = false.
Proof.
  destruct row_link as (rv & tm & nd & E & Hok & H2 & H3 & Hadj). rewrite E. clear E. revert Hok H2 H3 Hadj.
  generalize row_tm. intros t Hok H2 H3 Hadj.
  assert (0 ∉ node_name 2) as Hz by (apply (bool_decide_unpack (0 ∉ node_name 2)); vm_compute; exact I).
  assert (vertex_of t (node_name 2) = 1) as V2 by (unfold vertex_of; by rewrite H2).
  assert (vertex_of t (node_name 3) = 2) as V3 by (unfold vertex_of; by rewrite H3).
  assert (∀ down, report_ok (set_fids rv tm nd t) (row_report down)) as Hr.
  { intros down. constructor; cbn [row_report rp_nt rp_node rp_publisher rp_behind].
    - split; [exists 1; exact H2|exact Hz].
    - exists 2. exact H3.
    - change (vertex_of t (node_name 2) ≠ vertex_of t (node_name 3)). rewrite V2, V3. discriminate.
    - change (linked t (vertex_of t (node_name 2), vertex_of t (node_name 3))). rewrite V2, V3. left. exact Hadj. }
  pose proof (reports_keep_order zero_memory true 7 (λ _, 0) (λ _, 0) true
    [row_report true; row_report true; row_report false; row_report true] (manager (set_fids rv tm nd t))
    zero_memory_words Hok) as Hwp.
  assert (∀ r, r ∈ [row_report true; row_report true; row_report false; row_report true] → ∃ down, r = row_report down) as Hrow.
  { intros r Hin. repeat (apply elem_of_cons in Hin as [->|Hin]; [eexists; reflexivity|]). by apply elem_of_nil in Hin. }
  unfold wp in Hwp. destruct (handle_reports _ _ _ _ _ _ _ _) as [[[] s']|e].
  - destruct Hwp as (Hok' & _ & Hup).
    { apply Forall_forall. intros r Hin. destruct (Hrow r Hin) as [down ->]. apply Hr. }
    exists s'. split; [reflexivity|]. split; [exact Hok'|]. rewrite Hup. cbn [foldl]. unfold reported at 1, about.
    cbn [row_report rp_node rp_publisher rp_down].
    change (vertex_of (ts_graph (manager (set_fids rv tm nd t)))) with (vertex_of t). rewrite V2, V3. reflexivity.
  - exfalso. destruct Hwp as [(_ & r & Hin & Hnt)|[(_ & r & Hin & Hb)|[_ Hes]]].
    + apply Forall_forall. intros r Hin. destruct (Hrow r Hin) as [down ->]. apply Hr.
    + destruct (Hrow r Hin) as [down ->]. discriminate Hnt.
    + destruct (Hrow r Hin) as [down ->]. apply Hb. left.
    + discriminate Hes.
Defined.
