(* ===== verification/Resilience.v ===== *)
(** * The resilience manager (TopologyManager/rm.cpp)

    A process beside the topology manager.  It is told which paths deliver
    which item and which publishers or subscribers stand by; when a link fails
    it finds the items whose paths are cut and asks the topology manager for
    new ones.  A request is copied into a block of its own; [behind] is what
    can be read behind that block.  [split] is boost::split at the characters
    of ["->"]. *)
From stdpp Require Import base list gmap sets.
From Stdlib Require Import ZArith Lia Bool.
From S2P Require Import Prelude Enums Bitvector GlobalConf Containers LibBitvector Igraph UserLib Blocks TMGraph TMCache TMHandlers.

Local Open Scope Z_scope.

Record RMState (G : Type) := mkRM {
  rm_graph : TMgraph G;
  path_info : gmap bytes (gset bytes);
  unicast_path_info : gmap bytes (gmap bytes bytes);
  ex_pubs : gmap bytes (gset bytes);
  ex_subs : gmap bytes (gset bytes);
  rm_ba : Blackadder;
}.
Arguments mkRM {G}.
Arguments rm_graph {G}.
Arguments path_info {G}.
Arguments unicast_path_info {G}.
Arguments ex_pubs {G}.
Arguments ex_subs {G}.
Arguments rm_ba {G}.

Section resilience.
Context {G : Type} `{Igraph G}.
Context (getpid : Z) (sendmsg_ret : list (Z * Netlink.addressed bytes) → Z) (junk : nat → Z).
Context (split : bytes → list bytes) (behind : bytes).

Notation R := (M (RMState G)).

Definition set_paths (x : gmap bytes (gset bytes)) (s : RMState G) : RMState G :=
  mkRM (rm_graph s) x (unicast_path_info s) (ex_pubs s) (ex_subs s) (rm_ba s).
Definition set_unicast (x : gmap bytes (gmap bytes bytes)) (s : RMState G) : RMState G :=
  mkRM (rm_graph s) (path_info s) x (ex_pubs s) (ex_subs s) (rm_ba s).
Definition set_ex_pubs (x : gmap bytes (gset bytes)) (s : RMState G) : RMState G :=
  mkRM (rm_graph s) (path_info s) (unicast_path_info s) x (ex_subs s) (rm_ba s).
Definition set_ex_subs (x : gmap bytes (gset bytes)) (s : RMState G) : RMState G :=
  mkRM (rm_graph s) (path_info s) (unicast_path_info s) (ex_pubs s) x (rm_ba s).

Definition on_rm_graph {A : Type} (m : M (TMgraph G) A) : R A := λ s,
  match m (rm_graph s) with
  | Ok (a, t) => Ok (a, mkRM t (path_info s) (unicast_path_info s) (ex_pubs s) (ex_subs s) (rm_ba s))
  | Fault e => Fault e
  end.
Definition on_rm_ba {A : Type} (m : M Blackadder A) : R A := λ s,
  match m (rm_ba s) with
  | Ok (a, b) => Ok (a, mkRM (rm_graph s) (path_info s) (unicast_path_info s) (ex_pubs s) (ex_subs s) b)
  | Fault e => Fault e
  end.

(** ** Deliveries *)

(** The paths of a notification, each with its length in front; where they end *)
Definition read_paths (req request_str : bytes) (no_paths : Z) (off : Z) : R (Z * gset bytes) :=
  fold_each (seq 0 (Z.to_nat no_paths)) (λ _ acc,
    let '(path_idx, path_vecs) := acc in
    path_len ← byte_at req path_idx;
    path_v ← str_substr request_str (path_idx + 1) path_len;
    mret (path_idx + 1 + path_len, {[path_v]} ∪ path_vecs)) (off, ∅).

Definition updated_paths (icn_id : bytes) (path_vecs : gset bytes) (m : gmap bytes (gset bytes))
    : gmap bytes (gset bytes) :=
  match m !! icn_id with
  | None => if decide (path_vecs = ∅) then m else <[icn_id := path_vecs]> m
  | Some _ => if decide (path_vecs = ∅) then delete icn_id m else <[icn_id := path_vecs]> (delete icn_id m)
  end.

Definition handleMulticastPathNotification (req : bytes) (request_len : Z) : R unit :=
  request_str ← bytes_at req 0 request_len;
  no_ids ← byte_at req 0;
  IDlen ← byte_at req 1;
  let ids_size := IDlen * PID + 1 + 1 in
  icn_id ← bytes_at req 0 ids_size;
  no_paths ← byte_at req ids_size;
  '(path_idx, path_vecs) ← read_paths req request_str no_paths (ids_size + 1);
  _ ← modify (λ s, set_paths (updated_paths icn_id path_vecs (path_info s)) s);
  no_alt_pubs ← byte_at req path_idx;
  alternative_publishers ← read_nodes req (path_idx + 1) no_alt_pubs;
  modify (λ s, set_ex_pubs (<[icn_id := alternative_publishers]> (ex_pubs s)) s).

(** The path of one publisher; [None] if the delivery has ended *)
Definition updated_unicast (icn_id publisher : bytes) (path : option bytes) (m : gmap bytes (gmap bytes bytes))
    : gmap bytes (gmap bytes bytes) :=
  match m !! icn_id with
  | None => match path with Some p => <[icn_id := {[publisher := p]}]> m | None => m end
  | Some ps =>
      let ps := delete publisher ps in
      <[icn_id := match path with Some p => <[publisher := p]> ps | None => ps end]> m
  end.

Definition handleUnicastPathNotification (req : bytes) (request_len : Z) : R unit :=
  no_ids ← byte_at req 0;
  IDlen ← byte_at req 1;
  let ids_size := IDlen * PID + 1 + 1 in
  icn_id ← bytes_at req 0 ids_size;
  publisher ← bytes_at req ids_size NID;
  no_paths ← byte_at req (ids_size + NID);
  '(path_idx, path) ← (if no_paths >? 0 then
      let path_idx := ids_size + NID + 1 in
      path_len ← byte_at req path_idx;
      path_v ← bytes_at req (path_idx + 1) path_len;
      mret (path_idx + 1 + path_len, Some path_v)
    else mret (ids_size + NID + 1, None));
  _ ← modify (λ s, set_unicast (updated_unicast icn_id publisher path (unicast_path_info s)) s);
  no_alt_subs ← byte_at req path_idx;
  alternative_subscribers ← read_nodes req (path_idx + 1) no_alt_subs;
  modify (λ s, set_ex_subs (<[icn_id := alternative_subscribers]> (ex_subs s)) s).

(** ** Requests *)

Notation ends_of := (gmap bytes (gset bytes)).

Definition at_id (m : ends_of) (id : bytes) : gset bytes := default ∅ (m !! id).

Definition FID_to_tm : R BABitvector :=
  s ← get;
  on_rm_graph (calculateFID (RMnodeID (rm_graph s)) (tm_nodeID (rm_graph s))).

Definition publish_to_tm (id : bytes) (FID : BABitvector) (notification : buffer) : R unit :=
  on_rm_ba (publish_data getpid sendmsg_ret id IMPLICIT_RENDEZVOUS (Some (bytes_of_words (bv_data FID))) FID_LEN
    (sent_bytes junk notification) (length notification)).

(** Writing the names of nodes; [offset] is an unsigned int. *)
Definition put_nodes (nodes : gset bytes) (offset : Z) (p : buffer) : R (Z * buffer) :=
  fold_each (key_order nodes) (λ node acc,
    let '(offset, p) := acc in
    name ← bytes_at (c_str node) 0 NID;
    p ← put offset name p;
    mret (u32 (offset + NID), p)) (offset, p).

(** The request for one item; the offset is never set back. *)
Definition request_tree (notification_id : bytes) (FID : BABitvector) (id : bytes) (acc : Z * ends_of * ends_of)
    : R (Z * ends_of * ends_of) :=
  let '(offset, publishers, subscribers) := acc in
  s ← get;
  alternatives ← found (ex_pubs s) id;
  let pubs := alternatives ∪ at_id publishers id in
  let subs := at_id subscribers id in
  let no_publishers := u8 (Z.of_nat (size pubs)) in
  let no_subscribers := u8 (Z.of_nat (size subs)) in
  p ← alloc (1 + 1 + 1 + no_publishers * NID + 1 + no_subscribers * NID + len id);
  p ← put 0 [MATCH_PUB_SUBS] p;
  let offset := u32 (offset + 1) in
  p ← put offset [IMPLICIT_RENDEZVOUS] p;
  let offset := u32 (offset + 1) in
  p ← put offset [no_publishers] p;
  let offset := u32 (offset + 1) in
  '(offset, p) ← put_nodes pubs offset p;
  p ← put offset [no_subscribers] p;
  let offset := u32 (offset + 1) in
  '(offset, p) ← put_nodes subs offset p;
  p ← put offset id p;
  _ ← publish_to_tm notification_id FID p;
  mret (offset, <[id := pubs]> publishers, <[id := subs]> subscribers).

Definition requestMulticastTree (ids : gset bytes) (publishers subscribers : ends_of) : R (ends_of * ends_of) :=
  s ← get;
  FID ← FID_to_tm;
  '(_, publishers, subscribers) ←
    fold_each (key_order ids) (request_tree (resl_resp_bin_id ++ tm_nodeID (rm_graph s)) FID) (0, publishers, subscribers);
  mret (publishers, subscribers).

(** One publisher of a unicast delivery *)
Definition request_path (notification_id : bytes) (FID : BABitvector) (id : bytes) (subs : gset bytes) (pub : bytes) : R unit :=
  let no_subscribers := u8 (Z.of_nat (size subs)) in
  p ← alloc (1 + 1 + 1 + NID + 1 + no_subscribers * NID + len id);
  name ← bytes_at (c_str pub) 0 NID;
  p ← puts 0 [[MATCH_PUB_SUBS]; [IMPLICIT_RENDEZVOUS]; [1]; name; [no_subscribers]] p;
  '(offset, p) ← put_nodes subs (4 + NID) p;
  p ← put offset id p;
  publish_to_tm notification_id FID p.

Definition requestUnicastPaths (ids : gset bytes) (publishers subscribers : ends_of) : R unit :=
  s ← get;
  FID ← FID_to_tm;
  let notification_id := resl_resp_bin_id ++ uc_resl_bin_id ++ tm_nodeID (rm_graph s) in
  for_each (key_order ids) (λ id,
    s ← get;
    alternatives ← found (ex_subs s) id;
    let subs := alternatives ∪ at_id subscribers id in
    for_each (key_order (at_id publishers id)) (request_path notification_id FID id subs)).

(** ** Failures *)

Record Cut := mkCut { cut_ids : gset bytes; cut_pubs : ends_of; cut_subs : ends_of }.

(** One path of an item.  [pub] is its publisher, if not the first node. *)
Definition scan_path (lsn_publisher affected_node id : bytes) (pub : option bytes) (path : bytes) (c : Cut) : R Cut :=
  let path_nodes := split path in
  match head path_nodes, last path_nodes with
  | Some front, Some back =>
      let pub := default front pub in
      mret (mkCut (if decide (lsn_publisher ∈ path_nodes ∧ affected_node ∈ path_nodes)
                   then {[id]} ∪ cut_ids c else cut_ids c)
                  (<[id := {[pub]} ∪ at_id (cut_pubs c) id]> (cut_pubs c))
                  (<[id := {[back]} ∪ at_id (cut_subs c) id]> (cut_subs c)))
  | _, _ => throw EndDeref
  end.

Definition scan_multicast (lsn_publisher affected_node : bytes) (c : Cut) : R Cut :=
  s ← get;
  fold_each (in_order_of (path_info s)) (λ e c,
    fold_each (key_order e.2) (scan_path lsn_publisher affected_node e.1 None) c) c.

Definition scan_unicast (lsn_publisher affected_node : bytes) (c : Cut) : R Cut :=
  s ← get;
  fold_each (in_order_of (unicast_path_info s)) (λ e c,
    fold_each (in_order_of e.2) (λ pp, scan_path lsn_publisher affected_node e.1 (Some pp.1) pp.2) c) c.

Definition handleLinkStateNotification (req : bytes) (request_len : Z) : R unit :=
  _ ← byte_at req 0;
  str ← c_string req;
  lsn_publisher ← str_substr str 1 NID;
  affected_node ← str_substr str (1 + NID) NID;
  c ← scan_multicast lsn_publisher affected_node (mkCut ∅ ∅ ∅);
  c' ← scan_unicast lsn_publisher affected_node (mkCut ∅ (cut_pubs c) (cut_subs c));
  '(publishers, subscribers) ← (if decide (cut_ids c = ∅) then mret (cut_pubs c', cut_subs c')
    else requestMulticastTree (cut_ids c) (cut_pubs c') (cut_subs c'));
  if decide (cut_ids c' = ∅) then mret tt
  else requestUnicastPaths (cut_ids c') publishers subscribers.

(** ** Events *)

(** [payload_len] is an unsigned char. *)
Definition DispathToHandler (id request : bytes) (request_len : Z) : R unit :=
  request_type ← byte_at request 0;
  let payload_len := u8 (request_len - 1) in
  block ← bytes_at request 1 payload_len;
  let payload := block ++ behind in
  if decide (id = UpdatePathId) then
    if request_type =? UPDATE_DELIVERY then handleMulticastPathNotification payload payload_len else mret tt
  else if decide (id = UpdateUnicastPathId) then
    if request_type =? UPDATE_DELIVERY then handleUnicastPathNotification payload payload_len else mret tt
  else if decide (id = DiscoverFailureId) then
    if request_type =? DISCOVER_FAILURE then handleLinkStateNotification payload payload_len else mret tt
  else mret tt.

Definition rm_event (type : Z) (id data : bytes) (data_len : Z) : R unit :=
  if type =? PUBLISHED_DATA then
    prefix_id ← before_id id;
    DispathToHandler prefix_id data data_len
  else mret tt.

Definition rm_announce : R unit :=
  on_rm_ba (
    _ ← subscribe_scope getpid sendmsg_ret resl_bin_id [] IMPLICIT_RENDEZVOUS None 0;
    _ ← subscribe_scope getpid sendmsg_ret resl_req_bin_id [] IMPLICIT_RENDEZVOUS None 0;
    _ ← subscribe_scope getpid sendmsg_ret uc_resl_bin_id resl_bin_id IMPLICIT_RENDEZVOUS None 0;
    subscribe_scope getpid sendmsg_ret uc_resl_bin_id resl_req_bin_id IMPLICIT_RENDEZVOUS None 0).
End resilience.
