(* ===== verification/RMProps.v ===== *)
(** * The properties of the resilience manager

    What the topology manager tells it about deliveries is recorded, as long
    as the message is short enough; a failed link makes it ask for new paths
    for the item that is cut, and only one item survives this. *)
From stdpp Require Import base list gmap sets.
From Stdlib Require Import ZArith Lia Bool.
From S2P Require Import Prelude Enums Bitvector GlobalConf Containers LibBitvector Igraph Forwarder LocalProxy ProxyLeave ProxyProps ProxyDelivery ProxyNet UserLib UserProps Blocks TMGraph TMPaths TMLinks TMCache TMHandlers TMAnswers TMFailure Resilience.

Local Open Scope Z_scope.

(** ** Deliveries *)

(** The fields of paths *)
Definition path_field (p : bytes) : bytes := len p :: p.
Definition short (p : bytes) : Prop := len p < 256.

(** What the topology manager collected: [ps] are the paths in use, [alts] the
    publishers that stand by. *)
Definition collected (ps alts : list bytes) : Collected :=
  mkCol (Z.of_nat (length alts)) (concat alts) (Z.of_nat (length ps)) (concat (path_field <$> ps)).

(** The name under which a delivery is recorded: the identifier as it stands in
    a request, with the number of identifiers and its length *)
Definition delivery_name (id : bytes) : bytes := ids_header [id].

Definition delivery_body (id : bytes) (ps alts : list bytes) : bytes :=
  delivery_name id ++ [Z.of_nat (length ps)] ++ concat (path_field <$> ps) ++ [Z.of_nat (length alts)] ++ concat alts.

(** The message about the path of one publisher of a unicast delivery *)
Definition unicast_body (id pub path : bytes) (alts : list bytes) : bytes :=
  delivery_name id ++ pub ++ [1] ++ path_field path ++ [Z.of_nat (length alts)] ++ concat alts.

Lemma delivery_name_eq id : delivery_name id = [1; Z.of_nat (level id)] ++ id.
Proof. unfold delivery_name, ids_header. cbn [fmap list_fmap concat length app]. by rewrite app_nil_r. Qed.

Lemma len_delivery_name id : wire_id id → len (delivery_name id) = Z.of_nat (level id) * PID + 1 + 1.
Proof. intros Hid. rewrite delivery_name_eq, (level_len id Hid). unfold len. rewrite length_app. cbn [length]. lia. Qed.

(** The loop that collects them *)
Lemma add_paths_collected (ps qs alts : list bytes) : Forall short qs → Z.of_nat (length (ps ++ qs)) < 256 →
  foldl add_path (collected ps alts) qs = collected (ps ++ qs) alts.
Proof.
  revert ps. induction qs as [|q qs IH]; intros ps Hq Hl; [by rewrite app_nil_r|].
  apply Forall_cons in Hq as [Hq Hqs]. cbn [foldl].
  assert (add_path (collected ps alts) q = collected (ps ++ [q]) alts) as ->.
  { unfold add_path, collected. cbn [no_alt_publishers alt_publishers no_pathvectors pathvectors_Field].
    rewrite length_app in Hl. cbn [length] in Hl. unfold u8, short, len in *. rewrite !Z.mod_small by lia.
    rewrite fmap_app, concat_app, length_app. cbn [fmap list_fmap concat length]. rewrite app_nil_r.
    f_equal. lia. }
  rewrite IH; [by rewrite <-app_assoc|done|by rewrite <-app_assoc].
Qed.

Section deliveries.
Context {G : Type} `{IgraphLaws G} (getpid : Z) (sendmsg_ret : list (Z * Netlink.addressed bytes) → Z) (junk : nat → Z).
Context (split : bytes → list bytes).
Context (id : bytes) (Hid : wire_id id) (ps alts : list bytes).
Context (Hps : Forall short ps) (Hnps : Z.of_nat (length ps) < 256).
Context (Halts : node_names alts) (Hnalts : Z.of_nat (length alts) < 256).

Let body := delivery_body id ps alts.

(** The message that the topology manager sends; two more bytes of the request
    are copied behind the identifier and overwritten at once. *)
Lemma notify_RM_run (x y : Z) (s : TMState G) (D : BABitvector) :
  TM_to_nodeFID (ts_graph s) !! RMnodeID (ts_graph s) = Some (Some D) → fid_ok D →
  length (RMnodeID (ts_graph s)) = PURSUIT_ID_LEN →
  notify_RM getpid sendmsg_ret junk (id ++ [x; y]) 1 (Z.of_nat (level id)) (collected ps alts) s
  = Ok (tt, mkTMS (ts_graph s) (after (with_fid getpid (UpdatePathId ++ RMnodeID (ts_graph s)) D (UPDATE_DELIVERY :: body)) (ts_cache s))).
Proof.
  intros HD HDok Hrm. destruct s as [t c]. cbn [ts_graph ts_cache] in *. unfold notify_RM.
  rewrite (run_bind _ _ _ t (mkTMS t c)) by done. cbv zeta.
  assert ((if no_pathvectors (collected ps alts) >? 0 then pathvectors_Field (collected ps alts) else [])
    = concat (path_field <$> ps)) as ->.
  { cbn [collected no_pathvectors pathvectors_Field]. destruct ps as [|p ps']; [done|]. cbn [length].
    rewrite Z.gtb_ltb, (proj2 (Z.ltb_lt _ _)) by lia. done. }
  cbn [collected no_alt_publishers no_pathvectors alt_publishers].
  set (field := concat (path_field <$> ps)). rewrite Z.mul_1_l, (level_len id Hid).
  pose proof (len_names alts Halts) as Hla.
  change (Z.of_nat (length alts) * NID) with (Z.of_nat (length alts) * PID). rewrite (Z.mul_comm _ PID), <-Hla.
  set (front := [[UPDATE_DELIVERY]; [1]; [Z.of_nat (level id)]; id ++ [x; y]]).
  set (tail := [[Z.of_nat (length ps)]; field; [Z.of_nat (length alts)]; concat alts]).
  set (size := 1 + 1 + 1 + len id + 1 + len field + 1 + len (concat alts)).
  rewrite (run_bind _ _ _ _ _ (alloc_run size _ ltac:(unfold size, len; lia))).
  assert (length (concat front) = (5 + length id)%nat) as Hfl.
  { unfold front. cbn [concat]. rewrite app_nil_r, !length_app. cbn [length]. lia. }
  assert (Z.to_nat size = (3 + length id + length (concat tail))%nat) as Hsz.
  { unfold size, tail, len. cbn [concat]. rewrite app_nil_r, !length_app. cbn [length]. lia. }
  assert (2 ≤ length (concat tail))%nat as Htl by (unfold tail; cbn [concat]; rewrite !length_app; cbn [length]; lia).
  pose proof (memcpys_fits (make_packet (Z.to_nat size)) 0 front
    ltac:(unfold make_packet; rewrite length_replicate; lia)) as Hf.
  set (p1 := take 0 _ ++ _) in Hf. rewrite (run_bind _ _ _ _ _ (puts_run 0 front _ p1 _ ltac:(done) Hf)).
  assert (length p1 = Z.to_nat size) as Hp1.
  { unfold p1, make_packet. rewrite take_0, app_nil_l, length_app, length_fmap, length_drop, length_replicate. lia. }
  pose proof (memcpys_fits p1 (3 + length id) tail ltac:(lia)) as Ht.
  assert (take (3 + length id) p1 = Some <$> ([UPDATE_DELIVERY; 1; Z.of_nat (level id)] ++ id)) as Htake.
  { unfold p1. rewrite take_0, app_nil_l.
    assert (concat front = ([UPDATE_DELIVERY; 1; Z.of_nat (level id)] ++ id) ++ [x; y]) as -> by (unfold front; cbn; by rewrite app_nil_r).
    rewrite fmap_app, <-app_assoc, take_app_length'; [done|]. rewrite length_fmap, length_app. done. }
  rewrite Htake, drop_ge, app_nil_r, <-fmap_app in Ht by lia.
  set (q := Some <$> _) in Ht.
  apply memcpys_step in Ht as (q1 & H1 & Ht). apply memcpys_step in Ht as (q2 & H2 & Ht).
  apply memcpys_step in Ht as (q3 & H3 & Ht). apply memcpys_step in Ht as (q4 & H4 & [= ->]).
  rewrite (run_bind _ _ _ _ _ (put_run (3 + len id) _ p1 q1 _ ltac:(rewrite <-H1; f_equal; unfold len; lia) ltac:(unfold len; lia))).
  rewrite (run_bind _ _ _ _ _ (put_run (3 + len id + 1) field q1 q2 _ ltac:(rewrite <-H2; f_equal; unfold len; cbn [length]; lia) ltac:(unfold len; lia))).
  rewrite (run_bind _ _ _ _ _ (put_run (3 + len id + 1 + len field) _ q2 q3 _ ltac:(rewrite <-H3; f_equal; unfold len; cbn [length]; lia) ltac:(unfold len; lia))).
  rewrite (run_bind _ _ _ (concat alts) (mkTMS t c)) by (by apply (bytes_at_run [] (concat alts) [0])).
  rewrite (run_bind _ _ _ _ _ (put_run (3 + len id + 1 + len field + 1) _ q3 q _ ltac:(rewrite <-H4; f_equal; unfold len; cbn [length]; lia) ltac:(unfold len; lia))).
  unfold publish_to. rewrite (run_bind _ _ _ (Some D) (mkTMS t c)).
  2:{ unfold on_graph, getTM_to_nodeFID, mbind, M_bind. cbn. unfold found. by rewrite HD. }
  unfold q. rewrite sent_bytes_all, publish_run; [|rewrite length_app, Hrm; done|done|rewrite length_fmap; lia].
  rewrite take_ge by (rewrite length_fmap; lia). cbn [ts_graph ts_cache]. do 4 f_equal.
  unfold body, delivery_body, delivery_name, ids_header, tail, field. cbn [fmap list_fmap concat length app].
  by rewrite !app_nil_r.
Qed.
End deliveries.

(** ** Recording *)

Lemma str_substr_run {S : Type} (pre mid post : bytes) pos n (s : S) :
  pos = len pre → n = len mid → len (pre ++ mid) < 2 ^ 64 →
  str_substr (pre ++ mid ++ post) pos n s = Ok (mid, s).
Proof.
  intros -> -> Hl. unfold str_substr, len in *. rewrite !length_app in *. rewrite !Z.mod_small by lia. cbv zeta.
  rewrite Z.gtb_ltb, (proj2 (Z.ltb_ge _ _)) by lia.
  rewrite Z.min_l, !Nat2Z.id, drop_app_length, take_app_length by lia. done.
Qed.

Section record.
Context {G : Type} `{Igraph G} (getpid : Z) (sendmsg_ret : list (Z * Netlink.addressed bytes) → Z) (junk : nat → Z).
Context (split : bytes → list bytes) (behind : bytes).

Lemma read_paths_run pre ps post off (s : RMState G) : off = len pre →
  len (pre ++ concat (path_field <$> ps) ++ post) < 2 ^ 64 →
  read_paths ((pre ++ concat (path_field <$> ps) ++ post) ++ behind) (pre ++ concat (path_field <$> ps) ++ post)
    (Z.of_nat (length ps)) off s
  = Ok ((off + len (concat (path_field <$> ps)), list_to_set ps), s).
Proof.
  intros Hoff Hlen. unfold read_paths. rewrite Nat2Z.id. set (str := pre ++ _ ++ post) in *.
  assert (∀ k pred todo (X : gset bytes), ps = pred ++ todo →
    fold_each (seq k (length todo)) (λ _ acc, let '(path_idx, path_vecs) := acc in
      path_len ← byte_at (str ++ behind) path_idx; path_v ← str_substr str (path_idx + 1) path_len;
      mret (path_idx + 1 + path_len, {[path_v]} ∪ path_vecs)) (off + len (concat (path_field <$> pred)), X) s
    = Ok ((off + len (concat (path_field <$> ps)), list_to_set todo ∪ X), s)) as Hgen.
  { intros k pred todo. revert k pred. induction todo as [|p todo IH]; intros k pred X Heq; cbn [length seq fold_each].
    { rewrite Heq, app_nil_r. cbn. by rewrite (left_id_L ∅ (∪)). }
    assert (str = (pre ++ concat (path_field <$> pred)) ++ (len p :: p) ++ concat (path_field <$> todo) ++ post) as Hs.
    { unfold str. rewrite Heq, fmap_app, concat_app. cbn [fmap list_fmap concat path_field]. by rewrite <-!app_assoc. }
    rewrite (run_bind _ _ s ((off + len (concat (path_field <$> pred ++ [p]))), {[p]} ∪ X) s).
    - rewrite (IH (Datatypes.S k) (pred ++ [p])) by (by rewrite Heq, <-app_assoc).
      do 3 f_equal. cbn [list_to_set]. set_solver.
    - rewrite (run_bind _ _ s (len p) s).
      2:{ rewrite Hs. rewrite <-app_assoc. apply byte_at_run. unfold len. rewrite Hoff, length_app. unfold len. lia. }
      rewrite (run_bind _ _ s p s).
      2:{ rewrite Hs in Hlen |- *.
          replace ((pre ++ concat (path_field <$> pred)) ++ (len p :: p) ++ concat (path_field <$> todo) ++ post)
            with (((pre ++ concat (path_field <$> pred)) ++ [len p]) ++ p ++ concat (path_field <$> todo) ++ post) in Hlen |- *
            by (by rewrite <-!app_assoc).
          apply str_substr_run; [rewrite Hoff; unfold len; rewrite !length_app; cbn [length]; lia|done|].
          unfold len in *. rewrite !length_app in *. lia. }
      unfold mret, M_ret. do 3 f_equal. rewrite fmap_app, concat_app. cbn [fmap list_fmap concat path_field].
      rewrite app_nil_r. unfold len. rewrite length_app. unfold path_field at 3. cbn [length]. lia. }
  specialize (Hgen 0%nat [] ps ∅ eq_refl). cbn [fmap list_fmap concat] in Hgen.
  change (len []) with 0 in Hgen.
  by rewrite (right_id_L ∅ (∪)), Z.add_0_r in Hgen.
Qed.

Context (id : bytes) (Hid : wire_id id) (ps alts : list bytes).
Context (Halts : node_names alts).
Let body := delivery_body id ps alts.

Definition recorded (id : bytes) (ps alts : list bytes) (s : RMState G) : RMState G :=
  set_ex_pubs (<[delivery_name id := list_to_set alts]> (ex_pubs s))
    (set_paths (updated_paths (delivery_name id) (list_to_set ps) (path_info s)) s).

Lemma multicast_notification_run (s : RMState G) : len body < 2 ^ 64 →
  handleMulticastPathNotification (body ++ behind) (len body) s = Ok (tt, recorded id ps alts s).
Proof using All.
  intros Hlen. unfold handleMulticastPathNotification.
  rewrite (run_bind _ _ s body s) by (by apply (bytes_at_run [] body behind)).
  unfold body, delivery_body in *. pose proof (len_delivery_name id Hid) as Hln. rewrite (delivery_name_eq id) in *.
  set (paths := concat (path_field <$> ps)) in *.
  rewrite (run_bind _ _ s 1 s) by (by apply (byte_at_run [])).
  rewrite (run_bind _ _ s (Z.of_nat (level id)) s) by (by apply (byte_at_run [1])). cbv zeta.
  rewrite <-Hln. set (nm := [1; Z.of_nat (level id)] ++ id) in *.
  rewrite (run_bind _ _ s nm s) by (rewrite <-app_assoc; by apply (bytes_at_run [] nm)).
  rewrite (run_bind _ _ s (Z.of_nat (length ps)) s) by (rewrite <-app_assoc; by apply (byte_at_run nm)).
  pose proof (read_paths_run (nm ++ [Z.of_nat (length ps)]) ps ([Z.of_nat (length alts)] ++ concat alts) (len nm + 1) s
    ltac:(unfold len; rewrite length_app; cbn [length]; lia)) as Hr.
  rewrite <-(app_assoc nm [_]) in Hr. rewrite (run_bind _ _ _ _ _ (Hr Hlen)). fold paths. cbn beta iota.
  set (s1 := set_paths (updated_paths nm (list_to_set ps) (path_info s)) s).
  rewrite (run_bind _ _ s tt s1) by done.
  rewrite (run_bind _ _ s1 (Z.of_nat (length alts)) s1).
  2:{ replace ((nm ++ [Z.of_nat (length ps)] ++ paths ++ [Z.of_nat (length alts)] ++ concat alts) ++ behind)
        with ((nm ++ [Z.of_nat (length ps)] ++ paths) ++ Z.of_nat (length alts) :: concat alts ++ behind)
        by (by rewrite <-!app_assoc).
      apply byte_at_run. unfold len. rewrite !length_app. cbn [length]. lia. }
  rewrite (run_bind _ _ s1 (list_to_set alts) s1).
  2:{ replace ((nm ++ [Z.of_nat (length ps)] ++ paths ++ [Z.of_nat (length alts)] ++ concat alts) ++ behind)
        with ((nm ++ [Z.of_nat (length ps)] ++ paths ++ [Z.of_nat (length alts)]) ++ concat alts ++ behind)
        by (by rewrite <-!app_assoc).
      apply read_nodes_run; [done|]. unfold len. rewrite !length_app. cbn [length]. lia. }
  unfold recorded. by rewrite (delivery_name_eq id).
Qed.

(** A message arrives in a block of its own, whose size is an unsigned char. *)
Lemma rm_event_block (scope node msg : bytes) (type : Z) (s : RMState G) : length node = PURSUIT_ID_LEN → len scope < 2 ^ 32 →
  rm_event getpid sendmsg_ret junk split behind PUBLISHED_DATA (scope ++ node) (type :: msg) (len (type :: msg)) s
  = (let payload_len := u8 (len msg) in
     let payload := take (Z.to_nat payload_len) msg ++ behind in
     if decide (scope = UpdatePathId) then
       if type =? UPDATE_DELIVERY then handleMulticastPathNotification payload payload_len else mret tt
     else if decide (scope = UpdateUnicastPathId) then
       if type =? UPDATE_DELIVERY then handleUnicastPathNotification payload payload_len else mret tt
     else if decide (scope = DiscoverFailureId) then
       if type =? DISCOVER_FAILURE then handleLinkStateNotification getpid sendmsg_ret junk split payload payload_len else mret tt
     else mret tt) s.
Proof.
  intros Hnode Hlen. unfold rm_event. cbn [Z.eqb PUBLISHED_DATA Pos.eqb].
  rewrite (run_bind _ _ s scope s).
  2:{ unfold before_id. unfold len in *. apply (str_substr_run [] scope node); [done| |].
      - unfold len. rewrite length_app, Hnode. lia.
      - unfold len. cbn [app]. lia. }
  unfold DispathToHandler. rewrite (run_bind _ _ s type s) by (by apply (byte_at_run [])). cbv zeta.
  replace (len (type :: msg) - 1) with (len msg) by (unfold len; cbn [length]; lia).
  set (k := u8 (len msg)). assert (0 ≤ k ≤ len msg) as Hk.
  { unfold k, u8, len. split; [apply Z.mod_pos_bound; lia|apply Z.mod_le; lia]. }
  rewrite (run_bind _ _ s (take (Z.to_nat k) msg) s); [done|].
  rewrite <-(take_drop (Z.to_nat k) msg) at 1.
  apply (bytes_at_run [type]); [done|]. unfold len in *. rewrite length_take. lia.
Qed.

Lemma rm_event_update (node : bytes) (s : RMState G) : length node = PURSUIT_ID_LEN →
  let data := UPDATE_DELIVERY :: body in
  rm_event getpid sendmsg_ret junk split behind PUBLISHED_DATA (UpdatePathId ++ node) data (len data) s
  = handleMulticastPathNotification (take (Z.to_nat (u8 (len body))) body ++ behind) (u8 (len body)) s.
Proof. intros Hnode data. unfold data. rewrite rm_event_block by done. cbv zeta. by rewrite decide_True. Qed.
End record.

(** ** Messages that are cut *)

Section record_lookup.
Context (name : bytes) (ps : list bytes) (m : gmap bytes (gset bytes)).

Lemma updated_paths_self :
  updated_paths name (list_to_set ps) m !! name = if decide (ps = []) then None else Some (list_to_set ps).
Proof.
  unfold updated_paths. assert ((list_to_set ps : gset bytes) = ∅ ↔ ps = []) as He.
  { destruct ps as [|p l]; [done|]. cbn. split; [set_solver|done]. }
  destruct (m !! name) eqn:Em; repeat case_decide; try tauto; by rewrite ?lookup_insert, ?lookup_delete, ?decide_True.
Qed.

Lemma updated_paths_other other : other ≠ name → updated_paths name (list_to_set ps) m !! other = m !! other.
Proof.
  intros Ho. unfold updated_paths. destruct (m !! name); case_decide;
    by rewrite ?lookup_insert_ne, ?lookup_delete_ne by done.
Qed.
End record_lookup.

Section cut.
Context {S : Type}.

(** A field of a block that was cut after [k] bytes is read only if it is there. *)
Lemma bytes_at_cut k (pre mid post : bytes) off n (Q : bytes → S → Prop) s : off = len pre → n = len mid →
  (len pre + len mid ≤ Z.of_nat k → Q mid s) → wp (λ e, e = BufferOverflow) (bytes_at (take k (pre ++ mid ++ post)) off n) Q s.
Proof.
  intros -> -> HQ. destruct (Z.leb_spec (len pre + len mid) (Z.of_nat k)) as [Hk|Hk].
  - eapply wp_of_run; [|by apply HQ]. unfold len in Hk.
    rewrite (app_assoc pre), take_app_ge by (rewrite length_app; lia). rewrite <-app_assoc. by apply bytes_at_run.
  - unfold bytes_at. unfold len in *. rewrite length_take, !length_app.
    rewrite (proj2 (Z.leb_gt (_ + _) _)) by lia. by rewrite andb_false_r.
Qed.

Lemma byte_at_cut k (pre post : bytes) b off (Q : Z → S → Prop) s : off = len pre →
  (len pre + 1 ≤ Z.of_nat k → Q b s) → wp (λ e, e = BufferOverflow) (byte_at (take k (pre ++ b :: post)) off) Q s.
Proof. intros Ho HQ. apply wp_bind. by apply (bytes_at_cut k pre [b] post). Qed.

Lemma read_nodes_cut (k : nat) (pre : bytes) (l : list bytes) (post : bytes) (off : Z) (Q : gset bytes → S → Prop) (s : S) : node_names l → off = len pre → len pre ≤ Z.of_nat k →
  (∀ X, len pre + len (concat l) ≤ Z.of_nat k → Q X s) →
  wp (λ e, e = BufferOverflow) (read_nodes (take k (pre ++ concat l ++ post)) off (Z.of_nat (length l))) Q s.
Proof.
  intros Hl Hoff Hpre HQ. unfold read_nodes. rewrite Nat2Z.id.
  eapply wp_mono; [apply (wp_fold_each _ _ _ (λ todo (X : gset bytes) s', s' = s ∧ ∃ pred, ∃ rest,
    l = pred ++ rest ∧ todo = seq (length pred) (length rest) ∧ len pre + len (concat pred) ≤ Z.of_nat k))|].
  - split; [done|]. exists [], l. split_and!; [done..|]. change (len (concat [])) with 0. lia.
  - intros i todo X s' (-> & pred & rest & Heq & Htodo & Hk).
    destruct rest as [|n rest]; [done|]. cbn [length seq] in Htodo. injection Htodo as -> ->.
    assert (length n = PURSUIT_ID_LEN ∧ node_names pred) as [Hn Hd].
    { unfold node_names in *. rewrite Heq, Forall_app, Forall_cons in Hl. tauto. }
    replace (pre ++ concat l ++ post) with ((pre ++ concat pred) ++ n ++ concat rest ++ post)
      by (rewrite Heq, concat_app; cbn [concat]; by rewrite <-!app_assoc).
    apply wp_bind, bytes_at_cut.
    + rewrite Hoff. pose proof (len_names pred Hd). unfold len in *. rewrite length_app. lia.
    + unfold len, PID. by rewrite Hn.
    + intros Hfit. apply wp_ret. split; [done|]. exists (pred ++ [n]), rest. rewrite <-app_assoc, length_app. split_and!; [done| |].
      { cbn [length]. f_equal. lia. }
      rewrite concat_app. cbn [concat]. unfold len in *. rewrite length_app in Hfit. rewrite !length_app. cbn [length]. lia.
  - intros X s' (-> & pred & rest & -> & Hrest & Hk). destruct rest; [|done]. apply HQ. by rewrite app_nil_r.
Qed.
End cut.

Section too_long.
Context {G : Type} `{Igraph G} (getpid : Z) (sendmsg_ret : list (Z * Netlink.addressed bytes) → Z) (junk : nat → Z).
Context (split : bytes → list bytes).

(** The paths are read from a string, which gives what there is of them. *)
Lemma read_paths_cut (k : nat) (pre : bytes) (ps : list bytes) (post : bytes) (off : Z) (Q : Z * gset bytes → RMState G → Prop) (s : RMState G) :
  off = len pre →
  (∀ X, Q (off + len (concat (path_field <$> ps)), X) s) →
  wp (λ e, e = BufferOverflow) (read_paths (take k (pre ++ concat (path_field <$> ps) ++ post))
    (take k (pre ++ concat (path_field <$> ps) ++ post)) (Z.of_nat (length ps)) off) Q s.
Proof.
  intros Hoff HQ. unfold read_paths. rewrite Nat2Z.id. set (fields := λ l : list bytes, concat (path_field <$> l)).
  eapply wp_mono; [apply (wp_fold_each _ _ _ (λ todo (acc : Z * gset bytes) s', s' = s ∧ ∃ pred, ∃ rest,
    ps = pred ++ rest ∧ todo = seq (length pred) (length rest) ∧ acc.1 = off + len (fields pred)))|].
  - split; [done|]. exists [], ps. split_and!; [done..|]. change (len (fields [])) with 0. cbn [fst]. lia.
  - intros i todo [idx X] s' (-> & pred & rest & Heq & Htodo & Hidx). cbn [fst] in Hidx.
    destruct rest as [|p rest]; [done|]. cbn [length seq] in Htodo. injection Htodo as -> ->.
    apply wp_bind. fold (fields ps).
    replace (pre ++ fields ps ++ post) with ((pre ++ fields pred) ++ len p :: p ++ fields rest ++ post) at 1
      by (unfold fields; rewrite Heq, fmap_app, concat_app; cbn [fmap list_fmap concat]; by rewrite <-!app_assoc).
    apply byte_at_cut; [rewrite Hidx, Hoff; unfold len; rewrite length_app; lia|]. intros Hfit.
    apply wp_bind. unfold str_substr. cbv zeta.
    assert (len (pre ++ fields pred) + 1 ≤ len (pre ++ fields ps ++ post)) as Hin.
    { unfold fields, len. rewrite Heq, fmap_app, concat_app. cbn [fmap list_fmap concat]. rewrite !length_app.
      assert (length (path_field p) = S (length p)) by done. lia. }
    destruct (Z.gtb_spec ((idx + 1) mod 2 ^ 64) (Z.of_nat (length (take k (pre ++ fields ps ++ post))))) as [Hgt|_].
    { exfalso. assert (idx + 1 = len (pre ++ fields pred) + 1) as Hi
        by (rewrite Hidx, Hoff; unfold len; rewrite length_app; lia).
      rewrite length_take in Hgt. pose proof (Z.mod_le (idx + 1) (2 ^ 64)). unfold len in *. lia. }
    apply wp_ret, wp_ret. split; [done|].
    exists (pred ++ [p]), rest. rewrite <-app_assoc, length_app. split_and!; [done| |].
    { cbn [length]. f_equal. lia. }
    cbn [fst]. unfold fields. rewrite fmap_app, concat_app. cbn [fmap list_fmap concat]. rewrite app_nil_r, Hidx.
    unfold fields, len. rewrite length_app. unfold path_field at 3. cbn [length]. lia.
  - intros [idx X] s' (-> & pred & rest & -> & Hrest & Hidx). destruct rest; [|done]. cbn [fst] in Hidx.
    rewrite app_nil_r in HQ. rewrite Hidx. apply HQ.
Qed.

(** Whatever the cut takes away, the reader looks for it. *)
Lemma multicast_notification_cut (k : nat) (id : bytes) (ps alts : list bytes) (s : RMState G) :
  wire_id id → node_names alts → Z.of_nat k < len (delivery_body id ps alts) →
  wp (λ e, e = BufferOverflow) (handleMulticastPathNotification (take k (delivery_body id ps alts)) (Z.of_nat k)) (λ _ _, False) s.
Proof.
  intros Hid Halts Hk. pose proof (len_delivery_name id Hid) as Hln. unfold delivery_body in *.
  set (nm := delivery_name id) in *. set (paths := concat (path_field <$> ps)) in *.
  set (body := nm ++ _) in *. unfold handleMulticastPathNotification.
  assert (body = [1] ++ Z.of_nat (level id) :: id ++ [Z.of_nat (length ps)] ++ paths ++ [Z.of_nat (length alts)] ++ concat alts) as Hb1.
  { unfold body, nm. rewrite delivery_name_eq. by rewrite <-!app_assoc. }
  apply wp_bind. eapply (wp_of_run _ _ (take k body)).
  { rewrite <-(app_nil_r (take k body)) at 1. apply (bytes_at_run [] _ []); [done|]. unfold len in *. rewrite length_take. lia. }
  apply wp_bind. rewrite Hb1 at 1. apply (byte_at_cut k []); [done|]. intros _.
  apply wp_bind. rewrite Hb1 at 1. apply (byte_at_cut k [1]); [done|]. intros _. cbv zeta. rewrite <-Hln.
  apply wp_bind. apply (bytes_at_cut k [] nm); [done..|]. intros _.
  apply wp_bind. apply (byte_at_cut k nm); [done|]. intros _.
  apply wp_bind. unfold body. rewrite (app_assoc nm [_]).
  apply read_paths_cut; [unfold len; rewrite length_app; cbn [length]; lia|]. intros X. cbn beta iota. fold paths.
  apply wp_bind, wp_modify, wp_bind. set (s1 := set_paths _ _).
  rewrite (app_assoc (nm ++ [_]) paths). set (front := (nm ++ [_]) ++ paths) in *.
  assert (len front = len nm + 1 + len paths) as Hf by (unfold front, len; rewrite !length_app; cbn [length]; lia).
  apply byte_at_cut; [lia|]. intros Hfit. apply wp_bind. rewrite (app_assoc front [_]).
  rewrite <-(app_nil_r (concat alts)). apply read_nodes_cut; [done| | |].
  - unfold len in *. rewrite length_app. cbn [length]. lia.
  - unfold len in *. rewrite length_app. cbn [length]. lia.
  - intros Y Hall. exfalso. unfold body in Hk. unfold front, len in *. rewrite !length_app in *. cbn [length] in *. lia.
Qed.

(** The same of the message about the path of one publisher *)
Lemma unicast_notification_cut (k : nat) (id pub path : bytes) (alts : list bytes) (s : RMState G) :
  wire_id id → length pub = NODEID_LEN → node_names alts → Z.of_nat k < len (unicast_body id pub path alts) →
  wp (λ e, e = BufferOverflow) (handleUnicastPathNotification (take k (unicast_body id pub path alts)) (Z.of_nat k))
    (λ _ _, False) s.
Proof.
  intros Hid Hpub Halts Hk. pose proof (len_delivery_name id Hid) as Hln.
  assert (len pub = NID) as Hlp by (unfold len, NID; by rewrite Hpub).
  assert (unicast_body id pub path alts = [1] ++ Z.of_nat (level id) :: id ++ pub ++ 1 :: len path :: path ++
    Z.of_nat (length alts) :: concat alts) as Hb1.
  { unfold unicast_body, path_field. by rewrite delivery_name_eq. }
  unfold handleUnicastPathNotification.
  apply wp_bind. rewrite Hb1 at 1. apply (byte_at_cut k []); [done|]. intros _.
  apply wp_bind. rewrite Hb1 at 1. apply (byte_at_cut k [1]); [done|]. intros _. cbv zeta. rewrite <-Hln.
  unfold unicast_body, path_field in *. set (nm := delivery_name id) in *. cbn [app] in *.
  apply wp_bind. apply (bytes_at_cut k [] nm); [done..|]. intros _.
  apply wp_bind. apply (bytes_at_cut k nm pub); [done..|]. intros _.
  apply wp_bind. rewrite (app_assoc nm pub). apply byte_at_cut; [unfold len in *; rewrite length_app; lia|]. intros _.
  change (1 >? 0) with true. cbn iota. apply wp_bind, wp_bind.
  change (1 :: len path :: path ++ ?r) with ([1] ++ len path :: path ++ r).
  rewrite (app_assoc (nm ++ pub) [1]). apply byte_at_cut; [unfold len in *; rewrite !length_app; cbn [length]; lia|]. intros _.
  apply wp_bind. change (len path :: path ++ ?r) with ([len path] ++ path ++ r).
  rewrite (app_assoc ((nm ++ pub) ++ [1]) [len path]).
  apply bytes_at_cut; [unfold len in *; rewrite !length_app; cbn [length]; lia|done|]. intros _. apply wp_ret.
  apply wp_bind, wp_modify, wp_bind. rewrite (app_assoc _ path).
  set (front := (_ ++ [len path]) ++ path).
  assert (len front = len nm + NID + 1 + 1 + len path) as Hf by (unfold front, len in *; rewrite !length_app; cbn [length]; lia).
  apply byte_at_cut; [lia|]. intros Hfit. apply wp_bind.
  change (Z.of_nat (length alts) :: concat alts) with ([Z.of_nat (length alts)] ++ concat alts).
  rewrite (app_assoc front [_]), <-(app_nil_r (concat alts)). apply read_nodes_cut; [done| | |].
  - unfold len in *. rewrite length_app. cbn [length]. lia.
  - unfold len in *. rewrite length_app. cbn [length]. lia.
  - intros Y Hall. exfalso. unfold front, len in *. rewrite !length_app in *. cbn [length] in *.
    rewrite !length_app in *. cbn [length] in *. lia.
Qed.
End too_long.

(** ** Deliveries are recorded *)

Definition update_message (id : bytes) (ps alts : list bytes) : bytes := UPDATE_DELIVERY :: delivery_body id ps alts.

(** C29. The topology manager has answered a match for the item [id]: [ps] are
    the paths it uses, in the form [collected] of its loop, and [alts] the
    publishers it left out.  It sends one message to the resilience manager,
    and the resilience manager, given a message of at most 256 bytes, records
    exactly the set of paths under the item, in place of any older one or
    nothing if there is no path, and the publishers that stand by.  The two
    bytes [x] and [y] of the request that are copied behind the identifier are
    not in the message. *)
Theorem delivery_recorded {G : Type} `{IgraphLaws G} (getpid : Z) (sendmsg_ret : list (Z * Netlink.addressed bytes) → Z)
    (junk : nat → Z) (split : bytes → list bytes) (behind : bytes) (s : TMState G) (r : RMState G)
    (id : bytes) (ps alts : list bytes) (x y : Z) (D : BABitvector) :
  wire_id id → Forall short ps → Z.of_nat (length ps) < 256 → node_names alts → Z.of_nat (length alts) < 256 →
  TM_to_nodeFID (ts_graph s) !! RMnodeID (ts_graph s) = Some (Some D) → fid_ok D →
  length (RMnodeID (ts_graph s)) = PURSUIT_ID_LEN →
  let message := update_message id ps alts in
  len message ≤ 256 →
  notify_RM getpid sendmsg_ret junk (id ++ [x; y]) 1 (Z.of_nat (level id)) (foldl add_path (collected [] alts) ps) s
    = Ok (tt, mkTMS (ts_graph s) (after (with_fid getpid (UpdatePathId ++ RMnodeID (ts_graph s)) D message) (ts_cache s))) ∧
  ∃ r', rm_event getpid sendmsg_ret junk split behind PUBLISHED_DATA (UpdatePathId ++ RMnodeID (ts_graph s)) message
      (len message) r = Ok (tt, r') ∧
    (path_info r' !! delivery_name id = if decide (ps = []) then None else Some (list_to_set ps)) ∧
    ex_pubs r' !! delivery_name id = Some (list_to_set alts) ∧
    (∀ other, other ≠ delivery_name id →
       path_info r' !! other = path_info r !! other ∧ ex_pubs r' !! other = ex_pubs r !! other) ∧
    unicast_path_info r' = unicast_path_info r ∧ ex_subs r' = ex_subs r ∧ rm_ba r' = rm_ba r.
Proof.
  intros Hid Hps Hn Halts Hna HD HDok Hrm message Hlen. split.
  { rewrite add_paths_collected by done. by apply notify_RM_run. }
  assert (len message = 1 + len (delivery_body id ps alts)) as Hm by (unfold message, update_message, len; cbn [length]; lia).
  assert (u8 (len (delivery_body id ps alts)) = len (delivery_body id ps alts)) as Hu.
  { unfold u8. apply Z.mod_small. unfold len in *. lia. }
  exists (recorded id ps alts r). split.
  - unfold message, update_message. rewrite rm_event_update by done.
    rewrite Hu, take_ge by (unfold len; lia). apply multicast_notification_run; [done..|lia].
  - cbn [recorded set_ex_pubs set_paths path_info ex_pubs unicast_path_info ex_subs rm_ba].
    rewrite lookup_insert. split_and!; [apply updated_paths_self|by rewrite decide_True| |done..].
    intros other Ho. by rewrite updated_paths_other, lookup_insert_ne.
Qed.

(** The row of nodes, with the resilience manager on the second one *)
Definition rm_row : TMgraph ListGraph.ListGraph :=
  set_names 32 [] (node_name 1) (node_name 3) (node_name 2) row_tm.
Definition no_links : BABitvector := mkBV 255 (replicate 8 0).

Definition new_rm {G : Type} (t : TMgraph G) : RMState G := mkRM t ∅ ∅ ∅ ∅ (mkBA 3 9999 []).

Lemma delivery_recorded_witness :
  let id := ff_scope 1 ++ ff_scope 2 in
  let path := path_string [node_name 1; node_name 2; node_name 3] in
  let message := update_message id [path] [node_name 3] in
  ∃ r', rm_event 7 (λ _, 0) (λ _, 0) (λ p, [p]) [] PUBLISHED_DATA (UpdatePathId ++ node_name 2) message
      (len message) (new_rm rm_row) = Ok (tt, r') ∧
    path_info r' !! delivery_name id = Some {[path]} ∧ ex_pubs r' !! delivery_name id = Some {[node_name 3]}.
Proof.
  intros id path message. unfold rm_row. generalize row_tm. intros t0. set (t := set_names _ _ _ _ _ t0).
  destruct (delivery_recorded 7 (λ _, 0) (λ _, 0) (λ p, [p]) [] (manager (set_fids ∅ ∅ {[node_name 2 := Some no_links]} t))
    (new_rm t) id [path] [node_name 3] 0 0 no_links) as (_ & r' & Hrun & Hp & Hx & _).
  - exists 2%nat. split; [reflexivity|lia].
  - constructor; [vm_compute; reflexivity|constructor].
  - reflexivity.
  - constructor; [reflexivity|constructor].
  - reflexivity.
  - vm_compute. reflexivity.
  - split; [apply bv_wfb_sound; vm_compute|]; reflexivity.
  - reflexivity.
  - vm_compute. discriminate.
  - exists r'. split; [exact Hrun|]. rewrite Hp, Hx. cbn [list_to_set]. by rewrite !(right_id_L ∅ (∪)).
Defined.

(** C31. The size of the block in which the resilience manager keeps the
    payload of a message is an unsigned char.  A notification of more than 256
    bytes, about the paths of a native item or about the path of one publisher
    of a unicast item, is cut; the handler then looks for what is missing and
    reads past the block.  With no readable memory behind the block the manager
    always faults there, and the delivery is not recorded. *)
Theorem long_delivery_faults {G : Type} `{Igraph G} (getpid : Z) (sendmsg_ret : list (Z * Netlink.addressed bytes) → Z)
    (junk : nat → Z) (split : bytes → list bytes) (node : bytes) (r : RMState G) (id : bytes) (alts : list bytes) :
  wire_id id → node_names alts → length node = PURSUIT_ID_LEN →
  (∀ ps, let message := update_message id ps alts in 256 < len message →
     rm_event getpid sendmsg_ret junk split [] PUBLISHED_DATA (UpdatePathId ++ node) message (len message) r
     = Fault BufferOverflow) ∧
  (∀ pub path, let message := UPDATE_DELIVERY :: unicast_body id pub path alts in
     length pub = NODEID_LEN → 256 < len message →
     rm_event getpid sendmsg_ret junk split [] PUBLISHED_DATA (UpdateUnicastPathId ++ node) message (len message) r
     = Fault BufferOverflow).
Proof.
  intros Hid Halts Hnode.
  assert (∀ (m : M (RMState G) unit), wp (λ e, e = BufferOverflow) m (λ _ _, False) r → m r = Fault BufferOverflow) as Hfault.
  { intros m. unfold wp. destruct (m r) as [[]|e]; [done|by intros ->]. }
  assert (∀ l : bytes, Z.of_nat (Z.to_nat (u8 (len l))) = u8 (len l) ∧ u8 (len l) < 256) as Hu.
  { intros l. pose proof (Z.mod_pos_bound (len l) 256). unfold u8. lia. }
  split.
  - intros ps message Hlen. unfold message, update_message. rewrite rm_event_update, app_nil_r by done.
    set (body := delivery_body id ps alts) in *. destruct (Hu body) as [E Hlt]. rewrite <-E at 2.
    apply Hfault, multicast_notification_cut; [done..|]. fold body. rewrite E.
    unfold message, update_message, len in *. cbn [length] in Hlen. fold body in Hlen. lia.
  - intros pub path message Hpub Hlen. unfold message. rewrite rm_event_block by done. cbv zeta.
    rewrite decide_False, decide_True by done. change (UPDATE_DELIVERY =? UPDATE_DELIVERY) with true. cbn iota.
    rewrite app_nil_r. set (body := unicast_body id pub path alts) in *. destruct (Hu body) as [E Hlt]. rewrite <-E at 2.
    apply Hfault, unicast_notification_cut; [done..|]. fold body. rewrite E.
    unfold message, len in *. cbn [length] in Hlen. lia.
Qed.

Lemma long_delivery_faults_witness :
  let message := update_message (ff_scope 1 ++ ff_scope 2) (replicate 9 (path_string [node_name 1; node_name 2; node_name 3])) [] in
  rm_event 7 (λ _, 0) (λ _, 0) (λ p, [p]) [] PUBLISHED_DATA (UpdatePathId ++ node_name 2) message
      (len message) (new_rm rm_row) = Fault BufferOverflow.
Proof.
  intros message. unfold rm_row. generalize row_tm. intros t0.
  refine (proj1 (long_delivery_faults 7 (λ _, 0) (λ _, 0) (λ p, [p]) (node_name 2) _ (ff_scope 1 ++ ff_scope 2) [] _ _ _)
    (replicate 9 (path_string [node_name 1; node_name 2; node_name 3])) _).
  - exists 2%nat. split; [reflexivity|lia].
  - constructor.
  - reflexivity.
  - vm_compute. reflexivity.
Defined.
