(* ===== verification/RMFailure.v ===== *)
(** * Failures, as the resilience manager sees them

    What its scan of the paths finds, and what it asks the topology manager
    for.  boost::split is a parameter of the model; [tokens] says what it does. *)
From stdpp Require Import base list gmap sets.
From Stdlib Require Import ZArith Lia Bool.
From S2P Require Import Prelude Enums Bitvector GlobalConf Containers LibBitvector Igraph Forwarder LocalProxy ProxyLeave ProxyProps ProxyDelivery ProxyNet UserLib UserProps Blocks TMGraph TMPaths TMLinks TMCache TMHandlers TMAnswers TMFailure Resilience RMProps.

Local Open Scope Z_scope.

(** ** Splitting a path *)

Definition is_delim (c : Z) : bool := (c =? 45) || (c =? 62).

(** The parts between the characters of ["->"]; there is always one. *)
Fixpoint tokens (s : bytes) : list bytes :=
  match s with
  | [] => [[]]
  | c :: s =>
      if is_delim c then [] :: tokens s
      else match tokens s with t :: ts => (c :: t) :: ts | [] => [[c]] end
  end.

Definition front (p : bytes) : bytes := default [] (head (tokens p)).
Definition back (p : bytes) : bytes := default [] (last (tokens p)).

Lemma tokens_cons s : ∃ t ts, tokens s = t :: ts.
Proof. destruct s as [|c s]; cbn; [by eauto|]. destruct (is_delim c); [by eauto|]. destruct (tokens s); eauto. Qed.

Lemma tokens_ends s : head (tokens s) = Some (front s) ∧ last (tokens s) = Some (back s).
Proof.
  unfold front, back. destruct (tokens_cons s) as (t & ts & ->). split; [done|].
  destruct (last (t :: ts)) eqn:E; [done|]. by apply last_None in E.
Qed.

(** The names of nodes have no such characters. *)
Definition plain_name (n : bytes) : Prop := n ≠ [] ∧ Forall (λ c, is_delim c = false) n.

Fixpoint spaced (ns : list bytes) : list bytes :=
  match ns with
  | [] => []
  | [n] => [n]
  | n :: ns => n :: [] :: spaced ns
  end.

Lemma tokens_name n s t ts : plain_name n → tokens s = t :: ts → tokens (n ++ s) = (n ++ t) :: ts.
Proof.
  intros [_ Hn] Hs. induction Hn as [|c n Hc Hn IH]; [done|]. cbn [app tokens]. by rewrite Hc, IH.
Qed.

Lemma tokens_path_string ns : ns ≠ [] → Forall plain_name ns → tokens (path_string ns) = spaced ns.
Proof.
  intros Hne Hns. induction Hns as [|n ns Hn Hns IH]; [done|]. destruct ns as [|m ns].
  - cbn [path_string spaced]. pose proof (tokens_name n [] [] [] Hn eq_refl) as Ht. by rewrite !app_nil_r in Ht.
  - change (path_string (n :: m :: ns)) with (n ++ arrow ++ path_string (m :: ns)).
    rewrite (tokens_name n _ [] ([] :: tokens (path_string (m :: ns)))); [|done|done]. rewrite IH by done.
    by rewrite app_nil_r.
Qed.

Lemma elem_of_spaced n ns : n ≠ [] → n ∈ spaced ns ↔ n ∈ ns.
Proof.
  intros Hn. induction ns as [|m ns IH]; [done|]. destruct ns as [|m' ns]; [done|].
  change (spaced (m :: m' :: ns)) with (m :: [] :: spaced (m' :: ns)). rewrite !elem_of_cons, IH, elem_of_cons. naive_solver.
Qed.

(** The path of a route goes through exactly its nodes, from the first to the last. *)
Lemma path_string_nodes ns a b : Forall plain_name (a :: ns ++ [b]) →
  let p := path_string (a :: ns ++ [b]) in
  front p = a ∧ back p = b ∧ ∀ n, n ≠ [] → n ∈ tokens p ↔ n ∈ a :: ns ++ [b].
Proof.
  intros Hns p. unfold front, back, p. rewrite tokens_path_string by done. split_and!.
  - by destruct ns as [|? [|]].
  - clear. revert a. induction ns as [|n ns IH]; intros a; [done|].
    change (spaced (a :: (n :: ns) ++ [b])) with (a :: [] :: spaced (n :: ns ++ [b])). specialize (IH n).
    destruct (spaced (n :: ns ++ [b])) as [|x l] eqn:E; [by destruct ns|]. exact IH.
  - intros n Hn. by apply elem_of_spaced.
Qed.

(** ** What the scan finds *)

Definition path_cut (a b p : bytes) : Prop := a ∈ tokens p ∧ b ∈ tokens p.

#[global] Instance path_cut_dec a b p : Decision (path_cut a b p).
Proof. unfold path_cut. apply _. Defined.

(** An item, the publisher if it is not the first node, and a path *)
Notation entry := (bytes * option bytes * bytes)%type.

Definition entry_pub (e : entry) : bytes := default (front e.2) e.1.2.

Definition scanned (a b : bytes) (c : Cut) (e : entry) : Cut :=
  let id := e.1.1 in
  mkCut (if decide (path_cut a b e.2) then {[id]} ∪ cut_ids c else cut_ids c)
    (<[id := {[entry_pub e]} ∪ at_id (cut_pubs c) id]> (cut_pubs c))
    (<[id := {[back e.2]} ∪ at_id (cut_subs c) id]> (cut_subs c)).

Lemma at_id_insert m k X id : at_id (<[k := X]> m) id = if decide (id = k) then X else at_id m id.
Proof.
  unfold at_id. case_decide as E; [by rewrite E, lookup_insert_eq|by rewrite lookup_insert_ne].
Qed.

Lemma scanned_ids a b E c id :
  id ∈ cut_ids (foldl (scanned a b) c E) ↔ id ∈ cut_ids c ∨ ∃ e, e ∈ E ∧ e.1.1 = id ∧ path_cut a b e.2.
Proof.
  revert c. induction E as [|e E IH]; intros c; cbn [foldl].
  { split; [by left|]. intros [?|(e & He & _)]; [done|by apply not_elem_of_nil in He]. }
  rewrite IH. cbn [scanned cut_ids]. setoid_rewrite elem_of_cons. case_decide; set_solver.
Qed.

Lemma scanned_pubs a b E c id x :
  x ∈ at_id (cut_pubs (foldl (scanned a b) c E)) id
  ↔ x ∈ at_id (cut_pubs c) id ∨ ∃ e, e ∈ E ∧ e.1.1 = id ∧ entry_pub e = x.
Proof.
  revert c. induction E as [|e E IH]; intros c; cbn [foldl].
  { split; [by left|]. intros [?|(e & He & _)]; [done|by apply not_elem_of_nil in He]. }
  rewrite IH. cbn [scanned cut_pubs]. setoid_rewrite elem_of_cons. rewrite at_id_insert. case_decide; set_solver.
Qed.

Lemma scanned_subs a b E c id x :
  x ∈ at_id (cut_subs (foldl (scanned a b) c E)) id
  ↔ x ∈ at_id (cut_subs c) id ∨ ∃ e, e ∈ E ∧ e.1.1 = id ∧ back e.2 = x.
Proof.
  revert c. induction E as [|e E IH]; intros c; cbn [foldl].
  { split; [by left|]. intros [?|(e & He & _)]; [done|by apply not_elem_of_nil in He]. }
  rewrite IH. cbn [scanned cut_subs]. setoid_rewrite elem_of_cons. rewrite at_id_insert. case_decide; set_solver.
Qed.

(** A loop that only computes *)
Lemma fold_each_pure {S A B : Type} (body : A → B → M S B) (f : B → A → B) (l : list A) acc (s : S) :
  (∀ a acc, body a acc s = Ok (f acc a, s)) → fold_each l body acc s = Ok (foldl f acc l, s).
Proof.
  intros Hf. revert acc. induction l as [|a l IH]; intros acc; [done|]. cbn [fold_each foldl].
  by rewrite (run_bind _ _ _ _ _ (Hf a acc)).
Qed.

Lemma foldl_concat {A B : Type} (f : B → A → B) (ls : list (list A)) acc :
  foldl (foldl f) acc ls = foldl f acc (mjoin ls).
Proof. revert acc. induction ls as [|l ls IH]; intros acc; [done|]. cbn. by rewrite IH, foldl_app. Qed.

Section scan.
Context {G : Type} (s : RMState G).

(** The items that go through both ends of the link, and the publishers and
    subscribers of an item *)
Definition native_cut (a b : bytes) : gset bytes :=
  dom (filter (λ e, Exists (path_cut a b) (elements e.2)) (path_info s)).
Definition unicast_cut (a b : bytes) : gset bytes :=
  dom (filter (λ e, Exists (path_cut a b) ((map_to_list e.2).*2)) (unicast_path_info s)).

Definition unicast_of (id : bytes) : gmap bytes bytes := default ∅ (unicast_path_info s !! id).
Definition pubs_of (id : bytes) : gset bytes := set_map front (at_id (path_info s) id) ∪ dom (unicast_of id).
Definition subs_of (id : bytes) : gset bytes :=
  set_map back (at_id (path_info s) id) ∪ list_to_set (back <$> (map_to_list (unicast_of id)).*2).

Definition native_entries : list entry :=
  mjoin ((λ e, (λ p, (e.1, None, p)) <$> key_order e.2) <$> in_order_of (path_info s)).
Definition unicast_entries : list entry :=
  mjoin ((λ e, (λ pp, (e.1, Some pp.1, pp.2)) <$> in_order_of e.2) <$> in_order_of (unicast_path_info s)).

Lemma elem_of_native id o p :
  (id, o, p) ∈ native_entries ↔ o = None ∧ ∃ X, path_info s !! id = Some X ∧ p ∈ X.
Proof.
  unfold native_entries. rewrite list_elem_of_join. setoid_rewrite list_elem_of_fmap. split.
  - intros (l & Hin & (k & X) & -> & He). apply elem_of_in_order_of in He.
    apply list_elem_of_fmap in Hin as (q & [= -> -> ->] & Hq). rewrite elem_of_key_order in Hq. eauto.
  - intros (-> & X & HX & Hp). eexists. split; [|exists (id, X); split; [reflexivity|by apply elem_of_in_order_of]].
    apply list_elem_of_fmap. exists p. by rewrite elem_of_key_order.
Qed.

Lemma elem_of_unicast id o p :
  (id, o, p) ∈ unicast_entries ↔ ∃ pub m, o = Some pub ∧ unicast_path_info s !! id = Some m ∧ m !! pub = Some p.
Proof.
  unfold unicast_entries. rewrite list_elem_of_join. setoid_rewrite list_elem_of_fmap. split.
  - intros (l & Hin & (k & m) & -> & He). apply elem_of_in_order_of in He.
    apply list_elem_of_fmap in Hin as ([pub q] & [= -> -> ->] & Hq). rewrite elem_of_in_order_of in Hq. eauto.
  - intros (pub & m & -> & Hm & Hp). eexists. split; [|exists (id, m); split; [reflexivity|by apply elem_of_in_order_of]].
    apply list_elem_of_fmap. exists (pub, p). by rewrite elem_of_in_order_of.
Qed.

(** Both scans, one after the other *)
Context (a b : bytes).
Let found_native := foldl (scanned a b) (mkCut ∅ ∅ ∅) (native_entries).
Let found_all := foldl (scanned a b) (mkCut ∅ (cut_pubs found_native) (cut_subs found_native)) unicast_entries.

Lemma native_ids : cut_ids found_native = native_cut a b.
Proof.
  apply set_eq. intros id. unfold found_native. rewrite scanned_ids. cbn [cut_ids]. unfold native_cut.
  rewrite elem_of_dom. split.
  - intros [?|([[k o] p] & He & <- & Hp)]; [set_solver|]. cbn [fst snd] in *.
    apply elem_of_native in He as (-> & X & HX & Hin). exists X. apply map_lookup_filter_Some.
    split; [done|]. apply Exists_exists. exists p. by rewrite elem_of_elements.
  - intros [X [HX (p & Hin & Hp)%Exists_exists]%map_lookup_filter_Some]. right. exists (id, None, p).
    split_and!; [|done..]. apply elem_of_native. split; [done|]. exists X. by rewrite elem_of_elements in Hin.
Qed.

Lemma unicast_ids : cut_ids found_all = unicast_cut a b.
Proof.
  apply set_eq. intros id. unfold found_all. rewrite scanned_ids. cbn [cut_ids]. unfold unicast_cut.
  rewrite elem_of_dom. split.
  - intros [?|([[k o] p] & He & <- & Hp)]; [set_solver|]. cbn [fst snd] in *.
    apply elem_of_unicast in He as (pub & m & -> & Hm & Hpub). exists m. apply map_lookup_filter_Some. split; [done|].
    apply Exists_exists. exists p. split; [|done]. apply list_elem_of_fmap. exists (pub, p).
    split; [done|by apply elem_of_map_to_list].
  - intros [m [Hm (p & ([pub q] & -> & Hin)%list_elem_of_fmap & Hp)%Exists_exists]%map_lookup_filter_Some]. right.
    apply elem_of_map_to_list in Hin. exists (id, Some pub, q). split_and!; [|done..]. apply elem_of_unicast. eauto.
Qed.

Lemma native_items : native_cut a b ⊆ dom (path_info s).
Proof. apply dom_filter_subseteq. Qed.

Lemma unicast_items : unicast_cut a b ⊆ dom (unicast_path_info s).
Proof. apply dom_filter_subseteq. Qed.

Lemma elem_of_at_id (m : gmap bytes (gset bytes)) id x : x ∈ at_id m id ↔ ∃ X, m !! id = Some X ∧ x ∈ X.
Proof. unfold at_id. destruct (m !! id) as [X|]; cbn; set_solver. Qed.

Lemma elem_of_unicast_of id (pub p : bytes) :
  unicast_of id !! pub = Some p ↔ ∃ m, unicast_path_info s !! id = Some m ∧ m !! pub = Some p.
Proof. unfold unicast_of. destruct (unicast_path_info s !! id) as [m|]; cbn; [naive_solver|]. rewrite lookup_empty. naive_solver. Qed.

Lemma found_pubs id : at_id (cut_pubs found_all) id = pubs_of id.
Proof.
  apply set_eq. intros x. unfold found_all. rewrite scanned_pubs. cbn [cut_pubs]. unfold found_native.
  rewrite scanned_pubs. cbn [cut_pubs]. unfold pubs_of. rewrite elem_of_union, elem_of_map, elem_of_dom.
  setoid_rewrite elem_of_at_id. split.
  - intros [[(? & Hx & _)|([[k o] p] & He & <- & <-)]|([[k o] p] & He & <- & <-)]; [done| |]; cbn [fst snd] in *.
    + apply elem_of_native in He as (-> & X & HX & Hin). left. exists p. eauto.
    + apply elem_of_unicast in He as (pub & m & -> & Hm & Hpub). right. exists p. apply elem_of_unicast_of. eauto.
  - intros [(p & -> & X & HX & Hin)|[p (m & Hm & Hp)%elem_of_unicast_of]].
    + left. right. exists (id, None, p). split_and!; [apply elem_of_native; eauto|done..].
    + right. exists (id, Some x, p). split_and!; [apply elem_of_unicast; eauto|done..].
Qed.

Lemma found_subs id : at_id (cut_subs found_all) id = subs_of id.
Proof.
  apply set_eq. intros x. unfold found_all. rewrite scanned_subs. cbn [cut_subs]. unfold found_native.
  rewrite scanned_subs. cbn [cut_subs]. unfold subs_of. rewrite elem_of_union, elem_of_map, elem_of_list_to_set.
  setoid_rewrite elem_of_at_id. rewrite <-list_fmap_compose, list_elem_of_fmap. split.
  - intros [[(? & Hx & _)|([[k o] p] & He & <- & <-)]|([[k o] p] & He & <- & <-)]; [done| |]; cbn [fst snd] in *.
    + apply elem_of_native in He as (-> & X & HX & Hin). left. exists p. eauto.
    + apply elem_of_unicast in He as (pub & m & -> & Hm & Hpub). right. exists (pub, p). split; [done|].
      apply elem_of_map_to_list, elem_of_unicast_of. eauto.
  - intros [(p & -> & X & HX & Hin)|([pub p] & -> & (m & Hm & Hp)%elem_of_map_to_list%elem_of_unicast_of)].
    + left. right. exists (id, None, p). split_and!; [apply elem_of_native; eauto|done..].
    + right. exists (id, Some pub, p). split_and!; [apply elem_of_unicast; eauto|done..].
Qed.

Context (split : bytes → list bytes) (Hsplit : ∀ p, split p = tokens p).

Lemma scan_path_run id o p c : scan_path (G:=G) split a b id o p c s = Ok (scanned a b c (id, o, p), s).
Proof using Hsplit.
  unfold scan_path. rewrite Hsplit. destruct (tokens_ends p) as [-> ->]. unfold scanned, path_cut, entry_pub. cbn [fst snd].
  done.
Qed.

Lemma scans_run :
  scan_multicast split a b (mkCut ∅ ∅ ∅) s = Ok (found_native, s) ∧
  scan_unicast split a b (mkCut ∅ (cut_pubs found_native) (cut_subs found_native)) s = Ok (found_all, s).
Proof using Hsplit.
  split.
  - unfold scan_multicast. rewrite (run_bind _ _ _ s s) by done. unfold found_native, native_entries.
    rewrite <-foldl_concat, foldl_fmap. apply fold_each_pure. intros e c. rewrite foldl_fmap.
    apply fold_each_pure. intros p c'. by rewrite scan_path_run.
  - unfold scan_unicast. rewrite (run_bind _ _ _ s s) by done. unfold found_all, unicast_entries.
    rewrite <-foldl_concat, foldl_fmap. apply fold_each_pure. intros e c. rewrite foldl_fmap.
    apply fold_each_pure. intros p c'. by rewrite scan_path_run.
Qed.
End scan.

(** ** Requests *)

Lemma memcpys_app p off (l1 l2 : list bytes) p' : memcpys p off (l1 ++ l2) = Ok p' →
  ∃ q, memcpys p off l1 = Ok q ∧ memcpys q (off + length (concat l1)) l2 = Ok p'.
Proof.
  revert p off. induction l1 as [|src l1 IH]; intros p off; cbn [app].
  { intros Hp. exists p. cbn. by rewrite Nat.add_0_r. }
  intros (q & Hq & (q' & H1 & H2)%IH)%memcpys_step. exists q'. cbn [memcpys concat]. rewrite Hq.
  split; [done|]. by rewrite length_app, Nat.add_assoc.
Qed.

(** A set whose names can be written with its size in a byte in front *)
Definition writable_set (X : gset bytes) : Prop :=
  (∀ n, n ∈ X → length n = PURSUIT_ID_LEN) ∧ Z.of_nat (size X) < 256.

Lemma writable_names X : writable_set X → node_names (key_order X).
Proof. intros [Hn _]. apply Forall_forall. intros n Hin. apply Hn. by rewrite <-elem_of_key_order. Qed.

Lemma writable_size X : writable_set X → u8 (Z.of_nat (size X)) = Z.of_nat (length (key_order X)).
Proof. intros [_ Hs]. unfold u8. rewrite length_key_order. apply Z.mod_small. lia. Qed.

Section requests.
Context {G : Type} `{IgraphLaws G} (getpid : Z) (sendmsg_ret : list (Z * Netlink.addressed bytes) → Z) (junk : nat → Z).

Definition rm_after (m : bytes) (s : RMState G) : RMState G :=
  mkRM (rm_graph s) (path_info s) (unicast_path_info s) (ex_pubs s) (ex_subs s) (sent_to_node m (rm_ba s)).

Lemma put_nodes_run X off p p' (s : RMState G) : writable_set X → 0 ≤ off < 2 ^ 16 →
  memcpys p (Z.to_nat off) (key_order X) = Ok p' →
  put_nodes X off p s = Ok ((off + Z.of_nat (length (key_order X)) * NID, p'), s).
Proof.
  intros HX Hoff. pose proof (writable_names X HX) as Hn. destruct HX as [_ Hs].
  assert (off + Z.of_nat (length (key_order X)) * NID < 2 ^ 32) as Hend.
  { rewrite length_key_order. unfold NID, NODEID_LEN, PURSUIT_ID_LEN. lia. }
  unfold put_nodes. destruct Hoff as [Hoff _]. revert off p Hoff Hend. induction Hn as [|n l Hn Hl IH]; intros off p Hoff Hend Hp.
  { injection Hp as <-. cbn. by rewrite Z.add_0_r. }
  apply memcpys_step in Hp as (q & Hq & Hp). cbn [length] in Hend. cbn [fold_each].
  assert (len n = NID) as Hnl by (unfold len; by rewrite Hn).
  rewrite (run_bind _ _ s (off + NID, q) s).
  - rewrite IH; [| unfold NID in *; lia|lia|].
    + do 3 f_equal. cbn [length]. lia.
    + rewrite <-Hp. f_equal. unfold len in Hnl. lia.
  - rewrite (run_bind _ _ s n s) by (by apply (bytes_at_run [] n [0])).
    rewrite (run_bind _ _ s q s) by (by apply put_run). unfold u32. rewrite Z.mod_small by (unfold NID in *; lia). done.
Qed.

Lemma publish_to_tm_run nid F (data : bytes) k (s : RMState G) : frags k nid → fid_ok F →
  publish_to_tm getpid sendmsg_ret junk nid F (Some <$> data) s = Ok (tt, rm_after (with_fid getpid nid F data) s).
Proof.
  intros Hk HF. unfold publish_to_tm, on_rm_ba. rewrite sent_bytes_all, length_fmap.
  rewrite (publish_data_part getpid sendmsg_ret _ _ _ _ _ _ k); [by rewrite firstn_all|done| |done].
  cbn [opt_fits]. pose proof (length_fid_bytes F HF) as Hl. unfold fid_bytes in Hl. rewrite length_take in Hl. lia.
Qed.

(** A request, as it is written *)
Definition rematch (pubs subs : gset bytes) (id : bytes) : bytes :=
  match_front MATCH_PUB_SUBS IMPLICIT_RENDEZVOUS (key_order pubs) (key_order subs) ++ id.

Definition rematch_fields (pubs subs : list bytes) (id : bytes) : list bytes :=
  [[MATCH_PUB_SUBS]; [IMPLICIT_RENDEZVOUS]; [Z.of_nat (length pubs)]] ++ pubs ++ [[Z.of_nat (length subs)]] ++ subs ++ [id].

Lemma concat_rematch pubs subs id : concat (rematch_fields (key_order pubs) (key_order subs) id) = rematch pubs subs id.
Proof.
  unfold rematch_fields, rematch, match_front. rewrite !concat_app. cbn [concat app]. by rewrite app_nil_r, <-!app_assoc.
Qed.

(** The size that is computed for it, and the copies that fill it *)
Lemma rematch_copies pubs subs id : writable_set pubs → writable_set subs →
  let n := 1 + 1 + 1 + u8 (Z.of_nat (size pubs)) * NID + 1 + u8 (Z.of_nat (size subs)) * NID + len id in
  let lp := len (concat (key_order pubs)) in
  let ls := len (concat (key_order subs)) in
  lp = Z.of_nat (length (key_order pubs)) * NID ∧ ls = Z.of_nat (length (key_order subs)) * NID ∧
  lp < 2 ^ 12 ∧ ls < 2 ^ 12 ∧ 0 ≤ n ∧
  ∃ p0 p1 p2 p3 p4 p5, memcpy (make_packet (Z.to_nat n)) 0 [MATCH_PUB_SUBS] = Ok p0 ∧
    memcpy p0 1 [IMPLICIT_RENDEZVOUS] = Ok p1 ∧ memcpy p1 2 [Z.of_nat (length (key_order pubs))] = Ok p2 ∧
    memcpys p2 3 (key_order pubs) = Ok p3 ∧ memcpy p3 (Z.to_nat (3 + lp)) [Z.of_nat (length (key_order subs))] = Ok p4 ∧
    memcpys p4 (Z.to_nat (4 + lp)) (key_order subs) = Ok p5 ∧
    memcpy p5 (Z.to_nat (4 + lp + ls)) id = Ok (Some <$> rematch pubs subs id).
Proof.
  intros Hp Hs n lp ls. pose proof (len_names _ (writable_names _ Hp)) as Hlp. pose proof (len_names _ (writable_names _ Hs)) as Hls.
  fold lp in Hlp. fold ls in Hls. change PID with NID in Hlp, Hls. rewrite Z.mul_comm in Hlp, Hls.
  unfold n. rewrite (writable_size _ Hp), (writable_size _ Hs), <-Hlp, <-Hls. clear n.
  destruct Hp as [_ Hp], Hs as [_ Hs]. rewrite <-length_key_order in Hp, Hs.
  assert (0 ≤ lp) by (unfold lp, len; lia). assert (0 ≤ ls) by (unfold ls, len; lia). assert (0 ≤ len id) by (unfold len; lia).
  assert (NID = 8) as HN by done. split_and!; [done|done|lia..|].
  pose proof (memcpys_exact (rematch_fields (key_order pubs) (key_order subs) id)) as He. rewrite concat_rematch in He.
  assert (length (rematch pubs subs id) = Z.to_nat (1 + 1 + 1 + lp + 1 + ls + len id)) as Hn.
  { unfold rematch, match_front. rewrite !length_app. unfold lp, ls, len. cbn [length]. lia. }
  rewrite Hn in He. unfold rematch_fields in He. cbn [app] in He.
  apply memcpys_step in He as (p0 & K0 & He). apply memcpys_step in He as (p1 & K1 & He). apply memcpys_step in He as (p2 & K2 & He).
  apply memcpys_app in He as (p3 & K3 & He). apply memcpys_step in He as (p4 & K4 & He).
  apply memcpys_app in He as (p5 & K5 & He). apply memcpys_step in He as (p6 & K6 & He). cbn [memcpys] in He.
  cbn [length Nat.add] in *. exists p0, p1, p2, p3, p4, p5. split_and!; [done|done|done|done|..].
  - rewrite <-K4. f_equal. unfold lp, len. lia.
  - rewrite <-K5. f_equal. unfold lp, len. lia.
  - rewrite <-He, <-K6. f_equal. unfold lp, ls, len. lia.
Qed.

Lemma request_tree_run (nid : bytes) (F : BABitvector) (id : bytes) (P S : gmap bytes (gset bytes)) (k : nat) (alts : gset bytes) (s : RMState G) : frags k nid → fid_ok F →
  ex_pubs s !! id = Some alts → writable_set (alts ∪ at_id P id) → writable_set (at_id S id) →
  let pubs := alts ∪ at_id P id in
  let subs := at_id S id in
  ∃ off, 0 < off < 2 ^ 14 ∧
  request_tree getpid sendmsg_ret junk nid F id (0, P, S) s
  = Ok ((off, <[id := pubs]> P, <[id := subs]> S), rm_after (with_fid getpid nid F (rematch pubs subs id)) s).
Proof.
  intros Hk HF Ha Hp Hs pubs subs.
  destruct (rematch_copies pubs subs id Hp Hs)
    as (Hlp & Hls & Hlp' & Hls' & Hn & p0 & p1 & p2 & p3 & p4 & p5 & K0 & K1 & K2 & K3 & K4 & K5 & K6).
  set (lp := len (concat (key_order pubs))) in *. set (ls := len (concat (key_order subs))) in *.
  assert (0 ≤ lp) by (unfold lp, len; lia). assert (0 ≤ ls) by (unfold ls, len; lia).
  exists (4 + lp + ls). split; [lia|].
  unfold request_tree. rewrite (run_bind _ _ s s s) by done. rewrite (run_bind _ _ s alts s) by (unfold found; by rewrite Ha).
  fold pubs subs. cbv zeta. rewrite (run_bind _ _ _ _ _ (alloc_run _ s Hn)).
  rewrite (run_bind _ _ s p0 s) by (by apply put_run).
  change (u32 (0 + 1)) with 1. rewrite (run_bind _ _ s p1 s) by (by apply put_run).
  change (u32 (1 + 1)) with 2. rewrite (writable_size pubs Hp), (writable_size subs Hs), (run_bind _ _ s p2 s) by (by apply put_run).
  change (u32 (2 + 1)) with 3. rewrite (run_bind _ _ s (3 + lp, p3) s) by (rewrite Hlp; by apply put_nodes_run). cbn beta iota.
  rewrite (run_bind _ _ s p4 s) by (apply put_run; [done|lia]).
  assert (u32 (3 + lp + 1) = 4 + lp) as -> by (unfold u32; rewrite Z.mod_small; lia).
  rewrite (run_bind _ _ s (4 + lp + ls, p5) s) by (rewrite Hls; apply put_nodes_run; [done|lia|done]). cbn beta iota.
  rewrite (run_bind _ _ _ _ _ (put_run _ id p5 _ s K6 ltac:(lia))).
  by rewrite (run_bind _ _ _ _ _ (publish_to_tm_run _ F _ k s Hk HF)).
Qed.

Lemma key_order_singleton (x : bytes) : key_order {[x]} = [x].
Proof. unfold key_order. by rewrite elements_singleton. Qed.

Lemma request_path_run (nid : bytes) (F : BABitvector) (id : bytes) (subs : gset bytes) (pub : bytes) (k : nat) (s : RMState G) : frags k nid → fid_ok F →
  writable_set subs → length pub = PURSUIT_ID_LEN →
  request_path getpid sendmsg_ret junk nid F id subs pub s
  = Ok (tt, rm_after (with_fid getpid nid F (rematch {[pub]} subs id)) s).
Proof.
  intros Hk HF Hs Hpub.
  assert (writable_set {[pub]}) as Hp.
  { split; [intros n ->%elem_of_singleton; done|by rewrite size_singleton]. }
  destruct (rematch_copies {[pub]} subs id Hp Hs)
    as (Hlp & Hls & Hlp' & Hls' & Hn & p0 & p1 & p2 & p3 & p4 & p5 & K0 & K1 & K2 & K3 & K4 & K5 & K6).
  rewrite size_singleton, key_order_singleton in *. cbn [concat length] in *. rewrite app_nil_r in *.
  change (u8 (Z.of_nat 1) * NID) with NID in *. change (Z.of_nat 1) with 1 in *. rewrite Z.mul_1_l in Hlp.
  set (ls := len (concat (key_order subs))) in *. rewrite Hlp in *. assert (0 ≤ ls) by (unfold ls, len; lia).
  unfold request_path. rewrite (run_bind _ _ _ _ _ (alloc_run _ s Hn)).
  rewrite (run_bind _ _ s pub s) by (by apply (bytes_at_run [] pub [0])).
  rewrite (run_bind _ _ s p4 s).
  2:{ apply puts_run; [done|]. change (Z.to_nat 0) with 0%nat. cbn [memcpys length Nat.add]. rewrite K0, K1, K2. cbn [memcpys] in K3.
      destruct (memcpy p2 3 pub) as [q|] eqn:Eq; [|done]. injection K3 as ->. rewrite (writable_size _ Hs).
      lazymatch goal with |- context [memcpy p3 ?o _] => replace o with (Z.to_nat (3 + NID)) by (rewrite Hpub; done) end.
      by rewrite K4. }
  rewrite (run_bind _ _ s (4 + NID + ls, p5) s) by (rewrite Hls; by apply put_nodes_run). cbn beta iota.
  rewrite (run_bind _ _ _ _ _ (put_run _ id p5 _ s K6 ltac:(unfold NID; lia))).
  by apply (publish_to_tm_run nid F _ k).
Qed.

(** Writing into a block either fits or overflows. *)
Lemma wp_put {S : Type} off src p (Q : buffer → S → Prop) s : 0 ≤ off →
  (∀ p', length p' = length p → off + len src ≤ Z.of_nat (length p) → Q p' s) → wp (eq BufferOverflow) (put off src p) Q s.
Proof.
  intros Ho HQ. unfold put. rewrite (proj2 (Z.ltb_ge _ _)) by lia. destruct (memcpy p (Z.to_nat off) src) as [p'|e] eqn:E.
  - apply HQ; [by eapply length_memcpy|]. unfold memcpy in E. unfold len. case_decide; [lia|done].
  - unfold memcpy in E. case_decide; [done|]. by injection E as <-.
Qed.

Lemma wp_put_nodes X off p (Q : Z * buffer → RMState G → Prop) s : writable_set X → 0 ≤ off < 2 ^ 16 →
  (∀ p', length p' = length p → Q (off + Z.of_nat (size X) * NID, p') s) → wp (eq BufferOverflow) (put_nodes X off p) Q s.
Proof.
  intros HX Hoff HQ. pose proof (writable_names X HX) as Hn. destruct HX as [_ Hs].
  assert (off + Z.of_nat (length (key_order X)) * NID < 2 ^ 32) as Hend.
  { rewrite length_key_order. unfold NID, NODEID_LEN, PURSUIT_ID_LEN. lia. }
  rewrite <-length_key_order in HQ. unfold put_nodes. destruct Hoff as [Hoff _]. clear Hs.
  revert off p Hoff Hend HQ. induction Hn as [|n l Hn Hl IH]; intros off p Hoff Hend HQ.
  { cbn. specialize (HQ p eq_refl). by rewrite Z.add_0_r in HQ. }
  cbn [fold_each]. apply wp_bind, wp_bind. apply (wp_of_run _ _ n s s); [apply (bytes_at_run [] n [0]); [done|unfold len; by rewrite Hn]|].
  apply wp_bind, wp_put; [done|]. intros q Hq _. apply wp_ret. cbn [length] in *.
  assert (u32 (off + NID) = off + NID) as -> by (unfold u32; apply Z.mod_small; unfold NID in *; lia).
  apply IH; [unfold NID in *; lia..|]. intros p' Hp'. specialize (HQ p' ltac:(congruence)).
  replace (off + NID + Z.of_nat (length l) * NID) with (off + Z.of_nat (Datatypes.S (length l)) * NID) by lia. done.
Qed.

(** A second request starts to write where the first one ended. *)
Lemma request_tree_overflow (nid : bytes) (F : BABitvector) (id : bytes) (off : Z) (P S : gmap bytes (gset bytes))
    (alts : gset bytes) (s : RMState G) : 0 < off < 2 ^ 14 →
  ex_pubs s !! id = Some alts → writable_set (alts ∪ at_id P id) → writable_set (at_id S id) →
  request_tree getpid sendmsg_ret junk nid F id (off, P, S) s = Fault BufferOverflow.
Proof.
  intros Hoff Ha Hp Hs.
  assert (wp (eq BufferOverflow) (request_tree getpid sendmsg_ret junk nid F id (off, P, S)) (λ _ _, False) s) as Hw.
  2:{ unfold wp in Hw. destruct (request_tree _ _ _ _ _ _ _ _) as [[? ?]|e]; [done|by subst]. }
  unfold request_tree. apply wp_bind, wp_get, wp_bind, (wp_of_run _ _ alts s s); [unfold found; by rewrite Ha|].
  cbv zeta. set (pubs := alts ∪ _) in *. set (subs := at_id S id) in *.
  rewrite (writable_size _ Hp), (writable_size _ Hs), !length_key_order.
  pose proof (proj2 Hp). pose proof (proj2 Hs). assert (NID = 8) as HN by done.
  assert (u32 (off + 1) = off + 1) as -> by (unfold u32; apply Z.mod_small; lia).
  assert (u32 (off + 1 + 1) = off + 2) as -> by (unfold u32; rewrite Z.mod_small; lia).
  assert (u32 (off + 2 + 1) = off + 3) as -> by (unfold u32; rewrite Z.mod_small; lia).
  set (n := 1 + 1 + 1 + _ + 1 + _ + _).
  apply wp_bind, (wp_of_run _ _ (make_packet (Z.to_nat n)) s s); [apply alloc_run; unfold n, len; lia|].
  apply wp_bind, wp_put; [done|]. intros p0 L0 _.
  apply wp_bind, wp_put; [lia|]. intros p1 L1 _.
  apply wp_bind, wp_put; [lia|]. intros p2 L2 _.
  apply wp_bind, wp_put_nodes; [done|lia|]. intros p3 L3.
  apply wp_bind, wp_put; [lia|]. intros p4 L4 _.
  assert (u32 (off + 3 + Z.of_nat (size pubs) * NID + 1) = off + 4 + Z.of_nat (size pubs) * NID) as ->
    by (unfold u32; rewrite Z.mod_small; lia).
  apply wp_bind, wp_put_nodes; [done|lia|]. intros p5 L5.
  apply wp_bind, wp_put; [lia|]. intros p6 _ Hfit. exfalso.
  rewrite L5, L4, L3, L2, L1, L0 in Hfit. unfold make_packet in Hfit. rewrite length_replicate in Hfit.
  unfold n, len in *. lia.
Qed.

(** What the resilience manager knows is consistent: it has the topology, with
    itself and the topology manager in it, the stand-ins of every item that is
    delivered, and no item is delivered in both ways. *)
Record rm_ok (s : RMState G) : Prop := mkRMok {
  ok_graph : tm_wf (rm_graph s);
  ok_rm : known (rm_graph s) (RMnodeID (rm_graph s));
  ok_tm : known (rm_graph s) (tm_nodeID (rm_graph s));
  ok_tm_name : length (tm_nodeID (rm_graph s)) = PURSUIT_ID_LEN;
  ok_native : ∀ id, id ∈ dom (path_info s) → id ∈ dom (ex_pubs s) ∧
    writable_set (at_id (ex_pubs s) id ∪ pubs_of s id) ∧ writable_set (subs_of s id);
  ok_unicast : ∀ id, id ∈ dom (unicast_path_info s) → id ∈ dom (ex_subs s) ∧
    writable_set (pubs_of s id) ∧ writable_set (at_id (ex_subs s) id ∪ subs_of s id);
  ok_apart : dom (path_info s) ## dom (unicast_path_info s);
}.

Definition tree_request (s : RMState G) (F : BABitvector) (id : bytes) : bytes :=
  with_fid getpid (resl_resp_bin_id ++ tm_nodeID (rm_graph s)) F
    (rematch (at_id (ex_pubs s) id ∪ pubs_of s id) (subs_of s id) id).
Definition path_requests (s : RMState G) (F : BABitvector) (id : bytes) : list bytes :=
  (λ pub, with_fid getpid (resl_resp_bin_id ++ uc_resl_bin_id ++ tm_nodeID (rm_graph s)) F
    (rematch {[pub]} (at_id (ex_subs s) id ∪ subs_of s id) id)) <$> key_order (pubs_of s id).

Definition rm_sends (ms : list bytes) (s : RMState G) : RMState G := foldl (λ s m, rm_after m s) s ms.

Lemma FID_to_tm_run (s : RMState G) : rm_ok s → ∃ F,
  carries F (way_between (rm_graph s) (RMnodeID (rm_graph s)) (tm_nodeID (rm_graph s))) ∧
  ∀ ms, FID_to_tm (rm_sends ms s) = Ok (F, rm_sends ms s).
Proof.
  intros Hok. destruct (calculateFID_way (rm_graph s) (RVFID (rm_graph s)) (TMFID (rm_graph s)) (TM_to_nodeFID (rm_graph s))
    _ _ (ok_graph s Hok) (ok_rm s Hok) (ok_tm s Hok)) as (F & HF & Hc).
  assert (set_fids (RVFID (rm_graph s)) (TMFID (rm_graph s)) (TM_to_nodeFID (rm_graph s)) (rm_graph s) = rm_graph s) as Ht
    by (by destruct (rm_graph s)). rewrite Ht in HF.
  exists F. split; [done|]. intros ms. assert (rm_graph (rm_sends ms s) = rm_graph s) as Hg.
  { clear. unfold rm_sends. revert s. induction ms as [|m ms IH]; intros s; [done|]. cbn [foldl]. by rewrite IH. }
  unfold FID_to_tm. rewrite (run_bind _ _ _ (rm_sends ms s) (rm_sends ms s)) by done. unfold on_rm_graph. rewrite Hg, HF.
  rewrite <-Hg. by destruct (rm_sends ms s).
Qed.

Lemma rm_sends_app ms ms' s : rm_sends (ms ++ ms') s = rm_sends ms' (rm_sends ms s).
Proof. apply foldl_app. Qed.

Lemma rm_sends_keeps ms s : path_info (rm_sends ms s) = path_info s ∧ ex_pubs (rm_sends ms s) = ex_pubs s ∧
  ex_subs (rm_sends ms s) = ex_subs s ∧ rm_graph (rm_sends ms s) = rm_graph s.
Proof.
  unfold rm_sends. revert s. induction ms as [|m ms IH]; intros s; [done|]. cbn [foldl]. by destruct (IH (rm_after m s)) as (-> & -> & -> & ->).
Qed.

(** A loop that sends *)
Lemma for_each_sends {A : Type} (l : list A) (body : A → M (RMState G) unit) (f : A → list bytes) (s : RMState G) :
  (∀ a ms, a ∈ l → body a (rm_sends ms s) = Ok (tt, rm_sends (ms ++ f a) s)) →
  ∀ ms, for_each l body (rm_sends ms s) = Ok (tt, rm_sends (ms ++ mjoin (f <$> l)) s).
Proof.
  induction l as [|a l IH]; intros Hb ms; cbn [for_each].
  { cbn. by rewrite app_nil_r. }
  rewrite (run_bind _ _ _ _ _ (Hb a ms ltac:(left))). rewrite IH; [|intros b ms' Hin; apply Hb; by right].
  cbn. by rewrite app_assoc.
Qed.

Notation ends := (gmap bytes (gset bytes)).

Lemma found_alternatives (m : ends) (id : bytes) (s : RMState G) : id ∈ dom m → found m id s = Ok (at_id m id, s) ∧ m !! id = Some (at_id m id).
Proof. intros [X HX]%elem_of_dom. unfold found, at_id. by rewrite HX. Qed.

Lemma resp_frags (s : RMState G) : rm_ok s → frags 2 (resl_resp_bin_id ++ tm_nodeID (rm_graph s)) ∧
  frags 3 (resl_resp_bin_id ++ uc_resl_bin_id ++ tm_nodeID (rm_graph s)).
Proof. intros Hok. unfold frags. rewrite !length_app, (ok_tm_name s Hok). split_and!; [reflexivity|lia|reflexivity|lia]. Qed.

(** The requests for trees: one goes well, the next does not. *)
Section trees.
Context (s : RMState G) (Hok : rm_ok s) (F : BABitvector) (HF : fid_ok F) (C : gset bytes) (HC : C ⊆ dom (path_info s)).
Context (Hrun : ∀ ms, FID_to_tm (rm_sends ms s) = Ok (F, rm_sends ms s)).
Context (P S : ends) (HP : ∀ id, at_id P id = pubs_of s id) (HS : ∀ id, at_id S id = subs_of s id).

Lemma trees_one id : key_order C = [id] →
  requestMulticastTree getpid sendmsg_ret junk C P S s
  = Ok ((<[id := at_id (ex_pubs s) id ∪ pubs_of s id]> P, <[id := subs_of s id]> S), rm_sends [tree_request s F id] s).
Proof using All.
  intros HC1. assert (id ∈ dom (path_info s)) as Hid.
  { apply HC. apply elem_of_key_order. rewrite HC1. left. }
  destruct (ok_native s Hok id Hid) as (Hex & Hwp & Hws). destruct (found_alternatives _ _ s Hex) as [_ Ha].
  unfold requestMulticastTree. rewrite (run_bind _ _ s s s) by done. rewrite (run_bind _ _ s F s) by (apply (Hrun [])).
  rewrite HC1. cbn [fold_each]. rewrite <-(HP id) in Hwp. rewrite <-(HS id) in Hws.
  destruct (request_tree_run (resl_resp_bin_id ++ tm_nodeID (rm_graph s)) F id P S 2 _ s (proj1 (resp_frags s Hok)) HF Ha Hwp Hws)
    as (off & _ & Hr).
  erewrite (run_bind (request_tree _ _ _ _ _ _ _ ≫= _)); [|by rewrite (run_bind _ _ _ _ _ Hr)]. cbn beta iota.
  unfold tree_request. by rewrite (HP id), (HS id).
Qed.

Lemma trees_two : (2 ≤ size C)%nat → requestMulticastTree getpid sendmsg_ret junk C P S s = Fault BufferOverflow.
Proof using All.
  intros H2. rewrite <-length_key_order in H2. pose proof (NoDup_key_order C) as Hnd.
  destruct (key_order C) as [|id [|id' l]] eqn:EC; [cbn in H2; lia..|].
  assert (∀ x, x ∈ [id; id'] → x ∈ dom (path_info s)) as Hin.
  { intros x Hx. apply HC, elem_of_key_order. rewrite EC. set_solver. }
  destruct (ok_native s Hok id (Hin id ltac:(left))) as (Hex & Hwp & Hws). destruct (found_alternatives _ _ s Hex) as [_ Ha].
  destruct (ok_native s Hok id' (Hin id' ltac:(right; left))) as (Hex' & Hwp' & Hws'). destruct (found_alternatives _ _ s Hex') as [_ Ha'].
  unfold requestMulticastTree. rewrite (run_bind _ _ s s s) by done. rewrite (run_bind _ _ s F s) by (apply (Hrun [])).
  rewrite EC. cbn [fold_each]. rewrite <-(HP id) in Hwp. rewrite <-(HS id) in Hws. rewrite <-(HP id') in Hwp'. rewrite <-(HS id') in Hws'.
  destruct (request_tree_run (resl_resp_bin_id ++ tm_nodeID (rm_graph s)) F id P S 2 _ s (proj1 (resp_frags s Hok)) HF Ha Hwp Hws)
    as (off & Hoff & Hr).
  assert (id' ≠ id) as Hne by (intros ->; apply NoDup_cons in Hnd as [Hn _]; apply Hn; left).
  set (P' := <[id := at_id (ex_pubs s) id ∪ at_id P id]> P) in Hr. set (S' := <[id := at_id S id]> S) in Hr.
  assert (at_id P' id' = at_id P id') as EP by (unfold P'; rewrite at_id_insert; by rewrite decide_False).
  assert (at_id S' id' = at_id S id') as ES by (unfold S'; rewrite at_id_insert; by rewrite decide_False).
  rewrite <-EP in Hwp'. rewrite <-ES in Hws'.
  match type of Hr with _ = Ok (_, ?s1) =>
    pose proof (request_tree_overflow (resl_resp_bin_id ++ tm_nodeID (rm_graph s)) F id' off P' S' _ s1 Hoff Ha' Hwp' Hws') as Hov
  end.
  unfold mbind at 1, M_bind at 1. rewrite (run_bind _ _ _ _ _ Hr). unfold mbind at 1, M_bind at 1. by rewrite Hov.
Qed.
End trees.

(** The requests for paths; what was asked for before does not matter. *)
Lemma paths_run (s : RMState G) (F : BABitvector) (C : gset bytes) (P S : ends) ms : rm_ok s → fid_ok F →
  C ⊆ dom (unicast_path_info s) → (∀ ms, FID_to_tm (rm_sends ms s) = Ok (F, rm_sends ms s)) →
  (∀ id, id ∈ C → at_id P id = pubs_of s id) → (∀ id, id ∈ C → at_id S id = subs_of s id) →
  requestUnicastPaths getpid sendmsg_ret junk C P S (rm_sends ms s)
  = Ok (tt, rm_sends (ms ++ mjoin (path_requests s F <$> key_order C)) s).
Proof.
  intros Hok HF HC Hrun HP HS. unfold requestUnicastPaths.
  rewrite (run_bind _ _ _ (rm_sends ms s) (rm_sends ms s)) by done. rewrite (run_bind _ _ _ _ _ (Hrun ms)).
  destruct (rm_sends_keeps ms s) as (_ & _ & _ & ->). cbv zeta. apply for_each_sends. intros id ms1 Hid%elem_of_key_order.
  rewrite (run_bind _ _ _ (rm_sends ms1 s) (rm_sends ms1 s)) by done. destruct (rm_sends_keeps ms1 s) as (_ & _ & -> & _).
  destruct (ok_unicast s Hok id (HC id Hid)) as (Hex & Hwp & Hws).
  destruct (found_alternatives _ _ (rm_sends ms1 s) Hex) as [Hf _]. rewrite (run_bind _ _ _ _ _ Hf). cbv zeta.
  rewrite (HP id Hid), (HS id Hid). set (subs := _ ∪ subs_of s id).
  assert (path_requests s F id = mjoin ((λ pub, [with_fid getpid (resl_resp_bin_id ++ uc_resl_bin_id ++ tm_nodeID (rm_graph s)) F
    (rematch {[pub]} subs id)]) <$> key_order (pubs_of s id))) as ->.
  { unfold path_requests. fold subs. generalize (key_order (pubs_of s id)). intros l. induction l as [|x l IH]; [done|]. cbn. by f_equal. }
  apply for_each_sends. intros pub ms2 Hpub%elem_of_key_order. rewrite rm_sends_app.
  apply (request_path_run _ F id subs pub 3); [apply resp_frags; done|done|done|]. by apply Hwp.
Qed.

Context (split : bytes → list bytes) (Hsplit : ∀ p, split p = tokens p).

(** The report of a failed link between [a] and [b], as it lies in memory:
    what is behind the block has to have a NUL. *)
Definition failure_report (nt : Z) (a b : bytes) : bytes := DISCOVER_FAILURE :: nt :: a ++ b.

Definition node_pair (a b : bytes) : Prop :=
  length a = PURSUIT_ID_LEN ∧ length b = PURSUIT_ID_LEN ∧ 0 ∉ a ∧ 0 ∉ b.

(** The whole run of the handler, in terms of what the scans find *)
Lemma failure_event nt a b more rest node (s : RMState G) : node_pair a b → nt ≠ 0 → 0 ∉ more → length node = PURSUIT_ID_LEN →
  ∃ P S : ends, (∀ id, at_id P id = pubs_of s id) ∧ (∀ id, at_id S id = subs_of s id) ∧
  rm_event getpid sendmsg_ret junk split (more ++ 0 :: rest) PUBLISHED_DATA (DiscoverFailureId ++ node)
    (failure_report nt a b) (len (failure_report nt a b)) s
  = ('(publishers, subscribers) ← (if decide (native_cut s a b = ∅) then mret (P, S)
       else requestMulticastTree getpid sendmsg_ret junk (native_cut s a b) P S);
     if decide (unicast_cut s a b = ∅) then mret tt
     else requestUnicastPaths getpid sendmsg_ret junk (unicast_cut s a b) publishers subscribers) s.
Proof using All.
  intros (Ha & Hb & Ha0 & Hb0) Hnt Hmore Hnode. eexists _, _. split; [apply (found_pubs s a b)|]. split; [apply (found_subs s a b)|].
  unfold failure_report. rewrite rm_event_block by done. cbv zeta. rewrite !decide_False, decide_True by done.
  change (DISCOVER_FAILURE =? DISCOVER_FAILURE) with true. cbn iota.
  set (msg := nt :: a ++ b). assert (len msg = 17) as Hm by (unfold msg, len; cbn [length]; by rewrite length_app, Ha, Hb).
  rewrite Hm. change (u8 17) with 17. rewrite take_ge by (unfold len in Hm; lia).
  unfold handleLinkStateNotification. rewrite (run_bind _ _ s nt s) by (by apply (byte_at_run [])).
  replace (msg ++ more ++ 0 :: rest) with ((msg ++ more) ++ 0 :: rest) by (by rewrite <-app_assoc).
  rewrite (run_bind _ _ s (msg ++ more) s) by (apply c_string_run; unfold msg; set_solver).
  replace (msg ++ more) with ([nt] ++ a ++ b ++ more) by (unfold msg; cbn; by rewrite <-!app_assoc).
  rewrite (run_bind _ _ s a s).
  2:{ apply str_substr_run; [done|unfold len; by rewrite Ha|]. unfold len. cbn [app length]. by rewrite Ha. }
  replace ([nt] ++ a ++ b ++ more) with (([nt] ++ a) ++ b ++ more) by (by rewrite <-!app_assoc).
  rewrite (run_bind _ _ s b s).
  2:{ apply str_substr_run; [unfold len; cbn [app length]; by rewrite Ha|unfold len; by rewrite Hb|].
      unfold len. rewrite length_app. cbn [app length]. by rewrite Ha, Hb. }
  destruct (scans_run s a b split Hsplit) as [H1 H2]. rewrite (run_bind _ _ _ _ _ H1), (run_bind _ _ _ _ _ H2).
  by rewrite (native_ids s a b), (unicast_ids s a b).
Qed.

(** A report that is not read: the C string that is made of it ends at [nt],
    or does not end in the memory behind it. *)
Lemma failure_unread nt a b behind node (s : RMState G) : node_pair a b → length node = PURSUIT_ID_LEN →
  nt = 0 ∨ 0 ∉ behind →
  rm_event getpid sendmsg_ret junk split behind PUBLISHED_DATA (DiscoverFailureId ++ node)
    (failure_report nt a b) (len (failure_report nt a b)) s
  = Fault (if nt =? 0 then Thrown else BufferOverflow).
Proof using All.
  intros (Ha & Hb & Ha0 & Hb0) Hnode Hbad. unfold failure_report. rewrite rm_event_block by done. cbv zeta.
  rewrite !decide_False, decide_True by done. change (DISCOVER_FAILURE =? DISCOVER_FAILURE) with true. cbn iota.
  set (msg := nt :: a ++ b). assert (len msg = 17) as Hm by (unfold msg, len; cbn [length]; by rewrite length_app, Ha, Hb).
  rewrite Hm. change (u8 17) with 17. rewrite take_ge by (unfold len in Hm; lia).
  unfold handleLinkStateNotification. rewrite (run_bind _ _ s nt s) by (by apply (byte_at_run [])).
  destruct (Z.eqb_spec nt 0) as [->|Hnt].
  - rewrite (run_bind _ _ s [] s); [done|]. unfold msg. apply (c_string_run []). set_solver.
  - destruct Hbad as [?|Hb']; [done|]. unfold mbind at 1, M_bind at 1. rewrite c_string_short; [done|].
    unfold msg. set_solver.
Qed.
End requests.

(** ** Concrete states *)

Definition writable_setb (X : gset bytes) : bool :=
  forallb (λ n, (length n =? PURSUIT_ID_LEN)%nat) (elements X) && (Z.of_nat (size X) <? 256).

Lemma writable_setb_sound X : writable_setb X = true → writable_set X.
Proof.
  unfold writable_setb. intros [Hn Hs]%andb_true_iff. split; [|by apply Z.ltb_lt].
  intros n Hin%elem_of_elements%list_elem_of_In. rewrite forallb_forall in Hn. by apply Nat.eqb_eq, Hn.
Qed.

Definition tables_okb {G : Type} (s : RMState G) : bool :=
  forallb (λ id, bool_decide (id ∈ dom (ex_pubs s)) && writable_setb (at_id (ex_pubs s) id ∪ pubs_of s id) &&
    writable_setb (subs_of s id)) (elements (dom (path_info s))) &&
  forallb (λ id, bool_decide (id ∈ dom (ex_subs s)) && writable_setb (pubs_of s id) &&
    writable_setb (at_id (ex_subs s) id ∪ subs_of s id)) (elements (dom (unicast_path_info s))) &&
  bool_decide (dom (path_info s) ∩ dom (unicast_path_info s) = (∅ : gset bytes)).

Lemma tables_ok {G : Type} `{Igraph G} (s : RMState G) :
  tm_wf (rm_graph s) → known (rm_graph s) (RMnodeID (rm_graph s)) → known (rm_graph s) (tm_nodeID (rm_graph s)) →
  length (tm_nodeID (rm_graph s)) = PURSUIT_ID_LEN → tables_okb s = true → rm_ok s.
Proof.
  intros Hwf Hrm Htm Hl. unfold tables_okb. rewrite !andb_true_iff, !forallb_forall, bool_decide_eq_true. intros [[H1 H2] H3].
  constructor; [done..| | |by apply disjoint_intersection_L]; intros id Hid%elem_of_elements%list_elem_of_In.
  - specialize (H1 id Hid). rewrite !andb_true_iff, bool_decide_eq_true in H1. destruct H1 as [[? ?] ?].
    split_and!; [done|by apply writable_setb_sound..].
  - specialize (H2 id Hid). rewrite !andb_true_iff, bool_decide_eq_true in H2. destruct H2 as [[? ?] ?].
    split_and!; [done|by apply writable_setb_sound..].
Qed.

(** Items that are delivered along the row *)
Definition row_path : bytes := path_string [node_name 1; node_name 2; node_name 3].
Definition item (k : Z) : bytes := delivery_name (ff_scope 1 ++ ff_scope k).

Definition row_deliveries (native unicast : list bytes) (t : TMgraph ListGraph.ListGraph) : RMState ListGraph.ListGraph :=
  mkRM t (list_to_map ((λ id, (id, {[row_path]})) <$> native))
    (list_to_map ((λ id, (id, {[node_name 1 := row_path]})) <$> unicast))
    (list_to_map ((λ id, (id, {[node_name 2]})) <$> native)) (list_to_map ((λ id, (id, ∅)) <$> unicast)) (mkBA 3 9999 []).

Lemma wf_set_names {G : Type} `{Igraph G} l md nid rv rm (t : TMgraph G) : tm_wf t → tm_wf (set_names l md nid rv rm t).
Proof. intros []. by constructor. Qed.

Lemma rm_row_ok : tm_wf rm_row ∧ known rm_row (RMnodeID rm_row) ∧ known rm_row (tm_nodeID rm_row) ∧
  length (tm_nodeID rm_row) = PURSUIT_ID_LEN.
Proof.
  split_and!.
  - apply wf_set_names, row_wf.
  - eexists. vm_compute. reflexivity.
  - eexists. vm_compute. reflexivity.
  - reflexivity.
Qed.

(** ** Failures are repaired, one tree at a time *)

(** One report that is read, which cuts at most one native item *)
Lemma failure_handled {G : Type} `{IgraphLaws G} (getpid : Z) (sendmsg_ret : list (Z * Netlink.addressed bytes) → Z)
    (junk : nat → Z) (split : bytes → list bytes) (nt : Z) (a b more rest node : bytes) (s : RMState G) F :
  (∀ p, split p = tokens p) → rm_ok s → node_pair a b → nt ≠ 0 → 0 ∉ more → length node = PURSUIT_ID_LEN →
  fid_ok F → (∀ ms, FID_to_tm (rm_sends ms s) = Ok (F, rm_sends ms s)) → (size (native_cut s a b) ≤ 1)%nat →
  rm_event getpid sendmsg_ret junk split (more ++ 0 :: rest) PUBLISHED_DATA (DiscoverFailureId ++ node)
      (failure_report nt a b) (len (failure_report nt a b)) s
    = Ok (tt, rm_sends ((tree_request getpid s F <$> key_order (native_cut s a b)) ++
                        mjoin (path_requests getpid s F <$> key_order (unicast_cut s a b))) s).
Proof.
  intros Hsplit Hok Hab Hnt Hmore Hnode HFok HF Hone.
  destruct (failure_event getpid sendmsg_ret junk split Hsplit nt a b more rest node s Hab Hnt Hmore Hnode) as (P & S & HP & HS & ->).
  assert (∃ P' S' : gmap bytes (gset bytes), (∀ id, id ∉ native_cut s a b → at_id P' id = pubs_of s id) ∧
    (∀ id, id ∉ native_cut s a b → at_id S' id = subs_of s id) ∧
    (if decide (native_cut s a b = ∅) then mret (P, S) else requestMulticastTree getpid sendmsg_ret junk (native_cut s a b) P S) s
    = Ok ((P', S'), rm_sends (tree_request getpid s F <$> key_order (native_cut s a b)) s)) as (P' & S' & HP' & HS' & Ht).
  { case_decide as Hne; [exists P, S; rewrite Hne; by split_and!|].
    destruct (key_order (native_cut s a b)) as [|id [|]] eqn:EC.
    - destruct Hne. apply leibniz_equiv, size_empty_inv. by rewrite <-length_key_order, EC.
    - eexists _, _. split; [|split; [|apply (trees_one getpid sendmsg_ret junk s Hok F HFok _ (native_items s a b) HF P S HP HS id EC)]];
        intros k Hk; rewrite at_id_insert, decide_False; auto; intros ->; apply Hk, elem_of_key_order; rewrite EC; left.
    - rewrite <-length_key_order, EC in Hone. cbn in Hone. lia. }
  rewrite (run_bind _ _ _ _ _ Ht). clear Ht. cbn beta iota. case_decide as Hne.
  { rewrite Hne. assert (key_order (∅ : gset bytes) = []) as -> by (unfold key_order; by rewrite elements_empty). cbn. by rewrite app_nil_r. }
  assert (∀ id, id ∈ unicast_cut s a b → id ∉ native_cut s a b) as Hap.
  { intros id Hu%unicast_items Hn%native_items. by apply (ok_apart s Hok id). }
  apply paths_run; [done|done|apply unicast_items|done|auto..].
Qed.

(** The offset at which requests for trees are written is never set back.  If
    a failed link cuts two native items or more, the second request is written
    from where the first one ended: the run writes past its block. *)
Lemma second_tree {G : Type} `{IgraphLaws G} (getpid : Z) (sendmsg_ret : list (Z * Netlink.addressed bytes) → Z)
    (junk : nat → Z) (split : bytes → list bytes) (nt : Z) (a b more rest node : bytes) (s : RMState G) :
  (∀ p, split p = tokens p) → rm_ok s → node_pair a b → nt ≠ 0 → 0 ∉ more → length node = PURSUIT_ID_LEN →
  (2 ≤ size (native_cut s a b))%nat →
  rm_event getpid sendmsg_ret junk split (more ++ 0 :: rest) PUBLISHED_DATA (DiscoverFailureId ++ node)
    (failure_report nt a b) (len (failure_report nt a b)) s = Fault BufferOverflow.
Proof.
  intros Hsplit Hok Hab Hnt Hmore Hnode Htwo. destruct (FID_to_tm_run s Hok) as (F & Hc & HF). assert (fid_ok F) as HFok by apply Hc.
  destruct (failure_event getpid sendmsg_ret junk split Hsplit nt a b more rest node s Hab Hnt Hmore Hnode) as (P & S & HP & HS & ->).
  rewrite decide_False by (intros Hn; rewrite Hn, size_empty in Htwo; lia).
  unfold mbind, M_bind. by rewrite (trees_two getpid sendmsg_ret junk s Hok F HFok _ (native_items s a b) HF P S HP HS Htwo).
Qed.

(** C30. A report that the link between [a] and [b] is down reaches the
    resilience manager, whose state is consistent; boost::split is the
    reference splitting, and the labels of nodes contain no zero byte.  If the
    report says that one direction failed ([nt] is zero), an exception ends
    the manager; if there is no NUL in the memory [behind] the block, the
    manager reads past its end.  Otherwise, if two native items or more run
    over a path through both nodes, the requests are written past the end of
    their block.  With at most one, nothing but messages to the node changes:
    for that item one request for a new tree, which is a match request of the
    topology manager with the publishers of the item, those in use and those
    that stand by, and its subscribers; and then for every unicast item on such
    a path one request for each of its publishers, with the subscribers in use
    and those that stand by.  All of them carry the FID of the way to the
    topology manager. *)
Theorem failure_rerequested {G : Type} `{IgraphLaws G} (getpid : Z) (sendmsg_ret : list (Z * Netlink.addressed bytes) → Z)
    (junk : nat → Z) (split : bytes → list bytes) (nt : Z) (a b behind node : bytes) (s : RMState G) :
  (∀ p, split p = tokens p) → rm_ok s → node_pair a b → length node = PURSUIT_ID_LEN →
  ∃ F, carries F (way_between (rm_graph s) (RMnodeID (rm_graph s)) (tm_nodeID (rm_graph s))) ∧
    rm_event getpid sendmsg_ret junk split behind PUBLISHED_DATA (DiscoverFailureId ++ node)
      (failure_report nt a b) (len (failure_report nt a b)) s
    = if nt =? 0 then Fault Thrown
      else if decide (0 ∈ behind ∧ (size (native_cut s a b) ≤ 1)%nat)
      then Ok (tt, rm_sends ((tree_request getpid s F <$> key_order (native_cut s a b)) ++
                             mjoin (path_requests getpid s F <$> key_order (unicast_cut s a b))) s)
      else Fault BufferOverflow.
Proof.
  intros Hsplit Hok Hab Hnode. destruct (FID_to_tm_run s Hok) as (F & Hc & HF). exists F. split; [done|].
  assert (fid_ok F) as HFok by apply Hc. destruct (decide (nt = 0 ∨ 0 ∉ behind)) as [Hbad|Hgood].
  { rewrite failure_unread by done. destruct (Z.eqb_spec nt 0); [done|]. rewrite decide_False; [done|naive_solver]. }
  assert (nt ≠ 0) as Hnt by naive_solver. rewrite (proj2 (Z.eqb_neq nt 0)) by done.
  destruct (decide (0 ∈ behind)) as [Hb|Hb]; [|exfalso; naive_solver]. pose proof Hb as Hin.
  apply list_elem_of_split_l in Hb as (more & rest & -> & Hmore).
  destruct (decide (size (native_cut s a b) ≤ 1)%nat) as [Hone|Htwo].
  - rewrite decide_True by done. by apply failure_handled.
  - rewrite decide_False by naive_solver. apply (second_tree getpid sendmsg_ret junk split nt a b more rest node s); try done. lia.
Qed.

Lemma failure_rerequested_witness :
  let s := row_deliveries [item 2] [item 3] rm_row in
  ∃ F, carries F (way_between rm_row (node_name 2) (node_name 1)) ∧
    rm_event 7 (λ _, 0) (λ _, 0) tokens [0] PUBLISHED_DATA (DiscoverFailureId ++ node_name 2)
      (failure_report 1 (node_name 3) (node_name 2)) 18 s
    = Ok (tt, rm_sends [with_fid 7 (resl_resp_bin_id ++ node_name 1) F
                          (match_request MATCH_PUB_SUBS IMPLICIT_RENDEZVOUS [node_name 1; node_name 2] [node_name 3] [ff_scope 1 ++ ff_scope 2]);
                        with_fid 7 (resl_resp_bin_id ++ uc_resl_bin_id ++ node_name 1) F
                          (match_request MATCH_PUB_SUBS IMPLICIT_RENDEZVOUS [node_name 1] [node_name 3] [ff_scope 1 ++ ff_scope 3])] s).
Proof.
  intros s. destruct rm_row_ok as (Hwf & Hrm & Htm & Hl).
  assert (RMnodeID rm_row = node_name 2) as Erm by reflexivity. assert (tm_nodeID rm_row = node_name 1) as Etm by reflexivity.
  unfold s. clear s. revert Hwf Hrm Htm Hl Erm Etm. generalize rm_row. intros t Hwf Hrm Htm Hl Erm Etm. set (s := row_deliveries _ _ t).
  destruct (failure_rerequested 7 (λ _, 0) (λ _, 0) tokens 1 (node_name 3) (node_name 2) [0] (node_name 2) s) as (F & Hc & Hrun).
  - reflexivity.
  - apply tables_ok; [exact Hwf|exact Hrm|exact Htm|exact Hl|vm_compute; reflexivity].
  - split; [reflexivity|]. split; [reflexivity|]. split; apply (bool_decide_unpack _); vm_compute; exact I.
  - reflexivity.
  - exists F. change (rm_graph s) with t in Hc. rewrite Erm, Etm in Hc. split; [exact Hc|].
    assert (key_order (native_cut s (node_name 3) (node_name 2)) = [item 2]) as E1 by (vm_compute; reflexivity).
    assert (key_order (unicast_cut s (node_name 3) (node_name 2)) = [item 3]) as E2 by (vm_compute; reflexivity).
    assert (key_order (pubs_of s (item 3)) = [node_name 1]) as E3 by (vm_compute; reflexivity).
    rewrite decide_True in Hrun; [|split; [left|vm_compute; lia]]. change (1 =? 0) with false in Hrun. cbn iota in Hrun.
    rewrite E1, E2 in Hrun. cbn [fmap list_fmap app] in Hrun. unfold tree_request, path_requests in Hrun. rewrite E3 in Hrun.
    change (rm_graph s) with t in Hrun. rewrite Etm in Hrun.
    assert (rematch (at_id (ex_pubs s) (item 2) ∪ pubs_of s (item 2)) (subs_of s (item 2)) (item 2)
      = match_request MATCH_PUB_SUBS IMPLICIT_RENDEZVOUS [node_name 1; node_name 2] [node_name 3] [ff_scope 1 ++ ff_scope 2]) as E4
      by (vm_compute; reflexivity).
    assert (rematch {[node_name 1]} (at_id (ex_subs s) (item 3) ∪ subs_of s (item 3)) (item 3)
      = match_request MATCH_PUB_SUBS IMPLICIT_RENDEZVOUS [node_name 1] [node_name 3] [ff_scope 1 ++ ff_scope 3]) as E5
      by (vm_compute; reflexivity).
    cbn [fmap list_fmap mjoin list_join app] in Hrun. rewrite E4, E5 in Hrun. exact Hrun.
Defined.

Example second_tree_example :
  rm_event 7 (λ _, 0) (λ _, 0) tokens [0] PUBLISHED_DATA (DiscoverFailureId ++ node_name 2)
      (failure_report 1 (node_name 3) (node_name 2)) 18 (row_deliveries [item 2; item 3] [] rm_row) = Fault BufferOverflow.
Proof.
  destruct rm_row_ok as (Hwf & Hrm & Htm & Hl). revert Hwf Hrm Htm Hl. generalize rm_row. intros t Hwf Hrm Htm Hl.
  apply (second_tree 7 (λ _, 0) (λ _, 0) tokens 1 (node_name 3) (node_name 2) [] [] (node_name 2)).
  - reflexivity.
  - apply tables_ok; [exact Hwf|exact Hrm|exact Htm|exact Hl|vm_compute; reflexivity].
  - split; [reflexivity|]. split; [reflexivity|]. split; apply (bool_decide_unpack _); vm_compute; exact I.
  - discriminate.
  - apply not_elem_of_nil.
  - reflexivity.
  - vm_compute. reflexivity.
Defined.
