(* ===== verification/RMSafety.v ===== *)
(** * The resilience manager never looks behind its tables

    Every item that it has a path of has an entry in the table of stand-ins,
    whatever messages arrive.  The places where the code uses the result of
    [find] without looking at it are safe because of this. *)
From stdpp Require Import base list gmap sets.
From Stdlib Require Import ZArith Lia Bool.
From S2P Require Import Prelude Enums Bitvector GlobalConf Containers LibBitvector Igraph UserLib Blocks TMGraph TMPaths TMLinks TMCache TMHandlers Resilience RMProps RMFailure.

Local Open Scope Z_scope.

Definition not_end : fault → Prop := λ e, e ≠ EndDeref.

(** ** Parts that only read

    [reads m]: [m] keeps the state and never uses [end()]. *)
Section reads.
Context {S : Type}.

Definition reads {A : Type} (m : M S A) : Prop := ∀ s, wp not_end m (λ _ s', s' = s) s.

Lemma reads_ret {A} (a : A) : reads (mret a).
Proof. by intros s. Qed.

Lemma reads_bind {A B} (m : M S A) (k : A → M S B) : reads m → (∀ a, reads (k a)) → reads (m ≫= k).
Proof. intros Hm Hk s. apply wp_bind. eapply wp_mono; [apply Hm|]. intros a ? ->. apply Hk. Qed.

Lemma reads_throw {A} e : e ≠ EndDeref → reads (throw e : M S A).
Proof. by intros He s. Qed.

Lemma reads_get : reads (get : M S S).
Proof. by intros s. Qed.

Lemma reads_fold {A B} (l : list A) (body : A → B → M S B) acc : (∀ a acc, reads (body a acc)) → reads (fold_each l body acc).
Proof.
  intros Hb. revert acc. induction l as [|a l IH]; intros acc; cbn [fold_each]; [apply reads_ret|]. by apply reads_bind.
Qed.

Lemma wp_reads {A} (m : M S A) (Q : A → S → Prop) s : reads m → (∀ a, Q a s) → wp not_end m Q s.
Proof. intros Hm HQ. eapply wp_mono; [apply Hm|]. intros a ? ->. apply HQ. Qed.

Lemma reads_bytes_at req off n : reads (bytes_at req off n).
Proof. unfold bytes_at. destruct (_ && _); [apply reads_ret|by apply reads_throw]. Qed.

Lemma reads_put off src p : reads (put off src p).
Proof.
  unfold put, memcpy. destruct (off <? 0); [by apply reads_throw|]. case_decide; [apply reads_ret|by apply reads_throw].
Qed.

Lemma reads_alloc n : reads (alloc n).
Proof. unfold alloc. destruct (n <? 0); [by apply reads_throw|apply reads_ret]. Qed.

Lemma reads_str_substr s pos n : reads (str_substr s pos n).
Proof. unfold str_substr. cbv zeta. destruct (_ >? _); [by apply reads_throw|apply reads_ret]. Qed.
End reads.

Create HintDb reads.
#[export] Hint Resolve reads_ret reads_bind reads_get reads_fold reads_bytes_at reads_put reads_alloc reads_str_substr : reads.

(** A part that only reads is such a part if its own parts are. *)
Ltac reads_parts := repeat first
  [ progress intros | solve [eauto 2 with reads] | apply reads_bind | apply reads_fold
  | match goal with |- reads (match ?x with _ => _ end) => destruct x end
  | match goal with |- reads (if ?x then _ else _) => destruct x end ].

Section reads_blocks.
Context {S : Type}.

Lemma reads_byte_at req off : reads (S:=S) (byte_at req off).
Proof. unfold byte_at. reads_parts. Qed.

Lemma reads_read_nodes req off n : reads (S:=S) (read_nodes req off n).
Proof. unfold read_nodes. reads_parts. Qed.

Lemma reads_c_string req : reads (S:=S) (c_string req).
Proof. induction req as [|c req IH]; cbn [c_string]; [by apply reads_throw|]. reads_parts. Qed.

Lemma reads_puts srcs off p : reads (S:=S) (puts off srcs p).
Proof. revert off p. induction srcs as [|src srcs IH]; intros off p; cbn [puts]; reads_parts. Qed.
End reads_blocks.
#[export] Hint Resolve reads_byte_at reads_read_nodes reads_c_string reads_puts : reads.

(** ** The tables *)

Record rm_inv {G : Type} `{Igraph G} (s : RMState G) : Prop := mkRMinv {
  inv_graph : tm_wf (rm_graph s);
  inv_rm : known (rm_graph s) (RMnodeID (rm_graph s));
  inv_tm : known (rm_graph s) (tm_nodeID (rm_graph s));
  inv_native : dom (path_info s) ⊆ dom (ex_pubs s);
  inv_unicast : dom (unicast_path_info s) ⊆ dom (ex_subs s);
}.

Section safety.
Context {G : Type} `{IgraphLaws G} (getpid : Z) (sendmsg_ret : list (Z * Netlink.addressed bytes) → Z) (junk : nat → Z).

Definition same_tables (s s' : RMState G) : Prop := rm_graph s' = rm_graph s ∧ path_info s' = path_info s ∧
  unicast_path_info s' = unicast_path_info s ∧ ex_pubs s' = ex_pubs s ∧ ex_subs s' = ex_subs s.

#[local] Instance same_tables_preorder : PreOrder same_tables.
Proof.
  split; [by intros s|]. intros s1 s2 s3 (? & ? & ? & ? & ?) (? & ? & ? & ? & ?). unfold same_tables. split_and!; congruence.
Qed.

Lemma inv_same s s' : same_tables s s' → rm_inv s → rm_inv s'.
Proof. intros (E1 & E2 & E3 & E4 & E5) []. constructor; by rewrite ?E1, ?E2, ?E3, ?E4, ?E5. Qed.

Lemma gather_fault iov e : gather iov = Fault e → e ≠ EndDeref.
Proof.
  revert e. induction iov as [|[base n] iov IH]; intros e; cbn [gather]; [done|]. case_decide; [|by intros [= <-]].
  destruct (gather iov) as [|e']; [done|]. intros [= <-]. by apply IH.
Qed.

Lemma publish_safe nid F p s : wp not_end (publish_to_tm getpid sendmsg_ret junk nid F p) (λ _ s', same_tables s s') s.
Proof.
  unfold publish_to_tm, on_rm_ba, wp. destruct (publish_data _ _ _ _ _ _ _ _ (rm_ba s)) as [[[] ba]|e] eqn:E; [done|].
  unfold publish_data in E. destruct (negb _); [by injection E as <-|].
  unfold sendmsg, mbind, M_bind in E. cbn [get] in E. destruct (gather _) eqn:Eg; [done|].
  injection E as <-. by eapply gather_fault.
Qed.

Lemma FID_safe s Q : rm_inv s → (∀ F, Q F s) → wp not_end FID_to_tm Q s.
Proof.
  intros Hi HQ. destruct (calculateFID_way (rm_graph s) (RVFID (rm_graph s)) (TMFID (rm_graph s)) (TM_to_nodeFID (rm_graph s))
    _ _ (inv_graph s Hi) (inv_rm s Hi) (inv_tm s Hi)) as (F & HF & _).
  assert (set_fids (RVFID (rm_graph s)) (TMFID (rm_graph s)) (TM_to_nodeFID (rm_graph s)) (rm_graph s) = rm_graph s) as Ht
    by (by destruct (rm_graph s)). rewrite Ht in HF.
  apply wp_bind, wp_get. apply (wp_of_run _ _ F s s); [|done]. unfold on_rm_graph. rewrite HF. by destruct s.
Qed.

Lemma found_safe (m : gmap bytes (gset bytes)) (id : bytes) Q (s : RMState G) : id ∈ dom m → (∀ X, Q X s) → wp not_end (found m id) Q s.
Proof. intros [X HX]%elem_of_dom HQ. unfold found. rewrite HX. apply HQ. Qed.

Lemma reads_put_nodes X off p : reads (S:=RMState G) (put_nodes X off p).
Proof. unfold put_nodes. reads_parts. Qed.

Lemma request_tree_safe nid F id acc s : id ∈ dom (ex_pubs s) →
  wp not_end (request_tree getpid sendmsg_ret junk nid F id acc) (λ _ s', same_tables s s') s.
Proof.
  intros Hid. unfold request_tree. destruct acc as [[off P] S]. apply wp_bind, wp_get, wp_bind, found_safe; [done|]. intros alts.
  cbv zeta.
  repeat (apply wp_bind, wp_reads; [first [apply reads_alloc|apply reads_put|apply reads_put_nodes]|intros ?];
    try match goal with a : Z * buffer |- _ => destruct a end).
  apply wp_bind. eapply wp_mono; [apply publish_safe|]. intros ? s' Hs. by apply wp_ret.
Qed.

Lemma trees_safe C P S s : rm_inv s → C ⊆ dom (ex_pubs s) →
  wp not_end (requestMulticastTree getpid sendmsg_ret junk C P S) (λ _ s', same_tables s s') s.
Proof.
  intros Hi HC. unfold requestMulticastTree. apply wp_bind, wp_get, wp_bind, FID_safe; [done|]. intros F.
  apply wp_bind. eapply wp_mono; [apply (wp_fold_each _ _ _ (λ l _ s', same_tables s s' ∧ ∀ id, id ∈ l → id ∈ C))|].
  - split; [done|]. intros id. by rewrite elem_of_key_order.
  - intros id l acc s' [Hs Hl]. eapply wp_mono; [apply request_tree_safe|].
    + destruct Hs as (_ & _ & _ & -> & _). apply HC, Hl. left.
    + intros acc' s'' Hs'. split; [by etrans|]. intros k Hk. apply Hl. by right.
  - intros [[off P'] S'] s' [Hs _]. by apply wp_ret.
Qed.

Lemma paths_safe C P S s : rm_inv s → C ⊆ dom (ex_subs s) →
  wp not_end (requestUnicastPaths getpid sendmsg_ret junk C P S) (λ _ s', same_tables s s') s.
Proof.
  intros Hi HC. unfold requestUnicastPaths. apply wp_bind, wp_get, wp_bind, FID_safe; [done|]. intros F. cbv zeta.
  apply wp_for_each_inv; [done|]. intros id s' Hid%elem_of_key_order Hs. apply wp_bind, wp_get, wp_bind, found_safe.
  { destruct Hs as (_ & _ & _ & _ & ->). by apply HC. }
  intros alts. cbv zeta. apply wp_for_each_inv; [done|]. intros pub s1 _ Hs1. unfold request_path. cbv zeta.
  apply wp_bind, wp_reads; [apply reads_alloc|]. intros p. apply wp_bind, wp_reads; [apply reads_bytes_at|]. intros name.
  apply wp_bind, wp_reads; [apply reads_puts|]. intros q. apply wp_bind, wp_reads; [apply reads_put_nodes|]. intros [off q'].
  apply wp_bind, wp_reads; [apply reads_put|]. intros q''. eapply wp_mono; [apply publish_safe|]. intros ? s2 Hs2. by etrans.
Qed.

(** ** The handlers *)

Lemma reads_read_paths req str n off : reads (S:=RMState G) (read_paths req str n off).
Proof. unfold read_paths. reads_parts. Qed.

Lemma dom_updated_paths (id : bytes) (X : gset bytes) (m : gmap bytes (gset bytes)) : dom (updated_paths id X m) ⊆ {[id]} ∪ dom m.
Proof. unfold updated_paths. destruct (m !! id); case_decide; set_solver. Qed.

Lemma dom_updated_unicast (id pub : bytes) (p : option bytes) (m : gmap bytes (gmap bytes bytes)) : dom (updated_unicast id pub p m) ⊆ {[id]} ∪ dom m.
Proof. unfold updated_unicast. destruct (m !! id), p; set_solver. Qed.

Lemma multicast_safe req n s : rm_inv s → wp not_end (handleMulticastPathNotification req n) (λ _ s', rm_inv s') s.
Proof.
  intros []. unfold handleMulticastPathNotification.
  do 5 (apply wp_bind, wp_reads; [by eauto with reads|intros ?]; cbv zeta).
  apply wp_bind, wp_reads; [apply reads_read_paths|]. intros [idx X]. apply wp_bind, wp_modify.
  do 2 (apply wp_bind, wp_reads; [by eauto with reads|intros ?]). apply wp_modify. constructor; [done..| |done]. cbn.
  etrans; [apply dom_updated_paths|]. rewrite dom_insert_L. set_solver.
Qed.

Lemma unicast_safe req n s : rm_inv s → wp not_end (handleUnicastPathNotification req n) (λ _ s', rm_inv s') s.
Proof.
  intros []. unfold handleUnicastPathNotification.
  do 5 (apply wp_bind, wp_reads; [by eauto with reads|intros ?]; cbv zeta).
  apply wp_bind, wp_reads; [reads_parts|]. intros [idx p]. apply wp_bind, wp_modify.
  do 2 (apply wp_bind, wp_reads; [by eauto with reads|intros ?]). apply wp_modify. constructor; [done..|]. cbn.
  etrans; [apply dom_updated_unicast|]. rewrite dom_insert_L. set_solver.
Qed.

Context (split : bytes → list bytes) (Hsplit : ∀ p, split p = tokens p).

Lemma failure_safe req n s : rm_inv s →
  wp not_end (handleLinkStateNotification getpid sendmsg_ret junk split req n) (λ _ s', rm_inv s') s.
Proof using Hsplit H0.
  intros Hi. unfold handleLinkStateNotification.
  do 2 (apply wp_bind, wp_reads; [by eauto with reads|intros ?]).
  apply wp_bind, wp_reads; [by eauto with reads|intros x]. apply wp_bind, wp_reads; [by eauto with reads|intros y].
  destruct (scans_run s x y split Hsplit) as [H1 H2].
  apply wp_bind. eapply wp_of_run; [exact H1|]. apply wp_bind. eapply wp_of_run; [exact H2|].
  rewrite (native_ids s x y), (unicast_ids s x y). apply wp_bind.
  assert (∀ P S s', same_tables s s' →
    wp not_end (if decide (unicast_cut s x y = ∅) then mret tt
      else requestUnicastPaths getpid sendmsg_ret junk (unicast_cut s x y) P S) (λ _ s'', rm_inv s'') s') as Hrest.
  { intros P S s' Hs. pose proof (inv_same _ _ Hs Hi) as Hi'. case_decide; [by apply wp_ret|].
    eapply wp_mono; [apply paths_safe; [done|]|intros ? s'' Hs'; exact (inv_same _ _ Hs' Hi')].
    etrans; [apply unicast_items|]. destruct Hs as (_ & _ & _ & _ & ->). apply Hi. }
  destruct (decide (native_cut s x y = ∅)); [by apply wp_ret, Hrest|].
  eapply wp_mono; [apply trees_safe; [done|etrans; [apply native_items|apply Hi]]|]. intros [P S] s' Hs. by apply Hrest.
Qed.
End safety.

(** Events as they arrive; each one brings what lies behind its block. *)
Record RMEvent := mkRMEvent { re_type : Z; re_id : bytes; re_data : bytes; re_len : Z; re_behind : bytes }.

(** C32. Whatever sequence of events reaches the resilience manager: every item it
    has a path of is in the table of publishers that stand by, every unicast
    item in the one of subscribers, and the topology is as it was read.  So no
    event makes it use the [end()] of a table, although it never compares the
    results of [find] in its requests with it. *)
Theorem alternatives_always_found {G : Type} `{IgraphLaws G} (getpid : Z) (sendmsg_ret : list (Z * Netlink.addressed bytes) → Z)
    (junk : nat → Z) (split : bytes → list bytes) (events : list RMEvent) (s : RMState G) :
  (∀ p, split p = tokens p) → rm_inv s →
  wp not_end (for_each events (λ e,
    rm_event getpid sendmsg_ret junk split (re_behind e) (re_type e) (re_id e) (re_data e) (re_len e))) (λ _ s', rm_inv s') s.
Proof.
  intros Hsplit Hs. apply wp_for_each_inv; [done|]. intros e s' _ Hi. unfold rm_event.
  destruct (_ =? _); [|by apply wp_ret]. apply wp_bind, wp_reads; [apply reads_str_substr|]. intros id. unfold DispathToHandler.
  do 2 (apply wp_bind, wp_reads; [by eauto with reads|intros ?]; cbv zeta).
  repeat case_decide; try (by apply wp_ret); destruct (_ =? _); try (by apply wp_ret);
    [by apply multicast_safe|by apply unicast_safe|by apply failure_safe].
Qed.

Lemma alternatives_always_found_witness :
  wp not_end (for_each [mkRMEvent PUBLISHED_DATA (UpdatePathId ++ node_name 2) (update_message (ff_scope 1 ++ ff_scope 2) [row_path] []) 55 [];
                        mkRMEvent PUBLISHED_DATA (DiscoverFailureId ++ node_name 2) (failure_report 1 (node_name 3) (node_name 2)) 18 [0]] (λ e,
    rm_event 7 (λ _, 0) (λ _, 0) tokens (re_behind e) (re_type e) (re_id e) (re_data e) (re_len e))) (λ _ s', rm_inv s') (new_rm rm_row).
Proof.
  destruct rm_row_ok as (Hwf & Hrm & Htm & _). revert Hwf Hrm Htm. generalize rm_row. intros t Hwf Hrm Htm.
  apply (alternatives_always_found 7); [reflexivity|]. constructor; [exact Hwf|exact Hrm|exact Htm|reflexivity..].
Defined.
