(* ===== verification/NapTypes.v ===== *)
(** * The network attachment point: types (apps/nap/types)

    Identifiers of content, which are texts of decimal numbers padded to
    sixteen characters for each level, and the addresses and prefixes of IPv4.
    [inet_aton] of the C library is a parameter; [other_int] is what [atoi]
    gives for numbers that do not fit. *)
From stdpp Require Import base list gmap sets.
From Stdlib Require Import ZArith Lia Bool.
From S2P Require Import Prelude Enums Containers UserLib Blocks TMCache.

Local Open Scope Z_scope.

(** ** Text *)

(** [oss << n] for an unsigned number of at most 20 digits *)
Fixpoint decimal_from (fuel : nat) (n : Z) : bytes :=
  match fuel with
  | O => []
  | S fuel => if n <? 10 then [48 + n] else decimal_from fuel (n / 10) ++ [48 + n mod 10]
  end.
Definition decimal (n : Z) : bytes := decimal_from 20 n.

(** [oss << setw(w) << setfill('0') << s] *)
Definition padded (w : nat) (s : bytes) : bytes := replicate (w - length s) 48 ++ s.

(** The digits that [atoi] reads, most significant first *)
Fixpoint digits_value (acc : Z) (s : bytes) : Z :=
  match s with
  | c :: s => if (48 <=? c) && (c <=? 57) then digits_value (10 * acc + (c - 48)) s else acc
  | [] => acc
  end.
Definition atoi (other_int : bytes → Z) (s : bytes) : Z :=
  let n := match skip_spaces s with
           | c :: t => if c =? 45 then - digits_value 0 t else if c =? 43 then digits_value 0 t else digits_value 0 (c :: t)
           | [] => 0
           end in
  if (- 2 ^ 31 <=? n) && (n <? 2 ^ 31) then n else other_int s.

(** [h = h * 31 + c] over the characters of a C string, which are signed *)
Definition as_char (c : Z) : Z := if c <? 128 then c else c - 256.
Fixpoint hash_from (h : Z) (s : bytes) : Z :=
  match s with
  | c :: s => if c =? 0 then h else hash_from (u32 (h * 31 + as_char c)) s
  | [] => h
  end.
Definition hashString (s : bytes) : Z := hash_from 0 s.

(** The result of a function that may go wrong *)
Definition of_res {S A : Type} (r : res A) : M S A := match r with Ok a => mret a | Fault e => throw e end.

(** ** IP addresses *)

Record RoutingPrefix := mkPrefix { rp_network : Z; rp_netmask : Z; rp_uint : Z }.

Definition routing_prefix (inet_aton : bytes → Z) (networkAddress netmask : bytes) : RoutingPrefix :=
  let a := inet_aton networkAddress in
  let m := inet_aton netmask in
  mkPrefix a m (Z.land a m).

Definition set_netmask (inet_aton : bytes → Z) (netmask : bytes) (p : RoutingPrefix) : RoutingPrefix :=
  let m := inet_aton netmask in mkPrefix (rp_network p) m (Z.land (rp_network p) m).
Definition set_networkAddress (inet_aton : bytes → Z) (networkAddress : bytes) (p : RoutingPrefix) : RoutingPrefix :=
  let a := inet_aton networkAddress in mkPrefix a (rp_netmask p) (Z.land a (rp_netmask p)).

(** ** Identifiers *)

Record IcnId := mkIcnId {
  icn_rootNamespace : Z;
  icn_hashed : Z;
  icn_string : bytes;
  icn_forwarding : bool;
  icn_fqdn : bytes;
  icn_resource : bytes;
}.

Section icnid.
Context (other_int : bytes → Z).

(** An identifier with its hash and its namespace; every constructor ends so. *)
Definition icn_of_string (str fqdn resource : bytes) : IcnId :=
  mkIcnId (u16 (atoi other_int (take 16 str))) (hashString str) str false fqdn resource.

Definition scope (n : Z) : bytes := padded 16 (decimal n).

Definition no_icnid : IcnId := mkIcnId 0 0 [] false [] [].
Definition icn_of_prefix (p : RoutingPrefix) : IcnId := icn_of_string (scope NAMESPACE_IP ++ scope (rp_uint p)) [] [].
Definition icn_of_hashed_fqdn (hashedFqdn : Z) : IcnId := icn_of_string (scope NAMESPACE_HTTP ++ scope hashedFqdn) [] [].
Definition icn_of_address (p : RoutingPrefix) (ipAddress : Z) : IcnId :=
  icn_of_string (scope NAMESPACE_IP ++ scope (rp_uint p) ++ scope ipAddress) [] [].

Definition scopeLevels_of (s : bytes) : Z :=
  if Z.of_nat (length s) mod 16 =? 0 then u8 (Z.of_nat (length s) / 16) else u8 (Z.of_nat (length s) / 16 + 1).

Definition icn_of_fqdn (fqdn : bytes) : IcnId :=
  let h := decimal (hashString fqdn) in
  icn_of_string (scope NAMESPACE_HTTP ++ padded (Z.to_nat (scopeLevels_of h) * 16) h) fqdn [].
Definition icn_of_url (fqdn resource : bytes) : IcnId :=
  let h := decimal (hashString (fqdn ++ resource)) in
  icn_of_string (scope NAMESPACE_HTTP ++ padded (Z.to_nat (scopeLevels_of h) * 16) h) fqdn resource.
Definition icn_of_item (rootNamespace informationItem : Z) : IcnId :=
  icn_of_string (scope rootNamespace ++ scope informationItem) [] [].

(** [icnId = str]; the names of the old value stay. *)
Definition icn_assign (str : bytes) (old : IcnId) : IcnId := icn_of_string str (icn_fqdn old) (icn_resource old).
End icnid.

Definition set_forwarding (status : bool) (i : IcnId) : IcnId :=
  mkIcnId (icn_rootNamespace i) (icn_hashed i) (icn_string i) status (icn_fqdn i) (icn_resource i).

Section parts.
Context {S : Type}.

Definition icn_id (i : IcnId) : M S bytes := str_substr (icn_string i) (len (icn_string i) - 16) 16.
Definition prefixId (i : IcnId) : M S bytes := str_substr (icn_string i) 0 (len (icn_string i) - 16).
Definition rootScopeId (i : IcnId) : M S bytes := str_substr (icn_string i) 0 16.
Definition scopeId (scopeLevel : Z) (i : IcnId) : M S bytes := str_substr (icn_string i) (u32 (u32 (scopeLevel - 1) * 16)) 16.
Definition scopePath (scopeLevel : Z) (i : IcnId) : M S bytes := str_substr (icn_string i) 0 (u32 (scopeLevel * 16)).
Definition scopeLevels (i : IcnId) : Z := len (icn_string i) / 16.

Definition binIcnId (i : IcnId) : M S bytes := of_res (hex_to_chararray (icn_string i)).
Definition binId (i : IcnId) : M S bytes := s ← icn_id i; of_res (hex_to_chararray s).
Definition binPrefixId (i : IcnId) : M S bytes := s ← prefixId i; of_res (hex_to_chararray s).
Definition binRootScopeId (i : IcnId) : M S bytes := s ← rootScopeId i; of_res (hex_to_chararray s).
Definition binScopeId (scopeLevel : Z) (i : IcnId) : M S bytes := s ← scopeId scopeLevel i; of_res (hex_to_chararray s).
Definition binScopePath (scopeLevel : Z) (i : IcnId) : M S bytes := s ← scopePath scopeLevel i; of_res (hex_to_chararray s).
Definition binEmpty : M S bytes := of_res (hex_to_chararray []).

(** [length()] is the length of [binIcnId()]. *)
Definition icn_length (i : IcnId) : M S Z := b ← binIcnId i; mret (u32 (len b)).
End parts.

(** [print()]: a slash in front of every level *)
Fixpoint print_from (k : nat) (s : bytes) : bytes :=
  match s with
  | [] => []
  | c :: s => (if (k mod 16 =? 0)%nat then [47] else []) ++ c :: print_from (Datatypes.S k) s
  end.
Definition icn_print (i : IcnId) : bytes := print_from 0 (icn_string i).

(** ** Digits *)

Definition is_digit_char (c : Z) : Prop := 48 ≤ c ≤ 57.
Definition all_digits (s : bytes) : Prop := Forall is_digit_char s.

Lemma decimal_from_digits fuel n : 0 ≤ n → all_digits (decimal_from fuel n).
Proof.
  revert n. induction fuel as [|fuel IH]; intros n Hn; cbn [decimal_from]; [constructor|].
  destruct (Z.ltb_spec n 10).
  - repeat constructor; unfold is_digit_char; lia.
  - apply Forall_app. split; [apply IH; apply Z.div_pos; lia|].
    pose proof (Z.mod_pos_bound n 10). repeat constructor; unfold is_digit_char; lia.
Qed.

Lemma decimal_from_length fuel n k : 0 ≤ n < 10 ^ Z.of_nat k → (1 ≤ k ≤ fuel)%nat → (1 ≤ length (decimal_from fuel n) ≤ k)%nat.
Proof.
  revert n k. induction fuel as [|fuel IH]; intros n k Hn Hk; [lia|]. cbn [decimal_from].
  destruct (Z.ltb_spec n 10); [cbn; lia|]. rewrite length_app. cbn [length].
  destruct k as [|[|k]]; [lia|cbn in Hn; lia|].
  assert (1 ≤ length (decimal_from fuel (n / 10)) ≤ Datatypes.S k)%nat; [|lia].
  apply IH; [|lia]. split; [apply Z.div_pos; lia|]. apply Z.div_lt_upper_bound; [lia|].
  replace (10 * 10 ^ Z.of_nat (Datatypes.S k)) with (10 ^ Z.of_nat (Datatypes.S (Datatypes.S k))); [lia|].
  rewrite (Nat2Z.inj_succ (Datatypes.S k)), Z.pow_succ_r; lia.
Qed.

Lemma digits_value_app acc s t : all_digits s → digits_value acc (s ++ t) = digits_value (digits_value acc s) t.
Proof.
  intros Hs. revert acc. induction Hs as [|c s Hc Hs IH]; intros acc; [done|]. cbn [app digits_value].
  unfold is_digit_char in Hc. rewrite !(proj2 (Z.leb_le _ _)) by lia. cbn [andb]. apply IH.
Qed.

Lemma decimal_from_value fuel n : 0 ≤ n < 10 ^ Z.of_nat fuel → digits_value 0 (decimal_from fuel n) = n.
Proof.
  revert n. induction fuel as [|fuel IH]; intros n Hn; [cbn in *; lia|]. cbn [decimal_from].
  destruct (Z.ltb_spec n 10).
  - cbn [digits_value]. rewrite !(proj2 (Z.leb_le _ _)) by lia. cbn [andb]. lia.
  - rewrite Nat2Z.inj_succ, Z.pow_succ_r in Hn by lia.
    rewrite digits_value_app by (apply decimal_from_digits, Z.div_pos; lia).
    rewrite IH by (split; [apply Z.div_pos; lia|apply Z.div_lt_upper_bound; lia]).
    pose proof (Z.mod_pos_bound n 10). pose proof (Z.div_mod n 10). cbn [digits_value].
    rewrite !(proj2 (Z.leb_le _ _)) by lia. cbn [andb]. lia.
Qed.

Lemma digits_value_zeros k s : digits_value 0 (replicate k 48 ++ s) = digits_value 0 s.
Proof. induction k as [|k IH]; [done|]. cbn [replicate app digits_value]. exact IH. Qed.

(** A level of an identifier *)
Lemma scope_digits n : 0 ≤ n < 10 ^ 16 → all_digits (scope n) ∧ length (scope n) = 16%nat ∧ digits_value 0 (scope n) = n.
Proof.
  intros Hn. unfold scope, padded, decimal.
  pose proof (decimal_from_digits 20 n ltac:(lia)) as Hd. pose proof (decimal_from_length 20 n 16 Hn ltac:(lia)) as Hl.
  pose proof (decimal_from_value 20 n ltac:(cbn in *; lia)) as Hv. split_and!.
  - apply Forall_app. split; [|done]. apply Forall_replicate. unfold is_digit_char. lia.
  - rewrite length_app, length_replicate. lia.
  - by rewrite digits_value_zeros.
Qed.

Lemma scope_inj n m : 0 ≤ n < 10 ^ 16 → 0 ≤ m < 10 ^ 16 → scope n = scope m → n = m.
Proof. intros Hn Hm E. destruct (scope_digits n Hn) as (_ & _ & <-). rewrite E. apply scope_digits. done. Qed.

Lemma atoi_digits other_int s : all_digits s → digits_value 0 s < 2 ^ 31 → 0 ≤ digits_value 0 s → atoi other_int s = digits_value 0 s.
Proof.
  intros Hs Hv H0. unfold atoi. assert (skip_spaces s = s) as ->.
  { destruct Hs as [|c s Hc Hs]; [done|]. cbn [skip_spaces]. unfold is_digit_char in Hc. unfold is_space.
    by rewrite (proj2 (Z.eqb_neq c 32)), (proj2 (Z.leb_gt c 13)), andb_false_r by lia. }
  assert (match s with c :: t => if c =? 45 then - digits_value 0 t else if c =? 43 then digits_value 0 t else digits_value 0 (c :: t)
    | [] => 0 end = digits_value 0 s) as ->.
  { destruct Hs as [|c s Hc Hs]; [done|]. unfold is_digit_char in Hc.
    by rewrite (proj2 (Z.eqb_neq c 45)), (proj2 (Z.eqb_neq c 43)) by lia. }
  rewrite (proj2 (Z.leb_le _ _)), (proj2 (Z.ltb_lt _ _)) by lia. done.
Qed.

(** ** Identifiers as bytes *)

Lemma digit_of_char c : is_digit_char c → digit_of c = Some (c - 48).
Proof. intros Hc. unfold is_digit_char in Hc. unfold digit_of. by rewrite !(proj2 (Z.leb_le _ _)) by lia. Qed.

Lemma hex_digit_char c : is_digit_char c → hex_digit (c - 48) = c.
Proof. intros Hc. unfold is_digit_char in Hc. unfold hex_digit. rewrite (proj2 (Z.ltb_lt _ _)) by lia. lia. Qed.

(** Text of digits, two for a byte, goes to bytes and comes back. *)
Lemma digits_to_bytes (s : bytes) k : all_digits s → length s = (2 * k)%nat →
  ∃ b, hex_to_chararray s = Ok b ∧ chararray_to_hex b = s ∧ length b = k ∧ Forall is_byte b.
Proof.
  revert s. induction k as [|k IH]; intros s Hs Hl.
  { destruct s; [|done]. exists []. by repeat split. }
  destruct s as [|x [|y s]]; cbn in Hl; try lia. apply Forall_cons in Hs as [Hx Hs]. apply Forall_cons in Hs as [Hy Hs].
  destruct (IH s Hs ltac:(lia)) as (b & Hb & Hb' & Hlb & Hby). unfold is_digit_char in *.
  exists (16 * (x - 48) + (y - 48) :: b). cbn [hex_to_chararray]. unfold get_hex. rewrite !digit_of_char by done. rewrite Hb.
  assert (u8 (16 * (x - 48) + (y - 48)) = 16 * (x - 48) + (y - 48)) as -> by (unfold u8; apply Z.mod_small; lia).
  split_and!; [done| |cbn; lia|constructor; [unfold is_byte; lia|done]].
  unfold chararray_to_hex in *. cbn [mbind list_bind]. fold (chararray_to_hex b) in *. rewrite Hb'.
  change (x :: y :: s) with ([x; y] ++ s). f_equal. set (n := 16 * (x - 48) + (y - 48)).
  assert (n / 16 = x - 48 ∧ n mod 16 = y - 48) as [Hdiv Hmod].
  { unfold n. split; symmetry; [apply (Z.div_unique _ 16 _ (y - 48)); lia|apply (Z.mod_unique _ 16 (x - 48)); lia]. }
  unfold put_hex. destruct (Z.gtb_spec n 15).
  - rewrite (proj2 (Z.ltb_ge _ _)), Hdiv, Hmod, !hex_digit_char by (done || lia). done.
  - assert (x = 48) as -> by lia. rewrite (proj2 (Z.ltb_lt _ _)) by lia. assert (n = y - 48) as -> by lia.
    by rewrite hex_digit_char.
Qed.

Lemma hex_to_chararray_app (s t b c : bytes) k : length s = (2 * k)%nat → hex_to_chararray s = Ok b → hex_to_chararray t = Ok c →
  hex_to_chararray (s ++ t) = Ok (b ++ c).
Proof.
  revert s b. induction k as [|k IH]; intros s b Hl Hb Hc.
  { destruct s; [|done]. by injection Hb as <-. }
  destruct s as [|x [|y s]]; cbn in Hl; try lia. cbn [hex_to_chararray app] in *.
  destruct (get_hex x y) as [n|]; [|done]. destruct (hex_to_chararray s) as [b'|] eqn:E; [|done]. injection Hb as <-.
  by rewrite (IH s b' ltac:(lia) E Hc).
Qed.
