(* ===== verification/NapUTP.v ===== *)
(** * The network attachment point: the unreliable transport
    (apps/nap/transport/unreliable.cc)

    IP packets are cut into fragments that fit into one publication, each with
    a header of six bytes, and put together again at the other end. *)
From stdpp Require Import base list gmap sets.
From Stdlib Require Import ZArith Lia Bool.
From S2P Require Import Prelude Enums Containers UserLib Blocks NapTypes.

Local Open Scope Z_scope.

Definition TRANSPORT_STATE_START : Z := 0.
Definition TRANSPORT_STATE_FRAGMENT : Z := 1.
Definition TRANSPORT_STATE_FINISHED : Z := 2.
Definition TRANSPORT_STATE_SINGLE_PACKET : Z := 3.
Definition TRANSPORT_STATE_UNKNOWN : Z := 4.

Record utp_header := mkUtp { u_key : Z; u_payloadLength : Z; u_sequence : Z; u_state : Z }.

(** [sizeof(utp_header_t)] and its layout in memory *)
Definition UTP_HEADER : Z := 6.
Definition header_bytes (h : utp_header) : bytes :=
  le16 (u_key h) ++ le16 (u_payloadLength h) ++ [u8 (u_sequence h); u8 (u_state h)].
Definition read_header (b : bytes) : utp_header :=
  match b with
  | [k0; k1; l0; l1; sq; st] => mkUtp (k0 + 256 * k1) (l0 + 256 * l1) sq st
  | _ => mkUtp 0 0 0 0
  end.

(** ** Sending *)

Section publish.
Context (getpid : Z) (sendmsg_ret : list (Z * Netlink.addressed bytes) → Z) (mitu : Z).

Definition maxPayloadLength (icn_len : Z) : Z := u16 (mitu - icn_len - 20 - UTP_HEADER).

(** One packet: a header and a part of the data *)
Definition publish_packet (icnId : IcnId) (header : utp_header) (payload : bytes) : M Blackadder unit :=
  id ← binIcnId icnId;
  let packet := header_bytes header ++ payload in
  publish_data getpid sendmsg_ret id DOMAIN_LOCAL None 0 packet (length packet).

(** The loop over the fragments; [bytesSent] is a uint16_t, the sequence
    number a uint8_t. *)
Fixpoint publish_fragments (fuel : nat) (icnId : IcnId) (data : bytes) (dataSize bytesSent : Z) (header : utp_header)
    : M Blackadder unit :=
  if bytesSent <? dataSize then
    match fuel with
    | O => throw Endless
    | S fuel =>
        let header := if bytesSent + u_payloadLength header >? dataSize
          then mkUtp (u_key header) (u16 (dataSize - bytesSent)) (u_sequence header) TRANSPORT_STATE_FINISHED else header in
        let header := mkUtp (u_key header) (u_payloadLength header) (u8 (u_sequence header + 1)) (u_state header) in
        payload ← bytes_at data bytesSent (u_payloadLength header);
        _ ← publish_packet icnId header payload;
        publish_fragments fuel icnId data dataSize (u16 (bytesSent + u_payloadLength header))
          (mkUtp (u_key header) (u_payloadLength header) (u_sequence header) TRANSPORT_STATE_FRAGMENT)
    end
  else mret tt.

(** [data] is the memory from the pointer on; [random] is what rand() gives. *)
Definition utp_publish (random : Z) (icnId : IcnId) (data : bytes) (dataSize : Z) : M Blackadder unit :=
  l ← icn_length icnId;
  let max := maxPayloadLength l in
  let key := u16 (icn_hashed icnId + random) in
  if max <? dataSize then
    publish_fragments (Z.to_nat dataSize) icnId data dataSize 0 (mkUtp key max 0 TRANSPORT_STATE_START)
  else
    payload ← bytes_at data 0 dataSize;
    publish_packet icnId (mkUtp key dataSize 1 TRANSPORT_STATE_SINGLE_PACKET) payload.
End publish.

(** ** Receiving *)

(** What was received of each packet, and the packets that were sent to the
    endpoints *)
Record Reassembly := mkReas { reassemblyBuffer : gmap Z (gmap Z (utp_header * bytes)); endpoint_out : list bytes }.

Definition send_packet (p : bytes) (r : Reassembly) : Reassembly := mkReas (reassemblyBuffer r) (endpoint_out r ++ [p]).
Definition set_buffer (b : gmap Z (gmap Z (utp_header * bytes))) (r : Reassembly) : Reassembly := mkReas b (endpoint_out r).

(** The loop that looks for missing fragments: the state of the last one and
    the length of the packet *)
Fixpoint check_fragments (l : list (Z * (utp_header * bytes))) (previous finished length : Z) : option (Z * Z) :=
  match l with
  | [] => Some (finished, length)
  | (sequence, (h, _)) :: l =>
      let length := u16 (length + u_payloadLength h) in
      if previous =? 0 then
        if u_state h =? TRANSPORT_STATE_START then check_fragments l sequence finished length else None
      else if sequence =? previous + 1 then check_fragments l sequence (u_state h) length
      else None
  end.

(** The loop that copies them; the offset is the length of the fragment before. *)
Definition copy_fragments (l : list (Z * (utp_header * bytes))) (block : buffer) : M Reassembly (Z * buffer) :=
  fold_each l (λ f acc,
    let '(offset, block) := acc in
    block ← put offset (take (Z.to_nat (u_payloadLength f.2.1)) f.2.2) block;
    mret (u_payloadLength f.2.1, block)) (0, block).

Section handle.
Context (junk : nat → Z).

Definition utp_handle (data : bytes) (dataSize : Z) : M Reassembly unit :=
  hdr ← bytes_at data 0 UTP_HEADER;
  let h := read_header hdr in
  let dataSize := u16 (dataSize - UTP_HEADER) in
  if (u_state h =? TRANSPORT_STATE_START) || (u_state h =? TRANSPORT_STATE_FRAGMENT) || (u_state h =? TRANSPORT_STATE_FINISHED) then
    payload ← bytes_at data UTP_HEADER (u_payloadLength h);
    r ← get;
    let packets := add_new (u_sequence h) (h, payload) (default ∅ (reassemblyBuffer r !! u_key h)) in
    _ ← modify (set_buffer (<[u_key h := packets]> (reassemblyBuffer r)));
    match check_fragments (in_order_of packets) 0 TRANSPORT_STATE_UNKNOWN 0 with
    | Some (finished, reassembledPacketLength) =>
        if finished =? TRANSPORT_STATE_FINISHED then
          block ← alloc reassembledPacketLength;
          '(_, block) ← copy_fragments (in_order_of packets) block;
          _ ← modify (send_packet (sent_bytes junk block));
          modify (λ r, set_buffer (delete (u_key h) (reassemblyBuffer r)) r)
        else mret tt
    | None => mret tt
    end
  else if u_state h =? TRANSPORT_STATE_SINGLE_PACKET then
    payload ← bytes_at data UTP_HEADER dataSize;
    modify (send_packet payload)
  else mret tt.
End handle.
