(* ===== verification/NapUTPProps.v ===== *)
(** * The properties of the unreliable transport

    Packets of one or two fragments arrive as they were, in whatever order the
    fragments arrive.  Packets of more fragments do not, and packets whose
    length is a multiple of the length of a fragment never arrive. *)
From stdpp Require Import base list gmap sets sorting.
From Stdlib Require Import ZArith Lia Bool.
From S2P Require Import Prelude Enums Containers LocalProxy ProxyProps ProxyDelivery UserLib UserProps Blocks TMGraph TMPaths NapTypes NapUTP.

Local Open Scope Z_scope.

(** ** The fragments of a packet *)

Fixpoint chunks (fuel m : nat) (data : bytes) : list bytes :=
  match fuel with
  | O => []
  | S fuel => match data with [] => [] | _ => take m data :: chunks fuel m (drop m data) end
  end.

(** The header of the [i]-th one, from 0 on; only a short one is the last. *)
Definition fragment (key : Z) (m i : nat) (c : bytes) : bytes :=
  header_bytes (mkUtp key (len c) (Z.of_nat i + 1)
    (if (length c <? m)%nat then TRANSPORT_STATE_FINISHED
     else if (i =? 0)%nat then TRANSPORT_STATE_START else TRANSPORT_STATE_FRAGMENT)) ++ c.

Definition utp_packets (key : Z) (m : nat) (data : bytes) : list bytes :=
  if (length data <=? m)%nat then [header_bytes (mkUtp key (len data) 1 TRANSPORT_STATE_SINGLE_PACKET) ++ data]
  else imap (fragment key m) (chunks (length data) m data).

Section sending.
Context (getpid : Z) (sendmsg_ret : list (Z * Netlink.addressed bytes) → Z).

Definition utp_message (id packet : bytes) : bytes := request_message getpid (data_packet id DOMAIN_LOCAL packet).

Definition sends_all (ms : list bytes) (s : Blackadder) : Blackadder := foldl (λ s m, sent_to_node m s) s ms.

Lemma publish_packet_run icn id k h payload s : hex_to_chararray (icn_string icn) = Ok id → frags k id →
  publish_packet getpid sendmsg_ret icn h payload s = Ok (tt, sent_to_node (utp_message id (header_bytes h ++ payload)) s).
Proof.
  intros Hid Hk. unfold publish_packet. rewrite (run_bind _ _ s id s) by (unfold binIcnId; by rewrite Hid).
  cbv zeta. rewrite (publish_data_part getpid sendmsg_ret _ _ _ _ _ _ k) by done. cbn [opt_bytes app]. by rewrite firstn_all.
Qed.

Lemma header_sequence key l i st : header_bytes (mkUtp key l (u8 (u8 i + 1)) st) = header_bytes (mkUtp key l (i + 1) st).
Proof. unfold header_bytes, u8. cbn [u_key u_payloadLength u_sequence u_state]. by rewrite Zmod_mod, Zplus_mod_idemp_l. Qed.

Lemma publish_fragments_run icn id k (key : Z) (m : nat) (data rest : bytes) : hex_to_chararray (icn_string icn) = Ok id → frags k id →
  (0 < m)%nat → len data < 65536 → ∀ fuel i sent todo h s, data = sent ++ todo → (length todo ≤ fuel)%nat →
  (todo ≠ [] → h = mkUtp key (Z.of_nat m) (u8 (Z.of_nat i)) (if (i =? 0)%nat then TRANSPORT_STATE_START else TRANSPORT_STATE_FRAGMENT)) →
  publish_fragments getpid sendmsg_ret fuel icn (data ++ rest) (len data) (len sent) h s
  = Ok (tt, sends_all (utp_message id <$> imap (λ j, fragment key m (i + j)) (chunks fuel m todo)) s).
Proof.
  intros Hid Hk Hm Hlen fuel. induction fuel as [|fuel IH]; intros i sent todo h s Hd Hf Hh.
  { destruct todo; [|cbn in Hf; lia]. rewrite app_nil_r in Hd. subst. cbn [publish_fragments]. by rewrite Z.ltb_irrefl. }
  destruct todo as [|x todo'].
  { rewrite app_nil_r in Hd. subst. cbn [publish_fragments]. by rewrite Z.ltb_irrefl. }
  set (todo := x :: todo') in *. rewrite (Hh ltac:(done)). cbn [publish_fragments].
  assert (len data = len sent + len todo) as Hl by (subst data; unfold len; rewrite length_app; lia).
  assert (0 < len todo) by (unfold todo, len; cbn; lia). assert (0 ≤ len sent) by (unfold len; lia).
  rewrite (proj2 (Z.ltb_lt _ _)) by lia.
  set (c := take m todo). assert (len c = Z.min (Z.of_nat m) (len todo)) as Hc by (unfold c, len; rewrite length_take; lia).
  set (h1 := if _ >? _ then _ else _).
  assert (h1 = mkUtp key (len c) (u8 (Z.of_nat i)) (if (length c <? m)%nat then TRANSPORT_STATE_FINISHED
     else if (i =? 0)%nat then TRANSPORT_STATE_START else TRANSPORT_STATE_FRAGMENT)) as ->.
  { unfold h1. cbn [u_payloadLength u_key u_sequence]. rewrite Z.gtb_ltb. destruct (Z.ltb_spec (len data) (len sent + Z.of_nat m)).
    - rewrite (proj2 (Nat.ltb_lt _ _)) by (unfold len in *; lia). f_equal. unfold u16. rewrite Z.mod_small; lia.
    - rewrite (proj2 (Nat.ltb_ge _ _)) by (unfold len in *; lia). f_equal. lia. }
  cbn [u_payloadLength u_key u_sequence u_state].
  assert (data ++ rest = sent ++ c ++ drop m todo ++ rest) as Hsplit by (subst data; unfold c; by rewrite <-app_assoc, (app_assoc (take _ _)), take_drop).
  rewrite (run_bind _ _ s c s) by (rewrite Hsplit; by apply bytes_at_run).
  rewrite (run_bind _ _ _ _ _ (publish_packet_run icn id k _ c s Hid Hk)). rewrite header_sequence.
  assert (u16 (len sent + len c) = len (sent ++ c)) as -> by (unfold u16, len in *; rewrite length_app, Z.mod_small; lia).
  rewrite (IH (Datatypes.S i) (sent ++ c) (drop m todo)).
  - change (chunks (Datatypes.S fuel) m todo) with (c :: chunks fuel m (drop m todo)). cbn [imap fmap list_fmap].
    rewrite Nat.add_0_r. unfold sends_all. cbn [foldl]. do 4 f_equal. apply imap_ext. intros j ? _. cbn. by rewrite Nat.add_succ_r.
  - subst data. unfold c. by rewrite <-app_assoc, take_drop.
  - rewrite length_drop. unfold todo in *. cbn [length] in *. lia.
  - intros Hne. assert (length c = m) as Hcm.
    { unfold c. rewrite length_take. destruct (Nat.le_gt_cases m (length todo)); [lia|]. by rewrite drop_ge in Hne by lia. }
    f_equal; [unfold len; lia|]. unfold u8. rewrite Zplus_mod_idemp_l. f_equal. lia.
Qed.

(** An identifier of [k] levels, and the length of the fragments for it *)
Definition icn_ok (icn : IcnId) (k : nat) : Prop := all_digits (icn_string icn) ∧ length (icn_string icn) = (16 * k)%nat ∧ (k ≤ 255)%nat.

Lemma icn_binary icn k : icn_ok icn k → ∃ id, hex_to_chararray (icn_string icn) = Ok id ∧ frags k id ∧ chararray_to_hex id = icn_string icn.
Proof.
  intros (Hd & Hl & Hk). destruct (digits_to_bytes _ (8 * k) Hd ltac:(lia)) as (id & Hid & Hback & Hlen & _).
  exists id. split_and!; [done| |done]. split; [rewrite Hlen; unfold PURSUIT_ID_LEN; lia|done].
Qed.

Definition fragment_length (mitu : Z) (k : nat) : Z := mitu - 8 * Z.of_nat k - 26.

Lemma icn_length_run {S : Type} icn k (s : S) : icn_ok icn k → icn_length icn s = Ok (8 * Z.of_nat k, s).
Proof.
  intros Hok. destruct (icn_binary icn k Hok) as (id & Hid & [Hl Hk] & _). unfold icn_length.
  rewrite (run_bind _ _ s id s) by (unfold binIcnId; by rewrite Hid). unfold u32, len, PURSUIT_ID_LEN in *.
  rewrite Hl, Z.mod_small by lia. unfold mret, M_ret. do 2 f_equal. lia.
Qed.

Lemma utp_publish_run mitu random icn k id data rest s : icn_ok icn k → hex_to_chararray (icn_string icn) = Ok id →
  0 < fragment_length mitu k < 65536 → len data < 65536 →
  utp_publish getpid sendmsg_ret mitu random icn (data ++ rest) (len data) s
  = Ok (tt, sends_all (utp_message id <$> utp_packets (u16 (icn_hashed icn + random)) (Z.to_nat (fragment_length mitu k)) data) s).
Proof.
  intros Hok Hid Hm Hd. destruct (icn_binary icn k Hok) as (id' & Hid' & Hk & _). assert (id' = id) as -> by congruence.
  unfold utp_publish. rewrite (run_bind _ _ _ _ _ (icn_length_run icn k s Hok)). cbv zeta.
  assert (maxPayloadLength mitu (8 * Z.of_nat k) = fragment_length mitu k) as ->.
  { unfold maxPayloadLength, u16, UTP_HEADER. unfold fragment_length in *. rewrite Z.mod_small; lia. }
  set (m := fragment_length mitu k) in *. unfold utp_packets. destruct (Z.ltb_spec m (len data)) as [Hlt|Hle].
  - rewrite (proj2 (Nat.leb_gt _ _)) by (unfold len in *; lia).
    rewrite <-(Z2Nat.id m) at 1 by lia.
    rewrite (publish_fragments_run icn id k (u16 (icn_hashed icn + random)) (Z.to_nat m) data rest Hid Hk ltac:(lia) Hd
      (Z.to_nat (len data)) 0 [] data); [|done|unfold len; lia|done].
    unfold len. by rewrite Nat2Z.id.
  - rewrite (proj2 (Nat.leb_le _ _)) by (unfold len in *; lia).
    rewrite (run_bind _ _ s data s) by (by apply (bytes_at_run [] data rest)).
    by rewrite (publish_packet_run icn id k _ data s Hid Hk).
Qed.
End sending.

(** ** Receiving *)

Lemma le16_read z : 0 ≤ z < 65536 → ∃ a b, le16 z = [a; b] ∧ a + 256 * b = z.
Proof.
  intros Hz. exists (u8 z), (u8 (Z.shiftr z 8)). split; [done|]. unfold u8. rewrite Z.shiftr_div_pow2 by lia.
  change (2 ^ 8) with 256. rewrite (Z.mod_small (z / 256)) by (split; [apply Z.div_pos; lia|apply Z.div_lt_upper_bound; lia]).
  pose proof (Z.div_mod z 256). lia.
Qed.

Lemma read_header_bytes key l sq st : 0 ≤ key < 65536 → 0 ≤ l < 65536 →
  length (header_bytes (mkUtp key l sq st)) = 6%nat ∧ read_header (header_bytes (mkUtp key l sq st)) = mkUtp key l (u8 sq) (u8 st).
Proof.
  intros Hk Hl. unfold header_bytes. cbn [u_key u_payloadLength u_sequence u_state].
  destruct (le16_read key Hk) as (a & b & -> & <-). destruct (le16_read l Hl) as (c & d & -> & <-). done.
Qed.

Section receive.
Context (junk : nat → Z).

(** A fragment: it joins the others, and the last one that is missing sends them. *)
Definition joined (h : utp_header) (payload : bytes) (r : Reassembly) : gmap Z (utp_header * bytes) :=
  add_new (u_sequence h) (h, payload) (default ∅ (reassemblyBuffer r !! u_key h)).

Lemma utp_handle_fragment key sq st payload r : 0 ≤ key < 65536 → len payload < 65536 →
  st = TRANSPORT_STATE_START ∨ st = TRANSPORT_STATE_FRAGMENT ∨ st = TRANSPORT_STATE_FINISHED →
  let h := mkUtp key (len payload) (u8 sq) st in
  let packets := joined h payload r in
  let p := header_bytes (mkUtp key (len payload) sq st) ++ payload in
  utp_handle junk p (len p) r
  = match check_fragments (in_order_of packets) 0 TRANSPORT_STATE_UNKNOWN 0 with
    | Some (finished, n) =>
        if finished =? TRANSPORT_STATE_FINISHED then
          (block ← alloc n;
           '(_, block) ← copy_fragments (in_order_of packets) block;
           _ ← modify (send_packet (sent_bytes junk block));
           modify (λ r, set_buffer (delete key (reassemblyBuffer r)) r)) (set_buffer (<[key := packets]> (reassemblyBuffer r)) r)
        else Ok (tt, set_buffer (<[key := packets]> (reassemblyBuffer r)) r)
    | None => Ok (tt, set_buffer (<[key := packets]> (reassemblyBuffer r)) r)
    end.
Proof.
  intros Hk Hl Hst h packets p. destruct (read_header_bytes key (len payload) sq st Hk ltac:(unfold len in *; lia)) as [H6 Hr].
  unfold utp_handle, p. set (hb := header_bytes _) in *. rewrite (run_bind _ _ r hb r).
  2:{ apply (bytes_at_run [] _ payload); [done|]. unfold len. by rewrite H6. }
  rewrite Hr. assert (u8 st = st) as -> by (by destruct Hst as [->|[->| ->]]). fold h. cbv zeta.
  assert ((u_state h =? TRANSPORT_STATE_START) || (u_state h =? TRANSPORT_STATE_FRAGMENT) || (u_state h =? TRANSPORT_STATE_FINISHED) = true) as ->
    by (unfold h; cbn [u_state]; by destruct Hst as [->|[->| ->]]).
  rewrite (run_bind _ _ r payload r).
  2:{ pose proof (bytes_at_run hb payload [] UTP_HEADER (len payload) r ltac:(unfold len; by rewrite H6) eq_refl) as Hb.
      by rewrite app_nil_r in Hb. }
  rewrite (run_bind _ _ r r r) by done. fold (joined h payload r). fold packets.
  set (r1 := set_buffer _ r). rewrite (run_bind _ _ r tt r1) by done.
  destruct (check_fragments _ _ _ _) as [[fin n]|]; [|done]. by destruct (fin =? _).
Qed.

Lemma utp_handle_single key payload r : 0 ≤ key < 65536 → len payload < 65530 →
  let p := header_bytes (mkUtp key (len payload) 1 TRANSPORT_STATE_SINGLE_PACKET) ++ payload in
  utp_handle junk p (len p) r = Ok (tt, send_packet payload r).
Proof.
  intros Hk Hl p. destruct (read_header_bytes key (len payload) 1 TRANSPORT_STATE_SINGLE_PACKET Hk ltac:(unfold len in *; lia)) as [H6 Hr].
  unfold utp_handle, p. set (hb := header_bytes _) in *. rewrite (run_bind _ _ r hb r).
  2:{ apply (bytes_at_run [] _ payload); [done|]. unfold len. by rewrite H6. }
  rewrite Hr. cbv zeta. cbn [u_state]. change (u8 TRANSPORT_STATE_SINGLE_PACKET) with 3.
  cbn [Z.eqb orb Pos.eqb TRANSPORT_STATE_SINGLE_PACKET TRANSPORT_STATE_START TRANSPORT_STATE_FRAGMENT TRANSPORT_STATE_FINISHED].
  rewrite (run_bind _ _ r payload r); [done|].
  assert (u16 (len (hb ++ payload) - UTP_HEADER) = len payload) as ->.
  { unfold u16, len, UTP_HEADER in *. rewrite length_app, H6, Z.mod_small; lia. }
  pose proof (bytes_at_run hb payload [] UTP_HEADER (len payload) r ltac:(unfold len; by rewrite H6) eq_refl) as Hb.
  by rewrite app_nil_r in Hb.
Qed.

(** *** Two fragments *)
Section two.
Context (key : Z) (Hkey : 0 ≤ key < 65536) (c1 c2 : bytes) (Hc : len c1 + len c2 < 65536).

Let h1 := mkUtp key (len c1) 1 TRANSPORT_STATE_START.
Let h2 := mkUtp key (len c2) 2 TRANSPORT_STATE_FINISHED.
Let both : gmap Z (utp_header * bytes) := <[1 := (h1, c1)]> {[2 := (h2, c2)]}.

Lemma check_both : check_fragments (in_order_of both) 0 TRANSPORT_STATE_UNKNOWN 0 = Some (TRANSPORT_STATE_FINISHED, len c1 + len c2).
Proof.
  assert (in_order_of both = [(1, (h1, c1)); (2, (h2, c2))]) as -> by (vm_compute; reflexivity).
  cbn [check_fragments]. change (0 =? 0) with true. cbn [u_state h1 Z.eqb TRANSPORT_STATE_START]. change (2 =? 1 + 1) with true. cbn [u_payloadLength h1 h2 u_state].
  do 2 f_equal. unfold u16. unfold len in *. rewrite (Z.mod_small (0 + _)), Z.mod_small; lia.
Qed.

Lemma copy_both r : (block ← alloc (len c1 + len c2); '(_, block) ← copy_fragments (in_order_of both) block;
    _ ← modify (send_packet (sent_bytes junk block)); modify (λ r, set_buffer (delete key (reassemblyBuffer r)) r)) r
  = Ok (tt, set_buffer (delete key (reassemblyBuffer r)) (send_packet (c1 ++ c2) r)).
Proof.
  assert (in_order_of both = [(1, (h1, c1)); (2, (h2, c2))]) as -> by (vm_compute; reflexivity).
  rewrite (run_bind _ _ _ _ _ (alloc_run (len c1 + len c2) r ltac:(unfold len; lia))).
  destruct (exact_two c1 c2 (Z.to_nat (len c1 + len c2))) as (p1 & H1 & H2); [rewrite length_app; unfold len; lia|].
  rewrite (run_bind _ _ r (len c2, Some <$> c1 ++ c2) r).
  - rewrite (run_bind _ _ r tt (send_packet (c1 ++ c2) r)); [done|]. by rewrite sent_bytes_all.
  - unfold copy_fragments. cbn [fold_each fst snd]. unfold h1, h2. cbn [u_payloadLength].
    assert (∀ c : bytes, take (Z.to_nat (len c)) c = c) as Ht by (intros c; rewrite take_ge; [done|unfold len; lia]). rewrite !Ht.
    rewrite (run_bind _ _ r (len c1, p1) r) by (rewrite (run_bind _ _ r p1 r); [done|by apply put_run]).
    rewrite (run_bind _ _ r (len c2, Some <$> c1 ++ c2) r); [done|]. rewrite (run_bind _ _ r (Some <$> c1 ++ c2) r); [done|].
    apply put_run; [unfold len; by rewrite Nat2Z.id|unfold len; lia].
Qed.

Let P1 := header_bytes (mkUtp key (len c1) 1 TRANSPORT_STATE_START) ++ c1.
Let P2 := header_bytes (mkUtp key (len c2) 2 TRANSPORT_STATE_FINISHED) ++ c2.

Lemma two_fragments r ps : reassemblyBuffer r !! key = None → ps ≡ₚ [P1; P2] →
  for_each ps (λ p, utp_handle junk p (len p)) r = Ok (tt, send_packet (c1 ++ c2) r).
Proof using All.
  intros Hr Hps. assert (0 ≤ len c1) by (unfold len; lia). assert (0 ≤ len c2) by (unfold len; lia).
  assert (∀ m : gmap Z (gmap Z (utp_header * bytes)), m !! key = None → ∀ x y, delete key (<[key := x]> (<[key := y]> m)) = m) as Hdel.
  { intros m Hm x y. by rewrite insert_insert_eq, delete_insert_id. }
  assert (joined h2 c2 (set_buffer (<[key := {[1 := (h1, c1)]}]> (reassemblyBuffer r)) r) = both ∧
          joined h1 c1 (set_buffer (<[key := {[2 := (h2, c2)]}]> (reassemblyBuffer r)) r) = both) as [E2 E1].
  { unfold joined, set_buffer. cbn [reassemblyBuffer u_key h1 h2]. rewrite !lookup_insert_eq. cbn [default from_option id u_sequence].
    unfold add_new, both. split; [|by vm_compute]. rewrite lookup_singleton_ne by done. by rewrite <-insert_empty, insert_insert_ne, insert_empty. }
  symmetry in Hps. apply Permutation_length_2_inv in Hps as [-> | ->]; cbn [for_each].
  - rewrite (run_bind _ _ r tt (set_buffer (<[key := {[1 := (h1, c1)]}]> (reassemblyBuffer r)) r)).
    2:{ unfold P1. rewrite utp_handle_fragment by (auto || lia). change (u8 1) with 1. fold h1. unfold joined. cbn [u_key h1]. rewrite Hr. by vm_compute. }
    erewrite run_bind; [reflexivity|]. unfold P2. rewrite utp_handle_fragment by (auto || lia). change (u8 2) with 2. fold h2. rewrite E2, check_both.
    cbn [Z.eqb TRANSPORT_STATE_FINISHED Pos.eqb]. rewrite copy_both. unfold send_packet, set_buffer. cbn [reassemblyBuffer endpoint_out]. by rewrite Hdel.
  - rewrite (run_bind _ _ r tt (set_buffer (<[key := {[2 := (h2, c2)]}]> (reassemblyBuffer r)) r)).
    2:{ unfold P2. rewrite utp_handle_fragment by (auto || lia). change (u8 2) with 2. fold h2. unfold joined. cbn [u_key h2]. rewrite Hr. by vm_compute. }
    erewrite run_bind; [reflexivity|]. unfold P1. rewrite utp_handle_fragment by (auto || lia). change (u8 1) with 1. fold h1. rewrite E1, check_both.
    cbn [Z.eqb TRANSPORT_STATE_FINISHED Pos.eqb]. rewrite copy_both. unfold send_packet, set_buffer. cbn [reassemblyBuffer endpoint_out]. by rewrite Hdel.
Qed.
End two.
End receive.

(** *** Any number of fragments *)

Lemma in_order_of_list {A : Type} (L : list (Z * A)) : NoDup L.*1 → StronglySorted key_le L.*1 → in_order_of (list_to_map L : gmap Z A) = L.
Proof.
  intros Hnd Hs. unfold in_order_of. rewrite (key_order_of L.*1).
  - assert (∀ L', (∀ e, e ∈ L' → e ∈ L) → omap (λ k, pair k <$> (list_to_map L : gmap Z A) !! k) L'.*1 = L') as Hgen.
    { induction L' as [|[k a] L' IH]; intros Hin; [done|]. cbn.
      assert ((list_to_map L : gmap Z A) !! k = Some a) as -> by (apply elem_of_list_to_map; [done|apply Hin; left]).
      cbn. f_equal. apply IH. intros e He. apply Hin. by right. }
    by apply Hgen.
  - done.
  - done.
  - intros k. by rewrite dom_list_to_map_L, elem_of_list_to_set.
Qed.

Section many.
Context (junk : nat → Z) (key : Z) (Hkey : 0 ≤ key < 65536) (m : nat) (Hm : (0 < m)%nat).

Definition state_of (i : nat) (c : bytes) : Z :=
  if (length c <? m)%nat then TRANSPORT_STATE_FINISHED
  else if (i =? 0)%nat then TRANSPORT_STATE_START else TRANSPORT_STATE_FRAGMENT.

Definition entry_of (i : nat) (c : bytes) : Z * (utp_header * bytes) :=
  (Z.of_nat i + 1, (mkUtp key (len c) (Z.of_nat i + 1) (state_of i c), c)).
Definition entries (i : nat) (cs : list bytes) : list (Z * (utp_header * bytes)) := imap (λ j, entry_of (i + j)) cs.

Lemma entries_cons i c cs : entries i (c :: cs) = entry_of i c :: entries (Datatypes.S i) cs.
Proof.
  unfold entries. cbn [imap]. rewrite Nat.add_0_r. f_equal. apply imap_ext. intros j ? _. cbn. by rewrite Nat.add_succ_r.
Qed.

Lemma entries_app i cs cs' : entries i (cs ++ cs') = entries i cs ++ entries (i + length cs) cs'.
Proof.
  revert i. induction cs as [|c cs IH]; intros i; cbn [app length]; [by rewrite Nat.add_0_r|].
  rewrite !entries_cons, IH. cbn [app]. by rewrite Nat.add_succ_r.
Qed.

Lemma entries_keys i cs : (entries i cs).*1 = (λ j, Z.of_nat j + 1) <$> seq i (length cs).
Proof. revert i. induction cs as [|c cs IH]; intros i; [done|]. rewrite entries_cons. cbn. f_equal. apply IH. Qed.

Lemma entries_order i cs : in_order_of (list_to_map (entries i cs) : gmap Z _) = entries i cs.
Proof.
  apply in_order_of_list; rewrite entries_keys.
  - apply NoDup_fmap_2; [intros ???; lia|apply NoDup_seq].
  - generalize (length cs). intros n. revert i. induction n as [|n IH]; intros i; cbn; constructor; [apply IH|].
    apply Forall_forall. intros k (j & -> & Hj%elem_of_seq)%list_elem_of_fmap. unfold key_le. cbn. apply Z.leb_le. lia.
Qed.

(** No fragment is missing: the loop gets to the end. *)
Lemma check_entries i cs fin n : (1 ≤ i)%nat → n + len (concat cs) < 65536 → 0 ≤ n →
  check_fragments (entries i cs) (Z.of_nat i) fin n
  = Some (default fin (state_of (i + length cs - 1) <$> last cs), n + len (concat cs)).
Proof.
  revert i fin n. induction cs as [|c cs IH]; intros i fin n Hi Hn H0.
  { cbn. change (len []) with 0. by rewrite Z.add_0_r. }
  rewrite entries_cons. cbn [check_fragments entry_of]. cbn [concat] in Hn. unfold len in Hn. rewrite length_app in Hn.
  rewrite (proj2 (Z.eqb_neq _ _)), Z.eqb_refl by lia. cbn [u_payloadLength u_state].
  assert (u16 (n + len c) = n + len c) as -> by (unfold u16, len; apply Z.mod_small; lia).
  replace (Z.of_nat i + 1) with (Z.of_nat (Datatypes.S i)) by lia. rewrite IH by (unfold len; lia). cbn [concat length].
  f_equal. f_equal; [|unfold len; rewrite length_app; lia]. destruct cs as [|c' cs].
  - cbn. do 2 f_equal. lia.
  - rewrite last_cons_cons. destruct (last (c' :: cs)) eqn:E; [|by apply last_None in E]. cbn. f_equal. lia.
Qed.

Lemma check_first c cs : length c = m → len c + len (concat cs) < 65536 →
  check_fragments (entries 0 (c :: cs)) 0 TRANSPORT_STATE_UNKNOWN 0
  = Some (default TRANSPORT_STATE_UNKNOWN (state_of (length cs) <$> last cs), len c + len (concat cs)).
Proof.
  intros Hc Hn. rewrite entries_cons. cbn [check_fragments entry_of]. change (0 =? 0) with true. cbn iota. cbn [u_state u_payloadLength].
  unfold state_of at 1. rewrite (proj2 (Nat.ltb_ge _ _)) by lia. cbn [Nat.eqb]. rewrite Z.eqb_refl. cbn iota.
  assert (u16 (0 + len c) = len c) as -> by (unfold u16, len in *; rewrite Z.mod_small; lia).
  change (Z.of_nat 0 + 1) with (Z.of_nat 1). rewrite check_entries by (unfold len in *; lia).
  by replace (1 + length cs - 1)%nat with (length cs) by lia.
Qed.

(** The fragments of a packet, given its parts *)
Lemma chunks_parts (cs : list bytes) (c : bytes) fuel : Forall (λ x, length x = m) cs → (length c < m)%nat →
  (length (concat cs ++ c) ≤ fuel)%nat → chunks fuel m (concat cs ++ c) = cs ++ (if decide (c = []) then [] else [c]).
Proof using Hm.
  intros Hcs Hc. revert fuel. induction Hcs as [|x cs Hx Hcs IH]; intros fuel Hf.
  - cbn [concat app] in *. destruct c as [|z c]; [by destruct fuel|]. destruct fuel; [cbn in Hf; lia|]. cbn [chunks].
    rewrite decide_False by done. rewrite take_ge, drop_ge by (cbn in *; lia). by destruct fuel.
  - cbn [concat] in *. rewrite <-app_assoc in *. set (rest := concat cs ++ c) in *.
    rewrite length_app in Hf. destruct fuel as [|fuel]; [lia|]. cbn [chunks].
    destruct (x ++ rest) eqn:E; [by destruct x; cbn in *; [lia|]|]. rewrite <-E.
    rewrite take_app_length', drop_app_length', IH by (done || lia). done.
Qed.

(** Fragment number [i] after those before it *)
Definition with_parts (cs : list bytes) (r : Reassembly) : Reassembly :=
  set_buffer (<[key := list_to_map (entries 0 cs)]> (reassemblyBuffer r)) r.

Lemma joined_parts cs c r : (cs = [] → reassemblyBuffer r !! key = None) →
  joined (entry_of (length cs) c).2.1 c (if decide (cs = []) then r else with_parts cs r) = list_to_map (entries 0 (cs ++ [c])).
Proof.
  intros Hr. rewrite entries_app. cbn [Nat.add]. change (entries (length cs) [c]) with [entry_of (length cs + 0) c]. rewrite Nat.add_0_r.
  unfold entry_of. rewrite list_to_map_snoc.
  2:{ rewrite entries_keys. intros (j & Hj & Hin%elem_of_seq)%list_elem_of_fmap. cbn in Hj. lia. }
  unfold joined. cbn [fst snd u_sequence u_key].
  assert (default ∅ (reassemblyBuffer (if decide (cs = []) then r else with_parts cs r) !! key) = list_to_map (entries 0 cs)) as ->.
  { case_decide as E; [rewrite E, Hr by done; done|]. unfold with_parts, set_buffer. cbn [reassemblyBuffer]. by rewrite lookup_insert_eq. }
  unfold add_new. assert ((list_to_map (entries 0 cs) : gmap Z (utp_header * bytes)) !! (Z.of_nat (length cs) + 1) = None) as ->; [|done].
  apply not_elem_of_list_to_map_1. rewrite entries_keys. intros (j & Hj & Hin%elem_of_seq)%list_elem_of_fmap. lia.
Qed.

(** A full fragment is kept. *)
Lemma keep_fragment cs c r : Forall (λ x, length x = m) (cs ++ [c]) → (length cs < 255)%nat → len (concat (cs ++ [c])) < 65536 →
  (cs = [] → reassemblyBuffer r !! key = None) →
  let p := fragment key m (length cs) c in
  utp_handle junk p (len p) (if decide (cs = []) then r else with_parts cs r) = Ok (tt, with_parts (cs ++ [c]) r).
Proof using Hkey Hm.
  intros Hfull Hn Hlen Hr p. pose proof (joined_parts cs c r Hr) as Hj. cbn [entry_of fst snd] in Hj.
  assert (length c = m) as Hc by (apply Forall_app in Hfull as [_ Hc]; by apply Forall_cons in Hc as [? _]).
  assert (len c < 65536) as Hcl.
  { rewrite concat_app in Hlen. cbn [concat] in Hlen. rewrite app_nil_r in Hlen. unfold len in *. rewrite length_app in Hlen. lia. }
  unfold p, fragment. fold (state_of (length cs) c). rewrite utp_handle_fragment; [|done|done|].
  2:{ unfold state_of. rewrite (proj2 (Nat.ltb_ge _ _)) by lia. destruct (length cs =? 0)%nat; auto. }
  assert (u8 (Z.of_nat (length cs) + 1) = Z.of_nat (length cs) + 1) as -> by (unfold u8; apply Z.mod_small; lia).
  rewrite Hj, entries_order. destruct (cs ++ [c]) as [|c0 cs'] eqn:E; [by destruct cs|].
  assert (length cs' = length cs) as Hl by (apply (f_equal length) in E; rewrite length_app in E; cbn in E; lia).
  apply Forall_cons in Hfull as [Hc0 Hcs']. cbn [concat] in Hlen. rewrite check_first by (done || (unfold len in *; rewrite length_app in Hlen; lia)).
  assert (default TRANSPORT_STATE_UNKNOWN (state_of (length cs') <$> last cs') =? TRANSPORT_STATE_FINISHED = false) as ->.
  { destruct (last cs') as [c'|] eqn:El; [|done]. cbn. unfold state_of. apply last_Some in El as [cs'' ->].
    apply Forall_app in Hcs' as [_ Hc']. apply Forall_cons in Hc' as [Hc' _]. rewrite (proj2 (Nat.ltb_ge _ _)) by lia.
    by destruct (_ =? 0)%nat. }
  unfold with_parts. rewrite <-E. case_decide; [done|]. unfold set_buffer. cbn [reassemblyBuffer endpoint_out]. by rewrite insert_insert_eq.
Qed.

(** All of the full fragments, in order *)
Lemma keep_fragments cs todo r : Forall (λ x, length x = m) (cs ++ todo) → (length (cs ++ todo) ≤ 255)%nat →
  len (concat (cs ++ todo)) < 65536 → (cs = [] → reassemblyBuffer r !! key = None) → (todo ≠ [] ∨ cs ≠ []) →
  for_each (imap (λ j, fragment key m (length cs + j)) todo) (λ p, utp_handle junk p (len p))
    (if decide (cs = []) then r else with_parts cs r) = Ok (tt, with_parts (cs ++ todo) r).
Proof using Hkey Hm.
  revert cs. induction todo as [|c todo IH]; intros cs Hfull Hn Hlen Hr Hne.
  { rewrite app_nil_r. rewrite decide_False by (by destruct Hne). done. }
  cbn [imap for_each]. rewrite Nat.add_0_r. rewrite (run_bind _ _ _ tt (with_parts (cs ++ [c]) r)).
  - specialize (IH (cs ++ [c])). rewrite <-app_assoc in IH. cbn [app] in IH.
    rewrite decide_False in IH by (by destruct cs). rewrite <-IH; [|done..|by destruct cs|right; by destruct cs].
    f_equal. apply imap_ext. intros j ? _. rewrite length_app. cbn [length compose]. f_equal. lia.
  - rewrite length_app in Hn. cbn [length] in Hn. apply keep_fragment; [|lia| |done].
    + rewrite Forall_app in *. destruct Hfull as [? Hf]. apply Forall_cons in Hf as [? _]. split; [done|by constructor].
    + rewrite concat_app in Hlen |- *. cbn [concat] in *. rewrite app_nil_r. unfold len in *. rewrite !length_app in *. lia.
Qed.

(** Every fragment but the first is written to the same place. *)
Lemma overlay (A X T : buffer) (c : bytes) {S : Type} (s : S) : length A = m → (length c ≤ length X)%nat →
  put (Z.of_nat m) c (A ++ X ++ T) s = Ok (A ++ ((Some <$> c) ++ drop (length c) X) ++ T, s).
Proof.
  intros HA Hc. apply put_run; [|lia]. rewrite Nat2Z.id. unfold memcpy. rewrite decide_True by (rewrite !length_app; lia).
  rewrite take_app_length' by done. rewrite <-drop_drop, drop_app_length' by done. rewrite drop_app_le by done. by rewrite <-!app_assoc.
Qed.

Lemma copy_over i ds (A X T : buffer) r : Forall (λ x, length x = m) ds → length A = m → length X = m →
  ∃ X', length X' = m ∧ (∀ d, last ds = Some d → X' = Some <$> d) ∧
  fold_each (entries i ds) (λ f acc, let '(offset, block) := acc in
    block ← put offset (take (Z.to_nat (u_payloadLength f.2.1)) f.2.2) block; mret (u_payloadLength f.2.1, block))
    (Z.of_nat m, A ++ X ++ T) r = Ok ((Z.of_nat m, A ++ X' ++ T) : Z * buffer, r : Reassembly).
Proof.
  intros Hds HA. revert i X. induction Hds as [|d ds Hd Hds IH]; intros i X HX.
  { exists X. by split_and!. }
  destruct (IH (Datatypes.S i) (Some <$> d) ltac:(by rewrite length_fmap)) as (X' & HX' & Hlast & Hrun).
  exists X'. split_and!; [done| |].
  - intros d'. rewrite last_cons. destruct (last ds) as [d''|] eqn:E; cbn; intros [= <-]; [by apply Hlast|].
    apply last_None in E. subst. cbn in Hrun. injection Hrun as Hrun. by apply app_inv_head, app_inv_tail in Hrun.
  - rewrite entries_cons. cbn [fold_each entry_of fst snd u_payloadLength].
    rewrite (run_bind _ _ r (Z.of_nat m, A ++ (Some <$> d) ++ T) r); [done|].
    rewrite take_ge by (unfold len; lia).
    rewrite (run_bind _ _ _ _ _ (overlay A X T d r HA ltac:(lia))). rewrite drop_ge, app_nil_r by lia. unfold len. by rewrite Hd.
Qed.

(** What is sent to the endpoint: the first fragment, the last one over the one
    before it, and whatever the memory held behind that. *)
Definition garbled (c0 prev c : bytes) (n : nat) : bytes :=
  c0 ++ c ++ drop (length c) prev ++ (junk <$> seq (2 * m) (n - 2 * m)).

Lemma sent_partly (A : bytes) k : sent_bytes junk ((Some <$> A) ++ replicate k None) = A ++ (junk <$> seq (length A) k).
Proof.
  apply list_eq. intros i. unfold sent_bytes. rewrite list_lookup_imap. destruct (Nat.lt_ge_cases i (length A)).
  - rewrite !lookup_app_l by (by rewrite ?length_fmap). rewrite list_lookup_fmap. by destruct (A !! i).
  - rewrite !lookup_app_r by (by rewrite ?length_fmap). rewrite length_fmap, list_lookup_fmap.
    destruct (Nat.lt_ge_cases (i - length A) k).
    + rewrite lookup_replicate_2, lookup_seq_lt by done. cbn. do 2 f_equal. lia.
    + rewrite (lookup_ge_None_2 (replicate _ _)) by (by rewrite length_replicate). by rewrite lookup_seq_ge.
Qed.

Lemma copy_parts c0 ds prev c r : Forall (λ x, length x = m) (c0 :: ds ++ [prev]) → (length c < m)%nat →
  let n := (length (concat (c0 :: ds ++ [prev])) + length c)%nat in
  ∃ o block, copy_fragments (entries 0 (c0 :: ds ++ [prev; c])) (make_packet n) r = Ok ((o, block), r) ∧
    sent_bytes junk block = garbled c0 prev c n.
Proof using Hm.
  intros Hfull Hc n. apply Forall_cons in Hfull as [H0 Hfull]. assert (length prev = m) as Hp.
  { apply Forall_app in Hfull as [_ Hp]. by apply Forall_cons in Hp as [? _]. }
  assert (2 * m + length c ≤ n)%nat as Hn.
  { unfold n. cbn [concat]. rewrite concat_app. cbn [concat]. rewrite !length_app. cbn [length]. lia. }
  set (T := replicate (n - 2 * m) None : buffer). set (X := replicate m None : buffer).
  assert (memcpy (make_packet n) 0 c0 = Ok ((Some <$> c0) ++ X ++ T)) as Hfirst.
  { unfold memcpy, make_packet. rewrite decide_True by (rewrite length_replicate; lia). rewrite take_0, drop_replicate. cbn [app]. f_equal. f_equal.
    unfold X, T. rewrite <-replicate_add. f_equal. lia. }
  unfold copy_fragments. replace (c0 :: ds ++ [prev; c]) with (c0 :: (ds ++ [prev]) ++ [c]) by (by rewrite <-app_assoc).
  rewrite entries_cons, entries_app. cbn [fold_each entry_of fst snd u_payloadLength].
  rewrite (run_bind _ _ r (Z.of_nat m, (Some <$> c0) ++ X ++ T) r).
  2:{ rewrite take_ge by (unfold len; lia). rewrite (run_bind _ _ r ((Some <$> c0) ++ X ++ T) r) by (by apply put_run). unfold len. by rewrite H0. }
  destruct (copy_over 1 (ds ++ [prev]) (Some <$> c0) X T r Hfull ltac:(by rewrite length_fmap) ltac:(by unfold X; rewrite length_replicate))
    as (X' & HX' & Hlast & Hrun). rewrite (Hlast prev) in * by (by rewrite last_snoc).
  eexists _, _. split.
  - rewrite (fold_each_app _ _ _ _ _ _ Hrun). set (k := (1 + length (ds ++ [prev]))%nat).
    change (entries k [c]) with [entry_of (k + 0) c]. cbn [fold_each entry_of fst snd u_payloadLength].
    rewrite take_ge by (unfold len; lia).
    erewrite run_bind; [reflexivity|]. rewrite (run_bind _ _ _ _ _ (overlay (Some <$> c0) (Some <$> prev) T c r ltac:(by rewrite length_fmap) ltac:(rewrite length_fmap; lia))). reflexivity.
  - unfold T. rewrite <-fmap_drop, <-!fmap_app, app_assoc, <-fmap_app, sent_partly. unfold garbled.
    assert (length (c0 ++ c ++ drop (length c) prev) = 2 * m)%nat as -> by (rewrite !length_app, length_drop; lia). by rewrite <-!app_assoc.
Qed.
(** The last fragment *)
Lemma finish_fragments c0 ds prev c r : let cs := c0 :: ds ++ [prev] in
  Forall (λ x, length x = m) cs → (0 < length c < m)%nat → len (concat cs ++ c) < 65536 → (length ds ≤ 252)%nat →
  reassemblyBuffer r !! key = None →
  let p := fragment key m (length cs) c in
  utp_handle junk p (len p) (with_parts cs r) = Ok (tt, send_packet (garbled c0 prev c (length (concat cs ++ c))) r).
Proof using Hkey Hm.
  intros cs Hfull Hl Hlen Hmid Hr p. pose proof (joined_parts cs c r ltac:(by unfold cs)) as Hj.
  rewrite decide_False in Hj by (by unfold cs). cbn [entry_of fst snd] in Hj. set (data := concat cs ++ c) in *.
  assert (length cs = 2 + length ds)%nat as Hcs by (unfold cs; cbn; rewrite length_app; cbn; lia).
  assert (state_of (length cs) c = TRANSPORT_STATE_FINISHED) as Est by (unfold state_of; by rewrite (proj2 (Nat.ltb_lt _ _)) by lia).
  unfold p, fragment. fold (state_of (length cs) c).
  rewrite utp_handle_fragment; [|done|unfold data, len in *; rewrite length_app in Hlen; lia|rewrite Est; auto].
  assert (u8 (Z.of_nat (length cs) + 1) = Z.of_nat (length cs) + 1) as -> by (unfold u8; apply Z.mod_small; lia).
  rewrite Hj, entries_order. unfold cs at 1 2. cbn [app]. rewrite <-app_assoc. cbn [app].
  assert (len c0 + len (concat (ds ++ [prev; c])) = len data) as En.
  { unfold data, cs. cbn [concat]. rewrite !concat_app. cbn [concat]. unfold len. rewrite !length_app. cbn [length]. lia. }
  rewrite check_first; [|unfold cs in Hfull; by apply Forall_cons in Hfull as [? _]|by rewrite En]. rewrite En.
  replace (length (ds ++ [prev; c])) with (length cs) by (rewrite Hcs, length_app; cbn; lia).
  assert (last (ds ++ [prev; c]) = Some c) as -> by (change [prev; c] with ([prev] ++ [c]); by rewrite app_assoc, last_snoc).
  cbn [fmap option_fmap option_map default from_option]. rewrite Est. cbn [Z.eqb TRANSPORT_STATE_FINISHED Pos.eqb].
  rewrite (run_bind _ _ _ _ _ (alloc_run (len data) _ ltac:(unfold len; lia))). set (r1 := set_buffer _ _).
  destruct (copy_parts c0 ds prev c r1 Hfull ltac:(lia)) as (o & block & Hcopy & Hsent).
  assert (length (concat (c0 :: ds ++ [prev])) + length c = length data)%nat as Hnn by (unfold data, cs; by rewrite length_app).
  rewrite Hnn in Hcopy, Hsent. unfold len at 1. rewrite Nat2Z.id, (run_bind _ _ _ _ _ Hcopy). cbn beta iota.
  rewrite (run_bind _ _ r1 tt (send_packet (sent_bytes junk block) r1)) by done. rewrite Hsent.
  unfold modify, r1, send_packet, with_parts, set_buffer. cbn [reassemblyBuffer endpoint_out]. by rewrite insert_insert_eq, delete_insert_id.
Qed.
End many.

Lemma for_each_app {S A : Type} (l1 l2 : list A) (body : A → M S unit) (s s' : S) :
  for_each l1 body s = Ok (tt, s') → for_each (l1 ++ l2) body s = for_each l2 body s'.
Proof.
  revert s. induction l1 as [|a l1 IH]; intros s; [by intros [= ->]|]. cbn [for_each app]. unfold mbind, M_bind.
  destruct (body a s) as [[[] s1]|]; [apply IH|done].
Qed.

(** ** A packet without a last fragment *)

Lemma check_finished l prev fin n f k : check_fragments l prev fin n = Some (f, k) → f = fin ∨ ∃ e, e ∈ l ∧ f = u_state e.2.1.
Proof.
  revert prev fin n. induction l as [|[sq [h c]] l IH]; intros prev fin n; cbn [check_fragments]; [intros [= <- _]; by left|].
  destruct (prev =? 0); [destruct (u_state h =? _); [|done]|destruct (sq =? _); [|done]]; intros Hc; apply IH in Hc as [->|(e & He & ->)].
  - by left.
  - right. exists e. split; [by right|done].
  - right. eexists. split; [left|done].
  - right. exists e. split; [by right|done].
Qed.

Definition unfinished (key : Z) (r : Reassembly) : Prop :=
  map_Forall (λ _ f, u_state f.1 ≠ TRANSPORT_STATE_FINISHED) (default ∅ (reassemblyBuffer r !! key)).

Lemma unfinished_step junk key sq st payload r : 0 ≤ key < 65536 → len payload < 65536 →
  st = TRANSPORT_STATE_START ∨ st = TRANSPORT_STATE_FRAGMENT → unfinished key r →
  let p := header_bytes (mkUtp key (len payload) sq st) ++ payload in
  ∃ r', utp_handle junk p (len p) r = Ok (tt, r') ∧ unfinished key r' ∧ endpoint_out r' = endpoint_out r.
Proof.
  intros Hk Hl Hst Hu p. unfold p. rewrite utp_handle_fragment by (tauto || done).
  set (h := mkUtp key _ _ st). set (packets := joined h payload r). set (r' := set_buffer _ r).
  assert (map_Forall (λ _ f, u_state f.1 ≠ TRANSPORT_STATE_FINISHED) packets) as Hp.
  { unfold packets, joined, add_new. cbn [u_key h]. destruct (default ∅ _ !! _); [done|]. apply map_Forall_insert_2; [|done].
    unfold h. cbn [fst u_state]. by destruct Hst as [->| ->]. }
  exists r'. split; [|split; [|done]].
  - destruct (check_fragments _ _ _ _) as [[f n]|] eqn:E; [|done]. rewrite (proj2 (Z.eqb_neq _ _)); [done|].
    apply check_finished in E as [->|([k e] & He & ->)]; [done|]. apply elem_of_in_order_of in He. by apply (Hp k).
  - unfold unfinished, r', set_buffer. cbn [reassemblyBuffer]. by rewrite lookup_insert_eq.
Qed.

(** ** What arrives *)

Definition utp_key (icn : IcnId) (random : Z) : Z := u16 (icn_hashed icn + random).

Lemma utp_key_range icn random : 0 ≤ utp_key icn random < 65536.
Proof. unfold utp_key, u16. apply Z.mod_pos_bound. lia. Qed.

(** Addresses make identifiers of three levels. *)
Lemma icn_of_address_ok other_int p a : 0 ≤ rp_uint p < 2 ^ 32 → 0 ≤ a < 2 ^ 32 → icn_ok (icn_of_address other_int p a) 3.
Proof.
  intros Hp Ha. unfold icn_of_address, icn_of_string, icn_ok. cbn [icn_string].
  destruct (scope_digits NAMESPACE_IP ltac:(unfold NAMESPACE_IP; lia)) as (D0 & L0 & _).
  destruct (scope_digits (rp_uint p) ltac:(lia)) as (D1 & L1 & _). destruct (scope_digits a ltac:(lia)) as (D2 & L2 & _).
  split_and!; [unfold all_digits; by rewrite !Forall_app|by rewrite !length_app, L0, L1, L2|lia].
Qed.

(** The fragments of a packet that is shorter than two of them arrive in any
    order: exactly this packet is sent to the endpoint, once. *)
Lemma utp_packets_arrive (junk : nat → Z) (key m : Z) (data : bytes) (r : Reassembly) (arrivals : list bytes) :
  0 ≤ key < 65536 → 0 < m < 1300 → len data < 2 * m → reassemblyBuffer r !! key = None →
  arrivals ≡ₚ utp_packets key (Z.to_nat m) data →
  for_each arrivals (λ p, utp_handle junk p (len p)) r = Ok (tt, send_packet data r).
Proof.
  intros Hkey Hm Hd Hr. unfold utp_packets. destruct (Nat.leb_spec (length data) (Z.to_nat m)) as [Hle|Hgt].
  - intros ->%Permutation_singleton_r. cbn [for_each]. rewrite (run_bind _ _ r tt (send_packet data r)); [done|].
    apply utp_handle_single; [done|unfold len in *; lia].
  - set (c1 := take (Z.to_nat m) data). set (c2 := drop (Z.to_nat m) data).
    assert (length c1 = Z.to_nat m) as H1 by (unfold c1; rewrite length_take; lia).
    assert (0 < length c2 < Z.to_nat m)%nat as H2 by (unfold c2; rewrite length_drop; unfold len in *; lia).
    assert (data = concat [c1] ++ c2) as Hdata by (cbn; by rewrite app_nil_r; unfold c1, c2; rewrite take_drop).
    rewrite Hdata at 1 2. rewrite (chunks_parts (Z.to_nat m) ltac:(lia) [c1] c2); [|by constructor|lia|rewrite <-Hdata; lia].
    rewrite decide_False by (intros E; rewrite E in H2; cbn in H2; lia). cbn [app imap compose]. unfold fragment.
    rewrite H1, (proj2 (Nat.ltb_ge _ _)), (proj2 (Nat.ltb_lt (length c2) _)) by lia. cbn [Nat.eqb]. intros Harr.
    rewrite <-(take_drop (Z.to_nat m) data). apply (two_fragments junk key); [done| |done|exact Harr].
    fold c1 c2. unfold len in *. lia.
Qed.

Lemma chunks_short fuel m data c : c ∈ chunks fuel m data → (length c ≤ m)%nat.
Proof.
  revert data. induction fuel as [|fuel IH]; intros data; cbn [chunks]; [by intros ?%elem_of_nil|].
  destruct data; [by intros ?%elem_of_nil|]. intros [->|Hc]%elem_of_cons; [rewrite length_take; lia|by eapply IH].
Qed.

Lemma utp_packets_short key m data p : p ∈ utp_packets key m data → (length p ≤ 6 + m)%nat.
Proof.
  unfold utp_packets. destruct (Nat.leb_spec (length data) m) as [Hle|_].
  - intros ->%list_elem_of_singleton. rewrite length_app. cbn. lia.
  - intros (i & c & -> & Hc)%elem_of_lookup_imap. apply list_elem_of_lookup_2, chunks_short in Hc. unfold fragment. rewrite length_app. cbn. lia.
Qed.

(** An identifier, and fragments of three bytes *)
Definition some_address : IcnId := icn_of_address (λ _, 0) (mkPrefix 10 255 10) 16777226.

Lemma some_address_ok : icn_ok some_address 3.
Proof. apply icn_of_address_ok; cbn; lia. Qed.

(** C36. A packet of exactly two or more full fragments never arrives: no
    publication of it is marked as the last one.  (A packet of exactly one
    fragment is published as a single packet and arrives, C34.)  Whatever part
    of the publications arrives, in whatever order and however often, at an
    attachment point that has nothing stored under the random key of the
    packet, nothing is sent to the endpoint. *)
Theorem utp_multiple_never_arrives (getpid : Z) (sendmsg_ret : list (Z * Netlink.addressed bytes) → Z) (junk : nat → Z) (mitu random : Z)
    (icn : IcnId) (k : nat) (parts : list bytes) (rest : bytes) (s : Blackadder) (r : Reassembly) :
  icn_ok icn k → 0 < fragment_length mitu k < 65536 →
  Forall (λ c, len c = fragment_length mitu k) parts → (2 ≤ length parts)%nat → len (concat parts) < 65536 →
  reassemblyBuffer r !! utp_key icn random = None →
  ∃ id packets, hex_to_chararray (icn_string icn) = Ok id ∧
    utp_publish getpid sendmsg_ret mitu random icn (concat parts ++ rest) (len (concat parts)) s
      = Ok (tt, sends_all (utp_message getpid id <$> packets) s) ∧
    ∀ arrivals, (∀ p, p ∈ arrivals → p ∈ packets) → ∃ r',
      for_each arrivals (λ p, utp_handle junk p (len p)) r = Ok (tt, r') ∧ endpoint_out r' = endpoint_out r.
Proof.
  intros Hok Hm Hparts Htwo Hlen Hr. destruct (icn_binary icn k Hok) as (id & Hid & _ & Hback). pose proof (utp_key_range icn random) as Hkey.
  exists id, (utp_packets (utp_key icn random) (Z.to_nat (fragment_length mitu k)) (concat parts)).
  split_and!; [done|apply (utp_publish_run getpid sendmsg_ret mitu random icn k); done|].
  set (m := Z.to_nat (fragment_length mitu k)). assert (Forall (λ c, length c = m) parts) as Hfull.
  { eapply Forall_impl; [exact Hparts|]. intros c Hc. unfold len in Hc. unfold m. lia. }
  assert (2 * m ≤ length (concat parts))%nat as Hlong.
  { destruct Hfull as [|c1 l Hc1 Hfull]; [cbn in Htwo; lia|]. destruct Hfull as [|c2 l Hc2 Hfull]; [cbn in Htwo; lia|]. cbn. rewrite !length_app. lia. }
  unfold utp_packets. rewrite (proj2 (Nat.leb_gt _ _)) by lia.
  pose proof (chunks_parts m ltac:(lia) parts [] (length (concat parts)) Hfull ltac:(cbn; lia)) as Hch. rewrite !app_nil_r in Hch. rewrite Hch by lia.
  intros arrivals Hin. cut (wp no_fault (for_each arrivals (λ p, utp_handle junk p (len p)))
    (λ _ r', unfinished (utp_key icn random) r' ∧ endpoint_out r' = endpoint_out r) r).
  { intros (? & r' & Hrun & _ & Hout)%wp_total. destruct x. by exists r'. }
  apply wp_for_each_inv; [split; [|done]; unfold unfinished; by rewrite Hr|]. intros p r1 Hp [Hu Hout].
  apply Hin, elem_of_lookup_imap in Hp as (i & c & -> & Hc). apply list_elem_of_lookup_2 in Hc. assert (length c = m) as Hcm by (by eapply Forall_forall in Hfull).
  unfold fragment. rewrite (proj2 (Nat.ltb_ge _ _)) by lia.
  destruct (unfinished_step junk (utp_key icn random) (Z.of_nat i + 1) (if (i =? 0)%nat then TRANSPORT_STATE_START else TRANSPORT_STATE_FRAGMENT) c r1)
    as (r2 & Hrun & Hu2 & Hout2); [done|unfold len; lia|destruct (i =? 0)%nat; auto|done|].
  eapply wp_of_run; [exact Hrun|]. split; [done|congruence].
Qed.

Lemma utp_multiple_never_arrives_witness : ∃ id packets, hex_to_chararray (icn_string some_address) = Ok id ∧
  utp_publish 7 (λ _, 0) 53 1 some_address [1; 2; 3; 4; 5; 6] 6 (mkBA 3 9999 []) = Ok (tt, sends_all (utp_message 7 id <$> packets) (mkBA 3 9999 [])) ∧
  ∃ r', for_each packets (λ p, utp_handle (λ _, 0) p (len p)) (mkReas ∅ []) = Ok (tt, r') ∧ endpoint_out r' = [].
Proof.
  destruct (utp_multiple_never_arrives 7 (λ _, 0) (λ _, 0) 53 1 some_address 3 [[1; 2; 3]; [4; 5; 6]] [] (mkBA 3 9999 []) (mkReas ∅ []))
    as (id & packets & Hid & Hsent & Harr).
  - apply some_address_ok.
  - split; reflexivity.
  - constructor; [reflexivity|]. constructor; [reflexivity|constructor].
  - cbn. lia.
  - reflexivity.
  - apply lookup_empty.
  - exists id, packets. split; [exact Hid|]. split; [exact Hsent|]. destruct (Harr packets) as (r' & Hr & Ho); [by intros|].
    exists r'. split; [exact Hr|exact Ho].
Defined.

(** A packet of three fragments or more does not arrive as it was, even if
    all its publications arrive in order: every fragment behind the first one is
    copied to the place of the second.  What is sent to the endpoint has the
    right length; it starts with the first fragment, then comes the last one,
    then what the last but one has behind that, and the rest is memory that was
    never written. *)
Theorem utp_third_fragment_garbles (getpid : Z) (sendmsg_ret : list (Z * Netlink.addressed bytes) → Z) (junk : nat → Z) (mitu random : Z)
    (icn : IcnId) (k : nat) (first : bytes) (middle : list bytes) (previous final rest : bytes) (s : Blackadder) (r : Reassembly) :
  let m := fragment_length mitu k in
  let data := concat (first :: middle ++ [previous]) ++ final in
  icn_ok icn k → 0 < m < 65536 → Forall (λ c, len c = m) (first :: middle ++ [previous]) → 0 < len final < m → len data < 65536 →
  (length middle ≤ 252)%nat → reassemblyBuffer r !! utp_key icn random = None →
  ∃ id packets, hex_to_chararray (icn_string icn) = Ok id ∧
    utp_publish getpid sendmsg_ret mitu random icn (data ++ rest) (len data) s
      = Ok (tt, sends_all (utp_message getpid id <$> packets) s) ∧
    for_each packets (λ p, utp_handle junk p (len p)) r
      = Ok (tt, send_packet (garbled junk (Z.to_nat m) first previous final (length data)) r).
Proof.
  intros m data Hok Hm Hparts Hlast Hlen Hmid Hr. destruct (icn_binary icn k Hok) as (id & Hid & _ & Hback). pose proof (utp_key_range icn random) as Hkey.
  set (key := utp_key icn random) in *. exists id, (utp_packets key (Z.to_nat m) data).
  split_and!; [done|apply (utp_publish_run getpid sendmsg_ret mitu random icn k); done|].
  set (mn := Z.to_nat m) in *. set (cs := first :: middle ++ [previous]) in *.
  assert (Forall (λ c, length c = mn) cs) as Hfull by (eapply Forall_impl; [exact Hparts|]; intros c Hc; unfold len in Hc; unfold mn; lia).
  assert (length cs = 2 + length middle)%nat as Hcs by (unfold cs; cbn; rewrite length_app; cbn; lia).
  assert (0 < length final < mn)%nat as Hl by (unfold len, mn in *; lia).
  assert (mn ≤ length (concat cs))%nat as Hlong.
  { unfold cs in *. cbn. apply Forall_cons in Hfull as [Hf _]. rewrite length_app. lia. }
  unfold utp_packets. rewrite (proj2 (Nat.leb_gt _ _)) by (unfold data; rewrite length_app; lia).
  unfold data at 2. rewrite (chunks_parts mn ltac:(lia) cs final) by (done || lia).
  rewrite decide_False by (intros ->; cbn in Hl; lia). rewrite imap_app.
  pose proof (keep_fragments junk key Hkey mn ltac:(lia) [] cs r Hfull ltac:(cbn [app]; lia)
    ltac:(cbn [app]; unfold data, len in *; rewrite length_app in Hlen; lia) ltac:(done) ltac:(left; by unfold cs)) as Hkeep.
  rewrite decide_True in Hkeep by done. cbn [app length Nat.add] in Hkeep. rewrite (for_each_app _ _ _ _ _ Hkeep).
  cbn [imap for_each]. unfold compose. rewrite Nat.add_0_r.
  by rewrite (run_bind _ _ _ _ _ (finish_fragments junk key Hkey mn ltac:(lia) first middle previous final r Hfull Hl Hlen Hmid Hr)).
Qed.

Lemma utp_third_fragment_garbles_witness : ∃ id packets, hex_to_chararray (icn_string some_address) = Ok id ∧
  utp_publish 7 (λ _, 0) 53 1 some_address [1; 2; 3; 4; 5; 6; 7] 7 (mkBA 3 9999 []) = Ok (tt, sends_all (utp_message 7 id <$> packets) (mkBA 3 9999 [])) ∧
  for_each packets (λ p, utp_handle (λ _, 99) p (len p)) (mkReas ∅ []) = Ok (tt, mkReas ∅ [[1; 2; 3; 7; 5; 6; 99]]).
Proof.
  destruct (utp_third_fragment_garbles 7 (λ _, 0) (λ _, 99) 53 1 some_address 3 [1; 2; 3] [] [4; 5; 6] [7] [] (mkBA 3 9999 []) (mkReas ∅ []))
    as (id & packets & Hid & Hsent & Harr).
  - apply some_address_ok.
  - split; reflexivity.
  - constructor; [reflexivity|]. constructor; [reflexivity|constructor].
  - split; reflexivity.
  - reflexivity.
  - cbn. lia.
  - apply lookup_empty.
  - exists id, packets. split; [exact Hid|]. split; [exact Hsent|exact Harr].
Defined.
