(* ===== verification/NapIP.v ===== *)
(** * The network attachment point: IP over ICN (apps/nap/namespaces/ip.cc,
    apps/nap/icn.cc, apps/nap/namespaces/buffercleaners/ipbuffercleaner.cc)

    A packet for an address is published under the identifier of the address.
    Until the rendezvous point has told that somebody subscribes to it, the
    last packet waits in a buffer.  [rand] and [clock] are what rand() and the
    clock give; [seconds] is boost's time_duration::seconds. *)
From stdpp Require Import base list gmap sets.
From Stdlib Require Import ZArith Lia Bool.
From S2P Require Import Prelude Enums Containers UserLib Blocks NapTypes NapUTP.

Local Open Scope Z_scope.

(** The size of a packet is the length of its bytes. *)
Record packet_t := mkPacket { pk_packet : bytes; pk_timestamp : Z }.

Record NapIp := mkNap {
  routingPrefixes : gmap Z RoutingPrefix;
  icnIds : gmap Z IcnId;
  packetBuffer : gmap Z (IcnId * packet_t);
  nap_ba : Blackadder;
  nap_reassembly : Reassembly;
  nap_rands : nat;
  nap_ticks : nat;
}.

Definition set_icnIds (x : gmap Z IcnId) (s : NapIp) : NapIp :=
  mkNap (routingPrefixes s) x (packetBuffer s) (nap_ba s) (nap_reassembly s) (nap_rands s) (nap_ticks s).
Definition set_packetBuffer (x : gmap Z (IcnId * packet_t)) (s : NapIp) : NapIp :=
  mkNap (routingPrefixes s) (icnIds s) x (nap_ba s) (nap_reassembly s) (nap_rands s) (nap_ticks s).

Definition on_nap_ba {A : Type} (m : M Blackadder A) : M NapIp A := λ s,
  match m (nap_ba s) with
  | Ok (a, b) => Ok (a, mkNap (routingPrefixes s) (icnIds s) (packetBuffer s) b (nap_reassembly s) (nap_rands s) (nap_ticks s))
  | Fault e => Fault e
  end.
Definition on_reassembly {A : Type} (m : M Reassembly A) : M NapIp A := λ s,
  match m (nap_reassembly s) with
  | Ok (a, r) => Ok (a, mkNap (routingPrefixes s) (icnIds s) (packetBuffer s) (nap_ba s) r (nap_rands s) (nap_ticks s))
  | Fault e => Fault e
  end.

Section ip.
Context (other_int : bytes → Z) (getpid : Z) (sendmsg_ret : list (Z * Netlink.addressed bytes) → Z) (mitu : Z).
Context (rand clock : nat → Z) (junk : nat → Z).

Definition next_rand : M NapIp Z := λ s, Ok (rand (nap_rands s),
  mkNap (routingPrefixes s) (icnIds s) (packetBuffer s) (nap_ba s) (nap_reassembly s) (Datatypes.S (nap_rands s)) (nap_ticks s)).
Definition local_time : M NapIp Z := λ s, Ok (clock (nap_ticks s),
  mkNap (routingPrefixes s) (icnIds s) (packetBuffer s) (nap_ba s) (nap_reassembly s) (nap_rands s) (Datatypes.S (nap_ticks s))).

Definition unreliable_publish (cid : IcnId) (packet : bytes) (packetSize : Z) : M NapIp unit :=
  random ← next_rand;
  on_nap_ba (utp_publish getpid sendmsg_ret mitu random cid packet packetSize).

(** ** Routing prefixes *)

(** The prefixes from the last one on; a map is ordered by its keys. *)
Fixpoint first_match (ipAddress : Z) (l : list (Z * RoutingPrefix)) : option RoutingPrefix :=
  match l with
  | [] => None
  | (_, p) :: l => if Z.land ipAddress (rp_netmask p) =? rp_uint p then Some p else first_match ipAddress l
  end.
Definition routingPrefix_of (ipAddress : Z) (prefixes : gmap Z RoutingPrefix) : option RoutingPrefix :=
  first_match ipAddress (reverse (in_order_of prefixes)).

(** ** The buffer *)

Definition bufferPacket (cid : IcnId) (packet : bytes) (packetSize : Z) : M NapIp unit :=
  content ← bytes_at packet 0 packetSize;
  t ← local_time;
  s ← get;
  match packetBuffer s !! icn_hashed cid with
  | None => modify (set_packetBuffer (<[icn_hashed cid := (cid, mkPacket content t)]> (packetBuffer s)))
  | Some (old, _) => modify (set_packetBuffer (<[icn_hashed cid := (old, mkPacket content t)]> (packetBuffer s)))
  end.

Definition deleteBufferedPacket (cid : IcnId) : M NapIp unit :=
  modify (λ s, set_packetBuffer (delete (icn_hashed cid) (packetBuffer s)) s).

Definition ip_publishFromBuffer (cid : IcnId) : M NapIp unit :=
  s ← get;
  match packetBuffer s !! icn_hashed cid with
  | None => mret tt
  | Some (_, p) =>
      _ ← unreliable_publish cid (pk_packet p) (len (pk_packet p));
      deleteBufferedPacket cid
  end.

(** One round of the cleaner.  It starts again from the beginning after every
    packet that it deletes; [order] is the order of the hash table. *)
Section cleaner.
Context (order : gmap Z (IcnId * packet_t) → list Z) (seconds : Z → Z) (bufferCleanerInterval : Z).

Definition too_old (now : Z) (p : packet_t) : bool := u32 (seconds (now - pk_timestamp p)) >? bufferCleanerInterval.

Definition first_old (now : Z) (b : gmap Z (IcnId * packet_t)) : option Z :=
  List.find (λ k, match b !! k with Some (_, p) => too_old now p | None => false end) (order b).

Fixpoint clean (fuel : nat) (now : Z) (b : gmap Z (IcnId * packet_t)) : option (gmap Z (IcnId * packet_t)) :=
  match first_old now b with
  | None => Some b
  | Some k => match fuel with O => None | S fuel => clean fuel now (delete k b) end
  end.

Definition cleaner_round : M NapIp unit :=
  now ← local_time;
  s ← get;
  match clean (size (packetBuffer s)) now (packetBuffer s) with
  | Some b => modify (set_packetBuffer b)
  | None => throw Endless
  end.
End cleaner.

(** ** Packets of the endpoints *)

Definition advertise (cid : IcnId) : M NapIp unit :=
  id ← binId cid;
  prefix ← binPrefixId cid;
  on_nap_ba (publish_info getpid sendmsg_ret id prefix DOMAIN_LOCAL None 0).

Definition ip_handle (destination : Z) (packet : bytes) (packetSize : Z) : M NapIp unit :=
  s ← get;
  match routingPrefix_of destination (routingPrefixes s) with
  | None => mret tt
  | Some prefix =>
      let cid := icn_of_address other_int prefix destination in
      match icnIds s !! icn_hashed cid with
      | None =>
          _ ← modify (λ s, set_icnIds (<[icn_hashed cid := cid]> (icnIds s)) s);
          _ ← bufferPacket cid packet packetSize;
          advertise cid
      | Some known =>
          if icn_forwarding known then unreliable_publish cid packet packetSize
          else
            _ ← bufferPacket cid packet packetSize;
            advertise cid
      end
  end.

(** ** Subscriptions *)

Definition add_icnId (icnId : IcnId) : M NapIp unit :=
  modify (λ s, set_icnIds (add_new (icn_hashed icnId) icnId (icnIds s)) s).

Definition subscribeInfo (icnId : IcnId) : M NapIp unit :=
  _ ← add_icnId icnId;
  id ← binId icnId;
  prefix ← binPrefixId icnId;
  on_nap_ba (subscribe_info getpid sendmsg_ret id prefix DOMAIN_LOCAL None 0).

Definition ip_subscribeScope (icnId : IcnId) : M NapIp unit :=
  _ ← add_icnId icnId;
  id ← binId icnId;
  prefix ← binPrefixId icnId;
  on_nap_ba (subscribe_scope getpid sendmsg_ret id prefix DOMAIN_LOCAL None 0).

Definition ip_forwarding (cid : IcnId) (state : bool) : M NapIp unit :=
  modify (λ s, match icnIds s !! icn_hashed cid with
               | None => s
               | Some i => set_icnIds (<[icn_hashed cid := set_forwarding state i]> (icnIds s)) s
               end).

(** ** Start and end *)

Section configuration.
Context (hostBasedNap : bool) (hostRoutingPrefix : RoutingPrefix) (endpointIpAddress : Z) (hostRoutingPrefixes : gmap Z RoutingPrefix).

Definition own_icnId : IcnId :=
  if hostBasedNap then icn_of_address other_int hostRoutingPrefix endpointIpAddress else icn_of_prefix other_int hostRoutingPrefix.

Definition ip_initialise : M NapIp unit :=
  _ ← modify (λ s, mkNap hostRoutingPrefixes (icnIds s) (packetBuffer s) (nap_ba s) (nap_reassembly s) (nap_rands s) (nap_ticks s));
  let icnId := own_icnId in
  root ← binRootScopeId icnId;
  empty ← binEmpty;
  _ ← on_nap_ba (publish_scope getpid sendmsg_ret root empty DOMAIN_LOCAL None 0);
  scope2 ← binScopeId 2 icnId;
  path1 ← binScopePath 1 icnId;
  _ ← on_nap_ba (publish_scope getpid sendmsg_ret scope2 path1 DOMAIN_LOCAL None 0);
  _ ← (if hostBasedNap then
         scope3 ← binScopeId 3 icnId;
         path2 ← binScopePath 2 icnId;
         on_nap_ba (publish_scope getpid sendmsg_ret scope3 path2 DOMAIN_LOCAL None 0)
       else mret tt);
  id ← binId icnId;
  prefix ← binPrefixId icnId;
  _ ← on_nap_ba (subscribe_scope getpid sendmsg_ret id prefix DOMAIN_LOCAL None 0);
  add_icnId icnId.

Definition ip_uninitialise : M NapIp unit :=
  let icnId := own_icnId in
  id ← binId icnId;
  prefix ← binPrefixId icnId;
  if hostBasedNap then on_nap_ba (unsubscribe_info getpid sendmsg_ret id prefix DOMAIN_LOCAL None 0)
  else on_nap_ba (unsubscribe_scope getpid sendmsg_ret id prefix DOMAIN_LOCAL None 0).
End configuration.

(** ** The listener, for identifiers of the IP namespace *)

Definition ip_transport_handle (data : bytes) (data_len : Z) : M NapIp unit :=
  on_reassembly (utp_handle junk data (u16 data_len)).

Definition ip_event (type : Z) (id data : bytes) (data_len : Z) : M NapIp unit :=
  let icnId := icn_assign other_int (chararray_to_hex id) no_icnid in
  if icn_rootNamespace icnId =? NAMESPACE_IP then
    if type =? SCOPE_PUBLISHED then ip_subscribeScope icnId
    else if type =? START_PUBLISH then
      _ ← ip_forwarding icnId true;
      ip_publishFromBuffer icnId
    else if (type =? STOP_PUBLISH) || (type =? PAUSE_PUBLISH) then ip_forwarding icnId false
    else if type =? PUBLISHED_DATA then ip_transport_handle data data_len
    else mret tt
  else mret tt.
End ip.
