(* ===== verification/NapIPProps.v ===== *)
(** * The properties of IP over ICN

    The prefix that is found is a longest one; for every destination the
    attachment point behaves as a valve with room for one packet ([Flow]);
    what one attachment point publishes another sends to the endpoint. *)
From stdpp Require Import base list gmap sets sorting.
From Stdlib Require Import ZArith Lia Bool.
From S2P Require Import Prelude Enums Containers LocalProxy ProxyProps ProxyDelivery UserLib UserProps Blocks TMCache RMProps NapTypes NapUTP NapUTPProps NapIP.

Local Open Scope Z_scope.

(** ** Routing prefixes *)

(** Prefixes as the configuration stores them; netmasks are nested. *)
Definition matches (a : Z) (p : RoutingPrefix) : Prop := Z.land a (rp_netmask p) = rp_uint p.
Record prefixes_ok (m : gmap Z RoutingPrefix) : Prop := mkPrefixesOk {
  prefix_key : ∀ k p, m !! k = Some p → k = rp_uint p ∧ 0 ≤ rp_uint p < 2 ^ 32;
  prefix_nested : ∀ k p k' q, m !! k = Some p → m !! k' = Some q →
    Z.land (rp_netmask p) (rp_netmask q) = rp_netmask p ∨ Z.land (rp_netmask p) (rp_netmask q) = rp_netmask q;
}.

Lemma first_match_spec a l : match first_match a l with
  | Some p => ∃ k l1 l2, l = l1 ++ (k, p) :: l2 ∧ matches a p ∧ Forall (λ e, ¬ matches a e.2) l1
  | None => Forall (λ e, ¬ matches a e.2) l
  end.
Proof.
  induction l as [|[k p] l IH]; cbn [first_match]; [constructor|].
  destruct (Z.eqb_spec (Z.land a (rp_netmask p)) (rp_uint p)) as [E|E].
  - by exists k, [], l.
  - destruct (first_match a l) as [q|]; [|by constructor]. destruct IH as (k' & l1 & l2 & -> & Hm & Hf).
    exists k', ((k, p) :: l1), l2. split_and!; [done|done|by constructor].
Qed.

Lemma land_le a b : 0 ≤ a → Z.land a b ≤ a.
Proof.
  intros Ha. assert (Z.ldiff (Z.land a b) a = 0) as H0.
  { apply Z.bits_inj'. intros n Hn. rewrite Z.ldiff_spec, Z.land_spec, Z.bits_0. by destruct (Z.testbit a n), (Z.testbit b n). }
  pose proof (Z.sub_nocarry_ldiff a (Z.land a b) H0). pose proof (proj2 (Z.ldiff_nonneg a (Z.land a b)) (or_introl Ha)). lia.
Qed.

(** Keys fall from the last entry of a map to the first. *)
Lemma later_keys (m : gmap Z RoutingPrefix) l1 k p l2 k' q : reverse (in_order_of m) = l1 ++ (k, p) :: l2 → (k', q) ∈ l2 → k' < k.
Proof.
  intros Hl Hin. assert (in_order_of m = reverse l2 ++ (k, p) :: reverse l1) as Hr.
  { by rewrite <-(reverse_involutive (in_order_of m)), Hl, reverse_app, reverse_cons, <-app_assoc. }
  pose proof (key_order_sorted (dom m : gset Z)) as Hs. pose proof (NoDup_key_order (dom m : gset Z)) as Hnd.
  rewrite <-(in_order_keys m), Hr in Hs, Hnd. rewrite fmap_app in Hs, Hnd. cbn in Hs, Hnd.
  assert (k' ∈ (reverse l2).*1) as Hk' by (apply list_elem_of_fmap; exists (k', q); by rewrite elem_of_reverse).
  assert (key_le k' k) as Hle by (eapply StronglySorted_app_1_elem_of; [exact Hs|done|left]).
  unfold key_le in Hle. cbn in Hle. apply Z.leb_le in Hle. apply NoDup_app in Hnd as (_ & Hd & _).
  specialize (Hd k' Hk'). destruct (decide (k' = k)) as [->|]; [|lia]. destruct Hd. left.
Qed.

(** C35. The loop over the routing prefixes, from the last key on, finds a longest
    match: if any prefix matches the address one is found, and the netmask of
    every other match is contained in the netmask of the one that is found.
    This holds for the order of the keys, which are addresses in network byte
    order read as numbers of the host, because a prefix is never greater than
    the prefixes inside it. *)
Theorem longest_prefix_found (m : gmap Z RoutingPrefix) (a : Z) : prefixes_ok m →
  match routingPrefix_of a m with
  | Some p => (∃ k, m !! k = Some p) ∧ matches a p ∧
      ∀ k q, m !! k = Some q → matches a q → Z.land (rp_netmask q) (rp_netmask p) = rp_netmask q
  | None => ∀ k q, m !! k = Some q → ¬ matches a q
  end.
Proof.
  intros Hok. unfold routingPrefix_of. pose proof (first_match_spec a (reverse (in_order_of m))) as Hf.
  assert (∀ k q, (k, q) ∈ reverse (in_order_of m) ↔ m !! k = Some q) as Hel by (intros k q; by rewrite elem_of_reverse, elem_of_in_order_of).
  destruct (first_match _ _) as [p|].
  - destruct Hf as (k & l1 & l2 & Hl & Hm & Hno). assert (m !! k = Some p) as Hk by (apply Hel; rewrite Hl; set_solver).
    split_and!; [by exists k|done|]. intros k' q Hq Hmq.
    destruct (prefix_nested m Hok _ _ _ _ Hk Hq) as [Hpq|Hpq]; [|by rewrite Z.land_comm].
    assert ((k', q) ∈ l1 ++ (k, p) :: l2) as Hin by (rewrite <-Hl; by apply Hel).
    apply elem_of_app in Hin as [Hin|[Hin|Hin]%elem_of_cons].
    + rewrite Forall_forall in Hno. by destruct (Hno _ Hin).
    + injection Hin as -> ->. apply Z.land_diag.
    + apply (later_keys m _ _ _ _ _ _ Hl) in Hin. destruct (prefix_key m Hok _ _ Hk) as [-> _]. destruct (prefix_key m Hok _ _ Hq) as [-> Hr].
      exfalso. unfold matches in *. rewrite <-Hm, <-Hpq, (Z.land_comm (rp_netmask p)), Z.land_assoc, Hmq in Hin.
      pose proof (land_le (rp_uint q) (rp_netmask p) ltac:(lia)). lia.
  - intros k q Hq. rewrite Forall_forall in Hf. apply (Hf (k, q)). by apply Hel.
Qed.

(** Three nested prefixes: 10.0.0.0/8, 10.128.0.0/9 and everything *)
Definition some_prefixes : gmap Z RoutingPrefix :=
  list_to_map ((λ p, (rp_uint p, p)) <$> [mkPrefix 10 255 10; mkPrefix 32778 33023 32778; mkPrefix 0 0 0]).

Lemma longest_prefix_found_witness : prefixes_ok some_prefixes ∧
  routingPrefix_of 16810506 some_prefixes = Some (mkPrefix 32778 33023 32778) ∧ Z.land 255 33023 = 255.
Proof.
  assert (prefixes_ok some_prefixes) as Hok.
  { assert (map_Forall (λ k p, k = rp_uint p ∧ (0 <=? rp_uint p) && (rp_uint p <? 2 ^ 32) = true ∧
      map_Forall (λ _ q, Z.land (rp_netmask p) (rp_netmask q) = rp_netmask p ∨ Z.land (rp_netmask p) (rp_netmask q) = rp_netmask q) some_prefixes) some_prefixes) as Hall.
    { apply (bool_decide_unpack _). vm_compute. exact I. }
    constructor.
    - intros k p Hp. destruct (Hall k p Hp) as (-> & Hr & _). lia.
    - intros k p k' q Hp Hq. destruct (Hall k p Hp) as (_ & _ & Hn). by apply (Hn k'). }
  pose proof (longest_prefix_found some_prefixes 16810506 Hok) as Hl.
  assert (routingPrefix_of 16810506 some_prefixes = Some (mkPrefix 32778 33023 32778)) as E by (vm_compute; reflexivity).
  rewrite E in Hl. destruct Hl as (_ & _ & Hl). split; [exact Hok|]. split; [exact E|].
  apply (Hl 10 (mkPrefix 10 255 10)); vm_compute; reflexivity.
Defined.

(** ** Flows

    What the attachment point promises for a destination: while the flow is
    closed the last packet is held and the destination is advertised; when it
    is opened the held packet is sent; while it is open packets are sent. *)
Record Flow := mkFlow { f_known : bool; f_open : bool; f_held : option bytes }.

Definition no_flow : Flow := mkFlow false false None.

Inductive input := Packet (d : Z) (p : bytes) | Started (d : Z) | Stopped (d : Z) | Paused (d : Z).
Inductive output := Advertise (d : Z) | Send (d : Z) (p : bytes).

Definition flow_step (i : input) (f : Flow) : Flow * list output :=
  match i with
  | Packet d p => if f_open f then (f, [Send d p]) else (mkFlow true false (Some p), [Advertise d])
  | Started d =>
      if f_known f then (mkFlow true true None, match f_held f with Some p => [Send d p] | None => [] end) else (f, [])
  | Stopped _ | Paused _ => (mkFlow (f_known f) false (f_held f), [])
  end.

Definition destination (i : input) : Z := match i with Packet d _ => d | Started d => d | Stopped d => d | Paused d => d end.

Definition flows_step (i : input) (fs : gmap Z Flow) : gmap Z Flow * list output :=
  let '(f, out) := flow_step i (default no_flow (fs !! destination i)) in (<[destination i := f]> fs, out).

Fixpoint flows_run (ins : list input) (fs : gmap Z Flow) : gmap Z Flow * list output :=
  match ins with
  | [] => (fs, [])
  | i :: ins => let '(fs, out) := flows_step i fs in let '(fs, out') := flows_run ins fs in (fs, out ++ out')
  end.

Section flows.
Context (other_int : bytes → Z) (getpid : Z) (sendmsg_ret : list (Z * Netlink.addressed bytes) → Z) (mitu : Z).
Context (rand clock junk : nat → Z) (prefixes : gmap Z RoutingPrefix).

(** The identifier of a destination *)
Definition cid_of (d : Z) : IcnId := icn_of_address other_int (default (mkPrefix 0 0 0) (routingPrefix_of d prefixes)) d.
Definition bin_of (s : bytes) : bytes := match hex_to_chararray s with Ok b => b | Fault _ => [] end.

(** Destinations that can be served: they have a prefix, and their identifiers
    have hashes of their own. *)
Record destinations_ok (D : gset Z) : Prop := mkDest {
  dest_routed : ∀ d, d ∈ D → ∃ p, routingPrefix_of d prefixes = Some p ∧ 0 ≤ rp_uint p < 2 ^ 32 ∧ 0 ≤ d < 2 ^ 32;
  dest_hashes : ∀ d d', d ∈ D → d' ∈ D → icn_hashed (cid_of d) = icn_hashed (cid_of d') → d = d';
}.

(** One input: a packet of an endpoint, or an event of the node *)
Definition do_input (i : input) : M NapIp unit :=
  match i with
  | Packet d p => ip_handle other_int getpid sendmsg_ret mitu rand clock d p (len p)
  | Started d => ip_event other_int getpid sendmsg_ret mitu rand junk START_PUBLISH (bin_of (icn_string (cid_of d))) [] 0
  | Stopped d => ip_event other_int getpid sendmsg_ret mitu rand junk STOP_PUBLISH (bin_of (icn_string (cid_of d))) [] 0
  | Paused d => ip_event other_int getpid sendmsg_ret mitu rand junk PAUSE_PUBLISH (bin_of (icn_string (cid_of d))) [] 0
  end.

(** The messages to the node for an output *)
Definition advertisement (d : Z) : bytes :=
  let s := icn_string (cid_of d) in
  request_message getpid (local_request PUBLISH_INFO (bin_of (drop 32 s)) (bin_of (take 32 s)) DOMAIN_LOCAL).
Definition datagrams (random d : Z) (p : bytes) : list bytes :=
  utp_message getpid (bin_of (icn_string (cid_of d))) <$>
    utp_packets (utp_key (cid_of d) random) (Z.to_nat (fragment_length mitu 3)) p.

Fixpoint render (n : nat) (out : list output) : list bytes :=
  match out with
  | [] => []
  | Advertise d :: out => advertisement d :: render n out
  | Send d p :: out => datagrams (rand n) d p ++ render (Datatypes.S n) out
  end.
Fixpoint sends_of (out : list output) : nat :=
  match out with [] => 0 | Advertise _ :: out => sends_of out | Send _ _ :: out => Datatypes.S (sends_of out) end.

(** The state of the attachment point stands for the flows. *)
Definition flow_state (f : Flow) (known : option IcnId) (held : option (IcnId * packet_t)) : Prop :=
  f_known f = bool_decide (is_Some known) ∧ f_open f = default false (icn_forwarding <$> known) ∧
  f_held f = (pk_packet ∘ snd) <$> held ∧ (f_known f = false → f_held f = None) ∧
  match f_held f with Some p => len p < 65536 | None => True end.

Record stands_for (D : gset Z) (fs : gmap Z Flow) (s : NapIp) : Prop := mkStands {
  st_prefixes : routingPrefixes s = prefixes;
  st_flows : ∀ d, d ∈ D → flow_state (default no_flow (fs !! d)) (icnIds s !! icn_hashed (cid_of d)) (packetBuffer s !! icn_hashed (cid_of d));
}.

(** *** The identifiers of the destinations *)
Section dests.
Context (D : gset Z) (HD : destinations_ok D).

Lemma dest_string d : d ∈ D → ∃ p, routingPrefix_of d prefixes = Some p ∧ cid_of d = icn_of_address other_int p d ∧ icn_ok (cid_of d) 3.
Proof.
  intros Hd. destruct (dest_routed D HD d Hd) as (p & Hp & Hpr & Hr). exists p. unfold cid_of. rewrite Hp.
  split_and!; [done|done|by apply icn_of_address_ok].
Qed.

Lemma dest_binary d : d ∈ D → ∃ id, hex_to_chararray (icn_string (cid_of d)) = Ok id ∧ bin_of (icn_string (cid_of d)) = id.
Proof.
  intros (p & _ & _ & Hok)%dest_string. destruct (icn_binary _ _ Hok) as (id & Hid & _). exists id. split; [done|].
  unfold bin_of. by rewrite Hid.
Qed.

Lemma dest_assign d : d ∈ D → icn_assign other_int (chararray_to_hex (bin_of (icn_string (cid_of d)))) no_icnid = cid_of d.
Proof.
  intros Hd. destruct (dest_string d Hd) as (p & _ & Hc & Hok). destruct (icn_binary _ _ Hok) as (id & Hid & _ & Hback).
  unfold bin_of. rewrite Hid, Hback, Hc. done.
Qed.

Lemma dest_namespace d : icn_rootNamespace (cid_of d) = NAMESPACE_IP.
Proof.
  destruct (scope_digits NAMESPACE_IP ltac:(unfold NAMESPACE_IP; lia)) as (D0 & L0 & V0).
  unfold cid_of, icn_of_address, icn_of_string. cbn [icn_rootNamespace]. rewrite <-L0, take_app_length, atoi_digits, V0; done || (rewrite V0; done).
Qed.

(** *** The actions *)

Definition with_ba (b : Blackadder) (s : NapIp) : NapIp :=
  mkNap (routingPrefixes s) (icnIds s) (packetBuffer s) b (nap_reassembly s) (nap_rands s) (nap_ticks s).

Lemma advertise_run d s : d ∈ D → advertise getpid sendmsg_ret (cid_of d) s = Ok (tt, with_ba (sent_to_node (advertisement d) (nap_ba s)) s).
Proof.
  intros (p & _ & _ & Hdig & Hlen & _)%dest_string. set (str := icn_string (cid_of d)) in *.
  assert (str = take 32 str ++ drop 32 str ++ []) as Hs by (by rewrite app_nil_r, take_drop).
  assert (length (take 32 str) = 32%nat ∧ length (drop 32 str) = 16%nat) as [Ht Hr] by (rewrite length_take, length_drop; lia).
  destruct (digits_to_bytes (take 32 str) 16) as (bp & Hbp & _ & Hlp & _); [by apply Forall_take|done|].
  destruct (digits_to_bytes (drop 32 str) 8) as (bi & Hbi & _ & Hli & _); [by apply Forall_drop|done|].
  unfold advertise. rewrite (run_bind _ _ s bi s).
  2:{ unfold binId, icn_id. fold str. rewrite (run_bind _ _ s (drop 32 str) s); [by rewrite Hbi|]. unfold len. rewrite Hlen.
      rewrite Hs at 1. apply str_substr_run; unfold len; rewrite ?length_app, ?Ht, ?Hr; done. }
  rewrite (run_bind _ _ s bp s).
  2:{ unfold binPrefixId, prefixId. fold str. rewrite (run_bind _ _ s (take 32 str) s); [by rewrite Hbp|]. unfold len. rewrite Hlen.
      rewrite Hs at 1. apply (str_substr_run []); unfold len; rewrite ?length_app, ?Ht; done. }
  destruct (create_and_send_run getpid sendmsg_ret PUBLISH_INFO bi bp DOMAIN_LOCAL None 0 1 2 (nap_ba s)) as [r Hrun];
    [split; [by rewrite Hli|lia]|split; [by rewrite Hlp|lia]|done|]. cbn [opt_bytes] in Hrun. rewrite app_nil_r in Hrun.
  assert (whole_fragments bi = true ∧ whole_fragments bp = true ∧ is_empty bp = false) as (Hwi & Hwp & Hne)
    by (unfold whole_fragments, is_empty, len; rewrite Hli, Hlp; done).
  unfold on_nap_ba, publish_info. rewrite Hwi, Hwp, Hne. cbn [negb]. rewrite (run_bind _ _ _ _ _ Hrun).
  unfold advertisement, bin_of. fold str. by rewrite Hbp, Hbi.
Qed.

Lemma unreliable_publish_run d p s : d ∈ D → 0 < fragment_length mitu 3 < 65536 → len p < 65536 →
  unreliable_publish getpid sendmsg_ret mitu rand (cid_of d) p (len p) s
  = Ok (tt, mkNap (routingPrefixes s) (icnIds s) (packetBuffer s) (sends_all (datagrams (rand (nap_rands s)) d p) (nap_ba s))
      (nap_reassembly s) (Datatypes.S (nap_rands s)) (nap_ticks s)).
Proof.
  intros Hd Hm Hp. destruct (dest_string d Hd) as (q & _ & _ & Hok). destruct (dest_binary d Hd) as (id & Hid & Hbin).
  unfold unreliable_publish, next_rand, on_nap_ba, mbind, M_bind. cbn [nap_ba].
  pose proof (utp_publish_run getpid sendmsg_ret mitu (rand (nap_rands s)) (cid_of d) 3 id p [] (nap_ba s) Hok Hid Hm Hp) as Hrun.
  rewrite app_nil_r in Hrun. rewrite Hrun. cbn [routingPrefixes icnIds packetBuffer nap_reassembly nap_rands nap_ticks].
  unfold datagrams. by rewrite Hbin.
Qed.

Lemma bufferPacket_run cid p s : ∃ c t, bufferPacket clock cid p (len p) s
  = Ok (tt, mkNap (routingPrefixes s) (icnIds s) (<[icn_hashed cid := (c, mkPacket p t)]> (packetBuffer s)) (nap_ba s) (nap_reassembly s)
      (nap_rands s) (Datatypes.S (nap_ticks s))).
Proof.
  unfold bufferPacket. pose proof (bytes_at_run [] p [] 0 (len p) s eq_refl eq_refl) as Hb. cbn [app] in Hb. rewrite app_nil_r in Hb.
  setoid_rewrite (run_bind _ _ _ _ _ Hb). unfold local_time, mbind, M_bind, get, modify. cbn [packetBuffer].
  destruct (packetBuffer s !! icn_hashed cid) as [[old ?]|]; [by exists old, (clock (nap_ticks s))|by exists cid, (clock (nap_ticks s))].
Qed.

(** *** One input *)

Definition input_ok (i : input) : Prop := destination i ∈ D ∧ match i with Packet _ p => len p < 65536 | _ => True end.

Lemma stands_update fs s s' d f : d ∈ D → stands_for D fs s → routingPrefixes s' = routingPrefixes s →
  (∀ k, k ≠ icn_hashed (cid_of d) → icnIds s' !! k = icnIds s !! k ∧ packetBuffer s' !! k = packetBuffer s !! k) →
  flow_state f (icnIds s' !! icn_hashed (cid_of d)) (packetBuffer s' !! icn_hashed (cid_of d)) →
  stands_for D (<[d := f]> fs) s'.
Proof.
  intros Hd [Hpre Hfl] Hp Hk Hf. constructor; [congruence|]. intros e He. destruct (decide (e = d)) as [->|Hne].
  - by rewrite lookup_insert_eq.
  - rewrite lookup_insert_ne by done. destruct (Hk (icn_hashed (cid_of e))) as [-> ->]; [|by apply Hfl].
    intros E. destruct Hne. by apply (dest_hashes D HD).
Qed.

Context (Hm : 0 < fragment_length mitu 3 < 65536).

Definition input_runs (i : input) (fs : gmap Z Flow) (s : NapIp) : Prop :=
  let '(fs', out) := flows_step i fs in ∃ s', do_input i s = Ok (tt, s') ∧ stands_for D fs' s' ∧
    nap_ba s' = sends_all (render (nap_rands s) out) (nap_ba s) ∧ nap_rands s' = (nap_rands s + sends_of out)%nat.

Lemma packet_runs d p fs s : stands_for D fs s → d ∈ D → len p < 65536 → input_runs (Packet d p) fs s.
Proof using All.
  intros Hs Hd Hp. pose proof (st_flows D fs s Hs d Hd) as (Hk & Ho & Hh & Hkh & Hsz). set (f := default no_flow (fs !! d)) in *.
  destruct (dest_string d Hd) as (q & Hq & Hc & Hok). unfold input_runs, flows_step. cbn [destination flow_step]. fold f.
  cbn [do_input]. unfold ip_handle. rewrite (run_bind _ _ s s s) by done. rewrite (st_prefixes D fs s Hs), Hq, <-Hc.
  set (h := icn_hashed (cid_of d)) in *. destruct (icnIds s !! h) as [known|] eqn:E; cbn [default fmap option_fmap option_map] in Ho; rewrite Ho.
  - destruct (icn_forwarding known) eqn:Ef.
    + eexists. split_and!; [by apply unreliable_publish_run| |cbn; by rewrite app_nil_r|cbn; lia].
      apply (stands_update fs s); [done..|]. cbn [icnIds packetBuffer]. fold h. rewrite E. unfold flow_state. cbn [fmap option_fmap option_map default]. by rewrite Ef.
    + destruct (bufferPacket_run (cid_of d) p s) as (c & t & Hb). rewrite (run_bind _ _ _ _ _ Hb).
      eexists. split_and!; [by apply advertise_run| |done|cbn; lia]. apply (stands_update fs s); [done..| |].
      * intros k Hne. cbn. by rewrite lookup_insert_ne.
      * cbn [with_ba icnIds packetBuffer]. fold h. rewrite lookup_insert_eq, E. unfold flow_state. cbn. by rewrite Ef.
  - rewrite (run_bind _ _ s tt _ eq_refl). destruct (bufferPacket_run (cid_of d) p (set_icnIds (<[h := cid_of d]> (icnIds s)) s)) as (c & t & Hb).
    rewrite (run_bind _ _ _ _ _ Hb). eexists. split_and!; [by apply advertise_run| |done|cbn; lia].
    apply (stands_update fs s); [done..| |].
    + intros k Hne. cbn. by rewrite !lookup_insert_ne.
    + cbn. fold h. rewrite !lookup_insert_eq. done.
Qed.

Lemma event_dest d type s : d ∈ D → type ≠ SCOPE_PUBLISHED →
  ip_event other_int getpid sendmsg_ret mitu rand junk type (bin_of (icn_string (cid_of d))) [] 0 s
  = (if type =? START_PUBLISH then _ ← ip_forwarding (cid_of d) true; ip_publishFromBuffer getpid sendmsg_ret mitu rand (cid_of d)
     else if (type =? STOP_PUBLISH) || (type =? PAUSE_PUBLISH) then ip_forwarding (cid_of d) false
     else if type =? PUBLISHED_DATA then ip_transport_handle junk [] 0 else mret tt) s.
Proof using All.
  intros Hd Ht. unfold ip_event. rewrite dest_assign, dest_namespace by done. cbv zeta. rewrite Z.eqb_refl.
  by rewrite (proj2 (Z.eqb_neq type SCOPE_PUBLISHED)).
Qed.

Lemma forwarding_runs d state s : ip_forwarding (cid_of d) state s = Ok (tt, set_icnIds (alter (set_forwarding state) (icn_hashed (cid_of d)) (icnIds s)) s).
Proof.
  unfold ip_forwarding, modify. do 2 f_equal. destruct (icnIds s !! icn_hashed (cid_of d)) as [i|] eqn:E.
  - f_equal. apply map_eq. intros k. destruct (decide (k = icn_hashed (cid_of d))) as [->|].
    + by rewrite lookup_insert_eq, lookup_alter_eq, E.
    + by rewrite lookup_insert_ne, lookup_alter_ne.
  - assert (alter (set_forwarding state) (icn_hashed (cid_of d)) (icnIds s) = icnIds s) as ->; [|by destruct s].
    apply map_eq. intros k. destruct (decide (k = icn_hashed (cid_of d))) as [->|]; [by rewrite lookup_alter_eq, E|by rewrite lookup_alter_ne].
Qed.

Lemma started_runs d fs s : stands_for D fs s → d ∈ D → input_runs (Started d) fs s.
Proof using All.
  intros Hs Hd. pose proof (st_flows D fs s Hs d Hd) as (Hk & Ho & Hh & Hkh & Hsz). set (f := default no_flow (fs !! d)) in *.
  unfold input_runs, flows_step. cbn [destination flow_step]. fold f. cbn [do_input]. rewrite (event_dest d) by done.
  change (START_PUBLISH =? START_PUBLISH) with true. cbv match. rewrite (run_bind _ _ _ _ _ (forwarding_runs d true s)).
  set (h := icn_hashed (cid_of d)) in *. unfold ip_publishFromBuffer. set (s1 := set_icnIds _ s). rewrite (run_bind _ _ s1 s1 s1) by done.
  assert (∀ k, k ≠ h → icnIds s1 !! k = icnIds s !! k) as Hids by (intros k Hne; cbn; by rewrite lookup_alter_ne).
  assert (icnIds s1 !! h = set_forwarding true <$> icnIds s !! h) as Hh1 by (cbn; by rewrite lookup_alter_eq).
  change (packetBuffer s1) with (packetBuffer s). fold h.
  destruct (packetBuffer s !! h) as [[c pk]|] eqn:Eb; cbn in Hh; rewrite Hh in Hkh, Hsz |- *; destruct (f_known f) eqn:Ek; symmetry in Hk.
  - apply bool_decide_eq_true in Hk as [i Hi]. cbn in Hsz.
    rewrite (run_bind _ _ _ _ _ (unreliable_publish_run d (pk_packet pk) s1 Hd Hm Hsz)).
    eexists. split_and!; [done| |cbn; by rewrite app_nil_r|cbn; lia]. apply (stands_update fs s); [done..| |].
    + intros k Hne. split; [by apply Hids|]. cbn. by rewrite lookup_delete_ne.
    + change (flow_state (mkFlow true true None) (icnIds s1 !! h) (delete h (packetBuffer s) !! h)). rewrite lookup_delete_eq, Hh1, Hi. done.
  - by specialize (Hkh eq_refl).
  - apply bool_decide_eq_true in Hk as [i Hi]. exists s1. split_and!; [done| |done|cbn; lia].
    apply (stands_update fs s); [done..| |]; [intros k Hne; split; [by apply Hids|done]|]. fold h. rewrite Hh1, Hi. change (packetBuffer s1) with (packetBuffer s). by rewrite Eb.
  - apply bool_decide_eq_false, eq_None_not_Some in Hk. exists s1. split_and!; [done| |done|cbn; lia].
    apply (stands_update fs s); [done..| |]; [intros k Hne; split; [by apply Hids|done]|]. fold h. rewrite Hh1, Hk. change (packetBuffer s1) with (packetBuffer s).
    rewrite Eb. unfold flow_state. rewrite Ek, Hh, Ho, Hk. done.
Qed.

Lemma closed_runs d fs s i : i = Stopped d ∨ i = Paused d → stands_for D fs s → d ∈ D → input_runs i fs s.
Proof using All.
  intros Hi Hs Hd. pose proof (st_flows D fs s Hs d Hd) as (Hk & Ho & Hh & Hkh & Hsz). set (f := default no_flow (fs !! d)) in *.
  assert (do_input i s = ip_forwarding (cid_of d) false s) as Hrun by (destruct Hi as [-> | ->]; cbn [do_input]; by rewrite (event_dest d)).
  unfold input_runs, flows_step. rewrite Hrun.
  assert (destination i = d ∧ flow_step i f = (mkFlow (f_known f) false (f_held f), [])) as [-> Hstep] by (by destruct Hi as [-> | ->]).
  fold f. rewrite Hstep. eexists. split_and!; [apply forwarding_runs| |done|cbn; lia]. apply (stands_update fs s); [done..| |].
  - intros k Hne. cbn. by rewrite lookup_alter_ne.
  - cbn [icnIds packetBuffer set_icnIds]. rewrite lookup_alter_eq. unfold flow_state. cbn [f_known f_open f_held].
    destruct (icnIds s !! icn_hashed (cid_of d)) as [x|]; done.
Qed.

Lemma each_input_runs i fs s : stands_for D fs s → input_ok i → input_runs i fs s.
Proof using All.
  intros Hs [Hd Hp]. destruct i as [d p|d|d|d]; cbn [destination] in Hd; [by apply packet_runs|by apply started_runs| |]; apply (closed_runs d); auto.
Qed.
End dests.

Lemma render_app n out out' : render n (out ++ out') = render n out ++ render (n + sends_of out) out'.
Proof.
  revert n. induction out as [|[d|d p] out IH]; intros n; cbn [render sends_of app].
  - by rewrite Nat.add_0_r.
  - by rewrite IH.
  - rewrite IH, <-app_assoc. do 3 f_equal. lia.
Qed.

Lemma sends_all_app ms ms' b : sends_all (ms ++ ms') b = sends_all ms' (sends_all ms b).
Proof. apply foldl_app. Qed.

(** C33. For destinations whose identifiers have different hashes the attachment
    point implements the flows: after any sequence of packets of the endpoints
    and of START_PUBLISH, STOP_PUBLISH and PAUSE_PUBLISH events, the messages to
    the node are exactly the advertisements and the publications of the flows,
    in the order of the flows, nothing faults, and the state stands for the flows again. *)
Theorem ip_flows_refined (D : gset Z) (ins : list input) (fs : gmap Z Flow) (s : NapIp) :
  destinations_ok D → 0 < fragment_length mitu 3 < 65536 → stands_for D fs s → Forall (input_ok D) ins →
  let '(fs', out) := flows_run ins fs in
  ∃ s', for_each ins do_input s = Ok (tt, s') ∧ stands_for D fs' s' ∧
    nap_ba s' = sends_all (render (nap_rands s) out) (nap_ba s).
Proof.
  intros HD Hm Hs Hin. revert fs s Hs. induction Hin as [|i ins Hi Hin IH]; intros fs s Hs; cbn [flows_run for_each].
  { by exists s. }
  pose proof (each_input_runs D HD Hm i fs s Hs Hi) as Hrun. unfold input_runs in Hrun.
  destruct (flows_step i fs) as [fs1 out1]. destruct Hrun as (s1 & Hrun & Hs1 & Hba1 & Hr1). specialize (IH fs1 s1 Hs1).
  destruct (flows_run ins fs1) as [fs2 out2]. destruct IH as (s2 & Hrun2 & Hs2 & Hba2). exists s2. split_and!; [|done|].
  - by rewrite (run_bind _ _ _ _ _ Hrun).
  - by rewrite Hba2, Hba1, Hr1, render_app, sends_all_app.
Qed.

(** *** Through two attachment points *)

(** A publication as the listener of another attachment point gets it *)
Definition arrival (d : Z) (p : bytes) : M NapIp unit :=
  ip_event other_int getpid sendmsg_ret mitu rand junk PUBLISHED_DATA (bin_of (icn_string (cid_of d))) p (len p).

Definition with_reassembly (r : Reassembly) (s : NapIp) : NapIp :=
  mkNap (routingPrefixes s) (icnIds s) (packetBuffer s) (nap_ba s) r (nap_rands s) (nap_ticks s).

Lemma arrival_run D d p s : destinations_ok D → d ∈ D → len p < 65536 →
  arrival d p s = on_reassembly (utp_handle junk p (len p)) s.
Proof.
  intros HD Hd Hp. unfold arrival, ip_event. rewrite (dest_assign D) by done. rewrite dest_namespace. cbv zeta. rewrite Z.eqb_refl.
  change (PUBLISHED_DATA =? SCOPE_PUBLISHED) with false. change (PUBLISHED_DATA =? START_PUBLISH) with false.
  change ((PUBLISHED_DATA =? STOP_PUBLISH) || (PUBLISHED_DATA =? PAUSE_PUBLISH)) with false. rewrite Z.eqb_refl. cbv match.
  unfold ip_transport_handle, u16. rewrite Z.mod_small; [done|unfold len in *; lia].
Qed.

Lemma on_reassembly_each (l : list bytes) (f : bytes → M Reassembly unit) s r : for_each l f (nap_reassembly s) = Ok (tt, r) →
  for_each l (λ p, on_reassembly (f p)) s = Ok (tt, with_reassembly r s).
Proof.
  revert s. induction l as [|p l IH]; intros s Hr; cbn [for_each] in *.
  { injection Hr as <-. by destruct s. }
  unfold mbind, M_bind in *. destruct (f p (nap_reassembly s)) as [[[] r1]|] eqn:E; [|done].
  assert (on_reassembly (f p) s = Ok (tt, with_reassembly r1 s)) as -> by (unfold on_reassembly; by rewrite E).
  by rewrite (IH (with_reassembly r1 s)).
Qed.

Lemma for_each_same {S A : Type} (l : list A) (f g : A → M S unit) s : (∀ a s, a ∈ l → f a s = g a s) → for_each l f s = for_each l g s.
Proof.
  revert s. induction l as [|a l IH]; intros s Hfg; cbn [for_each]; [done|]. unfold mbind, M_bind. rewrite Hfg by left.
  destruct (g a s) as [[[] s1]|]; [|done]. apply IH. intros; apply Hfg; by right.
Qed.

(** C34. A packet for an open destination, shorter than two fragments, where
    the configured MITU is at most 1300: the attachment point publishes it under
    the identifier of the destination, and an attachment point that has nothing
    stored under the random key of the packet and gets each publication once,
    in any order, sends exactly this packet to its endpoint, once, and changes
    nothing else. *)
Theorem ip_packet_delivered (D : gset Z) (fs : gmap Z Flow) (d : Z) (p : bytes) (s r : NapIp) :
  destinations_ok D → stands_for D fs s → d ∈ D → f_open (default no_flow (fs !! d)) = true →
  0 < fragment_length mitu 3 → mitu ≤ 1300 → len p < 2 * fragment_length mitu 3 →
  reassemblyBuffer (nap_reassembly r) !! utp_key (cid_of d) (rand (nap_rands s)) = None →
  ∃ packets s', ip_handle other_int getpid sendmsg_ret mitu rand clock d p (len p) s = Ok (tt, s') ∧
    nap_ba s' = sends_all (utp_message getpid (bin_of (icn_string (cid_of d))) <$> packets) (nap_ba s) ∧
    ∀ arrivals, arrivals ≡ₚ packets →
      for_each arrivals (arrival d) r = Ok (tt, with_reassembly (send_packet p (nap_reassembly r)) r).
Proof.
  intros HD Hs Hd Ho Hm Hmitu Hp Hr. assert (fragment_length mitu 3 < 1300) as Hmax by (unfold fragment_length; lia).
  destruct (dest_string D HD d Hd) as (q & _ & _ & Hok). destruct (dest_binary D HD d Hd) as (id & Hid & Hbin).
  pose proof (packet_runs D HD ltac:(lia) d p fs s Hs Hd ltac:(lia)) as Hrun. unfold input_runs, flows_step in Hrun. cbn [destination flow_step] in Hrun.
  rewrite Ho in Hrun. destruct Hrun as (s' & Hrun & _ & Hba & _). cbn [render app] in Hba. rewrite app_nil_r in Hba.
  exists (utp_packets (utp_key (cid_of d) (rand (nap_rands s))) (Z.to_nat (fragment_length mitu 3)) p), s'. split_and!; [exact Hrun|exact Hba|].
  intros arrivals Harr. rewrite (for_each_same _ _ (λ p, on_reassembly (utp_handle junk p (len p)))).
  - apply on_reassembly_each. eapply utp_packets_arrive; [apply utp_key_range| |exact Hp|exact Hr|exact Harr]. lia.
  - intros c x Hc. rewrite Harr in Hc. apply utp_packets_short in Hc. apply (arrival_run D); [done|done|]. unfold len. lia.
Qed.
End flows.

(** An address under the second of the prefixes, fragments of three bytes, and
    a state where nothing was sent *)
Definition some_flows (b : Blackadder) : NapIp := mkNap some_prefixes ∅ ∅ b (mkReas ∅ []) 0 0.

Lemma some_destination : destinations_ok (λ _, 0) some_prefixes {[16810506]}.
Proof.
  constructor.
  - intros d ->%elem_of_singleton. exists (mkPrefix 32778 33023 32778). split; [vm_compute; reflexivity|]. cbn. lia.
  - intros d d' ->%elem_of_singleton ->%elem_of_singleton. done.
Qed.

Lemma some_flows_stand b : stands_for (λ _, 0) some_prefixes {[16810506]} ∅ (some_flows b).
Proof. constructor; [done|]. intros d _. done. Qed.

(** Two packets wait, one after the other, until the flow starts. *)
Definition some_inputs : list input :=
  [Packet 16810506 [1; 2]; Packet 16810506 [3; 4]; Started 16810506; Packet 16810506 [5]; Stopped 16810506; Packet 16810506 [6]].

Lemma ip_flows_refined_witness : ∃ fs' s',
  flows_run some_inputs ∅ = (fs', [Advertise 16810506; Advertise 16810506; Send 16810506 [3; 4]; Send 16810506 [5]; Advertise 16810506]) ∧
  for_each some_inputs (do_input (λ _, 0) 7 (λ _, 0) 53 (λ _, 1) (λ _, 0) (λ _, 0) some_prefixes) (some_flows (mkBA 3 9999 [])) = Ok (tt, s') ∧
  length (ba_calls (nap_ba s')) = 5%nat.
Proof.
  pose proof (ip_flows_refined (λ _, 0) 7 (λ _, 0) 53 (λ _, 1) (λ _, 0) (λ _, 0) some_prefixes {[16810506]} some_inputs ∅ (some_flows (mkBA 3 9999 []))
    some_destination ltac:(split; reflexivity) (some_flows_stand _)) as H.
  assert (Forall (input_ok {[16810506]}) some_inputs) as Hin.
  { unfold some_inputs. repeat constructor; cbn; set_solver. }
  specialize (H Hin). destruct (flows_run some_inputs ∅) as [fs' out] eqn:E. exists fs'.
  assert (out = [Advertise 16810506; Advertise 16810506; Send 16810506 [3; 4]; Send 16810506 [5]; Advertise 16810506]) as ->
    by (vm_compute in E; by injection E as _ <-).
  destruct H as (s' & Hrun & _ & Hba). exists s'. split; [reflexivity|]. split; [exact Hrun|]. rewrite Hba. vm_compute. reflexivity.
Defined.

Definition open_state (b : Blackadder) : NapIp :=
  let i := set_forwarding true (cid_of (λ _, 0) some_prefixes 16810506) in
  mkNap some_prefixes {[icn_hashed i := i]} ∅ b (mkReas ∅ []) 0 0.

Lemma ip_packet_delivered_witness : ∃ packets s',
  ip_handle (λ _, 0) 7 (λ _, 0) 53 (λ _, 1) (λ _, 0) 16810506 [1; 2; 3; 4; 5] 5 (open_state (mkBA 3 9999 [])) = Ok (tt, s') ∧
  length (ba_calls (nap_ba s')) = length packets ∧
  ∃ r', for_each (reverse packets) (arrival (λ _, 0) 7 (λ _, 0) 53 (λ _, 1) (λ _, 0) some_prefixes 16810506) (some_flows (mkBA 4 9999 [])) = Ok (tt, r') ∧
    endpoint_out (nap_reassembly r') = [[1; 2; 3; 4; 5]].
Proof.
  destruct (ip_packet_delivered (λ _, 0) 7 (λ _, 0) 53 (λ _, 1) (λ _, 0) (λ _, 0) some_prefixes {[16810506]} {[16810506 := mkFlow true true None]}
    16810506 [1; 2; 3; 4; 5] (open_state (mkBA 3 9999 [])) (some_flows (mkBA 4 9999 []))) as (packets & s' & Hrun & Hba & Harr).
  - apply some_destination.
  - constructor; [reflexivity|]. intros d ->%elem_of_singleton. rewrite lookup_singleton_eq. unfold open_state. cbv zeta. cbn [icnIds packetBuffer].
    change (icn_hashed (cid_of (λ _, 0) some_prefixes 16810506)) with (icn_hashed (set_forwarding true (cid_of (λ _, 0) some_prefixes 16810506))).
    rewrite lookup_singleton_eq. split; [reflexivity|]. done.
  - apply elem_of_singleton. reflexivity.
  - reflexivity.
  - reflexivity.
  - lia.
  - reflexivity.
  - reflexivity.
  - exists packets, s'. split; [exact Hrun|]. split.
    + rewrite Hba. clear. cbn [open_state nap_ba]. unfold sends_all.
      assert (∀ l b, length (ba_calls (foldl (λ s m, sent_to_node m s) b l)) = (length (ba_calls b) + length l)%nat) as Hl.
      { induction l as [|m l IH]; intros b; cbn [foldl length]; [lia|]. rewrite IH. cbn. rewrite length_app. cbn. lia. }
      rewrite Hl, length_fmap. reflexivity.
    + eexists. split; [apply Harr; apply reverse_Permutation|reflexivity].
Defined.

(** ** Identifiers with the same hash *)

(** The identifiers of 192.15.75.160 and 168.173.26.156 under the prefix of
    everything have the same hash.  Once the first flow is open, a packet for
    the second one is published, although nothing was ever advertised for it. *)
Lemma hash_collision_unadvertised :
  let all : gmap Z RoutingPrefix := {[0 := mkPrefix 0 0 0]} in
  let cid d := icn_of_address (λ _, 0) (mkPrefix 0 0 0) d in
  let messages ins := match for_each ins (do_input (λ _, 0) 7 (λ _, 0) 1300 (λ _, 1) (λ _, 0) (λ _, 0) all)
      (mkNap all ∅ ∅ (mkBA 3 9999 []) (mkReas ∅ []) 0 0) with Ok (_, s) => (snd ∘ snd) <$> ba_calls (nap_ba s) | Fault _ => [] end in
  cid 2689273792 ≠ cid 2618994088 ∧ icn_hashed (cid 2689273792) = icn_hashed (cid 2618994088) ∧
  messages [Packet 2689273792 [1]; Started 2689273792; Packet 2618994088 [2]] =
    advertisement (λ _, 0) 7 all 2689273792 :: datagrams (λ _, 0) 7 1300 all 1 2689273792 [1] ++ datagrams (λ _, 0) 7 1300 all 1 2618994088 [2].
Proof. split_and!; [by intros [=]|vm_compute; reflexivity|vm_compute; reflexivity]. Qed.

(** ** The cleaner of the buffer *)

Section cleaner.
Context (order : gmap Z (IcnId * packet_t) → list Z) (seconds : Z → Z) (interval : Z).

Definition young (now : Z) (e : Z * (IcnId * packet_t)) : Prop := too_old seconds interval now e.2.2 = false.
#[export] Instance young_decision now e : Decision (young now e).
Proof. unfold young. apply _. Defined.

Lemma clean_filter (now : Z) : (∀ b k, k ∈ order b ↔ is_Some (b !! k)) → ∀ fuel b, (size b ≤ fuel)%nat →
  clean order seconds interval fuel now b = Some (filter (young now) b).
Proof.
  intros Hord fuel. induction fuel as [|fuel IH]; intros b Hs; cbn [clean]; unfold first_old.
  - assert (b = ∅) as -> by (apply map_size_empty_inv; lia). destruct (order ∅) as [|k l] eqn:E; [by rewrite map_filter_empty|].
    assert (k ∈ order ∅) as [? Hk]%Hord by (rewrite E; left). by rewrite lookup_empty in Hk.
  - destruct (List.find _ _) as [k|] eqn:E.
    + apply find_some in E as [Hk%list_elem_of_In%Hord Ho]. destruct Hk as [[c p] Hk]. rewrite Hk in Ho. rewrite IH.
      * f_equal. apply map_filter_delete_not. intros x Hx. rewrite Hk in Hx. injection Hx as <-. unfold young. cbn. by rewrite Ho.
      * rewrite map_size_delete_Some; [lia|by exists (c, p)].
    + f_equal. symmetry. apply map_filter_id. intros k [c p] Hk. unfold young. cbn.
      assert (k ∈ order b) as Hin by (apply Hord; by exists (c, p)). apply list_elem_of_In in Hin.
      pose proof (find_none _ _ E k Hin) as Hf. cbn in Hf. by rewrite Hk in Hf.
Qed.

(** A round of the cleaner ends, whatever the order of the hash table: it
    deletes exactly the packets that are older than the interval and keeps all
    the others. *)
Theorem cleaner_keeps_young (clock : nat → Z) (s : NapIp) : (∀ b k, k ∈ order b ↔ is_Some (b !! k)) →
  cleaner_round clock order seconds interval s
  = Ok (tt, mkNap (routingPrefixes s) (icnIds s) (filter (young (clock (nap_ticks s))) (packetBuffer s)) (nap_ba s) (nap_reassembly s)
      (nap_rands s) (Datatypes.S (nap_ticks s))).
Proof.
  intros Hord. unfold cleaner_round, local_time, mbind, M_bind, get. cbn [packetBuffer].
  by rewrite (clean_filter (clock (nap_ticks s)) Hord) by lia.
Qed.
End cleaner.

(** [seconds] is the field of the seconds, below sixty: a packet that has
    waited for 65 seconds counts as five seconds old. *)
Definition some_buffer : NapIp :=
  mkNap ∅ ∅ (list_to_map [(1, (no_icnid, mkPacket [1] 100)); (2, (no_icnid, mkPacket [2] 145)); (3, (no_icnid, mkPacket [3] 160))]) (mkBA 3 9999 []) (mkReas ∅ []) 0 0.

Lemma cleaner_keeps_young_witness : ∃ s', cleaner_round (λ _, 165) (λ b, (map_to_list b).*1) (λ d, d mod 60) 10 some_buffer = Ok (tt, s') ∧
  packetBuffer s' !! 1 = Some (no_icnid, mkPacket [1] 100) ∧ packetBuffer s' !! 2 = None ∧ packetBuffer s' !! 3 = Some (no_icnid, mkPacket [3] 160).
Proof.
  eexists. split.
  - apply (cleaner_keeps_young (λ b, (map_to_list b).*1) (λ d, d mod 60) 10 (λ _, 165) some_buffer).
    intros b k. rewrite list_elem_of_fmap. split.
    + intros ([k' x] & -> & Hx%elem_of_map_to_list). by exists x.
    + intros [x Hx]. exists (k, x). split; [done|]. by apply elem_of_map_to_list.
  - split; [vm_compute; reflexivity|]. split; vm_compute; reflexivity.
Defined.
