(* ===== verification/NapLtp.v ===== *)
(** * The network attachment point: the lightweight transport
    (apps/nap/transport/lightweight.cc, lightweighttypedef.hh)

    HTTP requests go from a client's attachment point to a server's, under the
    identifier of the host (CID), and responses go back to a group of nodes,
    under the identifier of the resource (rCID).  Both are cut into fragments;
    the end of a window (WE) asks the other end whether all have arrived, and
    is answered with WED or with the range that is missing (NACK).

    The tables are nested maps as in the source, with the level of the RIPD,
    whose key is 0 almost everywhere.  A method that waits for an answer is a
    machine whose steps are one look at a table or the end of a timer, because
    the listener works on the same tables meanwhile. *)
From stdpp Require Import base list gmap sets.
From Stdlib Require Import ZArith Lia Bool.
From S2P Require Import Prelude Enums Containers UserLib Blocks NapTypes.

Local Open Scope Z_scope.

(** ** Messages *)

Definition LTP_DATA : Z := 0.
Definition LTP_CONTROL : Z := 1.
Definition LTP_CONTROL_NACK : Z := 0.
Definition LTP_CONTROL_SESSION_END : Z := 1.
Definition LTP_CONTROL_SESSION_ENDED : Z := 2.
Definition LTP_CONTROL_WINDOW_END : Z := 3.
Definition LTP_CONTROL_WINDOW_ENDED : Z := 4.
Definition LTP_CONTROL_WINDOW_UPDATE : Z := 5.
Definition LTP_CONTROL_WINDOW_UPDATED : Z := 6.

Inductive TpState :=
| TP_STATE_FRAGMENTS_OUTSTANDING
| TP_STATE_ALL_FRAGMENTS_RECEIVED
| TP_STATE_NO_TRANSPORT_PROTOCOL_USED
| TP_STATE_SESSION_ENDED
| TP_STATE_NO_ACTION_REQUIRED.

Definition ENIGMA : Z := 23.

(** The sizes of the headers in memory; enumerations have four bytes, and a
    header is padded to a multiple of four. *)
Definition LTP_HDR_DATA : Z := 16.
Definition LTP_HDR_CTRL : Z := 16.
Definition LTP_HDR_WE : Z := 16.
Definition LTP_HDR_NACK : Z := 20.

Definition ICN_HEADER_LENGTH : Z := 20.

(** Numbers in messages *)
Definition read16 (b : bytes) : Z := match b with [x; y] => x + 256 * y | _ => 0 end.
Definition read32 (b : bytes) : Z := match b with [x; y; z; t] => x + 256 * y + 65536 * z + 16777216 * t | _ => 0 end.

(** ** Nested tables *)

Definition at2 {A : Type} (a b : Z) (m : gmap Z (gmap Z A)) : option A := m !! a ≫= lookup b.
Definition at3 {A : Type} (a b c : Z) (m : gmap Z (gmap Z (gmap Z A))) : option A := at2 a b m ≫= lookup c.
Definition at4 {A : Type} (a b c d : Z) (m : gmap Z (gmap Z (gmap Z (gmap Z A)))) : option A := at3 a b c m ≫= lookup d.

(** A change inside the table of a key, which is made if it is missing *)
Definition inside {A : Type} (k : Z) (f : gmap Z A → gmap Z A) (m : gmap Z (gmap Z A)) : gmap Z (gmap Z A) :=
  <[k := f (default ∅ (m !! k))]> m.

(** The table of a key, which is erased if it is empty *)
Definition pruned {A : Type} (k : Z) (x : gmap Z A) (m : gmap Z (gmap Z A)) : gmap Z (gmap Z A) :=
  if decide (x = ∅) then delete k m else <[k := x]> m.

(** A packet in the buffer of the receiver.  When a fragment of another length
    comes, the old one is freed but its entry, with its length, stays. *)
Inductive stored := Live (b : bytes) | Freed (n : Z).
Definition stored_size (p : stored) : Z := match p with Live b => len b | Freed n => n end.

(** The nodes that miss fragments; a number can be uninitialised. *)
Record nack_group := mkNack { ng_nodes : list Z; ng_start : option Z; ng_end : option Z }.

Definition sent_buffer : Type := gmap Z (gmap Z (gmap Z (gmap Z bytes))).

Record Ltp := mkLtp {
  proxyPacketBuffer : sent_buffer;
  ltpPacketBuffer : sent_buffer;
  icnPacketBuffer : gmap Z (gmap Z (gmap Z (gmap Z (gmap Z stored))));
  windowEndedRequests : gmap Z (gmap Z (gmap Z bool));
  windowEndedResponses : gmap Z (gmap Z (gmap Z (gmap Z bool)));
  sessionEndedResponses : gmap Z (gmap Z (gmap Z (gmap Z bool)));
  windowUpdate : gmap Z (gmap Z (gmap Z (gmap Z bool)));
  nackGroups : gmap Z (gmap Z (gmap Z nack_group));
  cIdReverseLookUp : gmap Z IcnId;
  cmcGroups : gmap Z (gmap Z (gmap Z (list Z)));
  potentialCmcGroups : gmap Z (gmap Z (gmap Z bool));
  knownNIds : gmap Z bool;
  rtts : list Z;
  ltp_ba : Blackadder;
  ltp_rands : nat;
}.

Definition on_proxy (f : sent_buffer → sent_buffer) (s : Ltp) : Ltp :=
  mkLtp (f (proxyPacketBuffer s)) (ltpPacketBuffer s) (icnPacketBuffer s) (windowEndedRequests s) (windowEndedResponses s) (sessionEndedResponses s) (windowUpdate s) (nackGroups s) (cIdReverseLookUp s) (cmcGroups s) (potentialCmcGroups s) (knownNIds s) (rtts s) (ltp_ba s) (ltp_rands s).
Definition on_sent (f : sent_buffer → sent_buffer) (s : Ltp) : Ltp :=
  mkLtp (proxyPacketBuffer s) (f (ltpPacketBuffer s)) (icnPacketBuffer s) (windowEndedRequests s) (windowEndedResponses s) (sessionEndedResponses s) (windowUpdate s) (nackGroups s) (cIdReverseLookUp s) (cmcGroups s) (potentialCmcGroups s) (knownNIds s) (rtts s) (ltp_ba s) (ltp_rands s).
Definition on_received (f : gmap Z (gmap Z (gmap Z (gmap Z (gmap Z stored)))) → gmap Z (gmap Z (gmap Z (gmap Z (gmap Z stored))))) (s : Ltp) : Ltp :=
  mkLtp (proxyPacketBuffer s) (ltpPacketBuffer s) (f (icnPacketBuffer s)) (windowEndedRequests s) (windowEndedResponses s) (sessionEndedResponses s) (windowUpdate s) (nackGroups s) (cIdReverseLookUp s) (cmcGroups s) (potentialCmcGroups s) (knownNIds s) (rtts s) (ltp_ba s) (ltp_rands s).
Definition on_requests (f : gmap Z (gmap Z (gmap Z bool)) → gmap Z (gmap Z (gmap Z bool))) (s : Ltp) : Ltp :=
  mkLtp (proxyPacketBuffer s) (ltpPacketBuffer s) (icnPacketBuffer s) (f (windowEndedRequests s)) (windowEndedResponses s) (sessionEndedResponses s) (windowUpdate s) (nackGroups s) (cIdReverseLookUp s) (cmcGroups s) (potentialCmcGroups s) (knownNIds s) (rtts s) (ltp_ba s) (ltp_rands s).
Definition on_responses (f : gmap Z (gmap Z (gmap Z (gmap Z bool))) → gmap Z (gmap Z (gmap Z (gmap Z bool)))) (s : Ltp) : Ltp :=
  mkLtp (proxyPacketBuffer s) (ltpPacketBuffer s) (icnPacketBuffer s) (windowEndedRequests s) (f (windowEndedResponses s)) (sessionEndedResponses s) (windowUpdate s) (nackGroups s) (cIdReverseLookUp s) (cmcGroups s) (potentialCmcGroups s) (knownNIds s) (rtts s) (ltp_ba s) (ltp_rands s).
Definition on_sessions (f : gmap Z (gmap Z (gmap Z (gmap Z bool))) → gmap Z (gmap Z (gmap Z (gmap Z bool)))) (s : Ltp) : Ltp :=
  mkLtp (proxyPacketBuffer s) (ltpPacketBuffer s) (icnPacketBuffer s) (windowEndedRequests s) (windowEndedResponses s) (f (sessionEndedResponses s)) (windowUpdate s) (nackGroups s) (cIdReverseLookUp s) (cmcGroups s) (potentialCmcGroups s) (knownNIds s) (rtts s) (ltp_ba s) (ltp_rands s).
Definition on_wupdate (f : gmap Z (gmap Z (gmap Z (gmap Z bool))) → gmap Z (gmap Z (gmap Z (gmap Z bool)))) (s : Ltp) : Ltp :=
  mkLtp (proxyPacketBuffer s) (ltpPacketBuffer s) (icnPacketBuffer s) (windowEndedRequests s) (windowEndedResponses s) (sessionEndedResponses s) (f (windowUpdate s)) (nackGroups s) (cIdReverseLookUp s) (cmcGroups s) (potentialCmcGroups s) (knownNIds s) (rtts s) (ltp_ba s) (ltp_rands s).
Definition on_nacks (f : gmap Z (gmap Z (gmap Z nack_group)) → gmap Z (gmap Z (gmap Z nack_group))) (s : Ltp) : Ltp :=
  mkLtp (proxyPacketBuffer s) (ltpPacketBuffer s) (icnPacketBuffer s) (windowEndedRequests s) (windowEndedResponses s) (sessionEndedResponses s) (windowUpdate s) (f (nackGroups s)) (cIdReverseLookUp s) (cmcGroups s) (potentialCmcGroups s) (knownNIds s) (rtts s) (ltp_ba s) (ltp_rands s).
Definition on_reverse (f : gmap Z IcnId → gmap Z IcnId) (s : Ltp) : Ltp :=
  mkLtp (proxyPacketBuffer s) (ltpPacketBuffer s) (icnPacketBuffer s) (windowEndedRequests s) (windowEndedResponses s) (sessionEndedResponses s) (windowUpdate s) (nackGroups s) (f (cIdReverseLookUp s)) (cmcGroups s) (potentialCmcGroups s) (knownNIds s) (rtts s) (ltp_ba s) (ltp_rands s).
Definition on_groups (f : gmap Z (gmap Z (gmap Z (list Z))) → gmap Z (gmap Z (gmap Z (list Z)))) (s : Ltp) : Ltp :=
  mkLtp (proxyPacketBuffer s) (ltpPacketBuffer s) (icnPacketBuffer s) (windowEndedRequests s) (windowEndedResponses s) (sessionEndedResponses s) (windowUpdate s) (nackGroups s) (cIdReverseLookUp s) (f (cmcGroups s)) (potentialCmcGroups s) (knownNIds s) (rtts s) (ltp_ba s) (ltp_rands s).
Definition on_potential (f : gmap Z (gmap Z (gmap Z bool)) → gmap Z (gmap Z (gmap Z bool))) (s : Ltp) : Ltp :=
  mkLtp (proxyPacketBuffer s) (ltpPacketBuffer s) (icnPacketBuffer s) (windowEndedRequests s) (windowEndedResponses s) (sessionEndedResponses s) (windowUpdate s) (nackGroups s) (cIdReverseLookUp s) (cmcGroups s) (f (potentialCmcGroups s)) (knownNIds s) (rtts s) (ltp_ba s) (ltp_rands s).
Definition on_nids (f : gmap Z bool → gmap Z bool) (s : Ltp) : Ltp :=
  mkLtp (proxyPacketBuffer s) (ltpPacketBuffer s) (icnPacketBuffer s) (windowEndedRequests s) (windowEndedResponses s) (sessionEndedResponses s) (windowUpdate s) (nackGroups s) (cIdReverseLookUp s) (cmcGroups s) (potentialCmcGroups s) (f (knownNIds s)) (rtts s) (ltp_ba s) (ltp_rands s).
Definition on_rtts (f : list Z → list Z) (s : Ltp) : Ltp :=
  mkLtp (proxyPacketBuffer s) (ltpPacketBuffer s) (icnPacketBuffer s) (windowEndedRequests s) (windowEndedResponses s) (sessionEndedResponses s) (windowUpdate s) (nackGroups s) (cIdReverseLookUp s) (cmcGroups s) (potentialCmcGroups s) (knownNIds s) (f (rtts s)) (ltp_ba s) (ltp_rands s).
Definition on_ltp_ba (f : Blackadder → Blackadder) (s : Ltp) : Ltp :=
  mkLtp (proxyPacketBuffer s) (ltpPacketBuffer s) (icnPacketBuffer s) (windowEndedRequests s) (windowEndedResponses s) (sessionEndedResponses s) (windowUpdate s) (nackGroups s) (cIdReverseLookUp s) (cmcGroups s) (potentialCmcGroups s) (knownNIds s) (rtts s) (f (ltp_ba s)) (ltp_rands s).
Definition on_ltp_rands (f : nat → nat) (s : Ltp) : Ltp :=
  mkLtp (proxyPacketBuffer s) (ltpPacketBuffer s) (icnPacketBuffer s) (windowEndedRequests s) (windowEndedResponses s) (sessionEndedResponses s) (windowUpdate s) (nackGroups s) (cIdReverseLookUp s) (cmcGroups s) (potentialCmcGroups s) (knownNIds s) (rtts s) (ltp_ba s) (f (ltp_rands s)).

(** Looking at a table, and changing one *)
Definition gets {A : Type} (f : Ltp → A) : M Ltp A := s ← get; mret (f s).

Definition with_ltp_ba {A : Type} (m : M Blackadder A) : M Ltp A := λ s,
  match m (ltp_ba s) with
  | Ok (a, b) => Ok (a, on_ltp_ba (λ _, b) s)
  | Fault e => Fault e
  end.

Section ltp.
Context (other_int : bytes → Z) (getpid : Z) (sendmsg_ret : list (Z * Netlink.addressed bytes) → Z) (junk : nat → Z) (rand : nat → Z).
Context (mtu mitu ltpInitialCredit ltpRttListSize tcDropRate own_nid : Z).

(** ** Nodes and publications *)

Definition nid_str (n : Z) : bytes := padded 8 (decimal n).
Definition nid_of (s : bytes) : Z := u32 (atoi other_int s).

Definition publish_isub (cid rcid : IcnId) (packet : bytes) : M Ltp unit :=
  id ← binIcnId cid;
  rid ← binIcnId rcid;
  _ ← with_ltp_ba (publish_data_isub getpid sendmsg_ret id DOMAIN_LOCAL None 0 rid packet (length packet));
  mret tt.

Definition publish_nodes (rcid : IcnId) (nodes : list Z) (packet : bytes) : M Ltp unit :=
  id ← binIcnId rcid;
  _ ← with_ltp_ba (publish_data_multicast getpid sendmsg_ret id DOMAIN_LOCAL None 0 (nid_str <$> nodes) packet (length packet));
  mret tt.

(** A block of [malloc] with the fields of a message at its beginning *)
Definition ltp_packet (size : Z) (fields : list bytes) : M Ltp bytes :=
  block ← alloc size;
  block ← puts 0 fields block;
  mret (sent_bytes junk block).

Definition control_packet (size type sk : Z) (rest : list bytes) : M Ltp bytes :=
  ltp_packet size ([le32 LTP_CONTROL; le32 type; le32 0; le16 sk] ++ rest).

(** [TrafficControl::handle()]: whether a packet is dropped on purpose *)
Definition drop_packet : M Ltp bool :=
  if tcDropRate =? -1 then mret false
  else if tcDropRate =? 0 then throw DivisionByZero
  else
    n ← gets ltp_rands;
    _ ← modify (on_ltp_rands Datatypes.S);
    mret (Z.rem (rand n) tcDropRate =? 0).

(** ** Round trip times *)

Definition ltp_rtt : M Ltp Z :=
  l ← gets rtts;
  if ltpRttListSize =? 0 then throw DivisionByZero
  else mret (u16 (foldr (λ x sum, u32 (sum + x)) 0 l / ltpRttListSize)).

Definition add_rtt (rtt : Z) : M Ltp unit :=
  let rtt := if u16 rtt =? 0 then 1 else u16 rtt in
  modify (on_rtts (λ l, rtt :: resize (Z.to_nat ltpRttListSize) 0 l)).

(** ** Tables *)

Definition addNodeId (nid : Z) : M Ltp unit :=
  modify (on_nids (λ m, match m !! nid with None => add_new (u16 nid) false m | Some _ => m end)).

Definition addReverseLookUp (cid rcid : IcnId) : M Ltp unit :=
  modify (on_reverse (add_new (icn_hashed rcid) cid)).

Definition reverse_cid (rcid : IcnId) : M Ltp (option IcnId) := gets (λ s, cIdReverseLookUp s !! icn_hashed rcid).

Definition forwardingEnabled (nid : Z) : M Ltp bool := gets (λ s, default false (knownNIds s !! nid)).

Definition getCmcGroup (rcid : IcnId) (sk : Z) : M Ltp (option (list Z)) := gets (λ s, at3 (icn_hashed rcid) 0 sk (cmcGroups s)).

Definition enableNIdInCmcGroup (rcid : IcnId) (nid : Z) : M Ltp unit :=
  modify (on_potential (alter (alter (alter (λ _, true) nid) 0) (icn_hashed rcid))).

(** The end of a window of a request: behind the insertion of a new session
    key the old iterator, which is [end()], is used. *)
Definition addWindowEnd_request (rcid : IcnId) (ripd sk : Z) : M Ltp unit :=
  m ← gets (λ s, at2 (icn_hashed rcid) ripd (windowEndedRequests s));
  match m with
  | Some m => if decide (is_Some (m !! sk)) then modify (on_requests (inside (icn_hashed rcid) (inside ripd (insert sk false)))) else throw EndDeref
  | None => modify (on_requests (inside (icn_hashed rcid) (inside ripd (insert sk false))))
  end.

(** The flags of a group of nodes are set to false. *)
Definition waiting_for (nodes : list Z) (sk : Z) (m : gmap Z (gmap Z bool)) : gmap Z (gmap Z bool) :=
  foldl (λ m nid, inside nid (insert sk false) m) m nodes.

Definition addWindowEnd_response (rcid : IcnId) (nodes : list Z) (ripd sk : Z) : M Ltp unit :=
  modify (on_responses (inside (icn_hashed rcid) (inside ripd (waiting_for nodes sk)))).

Definition addSessionEnd (rcid : IcnId) (ripd sk : Z) (nodes : list Z) : M Ltp unit :=
  modify (on_sessions (inside (icn_hashed rcid) (inside ripd (waiting_for nodes sk)))).

Definition deleteSessionEnd (rcid : IcnId) (ripd sk : Z) (nodes : list Z) : M Ltp unit :=
  modify (on_sessions (λ all,
    match at2 (icn_hashed rcid) ripd all with
    | None => all
    | Some m =>
        let m := foldl (λ m nid, match m !! nid with
                                 | Some keys => if decide (is_Some (keys !! sk)) then pruned nid (delete sk keys) m else m
                                 | None => m
                                 end) m nodes in
        pruned (icn_hashed rcid) (pruned ripd m (default ∅ (all !! icn_hashed rcid))) all
    end)).

Definition bufferProxyPacket (rcid : IcnId) (ripd sk sn : Z) (packet : bytes) : M Ltp unit :=
  modify (on_proxy (inside (icn_hashed rcid) (inside ripd (inside sk (add_new sn packet))))).

Definition bufferLtpPacket (rcid : IcnId) (ripd sk sn : Z) (packet : bytes) : M Ltp unit :=
  modify (on_sent (inside (icn_hashed rcid) (inside ripd (inside sk (add_new sn packet))))).

(** The session of a request is erased, the tables around it stay. *)
Definition deleteProxyPacket (rcid : IcnId) (ripd sk : Z) : M Ltp unit :=
  modify (on_proxy (alter (alter (delete sk) ripd) (icn_hashed rcid))).

Definition deleteBufferedLtpPacket (rcid : IcnId) (sk : Z) : M Ltp unit :=
  modify (on_sent (λ all,
    match at2 (icn_hashed rcid) 0 all with
    | Some m => if decide (is_Some (m !! sk)) then pruned (icn_hashed rcid) (pruned 0 (delete sk m) (default ∅ (all !! icn_hashed rcid))) all else all
    | None => all
    end)).

(** A fragment of a request or of a response *)
Definition bufferIcnPacket (rcid : IcnId) (nid ripd sk sn payloadLength : Z) (packet : bytes) : M Ltp unit :=
  content ← bytes_at packet 0 payloadLength;
  old ← gets (λ s, at4 (icn_hashed rcid) ripd nid sk (icnPacketBuffer s) ≫= lookup sn);
  let change f := modify (on_received (inside (icn_hashed rcid) (inside ripd (inside nid (inside sk f))))) in
  match old with
  | None => change (insert sn (Live content))
  | Some p =>
      if stored_size p =? payloadLength then mret tt
      else match p with
           | Live b => change (insert sn (Freed (len b)))
           | Freed _ => throw Dangling
           end
  end.

(** ** Groups of nodes that miss fragments *)

Definition addNackNodeId (rcid : IcnId) (ripd sk start end_ nid : Z) : M Ltp unit :=
  m ← gets (λ s, at2 (icn_hashed rcid) ripd (nackGroups s));
  let change g := modify (on_nacks (inside (icn_hashed rcid) (inside ripd (insert sk g)))) in
  match m with
  | None => change (mkNack [nid] (Some start) (Some end_))
  | Some m =>
      match m !! sk with
      | None => change (mkNack [nid] (Some start) None)
      | Some g =>
          let nodes := if decide (nid ∈ ng_nodes g) then ng_nodes g else ng_nodes g ++ [nid] in
          match ng_start g, ng_end g with
          | Some a, Some b => change (mkNack nodes (Some (Z.min start a)) (Some (Z.max end_ b)))
          | _, _ => throw Uninitialised
          end
      end
  end.

Definition nackGroup (rcid : IcnId) (ripd sk : Z) : M Ltp nack_group :=
  gets (λ s, default (mkNack [] None None) (at3 (icn_hashed rcid) ripd sk (nackGroups s))).

Definition deleteNackGroup (rcid : IcnId) (ripd sk : Z) : M Ltp unit :=
  modify (on_nacks (λ all,
    match at2 (icn_hashed rcid) ripd all with
    | Some m => if decide (is_Some (m !! sk)) then pruned (icn_hashed rcid) (pruned ripd (delete sk m) (default ∅ (all !! icn_hashed rcid))) all else all
    | None => all
    end)).

(** ** Control messages *)

Definition publishNack_nodes (rcid : IcnId) (nid sk first last : Z) : M Ltp unit :=
  packet ← control_packet LTP_HDR_NACK LTP_CONTROL_NACK sk [le16 first; le16 last];
  publish_nodes rcid [nid] packet.

Definition publishNack_isub (cid rcid : IcnId) (sk first last : Z) : M Ltp unit :=
  packet ← control_packet LTP_HDR_NACK LTP_CONTROL_NACK sk [le16 first; le16 last];
  publish_isub cid rcid packet.

Definition publishWindowEnd_response (rcid : IcnId) (nodes : list Z) (sk sn : Z) : M Ltp unit :=
  _ ← addWindowEnd_response rcid nodes 0 sk;
  packet ← control_packet LTP_HDR_WE LTP_CONTROL_WINDOW_END sk [le16 sn];
  publish_nodes rcid nodes packet.

Definition publishWindowEnd_request (cid rcid : IcnId) (sk sn : Z) : M Ltp unit :=
  packet ← control_packet LTP_HDR_WE LTP_CONTROL_WINDOW_END sk [le16 sn];
  _ ← publish_isub cid rcid packet;
  addWindowEnd_request rcid 0 sk.

(** To the server; the RIPD is that of the message that is answered. *)
Definition publishWindowEnded_isub (cid rcid : IcnId) (ripd sk : Z) : M Ltp unit :=
  packet ← ltp_packet LTP_HDR_CTRL [le32 LTP_CONTROL; le32 LTP_CONTROL_WINDOW_ENDED; le32 ripd; le16 sk];
  publish_isub cid rcid packet.

(** To a client, whose node has to be reachable *)
Definition publishWindowEnded_node (rcid : IcnId) (nid sk : Z) : M Ltp unit :=
  enabled ← forwardingEnabled nid;
  if enabled : bool then
    packet ← control_packet LTP_HDR_CTRL LTP_CONTROL_WINDOW_ENDED sk [];
    publish_nodes rcid [nid] packet
  else mret tt.

Definition publishSessionEnd (rcid : IcnId) (nodes : list Z) (sk : Z) : M Ltp unit :=
  packet ← control_packet LTP_HDR_CTRL LTP_CONTROL_SESSION_END sk [];
  publish_nodes rcid nodes packet.

Definition publishSessionEnded (cid rcid : IcnId) (sk : Z) : M Ltp unit :=
  packet ← control_packet LTP_HDR_CTRL LTP_CONTROL_SESSION_ENDED sk [];
  publish_isub cid rcid packet.

Definition addNodeIdToWindowUpdate (rcid : IcnId) (sk nid : Z) : M Ltp unit :=
  modify (on_wupdate (λ all,
    match at4 (icn_hashed rcid) 0 sk nid all with
    | Some _ => all
    | None =>
        let key := if decide (is_Some (at3 (icn_hashed rcid) 0 sk all)) then u16 nid else nid in
        inside (icn_hashed rcid) (inside 0 (inside sk (add_new key false))) all
    end)).

Definition publishWindowUpdate (rcid : IcnId) (sk : Z) (nodes : list Z) : M Ltp unit :=
  reachable ← fold_each nodes (λ nid acc,
    enabled ← forwardingEnabled nid;
    if enabled : bool then _ ← addNodeIdToWindowUpdate rcid sk nid; mret (acc ++ [nid]) else mret acc) [];
  match reachable with
  | [] => mret tt
  | _ => packet ← control_packet LTP_HDR_CTRL LTP_CONTROL_WINDOW_UPDATE sk []; publish_nodes rcid reachable packet
  end.

Definition publishWindowUpdated (cid rcid : IcnId) (ripd sk : Z) : M Ltp unit :=
  packet ← ltp_packet LTP_HDR_CTRL [le32 LTP_CONTROL; le32 LTP_CONTROL_WINDOW_UPDATED; le32 ripd; le16 sk];
  publish_isub cid rcid packet.

(** The nodes whose WUD is missing *)
Definition wudsNotReceived (rcid : IcnId) (sk : Z) : M Ltp (list Z) :=
  gets (λ s, omap (λ e, if e.2 : bool then None else Some e.1) (in_order_of (default ∅ (at3 (icn_hashed rcid) 0 sk (windowUpdate s))))).

Definition removeNidsFromWindowUpdate (rcid : IcnId) (sk : Z) (nodes : list Z) : M Ltp unit :=
  modify (on_wupdate (alter (alter (alter (λ m, foldl (λ m nid, delete nid m) m nodes) sk) 0) (icn_hashed rcid))).

(** ** Data *)

(** The length of a payload, a multiple of eight *)
Definition payload_room (room : Z) : Z := let m := u32 room in m - m mod 8.

(** One fragment: the length of its payload, padded to a multiple of eight in
    the last one; the padding is read from behind the data. *)
Definition next_fragment (room : Z) (data : bytes) (dataSize sent ripd sk sn : Z) : M Ltp (Z * bytes) :=
  let more := dataSize - sent >? room in
  let payloadLength := if more then u16 room else u16 (dataSize - sent) in
  let pad := if more || (payloadLength mod 8 =? 0) then 0 else 8 - payloadLength mod 8 in
  let fragmentSize := u16 (payloadLength + pad) in
  content ← bytes_at data sent fragmentSize;
  packet ← ltp_packet (u16 (LTP_HDR_DATA + fragmentSize)) [le32 LTP_DATA; le32 ripd; le16 sk; le16 sn; le16 payloadLength; content];
  mret (fragmentSize - pad, packet).

(** The loop over the fragments of a request; it gives the last number. *)
Fixpoint send_request (fuel : nat) (cid rcid : IcnId) (room sk : Z) (data : bytes) (dataSize sn sent credit : Z) : M Ltp Z :=
  if sent <? dataSize then
    match fuel with
    | O => throw Endless
    | Datatypes.S fuel =>
        let credit := if credit =? 0 then ltpInitialCredit else credit in
        let sn := u16 (sn + 1) in
        '(n, packet) ← next_fragment room data dataSize sent 0 sk sn;
        dropped ← drop_packet;
        _ ← (if dropped : bool then mret tt else publish_isub cid rcid packet);
        _ ← bufferProxyPacket rcid 0 sk sn packet;
        send_request fuel cid rcid room sk data dataSize sn (u32 (sent + n)) (u16 (credit - 1))
    end
  else mret sn.

Definition publishData_request (cid rcid : IcnId) (sk : Z) (data : bytes) (dataSize : Z) : M Ltp Z :=
  l ← icn_length cid;
  rl ← icn_length rcid;
  let room := payload_room (mtu - l - rl - ICN_HEADER_LENGTH - LTP_HDR_DATA - 20) in
  sn ← send_request (Z.to_nat dataSize) cid rcid room sk data dataSize 0 0 ltpInitialCredit;
  _ ← publishWindowEnd_request cid rcid sk sn;
  mret sn.

(** A range of the fragments of a request.  They go to the node itself, under
    the identifier of the response. *)
Fixpoint publish_range (fuel : nat) (rcid : IcnId) (nodes : list Z) (packets : gmap Z bytes) (sequence last : Z) : M Ltp unit :=
  if sequence <=? last then
    match packets !! sequence with
    | None => mret tt
    | Some packet =>
        match fuel with
        | O => throw Endless
        | Datatypes.S fuel =>
            dropped ← drop_packet;
            _ ← (if dropped : bool then mret tt else publish_nodes rcid nodes packet);
            publish_range fuel rcid nodes packets (u16 (sequence + 1)) last
        end
    end
  else mret tt.

Definition publishDataRange_request (rcid : IcnId) (ripd sk start end_ : Z) : M Ltp unit :=
  cid ← reverse_cid rcid;
  packets ← gets (λ s, at3 (icn_hashed rcid) ripd sk (proxyPacketBuffer s));
  match cid, packets with
  | Some _, Some packets => publish_range (size packets) rcid [own_nid] packets start end_
  | _, _ => mret tt
  end.

Definition publishDataRange_response (rcid : IcnId) (sk : Z) (g : nack_group) : M Ltp unit :=
  packets ← gets (λ s, at3 (icn_hashed rcid) 0 sk (ltpPacketBuffer s));
  match packets with
  | None => mret tt
  | Some packets =>
      match ng_start g, ng_end g with
      | Some start, Some end_ => publish_range (size packets) rcid (ng_nodes g) packets start end_
      | _, _ => throw Uninitialised
      end
  end.

(** ** Publishing and waiting

    What a thread sees while it waits: a look at its table after [waited]
    milliseconds since the beginning, or the end of the timer. *)
Inductive moment := Poll (waited : Z) | Timeout.

(** A request: the data are published, then the thread waits. *)
Definition publish_request (cid rcid : IcnId) (sk : Z) (data : bytes) (dataSize : Z) : M Ltp Z :=
  _ ← addReverseLookUp cid rcid;
  publishData_request cid rcid sk data dataSize.

(** [true] when the thread leaves *)
Definition request_poll (rcid : IcnId) (sk waited : Z) : M Ltp bool :=
  m ← gets (λ s, windowEndedRequests s !! icn_hashed rcid);
  match m with
  | None => mret true
  | Some m =>
      match m !! 0 with
      | None => throw EndDeref
      | Some keys =>
          match keys !! sk with
          | None => throw EndDeref
          | Some false => mret false
          | Some true =>
              _ ← add_rtt waited;
              _ ← modify (on_requests (λ all, pruned (icn_hashed rcid) (pruned 0 (delete sk keys) m) all));
              mret true
          end
      end
  end.

(** One moment; the number of attempts that are left, 0 when the thread leaves *)
Definition request_wait (cid rcid : IcnId) (sk sn attempts : Z) (now : moment) : M Ltp Z :=
  match now with
  | Poll waited => finished ← request_poll rcid sk waited; mret (if finished : bool then 0 else attempts)
  | Timeout => _ ← publishWindowEnd_request cid rcid sk sn; mret (attempts - 1)
  end.

(** A response *)
Inductive publisher_phase := Sending | Updating (unconfirmed : list Z) | Ending (attempts : Z) | Done.
Record Publisher := mkPub {
  p_rcid : IcnId;
  p_nodes : list Z;
  p_data : bytes;
  p_size : Z;
  p_sk : Z;
  p_sn : Z;
  p_sent : Z;
  p_credit : Z;
  p_phase : publisher_phase;
}.

Definition publish_response (rcid : IcnId) (sk : Z) (nodes : list Z) (data : bytes) (dataSize : Z) : Publisher :=
  mkPub rcid nodes data dataSize sk 0 0 ltpInitialCredit Sending.

Definition in_phase (ph : publisher_phase) (p : Publisher) : Publisher :=
  mkPub (p_rcid p) (p_nodes p) (p_data p) (p_size p) (p_sk p) (p_sn p) (p_sent p) (p_credit p) ph.

Definition response_fragment (p : Publisher) : M Ltp Publisher :=
  l ← icn_length (p_rcid p);
  let room := payload_room (mitu - l - ICN_HEADER_LENGTH - LTP_HDR_DATA - 20) in
  let sn := u16 (p_sn p + 1) in
  '(n, packet) ← next_fragment room (p_data p) (p_size p) (p_sent p) 0 (p_sk p) sn;
  dropped ← drop_packet;
  _ ← (if dropped : bool then mret tt else publish_nodes (p_rcid p) (p_nodes p) packet);
  _ ← bufferLtpPacket (p_rcid p) 0 (p_sk p) sn packet;
  mret (mkPub (p_rcid p) (p_nodes p) (p_data p) (p_size p) (p_sk p) sn (u32 (p_sent p + n)) (u16 (p_credit p - 1)) Sending).

(** How many nodes have confirmed; the tables of the nodes are only reached
    when there are nodes. *)
Definition confirmed (nodes : list Z) (sk : Z) (m : option (gmap Z (gmap Z bool))) : M Ltp Z :=
  fold_each nodes (λ nid n,
    match m with
    | None => throw EndDeref
    | Some m => mret (if default false (m !! nid ≫= lookup sk) then u16 (n + 1) else n)
    end) 0.

Definition response_poll (rcid : IcnId) (nodes : list Z) (sk waited : Z) : M Ltp bool :=
  m ← gets (λ s, windowEndedResponses s !! icn_hashed rcid);
  match m with
  | None => mret true
  | Some m =>
      n ← confirmed nodes sk (m !! 0);
      if n =? Z.of_nat (length nodes) then _ ← add_rtt waited; mret true else mret false
  end.

Definition publisher_step (now : moment) (p : Publisher) : M Ltp Publisher :=
  match p_phase p with
  | Sending =>
      if p_sent p <? p_size p then
        if p_credit p =? 0 then
          _ ← publishWindowUpdate (p_rcid p) (p_sk p) (p_nodes p);
          mret (in_phase (Updating (p_nodes p)) p)
        else response_fragment p
      else
        _ ← publishWindowEnd_response (p_rcid p) (p_nodes p) (p_sk p) (p_sn p);
        mret (in_phase (Ending ENIGMA) p)
  | Updating [] =>
      _ ← removeNidsFromWindowUpdate (p_rcid p) (p_sk p) (p_nodes p);
      response_fragment (mkPub (p_rcid p) (p_nodes p) (p_data p) (p_size p) (p_sk p) (p_sn p) (p_sent p) ltpInitialCredit Sending)
  | Updating unconfirmed =>
      match now with
      | Poll _ => l ← wudsNotReceived (p_rcid p) (p_sk p); mret (in_phase (Updating l) p)
      | Timeout => _ ← publishWindowUpdate (p_rcid p) (p_sk p) unconfirmed; mret p
      end
  | Ending attempts =>
      match now with
      | Poll waited =>
          finished ← response_poll (p_rcid p) (p_nodes p) (p_sk p) waited;
          mret (if finished : bool then in_phase Done p else p)
      | Timeout =>
          _ ← publishWindowEnd_response (p_rcid p) (p_nodes p) (p_sk p) (p_sn p);
          mret (in_phase (if attempts - 1 =? 0 then Done else Ending (attempts - 1)) p)
      end
  | Done => mret p
  end.

(** The end of a session: the nodes of the group, when there is something to
    wait for *)
Definition publishEndOfSession (rcid : IcnId) (sk : Z) : M Ltp (list Z) :=
  group ← getCmcGroup rcid sk;
  match group with
  | None => mret []
  | Some nodes =>
      match nodes with
      | [] => mret []
      | _ =>
          _ ← addSessionEnd rcid 0 sk nodes;
          _ ← publishSessionEnd rcid nodes sk;
          mret nodes
      end
  end.

Definition session_poll (rcid : IcnId) (nodes : list Z) (sk waited : Z) : M Ltp bool :=
  m ← gets (λ s, sessionEndedResponses s !! icn_hashed rcid);
  match m with
  | None => mret true
  | Some m =>
      n ← confirmed nodes sk (m !! 0);
      if n =? Z.of_nat (length nodes) then _ ← add_rtt waited; _ ← deleteSessionEnd rcid 0 sk nodes; mret true else mret false
  end.

Definition session_wait (rcid : IcnId) (nodes : list Z) (sk attempts : Z) (now : moment) : M Ltp Z :=
  match now with
  | Poll waited => finished ← session_poll rcid nodes sk waited; mret (if finished : bool then 0 else attempts)
  | Timeout => _ ← publishSessionEnd rcid nodes sk; mret (attempts - 1)
  end.

(** ** Receiving *)

Definition field16 (packet : bytes) (off : Z) : M Ltp Z := b ← bytes_at packet off 2; mret (read16 b).
Definition field32 (packet : bytes) (off : Z) : M Ltp Z := b ← bytes_at packet off 4; mret (read32 b).

(** The header of data and its payload *)
Definition handle_data (rcid : IcnId) (nid : Z) (packet : bytes) : M Ltp unit :=
  sk ← field16 packet 8;
  sn ← field16 packet 10;
  payloadLength ← field16 packet 12;
  bufferIcnPacket rcid nid 0 sk sn payloadLength (drop 14 packet).

Definition handleData_response (rcid : IcnId) (packet : bytes) : M Ltp unit := handle_data rcid own_nid packet.

Definition handleData_request (rcid : IcnId) (nid : Z) (packet : bytes) : M Ltp unit :=
  _ ← handle_data rcid nid packet;
  modify (on_potential (inside (icn_hashed rcid) (inside 0 (add_new nid false)))).

(** The loop over the numbers that have arrived: the first and the last one
    that are missing, 0 when none is. *)
Fixpoint missing_from (previous : Z) (range : Z * Z) (l : list Z) : Z * (Z * Z) :=
  match l with
  | [] => (previous, range)
  | k :: l =>
      let range :=
        if (previous =? 0) && negb (k =? 1) then (1, 1)
        else if previous + 1 <? k then ((if range.1 =? 0 then previous + 1 else range.1), k - 1)
        else range in
      missing_from k range l
  end.

(** [None] when all fragments up to the one of the WE are there *)
Definition missing (arrived : gmap Z stored) (last : Z) : option (Z * Z) :=
  let '(highest, range) := missing_from 0 (0, 0) (in_order_of arrived).*1 in
  let range := if highest <? last then ((if range.1 =? 0 then last else range.1), last) else range in
  if range.1 =? 0 then None else Some range.

(** A client's attachment point *)
Definition handleControl_response (rcid : IcnId) (packet : bytes) : M Ltp (TpState * Z) :=
  type ← field32 packet 4;
  if type =? LTP_CONTROL_NACK then
    ripd ← field32 packet 8;
    sk ← field16 packet 12;
    start ← field16 packet 14;
    end_ ← field16 packet 16;
    _ ← publishDataRange_request rcid ripd sk start end_;
    mret (TP_STATE_NO_ACTION_REQUIRED, 0)
  else if type =? LTP_CONTROL_SESSION_END then
    sk ← field16 packet 12;
    cid ← reverse_cid rcid;
    _ ← match cid with None => mret tt | Some cid => publishSessionEnded cid rcid sk end;
    mret (TP_STATE_SESSION_ENDED, sk)
  else if type =? LTP_CONTROL_WINDOW_END then
    ripd ← field32 packet 8;
    sk ← field16 packet 12;
    sn ← field16 packet 14;
    m ← gets (λ s, at2 (icn_hashed rcid) ripd (icnPacketBuffer s));
    match m with
    | None => mret (TP_STATE_NO_ACTION_REQUIRED, 0)
    | Some m =>
        match m !! own_nid with
        | None =>
            cid ← reverse_cid rcid;
            _ ← match cid with None => mret tt | Some cid => publishWindowEnded_isub cid rcid ripd sk end;
            mret (TP_STATE_NO_ACTION_REQUIRED, 0)
        | Some keys =>
            match keys !! sk with
            | None => mret (TP_STATE_NO_ACTION_REQUIRED, 0)
            | Some arrived =>
                _ ← (if decide (arrived = ∅) then throw EndDeref else mret tt);
                cid ← reverse_cid rcid;
                match cid with
                | None => mret (TP_STATE_NO_ACTION_REQUIRED, 0)
                | Some cid =>
                    match missing arrived sn with
                    | None => _ ← publishWindowEnded_isub cid rcid ripd sk; mret (TP_STATE_ALL_FRAGMENTS_RECEIVED, sk)
                    | Some (first, last) => _ ← publishNack_isub cid rcid sk first last; mret (TP_STATE_NO_ACTION_REQUIRED, 0)
                    end
                end
            end
        end
    end
  else if type =? LTP_CONTROL_WINDOW_ENDED then
    ripd ← field32 packet 8;
    sk ← field16 packet 12;
    flag ← gets (λ s, at3 (icn_hashed rcid) ripd sk (windowEndedRequests s));
    match flag with
    | None => mret (TP_STATE_NO_ACTION_REQUIRED, 0)
    | Some _ =>
        _ ← modify (on_requests (inside (icn_hashed rcid) (inside ripd (insert sk true))));
        _ ← deleteProxyPacket rcid ripd sk;
        mret (TP_STATE_NO_ACTION_REQUIRED, 0)
    end
  else if type =? LTP_CONTROL_WINDOW_UPDATE then
    ripd ← field32 packet 8;
    sk ← field16 packet 12;
    cid ← reverse_cid rcid;
    _ ← match cid with None => mret tt | Some cid => publishWindowUpdated cid rcid ripd sk end;
    mret (TP_STATE_NO_ACTION_REQUIRED, 0)
  else if type =? LTP_CONTROL_WINDOW_UPDATED then
    _ ← field32 packet 8;
    mret (TP_STATE_NO_ACTION_REQUIRED, 0)
  else mret (TP_STATE_NO_ACTION_REQUIRED, 0).

(** A server's attachment point *)

(** All fragments of a request are confirmed also when there is no trace of the
    request. *)
Definition handle_window_end (rcid : IcnId) (nid ripd sk sn : Z) : M Ltp (TpState * Z) :=
  _ ← enableNIdInCmcGroup rcid nid;
  arrived ← gets (λ s, at4 (icn_hashed rcid) ripd nid sk (icnPacketBuffer s));
  match arrived with
  | None => _ ← publishWindowEnded_node rcid nid sk; mret (TP_STATE_FRAGMENTS_OUTSTANDING, 0)
  | Some arrived =>
      _ ← (if decide (arrived = ∅) then throw EndDeref else mret tt);
      match missing arrived sn with
      | None => _ ← publishWindowEnded_node rcid nid sk; mret (TP_STATE_ALL_FRAGMENTS_RECEIVED, sk)
      | Some (first, last) => _ ← publishNack_nodes rcid nid sk first last; mret (TP_STATE_FRAGMENTS_OUTSTANDING, 0)
      end
  end.

(** A node misses fragments of a response: when all nodes of the group have
    answered, the range of the group is published again to those that miss some. *)
Definition handle_nack (rcid : IcnId) (nid ripd sk start end_ : Z) : M Ltp (TpState * Z) :=
  _ ← addNackNodeId rcid ripd sk start end_ nid;
  group ← getCmcGroup rcid sk;
  match group with
  | None => mret (TP_STATE_NO_ACTION_REQUIRED, 0)
  | Some nodes =>
      weds ← gets (λ s, at2 (icn_hashed rcid) ripd (windowEndedResponses s));
      match weds with
      | None => mret (TP_STATE_NO_ACTION_REQUIRED, 0)
      | Some weds =>
          n ← confirmed nodes sk (Some weds);
          g ← nackGroup rcid ripd sk;
          if Z.of_nat (length nodes) >? n + Z.of_nat (length (ng_nodes g)) then mret (TP_STATE_NO_ACTION_REQUIRED, 0)
          else
            _ ← publishDataRange_response rcid sk g;
            _ ← deleteNackGroup rcid ripd sk;
            mret (TP_STATE_FRAGMENTS_OUTSTANDING, 0)
      end
  end.

(** The flag of a node is set; when no node of the group is missing, the
    packets of the response are deleted. *)
Definition handle_window_ended (rcid : IcnId) (nid sk : Z) : M Ltp (TpState * Z) :=
  flag ← gets (λ s, at4 (icn_hashed rcid) 0 nid sk (windowEndedResponses s));
  match flag with
  | None => mret (TP_STATE_NO_ACTION_REQUIRED, 0)
  | Some _ =>
      _ ← modify (on_responses (inside (icn_hashed rcid) (inside 0 (inside nid (insert sk true)))));
      weds ← gets (λ s, default ∅ (at2 (icn_hashed rcid) 0 (windowEndedResponses s)));
      group ← getCmcGroup rcid sk;
      match group with
      | None => _ ← deleteBufferedLtpPacket rcid sk; mret (TP_STATE_NO_ACTION_REQUIRED, 0)
      | Some nodes =>
          if forallb (λ n, default true ((weds : gmap Z (gmap Z bool)) !! n ≫= lookup sk)) nodes
          then _ ← deleteBufferedLtpPacket rcid sk; mret (TP_STATE_FRAGMENTS_OUTSTANDING, 0)
          else mret (TP_STATE_NO_ACTION_REQUIRED, 0)
      end
  end.

Definition handleControl_request (rcid : IcnId) (nid : Z) (packet : bytes) : M Ltp (TpState * Z) :=
  type ← field32 packet 4;
  if type =? LTP_CONTROL_NACK then
    ripd ← field32 packet 8;
    sk ← field16 packet 12;
    start ← field16 packet 14;
    end_ ← field16 packet 16;
    handle_nack rcid nid ripd sk start end_
  else if type =? LTP_CONTROL_SESSION_ENDED then
    sk ← field16 packet 12;
    flag ← gets (λ s, at4 (icn_hashed rcid) 0 nid sk (sessionEndedResponses s));
    match flag with
    | None => mret (TP_STATE_NO_ACTION_REQUIRED, sk)
    | Some _ =>
        _ ← modify (on_sessions (inside (icn_hashed rcid) (inside 0 (inside nid (insert sk true)))));
        mret (TP_STATE_FRAGMENTS_OUTSTANDING, sk)
    end
  else if type =? LTP_CONTROL_WINDOW_END then
    ripd ← field32 packet 8;
    sk ← field16 packet 12;
    sn ← field16 packet 14;
    handle_window_end rcid nid ripd sk sn
  else if type =? LTP_CONTROL_WINDOW_ENDED then
    sk ← field16 packet 12;
    handle_window_ended rcid nid sk
  else if type =? LTP_CONTROL_WINDOW_UPDATE then
    _ ← field16 packet 12;
    mret (TP_STATE_FRAGMENTS_OUTSTANDING, 0)
  else if type =? LTP_CONTROL_WINDOW_UPDATED then
    sk ← field16 packet 12;
    _ ← modify (on_wupdate (alter (alter (alter (alter (λ _, true) nid) sk) 0) (icn_hashed rcid)));
    mret (TP_STATE_NO_ACTION_REQUIRED, 0)
  else mret (TP_STATE_FRAGMENTS_OUTSTANDING, 0).

(** [handle] at a client's and at a server's attachment point; the number is
    the session key, when it is set. *)
Definition ltp_handle_response (rcid : IcnId) (packet : bytes) : M Ltp (TpState * Z) :=
  type ← field32 packet 0;
  if type =? LTP_DATA then _ ← handleData_response rcid packet; mret (TP_STATE_NO_ACTION_REQUIRED, 0)
  else if type =? LTP_CONTROL then handleControl_response rcid packet
  else mret (TP_STATE_NO_ACTION_REQUIRED, 0).

Definition ltp_handle_request (rcid : IcnId) (node : bytes) (packet : bytes) : M Ltp (TpState * Z) :=
  let nid := nid_of node in
  _ ← addNodeId nid;
  type ← field32 packet 0;
  if type =? LTP_DATA then _ ← handleData_request rcid nid packet; mret (TP_STATE_NO_ACTION_REQUIRED, 0)
  else if type =? LTP_CONTROL then handleControl_request rcid nid packet
  else mret (TP_STATE_NO_ACTION_REQUIRED, 0).

(** ** Putting a packet together *)

(** The memory that the listener gives, 65535 zeros *)
Definition retrieved_block : buffer := Some <$> replicate 65535 0.

Definition copy_stored (l : list (Z * stored)) : M Ltp (Z * buffer) :=
  fold_each l (λ e acc,
    let '(offset, block) := acc in
    match e.2 with
    | Freed _ => throw Dangling
    | Live b => block ← put offset b block; mret (u16 (offset + len b), block)
    end) (0, retrieved_block).

(** When a node has no other session, its table is erased; then the table of
    the RIPD is erased if other nodes are in it. *)
Definition erase_session (rcid : IcnId) (nid sk : Z) (all : gmap Z (gmap Z (gmap Z (gmap Z (gmap Z stored))))) :
    gmap Z (gmap Z (gmap Z (gmap Z (gmap Z stored)))) :=
  let rm := default ∅ (all !! icn_hashed rcid) in
  let pm := default ∅ (rm !! 0) in
  let keys := delete sk (default ∅ (pm !! nid)) in
  if decide (keys = ∅) then
    let pm := delete nid pm in
    let rm := if decide (pm = ∅) then <[0 := pm]> rm else delete 0 rm in
    pruned (icn_hashed rcid) rm all
  else <[icn_hashed rcid := <[0 := <[nid := keys]> pm]> rm]> all.

Definition retrievePacket (rcid : IcnId) (node : bytes) (sk : Z) : M Ltp (option bytes) :=
  let nid := nid_of node in
  arrived ← gets (λ s, at4 (icn_hashed rcid) 0 nid sk (icnPacketBuffer s));
  match arrived with
  | None => mret None
  | Some arrived =>
      let packetSize := foldl (λ n e, u16 (n + stored_size e.2)) 0 (in_order_of arrived) in
      '(_, block) ← copy_stored (in_order_of arrived);
      _ ← modify (on_received (erase_session rcid nid sk));
      mret (Some (take (Z.to_nat packetSize) (sent_bytes (λ _, 0) block)))
  end.
End ltp.
