(* ===== verification/NapHttp.v ===== *)
(** * The network attachment point: HTTP over ICN
    (apps/nap/namespaces/http.cc, apps/nap/namespaces/namespaces.cc,
    apps/nap/namespaces/management/dnslocal.cc, apps/nap/icn.cc)

    A client's attachment point (cNAP) publishes requests under the identifier
    of the host; a server's (sNAP) collects the nodes that have sent the same
    request and publishes the response to them as a group (CMC group).  The
    groups and the known nodes are shared with the lightweight transport.

    The calls that wait are the machines of the transport; here is what comes
    before the wait.  [write_ret] is what write() gives, [None] for EINTR. *)
From stdpp Require Import base list gmap sets.
From Stdlib Require Import ZArith Lia Bool.
From S2P Require Import Prelude Enums Containers UserLib Blocks NapTypes NapLtp.

Local Open Scope Z_scope.

Definition MANAGEMENT_II_DNS_LOCAL : Z := 1.
Definition NAMESPACE_MANAGEMENT : Z := 4.

(** A request that waits for its host, with the time of its arrival *)
Record http_request := mkReq { rq_cid : IcnId; rq_rcid : IcnId; rq_sk : Z; rq_method : Z; rq_packet : bytes; rq_timestamp : Z }.

(** What is given to a new thread of the TCP client *)
Record server_request := mkServer { sv_cid : IcnId; sv_rcid : IcnId; sv_sk : Z; sv_node : bytes; sv_packet : bytes }.

Inductive socket_action := Written (fd : Z) (b : bytes) | Shutdown (fd : Z) | Closed (fd : Z).

Record NapHttp := mkHttp {
  h_ltp : Ltp;
  cIds : gmap Z IcnId;
  rCIds : gmap Z IcnId;
  reverseNidTorCId : gmap Z (list Z);
  ipEndpointSessions : gmap Z (gmap Z (list Z));
  packetBufferRequests : gmap Z (gmap Z http_request);
  to_server : list server_request;
  socket_out : list socket_action;
  h_writes : nat;
  h_ticks : nat;
}.

Definition on_ltp (f : Ltp → Ltp) (s : NapHttp) : NapHttp :=
  mkHttp (f (h_ltp s)) (cIds s) (rCIds s) (reverseNidTorCId s) (ipEndpointSessions s) (packetBufferRequests s) (to_server s) (socket_out s) (h_writes s) (h_ticks s).
Definition on_cIds (f : gmap Z IcnId → gmap Z IcnId) (s : NapHttp) : NapHttp :=
  mkHttp (h_ltp s) (f (cIds s)) (rCIds s) (reverseNidTorCId s) (ipEndpointSessions s) (packetBufferRequests s) (to_server s) (socket_out s) (h_writes s) (h_ticks s).
Definition on_rCIds (f : gmap Z IcnId → gmap Z IcnId) (s : NapHttp) : NapHttp :=
  mkHttp (h_ltp s) (cIds s) (f (rCIds s)) (reverseNidTorCId s) (ipEndpointSessions s) (packetBufferRequests s) (to_server s) (socket_out s) (h_writes s) (h_ticks s).
Definition on_reverse_nids (f : gmap Z (list Z) → gmap Z (list Z)) (s : NapHttp) : NapHttp :=
  mkHttp (h_ltp s) (cIds s) (rCIds s) (f (reverseNidTorCId s)) (ipEndpointSessions s) (packetBufferRequests s) (to_server s) (socket_out s) (h_writes s) (h_ticks s).
Definition on_endpoints (f : gmap Z (gmap Z (list Z)) → gmap Z (gmap Z (list Z))) (s : NapHttp) : NapHttp :=
  mkHttp (h_ltp s) (cIds s) (rCIds s) (reverseNidTorCId s) (f (ipEndpointSessions s)) (packetBufferRequests s) (to_server s) (socket_out s) (h_writes s) (h_ticks s).
Definition on_waiting (f : gmap Z (gmap Z http_request) → gmap Z (gmap Z http_request)) (s : NapHttp) : NapHttp :=
  mkHttp (h_ltp s) (cIds s) (rCIds s) (reverseNidTorCId s) (ipEndpointSessions s) (f (packetBufferRequests s)) (to_server s) (socket_out s) (h_writes s) (h_ticks s).
Definition on_to_server (f : list server_request → list server_request) (s : NapHttp) : NapHttp :=
  mkHttp (h_ltp s) (cIds s) (rCIds s) (reverseNidTorCId s) (ipEndpointSessions s) (packetBufferRequests s) (f (to_server s)) (socket_out s) (h_writes s) (h_ticks s).
Definition on_socket_out (f : list socket_action → list socket_action) (s : NapHttp) : NapHttp :=
  mkHttp (h_ltp s) (cIds s) (rCIds s) (reverseNidTorCId s) (ipEndpointSessions s) (packetBufferRequests s) (to_server s) (f (socket_out s)) (h_writes s) (h_ticks s).
Definition on_writes (f : nat → nat) (s : NapHttp) : NapHttp :=
  mkHttp (h_ltp s) (cIds s) (rCIds s) (reverseNidTorCId s) (ipEndpointSessions s) (packetBufferRequests s) (to_server s) (socket_out s) (f (h_writes s)) (h_ticks s).
Definition on_h_ticks (f : nat → nat) (s : NapHttp) : NapHttp :=
  mkHttp (h_ltp s) (cIds s) (rCIds s) (reverseNidTorCId s) (ipEndpointSessions s) (packetBufferRequests s) (to_server s) (socket_out s) (h_writes s) (f (h_ticks s)).

Definition with_ltp {A : Type} (m : M Ltp A) : M NapHttp A := λ s,
  match m (h_ltp s) with
  | Ok (a, l) => Ok (a, on_ltp (λ _, l) s)
  | Fault e => Fault e
  end.
Definition with_core {A : Type} (m : M Blackadder A) : M NapHttp A := with_ltp (with_ltp_ba m).
Definition hgets {A : Type} (f : NapHttp → A) : M NapHttp A := s ← get; mret (f s).

Section http.
Context (other_int : bytes → Z) (getpid : Z) (sendmsg_ret : list (Z * Netlink.addressed bytes) → Z) (junk : nat → Z) (rand : nat → Z).
Context (mtu mitu ltpInitialCredit ltpRttListSize tcDropRate own_nid : Z).
Context (clock : nat → Z) (write_ret : nat → option Z) (retries : nat).

Definition local_clock : M NapHttp Z :=
  n ← hgets h_ticks;
  _ ← modify (on_h_ticks Datatypes.S);
  mret (clock n).

(** ** Nodes and sessions *)

Definition addReversNidTorCIdLookUp (node : bytes) (rcid : IcnId) : M NapHttp unit :=
  modify (on_reverse_nids (λ m,
    let l := default [] (m !! nid_of other_int node) in
    if decide (icn_hashed rcid ∈ l) then m else <[nid_of other_int node := l ++ [icn_hashed rcid]]> m)).

Definition addIpEndpointSession (rcid : IcnId) (sk : Z) : M NapHttp unit :=
  modify (on_endpoints (λ all,
    let l := default [] (at2 (icn_hashed rcid) 0 all) in
    if decide (sk ∈ l) then all else inside (icn_hashed rcid) (insert 0 (l ++ [sk])) all)).

(** The first occurrence is erased. *)
Fixpoint erase_first (k : Z) (l : list Z) : list Z :=
  match l with
  | [] => []
  | x :: l => if x =? k then l else x :: erase_first k l
  end.

(** The loops that erase empty values: after an erasure the iterator goes back
    to the first entry and is then advanced. *)
Section erasing.
Context {A : Type} (is_nothing : A → bool).

Definition first_key (m : gmap Z A) : option Z := head (in_order_of m).*1.
Definition next_key (k : Z) (m : gmap Z A) : option Z := head (List.filter (λ k', k <? k') (in_order_of m).*1).

Fixpoint erase_empty (fuel : nat) (it : option Z) (m : gmap Z A) : M NapHttp (gmap Z A) :=
  match it with
  | None => mret m
  | Some k =>
      match fuel with
      | O => throw Endless
      | Datatypes.S fuel =>
          match m !! k with
          | None => throw EndDeref
          | Some x =>
              if is_nothing x then
                let m := delete k m in
                match first_key m with
                | None => mret m
                | Some k => erase_empty fuel (next_key k m) m
                end
              else erase_empty fuel (next_key k m) m
          end
      end
  end.
Definition erase_all_empty (m : gmap Z A) : M NapHttp (gmap Z A) :=
  erase_empty ((1 + size m) * (1 + size m)) (first_key m) m.
End erasing.

Definition no_entries {A : Type} (m : gmap Z A) : bool := bool_decide (m = ∅).
Definition no_elements (l : list Z) : bool := match l with [] => true | _ => false end.

Definition deleteSessionKey (sk : Z) : M NapHttp unit :=
  all ← hgets ipEndpointSessions;
  let all : gmap Z (gmap Z (list Z)) := (λ m : gmap Z (list Z), erase_first sk <$> m) <$> (all : gmap Z (gmap Z (list Z))) in
  all ← fold_each (in_order_of all) (λ e all, m ← erase_all_empty no_elements e.2; mret (<[e.1 := m]> all)) all;
  all ← erase_all_empty no_entries all;
  modify (on_endpoints (λ _, all)).

(** ** Forwarding states *)

Definition http_forwarding (cid : IcnId) (state : bool) : M NapHttp unit :=
  modify (λ s,
    match cIds s !! icn_hashed cid with
    | Some _ => on_cIds (alter (set_forwarding state) (icn_hashed cid)) s
    | None => on_rCIds (alter (set_forwarding state) (icn_hashed cid)) s
    end).

Definition node_forwarding (nid : Z) (state : bool) : M NapHttp unit :=
  with_ltp (modify (on_nids (alter (λ _, state) nid))).

(** ** Requests *)

Definition bufferRequest (cid rcid : IcnId) (sk method : Z) (packet : bytes) (packetSize : Z) : M NapHttp unit :=
  content ← bytes_at packet 0 packetSize;
  t ← local_clock;
  modify (on_waiting (inside (icn_hashed cid) (insert (icn_hashed rcid) (mkReq cid rcid sk method content t)))).

Definition http_advertise (cid : IcnId) : M NapHttp unit :=
  id ← binId cid;
  prefix ← binPrefixId cid;
  with_core (publish_info getpid sendmsg_ret id prefix DOMAIN_LOCAL None 0).

(** The scopes between the root and the item; the number of levels is taken
    from the number of bytes. *)
Definition publish_scopes (cid : IcnId) : M NapHttp unit :=
  root ← binRootScopeId cid;
  empty ← binEmpty;
  _ ← with_core (publish_scope getpid sendmsg_ret root empty DOMAIN_LOCAL None 0);
  l ← icn_length cid;
  for_each (seq 2 (Z.to_nat (l / 16) - 2)) (λ i,
    id ← binScopeId (Z.of_nat i) cid;
    path ← binScopePath (Z.of_nat i - 1) cid;
    with_core (publish_scope getpid sendmsg_ret id path DOMAIN_LOCAL None 0)).

(** The number of the last fragment, when the request is published at once *)
Definition handleRequest (fqdn resource : bytes) (method : Z) (packet : bytes) (packetSize sk : Z) : M NapHttp (option Z) :=
  let cid := icn_of_fqdn other_int fqdn in
  let rcid := icn_of_url other_int fqdn resource in
  _ ← addIpEndpointSession rcid sk;
  known ← hgets (λ s, cIds s !! icn_hashed cid);
  match known with
  | None =>
      _ ← modify (on_cIds (insert (icn_hashed cid) cid));
      _ ← bufferRequest cid rcid sk method packet packetSize;
      _ ← publish_scopes cid;
      _ ← http_advertise cid;
      mret None
  | Some known =>
      if icn_forwarding known then
        sn ← with_ltp (publish_request getpid sendmsg_ret junk rand mtu ltpInitialCredit tcDropRate cid rcid sk packet packetSize);
        mret (Some sn)
      else
        _ ← http_advertise cid;
        _ ← bufferRequest cid rcid sk method packet packetSize;
        mret None
  end.

Definition http_publishFromBuffer (cid : IcnId) : M NapHttp unit :=
  requests ← hgets (λ s, packetBufferRequests s !! icn_hashed cid);
  match requests with
  | None => mret tt
  | Some requests =>
      _ ← for_each (in_order_of requests) (λ e,
        let r := e.2 in
        _ ← with_ltp (publish_request getpid sendmsg_ret junk rand mtu ltpInitialCredit tcDropRate
                        (rq_cid r) (rq_rcid r) (rq_sk r) (rq_packet r) (len (rq_packet r)));
        mret tt);
      modify (on_waiting (delete (icn_hashed cid)))
  end.

(** ** Groups of nodes *)

Definition createCmcGroup (rcid : IcnId) (sk : Z) (nodes : list Z) : M NapHttp unit :=
  with_ltp (modify (on_groups (λ all,
    match at3 (icn_hashed rcid) 0 sk all with
    | Some (_ :: _) => all
    | _ => inside (icn_hashed rcid) (inside 0 (insert sk nodes)) all
    end))).

(** The nodes that wait for a response: those that can be reached, and whether
    one of them cannot.  The flag of a node says that an end of window of its
    request was seen; it is set before the fragments are looked at, so it does
    not mean that the request is complete. *)
Definition ready_nodes (nids : gmap Z bool) (potential : gmap Z bool) : list Z * bool :=
  let waiting := omap (λ e, if e.2 : bool then Some e.1 else None) (in_order_of potential) in
  (List.filter (λ n, default false (nids !! n)) waiting, existsb (λ n, negb (default false (nids !! n))) waiting).

(** [true] when the response has to wait *)
Definition http_getCmcGroup (rcid : IcnId) (sk : Z) (firstPacket : bool) : M NapHttp (bool * list Z) :=
  group ← with_ltp (getCmcGroup rcid sk);
  match group with
  | Some (n :: nodes) => mret (false, n :: nodes)
  | _ =>
      if negb firstPacket then mret (false, [])
      else
        potential ← with_ltp (gets (λ l, at2 (icn_hashed rcid) 0 (potentialCmcGroups l)));
        match potential with
        | None => mret (false, [])
        | Some potential =>
            nids ← with_ltp (gets knownNIds);
            let '(nodes, wait) := ready_nodes nids potential in
            match nodes with
            | [] => mret (true, [])
            | _ =>
                _ ← createCmcGroup rcid sk nodes;
                let left := foldl (λ m n, delete n m) potential nodes in
                _ ← with_ltp (modify (on_potential (λ all,
                      pruned (icn_hashed rcid) (pruned 0 left (default ∅ (all !! icn_hashed rcid))) all)));
                mret (wait, nodes)
            end
        end
  end.

(** One attempt to form a group.  Between two of them the thread sleeps if it
    has to wait; after the last one it gives up, even with a group. *)
Inductive attempt := Publishing (p : Publisher) | TryAgain (attempts : Z) | GivenUp.

Definition handleResponse (rcid : IcnId) (sk : Z) (firstPacket : bool) (packet : bytes) (packetSize attempts : Z) : M NapHttp attempt :=
  '(_, nodes) ← http_getCmcGroup rcid sk firstPacket;
  if attempts =? 0 then mret GivenUp
  else
    match nodes with
    | [] => mret (TryAgain (attempts - 1))
    | _ => mret (Publishing (publish_response ltpInitialCredit rcid sk nodes packet packetSize))
    end.

(** After the nodes have been told *)
Definition closeCmcGroup (rcid : IcnId) (sk : Z) : M NapHttp unit :=
  with_ltp (modify (on_groups (λ all,
    match at2 (icn_hashed rcid) 0 all with
    | Some m => if decide (is_Some (m !! sk)) then pruned (icn_hashed rcid) (pruned 0 (delete sk m) (default ∅ (all !! icn_hashed rcid))) all else all
    | None => all
    end))).

(** ** The endpoints *)

Definition socket_write (fd : Z) (b : bytes) : M NapHttp (option Z) :=
  n ← hgets h_writes;
  _ ← modify (on_writes Datatypes.S);
  match write_ret n with
  | None => mret None
  | Some r => _ ← (if r <? 0 then mret tt else modify (on_socket_out (λ l, l ++ [Written fd (take (Z.to_nat r) b)]))); mret (Some r)
  end.

(** One socket: whether it is to be forgotten *)
Fixpoint write_to (fuel : nat) (fd : Z) (packet : bytes) : M NapHttp bool :=
  if len packet =? 0 then mret false
  else
    match fuel with
    | O => throw Endless
    | Datatypes.S fuel =>
        r ← socket_write fd packet;
        match r with
        | None => write_to fuel fd packet
        | Some r =>
            if r =? -1 then _ ← modify (on_socket_out (λ l, l ++ [Closed fd])); mret true
            else mret (r <? len packet)
        end
    end.

Definition sendToEndpoint (rcid : IcnId) (packet : bytes) : M NapHttp unit :=
  fds ← hgets (λ s, at2 (icn_hashed rcid) 0 (ipEndpointSessions s));
  match fds with
  | None => mret tt
  | Some fds =>
      gone ← fold_each fds (λ fd gone, g ← write_to retries fd packet; mret (if g : bool then gone ++ [fd] else gone)) [];
      modify (on_endpoints (inside (icn_hashed rcid) (insert 0 (foldl (λ l fd, erase_first fd l) fds gone))))
  end.

Definition endSession (rcid : IcnId) : M NapHttp unit :=
  fds ← hgets (λ s, at2 (icn_hashed rcid) 0 (ipEndpointSessions s));
  for_each (default [] fds) (λ fd, modify (on_socket_out (λ l, l ++ [Shutdown fd]))).

(** ** Subscriptions and the management namespace *)

Definition subscribeToFqdn (cid : IcnId) : M NapHttp unit :=
  id ← binId cid;
  prefix ← binPrefixId cid;
  with_core (subscribe_info getpid sendmsg_ret id prefix DOMAIN_LOCAL None 0).

Definition unsubscribeFromFqdn (cid : IcnId) : M NapHttp unit :=
  id ← binId cid;
  prefix ← binPrefixId cid;
  with_core (unsubscribe_info getpid sendmsg_ret id prefix DOMAIN_LOCAL None 0).

(** [video] is the name of the dummy identifier, video.point. *)
Definition http_initialise (httpHandler : bool) (video : bytes) (fqdns : list IcnId) : M NapHttp unit :=
  if httpHandler then
    let cid := icn_of_fqdn other_int video in
    root ← binRootScopeId cid;
    empty ← binEmpty;
    _ ← with_core (publish_scope getpid sendmsg_ret root empty DOMAIN_LOCAL None 0);
    for_each fqdns subscribeToFqdn
  else mret tt.

(** A host has moved: it is looked up by the number in the announcement. *)
Definition handleDnsLocal (fqdn : Z) : M NapHttp unit :=
  known ← hgets (λ s, cIds s !! fqdn);
  match known with
  | None => mret tt
  | Some cid =>
      _ ← modify (on_cIds (insert fqdn (set_forwarding false cid)));
      id ← binId cid;
      prefix ← binPrefixId cid;
      with_core (unpublish_info getpid sendmsg_ret id prefix DOMAIN_LOCAL None 0)
  end.

Definition dns_local_cid : IcnId := icn_of_item other_int NAMESPACE_MANAGEMENT MANAGEMENT_II_DNS_LOCAL.

(** The constructor of DNSlocal *)
Definition dns_local_start (cNap : bool) : M NapHttp unit :=
  root ← binRootScopeId dns_local_cid;
  empty ← binEmpty;
  _ ← with_core (publish_scope getpid sendmsg_ret root empty DOMAIN_LOCAL None 0);
  id ← binId dns_local_cid;
  prefix ← binPrefixId dns_local_cid;
  if cNap then with_core (subscribe_info getpid sendmsg_ret id prefix DOMAIN_LOCAL None 0)
  else with_core (publish_info getpid sendmsg_ret id prefix DOMAIN_LOCAL None 0).

Definition uintId (cid : IcnId) : M NapHttp Z := s ← icn_id cid; mret (u32 (atoi other_int s)).

Definition dns_announce (cid : IcnId) : M NapHttp unit :=
  n ← uintId cid;
  id ← binIcnId dns_local_cid;
  with_core (publish_data getpid sendmsg_ret id DOMAIN_LOCAL None 0 (le32 n) 4).

Definition handlePublishedData (cid : IcnId) (data : bytes) (data_len : Z) : M NapHttp unit :=
  item ← scopeId 2 cid;
  if atoi other_int item =? MANAGEMENT_II_DNS_LOCAL then
    content ← bytes_at data 0 data_len;
    if data_len >? 4 then throw BufferOverflow
    else if data_len <? 4 then throw Uninitialised
    else handleDnsLocal (read32 content)
  else mret tt.

(** ** The listener, for identifiers of other namespaces than IP *)

Definition http_event (type : Z) (id node isub data : bytes) (data_len : Z) : M NapHttp unit :=
  let icnId := icn_assign other_int (chararray_to_hex id) no_icnid in
  let http := icn_rootNamespace icnId =? NAMESPACE_HTTP in
  if type =? START_PUBLISH then
    if http then _ ← http_forwarding icnId true; http_publishFromBuffer icnId else mret tt
  else if type =? START_PUBLISH_iSUB then node_forwarding (nid_of other_int id) true
  else if (type =? STOP_PUBLISH) || (type =? PAUSE_PUBLISH) then
    if http then http_forwarding icnId false else mret tt
  else if type =? PUBLISHED_DATA then
    if http then
      '(state, sk) ← with_ltp (ltp_handle_response getpid sendmsg_ret junk rand tcDropRate own_nid icnId data);
      match state with
      | TP_STATE_ALL_FRAGMENTS_RECEIVED =>
          packet ← with_ltp (retrievePacket other_int icnId (nid_str own_nid) sk);
          match packet with None => mret tt | Some packet => sendToEndpoint icnId packet end
      | TP_STATE_SESSION_ENDED => endSession icnId
      | _ => mret tt
      end
    else if icn_rootNamespace icnId =? NAMESPACE_MANAGEMENT then handlePublishedData icnId data data_len
    else mret tt
  else if type =? PUBLISHED_DATA_iSUB then
    let rcid := icn_assign other_int (chararray_to_hex isub) no_icnid in
    _ ← addReversNidTorCIdLookUp node rcid;
    if http then
      '(state, sk) ← with_ltp (ltp_handle_request other_int getpid sendmsg_ret junk rand tcDropRate rcid node data);
      match state with
      | TP_STATE_ALL_FRAGMENTS_RECEIVED =>
          packet ← with_ltp (retrievePacket other_int rcid node sk);
          match packet with
          | None => mret tt
          | Some packet => modify (on_to_server (λ l, l ++ [mkServer icnId rcid sk node packet]))
          end
      | _ => mret tt
      end
    else mret tt
  else mret tt.

(** ** The cleaner of the buffer of requests

    After an erasure the inner loop begins again, so it erases the first request
    that is too old until there is none.  When a host has no requests left its
    entry is erased, and then the iterator of the outer loop is advanced. *)
Section cleaner.
Context (seconds : Z → Z) (bufferCleanerInterval : Z).

Definition request_old (now : Z) (r : http_request) : bool := u32 (seconds (now - rq_timestamp r)) >? bufferCleanerInterval.

Fixpoint clean_requests (fuel : nat) (now : Z) (m : gmap Z http_request) : option (gmap Z http_request) :=
  match List.find (λ e, request_old now e.2) (in_order_of m) with
  | None => Some m
  | Some (k, _) => match fuel with O => None | Datatypes.S fuel => clean_requests fuel now (delete k m) end
  end.

Definition clean_host (now cid : Z) : M NapHttp unit :=
  m ← hgets (λ s, default ∅ (packetBufferRequests s !! cid));
  match clean_requests (size m) now m with
  | None => throw Endless
  | Some m => if decide (m = ∅) then throw Dangling else modify (on_waiting (insert cid m))
  end.

Definition http_cleaner_round : M NapHttp unit :=
  now ← local_clock;
  hosts ← hgets (λ s, (in_order_of (packetBufferRequests s)).*1);
  for_each hosts (clean_host now).
End cleaner.
End http.
