(* ===== verification/NapLtpPackets.v ===== *)
(** * Messages of the lightweight transport

    What is published, what is read from it, and what a receiver that looks for
    missing fragments asks for. *)
From stdpp Require Import base list gmap sets sorting.
From Stdlib Require Import ZArith Lia Bool.
From S2P Require Import Prelude Enums Containers LocalProxy ProxyProps ProxyDelivery UserLib UserProps Blocks NapTypes NapUTP NapUTPProps NapLtp.

Local Open Scope Z_scope.

(** ** Publications to implicit subscribers and to lists of nodes *)

Section publications.
Context (getpid : Z) (sendmsg_ret : list (Z * Netlink.addressed bytes) → Z).

Definition isub_body (id isub data : bytes) : bytes :=
  [PUBLISH_DATA_iSUB; Z.of_nat (level id)] ++ id ++ [DOMAIN_LOCAL; Z.of_nat (level isub)] ++ isub ++ data.
Definition nodes_body (id : bytes) (nodes : list bytes) (data : bytes) : bytes :=
  [PUBLISH_DATA_iMULTICAST; Z.of_nat (level id)] ++ id ++ [DOMAIN_LOCAL; Z.of_nat (length nodes)] ++ concat nodes ++ data.

Lemma publish_data_isub_run id isub data k m s : frags k id → frags m isub → ∃ r,
  publish_data_isub getpid sendmsg_ret id DOMAIN_LOCAL None 0 isub data (length data) s
  = Ok (r, sent_to_node (request_message getpid (isub_body id isub data)) s).
Proof.
  intros Hid Hisub. unfold publish_data_isub. rewrite (whole_frags _ _ Hid). cbn [negb].
  assert (Z.to_nat (id_len isub) * PURSUIT_ID_LEN = length isub)%nat as Hl.
  { rewrite (id_len_frags _ _ Hisub), Nat2Z.id. by destruct Hisub as [-> _]. }
  match goal with |- context [sendmsg _ ?iov] => destruct (sendmsg_run sendmsg_ret iov
    (request_message getpid (isub_body id isub data)) s) as [r Hr] end.
  - apply gather_message.
    + fits_iov. cbn [opt_iov app]. rewrite Hl. fits_iov. constructor.
    + cbn [opt_iov app]. rewrite Hl, !fmap_cons, !concat_cons. cbn [fmap list_fmap fst snd concat].
      rewrite !take_c_str, (id_len_frags _ _ Hid), (id_len_frags _ _ Hisub), app_nil_r, firstn_all.
      unfold isub_body. rewrite (level_frags _ _ Hid), (level_frags _ _ Hisub). cbn [take app]. by rewrite <-?app_assoc.
    + rewrite Hl. unfold len, isub_body. cbn [opt_len]. rewrite !length_app. cbn [length]. lia.
  - eexists. erewrite run_bind; [|rewrite (run_bind _ _ _ _ _ Hr); reflexivity]. done.
Qed.

Lemma publish_data_multicast_run id nodes data k s : frags k id → Forall (λ n, length n = NODEID_LEN) nodes → (length nodes < 256)%nat → ∃ r,
  publish_data_multicast getpid sendmsg_ret id DOMAIN_LOCAL None 0 nodes data (length data) s
  = Ok (r, sent_to_node (request_message getpid (nodes_body id nodes data)) s).
Proof.
  intros Hid Hnodes Hn. unfold publish_data_multicast. rewrite (whole_frags _ _ Hid). cbn [negb]. cbv zeta.
  assert (u8 (Z.of_nat (length nodes)) = Z.of_nat (length nodes)) as -> by (unfold u8; apply Z.mod_small; lia). rewrite Nat2Z.id.
  assert (length nodes * NODEID_LEN = length (concat nodes))%nat as Hl.
  { clear Hn. induction Hnodes as [|x l Hx Hl IH]; [done|]. cbn [concat length]. rewrite length_app, <-IH, Hx. lia. }
  rewrite Hl. match goal with |- context [sendmsg _ ?iov] => destruct (sendmsg_run sendmsg_ret iov
    (request_message getpid (nodes_body id nodes data)) s) as [r Hr] end.
  - apply gather_message.
    + fits_iov. cbn [opt_iov app]. fits_iov. constructor.
    + cbn [opt_iov app]. rewrite !fmap_cons, !concat_cons. cbn [fmap list_fmap fst snd concat].
      rewrite !take_c_str, (id_len_frags _ _ Hid), app_nil_r, firstn_all.
      unfold nodes_body. rewrite (level_frags _ _ Hid). cbn [take app]. by rewrite <-?app_assoc.
    + unfold len, nodes_body. cbn [opt_len]. rewrite !length_app. cbn [length]. lia.
  - eexists. erewrite run_bind; [|rewrite (run_bind _ _ _ _ _ Hr); reflexivity]. done.
Qed.

(** Names of nodes *)
Lemma nid_str_length n : 0 ≤ n < 10 ^ 8 → length (nid_str n) = NODEID_LEN.
Proof.
  intros Hn. unfold nid_str, padded, decimal. pose proof (decimal_from_length 20 n 8 Hn ltac:(lia)).
  rewrite length_app, length_replicate. unfold NODEID_LEN. lia.
Qed.

Lemma nid_of_str other_int n : 0 ≤ n < 10 ^ 8 → nid_of other_int (nid_str n) = n.
Proof.
  intros Hn. unfold nid_of, nid_str, padded, decimal.
  pose proof (decimal_from_digits 20 n ltac:(lia)) as Hd. pose proof (decimal_from_value 20 n ltac:(cbn in *; lia)) as Hv.
  rewrite atoi_digits; rewrite ?digits_value_zeros, ?Hv; [unfold u32; apply Z.mod_small; lia| |lia|lia].
  apply Forall_app. split; [|done]. apply Forall_replicate. unfold is_digit_char. lia.
Qed.

(** What the transport publishes *)
Definition isub_message (cid rcid : IcnId) (packet : bytes) : bytes :=
  request_message getpid (isub_body (default [] (match hex_to_chararray (icn_string cid) with Ok b => Some b | Fault _ => None end))
    (default [] (match hex_to_chararray (icn_string rcid) with Ok b => Some b | Fault _ => None end)) packet).
Definition nodes_message (rcid : IcnId) (nodes : list Z) (packet : bytes) : bytes :=
  request_message getpid (nodes_body (default [] (match hex_to_chararray (icn_string rcid) with Ok b => Some b | Fault _ => None end))
    (nid_str <$> nodes) packet).

Lemma publish_isub_run cid rcid k m packet s : icn_ok cid k → icn_ok rcid m →
  publish_isub getpid sendmsg_ret cid rcid packet s = Ok (tt, on_ltp_ba (sent_to_node (isub_message cid rcid packet)) s).
Proof.
  intros Hc Hr. destruct (icn_binary cid k Hc) as (id & Hid & Hfid & _). destruct (icn_binary rcid m Hr) as (rid & Hrid & Hfr & _).
  unfold publish_isub. rewrite (run_bind _ _ s id s) by (unfold binIcnId; by rewrite Hid).
  rewrite (run_bind _ _ s rid s) by (unfold binIcnId; by rewrite Hrid).
  destruct (publish_data_isub_run id rid packet k m (ltp_ba s) Hfid Hfr) as [r Hrun].
  erewrite run_bind; [|unfold with_ltp_ba; rewrite Hrun; reflexivity]. unfold isub_message. rewrite Hid, Hrid. done.
Qed.

Lemma publish_nodes_run rcid nodes k packet s : icn_ok rcid k → Forall (λ n, 0 ≤ n < 10 ^ 8) nodes → (length nodes < 256)%nat →
  publish_nodes getpid sendmsg_ret rcid nodes packet s = Ok (tt, on_ltp_ba (sent_to_node (nodes_message rcid nodes packet)) s).
Proof.
  intros Hr Hn Hl. destruct (icn_binary rcid k Hr) as (rid & Hrid & Hfr & _).
  unfold publish_nodes. rewrite (run_bind _ _ s rid s) by (unfold binIcnId; by rewrite Hrid).
  destruct (publish_data_multicast_run rid (nid_str <$> nodes) packet k (ltp_ba s) Hfr) as [r Hrun].
  { apply Forall_fmap. eapply Forall_impl; [exact Hn|]. intros n. apply nid_str_length. }
  { by rewrite length_fmap. }
  erewrite run_bind; [|unfold with_ltp_ba; rewrite Hrun; reflexivity]. unfold nodes_message. by rewrite Hrid.
Qed.
End publications.

(** ** Packets *)

Lemma read16_le16 z : 0 ≤ z < 65536 → read16 (le16 z) = z.
Proof. intros Hz. destruct (le16_read z Hz) as (a & b & -> & <-). done. Qed.

Lemma read32_le32 z : 0 ≤ z < 4294967296 → read32 (le32 z) = z.
Proof.
  intros Hz. unfold le32, read32, u8. rewrite !Z.shiftr_div_pow2 by lia. change (2 ^ 8) with 256. change (2 ^ 16) with 65536. change (2 ^ 24) with 16777216.
  pose proof (Z.div_mod z 256). pose proof (Z.div_mod (z / 256) 256). pose proof (Z.div_mod (z / 65536) 256). pose proof (Z.div_mod (z / 16777216) 256).
  rewrite (Z.div_div z 256 256) in * by lia. change (256 * 256) with 65536 in *.
  rewrite (Z.div_div z 65536 256) in * by lia. change (65536 * 256) with 16777216 in *.
  assert (z / 16777216 < 256) by (apply Z.div_lt_upper_bound; lia). assert (0 ≤ z / 16777216) by (apply Z.div_pos; lia).
  rewrite (Z.mod_small (z / 16777216) 256) by lia. lia.
Qed.

Section packets.
Context (junk : nat → Z).

(** What is in a block behind the fields *)
Definition filled (size : nat) (l : bytes) : bytes := l ++ (junk <$> seq (length l) (size - length l)).

Lemma sent_bytes_filled (l : bytes) n : sent_bytes junk ((Some <$> l) ++ replicate n None) = l ++ (junk <$> seq (length l) n).
Proof.
  unfold sent_bytes. rewrite imap_app. f_equal.
  - apply list_eq. intros i. rewrite list_lookup_imap, list_lookup_fmap. by destruct (l !! i).
  - apply list_eq. intros i. rewrite list_lookup_imap, list_lookup_fmap, length_fmap. destruct (decide (i < n)%nat).
    + rewrite lookup_replicate_2, lookup_seq_lt by done. done.
    + by rewrite !lookup_ge_None_2 by (rewrite ?length_replicate, ?length_seq; lia).
Qed.

Lemma ltp_packet_run size fields s : len (concat fields) ≤ size →
  ltp_packet junk size fields s = Ok (filled (Z.to_nat size) (concat fields), s).
Proof.
  intros Hsz. assert (0 ≤ size) by (unfold len in *; lia). unfold ltp_packet. rewrite (run_bind _ _ _ _ _ (alloc_run size s ltac:(lia))).
  set (l := concat fields) in *. rewrite (run_bind _ _ s ((Some <$> l) ++ replicate (Z.to_nat size - length l) None) s).
  - by rewrite sent_bytes_filled.
  - apply puts_run; [lia|]. rewrite memcpys_fits; fold l; unfold make_packet; [|rewrite length_replicate; unfold len in *; lia].
    cbn [Z.to_nat Nat.add take app]. by rewrite drop_replicate.
Qed.

Lemma control_packet_run size type sk rest s : 14 + len (concat rest) ≤ size →
  control_packet junk size type sk rest s = Ok (filled (Z.to_nat size) (le32 LTP_CONTROL ++ le32 type ++ le32 0 ++ le16 sk ++ concat rest), s).
Proof.
  intros Hsz. unfold control_packet. rewrite ltp_packet_run; [done|]. cbn [app concat]. unfold len in *. rewrite !length_app. cbn [length le32 le16]. lia.
Qed.

(** A field of a packet *)
Lemma field32_run (pre post : bytes) z off s : 0 ≤ z < 4294967296 → off = len pre → field32 (pre ++ le32 z ++ post) off s = Ok (z, s).
Proof.
  intros Hz Ho. unfold field32. rewrite (run_bind _ _ _ _ _ (bytes_at_run pre (le32 z) post off 4 s Ho eq_refl)). by rewrite read32_le32.
Qed.
Lemma field16_run (pre post : bytes) z off s : 0 ≤ z < 65536 → off = len pre → field16 (pre ++ le16 z ++ post) off s = Ok (z, s).
Proof.
  intros Hz Ho. unfold field16. rewrite (run_bind _ _ _ _ _ (bytes_at_run pre (le16 z) post off 2 s Ho eq_refl)). by rewrite read16_le16.
Qed.
End packets.

(** ** Missing fragments *)

(** What the loop knows after the numbers [seen]: no gap so far, or a range
    with a number that is missing. *)
Definition gap_state (seen : list Z) (previous : Z) (range : Z * Z) : Prop :=
  0 ≤ previous ∧ (previous = 0 ∨ previous ∈ seen) ∧ (∀ k, k ∈ seen → 1 ≤ k ≤ previous) ∧
  (range.1 = 0 ∧ (∀ k, 1 ≤ k ≤ previous → k ∈ seen) ∨
   1 ≤ range.1 ∧ range.1 ≤ range.2 ∧ range.2 ≤ previous ∧ ∃ k, range.1 ≤ k ≤ range.2 ∧ k ∉ seen ∧ k < previous).

Lemma missing_from_spec l : ∀ seen previous range, gap_state seen previous range → StronglySorted Z.lt l → Forall (λ k, previous < k) l →
  let '(highest, range') := missing_from previous range l in gap_state (seen ++ l) highest range' ∧ previous ≤ highest.
Proof.
  induction l as [|k l IH]; intros seen previous range Hst Hso Hf; cbn [missing_from].
  { rewrite app_nil_r. split; [done|lia]. }
  apply StronglySorted_inv in Hso as [Hso Hk]. apply Forall_cons in Hf as [Hpk Hf].
  assert (Forall (λ x, k < x) l) as Hkl by exact Hk. rewrite cons_middle, app_assoc.
  set (range1 := if _ && _ then _ else _).
  assert (gap_state (seen ++ [k]) k range1) as Hst1; [|specialize (IH (seen ++ [k]) k range1 Hst1 Hso Hkl);
    destruct (missing_from k range1 l) as [h r]; split; [tauto|lia]].
  destruct Hst as (H0 & _ & Hseen & Hrange). split; [lia|]. split; [right; apply elem_of_app; right; by left|]. split.
  { intros x [Hx|Hx%list_elem_of_singleton]%elem_of_app; [specialize (Hseen x Hx); lia|lia]. }
  assert (∀ x, x ∉ seen → x < k → x ∉ seen ++ [k]) as Hnot by (intros x Hx Hlt [?|?%list_elem_of_singleton]%elem_of_app; [done|lia]).
  unfold range1. destruct (Z.eqb_spec previous 0) as [->|Hp]; destruct (Z.eqb_spec k 1) as [->|Hk1]; cbn [andb negb].
  - rewrite (proj2 (Z.ltb_ge _ _)) by lia. destruct Hrange as [[Hr _]|(? & ? & ? & ?)]; [|lia]. left. split; [done|].
    intros x Hx. apply elem_of_app. right. apply list_elem_of_singleton. lia.
  - right. cbn. split_and!; [lia..|]. exists 1. split; [lia|]. split; [|lia]. apply Hnot; [|lia]. intros Hin. specialize (Hseen 1 Hin). lia.
  - lia.
  - destruct (Z.ltb_spec (previous + 1) k).
    + right. cbn [fst snd]. destruct (Z.eqb_spec range.1 0) as [Hz|Hz].
      * split_and!; [lia..|]. exists (previous + 1). split; [lia|]. split; [|lia]. apply Hnot; [|lia]. intros Hin. specialize (Hseen _ Hin). lia.
      * destruct Hrange as [[? _]|(? & ? & ? & x & Hx & Hxs & Hxp)]; [done|]. split_and!; [lia..|]. exists x. split; [lia|]. split; [by apply Hnot; [|lia]|lia].
    + destruct Hrange as [[Hr Hall]|(? & ? & ? & x & Hx & Hxs & Hxp)].
      * left. split; [done|]. intros x Hx. apply elem_of_app. destruct (decide (x = k)) as [->|]; [right; by left|left; apply Hall; lia].
      * right. split_and!; [lia..|]. exists x. split; [lia|]. split; [by apply Hnot; [|lia]|lia].
Qed.

Lemma in_order_strict {A : Type} (m : gmap Z A) : StronglySorted Z.lt (in_order_of m).*1.
Proof.
  rewrite in_order_keys. pose proof (key_order_sorted (dom m : gset Z)) as Hs. pose proof (NoDup_key_order (dom m : gset Z)) as Hnd.
  induction Hs as [|k l Hs IH Hk]; [constructor|]. apply NoDup_cons in Hnd as [Hnk Hnd]. constructor; [by apply IH|].
  apply Forall_forall. intros x Hx. rewrite Forall_forall in Hk. specialize (Hk x Hx). unfold key_le in Hk. cbn in Hk. apply Z.leb_le in Hk.
  destruct (decide (x = k)) as [->|]; [done|lia].
Qed.

Lemma elem_of_in_order_keys {A : Type} (m : gmap Z A) k : k ∈ (in_order_of m).*1 ↔ is_Some (m !! k).
Proof. rewrite in_order_keys, elem_of_key_order, elem_of_dom. done. Qed.

(** The receiver of a WE with the number [n] asks for a range with a fragment
    that it misses, or has all of them. *)
Lemma missing_spec (arrived : gmap Z stored) n : 1 ≤ n → (∀ k, is_Some (arrived !! k) → 1 ≤ k ≤ n) →
  match missing arrived n with
  | None => ∀ k, 1 ≤ k ≤ n → is_Some (arrived !! k)
  | Some (first, last) => 1 ≤ first ∧ first ≤ last ∧ last ≤ n ∧ ∃ k, first ≤ k ≤ last ∧ arrived !! k = None
  end.
Proof.
  intros Hn Hr. unfold missing. pose proof (missing_from_spec (in_order_of arrived).*1 [] 0 (0, 0)) as Hm.
  destruct (missing_from 0 (0, 0) (in_order_of arrived).*1) as [highest range]. destruct Hm as [(H0 & Hlast & Hseen & Hrange) _].
  { split; [lia|]. split; [by left|]. split; [by intros k ?%elem_of_nil|]. left. split; [done|lia]. }
  { apply in_order_strict. }
  { apply Forall_forall. intros k Hk%elem_of_in_order_keys. apply Hr in Hk. lia. }
  cbn [app] in *. assert (∀ k, k ∉ (in_order_of arrived).*1 → arrived !! k = None) as Hno.
  { intros k Hk. rewrite elem_of_in_order_keys in Hk. by apply eq_None_not_Some. }
  assert (∀ k, k ∈ (in_order_of arrived).*1 → is_Some (arrived !! k)) as Hyes by (intros k; apply elem_of_in_order_keys).
  assert (highest ≤ n) as Hhigh by (destruct Hlast as [->|Hin]; [lia|]; apply Hyes, Hr in Hin; lia).
  destruct (Z.ltb_spec highest n) as [Hlt|Hge].
  - cbn [fst]. destruct (Z.eqb_spec range.1 0) as [Hz|Hz].
    + rewrite (proj2 (Z.eqb_neq n 0)) by lia. split_and!; [lia..|]. exists n. split; [lia|]. apply Hno. intros Hin. apply Hseen in Hin. lia.
    + rewrite (proj2 (Z.eqb_neq range.1 0)) by done. destruct Hrange as [[? _]|(? & ? & ? & x & Hx & Hxs & Hxp)]; [done|].
      split_and!; [lia..|]. exists x. split; [lia|]. by apply Hno.
  - destruct (Z.eqb_spec range.1 0) as [Hz|Hz].
    + intros k Hk. apply Hyes. destruct Hrange as [[_ Hall]|(? & _)]; [apply Hall; lia|lia].
    + destruct range as [first last]. cbn [fst snd] in *. destruct Hrange as [[? _]|(? & ? & ? & x & Hx & Hxs & Hxp)]; [done|].
      split_and!; [lia..|]. exists x. split; [lia|]. by apply Hno.
Qed.
