(* ===== verification/NapLtpData.v ===== *)
(** * Fragments of requests and responses: what is sent is what is put together *)
From stdpp Require Import base list gmap sets sorting.
From Stdlib Require Import ZArith Lia Bool.
From S2P Require Import Prelude Enums Containers LocalProxy ProxyProps ProxyDelivery UserLib UserProps Blocks NapTypes NapUTP NapUTPProps NapLtp NapLtpPackets.

Local Open Scope Z_scope.

(** ** Nested tables *)

Lemma at2_inside {A : Type} a b (f : gmap Z A → gmap Z A) m : at2 a b (inside a f m) = f (default ∅ (m !! a)) !! b.
Proof. unfold at2, inside. by rewrite lookup_insert_eq. Qed.

Lemma at4_inside {A : Type} a b c d (f : gmap Z A → gmap Z A) m :
  at4 a b c d (inside a (inside b (inside c (inside d f))) m) = Some (f (default ∅ (at4 a b c d m))).
Proof.
  unfold at4, at3. rewrite at2_inside. unfold inside, at2. rewrite lookup_insert_eq. cbn [mbind option_bind]. rewrite lookup_insert_eq.
  cbn [mbind option_bind]. rewrite lookup_insert_eq. do 2 f_equal. destruct (m !! a) as [x|]; cbn [default from_option mbind option_bind id].
  - destruct (x !! b) as [y|]; cbn [default from_option mbind option_bind id].
    + destruct (y !! c); cbn [default from_option mbind option_bind id]; [done|by rewrite lookup_empty].
    + by rewrite !lookup_empty.
  - by rewrite !lookup_empty.
Qed.

Lemma inside_same {A : Type} k (f : gmap Z A → gmap Z A) m x : m !! k = Some x → f x = x → inside k f m = m.
Proof. intros Hk Hf. unfold inside. rewrite Hk. cbn. rewrite Hf. by apply insert_id. Qed.

Lemma inside4_same {A : Type} a b c d (f : gmap Z A → gmap Z A) m x :
  at4 a b c d m = Some x → f x = x → inside a (inside b (inside c (inside d f))) m = m.
Proof.
  unfold at4, at3, at2. intros H Hf. destruct (m !! a) as [x1|] eqn:E1; [|done]. cbn in H. destruct (x1 !! b) as [x2|] eqn:E2; [|done]. cbn in H.
  destruct (x2 !! c) as [x3|] eqn:E3; [|done]. cbn in H.
  eapply inside_same; [done|]. eapply inside_same; [done|]. eapply inside_same; [done|]. by eapply inside_same.
Qed.

(** ** Fragments *)

Definition padding (n : nat) : nat := if (n mod 8 =? 0)%nat then 0 else 8 - n mod 8.

Lemma padding_less n : (padding n < 8)%nat.
Proof. unfold padding. destruct (Nat.eqb_spec (n mod 8) 0); [lia|]. pose proof (Nat.mod_upper_bound n 8). lia. Qed.

Section fragments.
Context (junk : nat → Z) (room : nat) (Hroom : (0 < room)%nat) (Hmul : (room mod 8 = 0)%nat) (Hsmall : Z.of_nat room < 65000).

(** The number [sn] of session [sk]; [behind] is the memory behind the data. *)
Definition ltp_fragment (sk sn : Z) (behind c : bytes) : bytes :=
  filled junk (16 + (length c + padding (length c)))
    (le32 LTP_DATA ++ le32 0 ++ le16 sk ++ le16 sn ++ le16 (len c) ++ c ++ take (padding (length c)) behind).

Definition parts (data : bytes) : list bytes := chunks (length data) room data.

Lemma padding_full : padding room = 0%nat.
Proof. unfold padding. by rewrite Hmul. Qed.

Lemma next_fragment_run sk sn sent todo behind s : todo ≠ [] → (padding (length todo) ≤ length behind)%nat → len (sent ++ todo) < 65536 →
  let c := take room todo in
  next_fragment junk (Z.of_nat room) (sent ++ todo ++ behind) (len (sent ++ todo)) (len sent) 0 sk sn s
  = Ok ((len c, ltp_fragment sk sn behind c), s).
Proof using All.
  intros Hne Hpad Hlen c. unfold next_fragment. assert (len (sent ++ todo) - len sent = len todo) as -> by (unfold len; rewrite length_app; lia).
  assert (len todo < 65536) by (unfold len in *; rewrite length_app in Hlen; lia).
  assert (len c = Z.min (Z.of_nat room) (len todo)) as Hc by (unfold c, len; rewrite length_take; lia).
  set (more := len todo >? Z.of_nat room). assert ((if more then u16 (Z.of_nat room) else u16 (len todo)) = len c) as ->.
  { unfold more, u16. destruct (Z.gtb_spec (len todo) (Z.of_nat room)); rewrite Z.mod_small; unfold len in *; lia. }
  assert ((if more || (len c mod 8 =? 0) then 0 else 8 - len c mod 8) = Z.of_nat (padding (length c))) as ->.
  { unfold more. destruct (Z.gtb_spec (len todo) (Z.of_nat room)); cbn [orb].
    - assert (length c = room) as -> by (unfold len in *; lia). by rewrite padding_full.
    - unfold padding, len. change 8 with (Z.of_nat 8). rewrite <-Nat2Z.inj_mod. pose proof (Nat.mod_upper_bound (length c) 8).
      destruct (Nat.eqb_spec (length c mod 8) 0) as [->|Hn]; [done|]. rewrite (proj2 (Z.eqb_neq _ _)) by lia. lia. }
  pose proof (padding_less (length c)) as Hp8.
  assert (u16 (len c + Z.of_nat (padding (length c))) = len c + Z.of_nat (padding (length c))) as ->.
  { unfold u16. apply Z.mod_small. unfold len in *. lia. }
  assert (sent ++ todo ++ behind = sent ++ (c ++ take (padding (length c)) behind) ++ (if more then drop room todo ++ behind else drop (padding (length c)) behind)) as Hmem.
  { unfold more. destruct (Z.gtb_spec (len todo) (Z.of_nat room)).
    - assert (length c = room) as -> by (unfold len in *; lia). rewrite padding_full. cbn [take]. rewrite app_nil_r. unfold c. by rewrite (app_assoc (take _ _)), take_drop.
    - assert (c = todo) as -> by (unfold c; apply take_ge; unfold len in *; lia). by rewrite <-app_assoc, take_drop. }
  assert (len (c ++ take (padding (length c)) behind) = len c + Z.of_nat (padding (length c))) as Hl.
  { unfold len. rewrite length_app, length_take. destruct (decide (length todo ≤ room)%nat).
    - assert (c = todo) as -> by (unfold c; by apply take_ge). lia.
    - assert (length c = room) as -> by (unfold c; rewrite length_take; lia). rewrite padding_full. lia. }
  rewrite (run_bind _ _ s (c ++ take (padding (length c)) behind) s) by (rewrite Hmem; by apply bytes_at_run).
  assert (u16 (LTP_HDR_DATA + (len c + Z.of_nat (padding (length c)))) = LTP_HDR_DATA + (len c + Z.of_nat (padding (length c)))) as ->.
  { unfold u16, LTP_HDR_DATA. apply Z.mod_small. unfold len in *. lia. }
  rewrite (run_bind _ _ s (ltp_fragment sk sn behind c) s).
  - unfold mret, M_ret. do 3 f_equal. lia.
  - rewrite ltp_packet_run.
    + unfold ltp_fragment. cbn [concat]. rewrite app_nil_r, <-?app_assoc. do 3 f_equal. unfold LTP_HDR_DATA, len. lia.
    + cbn [concat]. rewrite app_nil_r. unfold len in *. rewrite !length_app in *. cbn [length le32 le16]. unfold LTP_HDR_DATA. lia.
Qed.
End fragments.

(** ** Receiving *)

Lemma on_received_same s : on_received (λ m, m) s = s.
Proof. by destruct s. Qed.

Section receiving.
Context (other_int : bytes → Z) (junk : nat → Z) (rcid : IcnId) (nid sk : Z) (Hsk : 0 ≤ sk < 65536) (cs : list bytes) (behind : bytes).
Context (Hcs : Forall (λ c, len c < 65536) cs) (Hn : Z.of_nat (length cs) < 65536) (Hpad : Forall (λ c, padding (length c) ≤ length behind)%nat cs).

(** The fragment with the number [k], from 1 on *)
Definition part (k : Z) : bytes := default [] (cs !! Z.to_nat (k - 1)).
Definition numbered (k : Z) : Prop := 1 ≤ k ≤ Z.of_nat (length cs).

Lemma part_lookup k : numbered k → cs !! Z.to_nat (k - 1) = Some (part k).
Proof. intros Hk. unfold part, numbered in *. destruct (lookup_lt_is_Some_2 cs (Z.to_nat (k - 1))) as [c ->]; [lia|done]. Qed.

Lemma part_small k : len (part k) < 65536.
Proof using Hcs.
  unfold part. destruct (cs !! Z.to_nat (k - 1)) as [c|] eqn:E; [|done]. cbn. apply list_elem_of_lookup_2 in E. by eapply Forall_forall in Hcs.
Qed.

(** A table with the fragments of the numbers in [D] *)
Definition table (D : gset Z) : gmap Z stored := set_to_map (λ k, (k, Live (part k))) D.

Lemma lookup_table D k : table D !! k = if decide (k ∈ D) then Some (Live (part k)) else None.
Proof.
  unfold table. destruct (decide (k ∈ D)) as [Hk|Hk].
  - apply lookup_set_to_map; [by intros ???? [= <-]|]. by exists k.
  - apply eq_None_not_Some. intros [v (k' & Hk' & [= -> _])%lookup_set_to_map]; [done|by intros ???? [= <-]].
Qed.

Lemma table_insert D k : <[k := Live (part k)]> (table D) = table ({[k]} ∪ D).
Proof.
  apply map_eq. intros j. rewrite lookup_table. destruct (decide (j = k)) as [->|Hne].
  - rewrite lookup_insert_eq, decide_True by set_solver. done.
  - rewrite lookup_insert_ne, lookup_table by done. destruct (decide (j ∈ D)).
    + by rewrite decide_True by set_solver.
    + by rewrite decide_False by set_solver.
Qed.

Definition arrived (s : Ltp) : option (gmap Z stored) := at4 (icn_hashed rcid) 0 nid sk (icnPacketBuffer s).
Definition with_arrived (t : gmap Z stored) (s : Ltp) : Ltp :=
  on_received (inside (icn_hashed rcid) (inside 0 (inside nid (insert sk t)))) s.

Lemma arrived_with t s : arrived (with_arrived t s) = Some t.
Proof.
  unfold arrived, with_arrived. cbn [icnPacketBuffer on_received]. unfold at4, at3. rewrite at2_inside. unfold inside. rewrite lookup_insert_eq.
  cbn [mbind option_bind]. rewrite lookup_insert_eq. cbn [mbind option_bind]. by rewrite lookup_insert_eq.
Qed.

Lemma with_arrived_twice t t' s : with_arrived t' (with_arrived t s) = with_arrived t' s.
Proof.
  unfold with_arrived, on_received. cbn. f_equal. unfold inside. rewrite !lookup_insert_eq. cbn [default from_option id].
  rewrite !lookup_insert_eq. cbn [default from_option id]. rewrite !lookup_insert_eq. cbn [default from_option id]. by rewrite !insert_insert_eq.
Qed.

(** A fragment that was not there, or the same fragment again *)
Lemma handle_data_run k D s : numbered k → default ∅ (arrived s) = table D →
  handle_data rcid nid (ltp_fragment junk sk k behind (part k)) s = Ok (tt, with_arrived (table ({[k]} ∪ D)) s).
Proof using All.
  intros Hk HD. unfold numbered in Hk. assert (0 ≤ len (part k) < 65536) as Hl by (pose proof (part_small k); unfold len in *; lia).
  unfold handle_data, ltp_fragment, filled. set (c := part k) in *. set (h := le32 LTP_DATA ++ le32 0).
  assert (∃ rest, (le32 LTP_DATA ++ le32 0 ++ le16 sk ++ le16 k ++ le16 (len c) ++ c ++ take (padding (length c)) behind) ++
      (junk <$> seq (length (le32 LTP_DATA ++ le32 0 ++ le16 sk ++ le16 k ++ le16 (len c) ++ c ++ take (padding (length c)) behind))
        (16 + (length c + padding (length c)) - length (le32 LTP_DATA ++ le32 0 ++ le16 sk ++ le16 k ++ le16 (len c) ++ c ++ take (padding (length c)) behind)))
      = h ++ le16 sk ++ le16 k ++ le16 (len c) ++ c ++ rest) as [rest ->].
  { eexists. unfold h. rewrite <-!app_assoc. reflexivity. }
  rewrite (run_bind _ _ s sk s) by (by apply field16_run).
  rewrite (run_bind _ _ s k s).
  2:{ replace (h ++ le16 sk ++ le16 k ++ le16 (len c) ++ c ++ rest) with ((h ++ le16 sk) ++ le16 k ++ le16 (len c) ++ c ++ rest) by (by rewrite <-app_assoc).
      apply field16_run; [lia|done]. }
  rewrite (run_bind _ _ s (len c) s).
  2:{ replace (h ++ le16 sk ++ le16 k ++ le16 (len c) ++ c ++ rest) with ((h ++ le16 sk ++ le16 k) ++ le16 (len c) ++ c ++ rest) by (by rewrite <-!app_assoc).
      apply field16_run; [lia|done]. }
  change (drop 14 (h ++ le16 sk ++ le16 k ++ le16 (len c) ++ c ++ rest)) with (c ++ rest).
  unfold bufferIcnPacket. rewrite (run_bind _ _ s c s) by (by apply (bytes_at_run [] c rest)).
  rewrite (run_bind _ _ s (default ∅ (arrived s) !! k) s).
  2:{ unfold gets, get, mbind, M_bind, mret, M_ret, arrived. do 2 f_equal. destruct (at4 _ _ _ _ _); [done|]. cbn. by rewrite lookup_empty. }
  rewrite HD, lookup_table. assert (on_received (inside (icn_hashed rcid) (inside 0 (inside nid (inside sk (insert k (Live c)))))) s
    = with_arrived (table ({[k]} ∪ D)) s) as Hins.
  { unfold with_arrived. rewrite <-table_insert. fold c. unfold on_received. f_equal. unfold inside at 1 4. f_equal. unfold inside at 1 3. f_equal.
    unfold inside at 1 3. f_equal. unfold inside. f_equal. f_equal. rewrite <-HD. unfold arrived, at4, at3, at2.
    destruct (icnPacketBuffer s !! icn_hashed rcid) as [x|]; cbn [default from_option mbind option_bind id]; [|by rewrite !lookup_empty].
    destruct (x !! 0) as [y|]; cbn [default from_option mbind option_bind id]; [|by rewrite !lookup_empty].
    destruct (y !! nid); cbn [default from_option mbind option_bind id]; [done|by rewrite !lookup_empty]. }
  destruct (decide (k ∈ D)) as [Hin|Hin].
  - cbn [stored_size]. rewrite Z.eqb_refl. unfold mret, M_ret. do 2 f_equal.
    assert ({[k]} ∪ D = D) as -> by set_solver. unfold with_arrived.
    destruct (arrived s) as [t|] eqn:Et; [|exfalso; cbn in HD; assert (table D !! k = None) as Hnone by (by rewrite <-HD); by rewrite lookup_table, decide_True in Hnone].
    cbn in HD. subst t. rewrite <-(on_received_same s) at 1. unfold on_received. f_equal. symmetry. unfold arrived, at4, at3, at2 in Et.
    destruct (icnPacketBuffer s !! icn_hashed rcid) as [x|] eqn:E1; [|done]. cbn in Et. destruct (x !! 0) as [y|] eqn:E2; [|done]. cbn in Et.
    destruct (y !! nid) as [z|] eqn:E3; [|done]. cbn in Et. eapply inside_same; [done|]. eapply inside_same; [done|]. eapply inside_same; [done|].
    by apply insert_id.
  - unfold modify. by rewrite Hins.
Qed.

Lemma handle_data_list l D s : Forall numbered l → default ∅ (arrived s) = table D → l ≠ [] →
  for_each l (λ k, handle_data rcid nid (ltp_fragment junk sk k behind (part k))) s = Ok (tt, with_arrived (table (list_to_set l ∪ D)) s).
Proof using All.
  revert D s. induction l as [|k l IH]; intros D s Hl HD Hne; [done|]. apply Forall_cons in Hl as [Hk Hl]. cbn [for_each].
  rewrite (run_bind _ _ _ _ _ (handle_data_run k D s Hk HD)). destruct l as [|k' l].
  - by assert (list_to_set [k] ∪ D = {[k]} ∪ D) as -> by set_solver.
  - rewrite (IH ({[k]} ∪ D)); [|done|by rewrite arrived_with|done]. rewrite with_arrived_twice.
    by assert (list_to_set (k' :: l) ∪ ({[k]} ∪ D) = list_to_set (k :: k' :: l) ∪ D) as -> by set_solver.
Qed.
End receiving.

(** ** Putting the packet together *)

Lemma retrieved_length : length retrieved_block = Z.to_nat 65535.
Proof. unfold retrieved_block. rewrite length_fmap, length_replicate. reflexivity. Qed.

Opaque retrieved_block.

Lemma copy_live (l : list (Z * stored)) (cs : list bytes) : l.*2 = Live <$> cs → ∀ (o : nat) block block' s,
  Z.of_nat (o + length (concat cs)) < 65536 → memcpys block o cs = Ok block' →
  fold_each l (λ e acc, let '(offset, block) := acc in
    match e.2 with Freed _ => throw Dangling | Live b => block ← put offset b block; mret (u16 (offset + len b), block) end)
    (Z.of_nat o, block) (s : Ltp) = Ok ((Z.of_nat (o + length (concat cs)), block'), s).
Proof.
  revert cs. induction l as [|[k p] l IH]; intros [|c cs] Hl o block block' s Ho Hm; cbn [fmap list_fmap] in Hl; try done.
  { cbn. injection Hm as ->. by rewrite Nat.add_0_r. }
  cbn [snd] in Hl. injection Hl as -> Hl. apply memcpys_step in Hm as (p1 & H1 & H2). cbn [fold_each snd concat]. cbn [concat] in Ho. rewrite length_app in Ho |- *.
  erewrite run_bind; [|erewrite run_bind; [|apply put_run; [rewrite Nat2Z.id; exact H1|lia]]; reflexivity].
  assert (u16 (Z.of_nat o + len c) = Z.of_nat (o + length c)) as -> by (unfold u16, len; rewrite Z.mod_small; lia).
  rewrite (IH cs Hl (o + length c)%nat p1 block') by (done || lia). do 3 f_equal. lia.
Qed.

Lemma stored_sizes (l : list (Z * stored)) (cs : list bytes) n : l.*2 = Live <$> cs → 0 ≤ n → n + len (concat cs) < 65536 →
  foldl (λ n e, u16 (n + stored_size e.2)) n l = n + len (concat cs).
Proof.
  revert cs n. induction l as [|[k p] l IH]; intros [|c cs] n Hl H0 Hn; cbn [fmap list_fmap] in Hl; try done.
  { cbn. unfold len. cbn. lia. }
  cbn [snd] in Hl. injection Hl as -> Hl. cbn [foldl snd stored_size concat]. cbn [concat] in Hn. unfold len in Hn |- *. rewrite length_app in Hn |- *.
  assert (u16 (n + Z.of_nat (length c)) = n + Z.of_nat (length c)) as -> by (unfold u16; apply Z.mod_small; lia).
  rewrite (IH cs) by (done || (unfold len; lia)). unfold len. lia.
Qed.

Definition all_numbers (cs : list bytes) : gset Z := list_to_set ((λ i, Z.of_nat i + 1) <$> seq 0 (length cs)).

Lemma elem_of_all_numbers cs k : k ∈ all_numbers cs ↔ numbered cs k.
Proof.
  unfold all_numbers, numbered. rewrite elem_of_list_to_set, list_elem_of_fmap. split.
  - intros (i & -> & Hi%elem_of_seq). lia.
  - intros Hk. exists (Z.to_nat (k - 1)). split; [lia|]. apply elem_of_seq. lia.
Qed.

Lemma full_table_order cs : in_order_of (table cs (all_numbers cs)) = imap (λ i c, (Z.of_nat i + 1, Live c)) cs.
Proof.
  set (L := imap _ cs). assert (L.*1 = (λ i, Z.of_nat i + 1) <$> seq 0 (length cs)) as HL.
  { unfold L. apply list_eq. intros i. rewrite !list_lookup_fmap, list_lookup_imap. destruct (cs !! i) as [c|] eqn:E.
    - rewrite lookup_seq_lt by (by apply lookup_lt_Some in E). done.
    - rewrite lookup_ge_None_2 by (rewrite length_seq; by apply lookup_ge_None in E). done. }
  assert (NoDup L.*1) as Hnd by (rewrite HL; apply NoDup_fmap_2; [intros ???; lia|apply NoDup_seq]).
  assert (StronglySorted key_le L.*1) as Hs.
  { rewrite HL. generalize (length cs) 0%nat. intros n. induction n as [|n IH]; intros i; cbn; constructor; [apply IH|].
    apply Forall_forall. intros k (j & -> & Hj%elem_of_seq)%list_elem_of_fmap. unfold key_le. cbn. apply Z.leb_le. lia. }
  rewrite <-(in_order_of_list L Hnd Hs). f_equal. apply map_eq. intros k. rewrite lookup_table.
  destruct (decide (k ∈ all_numbers cs)) as [Hk|Hk]; symmetry.
  - apply elem_of_all_numbers in Hk. pose proof (part_lookup cs k Hk) as Hp. apply elem_of_list_to_map; [done|].
    apply elem_of_lookup_imap. exists (Z.to_nat (k - 1)), (part cs k). split; [|done]. unfold numbered in Hk. f_equal. lia.
  - apply not_elem_of_list_to_map. rewrite HL. intros Hin. apply Hk. unfold all_numbers. by apply elem_of_list_to_set.
Qed.

Lemma retrievePacket_run other_int rcid nid sk cs s : 0 ≤ nid < 10 ^ 8 → len (concat cs) < 65536 →
  arrived rcid nid sk s = Some (table cs (all_numbers cs)) →
  retrievePacket other_int rcid (nid_str nid) sk s = Ok (Some (concat cs), on_received (erase_session rcid nid sk) s).
Proof.
  intros Hnid Hlen Ha. unfold retrievePacket. rewrite nid_of_str by done. unfold arrived in Ha.
  rewrite (run_bind _ _ s (Some (table cs (all_numbers cs))) s) by (unfold gets, get, mbind, M_bind; by rewrite Ha).
  rewrite full_table_order. set (L := imap _ cs). assert (L.*2 = Live <$> cs) as HL.
  { unfold L. apply list_eq. intros i. rewrite !list_lookup_fmap, list_lookup_imap. by destruct (cs !! i). }
  pose proof (memcpys_fits retrieved_block 0 cs) as Hm. rewrite retrieved_length in Hm. specialize (Hm ltac:(unfold len in Hlen; lia)).
  rewrite (run_bind _ _ s (Z.of_nat (0 + length (concat cs)), take 0 retrieved_block ++ (Some <$> concat cs) ++ drop (0 + length (concat cs)) retrieved_block) s)
    by (unfold copy_stored; apply (copy_live L cs HL 0); [unfold len in Hlen; lia|exact Hm]).
  rewrite (run_bind _ _ s tt (on_received (erase_session rcid nid sk) s)) by done.
  rewrite (stored_sizes L cs 0 HL) by lia. unfold mret, M_ret. do 3 f_equal. cbn [take app]. unfold len. rewrite Z.add_0_l, Nat2Z.id.
  assert (∀ l X, take (length l) (sent_bytes (λ _, 0) ((Some <$> l) ++ X)) = l) as Hl.
  { intros l X. pose proof (sent_bytes_all (λ _, 0) l) as Hs. unfold sent_bytes in *. rewrite imap_app, Hs. apply take_app_length. }
  apply Hl.
Qed.
