(* ===== verification/NapLtpWire.v ===== *)
(** * Identifiers on the wire, and what the listener does with a publication *)
From stdpp Require Import base list gmap sets.
From Stdlib Require Import ZArith Lia Bool.
From S2P Require Import Prelude Enums Containers UserLib UserProps Blocks NapTypes NapUTP NapUTPProps NapLtp NapHttp NapLtpPackets NapLtpData.

Local Open Scope Z_scope.

(** ** Identifiers of hosts and resources *)

Lemma hash_range h s : 0 ≤ h < 2 ^ 32 → 0 ≤ hash_from h s < 2 ^ 32.
Proof.
  revert h. induction s as [|c s IH]; intros h Hh; cbn [hash_from]; [done|]. destruct (c =? 0); [done|]. apply IH. unfold u32. by apply Z.mod_pos_bound.
Qed.

(** An identifier of the HTTP namespace: its text of [k] levels, its hash *)
Record http_icn (other_int : bytes → Z) (i : IcnId) (k : nat) : Prop := mkHttpIcn {
  hi_ok : icn_ok i k;
  hi_hash : icn_hashed i = hashString (icn_string i);
  hi_root : u16 (atoi other_int (take 16 (icn_string i))) = NAMESPACE_HTTP;
}.

Lemma http_icn_hashed other_int h fqdn resource : 0 ≤ h < 2 ^ 32 →
  http_icn other_int (icn_of_string other_int (scope NAMESPACE_HTTP ++ padded (Z.to_nat (scopeLevels_of (decimal h)) * 16) (decimal h)) fqdn resource) 2.
Proof.
  intros Hh. assert (padded (Z.to_nat (scopeLevels_of (decimal h)) * 16) (decimal h) = scope h) as ->.
  { pose proof (decimal_from_length 20 h 15 ltac:(cbn in *; lia) ltac:(lia)) as Hl. fold (decimal h) in Hl. unfold scope, scopeLevels_of.
    rewrite Z.mod_small, (proj2 (Z.eqb_neq _ _)), Z.div_small by lia. done. }
  destruct (scope_digits h ltac:(cbn in *; lia)) as (Hd & Hl & _). destruct (scope_digits NAMESPACE_HTTP ltac:(done)) as (Hd1 & Hl1 & Hv1).
  constructor; unfold icn_ok; cbn [icn_string icn_of_string icn_hashed].
  - split_and!; [by apply Forall_app|rewrite length_app; lia|lia].
  - done.
  - rewrite <-Hl1, take_app_length, atoi_digits; rewrite ?Hv1; done.
Qed.

Lemma fqdn_icn other_int fqdn : http_icn other_int (icn_of_fqdn other_int fqdn) 2.
Proof. unfold icn_of_fqdn. cbv zeta. apply (http_icn_hashed other_int (hashString fqdn) fqdn []). unfold hashString. apply hash_range. lia. Qed.
Lemma url_icn other_int fqdn resource : http_icn other_int (icn_of_url other_int fqdn resource) 2.
Proof. unfold icn_of_url. cbv zeta. apply (http_icn_hashed other_int (hashString (fqdn ++ resource)) fqdn resource). unfold hashString. apply hash_range. lia. Qed.

(** An identifier as another attachment point has it: the names are lost. *)
Definition on_wire (other_int : bytes → Z) (i : IcnId) : IcnId := icn_of_string other_int (icn_string i) [] [].
Definition wire_bytes (i : IcnId) : bytes := match hex_to_chararray (icn_string i) with Ok b => b | Fault _ => [] end.

Section wire.
Context (other_int : bytes → Z) (i : IcnId) (k : nat) (Hi : http_icn other_int i k).

Lemma wire_hash : icn_hashed (on_wire other_int i) = icn_hashed i.
Proof using Hi. by rewrite (hi_hash _ _ _ Hi). Qed.

Lemma wire_root : icn_rootNamespace (on_wire other_int i) = NAMESPACE_HTTP.
Proof using Hi. apply (hi_root _ _ _ Hi). Qed.

Lemma wire_ok : icn_ok (on_wire other_int i) k.
Proof using Hi. apply (hi_ok _ _ _ Hi). Qed.

Lemma wire_read : icn_assign other_int (chararray_to_hex (wire_bytes i)) no_icnid = on_wire other_int i.
Proof using Hi.
  destruct (icn_binary i k (hi_ok _ _ _ Hi)) as (id & Hid & _ & Hback). unfold wire_bytes. rewrite Hid, Hback. done.
Qed.
End wire.

Lemma wire_isub_message other_int getpid cid rcid packet :
  isub_message getpid (on_wire other_int cid) (on_wire other_int rcid) packet = isub_message getpid cid rcid packet.
Proof. done. Qed.
Lemma wire_nodes_message other_int getpid rcid nodes packet :
  nodes_message getpid (on_wire other_int rcid) nodes packet = nodes_message getpid rcid nodes packet.
Proof. done. Qed.

(** ** The listener *)

Lemma with_ltp_run {A : Type} (m : M Ltp A) s a l : m (h_ltp s) = Ok (a, l) → with_ltp m s = Ok (a, on_ltp (λ _, l) s).
Proof. intros Hm. unfold with_ltp. by rewrite Hm. Qed.

Section listener.
Context (other_int : bytes → Z) (getpid : Z) (sendmsg_ret : list (Z * Netlink.addressed bytes) → Z) (junk rand : nat → Z).
Context (mtu ltpInitialCredit tcDropRate own_nid : Z) (write_ret : nat → option Z) (retries : nat).

Notation event := (http_event other_int getpid sendmsg_ret junk rand mtu ltpInitialCredit tcDropRate own_nid write_ret retries).

(** A publication to implicit subscribers, from the attachment point of a client *)
Definition from_client (cid rcid : IcnId) (nid : Z) (packet : bytes) : M NapHttp unit :=
  event PUBLISHED_DATA_iSUB (wire_bytes cid) (nid_str nid) (wire_bytes rcid) packet (len packet).
(** A publication to nodes, from the attachment point of a server *)
Definition from_server (rcid : IcnId) (packet : bytes) : M NapHttp unit :=
  event PUBLISHED_DATA (wire_bytes rcid) [] [] packet (len packet).

(** What is remembered of the node *)
Definition heard_from (rcid : IcnId) (nid : Z) (s : NapHttp) : NapHttp :=
  on_reverse_nids (λ m, let l := default [] (m !! nid) in
    if decide (icn_hashed rcid ∈ l) then m else <[nid := l ++ [icn_hashed rcid]]> m) s.

Lemma from_client_run cid rcid k nid packet st sk l s : http_icn other_int cid k → http_icn other_int rcid k → 0 ≤ nid < 10 ^ 8 →
  ltp_handle_request other_int getpid sendmsg_ret junk rand tcDropRate (on_wire other_int rcid) (nid_str nid) packet (h_ltp s) = Ok ((st, sk), l) →
  from_client cid rcid nid packet s =
    match st with
    | TP_STATE_ALL_FRAGMENTS_RECEIVED =>
        (packet ← with_ltp (retrievePacket other_int (on_wire other_int rcid) (nid_str nid) sk);
         match packet with
         | None => mret tt
         | Some packet => modify (on_to_server (λ l, l ++ [mkServer (on_wire other_int cid) (on_wire other_int rcid) sk (nid_str nid) packet]))
         end) (on_ltp (λ _, l) (heard_from rcid nid s))
    | _ => Ok (tt, on_ltp (λ _, l) (heard_from rcid nid s))
    end.
Proof.
  intros Hc Hr Hn Hl. unfold from_client, http_event. rewrite (wire_read other_int cid k Hc), (wire_read other_int rcid k Hr). cbv zeta.
  rewrite (wire_root other_int cid k Hc), Z.eqb_refl. cbn [orb PUBLISHED_DATA_iSUB].
  change (PUBLISHED_DATA_iSUB =? START_PUBLISH) with false. change (PUBLISHED_DATA_iSUB =? START_PUBLISH_iSUB) with false.
  change ((PUBLISHED_DATA_iSUB =? STOP_PUBLISH) || (PUBLISHED_DATA_iSUB =? PAUSE_PUBLISH)) with false.
  change (PUBLISHED_DATA_iSUB =? PUBLISHED_DATA) with false. change (PUBLISHED_DATA_iSUB =? PUBLISHED_DATA_iSUB) with true. cbv match.
  rewrite (run_bind _ _ s tt (heard_from rcid nid s)).
  2:{ unfold addReversNidTorCIdLookUp, modify, heard_from. by rewrite nid_of_str, (wire_hash other_int rcid k Hr) by done. }
  rewrite (run_bind _ _ _ _ _ (with_ltp_run _ (heard_from rcid nid s) _ _ Hl)). by destruct st.
Qed.

Lemma from_server_run rcid k packet st sk l s : http_icn other_int rcid k →
  ltp_handle_response getpid sendmsg_ret junk rand tcDropRate own_nid (on_wire other_int rcid) packet (h_ltp s) = Ok ((st, sk), l) →
  from_server rcid packet s =
    match st with
    | TP_STATE_ALL_FRAGMENTS_RECEIVED =>
        (packet ← with_ltp (retrievePacket other_int (on_wire other_int rcid) (nid_str own_nid) sk);
         match packet with
         | None => mret tt
         | Some packet => sendToEndpoint write_ret retries (on_wire other_int rcid) packet
         end) (on_ltp (λ _, l) s)
    | TP_STATE_SESSION_ENDED => endSession (on_wire other_int rcid) (on_ltp (λ _, l) s)
    | _ => Ok (tt, on_ltp (λ _, l) s)
    end.
Proof.
  intros Hr Hl. unfold from_server, http_event. rewrite (wire_read other_int rcid k Hr). cbv zeta. rewrite (wire_root other_int rcid k Hr), Z.eqb_refl.
  change (PUBLISHED_DATA =? START_PUBLISH) with false. change (PUBLISHED_DATA =? START_PUBLISH_iSUB) with false.
  change ((PUBLISHED_DATA =? STOP_PUBLISH) || (PUBLISHED_DATA =? PAUSE_PUBLISH)) with false. rewrite Z.eqb_refl. cbv match.
  rewrite (run_bind _ _ _ _ _ (with_ltp_run _ s _ _ Hl)). by destruct st.
Qed.
End listener.
