(* ===== verification/NapLtpRequest.v ===== *)
(** * Requests over the lightweight transport

    From the attachment point of the client to that of the server. *)
From stdpp Require Import base list gmap sets.
From Stdlib Require Import ZArith Lia Bool.
From S2P Require Import Prelude Enums Containers UserLib UserProps Blocks NapTypes NapUTP NapUTPProps NapLtp NapHttp NapLtpPackets NapLtpData NapLtpWire.

Local Open Scope Z_scope.

(** ** Control messages *)

Section control.
Context (junk : nat → Z).

Definition control_bytes (size : nat) (type sk : Z) (rest : bytes) : bytes :=
  filled junk size (le32 LTP_CONTROL ++ le32 type ++ le32 0 ++ le16 sk ++ rest).
Definition we_packet (sk sn : Z) : bytes := control_bytes 16 LTP_CONTROL_WINDOW_END sk (le16 sn).
Definition wed_packet (sk : Z) : bytes := control_bytes 16 LTP_CONTROL_WINDOW_ENDED sk [].
Definition nack_packet (sk first last : Z) : bytes := control_bytes 20 LTP_CONTROL_NACK sk (le16 first ++ le16 last).

Lemma control_bytes_run size type sk rest s : (14 + length (concat rest) ≤ size)%nat →
  control_packet junk (Z.of_nat size) type sk rest s = Ok (control_bytes size type sk (concat rest), s).
Proof. intros Hs. rewrite control_packet_run by (unfold len; lia). by rewrite Nat2Z.id. Qed.

(** What is read from a control message *)
Lemma control_fields size type sk rest (s : Ltp) : 0 ≤ type < 4294967296 → 0 ≤ sk < 65536 →
  let p := control_bytes size type sk rest in
  field32 p 0 s = Ok (LTP_CONTROL, s) ∧ field32 p 4 s = Ok (type, s) ∧ field32 p 8 s = Ok (0, s) ∧ field16 p 12 s = Ok (sk, s).
Proof.
  intros Ht Hsk p. unfold p, control_bytes, filled. set (tail := _ <$> seq _ _). rewrite <-!app_assoc. split_and!.
  - by apply (field32_run []).
  - by apply field32_run.
  - rewrite (app_assoc (le32 LTP_CONTROL)). by apply field32_run.
  - rewrite (app_assoc (le32 type)), (app_assoc (le32 LTP_CONTROL)). by apply field16_run.
Qed.

Lemma control_number size type sk a rest (s : Ltp) : 0 ≤ a < 65536 → field16 (control_bytes size type sk (le16 a ++ rest)) 14 s = Ok (a, s).
Proof.
  intros Ha. unfold control_bytes, filled. set (tail := _ <$> seq _ _). rewrite <-!app_assoc.
  rewrite (app_assoc (le32 0)), (app_assoc (le32 type)), (app_assoc (le32 LTP_CONTROL)). by apply field16_run.
Qed.
Lemma control_second size type sk a b rest (s : Ltp) : 0 ≤ b < 65536 → field16 (control_bytes size type sk (le16 a ++ le16 b ++ rest)) 16 s = Ok (b, s).
Proof.
  intros Hb. unfold control_bytes, filled. set (tail := _ <$> seq _ _). rewrite <-!app_assoc.
  rewrite (app_assoc (le16 sk)), (app_assoc (le32 0)), (app_assoc (le32 type)), (app_assoc (le32 LTP_CONTROL)). by apply field16_run.
Qed.

Lemma fragment_type sk sn behind c (s : Ltp) : field32 (ltp_fragment junk sk sn behind c) 0 s = Ok (LTP_DATA, s).
Proof. unfold ltp_fragment, filled. rewrite <-!app_assoc. by apply (field32_run []). Qed.

(** The packets of the fragments, from the number behind [sn] on *)
Definition fragment_packets (sk sn : Z) (behind : bytes) (cs : list bytes) : list (Z * bytes) :=
  imap (λ i c, (sn + Z.of_nat i + 1, ltp_fragment junk sk (sn + Z.of_nat i + 1) behind c)) cs.

Lemma fragment_packets_cons sk sn behind c cs :
  fragment_packets sk sn behind (c :: cs) = (sn + 1, ltp_fragment junk sk (sn + 1) behind c) :: fragment_packets sk (sn + 1) behind cs.
Proof.
  unfold fragment_packets. cbn [imap]. rewrite Z.add_0_r. f_equal. apply imap_ext. intros i x _. cbn.
  by replace (sn + Z.of_nat (Datatypes.S i) + 1) with (sn + 1 + Z.of_nat i + 1) by lia.
Qed.
End control.

(** Packets that are buffered one after the other *)
Definition keep_packets (h sk : Z) (l : list (Z * bytes)) (m : sent_buffer) : sent_buffer :=
  foldl (λ m e, inside h (inside 0 (inside sk (add_new e.1 e.2))) m) m l.

Lemma at3_inside {A : Type} a b c (f : gmap Z A → gmap Z A) m :
  at3 a b c (inside a (inside b (inside c f)) m) = Some (f (default ∅ (at3 a b c m))).
Proof.
  unfold at3. rewrite at2_inside. unfold inside, at2. rewrite lookup_insert_eq. cbn [mbind option_bind]. rewrite lookup_insert_eq. do 2 f_equal.
  destruct (m !! a) as [x|]; cbn [default from_option mbind option_bind id]; [|by rewrite !lookup_empty].
  destruct (x !! b); cbn [default from_option mbind option_bind id]; [done|by rewrite lookup_empty].
Qed.

Lemma at3_deleted {A : Type} a b c (m : gmap Z (gmap Z (gmap Z A))) : at3 a b c (alter (alter (delete c) b) a m) = None.
Proof.
  unfold at3, at2. rewrite lookup_alter_eq. destruct (m !! a) as [x|]; [|done]. cbn [fmap option_fmap option_map mbind option_bind]. rewrite lookup_alter_eq.
  destruct (x !! b); [|done]. cbn [fmap option_fmap option_map mbind option_bind]. apply lookup_delete_eq.
Qed.

Lemma add_new_list (l : list (Z * bytes)) (X : gmap Z bytes) : NoDup l.*1 → (∀ k, k ∈ l.*1 → X !! k = None) →
  foldl (λ X e, add_new e.1 e.2 X) X l = list_to_map l ∪ X.
Proof.
  revert X. induction l as [|[k p] l IH]; intros X Hnd HX; cbn [foldl list_to_map foldr fst snd]; [by rewrite (left_id_L ∅ (∪))|].
  cbn [fmap list_fmap fst] in *. apply NoDup_cons in Hnd as [Hk Hnd]. unfold add_new at 2. rewrite (HX k) by left.
  rewrite IH; [|done|]; last first.
  { intros j Hj. rewrite lookup_insert_ne by (by intros ->). apply HX. by right. }
  rewrite <-insert_union_l. symmetry. apply insert_union_r. by apply not_elem_of_list_to_map.
Qed.

(** A session that was not there *)
Lemma keep_packets_session h sk l m : l ≠ [] → NoDup l.*1 → at3 h 0 sk m = None → at3 h 0 sk (keep_packets h sk l m) = Some (list_to_map l).
Proof.
  intros Hne Hnd Hm. unfold keep_packets.
  assert (∀ l m, l ≠ [] → at3 h 0 sk (foldl (λ m e, inside h (inside 0 (inside sk (add_new e.1 e.2))) m) m l)
    = Some (foldl (λ X e, add_new e.1 e.2 X) (default ∅ (at3 h 0 sk m)) (l : list (Z * bytes)))) as Hall.
  { clear. intros l. induction l as [|e l IH]; intros m Hne; [done|]. cbn [foldl]. destruct l as [|e' l]; [cbn [foldl]; apply at3_inside|].
    rewrite IH by done. by rewrite at3_inside. }
  rewrite Hall, Hm by done. cbn [default from_option id]. f_equal. rewrite add_new_list; [by rewrite (right_id_L ∅ (∪))|done|]. intros k _. apply lookup_empty.
Qed.

Lemma fragment_packets_keys junk sk behind cs : NoDup (fragment_packets junk sk 0 behind cs).*1.
Proof.
  assert ((fragment_packets junk sk 0 behind cs).*1 = (λ i, 0 + Z.of_nat i + 1) <$> seq 0 (length cs)) as ->.
  { unfold fragment_packets. apply list_eq. intros i. rewrite !list_lookup_fmap, list_lookup_imap. destruct (cs !! i) as [c|] eqn:E.
    - rewrite lookup_seq_lt by (by apply lookup_lt_Some in E). done.
    - rewrite lookup_ge_None_2 by (rewrite length_seq; by apply lookup_ge_None in E). done. }
  apply NoDup_fmap_2; [intros ???; lia|apply NoDup_seq].
Qed.

(** ** Publishing a range again *)

Definition range (a b : Z) : list Z := (λ i, a + Z.of_nat i) <$> seq 0 (Z.to_nat (b - a + 1)).

Lemma elem_of_range a b j : j ∈ range a b ↔ a ≤ j ≤ b.
Proof.
  unfold range. rewrite list_elem_of_fmap. split.
  - intros (i & -> & Hi%elem_of_seq). lia.
  - intros Hj. exists (Z.to_nat (j - a)). split; [lia|]. apply elem_of_seq. lia.
Qed.

Lemma range_cons a b : a ≤ b → range a b = a :: range (a + 1) b.
Proof.
  intros Hab. unfold range. replace (Z.to_nat (b - a + 1)) with (Datatypes.S (Z.to_nat (b - (a + 1) + 1))) by lia. cbn [seq fmap list_fmap]. rewrite Z.add_0_r. f_equal.
  rewrite <-fmap_S_seq, <-list_fmap_compose. apply list_fmap_ext. intros i x _. cbn. lia.
Qed.

Lemma range_size (packets : gmap Z bytes) a b : (∀ j, a ≤ j ≤ b → is_Some (packets !! j)) → (Z.to_nat (b - a + 1) ≤ size packets)%nat.
Proof.
  intros Hp. assert (NoDup (range a b)) as Hnd by (unfold range; apply NoDup_fmap_2; [intros ???; lia|apply NoDup_seq]).
  assert (length (range a b) = Z.to_nat (b - a + 1)) as <- by (unfold range; by rewrite length_fmap, length_seq).
  rewrite <-(size_list_to_set (C := gset Z) (range a b) Hnd), <-size_dom. apply subseteq_size. intros j Hj%elem_of_list_to_set%elem_of_range. by apply elem_of_dom, Hp.
Qed.

Lemma publish_range_run getpid sendmsg_ret rand rcid k nodes (packets : gmap Z bytes) b : icn_ok rcid k → Forall (λ n, 0 ≤ n < 10 ^ 8) nodes → (length nodes < 256)%nat →
  b < 65535 → ∀ fuel a s, 0 ≤ a → (Z.to_nat (b - a + 1) ≤ fuel)%nat → (∀ j, a ≤ j ≤ b → is_Some (packets !! j)) →
  publish_range getpid sendmsg_ret rand (-1) fuel rcid nodes packets a b s
  = Ok (tt, on_ltp_ba (sends_all ((λ j, nodes_message getpid rcid nodes (default [] (packets !! j))) <$> range a b)) s).
Proof.
  intros Hr Hn Hl Hb fuel. assert (∀ a s, b < a → on_ltp_ba (sends_all ((λ j, nodes_message getpid rcid nodes (default [] (packets !! j))) <$> range a b)) s = s) as Hnil.
  { intros a s Ha. unfold range. replace (Z.to_nat (b - a + 1)) with 0%nat by lia. by destruct s. }
  induction fuel as [|fuel IH]; intros a s Ha Hf Hp.
  { cbn [publish_range]. rewrite (proj2 (Z.leb_gt _ _)), Hnil by lia. done. }
  cbn [publish_range]. destruct (Z.leb_spec a b) as [Hab|Hab]; [|by rewrite Hnil]. destruct (Hp a ltac:(lia)) as [p Hpa]. rewrite Hpa.
  rewrite (run_bind _ _ s false s) by done. cbv match. rewrite (run_bind _ _ _ _ _ (publish_nodes_run getpid sendmsg_ret rcid nodes k p s Hr Hn Hl)).
  assert (u16 (a + 1) = a + 1) as -> by (unfold u16; apply Z.mod_small; lia).
  rewrite IH; [|lia|lia|intros j Hj; apply Hp; lia]. rewrite (range_cons a b) by done. cbn [fmap list_fmap]. rewrite Hpa. done.
Qed.

(** ** The client *)

Section client.
Context (getpid : Z) (sendmsg_ret : list (Z * Netlink.addressed bytes) → Z) (junk rand : nat → Z) (ltpInitialCredit : Z).
Context (cid rcid : IcnId) (k k' : nat) (Hc : icn_ok cid k) (Hr : icn_ok rcid k').
Context (room : nat) (Hroom : (0 < room)%nat) (Hmul : (room mod 8 = 0)%nat) (Hsmall : Z.of_nat room < 65000).
Context (sk : Z) (behind : bytes).

Notation packets := (fragment_packets junk sk).

Lemma send_request_run fuel : ∀ sent todo sn credit s, (length todo ≤ fuel)%nat → (7 ≤ length behind)%nat → len (sent ++ todo) < 65536 →
  0 ≤ sn → sn + len todo < 65536 →
  send_request getpid sendmsg_ret junk rand ltpInitialCredit (-1) fuel cid rcid (Z.of_nat room) sk (sent ++ todo ++ behind) (len (sent ++ todo)) sn (len sent) credit s
  = let l := packets sn behind (chunks fuel room todo) in
    Ok (sn + Z.of_nat (length l), on_proxy (keep_packets (icn_hashed rcid) sk l) (on_ltp_ba (sends_all (isub_message getpid cid rcid <$> l.*2)) s)).
Proof using All.
  induction fuel as [|fuel IH]; intros sent todo sn credit s Hf Hb Hlen H0 Hsn.
  { destruct todo; [|cbn in Hf; lia]. rewrite !app_nil_r. cbn [send_request app]. rewrite Z.ltb_irrefl. cbn. rewrite Z.add_0_r. by destruct s. }
  destruct todo as [|x todo'].
  { rewrite !app_nil_r. cbn [send_request app]. rewrite Z.ltb_irrefl. cbn. rewrite Z.add_0_r. by destruct s. }
  set (todo := x :: todo') in *. assert (len (sent ++ todo) = len sent + len todo) as Hl by (unfold len; rewrite length_app; lia).
  assert (0 < len todo) as Hpos by (unfold todo, len; cbn; lia). cbn [send_request]. rewrite (proj2 (Z.ltb_lt _ _)) by lia. cbv zeta.
  assert (u16 (sn + 1) = sn + 1) as -> by (unfold u16; apply Z.mod_small; unfold len in *; lia).
  pose proof (padding_less (length todo)) as Hpl. set (c := take room todo).
  rewrite (run_bind _ _ s (len c, ltp_fragment junk sk (sn + 1) behind c) s).
  2:{ apply (next_fragment_run junk room Hroom Hmul Hsmall sk (sn + 1) sent todo behind s); [done|lia|done]. }
  rewrite (run_bind _ _ s false s) by done. cbv match.
  rewrite (run_bind _ _ _ _ _ (publish_isub_run getpid sendmsg_ret cid rcid k k' _ s Hc Hr)).
  set (pkt := ltp_fragment junk sk (sn + 1) behind c).
  rewrite (run_bind _ _ _ tt (on_proxy (inside (icn_hashed rcid) (inside 0 (inside sk (add_new (sn + 1) pkt)))) (on_ltp_ba (sent_to_node (isub_message getpid cid rcid pkt)) s))) by done.
  assert (len c = Z.min (Z.of_nat room) (len todo)) as Hlc by (unfold c, len; rewrite length_take; lia).
  assert (u32 (len sent + len c) = len (sent ++ c)) as ->.
  { unfold u32. rewrite Z.mod_small by (unfold len in *; lia). unfold len. rewrite length_app. lia. }
  assert (sent ++ todo ++ behind = (sent ++ c) ++ drop room todo ++ behind) as -> by (unfold c; by rewrite <-app_assoc, (app_assoc (take _ _)), take_drop).
  assert (sent ++ todo = (sent ++ c) ++ drop room todo) as -> by (unfold c; by rewrite <-app_assoc, take_drop).
  assert (len (drop room todo) = len todo - len c) as Hld by (unfold c, len; rewrite length_drop, length_take; lia).
  rewrite (IH (sent ++ c) (drop room todo)).
  - change (chunks (Datatypes.S fuel) room todo) with (c :: chunks fuel room (drop room todo)). cbv zeta. rewrite fragment_packets_cons. cbn [length fmap list_fmap snd].
    unfold mret, M_ret. do 2 f_equal. lia.
  - rewrite length_drop. unfold todo in *. cbn [length] in *. lia.
  - done.
  - unfold c. by rewrite <-app_assoc, take_drop.
  - lia.
  - lia.
Qed.
End client.

Lemma payload_room_ok z : 8 ≤ z < 65000 → ∃ room : nat, payload_room z = Z.of_nat room ∧ (0 < room)%nat ∧ (room mod 8 = 0)%nat ∧ Z.of_nat room < 65000.
Proof.
  intros Hz. unfold payload_room, u32. rewrite Z.mod_small by lia. cbv zeta. pose proof (Z.div_mod z 8 ltac:(lia)). pose proof (Z.mod_pos_bound z 8 ltac:(lia)).
  assert (1 ≤ z / 8) by (apply Z.div_le_lower_bound; lia).
  exists (8 * Z.to_nat (z / 8))%nat. split_and!; [lia|lia| |lia]. rewrite Nat.mul_comm. apply Nat.Div0.mod_mul.
Qed.

Lemma chunks_concat fuel m data : (0 < m)%nat → (length data ≤ fuel)%nat → concat (chunks fuel m data) = data.
Proof.
  intros Hm. revert data. induction fuel as [|fuel IH]; intros data Hf; [by destruct data; [|cbn in Hf; lia]|].
  destruct data as [|x data]; [done|]. cbn [chunks concat]. rewrite IH by (rewrite length_drop; cbn [length] in *; lia). apply take_drop.
Qed.

Lemma chunks_count fuel m data : (0 < m)%nat → (length (chunks fuel m data) ≤ length data)%nat.
Proof.
  intros Hm. revert data. induction fuel as [|fuel IH]; intros data; [cbn; lia|]. destruct data as [|x data]; [done|]. cbn [chunks length].
  specialize (IH (drop m (x :: data))). rewrite length_drop in IH. cbn [length] in IH. lia.
Qed.

Lemma fragment_packets_lookup junk sk behind cs j : numbered cs j →
  (j, ltp_fragment junk sk j behind (part cs j)) ∈ fragment_packets junk sk 0 behind cs.
Proof.
  intros Hj. apply elem_of_lookup_imap. exists (Z.to_nat (j - 1)), (part cs j). split; [|by apply part_lookup].
  unfold numbered in Hj. by replace (0 + Z.of_nat (Z.to_nat (j - 1)) + 1) with j by lia.
Qed.

Lemma fragment_packets_elem junk sk behind cs p : p ∈ (fragment_packets junk sk 0 behind cs).*2 →
  ∃ j, numbered cs j ∧ p = ltp_fragment junk sk j behind (part cs j).
Proof.
  intros ([j q] & -> & (i & c & Hq & Hc)%elem_of_lookup_imap)%list_elem_of_fmap. injection Hq as -> ->. exists (0 + Z.of_nat i + 1).
  apply lookup_lt_Some in Hc as Hlt. split; [unfold numbered; lia|]. cbn [snd]. unfold part. replace (Z.to_nat (0 + Z.of_nat i + 1 - 1)) with i by lia. by rewrite Hc.
Qed.

Section request.
Context (other_int : bytes → Z) (getpid : Z) (sendmsg_ret : list (Z * Netlink.addressed bytes) → Z) (junk rand : nat → Z).
Context (mtu ltpInitialCredit own_nid : Z) (write_ret : nat → option Z) (retries : nat).
Context (cid rcid : IcnId) (Hc : http_icn other_int cid 2) (Hr : http_icn other_int rcid 2).
Context (sk : Z) (Hsk : 0 ≤ sk < 65536).

(** The session can be entered in the table of requests. *)
Definition may_request (s : Ltp) : Prop := at2 (icn_hashed rcid) 0 (windowEndedRequests s) = None ∨ is_Some (at3 (icn_hashed rcid) 0 sk (windowEndedRequests s)).

(** The client waits for the answer to the end of the window. *)
Definition awaited (s : Ltp) : Ltp := on_requests (inside (icn_hashed rcid) (inside 0 (insert sk false))) s.

Lemma window_end_request_run sn s : may_request s →
  publishWindowEnd_request getpid sendmsg_ret junk cid rcid sk sn s = Ok (tt, awaited (on_ltp_ba (sent_to_node (isub_message getpid cid rcid (we_packet junk sk sn))) s)).
Proof using Hc Hr.
  intros Hm. unfold publishWindowEnd_request.
  rewrite (run_bind _ _ s (we_packet junk sk sn) s) by (apply (control_bytes_run junk 16); by apply Nat.leb_le).
  rewrite (run_bind _ _ _ _ _ (publish_isub_run getpid sendmsg_ret cid rcid 2 2 _ s (hi_ok _ _ _ Hc) (hi_ok _ _ _ Hr))).
  unfold addWindowEnd_request. set (s1 := on_ltp_ba _ s).
  rewrite (run_bind _ _ s1 (at2 (icn_hashed rcid) 0 (windowEndedRequests s)) s1) by done.
  unfold may_request, at3 in Hm. destruct (at2 (icn_hashed rcid) 0 (windowEndedRequests s)) as [m|]; [|done].
  destruct Hm as [|Hm]; [done|]. by rewrite decide_True.
Qed.

Lemma publish_request_run (data behind : bytes) (room : nat) s :
  payload_room (mtu - 88) = Z.of_nat room → (0 < room)%nat → (room mod 8 = 0)%nat → Z.of_nat room < 65000 →
  len data < 65536 → (7 ≤ length behind)%nat → may_request s →
  let l := fragment_packets junk sk 0 behind (parts room data) in let n := Z.of_nat (length l) in
  publish_request getpid sendmsg_ret junk rand mtu ltpInitialCredit (-1) cid rcid sk (data ++ behind) (len data) s
  = Ok (n, awaited (on_proxy (keep_packets (icn_hashed rcid) sk l)
      (on_ltp_ba (sends_all (isub_message getpid cid rcid <$> l.*2 ++ [we_packet junk sk n])) (on_reverse (add_new (icn_hashed rcid) cid) s)))).
Proof using Hc Hr.
  intros Hroom H0 H8 Hsm Hd Hb Hm l n. unfold publish_request. set (s1 := on_reverse (add_new (icn_hashed rcid) cid) s).
  rewrite (run_bind _ _ s tt s1) by done. unfold publishData_request.
  rewrite (run_bind _ _ _ _ _ (icn_length_run cid 2 s1 (hi_ok _ _ _ Hc))), (run_bind _ _ _ _ _ (icn_length_run rcid 2 s1 (hi_ok _ _ _ Hr))). cbv zeta.
  replace (mtu - 8 * Z.of_nat 2 - 8 * Z.of_nat 2 - ICN_HEADER_LENGTH - LTP_HDR_DATA - 20) with (mtu - 88) by (unfold ICN_HEADER_LENGTH, LTP_HDR_DATA; lia).
  rewrite Hroom. pose proof (send_request_run getpid sendmsg_ret junk rand ltpInitialCredit cid rcid 2 2 (hi_ok _ _ _ Hc) (hi_ok _ _ _ Hr) room H0 H8 Hsm sk behind
    (Z.to_nat (len data)) [] data 0 ltpInitialCredit s1 ltac:(unfold len; lia) Hb Hd ltac:(lia) ltac:(lia)) as Hs. cbn [app] in Hs. cbv zeta in Hs.
  change (len []) with 0 in Hs. unfold len in Hs at 1 3 4 5. rewrite Nat2Z.id in Hs. fold (len data) in Hs. unfold len at 1 2. rewrite Nat2Z.id. fold (len data).
  fold (parts room data) in Hs. fold l in Hs. rewrite Z.add_0_l in Hs. fold n in Hs. rewrite (run_bind _ _ _ _ _ Hs).
  erewrite run_bind; [|apply window_end_request_run; exact Hm]. unfold mret, M_ret. do 2 f_equal. unfold awaited. f_equal. unfold on_ltp_ba, on_proxy. cbn. f_equal.
  rewrite fmap_app. unfold sends_all. by rewrite foldl_app.
Qed.

(** ** The server *)

Context (nid : Z) (Hnid : 0 ≤ nid < 10 ^ 8) (cs : list bytes) (behind : bytes).
Context (Hcs : Forall (λ c, len c < 65536) cs) (Hn : Z.of_nat (length cs) < 65536) (Hb : (7 ≤ length behind)%nat).

Notation rcid' := (on_wire other_int rcid).
Notation arrives := (from_client other_int getpid sendmsg_ret junk rand mtu ltpInitialCredit (-1) own_nid write_ret retries cid rcid nid).

(** The fragments in [D] have arrived since [s0], and nothing has been done. *)
Record request_state (D : gset Z) (s0 s : NapHttp) : Prop := mkRequest {
  rs_arrived : default ∅ (arrived rcid' nid sk (h_ltp s)) = table cs D;
  rs_ba : ltp_ba (h_ltp s) = ltp_ba (h_ltp s0);
  rs_enabled : default false (knownNIds (h_ltp s) !! nid) = default false (knownNIds (h_ltp s0) !! nid);
  rs_server : to_server s = to_server s0;
}.

Lemma addNodeId_enabled l l' : addNodeId nid l = Ok (tt, l') →
  default false (knownNIds l' !! nid) = default false (knownNIds l !! nid).
Proof.
  unfold addNodeId, modify. intros [= <-]. cbn [knownNIds on_nids]. destruct (knownNIds l !! nid) as [b|] eqn:E; [by rewrite E|].
  unfold add_new. destruct (knownNIds l !! u16 nid) eqn:E'; [by rewrite E|]. destruct (decide (u16 nid = nid)) as [->|Hne]; [by rewrite lookup_insert_eq|].
  by rewrite lookup_insert_ne, E.
Qed.

Lemma padding_behind : Forall (λ c, padding (length c) ≤ length behind)%nat cs.
Proof using Hb. apply Forall_forall. intros c _. pose proof (padding_less (length c)). lia. Qed.

Lemma fragment_arrives D s0 s j : request_state D s0 s → numbered cs j → ∃ s',
  arrives (ltp_fragment junk sk j behind (part cs j)) s = Ok (tt, s') ∧ request_state ({[j]} ∪ D) s0 s'.
Proof using All.
  intros [Ha Hba Hen Hsv] Hj. set (l := h_ltp s) in *. destruct (addNodeId nid l) as [[[] l1]|] eqn:El; [|done].
  assert (arrived rcid' nid sk l1 = arrived rcid' nid sk l ∧ ltp_ba l1 = ltp_ba l) as [Ha1 Hb1] by (unfold addNodeId, modify in El; by injection El as <-).
  pose proof (handle_data_run other_int junk rcid' nid sk Hsk cs behind Hcs Hn padding_behind j D l1 Hj ltac:(by rewrite Ha1)) as Hd.
  eexists. split.
  - erewrite (from_client_run _ _ _ _ _ _ _ _ _ _ _ cid rcid 2 nid _ TP_STATE_NO_ACTION_REQUIRED 0); [reflexivity|done..|].
    unfold ltp_handle_request. cbv zeta. rewrite nid_of_str by done. rewrite (run_bind _ _ _ _ _ El).
    rewrite (run_bind _ _ _ _ _ (fragment_type junk sk j behind (part cs j) l1)), Z.eqb_refl. cbv match.
    erewrite run_bind; [reflexivity|]. unfold handleData_request. by rewrite (run_bind _ _ _ _ _ Hd).
  - constructor.
    + cbn [h_ltp on_ltp on_reverse_nids heard_from]. unfold arrived. cbn [icnPacketBuffer on_potential]. fold (arrived rcid' nid sk (with_arrived rcid' nid sk (table cs ({[j]} ∪ D)) l1)).
      by rewrite arrived_with.
    + cbn. by rewrite Hb1.
    + cbn. rewrite <-Hen. by apply addNodeId_enabled.
    + done.
Qed.

Lemma fragments_arrive js D s0 s : request_state D s0 s → Forall (numbered cs) js → ∃ s',
  for_each js (λ j, arrives (ltp_fragment junk sk j behind (part cs j))) s = Ok (tt, s') ∧ request_state (list_to_set js ∪ D) s0 s'.
Proof using All.
  revert D s. induction js as [|j js IH]; intros D s Hs Hjs.
  { exists s. split; [done|]. by assert (list_to_set [] ∪ D = D) as -> by set_solver. }
  apply Forall_cons in Hjs as [Hj Hjs]. destruct (fragment_arrives D s0 s j Hs Hj) as (s1 & H1 & Hs1).
  destruct (IH _ s1 Hs1 Hjs) as (s' & H2 & Hs'). exists s'. split; [cbn [for_each]; by rewrite (run_bind _ _ _ _ _ H1)|].
  by assert (list_to_set (j :: js) ∪ D = list_to_set js ∪ ({[j]} ∪ D)) as -> by set_solver.
Qed.

(** The end of the window is confirmed when the node can be reached. *)
Definition told (l : Ltp) : Ltp :=
  if default false (knownNIds l !! nid) then on_ltp_ba (sent_to_node (nodes_message getpid rcid [nid] (wed_packet junk sk))) l else l.

Lemma window_ended_run l : publishWindowEnded_node getpid sendmsg_ret junk rcid' nid sk l = Ok (tt, told l).
Proof using Hr Hnid.
  unfold publishWindowEnded_node, told. rewrite (run_bind _ _ l (default false (knownNIds l !! nid)) l) by done.
  destruct (default false (knownNIds l !! nid)); [|done].
  rewrite (run_bind _ _ l (wed_packet junk sk) l) by (apply (control_bytes_run junk 16); by apply Nat.leb_le).
  rewrite (publish_nodes_run getpid sendmsg_ret rcid' [nid] 2); [|by apply wire_ok|by constructor|by apply Nat.ltb_lt]. by rewrite wire_nodes_message.
Qed.

Lemma window_end_read sn l : 0 ≤ sn < 65536 → ∃ l1, addNodeId nid l = Ok (tt, l1) ∧
  ltp_handle_request other_int getpid sendmsg_ret junk rand (-1) rcid' (nid_str nid) (we_packet junk sk sn) l
  = handle_window_end getpid sendmsg_ret junk rcid' nid 0 sk sn l1.
Proof using Hsk Hnid.
  intros Hsn. destruct (addNodeId nid l) as [[[] l1]|] eqn:El; [|done]. exists l1. split; [done|].
  destruct (control_fields junk 16 LTP_CONTROL_WINDOW_END sk (le16 sn) l1 ltac:(done) Hsk) as (F0 & F4 & F8 & F12).
  unfold ltp_handle_request. cbv zeta. rewrite nid_of_str by done. rewrite (run_bind _ _ _ _ _ El). unfold we_packet.
  rewrite (run_bind _ _ _ _ _ F0). change (LTP_CONTROL =? LTP_DATA) with false. rewrite Z.eqb_refl. cbv match. unfold handleControl_request.
  rewrite (run_bind _ _ _ _ _ F4). change (LTP_CONTROL_WINDOW_END =? LTP_CONTROL_NACK) with false.
  change (LTP_CONTROL_WINDOW_END =? LTP_CONTROL_SESSION_ENDED) with false. rewrite Z.eqb_refl. cbv match.
  rewrite (run_bind _ _ _ _ _ F8), (run_bind _ _ _ _ _ F12).
  rewrite (run_bind _ _ l1 sn l1); [done|]. rewrite <-(app_nil_r (le16 sn)). by apply control_number.
Qed.

Lemma full_table_complete n : 1 ≤ n → n = Z.of_nat (length cs) → missing (table cs (all_numbers cs)) n = None.
Proof.
  intros H1 ->. pose proof (missing_spec (table cs (all_numbers cs)) (Z.of_nat (length cs)) H1) as Hm.
  destruct (missing _ _) as [[f l]|]; [|done]. exfalso. destruct Hm as (? & ? & ? & j & Hj & Hnone).
  - intros j [x Hx]. rewrite lookup_table in Hx. destruct (decide (j ∈ all_numbers cs)) as [Hin|]; [|done]. by apply elem_of_all_numbers in Hin.
  - rewrite lookup_table, decide_True in Hnone; [done|]. apply elem_of_all_numbers. unfold numbered. lia.
Qed.

(** The last message of a request: all fragments are there. *)
Lemma request_complete s0 s : cs ≠ [] → len (concat cs) < 65536 → request_state (all_numbers cs) s0 s → ∃ s',
  arrives (we_packet junk sk (Z.of_nat (length cs))) s = Ok (tt, s') ∧
  to_server s' = to_server s0 ++ [mkServer (on_wire other_int cid) rcid' sk (nid_str nid) (concat cs)] ∧
  ltp_ba (h_ltp s') = ltp_ba (told (h_ltp s0)).
Proof using All.
  intros Hne Hlen [Ha Hba Hen Hsv]. assert (1 ≤ Z.of_nat (length cs)) as H1 by (destruct cs; [done|cbn; lia]).
  destruct (window_end_read (Z.of_nat (length cs)) (h_ltp s) ltac:(lia)) as (l1 & El & Hread).
  pose proof (addNodeId_enabled _ _ El) as He1. assert (arrived rcid' nid sk l1 = arrived rcid' nid sk (h_ltp s) ∧ ltp_ba l1 = ltp_ba (h_ltp s)) as [Ha1 Hb1]
    by (unfold addNodeId, modify in El; by injection El as <-).
  assert (table cs (all_numbers cs) ≠ ∅) as Hne'.
  { intros E. assert (table cs (all_numbers cs) !! 1 = None) as Hx by (by rewrite E). rewrite lookup_table, decide_True in Hx; [done|]. apply elem_of_all_numbers. unfold numbered. lia. }
  assert (arrived rcid' nid sk (h_ltp s) = Some (table cs (all_numbers cs))) as Harr.
  { destruct (arrived rcid' nid sk (h_ltp s)) as [t|]; cbn in Ha; [by subst|by destruct Hne']. }
  set (l2 := on_potential (alter (alter (alter (λ _, true) nid) 0) (icn_hashed rcid')) l1).
  assert (handle_window_end getpid sendmsg_ret junk rcid' nid 0 sk (Z.of_nat (length cs)) l1 = Ok ((TP_STATE_ALL_FRAGMENTS_RECEIVED, sk), told l2)) as Hwe.
  { unfold handle_window_end. rewrite (run_bind _ _ l1 tt l2) by done.
    rewrite (run_bind _ _ l2 (Some (table cs (all_numbers cs))) l2) by (unfold gets, get, mbind, M_bind, mret, M_ret; do 2 f_equal; rewrite <-Harr, <-Ha1; done).
    rewrite decide_False by done. rewrite (run_bind _ _ l2 tt l2) by done. rewrite full_table_complete by done.
    by rewrite (run_bind _ _ _ _ _ (window_ended_run l2)). }
  assert (arrived rcid' nid sk (told l2) = Some (table cs (all_numbers cs))) as Harr2.
  { rewrite <-Harr, <-Ha1. unfold told. by destruct (default false (knownNIds l2 !! nid)). }
  eexists. split.
  - erewrite (from_client_run _ _ _ _ _ _ _ _ _ _ _ cid rcid 2 nid _ TP_STATE_ALL_FRAGMENTS_RECEIVED sk); [|done..|by rewrite Hread].
    erewrite run_bind; [|apply with_ltp_run; cbn [h_ltp on_ltp]; apply (retrievePacket_run other_int rcid' nid sk cs); done]. reflexivity.
  - cbn. split; [by rewrite Hsv|]. unfold told. cbn [knownNIds l2 on_potential]. rewrite He1, Hen. destruct (default false (knownNIds (h_ltp s0) !! nid)); cbn; by rewrite Hb1, Hba.
Qed.

(** The last message of a request of which nothing has arrived *)
Lemma request_unknown sn s : 0 ≤ sn < 65536 → arrived rcid' nid sk (h_ltp s) = None → ∃ s',
  arrives (we_packet junk sk sn) s = Ok (tt, s') ∧ to_server s' = to_server s ∧ ltp_ba (h_ltp s') = ltp_ba (told (h_ltp s)).
Proof using Hsk Hnid Hc Hr.
  intros Hsn Ha. destruct (window_end_read sn (h_ltp s) Hsn) as (l1 & El & Hread). pose proof (addNodeId_enabled _ _ El) as He1.
  assert (arrived rcid' nid sk l1 = arrived rcid' nid sk (h_ltp s) ∧ ltp_ba l1 = ltp_ba (h_ltp s)) as [Ha1 Hb1]
    by (unfold addNodeId, modify in El; by injection El as <-).
  set (l2 := on_potential (alter (alter (alter (λ _, true) nid) 0) (icn_hashed rcid')) l1).
  assert (handle_window_end getpid sendmsg_ret junk rcid' nid 0 sk sn l1 = Ok ((TP_STATE_FRAGMENTS_OUTSTANDING, 0), told l2)) as Hwe.
  { unfold handle_window_end. rewrite (run_bind _ _ l1 tt l2) by done.
    rewrite (run_bind _ _ l2 None l2) by (unfold gets, get, mbind, M_bind, mret, M_ret; do 2 f_equal; rewrite <-Ha, <-Ha1; done).
    by rewrite (run_bind _ _ _ _ _ (window_ended_run l2)). }
  eexists. split; [|split].
  - erewrite (from_client_run _ _ _ _ _ _ _ _ _ _ _ cid rcid 2 nid _ TP_STATE_FRAGMENTS_OUTSTANDING 0); [reflexivity|done..|by rewrite Hread].
  - done.
  - cbn. unfold told. cbn [knownNIds l2 on_potential]. rewrite He1. destruct (default false (knownNIds (h_ltp s) !! nid)); cbn; by rewrite Hb1.
Qed.
End request.

(** ** Answers at the client *)

Section answers.
Context (other_int : bytes → Z) (getpid : Z) (sendmsg_ret : list (Z * Netlink.addressed bytes) → Z) (junk rand : nat → Z).
Context (mtu ltpInitialCredit own_nid : Z) (write_ret : nat → option Z) (retries : nat).
Context (rcid : IcnId) (Hr : http_icn other_int rcid 2) (sk : Z) (Hsk : 0 ≤ sk < 65536).

Notation rcid' := (on_wire other_int rcid).
Notation answered := (from_server other_int getpid sendmsg_ret junk rand mtu ltpInitialCredit (-1) own_nid write_ret retries rcid).

Lemma control_read type rest size s : 0 ≤ type < 4294967296 →
  ltp_handle_response getpid sendmsg_ret junk rand (-1) own_nid rcid' (control_bytes junk size type sk rest) s
  = handleControl_response getpid sendmsg_ret junk rand (-1) own_nid rcid' (control_bytes junk size type sk rest) s.
Proof using Hsk.
  intros Ht. destruct (control_fields junk size type sk rest s Ht Hsk) as (F0 & _).
  unfold ltp_handle_response. rewrite (run_bind _ _ _ _ _ F0). done.
Qed.

(** The request is confirmed: the flag is set and the copy deleted. *)
Definition confirmed_request (s : Ltp) : Ltp :=
  on_proxy (alter (alter (delete sk) 0) (icn_hashed rcid)) (on_requests (inside (icn_hashed rcid) (inside 0 (insert sk true))) s).

Lemma wed_answered s b : at3 (icn_hashed rcid) 0 sk (windowEndedRequests (h_ltp s)) = Some b →
  answered (wed_packet junk sk) s = Ok (tt, on_ltp confirmed_request s).
Proof using Hr Hsk.
  intros Hf. rewrite (from_server_run _ _ _ _ _ _ _ _ _ _ _ rcid 2 _ TP_STATE_NO_ACTION_REQUIRED 0 (confirmed_request (h_ltp s))); [done|done|].
  unfold wed_packet. rewrite control_read by done. set (l := h_ltp s) in *.
  destruct (control_fields junk 16 LTP_CONTROL_WINDOW_ENDED sk [] l ltac:(done) Hsk) as (F0 & F4 & F8 & F12). unfold handleControl_response.
  rewrite (run_bind _ _ _ _ _ F4). change (LTP_CONTROL_WINDOW_ENDED =? LTP_CONTROL_NACK) with false.
  change (LTP_CONTROL_WINDOW_ENDED =? LTP_CONTROL_SESSION_END) with false. change (LTP_CONTROL_WINDOW_ENDED =? LTP_CONTROL_WINDOW_END) with false.
  rewrite Z.eqb_refl. cbv match. rewrite (run_bind _ _ _ _ _ F8), (run_bind _ _ _ _ _ F12).
  rewrite (run_bind _ _ l (Some b) l) by (unfold gets, get, mbind, M_bind; by rewrite (wire_hash other_int rcid 2 Hr), Hf).
  unfold confirmed_request, deleteProxyPacket, modify, mbind, M_bind, mret, M_ret. by rewrite (wire_hash other_int rcid 2 Hr).
Qed.

Lemma confirmed_copy s : at3 (icn_hashed rcid) 0 sk (proxyPacketBuffer (confirmed_request s)) = None.
Proof. apply (at3_deleted (A := gmap Z bytes)). Qed.

Lemma confirmed_poll ltpRttListSize waited s : ∃ l, request_poll ltpRttListSize rcid sk waited (confirmed_request s) = Ok (true, l).
Proof.
  eexists. unfold request_poll, confirmed_request. set (s1 := on_proxy _ _).
  set (m := insert 0 (insert sk true (default ∅ (default ∅ (windowEndedRequests s !! icn_hashed rcid) !! 0))) (default ∅ (windowEndedRequests s !! icn_hashed rcid))).
  rewrite (run_bind _ _ s1 (Some m) s1).
  2:{ unfold gets, get, mbind, M_bind, mret, M_ret, s1. cbn [windowEndedRequests on_proxy on_requests]. unfold inside. by rewrite lookup_insert_eq. }
  unfold m. rewrite lookup_insert_eq, lookup_insert_eq. reflexivity.
Qed.

(** The client publishes the range again, to its own node. *)
Lemma nack_answered s (packets : gmap Z bytes) cid a b : 0 ≤ own_nid < 10 ^ 8 → 1 ≤ a → a ≤ b → b < 65535 →
  (∀ j, a ≤ j ≤ b → is_Some (packets !! j)) → cIdReverseLookUp (h_ltp s) !! icn_hashed rcid = Some cid →
  at3 (icn_hashed rcid) 0 sk (proxyPacketBuffer (h_ltp s)) = Some packets →
  answered (nack_packet junk sk a b) s
  = Ok (tt, on_ltp (on_ltp_ba (sends_all ((λ j, nodes_message getpid rcid [own_nid] (default [] (packets !! j))) <$> range a b))) s).
Proof using Hr Hsk.
  intros Hown Ha Hab Hb Hp Hrev Hbuf. set (l := h_ltp s) in *.
  set (l' := on_ltp_ba (sends_all ((λ j, nodes_message getpid rcid [own_nid] (default [] (packets !! j))) <$> range a b)) l).
  rewrite (from_server_run _ _ _ _ _ _ _ _ _ _ _ rcid 2 _ TP_STATE_NO_ACTION_REQUIRED 0 l'); [done|done|].
  unfold nack_packet. rewrite control_read by done. fold l.
  destruct (control_fields junk 20 LTP_CONTROL_NACK sk (le16 a ++ le16 b) l ltac:(done) Hsk) as (F0 & F4 & F8 & F12). unfold handleControl_response.
  rewrite (run_bind _ _ _ _ _ F4), Z.eqb_refl. cbv match. rewrite (run_bind _ _ _ _ _ F8), (run_bind _ _ _ _ _ F12).
  rewrite (run_bind _ _ l a l) by (apply control_number; lia). rewrite (run_bind _ _ l b l).
  2:{ replace (le16 a ++ le16 b) with (le16 a ++ le16 b ++ []) by (by rewrite app_nil_r). apply control_second. lia. }
  rewrite (run_bind _ _ l tt l'); [done|]. unfold publishDataRange_request.
  rewrite (run_bind _ _ l (Some cid) l) by (unfold reverse_cid, gets, get, mbind, M_bind; by rewrite (wire_hash other_int rcid 2 Hr), Hrev).
  rewrite (run_bind _ _ l (Some packets) l) by (unfold gets, get, mbind, M_bind; by rewrite (wire_hash other_int rcid 2 Hr), Hbuf).
  rewrite (publish_range_run getpid sendmsg_ret rand rcid' 2); [reflexivity|by apply wire_ok|by constructor|by apply Nat.ltb_lt|done|lia|by apply range_size|done].
Qed.
End answers.
