(* ===== verification/NapLtpRequestProps.v ===== *)
(** * Properties of requests over the lightweight transport *)
From stdpp Require Import base list gmap sets.
From Stdlib Require Import ZArith Lia Bool.
From S2P Require Import Prelude Enums Containers UserLib UserProps Blocks NapTypes NapUTP NapUTPProps NapLtp NapHttp NapLtpPackets NapLtpData NapLtpWire NapLtpRequest.

Local Open Scope Z_scope.

Lemma le16_inj a b : 0 ≤ a < 65536 → 0 ≤ b < 65536 → le16 a = le16 b → a = b.
Proof. intros Ha Hb E. by rewrite <-(read16_le16 a Ha), E, read16_le16. Qed.

Lemma ltp_fragment_inj junk sk j j' behind c c' : 0 ≤ j < 65536 → 0 ≤ j' < 65536 →
  ltp_fragment junk sk j behind c = ltp_fragment junk sk j' behind c' → j = j'.
Proof.
  intros Hj Hj' E. unfold ltp_fragment, filled in E. rewrite <-!app_assoc in E. do 3 apply app_inv_head in E. apply le16_inj; [done|done|].
  by apply app_inj_1 in E as [? _].
Qed.

Lemma for_each_fmap {S A B : Type} (f : A → B) (l : list A) (body : B → M S unit) s : for_each (f <$> l) body s = for_each l (λ a, body (f a)) s.
Proof.
  revert s. induction l as [|a l IH]; intros s; [done|]. cbn [fmap list_fmap for_each]. unfold mbind, M_bind. destruct (body (f a) s) as [[[] s1]|]; [apply IH|done].
Qed.

(** Packets as the numbers of their fragments *)
Lemma packets_numbered junk sk behind cs arrivals : (∀ p, p ∈ arrivals → p ∈ (fragment_packets junk sk 0 behind cs).*2) →
  ∃ js, Forall (numbered cs) js ∧ arrivals = (λ j, ltp_fragment junk sk j behind (part cs j)) <$> js.
Proof.
  induction arrivals as [|p l IH]; intros Ha; [by exists []|]. destruct IH as (js & Hjs & ->); [intros q Hq; apply Ha; by right|].
  destruct (fragment_packets_elem junk sk behind cs p) as (j & Hj & ->); [apply Ha; left|]. exists (j :: js). split; [by constructor|done].
Qed.

Lemma packet_numbers junk sk behind cs arrivals : Z.of_nat (length cs) < 65536 →
  (∀ p, p ∈ arrivals ↔ p ∈ (fragment_packets junk sk 0 behind cs).*2) → ∃ js, Forall (numbered cs) js ∧
    arrivals = (λ j, ltp_fragment junk sk j behind (part cs j)) <$> js ∧ list_to_set js = all_numbers cs.
Proof.
  intros Hn Ha. destruct (packets_numbered junk sk behind cs arrivals) as (js & Hjs & ->); [by intros p ?%Ha|].
  exists js. split_and!; [done|done|]. apply set_eq. intros j. rewrite elem_of_list_to_set, elem_of_all_numbers. split.
  - intros Hj. by eapply Forall_forall in Hjs.
  - intros Hj. pose proof (fragment_packets_lookup junk sk behind cs j Hj) as Hl.
    assert (ltp_fragment junk sk j behind (part cs j) ∈ (fragment_packets junk sk 0 behind cs).*2) as Hp by (apply list_elem_of_fmap; eexists; split; [|exact Hl]; done).
    apply Ha, list_elem_of_fmap in Hp as (j' & E & Hj'). assert (numbered cs j') as Hn' by (by eapply Forall_forall in Hjs). unfold numbered in Hj, Hn'.
    apply ltp_fragment_inj in E as ->; [done|lia|lia].
Qed.

Section requests.
Context (other_int : bytes → Z) (getpid : Z) (sendmsg_ret : list (Z * Netlink.addressed bytes) → Z) (junk rand clock : nat → Z).
Context (mtu ltpInitialCredit ltpRttListSize : Z) (write_ret : nat → option Z) (retries : nat).
Context (fqdn resource : bytes).

(** The identifiers of the host and of the resource *)
Definition host : IcnId := icn_of_fqdn other_int fqdn.
Definition page : IcnId := icn_of_url other_int fqdn resource.

(** An attachment point with the node [nid] *)
Definition http_send (method : Z) (data : bytes) (n sk : Z) : M NapHttp (option Z) :=
  handleRequest other_int getpid sendmsg_ret junk rand mtu ltpInitialCredit (-1) clock fqdn resource method data n sk.
Definition at_server (own_nid nid : Z) (packet : bytes) : M NapHttp unit :=
  from_client other_int getpid sendmsg_ret junk rand mtu ltpInitialCredit (-1) own_nid write_ret retries host page nid packet.
Definition at_client (own_nid : Z) (packet : bytes) : M NapHttp unit :=
  from_server other_int getpid sendmsg_ret junk rand mtu ltpInitialCredit (-1) own_nid write_ret retries page packet.

(** The host can be reached and the session is not one of several that wait. *)
Record can_request (sk : Z) (c : NapHttp) : Prop := mkCan {
  can_forward : ∃ known, cIds c !! icn_hashed host = Some known ∧ icn_forwarding known = true;
  can_wait : may_request page sk (h_ltp c);
}.

(** What the client publishes *)
Definition request_packets (sk : Z) (data behind : bytes) : list (Z * bytes) :=
  fragment_packets junk sk 0 behind (parts (Z.to_nat (payload_room (mtu - 88))) data).

Lemma request_run sk method (data behind : bytes) c : can_request sk c → 8 ≤ mtu - 88 < 65000 → len data < 65536 → (7 ≤ length behind)%nat →
  let l := request_packets sk data behind in let n := Z.of_nat (length l) in
  ∃ c', http_send method (data ++ behind) (len data) sk c = Ok (Some n, c') ∧
    h_ltp c' = awaited page sk (on_proxy (keep_packets (icn_hashed page) sk l)
      (on_ltp_ba (sends_all (isub_message getpid host page <$> l.*2 ++ [we_packet junk sk n])) (on_reverse (add_new (icn_hashed page) host) (h_ltp c)))) ∧
    sk ∈ default [] (at2 (icn_hashed page) 0 (ipEndpointSessions c')).
Proof.
  intros [(known & Hk & Hf) Hw] Hm Hd Hb l n. destruct (payload_room_ok (mtu - 88) Hm) as (room & Hroom & H0 & H8 & Hs).
  assert (∃ c1, addIpEndpointSession page sk c = Ok (tt, c1) ∧ h_ltp c1 = h_ltp c ∧ cIds c1 = cIds c ∧
    sk ∈ default [] (at2 (icn_hashed page) 0 (ipEndpointSessions c1))) as (c1 & Hadd & Hl1 & Hc1 & Hin).
  { eexists. split; [done|]. split_and!; [done|done|]. cbn [ipEndpointSessions on_endpoints]. destruct (decide _) as [Hin|Hin]; [done|].
    unfold at2, inside. rewrite lookup_insert_eq. cbn [mbind option_bind]. rewrite lookup_insert_eq. cbn. apply elem_of_app. right. by left. }
  eexists. split; [|split].
  - unfold http_send, handleRequest. cbv zeta. fold host page. rewrite (run_bind _ _ _ _ _ Hadd).
    rewrite (run_bind _ _ c1 (Some known) c1) by (unfold hgets, get, mbind, M_bind; by rewrite Hc1, Hk). rewrite Hf.
    erewrite run_bind; [reflexivity|]. apply with_ltp_run. rewrite Hl1.
    rewrite (publish_request_run other_int getpid sendmsg_ret junk rand mtu ltpInitialCredit host page (fqdn_icn _ _) (url_icn _ _ _) sk data behind room) by done.
    cbv zeta. unfold n, l, request_packets. rewrite Hroom, Nat2Z.id. done.
  - cbn [h_ltp on_ltp]. unfold n, l, request_packets. by rewrite Hroom, Nat2Z.id.
  - done.
Qed.

(** C38. A request is delivered: a client's attachment point that can reach
    the host, and at which no other session waits for the resource, publishes
    the fragments of the request and the end of the window, and a server's
    attachment point that gets the fragments in any order, some of them more
    than once, and then the end of the window, hands exactly the request to
    the server, once, with the session and the node of the client. It confirms
    the request if and only if it can reach this node. *)
Theorem ltp_request_delivered (own nid sk method : Z) (data behind : bytes) (c r : NapHttp) :
  can_request sk c → 8 ≤ mtu - 88 < 65000 → data ≠ [] → len data < 65536 → (7 ≤ length behind)%nat →
  0 ≤ sk < 65536 → 0 ≤ nid < 10 ^ 8 → arrived (on_wire other_int page) nid sk (h_ltp r) = None →
  ∃ packets we c', http_send method (data ++ behind) (len data) sk c = Ok (Some (Z.of_nat (length packets)), c') ∧
    ltp_ba (h_ltp c') = sends_all (isub_message getpid host page <$> packets ++ [we]) (ltp_ba (h_ltp c)) ∧
    ∀ arrivals, (∀ p, p ∈ arrivals ↔ p ∈ packets) → ∃ r', for_each (arrivals ++ [we]) (at_server own nid) r = Ok (tt, r') ∧
      to_server r' = to_server r ++ [mkServer (on_wire other_int host) (on_wire other_int page) sk (nid_str nid) data] ∧
      ltp_ba (h_ltp r') = ltp_ba (told getpid junk page sk nid (h_ltp r)).
Proof.
  intros Hc Hm Hne Hd Hb Hsk Hnid Hr. destruct (request_run sk method data behind c Hc Hm Hd Hb) as (c' & Hrun & Hl & _).
  destruct (payload_room_ok (mtu - 88) Hm) as (room & Hroom & H0 & _ & Hs).
  set (cs := parts room data). assert (request_packets sk data behind = fragment_packets junk sk 0 behind cs) as El
    by (unfold request_packets, cs; by rewrite Hroom, Nat2Z.id). rewrite El in Hrun, Hl.
  assert (length (fragment_packets junk sk 0 behind cs) = length cs) as Hlen by (unfold fragment_packets; apply length_imap).
  assert (concat cs = data) as Hcat by (by apply chunks_concat).
  assert (cs ≠ []) as Hcne by (intros E; by rewrite E in Hcat).
  assert (Z.of_nat (length cs) < 65536) as Hn by (pose proof (chunks_count (length data) room data H0); unfold cs, parts, len in *; lia).
  assert (Forall (λ x, len x < 65536) cs) as Hcs by (apply Forall_forall; intros x Hx%chunks_short; unfold len; lia).
  exists (fragment_packets junk sk 0 behind cs).*2, (we_packet junk sk (Z.of_nat (length cs))), c'. rewrite length_fmap, Hlen in *. split_and!; [done|by rewrite Hl|].
  intros arrivals Ha. destruct (packet_numbers junk sk behind cs arrivals Hn Ha) as (js & Hjs & -> & Hset).
  destruct (fragments_arrive other_int getpid sendmsg_ret junk rand mtu ltpInitialCredit own write_ret retries host page (fqdn_icn _ _) (url_icn _ _ _)
    sk Hsk nid Hnid cs behind Hcs Hn Hb js ∅ r r) as (r1 & H1 & Hst); [constructor; [|done..]|done|].
  { rewrite Hr. cbn [default from_option]. symmetry. apply map_eq. intros j. rewrite lookup_table, decide_False, lookup_empty by set_solver. done. }
  rewrite Hset in Hst. assert (all_numbers cs ∪ ∅ = all_numbers cs) as E by set_solver. rewrite E in Hst.
  destruct (request_complete other_int getpid sendmsg_ret junk rand mtu ltpInitialCredit own write_ret retries host page (fqdn_icn _ _) (url_icn _ _ _)
    sk Hsk nid Hnid cs behind Hcs Hn Hb r r1 Hcne ltac:(by rewrite Hcat) Hst) as (r' & H2 & Hsv & Hba).
  exists r'. rewrite Hcat in Hsv. split_and!; [|done|done]. erewrite for_each_app; [|rewrite for_each_fmap; exact H1]. cbn [for_each]. by rewrite (run_bind _ _ _ _ _ H2).
Qed.

(** C40. A request that is lost is confirmed: when a client's attachment point
    that can reach the host, and at which no other session waits for the
    resource, publishes it and none of its fragments arrives, the server's
    attachment point, if it can reach the node of the client, answers the end
    of the window as if it had the request, but hands nothing to the server;
    the client's attachment point then deletes its copy and stops waiting. *)
Theorem ltp_lost_request_confirmed (own nid sk method waited : Z) (data behind : bytes) (c r : NapHttp) :
  can_request sk c → 8 ≤ mtu - 88 < 65000 → len data < 65536 → (7 ≤ length behind)%nat →
  0 ≤ sk < 65536 → 0 ≤ nid < 10 ^ 8 → arrived (on_wire other_int page) nid sk (h_ltp r) = None →
  knownNIds (h_ltp r) !! nid = Some true →
  ∃ packets we wed c' r' c'', http_send method (data ++ behind) (len data) sk c = Ok (Some (Z.of_nat (length packets)), c') ∧
    ltp_ba (h_ltp c') = sends_all (isub_message getpid host page <$> packets ++ [we]) (ltp_ba (h_ltp c)) ∧
    at_server own nid we r = Ok (tt, r') ∧ to_server r' = to_server r ∧
    ltp_ba (h_ltp r') = sent_to_node (nodes_message getpid page [nid] wed) (ltp_ba (h_ltp r)) ∧
    at_client nid wed c' = Ok (tt, c'') ∧ at3 (icn_hashed page) 0 sk (proxyPacketBuffer (h_ltp c'')) = None ∧
    ∃ l, request_poll ltpRttListSize page sk waited (h_ltp c'') = Ok (true, l).
Proof.
  intros Hc Hm Hd Hb Hsk Hnid Hr Hen. destruct (request_run sk method data behind c Hc Hm Hd Hb) as (c' & Hrun & Hl & _).
  set (l := request_packets sk data behind) in *. assert (Z.of_nat (length l) < 65536) as Hn.
  { destruct (payload_room_ok (mtu - 88) Hm) as (room & Hroom & H0 & _ & _). unfold l, request_packets, fragment_packets. rewrite length_imap, Hroom, Nat2Z.id.
    pose proof (chunks_count (length data) room data H0). unfold parts, len in *. lia. }
  destruct (request_unknown other_int getpid sendmsg_ret junk rand mtu ltpInitialCredit own write_ret retries host page (fqdn_icn _ _) (url_icn _ _ _)
    sk Hsk nid Hnid (Z.of_nat (length l)) r ltac:(lia) Hr) as (r' & Hr' & Hsv & Hba).
  pose proof (wed_answered other_int getpid sendmsg_ret junk rand mtu ltpInitialCredit nid write_ret retries page (url_icn _ _ _) sk Hsk c' false) as Hw.
  exists l.*2, (we_packet junk sk (Z.of_nat (length l))), (wed_packet junk sk), c', r', (on_ltp (confirmed_request page sk) c').
  rewrite length_fmap. split_and!; [done|by rewrite Hl|done|done|by rewrite Hba; unfold told; rewrite Hen| | |].
  - apply Hw. rewrite Hl. unfold awaited. cbn [windowEndedRequests on_requests]. unfold at3. rewrite at2_inside. unfold inside. rewrite lookup_insert_eq. cbn. apply lookup_insert_eq.
  - apply confirmed_copy.
  - apply confirmed_poll.
Qed.

(** A request that arrives in part is not repaired: what the client's
    attachment point publishes when the server's asks for a range of its
    fragments goes, under the identifier of the resource, to its own node;
    nothing is published under the identifier of the host. *)
Theorem ltp_request_repair_misdirected (own sk method first last : Z) (data behind : bytes) (c : NapHttp) :
  can_request sk c → 8 ≤ mtu - 88 < 65000 → len data < 65535 → (7 ≤ length behind)%nat →
  0 ≤ sk < 65536 → 0 ≤ own < 10 ^ 8 → at3 (icn_hashed page) 0 sk (proxyPacketBuffer (h_ltp c)) = None →
  cIdReverseLookUp (h_ltp c) !! icn_hashed page = None → 1 ≤ first → first ≤ last →
  ∃ packets c', http_send method (data ++ behind) (len data) sk c = Ok (Some (Z.of_nat (length packets)), c') ∧
    (last ≤ Z.of_nat (length packets) → ∃ c'' again, at_client own (nack_packet junk sk first last) c' = Ok (tt, c'') ∧
      Forall (λ p, p ∈ packets) again ∧ Z.of_nat (length again) = last - first + 1 ∧
      ltp_ba (h_ltp c'') = sends_all (nodes_message getpid page [own] <$> again) (ltp_ba (h_ltp c')) ∧
      ∀ p p', p ∈ again → nodes_message getpid page [own] p ≠ isub_message getpid host page p').
Proof.
  intros Hc Hm Hd Hb Hsk Hown Hbuf Hrev Hf Hfl. destruct (request_run sk method data behind c Hc Hm ltac:(lia) Hb) as (c' & Hrun & Hl & _).
  set (l := request_packets sk data behind) in *. assert (Z.of_nat (length l) < 65535) as Hn.
  { destruct (payload_room_ok (mtu - 88) Hm) as (room & Hroom & H0 & _ & _). unfold l, request_packets, fragment_packets. rewrite length_imap, Hroom, Nat2Z.id.
    pose proof (chunks_count (length data) room data H0). unfold parts, len in *. lia. }
  exists l.*2, c'. rewrite length_fmap. split; [done|]. intros Hlast.
  assert (l ≠ []) as Hne by (intros E; rewrite E in Hlast; cbn in Hlast; lia).
  assert (NoDup l.*1) as Hnd by apply fragment_packets_keys.
  assert (∀ j, first ≤ j ≤ last → ∃ p, (list_to_map l : gmap Z bytes) !! j = Some p ∧ p ∈ l.*2) as Hin.
  { intros j Hj. set (cs := parts (Z.to_nat (payload_room (mtu - 88))) data). assert (numbered cs j) as Hnum.
    { unfold numbered. assert (length l = length cs) as <- by (unfold l, request_packets, fragment_packets; apply length_imap). lia. }
    pose proof (fragment_packets_lookup junk sk behind cs j Hnum) as Hp. eexists. split; [by apply elem_of_list_to_map|].
    apply list_elem_of_fmap. eexists. split; [|exact Hp]. done. }
  eexists _, ((λ j, default [] ((list_to_map l : gmap Z bytes) !! j)) <$> range first last). split_and!.
  - apply (nack_answered other_int getpid sendmsg_ret junk rand mtu ltpInitialCredit own write_ret retries page (url_icn _ _ _) sk Hsk c' (list_to_map l) host first last); [done|lia..| | |].
    + intros j Hj. destruct (Hin j Hj) as (p & -> & _). done.
    + rewrite Hl. cbn [cIdReverseLookUp awaited on_requests on_proxy on_ltp_ba on_reverse]. unfold add_new. by rewrite Hrev, lookup_insert_eq.
    + rewrite Hl. cbn [proxyPacketBuffer awaited on_requests on_proxy on_ltp_ba on_reverse]. by apply keep_packets_session.
  - apply Forall_fmap, Forall_forall. intros j Hj%elem_of_range. destruct (Hin j Hj) as (p & Hp & Hpl). cbn. by rewrite Hp.
  - rewrite length_fmap. unfold range. rewrite length_fmap, length_seq. lia.
  - cbn. by rewrite <-list_fmap_compose.
  - intros p p' _ E. unfold nodes_message, isub_message, request_message in E. apply app_inj_1 in E as [_ E]; [done|].
    unfold request_header. by rewrite !Netlink.length_nlmsghdr.
Qed.

(** Two sessions of a client's attachment point cannot ask for the same
    resource at the same time: while the first one waits for its confirmation
    the second one publishes its fragments and the end of its window, and then
    writes through the end of the table of sessions. *)
Theorem ltp_second_session_fails (sk sk' method : Z) (data behind : bytes) (c : NapHttp) :
  (∃ known, cIds c !! icn_hashed host = Some known ∧ icn_forwarding known = true) →
  at3 (icn_hashed page) 0 sk (windowEndedRequests (h_ltp c)) = Some false → at3 (icn_hashed page) 0 sk' (windowEndedRequests (h_ltp c)) = None →
  8 ≤ mtu - 88 < 65000 → len data < 65536 → (7 ≤ length behind)%nat →
  http_send method (data ++ behind) (len data) sk' c = Fault EndDeref.
Proof.
  intros (known & Hk & Hf) Hsk Hsk' Hm Hd Hb. destruct (payload_room_ok (mtu - 88) Hm) as (room & Hroom & H0 & H8 & Hs).
  assert (∃ c1, addIpEndpointSession page sk' c = Ok (tt, c1) ∧ h_ltp c1 = h_ltp c ∧ cIds c1 = cIds c) as (c1 & Hadd & Hl1 & Hc1) by (eexists; by split_and!).
  unfold http_send, handleRequest. cbv zeta. fold host page. rewrite (run_bind _ _ _ _ _ Hadd).
  rewrite (run_bind _ _ c1 (Some known) c1) by (unfold hgets, get, mbind, M_bind; by rewrite Hc1, Hk). rewrite Hf.
  unfold with_ltp at 1, mbind at 1, M_bind at 1. rewrite Hl1.
  enough (publish_request getpid sendmsg_ret junk rand mtu ltpInitialCredit (-1) host page sk' (data ++ behind) (len data) (h_ltp c) = Fault EndDeref) as -> by done.
  unfold publish_request. set (s1 := on_reverse (add_new (icn_hashed page) host) (h_ltp c)). rewrite (run_bind _ _ (h_ltp c) tt s1) by done.
  pose proof (hi_ok _ _ _ (fqdn_icn other_int fqdn)) as Hh. pose proof (hi_ok _ _ _ (url_icn other_int fqdn resource)) as Hp. fold host in Hh. fold page in Hp.
  unfold publishData_request. rewrite (run_bind _ _ _ _ _ (icn_length_run host 2 s1 Hh)), (run_bind _ _ _ _ _ (icn_length_run page 2 s1 Hp)). cbv zeta.
  replace (mtu - 8 * Z.of_nat 2 - 8 * Z.of_nat 2 - ICN_HEADER_LENGTH - LTP_HDR_DATA - 20) with (mtu - 88) by (unfold ICN_HEADER_LENGTH, LTP_HDR_DATA; lia).
  rewrite Hroom. pose proof (send_request_run getpid sendmsg_ret junk rand ltpInitialCredit host page 2 2 Hh Hp room H0 H8 Hs sk' behind
    (Z.to_nat (len data)) [] data 0 ltpInitialCredit s1 ltac:(unfold len; lia) Hb Hd ltac:(lia) ltac:(lia)) as Hrun.
  cbn [app] in Hrun. cbv zeta in Hrun. change (len []) with 0 in Hrun. rewrite (run_bind _ _ _ _ _ Hrun). set (s2 := on_proxy _ _).
  unfold publishWindowEnd_request. set (sn := 0 + _). unfold mbind at 1, M_bind at 1.
  rewrite (run_bind _ _ s2 (we_packet junk sk' sn) s2) by (apply (control_bytes_run junk 16); by apply Nat.leb_le).
  rewrite (run_bind _ _ _ _ _ (publish_isub_run getpid sendmsg_ret host page 2 2 _ s2 Hh Hp)).
  unfold addWindowEnd_request. unfold at3 in Hsk, Hsk'. set (s3 := on_ltp_ba _ s2).
  rewrite (run_bind _ _ s3 (at2 (icn_hashed page) 0 (windowEndedRequests (h_ltp c))) s3) by done.
  destruct (at2 (icn_hashed page) 0 (windowEndedRequests (h_ltp c))) as [m|]; [|done]. cbn [mbind option_bind] in Hsk'. rewrite Hsk'.
  rewrite decide_False by (by intros [? ?]). done.
Qed.
End requests.

(** ** Examples: p/ is a known host with the page p/a *)

Definition no_other (_ : bytes) : Z := 0.
Definition zeros (_ : nat) : Z := 0.
Definition a_host : IcnId := host no_other [112; 47].
Definition some_ltp : Ltp := mkLtp ∅ ∅ ∅ ∅ ∅ ∅ ∅ ∅ ∅ ∅ ∅ {[ 7 := true ]} [] (mkBA 3 9999 []) 0.
Definition some_http : NapHttp := mkHttp some_ltp {[ icn_hashed a_host := set_forwarding true a_host ]} ∅ ∅ ∅ ∅ [] [] 0 0.
Definition some_request : bytes := [71; 69; 84; 32; 47; 97; 32; 72; 84; 84; 80].
Definition eight : bytes := replicate 8 0.

Notation a_request := (http_send no_other 1 (λ _, 0) zeros zeros zeros 96 10 [112; 47] [97] 0 (some_request ++ eight) (len some_request)).
Notation a_server := (at_server no_other 1 (λ _, 0) zeros zeros 96 10 (λ _, None) 1 [112; 47] [97] 1 7).
Notation a_client := (at_client no_other 1 (λ _, 0) zeros zeros 96 10 (λ _, None) 1 [112; 47] [97] 7).
Notation a_page := (page no_other [112; 47] [97]).

Lemma some_can_request : can_request no_other [112; 47] [97] 5 some_http.
Proof.
  constructor; [|by left]. exists (set_forwarding true a_host). split; [|done]. apply lookup_singleton_eq.
Qed.

Lemma ltp_request_delivered_witness : ∃ packets we c' r', a_request 5 some_http = Ok (Some (Z.of_nat (length packets)), c') ∧
  for_each (reverse packets ++ packets ++ [we]) a_server some_http = Ok (tt, r') ∧
  to_server r' = [mkServer (on_wire no_other a_host) (on_wire no_other a_page) 5 (nid_str 7) some_request].
Proof.
  destruct (ltp_request_delivered no_other 1 (λ _, 0) zeros zeros zeros 96 10 (λ _, None) 1 [112; 47] [97] 1 7 5 0 some_request eight some_http some_http) as
    (packets & we & c' & Hrun & _ & Hall); [exact some_can_request|lia|done|done|apply Nat.leb_le; reflexivity|lia|lia|done|].
  destruct (Hall (reverse packets ++ packets)) as (r' & Hr & Hsv & _); [intros p; rewrite elem_of_app, elem_of_reverse; tauto|].
  exists packets, we, c', r'. rewrite <-app_assoc in Hr. split; [exact Hrun|]. split; [exact Hr|exact Hsv].
Defined.

Lemma ltp_lost_request_confirmed_witness : ∃ we wed c' r' c'' l, (∃ n, a_request 5 some_http = Ok (Some n, c')) ∧
  a_server we some_http = Ok (tt, r') ∧ to_server r' = [] ∧ a_client wed c' = Ok (tt, c'') ∧ request_poll 5 a_page 5 10 (h_ltp c'') = Ok (true, l).
Proof.
  destruct (ltp_lost_request_confirmed no_other 1 (λ _, 0) zeros zeros zeros 96 10 5 (λ _, None) 1 [112; 47] [97] 1 7 5 0 10 some_request eight some_http some_http) as
    (packets & we & wed & c' & r' & c'' & Hrun & _ & Hr & Hsv & _ & Hc & _ & l & Hp);
    [exact some_can_request|lia|done|apply Nat.leb_le; reflexivity|lia|lia|done|vm_compute; reflexivity|].
  exists we, wed, c', r', c'', l. split; [eexists; exact Hrun|]. split; [exact Hr|]. split; [exact Hsv|]. split; [exact Hc|exact Hp].
Defined.

Lemma ltp_request_repair_misdirected_witness : ∃ n c' c'' p, a_request 5 some_http = Ok (Some n, c') ∧ a_client (nack_packet zeros 5 2 2) c' = Ok (tt, c'') ∧
  ltp_ba (h_ltp c'') = sent_to_node (nodes_message 1 a_page [7] p) (ltp_ba (h_ltp c')).
Proof.
  destruct (ltp_request_repair_misdirected no_other 1 (λ _, 0) zeros zeros zeros 96 10 (λ _, None) 1 [112; 47] [97] 7 5 0 2 2 some_request eight some_http) as
    (packets & c' & Hrun & Hall); [exact some_can_request|lia|done|apply Nat.leb_le; reflexivity|lia|lia|done|done|lia|lia|].
  assert (Z.of_nat (length packets) = 2) as Hn by (vm_compute in Hrun; by injection Hrun).
  destruct Hall as (c'' & again & Hc & _ & Hl & Hba & _); [lia|]. destruct again as [|p [|]]; [cbn in Hl; lia| |cbn in Hl; lia].
  exists (Z.of_nat (length packets)), c', c'', p. split; [exact Hrun|]. split; [exact Hc|exact Hba].
Defined.

Lemma ltp_second_session_fails_witness : ∃ n c', a_request 5 some_http = Ok (n, c') ∧ a_request 6 c' = Fault EndDeref.
Proof.
  destruct (request_run no_other 1 (λ _, 0) zeros zeros zeros 96 10 [112; 47] [97] 5 0 some_request eight some_http) as (c' & Hrun & Hl & _);
    [exact some_can_request|lia|done|apply Nat.leb_le; reflexivity|].
  eexists _, c'. split; [exact Hrun|]. assert (cIds c' = cIds some_http) as Hids by (vm_compute in Hrun; by injection Hrun as <-).
  apply (ltp_second_session_fails no_other 1 (λ _, 0) zeros zeros zeros 96 10 [112; 47] [97] 5 6); [|rewrite Hl; vm_compute; reflexivity..|lia|done|apply Nat.leb_le; reflexivity].
  rewrite Hids. exact (can_forward _ _ _ _ _ some_can_request).
Defined.

(** A request that is complete takes the fragments of other clients with it:
    when the only session of a node is handed to the server, the fragments that
    other nodes have sent for the same resource are erased, whatever their
    state is. *)
Theorem ltp_other_requests_erased (other_int : bytes → Z) (rcid : IcnId) (nid nid' sk : Z) (cs : list bytes) (others : gmap Z (gmap Z stored)) (s : Ltp) :
  0 ≤ nid < 10 ^ 8 → len (concat cs) < 65536 → nid' ≠ nid →
  at3 (icn_hashed rcid) 0 nid (icnPacketBuffer s) = Some {[ sk := table cs (all_numbers cs) ]} →
  at3 (icn_hashed rcid) 0 nid' (icnPacketBuffer s) = Some others →
  ∃ s', retrievePacket other_int rcid (nid_str nid) sk s = Ok (Some (concat cs), s') ∧ at3 (icn_hashed rcid) 0 nid' (icnPacketBuffer s') = None.
Proof.
  intros Hnid Hlen Hne Hk Ho. eexists. split.
  - apply (retrievePacket_run other_int rcid nid sk cs s Hnid Hlen). unfold arrived, at4. rewrite Hk. cbn [mbind option_bind]. apply lookup_singleton_eq.
  - cbn [icnPacketBuffer on_received]. unfold at3, at2 in Hk, Ho. destruct (icnPacketBuffer s !! icn_hashed rcid) as [rm|] eqn:E1; [|done]. cbn [mbind option_bind] in Hk, Ho.
    destruct (rm !! 0) as [pm|] eqn:E2; [|done]. cbn [mbind option_bind] in Hk, Ho. unfold erase_session. rewrite E1. cbn [default from_option id]. rewrite E2.
    cbn [default from_option id]. rewrite Hk. cbn [default from_option id]. rewrite delete_singleton_eq, decide_True by done.
    rewrite decide_False by (intros E; assert (delete nid pm !! nid' = None) as Hx by (by rewrite E); by rewrite lookup_delete_ne, Ho in Hx).
    unfold at3, at2, pruned. destruct (decide (delete 0 rm = ∅)); [by rewrite lookup_delete_eq|]. rewrite lookup_insert_eq. cbn [mbind option_bind]. by rewrite lookup_delete_eq.
Qed.

Definition two_clients : Ltp :=
  on_received (λ _, {[ 9 := {[ 0 := {[ 7 := {[ 5 := table [some_request] (all_numbers [some_request]) ]}; 8 := {[ 6 := {[ 2 := Live [1] ]} ]} ]} ]} ]}) some_ltp.

Lemma ltp_other_requests_erased_witness : ∃ s', retrievePacket no_other (mkIcnId 0 9 [] false [] []) (nid_str 7) 5 two_clients = Ok (Some some_request, s') ∧
  at3 9 0 8 (icnPacketBuffer s') = None.
Proof.
  apply (ltp_other_requests_erased no_other (mkIcnId 0 9 [] false [] []) 7 8 5 [some_request] {[ 6 := {[ 2 := Live [1] ]} ]} two_clients); [lia|done|lia|vm_compute; reflexivity..].
Defined.
