(* ===== verification/NapHttpProps.v ===== *)
(** * Properties of HTTP over ICN: the buffer of requests and the groups of nodes *)
From stdpp Require Import base list gmap sets.
From Stdlib Require Import ZArith Lia Bool.
From S2P Require Import Prelude Enums Containers UserLib UserProps Blocks NapTypes NapUTPProps NapLtp NapHttp NapLtpPackets NapLtpData NapLtpWire NapLtpRequestProps.

Local Open Scope Z_scope.

(** ** The cleaner *)

Section cleaner.
Context (clock : nat → Z) (seconds : Z → Z) (interval : Z).

Definition young_request (now : Z) (e : Z * http_request) : Prop := request_old seconds interval now e.2 = false.
#[export] Instance young_request_decision now e : Decision (young_request now e).
Proof. unfold young_request. apply _. Defined.

Lemma clean_requests_filter now : ∀ fuel (m : gmap Z http_request), (size m ≤ fuel)%nat →
  clean_requests seconds interval fuel now m = Some (filter (young_request now) m).
Proof.
  assert (∀ m : gmap Z http_request, List.find (λ e, request_old seconds interval now e.2) (in_order_of m) = None → filter (young_request now) m = m) as Hid.
  { intros m E. apply map_filter_id. intros k r Hk. unfold young_request. apply (find_none _ _ E (k, r)). by apply list_elem_of_In, elem_of_in_order_of. }
  induction fuel as [|fuel IH]; intros m Hs; cbn [clean_requests]; destruct (List.find _ _) as [[k r]|] eqn:E; try (by rewrite Hid).
  all: apply find_some in E as [Hk%list_elem_of_In%elem_of_in_order_of Ho].
  - assert (m = ∅) as -> by (apply map_size_empty_inv; lia). by rewrite lookup_empty in Hk.
  - rewrite IH by (rewrite map_size_delete_Some; [lia|by exists r]). f_equal. apply map_filter_delete_not. intros x Hx. rewrite Hk in Hx. injection Hx as <-.
    unfold young_request. cbn in Ho |- *. by rewrite Ho.
Qed.

(** A host of which some requests are not too old *)
Lemma clean_host_run now cid s : filter (young_request now) (default ∅ (packetBufferRequests s !! cid)) ≠ ∅ →
  clean_host seconds interval now cid s = Ok (tt, on_waiting (insert cid (filter (young_request now) (default ∅ (packetBufferRequests s !! cid)))) s).
Proof.
  intros Hne. unfold clean_host, hgets. unfold mbind, M_bind, get, mret, M_ret. rewrite clean_requests_filter by done. by rewrite decide_False.
Qed.

Lemma clean_host_dangles now cid s : filter (young_request now) (default ∅ (packetBufferRequests s !! cid)) = ∅ →
  clean_host seconds interval now cid s = Fault Dangling.
Proof.
  intros He. unfold clean_host, hgets. unfold mbind, M_bind, get, mret, M_ret. rewrite clean_requests_filter by done. by rewrite decide_True.
Qed.

Lemma clean_hosts_dangle now hosts : ∀ s, NoDup hosts → (∃ cid, cid ∈ hosts ∧ filter (young_request now) (default ∅ (packetBufferRequests s !! cid)) = ∅) →
  for_each hosts (clean_host seconds interval now) s = Fault Dangling.
Proof.
  induction hosts as [|c hosts IH]; intros s Hnd (cid & Hin & He); [by apply elem_of_nil in Hin|]. apply NoDup_cons in Hnd as [Hc Hnd]. cbn [for_each].
  destruct (decide (filter (young_request now) (default ∅ (packetBufferRequests s !! c)) = ∅)) as [E|E].
  - unfold mbind, M_bind. by rewrite clean_host_dangles.
  - rewrite (run_bind _ _ _ _ _ (clean_host_run now c s E)). apply elem_of_cons in Hin as [->|Hin]; [done|]. apply IH; [done|]. exists cid. split; [done|].
    cbn [packetBufferRequests on_waiting]. by rewrite lookup_insert_ne by (by intros ->).
Qed.

Lemma clean_hosts_filter now hosts : ∀ s, NoDup hosts → (∀ cid, cid ∈ hosts → filter (young_request now) (default ∅ (packetBufferRequests s !! cid)) ≠ ∅) → ∃ s',
  for_each hosts (clean_host seconds interval now) s = Ok (tt, s') ∧
  ∀ cid, packetBufferRequests s' !! cid = (if decide (cid ∈ hosts) then Some (filter (young_request now) (default ∅ (packetBufferRequests s !! cid))) else packetBufferRequests s !! cid).
Proof.
  induction hosts as [|c hosts IH]; intros s Hnd Hall; [by exists s|]. apply NoDup_cons in Hnd as [Hc Hnd]. cbn [for_each].
  rewrite (run_bind _ _ _ _ _ (clean_host_run now c s (Hall c ltac:(left)))). set (s1 := on_waiting _ s).
  assert (∀ cid, cid ≠ c → packetBufferRequests s1 !! cid = packetBufferRequests s !! cid) as Hs1 by (intros cid Hcid; cbn; by rewrite lookup_insert_ne).
  destruct (IH s1 Hnd) as (s' & Hrun & Hs'). { intros cid Hcid. rewrite Hs1 by (by intros ->). apply Hall. by right. }
  exists s'. split; [done|]. intros cid. rewrite Hs'. destruct (decide (cid = c)) as [->|Hne].
  - rewrite decide_False, decide_True by (done || left). cbn. by rewrite lookup_insert_eq.
  - rewrite Hs1 by done. destruct (decide (cid ∈ hosts)); [by rewrite decide_True by (by right)|by rewrite decide_False by (by intros [?|?]%elem_of_cons)].
Qed.

(** A round of the cleaner of the requests that wait for their host either
    keeps exactly the requests that are not too old, of every host, or, as soon
    as all requests of one host are too old, advances an iterator whose entry
    it has erased. *)
Theorem http_cleaner_rounds (s : NapHttp) : let now := clock (h_ticks s) in
  let gone cid := filter (young_request now) (default ∅ (packetBufferRequests s !! cid)) = ∅ in
  ((∃ cid, is_Some (packetBufferRequests s !! cid) ∧ gone cid) → http_cleaner_round clock seconds interval s = Fault Dangling) ∧
  ((∀ cid, is_Some (packetBufferRequests s !! cid) → ¬ gone cid) → ∃ s', http_cleaner_round clock seconds interval s = Ok (tt, s') ∧
    packetBufferRequests s' = (λ m : gmap Z http_request, filter (young_request now) m) <$> packetBufferRequests s).
Proof.
  intros now gone. unfold http_cleaner_round. rewrite (run_bind _ _ s now (on_h_ticks Datatypes.S s)) by done. set (s1 := on_h_ticks _ s).
  rewrite (run_bind _ _ s1 (in_order_of (packetBufferRequests s)).*1 s1) by done.
  assert (NoDup (in_order_of (packetBufferRequests s)).*1) as Hnd by (rewrite in_order_keys; apply NoDup_key_order).
  pose proof (elem_of_in_order_keys (packetBufferRequests s)) as Hin. split.
  - intros (cid & Hsome & Hgone). apply clean_hosts_dangle; [done|]. exists cid. split; [by apply Hin|exact Hgone].
  - intros Hall. destruct (clean_hosts_filter now (in_order_of (packetBufferRequests s)).*1 s1 Hnd) as (s' & Hrun & Hs').
    { intros cid Hcid%Hin. by apply Hall. }
    exists s'. split; [done|]. apply map_eq. intros cid. rewrite Hs', lookup_fmap. cbn [packetBufferRequests on_h_ticks s1].
    destruct (packetBufferRequests s !! cid) as [m|] eqn:E.
    + rewrite decide_True; [done|]. by apply Hin; rewrite E.
    + rewrite decide_False; [done|]. intros Hx%Hin. rewrite E in Hx. by destruct Hx.
Qed.
End cleaner.

(** ** Groups of nodes *)

Lemma elem_of_waiting (potential : gmap Z bool) n :
  n ∈ omap (λ e, if e.2 : bool then Some e.1 else None) (in_order_of potential) ↔ potential !! n = Some true.
Proof.
  rewrite list_elem_of_omap. split.
  - intros ([k b] & Hk%elem_of_in_order_of & E). destruct b; [|done]. by injection E as ->.
  - intros Hn. exists (n, true). split; [by apply elem_of_in_order_of|done].
Qed.

Lemma elem_of_ready nids potential n : n ∈ (ready_nodes nids potential).1 ↔ potential !! n = Some true ∧ nids !! n = Some true.
Proof.
  unfold ready_nodes. cbn [fst]. rewrite list_elem_of_In, filter_In, <-list_elem_of_In, elem_of_waiting. destruct (nids !! n) as [[]|]; cbn; naive_solver.
Qed.

Lemma ready_wait nids potential : (ready_nodes nids potential).2 = true ↔ ∃ n, potential !! n = Some true ∧ nids !! n ≠ Some true.
Proof.
  unfold ready_nodes. cbn [snd]. rewrite existsb_exists. split.
  - intros (n & Hn%list_elem_of_In%elem_of_waiting & Hb). exists n. split; [done|]. intros E. by rewrite E in Hb.
  - intros (n & Hn & Hne). exists n. split; [by apply list_elem_of_In, elem_of_waiting|]. destruct (nids !! n) as [[]|]; done.
Qed.

Lemma ready_nodup nids potential : NoDup (ready_nodes nids potential).1.
Proof.
  unfold ready_nodes. cbn [fst]. apply NoDup_ListNoDup, List.NoDup_filter, NoDup_ListNoDup. pose proof (NoDup_key_order (dom potential : gset Z)) as Hnd. rewrite <-in_order_keys in Hnd.
  revert Hnd. generalize (in_order_of potential). intros l. induction l as [|[k b] l IH]; intros Hnd; [constructor|]. cbn [fmap list_fmap fst] in Hnd.
  apply NoDup_cons in Hnd as [Hk Hnd]. destruct b; cbn [omap list_omap snd fst]; [|by apply IH]. apply NoDup_cons. split; [|by apply IH].
  intros ([k' b] & Hk' & E)%list_elem_of_omap. destruct b; [|done]. injection E as <-. apply Hk, list_elem_of_fmap. by exists (k', true).
Qed.

Lemma lookup_delete_list (l : list Z) : ∀ (m : gmap Z bool) n, foldl (λ m n, delete n m) m l !! n = if decide (n ∈ l) then None else m !! n.
Proof.
  induction l as [|k l IH]; intros m n; cbn [foldl]; [done|]. rewrite IH. destruct (decide (n = k)) as [->|Hne].
  - rewrite lookup_delete_eq, (decide_True (P := k ∈ k :: l)) by left. by destruct (decide (k ∈ l)).
  - rewrite lookup_delete_ne by done. destruct (decide (n ∈ l)); [by rewrite decide_True by (by right)|by rewrite decide_False by (by intros [?|?]%elem_of_cons)].
Qed.

(** C39. The group that gets a response, formed at its first packet: when the
    session has no group yet, it becomes exactly the nodes that have ended their
    window of requests for the resource (whether or not all fragments have
    arrived: the flag is set before they are looked at) and that can be reached,
    each once; they are taken from the nodes that wait for the resource and all
    others stay; the response is told to wait for more as long as a node that
    has ended its window cannot be reached.  When no node is ready, nothing
    changes. *)
Theorem cmc_group_formed (rcid : IcnId) (sk : Z) (potential : gmap Z bool) (s : NapHttp) : let h := icn_hashed rcid in
  default [] (at3 h 0 sk (cmcGroups (h_ltp s))) = [] → at2 h 0 (potentialCmcGroups (h_ltp s)) = Some potential →
  ∃ wait nodes s', http_getCmcGroup rcid sk true s = Ok ((wait, nodes), s') ∧ NoDup nodes ∧
    (∀ n, n ∈ nodes ↔ potential !! n = Some true ∧ knownNIds (h_ltp s) !! n = Some true) ∧
    ((∃ n, potential !! n = Some true ∧ knownNIds (h_ltp s) !! n ≠ Some true) → wait = true) ∧
    (nodes = [] → s' = s ∧ wait = true) ∧
    (nodes ≠ [] → at3 h 0 sk (cmcGroups (h_ltp s')) = Some nodes ∧
      ∀ n, default ∅ (at2 h 0 (potentialCmcGroups (h_ltp s'))) !! n = if decide (n ∈ nodes) then None else potential !! n).
Proof.
  intros h Hg Hp. unfold http_getCmcGroup. fold h. set (nids := knownNIds (h_ltp s)).
  rewrite (run_bind _ _ s (at3 h 0 sk (cmcGroups (h_ltp s))) s) by (by destruct s).
  assert (∀ A (a : A) (f : Z → list Z → A), match at3 h 0 sk (cmcGroups (h_ltp s)) with Some (n :: l) => f n l | _ => a end = a) as Hno.
  { intros A a f. destruct (at3 h 0 sk (cmcGroups (h_ltp s))) as [[|]|]; [done|done|done]. }
  rewrite Hno. cbn [negb]. rewrite (run_bind _ _ s (Some potential) s) by (unfold with_ltp, gets, get, mbind, M_bind; cbn; fold h; rewrite Hp; by destruct s).
  rewrite (run_bind _ _ s nids s) by (by destruct s).
  pose proof (elem_of_ready nids potential) as Hel. pose proof (ready_nodup nids potential) as Hnd. pose proof (proj2 (ready_wait nids potential)) as Hw.
  destruct (ready_nodes nids potential) as [nodes wait]. cbn [fst snd] in *. destruct nodes as [|n nodes].
  { exists true, [], s. by split_and!. }
  eexists wait, (n :: nodes), _. split; [reflexivity|]. split_and!; [done|done|done|done|]. intros _. split.
  - cbn [h_ltp on_ltp cmcGroups on_groups on_potential]. fold h. destruct (at3 h 0 sk (cmcGroups (h_ltp s))) as [[|]|]; [|done|]; unfold at3; rewrite at2_inside; unfold inside;
      rewrite lookup_insert_eq; cbn [mbind option_bind]; apply lookup_insert_eq.
  - intros k. cbn [h_ltp on_ltp potentialCmcGroups on_groups on_potential]. fold h. rewrite <-lookup_delete_list. f_equal.
    change (foldl (λ m n, delete n m) (delete n potential) nodes) with (foldl (λ m n, delete n m) potential (n :: nodes)). set (left := foldl _ potential (n :: nodes)).
    unfold at2, pruned. destruct (decide (left = ∅)) as [E|E].
    + rewrite E. destruct (decide _); [by rewrite lookup_delete_eq|]. rewrite lookup_insert_eq. cbn [mbind option_bind]. by rewrite lookup_delete_eq.
    + rewrite decide_False by apply insert_non_empty. rewrite lookup_insert_eq. cbn [mbind option_bind]. by rewrite lookup_insert_eq.
Qed.

(** Three nodes have asked for a resource; the second cannot be reached, the
    request of the third is not complete. *)
Definition three_nodes : NapHttp :=
  on_ltp (on_potential (λ _, {[ 9 := {[ 0 := {[ 7 := true; 8 := true; 10 := false ]} ]} ]})) some_http.

Lemma cmc_group_formed_witness : ∃ s', http_getCmcGroup (mkIcnId 0 9 [] false [] []) 5 true three_nodes = Ok ((true, [7]), s').
Proof.
  destruct (cmc_group_formed (mkIcnId 0 9 [] false [] []) 5 {[ 7 := true; 8 := true; 10 := false ]} three_nodes) as (wait & nodes & s' & Hrun & _);
    [vm_compute; reflexivity..|]. assert (wait = true ∧ nodes = [7]) as [-> ->] by (vm_compute in Hrun; injection Hrun; intros; split; congruence).
  exists s'. exact Hrun.
Defined.
