(* ===== verification/NapLtpResponse.v ===== *)
(** * Responses over the lightweight transport

    The fragments that a client misses, and one round of the repair: the end of
    the window, the answer of the client, the range that is published again. *)
From stdpp Require Import base list gmap sets sorting.
From Stdlib Require Import ZArith Lia Bool.
From S2P Require Import Prelude Enums Containers UserLib UserProps Blocks NapTypes NapUTP NapUTPProps NapLtp NapHttp NapLtpPackets NapLtpData NapLtpWire NapLtpRequest.

Local Open Scope Z_scope.

(** ** What the range covers *)

(** Below the last number that was seen, all that is missing is in the range,
    or the range is only the number 1. *)
Definition cover_state (seen : list Z) (previous : Z) (range : Z * Z) : Prop :=
  range.1 ≠ 0 → ∀ k, 1 ≤ k < previous → k ∉ seen → range.1 ≤ k ∧ (k ≤ range.2 ∨ range = (1, 1) ∧ 1 ∉ seen).

Lemma missing_from_covers l : ∀ seen previous range, gap_state seen previous range → cover_state seen previous range →
  StronglySorted Z.lt l → Forall (λ k, previous < k) l →
  let '(highest, range') := missing_from previous range l in cover_state (seen ++ l) highest range'.
Proof.
  induction l as [|k l IH]; intros seen previous range Hst Hco Hso Hf; [cbn; by rewrite app_nil_r|]. cbn [missing_from].
  apply StronglySorted_inv in Hso as [Hso Hk]. apply Forall_cons in Hf as [Hpk Hf]. rewrite cons_middle, app_assoc.
  pose proof (missing_from_spec [k] seen previous range Hst ltac:(by repeat constructor) ltac:(by constructor)) as Hst1. cbn [missing_from] in Hst1.
  set (range1 := if _ && _ then _ else _) in *. destruct Hst1 as [Hst1 _]. specialize (IH (seen ++ [k]) k range1 Hst1). apply IH; [|done|exact Hk]. clear IH.
  destruct Hst as (H0 & Hlast & Hseen & Hrange). intros Hr j Hj Hnj. assert (j ∉ seen) as Hjs by (intros ?; apply Hnj, elem_of_app; by left).
  assert (1 ∉ seen → 1 < k → 1 ∉ seen ++ [k]) as Hone by (intros ?? [?|?%list_elem_of_singleton]%elem_of_app; [done|lia]).
  unfold range1 in *. destruct (Z.eqb_spec previous 0) as [->|Hp]; destruct (Z.eqb_spec k 1) as [->|Hk1]; cbn [andb negb] in *; [lia| |lia|].
  - cbn. split; [lia|]. right. split; [done|]. apply Hone; [|lia]. intros H1. specialize (Hseen 1 H1). lia.
  - assert (previous ∈ seen) as Hps by (by destruct Hlast).
    destruct (Z.ltb_spec (previous + 1) k).
    + cbn [fst snd] in *. destruct (Z.eqb_spec range.1 0) as [Hz|Hz].
      * destruct Hrange as [[_ Hall]|(? & _)]; [|lia]. destruct (decide (j ≤ previous)); [by specialize (Hall j ltac:(lia))|]. lia.
      * destruct (decide (j < previous)) as [Hlt|Hge]; [destruct (Hco Hz j ltac:(lia) Hjs); lia|].
        destruct Hrange as [[? _]|(? & ? & ? & _)]; [done|]. lia.
    + destruct (decide (j = previous)) as [->|]; [done|]. destruct (Hco Hr j ltac:(lia) Hjs) as [Hle [Hle'|[-> H1]]]; [lia|].
      split; [done|]. right. split; [done|]. apply Hone; [done|lia].
Qed.

Lemma missing_covers (arrived : gmap Z stored) n : 1 ≤ n → (∀ k, is_Some (arrived !! k) → 1 ≤ k ≤ n) → arrived ≠ ∅ →
  match missing arrived n with
  | None => True
  | Some (first, last) =>
      (∀ k, 1 ≤ k ≤ n → arrived !! k = None → first ≤ k ≤ last) ∨
      first = 1 ∧ last = 1 ∧ is_Some (arrived !! n) ∨ first = n ∧ last = n ∧ is_Some (arrived !! 1)
  end.
Proof.
  intros Hn Hr Hne. unfold missing. assert (gap_state [] 0 (0, 0)) as Hg0.
  { split; [lia|]. split; [by left|]. split; [by intros k ?%elem_of_nil|]. left. split; [done|lia]. }
  assert (Forall (λ k, 0 < k) (in_order_of arrived).*1) as Hpos by (apply Forall_forall; intros k Hk%elem_of_in_order_keys; apply Hr in Hk; lia).
  pose proof (missing_from_spec (in_order_of arrived).*1 [] 0 (0, 0) Hg0 (in_order_strict arrived) Hpos) as Hg.
  pose proof (missing_from_covers (in_order_of arrived).*1 [] 0 (0, 0) Hg0 ltac:(by intros []) (in_order_strict arrived) Hpos) as Hc.
  destruct (missing_from 0 (0, 0) (in_order_of arrived).*1) as [highest range]. cbn [app] in *. destruct Hg as [(H0 & Hlast & Hseen & Hrange) _].
  assert (∀ k, k ∈ (in_order_of arrived).*1 ↔ is_Some (arrived !! k)) as Hin by apply elem_of_in_order_keys.
  assert (∀ k, arrived !! k = None → k ∉ (in_order_of arrived).*1) as Hno by (intros k Hk Hx%Hin; rewrite Hk in Hx; by destruct Hx).
  assert (1 ≤ highest) as Hh1.
  { apply map_choose in Hne as (k & x & Hx). specialize (Hseen k ltac:(by apply Hin; rewrite Hx)). lia. }
  assert (highest ∈ (in_order_of arrived).*1) as Hhin by (destruct Hlast; [lia|done]). pose proof (Hr highest (proj1 (Hin _) Hhin)) as Hhn.
  destruct (Z.ltb_spec highest n) as [Hlt|Hge]; cbn [fst].
  - destruct (Z.eqb_spec range.1 0) as [Hz|Hz].
    + rewrite (proj2 (Z.eqb_neq n 0)) by lia. right. right. split_and!; [done|done|]. destruct Hrange as [[_ Hall]|(? & _)]; [|lia]. apply Hin, Hall. lia.
    + rewrite (proj2 (Z.eqb_neq range.1 0)) by done. left. intros k Hk Hnone. destruct Hrange as [[? _]|(? & ? & ? & _)]; [done|].
      destruct (decide (k < highest)) as [Hkl|]; [|lia]. destruct (Hc Hz k ltac:(lia) (Hno k Hnone)). lia.
  - destruct (Z.eqb_spec range.1 0) as [Hz|Hz]; [done|]. destruct range as [f l]. cbn [fst snd] in *. assert (highest = n) as -> by lia.
    destruct (decide ((f, l) = (1, 1) ∧ 1 ∉ (in_order_of arrived).*1)) as [[[= -> ->] _]|Hd].
    + right. left. split_and!; [done|done|by apply Hin].
    + left. intros k Hk Hnone. pose proof (Hno k Hnone) as Hkn. assert (k ≠ n) as Hkne by (by intros ->).
      destruct (Hc Hz k ltac:(lia) Hkn) as [Hle [Hle'|Hx]]; [done|by destruct Hd].
Qed.

(** With the first and the last fragment, the range has all that is missing. *)
Lemma missing_covers_ends (arrived : gmap Z stored) n first last : 1 ≤ n → (∀ k, is_Some (arrived !! k) → 1 ≤ k ≤ n) →
  is_Some (arrived !! 1) → is_Some (arrived !! n) → missing arrived n = Some (first, last) →
  ∀ k, 1 ≤ k ≤ n → arrived !! k = None → first ≤ k ≤ last.
Proof.
  intros Hn Hr [x1 H1] [xn Hxn] Hm. assert (arrived ≠ ∅) as Hne by (intros ->; by rewrite lookup_empty in H1).
  pose proof (missing_covers arrived n Hn Hr Hne) as Hc. pose proof (missing_spec arrived n Hn Hr) as Hs. rewrite Hm in Hc, Hs.
  destruct Hs as (_ & _ & _ & k & Hk & Hnone). destruct Hc as [Hc|[(-> & -> & _)|(-> & -> & _)]]; [done| |].
  - assert (k = 1) as -> by lia. congruence.
  - assert (k = n) as -> by lia. congruence.
Qed.

(** ** The server *)

Lemma lookup_pruned_same {A : Type} k (x : gmap Z A) m : pruned k x m !! k = if decide (x = ∅) then None else Some x.
Proof. unfold pruned. destruct (decide (x = ∅)); [apply lookup_delete_eq|apply lookup_insert_eq]. Qed.

(** A session that is erased with the tables around it *)
Lemma pruned_session {A : Type} a b c (all : gmap Z (gmap Z (gmap Z A))) (m : gmap Z A) :
  at3 a b c (pruned a (pruned b (delete c m) (default ∅ (all !! a))) all) = None.
Proof.
  unfold at3, at2. rewrite lookup_pruned_same. case_decide; [done|]. cbn [mbind option_bind]. rewrite lookup_pruned_same. case_decide; [done|]. apply lookup_delete_eq.
Qed.

Lemma inside_flag {A : Type} h nid sk (x : A) m : at4 h 0 nid sk (inside h (inside 0 (inside nid (insert sk x))) m) = Some x.
Proof.
  unfold at4. rewrite at3_inside. cbn [mbind option_bind]. apply lookup_insert_eq.
Qed.

Section server.
Context (other_int : bytes → Z) (getpid : Z) (sendmsg_ret : list (Z * Netlink.addressed bytes) → Z) (junk rand : nat → Z).
Context (mitu ltpInitialCredit ltpRttListSize : Z).
Context (rcid : IcnId) (Hr : http_icn other_int rcid 2) (sk : Z) (Hsk : 0 ≤ sk < 65536) (nid : Z) (Hnid : 0 ≤ nid < 10 ^ 8).
Context (packets : gmap Z bytes) (n : Z) (Hn : 1 ≤ n < 65535) (Hp : ∀ j, 1 ≤ j ≤ n → is_Some (packets !! j)).

Notation rcid' := (on_wire other_int rcid).
Notation h := (icn_hashed rcid).

(** The packets of the response to the group of one node *)
Record serving (l : Ltp) : Prop := mkServing {
  sv_packets : at3 h 0 sk (ltpPacketBuffer l) = Some packets;
  sv_group : at3 h 0 sk (cmcGroups l) = Some [nid];
  sv_nacks : at2 h 0 (nackGroups l) = None;
}.

Definition flag (l : Ltp) : option bool := at4 h 0 nid sk (windowEndedResponses l).

(** The end of the window is published. *)
Definition window_end (l : Ltp) : Ltp :=
  on_ltp_ba (sent_to_node (nodes_message getpid rcid [nid] (we_packet junk sk n))) (on_responses (inside h (inside 0 (inside nid (insert sk false)))) l).

Lemma window_end_run l : publishWindowEnd_response getpid sendmsg_ret junk rcid [nid] sk n l = Ok (tt, window_end l).
Proof using Hr Hnid.
  unfold publishWindowEnd_response. rewrite (run_bind _ _ l tt (on_responses (inside h (inside 0 (inside nid (insert sk false)))) l)) by done. set (l1 := on_responses _ l).
  rewrite (run_bind _ _ l1 (we_packet junk sk n) l1) by (apply (control_bytes_run junk 16); by apply Nat.leb_le).
  rewrite (publish_nodes_run getpid sendmsg_ret rcid [nid] 2); [done|apply (hi_ok _ _ _ Hr)|by constructor|by apply Nat.ltb_lt].
Qed.

Lemma window_end_flag l : flag (window_end l) = Some false.
Proof. apply inside_flag. Qed.
Lemma window_end_serving l : serving l → serving (window_end l).
Proof. by intros [? ? ?]. Qed.

(** The publisher at the end of its window *)
Definition ending (a : Z) (p : Publisher) : Prop := p_rcid p = rcid ∧ p_nodes p = [nid] ∧ p_sk p = sk ∧ p_sn p = n ∧ p_phase p = Ending a.

Lemma timeout_run a p l : ending a p → a ≠ 1 → ∃ p',
  publisher_step getpid sendmsg_ret junk rand mitu ltpInitialCredit ltpRttListSize (-1) Timeout p l = Ok (p', window_end l) ∧ ending (a - 1) p'.
Proof using Hr Hnid.
  intros (E1 & E2 & E3 & E4 & E5) Ha. unfold publisher_step. rewrite E5. cbv match. rewrite E1, E2, E3, E4.
  rewrite (run_bind _ _ _ _ _ (window_end_run l)). rewrite (proj2 (Z.eqb_neq _ _)) by (intros E; apply Ha, Z.sub_move_0_r, E). eexists. split; [done|]. by split_and!.
Qed.

(** A message of the node *)
Lemma server_control type rest size l : 0 ≤ type < 4294967296 → ∃ l1, addNodeId nid l = Ok (tt, l1) ∧ (serving l → serving l1) ∧ flag l1 = flag l ∧ ltp_ba l1 = ltp_ba l ∧
  ltp_handle_request other_int getpid sendmsg_ret junk rand (-1) rcid' (nid_str nid) (control_bytes junk size type sk rest) l
  = handleControl_request getpid sendmsg_ret junk rand (-1) rcid' nid (control_bytes junk size type sk rest) l1.
Proof using Hsk Hnid.
  intros Ht. eexists. split; [done|]. set (l1 := on_nids _ l). split_and!; [by intros [? ? ?]|done|done|].
  destruct (control_fields junk size type sk rest l1 Ht Hsk) as (F0 & _).
  unfold ltp_handle_request. cbv zeta. rewrite nid_of_str by done. rewrite (run_bind _ _ l tt l1) by done. by rewrite (run_bind _ _ _ _ _ F0).
Qed.

(** The node misses a range: it is published again. *)
Lemma nack_served l a b : serving l → flag l = Some false → 1 ≤ a → a ≤ b → b ≤ n → ∃ l',
  ltp_handle_request other_int getpid sendmsg_ret junk rand (-1) rcid' (nid_str nid) (nack_packet junk sk a b) l = Ok ((TP_STATE_FRAGMENTS_OUTSTANDING, 0), l') ∧
  serving l' ∧ ltp_ba l' = sends_all ((λ j, nodes_message getpid rcid [nid] (default [] (packets !! j))) <$> range a b) (ltp_ba l).
Proof using All.
  intros Hs Hfl Ha Hab Hb. unfold nack_packet. destruct (server_control LTP_CONTROL_NACK (le16 a ++ le16 b) 20 l ltac:(done)) as (l1 & _ & Hs1 & Hf1 & Hb1 & ->).
  specialize (Hs1 Hs). rewrite Hfl in Hf1. rewrite <-Hb1. clear Hs Hfl Hb1 l. destruct Hs1 as [Hpk Hgr Hna]. unfold flag in Hf1.
  destruct (control_fields junk 20 LTP_CONTROL_NACK sk (le16 a ++ le16 b) l1 ltac:(done) Hsk) as (_ & F4 & F8 & F12). unfold handleControl_request.
  rewrite (run_bind _ _ _ _ _ F4), Z.eqb_refl. cbv match. rewrite (run_bind _ _ _ _ _ F8), (run_bind _ _ _ _ _ F12).
  rewrite (run_bind _ _ l1 a l1) by (apply control_number; lia). rewrite (run_bind _ _ l1 b l1).
  2:{ replace (le16 a ++ le16 b) with (le16 a ++ le16 b ++ []) by (by rewrite app_nil_r). apply control_second. lia. }
  unfold handle_nack. set (g := mkNack [nid] (Some a) (Some b)). set (l2 := on_nacks (inside h (inside 0 (insert sk g))) l1).
  rewrite (run_bind _ _ l1 tt l2).
  2:{ unfold addNackNodeId. rewrite (run_bind _ _ l1 None l1) by (unfold gets, get, mbind, M_bind; by rewrite (wire_hash other_int rcid 2 Hr), Hna).
      unfold modify. by rewrite (wire_hash other_int rcid 2 Hr). }
  rewrite (run_bind _ _ l2 (Some [nid]) l2) by (unfold getCmcGroup, gets, get, mbind, M_bind; by rewrite (wire_hash other_int rcid 2 Hr), <-Hgr).
  destruct (at2 h 0 (windowEndedResponses l1)) as [weds|] eqn:Ew; [|unfold at4, at3 in Hf1; by rewrite Ew in Hf1].
  rewrite (run_bind _ _ l2 (Some weds) l2) by (unfold gets, get, mbind, M_bind; by rewrite (wire_hash other_int rcid 2 Hr), <-Ew).
  rewrite (run_bind _ _ l2 0 l2).
  2:{ unfold confirmed. cbn [fold_each]. unfold at4, at3 in Hf1. rewrite Ew in Hf1. cbn [mbind option_bind] in Hf1.
      assert (default false (weds !! nid ≫= lookup sk) = false) as E by (by rewrite Hf1). unfold mbind at 1, M_bind at 1, mret at 1, M_ret at 1. rewrite E. done. }
  rewrite (run_bind _ _ l2 g l2).
  2:{ unfold nackGroup, gets, get, mbind, M_bind, mret, M_ret. rewrite (wire_hash other_int rcid 2 Hr). do 2 f_equal. unfold at3. cbn [l2 nackGroups on_nacks]. rewrite at2_inside.
      unfold inside. rewrite lookup_insert_eq. cbn [mbind option_bind]. by rewrite lookup_insert_eq. }
  change (Z.of_nat (length [nid]) >? 0 + Z.of_nat (length (ng_nodes g))) with false. cbv match.
  set (l3 := on_ltp_ba (sends_all ((λ j, nodes_message getpid rcid [nid] (default [] (packets !! j))) <$> range a b)) l2).
  rewrite (run_bind _ _ l2 tt l3).
  2:{ unfold publishDataRange_response. rewrite (run_bind _ _ l2 (Some packets) l2) by (unfold gets, get, mbind, M_bind; by rewrite (wire_hash other_int rcid 2 Hr), <-Hpk).
      cbn [ng_start ng_end ng_nodes g]. assert (∀ j, a ≤ j ≤ b → is_Some (packets !! j)) as Hab' by (intros j Hj; apply Hp; lia).
      rewrite (publish_range_run getpid sendmsg_ret rand rcid' 2); [reflexivity|by apply wire_ok|by constructor|by apply Nat.ltb_lt|lia|lia|by apply range_size|done]. }
  eexists. split; [unfold deleteNackGroup, modify, mbind, M_bind; reflexivity|]. split; [|done]. constructor; [done|done|].
  cbn [nackGroups on_nacks on_ltp_ba l3]. rewrite (wire_hash other_int rcid 2 Hr).
  assert (at2 h 0 (nackGroups l2) = Some (<[sk := g]> ∅)) as E2.
  { cbn [l2 nackGroups on_nacks]. rewrite at2_inside. unfold inside. rewrite lookup_insert_eq. do 2 f_equal. unfold at2 in Hna.
    destruct (nackGroups l1 !! h) as [x|]; cbn [default from_option mbind option_bind id] in *; [by rewrite Hna|by rewrite lookup_empty]. }
  rewrite E2. rewrite decide_True by (rewrite lookup_insert_eq; done). unfold at2. rewrite lookup_pruned_same.
  rewrite delete_insert_eq, delete_empty. case_decide as Hd; [done|]. cbn [mbind option_bind]. rewrite lookup_pruned_same, decide_True by done. done.
Qed.

(** The node has everything: its flag is set and the packets are deleted. *)
Lemma wed_served l b : serving l → flag l = Some b → ∃ l',
  ltp_handle_request other_int getpid sendmsg_ret junk rand (-1) rcid' (nid_str nid) (wed_packet junk sk) l = Ok ((TP_STATE_FRAGMENTS_OUTSTANDING, 0), l') ∧
  flag l' = Some true ∧ ltp_ba l' = ltp_ba l ∧ at3 h 0 sk (ltpPacketBuffer l') = None.
Proof using Hr Hsk Hnid.
  intros Hs Hfl. unfold wed_packet. destruct (server_control LTP_CONTROL_WINDOW_ENDED [] 16 l ltac:(done)) as (l1 & _ & Hs1 & Hf1 & Hb1 & ->).
  specialize (Hs1 Hs). rewrite Hfl in Hf1. rewrite <-Hb1. clear Hs Hfl Hb1 l. destruct Hs1 as [Hpk Hgr Hna]. unfold flag in Hf1.
  destruct (control_fields junk 16 LTP_CONTROL_WINDOW_ENDED sk [] l1 ltac:(done) Hsk) as (_ & F4 & F8 & F12). unfold handleControl_request.
  rewrite (run_bind _ _ _ _ _ F4). change (LTP_CONTROL_WINDOW_ENDED =? LTP_CONTROL_NACK) with false. change (LTP_CONTROL_WINDOW_ENDED =? LTP_CONTROL_SESSION_ENDED) with false.
  change (LTP_CONTROL_WINDOW_ENDED =? LTP_CONTROL_WINDOW_END) with false. rewrite Z.eqb_refl. cbv match. rewrite (run_bind _ _ _ _ _ F12).
  unfold handle_window_ended. rewrite (run_bind _ _ l1 (Some b) l1) by (unfold gets, get, mbind, M_bind; by rewrite (wire_hash other_int rcid 2 Hr), Hf1).
  set (l2 := on_responses (inside h (inside 0 (inside nid (insert sk true)))) l1).
  rewrite (run_bind _ _ l1 tt l2) by (unfold modify; by rewrite (wire_hash other_int rcid 2 Hr)).
  assert (flag l2 = Some true) as Hf2 by apply inside_flag.
  rewrite (run_bind _ _ l2 (default ∅ (at2 h 0 (windowEndedResponses l2))) l2) by (unfold gets, get, mbind, M_bind; by rewrite (wire_hash other_int rcid 2 Hr)).
  rewrite (run_bind _ _ l2 (Some [nid]) l2) by (unfold getCmcGroup, gets, get, mbind, M_bind; by rewrite (wire_hash other_int rcid 2 Hr), <-Hgr).
  assert (default ∅ (at2 h 0 (windowEndedResponses l2)) !! nid ≫= lookup sk = Some true) as Hw.
  { unfold flag, at4, at3 in Hf2. destruct (at2 h 0 (windowEndedResponses l2)) as [x|]; [done|done]. }
  cbn [forallb]. rewrite Hw. cbn [default from_option id andb]. eexists. split; [unfold deleteBufferedLtpPacket, modify, mbind, M_bind; reflexivity|].
  split_and!; [done|done|]. cbn [ltpPacketBuffer on_sent]. rewrite (wire_hash other_int rcid 2 Hr). unfold at3 in Hpk.
  change (ltpPacketBuffer l2) with (ltpPacketBuffer l1). destruct (at2 h 0 (ltpPacketBuffer l1)) as [m|] eqn:E; [|done]. cbn [mbind option_bind] in Hpk.
  rewrite decide_True by (by rewrite Hpk). apply (pruned_session (A := gmap Z bytes)).
Qed.

(** The publisher looks at the flag and leaves. *)
Lemma poll_done a p l waited : ending a p → flag l = Some true → ∃ p' l',
  publisher_step getpid sendmsg_ret junk rand mitu ltpInitialCredit ltpRttListSize (-1) (Poll waited) p l = Ok (p', l') ∧ p_phase p' = Done.
Proof.
  intros (E1 & E2 & E3 & E4 & E5) Hfl. eexists _, _. unfold publisher_step. rewrite E5. cbv match. rewrite E1, E2, E3.
  unfold flag, at4, at3, at2 in Hfl. destruct (windowEndedResponses l !! h) as [m|] eqn:Em; [|done]. cbn [mbind option_bind] in Hfl.
  destruct (m !! 0) as [weds|] eqn:E0; [|done]. cbn [mbind option_bind] in Hfl. split.
  - erewrite run_bind; [reflexivity|]. unfold response_poll. rewrite (run_bind _ _ l (Some m) l) by (unfold gets, get, mbind, M_bind; by rewrite Em).
    rewrite (run_bind _ _ l 1 l).
    2:{ unfold confirmed. cbn [fold_each]. rewrite E0. unfold mbind at 1, M_bind at 1, mret at 1, M_ret at 1. rewrite Hfl. done. }
    change (1 =? Z.of_nat (length [nid])) with true. cbv match. reflexivity.
  - done.
Qed.
End server.

(** ** The client *)

(** Every endpoint that waits for the response gets it. *)
Lemma write_all write_ret retries (data : bytes) fds s : data ≠ [] → (0 < retries)%nat → (∀ i, write_ret i = Some (len data)) → ∃ s',
  fold_each fds (λ fd gone, g ← write_to write_ret retries fd data; mret (if g : bool then gone ++ [fd] else gone)) [] s = Ok ([], s') ∧
  socket_out s' = socket_out s ++ ((λ fd, Written fd data) <$> fds) ∧ h_ltp s' = h_ltp s.
Proof.
  intros Hne Hret Hw. destruct retries as [|r]; [lia|]. revert s. induction fds as [|fd fds IH]; intros s.
  { exists s. by rewrite app_nil_r. }
  set (s1 := on_socket_out (λ l, l ++ [Written fd data]) (on_writes Datatypes.S s)).
  assert (write_to write_ret (Datatypes.S r) fd data s = Ok (false, s1)) as H1.
  { assert (0 < len data) by (destruct data; [done|unfold len; cbn; lia]). cbn [write_to]. rewrite (proj2 (Z.eqb_neq (len data) 0)) by lia.
    rewrite (run_bind _ _ s (Some (len data)) s1).
    - rewrite (proj2 (Z.eqb_neq (len data) (-1))), Z.ltb_irrefl by lia. done.
    - unfold socket_write. rewrite (run_bind _ _ s (h_writes s) s) by done. rewrite (run_bind _ _ s tt (on_writes Datatypes.S s)) by done.
      rewrite Hw, (proj2 (Z.ltb_ge _ _)) by lia. unfold modify, mbind, M_bind, mret, M_ret, s1. do 4 f_equal. unfold len. by rewrite Nat2Z.id, firstn_all. }
  destruct (IH s1) as (s' & Hs' & Hout & Hl). exists s'. cbn [fold_each]. split_and!.
  - erewrite run_bind; [exact Hs'|]. by rewrite (run_bind _ _ _ _ _ H1).
  - rewrite Hout. cbn. by rewrite <-app_assoc.
  - by rewrite Hl.
Qed.

Section client.
Context (other_int : bytes → Z) (getpid : Z) (sendmsg_ret : list (Z * Netlink.addressed bytes) → Z) (junk rand : nat → Z).
Context (mtu ltpInitialCredit : Z) (write_ret : nat → option Z) (retries : nat).
Context (cid rcid : IcnId) (Hc : icn_ok cid 2) (Hr : http_icn other_int rcid 2) (sk : Z) (Hsk : 0 ≤ sk < 65536) (nid : Z) (Hnid : 0 ≤ nid < 10 ^ 8).
Context (cs : list bytes) (behind : bytes) (Hcs : Forall (λ c, len c < 65536) cs) (Hn : 1 ≤ Z.of_nat (length cs) < 65535) (Hb : (7 ≤ length behind)%nat).
Context (fds : list Z) (Hw : ∀ i, write_ret i = Some (len (concat cs))) (Hret : (0 < retries)%nat) (Hdata : concat cs ≠ []) (Hlen : len (concat cs) < 65536).

Notation rcid' := (on_wire other_int rcid).
Notation h := (icn_hashed rcid).
Notation n := (Z.of_nat (length cs)).
Notation arrives := (from_server other_int getpid sendmsg_ret junk rand mtu ltpInitialCredit (-1) nid write_ret retries rcid).

(** The fragments in [D] have arrived, and nothing has been written. *)
Record expecting (D : gset Z) (s : NapHttp) : Prop := mkExpecting {
  ex_arrived : default ∅ (arrived rcid' nid sk (h_ltp s)) = table cs D;
  ex_numbers : ∀ j, j ∈ D → numbered cs j;
  ex_host : cIdReverseLookUp (h_ltp s) !! h = Some cid;
  ex_endpoints : at2 h 0 (ipEndpointSessions s) = Some fds;
}.

Lemma table_range D : (∀ j, j ∈ D → numbered cs j) → ∀ k, is_Some (table cs D !! k) → 1 ≤ k ≤ n.
Proof. intros HD k [x Hx]. rewrite lookup_table in Hx. destruct (decide (k ∈ D)) as [Hk|]; [|done]. by apply HD in Hk. Qed.

Lemma table_some D : D ≠ ∅ → table cs D ≠ ∅.
Proof. intros [k Hk]%set_choose_L E. assert (table cs D !! k = None) as Hx by (by rewrite E). by rewrite lookup_table, decide_True in Hx. Qed.

Lemma expecting_some D s : expecting D s → D ≠ ∅ → arrived rcid' nid sk (h_ltp s) = Some (table cs D).
Proof.
  intros [Ha _ _ _] Hs. apply table_some in Hs. destruct (arrived rcid' nid sk (h_ltp s)) as [t|]; cbn in Ha; [by subst|done].
Qed.

(** A fragment *)
Lemma fragment_expected D s j : expecting D s → numbered cs j → ∃ s',
  arrives (ltp_fragment junk sk j behind (part cs j)) s = Ok (tt, s') ∧ expecting ({[j]} ∪ D) s' ∧
  ltp_ba (h_ltp s') = ltp_ba (h_ltp s) ∧ socket_out s' = socket_out s.
Proof using All.
  intros [Ha Hnum Hho Hend] Hj. set (l := h_ltp s) in *.
  assert (Forall (λ c, padding (length c) ≤ length behind)%nat cs) as Hpad by (apply Forall_forall; intros c _; pose proof (padding_less (length c)); lia).
  pose proof (handle_data_run other_int junk rcid' nid sk Hsk cs behind Hcs ltac:(lia) Hpad j D l Hj Ha) as Hd.
  eexists. split; [|split].
  - erewrite (from_server_run _ _ _ _ _ _ _ _ _ _ _ rcid 2 _ TP_STATE_NO_ACTION_REQUIRED 0); [reflexivity|done|].
    unfold ltp_handle_response. fold l. rewrite (run_bind _ _ _ _ _ (fragment_type junk sk j behind (part cs j) l)), Z.eqb_refl. cbv match.
    unfold handleData_response. by rewrite (run_bind _ _ _ _ _ Hd).
  - constructor; [cbn [h_ltp on_ltp]; by rewrite arrived_with| |done|done]. intros i [->%elem_of_singleton|Hi]%elem_of_union; [done|by apply Hnum].
  - done.
Qed.

Lemma fragments_expected js D s : expecting D s → Forall (numbered cs) js → ∃ s',
  for_each ((λ j, ltp_fragment junk sk j behind (part cs j)) <$> js) arrives s = Ok (tt, s') ∧ expecting (list_to_set js ∪ D) s' ∧
  ltp_ba (h_ltp s') = ltp_ba (h_ltp s) ∧ socket_out s' = socket_out s.
Proof using All.
  revert D s. induction js as [|j js IH]; intros D s Hs Hjs.
  { exists s. split; [done|]. assert (list_to_set [] ∪ D = D) as -> by set_solver. by split_and!. }
  apply Forall_cons in Hjs as [Hj Hjs]. destruct (fragment_expected D s j Hs Hj) as (s1 & H1 & Hs1 & Hb1 & Ho1).
  destruct (IH _ s1 Hs1 Hjs) as (s' & H2 & Hs' & Hb2 & Ho2). exists s'. cbn [fmap list_fmap for_each]. split_and!; [by rewrite (run_bind _ _ _ _ _ H1)| |congruence|congruence].
  by assert (list_to_set (j :: js) ∪ D = list_to_set js ∪ ({[j]} ∪ D)) as -> by set_solver.
Qed.

(** The end of the window: the answer of the client *)
Lemma window_end_answered D s : expecting D s → D ≠ ∅ →
  ltp_handle_response getpid sendmsg_ret junk rand (-1) nid rcid' (we_packet junk sk n) (h_ltp s) =
    match missing (table cs D) n with
    | None => Ok ((TP_STATE_ALL_FRAGMENTS_RECEIVED, sk), on_ltp_ba (sent_to_node (isub_message getpid cid rcid (wed_packet junk sk))) (h_ltp s))
    | Some (a, b) => Ok ((TP_STATE_NO_ACTION_REQUIRED, 0), on_ltp_ba (sent_to_node (isub_message getpid cid rcid (nack_packet junk sk a b))) (h_ltp s))
    end.
Proof using All.
  intros Hex Hs. pose proof (expecting_some D s Hex Hs) as Ha. destruct Hex as [_ Hnum Hho _]. set (l := h_ltp s) in *. unfold we_packet. rewrite (control_read other_int getpid sendmsg_ret junk rand nid rcid sk Hsk) by done.
  destruct (control_fields junk 16 LTP_CONTROL_WINDOW_END sk (le16 n) l ltac:(done) Hsk) as (_ & F4 & F8 & F12). unfold handleControl_response.
  rewrite (run_bind _ _ _ _ _ F4). change (LTP_CONTROL_WINDOW_END =? LTP_CONTROL_NACK) with false. change (LTP_CONTROL_WINDOW_END =? LTP_CONTROL_SESSION_END) with false.
  rewrite Z.eqb_refl. cbv match. rewrite (run_bind _ _ _ _ _ F8), (run_bind _ _ _ _ _ F12).
  rewrite (run_bind _ _ l n l) by (rewrite <-(app_nil_r (le16 n)); apply control_number; lia).
  unfold arrived, at4, at3 in Ha. destruct (at2 (icn_hashed rcid') 0 (icnPacketBuffer l)) as [m|] eqn:Em; [|done]. cbn [mbind option_bind] in Ha.
  destruct (m !! nid) as [keys|] eqn:Ek; [|done]. cbn [mbind option_bind] in Ha.
  rewrite (run_bind _ _ l (Some m) l) by (unfold gets, get, mbind, M_bind; by rewrite Em). rewrite Ek, Ha. rewrite decide_False by (by apply table_some).
  rewrite (run_bind _ _ l tt l) by done.
  rewrite (run_bind _ _ l (Some cid) l) by (unfold reverse_cid, gets, get, mbind, M_bind; by rewrite (wire_hash other_int rcid 2 Hr), Hho).
  pose proof (publish_isub_run getpid sendmsg_ret cid rcid' 2 2) as Hpub.
  destruct (missing (table cs D) n) as [[a b]|].
  - unfold publishNack_isub. erewrite run_bind; [reflexivity|].
    rewrite (run_bind _ _ l (nack_packet junk sk a b) l) by (apply (control_bytes_run junk 20 _ _ [le16 a; le16 b]); by apply Nat.leb_le).
    rewrite Hpub by (done || by apply wire_ok). done.
  - unfold publishWindowEnded_isub. erewrite run_bind; [reflexivity|].
    rewrite (run_bind _ _ l (wed_packet junk sk) l) by (apply (control_bytes_run junk 16 _ _ []); by apply Nat.leb_le).
    rewrite Hpub by (done || by apply wire_ok). done.
Qed.

Lemma window_end_missing D s a b : expecting D s → D ≠ ∅ → missing (table cs D) n = Some (a, b) → ∃ s',
  arrives (we_packet junk sk n) s = Ok (tt, s') ∧ expecting D s' ∧ socket_out s' = socket_out s ∧
  ltp_ba (h_ltp s') = sends_all (isub_message getpid cid rcid <$> [nack_packet junk sk a b]) (ltp_ba (h_ltp s)).
Proof using All.
  intros Hs Hne Hm. pose proof (window_end_answered D s Hs Hne) as Hwe. rewrite Hm in Hwe. eexists. split; [by rewrite (from_server_run _ _ _ _ _ _ _ _ _ _ _ rcid 2 _ _ _ _ s Hr Hwe)|].
  destruct Hs. by split_and!; [constructor|..].
Qed.

Lemma window_end_written D s : expecting D s → D ≠ ∅ → missing (table cs D) n = None → ∃ s',
  arrives (we_packet junk sk n) s = Ok (tt, s') ∧ socket_out s' = socket_out s ++ ((λ fd, Written fd (concat cs)) <$> fds) ∧
  ltp_ba (h_ltp s') = sends_all (isub_message getpid cid rcid <$> [wed_packet junk sk]) (ltp_ba (h_ltp s)).
Proof using All.
  intros Hs Hne Hm. pose proof (window_end_answered D s Hs Hne) as Hwe. rewrite Hm in Hwe. pose proof (expecting_some D s Hs Hne) as Ha. destruct Hs as [_ Hnum _ Hend].
  assert (D = all_numbers cs) as ->.
  { apply set_eq. intros j. rewrite elem_of_all_numbers. split; [apply Hnum|]. intros Hj. pose proof (missing_spec (table cs D) n ltac:(lia) (table_range D Hnum)) as Hsp.
    rewrite Hm in Hsp. destruct (Hsp j Hj) as [x Hx]. rewrite lookup_table in Hx. by destruct (decide (j ∈ D)). }
  set (l1 := on_ltp_ba (sent_to_node (isub_message getpid cid rcid (wed_packet junk sk))) (h_ltp s)) in *.
  set (s2 := on_ltp (λ _, on_received (erase_session rcid' nid sk) l1) (on_ltp (λ _, l1) s)).
  destruct (write_all write_ret retries (concat cs) fds s2 Hdata Hret Hw) as (s3 & H3 & Hout & Hl3).
  eexists. split; [|split].
  - rewrite (from_server_run _ _ _ _ _ _ _ _ _ _ _ rcid 2 _ _ _ _ s Hr Hwe). cbv match.
    rewrite (run_bind _ _ _ (Some (concat cs)) s2) by (apply with_ltp_run; by apply (retrievePacket_run other_int rcid' nid sk cs)).
    unfold sendToEndpoint. rewrite (run_bind _ _ s2 (Some fds) s2) by (unfold hgets, get, mbind, M_bind; by rewrite (wire_hash other_int rcid 2 Hr), <-Hend).
    by rewrite (run_bind _ _ _ _ _ H3).
  - cbn. by rewrite Hout.
  - cbn. by rewrite Hl3.
Qed.
End client.
