(* ===== verification/NapLtpResponseProps.v ===== *)
(** * Properties of responses over the lightweight transport *)
From stdpp Require Import base list gmap sets relations.
From Stdlib Require Import ZArith Lia Bool.
From S2P Require Import Prelude Enums Containers UserLib UserProps Blocks NapTypes NapUTP NapUTPProps NapLtp NapHttp NapLtpPackets NapLtpData NapLtpWire NapLtpRequest NapLtpRequestProps NapLtpResponse.

Local Open Scope Z_scope.

(** ** Publishing a response *)

Section publishing.
Context (other_int : bytes → Z) (getpid : Z) (sendmsg_ret : list (Z * Netlink.addressed bytes) → Z) (junk rand : nat → Z).
Context (mitu ltpInitialCredit ltpRttListSize : Z).

(** The moments that the publishing thread sees, one after the other *)
Fixpoint publisher_run (moments : list moment) (p : Publisher) : M Ltp Publisher :=
  match moments with
  | [] => mret p
  | now :: moments =>
      p ← publisher_step getpid sendmsg_ret junk rand mitu ltpInitialCredit ltpRttListSize (-1) now p;
      publisher_run moments p
  end.

Context (rcid : IcnId) (Hr : http_icn other_int rcid 2) (sk nid : Z) (Hnid : 0 ≤ nid < 10 ^ 8).
Context (room : nat) (Hroom : payload_room (mitu - 72) = Z.of_nat room) (H0 : (0 < room)%nat) (H8 : (room mod 8 = 0)%nat) (Hsm : Z.of_nat room < 65000).
Context (behind : bytes) (Hb : (7 ≤ length behind)%nat).

Lemma sending_run fuel : ∀ moments sent todo num credit l, (length todo ≤ fuel)%nat → len (sent ++ todo) < 65536 → 0 ≤ num → num + len todo < 65536 →
  Z.of_nat (length (chunks fuel room todo)) ≤ credit < 65536 → length moments = Datatypes.S (length (chunks fuel room todo)) →
  let lst := fragment_packets junk sk num behind (chunks fuel room todo) in let n := num + Z.of_nat (length lst) in
  ∃ p', publisher_run moments (mkPub rcid [nid] (sent ++ todo ++ behind) (len (sent ++ todo)) sk num (len sent) credit Sending) l
    = Ok (p', window_end getpid junk rcid sk nid n
        (on_sent (keep_packets (icn_hashed rcid) sk lst) (on_ltp_ba (sends_all (nodes_message getpid rcid [nid] <$> lst.*2)) l))) ∧
    ending rcid sk nid n ENIGMA p'.
Proof using All.
  induction fuel as [|fuel IH]; intros moments sent todo num credit l Hf Hlen Hsn0 Hsn Hcr Hmo lst n.
  all: assert (todo = [] → ∃ p', publisher_run moments (mkPub rcid [nid] (sent ++ todo ++ behind) (len (sent ++ todo)) sk num (len sent) credit Sending) l
    = Ok (p', window_end getpid junk rcid sk nid n
        (on_sent (keep_packets (icn_hashed rcid) sk lst) (on_ltp_ba (sends_all (nodes_message getpid rcid [nid] <$> lst.*2)) l))) ∧
    ending rcid sk nid n ENIGMA p') as Hnil.
  1,3: intros ->; eexists; unfold n, lst; cbn [chunks] in *; destruct moments as [|now [|]]; [done| |done]; cbn [publisher_run]; rewrite !app_nil_r;
    unfold publisher_step; cbn [p_phase p_sent p_size p_rcid p_nodes p_sk p_sn]; rewrite Z.ltb_irrefl; cbv match;
    (erewrite run_bind; [|rewrite (run_bind _ _ _ _ _ (window_end_run other_int getpid sendmsg_ret junk rcid Hr sk nid Hnid num l)); reflexivity]);
    cbn; rewrite Z.add_0_r; (split; [by destruct l|by split_and!]).
  { destruct todo; [by apply Hnil|cbn in Hf; lia]. }
  destruct todo as [|x todo']; [by apply Hnil|]. clear Hnil. set (todo := x :: todo') in *.
  assert (len (sent ++ todo) = len sent + len todo) as Hl by (unfold len; rewrite length_app; lia).
  assert (0 < len todo) as Hpos by (unfold todo, len; cbn; lia). set (c := take room todo).
  change (chunks (Datatypes.S fuel) room todo) with (c :: chunks fuel room (drop room todo)) in *. cbn [length] in Hcr, Hmo.
  destruct moments as [|now moments]; [done|]. cbn [publisher_run]. injection Hmo as Hmo.
  assert (u16 (num + 1) = num + 1) as Eu by (unfold u16; apply Z.mod_small; unfold len in *; lia). pose proof (padding_less (length todo)) as Hpl.
  set (pkt := ltp_fragment junk sk (num + 1) behind c).
  set (l1 := on_sent (inside (icn_hashed rcid) (inside 0 (inside sk (add_new (num + 1) pkt)))) (on_ltp_ba (sent_to_node (nodes_message getpid rcid [nid] pkt)) l)).
  assert (len c = Z.min (Z.of_nat room) (len todo)) as Hlc by (unfold c, len; rewrite length_take; lia).
  assert (u32 (len sent + len c) = len (sent ++ c)) as Es.
  { unfold u32. rewrite Z.mod_small by (unfold len in *; lia). unfold len. rewrite length_app. lia. }
  erewrite run_bind.
  2:{ unfold publisher_step. cbn [p_phase p_sent p_size p_credit]. rewrite (proj2 (Z.ltb_lt _ _)), (proj2 (Z.eqb_neq credit 0)) by lia.
      unfold response_fragment. cbn [p_rcid p_sn p_data p_size p_sent p_sk p_nodes p_credit]. rewrite (run_bind _ _ _ _ _ (icn_length_run rcid 2 l (hi_ok _ _ _ Hr))). cbv zeta.
      replace (mitu - 8 * Z.of_nat 2 - ICN_HEADER_LENGTH - LTP_HDR_DATA - 20) with (mitu - 72) by (unfold ICN_HEADER_LENGTH, LTP_HDR_DATA; lia). rewrite Hroom, Eu.
      rewrite (run_bind _ _ l (len c, pkt) l) by (apply (next_fragment_run junk room H0 H8 Hsm sk (num + 1) sent todo behind l); [done|lia|done]).
      rewrite (run_bind _ _ l false l) by done. cbv match.
      erewrite run_bind; [|apply (publish_nodes_run getpid sendmsg_ret rcid [nid] 2 pkt l (hi_ok _ _ _ Hr)); [by constructor|by apply Nat.ltb_lt]].
      rewrite (run_bind _ _ _ tt l1) by done. rewrite Es. reflexivity. }
  assert (u16 (credit - 1) = credit - 1) as -> by (unfold u16; apply Z.mod_small; lia).
  assert (sent ++ todo ++ behind = (sent ++ c) ++ drop room todo ++ behind) as -> by (unfold c; by rewrite <-app_assoc, (app_assoc (take _ _)), take_drop).
  assert (sent ++ todo = (sent ++ c) ++ drop room todo) as Est by (unfold c; by rewrite <-app_assoc, take_drop). rewrite Est in Hlen |- *.
  assert (len (drop room todo) = len todo - len c) as Hld by (unfold c, len; rewrite length_drop, length_take; lia).
  assert (n = num + 1 + Z.of_nat (length (fragment_packets junk sk (num + 1) behind (chunks fuel room (drop room todo))))) as En
    by (unfold n, lst; rewrite fragment_packets_cons; cbn [length]; lia).
  destruct (IH moments (sent ++ c) (drop room todo) (num + 1) (credit - 1) l1) as (p' & Hrun & Hend); [|done|lia|lia|lia|done|].
  { rewrite length_drop. unfold todo in *. cbn [length] in *. lia. }
  rewrite <-En in Hrun, Hend. exists p'. split; [|done]. rewrite Hrun. unfold lst. rewrite fragment_packets_cons. done.
Qed.
End publishing.

(** ** Rounds *)

Section repair.
Context (other_int : bytes → Z) (getpid : Z) (sendmsg_ret : list (Z * Netlink.addressed bytes) → Z) (junk rand : nat → Z).
Context (mtu mitu ltpInitialCredit ltpRttListSize : Z) (write_ret : nat → option Z) (retries : nat).
Context (fqdn resource : bytes) (own nid : Z).

Notation host := (host other_int fqdn).
Notation page := (page other_int fqdn resource).
Notation at_server := (at_server other_int getpid sendmsg_ret junk rand mtu ltpInitialCredit write_ret retries fqdn resource own nid).
Notation at_client := (at_client other_int getpid sendmsg_ret junk rand mtu ltpInitialCredit write_ret retries fqdn resource nid).
Notation step := (publisher_step getpid sendmsg_ret junk rand mitu ltpInitialCredit ltpRttListSize (-1)).

(** A server's attachment point with the publisher of a response, and the
    attachment point of the client.  In a round the timer of the publisher ends,
    and what is published because of it arrives. *)
Definition world : Type := NapHttp * Publisher * NapHttp.

Inductive round : world → world → Prop :=
| Round sv p cl p' sv1 sv2 cl1 cl2 ends answers repairs :
    with_ltp (step Timeout p) sv = Ok (p', sv1) →
    ltp_ba (h_ltp sv1) = sends_all (nodes_message getpid page [nid] <$> ends) (ltp_ba (h_ltp sv)) →
    for_each ends at_client cl = Ok (tt, cl1) →
    ltp_ba (h_ltp cl1) = sends_all (isub_message getpid host page <$> answers) (ltp_ba (h_ltp cl)) →
    for_each answers at_server sv1 = Ok (tt, sv2) →
    ltp_ba (h_ltp sv2) = sends_all (nodes_message getpid page [nid] <$> repairs) (ltp_ba (h_ltp sv1)) →
    for_each repairs at_client cl1 = Ok (tt, cl2) →
    round (sv, p, cl) (sv2, p', cl2).

Context (sk : Z) (Hsk : 0 ≤ sk < 65536) (Hnid : 0 ≤ nid < 10 ^ 8).
Context (cs : list bytes) (behind : bytes) (Hcs : Forall (λ c, len c < 65536) cs) (Hn : 1 ≤ Z.of_nat (length cs) < 65535) (Hb : (7 ≤ length behind)%nat).
Context (fds : list Z) (Hw : ∀ i, write_ret i = Some (len (concat cs))) (Hret : (0 < retries)%nat) (Hdata : concat cs ≠ []) (Hlen : len (concat cs) < 65536).

Notation h := (icn_hashed page).
Notation n := (Z.of_nat (length cs)).
Notation packets := (list_to_map (fragment_packets junk sk 0 behind cs) : gmap Z bytes).
Notation serving := (serving page sk nid packets).
Notation flag := (flag page sk nid).
Notation ending := (ending page sk nid n).
Notation expecting := (expecting other_int host page sk nid cs fds).

Lemma packets_part j : numbered cs j → packets !! j = Some (ltp_fragment junk sk j behind (part cs j)).
Proof. intros Hj. apply elem_of_list_to_map; [apply fragment_packets_keys|by apply fragment_packets_lookup]. Qed.

Lemma packets_all j : 1 ≤ j ≤ n → is_Some (packets !! j).
Proof. intros Hj. by rewrite packets_part. Qed.

Lemma round_missing a p sv cl D first last : serving (h_ltp sv) → ending a p → a ≠ 1 → expecting D cl → D ≠ ∅ → missing (table cs D) n = Some (first, last) →
  ∃ sv' p' cl', round (sv, p, cl) (sv', p', cl') ∧ serving (h_ltp sv') ∧ ending (a - 1) p' ∧
    expecting (list_to_set (range first last) ∪ D) cl' ∧ socket_out cl' = socket_out cl.
Proof using All.
  intros Hs He Ha Hx Hne Hm. pose proof (url_icn other_int fqdn resource) as Hr. pose proof (fqdn_icn other_int fqdn) as Hh.
  destruct (timeout_run other_int getpid sendmsg_ret junk rand mitu ltpInitialCredit ltpRttListSize page Hr sk nid Hnid n a p (h_ltp sv) He Ha) as (p' & Hstep & He').
  set (l1 := window_end getpid junk page sk nid n (h_ltp sv)) in *.
  destruct (window_end_missing other_int getpid sendmsg_ret junk rand mtu ltpInitialCredit write_ret retries host page (hi_ok _ _ _ Hh) Hr sk Hsk nid Hnid cs behind Hcs Hn Hb
    fds Hw Hret Hdata Hlen D cl first last Hx Hne Hm) as (cl1 & Hcl1 & Hx1 & Ho1 & Hba1).
  pose proof (missing_spec (table cs D) n ltac:(lia) (table_range cs D (ex_numbers _ _ _ _ _ _ _ _ _ Hx))) as Hsp. rewrite Hm in Hsp. destruct Hsp as (H1 & H2 & H3 & _).
  destruct (nack_served other_int getpid sendmsg_ret junk rand mitu ltpInitialCredit ltpRttListSize page Hr sk Hsk nid Hnid packets n Hn packets_all l1 first last
    (window_end_serving _ _ _ _ _ _ _ _ Hs) (window_end_flag _ _ _ _ _ _ _) H1 H2 H3) as (l2 & Hl2 & Hs2 & Hba2).
  assert (Forall (numbered cs) (range first last)) as Hnum by (apply Forall_forall; intros j Hj%elem_of_range; unfold numbered; lia).
  destruct (fragments_expected other_int getpid sendmsg_ret junk rand mtu ltpInitialCredit write_ret retries host page (hi_ok _ _ _ Hh) Hr sk Hsk nid Hnid cs behind Hcs Hn Hb
    fds Hw Hret Hdata Hlen (range first last) D cl1 Hx1 Hnum) as (cl2 & Hcl2 & Hx2 & _ & Ho2).
  exists (on_ltp (λ _, l2) (heard_from page nid (on_ltp (λ _, l1) sv))), p', cl2. split_and!; [|exact Hs2|done|done|congruence].
  eapply (Round sv p cl p' (on_ltp (λ _, l1) sv) _ cl1 cl2 [we_packet junk sk n] [nack_packet junk sk first last]
    ((λ j, ltp_fragment junk sk j behind (part cs j)) <$> range first last)).
  - by apply with_ltp_run.
  - done.
  - cbn [for_each]. unfold at_client. by rewrite (run_bind _ _ _ _ _ Hcl1).
  - exact Hba1.
  - cbn [for_each]. unfold at_server. erewrite run_bind; [reflexivity|].
    by rewrite (from_client_run _ _ _ _ _ _ _ _ _ _ _ host page 2 nid _ _ _ l2 (on_ltp (λ _, l1) sv) Hh Hr Hnid Hl2).
  - cbn [h_ltp on_ltp]. rewrite Hba2. f_equal. rewrite <-list_fmap_compose. apply list_fmap_ext. intros i j Hj%list_elem_of_lookup_2. cbn.
    rewrite Forall_forall in Hnum. by rewrite packets_part by (by apply Hnum).
  - exact Hcl2.
Qed.

Lemma round_complete a p sv cl D : serving (h_ltp sv) → ending a p → a ≠ 1 → expecting D cl → D ≠ ∅ → missing (table cs D) n = None →
  ∃ sv' p' cl', round (sv, p, cl) (sv', p', cl') ∧ ending (a - 1) p' ∧ flag (h_ltp sv') = Some true ∧ at3 h 0 sk (ltpPacketBuffer (h_ltp sv')) = None ∧
    socket_out cl' = socket_out cl ++ ((λ fd, Written fd (concat cs)) <$> fds).
Proof using All.
  intros Hs He Ha Hx Hne Hm. pose proof (url_icn other_int fqdn resource) as Hr. pose proof (fqdn_icn other_int fqdn) as Hh.
  destruct (timeout_run other_int getpid sendmsg_ret junk rand mitu ltpInitialCredit ltpRttListSize page Hr sk nid Hnid n a p (h_ltp sv) He Ha) as (p' & Hstep & He').
  set (l1 := window_end getpid junk page sk nid n (h_ltp sv)) in *.
  destruct (window_end_written other_int getpid sendmsg_ret junk rand mtu ltpInitialCredit write_ret retries host page (hi_ok _ _ _ Hh) Hr sk Hsk nid Hnid cs behind Hcs Hn Hb
    fds Hw Hret Hdata Hlen D cl Hx Hne Hm) as (cl1 & Hcl1 & Ho1 & Hba1).
  destruct (wed_served other_int getpid sendmsg_ret junk rand page Hr sk Hsk nid Hnid packets l1 false
    (window_end_serving _ _ _ _ _ _ _ _ Hs) (window_end_flag _ _ _ _ _ _ _)) as (l2 & Hl2 & Hf2 & Hba2 & Hbuf).
  exists (on_ltp (λ _, l2) (heard_from page nid (on_ltp (λ _, l1) sv))), p', cl1. split_and!; [|done|exact Hf2|exact Hbuf|done].
  eapply (Round sv p cl p' (on_ltp (λ _, l1) sv) _ cl1 cl1 [we_packet junk sk n] [wed_packet junk sk] []).
  - by apply with_ltp_run.
  - done.
  - cbn [for_each]. unfold at_client. by rewrite (run_bind _ _ _ _ _ Hcl1).
  - exact Hba1.
  - cbn [for_each]. unfold at_server. erewrite run_bind; [reflexivity|].
    by rewrite (from_client_run _ _ _ _ _ _ _ _ _ _ _ host page 2 nid _ _ _ l2 (on_ltp (λ _, l1) sv) Hh Hr Hnid Hl2).
  - exact Hba2.
  - done.
Qed.

(** Two ranges are enough. *)
Lemma rounds_run a p sv cl D : serving (h_ltp sv) → ending a p → 3 < a → expecting D cl → D ≠ ∅ →
  ∃ k sv' p' cl', (k ≤ 3)%nat ∧ nsteps round k (sv, p, cl) (sv', p', cl') ∧ (∃ a', ending a' p') ∧ flag (h_ltp sv') = Some true ∧
    at3 h 0 sk (ltpPacketBuffer (h_ltp sv')) = None ∧ socket_out cl' = socket_out cl ++ ((λ fd, Written fd (concat cs)) <$> fds).
Proof using All.
  intros Hs He Ha Hx Hne. pose proof (table_range cs D (ex_numbers _ _ _ _ _ _ _ _ _ Hx)) as Hrange.
  destruct (missing (table cs D) n) as [[f l]|] eqn:Em.
  2:{ destruct (round_complete a p sv cl D Hs He ltac:(lia) Hx Hne Em) as (sv' & p' & cl' & Hrd & He' & Hf & Hbuf & Ho).
      exists 1%nat, sv', p', cl'. split_and!; [lia|by apply nsteps_once|by exists (a - 1)|done..]. }
  destruct (round_missing a p sv cl D f l Hs He ltac:(lia) Hx Hne Em) as (sv1 & p1 & cl1 & Hrd1 & Hs1 & He1 & Hx1 & Ho1).
  set (D1 := list_to_set (range f l) ∪ D) in *. assert (D1 ≠ ∅) as Hne1 by set_solver.
  destruct (missing (table cs D1) n) as [[f1 l1]|] eqn:Em1.
  2:{ destruct (round_complete (a - 1) p1 sv1 cl1 D1 Hs1 He1 ltac:(lia) Hx1 Hne1 Em1) as (sv' & p' & cl' & Hrd & He' & Hf & Hbuf & Ho).
      exists 2%nat, sv', p', cl'. split_and!; [lia|by eapply nsteps_l, nsteps_once|by exists (a - 1 - 1)|done..|by rewrite Ho, Ho1]. }
  destruct (round_missing (a - 1) p1 sv1 cl1 D1 f1 l1 Hs1 He1 ltac:(lia) Hx1 Hne1 Em1) as (sv2 & p2 & cl2 & Hrd2 & Hs2 & He2 & Hx2 & Ho2).
  set (D2 := list_to_set (range f1 l1) ∪ D1) in *. assert (D2 ≠ ∅) as Hne2 by set_solver.
  assert (∀ D k, numbered cs k → table cs D !! k = None ↔ k ∉ D) as Htab.
  { intros E k _. rewrite lookup_table. destruct (decide (k ∈ E)); by split. }
  pose proof (table_range cs D1 (ex_numbers _ _ _ _ _ _ _ _ _ Hx1)) as Hrange1.
  assert (is_Some (table cs D1 !! 1) ∧ is_Some (table cs D1 !! n)) as [Hfirst Hlast].
  { pose proof (missing_covers (table cs D) n ltac:(lia) Hrange (table_some cs D Hne)) as Hc. rewrite Em in Hc.
    pose proof (missing_spec (table cs D1) n ltac:(lia) Hrange1) as Hsp. rewrite Em1 in Hsp. destruct Hsp as (? & ? & ? & k & Hk & Hnone).
    assert (∀ j, f ≤ j ≤ l → is_Some (table cs D1 !! j)) as Hin by (intros j Hj%elem_of_range; rewrite lookup_table, decide_True; [done|set_solver]).
    assert (∀ j, is_Some (table cs D !! j) → is_Some (table cs D1 !! j)) as Hup.
    { intros j [x Hj]. rewrite lookup_table in *. destruct (decide (j ∈ D)); [|done]. by rewrite decide_True by set_solver. }
    destruct Hc as [Hc|[(-> & -> & Hcn)|(-> & -> & Hc1)]].
    - exfalso. apply Htab in Hnone; [|unfold numbered; lia]. assert (f ≤ k ≤ l) as Hkr by (apply Hc; [lia|]; apply Htab; [unfold numbered; lia|set_solver]).
      destruct Hnone. apply elem_of_union. left. by apply elem_of_list_to_set, elem_of_range.
    - split; [apply Hin; lia|by apply Hup].
    - split; [by apply Hup|apply Hin; lia]. }
  assert (missing (table cs D2) n = None) as Em2.
  { pose proof (missing_spec (table cs D2) n ltac:(lia) (table_range cs D2 (ex_numbers _ _ _ _ _ _ _ _ _ Hx2))) as Hsp.
    destruct (missing (table cs D2) n) as [[f2 l2]|]; [|done]. exfalso. destruct Hsp as (? & ? & ? & k & Hk & Hnone). apply Htab in Hnone; [|unfold numbered; lia].
    pose proof (missing_covers_ends (table cs D1) n f1 l1 ltac:(lia) Hrange1 Hfirst Hlast Em1 k ltac:(lia)) as Hc.
    destruct Hnone. apply elem_of_union. destruct (decide (k ∈ D1)) as [|Hk1]; [by right|]. left. apply elem_of_list_to_set, elem_of_range, Hc, Htab; [unfold numbered; lia|done]. }
  destruct (round_complete (a - 1 - 1) p2 sv2 cl2 D2 Hs2 He2 ltac:(lia) Hx2 Hne2 Em2) as (sv' & p' & cl' & Hrd & He' & Hf & Hbuf & Ho).
  exists 3%nat, sv', p', cl'. split_and!; [lia|by eapply nsteps_l, nsteps_l, nsteps_once|by exists (a - 1 - 1 - 1)|done..|by rewrite Ho, Ho2, Ho1].
Qed.
End repair.

(** The fragments of a response *)
Definition response_fragments (mitu : Z) (data : bytes) : list bytes := parts (Z.to_nat (payload_room (mitu - 72))) data.

(** C37. A response that fits in one window is repaired.  The response has at
    most ltpInitialCredit fragments, so that it is sent without the exchange of
    window updates; the group of the session is the node of one client, and no
    group of nodes waits for the repair of this resource yet.  The server's
    attachment point publishes the response and the end of the window; when at
    least one fragment has arrived at the client's attachment point, and from
    then on what is published arrives, three rounds are enough (two of them ask
    for a range of fragments, whatever is missing) until exactly the response
    is written to all endpoints of the client that wait for it; the server's
    attachment point has then deleted its packets and the publisher leaves at
    its next look. *)
Theorem ltp_response_repaired (other_int : bytes → Z) (getpid : Z) (sendmsg_ret : list (Z * Netlink.addressed bytes) → Z) (junk rand : nat → Z)
    (mtu mitu ltpInitialCredit ltpRttListSize : Z) (write_ret : nat → option Z) (retries : nat) (fqdn resource : bytes) (own nid sk attempts : Z)
    (first : bool) (data behind : bytes) (moments : list moment) (fds : list Z) (sv cl : NapHttp) :
  let host := host other_int fqdn in let page := page other_int fqdn resource in let h := icn_hashed page in
  let at_client := at_client other_int getpid sendmsg_ret junk rand mtu ltpInitialCredit write_ret retries fqdn resource nid in
  let rounds := nsteps (round other_int getpid sendmsg_ret junk rand mtu mitu ltpInitialCredit ltpRttListSize write_ret retries fqdn resource own nid) in
  8 ≤ mitu - 72 < 65000 → data ≠ [] → len data < 65535 → (7 ≤ length behind)%nat → 0 ≤ sk < 65536 → 0 ≤ nid < 10 ^ 8 → attempts ≠ 0 →
  Z.of_nat (length (response_fragments mitu data)) ≤ ltpInitialCredit < 65536 → length moments = Datatypes.S (length (response_fragments mitu data)) →
  at3 h 0 sk (ltpPacketBuffer (h_ltp sv)) = None → at3 h 0 sk (cmcGroups (h_ltp sv)) = Some [nid] → at2 h 0 (nackGroups (h_ltp sv)) = None →
  arrived (on_wire other_int page) nid sk (h_ltp cl) = None → cIdReverseLookUp (h_ltp cl) !! h = Some host →
  at2 h 0 (ipEndpointSessions cl) = Some fds → (∀ i, write_ret i = Some (len data)) → (0 < retries)%nat →
  ∃ p0 p1 sv1 packets we,
    handleResponse ltpInitialCredit page sk first (data ++ behind) (len data) attempts sv = Ok (Publishing p0, sv) ∧
    with_ltp (publisher_run getpid sendmsg_ret junk rand mitu ltpInitialCredit ltpRttListSize moments p0) sv = Ok (p1, sv1) ∧
    ltp_ba (h_ltp sv1) = sends_all (nodes_message getpid page [nid] <$> packets ++ [we]) (ltp_ba (h_ltp sv)) ∧ length packets = length (response_fragments mitu data) ∧
    ∀ arrivals, arrivals ≠ [] → (∀ p, p ∈ arrivals → p ∈ packets) → ∃ cl1 k sv2 p2 cl2,
      for_each arrivals at_client cl = Ok (tt, cl1) ∧ (k ≤ 3)%nat ∧ rounds k (sv1, p1, cl1) (sv2, p2, cl2) ∧
      socket_out cl2 = socket_out cl ++ ((λ fd, Written fd data) <$> fds) ∧ at3 h 0 sk (ltpPacketBuffer (h_ltp sv2)) = None ∧
      ∀ waited, ∃ p3 l3, publisher_step getpid sendmsg_ret junk rand mitu ltpInitialCredit ltpRttListSize (-1) (Poll waited) p2 (h_ltp sv2) = Ok (p3, l3) ∧ p_phase p3 = Done.
Proof.
  intros host page h at_client rounds Hm Hne Hd Hb Hsk Hnid Hat Hcr Hmo Hbuf Hgr Hna Ha Hho Hend Hw Hret.
  destruct (payload_room_ok (mitu - 72) Hm) as (room & Hroom & H0 & H8 & Hs).
  assert (response_fragments mitu data = parts room data) as Ep by (unfold response_fragments; by rewrite Hroom, Nat2Z.id). rewrite Ep in Hcr, Hmo |- *. clear Ep.
  set (cs := parts room data) in *. assert (concat cs = data) as Hcat by (by apply chunks_concat).
  assert (cs ≠ []) as Hcne by (intros E; by rewrite E in Hcat).
  assert (Forall (λ x, len x < 65536) cs) as Hcs by (apply Forall_forall; intros x Hx%chunks_short; unfold len; lia).
  assert (1 ≤ Z.of_nat (length cs) < 65535) as Hn.
  { assert (length cs ≤ length data)%nat as Hle by (by apply chunks_count). assert (length cs ≠ 0%nat) as Hz by (by intros E%length_zero_iff_nil). unfold len in Hd. lia. }
  set (lst := fragment_packets junk sk 0 behind cs). assert (length lst = length cs) as Hll by (apply length_imap).
  destruct (sending_run other_int getpid sendmsg_ret junk rand mitu ltpInitialCredit ltpRttListSize page (url_icn _ _ _) sk nid Hnid room Hroom H0 H8 Hs behind Hb
    (length data) moments [] data 0 ltpInitialCredit (h_ltp sv)) as (p1 & Hrun & Hending); [lia|cbn; lia|lia|lia|done|done|].
  fold (parts room data) in Hrun, Hending. fold cs in Hrun, Hending. fold lst in Hrun, Hending. rewrite Hll, Z.add_0_l in Hrun, Hending. cbn [app] in Hrun. change (len []) with 0 in Hrun.
  set (l1 := window_end getpid junk page sk nid (Z.of_nat (length cs)) _) in Hrun.
  exists (publish_response ltpInitialCredit page sk [nid] (data ++ behind) (len data)), p1, (on_ltp (λ _, l1) sv), lst.*2, (we_packet junk sk (Z.of_nat (length cs))). split_and!.
  - unfold handleResponse. rewrite (run_bind _ _ sv (false, [nid]) sv).
    + by rewrite (proj2 (Z.eqb_neq attempts 0)).
    + unfold http_getCmcGroup. rewrite (run_bind _ _ sv (Some [nid]) sv); [done|].
      unfold with_ltp, getCmcGroup, gets, get, mbind, M_bind. unfold h in Hgr. rewrite Hgr. by destruct sv.
  - by apply with_ltp_run.
  - cbn [h_ltp on_ltp l1 window_end ltp_ba on_ltp_ba on_responses on_sent]. rewrite fmap_app. unfold sends_all. by rewrite foldl_app.
  - by rewrite length_fmap.
  - intros arrivals Harr Hin. destruct (packets_numbered junk sk behind cs arrivals Hin) as (js & Hjs & ->).
    rewrite <-Hcat in Hw. assert (concat cs ≠ []) as Hcc by (by rewrite Hcat). assert (len (concat cs) < 65536) as Hlen by (rewrite Hcat; lia).
    pose proof (hi_ok _ _ _ (fqdn_icn other_int fqdn)) as Hh.
    destruct (fragments_expected other_int getpid sendmsg_ret junk rand mtu ltpInitialCredit write_ret retries host page Hh (url_icn _ _ _) sk Hsk nid Hnid cs behind Hcs Hn Hb
      fds Hw Hret Hcc Hlen js ∅ cl) as (cl1 & Hcl1 & Hx & _ & Ho1); [constructor; [|set_solver|done|done]|done|].
    { rewrite Ha. cbn [default from_option]. symmetry. apply map_eq. intros j. rewrite lookup_table, decide_False, lookup_empty by set_solver. done. }
    assert (serving page sk nid (list_to_map lst) l1) as Hsv.
    { constructor; [|done|done]. cbn [l1 window_end ltpPacketBuffer on_ltp_ba on_responses on_sent]. apply keep_packets_session; [|apply fragment_packets_keys|done].
      intros E. rewrite E in Hll. cbn in Hll. lia. }
    destruct (rounds_run other_int getpid sendmsg_ret junk rand mtu mitu ltpInitialCredit ltpRttListSize write_ret retries fqdn resource own nid sk Hsk Hnid cs behind Hcs Hn Hb
      fds Hw Hret Hcc Hlen ENIGMA p1 (on_ltp (λ _, l1) sv) cl1 (list_to_set js ∪ ∅) Hsv Hending ltac:(done) Hx) as (k & sv2 & p2 & cl2 & Hk & Hrs & (a' & Hend2) & Hf & Hb2 & Ho2).
    { destruct js; [by destruct Harr|set_solver]. }
    exists cl1, k, sv2, p2, cl2. rewrite Hcat in Ho2. split_and!; [exact Hcl1|done|exact Hrs|by rewrite Ho2, Ho1|done|].
    intros waited. by apply (poll_done getpid sendmsg_ret junk rand mitu ltpInitialCredit ltpRttListSize page sk nid (Z.of_nat (length cs)) a' p2 (h_ltp sv2) waited).
Qed.

(** ** An example: two fragments, of which the second arrives *)

Definition a_page : IcnId := page no_other [112; 47] [97].
Definition a_server_state : NapHttp :=
  on_ltp (on_groups (λ _, {[ icn_hashed a_page := {[ 0 := {[ 5 := [7] ]} ]} ]})) some_http.
Definition a_client_state : NapHttp :=
  on_ltp (on_reverse (λ _, {[ icn_hashed a_page := a_host ]})) (on_endpoints (λ _, {[ icn_hashed a_page := {[ 0 := [5; 6] ]} ]}) some_http).

Lemma ltp_response_repaired_witness : ∃ p1 sv1 packets cl1 k sv2 p2 cl2,
  nsteps (round no_other 1 (λ _, 0) zeros zeros 96 80 10 5 (λ _, Some 11) 1 [112; 47] [97] 1 7) k (sv1, p1, cl1) (sv2, p2, cl2) ∧
  for_each (drop 1 packets) (at_client no_other 1 (λ _, 0) zeros zeros 96 10 (λ _, Some 11) 1 [112; 47] [97] 7) a_client_state = Ok (tt, cl1) ∧
  socket_out cl2 = [Written 5 some_request; Written 6 some_request].
Proof.
  destruct (ltp_response_repaired no_other 1 (λ _, 0) zeros zeros 96 80 10 5 (λ _, Some 11) 1 [112; 47] [97] 1 7 5 3 true some_request eight [Timeout; Poll 3; Timeout] [5; 6]
    a_server_state a_client_state) as (p0 & p1 & sv1 & packets & we & _ & _ & _ & Hl & Hall);
    [lia|done|done|apply Nat.leb_le; reflexivity|lia|lia|done|vm_compute; split; [discriminate|reflexivity]|vm_compute; reflexivity..|intros i; reflexivity|lia|].
  assert (drop 1 packets ≠ []) as Hne.
  { intros E%(f_equal length). rewrite length_drop, Hl in E. vm_compute in E. discriminate E. }
  destruct (Hall (drop 1 packets) Hne) as (cl1 & k & sv2 & p2 & cl2 & Hcl & _ & Hr & Ho & _).
  { intros p Hp. eapply elem_of_submseteq; [exact Hp|]. apply sublist_submseteq, sublist_drop. }
  exists p1, sv1, packets, cl1, k, sv2, p2, cl2. split; [exact Hr|]. split; [exact Hcl|exact Ho].
Defined.
